(* ===== verification/_CoqProject ===== *)
-Q . S2P
Prelude.v
Codec.v
Keeps.v
Feed.v
TransactionStore.v
TransactionClient.v
TransactionCodec.v
TransactionMedium.v
TransactionCrash.v
SerialSession.v
SerialRouter.v
SerialRouterPool.v
SerialRouterSpec.v
SerialUsbBridge.v
SerialService.v
SerialServiceInvariant.v
SerialServiceSafety.v
SerialReceive.v
CString.v
Print.v
OtaTransaction.v
OtaSafety.v
CompanionFailover.v
SerialFrame.v
RequestTracker.v
TransportAuthority.v
LinkTiming.v
LinkFrame.v
TransportFence.v
Ring.v
DiagnosticRing.v
SetupQueue.v
ResponseBarrier.v
Random.v
SetupConfirmation.v
SetupMode.v
DeviceSettings.v
WifiConfig.v
ProfileText.v
ProfileSet.v
CompanionProfiles.v
Utf8.v
JsonParser.v
JsonGrammar.v
JsonLayout.v
JsonParserSpec.v
SnapshotDocument.v
SnapshotTime.v
SnapshotPrivacy.v
SnapshotValidate.v
SnapshotProject.v
SnapshotSample.v
SnapshotSpec.v
SnapshotProjectSpec.v
SnapshotStore.v
SnapshotStoreSpec.v
SnapshotStoreSample.v
SnapshotStoreSafety.v
SnapshotStoreCrash.v
SnapshotStoreWorker.v
DeviceProtocol.v
DeviceGrammar.v
DeviceMembers.v
DeviceProtocolSpec.v
DeviceDispatch.v
AiPageView.v
AiPageText.v
M0View.v
M0ViewSpec.v
AiPageTime.v
SetupHttp.v
SetupForm.v
SetupNumbers.v
SetupStatus.v
OtaService.v
OtaServiceSafety.v
OtaServiceProgress.v
OtaBoot.v
