(* ===== verification/Prelude.v ===== *)
(** * S3 RLCD Deck firmware: verification library

    The firmware of the S3 RLCD Deck (an ESP32-S3 with a reflective display)
    shows the state of AI tools that a desktop Companion sends over a
    WebSocket, bridges a serial port to USB or to a Web terminal, keeps its
    configuration in flash, and updates itself over the same link.  This
    library models the decision-making components under
    [src/firmware/components]: the code between the drivers and the tasks.
    All source files below are relative to that directory.

    ** The program's parts and the files that model them

    _Persistent configuration._  [transaction_store/deck_transaction_store.cpp]
    keeps one versioned record in two slots, a candidate and an active marker.
    - [Codec.v]: [read_u16/32/64] and [write_u16/32/64] of both byte orders
      and [crc32].
    - [TransactionStore.v]: record and marker codec, [create] with the recovery
      of both slots, [stage], [commit] with its rollback, [clear], [snapshot],
      over an adapter class ([StorageAdapter]: the adapter's function pointers,
      and the heap).
    - [TransactionClient.v]: what a client of the store may rely on.
      [TransactionCodec.v]: [record_roundtrip], [marker_roundtrip].
      [TransactionMedium.v]: a flash medium that loses power after any number
      of mutations, and what a restart recovers.  [TransactionCrash.v]:
      [store_refines_register], [commit_survives_power_loss],
      [clear_survives_power_loss], [commit_publishes_all_or_nothing],
      [faulted_store_is_latched].

    Its clients, each with a store of its own:
    - [DeviceSettings.v] ([device_settings/deck_device_settings.cpp], the
      temperature offset): [settings_apply_exactly],
      [settings_survive_power_loss].
    - [WifiConfig.v] ([wifi_config/deck_wifi_config.cpp], the network in force
      and the one on trial, over the class [WifiValidation] of Wi-Fi drivers):
      [wifi_record_codec], [only_connected_networks_in_force].
    - [companion_profiles/deck_companion_profiles.cpp], the paired Companions:
      [ProfileText.v] validates addresses, codes and keys
      ([validators_decide_grammars]); [ProfileSet.v] is the stored set and its
      codec ([stored_set_roundtrip]); [CompanionProfiles.v] has the operations
      over the class [PairingAdapter] ([pairing_follows_the_book],
      [updates_follow_the_book], [readers_show_the_book]).

    _AI snapshot._  [ai_snapshot/deck_ai_snapshot.cpp] takes the JSON document
    the Companion sends, refuses what is malformed, private or of another
    version, and projects the rest into the records the screens show.
    - [Utf8.v]: [valid_utf8] ([valid_utf8_spec]).
    - [JsonParser.v]: the classes [Parser] and [Document] up to
      [decode_ascii], with the node array and its child and sibling links.
      [JsonGrammar.v]: trees and their texts.  [JsonLayout.v]: the node array
      of a tree.  [JsonParserSpec.v]: [parser_decides_grammar].
    - [SnapshotDocument.v]: the other methods of [Document] and the checks of
      scalars.  [SnapshotTime.v]: [parse_canonical_utc]
      ([canonical_utc_times]).  [SnapshotPrivacy.v]: private keys and absolute
      paths.  [SnapshotValidate.v]: the schema checks,
      [deck_ai_snapshot_validate] and the retained document.
      [SnapshotProject.v]: both projections.
    - [SnapshotSample.v]: a document for the witnesses.  [SnapshotSpec.v]:
      [accepted_snapshot_is_private], [accepted_snapshot_schema],
      [retained_is_last_accepted].  [SnapshotProjectSpec.v]:
      [featured_session_is_best], [accepted_snapshot_projects].

    [ai_snapshot/deck_ai_snapshot_store.cpp] keeps the document for the screens
    and lets a private worker save checkpoints of it in a transactional store.
    - [SnapshotStore.v]: the callers' operations and the worker.
      [SnapshotStoreSpec.v]: runs of both in any interleaving, and their
      invariant.  [SnapshotStoreSample.v]: concrete runs for the witnesses.
    - [SnapshotStoreSafety.v]: [readers_see_the_newest_document],
      [apply_takes_the_strictly_newer], [the_queued_document_is_saved],
      [persisted_state_is_truthful].  [SnapshotStoreWorker.v]:
      [worker_settles], [checkpoints_are_half_an_hour_apart].
      [SnapshotStoreCrash.v]: [snapshot_survives_power_loss].

    _Serial bridge._  [serial_service/deck_serial_session.cpp] decides who may
    transmit on the UART; [serial_service/deck_serial_router.cpp] fans the
    received bytes out to up to four sinks over one pool of blocks;
    [companion_link/deck_serial_frame.cpp] carries blocks over the link and
    [companion_link/deck_serial_request_tracker.cpp] correlates the requests.
    - [SerialSession.v]: every operation over the class [SerialHardware];
      [serial_session_invariant], [transmit_is_exclusive],
      [disarmed_session_releases_tx], [owner_change_fences_usb],
      [web_lease_is_bounded], [web_request_is_idempotent].
    - [SerialRouter.v]: every operation.  [SerialRouterPool.v]: rings, reference
      counts, free list.  [SerialRouterSpec.v]: the queues they implement;
      [router_refines_queues], [router_always_accepts], [router_pool_is_sound].
    - [SerialFrame.v]: [frame_codec_is_bijective], [accepted_frames_advance].
      [RequestTracker.v]: [tracker_refines_table].

    [serial_service/deck_serial_usb_bridge.cpp] pumps between router and USB
    driver; [deck_serial_service.cpp] puts all of it to work: its owner task
    holds the session and is the only one to write to the target UART, its
    receive tasks feed the router.
    - [SerialUsbBridge.v]: every operation over the class [UsbIo];
      [usb_carries_both_directions].
    - [SerialService.v]: the owner task ([owner_task], command by command and
      block by block), the functions the application, the link task and the
      USB input task call ([caller_step]), and the hardware adapter of the
      session.  [SerialServiceInvariant.v]: what all of them keep, on
      [Feed.v], the numbered blocks of one source with the writes of them.
      [SerialServiceSafety.v]: [uart_bytes_are_authorized].
    - [SerialReceive.v]: [uart_rx_task] and [router_task] around their queues
      of blocks; [received_bytes_are_routed_in_order].

    _Firmware update._  [ota_service/deck_ota_transaction.cpp] takes a signed
    manifest and an image, and selects the boot partition;
    [ota_service/deck_ota_transport_fence.cpp] fences a commit against the
    abort of the transport that asked for it.
    - [OtaTransaction.v]: every operation over the class [OtaAdapters], the
      version and board parsers.  [OtaSafety.v]:
      [ota_boots_only_verified_images], [ota_transfer_completes],
      [strictly_newer_is_strict_order], [parse_semantic_core_spec].
    - [TransportFence.v]: the methods as programs of atomic accesses, and the
      system of any number of threads that run them; [fence_is_linearizable],
      [abort_fences_commit], [fence_methods_return].

    [ota_service/deck_ota_service.cpp] runs the transaction behind the fence:
    a worker task over ESP-IDF, to which the link task hands offers, chunks and
    aborts.
    - [OtaService.v]: the worker ([ota_task], [ota_turn]), the functions of the
      link task ([link_step]) and the adapters of the transaction.
      [OtaServiceSafety.v]: [ota_service_is_fenced].  [OtaServiceProgress.v]:
      [abort_requests_are_served], [memory_is_safe_without_aborts],
      [signature_covers_manifest].
    - [OtaBoot.v]: [ota_service/deck_ota_boot_health.cpp] and the boot guard
      of the service; [boot_guard_decides_rightly].

    _Companion link._  [companion_link/deck_companion_failover.cpp] chooses the
    Companion, [deck_companion_transport_authority.cpp] what its transport may
    send, [deck_companion_link_timing.cpp] when it is dead and what time it is,
    [deck_companion_link_frame.cpp] reassembles its messages.
    - [CompanionFailover.v]: [failover_connects_only_when_due],
      [failover_round_tries_everyone_once].  [TransportAuthority.v]:
      [authority_follows_history].  [LinkTiming.v]:
      [retry_delay_is_capped_exponential], [server_expires_after_silence],
      [trusted_clock_never_goes_back].  [LinkFrame.v]:
      [accept_appends_or_refuses], [messages_are_reassembled].

    Its messages: [companion_link/deck_device_protocol.cpp] parses the control
    messages with a cursor of its own and compares certificate fingerprints;
    [deck_companion_link_message.cpp] dispatches what the server sends.
    - [DeviceProtocol.v]: both files.  [DeviceGrammar.v]: the texts of a flat
      message, and that the cursor reads them.  [DeviceMembers.v]: the loop
      over the members, for every member function of the class
      [ReadsMembers].  [DeviceProtocolSpec.v]:
      [serial_control_parser_is_exact], [diagnostics_parser_is_exact],
      [heartbeat_parser_is_exact], [hello_validation_is_exact].
      [DeviceDispatch.v]: [fingerprint_comparison_is_exact],
      [server_messages_are_dispatched].

    _Health._  [health/deck_diagnostic_ring.cpp] keeps the last events and
    prints them as JSON: [DiagnosticRing.v] (on [Ring.v]);
    [ring_keeps_the_latest], [ring_snapshot_always_formats].

    _Setup mode._  [setup_mode/deck_setup_mode.cpp] opens the device's own
    network, [deck_setup_command_queue.cpp] passes commands to the worker,
    [deck_setup_response_barrier.cpp] waits for a client's acknowledgement,
    [deck_setup_confirmation.cpp] guards destructive commands.
    - [SetupMode.v]: [setup_session_refines_spec].  [SetupQueue.v] (on
      [Ring.v]): [queue_is_fifo_and_wipes].  [ResponseBarrier.v]:
      [barrier_refines_table].  [SetupConfirmation.v]:
      [confirmation_is_one_time].  [Random.v]: the class [RandomSource] both
      session and confirmation draw from.

    [setup_mode/deck_setup_http.cpp] reads the requests of the portal and
    writes its status.
    - [SetupHttp.v]: the whole file but the text of the page.
      [SetupForm.v]: [wifi_request_is_exact], [pair_request_is_exact],
      [page_networks_arrive].  [SetupNumbers.v]:
      [temperature_request_is_exact], [priority_request_is_exact],
      [page_priorities_arrive].  [SetupStatus.v]: [status_is_always_json].

    _Screens._  [application_ui/deck_ai_page_view_model.cpp] writes the page of
    a provider, [deck_m0_view_model.cpp] chooses between that page, the serial
    page and the diagnostics.
    - [AiPageView.v] and [M0View.v]: both files.  [AiPageText.v]:
      [ai_pages_fit_and_are_disarmed], [unavailable_pages_show_no_data].
      [AiPageTime.v]: [local_time_is_observed].  [M0ViewSpec.v]:
      [equal_models_look_alike], [transmitter_is_always_shown].

    [CString.v] and [Print.v] hold what the string-handling components share,
    [Keeps.v] the triples for computations over a world that the proofs about
    the two services are written with.

    ** What the theorems show

    - Crash safety: over a medium that may lose power at any write the store
      is a register with a staging area, a commit or a clear is atomic, a
      commit over any adapter publishes everything or nothing, a failed
      mutation latches the store; the codecs are inverse.  The settings
      inherit it: what a restart puts in force was submitted.
    - Configuration: a network gets in force only by connecting while it is on
      trial; the paired Companions are an abstract book that every operation
      updates as specified, over any storage, heap and Companion; the stored
      set and the Wi-Fi record have one encoding each; the validators decide
      their grammars.
    - Hostile documents: the JSON parser accepts exactly the texts of bounded
      trees and builds their layout; an accepted document is valid UTF-8, has
      no private key and no absolute path (if it has no NUL byte), meets the
      schema, and projects when its strings are plain and its time zone fits;
      the retained document is the last one accepted.
    - Checkpoints: in every interleaving of callers and worker the document
      shown is valid, fresh enough and never older than one shown before; what
      is saved is what was queued; the worker comes to rest, unless the
      document is dated 1 January 1970 at midnight; a restart shows the last
      document saved, whatever write lost the power.
    - Exclusion: one transmitter at a time, with the UART installed, the pin
      released when disarmed, stale USB bytes refused, leases bounded, requests
      idempotent, in every reachable state.
    - Sharing without interference: the pooled router is four separate bounded
      queues that never run out of blocks, its reference counts and free list
      exact.
    - Services: whatever the platform answers and however the tasks
      interleave, every call of [uart_tx_chars] continues or begins a block
      that the owner in force submitted, and none is of a Web transport whose
      revocation was acknowledged; the bytes received reach the router, and
      through the bridge the USB, whole and in order; every call of
      [esp_ota_set_boot_partition] is for a transaction of the transport in
      force; a request to abort is served within one turn, with no result or
      transaction of an aborted transport left; the boot guard keeps a new
      image only once it is healthy and can always decide.
    - Update safety: boot only ever switches to a complete, hashed, signed and
      strictly newer image, and does so when nothing fails; the version order
      and its parser.  In every interleaving the fence is linearizable, no
      commit follows an abort, and every method returns.
    - Link: failover acts only when due and ends after one attempt for each
      profile; frames round-trip and advance; the tracker is a correlation
      table; authority follows the history of calls; back-off, liveness and
      clock; reassembly is safe on hostile input and exact on honest input.
    - Control messages: each parser accepts exactly the messages whose members
      are, in any order, those of its result; the fingerprint comparison has
      no false match; a server message is a heartbeat or a snapshot, and
      malformed input reaches neither.
    - Screens: a page fits its buffer and the display's thirteen lines, shows
      nothing of a snapshot that is unavailable, and the local time by the
      zone's own rules, or that of the clock chip; a presentation is only skipped when it would change
      nothing; an armed transmitter is always shown.
    - Diagnostics and setup: rings and queues refine lists, a snapshot always
      fits its buffer, acknowledgements, confirmations and sessions refine
      their specifications.
    - Setup requests: each parser of a form body accepts exactly the spellings
      of a valid request within the limits of the code, and what the page
      sends arrives; the status is a JSON text of the fields, and fits its
      buffer.

    ** What modelling found

    - [path_behind_nul_accepted]: an escaped NUL byte hides a path from the
      privacy scan; hence the NUL hypothesis above.
    - [long_timezone_not_projected]: 64 characters of time zone are accepted
      but need not fit the 65 bytes they are shown in.
    - [failing_storage_is_retried_at_once]: when a reopened storage refuses the
      checkpoint, the thirty-minute limit of attempts is lost.
    - [signed_octet_accepted]: a pairing address may spell its last octet as a
      negative number.
    - [footer_replaces_a_name]: a session named like the footer of the page
      takes the place of the footer when the transmitter's state is written.
    - [long_credentials_refused]: the form of a network with a valid name and
      password may be longer than the portal accepts.
    - [lost_race_uses_freed_memory]: an abort between two accesses of the
      worker makes it free a transaction twice; hence the hypothesis of
      [abort_requests_are_served].
    - [early_completion]: a left-over command of an earlier abort completes a
      later one; hence the condition on completions in
      [ota_service_is_fenced].
    - [midnight_document_never_rests]: a document dated 1 January 1970 at
      midnight, recovered from a faulted storage, keeps the worker busy for
      ever; hence the exception of [worker_settles].

    ** Conventions

    - A machine integer is a [Z], its wrap-around written out with [u8] ...
      [u64] where the code may wrap; [size_t] values that index buffers are
      [nat].  A statement that needs an argument in range says so with
      [is_u32] and the like.  [size_t] has 32 bits on the target; this matters
      in [LinkFrame.v], where it is written out.
    - A buffer is the list of its bytes, [char] arrays included.
    - A component's object is a record, passed and returned.  The guards
      against null objects are not repeated: an operation is only defined on
      an object.  Other pointer arguments that may be null are options.
    - Code outside a component (flash, UART, crypto, random numbers, the heap)
      is a type class over a world [W], and computations that touch it live in
      [M W].  Theorems are about every instance of the class, or about a device
      that is built in the file ([TransactionMedium.v], [OtaSafety.v]); the
      witnesses instantiate the classes with concrete worlds.
    - The worker of the snapshot store is a program counter: its critical
      sections are single steps, its calls of the storage are steps without the
      lock, and callers come in between.
    - The tasks of the two services interleave at their accesses of shared
      state: before each of its accesses a task lets the others make those
      that a [schedule] has for it ([interfere]), and the theorems are about
      every schedule.
    - Their calls of ESP-IDF are data ([esp_call], [platform_call]), answered
      by any instance of one class.  What a theorem says was done on the
      platform is recorded where the call is made, from the call and its
      answer ([recorded]), whatever code made it; the other fields of a
      [ghost] only number commands, submissions and transports.
    - Operations under one mutex are atomic.  The lock-free fence is modelled
      one atomic access at a time, its compare-exchanges may fail spuriously,
      and any thread may be preempted anywhere.
    - Scratch memory that a function wipes before it returns is not observable
      and is not part of a state.
    - A component's theorems relate it to a specification by a simulation per
      operation, lifted to call sequences by induction; [Prelude.v] has the
      tactics that split guards ([bool_prop], [guards]), run monadic code
      ([run]) and compute with words ([words]).

    ** Bounds and fuel

    - [clear_loop] of the router runs for [count] iterations; each removes one
      block, and [clear_loop_ok] shows the sink is then empty.
    - [digits] of the JSON printer prints at most 20 digits; a 64-bit number
      has no more, and [digits_value] reads them back.
    - [solo] of the fence runs a method alone for at most four steps;
      [fence_methods_return] shows that this always suffices.
    - Loops over the bytes of a string ([decode_ascii_loop],
      [valid_utf8_loop], ...) have the number of bytes as fuel: every turn
      consumes one.
    - [value] of the JSON parser has 33 levels, the depths 0 to 32 the code
      accepts; [object_loop] and [array_loop] have one turn for each byte of
      the document and one more, and every turn consumes a byte:
      [parser_decides_grammar] shows that every text in the grammar is
      accepted, so they suffice.  Loops over siblings have the size of the
      node array as fuel; a sibling or child has a larger index.
    - [object_loop], [capabilities_loop] and [string_loop] of the device
      protocol have one turn for each byte left and one more; the parsers
      accept every text of their grammar, so they suffice.
    - [form_loop] of the setup requests has the number of bytes of the body as
      fuel; every turn consumes one.  Its parsers accept every form of their
      grammar, so it suffices.
    - [drain_results] of the update service runs one turn more than the queue
      has places; only the worker adds results.
    - [ota_task], [owner_turns] and the steps of [SerialReceive.v] run for any
      number of turns, as the endless loops of the tasks do; a schedule is a
      list for each access and empty behind its end.  The statements about the
      services hold as long as fewer transports were aborted than there are
      epochs ([kMaximumEpoch], and 2^64 for Web transports).
    - [display_loop] of the AI pages has the number of bytes as fuel; a turn
      consumes a character.
    - Every other recursion is structural: on a buffer, on a list of calls, or
      on a list of indices that the loop of the code runs through.

    ** What is not modelled

    Drivers, NVS and ESP-IDF calls, LVGL screens, the constant text of the
    setup page and the HTTP handlers of [deck_setup_service.cpp] are I/O around
    the components above, as are the task of the companion link (WebSocket, TLS
    and their queues) and the wiring in [main].  The desktop Companion is
    another program.  The messages of the update protocol
    ([ota_service/deck_ota_protocol.cpp]) are parsed and written by cJSON,
    which is not part of the repository.  Allocation failure is an argument of
    the [create] functions and of the profile operations; the snapshot's
    validation is modelled with its nodes allocated. *)

From stdpp Require Export base tactics decidable option list gmap.
From Stdlib Require Export ZArith Lia.

Declare Scope deck_scope.
Delimit Scope deck_scope with deck.
#[global] Open Scope Z_scope.

Create HintDb deck.

(** ** Machine integers

    A [uintN_t] is a [Z] kept in [0, 2^N); the wrap-around of C++ unsigned
    arithmetic is written out with [u8] ... [u64]. *)

Abbreviation U8_MAX := 255.
Abbreviation U16_MAX := 65535.
Abbreviation U32_MAX := 4294967295.
Abbreviation U64_MAX := 18446744073709551615.

Definition u8 (x : Z) : Z := x mod 256.
Definition u16 (x : Z) : Z := x mod 65536.
Definition u32 (x : Z) : Z := x mod 4294967296.
Definition u64 (x : Z) : Z := x mod 18446744073709551616.

(** [static_cast<int16_t>] and [static_cast<int32_t>] of an unsigned word. *)
Definition i16 (x : Z) : Z := (x + 32768) mod 65536 - 32768.
Definition i32 (x : Z) : Z := (x + 2147483648) mod 4294967296 - 2147483648.

Definition is_i16 (x : Z) : Prop := -32768 <= x <= 32767.
Definition is_i32 (x : Z) : Prop := -2147483648 <= x <= 2147483647.

Definition is_u8 (x : Z) : Prop := 0 <= x <= U8_MAX.
Definition is_u16 (x : Z) : Prop := 0 <= x <= U16_MAX.
Definition is_u32 (x : Z) : Prop := 0 <= x <= U32_MAX.
Definition is_u64 (x : Z) : Prop := 0 <= x <= U64_MAX.

Abbreviation byte := Z (only parsing).
Abbreviation bytes := (list Z) (only parsing).
Abbreviation is_bytes := (Forall is_u8).

(** [saturating_add] of the serial session and the router (64-bit). *)
Definition saturating_add (left right : Z) : Z :=
  if U64_MAX - right <? left then U64_MAX else left + right.

(** ** Record update

    [r <| f := v |>] is [r] with field [f] replaced.  A record type declares
    how it is rebuilt from its projections ([Rebuild]); the update of a field
    is then computed once, at elaboration, as an explicit constructor
    application, so that projections of an updated record reduce. *)

Class Rebuild (R : Type) := rebuild : R -> R.
Class FieldUpdate {R F : Type} (proj : R -> F) := field_update : (F -> F) -> R -> R.

Ltac solve_field_update R proj :=
  let inst := constr:(_ : Rebuild R) in
  let body := eval red in inst in
  exact (fun f r =>
    ltac:(let t := eval cbv beta in (body r) in
          lazymatch eval pattern (proj r) in t with
          | ?ctx _ => let res := eval cbv beta in (ctx (f (proj r))) in exact res
          end)).

#[export] Hint Extern 1 (@FieldUpdate ?R ?F ?proj) =>
  solve_field_update R proj : typeclass_instances.

Definition set_field {R F : Type} (proj : R -> F) {U : FieldUpdate proj} (v : F) : R -> R :=
  U (fun _ => v).

Notation "r <| f := v |>" := (set_field f v r)
  (at level 1, f at next level, left associativity,
   format "r <| f  :=  v |>") : deck_scope.
#[global] Open Scope deck_scope.

(** ** State passing

    [M W A] is a computation over an external world [W] (a storage medium, a
    UART driver): the world is threaded through every call. *)

Definition M (W A : Type) : Type := W -> A * W.

#[export] Instance M_ret {W} : MRet (M W) := fun A a w => (a, w).
#[export] Instance M_bind {W} : MBind (M W) :=
  fun A B k m w => let '(a, w') := m w in k a w'.
#[export] Instance M_fmap {W} : FMap (M W) :=
  fun A B f m w => let '(a, w') := m w in (f a, w').

Lemma run_ret {W A} (a : A) (w : W) : (mret a : M W A) w = (a, w).
Proof. reflexivity. Qed.

Lemma run_bind {W A B} (m : M W A) (k : A -> M W B) (w : W) :
  (m ≫= k) w = k (m w).1 (m w).2.
Proof. unfold mbind, M_bind. by destruct (m w). Qed.

Lemma run_fmap {W A B} (f : A -> B) (m : M W A) (w : W) :
  (f <$> m) w = (f (m w).1, (m w).2).
Proof. unfold fmap, M_fmap. by destruct (m w). Qed.

(** The results of a run, without naming the intermediate worlds. *)
Ltac run := repeat (progress (rewrite ?run_bind, ?run_ret, ?run_fmap; cbn [fst snd])).

(** ... with a case analysis on every guard the run meets. *)
Ltac run_cases :=
  repeat (run; match goal with
  | |- context [(if ?b then _ else _) _] => destruct b eqn:?
  end); run.

(** ** Tactics *)

(** Boolean guards to propositions over [Z] and [nat]. *)
Ltac bool_prop :=
  repeat match goal with
  | H : _ && _ = true |- _ => apply andb_true_iff in H; destruct H
  | H : _ || _ = false |- _ => apply orb_false_iff in H; destruct H
  | H : negb _ = true |- _ => apply negb_true_iff in H
  | H : negb _ = false |- _ => apply negb_false_iff in H
  | H : bool_decide _ = true |- _ => apply bool_decide_eq_true in H
  | H : bool_decide _ = false |- _ => apply bool_decide_eq_false in H
  | H : Z.eqb _ _ = true |- _ => apply Z.eqb_eq in H
  | H : Z.eqb _ _ = false |- _ => apply Z.eqb_neq in H
  | H : Z.ltb _ _ = true |- _ => apply Z.ltb_lt in H
  | H : Z.ltb _ _ = false |- _ => apply Z.ltb_ge in H
  | H : Z.leb _ _ = true |- _ => apply Z.leb_le in H
  | H : Z.leb _ _ = false |- _ => apply Z.leb_gt in H
  | H : Nat.eqb _ _ = true |- _ => apply Nat.eqb_eq in H
  | H : Nat.eqb _ _ = false |- _ => apply Nat.eqb_neq in H
  | H : Nat.ltb _ _ = true |- _ => apply Nat.ltb_lt in H
  | H : Nat.ltb _ _ = false |- _ => apply Nat.ltb_ge in H
  | H : Nat.leb _ _ = true |- _ => apply Nat.leb_le in H
  | H : Nat.leb _ _ = false |- _ => apply Nat.leb_gt in H
  end.

(** A disjunctive guard that held, one case per disjunct. *)
Ltac bool_cases :=
  repeat (bool_prop; match goal with
  | H : _ || _ = true |- _ => apply orb_true_iff in H; destruct H as [H|H]
  | H : _ && _ = false |- _ => apply andb_false_iff in H; destruct H as [H|H]
  end); bool_prop.

(** Case analysis on every guard of an operation, the results simplified. *)
Ltac guards := repeat (case_match; simplify_eq/=); bool_prop.

(** Arithmetic with the wrap-around of the word types written out. *)
Ltac words :=
  unfold u8, u16, u32, u64, i16, i32, is_u8, is_u16, is_u32, is_u64, is_i16, is_i32 in *;
  Z.div_mod_to_equations; lia.

(** ** Words *)

Lemma u8_range x : is_u8 (u8 x).
Proof. words. Qed.
Lemma u16_range x : is_u16 (u16 x).
Proof. words. Qed.
Lemma u32_range x : is_u32 (u32 x).
Proof. words. Qed.
Lemma u64_range x : is_u64 (u64 x).
Proof. words. Qed.

Lemma u8_id x : is_u8 x -> u8 x = x.
Proof. words. Qed.
Lemma u16_id x : is_u16 x -> u16 x = x.
Proof. words. Qed.
Lemma u32_id x : is_u32 x -> u32 x = x.
Proof. words. Qed.
Lemma u64_id x : is_u64 x -> u64 x = x.
Proof. words. Qed.

#[export] Hint Resolve u8_range u16_range u32_range u64_range : deck.

Lemma saturating_add_spec a b :
  is_u64 a -> is_u64 b -> saturating_add a b = Z.min U64_MAX (a + b).
Proof. unfold saturating_add. intros. case_match; words. Qed.

Lemma saturating_add_range a b :
  is_u64 a -> is_u64 b -> is_u64 (saturating_add a b).
Proof. intros. rewrite saturating_add_spec by done. words. Qed.

#[export] Hint Resolve saturating_add_range : deck.

(** ** Lists *)

(** [n] bytes starting at [off]; the sub-array [p + off .. p + off + n). *)
Definition slice {A} (off n : nat) (l : list A) : list A := take n (drop off l).

Lemma slice_app_l {A} (n : nat) (l k : list A) :
  length l = n -> slice 0 n (l ++ k) = l.
Proof. intros <-. unfold slice. by rewrite drop_0, take_app_length. Qed.

Lemma slice_skip {A} (off n : nat) (l k : list A) :
  length l = off -> slice off n (l ++ k) = take n k.
Proof. intros <-. unfold slice. by rewrite drop_app_length. Qed.

Lemma length_slice {A} (off n : nat) (l : list A) :
  (off + n <= length l)%nat -> length (slice off n l) = n.
Proof. intros. unfold slice. rewrite length_take, length_drop. lia. Qed.

Lemma is_bytes_slice off n (l : bytes) : is_bytes l -> is_bytes (slice off n l).
Proof. intros. unfold slice. by apply Forall_take, Forall_drop. Qed.

#[export] Hint Resolve is_bytes_slice : deck.

(** [l.[i]]: the byte at index [i] of a buffer the code has bounds-checked. *)
Definition byte_at (l : bytes) (i : nat) : Z := default 0 (l !! i).
Notation "l .[ i ]" := (byte_at l i) (at level 1, format "l .[ i ]") : deck_scope.

Lemma byte_at_range (l : bytes) i : is_bytes l -> is_u8 l.[i].
Proof.
  intros Hl. unfold byte_at. destruct (l !! i) as [b|] eqn:E; simpl.
  - by eapply Forall_lookup_1.
  - words.
Qed.

Lemma byte_at_app_l (l k : bytes) i : (i < length l)%nat -> (l ++ k).[i] = l.[i].
Proof. intros. unfold byte_at. by rewrite lookup_app_l. Qed.

Lemma byte_at_app_r (l k : bytes) i :
  (length l <= i)%nat -> (l ++ k).[i] = k.[i - length l].
Proof. intros. unfold byte_at. by rewrite lookup_app_r. Qed.

#[export] Hint Resolve byte_at_range : deck.

(** [std::memcpy(buffer + at, data, size)], inside the buffer *)
Definition write_at (buf : bytes) (at_ : nat) (data : bytes) : bytes :=
  take at_ buf ++ data ++ drop (at_ + length data) buf.

Lemma length_write_at buf at_ data :
  (at_ + length data <= length buf)%nat -> length (write_at buf at_ data) = length buf.
Proof. intros. unfold write_at. rewrite !length_app, length_take, length_drop. lia. Qed.

Lemma write_at_prefix buf at_ data :
  (at_ + length data <= length buf)%nat ->
  take (at_ + length data) (write_at buf at_ data) = take at_ buf ++ data.
Proof.
  intros. unfold write_at. rewrite app_assoc. apply take_app_length'.
  rewrite length_app, length_take. lia.
Qed.

Lemma write_at_suffix buf at_ data n :
  (at_ + length data <= n)%nat -> (at_ + length data <= length buf)%nat ->
  drop n (write_at buf at_ data) = drop n buf.
Proof.
  intros Hn Hl. unfold write_at. rewrite app_assoc.
  replace n with (length (take at_ buf ++ data) + (n - (at_ + length data)))%nat at 1
    by (rewrite length_app, length_take; lia).
  rewrite <- drop_drop, drop_app_length, drop_drop. f_equal. lia.
Qed.

Lemma existsb_false {A} (p : A -> bool) l : existsb p l = false <-> Forall (fun x => p x = false) l.
Proof.
  induction l as [|x l IH]; simpl; [by split; [constructor|]|].
  rewrite orb_false_iff, Forall_cons. by rewrite IH.
Qed.

Lemma forallb_Forall {A} (p : A -> bool) l : forallb p l = true <-> Forall (fun x => p x = true) l.
Proof.
  induction l as [|x l IH]; simpl; [by split; [constructor|]|].
  rewrite andb_true_iff, Forall_cons. by rewrite IH.
Qed.
