(* ===== verification/Codec.v ===== *)
(** * Fixed-width integers in byte buffers

    The little-endian helpers of the transaction store and the Companion
    profiles, the big-endian helpers of the serial frame, and the CRC-32 that
    seals every stored record. *)

From S2P Require Import Prelude.

(** ** Little endian (transaction store, Companion profiles) *)
Module LE.

Definition write_u16 (value : Z) : bytes :=
  [u8 (Z.land value 255); u8 (Z.land (Z.shiftr value 8) 255)].

Definition read_u16 (input : bytes) : Z :=
  Z.lor (u16 input.[0]) (u16 (Z.shiftl (u16 input.[1]) 8)).

Definition write_u32 (value : Z) : bytes :=
  [u8 (Z.land value 255);
   u8 (Z.land (Z.shiftr value 8) 255);
   u8 (Z.land (Z.shiftr value 16) 255);
   u8 (Z.land (Z.shiftr value 24) 255)].

Definition read_u32 (input : bytes) : Z :=
  Z.lor (Z.lor (Z.lor (u32 input.[0])
                      (u32 (Z.shiftl (u32 input.[1]) 8)))
               (u32 (Z.shiftl (u32 input.[2]) 16)))
        (u32 (Z.shiftl (u32 input.[3]) 24)).

(** The loops over [index < 8]. *)
Definition write_u64 (value : Z) : bytes :=
  map (fun index => u8 (Z.land (Z.shiftr value (Z.of_nat index * 8)) 255)) (seq 0 8).

Definition read_u64 (input : bytes) : Z :=
  fold_left
    (fun value index => Z.lor value (u64 (Z.shiftl (u64 input.[index]) (Z.of_nat index * 8))))
    (seq 0 8) 0.

End LE.

(** ** Big endian (serial frame) *)
Module BE.

Definition write_u16 (value : Z) : bytes := [u8 (Z.shiftr value 8); u8 value].

Definition read_u16 (input : bytes) : Z :=
  u16 (Z.lor (Z.shiftl (u16 input.[0]) 8) input.[1]).

Definition write_u64 (value : Z) : bytes :=
  map (fun index => u8 (Z.shiftr value ((7 - Z.of_nat index) * 8))) (seq 0 8).

Definition read_u64 (input : bytes) : Z :=
  fold_left
    (fun value index => Z.lor (u64 (Z.shiftl value 8)) input.[index])
    (seq 0 8) 0.

End BE.

(** ** CRC-32 (reflected, polynomial 0xedb88320) *)

Definition crc32_bit (crc : Z) : Z :=
  let mask := u32 (0 - Z.land crc 1) in
  Z.lxor (Z.shiftr crc 1) (Z.land 0xedb88320 mask).

Definition crc32_byte (crc : Z) (b : Z) : Z :=
  Nat.iter 8 crc32_bit (Z.lxor crc b).

Definition crc32 (data : bytes) : Z :=
  U32_MAX - fold_left crc32_byte data 0xffffffff.

(** ** Bit lemmas *)

Lemma land_255 x : Z.land x 255 = x mod 256.
Proof. change 255 with (Z.ones 8). by rewrite Z.land_ones. Qed.

Lemma lor_shiftl_add a b k :
  0 <= k -> 0 <= a < 2 ^ k -> Z.lor a (Z.shiftl b k) = a + b * 2 ^ k.
Proof.
  intros Hk Ha. rewrite <- Z.shiftl_mul_pow2 by lia.
  symmetry. apply Z.add_nocarry_lor.
  apply Z.bits_inj'. intros n Hn. rewrite Z.land_spec, Z.bits_0.
  destruct (Z.lt_ge_cases n k).
  - rewrite Z.shiftl_spec_low by lia. apply andb_false_r.
  - replace a with (a mod 2 ^ k) by (apply Z.mod_small; lia).
    rewrite Z.mod_pow2_bits_high by lia. done.
Qed.

Lemma land_lt_pow2 a b k : 0 <= k -> 0 <= a < 2 ^ k -> 0 <= Z.land a b < 2 ^ k.
Proof.
  intros Hk Ha. split; [by apply Z.land_nonneg; left; lia|].
  replace a with (a mod 2 ^ k) by (apply Z.mod_small; lia).
  rewrite <- Z.land_ones, <- Z.land_assoc, (Z.land_comm _ b), Z.land_assoc by lia.
  rewrite Z.land_ones by lia. apply Z.mod_pos_bound. lia.
Qed.

Lemma high_bits_clear a k n : 0 <= a < 2 ^ k -> 0 <= k <= n -> Z.testbit a n = false.
Proof.
  intros Ha Hk. rewrite <- (Z.mod_small a (2 ^ k)) by lia. by apply Z.mod_pow2_bits_high.
Qed.

Lemma high_bits_bound a k :
  0 <= k -> 0 <= a -> (forall n, k <= n -> Z.testbit a n = false) -> 0 <= a < 2 ^ k.
Proof.
  intros Hk Ha Hbits.
  assert (a = a mod 2 ^ k) as ->; [|apply Z.mod_pos_bound; lia].
  apply Z.bits_inj'. intros n Hn. destruct (Z.lt_ge_cases n k).
  - by rewrite Z.mod_pow2_bits_low.
  - rewrite Z.mod_pow2_bits_high by lia. by apply Hbits.
Qed.

Lemma lxor_lt_pow2 a b k :
  0 <= k -> 0 <= a < 2 ^ k -> 0 <= b < 2 ^ k -> 0 <= Z.lxor a b < 2 ^ k.
Proof.
  intros Hk Ha Hb. apply high_bits_bound; [lia|by apply Z.lxor_nonneg; lia|].
  intros n Hn. by rewrite Z.lxor_spec, !(high_bits_clear _ k n) by lia.
Qed.

Lemma lor_lt_pow2 a b k :
  0 <= k -> 0 <= a < 2 ^ k -> 0 <= b < 2 ^ k -> 0 <= Z.lor a b < 2 ^ k.
Proof.
  intros Hk Ha Hb. apply high_bits_bound; [lia|by apply Z.lor_nonneg; lia|].
  intros n Hn. by rewrite Z.lor_spec, !(high_bits_clear _ k n) by lia.
Qed.

(** One step of the little-endian reader: byte [k/8] joins the low bits. *)
Lemma le_step x k j :
  j = k + 8 -> 0 <= k ->
  Z.lor (x mod 2 ^ k) (Z.shiftl (Z.shiftr x k mod 256) k) = x mod 2 ^ j.
Proof.
  intros -> Hk. pose proof (Z.pow_pos_nonneg 2 k ltac:(lia) Hk) as Hp.
  rewrite lor_shiftl_add by (try apply Z.mod_pos_bound; lia).
  rewrite Z.shiftr_div_pow2, Z.pow_add_r by lia. change (2 ^ 8) with 256.
  rewrite Z.rem_mul_r by lia. lia.
Qed.

(** One step of the big-endian reader: the prefix grows by byte [k/8]. *)
Lemma be_step x j k :
  j = k + 8 -> 0 <= k ->
  Z.lor (Z.shiftl (Z.shiftr x j) 8) (Z.shiftr x k mod 256) = Z.shiftr x k.
Proof.
  intros -> Hk. pose proof (Z.pow_pos_nonneg 2 k ltac:(lia) Hk) as Hp.
  rewrite Z.lor_comm, lor_shiftl_add by (try apply Z.mod_pos_bound; lia).
  rewrite <- Z.shiftr_shiftr by lia. rewrite (Z.shiftr_div_pow2 _ 8) by lia.
  change (2 ^ 8) with 256. generalize (Z.shiftr x k). intros y. Z.div_mod_to_equations. lia.
Qed.

(** ** Round trips *)

(** The loop indices [Z.of_nat i * 8] of an unrolled loop, as literals. *)
Ltac const_index :=
  try change (Z.of_nat 0 * 8) with 0; try change (Z.of_nat 1 * 8) with 8; try change (Z.of_nat 2
  * 8) with 16; try change (Z.of_nat 3 * 8) with 24; try change (Z.of_nat 4 * 8) with 32; try
  change (Z.of_nat 5 * 8) with 40; try change (Z.of_nat 6 * 8) with 48; try change (Z.of_nat 7 *
  8) with 56; try change ((7 - Z.of_nat 0) * 8) with 56; try change ((7 - Z.of_nat 1) * 8) with
  48; try change ((7 - Z.of_nat 2) * 8) with 40; try change ((7 - Z.of_nat 3) * 8) with 32; try
  change ((7 - Z.of_nat 4) * 8) with 24; try change ((7 - Z.of_nat 5) * 8) with 16; try change
  ((7 - Z.of_nat 6) * 8) with 8; try change ((7 - Z.of_nat 7) * 8) with 0.

Module LEFacts.
Import LE.

Lemma write_u16_spec x :
  write_u16 x = [x mod 256; Z.shiftr x 8 mod 256].
Proof. unfold write_u16. rewrite !land_255. repeat f_equal; words. Qed.

Lemma write_u32_spec x :
  write_u32 x = [x mod 256; Z.shiftr x 8 mod 256; Z.shiftr x 16 mod 256; Z.shiftr x 24 mod 256].
Proof. unfold write_u32. rewrite !land_255. repeat f_equal; words. Qed.

Lemma shifted_byte_small k b n :
  0 <= k -> 0 <= b < 256 -> 2 ^ (k + 8) <= n -> Z.shiftl b k mod n = Z.shiftl b k.
Proof.
  intros Hk Hb Hn. pose proof (Z.pow_pos_nonneg 2 k ltac:(lia) Hk) as Hp.
  rewrite Z.pow_add_r in Hn by lia. change (2 ^ 8) with 256 in Hn.
  rewrite Z.shiftl_mul_pow2 by lia. apply Z.mod_small. nia.
Qed.

Lemma read_write_u16 x rest : is_u16 x -> read_u16 (write_u16 x ++ rest) = x.
Proof.
  intros Hx. rewrite write_u16_spec. unfold read_u16, byte_at, u16. simpl.
  rewrite (Z.mod_small (_ mod 256)), (Z.mod_small (Z.shiftr x 8 mod 256))
    by (Z.div_mod_to_equations; lia).
  rewrite shifted_byte_small by (first [lia | Z.div_mod_to_equations; lia]).
  change (x mod 256) with (x mod 2 ^ 8). rewrite (le_step x 8 16) by lia.
  apply Z.mod_small. words.
Qed.

Lemma read_write_u32 x rest : is_u32 x -> read_u32 (write_u32 x ++ rest) = x.
Proof.
  intros Hx. rewrite write_u32_spec. unfold read_u32, byte_at, u32. simpl.
  rewrite !(Z.mod_small (_ mod 256)) by (Z.div_mod_to_equations; lia).
  rewrite !shifted_byte_small by (first [lia | Z.div_mod_to_equations; lia]).
  change (x mod 256) with (x mod 2 ^ 8).
  rewrite (le_step x 8 16), (le_step x 16 24), (le_step x 24 32) by lia. apply Z.mod_small. words.
Qed.

Lemma write_u64_spec x :
  write_u64 x = map (fun i => Z.shiftr x (Z.of_nat i * 8) mod 256) (seq 0 8).
Proof. apply map_ext. intros i. rewrite land_255. words. Qed.

Lemma read_write_u64 x rest : is_u64 x -> read_u64 (write_u64 x ++ rest) = x.
Proof.
  intros Hx. rewrite write_u64_spec. unfold read_u64, byte_at, u64. simpl.
  rewrite !(Z.mod_small (_ mod 256) 18446744073709551616) by (Z.div_mod_to_equations; lia).
  rewrite !shifted_byte_small by (first [lia | Z.div_mod_to_equations; lia]).
  const_index. rewrite Z.shiftr_0_r, ?Z.shiftl_0_r, ?Z.lor_0_l.
  change (x mod 256) with (x mod 2 ^ 8).
  rewrite (le_step x 8 16), (le_step x 16 24), (le_step x 24 32), (le_step x 32 40),
    (le_step x 40 48), (le_step x 48 56), (le_step x 56 64) by lia. apply Z.mod_small. words.
Qed.

Lemma read_u32_range input : is_u32 (read_u32 input).
Proof.
  enough (0 <= read_u32 input < 2 ^ 32) by (change (2 ^ 32) with 4294967296 in *; words).
  unfold read_u32.
  repeat apply lor_lt_pow2; try lia; unfold u32; change (2 ^ 32) with 4294967296;
    apply Z.mod_pos_bound; lia.
Qed.

Lemma is_bytes_write_u16 x : is_bytes (write_u16 x).
Proof. unfold write_u16. auto with deck. Qed.

Lemma is_bytes_write_u32 x : is_bytes (write_u32 x).
Proof. unfold write_u32. auto 7 with deck. Qed.

Lemma is_bytes_write_u64 x : is_bytes (write_u64 x).
Proof. unfold write_u64. apply Forall_forall. intros b Hb.
  apply list_elem_of_fmap in Hb as (i & -> & _). auto with deck. Qed.

End LEFacts.

Module BEFacts.
Import BE.

Lemma be_read_write_u16 x rest : is_u16 x -> read_u16 (write_u16 x ++ rest) = x.
Proof.
  intros Hx. unfold read_u16, write_u16, byte_at, u16, u8. simpl.
  rewrite Z.lor_comm, (Z.mod_small (Z.shiftr x 8 mod 256)) by (Z.div_mod_to_equations; lia).
  change (x mod 256) with (x mod 2 ^ 8). rewrite (le_step x 8 16) by lia.
  rewrite Z.mod_mod by lia. apply Z.mod_small. words.
Qed.

Lemma prefix_small x k : is_u64 x -> 8 <= k -> u64 (Z.shiftl (Z.shiftr x k) 8) = Z.shiftl (Z.shiftr x k) 8.
Proof.
  intros Hx Hk. apply u64_id. rewrite Z.shiftl_mul_pow2, Z.shiftr_div_pow2 by lia.
  replace k with (8 + (k - 8)) by lia. rewrite Z.pow_add_r by lia.
  rewrite <- Z.div_div by (try apply Z.pow_pos_nonneg; lia).
  pose proof (Z.div_le_upper_bound (x / 2 ^ 8) (2 ^ (k - 8)) (x / 2 ^ 8)) as Hd.
  pose proof (Z.pow_pos_nonneg 2 (k - 8) ltac:(lia) ltac:(lia)) as Hp.
  assert (0 <= x / 2 ^ 8) by (apply Z.div_pos; words).
  assert (0 <= x / 2 ^ 8 / 2 ^ (k - 8)) by (apply Z.div_pos; lia).
  change (2 ^ 8) with 256 in *. assert (x / 256 / 2 ^ (k - 8) <= x / 256) by (apply Hd; nia).
  unfold is_u64 in *. Z.div_mod_to_equations. lia.
Qed.

Lemma be_read_write_u64 x rest : is_u64 x -> read_u64 (write_u64 x ++ rest) = x.
Proof.
  intros Hx. unfold read_u64, write_u64, byte_at, u8. simpl. const_index.
  replace (Z.shiftr x 56 mod 256) with (Z.shiftr x 56).
  2: { symmetry. apply Z.mod_small. rewrite Z.shiftr_div_pow2 by lia.
       change (2 ^ 56) with 72057594037927936. words. }
  change (u64 (Z.shiftl 0 8)) with 0. rewrite Z.lor_0_l.
  do 7 (rewrite prefix_small by (done || lia); rewrite be_step by lia).
  by rewrite Z.shiftr_0_r.
Qed.

(** The other direction: the writer reproduces the bytes that were read. *)
Lemma read_step v b : 0 <= v < 2 ^ 56 -> is_u8 b -> Z.lor (u64 (Z.shiftl v 8)) b = v * 256 + b.
Proof.
  intros Hv Hb. rewrite u64_id.
  - rewrite Z.lor_comm, lor_shiftl_add by words. change (2 ^ 8) with 256. lia.
  - rewrite Z.shiftl_mul_pow2 by lia. change (2 ^ 8) with 256.
    change (2 ^ 56) with 72057594037927936 in Hv. words.
Qed.

Lemma write_read_u16 l : is_bytes l -> (2 <= length l)%nat -> write_u16 (read_u16 l) = take 2 l.
Proof.
  intros Hl Hlen. destruct l as [|a [|b l]]; simpl in Hlen; try lia.
  inversion Hl as [|? ? Ha Hl1]; subst. inversion Hl1 as [|? ? Hb _]; subst.
  unfold write_u16, read_u16, byte_at. simpl. rewrite (u16_id a) by words.
  rewrite Z.lor_comm, lor_shiftl_add, Z.shiftr_div_pow2 by words. change (2 ^ 8) with 256.
  rewrite u16_id by words. repeat f_equal; words.
Qed.

Lemma shiftr_step v b k : 8 <= k -> is_u8 b -> Z.shiftr (v * 256 + b) k = Z.shiftr v (k - 8).
Proof.
  intros Hk Hb. replace k with (8 + (k - 8)) at 1 by lia. rewrite <- Z.shiftr_shiftr by lia.
  f_equal. rewrite Z.shiftr_div_pow2 by lia. change (2 ^ 8) with 256. words.
Qed.

Lemma read_u64_range l : is_bytes l -> is_u64 (read_u64 l).
Proof.
  intros Hl. unfold read_u64. simpl.
  assert (forall v b, is_u64 v -> is_u8 b -> is_u64 (Z.lor (u64 (Z.shiftl v 8)) b)) as Hstep.
  { intros v b Hv Hb.
    assert (0 <= Z.lor (u64 (Z.shiftl v 8)) b < 2 ^ 64) as H.
    { apply lor_lt_pow2; change (2 ^ 64) with 18446744073709551616; words. }
    change (2 ^ 64) with 18446744073709551616 in H. words. }
  repeat apply Hstep; auto with deck. words.
Qed.

Lemma u8_step v b : is_u8 b -> u8 (v * 256 + b) = b.
Proof. words. Qed.

Lemma write_read_u64 l : is_bytes l -> (8 <= length l)%nat -> write_u64 (read_u64 l) = take 8 l.
Proof.
  intros Hl Hlen.
  destruct l as [|b0 [|b1 [|b2 [|b3 [|b4 [|b5 [|b6 [|b7 l]]]]]]]]; simpl in Hlen; try lia.
  rewrite !Forall_cons in Hl. destruct Hl as (H0 & H1 & H2 & H3 & H4 & H5 & H6 & H7 & _).
  unfold write_u64, read_u64, byte_at. simpl. const_index.
  change (u64 (Z.shiftl 0 8)) with 0. rewrite Z.lor_0_l.
  repeat match goal with
  | |- context [Z.lor (u64 (Z.shiftl ?v 8)) ?b] =>
      lazymatch v with
      | context [Z.lor] => fail
      | _ => rewrite (read_step v b)
               by (try done; change (2 ^ 56) with 72057594037927936; words)
      end
  end.
  repeat match goal with
  | |- context [Z.shiftr (?v * 256 + ?b) ?k] => rewrite (shiftr_step v b k) by (done || lia)
  end.
  simpl.
  rewrite !Z.shiftr_0_r, !u8_step by done. by rewrite (u8_id b0).
Qed.

End BEFacts.

(** ** The checksum fits in 32 bits *)

Lemma crc32_bit_range crc : is_u32 crc -> is_u32 (crc32_bit crc).
Proof.
  intros Hc. unfold crc32_bit. pose proof (u32_range (0 - Z.land crc 1)) as Hm.
  enough (0 <= Z.lxor (Z.shiftr crc 1) (Z.land 3988292384 (u32 (0 - Z.land crc 1))) < 2 ^ 32)
    by words.
  apply lxor_lt_pow2; [lia| |apply land_lt_pow2; lia].
  rewrite Z.shiftr_div_pow2 by lia. change (2 ^ 1) with 2. change (2 ^ 32) with 4294967296. words.
Qed.

Lemma crc32_byte_range crc b : is_u32 crc -> is_u8 b -> is_u32 (crc32_byte crc b).
Proof.
  intros Hc Hb. unfold crc32_byte. apply Nat.iter_invariant; [auto using crc32_bit_range|].
  enough (0 <= Z.lxor crc b < 2 ^ 32) by words.
  apply lxor_lt_pow2; change (2 ^ 32) with 4294967296; words.
Qed.

Lemma crc32_range data : is_bytes data -> is_u32 (crc32 data).
Proof.
  intros Hd. unfold crc32.
  enough (forall c, is_u32 c -> is_u32 (fold_left crc32_byte data c)) as H
    by (specialize (H 4294967295); words).
  induction Hd as [|b l Hb Hl IH]; simpl; [done|].
  intros c Hc. apply IH. by apply crc32_byte_range.
Qed.

#[export] Hint Resolve LEFacts.is_bytes_write_u16 LEFacts.is_bytes_write_u32
  LEFacts.is_bytes_write_u64 crc32_range : deck.

(** The check value of the CRC-32/ISO-HDLC catalogue entry, input "123456789". *)
Example crc32_check : crc32 [49; 50; 51; 52; 53; 54; 55; 56; 57] = 0xcbf43926.
Proof. vm_compute. reflexivity. Qed.

(** ** Constant-time comparisons

    The loops that or the differences of all bytes into one word: secrets of
    the setup portal, digests of firmware images. *)

Lemma lor_fold_zero (f : nat -> Z) l acc :
  0 <= acc -> (forall i, 0 <= f i) ->
  fold_left (fun d i => Z.lor d (f i)) l acc = 0 <-> acc = 0 /\ forall i, i ∈ l -> f i = 0.
Proof.
  intros Ha Hf. revert acc Ha. induction l as [|i l IH]; intros acc Ha; simpl.
  - split; [intros ->; split; [done|]|by intros [-> _]]. intros i Hi. by apply not_elem_of_nil in Hi.
  - rewrite IH by (apply Z.lor_nonneg; auto). rewrite Z.lor_eq_0_iff. split.
    + intros [[-> Hi] Hl]. split; [done|]. intros j [->|Hj]%elem_of_cons; auto.
    + intros [-> Hl]. split_and!; [done|apply Hl; by apply list_elem_of_here|].
      intros j Hj. apply Hl. by apply elem_of_cons; right.
Qed.

Lemma lxor_u8_zero (a b : Z) : is_u8 a -> is_u8 b -> u8 (Z.lxor a b) = 0 <-> a = b.
Proof.
  intros Ha Hb. split; [|intros ->; by rewrite Z.lxor_nilpotent].
  intros H. apply Z.lxor_eq, Z.bits_inj'. intros n Hn. rewrite Z.bits_0.
  destruct (Z.lt_ge_cases n 8) as [Hlt|Hge].
  - assert (Z.testbit (u8 (Z.lxor a b)) n = false) as Hbit by by rewrite H, Z.bits_0.
    unfold u8 in Hbit. change 256 with (2 ^ 8) in Hbit. by rewrite Z.mod_pow2_bits_low in Hbit.
  - assert (forall x, is_u8 x -> Z.testbit x n = false) as Hhigh.
    { intros x Hx. rewrite <- (Z.mod_small x (2 ^ 8)) by (change (2 ^ 8) with 256; words).
      apply Z.mod_pow2_bits_high. lia. }
    by rewrite Z.lxor_spec, !Hhigh.
Qed.

Lemma bytes_agree n (left right : bytes) :
  (n <= length left)%nat -> (n <= length right)%nat ->
  (forall i, i ∈ seq 0 n -> left.[i] = right.[i]) <-> take n left = take n right.
Proof.
  intros Hl Hr. split.
  - intros Hall. apply list_eq. intros i. destruct (decide (i < n)%nat) as [Hi|Hi].
    + rewrite !lookup_take_lt by done. specialize (Hall i ltac:(apply elem_of_seq; lia)).
      unfold byte_at in Hall. destruct (lookup_lt_is_Some_2 left i ltac:(lia)) as [x Hx].
      destruct (lookup_lt_is_Some_2 right i ltac:(lia)) as [y Hy].
      rewrite Hx, Hy in *. simpl in Hall. by subst.
    + rewrite !lookup_ge_None_2 by (rewrite length_take; lia). done.
  - intros E i [_ Hi]%elem_of_seq. simpl in Hi. unfold byte_at.
    rewrite <- (lookup_take_lt left n i), <- (lookup_take_lt right n i) by done. by rewrite E.
Qed.

Lemma u8_difference_zero n left right :
  is_bytes left -> is_bytes right -> (n <= length left)%nat -> (n <= length right)%nat ->
  fold_left (fun d i => Z.lor d (u8 (Z.lxor left.[i] right.[i]))) (seq 0 n) 0 = 0
  <-> take n left = take n right.
Proof.
  intros Hbl Hbr Hl Hr. rewrite lor_fold_zero, <- bytes_agree by (done || lia || (intros i; apply u8_range)).
  split.
  - intros [_ Hall] i Hi. apply lxor_u8_zero; auto with deck.
  - intros Hall. split; [done|]. intros i Hi. apply lxor_u8_zero; auto with deck.
Qed.

Lemma difference_zero_iff n left right :
  is_bytes left -> is_bytes right -> (n <= length left)%nat -> (n <= length right)%nat ->
  fold_left (fun d i => Z.lor d (Z.lxor left.[i] right.[i])) (seq 0 n) 0 = 0
  <-> take n left = take n right.
Proof.
  intros Hbl Hbr Hl Hr. rewrite lor_fold_zero, <- bytes_agree; [| | |done|].
  - split; [intros [_ Hall] i Hi|intros Hall; split; [done|]; intros i Hi].
    + apply Z.lxor_eq. by apply Hall.
    + rewrite Hall by done. apply Z.lxor_nilpotent.
  - done.
  - done.
  - intros i. apply Z.lxor_nonneg. pose proof (byte_at_range left i Hbl).
    pose proof (byte_at_range right i Hbr). words.
Qed.
