(* ===== verification/Keeps.v ===== *)
(** * Properties that computations keep

    Triples for state passing, without the names of intermediate worlds:
    [keeps P m] when [m] leads from every world with [P] to one with [P],
    [leads P m Q] when it leads to [Q] of its result.  The tactic [keep]
    follows the structure of a computation. *)

From S2P Require Import Prelude.

Section Keeps.
Context {W : Type}.
Implicit Types (P : W -> Prop).

Definition keeps {A} P (m : M W A) : Prop := forall w, P w -> P (m w).2.

Lemma keeps_ret {A} P (a : A) : keeps P (mret a).
Proof. by intros w. Qed.

Lemma keeps_bind {A B} P (m : M W A) (k : A -> M W B) : keeps P m -> (forall a, keeps P (k a)) -> keeps P (m ≫= k).
Proof. intros Hm Hk w Hw. rewrite run_bind. by apply Hk, Hm. Qed.

Lemma keeps_pair {A B C} P (p : A * B) (k : A -> B -> M W C) :
  (forall a b, keeps P (k a b)) -> keeps P (let '(a, b) := p in k a b).
Proof. by destruct p. Qed.

(** What runs between two computations that keep [P] and also ends in [Q]. *)
Definition leads {A} (P : W -> Prop) (m : M W A) (Q : A -> W -> Prop) : Prop :=
  forall w, P w -> Q (m w).1 (m w).2.

Lemma leads_bind {A B} P (m : M W A) (k : A -> M W B) (Q : A -> W -> Prop) R :
  leads P m Q -> (forall a, leads (Q a) (k a) R) -> leads P (m ≫= k) R.
Proof. intros Hm Hk w Hw. rewrite run_bind. by apply Hk, Hm. Qed.

Lemma leads_ret {A} P (a : A) (Q : A -> W -> Prop) : (forall w, P w -> Q a w) -> leads P (mret a) Q.
Proof. intros HQ w Hw. by apply HQ. Qed.

Lemma leads_keeps {A} P (m : M W A) (Q : A -> W -> Prop) :
  keeps P m -> (forall a w, P w -> Q a w) -> leads P m Q.
Proof. intros Hm HQ w Hw. by apply HQ, Hm. Qed.

Lemma leads_after {A B} P (m : M W A) (k : A -> M W B) R :
  keeps P m -> (forall a, leads P (k a) R) -> leads P (m ≫= k) R.
Proof. intros Hm Hk. eapply (leads_bind _ _ _ (fun _ => P)); [exact Hm|exact Hk]. Qed.

Lemma leads_weaken {A} (P P' : W -> Prop) (m : M W A) (Q Q' : A -> W -> Prop) :
  leads P' m Q' -> (forall w, P w -> P' w) -> (forall a w, Q' a w -> Q a w) -> leads P m Q.
Proof. intros Hm HP HQ w Hw. by apply HQ, Hm, HP. Qed.
End Keeps.

Create HintDb keeps.
#[export] Hint Resolve keeps_ret : keeps.

(** Along the structure of a computation, cases of its branches included. *)
Ltac keep :=
  repeat first
    [ solve [auto with keeps]
    | apply keeps_bind; [|intro]
    | apply keeps_pair; intros ? ?
    | progress cbv zeta
    | match goal with
      | |- keeps _ (match ?x with _ => _ end) => destruct x
      | |- keeps _ (if ?b then _ else _) => destruct b
      end ].

