(* ===== verification/Feed.v ===== *)
(** * Feeds

    What reaches a device of the blocks of one source.  The blocks of a source
    are numbered.  A feed is its queue, the block that is being written with
    how much of it was written, and the writes so far, each with the number of
    its block, where it began and how long it was. *)

From stdpp Require Import sorting.
From S2P Require Import Prelude.

Section Feed.
Implicit Types (writes : list (nat * nat * nat)) (queue : list nat) (pending : option (nat * nat)).

(** The next write continues the block of the last one or begins a later one. *)
Definition follows (a b : nat * nat * nat) : Prop :=
  (b.1.1 = a.1.1 /\ b.1.2 = (a.1.2 + a.2)%nat) \/ ((a.1.1 < b.1.1)%nat /\ b.1.2 = 0%nat).

(** All of them, from the beginning of a block on. *)
Definition in_order writes : Prop :=
  (forall a, head writes = Some a -> a.1.2 = 0%nat)
  /\ (forall i a b, writes !! i = Some a -> writes !! S i = Some b -> follows a b).

Definition continues writes pending : Prop :=
  match pending, last writes with
  | None, _ => True
  | Some (_, offset), None => offset = 0%nat
  | Some (number, offset), Some a => follows a (number, offset, 0%nat)
  end.

Definition numbers queue pending : list nat := match pending with Some (number, _) => number :: queue | None => queue end.

Record feed_ok (made : nat) queue pending writes : Prop := {
  feed_writes : in_order writes;
  feed_pending : continues writes pending;
  feed_sorted : StronglySorted lt (numbers queue pending);
  feed_made : Forall (fun number => (number < made)%nat) (numbers queue pending);
  feed_last : forall a, last writes = Some a -> (a.1.1 < made)%nat /\ Forall (fun number => (a.1.1 < number)%nat) queue;
}.

Lemma feed_start : feed_ok 0 [] None [].
Proof. split; try done; try constructor; done. Qed.

Lemma in_order_snoc writes b :
  in_order writes -> (forall a, last writes = Some a -> follows a b) -> (writes = [] -> b.1.2 = 0%nat) -> in_order (writes ++ [b]).
Proof.
  intros [Hh Hf] Hl He. split.
  - intros a. destruct writes as [|c writes]; [intros [= <-]; by apply He|]. apply Hh.
  - intros i a c Ha Hc. apply lookup_app_Some in Hc as [Hc|[Hi Hc]].
    + apply (Hf i); [|done]. apply lookup_lt_Some in Hc. rewrite lookup_app_l in Ha by lia. exact Ha.
    + destruct (S i - length writes)%nat eqn:E; [|done]. injection Hc as <-. apply Hl.
      rewrite last_lookup. rewrite lookup_app_l in Ha by lia. rewrite <- Ha. f_equal. lia.
Qed.

Lemma feed_submit made queue pending writes :
  feed_ok made queue pending writes -> feed_ok (S made) (queue ++ [made]) pending writes.
Proof.
  intros [Hw Hp Hs Hm Hl]. split; [done|done| | |].
  - assert (numbers (queue ++ [made]) pending = numbers queue pending ++ [made]) as -> by by destruct pending as [[]|].
    apply StronglySorted_app_2; [|done|by repeat constructor].
    intros x y Hx Hy. apply list_elem_of_singleton in Hy as ->. rewrite Forall_forall in Hm. by apply Hm.
  - assert (numbers (queue ++ [made]) pending = numbers queue pending ++ [made]) as -> by by destruct pending as [[]|].
    apply Forall_app. split; [|by repeat constructor; lia]. eapply Forall_impl; [exact Hm|]. simpl. lia.
  - intros a Ha. destruct (Hl a Ha) as [H1 H2]. split; [lia|]. apply Forall_app. by repeat constructor.
Qed.

Lemma feed_grow made made' queue pending writes :
  (made <= made')%nat -> feed_ok made queue pending writes -> feed_ok made' queue pending writes.
Proof.
  intros Hle [Hw Hp Hs Hm Hl]. split; try done; [eapply Forall_impl; [exact Hm|]; simpl; lia|].
  intros a Ha. destruct (Hl a Ha). split; [lia|done].
Qed.

Lemma feed_flush made queue pending writes : feed_ok made queue pending writes -> feed_ok made [] pending writes.
Proof.
  intros [Hw Hp Hs Hm Hl]. split; try done.
  - destruct pending as [[]|]; simpl in *; [by repeat constructor|constructor].
  - destruct pending as [[]|]; simpl in *; [by inversion Hm; repeat constructor|constructor].
  - intros a Ha. by destruct (Hl a Ha).
Qed.

Lemma feed_drop made queue pending writes : feed_ok made queue pending writes -> feed_ok made queue None writes.
Proof.
  intros [Hw Hp Hs Hm Hl]. split; try done; destruct pending as [[]|]; simpl in *; try done.
  - by inversion Hs.
  - by inversion Hm.
Qed.

Lemma feed_tail made number queue writes : feed_ok made (number :: queue) None writes -> feed_ok made queue None writes.
Proof.
  intros [Hw Hp Hs Hm Hl]. simpl in *. inversion Hs; inversion Hm; subst. split; try done.
  intros a Ha. destruct (Hl a Ha) as [? Hf]. by inversion Hf.
Qed.

Lemma feed_receive made number queue pending writes :
  feed_ok made (number :: queue) pending writes -> pending = None -> feed_ok made queue (Some (number, 0%nat)) writes.
Proof.
  intros [Hw Hp Hs Hm Hl] ->. simpl in *. split; try done.
  - unfold continues. destruct (last writes) as [a|] eqn:E; [|done]. destruct (Hl a eq_refl) as [_ Hf].
    inversion Hf. by right.
  - intros a Ha. destruct (Hl a Ha) as [? Hf]. by inversion Hf.
Qed.

Lemma feed_write made number offset written queue writes :
  feed_ok made queue (Some (number, offset)) writes ->
  feed_ok made queue (Some (number, offset + written)%nat) (writes ++ [(number, offset, written)]).
Proof.
  intros [Hw Hp Hs Hm Hl]. simpl in *. inversion Hm as [|? ? Hn Hq]; subst. inversion Hs as [|? ? Hs' Hlt]; subst.
  split; try done.
  - apply in_order_snoc; [done| |].
    + intros a Ha. by rewrite Ha in Hp.
    + intros ->. exact Hp.
  - unfold continues. rewrite last_snoc. by left.
  - intros a. rewrite last_snoc. intros [= <-]. by split.
Qed.
End Feed.
