(* ===== verification/TransactionStore.v ===== *)
(** * The transactional store

    [components/transaction_store/deck_transaction_store.cpp]: two record
    slots, a candidate record and an active marker, written through a storage
    adapter.  The adapter (NVS on the device) and the heap are an external
    world [W]; [TransactionMedium.v] instantiates it with a flash medium that
    loses power at an arbitrary write. *)

From S2P Require Import Prelude Codec.

(** ** Keys, results and the adapter *)

Inductive deck_transaction_storage_key_t :=
  | DECK_TRANSACTION_STORAGE_CANDIDATE
  | DECK_TRANSACTION_STORAGE_SLOT_0
  | DECK_TRANSACTION_STORAGE_SLOT_1
  | DECK_TRANSACTION_STORAGE_ACTIVE_MARKER
  | DECK_TRANSACTION_STORAGE_METADATA.

Inductive deck_transaction_storage_result_t :=
  | DECK_TRANSACTION_STORAGE_OK
  | DECK_TRANSACTION_STORAGE_NOT_FOUND
  | DECK_TRANSACTION_STORAGE_ERROR.

#[export] Instance storage_key_eq_dec : EqDecision deck_transaction_storage_key_t.
Proof. solve_decision. Defined.
#[export] Instance storage_result_eq_dec : EqDecision deck_transaction_storage_result_t.
Proof. solve_decision. Defined.

(** The adapter's function pointers, and [new (std::nothrow)], over the
    world [W] they act on.  A read that succeeds returns the bytes
    [output[0 .. *size)]. *)
Class StorageAdapter (W : Type) := {
  storage_read : deck_transaction_storage_key_t -> nat ->
                 M W (deck_transaction_storage_result_t * bytes);
  storage_write : deck_transaction_storage_key_t -> bytes -> M W bool;
  storage_erase : deck_transaction_storage_key_t -> M W bool;
  heap_alloc : M W bool;
}.

(** ** Constants, options and records *)

Definition DECK_TRANSACTION_PAYLOAD_CAPACITY : nat := 128.
Definition DECK_TRANSACTION_MAX_PAYLOAD_CAPACITY : nat := 16 * 1024.
Definition kRecordHeaderSize : nat := 12.
Definition kChecksumSize : nat := 4.
Definition kMarkerSize : nat := 20.


Record deck_transaction_store_options_t := {
  record_magic : bytes;
  marker_magic : bytes;
  schema_version : Z;
  payload_capacity : nat;
  payload_length_excluded_prefix : nat;
  validate_payload : bytes -> bool;
}.
#[export] Instance options_rebuild : Rebuild deck_transaction_store_options_t := fun o =>
  Build_deck_transaction_store_options_t (record_magic o) (marker_magic o) (schema_version o)
    (payload_capacity o) (payload_length_excluded_prefix o) (validate_payload o).

Inductive deck_transaction_record_status_t :=
  | DECK_TRANSACTION_RECORD_EMPTY
  | DECK_TRANSACTION_RECORD_VALID
  | DECK_TRANSACTION_RECORD_RECOVERED_PREVIOUS
  | DECK_TRANSACTION_RECORD_CORRUPT
  | DECK_TRANSACTION_RECORD_UNSUPPORTED_SCHEMA
  | DECK_TRANSACTION_RECORD_MIGRATION_FAILED
  | DECK_TRANSACTION_RECORD_IO_ERROR.

Inductive deck_transaction_update_result_t :=
  | DECK_TRANSACTION_UPDATED
  | DECK_TRANSACTION_INVALID_PAYLOAD
  | DECK_TRANSACTION_STORAGE_FAILURE
  | DECK_TRANSACTION_NO_CANDIDATE.

Inductive DecodeResult := valid | corrupt | unsupported | migration_failed | resource_failed.

#[export] Instance record_status_eq_dec : EqDecision deck_transaction_record_status_t.
Proof. solve_decision. Defined.
#[export] Instance update_result_eq_dec : EqDecision deck_transaction_update_result_t.
Proof. solve_decision. Defined.
#[export] Instance decode_result_eq_dec : EqDecision DecodeResult.
Proof. solve_decision. Defined.

Record DecodedMarker := {
  m_active_slot : Z;
  m_active_generation : Z;
  m_has_previous : bool;
  m_previous_slot : Z;
  m_previous_generation : Z;
}.

(** A heap-owned record; the empty payload is the null pointer. *)
Record OwnedRecord := { payload : bytes; generation : Z }.

Definition payload_size (r : OwnedRecord) : nat := length (payload r).

Definition clear_record : OwnedRecord := {| payload := []; generation := 0 |}.

#[export] Instance owned_record_eq_dec : EqDecision OwnedRecord.
Proof. solve_decision. Defined.

Record deck_transaction_store := {
  options : deck_transaction_store_options_t;
  record_status : deck_transaction_record_status_t;
  candidate_record_status : deck_transaction_record_status_t;
  active : OwnedRecord;
  candidate : OwnedRecord;
  active_slot : Z;
  has_active : bool;
  has_candidate : bool;
  storage_faulted : bool;
  marker_present : bool;
  marker_matches_active : bool;
}.
#[export] Instance store_rebuild : Rebuild deck_transaction_store := fun s =>
  Build_deck_transaction_store (options s) (record_status s) (candidate_record_status s)
    (active s) (candidate s) (active_slot s) (has_active s) (has_candidate s)
    (storage_faulted s) (marker_present s) (marker_matches_active s).

Record deck_transaction_store_snapshot_t := {
  snapshot_record_status : deck_transaction_record_status_t;
  snapshot_candidate_record_status : deck_transaction_record_status_t;
  snapshot_active : OwnedRecord;
  snapshot_candidate : OwnedRecord;
  snapshot_active_slot : Z;
  snapshot_has_active : bool;
  snapshot_has_candidate : bool;
  snapshot_storage_faulted : bool;
}.

(** ** Encoding *)

Definition status_for_decode (result : DecodeResult) : deck_transaction_record_status_t :=
  match result with
  | unsupported => DECK_TRANSACTION_RECORD_UNSUPPORTED_SCHEMA
  | migration_failed => DECK_TRANSACTION_RECORD_MIGRATION_FAILED
  | _ => DECK_TRANSACTION_RECORD_CORRUPT
  end.

Definition slot_key (slot : Z) : deck_transaction_storage_key_t :=
  if slot =? 0 then DECK_TRANSACTION_STORAGE_SLOT_0 else DECK_TRANSACTION_STORAGE_SLOT_1.

(** The empty buffer stands for the returned size 0. *)
Definition encode_record (o : deck_transaction_store_options_t) (data : bytes) (gen : Z)
    (output_capacity : nat) : bytes :=
  if (length data =? 0)%nat || (length data <? payload_length_excluded_prefix o)%nat
     || (payload_capacity o <? length data)%nat || (gen =? 0)
     || (output_capacity <? kRecordHeaderSize + length data + kChecksumSize)%nat
  then []
  else
    let encoded_payload_size := Z.of_nat (length data - payload_length_excluded_prefix o) in
    let header :=
      record_magic o ++
      [schema_version o; 0;
       u8 (Z.land encoded_payload_size 0xff);
       u8 (Z.land (Z.shiftr encoded_payload_size 8) 0xff)] ++
      LE.write_u32 gen in
    let body := header ++ data in
    body ++ LE.write_u32 (crc32 body).

Definition encode_marker (o : deck_transaction_store_options_t) (slot gen : Z)
    (has_previous : bool) (previous_slot previous_gen : Z) : bytes :=
  let body :=
    marker_magic o ++
    [schema_version o; slot] ++
    LE.write_u32 gen ++
    [if has_previous then 1 else 0; if has_previous then previous_slot else 0] ++
    LE.write_u32 (if has_previous then previous_gen else 0) in
  body ++ LE.write_u32 (crc32 body).

(** [std::memcmp(input, magic, 4) != 0] *)
Definition magic_differs (input magic : bytes) : bool :=
  negb (bool_decide (take 4 input = magic)).

Definition decode_marker (o : deck_transaction_store_options_t) (input : bytes) :
    DecodeResult * option DecodedMarker :=
  if negb (length input =? kMarkerSize)%nat || magic_differs input (marker_magic o)
  then (corrupt, None)
  else if schema_version o <? input.[4] then (unsupported, None)
  else if input.[4] <? schema_version o then (migration_failed, None)
  else
    let slot := input.[5] in
    let gen := LE.read_u32 (drop 6 input) in
    let has_previous := input.[10] in
    let previous_slot := input.[11] in
    let previous_gen := LE.read_u32 (drop 12 input) in
    if (1 <? slot) || (gen =? 0) || (1 <? has_previous)
       || ((has_previous =? 0) && (negb (previous_slot =? 0) || negb (previous_gen =? 0)))
       || ((has_previous =? 1) &&
           ((1 <? previous_slot) || (previous_slot =? slot) || (previous_gen =? 0)))
       || negb (LE.read_u32 (drop 16 input) =? crc32 (take 16 input))
    then (corrupt, None)
    else (valid, Some {| m_active_slot := slot; m_active_generation := gen;
                         m_has_previous := has_previous =? 1;
                         m_previous_slot := previous_slot;
                         m_previous_generation := previous_gen |}).

Section Operations.
Context {W : Type} `{StorageAdapter W}.
Implicit Types (o : deck_transaction_store_options_t) (s : deck_transaction_store).

(** [None]: the target record is left as it was. *)
Definition assign_record (data : bytes) (gen : Z) : M W (option OwnedRecord) :=
  if (length data =? 0)%nat || (gen =? 0) then mret None
  else
    copy ← heap_alloc;
    mret (if copy : bool then Some {| payload := data; generation := gen |} else None).

Definition decode_record o (input : bytes) : M W (DecodeResult * option OwnedRecord) :=
  if (length input <? kRecordHeaderSize + kChecksumSize)%nat
     || magic_differs input (record_magic o)
  then mret (corrupt, None)
  else if schema_version o <? input.[4] then mret (unsupported, None)
  else if input.[4] <? schema_version o then mret (migration_failed, None)
  else
    let encoded_payload_size :=
      Z.to_nat (Z.lor input.[6] (Z.shiftl input.[7] 8)) in
    if (payload_capacity o - payload_length_excluded_prefix o <? encoded_payload_size)%nat
    then mret (corrupt, None)
    else
      let size := (encoded_payload_size + payload_length_excluded_prefix o)%nat in
      let checksum_offset := (kRecordHeaderSize + size)%nat in
      let gen := LE.read_u32 (drop 8 input) in
      let data := slice kRecordHeaderSize size input in
      if negb (input.[5] =? 0) || (size =? 0)%nat || (payload_capacity o <? size)%nat
         || negb (checksum_offset + kChecksumSize =? length input)%nat || (gen =? 0)
         || negb (LE.read_u32 (drop checksum_offset input) =? crc32 (take checksum_offset input))
         || negb (validate_payload o data)
      then mret (corrupt, None)
      else
        assigned ← assign_record data gen;
        mret match assigned with
             | Some r => (valid, Some r)
             | None => (resource_failed, None)
             end.

(** Every caller passes an empty record and [corrupt] as the out-parameters. *)
Definition read_encoded_record o (key : deck_transaction_storage_key_t) :
    M W (deck_transaction_storage_result_t * OwnedRecord * DecodeResult) :=
  let encoded_capacity := (kRecordHeaderSize + payload_capacity o + kChecksumSize)%nat in
  encoded ← heap_alloc;
  if negb encoded then mret (DECK_TRANSACTION_STORAGE_ERROR, clear_record, corrupt)
  else
    read ← storage_read key encoded_capacity;
    match read with
    | (DECK_TRANSACTION_STORAGE_OK, input) =>
        decoded ← decode_record o input;
        let '(decode_result, record) := decoded in
        mret (if bool_decide (decode_result = resource_failed)
              then DECK_TRANSACTION_STORAGE_ERROR else DECK_TRANSACTION_STORAGE_OK,
              default clear_record record, decode_result)
    | (result, _) => mret (result, clear_record, corrupt)
    end.

Definition records_equal (left right : OwnedRecord) : bool :=
  (generation left =? generation right) && (payload_size left =? payload_size right)%nat
  && negb (payload_size left =? 0)%nat && bool_decide (payload left = payload right).

Definition set_storage_failure s : deck_transaction_store := s <| storage_faulted := true |>.

(** ** Loading *)

Definition load_candidate s : M W deck_transaction_store :=
  read ← read_encoded_record (options s) DECK_TRANSACTION_STORAGE_CANDIDATE;
  let '(result, record, decoded) := read in
  match result with
  | DECK_TRANSACTION_STORAGE_NOT_FOUND => mret (s <| candidate := record |>)
  | DECK_TRANSACTION_STORAGE_ERROR =>
      mret (set_storage_failure
              (s <| candidate := record |>
                 <| candidate_record_status := DECK_TRANSACTION_RECORD_IO_ERROR |>))
  | DECK_TRANSACTION_STORAGE_OK =>
      mret (if bool_decide (decoded = valid)
            then s <| candidate := record |>
                   <| candidate_record_status := DECK_TRANSACTION_RECORD_VALID |>
                   <| has_candidate := true |>
            else s <| candidate := record |>
                   <| candidate_record_status := status_for_decode decoded |>)
  end.

(** A record read back that belongs to the generation a marker names. *)
Definition record_selected (read : deck_transaction_storage_result_t * OwnedRecord * DecodeResult)
    (gen : Z) : bool :=
  let '(result, record, decoded) := read in
  bool_decide (result = DECK_TRANSACTION_STORAGE_OK) && bool_decide (decoded = valid)
  && (generation record =? gen).

Definition load_active s : M W deck_transaction_store :=
  marker_read ← storage_read DECK_TRANSACTION_STORAGE_ACTIVE_MARKER kMarkerSize;
  match marker_read with
  | (DECK_TRANSACTION_STORAGE_NOT_FOUND, _) => mret s
  | (DECK_TRANSACTION_STORAGE_ERROR, _) =>
      mret (set_storage_failure (s <| record_status := DECK_TRANSACTION_RECORD_IO_ERROR |>))
  | (DECK_TRANSACTION_STORAGE_OK, marker_bytes) =>
      let s := s <| marker_present := true |> in
      match decode_marker (options s) marker_bytes with
      | (valid, Some marker) =>
          selected ← read_encoded_record (options s) (slot_key (m_active_slot marker));
          if record_selected selected (m_active_generation marker)
          then mret (s <| active := selected.1.2 |>
                       <| active_slot := m_active_slot marker |>
                       <| has_active := true |>
                       <| record_status := DECK_TRANSACTION_RECORD_VALID |>
                       <| marker_matches_active := true |>)
          else
            previous ←
              (if m_has_previous marker
               then read_encoded_record (options s) (slot_key (m_previous_slot marker))
               else mret (DECK_TRANSACTION_STORAGE_NOT_FOUND, clear_record, corrupt));
            if m_has_previous marker && record_selected previous (m_previous_generation marker)
            then
              let s := s <| active := previous.1.2 |>
                         <| active_slot := m_previous_slot marker |>
                         <| has_active := true |>
                         <| record_status := DECK_TRANSACTION_RECORD_RECOVERED_PREVIOUS |> in
              mret (if bool_decide (selected.1.1 = DECK_TRANSACTION_STORAGE_ERROR)
                    then set_storage_failure s else s)
            else if bool_decide (selected.1.1 = DECK_TRANSACTION_STORAGE_ERROR)
                    || bool_decide (previous.1.1 = DECK_TRANSACTION_STORAGE_ERROR)
            then mret (set_storage_failure
                         (s <| record_status := DECK_TRANSACTION_RECORD_IO_ERROR |>))
            else if bool_decide (selected.1.1 = DECK_TRANSACTION_STORAGE_OK)
            then mret (s <| record_status :=
                              if bool_decide (selected.2 = valid)
                              then DECK_TRANSACTION_RECORD_CORRUPT
                              else status_for_decode selected.2 |>)
            else mret (s <| record_status := DECK_TRANSACTION_RECORD_CORRUPT |>)
      | (decoded, _) => mret (s <| record_status := status_for_decode decoded |>)
      end
  end.

Definition empty_store o : deck_transaction_store := {|
  options := o;
  record_status := DECK_TRANSACTION_RECORD_EMPTY;
  candidate_record_status := DECK_TRANSACTION_RECORD_EMPTY;
  active := clear_record;
  candidate := clear_record;
  active_slot := 0;
  has_active := false;
  has_candidate := false;
  storage_faulted := false;
  marker_present := false;
  marker_matches_active := false;
|}.

Definition deck_transaction_store_create o : M W (option deck_transaction_store) :=
  if schema_version o =? 0 then mret None
  else
    allocated ← heap_alloc;
    if negb allocated then mret None
    else
      let o := if (payload_capacity o =? 0)%nat
               then o <| payload_capacity := DECK_TRANSACTION_PAYLOAD_CAPACITY |> else o in
      if (DECK_TRANSACTION_MAX_PAYLOAD_CAPACITY <? payload_capacity o)%nat
         || (payload_capacity o <? payload_length_excluded_prefix o)%nat
      then mret None
      else
        s ← load_candidate (empty_store o);
        s ← load_active s;
        mret (Some s).

(** ** Staging *)

Definition stage_generation s : Z :=
  let gen := if has_active s then u32 (generation (active s) + 1) else 1 in
  if gen =? 0 then 1 else gen.

Definition deck_transaction_store_stage s (data : bytes) :
    M W (deck_transaction_update_result_t * deck_transaction_store) :=
  let o := options s in
  if (length data =? 0)%nat || (length data <? payload_length_excluded_prefix o)%nat
     || (payload_capacity o <? length data)%nat || negb (validate_payload o data)
  then mret (DECK_TRANSACTION_INVALID_PAYLOAD, s)
  else if storage_faulted s then mret (DECK_TRANSACTION_STORAGE_FAILURE, s)
  else
    let gen := stage_generation s in
    let encoded_capacity := (kRecordHeaderSize + length data + kChecksumSize)%nat in
    allocated ← heap_alloc;
    let encoded := if allocated : bool then encode_record o data gen encoded_capacity else [] in
    written ← (if (length encoded =? 0)%nat then mret false
               else storage_write DECK_TRANSACTION_STORAGE_CANDIDATE encoded);
    if negb written then mret (DECK_TRANSACTION_STORAGE_FAILURE, set_storage_failure s)
    else
      read ← read_encoded_record o DECK_TRANSACTION_STORAGE_CANDIDATE;
      let '(result, verified, decoded) := read in
      if negb (bool_decide (result = DECK_TRANSACTION_STORAGE_OK))
         || negb (bool_decide (decoded = valid)) || negb (generation verified =? gen)
         || negb (payload_size verified =? length data)%nat
         || negb (bool_decide (payload verified = data))
      then mret (DECK_TRANSACTION_STORAGE_FAILURE, set_storage_failure s)
      else mret (DECK_TRANSACTION_UPDATED,
                 s <| candidate := verified |> <| has_candidate := true |>
                   <| candidate_record_status := DECK_TRANSACTION_RECORD_VALID |>).

(** ** Committing

    The four phases of [deck_transaction_store_commit].  A phase returns the
    store and whether the function goes on; [previous_marker] is [Some] when
    [had_marker] is set. *)

Definition rollback_marker (previous_marker : option bytes) : M W bool :=
  match previous_marker with
  | Some marker => storage_write DECK_TRANSACTION_STORAGE_ACTIVE_MARKER marker
  | None => storage_erase DECK_TRANSACTION_STORAGE_ACTIVE_MARKER
  end.

Definition read_back_marker (marker : bytes) : M W bool :=
  read ← storage_read DECK_TRANSACTION_STORAGE_ACTIVE_MARKER kMarkerSize;
  let '(result, verified) := read in
  mret (bool_decide (result = DECK_TRANSACTION_STORAGE_OK)
        && (length verified =? length marker)%nat && bool_decide (verified = marker)).

Definition write_and_verify_marker (marker : bytes) : M W bool :=
  written ← storage_write DECK_TRANSACTION_STORAGE_ACTIVE_MARKER marker;
  if negb written then mret false else read_back_marker marker.

Definition commit_settle_marker s : M W (bool * deck_transaction_store * option bytes) :=
  if has_active s then
    let previous_marker :=
      encode_marker (options s) (active_slot s) (generation (active s)) false 0 0 in
    if negb (marker_matches_active s) then
      settled ← write_and_verify_marker previous_marker;
      mret (if settled : bool
            then (true, s <| marker_present := true |> <| marker_matches_active := true |>,
                  Some previous_marker)
            else (false, set_storage_failure s, Some previous_marker))
    else mret (true, s, Some previous_marker)
  else if marker_present s then
    erased ← storage_erase DECK_TRANSACTION_STORAGE_ACTIVE_MARKER;
    mret (if erased : bool then (true, s <| marker_present := false |>, None)
          else (false, set_storage_failure s, None))
  else mret (true, s, None).

Definition next_slot s : Z := if has_active s then u8 (1 - active_slot s) else 0.

(** [None]: the slot write failed or did not read back. *)
Definition commit_write_slot s : M W (option OwnedRecord) :=
  let encoded_capacity := (kRecordHeaderSize + payload_size (candidate s) + kChecksumSize)%nat in
  allocated ← heap_alloc;
  let encoded :=
    if allocated : bool
    then encode_record (options s) (payload (candidate s)) (generation (candidate s))
           encoded_capacity
    else [] in
  written ← (if (length encoded =? 0)%nat then mret false
             else storage_write (slot_key (next_slot s)) encoded);
  if negb written then mret None
  else
    read ← read_encoded_record (options s) (slot_key (next_slot s));
    let '(result, verified, decoded) := read in
    mret (if negb (bool_decide (result = DECK_TRANSACTION_STORAGE_OK))
             || negb (bool_decide (decoded = valid))
             || negb (records_equal verified (candidate s))
          then None else Some verified).

Definition commit_marker s (verified : OwnedRecord) : bytes :=
  encode_marker (options s) (next_slot s) (generation verified) (has_active s)
    (active_slot s) (if has_active s then generation (active s) else 0).

Definition commit_write_marker s (verified : OwnedRecord) (previous_marker : option bytes) :
    M W bool :=
  let marker := commit_marker s verified in
  settled ← write_and_verify_marker marker;
  if settled : bool then mret true
  else
    _ ← rollback_marker previous_marker;
    mret false.

Definition commit_publish s (verified : OwnedRecord) : M W deck_transaction_store :=
  let s := s <| active := verified |>
             <| active_slot := next_slot s |>
             <| has_active := true |>
             <| record_status := DECK_TRANSACTION_RECORD_VALID |>
             <| marker_present := true |>
             <| marker_matches_active := true |> in
  erased ← storage_erase DECK_TRANSACTION_STORAGE_CANDIDATE;
  mret (if erased : bool
        then s <| candidate := clear_record |> <| has_candidate := false |>
               <| candidate_record_status := DECK_TRANSACTION_RECORD_EMPTY |>
        else s <| candidate_record_status := DECK_TRANSACTION_RECORD_IO_ERROR |>).

Definition deck_transaction_store_commit s :
    M W (deck_transaction_update_result_t * deck_transaction_store) :=
  if negb (has_candidate s) then mret (DECK_TRANSACTION_NO_CANDIDATE, s)
  else if storage_faulted s then mret (DECK_TRANSACTION_STORAGE_FAILURE, s)
  else
    settled ← commit_settle_marker s;
    let '(go_on, s, previous_marker) := settled in
    if negb go_on then mret (DECK_TRANSACTION_STORAGE_FAILURE, s)
    else
      slot ← commit_write_slot s;
      match slot with
      | None => mret (DECK_TRANSACTION_STORAGE_FAILURE, set_storage_failure s)
      | Some verified =>
          marked ← commit_write_marker s verified previous_marker;
          if negb marked
          then mret (DECK_TRANSACTION_STORAGE_FAILURE, set_storage_failure s)
          else
            s ← commit_publish s verified;
            mret (DECK_TRANSACTION_UPDATED, s)
      end.

(** ** Clearing and observing *)

Definition deck_transaction_store_clear s : M W (bool * deck_transaction_store) :=
  marker ← storage_erase DECK_TRANSACTION_STORAGE_ACTIVE_MARKER;
  staged ← storage_erase DECK_TRANSACTION_STORAGE_CANDIDATE;
  slot0 ← storage_erase DECK_TRANSACTION_STORAGE_SLOT_0;
  slot1 ← storage_erase DECK_TRANSACTION_STORAGE_SLOT_1;
  metadata ← storage_erase DECK_TRANSACTION_STORAGE_METADATA;
  if negb (metadata && (slot1 && (slot0 && (staged && marker))))
  then mret (false, set_storage_failure s)
  else mret (true, empty_store (options s)).

Definition deck_transaction_store_snapshot s : deck_transaction_store_snapshot_t := {|
  snapshot_record_status := record_status s;
  snapshot_candidate_record_status := candidate_record_status s;
  snapshot_active := active s;
  snapshot_candidate := candidate s;
  snapshot_active_slot := active_slot s;
  snapshot_has_active := has_active s;
  snapshot_has_candidate := has_candidate s;
  snapshot_storage_faulted := storage_faulted s;
|}.

End Operations.
