(* ===== verification/TransactionClient.v ===== *)
(** * What a client of the transactional store can rely on

    The store's operations over any adapter and any heap, as its clients (the
    device settings, the Wi-Fi configuration, the Companion profiles and the
    retained snapshot) use them: the records in memory always pass the
    client's validation, and a result code says which records changed. *)

From S2P Require Import Prelude Codec TransactionStore.

#[local] Opaque kRecordHeaderSize kChecksumSize kMarkerSize crc32
  DECK_TRANSACTION_MAX_PAYLOAD_CAPACITY DECK_TRANSACTION_PAYLOAD_CAPACITY.

(** The options of a store that was created from [o]. *)
Definition created_options (o : deck_transaction_store_options_t) : deck_transaction_store_options_t :=
  if (payload_capacity o =? 0)%nat
  then o <| payload_capacity := DECK_TRANSACTION_PAYLOAD_CAPACITY |> else o.

Lemma created_validate o : validate_payload (created_options o) = validate_payload o.
Proof. unfold created_options. by case_match. Qed.

(** Every record in memory passed the validation. *)
Record records_valid (s : deck_transaction_store) : Prop := {
  active_valid : has_active s = true -> validate_payload (options s) (payload (active s)) = true;
  candidate_valid : has_candidate s = true -> validate_payload (options s) (payload (candidate s)) = true;
}.

Section AnyAdapter.
Context {W : Type} `{StorageAdapter W}.

Lemma settle_frame s (w : W) go s1 pm w1 :
  commit_settle_marker s w = ((go, s1, pm), w1) ->
  options s1 = options s /\ active s1 = active s /\ active_slot s1 = active_slot s
  /\ has_active s1 = has_active s /\ candidate s1 = candidate s /\ has_candidate s1 = has_candidate s
  /\ storage_faulted s1 = (if go then storage_faulted s else true).
Proof.
  unfold commit_settle_marker, mbind, M_bind, mret, M_ret.
  repeat (case_match; try (intros [= <- <- <- <-]; by split_and!)).
  all: simplify_eq; repeat case_match; simplify_eq; intros [= <- <- <- <-]; by split_and!.
Qed.

Lemma write_slot_verified s (w : W) v w1 :
  commit_write_slot s w = (Some v, w1) ->
  payload v = payload (candidate s) /\ generation v = generation (candidate s).
Proof.
  unfold commit_write_slot, mbind, M_bind, mret, M_ret. intros Hw.
  repeat (case_match; simplify_eq/=). bool_prop. unfold records_equal in *. by bool_prop.
Qed.

(** The staged record that a commit leaves behind when its erase fails. *)
Definition candidate_dropped s s' : Prop :=
  if has_candidate s'
  then candidate s' = candidate s /\ candidate_record_status s' = DECK_TRANSACTION_RECORD_IO_ERROR
  else candidate_record_status s' = DECK_TRANSACTION_RECORD_EMPTY.

Lemma publish_frame s v (w : W) s1 w1 :
  has_candidate s = true -> commit_publish s v w = (s1, w1) ->
  options s1 = options s /\ active s1 = v /\ active_slot s1 = next_slot s /\ has_active s1 = true
  /\ storage_faulted s1 = storage_faulted s /\ record_status s1 = DECK_TRANSACTION_RECORD_VALID
  /\ candidate_dropped s s1.
Proof.
  intros Hc. unfold commit_publish, candidate_dropped, mbind, M_bind, mret, M_ret. intros Hw.
  by repeat (case_match; simplify_eq/=).
Qed.

(** The active record, its slot and the staged record are as before. *)
Definition same_records s s' : Prop :=
  active s' = active s /\ active_slot s' = active_slot s /\ has_active s' = has_active s
  /\ candidate s' = candidate s /\ has_candidate s' = has_candidate s.

(** What a successful commit publishes. *)
Definition published s s' : Prop :=
  has_candidate s = true /\ storage_faulted s = false /\ has_active s' = true
  /\ active_slot s' = (if has_active s then u8 (1 - active_slot s) else 0)
  /\ payload (active s') = payload (candidate s)
  /\ generation (active s') = generation (candidate s)
  /\ storage_faulted s' = false /\ record_status s' = DECK_TRANSACTION_RECORD_VALID
  /\ candidate_dropped s s'.

Lemma commit_cases s (w : W) res s' w' :
  deck_transaction_store_commit s w = ((res, s'), w') ->
  options s' = options s
  /\ (res <> DECK_TRANSACTION_UPDATED -> same_records s s')
  /\ (res <> DECK_TRANSACTION_UPDATED -> has_candidate s = true -> storage_faulted s' = true)
  /\ (res = DECK_TRANSACTION_UPDATED -> published s s').
Proof.
  unfold deck_transaction_store_commit, mbind, M_bind, mret, M_ret. intros Hcommit.
  destruct (has_candidate s) eqn:Hc; simplify_eq/=; [|done].
  destruct (storage_faulted s) eqn:Hf; simplify_eq/=; [done|].
  destruct (commit_settle_marker s w) as [[[go s1] pm] w1] eqn:Hset.
  apply settle_frame in Hset as (Ho & Ha & Hs & Hh & Hcd & Hhc & Hf1).
  assert (same_records s s1) as Hsame1 by by split_and!.
  destruct go; simplify_eq/=; [|by split_and!].
  assert (same_records s (set_storage_failure s1)) as Hsame by done.
  destruct (commit_write_slot s1 w1) as [[v|] w2] eqn:Hslot; simplify_eq/=; [|by split_and!].
  apply write_slot_verified in Hslot as [Hp Hg].
  destruct (commit_write_marker s1 v pm w2) as [[] w3]; simplify_eq/=; [|by split_and!].
  destruct (commit_publish s1 v w3) as [s4 w4] eqn:Hpub; simplify_eq/=.
  apply publish_frame in Hpub as (Ho4 & Ha4 & Hslot4 & Hh4 & Hf4 & Hr4 & Hd4); [|congruence].
  rewrite Ho4. split_and!; [done..|]. intros _. unfold published, candidate_dropped in *.
  rewrite Ha4, Hslot4, Hh4, Hf4. unfold next_slot. rewrite <- Hcd, Hs, Hh. by split_and!; try congruence.
Qed.

(** *** Loading *)

Lemma decode_record_valid o input (w : W) d r w' :
  decode_record o input w = ((d, r), w') ->
  match r with Some r => d = valid /\ validate_payload o (payload r) = true | None => d <> valid end.
Proof.
  unfold decode_record, assign_record, mbind, M_bind, mret, M_ret. intros Hd.
  repeat (case_match; simplify_eq/=); try done; bool_prop; try done.
Qed.

Lemma read_record_valid o key (w : W) result r d w' :
  read_encoded_record o key w = ((result, r, d), w') -> d = valid ->
  validate_payload o (payload r) = true.
Proof.
  unfold read_encoded_record. rewrite run_bind. destruct (heap_alloc w) as [[] w1]; cbn [fst snd negb];
    [|by intros [= <- <- <- <-]].
  rewrite run_bind. destruct (storage_read key _ w1) as [[[] input] w2]; cbn [fst snd];
    [|by intros [= <- <- <- <-]..].
  rewrite run_bind. destruct (decode_record o input w2) as [[d' r'] w3] eqn:Hd. cbn [fst snd].
  apply decode_record_valid in Hd. intros [= <- <- <- <-] ->. destruct r' as [r'|]; [apply Hd|done].
Qed.

Lemma record_selected_valid o key gen (w : W) read w' :
  read_encoded_record o key w = (read, w') -> record_selected read gen = true ->
  validate_payload o (payload read.1.2) = true.
Proof.
  destruct read as [[result r] d]. unfold record_selected. intros Hr Hs. bool_prop.
  by eapply read_record_valid.
Qed.

Lemma load_candidate_valid s (w : W) s' w' :
  has_active s = false -> has_candidate s = false -> load_candidate s w = (s', w') ->
  options s' = options s /\ has_active s' = false /\ records_valid s'.
Proof.
  intros Ha Hc. unfold load_candidate. rewrite run_bind.
  destruct (read_encoded_record _ _ w) as [[[result r] d] w1] eqn:Hr. cbn [fst snd].
  destruct result; intros [= <- <-]; try case_bool_decide;
    (split_and!; [done..|split; simpl; congruence || intros _]); try (by eapply read_record_valid).
Qed.

Lemma load_active_valid s (w : W) s' w' :
  has_active s = false -> records_valid s -> load_active s w = (s', w') ->
  options s' = options s /\ records_valid s'.
Proof.
  intros Ha [_ Hc]. unfold load_active, set_storage_failure, mbind, M_bind, mret, M_ret. intros Hl.
  repeat (case_match; simplify_eq/=); (split; [done|split]); simpl; congruence || done || intros _;
  match goal with
  | E : read_encoded_record _ _ _ = (?r, _), H : record_selected ?r _ = true |- _ =>
      by apply (record_selected_valid _ _ _ _ _ _ E H)
  end.
Qed.

Lemma create_valid o (w : W) s w' :
  deck_transaction_store_create o w = (Some s, w') -> options s = created_options o /\ records_valid s.
Proof.
  unfold deck_transaction_store_create. fold (created_options o).
  destruct (schema_version o =? 0); [done|]. rewrite run_bind.
  destruct (heap_alloc w) as [[] w1]; cbn [fst snd negb]; [|done].
  destruct (_ || _); [done|]. rewrite run_bind.
  destruct (load_candidate _ w1) as [s1 w2] eqn:Hc. cbn [fst snd]. rewrite run_bind.
  destruct (load_active s1 w2) as [s2 w3] eqn:Ha. intros [= <- <-].
  apply load_candidate_valid in Hc as (Ho & Hn & Hv); [|done..].
  apply load_active_valid in Ha as [Ho' Hv']; [|done..]. split; [by rewrite Ho', Ho|done].
Qed.

(** *** Staging and clearing *)

(** The payload check at the head of [stage]. *)
Definition stage_accepts o (data : bytes) : bool :=
  negb ((length data =? 0)%nat || (length data <? payload_length_excluded_prefix o)%nat
        || (payload_capacity o <? length data)%nat || negb (validate_payload o data)).

Lemma stage_cases s data (w : W) res s' w' :
  deck_transaction_store_stage s data w = ((res, s'), w') ->
  options s' = options s /\ active s' = active s /\ active_slot s' = active_slot s
  /\ has_active s' = has_active s /\ record_status s' = record_status s
  /\ (res <> DECK_TRANSACTION_UPDATED -> candidate s' = candidate s /\ has_candidate s' = has_candidate s)
  /\ (res <> DECK_TRANSACTION_UPDATED -> stage_accepts (options s) data = true -> storage_faulted s' = true)
  /\ (res = DECK_TRANSACTION_UPDATED ->
       validate_payload (options s) data = true /\ has_candidate s' = true /\ payload (candidate s') = data
       /\ generation (candidate s') = stage_generation s
       /\ storage_faulted s' = storage_faulted s /\ storage_faulted s = false).
Proof.
  unfold deck_transaction_store_stage, mbind, M_bind, mret, M_ret. intros Hs.
  repeat (case_match; simplify_eq/=); bool_prop; split_and!; try done; try congruence.
  all: try by intros; split_and!.
  intros _. unfold stage_accepts.
  by match goal with E : _ || _ = true |- _ => rewrite E end.
Qed.

Lemma clear_cases s (w : W) ok s' w' :
  deck_transaction_store_clear s w = ((ok, s'), w') ->
  s' = if ok then empty_store (options s) else set_storage_failure s.
Proof.
  unfold deck_transaction_store_clear, mbind, M_bind, mret, M_ret. intros Hs.
  by repeat (case_match; simplify_eq/=).
Qed.

(** *** The records in memory stay valid *)

Lemma stage_valid s data (w : W) res s' w' :
  records_valid s -> deck_transaction_store_stage s data w = ((res, s'), w') -> records_valid s'.
Proof.
  intros [Ha Hc] (Ho & Hact & _ & Hh & _ & Hkeep & _ & Hupd)%stage_cases.
  split; rewrite Ho; [by rewrite Hh, Hact|]. destruct (decide (res = DECK_TRANSACTION_UPDATED)) as [E|E].
  - destruct (Hupd E) as (Hv & _ & -> & _). done.
  - destruct (Hkeep E) as [-> ->]. done.
Qed.

Lemma commit_valid s (w : W) res s' w' :
  records_valid s -> deck_transaction_store_commit s w = ((res, s'), w') -> records_valid s'.
Proof.
  intros [Ha Hc] (Ho & Hkeep & _ & Hpub)%commit_cases.
  destruct (decide (res = DECK_TRANSACTION_UPDATED)) as [E|E].
  - destruct (Hpub E) as (Hcd & _ & _ & _ & Hp & _ & _ & _ & Hd). unfold candidate_dropped in Hd.
    split; rewrite Ho; [by rewrite Hp, Hc|]. intros Hcd'. rewrite Hcd' in Hd. destruct Hd as [-> _]. auto.
  - destruct (Hkeep E) as (E1 & _ & E2 & E3 & E4). split; rewrite Ho, ?E1, ?E2, ?E3, ?E4; done.
Qed.

(** ** Saving: staging and committing at once *)

Definition save s (data : bytes) : M W (bool * deck_transaction_store) :=
  staged ← deck_transaction_store_stage s data;
  let '(result, s) := staged in
  if negb (bool_decide (result = DECK_TRANSACTION_UPDATED)) then mret (false, s)
  else
    committed ← deck_transaction_store_commit s;
    let '(result, s) := committed in
    mret (bool_decide (result = DECK_TRANSACTION_UPDATED), s).

Lemma save_valid s data (w : W) ok s' w' :
  records_valid s -> save s data w = ((ok, s'), w') -> records_valid s'.
Proof.
  intros Hv. unfold save, mbind, M_bind, mret, M_ret.
  destruct (deck_transaction_store_stage s data w) as [[r s1] w1] eqn:Hs.
  apply stage_valid in Hs; [|done]. case_bool_decide; cbn [negb]; [|by intros [= <- <- <-]].
  destruct (deck_transaction_store_commit s1 w1) as [[r2 s2] w2] eqn:Hc. intros [= <- <- <-].
  by apply commit_valid in Hc.
Qed.

(** A save that succeeds makes the data active; one that fails changes no
    active record, and latches the store unless the data was refused. *)
Lemma save_cases s data (w : W) ok s' w' :
  save s data w = ((ok, s'), w') ->
  options s' = options s
  /\ if ok then
       has_active s' = true /\ payload (active s') = data
       /\ generation (active s') = stage_generation s /\ storage_faulted s' = false
       /\ record_status s' = DECK_TRANSACTION_RECORD_VALID /\ validate_payload (options s) data = true
     else
       active s' = active s /\ has_active s' = has_active s
       /\ (stage_accepts (options s) data = true -> storage_faulted s' = true).
Proof.
  unfold save, mbind, M_bind, mret, M_ret.
  destruct (deck_transaction_store_stage s data w) as [[r s1] w1] eqn:Hs.
  apply stage_cases in Hs as (Ho & Ha & _ & Hh & _ & _ & Hfail & Hupd).
  case_bool_decide as Hr; cbn [negb]; [|intros [= <- <- <-]; split_and!; auto].
  destruct (Hupd Hr) as (Hval & Hc & Hp & Hg & Hf & Hf').
  destruct (deck_transaction_store_commit s1 w1) as [[r2 s2] w2] eqn:Hcommit.
  apply commit_cases in Hcommit as (Ho2 & Hkeep & Hfail2 & Hpub). intros [= <- <- <-].
  split; [congruence|]. case_bool_decide as Hr2.
  - destruct (Hpub Hr2) as (_ & _ & ? & _ & Hp2 & Hg2 & ? & ? & _). split_and!; congruence.
  - destruct (Hkeep Hr2) as (? & _ & ? & _). split_and!; try congruence. intros _. by apply Hfail2.
Qed.

Lemma clear_valid s (w : W) ok s' w' :
  records_valid s -> deck_transaction_store_clear s w = ((ok, s'), w') ->
  records_valid s' /\ options s' = options s.
Proof. intros [Ha Hc] ->%clear_cases. destruct ok; split; done || by split. Qed.

End AnyAdapter.
