(* ===== verification/TransactionCodec.v ===== *)
(** * Record and marker codec of the transactional store

    What [encode_record] and [encode_marker] write is what [decode_record] and
    [decode_marker] read back; a reader never accepts a buffer whose CRC does
    not match. *)

From S2P Require Import Prelude Codec TransactionStore.

(** The options a store accepts at creation, with [payload_capacity] defaulted. *)
Record options_wf (o : deck_transaction_store_options_t) : Prop := {
  wf_record_magic : length (record_magic o) = 4%nat /\ is_bytes (record_magic o);
  wf_marker_magic : length (marker_magic o) = 4%nat /\ is_bytes (marker_magic o);
  wf_schema : is_u8 (schema_version o) /\ schema_version o <> 0;
  wf_capacity : payload_capacity o <> 0%nat /\
    (payload_capacity o <= DECK_TRANSACTION_MAX_PAYLOAD_CAPACITY)%nat;
  wf_prefix : (payload_length_excluded_prefix o <= payload_capacity o)%nat;
}.

(** The same conditions as a computation, for concrete options. *)
Definition magic_wf (magic : bytes) : bool :=
  (length magic =? 4)%nat && forallb (fun b => (0 <=? b) && (b <=? 255)) magic.

Definition options_wfb (o : deck_transaction_store_options_t) : bool :=
  magic_wf (record_magic o) && magic_wf (marker_magic o)
  && (0 <? schema_version o) && (schema_version o <=? 255)
  && negb (payload_capacity o =? 0)%nat
  && (payload_capacity o <=? DECK_TRANSACTION_MAX_PAYLOAD_CAPACITY)%nat
  && (payload_length_excluded_prefix o <=? payload_capacity o)%nat.

Lemma magic_wf_spec magic : magic_wf magic = true -> length magic = 4%nat /\ is_bytes magic.
Proof.
  unfold magic_wf. intros Hm. bool_prop. split; [done|]. apply Forall_forall. intros b Hb.
  match goal with E : forallb _ _ = true |- _ => rewrite forallb_forall in E;
    specialize (E b (proj1 (list_elem_of_In _ _) Hb)) end.
  bool_prop. by split.
Qed.

Lemma options_wfb_spec o : options_wfb o = true -> options_wf o.
Proof.
  unfold options_wfb. intros Ho. bool_prop.
  constructor; try (by apply magic_wf_spec); try done; (split; [words|lia]) || by split.
Qed.

(** A payload [deck_transaction_store_stage] lets through. *)
Record payload_ok (o : deck_transaction_store_options_t) (data : bytes) : Prop := {
  ok_bytes : is_bytes data;
  ok_nonempty : (0 < length data)%nat;
  ok_prefix : (payload_length_excluded_prefix o <= length data)%nat;
  ok_capacity : (length data <= payload_capacity o)%nat;
  ok_validate : validate_payload o data = true;
}.

Definition generation_ok (gen : Z) : Prop := is_u32 gen /\ gen <> 0.

(** A reliable heap over no storage at all, to run the decoders as pure functions. *)
#[local] Instance pure_heap : StorageAdapter unit := {
  storage_read _ _ w := ((DECK_TRANSACTION_STORAGE_ERROR, []), w);
  storage_write _ _ w := (false, w);
  storage_erase _ w := (false, w);
  heap_alloc w := (true, w);
}.

Lemma size_constants : kRecordHeaderSize = 12%nat /\ kChecksumSize = 4%nat /\ kMarkerSize = 20%nat.
Proof. done. Qed.

(** The sizes stay folded except in arithmetic. *)
Ltac sizes := pose proof size_constants as (?&?&?).

#[local] Opaque kRecordHeaderSize kChecksumSize kMarkerSize.

Definition parse_record (o : deck_transaction_store_options_t) (input : bytes) :
    DecodeResult * option OwnedRecord :=
  (decode_record o input tt).1.

Section Codec.
Implicit Types (o : deck_transaction_store_options_t) (data input : bytes).

(** ** Allocation is the only effect of the record decoder *)

Lemma decode_record_reliable {W} `{StorageAdapter W} o input (w : W) :
  heap_alloc w = (true, w) -> decode_record o input w = (parse_record o input, w).
Proof.
  intros Hheap. unfold parse_record, decode_record, assign_record, mret, M_ret, mbind, M_bind.
  repeat (case_match; simplify_eq/=; try done).
Qed.

Lemma length_payload_slice (n : nat) input :
  (kRecordHeaderSize + n + kChecksumSize)%nat = length input ->
  length (slice kRecordHeaderSize n input) = n.
Proof. intros. apply length_slice. sizes. lia. Qed.

Lemma parse_record_never_resource_failed o input :
  (parse_record o input).1 <> resource_failed.
Proof.
  unfold parse_record, decode_record, assign_record, mret, M_ret, mbind, M_bind.
  repeat (case_match; simplify_eq/=; try done).
  bool_cases; rewrite ?length_payload_slice in * by done; lia.
Qed.

Lemma parse_record_valid o input r :
  parse_record o input = (valid, Some r) ->
  generation r <> 0 /\ payload r <> [] /\ validate_payload o (payload r) = true
  /\ (payload_size r <= payload_capacity o)%nat
  /\ length input = (kRecordHeaderSize + payload_size r + kChecksumSize)%nat.
Proof.
  unfold parse_record, decode_record, assign_record, mret, M_ret, mbind, M_bind.
  intros Hp. repeat (case_match; simplify_eq/=). bool_prop.
  unfold payload_size; cbn [payload generation].
  rewrite length_payload_slice in * by done.
  repeat split; try done.
  intros E. apply (f_equal length) in E. rewrite length_payload_slice in E; done.
Qed.

(** ** Shape of an encoded record *)

Definition record_header o data (gen : Z) : bytes :=
  record_magic o ++
  [schema_version o; 0;
   u8 (Z.land (Z.of_nat (length data - payload_length_excluded_prefix o)) 0xff);
   u8 (Z.land (Z.shiftr (Z.of_nat (length data - payload_length_excluded_prefix o)) 8) 0xff)] ++
  LE.write_u32 gen.

Lemma encode_record_body o data gen cap :
  payload_ok o data -> generation_ok gen ->
  (kRecordHeaderSize + length data + kChecksumSize <= cap)%nat ->
  encode_record o data gen cap =
  (record_header o data gen ++ data) ++ LE.write_u32 (crc32 (record_header o data gen ++ data)).
Proof.
  intros [] [? ?] Hcap. unfold encode_record. case_match; [|done].
  exfalso. bool_cases; lia.
Qed.

Lemma length_record_header o data gen :
  options_wf o -> length (record_header o data gen) = kRecordHeaderSize.
Proof.
  intros [[? _] _ _ _ _]. unfold record_header. rewrite !length_app. sizes. simpl. lia.
Qed.

Lemma is_bytes_record_header o data gen :
  options_wf o -> is_bytes (record_header o data gen).
Proof.
  intros [[? Hm] _ [Hs _] _ _]. unfold record_header.
  apply Forall_app. split; [done|]. apply Forall_app. split; [|auto with deck].
  repeat constructor; auto with deck; words.
Qed.

Lemma is_bytes_encode_record o data gen cap :
  options_wf o -> is_bytes data -> is_bytes (encode_record o data gen cap).
Proof.
  intros Ho Hd. unfold encode_record. case_match; [constructor|].
  apply Forall_app; split; [|auto with deck]. apply Forall_app; split; [|done].
  by apply is_bytes_record_header.
Qed.

Lemma length_encode_record o data gen cap :
  options_wf o -> payload_ok o data -> generation_ok gen ->
  (kRecordHeaderSize + length data + kChecksumSize <= cap)%nat ->
  length (encode_record o data gen cap) = (kRecordHeaderSize + length data + kChecksumSize)%nat.
Proof.
  intros. rewrite encode_record_body by done.
  rewrite !length_app, length_record_header by done. done.
Qed.

(** The two length bytes give the length back: it is below 2^16. *)
Lemma length_bytes_roundtrip (n : nat) :
  Z.of_nat n < 65536 ->
  Z.to_nat (Z.lor (u8 (Z.land (Z.of_nat n) 0xff))
                  (Z.shiftl (u8 (Z.land (Z.shiftr (Z.of_nat n) 8) 0xff)) 8)) = n.
Proof.
  intros Hn. rewrite !land_255. unfold u8. rewrite !Z.mod_mod by lia.
  change (Z.of_nat n mod 256) with (Z.of_nat n mod 2 ^ 8).
  rewrite (le_step _ 8 16) by lia. change (2 ^ 16) with 65536.
  rewrite Z.mod_small by lia. lia.
Qed.

(** ** Round trips *)

Lemma parse_encode_record o data gen cap :
  options_wf o -> payload_ok o data -> generation_ok gen ->
  (kRecordHeaderSize + length data + kChecksumSize <= cap)%nat ->
  parse_record o (encode_record o data gen cap)
  = (valid, Some {| payload := data; generation := gen |}).
Proof.
  intros Hwf Hok [Hgen Hgen0] Hcap.
  rewrite encode_record_body by done.
  pose proof (length_record_header o data gen Hwf) as Hlen.
  pose proof (is_bytes_record_header o data gen Hwf) as Hhb.
  set (hdr := record_header o data gen) in *.
  assert (is_u32 (crc32 (hdr ++ data))) as Hcrc.
  { apply crc32_range, Forall_app. split; [done|apply Hok]. }
  set (crc := LE.write_u32 (crc32 (hdr ++ data))).
  assert (length crc = kChecksumSize) as Hlc by done.
  assert (forall i, (i < kRecordHeaderSize)%nat -> ((hdr ++ data) ++ crc).[i] = hdr.[i]) as Hat.
  { intros i Hi. rewrite <- app_assoc, byte_at_app_l by lia. done. }
  destruct Hwf as [[Hml _] _ _ [_ Hc] Hp]. destruct Hok as [Hb Hne Hpre Hcp Hv].
  assert (forall k, hdr = record_magic o ++ k ->
    take 4 ((hdr ++ data) ++ crc) = record_magic o) as Htake.
  { intros k ->. rewrite <- !app_assoc, take_app_le, take_ge by lia. done. }
  specialize (Htake _ eq_refl).
  assert (forall i, (4 <= i)%nat -> hdr.[i] =
    ([schema_version o; 0;
      u8 (Z.land (Z.of_nat (length data - payload_length_excluded_prefix o)) 0xff);
      u8 (Z.land (Z.shiftr (Z.of_nat (length data - payload_length_excluded_prefix o)) 8) 0xff)] ++
     LE.write_u32 gen).[i - 4]) as Hf.
  { intros i Hi. unfold hdr, record_header. rewrite byte_at_app_r by lia. by rewrite Hml. }
  assert (drop 8 ((hdr ++ data) ++ crc) = LE.write_u32 gen ++ data ++ crc) as Hg.
  { rewrite <- app_assoc. unfold hdr, record_header. rewrite <- !app_assoc.
    rewrite drop_app_ge by lia. by rewrite Hml. }
  unfold parse_record, decode_record, assign_record, magic_differs.
  rewrite Htake, bool_decide_eq_true_2 by done. simpl negb. rewrite orb_false_r.
  rewrite Hg, LEFacts.read_write_u32 by done.
  rewrite !Hat by (sizes; lia).
  rewrite !Hf by lia. unfold byte_at; cbn [app lookup list_lookup Nat.sub default from_option id].
  rewrite length_bytes_roundtrip
    by (unfold DECK_TRANSACTION_MAX_PAYLOAD_CAPACITY in *; lia).
  rewrite !Z.ltb_irrefl, !length_app, Hlen, Hlc.
  replace (length data - payload_length_excluded_prefix o + payload_length_excluded_prefix o)%nat
    with (length data) by lia.
  assert (slice kRecordHeaderSize (length data) ((hdr ++ data) ++ crc) = data) as ->.
  { rewrite <- app_assoc, slice_skip, take_app_length by done. done. }
  rewrite Hv, (Nat.eqb_refl (_ + _)).
  rewrite take_app_length', drop_app_length' by (rewrite length_app; lia).
  unfold crc at 1. rewrite <- (app_nil_r (LE.write_u32 _)), LEFacts.read_write_u32, Z.eqb_refl by done.
  unfold mbind, M_bind, mret, M_ret. simpl heap_alloc.
  repeat (case_match; simplify_eq/=); try done;
    bool_cases; sizes; try done; lia.
Qed.

(** ** Markers *)

Definition slot_ok (slot : Z) : Prop := slot = 0 \/ slot = 1.

(** A marker [deck_transaction_store_commit] can write. *)
Record marker_ok (slot gen : Z) (has_previous : bool) (previous_slot previous_gen : Z) : Prop := {
  mk_slot : slot_ok slot;
  mk_generation : generation_ok gen;
  mk_previous : has_previous = true ->
    slot_ok previous_slot /\ previous_slot <> slot /\ generation_ok previous_gen;
}.

Definition decoded_marker (slot gen : Z) (has_previous : bool) (previous_slot previous_gen : Z) :
    DecodedMarker := {|
  m_active_slot := slot; m_active_generation := gen; m_has_previous := has_previous;
  m_previous_slot := if has_previous then previous_slot else 0;
  m_previous_generation := if has_previous then previous_gen else 0;
|}.

Lemma length_encode_marker o slot gen hp ps pg :
  options_wf o -> length (encode_marker o slot gen hp ps pg) = kMarkerSize.
Proof.
  intros [_ [? _] _ _ _]. unfold encode_marker. rewrite !length_app. sizes. simpl. lia.
Qed.

Definition marker_body o (slot gen : Z) (has_previous : bool) (previous_slot previous_gen : Z) :
    bytes :=
  marker_magic o ++ [schema_version o; slot] ++ LE.write_u32 gen ++
  [if has_previous then 1 else 0; if has_previous then previous_slot else 0] ++
  LE.write_u32 (if has_previous then previous_gen else 0).

Lemma length_marker_body o slot gen hp ps pg :
  options_wf o -> length (marker_body o slot gen hp ps pg) = 16%nat.
Proof. intros [_ [? _] _ _ _]. unfold marker_body. rewrite !length_app. simpl. lia. Qed.

Lemma is_bytes_marker_body o slot gen hp ps pg :
  options_wf o -> marker_ok slot gen hp ps pg -> is_bytes (marker_body o slot gen hp ps pg).
Proof.
  intros [_ [_ Hm] [Hs _] _ _] [Hslot _ Hprev]. unfold marker_body, slot_ok in *.
  repeat (apply Forall_app; split); auto with deck; repeat constructor; try done;
    destruct hp; try specialize (Hprev eq_refl); words.
Qed.

Lemma is_bytes_encode_marker o slot gen hp ps pg :
  options_wf o -> marker_ok slot gen hp ps pg ->
  is_bytes (encode_marker o slot gen hp ps pg).
Proof.
  intros. apply Forall_app; split; [by apply is_bytes_marker_body|auto with deck].
Qed.

Lemma decode_encode_marker o slot gen hp ps pg :
  options_wf o -> marker_ok slot gen hp ps pg ->
  decode_marker o (encode_marker o slot gen hp ps pg)
  = (valid, Some (decoded_marker slot gen hp ps pg)).
Proof.
  intros Hwf Hok.
  pose proof (length_marker_body o slot gen hp ps pg Hwf) as Hlen.
  pose proof (crc32_range _ (is_bytes_marker_body o slot gen hp ps pg Hwf Hok)) as Hcrc.
  change (encode_marker o slot gen hp ps pg) with
    (marker_body o slot gen hp ps pg ++ LE.write_u32 (crc32 (marker_body o slot gen hp ps pg))).
  set (body := marker_body o slot gen hp ps pg) in *.
  set (input := body ++ LE.write_u32 (crc32 body)).
  assert (take 16 input = body) as Ht by (by apply take_app_length').
  assert (LE.read_u32 (drop 16 input) = crc32 body) as Hd.
  { unfold input. rewrite drop_app_length', <- (app_nil_r (LE.write_u32 _)) by done.
    by apply LEFacts.read_write_u32. }
  assert (length input = kMarkerSize) as Hsize
    by (unfold input; rewrite length_app, Hlen; sizes; simpl; lia).
  destruct Hwf as [_ [Hm _] _ _ _]. destruct Hok as [Hslot [Hgen Hgen0] Hprev].
  assert (is_u32 (if hp then pg else 0)) as Hpg
    by (destruct hp; [by apply Hprev|words]).
  unfold decode_marker, magic_differs. rewrite Ht, Hd, Hsize.
  clear Hlen Hcrc Ht Hd Hsize.
  destruct (marker_magic o) as [|a [|b [|c [|d [|]]]]] eqn:Emagic; simplify_eq Hm.
  assert (take 4 input = [a; b; c; d]) as -> by (unfold input, body, marker_body; by rewrite Emagic).
  assert (input.[4] = schema_version o) as -> by (unfold input, body, marker_body; by rewrite Emagic).
  assert (input.[5] = slot) as -> by (unfold input, body, marker_body; by rewrite Emagic).
  assert (input.[10] = if hp then 1 else 0) as -> by (unfold input, body, marker_body; by rewrite Emagic).
  assert (input.[11] = if hp then ps else 0) as -> by (unfold input, body, marker_body; by rewrite Emagic).
  assert (LE.read_u32 (drop 6 input) = gen) as ->.
  { unfold input, body, marker_body. rewrite Emagic.
    apply (LEFacts.read_write_u32 gen _ Hgen). }
  assert (LE.read_u32 (drop 12 input) = if hp then pg else 0) as ->.
  { unfold input, body, marker_body. rewrite Emagic.
    apply (LEFacts.read_write_u32 _ (LE.write_u32 _) Hpg). }
  rewrite bool_decide_eq_true_2, Nat.eqb_refl, Z.ltb_irrefl, (Z.eqb_refl (crc32 _)) by done.
  clear input body. unfold decoded_marker, slot_ok, generation_ok in *. cbn [negb orb].
  destruct hp; [destruct (Hprev eq_refl) as (?&?&?&?)|];
    destruct (_ || _) eqn:Hguard; try done; bool_cases; lia.
Qed.

End Codec.

(** ** The codec's properties *)

(** The Wi-Fi layout without its payload check: a witness for the theorems. *)
Definition sample_options : deck_transaction_store_options_t := {|
  record_magic := [68; 84; 88; 82]; marker_magic := [68; 84; 88; 77];
  schema_version := 1; payload_capacity := 4%nat; payload_length_excluded_prefix := 1%nat;
  validate_payload data := negb (length data =? 0)%nat |}.

Lemma sample_options_wf : options_wf sample_options.
Proof.
  split; unfold DECK_TRANSACTION_MAX_PAYLOAD_CAPACITY; simpl; try split; try done; try lia;
    repeat constructor; words.
Qed.

Lemma sample_payload_ok : payload_ok sample_options [7; 8; 9].
Proof. split; simpl; try lia; try done. repeat constructor; words. Qed.

(** A record written by [encode_record] into a buffer of any sufficient
    capacity decodes, on a heap that does not fail, to the same payload and
    generation, and the decoder leaves the world alone. *)
Theorem record_roundtrip {W} `{StorageAdapter W} o data gen cap (w : W)
    (Hheap : heap_alloc w = (true, w)) (Hwf : options_wf o)
    (Hdata : payload_ok o data) (Hgen : generation_ok gen)
    (Hcap : (kRecordHeaderSize + length data + kChecksumSize <= cap)%nat) :
  decode_record o (encode_record o data gen cap) w
  = ((valid, Some {| payload := data; generation := gen |}), w).
Proof. rewrite decode_record_reliable by done. by rewrite parse_encode_record. Qed.

Lemma record_roundtrip_witness :
  decode_record sample_options (encode_record sample_options [7; 8; 9] 5 19) tt
  = ((valid, Some {| payload := [7; 8; 9]; generation := 5 |}), tt).
Proof.
  apply record_roundtrip; [done|apply sample_options_wf|apply sample_payload_ok| |vm_compute; lia].
  split; [words|lia].
Defined.

(** An active marker written by [encode_marker] decodes to the slots and
    generations it was written with, the previous ones zeroed when there is
    no previous record. *)
Theorem marker_roundtrip o slot gen has_previous previous_slot previous_gen
    (Hwf : options_wf o) (Hok : marker_ok slot gen has_previous previous_slot previous_gen) :
  decode_marker o (encode_marker o slot gen has_previous previous_slot previous_gen)
  = (valid, Some {| m_active_slot := slot; m_active_generation := gen;
       m_has_previous := has_previous;
       m_previous_slot := if has_previous then previous_slot else 0;
       m_previous_generation := if has_previous then previous_gen else 0 |}).
Proof. by apply decode_encode_marker. Qed.

Lemma marker_roundtrip_witness :
  decode_marker sample_options (encode_marker sample_options 1 9 true 0 8)
  = (valid, Some {| m_active_slot := 1; m_active_generation := 9; m_has_previous := true;
       m_previous_slot := 0; m_previous_generation := 8 |}).
Proof.
  apply (marker_roundtrip sample_options 1 9 true 0 8); [apply sample_options_wf|].
  split; [by right|split; [words|lia]|]. intros _. split; [by left|]. split; [lia|]. split; [words|lia].
Defined.
