(* ===== verification/TransactionMedium.v ===== *)
(** * A storage medium that loses power, and what a restart recovers from it

    A flash medium (the NVS namespace of a component) completes [budget] more
    mutations and then loses power: the mutation in flight is torn, every later
    one is lost.  A torn record write leaves arbitrary bytes; the 20-byte active
    marker is the one atomic cell: it lands or it does not.  [recover] says
    which record the cells designate, [synced] when a running store agrees with
    them, and [create_flash] that a restart establishes both. *)

From S2P Require Import Prelude Codec TransactionStore TransactionCodec.

#[local] Opaque kRecordHeaderSize kChecksumSize kMarkerSize crc32
  DECK_TRANSACTION_MAX_PAYLOAD_CAPACITY DECK_TRANSACTION_PAYLOAD_CAPACITY.

(** ** The medium *)

#[export] Instance storage_key_countable : Countable deck_transaction_storage_key_t.
Proof.
  refine (inj_countable'
    (fun k => match k with
      | DECK_TRANSACTION_STORAGE_CANDIDATE => 0%nat
      | DECK_TRANSACTION_STORAGE_SLOT_0 => 1%nat
      | DECK_TRANSACTION_STORAGE_SLOT_1 => 2%nat
      | DECK_TRANSACTION_STORAGE_ACTIVE_MARKER => 3%nat
      | DECK_TRANSACTION_STORAGE_METADATA => 4%nat end)
    (fun n => match n with
      | 0%nat => DECK_TRANSACTION_STORAGE_CANDIDATE
      | 1%nat => DECK_TRANSACTION_STORAGE_SLOT_0
      | 2%nat => DECK_TRANSACTION_STORAGE_SLOT_1
      | 3%nat => DECK_TRANSACTION_STORAGE_ACTIVE_MARKER
      | _ => DECK_TRANSACTION_STORAGE_METADATA end) _).
  by intros [].
Defined.

Abbreviation cells_t := (gmap deck_transaction_storage_key_t bytes).

Record flash := {
  cells : cells_t;
  budget : nat;
  torn_value : option bytes;
  marker_lands : bool;
  powered : bool;
}.
#[export] Instance flash_rebuild : Rebuild flash := fun f =>
  Build_flash (cells f) (budget f) (torn_value f) (marker_lands f) (powered f).

(** What the mutation in flight at the power loss leaves behind. *)
Definition torn_cells (key : deck_transaction_storage_key_t) (done : cells_t) (f : flash) :
    cells_t :=
  if decide (key = DECK_TRANSACTION_STORAGE_ACTIVE_MARKER)
  then if marker_lands f then done else cells f
  else match torn_value f with
       | Some value => <[key := value]> (cells f)
       | None => delete key (cells f)
       end.

Definition flash_mutate (key : deck_transaction_storage_key_t) (done : cells_t) (f : flash) :
    bool * flash :=
  if negb (powered f) then (false, f)
  else match budget f with
       | O => (false, f <| cells := torn_cells key done f |> <| powered := false |>)
       | S more => (true, f <| cells := done |> <| budget := more |>)
       end.

Definition flash_read (key : deck_transaction_storage_key_t) (capacity : nat) (f : flash) :
    deck_transaction_storage_result_t * bytes :=
  if negb (powered f) then (DECK_TRANSACTION_STORAGE_ERROR, [])
  else match cells f !! key with
       | None => (DECK_TRANSACTION_STORAGE_NOT_FOUND, [])
       | Some value =>
           if (length value <=? capacity)%nat then (DECK_TRANSACTION_STORAGE_OK, value)
           else (DECK_TRANSACTION_STORAGE_ERROR, [])
       end.

#[export] Instance flash_adapter : StorageAdapter flash := {
  storage_read key capacity f := (flash_read key capacity f, f);
  storage_write key value f := flash_mutate key (<[key := value]> (cells f)) f;
  storage_erase key f := flash_mutate key (delete key (cells f)) f;
  heap_alloc f := (true, f);
}.

(** The device restarts: power is back, the cells are what they were. *)
Definition reboot (f : flash) : flash := f <| powered := true |>.

Definition active_of (s : deck_transaction_store) : option OwnedRecord :=
  if has_active s then Some (active s) else None.

Definition candidate_of (s : deck_transaction_store) : option OwnedRecord :=
  if has_candidate s then Some (candidate s) else None.

(** The record a store created after a restart serves. *)
Definition active_after_reboot (o : deck_transaction_store_options_t) (f : flash) :
    option OwnedRecord :=
  (deck_transaction_store_create o (reboot f)).1 ≫= active_of.

(** ** What the cells hold *)

Section Recovery.
Context (o : deck_transaction_store_options_t).
Implicit Types (c : cells_t) (f : flash) (s : deck_transaction_store).

Definition stored_record c (key : deck_transaction_storage_key_t) : option OwnedRecord :=
  input ← c !! key;
  if (length input <=? kRecordHeaderSize + payload_capacity o + kChecksumSize)%nat then
    match parse_record o input with (valid, r) => r | _ => None end
  else None.

Definition stored_marker c : option DecodedMarker :=
  input ← c !! DECK_TRANSACTION_STORAGE_ACTIVE_MARKER;
  if (length input <=? kMarkerSize)%nat then
    match decode_marker o input with (valid, m) => m | _ => None end
  else None.

Definition stored_generation c (slot gen : Z) : option OwnedRecord :=
  r ← stored_record c (slot_key slot);
  if generation r =? gen then Some r else None.

(** The marked record, or else the previous one the marker names. *)
Definition recover c : option (Z * OwnedRecord) :=
  m ← stored_marker c;
  match stored_generation c (m_active_slot m) (m_active_generation m) with
  | Some r => Some (m_active_slot m, r)
  | None =>
      if m_has_previous m then
        r ← stored_generation c (m_previous_slot m) (m_previous_generation m);
        Some (m_previous_slot m, r)
      else None
  end.

(** ** Reading through the adapter *)

Lemma parse_record_some input d r : parse_record o input = (d, Some r) -> d = valid.
Proof.
  unfold parse_record, decode_record, assign_record, mret, M_ret, mbind, M_bind.
  intros. by repeat (case_match; simplify_eq/=).
Qed.

Lemma parse_record_none input : parse_record o input <> (valid, None).
Proof.
  unfold parse_record, decode_record, assign_record, mret, M_ret, mbind, M_bind.
  repeat (case_match; simplify_eq/=; try done).
Qed.

Lemma flash_read_encoded f key :
  powered f = true ->
  exists read, read_encoded_record o key f = (read, f)
    /\ (forall gen, record_selected read gen = true <->
          exists r, stored_record (cells f) key = Some r /\ generation r = gen /\ read.1.2 = r)
    /\ (forall r, stored_record (cells f) key = Some r ->
          read = (DECK_TRANSACTION_STORAGE_OK, r, valid))
    /\ ((forall input, cells f !! key = Some input ->
           (length input <= kRecordHeaderSize + payload_capacity o + kChecksumSize)%nat) ->
        read.1.1 <> DECK_TRANSACTION_STORAGE_ERROR).
Proof.
  intros Hp. unfold read_encoded_record, stored_record.
  unfold storage_read, heap_alloc, flash_adapter, flash_read, mbind, M_bind, option_bind. simpl.
  rewrite Hp. simpl. destruct (cells f !! key) as [input|]; simpl.
  2: { eexists. split; [done|]. unfold record_selected.
       split; [intros; split; [by intros|by intros (?&?&_)]|done]. }
  destruct (Nat.leb _ _) eqn:Hfit; simpl.
  2: { eexists. split; [done|]. unfold record_selected.
       split; [intros; split; [by intros|by intros (?&?&_)]|split; [done|]].
       intros Hlen. specialize (Hlen _ eq_refl). bool_prop. lia. }
  rewrite decode_record_reliable by done.
  pose proof (parse_record_never_resource_failed o input) as Hnr.
  pose proof (parse_record_none input) as Hpn.
  destruct (parse_record o input) as [d r] eqn:Hparse. simpl in *.
  rewrite bool_decide_eq_false_2 by done.
  eexists. split; [done|]. unfold record_selected. destruct r as [r|].
  - pose proof (parse_record_some _ _ _ Hparse) as ->. simpl. split; [|by split; [intros ? [= ->]|]].
    intros gen. rewrite Z.eqb_eq. split; [by exists r|by intros (? & [= ->] & ? & _)].
  - split; [|by destruct d].
    intros gen. destruct d; simpl; (split; [done|by intros (?&?&_)]).
Qed.

(** ** A medium in order, and a store in step with it *)

Definition cell_limit (key : deck_transaction_storage_key_t) : nat :=
  if decide (key = DECK_TRANSACTION_STORAGE_ACTIVE_MARKER) then kMarkerSize
  else (kRecordHeaderSize + payload_capacity o + kChecksumSize)%nat.

Definition cell_ok (key : deck_transaction_storage_key_t) (value : bytes) : Prop :=
  is_bytes value /\ (length value <= cell_limit key)%nat.

Definition medium_ok c : Prop := map_Forall cell_ok c.

Record synced s c : Prop := {
  sy_options : options s = o;
  sy_medium : medium_ok c;
  sy_active : recover c = if has_active s then Some (active_slot s, active s) else None;
  sy_matches : marker_matches_active s = true -> has_active s = true ->
    exists m, stored_marker c = Some m /\ m_active_slot m = active_slot s
              /\ m_active_generation m = generation (active s);
  sy_present : has_active s = false -> marker_present s = false ->
    c !! DECK_TRANSACTION_STORAGE_ACTIVE_MARKER = None;
  sy_candidate : stored_record c DECK_TRANSACTION_STORAGE_CANDIDATE = candidate_of s;
  sy_fault : storage_faulted s = false;
}.

Lemma byte_mod_range (l : bytes) i : is_bytes l -> 0 <= l.[i].
Proof. intros Hl. pose proof (byte_at_range l i Hl). words. Qed.

Lemma stored_record_ok c key r :
  medium_ok c -> stored_record c key = Some r -> payload_ok o (payload r) /\ generation_ok (generation r).
Proof.
  intros Hc Hr. unfold stored_record in Hr.
  destruct (c !! key) as [input|] eqn:Hin; simplify_eq/=. case_match; simplify_eq/=.
  destruct (parse_record o input) as [d r'] eqn:Hparse. destruct d; simplify_eq/=.
  pose proof (Hc _ _ Hin) as [Hb _].
  pose proof (parse_record_valid _ _ _ Hparse) as (Hg & Hne & Hv & Hcap & Hlen).
  revert Hparse. unfold parse_record, decode_record, assign_record, mret, M_ret, mbind, M_bind.
  intros Hparse. repeat (case_match; simplify_eq/=). bool_prop. unfold payload_size in *. simpl in *.
  rewrite length_payload_slice in * by done.
  repeat split; try done; rewrite ?length_payload_slice by done; try lia; auto with deck;
    apply LEFacts.read_u32_range.
Qed.

Lemma stored_marker_ok c m :
  medium_ok c -> stored_marker c = Some m ->
  slot_ok (m_active_slot m) /\ m_active_generation m <> 0 /\
  (m_has_previous m = true -> slot_ok (m_previous_slot m) /\ m_previous_slot m <> m_active_slot m).
Proof.
  intros Hc Hm. unfold stored_marker in Hm.
  destruct (c !! _) as [input|] eqn:Hin; simplify_eq/=. case_match; simplify_eq/=.
  pose proof (Hc _ _ Hin) as [Hb _].
  pose proof (byte_mod_range input 5 Hb). pose proof (byte_mod_range input 11 Hb).
  unfold decode_marker in Hm. repeat (case_match; simplify_eq/=). bool_prop.
  unfold slot_ok. split; [lia|]. split; [done|]. intros. bool_cases; lia.
Qed.

Lemma stored_generation_record c slot gen r :
  stored_generation c slot gen = Some r -> stored_record c (slot_key slot) = Some r /\ generation r = gen.
Proof.
  unfold stored_generation. destruct (stored_record _ _) as [r'|]; simpl; [|done].
  case_match; intros; simplify_eq. bool_prop. done.
Qed.

Lemma recover_ok c slot r :
  medium_ok c -> recover c = Some (slot, r) ->
  slot_ok slot /\ stored_record c (slot_key slot) = Some r /\ generation_ok (generation r).
Proof.
  intros Hc. unfold recover. destruct (stored_marker c) as [m|] eqn:Hm; simpl; [|done].
  pose proof (stored_marker_ok c m Hc Hm) as (Hs & _ & Hp).
  destruct (stored_generation c (m_active_slot m) _) as [r'|] eqn:Hg.
  - intros. simplify_eq. apply stored_generation_record in Hg as [Hr _].
    split; [done|]. split; [done|]. by eapply stored_record_ok.
  - case_match; [|done]. destruct (stored_generation c (m_previous_slot m) _) as [r'|] eqn:Hg';
      simpl; [|done].
    intros. simplify_eq. apply stored_generation_record in Hg' as [Hr _].
    split; [by apply Hp|]. split; [done|]. by eapply stored_record_ok.
Qed.

(** A matching marker names the recovered record. *)
Lemma recover_marked c m r :
  stored_marker c = Some m -> stored_record c (slot_key (m_active_slot m)) = Some r ->
  generation r = m_active_generation m -> recover c = Some (m_active_slot m, r).
Proof.
  intros Hm Hr Hg. unfold recover. rewrite Hm. simpl. unfold stored_generation. rewrite Hr. simpl.
  by rewrite Hg, Z.eqb_refl.
Qed.

Lemma recover_no_marker c :
  c !! DECK_TRANSACTION_STORAGE_ACTIVE_MARKER = None -> recover c = None.
Proof. intros H. unfold recover, stored_marker. by rewrite H. Qed.

(** Recovery looks at the marker and the two slots only. *)
Lemma recover_candidate_irrelevant c c' :
  (forall key, key <> DECK_TRANSACTION_STORAGE_CANDIDATE -> c !! key = c' !! key) ->
  recover c = recover c'.
Proof.
  intros Hkeys. assert (stored_marker c = stored_marker c') as Hm
    by (unfold stored_marker; by rewrite Hkeys).
  assert (forall slot gen, stored_generation c slot gen = stored_generation c' slot gen) as Hg.
  { intros. unfold stored_generation, stored_record. rewrite Hkeys; [done|].
    unfold slot_key. by case_match. }
  unfold recover. rewrite Hm. destruct (stored_marker c'); simpl; [|done]. by rewrite !Hg.
Qed.

(** ** What creation loads *)

Hypothesis Hwf : options_wf o.

Record loaded s s' c : Prop := {
  ld_active : recover c = if has_active s' then Some (active_slot s', active s') else None;
  ld_matches : marker_matches_active s' = true ->
    exists m, stored_marker c = Some m /\ m_active_slot m = active_slot s'
              /\ m_active_generation m = generation (active s');
  ld_present : marker_present s' = false ->
    c !! DECK_TRANSACTION_STORAGE_ACTIVE_MARKER = None \/ storage_faulted s' = true;
  ld_options : options s' = options s;
  ld_candidate : candidate_of s' = candidate_of s;
  ld_fault : medium_ok c -> storage_faulted s' = storage_faulted s;
}.

Lemma medium_ok_fits c key :
  medium_ok c -> key <> DECK_TRANSACTION_STORAGE_ACTIVE_MARKER ->
  forall input, c !! key = Some input ->
    (length input <= kRecordHeaderSize + payload_capacity o + kChecksumSize)%nat.
Proof.
  intros Hc Hk input Hin. destruct (Hc _ _ Hin) as [_ Hl]. unfold cell_limit in Hl.
  by rewrite decide_False in Hl.
Qed.

Lemma slot_key_not_marker slot : slot_key slot <> DECK_TRANSACTION_STORAGE_ACTIVE_MARKER.
Proof. unfold slot_key. by case_match. Qed.

Lemma record_selected_generation c slot gen
    (read : deck_transaction_storage_result_t * OwnedRecord * DecodeResult) :
  (forall g, record_selected read g = true <->
     exists r, stored_record c (slot_key slot) = Some r /\ generation r = g /\ read.1.2 = r) ->
  (forall r, stored_record c (slot_key slot) = Some r ->
     read = (DECK_TRANSACTION_STORAGE_OK, r, valid)) ->
  stored_generation c slot gen = if record_selected read gen then Some read.1.2 else None.
Proof.
  intros Hsel Hread. unfold stored_generation. destruct (record_selected read gen) eqn:E.
  - apply Hsel in E as (r & -> & Hg & ->). simpl. by rewrite Hg, Z.eqb_refl.
  - destruct (stored_record c (slot_key slot)) as [r|] eqn:Hr; simpl; [|done].
    destruct (generation r =? gen) eqn:Eg; [|done]. bool_prop.
    rewrite (Hread r eq_refl) in E. simpl in E. bool_prop. done.
Qed.

Lemma read_slot f slot :
  powered f = true ->
  exists read, read_encoded_record o (slot_key slot) f = (read, f)
    /\ (forall gen, stored_generation (cells f) slot gen
         = if record_selected read gen then Some read.1.2 else None)
    /\ (medium_ok (cells f) -> bool_decide (read.1.1 = DECK_TRANSACTION_STORAGE_ERROR) = false).
Proof.
  intros Hp. destruct (flash_read_encoded f (slot_key slot) Hp) as (read & Hrun & Hsel & Hok & Herr).
  exists read. split; [done|]. split.
  - intros gen. by apply record_selected_generation.
  - intros Hc. apply bool_decide_eq_false_2, Herr. apply medium_ok_fits; auto using slot_key_not_marker.
Qed.

Lemma load_active_flash s f :
  powered f = true -> options s = o -> has_active s = false ->
  marker_matches_active s = false -> marker_present s = false ->
  exists s', load_active s f = (s', f) /\ loaded s s' (cells f).
Proof.
  intros Hp Ho Hna Hnm Hnp. unfold load_active, mbind at 1, M_bind at 1.
  unfold storage_read at 1, flash_adapter at 1, flash_read at 1. simpl. rewrite Hp. simpl.
  pose proof (eq_refl (recover (cells f))) as Hrec. unfold recover at 2 in Hrec.
  pose proof (eq_refl (stored_marker (cells f))) as Hsm. unfold stored_marker at 2 in Hsm.
  destruct (cells f !! DECK_TRANSACTION_STORAGE_ACTIVE_MARKER) as [input|] eqn:Hm; simpl in *.
  2: { rewrite Hsm in Hrec. exists s. split; [done|].
       split; try done; [by rewrite Hna|congruence|by left]. }
  destruct (Nat.leb _ _) eqn:Hfit; simpl in *.
  2: { rewrite Hsm in Hrec. eexists. split; [done|].
       split; simpl; try done; [by rewrite Hna|congruence|by right|].
       intros Hc. destruct (Hc _ _ Hm) as [_ Hl]. unfold cell_limit in Hl.
       rewrite decide_True in Hl by done. bool_prop. lia. }
  rewrite Ho. destruct (decode_marker o input) as [d m] eqn:Hdec.
  destruct (decide (d = valid)) as [->|Hd].
  2: { assert (stored_marker (cells f) = None) as Hsm' by (rewrite Hsm; by destruct d).
       rewrite Hsm' in Hrec. eexists. split; [by destruct d|]. split; simpl; try done; try congruence.
       by rewrite Hna. }
  destruct m as [m|].
  2: { rewrite Hsm in Hrec. eexists. split; [done|]. split; simpl; try done; try congruence.
       by rewrite Hna. }
  rewrite Hsm in Hrec. simpl in Hrec. unfold mbind at 1, M_bind at 1.
  destruct (read_slot f (m_active_slot m) Hp) as (sel & -> & Hsel & Hsele).
  rewrite Hsel in Hrec. destruct (record_selected sel _) eqn:Esel.
  { eexists. split; [done|]. split; simpl; try done.
    intros _. exists m. split; [done|]. split; [done|].
    pose proof (Hsel (m_active_generation m)) as Hg. rewrite Esel in Hg.
    by apply stored_generation_record in Hg as [_ ->]. }
  unfold mbind at 1, M_bind at 1. destruct (m_has_previous m) eqn:Ehp; simpl in *.
  - destruct (read_slot f (m_previous_slot m) Hp) as (prev & -> & Hprev & Hpreve).
    rewrite Hprev in Hrec. destruct (record_selected prev _); simpl in *.
    + eexists. split; [done|]. case_match eqn:E.
      * split; simpl; try done; try congruence. by intros Hc; specialize (Hsele Hc).
      * split; simpl; try done; congruence.
    + repeat case_match; bool_cases; (eexists; split; [done|]; split; simpl; try done; try congruence);
        try (by rewrite Hna); intros Hc; specialize (Hsele Hc); specialize (Hpreve Hc); bool_prop; done.
  - repeat case_match; bool_cases; (eexists; split; [done|]; split; simpl; try done; try congruence);
      try (by rewrite Hna); intros Hc; specialize (Hsele Hc); bool_prop; done.
Qed.

Lemma load_candidate_flash f :
  powered f = true ->
  exists s, load_candidate (empty_store o) f = (s, f)
    /\ candidate_of s = stored_record (cells f) DECK_TRANSACTION_STORAGE_CANDIDATE
    /\ options s = o /\ has_active s = false /\ marker_matches_active s = false
    /\ marker_present s = false /\ (medium_ok (cells f) -> storage_faulted s = false).
Proof.
  intros Hp. unfold load_candidate, mbind, M_bind. simpl.
  destruct (flash_read_encoded f DECK_TRANSACTION_STORAGE_CANDIDATE Hp)
    as (read & -> & Hsel & Hok & Herr).
  destruct (stored_record (cells f) _) as [r|] eqn:Hr.
  { rewrite (Hok r eq_refl). by eexists. }
  specialize (Hsel (generation read.1.2)). destruct read as [[result record] decoded].
  assert (result <> DECK_TRANSACTION_STORAGE_OK \/ decoded <> valid) as Hbad.
  { destruct (decide (result = DECK_TRANSACTION_STORAGE_OK)) as [->|]; [|by left].
    destruct (decide (decoded = valid)) as [->|]; [|by right].
    simpl in Hsel. rewrite Z.eqb_refl in Hsel. by destruct (proj1 Hsel eq_refl) as (?&?&_). }
  destruct result; simpl in *.
  - rewrite bool_decide_eq_false_2 by (by destruct Hbad). by eexists.
  - by eexists.
  - eexists. split; [done|]. repeat split. intros Hc. exfalso. apply Herr; [|done].
    by apply medium_ok_fits.
Qed.

Lemma create_flash f :
  powered f = true ->
  exists s, deck_transaction_store_create o f = (Some s, f)
    /\ active_of s = snd <$> recover (cells f)
    /\ (medium_ok (cells f) -> synced s (cells f)).
Proof.
  intros Hp. destruct Hwf as [_ _ [_ Hs] [Hc0 Hcap] Hpre].
  unfold deck_transaction_store_create. rewrite (proj2 (Z.eqb_neq _ _) Hs).
  unfold mbind at 1, M_bind at 1. simpl heap_alloc. cbn [negb].
  rewrite (proj2 (Nat.eqb_neq _ _) Hc0).
  rewrite (proj2 (Nat.ltb_ge _ _) Hcap), (proj2 (Nat.ltb_ge _ _) Hpre). cbn [orb].
  unfold mbind, M_bind.
  destruct (load_candidate_flash f Hp) as (s1 & -> & Hcand & Ho & Ha & Hma & Hmp & Hf).
  destruct (load_active_flash s1 f Hp Ho Ha Hma Hmp) as (s2 & -> & Hl).
  exists s2. split; [done|]. destruct Hl as [Hact Hmat Hpres Hopt Hca Hfault].
  split; [rewrite Hact; unfold active_of; by case_match|].
  intros Hmed. specialize (Hf Hmed). specialize (Hfault Hmed).
  split; auto; try congruence. intros _ Hnp. destruct (Hpres Hnp); congruence.
Qed.

(** A reboot serves what the marker and the slots say, whatever else is torn. *)
Lemma active_after_reboot_recover f :
  active_after_reboot o f = snd <$> recover (cells f).
Proof.
  unfold active_after_reboot.
  destruct (create_flash (reboot f) eq_refl) as (s & -> & Hact & _). exact Hact.
Qed.

(** ** One mutation of the medium *)

Lemma flash_mutate_cases f key done ok f' :
  powered f = true -> flash_mutate key done f = (ok, f') ->
  (ok = true /\ powered f' = true /\ cells f' = done /\ (budget f = S (budget f'))%nat
     /\ torn_value f' = torn_value f /\ marker_lands f' = marker_lands f)
  \/ (ok = false /\ powered f' = false /\ cells f' = torn_cells key done f /\ budget f = O).
Proof.
  unfold flash_mutate. intros Hp Hm. rewrite Hp in Hm. simpl in Hm. destruct (budget f) as [|n] eqn:Hb; simplify_eq/=.
  - by right.
  - by left.
Qed.

(** Without power nothing moves any more. *)
Lemma dead_mutate f key done : powered f = false -> flash_mutate key done f = (false, f).
Proof. unfold flash_mutate. by intros ->. Qed.

Lemma dead_rollback f marker : powered f = false -> rollback_marker marker f = (false, f).
Proof. intros. destruct marker; by apply dead_mutate. Qed.

Lemma write_marker_cases f marker ok f' :
  powered f = true -> length marker = kMarkerSize ->
  write_and_verify_marker marker f = (ok, f') ->
  let written := <[DECK_TRANSACTION_STORAGE_ACTIVE_MARKER := marker]> (cells f) in
  (ok = true /\ powered f' = true /\ cells f' = written /\ (budget f = S (budget f'))%nat)
  \/ (ok = false /\ powered f' = false /\ (cells f' = cells f \/ cells f' = written) /\ budget f = O).
Proof.
  intros Hp Hlen. unfold write_and_verify_marker, read_back_marker, mbind, M_bind.
  unfold storage_write, storage_read, flash_adapter.
  destruct (flash_mutate _ _ f) as [done f1] eqn:Hm.
  destruct (flash_mutate_cases _ _ _ _ _ Hp Hm) as [(-> & Hp1 & Hc & Hb & _)|(-> & Hp1 & Hc & Hb)];
    cbn [negb].
  - unfold flash_read. rewrite Hp1, Hc, lookup_insert_eq. cbn [negb].
    rewrite (proj2 (Nat.leb_le _ _)) by lia.
    rewrite Nat.eqb_refl, !bool_decide_eq_true_2 by done. intros [= <- <-]. by left.
  - intros [= <- <-]. right. repeat split; try done. rewrite Hc. unfold torn_cells. rewrite decide_True by done.
    case_match; auto.
Qed.

(** ** Frame properties of the cells *)

Lemma stored_record_frame c c' key :
  c !! key = c' !! key -> stored_record c key = stored_record c' key.
Proof. unfold stored_record. by intros ->. Qed.

Lemma stored_marker_frame c c' :
  c !! DECK_TRANSACTION_STORAGE_ACTIVE_MARKER = c' !! DECK_TRANSACTION_STORAGE_ACTIVE_MARKER ->
  stored_marker c = stored_marker c'.
Proof. unfold stored_marker. by intros ->. Qed.

Lemma stored_marker_written c slot gen hp ps pg :
  marker_ok slot gen hp ps pg ->
  stored_marker (<[DECK_TRANSACTION_STORAGE_ACTIVE_MARKER := encode_marker o slot gen hp ps pg]> c)
  = Some (decoded_marker slot gen hp ps pg).
Proof.
  intros Hok. unfold stored_marker. rewrite lookup_insert_eq. simpl.
  rewrite length_encode_marker, Nat.leb_refl by done. by rewrite decode_encode_marker.
Qed.

Lemma stored_record_written c key data gen cap :
  payload_ok o data -> generation_ok gen ->
  (kRecordHeaderSize + length data + kChecksumSize <= cap)%nat ->
  stored_record (<[key := encode_record o data gen cap]> c) key
  = Some {| payload := data; generation := gen |}.
Proof.
  intros Hd Hg Hcap. unfold stored_record. rewrite lookup_insert_eq. simpl.
  rewrite length_encode_record by done.
  rewrite (proj2 (Nat.leb_le _ _)) by (destruct Hd; lia). by rewrite parse_encode_record.
Qed.

Lemma marker_cell_ok slot gen hp ps pg :
  marker_ok slot gen hp ps pg ->
  cell_ok DECK_TRANSACTION_STORAGE_ACTIVE_MARKER (encode_marker o slot gen hp ps pg).
Proof.
  intros Hok. split; [by apply is_bytes_encode_marker|].
  unfold cell_limit. by rewrite decide_True, length_encode_marker.
Qed.

Lemma record_cell_ok key data gen cap :
  key <> DECK_TRANSACTION_STORAGE_ACTIVE_MARKER -> payload_ok o data -> generation_ok gen ->
  (kRecordHeaderSize + length data + kChecksumSize <= cap)%nat ->
  cell_ok key (encode_record o data gen cap).
Proof.
  intros Hk Hd Hg Hcap. split; [apply is_bytes_encode_record; [done|apply Hd]|].
  unfold cell_limit. rewrite decide_False, length_encode_record by done. destruct Hd. lia.
Qed.

Lemma medium_ok_insert c key value :
  cell_ok key value -> medium_ok c -> medium_ok (<[key := value]> c).
Proof. intros. by apply map_Forall_insert_2. Qed.

Lemma medium_ok_delete c key : medium_ok c -> medium_ok (delete key c).
Proof. intros. by apply map_Forall_delete. Qed.

Lemma slot_key_inj a b : slot_ok a -> slot_ok b -> a <> b -> slot_key a <> slot_key b.
Proof. intros [-> | ->] [-> | ->]; done. Qed.

Lemma slot_key_not_candidate slot : slot_key slot <> DECK_TRANSACTION_STORAGE_CANDIDATE.
Proof. unfold slot_key. by case_match. Qed.

End Recovery.
