(* ===== verification/TransactionCrash.v ===== *)
(** * The transactional store across power losses

    A commit, a stage or a clear that loses power at an arbitrary write, and
    the store that the next restart creates: it serves the old record or the
    new one, never a mixture; and over any run of operations and restarts
    without a failed write the store refines a register with a staging area. *)

From S2P Require Import Prelude Codec TransactionStore TransactionClient TransactionCodec TransactionMedium.

#[local] Opaque kRecordHeaderSize kChecksumSize kMarkerSize crc32
  DECK_TRANSACTION_MAX_PAYLOAD_CAPACITY DECK_TRANSACTION_PAYLOAD_CAPACITY.

Section Atomicity.
Context (o : deck_transaction_store_options_t).
Hypothesis Hwf : options_wf o.
Implicit Types (c : cells_t) (f : flash) (s : deck_transaction_store).

(** ** The phases of a commit *)

(** After the marker is settled it names the active record, or is absent. *)
Record anchored s c : Prop := {
  an_options : options s = o;
  an_medium : medium_ok o c;
  an_candidate : stored_record o c DECK_TRANSACTION_STORAGE_CANDIDATE = candidate_of s;
  an_marker : has_active s = true ->
    exists m, stored_marker o c = Some m /\ m_active_slot m = active_slot s
              /\ m_active_generation m = generation (active s);
  an_absent : has_active s = false -> c !! DECK_TRANSACTION_STORAGE_ACTIVE_MARKER = None;
  an_active : has_active s = true ->
    slot_ok (active_slot s) /\ generation_ok (generation (active s))
    /\ stored_record o c (slot_key (active_slot s)) = Some (active s);
}.

Definition active_cell s : option (Z * OwnedRecord) :=
  if has_active s then Some (active_slot s, active s) else None.

Lemma recover_anchored s c :
  (has_active s = true ->
    exists m, stored_marker o c = Some m /\ m_active_slot m = active_slot s
              /\ m_active_generation m = generation (active s)) ->
  (has_active s = false -> c !! DECK_TRANSACTION_STORAGE_ACTIVE_MARKER = None) ->
  (has_active s = true -> stored_record o c (slot_key (active_slot s)) = Some (active s)) ->
  recover o c = active_cell s.
Proof.
  intros Hm Habs Hact. unfold active_cell. destruct (has_active s).
  - destruct (Hm eq_refl) as (m & Hsm & Hslot & Hgen). rewrite <- Hslot.
    apply recover_marked; [done|rewrite Hslot; by apply Hact|done].
  - by apply recover_no_marker, Habs.
Qed.

Lemma synced_active s c :
  synced o s c -> has_active s = true ->
  slot_ok (active_slot s) /\ generation_ok (generation (active s))
  /\ stored_record o c (slot_key (active_slot s)) = Some (active s).
Proof.
  intros [_ Hmed Hact _ _ _ _] Ha. rewrite Ha in Hact.
  by apply recover_ok in Hact as (? & ? & ?).
Qed.

(** The marker [commit_settle_marker] repairs or keeps names no previous record. *)
Lemma settled_marker_ok s c :
  synced o s c -> has_active s = true ->
  marker_ok (active_slot s) (generation (active s)) false 0 0.
Proof. intros Hs Ha. destruct (synced_active s c Hs Ha) as (?&?&_). by split. Qed.

Lemma commit_settle_marker_flash s f :
  synced o s (cells f) -> powered f = true ->
  exists go_on s' previous_marker f',
    commit_settle_marker s f = ((go_on, s', previous_marker), f')
    /\ recover o (cells f') = active_cell s
    /\ (go_on = false -> budget f = O /\ powered f' = false)
    /\ (go_on = true -> powered f' = true /\ anchored s' (cells f') /\ active_cell s' = active_cell s
         /\ candidate s' = candidate s /\ has_candidate s' = has_candidate s
         /\ storage_faulted s' = false /\ (budget f <= S (budget f'))%nat).
Proof.
  intros Hsy Hp. pose proof Hsy as [Ho Hmed Hact Hmat Hpres Hcand Hfault].
  unfold commit_settle_marker, mbind, M_bind. destruct (has_active s) eqn:Ha.
  - pose proof (synced_active s _ Hsy Ha) as (Hslot & Hgen & Hrec).
    pose proof (settled_marker_ok s _ Hsy Ha) as Hmk.
    destruct (marker_matches_active s) eqn:Hma; cbn [negb].
    + do 4 eexists. split; [done|]. split; [by rewrite Hact; unfold active_cell; rewrite Ha|].
      split; [done|]. intros _. split_and!; try done; try lia.
      constructor; auto; congruence.
    + rewrite Ho.
      destruct (write_and_verify_marker _ f) as [ok f'] eqn:Hw.
      apply write_marker_cases in Hw; [|done|by apply length_encode_marker].
      set (written := <[_ := _]> (cells f)) in Hw.
      assert (stored_marker o written = Some (decoded_marker (active_slot s) (generation (active s)) false 0 0))
        as Hwm by by apply stored_marker_written.
      assert (stored_record o written (slot_key (active_slot s)) = Some (active s)) as Hwr.
      { rewrite <- Hrec. apply stored_record_frame. unfold written.
        rewrite lookup_insert_ne; [done|]. apply not_eq_sym, slot_key_not_marker. }
      assert (recover o written = active_cell s) as Hrw.
      { apply recover_anchored; [by eexists|congruence|done]. }
      destruct Hw as [(-> & Hp' & Hc & Hb)|(-> & Hp' & Hc & Hb)].
      * do 4 eexists. split; [done|]. rewrite Hc. split; [done|]. split; [done|]. intros _.
        split_and!; try done; try lia. constructor; simpl; try done; try congruence.
        -- apply medium_ok_insert; [by apply marker_cell_ok|done].
        -- etransitivity; [|exact Hcand]. apply stored_record_frame. unfold written. by rewrite lookup_insert_ne.
        -- intros _. by eexists.
      * do 4 eexists. split; [done|]. split; [|done].
        destruct Hc as [-> | ->]; [|done]. rewrite Hact. unfold active_cell. by rewrite Ha.
  - destruct (marker_present s) eqn:Hmp.
    + unfold storage_erase, flash_adapter. destruct (flash_mutate _ _ f) as [ok f'] eqn:Hw.
      apply flash_mutate_cases in Hw; [|done].
      assert (recover o (delete DECK_TRANSACTION_STORAGE_ACTIVE_MARKER (cells f)) = None) as Hdel
        by (apply recover_no_marker, lookup_delete_eq).
      destruct Hw as [(-> & Hp' & Hc & Hb & _)|(-> & Hp' & Hc & Hb)].
      * do 4 eexists. split; [done|]. rewrite Hc. unfold active_cell. simpl. rewrite Ha.
        split; [done|]. split; [done|]. intros _.
        split_and!; try done; try lia. constructor; simpl; try done; try congruence.
        -- by apply medium_ok_delete.
        -- etransitivity; [|exact Hcand]. apply stored_record_frame. by rewrite lookup_delete_ne.
        -- intros _. apply lookup_delete_eq.
      * do 4 eexists. split; [done|]. split; [|done].
        rewrite Hc. unfold active_cell, torn_cells. rewrite Ha, decide_True by done. by case_match.
    + do 4 eexists. split; [done|]. rewrite Hact. unfold active_cell. rewrite Ha.
      split; [done|]. split; [done|]. intros _. split_and!; try done; try lia.
      constructor; auto; congruence.
Qed.

(** A mutation outside the marker and the active slot is invisible to a restart. *)
Lemma anchored_recover_frame s c c' :
  anchored s c ->
  c' !! DECK_TRANSACTION_STORAGE_ACTIVE_MARKER = c !! DECK_TRANSACTION_STORAGE_ACTIVE_MARKER ->
  (has_active s = true -> c' !! slot_key (active_slot s) = c !! slot_key (active_slot s)) ->
  recover o c' = active_cell s.
Proof.
  intros [Ho Hmed Hcand Hm Habs Hact] Hmk Hsl. apply recover_anchored.
  - intros Ha. rewrite (stored_marker_frame o c' c) by done. by apply Hm.
  - intros Ha. rewrite Hmk. by apply Habs.
  - intros Ha. rewrite (stored_record_frame o c' c) by auto. by apply Hact.
Qed.

Lemma anchored_recover s c : anchored s c -> recover o c = active_cell s.
Proof. intros Ha. by apply (anchored_recover_frame s c). Qed.

(** The slot a commit writes is never the one the marker names. *)
Lemma next_slot_ok s c :
  anchored s c ->
  slot_ok (next_slot s)
  /\ (has_active s = true -> slot_key (next_slot s) <> slot_key (active_slot s)).
Proof.
  intros [_ _ _ _ _ Hact]. unfold next_slot. destruct (has_active s); [|split; [by left|done]].
  destruct (Hact eq_refl) as ([-> | ->] & _); split; try done; by (left + right).
Qed.

Lemma anchored_candidate s c :
  anchored s c -> has_candidate s = true ->
  payload_ok o (payload (candidate s)) /\ generation_ok (generation (candidate s)).
Proof.
  intros [_ Hmed Hcand _ _ _] Hc. unfold candidate_of in Hcand. rewrite Hc in Hcand.
  by apply stored_record_ok in Hcand.
Qed.

Lemma records_equal_refl r : payload r <> [] -> records_equal r r = true.
Proof.
  intros Hr. unfold records_equal, payload_size.
  rewrite Z.eqb_refl, Nat.eqb_refl, bool_decide_eq_true_2 by done. by destruct (payload r).
Qed.

Lemma commit_write_slot_flash s f :
  anchored s (cells f) -> powered f = true -> has_candidate s = true ->
  exists v f', commit_write_slot s f = (v, f') /\
    match v with
    | Some r => r = candidate s /\ powered f' = true /\ anchored s (cells f')
                /\ stored_record o (cells f') (slot_key (next_slot s)) = Some (candidate s)
                /\ budget f = S (budget f')
    | None => recover o (cells f') = active_cell s /\ budget f = O /\ powered f' = false
    end.
Proof.
  intros Han Hp Hc. pose proof (anchored_candidate _ _ Han Hc) as [Hpay Hgen].
  pose proof (next_slot_ok _ _ Han) as [Hnext Hne].
  pose proof (slot_key_not_marker (next_slot s)) as Hnm.
  pose proof (slot_key_not_candidate (next_slot s)) as Hnc.
  unfold commit_write_slot. rewrite (an_options _ _ Han). unfold mbind at 1, M_bind at 1.
  simpl heap_alloc. cbv iota beta zeta.
  set (encoded := encode_record _ _ _ _).
  assert (length encoded <> 0%nat) as Hlen.
  { unfold encoded. rewrite length_encode_record by done. destruct Hpay. lia. }
  rewrite (proj2 (Nat.eqb_neq _ _) Hlen). unfold mbind at 1, M_bind at 1.
  unfold storage_write, flash_adapter at 1.
  destruct (flash_mutate _ _ f) as [ok f'] eqn:Hw.
  apply flash_mutate_cases in Hw; [|done].
  destruct Hw as [(-> & Hp' & Hcells & Hb & _)|(-> & Hp' & Hcells & Hb)]; cbn [negb].
  - assert (stored_record o (cells f') (slot_key (next_slot s)) = Some (candidate s)) as Hst.
    { rewrite Hcells. unfold encoded. rewrite stored_record_written by done. by destruct (candidate s). }
    destruct (flash_read_encoded o f' (slot_key (next_slot s)) Hp') as (read & Hread & _ & Hok & _).
    specialize (Hok _ Hst). subst read. unfold mbind, M_bind. rewrite Hread.
    rewrite records_equal_refl by (intros E; destruct Hpay as [_ Hl _ _ _]; rewrite E in Hl; simpl in Hl; lia).
    exists (Some (candidate s)), f'. split; [done|].
    split_and!; try done. rewrite Hcells. pose proof Han as [Ho Hmed Hcand Hm Habs Hact].
    assert (<[slot_key (next_slot s) := encoded]> (cells f) !! DECK_TRANSACTION_STORAGE_ACTIVE_MARKER
      = cells f !! DECK_TRANSACTION_STORAGE_ACTIVE_MARKER) as Hmk by by rewrite lookup_insert_ne.
    constructor; try done.
    + apply medium_ok_insert; [|done]. by apply record_cell_ok.
    + etransitivity; [|exact Hcand]. apply stored_record_frame. by rewrite lookup_insert_ne.
    + by rewrite (stored_marker_frame o _ _ Hmk).
    + intros Ha. rewrite Hmk. auto.
    + intros Ha. destruct (Hact Ha) as (?&?&Hr). split_and!; try done. etransitivity; [|exact Hr].
      apply stored_record_frame. rewrite lookup_insert_ne; auto.
  - exists None, f'. split; [done|]. split; [|done].
    rewrite Hcells. unfold torn_cells. rewrite decide_False by done.
    apply (anchored_recover_frame _ (cells f)); [done| |];
      case_match; intros; rewrite ?lookup_insert_ne, ?lookup_delete_ne by auto; done.
Qed.

Lemma commit_marker_ok s c :
  anchored s c -> has_candidate s = true ->
  marker_ok (next_slot s) (generation (candidate s)) (has_active s) (active_slot s)
    (if has_active s then generation (active s) else 0).
Proof.
  intros Han Hc. pose proof (anchored_candidate _ _ Han Hc) as [_ Hgen].
  pose proof (next_slot_ok _ _ Han) as [Hnext Hne]. split; [done|done|].
  intros Ha. rewrite Ha. destruct (an_active _ _ Han Ha) as (?&Hg&_). split_and!; try done; try apply Hg.
  intros E. by apply (Hne Ha); rewrite E.
Qed.

Lemma commit_write_marker_flash s previous_marker f :
  anchored s (cells f) -> powered f = true -> has_candidate s = true ->
  stored_record o (cells f) (slot_key (next_slot s)) = Some (candidate s) ->
  let written := <[DECK_TRANSACTION_STORAGE_ACTIVE_MARKER := commit_marker s (candidate s)]> (cells f) in
  stored_marker o written = Some (decoded_marker (next_slot s) (generation (candidate s))
    (has_active s) (active_slot s) (if has_active s then generation (active s) else 0))
  /\ recover o written = Some (next_slot s, candidate s)
  /\ exists ok f', commit_write_marker s (candidate s) previous_marker f = (ok, f') /\
       if ok then powered f' = true /\ cells f' = written /\ budget f = S (budget f')
       else (recover o (cells f') = active_cell s \/ recover o (cells f') = Some (next_slot s, candidate s))
            /\ budget f = O /\ powered f' = false.
Proof.
  intros Han Hp Hc Hst written. pose proof (commit_marker_ok _ _ Han Hc) as Hmk.
  assert (written = <[DECK_TRANSACTION_STORAGE_ACTIVE_MARKER := encode_marker o (next_slot s)
    (generation (candidate s)) (has_active s) (active_slot s)
    (if has_active s then generation (active s) else 0)]> (cells f)) as Hwr.
  { unfold written, commit_marker. by rewrite (an_options _ _ Han). }
  assert (stored_marker o written = Some (decoded_marker (next_slot s) (generation (candidate s))
    (has_active s) (active_slot s) (if has_active s then generation (active s) else 0))) as Hsm.
  { rewrite Hwr. by apply stored_marker_written. }
  assert (recover o written = Some (next_slot s, candidate s)) as Hrec.
  { eapply (recover_marked o _ _ (candidate s)) in Hsm; [by rewrite Hsm| |done].
    simpl. rewrite <- Hst. apply stored_record_frame. unfold written.
    rewrite lookup_insert_ne; [done|]. apply not_eq_sym, slot_key_not_marker. }
  split; [done|]. split; [done|].
  unfold commit_write_marker, mbind, M_bind.
  destruct (write_and_verify_marker _ f) as [ok f'] eqn:Hw.
  apply write_marker_cases in Hw;
    [|done|unfold commit_marker; rewrite (an_options _ _ Han); by apply length_encode_marker].
  destruct Hw as [(-> & Hp' & Hcells & Hb)|(-> & Hp' & Hcells & Hb)].
  - exists true, f'. done.
  - rewrite dead_rollback by done. exists false, f'. split; [done|]. split; [|done].
    destruct Hcells as [-> | ->]; [left; by apply anchored_recover|by right].
Qed.

(** Erasing the candidate is the last step; the marker has decided already. *)
Lemma commit_publish_flash s f :
  anchored s (cells f) -> powered f = true -> has_candidate s = true ->
  stored_record o (cells f) (slot_key (next_slot s)) = Some (candidate s) ->
  let written := <[DECK_TRANSACTION_STORAGE_ACTIVE_MARKER := commit_marker s (candidate s)]> (cells f) in
  forall f1, cells f1 = written -> powered f1 = true -> storage_faulted s = false ->
  exists s' f', commit_publish s (candidate s) f1 = (s', f')
    /\ active_cell s' = Some (next_slot s, candidate s)
    /\ recover o (cells f') = Some (next_slot s, candidate s)
    /\ storage_faulted s' = false
    /\ (powered f' = true -> synced o s' (cells f') /\ has_candidate s' = false)
    /\ (budget f1 <> O -> powered f' = true).
Proof.
  intros Han Hp Hc Hst written f1 Hf1 Hp1 Hfault.
  destruct (commit_write_marker_flash s None f Han Hp Hc Hst) as (Hsm & Hrec & _).
  fold written in Hsm, Hrec.
  assert (medium_ok o written) as Hmed.
  { apply medium_ok_insert; [|apply Han]. unfold commit_marker. rewrite (an_options _ _ Han).
    apply marker_cell_ok; [done|]. by eapply commit_marker_ok. }
  assert (forall v, recover o (<[DECK_TRANSACTION_STORAGE_CANDIDATE := v]> written) = recover o written) as Hins
    by (intros; apply recover_candidate_irrelevant; intros; by apply lookup_insert_ne).
  assert (recover o (delete DECK_TRANSACTION_STORAGE_CANDIDATE written) = recover o written) as Hdel
    by (apply recover_candidate_irrelevant; intros; by apply lookup_delete_ne).
  unfold commit_publish, mbind, M_bind, storage_erase, flash_adapter.
  destruct (flash_mutate _ _ f1) as [ok f'] eqn:Hw.
  apply flash_mutate_cases in Hw; [|done]. rewrite Hf1 in Hw.
  destruct Hw as [(-> & Hp' & Hcells & Hb & _)|(-> & Hp' & Hcells & Hb)].
  - do 2 eexists. split; [done|]. rewrite Hcells, Hdel. split_and!; try done. all: try congruence.
    intros _. split; [|done]. constructor; try done.
    + apply Han.
    + by apply medium_ok_delete.
    + by rewrite Hdel.
    + intros _ _. eexists. split; [etransitivity; [|exact Hsm]|done].
      apply stored_marker_frame. by apply lookup_delete_ne.
    + unfold stored_record. by rewrite lookup_delete_eq.
  - do 2 eexists. split; [done|]. split; [done|]. split; [|split_and!; try done; congruence].
    rewrite Hcells. unfold torn_cells. rewrite decide_False by done. rewrite Hf1.
    destruct (torn_value f1); by rewrite ?Hins, ?Hdel.
Qed.

(** ** Whole operations *)

(** What a restart finds after [commit]; a failure needs a power loss within
    the four mutations a commit makes. *)
Lemma commit_flash s f res s' f' :
  synced o s (cells f) -> powered f = true ->
  deck_transaction_store_commit s f = ((res, s'), f') ->
  match res with
  | DECK_TRANSACTION_UPDATED =>
      has_candidate s = true /\ active_of s' = candidate_of s
      /\ snd <$> recover o (cells f') = candidate_of s
      /\ (powered f' = true -> synced o s' (cells f') /\ candidate_of s' = None)
  | DECK_TRANSACTION_STORAGE_FAILURE =>
      has_candidate s = true /\ storage_faulted s' = true /\ (budget f < 4)%nat /\ powered f' = false
      /\ (snd <$> recover o (cells f') = active_of s
          \/ snd <$> recover o (cells f') = candidate_of s)
  | DECK_TRANSACTION_NO_CANDIDATE => has_candidate s = false /\ s' = s /\ f' = f
  | DECK_TRANSACTION_INVALID_PAYLOAD => False
  end.
Proof.
  intros Hsy Hp. unfold deck_transaction_store_commit.
  destruct (has_candidate s) eqn:Hc; cbn [negb]; [|by intros [= <- <- <-]].
  rewrite (sy_fault _ _ _ Hsy).
  destruct (commit_settle_marker_flash s f Hsy Hp)
    as (go & s1 & prev & f1 & Hsettle & Hrec1 & Hstop & Hgo).
  unfold mbind, M_bind. rewrite Hsettle.
  assert (snd <$> active_cell s = active_of s) as Hold by (unfold active_cell, active_of; by case_match).
  assert (go = false -> storage_faulted s1 = true) as Hs1f.
  { intros ->. revert Hsettle. unfold commit_settle_marker, mbind, M_bind, mret, M_ret.
    clear. repeat (case_match; simplify_eq/=); try done; by intros [= <- _ _]. }
  destruct go; cbn [negb].
  2: { intros [= <- <- <-]. destruct (Hstop eq_refl) as [-> ?]. rewrite Hrec1. split_and!; auto with lia. }
  destruct (Hgo eq_refl) as (Hp1 & Han & Hcell & Hcd & Hcd' & Hf1 & Hb1). clear Hgo Hstop Hs1f.
  rewrite Hc in Hcd'.
  assert (candidate_of s = Some (candidate s1)) as Hcnd by (unfold candidate_of; by rewrite Hc, Hcd).
  destruct (commit_write_slot_flash s1 f1 Han Hp1 Hcd') as (v & f2 & -> & Hv).
  destruct v as [r|].
  2: { intros [= <- <- <-]. destruct Hv as (Hrec2 & Hb2 & ?). split_and!; try done; [lia|].
       left. by rewrite Hrec2, Hcell. }
  destruct Hv as (-> & Hp2 & Han2 & Hst & Hb2).
  destruct (commit_write_marker_flash s1 prev f2 Han2 Hp2 Hcd' Hst) as (_ & _ & ok & f3 & -> & Hok).
  destruct ok; cbn [negb].
  2: { intros [= <- <- <-]. destruct Hok as (Hrec3 & Hb3 & ?). split_and!; try done; [lia|].
       rewrite Hcnd. destruct Hrec3 as [-> | ->]; [left; by rewrite Hcell|by right]. }
  destruct Hok as (Hp3 & Hc3 & Hb3).
  destruct (commit_publish_flash s1 f2 Han2 Hp2 Hcd' Hst f3 Hc3 Hp3 Hf1)
    as (s4 & f4 & -> & Ha4 & Hr4 & _ & Hsy4 & _).
  intros [= <- <- <-]. rewrite Hcnd, Hr4. split_and!; try done.
  - revert Ha4. unfold active_cell, active_of. destruct (has_active s4); [intros [= _ E]; by rewrite E|done].
  - intros Hp4. destruct (Hsy4 Hp4) as [? Hnc]. split; [done|]. unfold candidate_of. by rewrite Hnc.
Qed.

Lemma stage_generation_ok s c : synced o s c -> generation_ok (stage_generation s).
Proof.
  intros Hsy. unfold stage_generation, generation_ok. destruct (has_active s); simpl.
  - pose proof (u32_range (generation (active s) + 1)). case_match; bool_prop; [split; words|done].
  - split; words.
Qed.

Lemma stage_accepts_ok data : is_bytes data -> stage_accepts o data = true -> payload_ok o data.
Proof. unfold stage_accepts. intros ? Ha. bool_prop. split; try done; lia. Qed.

(** The staged record never shadows the active one, torn or not. *)
Lemma stage_flash s f data res s' f' :
  synced o s (cells f) -> powered f = true -> is_bytes data ->
  deck_transaction_store_stage s data f = ((res, s'), f') ->
  recover o (cells f') = recover o (cells f) /\ active_of s' = active_of s /\
  match res with
  | DECK_TRANSACTION_UPDATED =>
      stage_accepts o data = true /\ powered f' = true /\ synced o s' (cells f')
      /\ candidate_of s' = Some {| payload := data; generation := stage_generation s |}
  | DECK_TRANSACTION_INVALID_PAYLOAD => stage_accepts o data = false /\ s' = s /\ f' = f
  | DECK_TRANSACTION_STORAGE_FAILURE =>
      storage_faulted s' = true /\ budget f = O /\ powered f' = false
  | DECK_TRANSACTION_NO_CANDIDATE => False
  end.
Proof.
  intros Hsy Hp Hd. pose proof (stage_generation_ok _ _ Hsy) as Hg.
  pose proof Hsy as [Ho Hmed Hact Hmat Hpres Hcand Hfault].
  pose proof (stage_accepts_ok data Hd) as Hok. unfold deck_transaction_store_stage.
  rewrite Ho. rewrite <- (negb_involutive (_ || _)). fold (stage_accepts o data).
  destruct (stage_accepts o data); cbn [negb]; [specialize (Hok eq_refl)|by intros [= <- <- <-]].
  rewrite Hfault. unfold mbind at 1, M_bind at 1. simpl heap_alloc. cbv iota beta zeta.
  set (encoded := encode_record _ _ _ _).
  assert (length encoded <> 0%nat) as Hlen.
  { unfold encoded. rewrite length_encode_record by done. destruct Hok. lia. }
  rewrite (proj2 (Nat.eqb_neq _ _) Hlen). unfold mbind at 1, M_bind at 1.
  unfold storage_write, flash_adapter at 1.
  destruct (flash_mutate _ _ f) as [ok f1] eqn:Hw. apply flash_mutate_cases in Hw; [|done].
  destruct Hw as [(-> & Hp' & Hcells & Hb & _)|(-> & Hp' & Hcells & Hb)]; cbn [negb].
  - assert (recover o (cells f1) = recover o (cells f)) as Hrec.
    { rewrite Hcells. apply recover_candidate_irrelevant. intros. by apply lookup_insert_ne. }
    assert (stored_record o (cells f1) DECK_TRANSACTION_STORAGE_CANDIDATE
      = Some {| payload := data; generation := stage_generation s |}) as Hst
      by (rewrite Hcells; by apply stored_record_written).
    destruct (flash_read_encoded o f1 DECK_TRANSACTION_STORAGE_CANDIDATE Hp') as (read & Hread & _ & Hr & _).
    specialize (Hr _ Hst). subst read. unfold mbind, M_bind. rewrite Hread.
    unfold payload_size. simpl. rewrite Z.eqb_refl, Nat.eqb_refl, bool_decide_eq_true_2 by done.
    intros [= <- <- <-]. split_and!; try done. constructor; try done.
    + rewrite Hcells. apply medium_ok_insert; [|done]. by apply record_cell_ok.
    + by rewrite Hrec, Hact.
    + intros Hm Ha. destruct (Hmat Hm Ha) as (m & Hsm & ?). exists m. split; [|done].
      rewrite <- Hsm. apply stored_marker_frame. rewrite Hcells. by apply lookup_insert_ne.
    + intros Ha Hm. rewrite Hcells, lookup_insert_ne by done. auto.
  - intros [= <- <- <-]. split_and!; try done.
    rewrite Hcells. unfold torn_cells. rewrite decide_False by done.
    apply recover_candidate_irrelevant.
    destruct (torn_value f); intros; by rewrite ?lookup_insert_ne, ?lookup_delete_ne.
Qed.

(** Erasures after the marker is gone: a restart finds no record. *)
Lemma erase_after_marker key f ok f' :
  cells f !! DECK_TRANSACTION_STORAGE_ACTIVE_MARKER = None ->
  key <> DECK_TRANSACTION_STORAGE_ACTIVE_MARKER ->
  storage_erase key f = (ok, f') ->
  cells f' !! DECK_TRANSACTION_STORAGE_ACTIVE_MARKER = None
  /\ (ok = false -> powered f' = false) /\ (powered f = false -> powered f' = false)
  /\ (ok = true -> powered f' = true /\ cells f' = delete key (cells f)).
Proof.
  intros Hm Hk. unfold storage_erase, flash_adapter. destruct (powered f) eqn:Hp.
  - intros Hw. apply flash_mutate_cases in Hw; [|done].
    destruct Hw as [(-> & Hp' & Hcells & _)|(-> & Hp' & Hcells & _)]; rewrite Hcells.
    + rewrite lookup_delete_ne by done. by split_and!.
    + unfold torn_cells. rewrite decide_False by done. split; [|done].
      destruct (torn_value f); by rewrite ?lookup_insert_ne, ?lookup_delete_ne.
  - rewrite dead_mutate by done. intros [= <- <-]. by rewrite Hp.
Qed.

Lemma synced_empty c :
  medium_ok o c -> c !! DECK_TRANSACTION_STORAGE_ACTIVE_MARKER = None ->
  c !! DECK_TRANSACTION_STORAGE_CANDIDATE = None -> synced o (empty_store o) c.
Proof.
  intros Hmed Hm Hc. constructor; try done.
  - by apply recover_no_marker.
  - unfold stored_record. by rewrite Hc.
Qed.

Lemma clear_flash s f ok s' f' :
  synced o s (cells f) -> powered f = true ->
  deck_transaction_store_clear s f = ((ok, s'), f') ->
  if ok then powered f' = true /\ s' = empty_store o /\ synced o s' (cells f')
  else storage_faulted s' = true /\ powered f' = false
       /\ (recover o (cells f') = recover o (cells f) \/ recover o (cells f') = None).
Proof.
  intros Hsy Hp. pose proof Hsy as [Ho Hmed _ _ _ _ _].
  unfold deck_transaction_store_clear, mbind, M_bind.
  destruct (storage_erase DECK_TRANSACTION_STORAGE_ACTIVE_MARKER f) as [b0 f0] eqn:E0.
  destruct (storage_erase DECK_TRANSACTION_STORAGE_CANDIDATE f0) as [b1 f1] eqn:E1.
  destruct (storage_erase DECK_TRANSACTION_STORAGE_SLOT_0 f1) as [b2 f2] eqn:E2.
  destruct (storage_erase DECK_TRANSACTION_STORAGE_SLOT_1 f2) as [b3 f3] eqn:E3.
  destruct (storage_erase DECK_TRANSACTION_STORAGE_METADATA f3) as [b4 f4] eqn:E4.
  apply flash_mutate_cases in E0; [|done].
  destruct (decide (cells f0 !! DECK_TRANSACTION_STORAGE_ACTIVE_MARKER = None)) as [Hn0|Hn0].
  - apply erase_after_marker in E1 as (Hn1 & Hf1 & Hd1 & Hc1); [|done|done].
    apply erase_after_marker in E2 as (Hn2 & Hf2 & Hd2 & Hc2); [|done|done].
    apply erase_after_marker in E3 as (Hn3 & Hf3 & Hd3 & Hc3); [|done|done].
    apply erase_after_marker in E4 as (Hn4 & Hf4 & Hd4 & Hc4); [|done|done].
    assert (b0 = false -> powered f0 = false) as Hf0 by (destruct E0 as [(->&_)|(->&?&_)]; done).
    destruct (b4 && (b3 && (b2 && (b1 && b0)))) eqn:Hall; cbn [negb]; intros [= <- <- <-].
    + bool_prop. subst b0 b1 b2 b3 b4. destruct (Hc1 eq_refl) as [? Hc1'], (Hc2 eq_refl) as [? Hc2'],
        (Hc3 eq_refl) as [? Hc3'], (Hc4 eq_refl) as [? Hc4'].
      split; [done|]. rewrite Ho. split; [done|].
      apply synced_empty; [|done|].
      * rewrite Hc4', Hc3', Hc2', Hc1'. destruct E0 as [(_&_& -> & _)|(?&_)]; [|done].
        by repeat apply medium_ok_delete.
      * rewrite Hc4', Hc3', Hc2', Hc1'. rewrite 3!lookup_delete_ne by done. apply lookup_delete_eq.
    + split; [done|]. split; [|right; by apply recover_no_marker].
      destruct b4; [|by apply Hf4]. apply Hd4. destruct b3; [|by apply Hf3]. apply Hd3.
      destruct b2; [|by apply Hf2]. apply Hd2. destruct b1; [|by apply Hf1]. apply Hd1.
      by apply Hf0.
  - destruct E0 as [(_ & _ & Hcells & _)|(-> & Hp0 & Hcells & _)].
    { exfalso. apply Hn0. rewrite Hcells. apply lookup_delete_eq. }
    assert (cells f0 = cells f) as Hsame.
    { rewrite Hcells in *. unfold torn_cells in *. rewrite decide_True in * by done.
      destruct (marker_lands f); [|done]. by rewrite lookup_delete_eq in Hn0. }
    unfold storage_erase, flash_adapter in *.
    rewrite dead_mutate in E1 by done. injection E1 as <- <-.
    rewrite dead_mutate in E2 by done. injection E2 as <- <-.
    rewrite dead_mutate in E3 by done. injection E3 as <- <-.
    rewrite dead_mutate in E4 by done. injection E4 as <- <-.
    simpl. intros [= <- <- <-]. rewrite Hsame. by split_and!; try left.
Qed.

(** ** Sessions: the operations between two restarts *)

Inductive operation := Stage (data : bytes) | Commit | Clear.

Inductive outcome :=
  | Updated (result : deck_transaction_update_result_t)
  | Cleared (ok : bool).

Definition operation_ok (op : operation) : Prop :=
  match op with Stage data => is_bytes data | _ => True end.

Definition run_operation (op : operation) s f : outcome * deck_transaction_store * flash :=
  match op with
  | Stage data =>
      let '((r, s), f) := deck_transaction_store_stage s data f in (Updated r, s, f)
  | Commit => let '((r, s), f) := deck_transaction_store_commit s f in (Updated r, s, f)
  | Clear => let '((ok, s), f) := deck_transaction_store_clear s f in (Cleared ok, s, f)
  end.

(** The operations run until the power is lost. *)
Fixpoint run_session (ops : list operation) s f : list outcome * deck_transaction_store * flash :=
  match ops with
  | [] => ([], s, f)
  | op :: ops =>
      let '(r, s, f) := run_operation op s f in
      if powered f then let '(rs, s, f) := run_session ops s f in (r :: rs, s, f)
      else ([r], s, f)
  end.

(** The abstract store: the durable record and the staged one. *)
Record register := { durable : option OwnedRecord; staged : option OwnedRecord }.

Definition register_of s : register := {| durable := active_of s; staged := candidate_of s |}.

Definition next_generation (d : option OwnedRecord) : Z :=
  match d with
  | Some r => let gen := u32 (generation r + 1) in if gen =? 0 then 1 else gen
  | None => 1
  end.

Definition register_step (op : operation) (g : register) : outcome * register :=
  match op with
  | Stage data =>
      if stage_accepts o data
      then (Updated DECK_TRANSACTION_UPDATED,
            {| durable := durable g;
               staged := Some {| payload := data; generation := next_generation (durable g) |} |})
      else (Updated DECK_TRANSACTION_INVALID_PAYLOAD, g)
  | Commit =>
      match staged g with
      | Some r => (Updated DECK_TRANSACTION_UPDATED, {| durable := Some r; staged := None |})
      | None => (Updated DECK_TRANSACTION_NO_CANDIDATE, g)
      end
  | Clear => (Cleared true, {| durable := None; staged := None |})
  end.

Fixpoint register_session (ops : list operation) (g : register) : list outcome * register :=
  match ops with
  | [] => ([], g)
  | op :: ops =>
      let '(r, g) := register_step op g in
      let '(rs, g) := register_session ops g in (r :: rs, g)
  end.

Lemma next_generation_stage s : next_generation (active_of s) = stage_generation s.
Proof. unfold next_generation, active_of, stage_generation. by destruct (has_active s). Qed.

Lemma recover_synced s c : synced o s c -> snd <$> recover o c = active_of s.
Proof. intros [_ _ -> _ _ _ _]. unfold active_of. by case_match. Qed.

(** One operation: the register's step, or a power loss around it. *)
Lemma operation_refines op s f r s' f' :
  synced o s (cells f) -> powered f = true -> operation_ok op ->
  run_operation op s f = (r, s', f') ->
  (powered f' = true /\ synced o s' (cells f')
     /\ register_step op (register_of s) = (r, register_of s'))
  \/ (powered f' = false
      /\ (snd <$> recover o (cells f') = durable (register_of s)
          \/ snd <$> recover o (cells f') = durable (register_step op (register_of s)).2)).
Proof.
  intros Hsy Hp Hop. pose proof (recover_synced _ _ Hsy) as Hrec. destruct op as [data| |]; simpl.
  - destruct (deck_transaction_store_stage s data f) as [[res s1] f1] eqn:E.
    apply stage_flash in E as (Hr & Ha & Hres); [|done..]. intros [= <- <- <-].
    rewrite next_generation_stage. destruct res; try done.
    + left. destruct Hres as (-> & ? & ? & Hc). unfold register_of. by rewrite Hc, Ha.
    + left. destruct Hres as (-> & -> & ->). done.
    + right. split; [apply Hres|]. left. by rewrite Hr.
  - destruct (deck_transaction_store_commit s f) as [[res s1] f1] eqn:E.
    apply commit_flash in E; [|done..]. intros [= <- <- <-].
    assert (has_candidate s = true -> candidate_of s = Some (candidate s)) as Hcand
      by (unfold candidate_of; by intros ->).
    destruct res; try done.
    + destruct E as (Hc & Ha & Hr & Hsy'). rewrite (Hcand Hc) in *. destruct (powered f1).
      * left. destruct (Hsy' eq_refl) as [? Hc']. unfold register_of. by rewrite Ha, Hc'.
      * right. by split; [|right].
    + destruct E as (Hc & _ & _ & ? & Hr). right. split; [done|].
      rewrite (Hcand Hc) in *. destruct Hr; auto.
    + destruct E as (Hc & -> & ->). left. unfold candidate_of at 1. by rewrite Hc.
  - destruct (deck_transaction_store_clear s f) as [[ok s1] f1] eqn:E.
    apply clear_flash in E; [|done..]. intros [= <- <- <-]. destruct ok.
    + left. by destruct E as (? & -> & ?).
    + right. destruct E as (_ & ? & [Hr|Hr]); rewrite Hr; auto.
Qed.

Lemma session_refines ops s f rs s' f' :
  synced o s (cells f) -> powered f = true -> Forall operation_ok ops ->
  run_session ops s f = (rs, s', f') ->
  (powered f' = true /\ synced o s' (cells f')
     /\ register_session ops (register_of s) = (rs, register_of s'))
  \/ (powered f' = false /\ exists k, (k < length ops)%nat /\ length rs = S k
      /\ take k rs = (register_session (take k ops) (register_of s)).1
      /\ (snd <$> recover o (cells f') = durable (register_session (take k ops) (register_of s)).2
          \/ snd <$> recover o (cells f')
             = durable (register_session (take (S k) ops) (register_of s)).2)).
Proof.
  intros Hsy Hp Hops. revert s f rs Hsy Hp.
  induction Hops as [|op ops Hop Hops IH]; intros s f rs Hsy Hp; simpl.
  { intros [= <- <- <-]. by left. }
  destruct (run_operation op s f) as [[r s1] f1] eqn:Hrun.
  apply operation_refines in Hrun as [(Hp1 & Hsy1 & Hstep)|(Hp1 & Hr)]; [| |done..].
  - rewrite Hp1. destruct (run_session ops s1 f1) as [[rs1 s2] f2] eqn:Hrest.
    intros [= <- <- <-]. rewrite Hstep.
    destruct (IH _ _ _ Hsy1 Hp1 Hrest) as [(?&?& ->)|(? & k & Hk & Hl & Hpre & Hrec)]; [by left|].
    right. split; [done|]. exists (S k). simpl. rewrite Hstep.
    split_and!; [lia|lia| |].
    + rewrite Hpre. by destruct (register_session _ _).
    + destruct (register_session (take k ops) _) eqn:E1. cbn [take] in Hrec.
      destruct ops as [|op' ops]; [simpl in Hk; lia|]. simpl in *.
      by destruct (register_step op' _) eqn:E2, (register_session (take k ops) _) eqn:E3.
  - rewrite Hp1. intros [= <- <- <-]. right. split; [done|]. exists 0%nat. simpl.
    split_and!; try done; [lia|]. by destruct (register_step _ _).
Qed.

(** *** Saving *)

(** On a live medium a save stores the data, or is refused, or loses the power
    and leaves the old record or the new one. *)
Lemma save_flash s f data ok s' f' :
  synced o s (cells f) -> powered f = true -> is_bytes data -> stage_accepts o data = true ->
  save s data f = ((ok, s'), f') ->
  let new := Some {| payload := data; generation := stage_generation s |} in
  if ok then
    active_of s' = new /\ snd <$> recover o (cells f') = new /\ (powered f' = true -> synced o s' (cells f'))
  else
    powered f' = false
    /\ (snd <$> recover o (cells f') = active_of s \/ snd <$> recover o (cells f') = new).
Proof.
  intros Hsy Hp Hd Hacc. unfold save, mbind, M_bind, mret, M_ret.
  destruct (deck_transaction_store_stage s data f) as [[r s1] f1] eqn:Hs.
  apply stage_flash in Hs as (Hrec & Ha & Hr); [|done..].
  assert (snd <$> recover o (cells f1) = active_of s) as Hold by by rewrite Hrec, (recover_synced _ _ Hsy).
  case_bool_decide as Er; cbn [negb].
  2: { intros [= <- <- <-]. destruct r; [done|destruct Hr; congruence|destruct Hr as (_ & _ & ?); auto|done]. }
  subst r. destruct Hr as (_ & Hp1 & Hsy1 & Hc).
  destruct (deck_transaction_store_commit s1 f1) as [[r2 s2] f2] eqn:Hcommit. intros [= <- <- <-].
  apply commit_flash in Hcommit; [|done..]. rewrite Hc in Hcommit.
  destruct r2; case_bool_decide; try done.
  - destruct Hcommit as (_ & ? & ? & Hsy2). split_and!; [done..|]. intros Hp2. by apply Hsy2.
  - destruct Hcommit as (_ & _ & _ & ? & [E|E]); (split; [done|]); [left; congruence|by right].
  - destruct Hcommit as [Hn _]. unfold candidate_of in Hc. by rewrite Hn in Hc.
Qed.

(** Nothing is staged or saved on a medium without power. *)
Lemma stage_dead s f data r s' f' :
  powered f = false -> deck_transaction_store_stage s data f = ((r, s'), f') ->
  r <> DECK_TRANSACTION_UPDATED /\ f' = f.
Proof.
  intros Hp. unfold deck_transaction_store_stage.
  destruct (_ || _); [by intros [= <- <- <-]|]. destruct (storage_faulted s); [by intros [= <- <- <-]|].
  unfold mbind, M_bind, mret, M_ret. simpl heap_alloc. cbn [storage_write flash_adapter].
  destruct (length _ =? 0)%nat; [|rewrite dead_mutate by done]; cbn [negb]; by intros [= <- <- <-].
Qed.

Lemma save_dead s f data ok s' f' :
  powered f = false -> save s data f = ((ok, s'), f') -> ok = false /\ f' = f.
Proof.
  intros Hp. unfold save, mbind, M_bind, mret, M_ret.
  destruct (deck_transaction_store_stage s data f) as [[r s1] f1] eqn:Hs.
  apply stage_dead in Hs as [Hr ->]; [|done]. rewrite bool_decide_eq_false_2 by done.
  cbn [negb]. by intros [= <- <- <-].
Qed.

End Atomicity.

(** ** The store's properties *)

Definition sample_flash (n : nat) (lands : bool) : flash := {|
  cells := ∅; budget := n; torn_value := Some [1; 2; 3]; marker_lands := lands; powered := true |}.

Definition sample_session : list operation := [Stage [7; 8; 9]; Commit; Stage [9; 9]; Commit].

Lemma sample_session_ok : Forall operation_ok sample_session.
Proof. repeat constructor; words. Qed.

(** C1: A store created on a medium in order behaves, over any session of
    stages, commits and clears, as a register with a staging area; if the
    power is lost, the results before the operation in flight are the
    register's, and the next restart serves the durable record from before
    that operation or the one after it. *)
Theorem store_refines_register o f s f0 ops rs s' f'
    (Hwf : options_wf o) (Hp : powered f = true) (Hmed : medium_ok o (cells f))
    (Hcreate : deck_transaction_store_create o f = (Some s, f0))
    (Hops : Forall operation_ok ops)
    (Hrun : run_session ops s f0 = (rs, s', f')) :
  (powered f' = true /\ register_session o ops (register_of s) = (rs, register_of s'))
  \/ (powered f' = false /\ exists k, (k < length ops)%nat /\ length rs = S k
      /\ take k rs = (register_session o (take k ops) (register_of s)).1
      /\ (active_after_reboot o f' = durable (register_session o (take k ops) (register_of s)).2
          \/ active_after_reboot o f'
             = durable (register_session o (take (S k) ops) (register_of s)).2)).
Proof.
  destruct (create_flash o Hwf f Hp) as (s0 & Hc & _ & Hsy). rewrite Hcreate in Hc.
  injection Hc as -> ->. rewrite (active_after_reboot_recover o Hwf).
  destruct (session_refines o Hwf ops s0 f rs s' f' (Hsy Hmed) Hp Hops Hrun) as [(?&?&?)|?]; auto.
Qed.

(** Power is lost while the second commit writes its slot. *)
Lemma store_refines_register_witness :
  exists s f0 rs s' f',
    deck_transaction_store_create sample_options (sample_flash 6 false) = (Some s, f0)
    /\ run_session sample_session s f0 = (rs, s', f') /\ powered f' = false
    /\ exists k, (k < 4)%nat /\ length rs = S k /\
      (active_after_reboot sample_options f'
         = durable (register_session sample_options (take k sample_session) (register_of s)).2
       \/ active_after_reboot sample_options f'
         = durable (register_session sample_options (take (S k) sample_session) (register_of s)).2).
Proof.
  destruct (deck_transaction_store_create sample_options (sample_flash 6 false)) as [[s|] f0] eqn:Hc;
    [|exfalso; revert Hc; vm_compute; discriminate].
  destruct (run_session sample_session s f0) as [[rs s'] f'] eqn:Hr.
  assert (powered f' = false) as Hp'.
  { clear - Hc Hr. vm_compute in Hc. injection Hc as <- <-.
    vm_compute in Hr. injection Hr as <- <- <-. reflexivity. }
  exists s, f0, rs, s', f'. split; [done|]. split; [done|]. split; [done|].
  destruct (store_refines_register sample_options (sample_flash 6 false) s f0 sample_session rs s' f'
    sample_options_wf eq_refl (map_Forall_empty _) Hc sample_session_ok Hr)
    as [[Hp _]|(_ & k & Hk & Hl & _ & Hrec)]; [congruence|].
  exists k. split; [exact Hk|]. split; [exact Hl|exact Hrec].
Defined.

(** A commit of a staged record on a synchronized store, whatever write
    loses the power: a restart finds the old record or the staged one; when
    the commit reports success it finds the staged one, and with four
    mutations of power left the commit does succeed. *)
Theorem commit_survives_power_loss o s f res s' f'
    (Hwf : options_wf o) (Hsy : synced o s (cells f)) (Hp : powered f = true)
    (Hc : has_candidate s = true)
    (Hcommit : deck_transaction_store_commit s f = ((res, s'), f')) :
  (active_after_reboot o f' = active_of s \/ active_after_reboot o f' = Some (candidate s))
  /\ (res = DECK_TRANSACTION_UPDATED ->
        active_of s' = Some (candidate s) /\ active_after_reboot o f' = Some (candidate s))
  /\ ((4 <= budget f)%nat -> res = DECK_TRANSACTION_UPDATED).
Proof.
  rewrite (active_after_reboot_recover o Hwf). apply (commit_flash o Hwf) in Hcommit; [|done..].
  assert (candidate_of s = Some (candidate s)) as Hcand by (unfold candidate_of; by rewrite Hc).
  rewrite Hcand in Hcommit. destruct res.
  - destruct Hcommit as (_ & ? & ? & _). auto.
  - done.
  - destruct Hcommit as (_ & _ & ? & _ & ?). split_and!; auto; [done|lia].
  - destruct Hcommit as [? _]. congruence.
Qed.

Lemma commit_survives_power_loss_witness :
  exists s f res s' f',
    deck_transaction_store_commit s f = ((res, s'), f') /\ has_candidate s = true
    /\ (active_after_reboot sample_options f' = active_of s
        \/ active_after_reboot sample_options f' = Some (candidate s)).
Proof.
  destruct (create_flash sample_options sample_options_wf (sample_flash 2 true) eq_refl)
    as (s0 & Hc0 & _ & Hsy0). specialize (Hsy0 (map_Forall_empty _)).
  destruct (deck_transaction_store_stage s0 [7; 8; 9] (sample_flash 2 true)) as [[r s] f] eqn:Hs.
  assert (r = DECK_TRANSACTION_UPDATED /\ has_candidate s = true) as [-> Hc].
  { clear - Hc0 Hs. vm_compute in Hc0. injection Hc0 as <-.
    vm_compute in Hs. injection Hs as <- <- <-. split; reflexivity. }
  apply (stage_flash sample_options sample_options_wf) in Hs
    as (_ & _ & _ & Hp & Hsy & _); [|done|done|repeat constructor; words].
  destruct (deck_transaction_store_commit s f) as [[res s'] f'] eqn:Hcm.
  exists s, f, res, s', f'. split; [exact Hcm|]. split; [exact Hc|].
  exact (proj1 (commit_survives_power_loss sample_options s f res s' f' sample_options_wf Hsy Hp Hc Hcm)).
Defined.

(** Over any adapter and any heap, a commit that does not report success
    leaves the active record, its slot and the staged record in memory as
    they were, and one that does publishes exactly the staged payload and
    generation in the other slot. *)
Theorem commit_publishes_all_or_nothing {W} `{StorageAdapter W} s (w : W) res s' w'
    (Hcommit : deck_transaction_store_commit s w = ((res, s'), w')) :
  (res <> DECK_TRANSACTION_UPDATED ->
     active s' = active s /\ active_slot s' = active_slot s /\ has_active s' = has_active s
     /\ candidate s' = candidate s /\ has_candidate s' = has_candidate s)
  /\ (res = DECK_TRANSACTION_UPDATED ->
     has_candidate s = true /\ storage_faulted s = false /\ has_active s' = true
     /\ active_slot s' = (if has_active s then u8 (1 - active_slot s) else 0)
     /\ payload (active s') = payload (candidate s)
     /\ generation (active s') = generation (candidate s)).
Proof.
  destruct (commit_cases _ _ _ _ _ Hcommit) as (_ & Hkeep & _ & Hpub). split; [done|].
  intros E. destruct (Hpub E) as (? & ? & ? & ? & ? & ? & _). by split_and!.
Qed.

Lemma commit_publishes_all_or_nothing_witness :
  exists res s' w', deck_transaction_store_commit (empty_store sample_options) (sample_flash 0 true)
      = ((res, s'), w')
    /\ (res <> DECK_TRANSACTION_UPDATED -> active s' = active (empty_store sample_options)).
Proof.
  destruct (deck_transaction_store_commit (empty_store sample_options) (sample_flash 0 true))
    as [[res s'] w'] eqn:E.
  exists res, s', w'. split; [reflexivity|]. intros Hres.
  exact (proj1 (proj1 (commit_publishes_all_or_nothing _ _ _ _ _ E) Hres)).
Defined.

(** Once a mutation failed the store is latched: stage and commit report
    a failure (or an invalid payload, or no candidate), call neither the
    adapter nor the heap, and change nothing. *)
Theorem faulted_store_is_latched {W} `{StorageAdapter W} s data (w : W)
    (Hfault : storage_faulted s = true) :
  (exists r, deck_transaction_store_stage s data w = ((r, s), w) /\ r <> DECK_TRANSACTION_UPDATED)
  /\ (exists r, deck_transaction_store_commit s w = ((r, s), w) /\ r <> DECK_TRANSACTION_UPDATED).
Proof.
  unfold deck_transaction_store_stage, deck_transaction_store_commit. rewrite Hfault.
  split; case_match; eexists; (split; [reflexivity|done]).
Qed.

Lemma faulted_store_is_latched_witness :
  exists r, deck_transaction_store_commit (set_storage_failure (empty_store sample_options))
    (sample_flash 9 true) = ((r, set_storage_failure (empty_store sample_options)), sample_flash 9 true)
    /\ r <> DECK_TRANSACTION_UPDATED.
Proof. 
  exact (proj2 (faulted_store_is_latched (set_storage_failure (empty_store sample_options)) []
    (sample_flash 9 true) eq_refl)). Defined.

(** A clear of a synchronized store, whatever erase loses the power:
    a restart finds the active record or none; a reported success means none,
    with an empty store in memory. *)
Theorem clear_survives_power_loss o s f ok s' f'
    (Hwf : options_wf o) (Hsy : synced o s (cells f)) (Hp : powered f = true)
    (Hclear : deck_transaction_store_clear s f = ((ok, s'), f')) :
  if ok then active_after_reboot o f' = None /\ s' = empty_store o
  else storage_faulted s' = true
       /\ (active_after_reboot o f' = active_of s \/ active_after_reboot o f' = None).
Proof.
  rewrite (active_after_reboot_recover o Hwf). apply (clear_flash o) in Hclear; [|done..].
  destruct ok.
  - destruct Hclear as (_ & -> & Hsy'). split; [|done]. by rewrite (recover_synced _ _ _ Hsy').
  - destruct Hclear as (? & _ & [-> | ->]); (split; [done|]); [left; by apply recover_synced|by right].
Qed.

Lemma clear_survives_power_loss_witness :
  exists s f ok s' f', deck_transaction_store_clear s f = ((ok, s'), f') /\
    if ok then active_after_reboot sample_options f' = None /\ s' = empty_store sample_options
    else storage_faulted s' = true
         /\ (active_after_reboot sample_options f' = active_of s
             \/ active_after_reboot sample_options f' = None).
Proof.
  destruct (create_flash sample_options sample_options_wf (sample_flash 2 true) eq_refl)
    as (s & _ & _ & Hsy). specialize (Hsy (map_Forall_empty _)).
  destruct (deck_transaction_store_clear s (sample_flash 2 true)) as [[ok s'] f'] eqn:E.
  exists s, (sample_flash 2 true), ok, s', f'. split; [exact E|].
  exact (clear_survives_power_loss sample_options s (sample_flash 2 true) ok s' f'
    sample_options_wf Hsy eq_refl E).
Defined.
