(* ===== verification/SerialSession.v ===== *)
(** * The serial session

    [components/serial_service/deck_serial_session.cpp]: who may transmit on
    the UART.  The session is disarmed, or the USB bridge or one Web client
    with a lease owns the TX line; the hardware adapter is an external world. *)

From S2P Require Import Prelude.

Inductive deck_serial_state_t :=
  | DECK_SERIAL_DISARMED
  | DECK_SERIAL_USB_TX
  | DECK_SERIAL_WEB_TX.

Inductive deck_serial_command_code_t :=
  | DECK_SERIAL_COMMAND_APPLIED
  | DECK_SERIAL_COMMAND_NO_CHANGE
  | DECK_SERIAL_COMMAND_STALE_SESSION
  | DECK_SERIAL_COMMAND_STALE_REQUEST
  | DECK_SERIAL_COMMAND_UART_INSTALL_FAILED
  | DECK_SERIAL_COMMAND_UART_UNINSTALL_FAILED
  | DECK_SERIAL_COMMAND_INVALID.

#[export] Instance serial_state_eq_dec : EqDecision deck_serial_state_t.
Proof. solve_decision. Defined.
#[export] Instance command_code_eq_dec : EqDecision deck_serial_command_code_t.
Proof. solve_decision. Defined.

(** [deck_serial_hardware_adapter_t]: the UART driver and its TX pin. *)
Class SerialHardware (W : Type) := {
  install_uart : Z -> M W bool;
  uninstall_uart : M W bool;
  set_tx_high_impedance : M W unit;
  clear_usb_tx : M W unit;
  clear_web_tx : M W unit;
}.

Record deck_serial_command_result_t := {
  r_code : deck_serial_command_code_t;
  r_state : deck_serial_state_t;
  r_session_id : Z;
  r_request_id : Z;
  r_owner_generation : Z;
  r_lease_id : Z;
}.

Record deck_serial_session := {
  lease_timeout_ms : Z;
  state : deck_serial_state_t;
  session_id : Z;
  owner_generation : Z;
  lease_id : Z;
  lease_deadline_ms : Z;
  usb_tx_rejected : Z;
  control_epoch : Z;
  web_transport_epoch : Z;
  last_request_id : Z;
  last_request_result : deck_serial_command_result_t;
  uart_install_failures : Z;
  uart_install_failed : bool;
  uart_installed : bool;
  has_last_request : bool;
}.
#[export] Instance session_rebuild : Rebuild deck_serial_session := fun s =>
  Build_deck_serial_session (lease_timeout_ms s) (state s) (session_id s) (owner_generation s)
    (lease_id s) (lease_deadline_ms s) (usb_tx_rejected s) (control_epoch s)
    (web_transport_epoch s) (last_request_id s) (last_request_result s)
    (uart_install_failures s) (uart_install_failed s) (uart_installed s) (has_last_request s).

Definition increment_nonzero (value : Z) : Z :=
  let value := u64 (value + 1) in if value =? 0 then 1 else value.

Definition fill_result (s : deck_serial_session) (code : deck_serial_command_code_t)
    (request_id : Z) : deck_serial_command_result_t := {|
  r_code := code; r_state := state s; r_session_id := session_id s; r_request_id := request_id;
  r_owner_generation := owner_generation s; r_lease_id := lease_id s |}.

Definition clear_web_lease (s : deck_serial_session) : deck_serial_session :=
  s <| lease_id := 0 |> <| lease_deadline_ms := 0 |>.

Section Session.
Context {W : Type} `{SerialHardware W}.
Implicit Types (s : deck_serial_session).

Definition return_to_usb s : M W deck_serial_session :=
  if negb (bool_decide (state s = DECK_SERIAL_WEB_TX)) then mret s
  else
    _ ← clear_web_tx;
    mret (clear_web_lease s <| state := DECK_SERIAL_USB_TX |>
            <| owner_generation := increment_nonzero (owner_generation s) |>).

Definition expire_web_lease s (now_ms : Z) : M W deck_serial_session :=
  if bool_decide (state s = DECK_SERIAL_WEB_TX) && (lease_deadline_ms s <=? now_ms)
  then return_to_usb s else mret s.

Definition disarm s : M W (bool * deck_serial_session) :=
  let installed := uart_installed s in
  let state_changed := negb (bool_decide (state s = DECK_SERIAL_DISARMED)) in
  let s := clear_web_lease (s <| state := DECK_SERIAL_DISARMED |>) in
  _ ← clear_usb_tx;
  _ ← clear_web_tx;
  uninstalled ← (if installed then uninstall_uart else mret true);
  let s := s <| uart_installed := installed && negb uninstalled |> in
  _ ← set_tx_high_impedance;
  let s := if state_changed
           then s <| owner_generation := increment_nonzero (owner_generation s) |> else s in
  mret (uninstalled, s <| has_last_request := false |> <| last_request_id := 0 |>).

(** [allocated]: whether [new (std::nothrow)] found memory. *)
Definition deck_serial_session_create (web_lease_timeout_ms : Z) (allocated : bool) :
    M W (option deck_serial_session) :=
  if (web_lease_timeout_ms =? 0) || negb allocated then mret None
  else
    let s := {|
      lease_timeout_ms := web_lease_timeout_ms; state := DECK_SERIAL_DISARMED; session_id := 0;
      owner_generation := 0; lease_id := 0; lease_deadline_ms := 0; usb_tx_rejected := 0;
      control_epoch := 0; web_transport_epoch := 0; last_request_id := 0;
      last_request_result := {| r_code := DECK_SERIAL_COMMAND_APPLIED;
        r_state := DECK_SERIAL_DISARMED; r_session_id := 0; r_request_id := 0;
        r_owner_generation := 0; r_lease_id := 0 |};
      uart_install_failures := 0; uart_install_failed := false; uart_installed := false;
      has_last_request := false |} in
    _ ← set_tx_high_impedance;
    mret (Some s).

(** [true] when the session was deleted. *)
Definition deck_serial_session_destroy s : M W (bool * deck_serial_session) :=
  if negb (bool_decide (state s = DECK_SERIAL_DISARMED)) || uart_installed s then disarm s
  else
    _ ← set_tx_high_impedance;
    mret (true, s).

Definition enter_install s : M W (deck_serial_command_result_t * deck_serial_session) :=
  let next_session_id := increment_nonzero (session_id s) in
  installed ← install_uart next_session_id;
  if negb installed then
    _ ← clear_usb_tx;
    _ ← clear_web_tx;
    uninstalled ← uninstall_uart;
    _ ← set_tx_high_impedance;
    let s := s <| uart_installed := negb uninstalled |>
               <| uart_install_failures :=
                    if negb (uart_install_failures s =? U32_MAX)
                    then u32 (uart_install_failures s + 1) else uart_install_failures s |>
               <| uart_install_failed := true |> in
    mret (fill_result s DECK_SERIAL_COMMAND_UART_INSTALL_FAILED 0, s)
  else
    let s := clear_web_lease
      (s <| uart_install_failed := false |> <| uart_installed := true |>
         <| session_id := next_session_id |>
         <| owner_generation := increment_nonzero (owner_generation s) |>
         <| state := DECK_SERIAL_USB_TX |> <| usb_tx_rejected := 0 |>
         <| has_last_request := false |> <| last_request_id := 0 |>) in
    mret (fill_result s DECK_SERIAL_COMMAND_APPLIED 0, s).

Definition deck_serial_session_enter s (epoch now_ms : Z) :
    M W (deck_serial_command_result_t * deck_serial_session) :=
  if negb (epoch =? control_epoch s)
  then mret (fill_result s DECK_SERIAL_COMMAND_STALE_REQUEST 0, s)
  else if negb (bool_decide (state s = DECK_SERIAL_DISARMED))
  then mret (fill_result s DECK_SERIAL_COMMAND_NO_CHANGE 0, s)
  else if uart_installed s then
    uninstalled ← uninstall_uart;
    if negb uninstalled then
      _ ← set_tx_high_impedance;
      mret (fill_result s DECK_SERIAL_COMMAND_UART_UNINSTALL_FAILED 0, s)
    else enter_install (s <| uart_installed := false |>)
  else enter_install s.

Definition deck_serial_session_exit s (epoch : Z) :
    M W (deck_serial_command_result_t * deck_serial_session) :=
  if epoch <? control_epoch s
  then mret (fill_result s DECK_SERIAL_COMMAND_STALE_REQUEST 0, s)
  else
    let s := s <| control_epoch := epoch |> in
    if bool_decide (state s = DECK_SERIAL_DISARMED) && negb (uart_installed s)
    then mret (fill_result s DECK_SERIAL_COMMAND_NO_CHANGE 0, s)
    else
      let state_changed := negb (bool_decide (state s = DECK_SERIAL_DISARMED)) in
      disarmed ← disarm s;
      let '(ok, s) := disarmed in
      mret (fill_result s
              (if negb ok then DECK_SERIAL_COMMAND_UART_UNINSTALL_FAILED
               else if state_changed then DECK_SERIAL_COMMAND_APPLIED
               else DECK_SERIAL_COMMAND_NO_CHANGE) 0, s).

Definition transition_still_current s : bool :=
  (owner_generation s =? r_owner_generation (last_request_result s))
  && bool_decide (state s = r_state (last_request_result s))
  && (lease_id s =? r_lease_id (last_request_result s)).

Definition apply_web_request s (request_id : Z) (enable : bool) (now_ms : Z) :
    M W (deck_serial_command_result_t * deck_serial_session) :=
  let previous := state s in
  s ← (if enable then
         _ ← (if bool_decide (state s = DECK_SERIAL_USB_TX) then clear_usb_tx else mret tt);
         mret (s <| state := DECK_SERIAL_WEB_TX |>
                 <| owner_generation := increment_nonzero (owner_generation s) |>
                 <| lease_id := request_id |>
                 <| lease_deadline_ms := saturating_add now_ms (lease_timeout_ms s) |>)
       else return_to_usb s);
  let code := if bool_decide (previous = state s) && negb enable
              then DECK_SERIAL_COMMAND_NO_CHANGE else DECK_SERIAL_COMMAND_APPLIED in
  let result := fill_result s code request_id in
  mret (result, s <| last_request_id := request_id |> <| last_request_result := result |>
                  <| has_last_request := true |>).

(** [None]: the call is refused and the result left unwritten. *)
Definition deck_serial_session_request_web_at_epoch s (epoch sid request_id : Z) (enable : bool)
    (now_ms : Z) : M W (option deck_serial_command_result_t * deck_serial_session) :=
  if request_id =? 0 then mret (None, s)
  else if negb (epoch =? web_transport_epoch s)
  then mret (Some (fill_result s DECK_SERIAL_COMMAND_STALE_REQUEST request_id), s)
  else
    s ← expire_web_lease s now_ms;
    if bool_decide (state s = DECK_SERIAL_DISARMED) || negb (sid =? session_id s)
    then mret (Some (fill_result s DECK_SERIAL_COMMAND_STALE_SESSION request_id), s)
    else if has_last_request s && (request_id =? last_request_id s)
    then mret (Some (if transition_still_current s then last_request_result s
                     else fill_result s DECK_SERIAL_COMMAND_STALE_REQUEST request_id), s)
    else if has_last_request s && (request_id <? last_request_id s)
    then mret (Some (fill_result s DECK_SERIAL_COMMAND_STALE_REQUEST request_id), s)
    else
      applied ← apply_web_request s request_id enable now_ms;
      let '(result, s) := applied in
      mret (Some result, s).

Definition deck_serial_session_request_web s (sid request_id : Z) (enable : bool) (now_ms : Z) :
    M W (option deck_serial_command_result_t * deck_serial_session) :=
  deck_serial_session_request_web_at_epoch s (web_transport_epoch s) sid request_id enable now_ms.

Definition deck_serial_session_revoke_web_transport s (epoch : Z) :
    M W (deck_serial_command_result_t * deck_serial_session) :=
  if epoch <? web_transport_epoch s
  then mret (fill_result s DECK_SERIAL_COMMAND_STALE_REQUEST 0, s)
  else
    let s := s <| web_transport_epoch := epoch |> in
    let previous := state s in
    s ← return_to_usb s;
    _ ← (if negb (bool_decide (previous = DECK_SERIAL_WEB_TX)) then clear_web_tx else mret tt);
    let s := s <| has_last_request := false |> <| last_request_id := 0 |> in
    mret (fill_result s
            (if bool_decide (previous = DECK_SERIAL_WEB_TX)
             then DECK_SERIAL_COMMAND_APPLIED else DECK_SERIAL_COMMAND_NO_CHANGE) 0, s).

Definition deck_serial_session_web_activity s (sid lease now_ms : Z) :
    M W (bool * deck_serial_session) :=
  s ← expire_web_lease s now_ms;
  mret (if negb (bool_decide (state s = DECK_SERIAL_WEB_TX)) || negb (session_id s =? sid)
           || negb (lease_id s =? lease) || (lease =? 0)
        then (false, s)
        else (true, s <| lease_deadline_ms := saturating_add now_ms (lease_timeout_ms s) |>)).

Definition deck_serial_session_web_disconnect s (sid lease : Z) :
    M W (bool * deck_serial_session) :=
  if negb (bool_decide (state s = DECK_SERIAL_WEB_TX)) || negb (session_id s =? sid)
     || negb (lease_id s =? lease) || (lease =? 0)
  then mret (false, s)
  else s ← return_to_usb s; mret (true, s).

Definition deck_serial_session_tick s (now_ms : Z) : M W deck_serial_session :=
  expire_web_lease s now_ms.

End Session.

Definition deck_serial_session_accept_web_input (s : deck_serial_session) (sid lease : Z) : bool :=
  bool_decide (state s = DECK_SERIAL_WEB_TX) && uart_installed s && negb (sid =? 0)
  && (sid =? session_id s) && negb (lease =? 0) && (lease =? lease_id s).

Definition deck_serial_session_accept_usb_input_generation (s : deck_serial_session)
    (generation byte_count : Z) : bool * deck_serial_session :=
  if bool_decide (state s = DECK_SERIAL_USB_TX) && negb (generation =? 0)
     && (generation =? owner_generation s)
  then (true, s)
  else (false,
        if negb (bool_decide (state s = DECK_SERIAL_DISARMED)) && negb (byte_count =? 0)
        then s <| usb_tx_rejected := saturating_add (usb_tx_rejected s) (u64 byte_count) |>
        else s).

Definition deck_serial_session_accept_usb_input (s : deck_serial_session) (byte_count : Z) :
    bool * deck_serial_session :=
  deck_serial_session_accept_usb_input_generation s (owner_generation s) byte_count.

Definition deck_serial_session_record_usb_rejection (s : deck_serial_session) (byte_count : Z) :
    bool * deck_serial_session :=
  if (byte_count =? 0) || bool_decide (state s = DECK_SERIAL_DISARMED) then (false, s)
  else (true, s <| usb_tx_rejected := saturating_add (usb_tx_rejected s) byte_count |>).

Record deck_serial_session_snapshot_t := {
  snapshot_state : deck_serial_state_t;
  snapshot_session_id : Z;
  snapshot_owner_generation : Z;
  snapshot_lease_id : Z;
  snapshot_lease_deadline_ms : Z;
  snapshot_usb_tx_rejected : Z;
  snapshot_uart_install_failures : Z;
  snapshot_uart_install_failed : bool;
  snapshot_uart_installed : bool;
}.

Definition deck_serial_session_snapshot (s : deck_serial_session) :
    deck_serial_session_snapshot_t := {|
  snapshot_state := state s; snapshot_session_id := session_id s;
  snapshot_owner_generation := owner_generation s; snapshot_lease_id := lease_id s;
  snapshot_lease_deadline_ms := lease_deadline_ms s;
  snapshot_usb_tx_rejected := usb_tx_rejected s;
  snapshot_uart_install_failures := uart_install_failures s;
  snapshot_uart_install_failed := uart_install_failed s;
  snapshot_uart_installed := uart_installed s |}.

(** ** Operations as steps *)

Inductive session_op :=
  | Enter (epoch now_ms : Z)
  | Exit (epoch : Z)
  | RequestWeb (epoch sid request_id : Z) (enable : bool) (now_ms : Z)
  | RevokeWebTransport (epoch : Z)
  | WebActivity (sid lease now_ms : Z)
  | WebDisconnect (sid lease : Z)
  | UsbInput (generation byte_count : Z)
  | RecordUsbRejection (byte_count : Z)
  | Tick (now_ms : Z).

(** The arguments are 64-bit words. *)
Definition op_ok (op : session_op) : Prop :=
  match op with
  | Enter epoch now_ms => is_u64 epoch /\ is_u64 now_ms
  | Exit epoch | RevokeWebTransport epoch => is_u64 epoch
  | RequestWeb epoch sid request_id _ now_ms =>
      is_u64 epoch /\ is_u64 sid /\ is_u64 request_id /\ is_u64 now_ms
  | WebActivity sid lease now_ms => is_u64 sid /\ is_u64 lease /\ is_u64 now_ms
  | WebDisconnect sid lease => is_u64 sid /\ is_u64 lease
  | UsbInput generation byte_count => is_u64 generation /\ is_u64 byte_count
  | RecordUsbRejection byte_count => is_u64 byte_count
  | Tick now_ms => is_u64 now_ms
  end.

Section Steps.
Context {W : Type} `{SerialHardware W}.
Implicit Types (s : deck_serial_session) (w : W).

Definition run_op (op : session_op) s : M W deck_serial_session :=
  match op with
  | Enter epoch now_ms => snd <$> deck_serial_session_enter s epoch now_ms
  | Exit epoch => snd <$> deck_serial_session_exit s epoch
  | RequestWeb epoch sid request_id enable now_ms =>
      snd <$> deck_serial_session_request_web_at_epoch s epoch sid request_id enable now_ms
  | RevokeWebTransport epoch => snd <$> deck_serial_session_revoke_web_transport s epoch
  | WebActivity sid lease now_ms => snd <$> deck_serial_session_web_activity s sid lease now_ms
  | WebDisconnect sid lease => snd <$> deck_serial_session_web_disconnect s sid lease
  | UsbInput generation byte_count =>
      mret (deck_serial_session_accept_usb_input_generation s generation byte_count).2
  | RecordUsbRejection byte_count =>
      mret (deck_serial_session_record_usb_rejection s byte_count).2
  | Tick now_ms => deck_serial_session_tick s now_ms
  end.

Inductive reachable (timeout : Z) : deck_serial_session -> W -> Prop :=
  | reachable_create s w w' :
      is_u64 timeout -> deck_serial_session_create timeout true w = (Some s, w') ->
      reachable timeout s w'
  | reachable_step s w op s' w' :
      reachable timeout s w -> op_ok op -> run_op op s w = (s', w') -> reachable timeout s' w'.

Record well_formed (timeout : Z) s : Prop := {
  wf_timeout : lease_timeout_ms s = timeout;
  wf_words : is_u64 timeout /\ is_u64 (session_id s) /\ is_u64 (owner_generation s)
    /\ is_u64 (lease_id s) /\ is_u64 (lease_deadline_ms s) /\ is_u64 (usb_tx_rejected s)
    /\ is_u32 (uart_install_failures s);
  wf_armed : state s <> DECK_SERIAL_DISARMED ->
    uart_installed s = true /\ session_id s <> 0 /\ owner_generation s <> 0;
  wf_lease : if bool_decide (state s = DECK_SERIAL_WEB_TX)
    then lease_id s <> 0 /\ has_last_request s = true /\ last_request_id s = lease_id s
    else lease_id s = 0 /\ lease_deadline_ms s = 0;
  wf_request : has_last_request s = true ->
    state s <> DECK_SERIAL_DISARMED /\ last_request_id s <> 0
    /\ r_request_id (last_request_result s) = last_request_id s
    /\ r_session_id (last_request_result s) = session_id s;
}.

Lemma increment_nonzero_range v : is_u64 v -> is_u64 (increment_nonzero v).
Proof. unfold increment_nonzero. case_match; words. Qed.

Lemma increment_nonzero_nonzero v : increment_nonzero v <> 0.
Proof. unfold increment_nonzero. case_match; bool_prop; [lia|done]. Qed.

Lemma increment_nonzero_fresh v : is_u64 v -> increment_nonzero v <> v.
Proof. unfold increment_nonzero. intros. case_match; bool_prop; words. Qed.

(** The owner change of [return_to_usb], without its hardware call. *)
Definition returned s : deck_serial_session :=
  clear_web_lease s <| state := DECK_SERIAL_USB_TX |>
    <| owner_generation := increment_nonzero (owner_generation s) |>.

Lemma return_to_usb_state s w :
  (return_to_usb s w).1 = if bool_decide (state s = DECK_SERIAL_WEB_TX) then returned s else s.
Proof. unfold return_to_usb. case_bool_decide; simpl; by run. Qed.

Lemma expire_web_lease_state s now_ms w :
  (expire_web_lease s now_ms w).1 =
  if bool_decide (state s = DECK_SERIAL_WEB_TX) && (lease_deadline_ms s <=? now_ms)
  then returned s else s.
Proof.
  unfold expire_web_lease. case_match eqn:E; [|done]. rewrite return_to_usb_state.
  bool_prop. by rewrite bool_decide_eq_true_2.
Qed.

Lemma expire_keeps_request s now_ms w :
  let s' := (expire_web_lease s now_ms w).1 in
  has_last_request s' = has_last_request s /\ last_request_id s' = last_request_id s
  /\ web_transport_epoch s' = web_transport_epoch s.
Proof. cbv zeta. rewrite expire_web_lease_state. by destruct (_ && _). Qed.

(** Rebuilds the invariant of an updated session field by field. *)
Ltac wf_solve :=
  constructor; simpl in *;
  try match goal with Hs : state ?s = _ |- context [state ?s] => rewrite Hs end;
  rewrite ?bool_decide_eq_true_2, ?bool_decide_eq_false_2 in * by done;
  simpl in *; split_and?; simpl in *; intros; split_and?;
  try match goal with
  | Hr : has_last_request ?s = true -> _, Hx : has_last_request ?s = true |- _ =>
      destruct (Hr Hx) as (?&?&?&?)
  end;
  try done; try congruence; auto using increment_nonzero_range, increment_nonzero_nonzero,
    saturating_add_range, u32_range; try words.

Lemma wf_returned timeout s :
  well_formed timeout s -> state s = DECK_SERIAL_WEB_TX -> well_formed timeout (returned s).
Proof.
  intros [Ht Hw Ha Hl Hr] Hs. rewrite Hs in *.
  destruct Hw as (?&?&?&?&?&?&?), (Ha ltac:(done)) as (?&?&?). wf_solve.
  all: by apply Hr.
Qed.

Lemma wf_expire timeout s now_ms w :
  well_formed timeout s -> well_formed timeout (expire_web_lease s now_ms w).1.
Proof.
  intros. rewrite expire_web_lease_state. case_match; [|done]. bool_prop. by apply wf_returned.
Qed.

Lemma wf_return timeout s w :
  well_formed timeout s -> well_formed timeout (return_to_usb s w).1.
Proof.
  intros. rewrite return_to_usb_state. case_bool_decide; [|done]. by apply wf_returned.
Qed.

Lemma wf_disarm timeout s w :
  well_formed timeout s -> well_formed timeout (disarm s w).1.2.
Proof.
  intros [Ht (?&?&?&?&?&?&?) Ha Hl Hr]. unfold disarm. run.
  destruct (state s) eqn:Hs; simpl; wf_solve.
Qed.

Lemma wf_enter_install timeout s w :
  well_formed timeout s -> state s = DECK_SERIAL_DISARMED ->
  well_formed timeout (enter_install s w).1.2.
Proof.
  intros [Ht (?&?&?&?&?&?&?) Ha Hl Hr] Hs. rewrite Hs in *. unfold enter_install.
  run_cases; [destruct (negb (uart_install_failures s =? U32_MAX))|]; wf_solve.
Qed.

Lemma wf_uninstalled timeout s :
  well_formed timeout s -> state s = DECK_SERIAL_DISARMED ->
  well_formed timeout (s <| uart_installed := false |>).
Proof. intros [Ht (?&?&?&?&?&?&?) Ha Hl Hr] Hs. rewrite Hs in *. wf_solve. Qed.

Lemma wf_enter timeout s epoch now_ms w :
  well_formed timeout s -> well_formed timeout (deck_serial_session_enter s epoch now_ms w).1.2.
Proof.
  intros Hwf. unfold deck_serial_session_enter. run_cases; bool_prop; try done.
  - apply wf_enter_install; [by apply wf_uninstalled|done].
  - by apply wf_enter_install.
Qed.

Lemma wf_epoch timeout s epoch :
  well_formed timeout s -> well_formed timeout (s <| control_epoch := epoch |>).
Proof. by intros []. Qed.

Lemma wf_exit timeout s epoch w :
  well_formed timeout s -> well_formed timeout (deck_serial_session_exit s epoch w).1.2.
Proof.
  intros Hwf. unfold deck_serial_session_exit. run_cases; bool_prop; try done; [by apply wf_epoch|].
  destruct (disarm _ w) as [[ok s'] w'] eqn:E. simpl.
  change s' with (ok, s', w').1.2. rewrite <- E. by apply wf_disarm, wf_epoch.
Qed.

Lemma wf_apply_web_request timeout s request_id enable now_ms w :
  well_formed timeout s -> state s <> DECK_SERIAL_DISARMED -> request_id <> 0 ->
  is_u64 request_id -> is_u64 now_ms ->
  well_formed timeout (apply_web_request s request_id enable now_ms w).1.2.
Proof.
  intros Hwf Hs Hid Hid' Hnow. unfold apply_web_request. destruct enable; run.
  - destruct Hwf as [<- (?&?&?&?&?&?&?) Ha Hl Hr]. destruct (Ha Hs) as (?&?&?). wf_solve.
  - pose proof (wf_return timeout s w Hwf) as Hwf'. rewrite return_to_usb_state in *.
    destruct Hwf' as [Ht (?&?&?&?&?&?&?) Ha Hl Hr]. case_bool_decide as Hw.
    + destruct (Ha ltac:(done)) as (?&?&?). wf_solve.
    + destruct (Ha Hs) as (?&?&?). rewrite bool_decide_eq_false_2 in Hl by done.
      destruct Hl. wf_solve.
Qed.

Lemma wf_request_web timeout s epoch sid request_id enable now_ms w :
  well_formed timeout s -> is_u64 request_id -> is_u64 now_ms ->
  well_formed timeout
    (deck_serial_session_request_web_at_epoch s epoch sid request_id enable now_ms w).1.2.
Proof.
  intros Hwf Hid Hnow. unfold deck_serial_session_request_web_at_epoch.
  pose proof (wf_expire timeout s now_ms w Hwf) as Hwf'.
  run_cases; bool_prop; try done. unfold fst at 1.
  destruct (apply_web_request _ _ _ _ _) as [[r s'] w'] eqn:E. simpl.
  change s' with (r, s', w').1.2. rewrite <- E. by apply wf_apply_web_request.
Qed.

Lemma wf_revoke timeout s epoch w :
  well_formed timeout s ->
  well_formed timeout (deck_serial_session_revoke_web_transport s epoch w).1.2.
Proof.
  intros Hwf. unfold deck_serial_session_revoke_web_transport. run_cases; bool_prop; try done;
    rewrite return_to_usb_state; simpl;
    destruct (state s) eqn:Hs; simpl; destruct Hwf as [Ht (?&?&?&?&?&?&?) Ha Hl Hr];
    rewrite Hs in *; try specialize (Ha ltac:(done)); destruct_and?; wf_solve.
Qed.

Lemma wf_activity timeout s sid lease now_ms w :
  well_formed timeout s -> is_u64 now_ms ->
  well_formed timeout (deck_serial_session_web_activity s sid lease now_ms w).1.2.
Proof.
  intros Hwf Hnow. unfold deck_serial_session_web_activity. run.
  pose proof (wf_expire timeout s now_ms w Hwf) as Hwf'.
  generalize dependent (expire_web_lease s now_ms w).1. clear s Hwf.
  intros s [Ht (?&?&?&?&?&?&?) Ha Hl Hr].
  destruct (_ || _) eqn:E; [by constructor|]. bool_prop. simpl.
  rewrite bool_decide_eq_true_2 in Hl by done. destruct (Ha ltac:(congruence)) as (?&?&?).
  constructor; simpl; try done.
  - split_and!; try done. apply saturating_add_range; congruence.
  - by rewrite bool_decide_eq_true_2.
Qed.

Lemma wf_disconnect timeout s sid lease w :
  well_formed timeout s -> well_formed timeout (deck_serial_session_web_disconnect s sid lease w).1.2.
Proof.
  intros. unfold deck_serial_session_web_disconnect. run_cases; [done|by apply wf_return].
Qed.

Lemma wf_rejected timeout s count :
  well_formed timeout s -> is_u64 count ->
  well_formed timeout (s <| usb_tx_rejected := saturating_add (usb_tx_rejected s) count |>).
Proof.
  intros [Ht (?&?&?&?&?&?&?) Ha Hl Hr] ?. constructor; simpl; try done.
  split_and!; auto using saturating_add_range.
Qed.

Lemma wf_run_op timeout op s w :
  op_ok op -> well_formed timeout s -> well_formed timeout (run_op op s w).1.
Proof.
  destruct op; simpl; intros Hop Hwf; destruct_and?; run.
  - by apply wf_enter.
  - by apply wf_exit.
  - by apply wf_request_web.
  - by apply wf_revoke.
  - by apply wf_activity.
  - by apply wf_disconnect.
  - unfold deck_serial_session_accept_usb_input_generation. repeat case_match; simpl; try done.
    apply wf_rejected; [done|]. auto with deck.
  - unfold deck_serial_session_record_usb_rejection.
    destruct (_ || _); simpl; [done|by apply wf_rejected].
  - by apply wf_expire.
Qed.

Lemma wf_create timeout w s w' :
  is_u64 timeout -> deck_serial_session_create timeout true w = (Some s, w') ->
  well_formed timeout s.
Proof.
  intros Ht. unfold deck_serial_session_create. case_match; [done|]. run.
  intros [= <- _]. constructor; simpl; try done.
Qed.

Lemma reachable_well_formed timeout s w : reachable timeout s w -> well_formed timeout s.
Proof.
  induction 1 as [s w w' Ht Hc|s w op s' w' _ IH Hop Hrun]; [by eapply wf_create|].
  change s' with (s', w').1. rewrite <- Hrun. by apply wf_run_op.
Qed.

(** ** Ownership *)

Lemma returned_owner s : owner_generation (returned s) = increment_nonzero (owner_generation s).
Proof. done. Qed.

(** A step keeps the owner, or moves the generation on once or twice. *)
Definition owner_step s s' : Prop :=
  (state s' = state s /\ lease_id s' = lease_id s /\ owner_generation s' = owner_generation s)
  \/ owner_generation s' = increment_nonzero (owner_generation s)
  \/ owner_generation s' = increment_nonzero (increment_nonzero (owner_generation s)).

Lemma owner_step_refl s : owner_step s s.
Proof. by left. Qed.

Lemma owner_step_expire s now_ms w : owner_step s (expire_web_lease s now_ms w).1.
Proof. rewrite expire_web_lease_state. case_match; [right; by left|by left]. Qed.

Lemma owner_step_return s w : owner_step s (return_to_usb s w).1.
Proof. rewrite return_to_usb_state. case_match; [right; by left|by left]. Qed.

Lemma owner_step_disarm timeout s w :
  well_formed timeout s -> owner_step s (disarm s w).1.2.
Proof.
  intros [_ _ _ Hl _]. unfold disarm, owner_step. run.
  destruct (state s); simpl in *; [left|right; by left..]. destruct Hl. auto.
Qed.

Lemma owner_step_enter s epoch now_ms w :
  owner_step s (deck_serial_session_enter s epoch now_ms w).1.2.
Proof.
  unfold deck_serial_session_enter, enter_install, owner_step. run_cases; simpl; auto.
Qed.

Lemma owner_step_exit timeout s epoch w :
  well_formed timeout s -> owner_step s (deck_serial_session_exit s epoch w).1.2.
Proof.
  intros Hwf. apply (wf_epoch _ _ epoch) in Hwf.
  apply (owner_step_disarm _ _ w) in Hwf. unfold deck_serial_session_exit. run_cases; try by left.
  destruct (disarm _ w) as [[ok s'] w']. exact Hwf.
Qed.

Lemma owner_step_request s epoch sid request_id enable now_ms w :
  owner_step s
    (deck_serial_session_request_web_at_epoch s epoch sid request_id enable now_ms w).1.2.
Proof.
  unfold deck_serial_session_request_web_at_epoch. pose proof (owner_step_expire s now_ms w) as He.
  rewrite expire_web_lease_state in He. run_cases; rewrite ?expire_web_lease_state in *;
    try done; try by left.
  unfold apply_web_request. destruct enable; run; simpl; rewrite ?return_to_usb_state.
  - case_match; simpl; unfold owner_step; simpl; auto.
  - destruct (bool_decide (state s = DECK_SERIAL_WEB_TX)) eqn:Hs; simpl in *; bool_prop.
    + destruct (lease_deadline_ms s <=? now_ms); simpl; [done|].
      rewrite bool_decide_eq_true_2 by done. simpl. right. by left.
    + rewrite bool_decide_eq_false_2 by done. simpl. by left.
Qed.

Lemma owner_step_run timeout op s w :
  well_formed timeout s -> owner_step s (run_op op s w).1.
Proof.
  intros Hwf. destruct op; simpl; run.
  - apply owner_step_enter.
  - by eapply owner_step_exit.
  - apply owner_step_request.
  - unfold deck_serial_session_revoke_web_transport. run_cases; try (by left);
      rewrite ?return_to_usb_state; simpl in *; unfold owner_step; destruct (state s) eqn:?; simpl; auto.
  - pose proof (owner_step_expire s now_ms w) as He.
    unfold deck_serial_session_web_activity. run. by case_match.
  - unfold deck_serial_session_web_disconnect. run_cases; [by left|apply owner_step_return].
  - unfold deck_serial_session_accept_usb_input_generation. repeat case_match; by left.
  - unfold deck_serial_session_record_usb_rejection. destruct (_ || _); by left.
  - apply owner_step_expire.
Qed.

Lemma increment_twice_fresh v :
  is_u64 v -> increment_nonzero (increment_nonzero v) <> v.
Proof. unfold increment_nonzero. intros. repeat case_match; bool_prop; words. Qed.

End Steps.

(** ** The TX pin

    What the UART driver promises about the pin: [set_tx_high_impedance]
    releases it, and dropping queued input does not drive it. *)
Class TxPin (W : Type) `{SerialHardware W} := {
  tx_high_impedance : W -> bool;
  released_by_set : forall w, tx_high_impedance (set_tx_high_impedance w).2 = true;
  clear_usb_keeps_pin : forall w, tx_high_impedance (clear_usb_tx w).2 = tx_high_impedance w;
  clear_web_keeps_pin : forall w, tx_high_impedance (clear_web_tx w).2 = tx_high_impedance w;
}.

Section Pin.
Context {W : Type} `{TxPin W}.
Implicit Types (s : deck_serial_session) (w : W).

Definition released (r : deck_serial_session * W) : Prop :=
  state r.1 = DECK_SERIAL_DISARMED -> tx_high_impedance r.2 = true.

Lemma released_return s w : released (s, w) -> released (return_to_usb s w).
Proof. intros Hr. unfold return_to_usb. case_bool_decide; simpl; run; [by intros|done]. Qed.

Lemma released_expire s now_ms w : released (s, w) -> released (expire_web_lease s now_ms w).
Proof. intros Hr. unfold expire_web_lease. case_match; [by apply released_return|done]. Qed.

Lemma released_disarm s w : tx_high_impedance (disarm s w).2 = true.
Proof. unfold disarm. run. apply released_by_set. Qed.

Lemma released_enter s epoch now_ms w :
  released (s, w) ->
  released ((deck_serial_session_enter s epoch now_ms w).1.2, (deck_serial_session_enter s epoch now_ms w).2).
Proof.
  intros Hr. unfold deck_serial_session_enter, enter_install, released in *.
  run_cases; simpl in *; intros; try discriminate; auto using released_by_set.
Qed.

Lemma released_exit s epoch w :
  released (s, w) ->
  released ((deck_serial_session_exit s epoch w).1.2, (deck_serial_session_exit s epoch w).2).
Proof.
  intros Hr. unfold deck_serial_session_exit, released in *. run_cases; simpl in *; auto.
  intros _. pose proof (released_disarm (s <| control_epoch := epoch |>) w) as Hd.
  by destruct (disarm _ w) as [[ok s'] w'].
Qed.

Lemma released_request s epoch sid request_id enable now_ms w :
  released (s, w) ->
  let r := deck_serial_session_request_web_at_epoch s epoch sid request_id enable now_ms w in
  released (r.1.2, r.2).
Proof.
  intros Hr. unfold deck_serial_session_request_web_at_epoch, apply_web_request.
  pose proof (released_expire s now_ms w Hr) as He. unfold released in *.
  run_cases; simpl in *; auto; destruct enable; run; simpl; try done.
  intros Hs. apply released_return; [|done]. exact He.
Qed.

Lemma released_revoke s epoch w :
  released (s, w) ->
  let r := deck_serial_session_revoke_web_transport s epoch w in released (r.1.2, r.2).
Proof.
  intros Hr. unfold deck_serial_session_revoke_web_transport.
  assert (released (return_to_usb (s <| web_transport_epoch := epoch |>) w)) as He
    by by apply released_return.
  unfold released in *. run_cases; simpl in *; auto; intros; rewrite ?clear_web_keeps_pin; by apply He.
Qed.

Lemma released_run op s w : released (s, w) -> released (run_op op s w).
Proof.
  intros Hr. destruct op; simpl; run.
  - by apply released_enter.
  - by apply released_exit.
  - by apply released_request.
  - by apply released_revoke.
  - pose proof (released_expire s now_ms w Hr) as He.
    unfold deck_serial_session_web_activity. run. by case_match.
  - unfold deck_serial_session_web_disconnect. run_cases; [done|by apply released_return].
  - unfold deck_serial_session_accept_usb_input_generation. by repeat case_match.
  - unfold deck_serial_session_record_usb_rejection. by destruct (_ || _).
  - by apply released_expire.
Qed.

Lemma reachable_released timeout s w : reachable timeout s w -> released (s, w).
Proof.
  induction 1 as [s w w' Ht Hc|s w op s' w' _ IH Hop Hrun].
  - unfold deck_serial_session_create in Hc. case_match; [done|].
    revert Hc. run. intros [= <- <-] _. apply released_by_set.
  - rewrite <- Hrun. by apply released_run.
Qed.

End Pin.

#[export] Hint Resolve increment_nonzero_range increment_nonzero_nonzero
  increment_nonzero_fresh : deck.

(** ** Answered requests *)

Section Replay.
Context {W : Type} `{SerialHardware W}.
Implicit Types (s : deck_serial_session) (w : W).

Record answered s (epoch sid request_id : Z) (r : deck_serial_command_result_t) : Prop := {
  ans_state : state s <> DECK_SERIAL_DISARMED;
  ans_session : session_id s = sid;
  ans_epoch : web_transport_epoch s = epoch;
  ans_request : has_last_request s = true /\ last_request_id s = request_id /\ request_id <> 0;
  ans_result : last_request_result s = r;
  ans_current : transition_still_current s = true;
}.

Lemma apply_answers s request_id enable now_ms w :
  state s <> DECK_SERIAL_DISARMED -> request_id <> 0 ->
  let r := apply_web_request s request_id enable now_ms w in
  answered r.1.2 (web_transport_epoch s) (session_id s) request_id r.1.1.
Proof.
  intros Hs Hid. unfold apply_web_request. destruct enable; run; simpl.
  - split; simpl; try done. unfold transition_still_current. simpl.
    by rewrite !Z.eqb_refl.
  - rewrite return_to_usb_state. destruct (state s) eqn:E; try done; simpl;
      (split; simpl; rewrite ?E; try done; unfold transition_still_current; simpl;
       rewrite ?E; by rewrite !Z.eqb_refl).
Qed.

Lemma request_answered s epoch sid request_id enable now_ms w r s' w' :
  deck_serial_session_request_web_at_epoch s epoch sid request_id enable now_ms w
    = ((Some r, s'), w') ->
  r_code r = DECK_SERIAL_COMMAND_APPLIED \/ r_code r = DECK_SERIAL_COMMAND_NO_CHANGE ->
  answered s' epoch sid request_id r.
Proof.
  intros Hreq Hdone. unfold deck_serial_session_request_web_at_epoch in Hreq.
  pose proof (expire_keeps_request s now_ms w) as (_ & _ & Hep).
  revert Hreq. run_cases; try (intros [= <- <- <-]; by destruct Hdone).
  all: generalize dependent (expire_web_lease s now_ms w).1; intros s1; intros; bool_prop.
  - destruct (transition_still_current s1) eqn:Ht; simplify_eq; [by split; split_and?|].
    by destruct Hdone.
  - match goal with E : context [apply_web_request s1 _ _ _ ?w1] |- _ =>
      pose proof (apply_answers s1 request_id enable now_ms w1 ltac:(done) ltac:(done)) as Ha;
      destruct (apply_web_request s1 _ _ _ w1) as [[r1 s2] w2]
    end.
    simplify_eq/=. rewrite run_ret in Hreq. simplify_eq. by rewrite <- Hep.
Qed.

Lemma answered_replay s epoch sid request_id r enable now_ms w :
  answered s epoch sid request_id r ->
  (state s = DECK_SERIAL_WEB_TX -> now_ms < lease_deadline_ms s) ->
  deck_serial_session_request_web_at_epoch s epoch sid request_id enable now_ms w
  = ((Some r, s), w).
Proof.
  intros [Hs <- <- (Hh & <- & Hz) <- Hc] Hlive.
  unfold deck_serial_session_request_web_at_epoch.
  rewrite (proj2 (Z.eqb_neq _ _) Hz), Z.eqb_refl. cbn [negb].
  assert (expire_web_lease s now_ms w = (s, w)) as Hex.
  { unfold expire_web_lease. case_bool_decide; [|done]. simpl.
    rewrite (proj2 (Z.leb_gt _ _)) by auto. done. }
  run. rewrite Hex. cbn [fst snd]. rewrite bool_decide_eq_false_2, Z.eqb_refl by done.
  cbn [orb negb]. rewrite Hh, Z.eqb_refl, Hc. done.
Qed.

End Replay.

(** ** Properties *)

(** A UART whose install answers are planned; only [install] drives the pin. *)
Record uart_line := { driven : bool; install_plan : list bool }.

#[export] Instance uart_line_hardware : SerialHardware uart_line := {
  install_uart _ u := (hd true (install_plan u),
    {| driven := true; install_plan := tl (install_plan u) |});
  uninstall_uart u := (true, u);
  set_tx_high_impedance u := (tt, {| driven := false; install_plan := install_plan u |});
  clear_usb_tx u := (tt, u);
  clear_web_tx u := (tt, u);
}.

#[export] Instance uart_line_pin : TxPin uart_line := {
  tx_high_impedance u := negb (driven u);
  released_by_set _ := eq_refl;
  clear_usb_keeps_pin _ := eq_refl;
  clear_web_keeps_pin _ := eq_refl;
}.

Definition run_ops (ops : list session_op) (r : deck_serial_session * uart_line) :
    deck_serial_session * uart_line :=
  fold_left (fun r op => run_op op r.1 r.2) ops r.

(** A created session, armed, with one Web lease. *)
Definition sample_line : uart_line := {| driven := true; install_plan := [false; true] |}.

Definition sample_run (ops : list session_op) : option (deck_serial_session * uart_line) :=
  match deck_serial_session_create 5000 true sample_line with
  | (Some s, u) => Some (run_ops ops (s, u))
  | _ => None
  end.

Lemma run_ops_reachable timeout ops r :
  reachable timeout r.1 r.2 -> Forall op_ok ops ->
  reachable timeout (run_ops ops r).1 (run_ops ops r).2.
Proof.
  intros Hr Hops. revert r Hr. unfold run_ops.
  induction Hops as [|op ops Hop _ IH]; intros r Hr; simpl; [done|].
  apply IH. destruct (run_op op r.1 r.2) as [s' w'] eqn:E. by eapply reachable_step.
Qed.

Lemma sample_run_reachable ops s u :
  Forall op_ok ops -> sample_run ops = Some (s, u) -> reachable 5000 s u.
Proof.
  intros Hops. unfold sample_run.
  destruct (deck_serial_session_create 5000 true sample_line) as [[s0|] u0] eqn:E; [|done].
  intros [= Hr]. change s with (s, u).1. change u with (s, u).2 at 2. rewrite <- Hr.
  apply run_ops_reachable; [|done]. eapply reachable_create; [words|exact E].
Qed.

(** Enter (the driver fails once), enter, one Web request. *)
Definition sample_ops : list session_op :=
  [Enter 0 10; Enter 0 20; RequestWeb 0 1 7 true 30].

Lemma sample_ops_ok : Forall op_ok sample_ops.
Proof. repeat constructor; words. Qed.

(** Every state a session reaches from its creation, over any UART driver
    and any sequence of calls, is well formed: an armed session has its UART
    installed and nonzero session and owner generations; a lease exists
    exactly while the Web owns TX and is the last accepted request; a
    remembered request belongs to the current armed session. *)
Theorem serial_session_invariant {W} `{SerialHardware W} timeout s (w : W)
    (Hr : reachable timeout s w) : well_formed timeout s.
Proof. by eapply reachable_well_formed. Qed.

Lemma serial_session_invariant_witness :
  exists s u, sample_run sample_ops = Some (s, u) /\ state s = DECK_SERIAL_WEB_TX
    /\ well_formed 5000 s.
Proof.
  destruct (sample_run sample_ops) as [[s u]|] eqn:E; [|discriminate].
  exists s, u. split; [reflexivity|]. split; [by vm_compute in E; injection E as <- _|].
  exact (serial_session_invariant 5000 s u (sample_run_reachable _ _ _ sample_ops_ok E)).
Defined.

(** C13: Two transmitters are never accepted at once: a session that accepts
    Web bytes refuses USB bytes of every owner generation, an accepted byte
    always finds the UART installed, and a disarmed session accepts none. *)
Theorem transmit_is_exclusive {W} `{SerialHardware W} timeout s (w : W) sid lease generation n
    (Hr : reachable timeout s w) :
  (deck_serial_session_accept_web_input s sid lease = true ->
     (deck_serial_session_accept_usb_input_generation s generation n).1 = false
     /\ uart_installed s = true)
  /\ ((deck_serial_session_accept_usb_input_generation s generation n).1 = true ->
     deck_serial_session_accept_web_input s sid lease = false /\ uart_installed s = true)
  /\ (state s = DECK_SERIAL_DISARMED ->
     deck_serial_session_accept_web_input s sid lease = false
     /\ (deck_serial_session_accept_usb_input_generation s generation n).1 = false).
Proof.
  destruct (reachable_well_formed _ _ _ Hr) as [_ _ Ha _ _].
  unfold deck_serial_session_accept_web_input, deck_serial_session_accept_usb_input_generation.
  destruct (state s), (uart_installed s); simpl; split_and!; intros; repeat case_match; bool_prop;
    split_and?; try done; by destruct (Ha ltac:(done)) as (?&_).
Qed.

Lemma transmit_is_exclusive_witness :
  exists s u, sample_run sample_ops = Some (s, u)
    /\ deck_serial_session_accept_web_input s 1 7 = true
    /\ (deck_serial_session_accept_usb_input_generation s (owner_generation s) 4).1 = false.
Proof.
  destruct (sample_run sample_ops) as [[s u]|] eqn:E; [|discriminate].
  assert (deck_serial_session_accept_web_input s 1 7 = true) as Hw
    by by vm_compute in E; injection E as <- _.
  exists s, u. split; [reflexivity|]. split; [exact Hw|].
  exact (proj1 (proj1 (transmit_is_exclusive 5000 s u 1 7 (owner_generation s) 4
    (sample_run_reachable _ _ _ sample_ops_ok E)) Hw)).
Defined.

(** Over any driver that keeps its promises about the TX pin, a session
    that is disarmed, by exit, by a failed install or uninstall, or from its
    creation, has released the pin. *)
Theorem disarmed_session_releases_tx {W} `{TxPin W} timeout s (w : W)
    (Hr : reachable timeout s w) (Hs : state s = DECK_SERIAL_DISARMED) :
  tx_high_impedance w = true.
Proof. by apply (reachable_released timeout s w). Qed.

(** The first [enter] fails after the driver has driven the pin. *)
Lemma disarmed_session_releases_tx_witness :
  exists s u, sample_run [Enter 0 10] = Some (s, u) /\ uart_install_failures s = 1
    /\ tx_high_impedance u = true.
Proof.
  destruct (sample_run [Enter 0 10]) as [[s u]|] eqn:E; [|discriminate].
  assert (state s = DECK_SERIAL_DISARMED /\ uart_install_failures s = 1) as [Hs Hf]
    by by vm_compute in E; injection E as <- _.
  exists s, u. split; [reflexivity|]. split; [exact Hf|].
  refine (disarmed_session_releases_tx 5000 s u (sample_run_reachable _ _ _ _ E) Hs).
  repeat constructor; words.
Defined.

(** A call that changes the transmit owner or the lease changes the owner
    generation, so USB bytes tagged with the generation before the call are
    refused after it. *)
Theorem owner_change_fences_usb {W} `{SerialHardware W} timeout s (w : W) op s' w' n
    (Hr : reachable timeout s w) (Hop : op_ok op) (Hrun : run_op op s w = (s', w'))
    (Hchange : state s' <> state s \/ lease_id s' <> lease_id s) :
  owner_generation s' <> owner_generation s
  /\ (deck_serial_session_accept_usb_input_generation s' (owner_generation s) n).1 = false.
Proof.
  pose proof (reachable_well_formed _ _ _ Hr) as Hwf.
  pose proof (owner_step_run _ op s w Hwf) as Hstep. rewrite Hrun in Hstep. simpl in Hstep.
  destruct Hwf as [_ (_&_&Hg&_) _ _ _].
  assert (owner_generation s' <> owner_generation s) as Hne.
  { destruct Hstep as [(?&?&_)|[-> | ->]]; [by destruct Hchange| |];
      auto using increment_nonzero_fresh, increment_twice_fresh. }
  split; [done|]. unfold deck_serial_session_accept_usb_input_generation.
  rewrite (proj2 (Z.eqb_neq (owner_generation s) (owner_generation s'))) by auto.
  by rewrite andb_false_r.
Qed.

Lemma owner_change_fences_usb_witness :
  exists s u s' u', sample_run [Enter 0 10; Enter 0 20] = Some (s, u)
    /\ run_op (RequestWeb 0 1 7 true 30) s u = (s', u')
    /\ (deck_serial_session_accept_usb_input_generation s (owner_generation s) 3).1 = true
    /\ (deck_serial_session_accept_usb_input_generation s' (owner_generation s) 3).1 = false.
Proof.
  destruct (sample_run [Enter 0 10; Enter 0 20]) as [[s u]|] eqn:E; [|discriminate].
  destruct (run_op (RequestWeb 0 1 7 true 30) s u) as [s' u'] eqn:E'.
  assert ((deck_serial_session_accept_usb_input_generation s (owner_generation s) 3).1 = true
    /\ state s' <> state s) as [Ha Hs].
  { clear - E E'. vm_compute in E. injection E as <- <-. vm_compute in E'. injection E' as <- <-.
    by split. }
  exists s, u, s', u'. split; [reflexivity|]. split; [exact E'|]. split; [exact Ha|].
  refine (proj2 (owner_change_fences_usb 5000 s u _ s' u' 3 (sample_run_reachable _ _ _ _ E) _ E'
    (or_introl Hs))); [repeat constructor; words|split_and!; words].
Defined.

(** A Web lease, taken over or fresh, is bounded: from its grant at
    [now], and however late the tick comes, a tick at or after
    [now + timeout] (saturated) hands TX back to USB and refuses the Web
    client, whatever lease it shows. *)
Theorem web_lease_is_bounded {W} `{SerialHardware W} timeout s (w : W) epoch sid request_id now
    r s' w' later (w2 : W)
    (Hr : reachable timeout s w) (Hnow : is_u64 now)
    (Hreq : deck_serial_session_request_web_at_epoch s epoch sid request_id true now w
            = ((Some r, s'), w'))
    (Hgrant : r_code r = DECK_SERIAL_COMMAND_APPLIED)
    (Hnew : has_last_request s = true -> last_request_id s < request_id)
    (Hlater : Z.min U64_MAX (now + timeout) <= later) :
  state s' = DECK_SERIAL_WEB_TX /\ lease_id s' = request_id
  /\ let s'' := (deck_serial_session_tick s' later w2).1 in
     state s'' = DECK_SERIAL_USB_TX
     /\ forall sid' lease, deck_serial_session_accept_web_input s'' sid' lease = false.
Proof.
  pose proof (reachable_well_formed _ _ _ Hr) as Hwf.
  apply (wf_expire _ _ now w) in Hwf as [Ht (Htw&_) _ _ _].
  pose proof (expire_keeps_request s now w) as (Hhas & Hlast & _).
  rewrite <- Hhas, <- Hlast in Hnew.
  revert Hreq. unfold deck_serial_session_request_web_at_epoch.
  run_cases; try (intros [= <- <- <-]; simpl in Hgrant; done).
  1: intros _; exfalso; bool_prop; specialize (Hnew ltac:(done)); lia.
  unfold apply_web_request. run. simpl. intros [= <- <- <-]. simpl. rewrite Ht.
  split; [done|]. split; [done|]. unfold deck_serial_session_tick.
  rewrite expire_web_lease_state. simpl. rewrite saturating_add_spec by done.
  rewrite (proj2 (Z.leb_le _ _)) by done. split; [done|]. by intros.
Qed.

Lemma web_lease_is_bounded_witness :
  exists s u s' u', sample_run [Enter 0 10; Enter 0 20] = Some (s, u)
    /\ run_op (RequestWeb 0 1 7 true 30) s u = (s', u') /\ state s' = DECK_SERIAL_WEB_TX
    /\ state (deck_serial_session_tick s' 5030 u').1 = DECK_SERIAL_USB_TX.
Proof.
  destruct (sample_run [Enter 0 10; Enter 0 20]) as [[s u]|] eqn:E; [|discriminate].
  destruct (deck_serial_session_request_web_at_epoch s 0 1 7 true 30 u) as [[[r|] s'] u'] eqn:E'.
  2: { clear - E E'. vm_compute in E. injection E as <- <-. discriminate E'. }
  assert (r_code r = DECK_SERIAL_COMMAND_APPLIED /\ has_last_request s = false) as [Hg Hn].
  { clear - E E'. vm_compute in E. injection E as <- <-. vm_compute in E'.
    injection E' as <- <- <-. by split. }
  exists s, u, s', u'. split; [reflexivity|]. split; [simpl; by rewrite run_fmap, E'|].
  assert (reachable 5000 s u) as Hr by (eapply sample_run_reachable; [|exact E]; repeat constructor; words).
  pose proof (web_lease_is_bounded 5000 s u 0 1 7 30 r s' u' 5030 u' Hr ltac:(words) E' Hg
    ltac:(congruence) ltac:(done)) as (Hs & _ & Ht & _).
  split; [exact Hs|exact Ht].
Defined.

(** A Web request that is repeated before its lease has run out is
    answered with the stored result, changes nothing and touches no
    hardware. *)
Theorem web_request_is_idempotent {W} `{SerialHardware W} s (w : W) epoch sid request_id
    enable now r s' w' enable' now' (w2 : W)
    (Hreq : deck_serial_session_request_web_at_epoch s epoch sid request_id enable now w
            = ((Some r, s'), w'))
    (Hdone : r_code r = DECK_SERIAL_COMMAND_APPLIED \/ r_code r = DECK_SERIAL_COMMAND_NO_CHANGE)
    (Hlive : state s' = DECK_SERIAL_WEB_TX -> now' < lease_deadline_ms s') :
  deck_serial_session_request_web_at_epoch s' epoch sid request_id enable' now' w2
  = ((Some r, s'), w2).
Proof. eapply answered_replay; [by eapply request_answered|done]. Qed.

Lemma web_request_is_idempotent_witness :
  exists s u r s' u', sample_run [Enter 0 10; Enter 0 20] = Some (s, u)
    /\ deck_serial_session_request_web_at_epoch s 0 1 7 true 30 u = ((Some r, s'), u')
    /\ deck_serial_session_request_web_at_epoch s' 0 1 7 true 5029 u' = ((Some r, s'), u').
Proof.
  destruct (sample_run [Enter 0 10; Enter 0 20]) as [[s u]|] eqn:E; [|discriminate].
  destruct (deck_serial_session_request_web_at_epoch s 0 1 7 true 30 u) as [[[r|] s'] u'] eqn:E'.
  2: { clear - E E'. vm_compute in E. injection E as <- <-. discriminate E'. }
  assert (r_code r = DECK_SERIAL_COMMAND_APPLIED /\ lease_deadline_ms s' = 5030) as [Hg Hd].
  { clear - E E'. vm_compute in E. injection E as <- <-. vm_compute in E'.
    injection E' as <- <- <-. by split. }
  exists s, u, r, s', u'. split; [reflexivity|]. split; [exact E'|].
  refine (web_request_is_idempotent s u 0 1 7 true 30 r s' u' true 5029 u' E' (or_introl Hg) _).
  rewrite Hd. done.
Defined.
