(* ===== verification/SerialRouter.v ===== *)
(** * The serial router

    [components/serial_service/deck_serial_router.cpp]: one pool of 256-byte
    blocks, shared by up to four sinks.  A block carries a reference count,
    a sink is a ring of block indices, free blocks form a list threaded
    through the metadata.  The abstract router is four bounded queues that do
    not share anything. *)

From S2P Require Import Prelude.

(** ** State *)

Definition kNoBlock : Z := U32_MAX.
Definition DECK_SERIAL_ROUTER_BLOCK_BYTES : nat := 256.
Definition DECK_SERIAL_ROUTER_MAX_SINKS : nat := 4.
Definition DECK_SERIAL_HISTORY_MIN_BYTES : Z := 64 * 1024.
Definition DECK_SERIAL_HISTORY_MAX_BYTES : Z := 2048 * 1024.

(** [deck_serial_sink_id_t] is an unsigned integer at the interface. *)
Definition DECK_SERIAL_SINK_USB : Z := 0.
Definition DECK_SERIAL_SINK_WSS : Z := 1.
Definition DECK_SERIAL_SINK_HISTORY : Z := 2.
Definition DECK_SERIAL_SINK_STATS : Z := 3.

Inductive deck_serial_router_copy_result_t :=
  | DECK_SERIAL_ROUTER_COPY_OK
  | DECK_SERIAL_ROUTER_COPY_EMPTY
  | DECK_SERIAL_ROUTER_COPY_GAP
  | DECK_SERIAL_ROUTER_COPY_INVALID.

Inductive deck_serial_uart_error_t :=
  | DECK_SERIAL_UART_FIFO_OVERFLOW
  | DECK_SERIAL_UART_DRIVER_BUFFER_FULL
  | DECK_SERIAL_UART_ROUTER_STARVED.

Record BlockMetadata := {
  b_sequence : Z;
  b_monotonic_ms : Z;
  b_next_free : Z;
  b_length : nat;
  b_references : Z;
}.
#[export] Instance block_rebuild : Rebuild BlockMetadata := fun b =>
  Build_BlockMetadata (b_sequence b) (b_monotonic_ms b) (b_next_free b) (b_length b)
    (b_references b).

Definition zero_block : BlockMetadata := {|
  b_sequence := 0; b_monotonic_ms := 0; b_next_free := 0; b_length := 0; b_references := 0 |}.

Record deck_serial_sink_config_t := {
  c_id : Z;
  c_capacity_bytes : Z;
  c_retained : bool;
}.

Record Sink := {
  config : deck_serial_sink_config_t;
  blocks : list Z;
  capacity_blocks : nat;
  head : nat;
  count : nat;
  queued_bytes : Z;
  overwritten_bytes : Z;
  overwritten_blocks : Z;
  delivered_bytes : Z;
  delivered_blocks : Z;
  cleared_bytes : Z;
  cleared_blocks : Z;
  registered : bool;
}.
#[export] Instance sink_rebuild : Rebuild Sink := fun s =>
  Build_Sink (config s) (blocks s) (capacity_blocks s) (head s) (count s) (queued_bytes s)
    (overwritten_bytes s) (overwritten_blocks s) (delivered_bytes s) (delivered_blocks s)
    (cleared_bytes s) (cleared_blocks s) (registered s).

(** [Sink{}] *)
Definition empty_sink : Sink := {|
  config := {| c_id := 0; c_capacity_bytes := 0; c_retained := false |};
  blocks := []; capacity_blocks := 0; head := 0; count := 0; queued_bytes := 0;
  overwritten_bytes := 0; overwritten_blocks := 0; delivered_bytes := 0; delivered_blocks := 0;
  cleared_bytes := 0; cleared_blocks := 0; registered := false |}.

Record deck_serial_router_stats_t := {
  accepted_bytes : Z;
  accepted_blocks : Z;
  last_sequence : Z;
  pool_exhaustions : Z;
  uart_fifo_overflows : Z;
  uart_driver_buffer_full : Z;
  router_starvations : Z;
}.
#[export] Instance stats_rebuild : Rebuild deck_serial_router_stats_t := fun s =>
  Build_deck_serial_router_stats_t (accepted_bytes s) (accepted_blocks s) (last_sequence s)
    (pool_exhaustions s) (uart_fifo_overflows s) (uart_driver_buffer_full s)
    (router_starvations s).

(** [payloads] lists the 256-byte blocks of the payload area in order. *)
Record deck_serial_router := {
  session_id : Z;
  pool_capacity_bytes : Z;
  pool_blocks : nat;
  payloads : list bytes;
  metadata : list BlockMetadata;
  free_head : Z;
  sinks : list Sink;
  stats : deck_serial_router_stats_t;
}.
#[export] Instance router_rebuild : Rebuild deck_serial_router := fun r =>
  Build_deck_serial_router (session_id r) (pool_capacity_bytes r) (pool_blocks r) (payloads r)
    (metadata r) (free_head r) (sinks r) (stats r).

Record deck_serial_input_block_t := {
  i_monotonic_ms : Z;
  i_length : nat;
  i_bytes : bytes;
}.

Record deck_serial_routed_block_t := {
  o_session_id : Z;
  o_sequence : Z;
  o_monotonic_ms : Z;
  o_length : nat;
  o_bytes : bytes;
}.

Record deck_serial_sink_stats_t := {
  s_registered : bool;
  s_retained : bool;
  s_capacity_bytes : Z;
  s_queued_bytes : Z;
  s_queued_blocks : nat;
  s_oldest_sequence : Z;
  s_newest_sequence : Z;
  s_overwritten_bytes : Z;
  s_overwritten_blocks : Z;
  s_delivered_bytes : Z;
  s_delivered_blocks : Z;
  s_cleared_bytes : Z;
  s_cleared_blocks : Z;
}.

(** ** Helpers *)

(** [size_t] has the 32 bits of the target. *)
Definition saturating_add_size (left right : Z) : Z :=
  if U32_MAX - right <? left then U32_MAX else left + right.

Definition valid_sink_id (id : Z) : bool := u32 id <? Z.of_nat DECK_SERIAL_ROUTER_MAX_SINKS.

Definition next_nonzero (sequence : Z) : Z :=
  let sequence := u64 (sequence + 1) in if sequence =? 0 then 1 else sequence.

Definition zero_payload : bytes := replicate DECK_SERIAL_ROUTER_BLOCK_BYTES 0.

Implicit Types (r : deck_serial_router) (s : Sink) (block_index : Z).

Definition find_sink r (id : Z) : option Sink :=
  if negb (valid_sink_id id) then None
  else
    s ← sinks r !! Z.to_nat id;
    if registered s then Some s else None.

Definition set_sink r (id : Z) s : deck_serial_router :=
  r <| sinks := <[Z.to_nat id := s]> (sinks r) |>.

Definition block r block_index : BlockMetadata :=
  nth (Z.to_nat block_index) (metadata r) zero_block.

Definition set_block r block_index (b : BlockMetadata) : deck_serial_router :=
  r <| metadata := <[Z.to_nat block_index := b]> (metadata r) |>.

Definition payload r block_index : bytes := nth (Z.to_nat block_index) (payloads r) [].

Definition set_payload r block_index (data : bytes) : deck_serial_router :=
  r <| payloads := <[Z.to_nat block_index := data]> (payloads r) |>.

Definition return_block r block_index : deck_serial_router :=
  let r := set_block r block_index
    {| b_sequence := 0; b_monotonic_ms := 0; b_next_free := free_head r; b_length := 0;
       b_references := 0 |} in
  (set_payload r block_index zero_payload) <| free_head := block_index |>.

Definition release_reference r block_index : deck_serial_router :=
  let b := block r block_index in
  if b_references b =? 0 then r
  else
    let b := b <| b_references := u8 (b_references b - 1) |> in
    let r := set_block r block_index b in
    if b_references b =? 0 then return_block r block_index else r.

Definition sink_block_at s (offset : nat) : Z :=
  nth ((head s + offset) mod capacity_blocks s) (blocks s) 0.

(** The sink is a part of the router the caller stores back. *)
Definition remove_front r s (overwritten cleared delivered : bool) : deck_serial_router * Sink :=
  if (count s =? 0)%nat then (r, s)
  else
    let block_index := nth (head s) (blocks s) 0 in
    let length := Z.of_nat (b_length (block r block_index)) in
    let s := s <| head := ((head s + 1) mod capacity_blocks s)%nat |>
               <| count := (count s - 1)%nat |>
               <| queued_bytes := u32 (queued_bytes s - length) |> in
    let s := if overwritten
      then s <| overwritten_bytes := saturating_add (overwritten_bytes s) length |>
             <| overwritten_blocks := saturating_add (overwritten_blocks s) 1 |> else s in
    let s := if cleared
      then s <| cleared_bytes := saturating_add (cleared_bytes s) length |>
             <| cleared_blocks := saturating_add (cleared_blocks s) 1 |> else s in
    let s := if delivered
      then s <| delivered_bytes := saturating_add (delivered_bytes s) length |>
             <| delivered_blocks := saturating_add (delivered_blocks s) 1 |> else s in
    (release_reference r block_index, s).

(** The [while (sink->count != 0)] loop; each iteration removes one block. *)
Fixpoint clear_loop (fuel : nat) r s : deck_serial_router * Sink :=
  match fuel with
  | O => (r, s)
  | S fuel =>
      if (count s =? 0)%nat then (r, s)
      else let '(r, s) := remove_front r s false true false in clear_loop fuel r s
  end.

Definition clear_sink_locked r s : deck_serial_router * Sink :=
  let '(r, s) := clear_loop (count s) r s in (r, s <| head := 0%nat |>).

Definition copy_block r block_index : deck_serial_routed_block_t :=
  let b := block r block_index in {|
    o_session_id := session_id r; o_sequence := b_sequence b;
    o_monotonic_ms := b_monotonic_ms b; o_length := b_length b;
    o_bytes := take (b_length b) (payload r block_index)
               ++ replicate (DECK_SERIAL_ROUTER_BLOCK_BYTES - b_length b) 0 |}.

Definition fill_sink_stats r s : deck_serial_sink_stats_t := {|
  s_registered := registered s; s_retained := c_retained (config s);
  s_capacity_bytes := c_capacity_bytes (config s); s_queued_bytes := queued_bytes s;
  s_queued_blocks := count s;
  s_oldest_sequence := if negb (count s =? 0)%nat
    then b_sequence (block r (sink_block_at s 0)) else 0;
  s_newest_sequence := if negb (count s =? 0)%nat
    then b_sequence (block r (sink_block_at s (count s - 1))) else 0;
  s_overwritten_bytes := overwritten_bytes s; s_overwritten_blocks := overwritten_blocks s;
  s_delivered_bytes := delivered_bytes s; s_delivered_blocks := delivered_blocks s;
  s_cleared_bytes := cleared_bytes s; s_cleared_blocks := cleared_blocks s |}.

(** ** Creation *)

Definition initial_block (block_count index : nat) : BlockMetadata :=
  zero_block <| b_next_free :=
    if (index + 1 <? block_count)%nat then Z.of_nat (index + 1) else kNoBlock |>.

(** [allocated]: whether all three allocations succeeded. *)
Definition deck_serial_router_create (session pool_bytes initial_sequence : Z) (allocated : bool) :
    option deck_serial_router :=
  if (session =? 0) || (pool_bytes =? 0)
     || negb (pool_bytes mod Z.of_nat DECK_SERIAL_ROUTER_BLOCK_BYTES =? 0)
     || (DECK_SERIAL_HISTORY_MAX_BYTES <? pool_bytes)
  then None
  else
    let block_count := pool_bytes / Z.of_nat DECK_SERIAL_ROUTER_BLOCK_BYTES in
    if (block_count =? 0) || (kNoBlock <? block_count) || negb allocated then None
    else
      let n := Z.to_nat block_count in
      Some {| session_id := session; pool_capacity_bytes := pool_bytes; pool_blocks := n;
              payloads := replicate n zero_payload;
              metadata := initial_block n <$> seq 0 n;
              free_head := 0;
              sinks := replicate DECK_SERIAL_ROUTER_MAX_SINKS empty_sink;
              stats := {| accepted_bytes := 0; accepted_blocks := 0;
                          last_sequence := initial_sequence; pool_exhaustions := 0;
                          uart_fifo_overflows := 0; uart_driver_buffer_full := 0;
                          router_starvations := 0 |} |}.

Fixpoint clear_registered r (rest : list Sink) : deck_serial_router * list Sink :=
  match rest with
  | [] => (r, [])
  | s :: rest =>
      let '(r, s) := if registered s then clear_sink_locked r s else (r, s) in
      let '(r, rest) := clear_registered r rest in (r, s :: rest)
  end.

(** The memory as it is handed back to the allocator. *)
Definition deck_serial_router_destroy r : deck_serial_router :=
  let '(r, cleared) := clear_registered r (sinks r) in
  r <| sinks := cleared |>
    <| payloads := replicate (pool_blocks r) zero_payload |>
    <| metadata := replicate (pool_blocks r) zero_block |>.

Definition deck_serial_router_register_sink r (c : deck_serial_sink_config_t) (allocated : bool) :
    bool * deck_serial_router :=
  if negb (valid_sink_id (c_id c)) || (c_capacity_bytes c =? 0)
     || negb (c_capacity_bytes c mod Z.of_nat DECK_SERIAL_ROUTER_BLOCK_BYTES =? 0)
     || (pool_capacity_bytes r <? c_capacity_bytes c)
     || negb (Bool.eqb (c_retained c) (c_id c =? DECK_SERIAL_SINK_HISTORY))
     || ((c_id c =? DECK_SERIAL_SINK_HISTORY) && (c_capacity_bytes c <? DECK_SERIAL_HISTORY_MIN_BYTES))
  then (false, r)
  else
    match sinks r !! Z.to_nat (c_id c) with
    | None => (false, r)
    | Some s =>
        if registered s || negb allocated then (false, r)
        else
          let capacity :=
            Z.to_nat (c_capacity_bytes c / Z.of_nat DECK_SERIAL_ROUTER_BLOCK_BYTES) in
          (true, set_sink r (c_id c)
             (s <| config := c |> <| blocks := replicate capacity 0 |>
                <| capacity_blocks := capacity |> <| registered := true |>))
    end.

Definition deck_serial_router_unregister_sink r (id : Z) : bool * deck_serial_router :=
  match find_sink r id with
  | None => (false, r)
  | Some s => let '(r, _) := clear_sink_locked r s in (true, set_sink r id empty_sink)
  end.

(** ** Submission *)

(** First loop: every registered sink that is full drops its oldest block. *)
Fixpoint evict_full r (rest : list Sink) : deck_serial_router * list Sink :=
  match rest with
  | [] => (r, [])
  | s :: rest =>
      let '(r, s) := if registered s && (count s =? capacity_blocks s)%nat
                     then remove_front r s true false false else (r, s) in
      let '(r, rest) := evict_full r rest in (r, s :: rest)
  end.

Definition push_block s block_index (length : nat) : Sink :=
  let tail := ((head s + count s) mod capacity_blocks s)%nat in
  s <| blocks := <[tail := block_index]> (blocks s) |>
    <| count := (count s + 1)%nat |>
    <| queued_bytes := saturating_add_size (queued_bytes s) (Z.of_nat length) |>.

(** Second loop: every registered sink takes a reference. *)
Fixpoint fan_out (rest : list Sink) block_index (length : nat) (references : Z) :
    list Sink * Z :=
  match rest with
  | [] => ([], references)
  | s :: rest =>
      if negb (registered s) then
        let '(rest, references) := fan_out rest block_index length references in
        (s :: rest, references)
      else
        let '(rest, references) := fan_out rest block_index length (u8 (references + 1)) in
        (push_block s block_index length :: rest, references)
  end.

Definition fill_block r block_index (input : deck_serial_input_block_t) : deck_serial_router :=
  let r := r <| free_head := b_next_free (block r block_index) |> in
  let r := set_block r block_index
    {| b_sequence := next_nonzero (last_sequence (stats r));
       b_monotonic_ms := i_monotonic_ms input; b_next_free := kNoBlock;
       b_length := i_length input; b_references := 0 |} in
  set_payload r block_index
    (take (i_length input) (i_bytes input)
     ++ replicate (DECK_SERIAL_ROUTER_BLOCK_BYTES - i_length input) 0).

(** [Some sequence] when the block was accepted. *)
Definition deck_serial_router_submit r (input : deck_serial_input_block_t) :
    option Z * deck_serial_router :=
  if (i_length input =? 0)%nat || (DECK_SERIAL_ROUTER_BLOCK_BYTES <? i_length input)%nat
  then (None, r)
  else
    let '(r, evicted) := evict_full r (sinks r) in
    let r := r <| sinks := evicted |> in
    if free_head r =? kNoBlock then
      (None, r <| stats := (stats r)
        <| pool_exhaustions := saturating_add (pool_exhaustions (stats r)) 1 |> |>)
    else
      let block_index := free_head r in
      let r := fill_block r block_index input in
      let '(fanned, references) := fan_out (sinks r) block_index (i_length input) 0 in
      let r := r <| sinks := fanned |> in
      let b := (block r block_index) <| b_references := references |> in
      let r := set_block r block_index b in
      let length := Z.of_nat (i_length input) in
      let r := r <| stats := (stats r)
        <| accepted_bytes := saturating_add (accepted_bytes (stats r)) length |>
        <| accepted_blocks := saturating_add (accepted_blocks (stats r)) 1 |>
        <| last_sequence := b_sequence b |> |> in
      (Some (b_sequence b),
       if references =? 0 then return_block r block_index else r).

(** ** Delivery *)

Definition deck_serial_router_take r (id : Z) :
    deck_serial_router_copy_result_t * option deck_serial_routed_block_t * deck_serial_router :=
  match find_sink r id with
  | None => (DECK_SERIAL_ROUTER_COPY_INVALID, None, r)
  | Some s =>
      if c_retained (config s) then (DECK_SERIAL_ROUTER_COPY_INVALID, None, r)
      else if (count s =? 0)%nat then (DECK_SERIAL_ROUTER_COPY_EMPTY, None, r)
      else
        let output := copy_block r (sink_block_at s 0) in
        let '(r, s) := remove_front r s false false true in
        (DECK_SERIAL_ROUTER_COPY_OK, Some output, set_sink r id s)
  end.

(** The search loop: the offset of the block numbered [after]. *)
Definition find_sequence r s (after : Z) : option nat :=
  fst <$> list_find (fun offset => b_sequence (block r (sink_block_at s offset)) = after)
            (seq 0 (count s)).

Definition deck_serial_router_copy_after r (id after_sequence : Z) :
    deck_serial_router_copy_result_t * option deck_serial_routed_block_t * deck_serial_router :=
  match find_sink r id with
  | None => (DECK_SERIAL_ROUTER_COPY_INVALID, None, r)
  | Some s =>
      if negb (c_retained (config s)) then (DECK_SERIAL_ROUTER_COPY_INVALID, None, r)
      else if (count s =? 0)%nat then (DECK_SERIAL_ROUTER_COPY_EMPTY, None, r)
      else
        let deliver selected result :=
          let block_index := sink_block_at s selected in
          let length := Z.of_nat (b_length (block r block_index)) in
          (result, Some (copy_block r block_index),
           set_sink r id
             (s <| delivered_bytes := saturating_add (delivered_bytes s) length |>
                <| delivered_blocks := saturating_add (delivered_blocks s) 1 |>)) in
        if after_sequence =? 0 then deliver 0%nat DECK_SERIAL_ROUTER_COPY_OK
        else
          match find_sequence r s after_sequence with
          | Some offset =>
              if (offset + 1 =? count s)%nat then (DECK_SERIAL_ROUTER_COPY_EMPTY, None, r)
              else deliver (offset + 1)%nat DECK_SERIAL_ROUTER_COPY_OK
          | None => deliver 0%nat DECK_SERIAL_ROUTER_COPY_GAP
          end
  end.

Definition deck_serial_router_clear_sink r (id : Z) : bool * deck_serial_router :=
  match find_sink r id with
  | None => (false, r)
  | Some s => let '(r, s) := clear_sink_locked r s in (true, set_sink r id s)
  end.

Definition deck_serial_router_note_uart_error r (error : deck_serial_uart_error_t) :
    deck_serial_router :=
  let t := stats r in
  r <| stats :=
    match error with
    | DECK_SERIAL_UART_FIFO_OVERFLOW =>
        t <| uart_fifo_overflows := saturating_add (uart_fifo_overflows t) 1 |>
    | DECK_SERIAL_UART_DRIVER_BUFFER_FULL =>
        t <| uart_driver_buffer_full := saturating_add (uart_driver_buffer_full t) 1 |>
    | DECK_SERIAL_UART_ROUTER_STARVED =>
        t <| router_starvations := saturating_add (router_starvations t) 1 |>
    end |>.

Definition deck_serial_router_sink_stats r (id : Z) : option deck_serial_sink_stats_t :=
  fill_sink_stats r <$> find_sink r id.

Definition deck_serial_router_stats r : deck_serial_router_stats_t := stats r.
