(* ===== verification/SerialRouterPool.v ===== *)
(** * The block pool of the serial router

    The ring arithmetic of a sink, and the invariant that ties reference
    counts, the free list and the wiped payloads of the pool to the multiset
    of indices the sinks hold. *)

From S2P Require Import Prelude SerialRouter.

Implicit Types (r : deck_serial_router) (s : Sink) (i j : Z) (A L : list Z).

(** ** Rings *)

(** The block indices a sink holds, oldest first. *)
Definition ring s : list Z := sink_block_at s <$> seq 0 (count s).

Record ring_ok s : Prop := {
  rg_registered : registered s = true ->
    (0 < capacity_blocks s)%nat /\ (head s < capacity_blocks s)%nat
    /\ (count s <= capacity_blocks s)%nat /\ length (blocks s) = capacity_blocks s;
  rg_free : registered s = false -> count s = 0%nat;
  rg_head : registered s = false -> head s = 0%nat;
}.

Lemma length_ring s : length (ring s) = count s.
Proof. unfold ring. by rewrite length_fmap, length_seq. Qed.

Lemma mod_below_twice (x c : nat) :
  (0 < c)%nat -> (x < 2 * c)%nat -> (x mod c)%nat = if (x <? c)%nat then x else (x - c)%nat.
Proof.
  intros Hc Hx. destruct (x <? c)%nat eqn:E; bool_prop; [by apply Nat.mod_small|].
  replace x with (x - c + 1 * c)%nat at 1 by lia.
  rewrite Nat.Div0.mod_add. apply Nat.mod_small. lia.
Qed.

Lemma ring_head s :
  (0 < count s)%nat -> ring_ok s -> registered s = true ->
  ring s = nth (head s) (blocks s) 0 ::
    ring (s <| head := ((head s + 1) mod capacity_blocks s)%nat |> <| count := (count s - 1)%nat |>).
Proof.
  intros Hc [Hr _ _] Hreg. destruct (Hr Hreg) as (Hcap & Hh & Hle & Hlen).
  unfold ring. simpl. destruct (count s) as [|n] eqn:En; [lia|]. simpl.
  rewrite Nat.sub_0_r. f_equal.
  - unfold sink_block_at. by rewrite Nat.add_0_r, Nat.mod_small.
  - rewrite <- fmap_S_seq, <- list_fmap_compose. apply list_fmap_ext. intros _ k _. simpl.
    unfold sink_block_at. simpl. rewrite Nat.Div0.add_mod_idemp_l. f_equal. f_equal. lia.
Qed.

Lemma ring_push s i n :
  ring_ok s -> registered s = true -> (count s < capacity_blocks s)%nat ->
  ring (push_block s i n) = ring s ++ [i].
Proof.
  intros [Hr _ _] Hreg Hlt. destruct (Hr Hreg) as (Hcap & Hh & _ & Hlen).
  unfold ring, push_block. simpl. rewrite seq_app, fmap_app. simpl. f_equal.
  - apply list_fmap_ext. intros idx k Hk%lookup_seq. unfold sink_block_at. simpl.
    rewrite !nth_lookup, list_lookup_insert_ne; [done|].
    rewrite !mod_below_twice by lia. repeat case_match; bool_prop; lia.
  - f_equal. unfold sink_block_at. simpl. rewrite nth_lookup, list_lookup_insert_eq; [done|].
    rewrite Hlen. by apply Nat.mod_upper_bound, Nat.neq_0_lt_0.
Qed.

Lemma ring_empty s : count s = 0%nat -> ring s = [].
Proof. unfold ring. by intros ->. Qed.

(** ** Blocks of the pool *)

Definition in_pool r i : Prop := 0 <= i < Z.of_nat (pool_blocks r).

Inductive free_chain r : Z -> list Z -> Prop :=
  | chain_end : free_chain r kNoBlock []
  | chain_block i fl :
      in_pool r i -> free_chain r (b_next_free (block r i)) fl -> free_chain r i (i :: fl).

(** [A]: the allocated blocks, [L]: one entry per reference held. *)
Record pool_ok r A L : Prop := {
  pk_blocks : Z.of_nat (pool_blocks r) < kNoBlock;
  pk_metadata : length (metadata r) = pool_blocks r;
  pk_payloads : length (payloads r) = pool_blocks r;
  pk_range : Forall (in_pool r) A;
  pk_refs : forall i, in_pool r i ->
    b_references (block r i) = Z.of_nat (count_occ Z.eq_dec L i);
  pk_few : forall i, (count_occ Z.eq_dec L i <= 255)%nat;
  pk_free : exists fl, free_chain r (free_head r) fl /\ NoDup fl
    /\ forall i, in_pool r i -> (i ∈ fl <-> i ∉ A);
  pk_zero : forall i, in_pool r i -> i ∉ A -> payload r i = zero_payload;
  pk_size : forall i, in_pool r i ->
    (b_length (block r i) <= DECK_SERIAL_ROUTER_BLOCK_BYTES)%nat;
}.

Lemma pool_ok_ext r A A' L L' :
  (forall i, i ∈ A' <-> i ∈ A) ->
  (forall i, count_occ Z.eq_dec L' i = count_occ Z.eq_dec L i) ->
  pool_ok r A L -> pool_ok r A' L'.
Proof.
  intros HA HL [? ? ? Hrange Hrefs Hfew (fl & Hch & Hnd & Hfl) Hz ?].
  split; try done.
  - rewrite Forall_forall in *. intros i. rewrite HA. apply Hrange.
  - intros i Hi. rewrite HL. auto.
  - intros i. rewrite HL. auto.
  - exists fl. split_and!; try done. intros i Hi. rewrite HA. auto.
  - intros i Hi. rewrite HA. auto.
Qed.

Lemma count_occ_elem L i : i ∈ L <-> (0 < count_occ Z.eq_dec L i)%nat.
Proof. rewrite list_elem_of_In. rewrite (count_occ_In Z.eq_dec). lia. Qed.

(** *** Single updates *)

Lemma block_set r i j b :
  in_pool r i -> length (metadata r) = pool_blocks r -> in_pool r j ->
  block (set_block r i b) j = if decide (j = i) then b else block r j.
Proof.
  unfold in_pool, block, set_block. intros Hi Hl Hj. cbn [metadata set_field].
  rewrite !nth_lookup. destruct (decide (j = i)) as [->|Hne].
  - simpl. rewrite list_lookup_insert_eq by lia. done.
  - simpl. rewrite list_lookup_insert_ne by lia. done.
Qed.

Lemma payload_set r i j data :
  in_pool r i -> length (payloads r) = pool_blocks r -> in_pool r j ->
  payload (set_payload r i data) j = if decide (j = i) then data else payload r j.
Proof.
  unfold in_pool, payload, set_payload. intros Hi Hl Hj.
  rewrite !nth_lookup. destruct (decide (j = i)) as [->|Hne].
  - simpl. rewrite list_lookup_insert_eq by lia. done.
  - simpl. rewrite list_lookup_insert_ne by lia. done.
Qed.

(** A chain survives updates that keep the links of its blocks. *)
Lemma free_chain_frame r r' h fl :
  pool_blocks r' = pool_blocks r ->
  (forall i, i ∈ fl -> in_pool r i -> b_next_free (block r' i) = b_next_free (block r i)) ->
  free_chain r h fl -> free_chain r' h fl.
Proof.
  intros Hn Hb Hc. induction Hc as [|i fl Hi Hc IH]; constructor.
  - unfold in_pool in *. by rewrite Hn.
  - rewrite Hb; [|rewrite elem_of_cons; by left|done].
    apply IH. intros j Hj. apply Hb. rewrite elem_of_cons. by right.
Qed.

(** The bookkeeping a pool update leaves alone. *)
Definition same_frame r r' : Prop :=
  session_id r' = session_id r /\ pool_capacity_bytes r' = pool_capacity_bytes r
  /\ pool_blocks r' = pool_blocks r /\ sinks r' = sinks r /\ stats r' = stats r.

Lemma same_frame_trans r1 r2 r3 : same_frame r1 r2 -> same_frame r2 r3 -> same_frame r1 r3.
Proof. unfold same_frame. intros (?&?&?&?&?) (?&?&?&?&?). split_and!; congruence. Qed.

(** *** Returning and releasing a block *)

Lemma return_block_ok r i A L :
  pool_ok r (i :: A) L -> i ∉ A -> i ∉ L -> pool_ok (return_block r i) A L.
Proof.
  intros [Hn Hm Hp Hrange Hrefs Hfew (fl & Hch & Hnd & Hfl) Hz Hs] HA HL.
  apply Forall_cons in Hrange as [Hi Hrange].
  assert (forall j, in_pool r j -> block (return_block r i) j =
    if decide (j = i) then {| b_sequence := 0; b_monotonic_ms := 0; b_next_free := free_head r;
      b_length := 0; b_references := 0 |} else block r j) as Hb by (intros; by apply block_set).
  split; try done.
  - by cbn; rewrite length_insert.
  - by cbn; rewrite length_insert.
  - intros j Hj. rewrite Hb by done. case_decide as E; [subst j|by apply Hrefs].
    simpl. rewrite (proj1 (count_occ_not_In Z.eq_dec L i)); [done|]. by rewrite <- list_elem_of_In.
  - exists (i :: fl). change (free_head (return_block r i)) with i. split_and!.
    + constructor; [done|]. rewrite Hb, decide_True by done. simpl.
      eapply free_chain_frame; [| |exact Hch]; [done|]. intros j Hj Hjr.
      rewrite Hb, decide_False; [done| |done]. intros ->.
      apply (proj1 (Hfl i Hi) Hj). rewrite elem_of_cons. by left.
    + constructor; [|done]. rewrite (Hfl i Hi), elem_of_cons. tauto.
    + intros j Hj. rewrite !elem_of_cons, (Hfl j Hj), elem_of_cons.
      destruct (decide (j = i)) as [->|]; tauto.
  - intros j Hj HjA. change (payload (set_payload (set_block r i {| b_sequence := 0;
      b_monotonic_ms := 0; b_next_free := free_head r; b_length := 0; b_references := 0 |})
      i zero_payload) j = zero_payload).
    rewrite payload_set by done. case_decide; [done|].
    apply Hz; [done|]. rewrite elem_of_cons. tauto.
  - intros j Hj. rewrite Hb by done. case_decide; simpl; [lia|by apply Hs].
Qed.

Lemma copy_block_return r i j :
  in_pool r i -> in_pool r j -> length (metadata r) = pool_blocks r ->
  length (payloads r) = pool_blocks r -> j <> i ->
  copy_block (return_block r i) j = copy_block r j.
Proof.
  intros Hi Hj Hm Hp Hne. unfold copy_block, return_block.
  change (block (_ <| free_head := i |>) j) with (block (set_block r i {| b_sequence := 0;
      b_monotonic_ms := 0; b_next_free := free_head r; b_length := 0; b_references := 0 |}) j).
  change (payload (_ <| free_head := i |>) j) with (payload (set_payload r i zero_payload) j).
  by rewrite block_set, payload_set, !decide_False.
Qed.

(** Changing only the reference count of a block. *)
Definition with_references r i (n : Z) : deck_serial_router :=
  set_block r i ((block r i) <| b_references := n |>).

Lemma with_references_ok r i A L L' :
  pool_ok r A L -> in_pool r i ->
  (forall j, (count_occ Z.eq_dec L' j <= 255)%nat) ->
  (forall j, j <> i -> count_occ Z.eq_dec L' j = count_occ Z.eq_dec L j) ->
  pool_ok (with_references r i (Z.of_nat (count_occ Z.eq_dec L' i))) A L'.
Proof.
  intros [Hn Hm Hp Hrange Hrefs Hfew (fl & Hch & Hnd & Hfl) Hz Hs] Hi Hfew' Hne.
  assert (forall j, in_pool r j -> block (with_references r i (Z.of_nat (count_occ Z.eq_dec L' i))) j =
    if decide (j = i) then (block r i) <| b_references := Z.of_nat (count_occ Z.eq_dec L' i) |>
    else block r j) as Hb by (intros; by apply block_set).
  split; try done.
  - by cbn; rewrite length_insert.
  - intros j Hj. rewrite Hb by done. case_decide; [by subst|]. rewrite Hne by done. by apply Hrefs.
  - exists fl. split_and!; try done. eapply free_chain_frame; [| |exact Hch]; [done|].
    intros j _ Hj. rewrite Hb by done. by case_decide; subst.
  - intros j Hj. rewrite Hb by done. case_decide; subst; by apply Hs.
Qed.

Lemma copy_block_with_references r i j n :
  in_pool r i -> in_pool r j -> length (metadata r) = pool_blocks r ->
  copy_block (with_references r i n) j = copy_block r j.
Proof.
  intros Hi Hj Hm. unfold copy_block.
  change (payload (with_references r i n) j) with (payload r j).
  unfold with_references. rewrite block_set by done. by case_decide; subst.
Qed.

(** Dropping one reference: the other blocks held keep their contents. *)
Lemma release_reference_ok r i L :
  pool_ok r (i :: L) (i :: L) ->
  pool_ok (release_reference r i) L L /\ same_frame r (release_reference r i)
  /\ forall j, j ∈ L -> copy_block (release_reference r i) j = copy_block r j.
Proof.
  intros Hok. pose proof Hok as [Hn Hm Hp Hrange Hrefs Hfew Hfl Hz Hs].
  apply Forall_cons in Hrange as [Hi Hrange]. specialize (Hrefs i Hi).
  pose proof (Hfew i) as Hi255. rewrite count_occ_cons_eq in Hrefs, Hi255 by done.
  unfold release_reference. rewrite (proj2 (Z.eqb_neq _ _)) by lia. simpl.
  replace (u8 (b_references (block r i) - 1)) with (Z.of_nat (count_occ Z.eq_dec L i))
    by (rewrite u8_id by words; lia).
  assert (pool_ok (with_references r i (Z.of_nat (count_occ Z.eq_dec L i))) (i :: L) L) as Hok'.
  { eapply with_references_ok; [done|done| |].
    - intros j. specialize (Hfew j). simpl in Hfew. case_match; lia.
    - intros j Hj. by rewrite count_occ_cons_neq. }
  fold (with_references r i (Z.of_nat (count_occ Z.eq_dec L i))).
  assert (forall j, j ∈ L -> in_pool r j) as HL by by rewrite <- Forall_forall.
  destruct (Z.of_nat (count_occ Z.eq_dec L i) =? 0) eqn:E; bool_prop.
  - assert (i ∉ L) as Hni by (rewrite count_occ_elem; lia).
    split_and!; [by apply return_block_ok|by split_and!|].
    intros j Hj. rewrite copy_block_return, copy_block_with_references; auto;
      try (by apply HL); try (by intros ->).
    unfold with_references. cbn. by rewrite length_insert.
  - assert (i ∈ L) as Hin by (rewrite count_occ_elem; lia).
    split_and!; [|by split_and!|].
    + eapply pool_ok_ext; [| |exact Hok']; [|done].
      intros j. rewrite elem_of_cons. destruct (decide (j = i)) as [->|]; tauto.
    + intros j Hj. by rewrite copy_block_with_references; auto.
Qed.

(** *** Allocation *)

Lemma free_head_ok r A L :
  pool_ok r A L -> free_head r <> kNoBlock -> in_pool r (free_head r) /\ free_head r ∉ A.
Proof.
  intros [_ _ _ _ _ _ (fl & Hch & _ & Hfl) _ _] Hh. inversion Hch as [|i fl' Hi Hch']; subst; [done|].
  split; [done|]. apply (Hfl _ Hi). rewrite elem_of_cons. by left.
Qed.

(** Some block is free as long as not every block is allocated. *)
Lemma free_head_available r A L i :
  pool_ok r A L -> in_pool r i -> i ∉ A -> free_head r <> kNoBlock.
Proof.
  intros [Hn _ _ _ _ _ (fl & Hch & _ & Hfl) _ _] Hi HA Hh. apply (Hfl _ Hi) in HA.
  rewrite Hh in Hch. inversion Hch as [|j fl' Hj _]; subst; [by apply not_elem_of_nil in HA|].
  unfold in_pool in Hj. lia.
Qed.

(** Of [n] blocks, fewer than [n] indices leave one out. *)
Lemma some_index_missing L (n : nat) :
  (length L < n)%nat -> exists i, 0 <= i < Z.of_nat n /\ i ∉ L.
Proof.
  intros Hlt. destruct (decide (Exists (fun i => i ∉ L) (Z.of_nat <$> seq 0 n))) as [He|Hne].
  - apply Exists_exists in He as (i & Hin & Hi). exists i. split; [|done].
    apply list_elem_of_fmap in Hin as (k & -> & Hk%elem_of_seq). lia.
  - exfalso. apply not_Exists_Forall in Hne; [|solve_decision].
    assert (NoDup (Z.of_nat <$> seq 0 n)) as Hnd by (apply NoDup_fmap_2, NoDup_seq; intros ??; lia).
    assert (Z.of_nat <$> seq 0 n ⊆+ L) as Hl%submseteq_length.
    + apply NoDup_submseteq; [done|]. intros i Hi. rewrite Forall_forall in Hne.
      by apply dec_stable, Hne.
    + rewrite length_fmap, length_seq in Hl. lia.
Qed.

Definition filled_block r (input : deck_serial_input_block_t) : deck_serial_routed_block_t := {|
  o_session_id := session_id r;
  o_sequence := next_nonzero (last_sequence (stats r));
  o_monotonic_ms := i_monotonic_ms input; o_length := i_length input;
  o_bytes := take (i_length input) (i_bytes input)
             ++ replicate (DECK_SERIAL_ROUTER_BLOCK_BYTES - i_length input) 0 |}.

Lemma fill_block_ok r L input :
  pool_ok r L L -> free_head r <> kNoBlock ->
  (i_length input <= DECK_SERIAL_ROUTER_BLOCK_BYTES)%nat ->
  (i_length input <= length (i_bytes input))%nat ->
  let i := free_head r in
  pool_ok (fill_block r i input) (i :: L) L /\ same_frame r (fill_block r i input)
  /\ copy_block (fill_block r i input) i = filled_block r input
  /\ forall j, in_pool r j -> j <> i -> copy_block (fill_block r i input) j = copy_block r j.
Proof.
  intros Hok Hh Hlen Hbytes i. destruct (free_head_ok r L L Hok Hh) as [Hi HiL]. fold i in Hi, HiL.
  destruct Hok as [Hn Hm Hp Hrange Hrefs Hfew (fl & Hch & Hnd & Hfl) Hz Hs].
  set (b := {| b_sequence := next_nonzero (last_sequence (stats r));
    b_monotonic_ms := i_monotonic_ms input; b_next_free := kNoBlock;
    b_length := i_length input; b_references := 0 |}).
  assert (forall j, in_pool r j -> block (fill_block r i input) j =
    if decide (j = i) then b else block r j) as Hb by (intros; by apply (block_set r)).
  assert (forall j, in_pool r j -> payload (fill_block r i input) j =
    if decide (j = i) then o_bytes (filled_block r input) else payload r j) as Hpay
    by (intros; by apply (payload_set r)).
  inversion Hch as [E|h fl' _ Hch' Eh Efl]; [by rewrite <- E in Hh|]. subst h fl.
  apply NoDup_cons in Hnd as [Hni Hnd]. fold i in Hch', Hni, Hfl.
  split_and!.
  - split; try done.
    + by cbn; rewrite length_insert.
    + by cbn; rewrite length_insert.
    + by constructor.
    + intros j Hj. rewrite Hb by done. case_decide as E; [subst j|by apply Hrefs].
      rewrite (proj1 (count_occ_not_In Z.eq_dec L i)); [done|]. by rewrite <- list_elem_of_In.
    + exists fl'. split_and!; [|done|].
      * eapply free_chain_frame; [| |exact Hch']; [done|]. intros j Hj Hjr.
        rewrite Hb, decide_False; [done| |done]. by intros ->.
      * intros j Hj. specialize (Hfl j Hj). rewrite !elem_of_cons in *.
        destruct (decide (j = i)) as [->|]; tauto.
    + intros j Hj HjA. rewrite elem_of_cons in HjA. rewrite Hpay, decide_False by tauto.
      apply Hz; tauto.
    + intros j Hj. rewrite Hb by done. case_decide; [done|by apply Hs].
  - by split_and!.
  - unfold copy_block. rewrite Hb, Hpay, !decide_True by done. unfold filled_block. simpl.
    f_equal. rewrite take_app_le, take_take by (rewrite length_take; lia). by rewrite Nat.min_id.
  - intros j Hj Hne. unfold copy_block. by rewrite Hb, Hpay, !decide_False.
Qed.

(** The invariant reads nothing but the pool. *)
Lemma pool_ok_same_pool r r' A L :
  pool_blocks r' = pool_blocks r -> metadata r' = metadata r -> payloads r' = payloads r ->
  free_head r' = free_head r -> pool_ok r A L -> pool_ok r' A L.
Proof.
  intros Hn Hm Hp Hf [? ? ? ? ? ? (fl & Hch & Hnd & Hfl) ? ?].
  assert (forall i, block r' i = block r i) as Hb by (intros; unfold block; by rewrite Hm).
  assert (forall i, payload r' i = payload r i) as Hpay by (intros; unfold payload; by rewrite Hp).
  assert (forall i, in_pool r' i <-> in_pool r i) as Hi by (intros; unfold in_pool; by rewrite Hn).
  split; rewrite ?Hn, ?Hm, ?Hp; try done.
  - by apply (Forall_impl (in_pool r)); [|intros i; apply Hi].
  - intros i. rewrite Hi, Hb. auto.
  - exists fl. rewrite Hf. split_and!; [|done|by intros i; rewrite Hi; apply Hfl].
    eapply free_chain_frame; [done| |exact Hch]. intros. by rewrite Hb.
  - intros i. rewrite Hi, Hpay. auto.
  - intros i. rewrite Hi, Hb. auto.
Qed.

(** *** The pool of a new router *)

Lemma initial_chain r n :
  pool_blocks r = n -> metadata r = initial_block n <$> seq 0 n ->
  forall len k, (0 < len)%nat -> (k + len = n)%nat ->
  free_chain r (Z.of_nat k) (Z.of_nat <$> seq k len).
Proof.
  intros Hn Hm. induction len as [|len IH]; intros k Hlen Hk; [lia|].
  simpl. constructor; [unfold in_pool; lia|].
  assert (block r (Z.of_nat k) = initial_block n k) as ->.
  { unfold block. rewrite Nat2Z.id, Hm, nth_lookup, list_lookup_fmap, lookup_seq_lt by lia. done. }
  unfold initial_block. simpl. destruct len as [|len].
  - rewrite (proj2 (Nat.ltb_ge _ _)) by lia. constructor.
  - rewrite (proj2 (Nat.ltb_lt _ _)) by lia. rewrite Nat.add_1_r. apply IH; lia.
Qed.

Lemma initial_pool_ok r n :
  (0 < n)%nat -> Z.of_nat n < kNoBlock -> pool_blocks r = n ->
  metadata r = initial_block n <$> seq 0 n -> payloads r = replicate n zero_payload ->
  free_head r = 0 -> pool_ok r [] [].
Proof.
  intros Hpos Hmax Hn Hm Hp Hh.
  assert (forall i, in_pool r i -> block r i = initial_block n (Z.to_nat i)) as Hb.
  { unfold in_pool. intros i Hi. unfold block.
    rewrite Hm, nth_lookup, list_lookup_fmap, lookup_seq_lt by lia. done. }
  split; rewrite ?Hn, ?Hm, ?Hp; try done.
  - by rewrite length_fmap, length_seq.
  - by rewrite length_replicate.
  - intros i Hi. by rewrite Hb.
  - intros. simpl. lia.
  - exists (Z.of_nat <$> seq 0 n). rewrite Hh. split_and!.
    + by apply (initial_chain r n Hn Hm n 0%nat).
    + apply NoDup_fmap_2; [intros ??; lia|apply NoDup_seq].
    + intros i Hi. unfold in_pool in Hi. split; [intros _; apply not_elem_of_nil|].
      intros _. apply list_elem_of_fmap. exists (Z.to_nat i). split; [lia|]. apply elem_of_seq. lia.
  - intros i Hi _. unfold in_pool in Hi. unfold payload.
    rewrite Hp, nth_lookup, lookup_replicate_2 by lia. done.
  - intros i Hi. rewrite Hb by done. simpl. lia.
Qed.
