(* ===== verification/SerialRouterSpec.v ===== *)
(** * The serial router refines four separate bounded queues

    The abstract router gives each registered sink its own list of blocks.
    The shared pool, the reference counts and the rings of [SerialRouter.v]
    implement it; in particular the pool is never exhausted, because every
    ring is a suffix of one stream and no sink is larger than the pool. *)

From S2P Require Import Prelude SerialRouter SerialRouterPool.

Implicit Types (r : deck_serial_router) (s : Sink) (i j : Z) (P L : list Z).

(** ** The abstract router *)

Record queue := {
  q_config : deck_serial_sink_config_t;
  q_capacity : nat;
  q_items : list deck_serial_routed_block_t;
}.
#[export] Instance queue_rebuild : Rebuild queue := fun q =>
  Build_queue (q_config q) (q_capacity q) (q_items q).

Record spec := {
  sp_session : Z;
  sp_pool_bytes : Z;
  sp_last_sequence : Z;
  sp_queues : list (option queue);
}.
#[export] Instance spec_rebuild : Rebuild spec := fun p =>
  Build_spec (sp_session p) (sp_pool_bytes p) (sp_last_sequence p) (sp_queues p).

Implicit Types (p : spec) (q : queue).

Definition spec_find p (id : Z) : option queue :=
  if valid_sink_id id then mjoin (sp_queues p !! Z.to_nat id) else None.

Definition spec_set p (id : Z) (oq : option queue) : spec :=
  p <| sp_queues := <[Z.to_nat id := oq]> (sp_queues p) |>.

(** A full queue drops its oldest block before the new one joins. *)
Definition queue_push (b : deck_serial_routed_block_t) q : queue :=
  q <| q_items := (if (length (q_items q) =? q_capacity q)%nat then tail (q_items q)
                   else q_items q) ++ [b] |>.

Definition spec_submit p (input : deck_serial_input_block_t) : option Z * spec :=
  if (i_length input =? 0)%nat || (DECK_SERIAL_ROUTER_BLOCK_BYTES <? i_length input)%nat
  then (None, p)
  else
    let sequence := next_nonzero (sp_last_sequence p) in
    let b := {|
      o_session_id := sp_session p; o_sequence := sequence;
      o_monotonic_ms := i_monotonic_ms input; o_length := i_length input;
      o_bytes := take (i_length input) (i_bytes input)
                 ++ replicate (DECK_SERIAL_ROUTER_BLOCK_BYTES - i_length input) 0 |} in
    (Some sequence,
     p <| sp_queues := fmap (M := option) (queue_push b) <$> sp_queues p |> <| sp_last_sequence := sequence |>).

Definition spec_take p (id : Z) :
    deck_serial_router_copy_result_t * option deck_serial_routed_block_t * spec :=
  match spec_find p id with
  | None => (DECK_SERIAL_ROUTER_COPY_INVALID, None, p)
  | Some q =>
      if c_retained (q_config q) then (DECK_SERIAL_ROUTER_COPY_INVALID, None, p)
      else match q_items q with
           | [] => (DECK_SERIAL_ROUTER_COPY_EMPTY, None, p)
           | b :: items =>
               (DECK_SERIAL_ROUTER_COPY_OK, Some b, spec_set p id (Some (q <| q_items := items |>)))
           end
  end.

(** The block after the one numbered [after]; the oldest one, marked as a gap,
    when [after] is no longer retained. *)
Definition spec_copy_after p (id after : Z) :
    deck_serial_router_copy_result_t * option deck_serial_routed_block_t :=
  match spec_find p id with
  | None => (DECK_SERIAL_ROUTER_COPY_INVALID, None)
  | Some q =>
      if negb (c_retained (q_config q)) then (DECK_SERIAL_ROUTER_COPY_INVALID, None)
      else match q_items q with
           | [] => (DECK_SERIAL_ROUTER_COPY_EMPTY, None)
           | oldest :: _ =>
               if after =? 0 then (DECK_SERIAL_ROUTER_COPY_OK, Some oldest)
               else match list_find (fun b => o_sequence b = after) (q_items q) with
                    | None => (DECK_SERIAL_ROUTER_COPY_GAP, Some oldest)
                    | Some (k, _) =>
                        match q_items q !! (k + 1)%nat with
                        | Some b => (DECK_SERIAL_ROUTER_COPY_OK, Some b)
                        | None => (DECK_SERIAL_ROUTER_COPY_EMPTY, None)
                        end
                    end
           end
  end.

Definition spec_clear p (id : Z) : bool * spec :=
  match spec_find p id with
  | None => (false, p)
  | Some q => (true, spec_set p id (Some (q <| q_items := [] |>)))
  end.

Definition spec_unregister p (id : Z) : bool * spec :=
  match spec_find p id with
  | None => (false, p)
  | Some _ => (true, spec_set p id None)
  end.

Definition sink_config_ok (pool_bytes : Z) (c : deck_serial_sink_config_t) : bool :=
  valid_sink_id (c_id c) && negb (c_capacity_bytes c =? 0)
  && (c_capacity_bytes c mod 256 =? 0) && (c_capacity_bytes c <=? pool_bytes)
  && Bool.eqb (c_retained c) (c_id c =? DECK_SERIAL_SINK_HISTORY)
  && (negb (c_id c =? DECK_SERIAL_SINK_HISTORY)
      || (DECK_SERIAL_HISTORY_MIN_BYTES <=? c_capacity_bytes c)).

Definition spec_register p (c : deck_serial_sink_config_t) (allocated : bool) : bool * spec :=
  if sink_config_ok (sp_pool_bytes p) c && bool_decide (spec_find p (c_id c) = None) && allocated
  then (true, spec_set p (c_id c) (Some {|
         q_config := c; q_capacity := Z.to_nat (c_capacity_bytes c / 256); q_items := [] |}))
  else (false, p).

(** ** The abstraction *)

Definition abs_sink r s : option queue :=
  if registered s
  then Some {| q_config := config s; q_capacity := capacity_blocks s;
               q_items := copy_block r <$> ring s |}
  else None.

Definition abs r : spec := {|
  sp_session := session_id r; sp_pool_bytes := pool_capacity_bytes r;
  sp_last_sequence := last_sequence (stats r); sp_queues := abs_sink r <$> sinks r |}.

(** All references the sinks hold. *)
Definition refs (l : list Sink) : list Z := concat (ring <$> l).

Record router_ok r : Prop := {
  ro_pool : pool_ok r (refs (sinks r)) (refs (sinks r));
  ro_size : (0 < pool_blocks r)%nat /\ pool_capacity_bytes r = 256 * Z.of_nat (pool_blocks r);
  ro_four : length (sinks r) = DECK_SERIAL_ROUTER_MAX_SINKS;
  ro_rings : Forall ring_ok (sinks r);
  ro_caps : Forall (fun s => registered s = true -> (capacity_blocks s <= pool_blocks r)%nat) (sinks r);
  ro_stream : exists S, Forall (fun s => ring s `suffix_of` S) (sinks r);
}.

(** ** One sink's front *)

(** What never changes while a sink stays registered. *)
Definition same_sink s s' : Prop :=
  config s' = config s /\ capacity_blocks s' = capacity_blocks s /\ registered s' = registered s.

Lemma same_sink_refl s : same_sink s s.
Proof. done. Qed.

Lemma pool_ok_perm r L L' : L ≡ₚ L' -> pool_ok r L L -> pool_ok r L' L'.
Proof.
  intros Hp. apply pool_ok_ext; [intros i; by rewrite Hp|].
  intros i. symmetry. by apply (Permutation_count_occ Z.eq_dec).
Qed.

Lemma abs_sink_frame r r' s :
  (forall j, j ∈ ring s -> copy_block r' j = copy_block r j) -> abs_sink r' s = abs_sink r s.
Proof.
  intros Hj. unfold abs_sink. case_match; [|done]. do 2 f_equal.
  apply list_fmap_ext. intros k j Hk. apply Hj. by eapply list_elem_of_lookup_2.
Qed.

Lemma remove_front_ok r s P overwritten cleared delivered :
  pool_ok r (ring s ++ P) (ring s ++ P) -> ring_ok s -> registered s = true -> (0 < count s)%nat ->
  let '(r', s') := remove_front r s overwritten cleared delivered in
  pool_ok r' (ring s' ++ P) (ring s' ++ P) /\ same_frame r r'
  /\ (forall j, j ∈ ring s' ++ P -> copy_block r' j = copy_block r j)
  /\ ring_ok s' /\ same_sink s s' /\ ring s' = tail (ring s) /\ count s' = (count s - 1)%nat.
Proof.
  intros Hok Hring Hreg Hc. pose proof (ring_head s Hc Hring Hreg) as Hhead.
  unfold remove_front. rewrite (proj2 (Nat.eqb_neq _ _)) by lia.
  set (s1 := s <| head := _ |> <| count := _ |> <| queued_bytes := _ |>).
  set (s' := if delivered then _ else _).
  assert (ring s' = ring (s <| head := ((head s + 1) mod capacity_blocks s)%nat |>
    <| count := (count s - 1)%nat |>)) as Hs' by (unfold s', s1; by destruct overwritten, cleared, delivered).
  rewrite Hhead in Hok |- *. rewrite <- Hs' in *. simpl in Hok.
  apply release_reference_ok in Hok as (Hok & Hframe & Hcopy).
  split_and!; try done.
  - destruct Hring as [Hr Hf Hh0]. destruct (Hr Hreg) as (Hcap & Hh & Hle & Hlen).
    unfold s', s1. destruct overwritten, cleared, delivered; split; simpl; intros; try congruence;
      split_and!; try done; try lia; apply Nat.mod_upper_bound; lia.
  - unfold s', s1. by destruct overwritten, cleared, delivered.
  - unfold s', s1. by destruct overwritten, cleared, delivered.
Qed.

Lemma clear_loop_ok fuel r s P :
  (count s <= fuel)%nat ->
  pool_ok r (ring s ++ P) (ring s ++ P) -> ring_ok s -> registered s = true ->
  let '(r', s') := clear_loop fuel r s in
  pool_ok r' P P /\ same_frame r r' /\ (forall j, j ∈ P -> copy_block r' j = copy_block r j)
  /\ ring_ok s' /\ same_sink s s' /\ count s' = 0%nat.
Proof.
  revert r s. induction fuel as [|fuel IH]; intros r s Hf Hok Hring Hreg; simpl.
  - rewrite (ring_empty s) in Hok by lia. split_and!; try done. lia.
  - destruct (count s =? 0)%nat eqn:E; bool_prop.
    + rewrite (ring_empty s) in Hok by done. by split_and!.
    + pose proof (remove_front_ok r s P false true false Hok Hring Hreg ltac:(lia)) as Hrm.
      destruct (remove_front r s false true false) as [r1 s1].
      destruct Hrm as (Hok1 & Hfr1 & Hcp1 & Hring1 & (Hcf1 & Hcap1 & Hreg1) & _ & Hc1).
      specialize (IH r1 s1 ltac:(lia) Hok1 Hring1 ltac:(congruence)).
      destruct (clear_loop fuel r1 s1) as [r2 s2].
      destruct IH as (Hok2 & Hfr2 & Hcp2 & Hring2 & (?&?&?) & Hc2).
      split_and!; try done; [by eapply same_frame_trans| |split_and!; congruence].
      intros j Hj. rewrite Hcp2 by done. apply Hcp1. apply elem_of_app. by right.
Qed.

Lemma clear_sink_ok r s P :
  pool_ok r (ring s ++ P) (ring s ++ P) -> ring_ok s -> registered s = true ->
  let '(r', s') := clear_sink_locked r s in
  pool_ok r' P P /\ same_frame r r' /\ (forall j, j ∈ P -> copy_block r' j = copy_block r j)
  /\ ring_ok s' /\ same_sink s s' /\ ring s' = [].
Proof.
  intros Hok Hring Hreg. unfold clear_sink_locked.
  pose proof (clear_loop_ok (count s) r s P (le_n _) Hok Hring Hreg) as Hc.
  destruct (clear_loop (count s) r s) as [r' s'].
  destruct Hc as (? & ? & ? & [Hr Hf Hh0] & Hsame & Hc). split_and!; try done.
  - split; try done. intros Hreg'. destruct (Hr Hreg') as (?&?&?&?). by split_and!.
  - unfold ring. simpl. by rewrite Hc.
Qed.

(** ** Eviction and fan-out *)

Lemma refs_cons s l : refs (s :: l) = ring s ++ refs l.
Proof. done. Qed.

(** What the first loop of [submit] does to a sink's ring. *)
Definition after_eviction s : list Z :=
  if registered s && (count s =? capacity_blocks s)%nat then tail (ring s) else ring s.

Record evicted s s' : Prop := {
  ev_ring : ring s' = after_eviction s;
  ev_same : same_sink s s';
  ev_ok : ring_ok s';
  ev_room : registered s' = true -> (count s' < capacity_blocks s')%nat;
}.

Lemma elem_refs l i : i ∈ refs l <-> exists s, s ∈ l /\ i ∈ ring s.
Proof.
  unfold refs. rewrite list_elem_of_In, in_concat. split.
  - intros (x & Hx%list_elem_of_In & Hi%list_elem_of_In).
    apply list_elem_of_fmap in Hx as (s & -> & Hs). by exists s.
  - intros (s & Hs & Hi). exists (ring s). rewrite <- list_elem_of_In.
    split; [by apply list_elem_of_fmap_2|by apply list_elem_of_In].
Qed.

Lemma evicted_refs l l' j : Forall2 evicted l l' -> j ∈ refs l' -> j ∈ refs l.
Proof.
  induction 1 as [|s s' l l' [Hr _ _ _] _ IH]; [done|].
  rewrite !refs_cons, !elem_of_app, Hr. intros [Hj|Hj]; [left|right; by apply IH].
  unfold after_eviction in Hj. case_match; [|done]. destruct (ring s); [done|by right].
Qed.

Lemma evict_full_ok r l P :
  pool_ok r (P ++ refs l) (P ++ refs l) -> Forall ring_ok l ->
  let '(r', l') := evict_full r l in
  pool_ok r' (P ++ refs l') (P ++ refs l') /\ same_frame r r'
  /\ (forall j, j ∈ P ++ refs l' -> copy_block r' j = copy_block r j) /\ Forall2 evicted l l'.
Proof.
  intros Hok Hl. revert r P Hok. induction Hl as [|s l Hs Hl IH]; intros r P Hok; simpl.
  { by split_and!. }
  rewrite refs_cons in Hok.
  destruct (registered s && (count s =? capacity_blocks s)%nat) eqn:E.
  - bool_prop. destruct (rg_registered _ Hs ltac:(done)) as (Hcap & _).
    assert (pool_ok r (ring s ++ P ++ refs l) (ring s ++ P ++ refs l)) as Hok1
      by (eapply pool_ok_perm; [|exact Hok]; by rewrite Permutation_app_swap_app).
    pose proof (remove_front_ok r s _ true false false Hok1 Hs ltac:(done) ltac:(lia)) as Hrm.
    destruct (remove_front r s true false false) as [r1 s1].
    destruct Hrm as (Hok2 & Hfr1 & Hcp1 & Hs1 & Hsame1 & Hring1 & Hc1).
    specialize (IH r1 (P ++ ring s1)). destruct (evict_full r1 l) as [r2 l2].
    destruct IH as (Hok3 & Hfr2 & Hcp2 & Hev).
    { eapply pool_ok_perm; [|exact Hok2]. rewrite Permutation_app_swap_app. by rewrite <- app_assoc. }
    rewrite refs_cons, app_assoc. split_and!; [done|by eapply same_frame_trans| |].
    + intros j Hj. rewrite Hcp2 by done. apply Hcp1.
      rewrite <- app_assoc in Hj. rewrite !elem_of_app in *.
      pose proof (evicted_refs _ _ j Hev). tauto.
    + constructor; [|done]. destruct Hsame1 as (?&?&?). split; try done.
      * unfold after_eviction. rewrite (proj2 (andb_true_iff _ _)); [done|].
        by rewrite (proj2 (Nat.eqb_eq _ _)).
      * intros _. destruct (rg_registered _ Hs ltac:(done)). lia.
  - specialize (IH r (P ++ ring s)). destruct (evict_full r l) as [r2 l2].
    destruct IH as (Hok3 & Hfr2 & Hcp2 & Hev); [by rewrite <- app_assoc|].
    rewrite refs_cons, app_assoc. split_and!; try done. constructor; [|done].
    split; try done.
    + unfold after_eviction. by rewrite E.
    + intros Hreg. rewrite Hreg in E. simpl in E. bool_prop.
      destruct (rg_registered _ Hs Hreg) as (_&_&?&_). lia.
Qed.

Definition pushed i (length : nat) s : Sink :=
  if registered s then push_block s i length else s.

Definition registered_count (l : list Sink) : nat :=
  length (filter (fun s => registered s = true) l).

Lemma fan_out_spec l i n c :
  0 <= c -> c + Z.of_nat (length l) <= 255 ->
  fan_out l i n c = (pushed i n <$> l, c + Z.of_nat (registered_count l)).
Proof.
  revert c. induction l as [|s l IH]; intros c Hc Hlen; simpl in *; [f_equal; unfold registered_count; simpl; lia|].
  unfold registered_count, pushed at 1. rewrite filter_cons.
  destruct (registered s); simpl.
  - rewrite u8_id by words. rewrite IH by lia. f_equal. unfold registered_count. lia.
  - rewrite IH by lia. done.
Qed.

Lemma pushed_ok i n s :
  ring_ok s -> (registered s = true -> (count s < capacity_blocks s)%nat) ->
  ring_ok (pushed i n s) /\ same_sink s (pushed i n s)
  /\ ring (pushed i n s) = if registered s then ring s ++ [i] else ring s.
Proof.
  intros Hs Hroom. unfold pushed. destruct (registered s) eqn:Hreg; [|done].
  split_and!; [|done|by apply ring_push; auto].
  destruct Hs as [Hr Hf Hh0]. destruct (Hr Hreg) as (?&?&?&?). specialize (Hroom eq_refl).
  split; simpl; [intros _; split_and!; try done; [lia|by rewrite length_insert]|congruence..].
Qed.

Lemma count_refs_pushed i n l j :
  Forall (fun s => ring_ok s /\ (registered s = true -> (count s < capacity_blocks s)%nat)) l ->
  count_occ Z.eq_dec (refs (pushed i n <$> l)) j =
  (count_occ Z.eq_dec (refs l) j + (if decide (j = i) then registered_count l else 0))%nat.
Proof.
  induction 1 as [|s l [Hs Hroom] Hl IH]; [by case_decide|].
  rewrite fmap_cons, !refs_cons, !count_occ_app, IH.
  rewrite (proj2 (proj2 (pushed_ok i n s Hs Hroom))).
  unfold registered_count. rewrite filter_cons. destruct (registered s); simpl; [|case_decide; lia].
  rewrite count_occ_app. simpl. destruct (Z.eq_dec i j), (decide (j = i)); simpl; congruence || lia.
Qed.

(** ** The pool is never exhausted *)

Lemma longest_suffix {A} (ls : list (list A)) S :
  Forall (fun l => l `suffix_of` S) ls ->
  exists m, (m = [] \/ m ∈ ls) /\ m `suffix_of` S /\ Forall (fun l => l `suffix_of` m) ls.
Proof.
  induction 1 as [|l ls Hl Hls IH].
  - exists []. split_and!; [by left|apply suffix_nil|constructor].
  - destruct IH as (m & Hm & HmS & Hall). destruct (suffix_weak_total l m S Hl HmS) as [Hs|Hs].
    + exists m. split_and!; [|done|by constructor]. rewrite elem_of_cons. tauto.
    + exists l. split_and!; [right; by apply list_elem_of_here|done|]. constructor; [done|].
      eapply Forall_impl; [exact Hall|]. intros x Hx; simpl in *. by transitivity m.
Qed.

Lemma room_in_pool r l S :
  pool_ok r (refs l) (refs l) -> (0 < pool_blocks r)%nat ->
  Forall (fun s => registered s = true -> (count s < pool_blocks r)%nat) l ->
  Forall ring_ok l -> Forall (fun s => ring s `suffix_of` S) l ->
  free_head r <> kNoBlock.
Proof.
  intros Hok Hpos Hcount Hrings Hsuf.
  destruct (longest_suffix (ring <$> l) S) as (m & Hm & _ & Hall); [by apply Forall_fmap|].
  assert (length m < pool_blocks r)%nat as Hlen.
  { destruct Hm as [->|Hm]; [done|]. apply list_elem_of_fmap in Hm as (s & -> & Hs).
    rewrite Forall_forall in Hcount, Hrings. rewrite length_ring.
    destruct (registered s) eqn:Hreg; [by apply Hcount|].
    by rewrite (rg_free s (Hrings s Hs) Hreg). }
  destruct (some_index_missing m _ Hlen) as (i & Hi & Hni).
  eapply free_head_available; [done|exact Hi|]. rewrite elem_refs. intros (s & Hs & Hin).
  rewrite Forall_fmap, Forall_forall in Hall. destruct (Hall s Hs) as [k Hk]. simpl in Hk.
  apply Hni. rewrite Hk, elem_of_app. by right.
Qed.

(** ** Submission *)

Lemma registered_count_zero l : registered_count l = 0%nat -> Forall (fun s => registered s = false) l.
Proof.
  unfold registered_count. induction l as [|s l IH]; [constructor|]. rewrite filter_cons.
  destruct (registered s) eqn:E; simpl; [done|]. intros. by constructor; auto.
Qed.

Lemma pushed_none i n l :
  Forall (fun s => registered s = false) l -> pushed i n <$> l = l.
Proof. induction 1 as [|s l Hs _ IH]; [done|]. rewrite fmap_cons, IH. unfold pushed. by rewrite Hs. Qed.

Lemma registered_count_le l : (registered_count l <= length l)%nat.
Proof. unfold registered_count. apply length_filter. Qed.

(** The pool once the block has its references, or was returned unused. *)
Lemma referenced_pool_ok r l i n :
  pool_ok r (i :: refs l) (refs l) -> in_pool r i -> i ∉ refs l -> (length l <= 4)%nat ->
  Forall (fun s => ring_ok s /\ (registered s = true -> (count s < capacity_blocks s)%nat)) l ->
  let c := Z.of_nat (registered_count l) in
  let l' := pushed i n <$> l in
  let r' := if c =? 0 then return_block (with_references r i c) i else with_references r i c in
  pool_ok r' (refs l') (refs l')
  /\ (c <> 0 -> copy_block r' i = copy_block r i)
  /\ (forall j, j ∈ refs l -> copy_block r' j = copy_block r j).
Proof.
  intros Hok Hi Hni Hlen Hl c l' r'. pose proof (registered_count_le l).
  assert (count_occ Z.eq_dec (refs l) i = 0%nat) as Hz
    by (apply count_occ_not_In; by rewrite <- list_elem_of_In).
  assert (forall j, count_occ Z.eq_dec (refs l') j =
    (count_occ Z.eq_dec (refs l) j + (if decide (j = i) then registered_count l else 0))%nat) as Hcnt
    by (intros; by apply count_refs_pushed).
  assert (c = Z.of_nat (count_occ Z.eq_dec (refs l') i)) as Hc
    by (unfold c; rewrite Hcnt, decide_True by done; lia).
  pose proof Hok as [_ Hm Hp Hrange _ Hfew _ _ _].
  assert (pool_ok (with_references r i c) (i :: refs l) (refs l')) as Hok'.
  { rewrite Hc. eapply with_references_ok; [done|done| |].
    - intros j. rewrite Hcnt. specialize (Hfew j). case_decide; subst; lia.
    - intros j Hj. rewrite Hcnt, decide_False by done. lia. }
  assert (length (metadata (with_references r i c)) = pool_blocks r) as Hm'
    by (unfold with_references; cbn; by rewrite length_insert).
  assert (forall j, j ∈ refs l -> in_pool r j) as Hin.
  { apply Forall_cons in Hrange as [_ Hrange]. by rewrite <- Forall_forall. }
  unfold r'. destruct (c =? 0) eqn:Ec; bool_prop.
  - assert (l' = l) as -> by (apply pushed_none, registered_count_zero; lia).
    split_and!; [by apply return_block_ok|done|].
    intros j Hj. rewrite copy_block_return by (first [done | by apply Hin | by intros ->]).
    by rewrite copy_block_with_references by auto.
  - split_and!.
    + eapply pool_ok_ext; [|done|exact Hok']. intros j. rewrite elem_of_cons.
      rewrite !count_occ_elem, Hcnt. case_decide; subst; [split; [by left|lia]|].
      rewrite Nat.add_0_r. tauto.
    + intros _. by apply copy_block_with_references.
    + intros j Hj. by rewrite copy_block_with_references by auto.
Qed.

Definition input_ok (input : deck_serial_input_block_t) : Prop :=
  length (i_bytes input) = DECK_SERIAL_ROUTER_BLOCK_BYTES.

(** A registered sink that made room, after the push, is the pushed queue. *)
Lemma abs_pushed r rf s s1 i n b :
  evicted s s1 -> ring_ok s ->
  (registered s1 = true -> copy_block rf i = b) ->
  (forall j, j ∈ ring s1 -> copy_block rf j = copy_block r j) ->
  abs_sink rf (pushed i n s1) = queue_push b <$> abs_sink r s.
Proof.
  intros [Hring (Hcfg & Hcap & Hreg) Hok1 Hroom] Hok Hb Hold.
  destruct (pushed_ok i n s1 Hok1 Hroom) as (_ & (Hcfg' & Hcap' & Hreg') & Hring').
  unfold abs_sink. rewrite Hreg', Hring', Hcfg', Hcap', Hreg. rewrite Hreg in Hb, Hroom.
  destruct (registered s) eqn:E; [|done]. simpl. unfold queue_push. simpl. f_equal.
  rewrite Hcfg, Hcap. f_equal. rewrite fmap_app. simpl. rewrite (Hb eq_refl). f_equal.
  rewrite length_fmap, length_ring. unfold after_eviction in Hring. rewrite E in Hring. simpl in Hring.
  assert (copy_block rf <$> ring s1 = copy_block r <$> ring s1) as ->
    by (apply list_fmap_ext; intros k j Hk; apply Hold; by eapply list_elem_of_lookup_2).
  rewrite Hring. destruct (count s =? capacity_blocks s)%nat; [|done]. by destruct (ring s).
Qed.

Lemma tail_suffix {A} (l : list A) : tail l `suffix_of` l.
Proof. destruct l; [done|]. by apply suffix_cons_r. Qed.

(** The state after the first loop: there is room, and a free block. *)
Lemma evicted_router r :
  router_ok r ->
  let '(r1, l1) := evict_full r (sinks r) in
  let r2 := r1 <| sinks := l1 |> in
  pool_ok r2 (refs l1) (refs l1) /\ same_frame r r1 /\ Forall2 evicted (sinks r) l1
  /\ Forall (fun s => ring_ok s /\ (registered s = true -> (count s < capacity_blocks s)%nat)) l1
  /\ Forall (fun s => registered s = true -> (capacity_blocks s <= pool_blocks r)%nat) l1
  /\ (exists str, Forall (fun s => ring s `suffix_of` str) l1)
  /\ (forall j, j ∈ refs l1 -> copy_block r2 j = copy_block r j)
  /\ free_head r2 <> kNoBlock.
Proof.
  intros [Hpool [Hpos _] Hfour Hrings Hcaps [str Hstream]].
  pose proof (evict_full_ok r (sinks r) [] Hpool Hrings) as Hev.
  destruct (evict_full r (sinks r)) as [r1 l1].
  destruct Hev as (Hpool1 & Hframe & Hcp1 & Hev). simpl app in *. cbv zeta.
  assert (pool_ok (r1 <| sinks := l1 |>) (refs l1) (refs l1)) as Hpool2
    by by eapply pool_ok_same_pool; [..|exact Hpool1].
  assert (Forall (fun s => ring_ok s /\ (registered s = true -> (count s < capacity_blocks s)%nat)) l1)
    as Hroom1 by (eapply Forall2_Forall_r; [exact Hev|]; apply Forall_true; by intros ?? []).
  assert (Forall (fun s => ring s `suffix_of` str) l1) as Hstream1.
  { eapply Forall2_Forall_r; [exact Hev|]. eapply Forall_impl; [exact Hstream|].
    intros s Hs s' [-> _ _ _]. unfold after_eviction. simpl in Hs.
    case_match; [|done]. transitivity (ring s); [apply tail_suffix|done]. }
  assert (Forall (fun s => registered s = true -> (capacity_blocks s <= pool_blocks r)%nat) l1) as Hcaps1.
  { eapply Forall2_Forall_r; [exact Hev|]. eapply Forall_impl; [exact Hcaps|].
    intros s Hs s' [_ (_ & -> & ->) _ _]. done. }
  split_and!; try done; [by exists str|].
  destruct Hframe as (_ & _ & Hn1 & _).
  eapply (room_in_pool _ l1 str); try done.
  - cbn. by rewrite Hn1.
  - cbn. rewrite Hn1. rewrite Forall_forall in *. intros s Hs Hreg.
    destruct (Hroom1 s Hs) as [_ Hlt]. specialize (Hlt Hreg). specialize (Hcaps1 s Hs Hreg). lia.
  - eapply Forall_impl; [exact Hroom1|]. by intros ? [].
Qed.

(** The invariant after the fan-out, for any router with the resulting pool. *)
Lemma pushed_router_ok r rf l1 i n :
  router_ok r -> Forall2 evicted (sinks r) l1 ->
  Forall (fun s => ring_ok s /\ (registered s = true -> (count s < capacity_blocks s)%nat)) l1 ->
  Forall (fun s => registered s = true -> (capacity_blocks s <= pool_blocks r)%nat) l1 ->
  (exists str, Forall (fun s => ring s `suffix_of` str) l1) ->
  sinks rf = pushed i n <$> l1 -> pool_ok rf (refs (sinks rf)) (refs (sinks rf)) ->
  pool_blocks rf = pool_blocks r -> pool_capacity_bytes rf = pool_capacity_bytes r ->
  router_ok rf.
Proof.
  intros [_ [Hpos Hbytes] Hfour _ _ _] Hev Hroom Hcaps [str Hstr] Hsinks Hpool Hn Hc.
  split; rewrite ?Hn, ?Hc, ?Hsinks; try done.
  - rewrite Hsinks in Hpool. done.
  - rewrite length_fmap. by rewrite <- (Forall2_length _ _ _ Hev).
  - apply Forall_fmap. eapply Forall_impl; [exact Hroom|].
    intros s [Hs Hlt]. by apply pushed_ok.
  - apply Forall_fmap. rewrite Forall_forall in *. intros s Hs. simpl. unfold pushed.
    specialize (Hcaps s Hs). destruct (registered s) eqn:E; simpl; intros; auto; congruence.
  - exists (str ++ [i]). apply Forall_fmap. rewrite Forall_forall in *. intros s Hs. simpl.
    destruct (Hroom s Hs) as [Hok Hlt]. destruct (pushed_ok i n s Hok Hlt) as (_ & _ & ->).
    destruct (registered s) eqn:E; [by apply suffix_app, Hstr|].
    rewrite (ring_empty s) by (by apply (rg_free s Hok)). apply suffix_nil.
Qed.

Lemma submit_ok r input :
  router_ok r -> input_ok input ->
  exists r', deck_serial_router_submit r input = ((spec_submit (abs r) input).1, r')
    /\ router_ok r' /\ abs r' = (spec_submit (abs r) input).2.
Proof.
  intros Hr Hin. pose proof (evicted_router r Hr) as Hev.
  unfold deck_serial_router_submit, spec_submit.
  destruct (_ || _) eqn:Hlen; [by exists r|]. bool_prop.
  destruct (evict_full r (sinks r)) as [r1 l1]. cbv zeta in Hev.
  destruct Hev as (Hpool2 & (Hs1 & Hpb1 & Hn1 & _ & Hst1) & Hev & Hroom & Hcaps & Hstr & Hcp2 & Hfree).
  set (r2 := r1 <| sinks := l1 |>) in *. cbv zeta.
  rewrite (proj2 (Z.eqb_neq _ _) Hfree).
  unfold input_ok in Hin.
  destruct (fill_block_ok r2 (refs l1) input Hpool2 Hfree ltac:(lia) ltac:(lia))
    as (Hpool3 & (Hs3 & Hpb3 & Hn3 & Hsk3 & Hst3) & Hnew & Hold3).
  destruct (free_head_ok _ _ _ Hpool2 Hfree) as [Hi Hni]. set (i := free_head r2) in *.
  set (r3 := fill_block r2 i input) in *.
  assert (length l1 = 4%nat) as Hl1
    by (rewrite <- (Forall2_length _ _ _ Hev); apply (ro_four _ Hr)).
  change (sinks r3) with l1. rewrite fan_out_spec by lia. rewrite Z.add_0_l.
  set (c := Z.of_nat (registered_count l1)).
  destruct (referenced_pool_ok r3 l1 i (i_length input)) as (Hpool5 & Hi5 & Hold5);
    [done|by unfold in_pool; rewrite Hn3|done|lia|done|]. fold c in Hpool5, Hi5, Hold5.
  set (r5 := if c =? 0 then _ else _) in Hpool5, Hi5, Hold5.
  assert (b_sequence (block r3 i) = next_nonzero (last_sequence (stats r))) as Hseq.
  { apply (f_equal o_sequence) in Hnew. simpl in Hnew. by rewrite Hst1 in Hnew. }
  eexists. split; [apply (f_equal2 pair); [exact (f_equal Some Hseq)|reflexivity]|].
  set (rf := if c =? 0 then _ else _).
  assert (sinks rf = pushed i (i_length input) <$> l1) as Hsf by (unfold rf; by destruct (c =? 0)).
  assert (forall j, copy_block rf j = copy_block r5 j) as Hcf
    by (intros; unfold rf, r5; by destruct (c =? 0)).
  assert (pool_blocks rf = pool_blocks r /\ pool_capacity_bytes rf = pool_capacity_bytes r
    /\ session_id rf = session_id r) as (Hnf & Hbf & Hidf) by (unfold rf; by destruct (c =? 0)).
  assert (last_sequence (stats rf) = next_nonzero (last_sequence (stats r))) as Hlf
    by (rewrite <- Hseq; unfold rf; by destruct (c =? 0)).
  split.
  - eapply pushed_router_ok; try done. rewrite Hsf. eapply pool_ok_same_pool; [..|exact Hpool5];
      unfold rf, r5; by destruct (c =? 0).
  - assert (forall j, j ∈ refs l1 -> in_pool r2 j) as Hin2
      by (intros j; pose proof (pk_range _ _ _ Hpool2) as Hrg; rewrite Forall_forall in Hrg; auto).
    assert (forall j, j ∈ refs l1 -> copy_block rf j = copy_block r j) as Holdf.
    { intros j Hj. rewrite Hcf, Hold5, Hold3 by (done || auto || by intros ->). by apply Hcp2. }
    assert (c <> 0 -> copy_block rf i = filled_block r input) as Hif.
    { intros Hc. rewrite Hcf, Hi5, Hnew by done. unfold filled_block. simpl. by rewrite Hs1, Hst1. }
    unfold abs at 1. rewrite Hidf, Hbf, Hlf, Hsf. unfold abs. simpl. unfold set_field. f_equal.
    cbn [sp_queues]. fold (filled_block r input).
    apply list_eq. intros k. rewrite !list_lookup_fmap. destruct (sinks r !! k) as [s|] eqn:Hk.
    + destruct (Forall2_lookup_l _ _ _ _ _ Hev Hk) as (s1 & Hk1 & Hs). rewrite Hk1. simpl.
      pose proof (list_elem_of_lookup_2 _ _ _ Hk1) as Hs1in. f_equal.
      eapply abs_pushed; [done| | |].
      * eapply Forall_lookup_1; [apply (ro_rings _ Hr)|exact Hk].
      * intros Hreg. apply Hif. intros Hc0.
        assert (Forall (fun s => registered s = false) l1) as Hnone
          by (apply registered_count_zero; lia).
        rewrite Forall_forall in Hnone. specialize (Hnone s1 Hs1in). congruence.
      * intros j Hj. apply Holdf, elem_refs. by exists s1.
    + apply lookup_ge_None_1 in Hk. rewrite (Forall2_length _ _ _ Hev) in Hk.
      by rewrite lookup_ge_None_2.
Qed.

(** ** Operations on one sink *)

Lemma refs_split l k s : l !! k = Some s -> refs l ≡ₚ ring s ++ refs (delete k l).
Proof.
  intros Hk. rewrite <- (take_drop_middle l k s Hk) at 1.
  rewrite delete_take_drop. unfold refs. rewrite !fmap_app, fmap_cons, !concat_app. simpl.
  by rewrite Permutation_app_swap_app.
Qed.

Lemma refs_insert l k s s' :
  l !! k = Some s -> refs (<[k:=s']> l) ≡ₚ ring s' ++ refs (delete k l).
Proof.
  intros Hk. pose proof (lookup_lt_Some _ _ _ Hk).
  rewrite (refs_split (<[k:=s']> l) k s') by (by apply list_lookup_insert_eq).
  by rewrite !delete_take_drop, take_insert_ge, drop_insert_lt by lia.
Qed.

Lemma delete_elem (l : list Sink) k s : s ∈ delete k l -> exists k', l !! k' = Some s /\ k' <> k.
Proof.
  intros (k' & Hk')%list_elem_of_lookup. destruct (decide (k' < k)%nat).
  - exists k'. rewrite list_lookup_delete_lt in Hk' by done. split; [done|lia].
  - exists (S k'). rewrite list_lookup_delete_ge in Hk' by lia. split; [done|lia].
Qed.

(** Storing a sink back, its ring a suffix of the old one, into a router whose
    pool holds the remaining references. *)
Lemma store_sink_ok r r' id s s' :
  router_ok r -> sinks r !! Z.to_nat id = Some s -> same_frame r r' ->
  pool_ok r' (ring s' ++ refs (delete (Z.to_nat id) (sinks r)))
    (ring s' ++ refs (delete (Z.to_nat id) (sinks r))) ->
  (forall j, j ∈ refs (delete (Z.to_nat id) (sinks r)) -> copy_block r' j = copy_block r j) ->
  ring_ok s' -> (registered s' = true -> (capacity_blocks s' <= pool_blocks r)%nat) ->
  ring s' `suffix_of` ring s ->
  router_ok (set_sink r' id s')
  /\ abs (set_sink r' id s') = spec_set (abs r) id (abs_sink r' s').
Proof.
  intros [_ [Hpos Hbytes] Hfour Hrings Hcaps [str Hstr]] Hk (Hid & Hb & Hn & Hsk & Hst) Hpool Hcp
    Hs' Hcap' Hsuf.
  assert (sinks (set_sink r' id s') = <[Z.to_nat id := s']> (sinks r)) as Hsinks
    by (unfold set_sink; simpl; by rewrite Hsk).
  split.
  - split; rewrite ?Hsinks.
    + eapply pool_ok_perm; [symmetry; by apply (refs_insert _ _ s)|].
      by eapply pool_ok_same_pool; [..|exact Hpool].
    + cbn. by rewrite Hn, Hb.
    + by rewrite length_insert.
    + by apply Forall_insert.
    + apply Forall_insert; [|cbn; by rewrite Hn]. cbn. by rewrite Hn.
    + exists str. apply Forall_insert; [done|]. transitivity (ring s); [done|].
      eapply (Forall_lookup_1 _ _ _ _ Hstr Hk).
  - unfold abs, spec_set. rewrite Hsinks. cbn. unfold set_field. rewrite Hid, Hb, Hst. f_equal.
    cbn [sp_queues]. apply list_eq. intros k. rewrite list_lookup_fmap.
    pose proof (lookup_lt_Some _ _ _ Hk) as Hlt.
    destruct (decide (k = Z.to_nat id)) as [->|Hne].
    + by rewrite !list_lookup_insert_eq by (rewrite ?length_fmap; done).
    + rewrite !list_lookup_insert_ne by done. rewrite list_lookup_fmap.
      destruct (sinks r !! k) as [s1|] eqn:Hk1; [|done]. simpl. f_equal.
      apply (abs_sink_frame r). intros j Hj. apply Hcp, elem_refs.
      exists s1. split; [|done]. apply list_elem_of_lookup.
      destruct (decide (k < Z.to_nat id)%nat).
      * exists k. by rewrite list_lookup_delete_lt.
      * exists (k - 1)%nat. rewrite list_lookup_delete_ge by lia. by replace (S (k - 1)) with k by lia.
Qed.

Lemma find_sink_spec r id :
  spec_find (abs r) id = find_sink r id ≫= abs_sink r.
Proof.
  unfold spec_find, find_sink. destruct (valid_sink_id id); simpl; [|done].
  rewrite list_lookup_fmap. destruct (sinks r !! Z.to_nat id) as [s|]; simpl; [|done].
  unfold abs_sink. destruct (registered s) eqn:E; simpl; [by rewrite E|done].
Qed.

Lemma find_sink_Some r id s :
  find_sink r id = Some s -> sinks r !! Z.to_nat id = Some s /\ registered s = true.
Proof.
  unfold find_sink. destruct (valid_sink_id id); simpl; [|done].
  destruct (sinks r !! Z.to_nat id) as [s'|]; simpl; [|done].
  destruct (registered s') eqn:E; [|done]. by intros [= ->].
Qed.

Lemma abs_registered r s :
  registered s = true ->
  abs_sink r s = Some {| q_config := config s; q_capacity := capacity_blocks s;
                         q_items := copy_block r <$> ring s |}.
Proof. unfold abs_sink. by intros ->. Qed.

(** What every operation on a found sink starts from. *)
Lemma found_sink r id s :
  router_ok r -> find_sink r id = Some s ->
  sinks r !! Z.to_nat id = Some s /\ registered s = true /\ ring_ok s
  /\ (capacity_blocks s <= pool_blocks r)%nat
  /\ let P := refs (delete (Z.to_nat id) (sinks r)) in pool_ok r (ring s ++ P) (ring s ++ P).
Proof.
  intros [Hpool _ _ Hrings Hcaps _] (Hk & Hreg)%find_sink_Some.
  split_and!; try done.
  - by apply (Forall_lookup_1 _ _ _ _ Hrings Hk).
  - by apply (Forall_lookup_1 _ _ _ _ Hcaps Hk).
  - eapply pool_ok_perm; [|exact Hpool]. by apply refs_split.
Qed.

Lemma take_ok r id :
  router_ok r ->
  exists r', deck_serial_router_take r id
    = ((spec_take (abs r) id).1, r') /\ router_ok r' /\ abs r' = (spec_take (abs r) id).2.
Proof.
  intros Hr. unfold deck_serial_router_take, spec_take. rewrite find_sink_spec.
  destruct (find_sink r id) as [s|] eqn:Hf; simpl; [|by exists r].
  destruct (found_sink r id s Hr Hf) as (Hk & Hreg & Hok & Hcap & Hpool). cbv zeta in Hpool.
  rewrite abs_registered by done. simpl. destruct (c_retained (config s)); [by exists r|].
  destruct (count s =? 0)%nat eqn:Hc; bool_prop.
  { rewrite ring_empty by done. by exists r. }
  pose proof (ring_head s ltac:(lia) Hok Hreg) as Hhead.
  pose proof (remove_front_ok r s _ false false true Hpool Hok Hreg ltac:(lia)) as Hrm.
  destruct (remove_front r s false false true) as [r' s'].
  destruct Hrm as (Hpool' & Hframe & Hcp & Hok' & (Hcf' & Hcap' & Hreg') & Hring' & _).
  assert (ring s = sink_block_at s 0 :: ring s') as Hrs.
  { rewrite Hring', Hhead. simpl. f_equal. unfold sink_block_at.
    destruct (rg_registered _ Hok Hreg) as (?&?&_). by rewrite Nat.add_0_r, Nat.mod_small. }
  rewrite Hrs. simpl. eexists. split; [done|].
  destruct (store_sink_ok r r' id s s') as [Hro Habs]; try done.
  - intros j Hj. apply Hcp. apply elem_of_app. by right.
  - by rewrite Hcap'.
  - rewrite Hring'. apply tail_suffix.
  - split; [done|]. rewrite Habs. unfold spec_set. do 3 f_equal.
    rewrite abs_registered by congruence. unfold set_field. rewrite Hcf', Hcap'. do 2 f_equal. simpl.
    apply list_fmap_ext. intros k j Hj. apply Hcp. apply elem_of_app. left.
    by eapply list_elem_of_lookup_2.
Qed.

Lemma clear_sink_correct r id :
  router_ok r ->
  exists r', deck_serial_router_clear_sink r id = ((spec_clear (abs r) id).1, r')
    /\ router_ok r' /\ abs r' = (spec_clear (abs r) id).2.
Proof.
  intros Hr. unfold deck_serial_router_clear_sink, spec_clear. rewrite find_sink_spec.
  destruct (find_sink r id) as [s|] eqn:Hf; simpl; [|by exists r].
  destruct (found_sink r id s Hr Hf) as (Hk & Hreg & Hok & Hcap & Hpool).
  rewrite abs_registered by done. simpl.
  pose proof (clear_sink_ok r s _ Hpool Hok Hreg) as Hc.
  destruct (clear_sink_locked r s) as [r' s'].
  destruct Hc as (Hpool' & Hframe & Hcp & Hok' & (Hcf' & Hcap' & Hreg') & Hring').
  eexists. split; [done|].
  destruct (store_sink_ok r r' id s s') as [Hro Habs]; try done.
  - by rewrite Hring'.
  - by rewrite Hcap'.
  - rewrite Hring'. apply suffix_nil.
  - split; [done|]. rewrite Habs, abs_registered by congruence.
    unfold set_field. by rewrite Hcf', Hcap', Hring'.
Qed.

Lemma ring_ok_empty : ring_ok empty_sink.
Proof. by split. Qed.

Lemma unregister_correct r id :
  router_ok r ->
  exists r', deck_serial_router_unregister_sink r id = ((spec_unregister (abs r) id).1, r')
    /\ router_ok r' /\ abs r' = (spec_unregister (abs r) id).2.
Proof.
  intros Hr. unfold deck_serial_router_unregister_sink, spec_unregister. rewrite find_sink_spec.
  destruct (find_sink r id) as [s|] eqn:Hf; simpl; [|by exists r].
  destruct (found_sink r id s Hr Hf) as (Hk & Hreg & Hok & Hcap & Hpool).
  rewrite abs_registered by done. simpl.
  pose proof (clear_sink_ok r s _ Hpool Hok Hreg) as Hc.
  destruct (clear_sink_locked r s) as [r' s'].
  destruct Hc as (Hpool' & Hframe & Hcp & _).
  eexists. split; [done|].
  destruct (store_sink_ok r r' id s empty_sink) as [Hro Habs]; try done.
  apply suffix_nil.
Qed.

Lemma sink_config_guard r c :
  (negb (valid_sink_id (c_id c)) || (c_capacity_bytes c =? 0)
     || negb (c_capacity_bytes c mod Z.of_nat DECK_SERIAL_ROUTER_BLOCK_BYTES =? 0)
     || (pool_capacity_bytes r <? c_capacity_bytes c)
     || negb (Bool.eqb (c_retained c) (c_id c =? DECK_SERIAL_SINK_HISTORY))
     || ((c_id c =? DECK_SERIAL_SINK_HISTORY) && (c_capacity_bytes c <? DECK_SERIAL_HISTORY_MIN_BYTES)))
  = negb (sink_config_ok (pool_capacity_bytes r) c).
Proof.
  unfold sink_config_ok. change (Z.of_nat DECK_SERIAL_ROUTER_BLOCK_BYTES) with 256.
  rewrite !negb_andb, !negb_involutive, !negb_orb, negb_involutive, !Z.leb_antisym, !negb_involutive.
  done.
Qed.

(** An unregistered sink of a valid id holds nothing. *)
Lemma register_correct r c allocated :
  router_ok r -> is_u64 (c_capacity_bytes c) -> is_u32 (c_id c) ->
  exists r', deck_serial_router_register_sink r c allocated
      = ((spec_register (abs r) c allocated).1, r')
    /\ router_ok r' /\ abs r' = (spec_register (abs r) c allocated).2.
Proof.
  intros Hr Hu Hid. unfold deck_serial_router_register_sink, spec_register.
  rewrite sink_config_guard. simpl (sp_pool_bytes (abs r)).
  destruct (sink_config_ok (pool_capacity_bytes r) c) eqn:Hcfg; simpl; [|by exists r].
  unfold sink_config_ok in Hcfg. bool_prop.
  assert (valid_sink_id (c_id c) = true) as Hvalid by done.
  destruct (sinks r !! Z.to_nat (c_id c)) as [s|] eqn:Hk.
  2: { exfalso. apply lookup_ge_None_1 in Hk. rewrite (ro_four _ Hr) in Hk.
       unfold valid_sink_id, DECK_SERIAL_ROUTER_MAX_SINKS in *. bool_prop.
       rewrite u32_id in * by done. words. }
  rewrite find_sink_spec.
  assert (find_sink r (c_id c) = if registered s then Some s else None) as ->
    by (unfold find_sink; rewrite Hvalid; simpl; by rewrite Hk).
  pose proof Hr as [Hpool [Hpos Hbytes] _ Hrings _ _].
  pose proof (Forall_lookup_1 _ _ _ _ Hrings Hk) as Hok.
  destruct (registered s) eqn:Hreg; simpl.
  { rewrite abs_registered by done. rewrite bool_decide_eq_false_2 by done. by exists r. }
  destruct allocated; simpl; [|by exists r].
  change (Z.of_nat DECK_SERIAL_ROUTER_BLOCK_BYTES) with 256.
  set (n := Z.to_nat (c_capacity_bytes c / 256)). set (s' := s <| config := c |> <| blocks := _ |>
    <| capacity_blocks := n |> <| registered := true |>).
  pose proof (rg_free _ Hok Hreg) as Hc0.
  assert (0 < c_capacity_bytes c / 256) as Hn by (unfold is_u64 in *; Z.div_mod_to_equations; lia).
  assert (ring s' = []) as Hring' by (by apply ring_empty).
  assert (ring s = []) as Hring by (by apply ring_empty).
  assert ((n <= pool_blocks r)%nat /\ (0 < n)%nat) as [Hle Hn0]
    by (unfold n; Z.div_mod_to_equations; lia).
  eexists. split; [done|].
  destruct (store_sink_ok r r (c_id c) s s') as [Hro Habs]; try done.
  - rewrite Hring'. eapply pool_ok_perm; [|exact Hpool].
    etransitivity; [exact (refs_split _ _ _ Hk)|by rewrite Hring].
  - split; try done. intros _. simpl. rewrite length_replicate, Hc0, (rg_head _ Hok Hreg).
    split_and!; lia.
  - by rewrite Hring', Hring.
  - split; [done|]. rewrite Habs. f_equal. unfold abs_sink. simpl. by rewrite Hring'.
Qed.

(** Statistics are invisible to the abstract router and its invariant. *)
Lemma store_stats_ok r id s s' :
  router_ok r -> sinks r !! Z.to_nat id = Some s ->
  same_sink s s' -> ring s' = ring s -> ring_ok s' ->
  router_ok (set_sink r id s') /\ abs (set_sink r id s') = abs r.
Proof.
  intros Hr Hk (Hcf & Hcap & Hreg) Hring Hok. pose proof Hr as [Hpool _ _ _ Hcaps _].
  destruct (store_sink_ok r r id s s') as [Hro Habs]; try done.
  - rewrite Hring. eapply pool_ok_perm; [by apply refs_split|done].
  - rewrite Hcap, Hreg. by apply (Forall_lookup_1 _ _ _ _ Hcaps Hk).
  - by rewrite Hring.
  - split; [done|]. rewrite Habs. unfold spec_set, abs. cbn. unfold set_field. f_equal.
    cbn [sp_queues]. apply list_insert_id. rewrite list_lookup_fmap, Hk. simpl. f_equal.
    unfold abs_sink. by rewrite Hcf, Hcap, Hreg, Hring.
Qed.

Lemma ring_lookup s k : ring s !! k = if (k <? count s)%nat then Some (sink_block_at s k) else None.
Proof.
  unfold ring. rewrite list_lookup_fmap. destruct (k <? count s)%nat eqn:E; bool_prop.
  - by rewrite lookup_seq_lt.
  - by rewrite lookup_seq_ge.
Qed.

(** The search loop finds the position of the abstract queue. *)
Lemma find_sequence_spec r s after :
  find_sequence r s after =
  fst <$> list_find (fun b => o_sequence b = after) (copy_block r <$> ring s).
Proof.
  unfold find_sequence, ring. rewrite <- list_fmap_compose, list_find_fmap.
  by destruct (list_find _ (seq 0 (count s))) as [[k x]|].
Qed.

Lemma copy_after_correct r id after :
  router_ok r ->
  exists r', deck_serial_router_copy_after r id after = (spec_copy_after (abs r) id after, r')
    /\ router_ok r' /\ abs r' = abs r.
Proof.
  intros Hr. unfold deck_serial_router_copy_after, spec_copy_after. rewrite find_sink_spec.
  destruct (find_sink r id) as [s|] eqn:Hf; simpl; [|by exists r].
  destruct (found_sink r id s Hr Hf) as (Hk & Hreg & Hok & _). rewrite abs_registered by done. simpl.
  destruct (c_retained (config s)); simpl; [|by exists r].
  destruct (count s =? 0)%nat eqn:Hc; bool_prop.
  { rewrite ring_empty by done. by exists r. }
  assert (forall n m, router_ok (set_sink r id (s <| delivered_bytes := n |> <| delivered_blocks := m |>))
    /\ abs (set_sink r id (s <| delivered_bytes := n |> <| delivered_blocks := m |>)) = abs r) as Hst.
  { intros. eapply store_stats_ok; try done. by destruct Hok. }
  assert (ring s !! 0%nat = Some (sink_block_at s 0)) as H0.
  { rewrite ring_lookup. by rewrite (proj2 (Nat.ltb_lt _ _)) by lia. }
  rewrite find_sequence_spec.
  destruct (copy_block r <$> ring s) as [|oldest rest] eqn:Eq.
  { apply (f_equal length) in Eq. rewrite length_fmap, length_ring in Eq. simpl in Eq. lia. }
  assert (copy_block r (sink_block_at s 0) = oldest) as Hold.
  { assert ((copy_block r <$> ring s) !! 0%nat = Some (copy_block r (sink_block_at s 0))) as E
      by (by rewrite list_lookup_fmap, H0). rewrite Eq in E. by injection E. }
  rewrite Hold, <- Eq. destruct (after =? 0); [eexists; split; [done|apply Hst]|].
  destruct (list_find _ _) as [[k b]|] eqn:Efind; simpl; [|eexists; split; [done|apply Hst]].
  apply list_find_Some in Efind as (Hkb & _). rewrite list_lookup_fmap in Hkb |- *.
  rewrite !ring_lookup in *. destruct (k <? count s)%nat eqn:Hkc; [|done]. bool_prop.
  destruct (k + 1 =? count s)%nat eqn:Hlast; bool_prop.
  - rewrite (proj2 (Nat.ltb_ge _ _)) by lia. by exists r.
  - rewrite (proj2 (Nat.ltb_lt _ _)) by lia. simpl. eexists. split; [done|apply Hst].
Qed.

(** ** The simulation *)

Inductive router_op :=
  | RegisterSink (c : deck_serial_sink_config_t) (allocated : bool)
  | UnregisterSink (id : Z)
  | Submit (input : deck_serial_input_block_t)
  | Take (id : Z)
  | CopyAfter (id after : Z)
  | ClearSink (id : Z)
  | NoteUartError (error : deck_serial_uart_error_t).

Inductive router_reply :=
  | Done (ok : bool)
  | Sequence (sequence : option Z)
  | Copied (result : deck_serial_router_copy_result_t) (b : option deck_serial_routed_block_t)
  | Noted.

Definition router_op_ok (op : router_op) : Prop :=
  match op with
  | RegisterSink c _ => is_u64 (c_capacity_bytes c) /\ is_u32 (c_id c)
  | Submit input => input_ok input
  | _ => True
  end.

Definition run_router (op : router_op) r : router_reply * deck_serial_router :=
  match op with
  | RegisterSink c allocated => prod_map Done id (deck_serial_router_register_sink r c allocated)
  | UnregisterSink id => prod_map Done (fun r => r) (deck_serial_router_unregister_sink r id)
  | Submit input => prod_map Sequence id (deck_serial_router_submit r input)
  | Take id =>
      let '(result, b, r) := deck_serial_router_take r id in (Copied result b, r)
  | CopyAfter id after =>
      let '(result, b, r) := deck_serial_router_copy_after r id after in (Copied result b, r)
  | ClearSink id => prod_map Done (fun r => r) (deck_serial_router_clear_sink r id)
  | NoteUartError error => (Noted, deck_serial_router_note_uart_error r error)
  end.

Definition run_spec (op : router_op) p : router_reply * spec :=
  match op with
  | RegisterSink c allocated => prod_map Done id (spec_register p c allocated)
  | UnregisterSink id => prod_map Done (fun p => p) (spec_unregister p id)
  | Submit input => prod_map Sequence id (spec_submit p input)
  | Take id => let '(result, b, p) := spec_take p id in (Copied result b, p)
  | CopyAfter id after => let '(result, b) := spec_copy_after p id after in (Copied result b, p)
  | ClearSink id => prod_map Done (fun p => p) (spec_clear p id)
  | NoteUartError _ => (Noted, p)
  end.

Fixpoint run_router_all (ops : list router_op) r : list router_reply * deck_serial_router :=
  match ops with
  | [] => ([], r)
  | op :: ops =>
      let '(reply, r) := run_router op r in
      let '(replies, r) := run_router_all ops r in (reply :: replies, r)
  end.

Fixpoint run_spec_all (ops : list router_op) p : list router_reply * spec :=
  match ops with
  | [] => ([], p)
  | op :: ops =>
      let '(reply, p) := run_spec op p in
      let '(replies, p) := run_spec_all ops p in (reply :: replies, p)
  end.

Lemma note_error_ok r error :
  router_ok r -> router_ok (deck_serial_router_note_uart_error r error)
  /\ abs (deck_serial_router_note_uart_error r error) = abs r.
Proof.
  intros [Hpool ? ? ? ? ?]. split.
  - split; try done. by eapply pool_ok_same_pool; [..|exact Hpool].
  - by destruct error.
Qed.

Lemma run_router_ok op r :
  router_ok r -> router_op_ok op ->
  exists r', run_router op r = ((run_spec op (abs r)).1, r')
    /\ router_ok r' /\ abs r' = (run_spec op (abs r)).2.
Proof.
  intros Hr Hop. destruct op as [c allocated|id|input|id|id after|id|error]; simpl in *.
  - destruct Hop. destruct (register_correct r c allocated) as (r' & -> & ?); try done.
    exists r'. by destruct (spec_register _ _ _).
  - destruct (unregister_correct r id Hr) as (r' & -> & ?). exists r'. by destruct (spec_unregister _ _).
  - destruct (submit_ok r input Hr Hop) as (r' & -> & ?). exists r'. by destruct (spec_submit _ _).
  - destruct (take_ok r id Hr) as (r' & -> & ?). exists r'. by destruct (spec_take _ _) as [[??]?].
  - destruct (copy_after_correct r id after Hr) as (r' & -> & ?).
    exists r'. by destruct (spec_copy_after _ _ _).
  - destruct (clear_sink_correct r id Hr) as (r' & -> & ?). exists r'. by destruct (spec_clear _ _).
  - destruct (note_error_ok r error Hr). by eexists.
Qed.

Lemma run_router_all_ok ops r :
  router_ok r -> Forall router_op_ok ops ->
  exists r', run_router_all ops r = ((run_spec_all ops (abs r)).1, r')
    /\ router_ok r' /\ abs r' = (run_spec_all ops (abs r)).2.
Proof.
  intros Hr Hops. revert r Hr. induction Hops as [|op ops Hop _ IH]; intros r Hr; simpl.
  { by exists r. }
  destruct (run_router_ok op r Hr Hop) as (r1 & -> & Hr1 & Habs1).
  destruct (run_spec op (abs r)) as [reply p1]. simpl in *. subst p1.
  destruct (IH r1 Hr1) as (r2 & -> & Hr2 & Habs2).
  exists r2. by destruct (run_spec_all ops (abs r1)).
Qed.

Lemma create_ok session pool_bytes initial_sequence r :
  0 <= pool_bytes ->
  deck_serial_router_create session pool_bytes initial_sequence true = Some r ->
  router_ok r /\ abs r = {| sp_session := session; sp_pool_bytes := pool_bytes;
    sp_last_sequence := initial_sequence;
    sp_queues := replicate DECK_SERIAL_ROUTER_MAX_SINKS None |}.
Proof.
  intros Hp. unfold deck_serial_router_create.
  destruct (_ || _) eqn:Hguard; [done|]. bool_prop. cbv zeta.
  change (Z.of_nat DECK_SERIAL_ROUTER_BLOCK_BYTES) with 256 in *.
  destruct (_ || negb true) eqn:Hcount; [done|]. bool_prop. intros [= <-].
  unfold DECK_SERIAL_HISTORY_MAX_BYTES, kNoBlock in *.
  assert (0 < pool_bytes / 256 <= 8192) as Hn by (Z.div_mod_to_equations; lia).
  split; [|done]. split; simpl; try done.
  - eapply initial_pool_ok; try done; simpl; unfold kNoBlock; lia.
  - split; [lia|]. Z.div_mod_to_equations. lia.
  - repeat (constructor; [by split|]). constructor.
  - repeat (constructor; [done|]). constructor.
  - exists []. repeat (constructor; [apply suffix_nil|]). constructor.
Qed.

(** ** Properties *)

Definition sample_input (b : Z) : deck_serial_input_block_t := {|
  i_monotonic_ms := 7; i_length := 3; i_bytes := replicate 256 b |}.

(** Two blocks; USB may hold one of them, WSS both. *)
Definition sample_router_ops : list router_op :=
  [RegisterSink {| c_id := 0; c_capacity_bytes := 256; c_retained := false |} true;
   RegisterSink {| c_id := 1; c_capacity_bytes := 512; c_retained := false |} true;
   Submit (sample_input 1); Submit (sample_input 2); Take 1; Submit (sample_input 3)].

Lemma sample_router_ops_ok : Forall router_op_ok sample_router_ops.
Proof. repeat (constructor; [first [reflexivity | split; words | done]|]). constructor. Qed.

Definition sample_router : option deck_serial_router :=
  deck_serial_router_create 1 512 0 true.

(** C7: Over any sequence of calls the router answers exactly as four
    separate bounded queues would: registration, submission to every
    registered sink with the oldest block dropped from a full one, delivery
    in order, retained copies after a sequence number with gaps reported,
    clearing; blocks delivered carry the bytes submitted, whichever sinks
    share them. *)
Theorem router_refines_queues session pool_bytes initial_sequence r ops
    (Hpool : 0 <= pool_bytes)
    (Hcreate : deck_serial_router_create session pool_bytes initial_sequence true = Some r)
    (Hops : Forall router_op_ok ops) :
  (run_router_all ops r).1 =
  (run_spec_all ops {| sp_session := session; sp_pool_bytes := pool_bytes;
     sp_last_sequence := initial_sequence;
     sp_queues := replicate DECK_SERIAL_ROUTER_MAX_SINKS None |}).1
  /\ abs (run_router_all ops r).2 =
  (run_spec_all ops {| sp_session := session; sp_pool_bytes := pool_bytes;
     sp_last_sequence := initial_sequence;
     sp_queues := replicate DECK_SERIAL_ROUTER_MAX_SINKS None |}).2.
Proof.
  destruct (create_ok _ _ _ _ Hpool Hcreate) as [Hr <-].
  destruct (run_router_all_ok ops r Hr Hops) as (r' & -> & _ & Habs).
  by split.
Qed.

Lemma router_refines_queues_witness :
  exists r, sample_router = Some r
    /\ (run_router_all sample_router_ops r).1 =
       (run_spec_all sample_router_ops {| sp_session := 1; sp_pool_bytes := 512;
          sp_last_sequence := 0; sp_queues := [None; None; None; None] |}).1.
Proof.
  destruct sample_router as [r|] eqn:E; [|discriminate]. exists r. split; [reflexivity|].
  exact (proj1 (router_refines_queues 1 512 0 r sample_router_ops ltac:(lia) E sample_router_ops_ok)).
Defined.

(** The pool never starves: after any sequence of calls a block of valid
    length is accepted under the next sequence number, although the sinks
    together may be registered for more blocks than the pool has. *)
Theorem router_always_accepts session pool_bytes initial_sequence r ops input
    (Hpool : 0 <= pool_bytes)
    (Hcreate : deck_serial_router_create session pool_bytes initial_sequence true = Some r)
    (Hops : Forall router_op_ok ops) (Hinput : input_ok input)
    (Hlen : (0 < i_length input <= DECK_SERIAL_ROUTER_BLOCK_BYTES)%nat) :
  let r' := (run_router_all ops r).2 in
  (deck_serial_router_submit r' input).1 = Some (next_nonzero (last_sequence (stats r'))).
Proof.
  destruct (create_ok _ _ _ _ Hpool Hcreate) as [Hr _].
  destruct (run_router_all_ok ops r Hr Hops) as (r' & -> & Hr' & _). simpl.
  destruct (submit_ok r' input Hr' Hinput) as (r2 & -> & _). simpl. unfold spec_submit.
  rewrite (proj2 (Nat.eqb_neq _ _)), (proj2 (Nat.ltb_ge _ _)) by lia. done.
Qed.

Lemma router_always_accepts_witness :
  exists r, sample_router = Some r
    /\ (deck_serial_router_submit (run_router_all sample_router_ops r).2 (sample_input 9)).1 = Some 4.
Proof.
  destruct sample_router as [r|] eqn:E; [|discriminate]. exists r. split; [reflexivity|].
  rewrite (router_always_accepts 1 512 0 r sample_router_ops (sample_input 9) ltac:(lia) E
    sample_router_ops_ok eq_refl ltac:(vm_compute; lia)).
  vm_compute in E. injection E as <-. vm_compute. reflexivity.
Defined.

(** After any sequence of calls the reference count of every block of the
    pool is the number of times the sinks hold it, a block is on the free
    list exactly when no sink holds it, and the payload of such a block has
    been wiped. *)
Theorem router_pool_is_sound session pool_bytes initial_sequence r ops
    (Hpool : 0 <= pool_bytes)
    (Hcreate : deck_serial_router_create session pool_bytes initial_sequence true = Some r)
    (Hops : Forall router_op_ok ops) :
  let r' := (run_router_all ops r).2 in
  let held := concat (ring <$> sinks r') in
  exists fl, free_chain r' (free_head r') fl /\ NoDup fl
    /\ forall i, 0 <= i < Z.of_nat (pool_blocks r') ->
         b_references (block r' i) = Z.of_nat (count_occ Z.eq_dec held i)
         /\ (i ∈ fl <-> i ∉ held) /\ (i ∉ held -> payload r' i = zero_payload).
Proof.
  destruct (create_ok _ _ _ _ Hpool Hcreate) as [Hr _].
  destruct (run_router_all_ok ops r Hr Hops) as (r' & -> & Hr' & _).
  destruct Hr' as [[_ _ _ _ Hrefs _ (fl & Hch & Hnd & Hfl) Hz _] _ _ _ _ _].
  exists fl. split_and!; try done. intros i Hi. split_and!; auto; by apply Hfl.
Qed.

Lemma router_pool_is_sound_witness :
  exists r, sample_router = Some r
    /\ exists fl, free_chain (run_router_all sample_router_ops r).2
         (free_head (run_router_all sample_router_ops r).2) fl.
Proof.
  destruct sample_router as [r|] eqn:E; [|discriminate]. exists r. split; [reflexivity|].
  destruct (router_pool_is_sound 1 512 0 r sample_router_ops ltac:(lia) E sample_router_ops_ok)
    as (fl & Hch & _).
  exists fl. exact Hch.
Defined.
