(* ===== verification/SerialUsbBridge.v ===== *)
(** * The USB bridge

    [components/serial_service/deck_serial_usb_bridge.cpp]: between the serial
    router and the USB Serial/JTAG driver.  One task pumps blocks of the router
    to the driver, which may take any part of a block; another pumps what the
    driver received to the service, with the generation of its authority.

    A mutex makes the pumps of one direction exclusive; the two directions
    share no field but the count of disconnections, an atomic counter.  So a
    run is a sequence of whole pumps, over an adapter that is free to do
    anything in between. *)

From S2P Require Import Prelude SerialRouter.

(** ** State *)

Inductive deck_serial_usb_pump_result_t :=
  | DECK_SERIAL_USB_IDLE
  | DECK_SERIAL_USB_PROGRESS
  | DECK_SERIAL_USB_BACKPRESSURE
  | DECK_SERIAL_USB_ERROR.

(** [deck_serial_usb_io_adapter_t].  [take_output] returns what it leaves in
    the block, [read_input] the number of bytes it reports and the buffer it
    leaves. *)
Class UsbIo (W : Type) := {
  connected : M W bool;
  take_output : M W (deck_serial_router_copy_result_t * deck_serial_routed_block_t);
  write_output : bytes -> M W Z;
  input_ready : M W bool;
  input_authority_generation : M W Z;
  read_input : nat -> M W (Z * bytes);
  submit_input : bytes -> Z -> M W bool;
}.

Record deck_serial_usb_bridge_stats_t := {
  output_bytes : Z;
  output_blocks : Z;
  output_backpressure : Z;
  output_failures : Z;
  last_output_sequence : Z;
  input_bytes : Z;
  input_blocks : Z;
  input_backpressure : Z;
  input_failures : Z;
  input_submit_failures : Z;
  disconnect_observations : Z;
}.
#[export] Instance usb_stats_rebuild : Rebuild deck_serial_usb_bridge_stats_t := fun s =>
  Build_deck_serial_usb_bridge_stats_t (output_bytes s) (output_blocks s) (output_backpressure s) (output_failures s)
    (last_output_sequence s) (input_bytes s) (input_blocks s) (input_backpressure s) (input_failures s)
    (input_submit_failures s) (disconnect_observations s).

Definition zero_block : deck_serial_routed_block_t := {|
  o_session_id := 0; o_sequence := 0; o_monotonic_ms := 0; o_length := 0;
  o_bytes := replicate DECK_SERIAL_ROUTER_BLOCK_BYTES 0 |}.

(** The atomic counters are [counters]. *)
Record deck_serial_usb_bridge := {
  pending_output : deck_serial_routed_block_t;
  pending_offset : nat;
  has_pending_output : bool;
  input : bytes;
  counters : deck_serial_usb_bridge_stats_t;
}.
#[export] Instance usb_bridge_rebuild : Rebuild deck_serial_usb_bridge := fun b =>
  Build_deck_serial_usb_bridge (pending_output b) (pending_offset b) (has_pending_output b) (input b) (counters b).

Definition clear_pending_output (b : deck_serial_usb_bridge) : deck_serial_usb_bridge :=
  b <| pending_output := zero_block |> <| pending_offset := 0%nat |> <| has_pending_output := false |>.

Definition clear_input (b : deck_serial_usb_bridge) : deck_serial_usb_bridge :=
  b <| input := replicate DECK_SERIAL_ROUTER_BLOCK_BYTES 0 |>.

Definition deck_serial_usb_bridge_create (allocated : bool) : option deck_serial_usb_bridge :=
  if negb allocated then None
  else Some {|
    pending_output := zero_block; pending_offset := 0; has_pending_output := false;
    input := replicate DECK_SERIAL_ROUTER_BLOCK_BYTES 0;
    counters := {|
      output_bytes := 0; output_blocks := 0; output_backpressure := 0; output_failures := 0;
      last_output_sequence := 0; input_bytes := 0; input_blocks := 0; input_backpressure := 0;
      input_failures := 0; input_submit_failures := 0; disconnect_observations := 0 |} |}.

(** The memory as it is handed back to the allocator. *)
Definition deck_serial_usb_bridge_destroy (b : deck_serial_usb_bridge) : deck_serial_usb_bridge :=
  clear_input (clear_pending_output b).

Definition deck_serial_usb_bridge_stats (b : deck_serial_usb_bridge) : deck_serial_usb_bridge_stats_t := counters b.

(** [saturating_increment(bridge->counter, amount)]: the loop of
    compare-exchanges ends with the saturated sum. *)
Definition saturating_increment (counter : deck_serial_usb_bridge_stats_t -> Z) `{!FieldUpdate counter} (amount : Z)
    (b : deck_serial_usb_bridge) : deck_serial_usb_bridge :=
  b <| counters := (counters b) <| counter := saturating_add (counter (counters b)) amount |> |>.

Section Pumps.
Context {W : Type} `{UsbIo W}.
Implicit Types (b : deck_serial_usb_bridge).

(** A block that is whole has been written. *)
Definition finish_output b : deck_serial_usb_bridge :=
  let block := pending_output b in
  let b := saturating_increment output_bytes (Z.of_nat (o_length block)) b in
  let b := saturating_increment output_blocks 1 b in
  let b := b <| counters := (counters b) <| last_output_sequence := o_sequence block |> |> in
  clear_pending_output b.

(** The second half of the pump: one write of what is left of the block. *)
Definition write_pending b : M W (deck_serial_usb_pump_result_t * deck_serial_usb_bridge) :=
  let block := pending_output b in
  let remaining := (o_length block - pending_offset b)%nat in
  written ← write_output (take remaining (drop (pending_offset b) (o_bytes block)));
  if (written <? 0) || (Z.of_nat remaining <? written)
  then mret (DECK_SERIAL_USB_ERROR, saturating_increment output_failures 1 b)
  else if written =? 0
  then mret (DECK_SERIAL_USB_BACKPRESSURE, saturating_increment output_backpressure 1 b)
  else
    let b := b <| pending_offset := (pending_offset b + Z.to_nat written)%nat |> in
    mret (DECK_SERIAL_USB_PROGRESS, if (pending_offset b =? o_length block)%nat then finish_output b else b).

Definition deck_serial_usb_bridge_pump_output b : M W (deck_serial_usb_pump_result_t * deck_serial_usb_bridge) :=
  is_connected ← connected;
  if negb is_connected then mret (DECK_SERIAL_USB_IDLE, saturating_increment disconnect_observations 1 b)
  else if has_pending_output b then write_pending b
  else
    '(result, block) ← take_output;
    let b := b <| pending_output := block |> in
    match result with
    | DECK_SERIAL_ROUTER_COPY_EMPTY => mret (DECK_SERIAL_USB_IDLE, b)
    | DECK_SERIAL_ROUTER_COPY_OK =>
        if (o_length block =? 0)%nat || (DECK_SERIAL_ROUTER_BLOCK_BYTES <? o_length block)%nat
        then mret (DECK_SERIAL_USB_ERROR, clear_pending_output (saturating_increment output_failures 1 b))
        else write_pending (b <| has_pending_output := true |>)
    | _ => mret (DECK_SERIAL_USB_ERROR, clear_pending_output (saturating_increment output_failures 1 b))
    end.

Definition deck_serial_usb_bridge_pump_input b : M W (deck_serial_usb_pump_result_t * deck_serial_usb_bridge) :=
  is_connected ← connected;
  if negb is_connected then mret (DECK_SERIAL_USB_IDLE, saturating_increment disconnect_observations 1 b)
  else
    ready ← input_ready;
    if negb ready then mret (DECK_SERIAL_USB_BACKPRESSURE, saturating_increment input_backpressure 1 b)
    else
      authority_generation ← input_authority_generation;
      '(received, buffer) ← read_input DECK_SERIAL_ROUTER_BLOCK_BYTES;
      let b := b <| input := buffer |> in
      if (received <? 0) || (Z.of_nat DECK_SERIAL_ROUTER_BLOCK_BYTES <? received)
      then mret (DECK_SERIAL_USB_ERROR, clear_input (saturating_increment input_failures 1 b))
      else if received =? 0 then mret (DECK_SERIAL_USB_IDLE, b)
      else
        submitted ← submit_input (take (Z.to_nat received) (input b)) authority_generation;
        let b := clear_input b in
        if negb submitted then mret (DECK_SERIAL_USB_ERROR, saturating_increment input_submit_failures 1 b)
        else
          let b := saturating_increment input_bytes received b in
          mret (DECK_SERIAL_USB_PROGRESS, saturating_increment input_blocks 1 b).

(** The pumps of both tasks, in some order. *)
Inductive pump := Output | Input.

Definition pump_once (p : pump) : deck_serial_usb_bridge -> M W (deck_serial_usb_pump_result_t * deck_serial_usb_bridge) :=
  match p with Output => deck_serial_usb_bridge_pump_output | Input => deck_serial_usb_bridge_pump_input end.

Fixpoint pump_all (pumps : list pump) b : M W deck_serial_usb_bridge :=
  match pumps with
  | [] => mret b
  | p :: pumps => '(_, b) ← pump_once p b; pump_all pumps b
  end.
End Pumps.

(** ** What the driver and the service observe

    [logged] is an adapter that notes every call and what it answered. *)

Inductive usb_event :=
  | Connected (up : bool)
  | Ready (ready : bool)
  | Took (result : deck_serial_router_copy_result_t) (block : deck_serial_routed_block_t)
  | Wrote (offered : bytes) (written : Z)
  | Authority (generation : Z)
  | ReadInput (received : Z) (buffer : bytes)
  | Submitted (data : bytes) (generation : Z) (accepted : bool).

Section Logged.
Context {W : Type} `{UsbIo W}.

Definition observed {A} (call : M W A) (events : A -> list usb_event) : M (W * list usb_event) A :=
  fun '(w, log) => let '(a, w) := call w in (a, (w, log ++ events a)).

Definition logged : UsbIo (W * list usb_event) := {|
  connected := observed connected (fun up => [Connected up]);
  take_output := observed take_output (fun '(result, block) => [Took result block]);
  write_output := fun data => observed (write_output data) (fun n => [Wrote data n]);
  input_ready := observed input_ready (fun ready => [Ready ready]);
  input_authority_generation := observed input_authority_generation (fun g => [Authority g]);
  read_input := fun capacity => observed (read_input capacity) (fun '(n, buffer) => [ReadInput n buffer]);
  submit_input := fun data g => observed (submit_input data g) (fun ok => [Submitted data g ok]);
|}.

(** The [pump_all] of a world with a log. *)
Definition run_logged (pumps : list pump) (b : deck_serial_usb_bridge) (w : W) :
    deck_serial_usb_bridge * (W * list usb_event) :=
  @pump_all _ logged pumps b (w, []).
End Logged.

(** A block the bridge may send. *)
Definition sendable (result : deck_serial_router_copy_result_t) (block : deck_serial_routed_block_t) : bool :=
  match result with
  | DECK_SERIAL_ROUTER_COPY_OK =>
      (0 <? o_length block)%nat && (o_length block <=? DECK_SERIAL_ROUTER_BLOCK_BYTES)%nat
  | _ => false
  end.

Definition block_bytes (block : deck_serial_routed_block_t) : bytes := take (o_length block) (o_bytes block).

(** The blocks taken from the router, in order. *)
Definition taken (log : list usb_event) : list deck_serial_routed_block_t :=
  log ≫= fun e => match e with Took r block => if sendable r block then [block] else [] | _ => [] end.

(** The bytes the driver took: of a write whose answer is possible, that
    many. *)
Definition sent (log : list usb_event) : bytes :=
  log ≫= fun e => match e with
                  | Wrote data n => if (0 <? n) && (n <=? Z.of_nat (List.length data)) then take (Z.to_nat n) data else []
                  | _ => []
                  end.

(** What is still to be written of the pending block. *)
Definition unsent (b : deck_serial_usb_bridge) : bytes :=
  if has_pending_output b then drop (pending_offset b) (block_bytes (pending_output b)) else [].

(** ** One read and what is done with it *)
Record input_round := { authority : Z; received : Z; buffer : bytes; accepted : bool }.

Definition in_range (r : input_round) : bool :=
  (0 <? received r) && (received r <=? Z.of_nat DECK_SERIAL_ROUTER_BLOCK_BYTES).

Definition round_events (r : input_round) : list usb_event :=
  Authority (authority r) :: ReadInput (received r) (buffer r)
  :: (if in_range r then [Submitted (take (Z.to_nat (received r)) (buffer r)) (authority r) (accepted r)] else []).

Definition is_input (e : usb_event) : bool :=
  match e with Authority _ | ReadInput _ _ | Submitted _ _ _ => true | _ => false end.

Definition input_events (log : list usb_event) : list usb_event :=
  log ≫= fun e => if is_input e then [e] else [].

(** The bytes of the submissions that were accepted. *)
Definition delivered (rounds : list input_round) : Z :=
  fold_right Z.add 0 ((fun r => if in_range r && accepted r then received r else 0) <$> rounds).

(** ** What the other counters count *)

(** How often something happened, as far as a counter goes. *)
Definition total (kind : usb_event -> bool) (log : list usb_event) : Z :=
  Z.min U64_MAX (Z.of_nat (List.length (List.filter kind log))).

Definition is_disconnection (e : usb_event) : bool := match e with Connected up => negb up | _ => false end.

(** The host takes nothing. *)
Definition is_output_backpressure (e : usb_event) : bool := match e with Wrote _ n => n =? 0 | _ => false end.

(** The router hands over what is no block, or the driver reports an error or
    more than it was given. *)
Definition is_output_failure (e : usb_event) : bool :=
  match e with
  | Took DECK_SERIAL_ROUTER_COPY_EMPTY _ => false
  | Took result block => negb (sendable result block)
  | Wrote data n => (n <? 0) || (Z.of_nat (List.length data) <? n)
  | _ => false
  end.

Definition is_input_backpressure (e : usb_event) : bool := match e with Ready ready => negb ready | _ => false end.

(** The driver reports an error or more than fits. *)
Definition is_input_failure (e : usb_event) : bool :=
  match e with ReadInput n _ => (n <? 0) || (Z.of_nat DECK_SERIAL_ROUTER_BLOCK_BYTES <? n) | _ => false end.

Definition is_submit_failure (e : usb_event) : bool := match e with Submitted _ _ accepted => negb accepted | _ => false end.
Definition is_submission (e : usb_event) : bool := match e with Submitted _ _ accepted => accepted | _ => false end.

Record counted (stats : deck_serial_usb_bridge_stats_t) (log : list usb_event) : Prop := {
  counted_disconnections : disconnect_observations stats = total is_disconnection log;
  counted_output_backpressure : output_backpressure stats = total is_output_backpressure log;
  counted_output_failures : output_failures stats = total is_output_failure log;
  counted_input_backpressure : input_backpressure stats = total is_input_backpressure log;
  counted_input_failures : input_failures stats = total is_input_failure log;
  counted_submit_failures : input_submit_failures stats = total is_submit_failure log;
  counted_submissions : input_blocks stats = total is_submission log;
}.

(** ** Lemmas *)

Lemma saturating_count a n :
  0 <= a -> 0 <= n <= U64_MAX -> saturating_add (Z.min U64_MAX a) n = Z.min U64_MAX (a + n).
Proof. intros. unfold saturating_add. case_match; words. Qed.

Lemma total_snoc kind log e :
  total kind (log ++ [e]) = if kind e then saturating_add (total kind log) 1 else total kind log.
Proof.
  unfold total. rewrite List.filter_app, length_app. cbn [List.filter]. destruct (kind e); cbn [List.length].
  - rewrite saturating_count by lia. f_equal. lia.
  - f_equal. lia.
Qed.

(** The call [e] is counted where it belongs. *)
Lemma counted_snoc stats stats' log e :
  disconnect_observations stats' = (if is_disconnection e then saturating_add (disconnect_observations stats) 1 else disconnect_observations stats) ->
  output_backpressure stats' = (if is_output_backpressure e then saturating_add (output_backpressure stats) 1 else output_backpressure stats) ->
  output_failures stats' = (if is_output_failure e then saturating_add (output_failures stats) 1 else output_failures stats) ->
  input_backpressure stats' = (if is_input_backpressure e then saturating_add (input_backpressure stats) 1 else input_backpressure stats) ->
  input_failures stats' = (if is_input_failure e then saturating_add (input_failures stats) 1 else input_failures stats) ->
  input_submit_failures stats' = (if is_submit_failure e then saturating_add (input_submit_failures stats) 1 else input_submit_failures stats) ->
  input_blocks stats' = (if is_submission e then saturating_add (input_blocks stats) 1 else input_blocks stats) ->
  counted stats log -> counted stats' (log ++ [e]).
Proof. intros E1 E2 E3 E4 E5 E6 E7 [H1 H2 H3 H4 H5 H6 H7]. split; rewrite total_snoc; [rewrite <- H1|rewrite <- H2|rewrite <- H3|rewrite <- H4|rewrite <- H5|rewrite <- H6|rewrite <- H7]; assumption. Qed.

Lemma taken_app l k : taken (l ++ k) = taken l ++ taken k.
Proof. apply bind_app. Qed.

Lemma taken_one result block : taken [Took result block] = if sendable result block then [block] else [].
Proof. unfold taken. cbn [mbind list_bind]. apply app_nil_r. Qed.

Lemma sent_app l k : sent (l ++ k) = sent l ++ sent k.
Proof. apply bind_app. Qed.

Lemma input_events_app l k : input_events (l ++ k) = input_events l ++ input_events k.
Proof. apply bind_app. Qed.

Lemma length_sent_block block :
  List.length (o_bytes block) = DECK_SERIAL_ROUTER_BLOCK_BYTES -> (o_length block <= DECK_SERIAL_ROUTER_BLOCK_BYTES)%nat ->
  List.length (block_bytes block) = o_length block.
Proof. intros. unfold block_bytes. rewrite length_take. lia. Qed.

(** What is known of a bridge and its log when [completed] are the blocks that
    went out whole. *)
Definition blocks_bytes (blocks : list deck_serial_routed_block_t) : bytes := blocks ≫= block_bytes.

Record output_inv (b : deck_serial_usb_bridge) (log : list usb_event) (completed : list deck_serial_routed_block_t) : Prop := {
  inv_taken : taken log = completed ++ (if has_pending_output b then [pending_output b] else []);
  inv_sent : sent log = blocks_bytes completed
               ++ (if has_pending_output b then take (pending_offset b) (block_bytes (pending_output b)) else []);
  inv_pending : if has_pending_output b
                then List.length (o_bytes (pending_output b)) = DECK_SERIAL_ROUTER_BLOCK_BYTES
                     /\ (o_length (pending_output b) <= DECK_SERIAL_ROUTER_BLOCK_BYTES)%nat
                     /\ (pending_offset b < o_length (pending_output b))%nat
                else pending_offset b = 0%nat;
  inv_blocks : output_blocks (counters b) = Z.min U64_MAX (Z.of_nat (List.length completed));
  inv_bytes : output_bytes (counters b) = Z.min U64_MAX (Z.of_nat (List.length (blocks_bytes completed)));
  inv_sequence : last_output_sequence (counters b) = default 0 (o_sequence <$> last completed);
}.

Record input_inv (b : deck_serial_usb_bridge) (log : list usb_event) (rounds : list input_round) : Prop := {
  inv_rounds : input_events log = rounds ≫= round_events;
  inv_delivered : input_bytes (counters b) = Z.min U64_MAX (delivered rounds);
}.

Definition carries (b : deck_serial_usb_bridge) (log : list usb_event) : Prop :=
  exists completed rounds, output_inv b log completed /\ input_inv b log rounds.

Lemma delivered_cons r rounds :
  delivered (r :: rounds) = (if in_range r && accepted r then received r else 0) + delivered rounds.
Proof. done. Qed.

Lemma delivered_app l k : delivered (l ++ k) = delivered l + delivered k.
Proof. induction l as [|r l IH]; [done|]. cbn [app]. rewrite !delivered_cons, IH. lia. Qed.

Lemma delivered_nonneg rounds : 0 <= delivered rounds.
Proof.
  induction rounds as [|r l IH]; [done|]. rewrite delivered_cons.
  destruct (in_range r && accepted r) eqn:E; [|lia]. unfold in_range in E. bool_prop. lia.
Qed.

(** Frames: steps that are not seen by one of the directions. *)
Lemma output_frame b b' log log' completed :
  (pending_output b', pending_offset b', has_pending_output b') = (pending_output b, pending_offset b, has_pending_output b) ->
  (output_blocks (counters b'), output_bytes (counters b'), last_output_sequence (counters b'))
  = (output_blocks (counters b), output_bytes (counters b), last_output_sequence (counters b)) ->
  taken log' = taken log -> sent log' = sent log -> output_inv b log completed -> output_inv b' log' completed.
Proof.
  intros E1 E2 E3 E4 []. injection E1 as Ep Eo Eh. injection E2 as Ea Eb Ec.
  split; rewrite ?Ep, ?Eo, ?Eh, ?E3, ?E4, ?Ea, ?Eb, ?Ec; done.
Qed.

Lemma input_frame b b' log log' rounds :
  input_bytes (counters b') = input_bytes (counters b) -> input_events log' = input_events log ->
  input_inv b log rounds -> input_inv b' log' rounds.
Proof. intros E1 E2 []. split; congruence. Qed.

(** Without a pending block the content of its field does not matter. *)
Lemma output_idle b b' log log' completed :
  has_pending_output b = false -> has_pending_output b' = false -> pending_offset b' = 0%nat ->
  (output_blocks (counters b'), output_bytes (counters b'), last_output_sequence (counters b'))
  = (output_blocks (counters b), output_bytes (counters b), last_output_sequence (counters b)) ->
  taken log' = taken log -> sent log' = sent log -> output_inv b log completed -> output_inv b' log' completed.
Proof.
  intros Hb Hb' Ho E E3 E4 [Ht Hs Hp H1 H2 H3]. injection E as Ea Eb Ec. rewrite Hb in Ht, Hs.
  split; rewrite ?Hb', ?E3, ?E4, ?Ea, ?Eb, ?Ec; done.
Qed.

(** A block that is taken becomes the pending one. *)
Lemma output_takes b log completed block :
  has_pending_output b = false -> List.length (o_bytes block) = DECK_SERIAL_ROUTER_BLOCK_BYTES ->
  sendable DECK_SERIAL_ROUTER_COPY_OK block = true -> output_inv b log completed ->
  output_inv (b <| pending_output := block |> <| has_pending_output := true |>)
    (log ++ [Took DECK_SERIAL_ROUTER_COPY_OK block]) completed.
Proof.
  intros Hb Hl Hs [Ht Hsent Hp H1 H2 H3]. rewrite Hb in Ht, Hsent, Hp. pose proof Hs as Hs'. unfold sendable in Hs'. bool_prop.
  split; cbn [pending_output pending_offset has_pending_output counters set_field]; try done.
  - rewrite taken_app, taken_one, Ht, app_nil_r, Hs. done.
  - rewrite sent_app, Hsent, Hp, take_0, !app_nil_r. done.
  - rewrite Hp. repeat split; [done | lia..].
Qed.

Lemma blocks_bytes_snoc blocks block : blocks_bytes (blocks ++ [block]) = blocks_bytes blocks ++ block_bytes block.
Proof. unfold blocks_bytes. rewrite bind_app. simpl. by rewrite app_nil_r. Qed.

(** A write of the pending block, by what the driver answers. *)
Lemma output_writes b log completed n :
  has_pending_output b = true -> output_inv b log completed ->
  let left := (o_length (pending_output b) - pending_offset b)%nat in
  let offered := take left (drop (pending_offset b) (o_bytes (pending_output b))) in
  List.length offered = left
  /\ (0 < n <= Z.of_nat left ->
      sent (log ++ [Wrote offered n])
      = blocks_bytes completed ++ take (pending_offset b + Z.to_nat n) (block_bytes (pending_output b)))
  /\ (~ 0 < n <= Z.of_nat left -> sent (log ++ [Wrote offered n]) = sent log)
  /\ taken (log ++ [Wrote offered n]) = taken log.
Proof.
  intros Hb [Ht Hs Hp _ _ _] left offered. rewrite Hb in Ht, Hs, Hp. destruct Hp as (Hl & Hc & Ho).
  assert (Hoff : List.length offered = left) by (unfold offered; rewrite length_take, length_drop; lia).
  split; [done|]. rewrite sent_app, Hs. unfold sent at 1 2, taken at 1. simpl. rewrite Hoff, app_nil_r.
  assert (Hguard : (0 <? n) && (n <=? Z.of_nat left) = bool_decide (0 < n <= Z.of_nat left)).
  { case_bool_decide; [apply andb_true_iff | apply andb_false_iff]; lia. }
  rewrite Hguard. repeat split.
  - intros Hn. rewrite bool_decide_eq_true_2 by done. rewrite <- app_assoc. f_equal.
    unfold offered, block_bytes. rewrite take_take, !take_take, Nat.min_l, Nat.min_l, Nat.min_l by lia.
    by rewrite take_take_drop.
  - intros Hn. rewrite bool_decide_eq_false_2 by done. by rewrite app_nil_r.
  - by rewrite taken_app, app_nil_r.
Qed.

(** A call that neither direction sees. *)
Lemma carries_unseen b log e :
  taken [e] = [] -> sent [e] = [] -> input_events [e] = [] -> carries b log -> carries b (log ++ [e]).
Proof.
  intros E1 E2 E3 (completed & rounds & Ho & Hi). exists completed, rounds. split.
  - eapply (output_frame b); [done|done|by rewrite taken_app, E1, app_nil_r|by rewrite sent_app, E2, app_nil_r|exact Ho].
  - eapply (input_frame b); [done|by rewrite input_events_app, E3, app_nil_r|exact Hi].
Qed.

Section Invariant.
Context {W : Type} `{UsbIo W}.
#[local] Existing Instance logged.
Hypothesis blocks_are_arrays : forall w : W,
  List.length (o_bytes (take_output w).1.2) = DECK_SERIAL_ROUTER_BLOCK_BYTES.

Lemma write_carries (b : deck_serial_usb_bridge) (w : W) (log : list usb_event) :
  has_pending_output b = true -> carries b log ->
  let out := @write_pending _ logged b (w, log) in carries out.1.2 out.2.2.
Proof.
  intros Hb (completed & rounds & Ho & Hi). pose proof (inv_pending _ _ _ Ho) as Hp. rewrite Hb in Hp.
  destruct Hp as (Hl & Hc & Hlt). unfold write_pending.
  set (left := (o_length (pending_output b) - pending_offset b)%nat).
  set (offered := take left (drop (pending_offset b) (o_bytes (pending_output b)))).
  run. cbn [write_output logged observed].
  destruct (write_output offered w) as [n w'] eqn:Hw. cbn [fst snd].
  pose proof (output_writes b log completed n Hb Ho) as (Hlen & Hyes & Hno & Ht). fold left offered in Hlen, Hyes, Hno, Ht.
  assert (Hev : input_events (log ++ [Wrote offered n]) = input_events log)
    by (rewrite input_events_app; apply app_nil_r).
  destruct ((n <? 0) || (Z.of_nat left <? n)) eqn:Hbad; cbn [fst snd mret M_ret].
  { exists completed, rounds. bool_cases;
      (split; [eapply (output_frame b); [reflexivity|reflexivity|exact Ht|apply Hno; lia|exact Ho]
              | eapply (input_frame b); [reflexivity|exact Hev|exact Hi]]). }
  bool_prop. destruct (n =? 0) eqn:Hz; cbn [fst snd mret M_ret]; bool_prop.
  { exists completed, rounds.
    split; [eapply (output_frame b); [reflexivity|reflexivity|exact Ht|apply Hno; lia|exact Ho]
           | eapply (input_frame b); [reflexivity|exact Hev|exact Hi]]. }
  destruct Ho as [Htk Hs Hpd Hn1 Hn2 Hn3]. rewrite Hb in Htk, Hs, Hpd. specialize (Hyes ltac:(lia)).
  case_match eqn:Hwhole; cbn [pending_offset pending_output set_field] in Hwhole.
  - apply Nat.eqb_eq in Hwhole. exists (completed ++ [pending_output b]), rounds. split.
    + split; cbn [has_pending_output pending_offset counters output_blocks output_bytes last_output_sequence
                  finish_output clear_pending_output saturating_increment set_field pending_output].
      * by rewrite Ht, Htk, app_nil_r.
      * rewrite Hyes, blocks_bytes_snoc, app_nil_r, Hwhole. f_equal. apply take_ge. by rewrite length_sent_block.
      * done.
      * rewrite Hn1, saturating_count, length_app by lia. f_equal. simpl. lia.
      * rewrite Hn2, saturating_count by (unfold DECK_SERIAL_ROUTER_BLOCK_BYTES in *; lia).
        rewrite blocks_bytes_snoc, length_app, length_sent_block by done. f_equal. lia.
      * by rewrite last_snoc.
    + eapply (input_frame b); [reflexivity|exact Hev|exact Hi].
  - apply Nat.eqb_neq in Hwhole. exists completed, rounds. split.
    + split; cbn [has_pending_output pending_offset counters set_field pending_output]; rewrite ?Hb; try done.
      * by rewrite Ht, Htk.
      * repeat split; try done. lia.
    + eapply (input_frame b); [reflexivity|exact Hev|exact Hi].
Qed.

Lemma output_carries (b : deck_serial_usb_bridge) (w : W) (log : list usb_event) :
  carries b log ->
  let out := @deck_serial_usb_bridge_pump_output _ logged b (w, log) in carries out.1.2 out.2.2.
Proof.
  intros Hcarry. unfold deck_serial_usb_bridge_pump_output. run. cbn [connected logged observed].
  destruct (connected w) as [up w1]. cbn [fst snd]. apply (carries_unseen b _ (Connected up)) in Hcarry; [|done..].
  revert Hcarry. generalize (log ++ [Connected up]). clear log. intros log Hcarry.
  destruct up; cbn [negb mret M_ret fst snd].
  2:{ destruct Hcarry as (completed & rounds & Ho & Hi). exists completed, rounds.
      split; [eapply (output_frame b); [reflexivity..|exact Ho] | eapply (input_frame b); [reflexivity..|exact Hi]]. }
  destruct (has_pending_output b) eqn:Hb; [by apply write_carries|]. run. cbn [take_output logged observed].
  pose proof (blocks_are_arrays w1) as Hl. destruct (take_output w1) as [[result block] w2]. cbn [fst snd] in *.
  assert (Hev : input_events (log ++ [Took result block]) = input_events log)
    by (rewrite input_events_app; apply app_nil_r).
  assert (Hsent : sent (log ++ [Took result block]) = sent log) by (rewrite sent_app; apply app_nil_r).
  assert (Hrefused : sendable result block = false -> taken (log ++ [Took result block]) = taken log)
    by (intros E; rewrite taken_app, taken_one, E; apply app_nil_r).
  destruct Hcarry as (completed & rounds & Ho & Hi). pose proof (inv_pending _ _ _ Ho) as Hp. rewrite Hb in Hp.
  destruct (sendable result block) eqn:Hsend.
  - destruct result; try discriminate Hsend. pose proof Hsend as Hs. unfold sendable in Hs. bool_prop.
    assert (Hguard : (o_length block =? 0)%nat || (DECK_SERIAL_ROUTER_BLOCK_BYTES <? o_length block)%nat = false)
      by (apply orb_false_iff; split; [apply Nat.eqb_neq | apply Nat.ltb_ge]; lia).
    rewrite Hguard. apply write_carries; [done|]. exists completed, rounds. split; [by apply output_takes|].
    eapply (input_frame b); [reflexivity|exact Hev|exact Hi].
  - assert (Hdone : forall b', has_pending_output b' = false -> pending_offset b' = 0%nat ->
      (output_blocks (counters b'), output_bytes (counters b'), last_output_sequence (counters b'))
      = (output_blocks (counters b), output_bytes (counters b), last_output_sequence (counters b)) ->
      input_bytes (counters b') = input_bytes (counters b) -> carries b' (log ++ [Took result block])).
    { intros b' H1 H2 H3 H4. exists completed, rounds. split; [|exact (input_frame b b' log _ rounds H4 Hev Hi)].
      exact (output_idle b b' log _ completed Hb H1 H2 H3 (Hrefused eq_refl) Hsent Ho). }
    destruct result; cbn [fst snd mret M_ret]; try (apply Hdone; done).
    assert (Hguard : (o_length block =? 0)%nat || (DECK_SERIAL_ROUTER_BLOCK_BYTES <? o_length block)%nat = true).
    { unfold sendable in Hsend. apply orb_true_iff. apply andb_false_iff in Hsend as [E|E];
        [left; apply Nat.eqb_eq; apply Nat.ltb_ge in E; lia | right; apply Nat.ltb_lt; apply Nat.leb_gt in E; lia]. }
    rewrite Hguard. apply Hdone; done.
Qed.

(** A round of the input direction. *)
Lemma input_round_joins b b' log completed rounds r :
  output_inv b log completed -> input_inv b log rounds ->
  (pending_output b', pending_offset b', has_pending_output b') = (pending_output b, pending_offset b, has_pending_output b) ->
  (output_blocks (counters b'), output_bytes (counters b'), last_output_sequence (counters b'))
  = (output_blocks (counters b), output_bytes (counters b), last_output_sequence (counters b)) ->
  input_bytes (counters b')
  = (if in_range r && accepted r then saturating_add (input_bytes (counters b)) (received r)
     else input_bytes (counters b)) ->
  carries b' (log ++ round_events r).
Proof.
  intros Ho [Hr Hd] E1 E2 E3. exists completed, (rounds ++ [r]). split.
  - eapply (output_frame b); [done|done| | |exact Ho]; rewrite ?taken_app, ?sent_app; unfold round_events;
      destruct (in_range r); apply app_nil_r.
  - split.
    + rewrite input_events_app, Hr, bind_app. f_equal. unfold round_events. destruct (in_range r) eqn:E; simpl; by rewrite E.
    + rewrite E3, Hd, delivered_app, (delivered_cons r []). change (delivered []) with 0.
      pose proof (delivered_nonneg rounds). destruct (in_range r && accepted r) eqn:E; [|f_equal; lia].
      unfold in_range in E. bool_prop. rewrite saturating_count by (unfold DECK_SERIAL_ROUTER_BLOCK_BYTES in *; lia).
      f_equal. lia.
Qed.

Lemma input_carries (b : deck_serial_usb_bridge) (w : W) (log : list usb_event) :
  carries b log ->
  let out := @deck_serial_usb_bridge_pump_input _ logged b (w, log) in carries out.1.2 out.2.2.
Proof.
  intros Hcarry. unfold deck_serial_usb_bridge_pump_input. run. cbn [connected logged observed].
  destruct (connected w) as [up w1]. cbn [fst snd]. apply (carries_unseen b _ (Connected up)) in Hcarry; [|done..].
  revert Hcarry. generalize (log ++ [Connected up]). clear log. intros log Hcarry.
  destruct up; cbn [negb mret M_ret fst snd].
  2:{ destruct Hcarry as (completed & rounds & Ho & Hi). exists completed, rounds.
      split; [eapply (output_frame b); [reflexivity..|exact Ho] | eapply (input_frame b); [reflexivity..|exact Hi]]. }
  run. cbn [input_ready logged observed]. destruct (input_ready w1) as [ready w2]. cbn [fst snd].
  apply (carries_unseen b _ (Ready ready)) in Hcarry; [|done..].
  revert Hcarry. generalize (log ++ [Ready ready]). clear log. intros log (completed & rounds & Ho & Hi).
  assert (Hidle : forall b',
    (pending_output b', pending_offset b', has_pending_output b') = (pending_output b, pending_offset b, has_pending_output b) ->
    (output_blocks (counters b'), output_bytes (counters b'), last_output_sequence (counters b'))
    = (output_blocks (counters b), output_bytes (counters b), last_output_sequence (counters b)) ->
    input_bytes (counters b') = input_bytes (counters b) -> carries b' log).
  { intros b' E1 E2 E3. exists completed, rounds.
    split; [by eapply (output_frame b) | by eapply (input_frame b)]. }
  destruct ready; cbn [negb mret M_ret fst snd]; [|by apply Hidle].
  run. cbn [input_authority_generation logged observed]. destruct (input_authority_generation w2) as [g w3]. cbn [fst snd].
  run. cbn [read_input logged observed]. destruct (read_input _ w3) as [[n data] w4]. cbn [fst snd].
  assert (Hquiet : forall b', ~ 0 < n <= Z.of_nat DECK_SERIAL_ROUTER_BLOCK_BYTES ->
    (pending_output b', pending_offset b', has_pending_output b') = (pending_output b, pending_offset b, has_pending_output b) ->
    (output_blocks (counters b'), output_bytes (counters b'), last_output_sequence (counters b'))
    = (output_blocks (counters b), output_bytes (counters b), last_output_sequence (counters b)) ->
    input_bytes (counters b') = input_bytes (counters b) -> carries b' ((log ++ [Authority g]) ++ [ReadInput n data])).
  { intros b' Hn E1 E2 E3. rewrite <- app_assoc.
    assert (Hr : in_range {| authority := g; received := n; buffer := data; accepted := false |} = false)
      by (unfold in_range; cbn [received]; apply andb_false_iff; lia).
    pose proof (input_round_joins b b' log completed rounds
      {| authority := g; received := n; buffer := data; accepted := false |} Ho Hi E1 E2) as Hj.
    unfold round_events in Hj. rewrite Hr in Hj. by apply Hj. }
  match goal with |- context [if ?c then _ else _] => destruct c eqn:Hbad end; cbn [fst snd mret M_ret].
  { apply Hquiet; try done. bool_cases; lia. }
  destruct (n =? 0) eqn:Hz; cbn [fst snd mret M_ret]; bool_prop.
  { apply Hquiet; try done. lia. }
  run. cbn [submit_input logged observed input set_field]. destruct (submit_input _ g w4) as [ok w5]. cbn [fst snd].
  rewrite <- !app_assoc. cbn [app].
  assert (Hr : forall ok, in_range {| authority := g; received := n; buffer := data; accepted := ok |} = true)
    by (intros; unfold in_range; cbn [received]; apply andb_true_iff; lia).
  pose proof (fun b' => input_round_joins b b' log completed rounds
      {| authority := g; received := n; buffer := data; accepted := ok |} Ho Hi) as Hj.
  unfold round_events in Hj. rewrite Hr in Hj. cbn [authority received buffer accepted] in Hj.
  destruct ok; cbn [negb mret M_ret fst snd]; by apply Hj.
Qed.

(** The other counters. *)
Lemma write_counts (b : deck_serial_usb_bridge) (w : W) (log : list usb_event) :
  has_pending_output b = true -> carries b log -> counted (counters b) log ->
  let out := @write_pending _ logged b (w, log) in counted (counters out.1.2) out.2.2.
Proof.
  intros Hb (completed & rounds & Ho & Hi) Hc. unfold write_pending.
  set (left := (o_length (pending_output b) - pending_offset b)%nat).
  set (offered := take left (drop (pending_offset b) (o_bytes (pending_output b)))).
  run. cbn [write_output logged observed].
  destruct (write_output offered w) as [n w']. cbn [fst snd].
  pose proof (output_writes b log completed n Hb Ho) as (Hlen & _). fold left offered in Hlen.
  rewrite <- Hlen. destruct ((n <? 0) || (Z.of_nat (List.length offered) <? n)) eqn:Hbad; cbn [fst snd mret M_ret].
  - eapply counted_snoc; [..|exact Hc]; cbn; rewrite ?Hbad; try done. bool_cases; case_match; bool_prop; try done; lia.
  - destruct (n =? 0) eqn:Hz; cbn [fst snd mret M_ret]; [|case_match];
      (eapply counted_snoc; [..|exact Hc]; cbn; rewrite ?Hbad, ?Hz; done).
Qed.

Lemma output_counts (b : deck_serial_usb_bridge) (w : W) (log : list usb_event) :
  carries b log -> counted (counters b) log ->
  let out := @deck_serial_usb_bridge_pump_output _ logged b (w, log) in counted (counters out.1.2) out.2.2.
Proof.
  intros Hcarry Hc. unfold deck_serial_usb_bridge_pump_output. run. cbn [connected logged observed].
  destruct (connected w) as [up w1]. cbn [fst snd]. destruct up; cbn [negb mret M_ret fst snd];
    [|by eapply counted_snoc; [..|exact Hc]].
  apply (carries_unseen b _ (Connected true)) in Hcarry; [|done..].
  apply (counted_snoc _ (counters b) _ (Connected true)) in Hc; [|done..].
  destruct (has_pending_output b) eqn:Hb; [by apply write_counts|]. run. cbn [take_output logged observed].
  pose proof (blocks_are_arrays w1) as Hl. destruct (take_output w1) as [[result block] w2]. cbn [fst snd] in *.
  destruct result; cbn [fst snd mret M_ret]; try (by eapply counted_snoc; [..|exact Hc]).
  destruct (_ || _) eqn:Hguard; cbn [fst snd mret M_ret].
  - assert (sendable DECK_SERIAL_ROUTER_COPY_OK block = false) as Hs.
    { unfold sendable. apply andb_false_iff. apply orb_true_iff in Hguard as [Hg|Hg]; bool_prop;
        [left; apply Nat.ltb_ge; lia|right; apply Nat.leb_gt; lia]. }
    eapply counted_snoc; [..|exact Hc]; try done. cbn -[sendable]. by rewrite Hs.
  - assert (sendable DECK_SERIAL_ROUTER_COPY_OK block = true) as Hs.
    { unfold sendable. apply orb_false_iff in Hguard as [H1 H2]. bool_prop. apply andb_true_iff. split; [apply Nat.ltb_lt|apply Nat.leb_le]; lia. }
    apply write_counts; [done| |].
    + destruct Hcarry as (completed & rounds & Ho & Hi). exists completed, rounds. split; [by apply output_takes|].
      eapply (input_frame b); [reflexivity|rewrite input_events_app; apply app_nil_r|exact Hi].
    + eapply counted_snoc; [..|exact Hc]; try done. cbn -[sendable]. by rewrite Hs.
Qed.

Lemma input_counts (b : deck_serial_usb_bridge) (w : W) (log : list usb_event) :
  counted (counters b) log ->
  let out := @deck_serial_usb_bridge_pump_input _ logged b (w, log) in counted (counters out.1.2) out.2.2.
Proof.
  intros Hc. unfold deck_serial_usb_bridge_pump_input. run. cbn [connected logged observed].
  destruct (connected w) as [up w1]. cbn [fst snd]. destruct up; cbn [negb mret M_ret fst snd];
    [|by eapply counted_snoc; [..|exact Hc]].
  apply (counted_snoc _ (counters b) _ (Connected true)) in Hc; [|done..].
  run. cbn [input_ready logged observed]. destruct (input_ready w1) as [ready w2]. cbn [fst snd].
  destruct ready; cbn [negb mret M_ret fst snd]; [|by eapply counted_snoc; [..|exact Hc]].
  apply (counted_snoc _ (counters b) _ (Ready true)) in Hc; [|done..].
  run. cbn [input_authority_generation logged observed]. destruct (input_authority_generation w2) as [g w3]. cbn [fst snd].
  apply (counted_snoc _ (counters b) _ (Authority g)) in Hc; [|done..].
  run. cbn [read_input logged observed]. destruct (read_input _ w3) as [[n data] w4]. cbn [fst snd].
  destruct ((n <? 0) || (Z.of_nat DECK_SERIAL_ROUTER_BLOCK_BYTES <? n)) eqn:Hbad; cbn [fst snd mret M_ret].
  { eapply counted_snoc; [..|exact Hc]; cbn [is_input_failure]; rewrite ?Hbad; done. }
  apply (counted_snoc _ (counters b) _ (ReadInput n data)) in Hc; [|try done; cbn [is_input_failure]; by rewrite Hbad..].
  destruct (n =? 0); cbn [fst snd mret M_ret]; [exact Hc|].
  run. cbn [submit_input logged observed input set_field]. destruct (submit_input _ g w4) as [ok w5]. cbn [fst snd].
  destruct ok; cbn [negb mret M_ret fst snd]; by eapply counted_snoc; [..|exact Hc].
Qed.

Lemma pumps_carry pumps (b : deck_serial_usb_bridge) (w : W) (log : list usb_event) :
  carries b log -> counted (counters b) log ->
  let out := @pump_all _ logged pumps b (w, log) in carries out.1 out.2.2 /\ counted (counters out.1) out.2.2.
Proof.
  revert b w log. induction pumps as [|p pumps IH]; intros b w log Hc Hn; [done|]. cbn [pump_all].
  assert (Hstep : let out := @pump_once _ logged p b (w, log) in carries out.1.2 out.2.2 /\ counted (counters out.1.2) out.2.2)
    by (destruct p; (split; [by first [apply output_carries|apply input_carries]|by first [apply output_counts|apply input_counts]])).
  cbv zeta in Hstep |- *. run. destruct (@pump_once _ logged p b (w, log)) as [[r b'] [w' log']]. by apply IH; apply Hstep.
Qed.
End Invariant.

Lemma created_carries b : deck_serial_usb_bridge_create true = Some b -> carries b [].
Proof. intros [= <-]. exists [], []. split; split; done. Qed.

Lemma created_counted b : deck_serial_usb_bridge_create true = Some b -> counted (counters b) [].
Proof. intros [= <-]. by split. Qed.

(** C24: The bridge carries both directions unchanged.  For every sequence of pumps
    of the two tasks and every behaviour of the driver and the service (short
    writes, refusals, impossible answers, disconnections), from the creation
    of the bridge on: the bytes the driver took are the blocks taken from the
    router, whole and in order, and then a prefix of the one block still
    pending, so that no byte is lost, repeated or sent out of order; every read
    is submitted at most once, with exactly the bytes that were read and the
    authority that was in force before the read; and every counter is the
    saturated total of what it names: the blocks and bytes that went out whole,
    the bytes and the number of the submissions that were accepted, the refused
    ones, the reads that failed, the calls at which the service was not ready
    or the host took nothing, the blocks and writes that failed, and the calls
    that found the host disconnected ([counted]). *)
Theorem usb_carries_both_directions {W} `{UsbIo W} (pumps : list pump) (b0 : deck_serial_usb_bridge) (w : W) :
  (forall w : W, List.length (o_bytes (take_output w).1.2) = DECK_SERIAL_ROUTER_BLOCK_BYTES) ->
  deck_serial_usb_bridge_create true = Some b0 ->
  let '(b, (_, log)) := run_logged pumps b0 w in
  exists completed rounds,
    taken log = completed ++ (if has_pending_output b then [pending_output b] else [])
    /\ sent log = (completed ≫= block_bytes)
                  ++ (if has_pending_output b then take (pending_offset b) (block_bytes (pending_output b)) else [])
    /\ input_events log = rounds ≫= round_events
    /\ let stats := deck_serial_usb_bridge_stats b in
       output_blocks stats = Z.min U64_MAX (Z.of_nat (List.length completed))
       /\ output_bytes stats = Z.min U64_MAX (Z.of_nat (List.length (completed ≫= block_bytes)))
       /\ last_output_sequence stats = default 0 (o_sequence <$> last completed)
       /\ input_bytes stats = Z.min U64_MAX (delivered rounds)
       /\ counted stats log.
Proof.
  intros Harrays Hcreate. destruct (pumps_carry Harrays pumps b0 w [] (created_carries b0 Hcreate) (created_counted b0 Hcreate)) as [Hc Hn].
  unfold run_logged. destruct (pump_all pumps b0 (w, [])) as [b [w' log]].
  destruct Hc as (completed & rounds & [] & []). exists completed, rounds. split_and!; done.
Qed.

(** ** The router behind the bridge *)
Module UsbExample.
(** A router with two blocks for the USB sink, a host that takes two bytes of
    every write and sends one byte, and a service that takes it. *)
Definition array (block : deck_serial_routed_block_t) : deck_serial_routed_block_t := {|
  o_session_id := o_session_id block; o_sequence := o_sequence block; o_monotonic_ms := o_monotonic_ms block;
  o_length := o_length block; o_bytes := resize DECK_SERIAL_ROUTER_BLOCK_BYTES 0 (o_bytes block) |}.

#[local] Instance router_io : UsbIo deck_serial_router := {|
  connected := mret true;
  take_output := fun r =>
    let '(result, block, r) := deck_serial_router_take r DECK_SERIAL_SINK_USB in
    ((result, array (default zero_block block)), r);
  write_output := fun data => mret (Z.min 2 (Z.of_nat (List.length data)));
  input_ready := mret true;
  input_authority_generation := mret 7;
  read_input := fun capacity => mret (1, replicate capacity 65);
  submit_input := fun _ _ => mret true;
|}.

Definition router : deck_serial_router :=
  match deck_serial_router_create 9 512 0 true with
  | Some r =>
      let r := (deck_serial_router_register_sink r {| c_id := DECK_SERIAL_SINK_USB; c_capacity_bytes := 512; c_retained := false |} true).2 in
      let r := (deck_serial_router_submit r {| i_monotonic_ms := 1; i_length := 3; i_bytes := [104; 105; 33] |}).2 in
      (deck_serial_router_submit r {| i_monotonic_ms := 2; i_length := 2; i_bytes := [111; 107] |}).2
  | None => {| session_id := 0; pool_capacity_bytes := 0; pool_blocks := 0; payloads := []; metadata := []; free_head := 0;
               sinks := []; stats := {| accepted_bytes := 0; accepted_blocks := 0; last_sequence := 0; pool_exhaustions := 0;
                 uart_fifo_overflows := 0; uart_driver_buffer_full := 0; router_starvations := 0 |} |}
  end.

Definition bridge : deck_serial_usb_bridge :=
  match deck_serial_usb_bridge_create true with Some b => b | None => {|
    pending_output := zero_block; pending_offset := 0; has_pending_output := false; input := [];
    counters := {| output_bytes := 0; output_blocks := 0; output_backpressure := 0; output_failures := 0;
      last_output_sequence := 0; input_bytes := 0; input_blocks := 0; input_backpressure := 0;
      input_failures := 0; input_submit_failures := 0; disconnect_observations := 0 |} |} end.

Definition pumps : list pump := [Output; Input; Output; Output].

Lemma arrays (r : deck_serial_router) : List.length (o_bytes (take_output r).1.2) = DECK_SERIAL_ROUTER_BLOCK_BYTES.
Proof.
  cbn [take_output router_io]. destruct (deck_serial_router_take r DECK_SERIAL_SINK_USB) as [[result block] r'].
  apply length_resize.
Qed.
End UsbExample.

Lemma usb_carries_both_directions_witness :
  sent (run_logged (H := UsbExample.router_io) UsbExample.pumps UsbExample.bridge UsbExample.router).2.2
  = [104; 105; 33; 111; 107]
  /\ let '(b, (_, log)) := run_logged (H := UsbExample.router_io) UsbExample.pumps UsbExample.bridge UsbExample.router in
     exists completed rounds,
       taken log = completed ++ (if has_pending_output b then [pending_output b] else [])
       /\ sent log = (completed ≫= block_bytes)
                     ++ (if has_pending_output b then take (pending_offset b) (block_bytes (pending_output b)) else [])
       /\ input_events log = rounds ≫= round_events
       /\ let stats := deck_serial_usb_bridge_stats b in
          output_blocks stats = Z.min U64_MAX (Z.of_nat (List.length completed))
          /\ output_bytes stats = Z.min U64_MAX (Z.of_nat (List.length (completed ≫= block_bytes)))
          /\ last_output_sequence stats = default 0 (o_sequence <$> last completed)
          /\ input_bytes stats = Z.min U64_MAX (delivered rounds)
          /\ counted stats log.
Proof.
  split; [vm_compute; reflexivity|].
  apply (usb_carries_both_directions (H := UsbExample.router_io)); [apply UsbExample.arrays | reflexivity].
Defined.
