(* ===== verification/SerialService.v ===== *)
(** * The serial service

    [components/serial_service/deck_serial_service.cpp]: the owner task, which
    alone holds the serial session and writes to the target UART, and the
    functions through which the application, the companion link and the USB
    input task reach it: a queue of commands, a queue of blocks for each
    source, and a few atomics.  The data path of a session (the router, the
    queues, the drivers and four tasks) is set up and torn down by the
    hardware adapter of the session.

    The tasks interleave at their accesses of shared state: before each of its
    accesses the owner lets the others make those that the [schedule] of the
    world has for it ([interfere]).  The theorems are about every schedule. *)

From S2P Require Import Prelude SerialRouter SerialSession.

Definition kInputBlockCount : nat := 16.
Definition kUsbInputQueueDepth : nat := 16.
Definition kWebInputQueueDepth : nat := 16.
Definition kUsbSinkBytes : Z := 16 * 1024.
Definition kWssSinkBytes : Z := 16 * 1024.
Definition kStatsSinkBytes : Z := 256.
Definition kCommandQueueDepth : nat := 16.
Definition DECK_SERIAL_DEFAULT_WEB_LEASE_MS : Z := 600000.

(** ** The build and the platform *)

(** [CONFIG_DECK_DIAGNOSTIC_CONSOLE] and [CONFIG_DECK_SERIAL_HISTORY_KIB]; the
    bounds are the static assertions. *)
Class SerialBuild := {
  kUsbBridgeEnabled : bool;
  kHistoryBytes : Z;
  history_bounds : DECK_SERIAL_HISTORY_MIN_BYTES <= kHistoryBytes <= DECK_SERIAL_HISTORY_MAX_BYTES
    /\ kHistoryBytes mod 256 = 0;
}.

Record deck_serial_service_event_t := {
  event_snapshot : deck_serial_session_snapshot_t;
  event_router_stats : option deck_serial_router_stats_t;
  event_command_result : option deck_serial_command_result_t;
}.

(** What the service calls: ESP-IDF, FreeRTOS and the callback, with what each
    call answers. *)
Inductive platform_call : Type -> Type :=
  | esp_timer_get_time : platform_call Z
  | set_target_tx_high_impedance : platform_call bool
  (** a queue, an event group, a mutex or memory *)
  | allocate : platform_call bool
  | uart_driver_install : platform_call bool
  | uart_param_config : platform_call bool
  | uart_set_pin : platform_call bool
  | uart_is_driver_installed : platform_call bool
  | uart_driver_delete : platform_call bool
  | uart_tx_chars (data : bytes) : platform_call Z
  | usb_serial_jtag_driver_install : platform_call bool
  | usb_serial_jtag_driver_uninstall : platform_call bool
  | xTaskCreatePinnedToCore : platform_call bool
  (** whether the awaited bits of the data path's event group were set *)
  | wait_for_tasks : platform_call bool
  (** whether a mutex was free in time *)
  | xSemaphoreTake : platform_call bool
  | callback (event : deck_serial_service_event_t) : platform_call unit.

(** The answers, over an arbitrary state of the platform. *)
Class SerialPlatform (D : Type) := perform : forall {A}, platform_call A -> M D A.

(** ** Commands, blocks and state *)

Inductive CommandKind := enter | exit | request_web | web_activity | web_disconnect | revoke_web_transport | stop.

#[export] Instance serial_command_kind_eq_dec : EqDecision CommandKind.
Proof. solve_decision. Defined.

(** [born] is a ghost, here and in the blocks: the number of Web transports
    that were being revoked when it was made. *)
Record Command := {
  kind : CommandKind;
  enable : bool;
  command_session_id : Z;
  request_id : Z;
  command_lease_id : Z;
  command_epoch : Z;
  born : nat;
}.
#[export] Instance command_rebuild : Rebuild Command := fun c =>
  Build_Command (kind c) (enable c) (command_session_id c) (request_id c) (command_lease_id c) (command_epoch c) (born c).

(** The bytes are the first [length] of the array.  [number] is a ghost that
    counts the blocks of the source. *)
Record UsbInputBlock := {
  block_generation : Z;
  usb_bytes : bytes;
  usb_number : nat;
}.

Record WebInputBlock := {
  block_session_id : Z;
  block_lease_id : Z;
  web_bytes : bytes;
  web_number : nat;
  web_born : nat;
}.

Definition no_usb_block : UsbInputBlock := {| block_generation := 0; usb_bytes := []; usb_number := 0 |}.
Definition no_web_block : WebInputBlock :=
  {| block_session_id := 0; block_lease_id := 0; web_bytes := []; web_number := 0; web_born := 0 |}.

Inductive InputDrainResult := idle | progress | stalled | rejected.

#[export] Instance drain_result_eq_dec : EqDecision InputDrainResult.
Proof. solve_decision. Defined.

(** A pointer or handle of the data path is whether it is set, a queue of
    blocks its content. *)
Record SerialDataPath := {
  router : option deck_serial_router;
  usb_bridge : bool;
  uart_events : bool;
  free_blocks : bool;
  filled_blocks : bool;
  usb_input_blocks : option (list UsbInputBlock);
  web_input_blocks : option (list WebInputBlock);
  path_lifecycle : bool;
  rx_task : bool;
  router_task : bool;
  usb_output_task : bool;
  usb_input_task : bool;
  input_blocks : bool;
  usb_driver_owned : bool;
  path_stop_requested : bool;
}.
#[export] Instance path_rebuild : Rebuild SerialDataPath := fun p =>
  Build_SerialDataPath (router p) (usb_bridge p) (uart_events p) (free_blocks p) (filled_blocks p) (usb_input_blocks p)
    (web_input_blocks p) (path_lifecycle p) (rx_task p) (router_task p) (usb_output_task p) (usb_input_task p)
    (input_blocks p) (usb_driver_owned p) (path_stop_requested p).

Definition empty_path : SerialDataPath := {|
  router := None; usb_bridge := false; uart_events := false; free_blocks := false; filled_blocks := false;
  usb_input_blocks := None; web_input_blocks := None; path_lifecycle := false; rx_task := false; router_task := false;
  usb_output_task := false; usb_input_task := false; input_blocks := false; usb_driver_owned := false;
  path_stop_requested := false |}.

(** The event group [lifecycle] is its two bits. *)
Record deck_serial_service := {
  commands : list Command;
  session : option deck_serial_session;
  latest_snapshot : deck_serial_session_snapshot_t;
  latest_command_result : option deck_serial_command_result_t;
  published_router_stats : option deck_serial_router_stats_t;
  pending_usb_input : UsbInputBlock;
  pending_usb_offset : nat;
  has_pending_usb_input : bool;
  pending_usb_authorized : bool;
  pending_web_input : WebInputBlock;
  pending_web_offset : nat;
  has_pending_web_input : bool;
  usb_input_authority_generation : Z;
  pending_usb_rejected_bytes : Z;
  stop_requested : bool;
  service_control_epoch : Z;
  service_web_transport_epoch : Z;
  completed_web_revoke_epoch : Z;
  kReadyBit : bool;
  kStoppedBit : bool;
  data_path : SerialDataPath;
}.
#[export] Instance serial_service_rebuild : Rebuild deck_serial_service := fun s =>
  Build_deck_serial_service (commands s) (session s) (latest_snapshot s) (latest_command_result s)
    (published_router_stats s) (pending_usb_input s) (pending_usb_offset s) (has_pending_usb_input s)
    (pending_usb_authorized s) (pending_web_input s) (pending_web_offset s) (has_pending_web_input s)
    (usb_input_authority_generation s) (pending_usb_rejected_bytes s) (stop_requested s) (service_control_epoch s)
    (service_web_transport_epoch s) (completed_web_revoke_epoch s) (kReadyBit s) (kStoppedBit s) (data_path s).

(** ** The other tasks *)

(** Where a call by the application or the link task stands: waiting for the
    owner task to be ready; behind the check that the service is not stopped;
    behind the check of [stop_requested]; putting its command at the back or the
    front of the queue; waiting for the service to stop; handing in a block,
    before and behind the check of the published snapshot. *)
Inductive caller_state :=
  | Starting
  | Free
  | Stopping
  | Stamping (command : Command) (front first_request : bool)
  | Queuing (command : Command) (front first_request : bool)
  | StopWaiting
  | Submitting (session_id lease_id : Z) (data : bytes) (checked : bool)
  | Deleted.

(** The USB input task in a pump of its bridge: behind [usb_input_ready], and
    behind its reading of the authority. *)
Inductive usb_task_state := UsbIdle | UsbReady | UsbHolding (generation : Z).

Inductive action :=
  | CallEnter | CallExit | CallStop
  | AppProceed | AppTimeOut
  | CallRequestWeb (session_id request_id : Z) (enable : bool)
  | CallWebActivity (session_id lease_id : Z)
  | CallWebDisconnect (session_id lease_id : Z)
  | CallRevoke
  | CallRevoked (revoke_epoch : Z)
  | CallSubmitWeb (session_id lease_id : Z) (data : bytes)
  | LinkProceed | LinkTimeOut
  | UsbCheck
  | UsbLoad
  | UsbSubmit (data : bytes)
  | RouterMoves (r : deck_serial_router).

(** A call of [uart_tx_chars]: what it was given and what it answered, the
    session the owner had then, and two of the ghosts below at that time. *)
Record uart_call := {
  sent : bytes;
  answer : Z;
  writer : option deck_serial_session;
  acknowledged_before : nat;
  granted_before : nat;
}.

(** A call of [submit_usb_input], and one of [deck_serial_service_submit_web]
    that was accepted, with how many transports had been revoked then. *)
Record usb_submission := { submitted_generation : Z; submitted_usb : bytes }.
Record web_submission := {
  submitted_session : Z;
  submitted_lease : Z;
  submitted_web : bytes;
  submitted_after : nat;
}.

(** Ghosts: Web transports that were being revoked so far; the highest of them
    that was acknowledged; [born] of the request that granted the last lease;
    what either source submitted; the calls of [uart_tx_chars]. *)
Record ghost_state := {
  transports : nat;
  acknowledged : nat;
  granted : nat;
  usb_submitted : list usb_submission;
  web_submitted : list web_submission;
  calls : list uart_call;
}.
#[export] Instance serial_ghost_rebuild : Rebuild ghost_state := fun g =>
  Build_ghost_state (transports g) (acknowledged g) (granted g) (usb_submitted g) (web_submitted g) (calls g).

(** [locked]: the owner holds [router_mutex]. *)
Record world {D : Type} := {
  service : deck_serial_service;
  platform : D;
  app : caller_state;
  link : caller_state;
  usb_task : usb_task_state;
  locked : bool;
  schedule : list (list action);
  ghost : ghost_state;
}.
Arguments world : clear implicits.
#[export] Instance serial_world_rebuild {D} : Rebuild (world D) := fun w =>
  Build_world D (service w) (platform w) (app w) (link w) (usb_task w) (locked w) (schedule w) (ghost w).

Definition has_room {A} (queue : list A) (depth : nat) : bool := (List.length queue <? depth)%nat.

(** The arguments of the calls are 64-bit words. *)
Definition new_command (k : CommandKind) (on : bool) (sid rid lease : Z) : Command := {|
  kind := k; enable := on; command_session_id := u64 sid; request_id := u64 rid; command_lease_id := u64 lease;
  command_epoch := 0; born := 0 |}.

(** [advance_control_epoch] and [advance_web_transport_epoch]: the loop of
    compare-exchanges ends with the next epoch, never zero. *)
Definition advance_epoch (current : Z) : Z := let next := u64 (current + 1) in if next =? 0 then 1 else next.

Section Callers.
Context {D : Type}.
Implicit Types (w : world D) (s : deck_serial_service).

(** [enqueue] and the calls that put a command at the front. *)
Definition begin_call (c : Command) (front : bool) s : caller_state :=
  if stop_requested s then Free else Stamping c front false.

Definition deck_serial_service_enter s : caller_state := begin_call (new_command enter false 0 0 0) false s.
Definition deck_serial_service_exit s : caller_state := begin_call (new_command exit false 0 0 0) true s.
Definition deck_serial_service_request_web (sid rid : Z) (on : bool) s : caller_state :=
  begin_call (new_command request_web on sid rid 0) false s.
Definition deck_serial_service_web_activity (sid lease : Z) s : caller_state :=
  begin_call (new_command web_activity false sid 0 lease) false s.
Definition deck_serial_service_web_disconnect (sid lease : Z) s : caller_state :=
  begin_call (new_command web_disconnect false sid 0 lease) false s.
Definition deck_serial_service_revoke_web_transport s : caller_state :=
  begin_call (new_command revoke_web_transport false 0 0 0) true s.

Definition deck_serial_service_stop s : caller_state := if kStoppedBit s then StopWaiting else Stopping.

Definition deck_serial_service_web_transport_revoked (revoke_epoch : Z) s : bool :=
  negb (revoke_epoch =? 0) && (completed_web_revoke_epoch s =? revoke_epoch).

Definition deck_serial_service_submit_web (sid lease : Z) (data : bytes) s : caller_state :=
  if (List.length data =? 0)%nat || (DECK_SERIAL_ROUTER_BLOCK_BYTES <? List.length data)%nat
     || (sid =? 0) || (lease =? 0) || stop_requested s
  then Free else Submitting sid lease data false.

(** The functions that read, with whether their mutex was free in time. *)
Definition deck_serial_service_snapshot (taken : bool) s : option deck_serial_session_snapshot_t :=
  if taken then Some (latest_snapshot s) else None.

Definition deck_serial_service_command_result (rid : Z) (taken : bool) s : option deck_serial_command_result_t :=
  if (rid =? 0) || negb taken then None
  else
    match latest_command_result s with
    | Some result => if r_request_id result =? rid then Some result else None
    | None => None
    end.

Definition deck_serial_service_take (sink : Z) (taken : bool) s :
    deck_serial_router_copy_result_t * option deck_serial_routed_block_t * deck_serial_service :=
  match (if taken then router (data_path s) else None) with
  | None => (DECK_SERIAL_ROUTER_COPY_INVALID, None, s)
  | Some r =>
      let '(result, block, r) := deck_serial_router_take r sink in
      (result, block, s <| data_path := (data_path s) <| router := Some r |> |>)
  end.

Definition deck_serial_service_copy_history_after (after : Z) (taken : bool) s :
    deck_serial_router_copy_result_t * option deck_serial_routed_block_t * deck_serial_service :=
  match (if taken then router (data_path s) else None) with
  | None => (DECK_SERIAL_ROUTER_COPY_INVALID, None, s)
  | Some r =>
      let '(result, block, r) := deck_serial_router_copy_after r DECK_SERIAL_SINK_HISTORY after in
      (result, block, s <| data_path := (data_path s) <| router := Some r |> |>)
  end.

Definition deck_serial_service_sink_stats (sink : Z) (taken : bool) s : option deck_serial_sink_stats_t :=
  if taken then router (data_path s) ≫= fun r => deck_serial_router_sink_stats r sink else None.

Definition deck_serial_service_router_stats (taken : bool) s : option deck_serial_router_stats_t :=
  if taken then SerialRouter.stats <$> router (data_path s) else None.

(** The epoch a command is stamped with; those at the front open a new one. *)
Definition stamp_command (c : Command) (first_request : bool) w : Command * world D :=
  let s := service w in
  match kind c with
  | exit =>
      let next := advance_epoch (service_control_epoch s) in
      (c <| command_epoch := next |>, w <| service := s <| service_control_epoch := next |> |>)
  | stop =>
      let next := if first_request then advance_epoch (service_control_epoch s) else service_control_epoch s in
      (c <| command_epoch := next |>, w <| service := s <| service_control_epoch := next |> |>)
  | revoke_web_transport =>
      let next := advance_epoch (service_web_transport_epoch s) in
      (c <| command_epoch := next |> <| born := S (transports (ghost w)) |>,
       w <| service := s <| service_web_transport_epoch := next |> |>
         <| ghost := (ghost w) <| transports := S (transports (ghost w)) |> |>)
  | request_web => (c <| command_epoch := service_web_transport_epoch s |> <| born := transports (ghost w) |>, w)
  | _ => (c <| command_epoch := service_control_epoch s |> <| born := transports (ghost w) |>, w)
  end.

Definition web_submits (sid lease : Z) (data : bytes) (g : ghost_state) : ghost_state :=
  let submission := {| submitted_session := sid; submitted_lease := lease; submitted_web := data; submitted_after := transports g |} in
  g <| web_submitted := web_submitted g ++ [submission] |>.

Definition usb_submits (generation : Z) (data : bytes) (g : ghost_state) : ghost_state :=
  g <| usb_submitted := usb_submitted g ++ [{| submitted_generation := generation; submitted_usb := data |}] |>.

(** The next access of a call in progress. *)
Definition caller_step (caller : caller_state) w : caller_state * world D :=
  let s := service w in
  match caller with
  | Stopping =>
      (Stamping (new_command stop false 0 0 0) true (negb (stop_requested s)), w <| service := s <| stop_requested := true |> |>)
  | Stamping c front first_request => let '(c, w) := stamp_command c first_request w in (Queuing c front first_request, w)
  | Queuing c front first_request =>
      if has_room (commands s) kCommandQueueDepth then
        (if bool_decide (kind c = stop) then StopWaiting else Free,
         w <| service := s <| commands := if front then c :: commands s else commands s ++ [c] |> |>)
      else if front then (caller, w) else (Free, w)
  | StopWaiting => (if kStoppedBit s then Deleted else StopWaiting, w)
  | Submitting sid lease data false =>
      let snapshot := latest_snapshot s in
      if negb (bool_decide (snapshot_state snapshot = DECK_SERIAL_WEB_TX)) || negb (snapshot_uart_installed snapshot)
         || negb (snapshot_session_id snapshot =? sid) || negb (snapshot_lease_id snapshot =? lease)
      then (Free, w) else (Submitting sid lease data true, w)
  | Submitting sid lease data true =>
      if locked w then (caller, w)
      else
        match web_input_blocks (data_path s) with
        | None => (Free, w)
        | Some queue =>
            if negb (has_room queue kWebInputQueueDepth) then (Free, w)
            else
              let block := {| block_session_id := sid; block_lease_id := lease; web_bytes := data;
                              web_number := List.length (web_submitted (ghost w)); web_born := transports (ghost w) |} in
              (Free, w <| service := s <| data_path := (data_path s) <| web_input_blocks := Some (queue ++ [block]) |> |> |>
                       <| ghost := web_submits sid lease data (ghost w) |>)
        end
  | _ => (caller, w)
  end.

(** A wait that lasted too long. *)
Definition caller_time_out (caller : caller_state) w : caller_state * world D :=
  match caller with
  | Queuing c true first_request =>
      (Free, if bool_decide (kind c = stop) && first_request
             then w <| service := (service w) <| stop_requested := false |> |> else w)
  | StopWaiting | Submitting _ _ _ _ => (Free, w)
  | _ => (caller, w)
  end.

(** The adapter of the USB bridge. *)
Definition usb_input_ready s : bool :=
  negb (path_stop_requested (data_path s))
  && match usb_input_blocks (data_path s) with
     | None => false
     | Some queue => (usb_input_authority_generation s =? 0) || has_room queue kUsbInputQueueDepth
     end.

Definition submit_usb_input (generation : Z) (data : bytes) w : world D :=
  let s := service w in
  if (List.length data =? 0)%nat || (DECK_SERIAL_ROUTER_BLOCK_BYTES <? List.length data)%nat then w
  else
    match usb_input_blocks (data_path s) with
    | None => w
    | Some queue =>
        if stop_requested s then w
        else if generation =? 0 then
          w <| service := s <| pending_usb_rejected_bytes :=
                 saturating_add (pending_usb_rejected_bytes s) (Z.of_nat (List.length data)) |> |>
        else if negb (has_room queue kUsbInputQueueDepth) then w
        else
          let block := {| block_generation := generation; usb_bytes := data; usb_number := List.length (usb_submitted (ghost w)) |} in
          w <| service := s <| data_path := (data_path s) <| usb_input_blocks := Some (queue ++ [block]) |> |> |>
    end.

Definition app_call (caller : caller_state) w : world D := match app w with Free => w <| app := caller |> | _ => w end.
Definition link_call (caller : caller_state) w : world D := match link w with Free => w <| link := caller |> | _ => w end.

(** The next access of another task while the service is running. *)
Definition task_step w (a : action) : world D :=
  let s := service w in
  match a with
  | CallEnter => app_call (deck_serial_service_enter s) w
  | CallExit => app_call (deck_serial_service_exit s) w
  | CallStop => app_call (deck_serial_service_stop s) w
  | AppProceed => let '(caller, w) := caller_step (app w) w in w <| app := caller |>
  | AppTimeOut => let '(caller, w) := caller_time_out (app w) w in w <| app := caller |>
  | CallRequestWeb sid rid on => link_call (deck_serial_service_request_web sid rid on s) w
  | CallWebActivity sid lease => link_call (deck_serial_service_web_activity sid lease s) w
  | CallWebDisconnect sid lease => link_call (deck_serial_service_web_disconnect sid lease s) w
  | CallRevoke => link_call (deck_serial_service_revoke_web_transport s) w
  | CallRevoked epoch =>
      if deck_serial_service_web_transport_revoked epoch s
      then w <| ghost := (ghost w) <| acknowledged := Nat.max (acknowledged (ghost w)) (Z.to_nat epoch) |> |> else w
  | CallSubmitWeb sid lease data => link_call (deck_serial_service_submit_web sid lease data s) w
  | LinkProceed => let '(caller, w) := caller_step (link w) w in w <| link := caller |>
  | LinkTimeOut => let '(caller, w) := caller_time_out (link w) w in w <| link := caller |>
  | UsbCheck => match usb_task w with UsbIdle => if usb_input_ready s then w <| usb_task := UsbReady |> else w | _ => w end
  | UsbLoad =>
      match usb_task w with UsbReady => w <| usb_task := UsbHolding (usb_input_authority_generation s) |> | _ => w end
  | UsbSubmit data =>
      match usb_task w with
      | UsbHolding generation =>
          let w' := submit_usb_input generation data w in
          w' <| usb_task := UsbIdle |> <| ghost := usb_submits generation data (ghost w') |>
      | _ => w
      end
  | RouterMoves r =>
      match router (data_path s) with
      | Some _ => w <| service := s <| data_path := (data_path s) <| router := Some r |> |> |>
      | None => w
      end
  end.

(** None before [deck_serial_service_start] has returned the service, nor once
    it is deleted. *)
Definition other_step w (a : action) : world D :=
  match app w with
  | Deleted => w
  | Starting =>
      match a with
      | AppProceed =>
          if kReadyBit (service w) then w <| app := Free |>
          else if kStoppedBit (service w) then w <| app := Deleted |> else w
      | AppTimeOut => w <| app := Deleted |>
      | _ => w
      end
  | _ => task_step w a
  end.
End Callers.

(** ** Accesses of the owner task *)

Section Owner.
Context {D : Type} `{SerialBuild} `{SerialPlatform D}.

Definition get : M (world D) deck_serial_service := fun w => (service w, w).

Definition modify (f : deck_serial_service -> deck_serial_service) : M (world D) unit :=
  fun w => (tt, w <| service := f (service w) |>).

Definition modify_path (f : SerialDataPath -> SerialDataPath) : M (world D) unit :=
  modify (fun s => s <| data_path := f (data_path s) |>).

Definition modify_ghost (f : ghost_state -> ghost_state) : M (world D) unit :=
  fun w => (tt, w <| ghost := f (ghost w) |>).

(** Every call of [uart_tx_chars] is recorded. *)
Definition recorded {A} (call : platform_call A) (w : world D) : A -> ghost_state :=
  match call in platform_call A return A -> ghost_state with
  | uart_tx_chars data => fun answer =>
      let g := ghost w in
      g <| calls := calls g ++ [{| sent := data; answer := answer; writer := session (service w);
                                   acknowledged_before := acknowledged g; granted_before := granted g |}] |>
  | _ => fun _ => ghost w
  end.

(** A call of the platform; what the others do meanwhile they do before the
    next access of the owner. *)
Definition esp {A} (call : platform_call A) : M (world D) A :=
  fun w => let '(a, d) := perform call (platform w) in (a, w <| platform := d |> <| ghost := recorded call w a |>).

Definition interfere : M (world D) unit := fun w =>
  match schedule w with
  | [] => (tt, w)
  | batch :: rest => (tt, fold_left other_step batch (w <| schedule := rest |>))
  end.

(** An access of shared state. *)
Definition access (f : deck_serial_service -> deck_serial_service) : M (world D) unit := _ ← interfere; modify f.

Definition lock_router : M (world D) bool :=
  _ ← interfere;
  taken ← esp xSemaphoreTake;
  _ ← (if taken : bool then (fun w => (tt, w <| locked := true |>)) : M (world D) unit else mret tt);
  mret taken.

Definition unlock_router : M (world D) unit := fun w => (tt, w <| locked := false |>).

Definition monotonic_ms : M (world D) Z :=
  now ← esp esp_timer_get_time;
  mret (u64 (now / 1000)).

(** [&&] of calls *)
Definition and_then (first second : M (world D) bool) : M (world D) bool :=
  ok ← first;
  if ok : bool then second else mret false.

(** ** The data path *)

(** [xQueueReset] of a queue that may not be there *)
Definition emptied {A} (queue : option (list A)) : option (list A) := (fun _ => []) <$> queue.

Definition clear_pending_usb_input : M (world D) unit :=
  modify (fun s => s <| pending_usb_input := no_usb_block |> <| pending_usb_offset := 0%nat |>
                     <| has_pending_usb_input := false |> <| pending_usb_authorized := false |>).

Definition clear_usb_input_state : M (world D) unit :=
  _ ← access (fun s => s <| data_path := (data_path s) <| usb_input_blocks := emptied (usb_input_blocks (data_path s)) |> |>);
  clear_pending_usb_input.

Definition clear_pending_web_input : M (world D) unit :=
  modify (fun s => s <| pending_web_input := no_web_block |> <| pending_web_offset := 0%nat |>
                     <| has_pending_web_input := false |>).

Definition clear_web_input_state : M (world D) unit :=
  _ ← access (fun s => s <| data_path := (data_path s) <| web_input_blocks := emptied (web_input_blocks (data_path s)) |> |>);
  clear_pending_web_input.

Definition store_authority (generation : Z) : M (world D) unit :=
  access (fun s => s <| usb_input_authority_generation := generation |>).

Definition store_rejected_zero : M (world D) unit := access (fun s => s <| pending_usb_rejected_bytes := 0 |>).

Definition release_data_path_allocations : M (world D) unit :=
  _ ← store_authority 0;
  _ ← store_rejected_zero;
  _ ← clear_usb_input_state;
  _ ← clear_web_input_state;
  modify_path (fun p => p <| usb_bridge := false |> <| router := None |> <| free_blocks := false |>
    <| filled_blocks := false |> <| usb_input_blocks := None |> <| web_input_blocks := None |>
    <| path_lifecycle := false |> <| input_blocks := false |> <| uart_events := false |>
    <| usb_driver_owned := false |> <| path_stop_requested := false |>).

Definition forget_tasks (p : SerialDataPath) : SerialDataPath :=
  p <| rx_task := false |> <| router_task := false |> <| usb_output_task := false |> <| usb_input_task := false |>.

Definition stop_data_path_tasks : M (world D) bool :=
  _ ← access (fun s => s <| data_path := (data_path s) <| path_stop_requested := true |> |>);
  s ← get;
  let p := data_path s in
  stopped ← (if rx_task p || router_task p || usb_output_task p || usb_input_task p then esp wait_for_tasks else mret true);
  if negb stopped then mret false
  else
    _ ← modify_path forget_tasks;
    mret true.

Definition data_sinks : list deck_serial_sink_config_t := [
  {| c_id := DECK_SERIAL_SINK_USB; c_capacity_bytes := kUsbSinkBytes; c_retained := false |};
  {| c_id := DECK_SERIAL_SINK_WSS; c_capacity_bytes := kWssSinkBytes; c_retained := false |};
  {| c_id := DECK_SERIAL_SINK_HISTORY; c_capacity_bytes := kHistoryBytes; c_retained := true |};
  {| c_id := DECK_SERIAL_SINK_STATS; c_capacity_bytes := kStatsSinkBytes; c_retained := false |}].

(** [register_data_sinks]: the router as far as it was registered. *)
Fixpoint register_data_sinks (sinks : list deck_serial_sink_config_t) (r : deck_serial_router)
    : M (world D) (bool * deck_serial_router) :=
  match sinks with
  | [] => mret (true, r)
  | sink :: sinks =>
      allocated ← esp allocate;
      let '(registered, r) := deck_serial_router_register_sink r sink allocated in
      if negb registered then mret (false, r) else register_data_sinks sinks r
  end.

(** Whether an earlier data path is still there. *)
Definition path_in_use (p : SerialDataPath) : bool :=
  bool_decide (is_Some (router p)) || uart_events p || usb_bridge p || rx_task p || router_task p || usb_output_task p
  || usb_input_task p.

Definition make_queue {A} (allocated : bool) : option (list A) := if allocated then Some [] else None.

(** Sending the input blocks into the queue of free ones, which is as long as
    there are blocks, succeeds. *)
Definition prepare_data_path (sid : Z) : M (world D) bool :=
  s ← get;
  if path_in_use (data_path s) then mret false
  else
    _ ← store_authority 0;
    _ ← store_rejected_zero;
    _ ← access (fun s => s <| data_path := (data_path s) <| path_stop_requested := false |> |>);
    group ← esp allocate;
    free ← esp allocate;
    filled ← esp allocate;
    web ← esp allocate;
    usb ← (if kUsbBridgeEnabled then esp allocate else mret false);
    blocks ← esp allocate;
    created ← esp allocate;
    let r := deck_serial_router_create sid kHistoryBytes 0 created in
    bridge ← (if kUsbBridgeEnabled then esp allocate else mret false);
    _ ← modify_path (fun p => p <| path_lifecycle := group |> <| free_blocks := free |> <| filled_blocks := filled |>
      <| web_input_blocks := make_queue web |> <| usb_input_blocks := make_queue usb |> <| input_blocks := blocks |>
      <| router := r |> <| usb_bridge := bridge |>);
    '(registered, r) ←
      match r with
      | Some r' =>
          if negb group || negb free || negb filled || negb blocks || negb web
             || (kUsbBridgeEnabled && (negb usb || negb bridge))
          then mret (false, r)
          else '(registered, r') ← register_data_sinks data_sinks r'; mret (registered, Some r')
      | None => mret (false, r)
      end;
    _ ← modify_path (fun p => p <| router := r |>);
    if negb registered then
      _ ← release_data_path_allocations;
      mret false
    else mret true.

Definition set_high_impedance : M (world D) unit := _ ← esp set_target_tx_high_impedance; mret tt.

(** [uart_is_driver_installed(...) && uart_driver_delete(...) != ESP_OK] *)
Definition driver_stays : M (world D) bool :=
  installed ← esp uart_is_driver_installed;
  if negb installed then mret false else deleted ← esp uart_driver_delete; mret (negb deleted).

(** Whether the USB driver is gone. *)
Definition release_usb_driver : M (world D) bool :=
  s ← get;
  if negb (usb_driver_owned (data_path s)) then mret true
  else
    uninstalled ← esp usb_serial_jtag_driver_uninstall;
    if negb uninstalled then mret false
    else
      _ ← modify_path (fun p => p <| usb_driver_owned := false |>);
      mret true.

Definition abort_data_path_start : M (world D) unit :=
  _ ← access (fun s => s <| data_path := (data_path s) <| path_stop_requested := true |> |>);
  _ ← stop_data_path_tasks;
  _ ← modify_path forget_tasks;
  released ← release_usb_driver;
  if negb released then set_high_impedance
  else
    stays ← driver_stays;
    if stays : bool then set_high_impedance
    else
      _ ← modify_path (fun p => p <| uart_events := false |>);
      _ ← release_data_path_allocations;
      set_high_impedance.

Definition install_uart_driver : M (world D) bool :=
  and_then
    (installed ← esp uart_driver_install;
     _ ← modify_path (fun p => p <| uart_events := installed |>);
     mret installed)
    (and_then (esp uart_param_config) (esp uart_set_pin)).

Definition create_task (set : SerialDataPath -> SerialDataPath) : M (world D) bool :=
  created ← esp xTaskCreatePinnedToCore;
  _ ← (if created : bool then modify_path set else mret tt);
  mret created.

Definition install_usb_driver : M (world D) bool :=
  if negb kUsbBridgeEnabled then mret true
  else
    installed ← esp usb_serial_jtag_driver_install;
    _ ← (if installed : bool then modify_path (fun p => p <| usb_driver_owned := true |>) else mret tt);
    mret installed.

Definition create_data_tasks : M (world D) bool :=
  and_then (create_task (fun p => p <| router_task := true |>))
    (and_then (create_task (fun p => p <| rx_task := true |>))
       (if negb kUsbBridgeEnabled then mret true
        else and_then (create_task (fun p => p <| usb_output_task := true |>))
               (create_task (fun p => p <| usb_input_task := true |>)))).

(** Every step but the last publication of the start bit. *)
Definition install_target_uart_locked (sid : Z) : M (world D) bool :=
  prepared ← prepare_data_path sid;
  if negb prepared then mret false
  else
    started ← and_then install_uart_driver (and_then install_usb_driver (and_then create_data_tasks (esp wait_for_tasks)));
    if negb started then
      _ ← abort_data_path_start;
      mret false
    else mret true.

Definition install_target_uart (sid : Z) : M (world D) bool :=
  taken ← lock_router;
  if negb taken then mret false
  else
    installed ← install_target_uart_locked sid;
    _ ← unlock_router;
    mret installed.

Definition uninstall_target_uart : M (world D) bool :=
  stopped ← stop_data_path_tasks;
  if negb stopped then mret false
  else
    released ← release_usb_driver;
    if negb released then mret false
    else
      stays ← driver_stays;
      if stays : bool then mret false
      else
        _ ← modify_path (fun p => p <| uart_events := false |>);
        taken ← lock_router;
        if negb taken then mret false
        else
          _ ← release_data_path_allocations;
          _ ← unlock_router;
          esp set_target_tx_high_impedance.

(** The hardware adapter of the session. *)
#[export] Instance service_hardware : SerialHardware (world D) := {
  install_uart := install_target_uart;
  uninstall_uart := uninstall_target_uart;
  set_tx_high_impedance := set_high_impedance;
  clear_usb_tx := clear_usb_input_state;
  clear_web_tx := clear_web_input_state;
}.

(** ** Publication *)

Definition publish (result : option deck_serial_command_result_t) : M (world D) unit :=
  s ← get;
  match session s with
  | None => mret tt
  | Some x =>
      let snapshot := deck_serial_session_snapshot x in
      taken ← lock_router;
      s ← get;
      let stats := if taken : bool then SerialRouter.stats <$> router (data_path s) else published_router_stats s in
      _ ← (if taken : bool then unlock_router else mret tt);
      _ ← modify (fun s => s <| published_router_stats := stats |>);
      _ ← access (fun s => s <| latest_snapshot := snapshot |>
                             <| latest_command_result := match result with
                                                         | Some _ => result
                                                         | None => latest_command_result s
                                                         end |>);
      esp (callback {| event_snapshot := snapshot; event_router_stats := stats; event_command_result := result |})
  end.

Definition router_alert_changed : M (world D) bool :=
  taken ← lock_router;
  s ← get;
  let current := if taken : bool then SerialRouter.stats <$> router (data_path s) else None in
  _ ← (if taken : bool then unlock_router else mret tt);
  mret match current, published_router_stats s with
       | Some current, Some published =>
           negb (uart_fifo_overflows current =? uart_fifo_overflows published)
           || negb (uart_driver_buffer_full current =? uart_driver_buffer_full published)
       | None, None => false
       | Some current, None => true
       | None, Some _ => true
       end.

Definition snapshot_changed (left right : deck_serial_session_snapshot_t) : bool :=
  negb (bool_decide (snapshot_state left = snapshot_state right))
  || negb (snapshot_session_id left =? snapshot_session_id right)
  || negb (snapshot_owner_generation left =? snapshot_owner_generation right)
  || negb (snapshot_lease_id left =? snapshot_lease_id right)
  || negb (snapshot_lease_deadline_ms left =? snapshot_lease_deadline_ms right)
  || negb (snapshot_usb_tx_rejected left =? snapshot_usb_tx_rejected right)
  || negb (snapshot_uart_install_failures left =? snapshot_uart_install_failures right)
  || negb (Bool.eqb (snapshot_uart_install_failed left) (snapshot_uart_install_failed right))
  || negb (Bool.eqb (snapshot_uart_installed left) (snapshot_uart_installed right)).

Definition sync_usb_input_authority : M (world D) unit :=
  s ← get;
  store_authority match session s with
                  | Some x => if bool_decide (state x = DECK_SERIAL_USB_TX) && uart_installed x
                              then owner_generation x else 0
                  | None => 0
                  end.

(** A method of the session, on the session the owner has. *)
Definition run_session {A} (default_ : A) (method : deck_serial_session -> M (world D) (A * deck_serial_session))
    : M (world D) A :=
  s ← get;
  match session s with
  | None => mret default_
  | Some x =>
      '(a, x) ← method x;
      _ ← modify (fun s => s <| session := Some x |>);
      mret a
  end.

(** ... that does not touch the hardware. *)
Definition ask_session {A} (default_ : A) (method : deck_serial_session -> A * deck_serial_session) : M (world D) A :=
  run_session default_ (fun x => mret (method x)).

Definition tick_session (now_ms : Z) : M (world D) unit :=
  run_session tt (fun x => x ← deck_serial_session_tick x now_ms; mret (tt, x)).

(** ** Input *)

Definition drain_usb_rejections : M (world D) bool :=
  _ ← interfere;
  s ← get;
  let rejected := pending_usb_rejected_bytes s in
  _ ← modify (fun s => s <| pending_usb_rejected_bytes := 0 |>);
  if rejected =? 0 then mret false
  else ask_session false (fun x => deck_serial_session_record_usb_rejection x rejected).

(** The write of what is left of a block: the bytes the driver takes, if that
    is possible. *)
Definition transmit (data : bytes) (offset : nat) : M (world D) (option nat) :=
  let remaining := (List.length data - offset)%nat in
  written ← esp (uart_tx_chars (take remaining (drop offset data)));
  mret (if (written <? 0) || (Z.of_nat remaining <? written) then None else Some (Z.to_nat written)).

(** What [drain_usb_input] does with its pending block once it is
    authorized. *)
Definition transmit_usb : M (world D) InputDrainResult :=
  s ← get;
  let block := pending_usb_input s in
  let offset := pending_usb_offset s in
  written ← transmit (usb_bytes block) offset;
  match written with
  | None => _ ← clear_pending_usb_input; mret rejected
  | Some O => mret stalled
  | Some written =>
      _ ← modify (fun s => s <| pending_usb_offset := (offset + written)%nat |>);
      _ ← (if (offset + written =? List.length (usb_bytes block))%nat then clear_pending_usb_input else mret tt);
      mret progress
  end.

Definition authorize_usb : M (world D) InputDrainResult :=
  s ← get;
  if pending_usb_authorized s then transmit_usb
  else
    let block := pending_usb_input s in
    accepted ← ask_session false (fun x =>
      deck_serial_session_accept_usb_input_generation x (block_generation block) (Z.of_nat (List.length (usb_bytes block))));
    if negb accepted then
      _ ← clear_pending_usb_input;
      mret rejected
    else
      _ ← modify (fun s => s <| pending_usb_authorized := true |>);
      transmit_usb.

Definition drain_usb_input : M (world D) InputDrainResult :=
  _ ← interfere;
  s ← get;
  match usb_input_blocks (data_path s) with
  | None => mret idle
  | Some queue =>
      if negb kUsbBridgeEnabled then mret idle
      else if has_pending_usb_input s then authorize_usb
      else
        match queue with
        | [] => mret idle
        | block :: queue =>
            _ ← modify (fun s => s <| data_path := (data_path s) <| usb_input_blocks := Some queue |> |>
                                   <| pending_usb_input := block |>);
            if (List.length (usb_bytes block) =? 0)%nat || (DECK_SERIAL_ROUTER_BLOCK_BYTES <? List.length (usb_bytes block))%nat
            then _ ← clear_pending_usb_input; mret rejected
            else
              _ ← modify (fun s => s <| has_pending_usb_input := true |>);
              authorize_usb
        end
  end.

(** What [drain_web_input] does with its pending block: the lease is checked
    before every write. *)
Definition transmit_web : M (world D) InputDrainResult :=
  s ← get;
  let block := pending_web_input s in
  let offset := pending_web_offset s in
  let accepted := match session s with
                  | Some x => deck_serial_session_accept_web_input x (block_session_id block) (block_lease_id block)
                  | None => false
                  end in
  if negb accepted then
    _ ← clear_pending_web_input;
    mret rejected
  else
    written ← transmit (web_bytes block) offset;
    match written with
    | None => _ ← clear_pending_web_input; mret rejected
    | Some O => mret stalled
    | Some written =>
          _ ← modify (fun s => s <| pending_web_offset := (offset + written)%nat |>);
        _ ← (if (offset + written =? List.length (web_bytes block))%nat then clear_pending_web_input else mret tt);
        mret progress
    end.

Definition drain_web_input : M (world D) InputDrainResult :=
  _ ← interfere;
  s ← get;
  match web_input_blocks (data_path s) with
  | None => mret idle
  | Some queue =>
      if has_pending_web_input s then transmit_web
      else
        match queue with
        | [] => mret idle
        | block :: queue =>
            _ ← modify (fun s => s <| data_path := (data_path s) <| web_input_blocks := Some queue |> |>
                                   <| pending_web_input := block |>);
            if (List.length (web_bytes block) =? 0)%nat || (DECK_SERIAL_ROUTER_BLOCK_BYTES <? List.length (web_bytes block))%nat
            then _ ← clear_pending_web_input; mret rejected
            else
              _ ← modify (fun s => s <| has_pending_web_input := true |>);
              transmit_web
        end
  end.

(** ** Commands *)

Definition changes_owner (k : CommandKind) : bool := match k with web_activity => false | _ => true end.

(** A request that was granted begins a lease. *)
Definition note_grant (c : Command) (before after : deck_serial_session) : M (world D) unit :=
  if bool_decide (state after = DECK_SERIAL_WEB_TX) && negb (owner_generation after =? owner_generation before)
  then modify_ghost (fun g => g <| granted := born c |>) else mret tt.

Definition with_result {A} (method : M (world D) (A * deck_serial_session)) : M (world D) (option A * deck_serial_session) :=
  '(result, x) ← method;
  mret (Some result, x).

Definition without_result {A} (method : M (world D) (A * deck_serial_session))
    : M (world D) (option deck_serial_command_result_t * deck_serial_session) :=
  '(_, x) ← method;
  mret (None, x).

(** The [switch] of [process_command]. *)
Definition dispatch_command (c : Command) (now_ms : Z) (x : deck_serial_session)
    : M (world D) (option deck_serial_command_result_t * deck_serial_session) :=
  match kind c with
  | enter => with_result (deck_serial_session_enter x (command_epoch c) now_ms)
  | exit | stop => with_result (deck_serial_session_exit x (command_epoch c))
  | request_web =>
      _ ← interfere;
      s ← get;
      if negb (command_epoch c =? service_web_transport_epoch s) then mret (None, x)
      else
        '(result, after) ← deck_serial_session_request_web_at_epoch x (command_epoch c) (command_session_id c)
                             (request_id c) (enable c) now_ms;
        _ ← note_grant c x after;
        mret (result, after)
  | web_activity => without_result (deck_serial_session_web_activity x (command_session_id c) (command_lease_id c) now_ms)
  | web_disconnect => without_result (deck_serial_session_web_disconnect x (command_session_id c) (command_lease_id c))
  | revoke_web_transport => with_result (deck_serial_session_revoke_web_transport x (command_epoch c))
  end.

Definition process_command (c : Command) : M (world D) unit :=
  now_ms ← monotonic_ms;
  _ ← tick_session now_ms;
  _ ← (if changes_owner (kind c) then store_authority 0 else mret tt);
  result ← run_session None (dispatch_command c now_ms);
  _ ← (if bool_decide (kind c = revoke_web_transport)
       then access (fun s => s <| completed_web_revoke_epoch := command_epoch c |>) else mret tt);
  _ ← sync_usb_input_authority;
  publish result.

Definition receive_command : M (world D) (option Command) :=
  _ ← interfere;
  s ← get;
  match commands s with
  | [] => mret None
  | c :: rest => _ ← modify (fun s => s <| commands := rest |>); mret (Some c)
  end.

(** ** The owner task *)

(** A turn of its loop, with the time of the next poll of the router. *)
Inductive outcome := Continue (next_router_alert_poll_ms : Z) | Suspended.

(** Behind a stop command. *)
Definition finish_stop (next : Z) : M (world D) outcome :=
  s ← get;
  match session s with
  | None => mret (Continue next)
  | Some x =>
      if uart_installed x then mret (Continue next)
      else
        destroyed ← run_session false deck_serial_session_destroy;
        if negb destroyed then mret (Continue next)
        else
          _ ← modify (fun s => s <| session := None |>);
          _ ← access (fun s => s <| kStoppedBit := true |>);
          mret Suspended
  end.

(** Input, when no command is queued. *)
Definition drain_inputs : M (world D) unit :=
  rejections ← drain_usb_rejections;
  if rejections : bool then publish None
  else
    web ← drain_web_input;
    if bool_decide (web = rejected) then publish None
    else if bool_decide (web = progress) then mret tt
    else
      usb ← drain_usb_input;
      if bool_decide (usb = rejected) then publish None else mret tt.

Definition owner_turn (next : Z) : M (world D) outcome :=
  now_ms ← monotonic_ms;
  before ← get;
  _ ← tick_session now_ms;
  after ← get;
  _ ← sync_usb_input_authority;
  let poll_router := next <=? now_ms in
  alert_changed ← (if poll_router then router_alert_changed else mret false);
  let next := if poll_router then u64 (now_ms + 100) else next in
  let changed := match session before, session after with
                 | Some x, Some y => snapshot_changed (deck_serial_session_snapshot x) (deck_serial_session_snapshot y)
                 | _, _ => false
                 end in
  _ ← (if changed || alert_changed then publish None else mret tt);
  command ← receive_command;
  match command with
  | Some c =>
      _ ← process_command c;
      if bool_decide (kind c = stop) then finish_stop next else mret (Continue next)
  | None => _ ← drain_inputs; mret (Continue next)
  end.

Fixpoint owner_turns (turns : nat) (next : Z) : M (world D) outcome :=
  match turns with
  | O => mret (Continue next)
  | S turns =>
      result ← owner_turn next;
      match result with Continue next => owner_turns turns next | Suspended => mret Suspended end
  end.

(** [owner_task] from its start, for at most [turns] turns of its loop. *)
Definition owner_task (turns : nat) : M (world D) outcome :=
  allocated ← esp allocate;
  x ← deck_serial_session_create DECK_SERIAL_DEFAULT_WEB_LEASE_MS allocated;
  match x with
  | None => _ ← access (fun s => s <| kStoppedBit := true |>); mret Suspended
  | Some x =>
      _ ← modify (fun s => s <| session := Some x |>);
      _ ← sync_usb_input_authority;
      _ ← access (fun s => s <| kReadyBit := true |>);
      _ ← publish None;
      next ← monotonic_ms;
      owner_turns turns next
  end.
End Owner.

(** ** The service as [deck_serial_service_start] makes it *)

Definition no_snapshot : deck_serial_session_snapshot_t := {|
  snapshot_state := DECK_SERIAL_DISARMED; snapshot_session_id := 0; snapshot_owner_generation := 0; snapshot_lease_id := 0;
  snapshot_lease_deadline_ms := 0; snapshot_usb_tx_rejected := 0; snapshot_uart_install_failures := 0;
  snapshot_uart_install_failed := false; snapshot_uart_installed := false |}.

Definition new_service : deck_serial_service := {|
  commands := []; session := None; latest_snapshot := no_snapshot; latest_command_result := None;
  published_router_stats := None; pending_usb_input := no_usb_block; pending_usb_offset := 0;
  has_pending_usb_input := false; pending_usb_authorized := false; pending_web_input := no_web_block;
  pending_web_offset := 0; has_pending_web_input := false; usb_input_authority_generation := 0;
  pending_usb_rejected_bytes := 0; stop_requested := false; service_control_epoch := 0; service_web_transport_epoch := 0;
  completed_web_revoke_epoch := 0; kReadyBit := false; kStoppedBit := false; data_path := empty_path |}.

(** The service before its owner task runs: [None] when the pin cannot be
    released, memory is short or the task cannot be created.  (The wait for the
    task is [Starting].) *)
Definition deck_serial_service_start {D} `{SerialPlatform D} : M D (option deck_serial_service) :=
  disarmed ← perform set_target_tx_high_impedance;
  if negb disarmed then mret None
  else
    memory ← perform allocate;
    if negb memory then mret None
    else
      queue ← perform allocate;
      snapshot_mutex ← perform allocate;
      router_mutex ← perform allocate;
      group ← perform allocate;
      if negb queue || negb snapshot_mutex || negb router_mutex || negb group then
        _ ← perform set_target_tx_high_impedance;
        mret None
      else
        created ← perform xTaskCreatePinnedToCore;
        if negb created then
          _ ← perform set_target_tx_high_impedance;
          mret None
        else mret (Some new_service).

Definition started {D} (d : D) (schedule : list (list action)) : world D := {|
  service := new_service; platform := d; app := Starting; link := Free; usb_task := UsbIdle; locked := false;
  schedule := schedule;
  ghost := {| transports := 0; acknowledged := 0; granted := 0; usb_submitted := []; web_submitted := []; calls := [] |} |}.
