(* ===== verification/SerialServiceInvariant.v ===== *)
(** * The invariant of the serial service

    What the other tasks, the hardware adapter and the methods of the session
    keep of the service, for every platform: the feeds of both sources, the
    epochs of the Web transports with what is still revocable of them, and the
    soundness of the writes so far. *)

From S2P Require Import Prelude Keeps Feed SerialRouter SerialSession SerialService.

(** ** The invariant *)

(** A command as its caller has it, and behind its stamping. *)
Definition words (c : Command) : Prop := is_u64 (command_session_id c) /\ is_u64 (request_id c) /\ is_u64 (command_lease_id c).

Record ok_command (g : ghost_state) (c : Command) : Prop := {
  ok_words : words c;
  ok_epoch : is_u64 (command_epoch c);
  ok_revoke : kind c = revoke_web_transport -> command_epoch c <= Z.of_nat (transports g);
  ok_request : kind c = request_web -> command_epoch c = Z.of_nat (born c) /\ (born c <= transports g)%nat;
}.

Definition ok_caller (g : ghost_state) (caller : caller_state) : Prop :=
  match caller with
  | Stamping c _ _ => words c
  | Queuing c _ _ => ok_command g c
  | _ => True
  end.

(** What a call of [uart_tx_chars] sends, a submission of either source, from
    some place in it on. *)
Inductive source := FromUsb (number at_ : nat) | FromWeb (number at_ : nat).

(** How many bytes the driver took. *)
Definition taken (c : uart_call) : nat :=
  if (answer c <? 0) || (Z.of_nat (List.length (sent c)) <? answer c) then 0 else Z.to_nat (answer c).

(** What is claimed of a call. *)
Definition explains (g : ghost_state) (c : uart_call) (src : source) : Prop :=
  match src with
  | FromUsb number at_ =>
      exists submission x, usb_submitted g !! number = Some submission /\ sent c = drop at_ (submitted_usb submission)
        /\ writer c = Some x /\ state x = DECK_SERIAL_USB_TX /\ uart_installed x = true
        /\ submitted_generation submission = owner_generation x /\ owner_generation x <> 0
  | FromWeb number at_ =>
      exists submission x, web_submitted g !! number = Some submission /\ sent c = drop at_ (submitted_web submission)
        /\ writer c = Some x /\ state x = DECK_SERIAL_WEB_TX /\ uart_installed x = true
        /\ submitted_session submission = session_id x /\ submitted_lease submission = lease_id x
        /\ session_id x <> 0 /\ lease_id x <> 0
        /\ (acknowledged_before c <= submitted_after submission)%nat /\ (acknowledged_before c <= granted_before c)%nat
  end.

(** The writes of a source: the number of the submission, where the write
    began and how much the driver took. *)
Definition usb_writes (l : list uart_call) (sources : list source) : list (nat * nat * nat) :=
  zip l sources ≫= fun '(c, src) => match src with FromUsb number at_ => [(number, at_, taken c)] | _ => [] end.

Definition web_writes (l : list uart_call) (sources : list source) : list (nat * nat * nat) :=
  zip l sources ≫= fun '(c, src) => match src with FromWeb number at_ => [(number, at_, taken c)] | _ => [] end.

#[global] Arguments usb_writes : simpl never.
#[global] Arguments web_writes : simpl never.

Definition usb_queue (s : deck_serial_service) : list UsbInputBlock := default [] (usb_input_blocks (data_path s)).
Definition web_queue (s : deck_serial_service) : list WebInputBlock := default [] (web_input_blocks (data_path s)).

Definition usb_pending (s : deck_serial_service) : option (nat * nat) :=
  if has_pending_usb_input s then Some (usb_number (pending_usb_input s), pending_usb_offset s) else None.

Definition web_pending (s : deck_serial_service) : option (nat * nat) :=
  if has_pending_web_input s then Some (web_number (pending_web_input s), pending_web_offset s) else None.

(** The feeds of both sources, when the calls so far had [sources]. *)
Definition feeds (s : deck_serial_service) (g : ghost_state) (sources : list source) : Prop :=
  Forall2 (explains g) (calls g) sources
  /\ feed_ok (List.length (usb_submitted g)) (usb_number <$> usb_queue s) (usb_pending s) (usb_writes (calls g) sources)
  /\ feed_ok (List.length (web_submitted g)) (web_number <$> web_queue s) (web_pending s) (web_writes (calls g) sources).

(** A block is one that was submitted. *)
Definition usb_known (g : ghost_state) (block : UsbInputBlock) : Prop :=
  usb_submitted g !! usb_number block
  = Some {| submitted_generation := block_generation block; submitted_usb := usb_bytes block |}.

Definition web_known (g : ghost_state) (block : WebInputBlock) : Prop :=
  web_submitted g !! web_number block
  = Some {| submitted_session := block_session_id block; submitted_lease := block_lease_id block;
            submitted_web := web_bytes block; submitted_after := web_born block |}.

Definition known (s : deck_serial_service) (g : ghost_state) : Prop :=
  Forall (usb_known g) (usb_queue s) /\ Forall (web_known g) (web_queue s)
  /\ (has_pending_usb_input s = true -> usb_known g (pending_usb_input s))
  /\ (has_pending_web_input s = true -> web_known g (pending_web_input s)).

(** The service and the ghosts when the session has processed the revocation
    of the first [r] Web transports. *)
Record core (r : nat) (s : deck_serial_service) (g : ghost_state) : Prop := {
  core_feeds : exists sources, feeds s g sources;
  core_known : known s g;
  core_epoch : service_web_transport_epoch s = Z.of_nat (transports g);
  core_revoked : (r <= transports g)%nat /\ (acknowledged g <= r)%nat /\ 0 <= completed_web_revoke_epoch s <= Z.of_nat r;
  core_blocks : Forall (fun block => (r <= web_born block)%nat) (web_queue s);
  core_block : has_pending_web_input s = true -> (r <= web_born (pending_web_input s))%nat;
  core_commands : Forall (ok_command g) (commands s);
  core_words : is_u64 (service_control_epoch s) /\ is_u64 (pending_usb_rejected_bytes s);
  core_offsets : (has_pending_usb_input s = false -> pending_usb_offset s = 0%nat)
                 /\ (has_pending_web_input s = false -> pending_web_offset s = 0%nat);
}.

(** The session the owner holds, and the generations it authorizes. *)
Definition permit : Type := option deck_serial_session * (Z -> Prop).

Definition authorized (Φ : permit) (s : deck_serial_service) : Prop :=
  pending_usb_authorized s = true -> has_pending_usb_input s = true /\ Φ.2 (block_generation (pending_usb_input s)).

(** The invariant of a service of which it reads little that changed. *)
Ltac core_update := constructor; try done; cbn; split_and?; first [done|words].

Section Invariant.
Context {D : Type}.
Implicit Types (w : world D) (s : deck_serial_service) (Φ : permit).

(** The epochs count the transports until they wrap around. *)
Definition fresh w : Prop := Z.of_nat (transports (ghost w)) <= U64_MAX.

Definition inv Φ (r n e : nat) w : Prop :=
  granted (ghost w) = n /\ (e <= transports (ghost w))%nat /\ session (service w) = Φ.1
  /\ (fresh w -> core r (service w) (ghost w) /\ authorized Φ (service w)
      /\ ok_caller (ghost w) (app w) /\ ok_caller (ghost w) (link w)).

Lemma command_mono g g' c : (transports g <= transports g')%nat -> ok_command g c -> ok_command g' c.
Proof. intros Hle [Hw He Hr Hq]. split; [done|done| |]; intros Hk; [specialize (Hr Hk)|destruct (Hq Hk)]; try split; try lia; done. Qed.

Lemma ok_caller_mono g g' caller : (transports g <= transports g')%nat -> ok_caller g caller -> ok_caller g' caller.
Proof. intros Hle. destruct caller; try done. by apply command_mono. Qed.

Lemma advance_epoch_range z : is_u64 (advance_epoch z).
Proof. unfold advance_epoch. case_match; words. Qed.

Lemma advance_epoch_next n : Z.of_nat (S n) <= U64_MAX -> advance_epoch (Z.of_nat n) = Z.of_nat (S n).
Proof. intros Hn. unfold advance_epoch. rewrite u64_id by words. case_match; bool_prop; lia. Qed.

(** What the other tasks do not change of the service. *)
Definition private s := (session s, pending_usb_input s, pending_usb_offset s, has_pending_usb_input s,
  pending_usb_authorized s, pending_web_input s, pending_web_offset s, has_pending_web_input s).

(** A step of a caller. *)
Lemma stamp_ok r c first w :
  let out := stamp_command c first w in
  (transports (ghost w) <= transports (ghost out.2))%nat /\ granted (ghost out.2) = granted (ghost w)
  /\ private (service out.2) = private (service w) /\ app out.2 = app w /\ link out.2 = link w
  /\ (fresh out.2 -> core r (service w) (ghost w) -> words c ->
      core r (service out.2) (ghost out.2) /\ ok_command (ghost out.2) out.1).
Proof.
  unfold stamp_command. destruct (kind c) eqn:Ek; cbn; (split_and!; [lia|done..|]).
  all: intros Hf [Hfd Hkn He [Hr Ha] Hb Hp Hc [Hcc Hrj] Hof] Hwd; pose proof (advance_epoch_range (service_control_epoch (service w))).
  all: unfold fresh in Hf; cbn in Hf.
  all: match goal with |- _ /\ ok_command _ _ => split; [try by constructor|split; cbn; rewrite ?Ek; try done] end.
  - rewrite He. words.
  - constructor; cbn; try done; try lia; [rewrite He; by apply advance_epoch_next|].
    eapply Forall_impl; [exact Hc|]. intros c'. apply command_mono. cbn. lia.
  - apply advance_epoch_range.
  - intros _. rewrite He, advance_epoch_next by lia. lia.
  - constructor; cbn; try done. by destruct first.
  - by destruct first.
Qed.

(** What was submitted remains so. *)
Record extends (g g' : ghost_state) : Prop := {
  extends_usb : usb_submitted g `prefix_of` usb_submitted g';
  extends_web : web_submitted g `prefix_of` web_submitted g';
  extends_calls : calls g' = calls g;
}.

Lemma extends_explains g g' c src : extends g g' -> explains g c src -> explains g' c src.
Proof.
  intros [Hu Hw _]. destruct src; intros (submission & x & Hs & Hx); exists submission, x; (split; [|done]); by eapply prefix_lookup_Some.
Qed.

Lemma extends_known g g' s : extends g g' -> known s g -> known s g'.
Proof.
  intros [Hu Hw _] (H1 & H2 & H3 & H4). split_and!.
  - eapply Forall_impl; [exact H1|]. intros b Hb. by eapply prefix_lookup_Some.
  - eapply Forall_impl; [exact H2|]. intros b Hb. by eapply prefix_lookup_Some.
  - intros Hp. eapply prefix_lookup_Some; [by apply H3|done].
  - intros Hp. eapply prefix_lookup_Some; [by apply H4|done].
Qed.

Lemma extends_feeds g g' s sources : extends g g' -> feeds s g sources -> feeds s g' sources.
Proof.
  intros He (H1 & H2 & H3). pose proof He as [Hu Hw Hc]. unfold feeds. rewrite Hc. split_and!.
  - eapply Forall2_impl; [exact H1|]. intros c src. by apply extends_explains.
  - eapply feed_grow; [|exact H2]. by apply prefix_length.
  - eapply feed_grow; [|exact H3]. by apply prefix_length.
Qed.

Lemma usb_submits_extends generation data g : extends g (usb_submits generation data g).
Proof. split; cbn; [by eexists|done..]. Qed.

Lemma web_submits_extends sid lease data g : extends g (web_submits sid lease data g).
Proof. split; cbn; [done|by eexists|done]. Qed.

Lemma core_extends r s g g' :
  extends g g' -> transports g' = transports g -> acknowledged g' = acknowledged g -> core r s g -> core r s g'.
Proof.
  intros He Ht Ha [[sources Hfd] Hkn Hep Hr Hb Hp Hc Hwd Hof]. constructor; rewrite ?Ht, ?Ha; try done.
  - exists sources. by eapply extends_feeds.
  - by eapply extends_known.
  - eapply Forall_impl; [exact Hc|]. intros c. apply command_mono. by rewrite Ht.
Qed.

Lemma web_made_block r s g sid lease data queue :
  web_input_blocks (data_path s) = Some queue -> core r s g ->
  core r (s <| data_path := (data_path s) <| web_input_blocks := Some (queue ++ [
      {| block_session_id := sid; block_lease_id := lease; web_bytes := data; web_number := List.length (web_submitted g);
         web_born := transports g |}]) |> |>)
    (web_submits sid lease data g).
Proof.
  intros E [[sources Hfd] Hkn He [Hr Ha] Hb Hp Hc Hwd Hof]. pose proof (web_submits_extends sid lease data g) as Hx.
  pose proof (extends_feeds _ _ _ _ Hx Hfd) as (Hcl & Hfu & Hfw). apply (extends_known _ _ _ Hx) in Hkn as (Hk1 & Hk2 & Hk3 & Hk4).
  destruct Hfd as (_ & Hu & Hw). unfold web_queue in *. rewrite E in *. cbn in *. constructor; try done.
  - exists sources. split_and!; try done. unfold web_queue. cbn. rewrite fmap_app, length_app, Nat.add_1_r. by apply feed_submit.
  - split_and!; try done. unfold web_queue. cbn. apply Forall_app. split; [done|]. apply Forall_singleton. unfold web_known. cbn.
    by rewrite lookup_app_r, Nat.sub_diag.
  - unfold web_queue. cbn. apply Forall_app. by repeat constructor.
  - eapply Forall_impl; [exact Hc|]. intros c. by apply command_mono.
Qed.

Lemma usb_made_block r s g generation data queue :
  usb_input_blocks (data_path s) = Some queue -> core r s g ->
  core r (s <| data_path := (data_path s) <| usb_input_blocks := Some (queue ++ [
      {| block_generation := generation; usb_bytes := data; usb_number := List.length (usb_submitted g) |}]) |> |>)
    (usb_submits generation data g).
Proof.
  intros E [[sources Hfd] Hkn He [Hr Ha] Hb Hp Hc Hwd Hof]. pose proof (usb_submits_extends generation data g) as Hx.
  pose proof (extends_feeds _ _ _ _ Hx Hfd) as (Hcl & Hfu & Hfw). apply (extends_known _ _ _ Hx) in Hkn as (Hk1 & Hk2 & Hk3 & Hk4).
  destruct Hfd as (_ & Hu & Hw). unfold usb_queue in *. rewrite E in *. cbn in *. constructor; try done.
  - exists sources. split_and!; try done. unfold usb_queue. cbn. rewrite fmap_app, length_app, Nat.add_1_r. by apply feed_submit.
  - split_and!; try done. unfold usb_queue. cbn. apply Forall_app. split; [done|]. apply Forall_singleton. unfold usb_known. cbn.
    by rewrite lookup_app_r, Nat.sub_diag.
  - eapply Forall_impl; [exact Hc|]. intros c. by apply command_mono.
Qed.

Lemma new_command_words k on sid rid lease : words (new_command k on sid rid lease).
Proof. split_and!; apply u64_range. Qed.

(** A step of a caller that is [caller]. *)
Definition caller_ok r caller w (out : caller_state * world D) : Prop :=
  (transports (ghost w) <= transports (ghost out.2))%nat /\ granted (ghost out.2) = granted (ghost w)
  /\ private (service out.2) = private (service w) /\ app out.2 = app w /\ link out.2 = link w
  /\ (fresh out.2 -> core r (service w) (ghost w) -> ok_caller (ghost w) caller ->
      core r (service out.2) (ghost out.2) /\ ok_caller (ghost out.2) out.1).

Lemma caller_stays r caller caller' w :
  (ok_caller (ghost w) caller -> ok_caller (ghost w) caller') -> caller_ok r caller w (caller', w).
Proof. intros Hok. unfold caller_ok. split_and!; try done. intros _ Hc H. split; [done|by apply Hok]. Qed.

Lemma caller_step_ok r caller w : caller_ok r caller w (caller_step caller w).
Proof.
  destruct caller as [| | |c front first|c front first| |sid lease data []|]; cbn [caller_step]; try by apply caller_stays.
  - unfold caller_ok. split_and!; try done. intros _ [] _. split; [by constructor|apply new_command_words].
  - pose proof (stamp_ok r c first w) as Hs. destruct (stamp_command c first w) as [c' w'].
    destruct Hs as (Ht & Hg & Hp & Ha & Hl & Hc). unfold caller_ok. split_and!; try done.
  - case_match; [|by destruct front; apply caller_stays].
    unfold caller_ok. split_and!; try done. intros _ [] Hc. split; [|by case_bool_decide].
    constructor; cbn; try done. destruct front; [by constructor|]. apply Forall_app. split; [done|]. by apply Forall_singleton.
  - case_match; by apply caller_stays.
  - case_match; [by apply caller_stays|]. destruct (web_input_blocks _) as [queue|] eqn:E; [|by apply caller_stays].
    case_match; [by apply caller_stays|]. unfold caller_ok. split_and!; try done. intros _ Hc _. split; [|done]. cbn. by apply web_made_block.
  - case_match; by apply caller_stays.
Qed.

Lemma caller_time_out_ok r caller w : caller_ok r caller w (caller_time_out caller w).
Proof.
  destruct caller as [| | |c front first|c [] first| |sid lease data checked|]; cbn [caller_time_out]; try by apply caller_stays.
  case_match; [|by apply caller_stays]. unfold caller_ok. split_and!; try done. intros _ [] _. split; [|done]. by constructor.
Qed.

Lemma begin_call_ok g s c front : words c -> ok_caller g (begin_call c front s).
Proof. unfold begin_call. by case_match. Qed.

Lemma submit_usb_ok r generation data w :
  let w' := submit_usb_input generation data w in
  transports (ghost w') = transports (ghost w) /\ granted (ghost w') = granted (ghost w)
  /\ private (service w') = private (service w) /\ app w' = app w /\ link w' = link w
  /\ (core r (service w) (ghost w) -> core r (service w') (usb_submits generation data (ghost w'))).
Proof.
  assert (forall g s, core r s g -> core r s (usb_submits generation data g)) as Hx
    by (intros g s; apply core_extends; [apply usb_submits_extends|done..]).
  unfold submit_usb_input. case_match; [by split_and!; auto|]. destruct (usb_input_blocks _) as [queue|] eqn:E; [|by split_and!; auto].
  repeat case_match; try (by split_and!; auto); (split_and!; try done); cbn.
  - intros Hcore. apply Hx in Hcore as []. constructor; try done. split; [by destruct core_words0|]. destruct core_words0.
    apply saturating_add_range; [done|]. bool_prop. unfold DECK_SERIAL_ROUTER_BLOCK_BYTES, is_u64 in *. lia.
  - by apply usb_made_block.
Qed.

Lemma authorized_private Φ s s' : private s' = private s -> authorized Φ s -> authorized Φ s'.
Proof.
  unfold private, authorized. intros [= E1 E2 E3 E4 E5 E6 E7 E8] Ha. rewrite E2, E4, E5. exact Ha.
Qed.

(** An invariant that depends on the session only. *)
Lemma inv_intro Φ r n e w w' :
  (transports (ghost w) <= transports (ghost w'))%nat -> granted (ghost w') = granted (ghost w) ->
  private (service w') = private (service w) ->
  (fresh w' -> core r (service w) (ghost w) -> ok_caller (ghost w) (app w) -> ok_caller (ghost w) (link w) ->
   core r (service w') (ghost w') /\ ok_caller (ghost w') (app w') /\ ok_caller (ghost w') (link w')) ->
  inv Φ r n e w -> inv Φ r n e w'.
Proof.
  intros Ht Hg Hp Hk (Hn & He & Hs & Hi). split; [congruence|]. split; [lia|]. split; [by injection Hp; congruence|]. intros Hf.
  destruct Hi as (Hc & Ha & H1 & H2); [unfold fresh in *; lia|].
  destruct (Hk Hf Hc H1 H2) as (Hc' & H1' & H2'). split_and!; try done. by eapply authorized_private.
Qed.

Lemma inv_call Φ r n e w caller : ok_caller (ghost w) caller -> inv Φ r n e w -> inv Φ r n e (app_call caller w) /\ inv Φ r n e (link_call caller w).
Proof.
  intros Hc Hi. split; [unfold app_call|unfold link_call]; case_match; try done; (eapply inv_intro; [..|exact Hi]; [cbn; first [lia|done]..|]; intros; by split_and!).
Qed.

Lemma app_step_keeps Φ r n e w caller w' :
  caller_ok r (app w) w (caller, w') -> inv Φ r n e w -> inv Φ r n e (w' <| app := caller |>).
Proof.
  intros (Ht & Hg & Hp & Ha & Hl & Hc) Hi. cbn in *. eapply inv_intro; [..|exact Hi]; [cbn; first [lia|done]..|].
  intros Hf Hcore H1 H2. cbn. destruct (Hc Hf Hcore H1). split_and!; try done. rewrite Hl. by eapply ok_caller_mono.
Qed.

Lemma link_step_keeps Φ r n e w caller w' :
  caller_ok r (link w) w (caller, w') -> inv Φ r n e w -> inv Φ r n e (w' <| link := caller |>).
Proof.
  intros (Ht & Hg & Hp & Ha & Hl & Hc) Hi. cbn in *. eapply inv_intro; [..|exact Hi]; [cbn; first [lia|done]..|].
  intros Hf Hcore H1 H2. cbn. destruct (Hc Hf Hcore H2). split_and!; try done. rewrite Ha. by eapply ok_caller_mono.
Qed.

Lemma task_keeps Φ r n e w a : inv Φ r n e w -> inv Φ r n e (task_step w a).
Proof.
  intros Hi. unfold task_step.
  assert (forall k on sid rid lease front, ok_caller (ghost w) (begin_call (new_command k on sid rid lease) front (service w))) as Hcall
    by (intros; apply begin_call_ok, new_command_words).
  destruct a; try (by apply inv_call; [apply Hcall|]).
  - apply inv_call; [|done]. unfold deck_serial_service_stop. by case_match.
  - pose proof (caller_step_ok r (app w) w) as Hok. destruct (caller_step (app w) w). by apply (app_step_keeps _ _ _ _ w).
  - pose proof (caller_time_out_ok r (app w) w) as Hok. destruct (caller_time_out (app w) w). by apply (app_step_keeps _ _ _ _ w).
  - case_match eqn:Er; [|done]. eapply inv_intro; [..|exact Hi]; [cbn; first [lia|done]..|]. intros _ [Hfd Hkn He (Hr & Ha & Hc) Hb Hp Hcs [Hcc Hrj] Hof] H1 H2.
    split_and!; [|eapply ok_caller_mono; [|exact H1]; done|eapply ok_caller_mono; [|exact H2]; done]. constructor; cbn; try done.
    + split_and!; try lia. unfold deck_serial_service_web_transport_revoked in Er. bool_prop. lia.
    + eapply Forall_impl; [exact Hcs|]. intros c. by apply command_mono.
  - apply inv_call; [|done]. unfold deck_serial_service_submit_web. by destruct (_ || _).
  - pose proof (caller_step_ok r (link w) w) as Hok. destruct (caller_step (link w) w). by apply (link_step_keeps _ _ _ _ w).
  - pose proof (caller_time_out_ok r (link w) w) as Hok. destruct (caller_time_out (link w) w). by apply (link_step_keeps _ _ _ _ w).
  - by repeat case_match.
  - by case_match.
  - case_match; try done. pose proof (submit_usb_ok r generation data w) as (Ht & Hg & Hp & Ha & Hl & Hc).
    eapply inv_intro; [..|exact Hi]; cbn; [by rewrite Ht|done|done|]. intros Hf Hcore H1 H2. rewrite Ha, Hl.
    split_and!; [by apply Hc|eapply ok_caller_mono; [|exact H1]; cbn; lia|eapply ok_caller_mono; [|exact H2]; cbn; lia].
  - case_match; [|done]. eapply inv_intro; [..|exact Hi]; [cbn; first [lia|done]..|]. intros _ [] ? ?. split_and!; [|done..]. by constructor.
Qed.

Lemma other_keeps Φ r n e w a : inv Φ r n e w -> inv Φ r n e (other_step w a).
Proof.
  intros Hi. unfold other_step. destruct (app w) eqn:E; try (by apply task_keeps); [|done].
  destruct a; try done; repeat case_match; try done; (destruct Hi as (? & ? & ? & Hi); split_and!; try done;
    intros Hf; destruct (Hi Hf) as (? & ? & ? & ?); by split_and!).
Qed.

Lemma keeps_others Φ r n e : keeps (inv Φ r n e) interfere.
Proof.
  intros w Hi. unfold interfere. destruct (schedule w) as [|batch rest]; [done|]. cbn [snd].
  assert (inv Φ r n e (w <| schedule := rest |>)) as Hr by exact Hi.
  revert Hr. generalize (w <| schedule := rest |>). induction batch as [|a batch IH]; intros v Hv; [done|]. by apply IH, other_keeps.
Qed.
End Invariant.

(** ** The data path keeps the invariant *)

Section Hardware.
Context {D : Type} `{SerialBuild} `{SerialPlatform D}.
Implicit Types (w : world D) (s : deck_serial_service) (Φ : permit).
Context (Φ : permit) (k n e : nat).

Lemma keeps_read : keeps (inv Φ k n e) (@get D).
Proof. by intros w. Qed.

(** Every call but that of [uart_tx_chars]. *)
Definition silent {A} (call : platform_call A) : Prop := match call with uart_tx_chars _ => False | _ => True end.

Lemma keeps_platform {A} (call : platform_call A) : silent call -> keeps (inv Φ k n e) (esp call).
Proof. intros Hc w Hi. unfold esp. destruct (perform call (platform w)) as [a d]. by destruct call. Qed.

Lemma keeps_update (f : deck_serial_service -> deck_serial_service) :
  (forall s, session (f s) = session s) ->
  (forall s g, core k s g -> authorized Φ s -> core k (f s) g /\ authorized Φ (f s)) -> keeps (inv Φ k n e) (@modify D f).
Proof.
  intros Hsame Hf w (Hn & He & Hs & Hi). split_and!; try done; [cbn; by rewrite Hsame|]. intros Hfresh. destruct (Hi Hfresh) as (Hc & Ha & H1 & H2).
  cbn. destruct (Hf _ _ Hc Ha). by split_and!.
Qed.

Lemma keeps_access f : keeps (inv Φ k n e) (@modify D f) -> keeps (inv Φ k n e) (@access D f).
Proof. intros Hf. unfold access. apply keeps_bind; [apply keeps_others|]. by intros []. Qed.

(** The data path may change as long as a queue is kept or emptied. *)
Definition shrinks (p p' : SerialDataPath) : Prop :=
  (default [] (usb_input_blocks p') = default [] (usb_input_blocks p) \/ default [] (usb_input_blocks p') = [])
  /\ (default [] (web_input_blocks p') = default [] (web_input_blocks p) \/ default [] (web_input_blocks p') = []).

(** Emptied queues and blocks given up. *)
Lemma feeds_shrink s s' g sources :
  (usb_queue s' = usb_queue s \/ usb_queue s' = []) -> (web_queue s' = web_queue s \/ web_queue s' = []) ->
  (usb_pending s' = usb_pending s \/ usb_pending s' = None) -> (web_pending s' = web_pending s \/ web_pending s' = None) ->
  feeds s g sources -> feeds s' g sources.
Proof.
  intros Hu Hw Hup Hwp (Hcl & Hfu & Hfw). split_and!; [done|..].
  - assert (feed_ok (List.length (usb_submitted g)) (usb_number <$> usb_queue s') (usb_pending s) (usb_writes (calls g) sources)) as Hq
      by (destruct Hu as [-> | ->]; [done|by eapply feed_flush]).
    destruct Hup as [-> | ->]; [done|by eapply feed_drop].
  - assert (feed_ok (List.length (web_submitted g)) (web_number <$> web_queue s') (web_pending s) (web_writes (calls g) sources)) as Hq
      by (destruct Hw as [-> | ->]; [done|by eapply feed_flush]).
    destruct Hwp as [-> | ->]; [done|by eapply feed_drop].
Qed.

Lemma core_shrinks s g p : shrinks (data_path s) p -> core k s g -> core k (s <| data_path := p |>) g.
Proof.
  intros [Hu Hw] [[sources H1] (H2 & H3 & H4 & H5) H6 H7 H8 H9 H10 H11 H12]. constructor; try done.
  - exists sources. apply (feeds_shrink s); [done|done|by left|by left|done].
  - unfold known, usb_queue, web_queue in *. cbn. split_and!; try done; [destruct Hu as [-> | ->]|destruct Hw as [-> | ->]]; done.
  - unfold web_queue in *. cbn. destruct Hw as [-> | ->]; [done|]. constructor.
Qed.

(** The pending blocks are cleared. *)
Lemma cleared_usb_core s g :
  core k s g -> core k (s <| pending_usb_input := no_usb_block |> <| pending_usb_offset := 0%nat |>
                          <| has_pending_usb_input := false |> <| pending_usb_authorized := false |>) g.
Proof.
  intros [[sources H1] (H2 & H3 & H4 & H5) H6 H7 H8 H9 H10 H11 [H12 H13]]. constructor; try done.
  exists sources. apply (feeds_shrink s); [by left|by left|by right|by left|done].
Qed.

Lemma cleared_web_core s g :
  core k s g -> core k (s <| pending_web_input := no_web_block |> <| pending_web_offset := 0%nat |>
                          <| has_pending_web_input := false |>) g.
Proof.
  intros [[sources H1] (H2 & H3 & H4 & H5) H6 H7 H8 H9 H10 H11 [H12 H13]]. constructor; try done.
  exists sources. apply (feeds_shrink s); [by left|by left|by left|by right|done].
Qed.

Lemma keeps_path f : (forall p, shrinks p (f p)) -> keeps (inv Φ k n e) (@modify_path D f).
Proof. intros Hf. apply keeps_update; [done|]. intros s g Hc Ha. split; [|done]. by apply core_shrinks. Qed.

Lemma keeps_unlock : keeps (inv Φ k n e) (@unlock_router D).
Proof. by intros w. Qed.

Lemma keeps_locked : keeps (inv Φ k n e) (fun w : world D => (tt, w <| locked := true |>)).
Proof. by intros w. Qed.

Lemma keeps_lock : keeps (inv Φ k n e) lock_router.
Proof.
  unfold lock_router. apply keeps_bind; [apply keeps_others|]. intros _. apply keeps_bind; [by apply keeps_platform|].
  intros taken. apply keeps_bind; [|intros; apply keeps_ret]. destruct taken; [apply keeps_locked|apply keeps_ret].
Qed.

(** An update that the invariant does not see. *)
Hint Extern 2 (keeps _ (esp _)) => (apply keeps_platform; exact I) : keeps.
Hint Extern 3 (keeps _ (modify _)) => (apply keeps_update; [done|]; intros ? ? [] ?; split; [core_update|done]) : keeps.
Hint Extern 3 (keeps _ (access _)) => (apply keeps_access, keeps_update; [done|]; intros ? ? [] ?; split; [core_update|done]) : keeps.
Hint Extern 4 (keeps _ (modify_path _)) => (apply keeps_path; intros ?; split; first [by left|by right|right; unfold make_queue; cbn; by case_match]) : keeps.
Hint Resolve keeps_read keeps_unlock keeps_lock keeps_others : keeps.

Lemma keeps_clear_usb : keeps (inv Φ k n e) (@clear_usb_input_state D).
Proof.
  unfold clear_usb_input_state. apply keeps_bind; [apply keeps_access, keeps_update; [done|]|intros []; apply keeps_update; [done|]].
  - intros s g Hc Ha. split; [|done]. apply core_shrinks; [|done]. split; [right|by left]. cbn. by destruct (usb_input_blocks _).
  - intros s g Hc Ha. split; [by apply cleared_usb_core|done].
Qed.

Lemma keeps_clear_web : keeps (inv Φ k n e) (@clear_web_input_state D).
Proof.
  unfold clear_web_input_state. apply keeps_bind; [apply keeps_access, keeps_update; [done|]|intros []; apply keeps_update; [done|]].
  - intros s g Hc Ha. split; [|done]. apply core_shrinks; [|done]. split; [by left|right]. cbn. by destruct (web_input_blocks _).
  - intros s g Hc Ha. split; [by apply cleared_web_core|done].
Qed.
Hint Resolve keeps_clear_usb keeps_clear_web : keeps.

Lemma keeps_release : keeps (inv Φ k n e) (@release_data_path_allocations D).
Proof. unfold release_data_path_allocations, store_authority, store_rejected_zero. keep. Qed.
Hint Resolve keeps_release : keeps.

Lemma keeps_stop_tasks : keeps (inv Φ k n e) stop_data_path_tasks.
Proof. unfold stop_data_path_tasks. keep. Qed.
Hint Resolve keeps_stop_tasks : keeps.

Lemma keeps_register sinks router : keeps (inv Φ k n e) (register_data_sinks sinks router).
Proof. revert router. induction sinks as [|sink sinks IH]; intros router; cbn [register_data_sinks]; keep. Qed.
Hint Resolve keeps_register : keeps.

Lemma keeps_prepare sid : keeps (inv Φ k n e) (prepare_data_path sid).
Proof. unfold prepare_data_path, store_authority, store_rejected_zero. keep. Qed.
Hint Resolve keeps_prepare : keeps.

Lemma keeps_and_then m m' : keeps (inv Φ k n e) m -> keeps (inv Φ k n e) m' -> keeps (inv Φ k n e) (@and_then D m m').
Proof. intros Hm Hm'. unfold and_then. keep. Qed.
Hint Resolve keeps_and_then : keeps.

Lemma keeps_release_usb : keeps (inv Φ k n e) release_usb_driver.
Proof. unfold release_usb_driver. keep. Qed.

Lemma keeps_driver_stays : keeps (inv Φ k n e) (@driver_stays D _).
Proof. unfold driver_stays. keep. Qed.

Lemma keeps_high_impedance : keeps (inv Φ k n e) set_high_impedance.
Proof. unfold set_high_impedance. keep. Qed.
Hint Resolve keeps_release_usb keeps_driver_stays keeps_high_impedance : keeps.

Lemma keeps_abort : keeps (inv Φ k n e) abort_data_path_start.
Proof. unfold abort_data_path_start. keep. Qed.
Hint Resolve keeps_abort : keeps.

Lemma keeps_start_steps :
  keeps (inv Φ k n e) install_uart_driver /\ keeps (inv Φ k n e) install_usb_driver /\ keeps (inv Φ k n e) create_data_tasks.
Proof.
  unfold install_uart_driver, install_usb_driver, create_data_tasks, create_task, and_then. split_and!; keep.
Qed.

Lemma keeps_install sid : keeps (inv Φ k n e) (install_target_uart sid).
Proof.
  destruct keeps_start_steps as (? & ? & ?). unfold install_target_uart, install_target_uart_locked. keep.
Qed.

Lemma keeps_uninstall : keeps (inv Φ k n e) uninstall_target_uart.
Proof. unfold uninstall_target_uart. keep. Qed.
End Hardware.

#[export] Hint Resolve keeps_read keeps_unlock keeps_lock keeps_others keeps_clear_usb keeps_clear_web keeps_high_impedance
  keeps_install keeps_uninstall : keeps.
#[export] Hint Extern 2 (keeps _ (esp _)) => (apply keeps_platform; exact I) : keeps.
#[export] Hint Extern 3 (keeps _ (modify _)) => (apply keeps_update; [done|]; intros ? ? [] ?; split; [core_update|done]) : keeps.
#[export] Hint Extern 3 (keeps _ (access _)) => (apply keeps_access, keeps_update; [done|]; intros ? ? [] ?; split; [core_update|done]) : keeps.

(** ** Sessions *)

(** The generation by which USB input is authorized. *)
Definition owns (x : deck_serial_session) (generation : Z) : Prop :=
  state x = DECK_SERIAL_USB_TX /\ generation = owner_generation x.

Section Sessions.
Context {D : Type} `{SerialBuild} `{SerialPlatform D}.
Implicit Types (w : world D) (Φ : permit) (x : deck_serial_session).
Context (o : option deck_serial_session).

Lemma inv_impl Φ Φ' k n e w :
  Φ.1 = Φ'.1 -> (forall generation, Φ.2 generation -> Φ'.2 generation) -> inv Φ k n e w -> inv Φ' k n e w.
Proof.
  intros Ho HΦ (Hn & He & Hs & Hi). split_and!; try done; [congruence|]. intros Hf.
  destruct (Hi Hf) as (Hc & Ha & H1 & H2). split_and!; try done. intros Hp. destruct (Ha Hp). split; [done|by apply HΦ].
Qed.

(** What clearing leaves is authorized by anything, and belongs to every
    transport so far. *)
Lemma clear_usb_disowns Φ Φ' k n e : Φ.1 = Φ'.1 -> leads (inv Φ k n e) (@clear_usb_input_state D) (fun _ => inv Φ' k n e).
Proof.
  intros Ho w Hi. pose proof (keeps_clear_usb Φ k n e w Hi) as (Hn & He & Hs & Hi'). split_and!; try done; [congruence|]. intros Hf.
  destruct (Hi' Hf) as (Hc & _ & H1 & H2). split_and!; try done. unfold authorized, clear_usb_input_state. by rewrite run_bind.
Qed.

Lemma clear_web_revokes Φ k n e :
  leads (fun w => inv Φ k n e w /\ (k <= e)%nat) (@clear_web_input_state D) (fun _ => inv Φ e n e).
Proof.
  unfold clear_web_input_state, access. intros w [Hi Hk]. rewrite !run_bind.
  pose proof (keeps_others Φ k n e w Hi) as Hv. revert Hv. generalize (interfere w).2. clear w Hi. intros w (Hn & He & Hs & Hi).
  split_and!; try done. intros Hf. destruct (Hi Hf) as (Hcore & Hau & H1 & H2). split_and!; try done.
  assert (forall q : option (list WebInputBlock), default [] (emptied q) = []) as E by by intros [].
  apply (core_shrinks k _ _ ((data_path (service w)) <| web_input_blocks := emptied (web_input_blocks (data_path (service w))) |>)) in Hcore;
    [|split; [by left|right; apply E]].
  apply cleared_web_core in Hcore as [Hfd Hkn Hep (Hr & Ha & Hcm) Hb Hp Hc Hwd Hof]. cbn in *.
  constructor; try done; [cbn; lia|]. unfold web_queue. cbn. rewrite E. constructor.
Qed.

Lemma hardware Φ k n e :
  (forall sid, keeps (inv Φ k n e) (install_uart (W := world D) sid)) /\ keeps (inv Φ k n e) (uninstall_uart (W := world D))
  /\ keeps (inv Φ k n e) (set_tx_high_impedance (W := world D)) /\ keeps (inv Φ k n e) (clear_usb_tx (W := world D))
  /\ keeps (inv Φ k n e) (clear_web_tx (W := world D)).
Proof. split_and!; cbn [install_uart uninstall_uart set_tx_high_impedance clear_usb_tx clear_web_tx service_hardware]; auto with keeps. Qed.

(** A method on [x] that leaves the epoch of the Web transport. *)
Definition moves x k n e w x' : Prop := inv (o, owns x') k n e w /\ web_transport_epoch x' = web_transport_epoch x.

Lemma return_moves x k n e : leads (inv (o, owns x) k n e) (return_to_usb (W := world D) x) (fun x' w => moves x k n e w x').
Proof.
  unfold return_to_usb. case_bool_decide as Hs; cbn [negb]; [|by apply leads_ret].
  apply leads_after; [apply (hardware (o, owns x) k n e)|]. intros _. apply leads_ret. intros w Hi. split; [|done].
  eapply inv_impl; [| |exact Hi]; [done|]. intros g [Hg _]. congruence.
Qed.

Lemma expire_moves x now k n e :
  leads (inv (o, owns x) k n e) (expire_web_lease (W := world D) x now) (fun x' w => moves x k n e w x').
Proof. unfold expire_web_lease. case_match; [apply return_moves|by apply leads_ret]. Qed.

(** Nothing is authorized, so that any session may follow. *)
Lemma disowned_moves x x' k n e w :
  web_transport_epoch x' = web_transport_epoch x -> inv (o, fun _ => False) k n e w -> moves x k n e w x'.
Proof. intros He Hi. split; [|done]. eapply inv_impl; [| |exact Hi]; [done|]. done. Qed.

Lemma not_usb x k n e w : state x <> DECK_SERIAL_USB_TX -> inv (o, owns x) k n e w -> inv (o, fun _ => False) k n e w.
Proof. intros Hs Hi. eapply inv_impl; [| |exact Hi]; [done|]. by intros g [? _]. Qed.

Lemma disarm_moves x k n e :
  leads (inv (o, owns x) k n e) (disarm (W := world D) x) (fun out w => moves x k n e w out.2).
Proof.
  destruct (hardware (o, fun _ => False) k n e) as (_ & Hu & Hs & _ & Hw).
  unfold disarm. cbv zeta. eapply leads_bind; [by apply (clear_usb_disowns _ (o, fun _ => False))|]. intros [].
  apply leads_after; [done|]. intros []. apply leads_after; [by case_match; auto with keeps|]. intros uninstalled.
  apply leads_after; [done|]. intros []. apply leads_ret. intros w. apply disowned_moves. by case_match.
Qed.

Lemma enter_install_moves x k n e :
  leads (inv (o, fun _ => False) k n e) (enter_install (W := world D) x) (fun out w => moves x k n e w out.2).
Proof.
  destruct (hardware (o, fun _ => False) k n e) as (Hi & Hu & Hs & Hcu & Hcw).
  unfold enter_install. cbv zeta. apply leads_after; [done|]. intros installed. case_match.
  - repeat (apply leads_after; [done|]; intros ?). apply leads_ret. intros w. by apply disowned_moves.
  - apply leads_ret. intros w. by apply disowned_moves.
Qed.

Lemma enter_moves x epoch now k n e :
  leads (inv (o, owns x) k n e) (deck_serial_session_enter (W := world D) x epoch now) (fun out w => moves x k n e w out.2).
Proof.
  destruct (hardware (o, fun _ => False) k n e) as (_ & Hu & Hs & _).
  unfold deck_serial_session_enter. case_match; [by apply leads_ret|]. case_match eqn:E; [by apply leads_ret|]. bool_prop.
  assert (forall A (m : M (world D) A) Q, leads (inv (o, fun _ => False) k n e) m Q -> leads (inv (o, owns x) k n e) m Q) as Hnot
    by (intros A m Q Hm w Hi; apply Hm; eapply not_usb; [|exact Hi]; congruence).
  apply Hnot. case_match; [|apply enter_install_moves].
  apply leads_after; [done|]. intros uninstalled. case_match.
  - apply leads_after; [done|]. intros []. apply leads_ret. intros w. by apply disowned_moves.
  - pose proof (enter_install_moves (x <| uart_installed := false |>) k n e) as Hd. exact Hd.
Qed.

Lemma exit_moves x epoch k n e :
  leads (inv (o, owns x) k n e) (deck_serial_session_exit (W := world D) x epoch) (fun out w => moves x k n e w out.2).
Proof.
  unfold deck_serial_session_exit. case_match; [by apply leads_ret|]. cbv zeta. case_match; [by apply leads_ret|].
  apply (leads_bind _ _ _ (fun out w => moves x k n e w out.2)); [pose proof (disarm_moves (x <| control_epoch := epoch |>) k n e) as Hd; exact Hd|]. intros [ok x']. by apply leads_ret.
Qed.

Lemma apply_moves x rid on now k n e :
  leads (inv (o, owns x) k n e) (apply_web_request (W := world D) x rid on now) (fun out w => moves x k n e w out.2).
Proof.
  unfold apply_web_request. cbv zeta. eapply (leads_bind _ _ _ (fun x' w => moves x k n e w x')).
  - destruct on; [|apply return_moves].
    eapply (leads_bind _ _ _ (fun _ => inv (o, fun _ => False) k n e)); [|intros []; apply leads_ret; intros w; by apply disowned_moves].
    case_bool_decide as Hs; [by apply clear_usb_disowns|]. apply leads_ret. intros w. by apply not_usb.
  - intros x'. apply leads_ret. by intros w.
Qed.

Lemma request_moves x epoch sid rid on now k n e :
  leads (inv (o, owns x) k n e) (deck_serial_session_request_web_at_epoch (W := world D) x epoch sid rid on now)
    (fun out w => moves x k n e w out.2).
Proof.
  unfold deck_serial_session_request_web_at_epoch. case_match; [by apply leads_ret|]. case_match; [by apply leads_ret|].
  eapply leads_bind; [apply expire_moves|]. intros x'.
  repeat (case_match; [by apply leads_ret|]).
  assert (leads (fun w => moves x k n e w x') (apply_web_request (W := world D) x' rid on now) (fun out w => moves x k n e w out.2)) as Ha.
  { intros w [Hi He]. destruct (apply_moves x' rid on now k n e w Hi) as [Hi' He']. split; [done|congruence]. }
  eapply leads_bind; [exact Ha|]. intros [result x'']. by apply leads_ret.
Qed.

Lemma activity_moves x sid lease now k n e :
  leads (inv (o, owns x) k n e) (deck_serial_session_web_activity (W := world D) x sid lease now) (fun out w => moves x k n e w out.2).
Proof.
  unfold deck_serial_session_web_activity. eapply leads_bind; [apply expire_moves|]. intros x'. apply leads_ret.
  intros w Hm. by case_match.
Qed.

Lemma disconnect_moves x sid lease k n e :
  leads (inv (o, owns x) k n e) (deck_serial_session_web_disconnect (W := world D) x sid lease) (fun out w => moves x k n e w out.2).
Proof.
  unfold deck_serial_session_web_disconnect. case_match; [by apply leads_ret|].
  eapply leads_bind; [apply return_moves|]. intros x'. by apply leads_ret.
Qed.

(** A revocation takes the service to its transport, unless it is stale. *)
Lemma revoke_moves x (k n e : nat) :
  web_transport_epoch x = Z.of_nat k ->
  leads (inv (o, owns x) k n e) (deck_serial_session_revoke_web_transport (W := world D) x (Z.of_nat e))
    (fun out w => inv (o, owns out.2) (Nat.max k e) n e w /\ web_transport_epoch out.2 = Z.of_nat (Nat.max k e)
                  /\ (state out.2 = DECK_SERIAL_WEB_TX -> state x = DECK_SERIAL_WEB_TX /\ (e < k)%nat)).
Proof.
  intros Hx. unfold deck_serial_session_revoke_web_transport. rewrite Hx. destruct (Z.of_nat e <? Z.of_nat k) eqn:E; bool_prop.
  { apply leads_ret. intros w Hi. rewrite Nat.max_l by lia. cbn. split_and!; try done. intros ?. split; [done|lia]. }
  rewrite Nat.max_r by lia. cbv zeta.
  assert (forall Φ, leads (inv Φ k n e) (clear_web_tx (W := world D)) (fun _ => inv Φ e n e)) as Hclear.
  { intros Φ w Hi. apply (clear_web_revokes Φ k n e). split; [done|lia]. }
  set (y := x <| web_transport_epoch := Z.of_nat e |>).
  destruct (bool_decide (state y = DECK_SERIAL_WEB_TX)) eqn:Es; cbn [negb].
  - apply (leads_bind _ _ _ (fun x' w => x' = returned y /\ inv (o, owns (returned y)) e n e w)).
    + unfold return_to_usb. rewrite Es. cbn [negb]. eapply leads_bind; [apply Hclear|]. intros []. apply leads_ret.
      intros w Hi. split; [done|]. eapply inv_impl; [| |exact Hi]; [done|]. bool_prop. intros g [Hg _]. unfold y in Es. cbn in Es. congruence.
    + intros x' w [-> Hi]. run. cbn. by split_and!.
  - apply (leads_bind _ _ _ (fun x' w => x' = y /\ inv (o, owns x) k n e w)).
    + unfold return_to_usb. rewrite Es. cbn [negb]. by apply leads_ret.
    + intros x' w [-> Hi]. rewrite run_bind. pose proof (Hclear _ w Hi) as Hw. revert Hw.
      generalize (clear_web_tx (W := world D) w). intros [[] v] Hw. run. split_and!; try done.
      cbn. bool_prop. intros Hs. by unfold y in Es.
Qed.
End Sessions.
