(* ===== verification/SerialServiceSafety.v ===== *)
(** * Safety of the serial service

    For every platform and every interleaving of the application, the link
    task and the USB input task: what reaches the target UART is what the
    owner in force submitted, in order, and nothing of a Web transport once its
    revocation was acknowledged. *)

From S2P Require Import Prelude Keeps Feed SerialRouter SerialSession SerialService SerialServiceInvariant.

(** ** The owner task *)

Record session_ok (x : deck_serial_session) (k n : nat) : Prop := {
  ok_wf : well_formed DECK_SERIAL_DEFAULT_WEB_LEASE_MS x;
  ok_web_epoch : web_transport_epoch x = Z.of_nat k;
  ok_granted : state x = DECK_SERIAL_WEB_TX -> (k <= n)%nat;
}.

(** [e] transports that are no wrap-around of the epochs. *)
Definition in_range (e : nat) : Prop := Z.of_nat e <= U64_MAX.

(** A command the owner has received after [e] transports. *)
Record received_ok (c : Command) (e : nat) : Prop := {
  received_words : words c /\ is_u64 (command_epoch c);
  received_revoke : kind c = revoke_web_transport -> command_epoch c <= Z.of_nat e;
  received_request : kind c = request_web -> command_epoch c = Z.of_nat (born c);
}.

Section Ops.
Context {D : Type} `{SerialBuild} `{SerialPlatform D}.
Implicit Types (w : world D) (x : deck_serial_session).

Lemma return_stays_web x w : state (return_to_usb (W := world D) x w).1 = DECK_SERIAL_WEB_TX -> False.
Proof. rewrite return_to_usb_state. case_bool_decide; [done|]. congruence. Qed.

Lemma expire_stays_web x now w :
  state (expire_web_lease (W := world D) x now w).1 = DECK_SERIAL_WEB_TX -> state x = DECK_SERIAL_WEB_TX.
Proof. rewrite expire_web_lease_state. by case_match. Qed.

Definition is_request (op : session_op) : bool := match op with RequestWeb _ _ _ _ _ => true | _ => false end.

(** Only a request makes the Web an owner. *)
Lemma stays_web op x w :
  is_request op = false -> state (run_op (W := world D) op x w).1 = DECK_SERIAL_WEB_TX -> state x = DECK_SERIAL_WEB_TX.
Proof.
  destruct op; intros Hop; try discriminate Hop; cbn [run_op]; run.
  - unfold deck_serial_session_enter, enter_install. run_cases; cbn; try done; bool_prop; congruence.
  - unfold deck_serial_session_exit. run_cases; cbn; try done. unfold disarm. run. cbn. by case_match.
  - unfold deck_serial_session_revoke_web_transport. run_cases; cbn; try done; intros Hs; exfalso;
      by eapply return_stays_web.
  - unfold deck_serial_session_web_activity. run. case_match; cbn; apply expire_stays_web.
  - unfold deck_serial_session_web_disconnect. run_cases; [done|]. cbn. intros Hs. exfalso. by eapply return_stays_web.
  - unfold deck_serial_session_accept_usb_input_generation. by repeat case_match.
  - unfold deck_serial_session_record_usb_rejection. by case_match.
  - apply expire_stays_web.
Qed.
End Ops.

Section Owner.
Context {D : Type} `{SerialBuild} `{SerialPlatform D}.
Implicit Types (w : world D) (x : deck_serial_session).

(** The session [x] of the moment in a world where the owner holds [o]. *)
Definition at_ (o : option deck_serial_session) x (k n e : nat) w : Prop :=
  inv (o, owns x) k n e w /\ (in_range e -> session_ok x k n).

(** The owner holds a session that fits the world. *)
Definition holds w : Prop := exists x k n e, at_ (Some x) x k n e w.

(** Once the epochs have wrapped around nothing is claimed. *)
Lemma stale Φ Φ' k k' n e w : ~ in_range e -> Φ.1 = Φ'.1 -> inv Φ k n e w -> inv Φ' k' n e w.
Proof. intros He Ho (Hn & Ht & Hs & _). split_and!; try congruence; try done. unfold fresh, in_range in *. lia. Qed.

Lemma keeps_at {A} o x k n e (m : M (world D) A) : keeps (inv (o, owns x) k n e) m -> keeps (at_ o x k n e) m.
Proof. intros Hm w [Hi Hs]. split; [by apply Hm|done]. Qed.

Lemma keeps_holds {A} (m : M (world D) A) : (forall x k n e, keeps (inv (Some x, owns x) k n e) m) -> keeps holds m.
Proof. intros Hm w (x & k & n & e & Hi & Hs). exists x, k, n, e. split; [by apply Hm|done]. Qed.

(** ... with all the transports so far. *)
Lemma holds_now w : holds w -> exists x k n, at_ (Some x) x k n (transports (ghost w)) w.
Proof.
  intros (x & k & n & e & (Hn & He & Hs & Hi) & Hok). exists x, k, n. split; [by split_and!|].
  intros Hr. apply Hok. unfold in_range in *. lia.
Qed.

(** A method that changes the session as an operation of it does. *)
Lemma method_step {A} (m : M (world D) (A * deck_serial_session)) o x k n e :
  (forall w, in_range e -> well_formed DECK_SERIAL_DEFAULT_WEB_LEASE_MS x -> well_formed DECK_SERIAL_DEFAULT_WEB_LEASE_MS (m w).1.2) ->
  (forall w, state (m w).1.2 = DECK_SERIAL_WEB_TX -> state x = DECK_SERIAL_WEB_TX) ->
  leads (inv (o, owns x) k n e) m (fun out w => moves o x k n e w out.2) ->
  leads (at_ o x k n e) m (fun out w => at_ o out.2 k n e w).
Proof.
  intros Hwf Hweb Hm w [Hi Hs]. destruct (Hm w Hi) as [Hi' He]. split; [done|]. intros Hr. destruct (Hs Hr) as [Hx Hep Hg].
  split; [by apply Hwf|congruence|]. intros Ho. by apply Hg, (Hweb w).
Qed.

Lemma op_step {A} (m : M (world D) (A * deck_serial_session)) op o x k n e :
  (forall w, (run_op op x w).1 = (m w).1.2) -> (in_range e -> op_ok op) -> is_request op = false ->
  leads (inv (o, owns x) k n e) m (fun out w => moves o x k n e w out.2) ->
  leads (at_ o x k n e) m (fun out w => at_ o out.2 k n e w).
Proof.
  intros Hrun Hop Hreq. apply method_step; intros w; rewrite <- Hrun.
  - intros Hr. by apply wf_run_op, Hop.
  - by apply stays_web.
Qed.

Lemma put_session o x k n e w :
  at_ o x k n e w -> at_ (Some x) x k n e (w <| service := (service w) <| session := Some x |> |>).
Proof.
  intros [(Hn & He & Hs & Hi) Hok]. split; [|done]. split_and!; try done. intros Hf.
  destruct (Hi Hf) as ([] & Ha & H1 & H2). split_and!; done.
Qed.

(** [run_session] puts the session back. *)
Lemma run_session_leads {A} (d : A) method x k n e (Q : A -> nat -> nat -> Prop) :
  leads (at_ (Some x) x k n e) (method x) (fun out w => exists k n e, at_ (Some x) out.2 k n e w /\ Q out.1 k e) ->
  leads (at_ (Some x) x k n e) (run_session d method) (fun a w => exists x' k' n' e', at_ (Some x') x' k' n' e' w /\ Q a k' e').
Proof.
  intros Hm w Hw. unfold run_session. rewrite run_bind. cbn [get fst snd]. assert (session (service w) = Some x) as -> by apply Hw.
  rewrite run_bind. destruct (Hm w Hw) as (k' & n' & e' & Hv & HQ). revert Hv HQ. generalize (method x w). intros [[a x'] v] Hv HQ. cbn in *.
  run. exists x', k', n', e'. split; [|done]. by apply (put_session (Some x)).
Qed.

Lemma run_session_holds {A} (d : A) method x k n e :
  leads (at_ (Some x) x k n e) (method x) (fun out w => at_ (Some x) out.2 k n e w) ->
  leads (at_ (Some x) x k n e) (run_session d method) (fun _ => holds).
Proof.
  intros Hm. eapply leads_weaken; [apply (run_session_leads d method x k n e (fun _ _ _ => True))|done|].
  - intros w Hw. exists k, n, e. split; [by apply Hm|done].
  - intros a w (x' & k' & n' & e' & Hv & _). by exists x', k', n', e'.
Qed.

(** ** What leaves the session alone *)

Lemma keeps_publish Φ k n e result : keeps (inv Φ k n e) (publish result).
Proof. unfold publish. keep. Qed.

Lemma keeps_alert Φ k n e : keeps (inv Φ k n e) router_alert_changed.
Proof. unfold router_alert_changed. keep. Qed.

Lemma keeps_store_authority Φ k n e g : keeps (inv Φ k n e) (@store_authority D g).
Proof. unfold store_authority. auto with keeps. Qed.

Lemma keeps_sync Φ k n e : keeps (inv Φ k n e) (@sync_usb_input_authority D).
Proof. unfold sync_usb_input_authority, store_authority. keep. Qed.

Lemma now_u64 w : is_u64 (monotonic_ms w).1.
Proof. unfold monotonic_ms. run. apply u64_range. Qed.

Lemma keeps_clock Φ k n e : keeps (inv Φ k n e) (@monotonic_ms D _).
Proof. unfold monotonic_ms. keep. Qed.

Lemma leads_now {A} (m : Z -> M (world D) A) R :
  (forall now, is_u64 now -> leads holds (m now) R) -> leads holds (monotonic_ms ≫= m) R.
Proof. intros HR w Hw. rewrite run_bind. apply HR; [apply now_u64|]. apply keeps_holds; [|done]. intros. apply keeps_clock. Qed.

Lemma holds_tick now : is_u64 now -> keeps holds (tick_session now).
Proof.
  intros Hnow w Hw. destruct (holds_now w Hw) as (x & k & n & Hx). revert Hx. generalize (transports (ghost w)). clear Hw. intros e Hx.
  unfold tick_session. revert w Hx. apply run_session_holds, (op_step _ (Tick now)); try done.
  - intros w. cbn [run_op]. unfold deck_serial_session_tick. by rewrite run_bind.
  - eapply leads_bind; [apply expire_moves|]. intros x'. by apply leads_ret.
Qed.
End Owner.

(** ** Input *)

Section Input.
Context {D : Type} `{SerialBuild} `{SerialPlatform D}.
Implicit Types (w : world D) (x : deck_serial_session).

(** What is claimed as long as the epochs have not wrapped around. *)
Lemma at_intro o x k n e w :
  granted (ghost w) = n -> (e <= transports (ghost w))%nat -> session (service w) = o ->
  (in_range e -> session_ok x k n) ->
  (fresh w -> core k (service w) (ghost w) /\ authorized (o, owns x) (service w) /\ ok_caller (ghost w) (app w) /\ ok_caller (ghost w) (link w)) ->
  at_ o x k n e w.
Proof. intros. split; [by split_and!|done]. Qed.

Lemma holds_others : keeps holds (@interfere D).
Proof. apply keeps_holds. intros. apply keeps_others. Qed.

Lemma at_update o x k n e f w :
  (forall s, session (f s) = session s) ->
  (forall s g, core k s g -> authorized (o, owns x) s -> core k (f s) g /\ authorized (o, owns x) (f s)) ->
  at_ o x k n e w -> at_ o x k n e (w <| service := f (service w) |>).
Proof. intros Hf Hc [Hi Hs]. split; [|done]. by apply (keeps_update (o, owns x) k n e f Hf Hc w). Qed.

Lemma holds_rejections : keeps holds (@drain_usb_rejections D).
Proof.
  intros w Hw. unfold drain_usb_rejections. rewrite run_bind. apply holds_others in Hw. revert Hw. generalize (interfere w).2. clear w.
  intros w Hw. rewrite run_bind. cbn [get fst snd]. rewrite run_bind. cbn [modify fst snd].
  destruct (holds_now w Hw) as (x & k & n & Hx). set (rejected := pending_usb_rejected_bytes (service w)).
  assert (in_range (transports (ghost w)) -> is_u64 rejected) as Hr by (intros Hr; destruct Hx as [(_ & _ & _ & Hi) _]; destruct (Hi Hr) as [Hc _]; apply (core_words _ _ _ Hc)).
  apply (at_update _ _ _ _ _ (fun s => s <| pending_usb_rejected_bytes := 0 |>)) in Hx; [|done|intros ? ? [] ?; split; [core_update|done]].
  clearbody rejected. revert Hx Hr. generalize (transports (ghost w)) as e. case_match; intros e Hx Hr; [by exists x, k, n, e|].
  unfold ask_session. revert Hx. generalize (w <| service := (service w) <| pending_usb_rejected_bytes := 0 |> |>). clear w Hw.
  apply run_session_holds, (op_step _ (RecordUsbRejection rejected)); try done.
  apply leads_ret. unfold deck_serial_session_record_usb_rejection. intros w Hi. by case_match.
Qed.

(** ... of the USB. *)

Lemma usb_writes_snoc g l sources c src : Forall2 (explains g) l sources ->
  usb_writes (l ++ [c]) (sources ++ [src])
  = usb_writes l sources ++ match src with FromUsb number at_ => [(number, at_, taken c)] | FromWeb _ _ => [] end.
Proof. intros Hl. unfold usb_writes. rewrite zip_with_app by by eapply Forall2_length. rewrite bind_app. cbn. by rewrite app_nil_r. Qed.

Lemma web_writes_snoc g l sources c src : Forall2 (explains g) l sources ->
  web_writes (l ++ [c]) (sources ++ [src])
  = web_writes l sources ++ match src with FromWeb number at_ => [(number, at_, taken c)] | FromUsb _ _ => [] end.
Proof. intros Hl. unfold web_writes. rewrite zip_with_app by by eapply Forall2_length. rewrite bind_app. cbn. by rewrite app_nil_r. Qed.

(** A call and what it answered. *)
Definition call_of (data : bytes) (count : Z) w : uart_call := {|
  sent := data; answer := count; writer := session (service w); acknowledged_before := acknowledged (ghost w);
  granted_before := granted (ghost w) |}.

Definition called (c : uart_call) (d : D) w : world D :=
  w <| platform := d |> <| ghost := (ghost w) <| calls := calls (ghost w) ++ [c] |> |>.

(** A write of the pending block that is authorized. *)
Lemma usb_written x k n e w d count :
  let s := service w in
  let c := call_of (drop (pending_usb_offset s) (usb_bytes (pending_usb_input s))) count w in
  at_ (Some x) x k n e w -> has_pending_usb_input s = true -> pending_usb_authorized s = true ->
  at_ (Some x) x k n e ((called c d w) <| service := s <| pending_usb_offset := (pending_usb_offset s + taken c)%nat |> |>).
Proof.
  intros s c [(Hn & He & Hs & Hi) Hok] Hp Ha. apply at_intro; try done. intros Hf.
  destruct (Hi Hf) as ([[sources (Hcl & Hu & Hw)] Hkn Hep Hr Hb Hpb Hc Hwd Hof] & Hau & H1 & H2). fold s in Hu, Hw, Hkn, Hep, Hr, Hb, Hpb, Hc, Hwd, Hof, Hau.
  assert (session_ok x k n) as [[_ (_ & _ & Hg & _) Harm _ _] _ _] by (apply Hok; unfold in_range, fresh in *; cbn in Hf; lia).
  destruct (Hau Ha) as [_ [Hst Hgen]]. cbn in Hgen. destruct Harm as (Hin & _ & Hz); [congruence|].
  cbn. split_and!; [|done|eapply ok_caller_mono; [|exact H1]; done|eapply ok_caller_mono; [|exact H2]; done].
  constructor; cbn; try done.
  - exists (sources ++ [FromUsb (usb_number (pending_usb_input s)) (pending_usb_offset s)]). split_and!; cbn.
    + apply Forall2_app; [done|]. apply Forall2_cons. split; [|done]. destruct Hkn as (_ & _ & Hkn & _). specialize (Hkn Hp).
      eexists _, x. split_and!; [exact Hkn|done..].
    + rewrite (usb_writes_snoc _ _ _ _ _ Hcl). unfold usb_pending in *. cbn. rewrite Hp in *. by apply feed_write.
    + rewrite (web_writes_snoc _ _ _ _ _ Hcl). by rewrite app_nil_r.
  - eapply Forall_impl; [exact Hc|]. intros c'. by apply command_mono.
  - split; [congruence|apply Hof].
Qed.

Lemma holds_clear_usb : keeps holds (@clear_pending_usb_input D).
Proof.
  apply keeps_holds. intros x k n e. apply keeps_update; [done|].
  intros s g Hc Ha. split; [by apply cleared_usb_core|done].
Qed.

Lemma holds_clear_web : keeps holds (@clear_pending_web_input D).
Proof.
  apply keeps_holds. intros x k n e. apply keeps_update; [done|].
  intros s g Hc Ha. split; [by apply cleared_web_core|done].
Qed.

Lemma holds_ret {A} (a : A) : keeps holds (mret a : M (world D) A).
Proof. by intros w. Qed.
Hint Resolve holds_clear_usb holds_clear_web holds_ret holds_others : keeps.

(** What the driver took is no more than it got. *)
Lemma transmit_run data offset w : exists count d,
  let c := call_of (drop offset data) count w in
  (transmit data offset w).2 = called c d w /\ taken c = default 0%nat (transmit data offset w).1.
Proof.
  unfold transmit. rewrite run_bind. cbv zeta. rewrite take_ge by (rewrite length_drop; lia). unfold esp.
  destruct (perform _ _) as [count d]. exists count, d. run. split; [done|]. unfold taken. cbn. rewrite length_drop. by case_match.
Qed.

Lemma same_usb_offset s : s <| pending_usb_offset := (pending_usb_offset s + 0)%nat |> = s.
Proof. rewrite Nat.add_0_r. by destruct s. Qed.

Lemma same_web_offset s : s <| pending_web_offset := (pending_web_offset s + 0)%nat |> = s.
Proof. rewrite Nat.add_0_r. by destruct s. Qed.

Lemma transmit_usb_holds w x k n e :
  at_ (Some x) x k n e w -> has_pending_usb_input (service w) = true -> pending_usb_authorized (service w) = true ->
  holds (transmit_usb w).2.
Proof.
  intros Hx Hp Ha. unfold transmit_usb. rewrite run_bind. cbn [get fst snd]. rewrite run_bind.
  destruct (transmit_run (usb_bytes (pending_usb_input (service w))) (pending_usb_offset (service w)) w) as (count & d & Hrun & Hc).
  pose proof (usb_written x k n e w d count Hx Hp Ha) as Hv. cbv zeta in Hv. rewrite Hc in Hv. revert Hrun Hv. clear Hc.
  generalize (call_of (drop (pending_usb_offset (service w)) (usb_bytes (pending_usb_input (service w)))) count w). intros c.
  generalize (transmit (usb_bytes (pending_usb_input (service w))) (pending_usb_offset (service w)) w). intros [[[|written]|] v] Hrun Hv; cbn [fst snd default] in *; subst v.
  - rewrite same_usb_offset in Hv. by exists x, k, n, e.
  - run. cbn [modify fst snd]. case_match; [apply holds_clear_usb|]; by exists x, k, n, e.
  - rewrite same_usb_offset in Hv. rewrite run_bind. cbn [snd]. apply holds_clear_usb. by exists x, k, n, e.
Qed.

(** The session the owner has is asked without a step of the others. *)
Lemma ask_at {A} (d : A) method x k n e w :
  at_ (Some x) x k n e w -> ask_session (D := D) d method w = ((method x).1, w <| service := (service w) <| session := Some (method x).2 |> |>).
Proof.
  intros Hx. unfold ask_session, run_session. rewrite run_bind. cbn [get fst snd]. assert (session (service w) = Some x) as -> by apply Hx.
  run. by destruct (method x).
Qed.

Lemma accept_usb_step x k n e w generation count :
  let out := deck_serial_session_accept_usb_input_generation x generation count in
  at_ (Some x) x k n e w ->
  at_ (Some out.2) out.2 k n e (w <| service := (service w) <| session := Some out.2 |> |>) /\ (out.1 = true -> owns out.2 generation).
Proof.
  intros out Hx. split.
  - apply (put_session (Some x)).
    assert (leads (at_ (Some x) x k n e) (mret out : M (world D) _) (fun out w => at_ (Some x) out.2 k n e w)) as Hm; [|by apply Hm].
    unfold out. apply method_step.
    + intros v _ Hwf. unfold deck_serial_session_accept_usb_input_generation. run. repeat case_match; try done. apply wf_rejected; [done|apply u64_range].
    + intros v. run. unfold deck_serial_session_accept_usb_input_generation. by repeat case_match.
    + apply leads_ret. intros v Hi. unfold deck_serial_session_accept_usb_input_generation. by repeat case_match.
  - unfold out, deck_serial_session_accept_usb_input_generation. case_match eqn:E; [|by case_match]. bool_prop. intros _. split; [|done]. tauto.
Qed.

Lemma authorize_usb_holds w x k n e :
  at_ (Some x) x k n e w -> has_pending_usb_input (service w) = true -> holds (authorize_usb w).2.
Proof.
  intros Hx Hp. unfold authorize_usb. rewrite run_bind. cbn [get fst snd].
  destruct (pending_usb_authorized (service w)) eqn:Ha; [by eapply transmit_usb_holds|].
  rewrite run_bind, (ask_at _ _ _ _ _ _ _ Hx). cbn [fst snd].
  destruct (accept_usb_step x k n e w (block_generation (pending_usb_input (service w))) (Z.of_nat (List.length (usb_bytes (pending_usb_input (service w))))) Hx) as [Hv Ho].
  revert Hv Ho. generalize (deck_serial_session_accept_usb_input_generation x (block_generation (pending_usb_input (service w)))
    (Z.of_nat (List.length (usb_bytes (pending_usb_input (service w)))))). intros [[] y] Hv Ho; cbn [fst snd negb] in *.
  - rewrite run_bind. cbn [modify snd]. apply (transmit_usb_holds _ y k n e); [|done|done].
    destruct Hv as [(Hn & He & Hs & Hi) Hok]. apply at_intro; try done. intros Hf. destruct (Hi Hf) as ([] & _ & H1 & H2).
    split_and!; try done. intros _. split; [done|]. by apply Ho.
  - rewrite run_bind. cbn [snd]. apply holds_clear_usb. by exists y, k, n, e.
Qed.

(** The next block of the queue becomes the pending one. *)
Lemma usb_received o x k n e w block queue :
  at_ o x k n e w -> usb_input_blocks (data_path (service w)) = Some (block :: queue) -> has_pending_usb_input (service w) = false ->
  let s' := (service w) <| data_path := (data_path (service w)) <| usb_input_blocks := Some queue |> |> <| pending_usb_input := block |> in
  at_ o x k n e (w <| service := s' |>) /\ at_ o x k n e (w <| service := s' <| has_pending_usb_input := true |> |>).
Proof.
  intros [(Hn & He & Hs & Hi) Hok] Hq Hp s'. split; (apply at_intro; try done); intros Hf;
    destruct (Hi Hf) as ([[sources (Hcl & Hu & Hw)] (Hk1 & Hk2 & Hk3 & Hk4) Hep Hr Hb Hpb Hc Hwd [Hou How]] & Hau & H1 & H2);
    unfold usb_queue, usb_pending in Hu, Hk1; rewrite Hq in Hu, Hk1; rewrite Hp in Hu; cbn in Hu, Hk1; apply Forall_cons in Hk1 as [Hk Hk1];
    (split_and!; [|intros Ha; destruct (Hau Ha); congruence|done..]); constructor; try done.
  - exists sources. split_and!; try done. unfold usb_queue, usb_pending. cbn. rewrite Hp. by eapply feed_tail.
  - exists sources. split_and!; try done. unfold usb_queue, usb_pending. cbn. rewrite (Hou Hp). by eapply feed_receive.
Qed.

Lemma holds_drain_usb : keeps holds drain_usb_input.
Proof.
  intros w Hw. unfold drain_usb_input. rewrite run_bind. apply holds_others in Hw. revert Hw. generalize (interfere w).2. clear w.
  intros w Hw. rewrite run_bind. cbn [get fst snd]. destruct (usb_input_blocks _) as [queue|] eqn:Eq; [|done].
  case_match; [done|]. destruct Hw as (x & k & n & e & Hx). destruct (has_pending_usb_input (service w)) eqn:Ep; [by eapply authorize_usb_holds|].
  destruct queue as [|block queue]; [by exists x, k, n, e|]. rewrite run_bind. cbn [modify fst snd].
  destruct (usb_received _ _ _ _ _ _ _ _ Hx Eq Ep) as [Ht Hr]. case_match; rewrite run_bind; cbn [modify fst snd].
  - apply holds_clear_usb. by exists x, k, n, e.
  - by apply (authorize_usb_holds _ x k n e).
Qed.

(** ... of the Web. *)

(** A write of the pending block in its lease. *)
Lemma web_written x k n e w d count :
  let s := service w in
  let block := pending_web_input s in
  let c := call_of (drop (pending_web_offset s) (web_bytes block)) count w in
  at_ (Some x) x k n e w -> has_pending_web_input s = true ->
  deck_serial_session_accept_web_input x (block_session_id block) (block_lease_id block) = true ->
  at_ (Some x) x k n e ((called c d w) <| service := s <| pending_web_offset := (pending_web_offset s + taken c)%nat |> |>).
Proof.
  intros s block c [(Hn & He & Hs & Hi) Hok] Hp Ha.
  unfold deck_serial_session_accept_web_input in Ha. bool_prop. destruct_and?.
  apply at_intro; try done. intros Hf.
  destruct (Hi Hf) as ([[sources (Hcl & Hu & Hw)] Hkn Hep Hr Hb Hpb Hc Hwd Hof] & Hau & Hoka & Hokl). fold s in Hu, Hw, Hkn, Hep, Hr, Hb, Hpb, Hc, Hwd, Hof, Hau.
  assert (session_ok x k n) as [_ _ Hg] by (apply Hok; unfold in_range, fresh in *; cbn in Hf; lia).
  cbn. split_and!; [|done|eapply ok_caller_mono; [|exact Hoka]; done|eapply ok_caller_mono; [|exact Hokl]; done].
  constructor; cbn; try done.
  - exists (sources ++ [FromWeb (web_number (pending_web_input s)) (pending_web_offset s)]). split_and!; cbn.
    + apply Forall2_app; [done|]. apply Forall2_cons. split; [|done]. destruct Hkn as (_ & _ & _ & Hkn). specialize (Hkn Hp).
      specialize (Hpb Hp). fold block in Hpb, Hkn. specialize (Hg ltac:(done)).
      eexists _, x. split_and!; [exact Hkn|cbn; try done; try congruence; lia..].
    + rewrite (usb_writes_snoc _ _ _ _ _ Hcl). by rewrite app_nil_r.
    + rewrite (web_writes_snoc _ _ _ _ _ Hcl). unfold web_pending in *. cbn. rewrite Hp in *. by apply feed_write.
  - eapply Forall_impl; [exact Hc|]. intros c'. by apply command_mono.
  - split; [apply Hof|congruence].
Qed.

Lemma transmit_web_holds w x k n e :
  at_ (Some x) x k n e w -> has_pending_web_input (service w) = true -> holds (transmit_web w).2.
Proof.
  intros Hx Hp. unfold transmit_web. rewrite run_bind. cbn [get fst snd].
  assert (session (service w) = Some x) as -> by apply Hx.
  destruct (deck_serial_session_accept_web_input _ _ _) eqn:Ha; cbn [negb]; rewrite run_bind; [|apply holds_clear_web; by exists x, k, n, e].
  destruct (transmit_run (web_bytes (pending_web_input (service w))) (pending_web_offset (service w)) w) as (count & d & Hrun & Hc).
  pose proof (web_written x k n e w d count Hx Hp Ha) as Hv. cbv zeta in Hv. rewrite Hc in Hv. revert Hrun Hv. clear Hc.
  generalize (call_of (drop (pending_web_offset (service w)) (web_bytes (pending_web_input (service w)))) count w). intros c.
  generalize (transmit (web_bytes (pending_web_input (service w))) (pending_web_offset (service w)) w). intros [[[|written]|] v] Hrun Hv; cbn [fst snd default] in *; subst v.
  - rewrite same_web_offset in Hv. by exists x, k, n, e.
  - run. cbn [modify fst snd]. case_match; [apply holds_clear_web|]; by exists x, k, n, e.
  - rewrite same_web_offset in Hv. rewrite run_bind. cbn [snd]. apply holds_clear_web. by exists x, k, n, e.
Qed.

Lemma web_received o x k n e w block queue :
  at_ o x k n e w -> web_input_blocks (data_path (service w)) = Some (block :: queue) -> has_pending_web_input (service w) = false ->
  let s' := (service w) <| data_path := (data_path (service w)) <| web_input_blocks := Some queue |> |> <| pending_web_input := block |> in
  at_ o x k n e (w <| service := s' |>) /\ at_ o x k n e (w <| service := s' <| has_pending_web_input := true |> |>).
Proof.
  intros [(Hn & He & Hs & Hi) Hok] Hq Hp s'. split; (apply at_intro; try done); intros Hf;
    destruct (Hi Hf) as ([[sources (Hcl & Hu & Hw)] (Hk1 & Hk2 & Hk3 & Hk4) Hep Hr Hb Hpb Hc Hwd [Hou How]] & Hau & H1 & H2);
    unfold web_queue, web_pending in Hw, Hb, Hk2; rewrite Hq in Hw, Hb, Hk2; rewrite Hp in Hw; cbn in Hw, Hb, Hk2;
    apply Forall_cons in Hk2 as [Hk Hk2]; apply Forall_cons in Hb as [Hbo Hb];
    (split_and!; [|done..]); constructor; try done.
  - exists sources. split_and!; try done. unfold web_queue, web_pending. cbn. rewrite Hp. by eapply feed_tail.
  - exists sources. split_and!; try done. unfold web_queue, web_pending. cbn. rewrite (How Hp). by eapply feed_receive.
Qed.

Lemma holds_drain_web : keeps holds drain_web_input.
Proof.
  intros w Hw. unfold drain_web_input. rewrite run_bind. apply holds_others in Hw. revert Hw. generalize (interfere w).2. clear w.
  intros w Hw. rewrite run_bind. cbn [get fst snd]. destruct (web_input_blocks _) as [queue|] eqn:Eq; [|done].
  destruct Hw as (x & k & n & e & Hx). destruct (has_pending_web_input (service w)) eqn:Ep; [by eapply transmit_web_holds|].
  destruct queue as [|block queue]; [by exists x, k, n, e|]. rewrite run_bind. cbn [modify fst snd].
  destruct (web_received _ _ _ _ _ _ _ _ Hx Eq Ep) as [Ht Hr]. case_match; rewrite run_bind; cbn [modify fst snd].
  - apply holds_clear_web. by exists x, k, n, e.
  - by apply (transmit_web_holds _ x k n e).
Qed.

Lemma holds_publish result : keeps holds (publish result).
Proof. apply keeps_holds. intros. apply keeps_publish. Qed.
Hint Resolve holds_publish holds_rejections holds_drain_usb holds_drain_web : keeps.

Lemma holds_drain_inputs : keeps holds drain_inputs.
Proof. unfold drain_inputs. keep. Qed.
End Input.

(** ** Commands *)

Section Commands.
Context {D : Type} `{SerialBuild} `{SerialPlatform D}.
Implicit Types (w : world D) (x : deck_serial_session) (c : Command).

(** The owner has received [c]. *)
Definition holds_with c w : Prop := exists x k n e, at_ (Some x) x k n e w /\ (in_range e -> received_ok c e).

Lemma keeps_holds_with {A} c (m : M (world D) A) : (forall x k n e, keeps (inv (Some x, owns x) k n e) m) -> keeps (holds_with c) m.
Proof. intros Hm w (x & k & n & e & [Hi Hs] & Hc). exists x, k, n, e. split; [|done]. split; [by apply Hm|done]. Qed.

Lemma receive_leads :
  leads holds receive_command (fun received w => match received with Some c => holds_with c w | None => holds w end).
Proof.
  intros w Hw. unfold receive_command. rewrite run_bind. apply holds_others in Hw. revert Hw. generalize (interfere w).2. clear w.
  intros w Hw. rewrite run_bind. cbn [get fst snd]. destruct (commands (service w)) as [|c rest] eqn:Ec; [done|].
  destruct (holds_now w Hw) as (x & k & n & Hx). run. exists x, k, n, (transports (ghost w)). split.
  - assert (rest = tl (commands (service w))) as -> by by rewrite Ec.
    apply (at_update _ _ _ _ _ (fun s => s <| commands := tl (commands s) |>)); [done| |done].
    intros s g [? ? ? ? ? ? Hc ? ?] Ha. split; [|done]. constructor; try done. cbn. by destruct Hc.
  - intros Hr. destruct Hx as [(_ & _ & _ & Hi) _]. destruct (Hi Hr) as [[_ _ _ _ _ _ Hc _ _] _]. rewrite Ec in Hc.
    inversion Hc as [|? ? [Hwd He Hrev Hreq] _]; subst. split; [done|done|]. intros Hk. by apply Hreq.
Qed.

(** What a command does to the session. *)
Definition dispatched c x (out : option deck_serial_command_result_t * deck_serial_session) w : Prop :=
  exists k' n' e', at_ (Some x) out.2 k' n' e' w
    /\ (kind c = revoke_web_transport -> in_range e' -> 0 <= command_epoch c <= Z.of_nat k').

Lemma op_dispatched {A} (m : M (world D) (A * deck_serial_session)) (wrap : A -> option deck_serial_command_result_t) op c x k n e :
  kind c <> revoke_web_transport ->
  (forall w, (run_op op x w).1 = (m w).1.2) -> (in_range e -> op_ok op) -> is_request op = false ->
  leads (inv (Some x, owns x) k n e) m (fun out w => moves (Some x) x k n e w out.2) ->
  leads (at_ (Some x) x k n e) ('(a, x') ← m; mret (wrap a, x')) (dispatched c x).
Proof.
  intros Hk Hrun Hop Hreq Hm. eapply leads_bind; [by eapply op_step|]. intros [a x']. apply leads_ret. intros w Hw.
  exists k, n, e. by split.
Qed.

(** A revocation once nothing is claimed any more. *)
Lemma keeps_revoke x epoch k n e :
  leads (inv (Some x, owns x) k n e) (deck_serial_session_revoke_web_transport (W := world D) x epoch)
    (fun _ => inv (Some x, fun _ => True) k n e).
Proof.
  destruct (hardware (Some x, fun _ => True) k n e) as (_ & _ & _ & _ & Hw).
  assert (keeps (inv (Some x, fun _ => True) k n e) (deck_serial_session_revoke_web_transport (W := world D) x epoch)) as Hk
    by (unfold deck_serial_session_revoke_web_transport, return_to_usb; keep).
  intros w Hi. apply Hk. by eapply inv_impl; [| |exact Hi].
Qed.

Lemma revoke_dispatched c x k n e :
  kind c = revoke_web_transport -> (in_range e -> received_ok c e) ->
  leads (at_ (Some x) x k n e) (with_result (deck_serial_session_revoke_web_transport (W := world D) x (command_epoch c))) (dispatched c x).
Proof.
  intros Hk Hc. unfold with_result. destruct (decide (in_range e)) as [Hr|Hr].
  - destruct (Hc Hr) as [[_ Hu] Hle _]. specialize (Hle Hk).
    assert (exists e1, command_epoch c = Z.of_nat e1 /\ (e1 <= e)%nat) as (e1 & He1 & Hle1) by (exists (Z.to_nat (command_epoch c)); words).
    intros w [Hi Hok]. specialize (Hok Hr). pose proof Hok as [Hwf Hep Hg].
    assert (inv (Some x, owns x) k n e1 w) as Hi1 by (destruct Hi as (? & ? & ? & ?); split_and!; try done; lia).
    pose proof (wf_run_op _ (RevokeWebTransport (command_epoch c)) x w Hu Hwf) as Hwf'. cbn [run_op] in Hwf'.
    rewrite He1 in *. pose proof (revoke_moves (Some x) x k n e1 Hep w Hi1) as Hm. rewrite run_bind.
    revert Hm Hwf'. rewrite run_fmap. generalize (deck_serial_session_revoke_web_transport (W := world D) x (Z.of_nat e1) w). intros [[result x'] v] (Hi' & He' & Hw') Hwf'.
    run. exists (Nat.max k e1), n, e1. split; [|lia]. split; [done|]. intros _. split; [done|done|]. intros Hs. destruct (Hw' Hs) as [Hs' Hlt].
    rewrite Nat.max_l by lia. auto.
  - intros w [Hi _]. pose proof (keeps_revoke x (command_epoch c) k n e w Hi) as Hv. rewrite run_bind. revert Hv.
    generalize (deck_serial_session_revoke_web_transport (W := world D) x (command_epoch c) w). intros [[result x'] v] Hv. run.
    exists k, n, e. split; [|done]. split; [|done]. by eapply stale; [| |exact Hv].
Qed.

(** A request of another transport changes nothing. *)
Lemma request_epoch x epoch sid rid on now w :
  epoch <> web_transport_epoch x -> (deck_serial_session_request_web_at_epoch (W := world D) x epoch sid rid on now w).1.2 = x.
Proof. intros He. unfold deck_serial_session_request_web_at_epoch. case_match; [done|]. rewrite (proj2 (Z.eqb_neq _ _) He). done. Qed.

Lemma granted_at o x k n e m w :
  inv (o, owns x) k n e w -> (in_range e -> session_ok x k m) ->
  at_ o x k m e (w <| ghost := (ghost w) <| granted := m |> |>).
Proof.
  intros (Hn & He & Hs & Hi) Hok. apply at_intro; try done. intros Hf. destruct (Hi Hf) as ([Hfd Hkn Hep Hr Hb Hpb Hc Hwd Hof] & Hau & H1 & H2).
  cbn. split_and!; [|done|eapply ok_caller_mono; [|exact H1]; done|eapply ok_caller_mono; [|exact H2]; done].
  constructor; try done. eapply Forall_impl; [exact Hc|]. intros c. by apply command_mono.
Qed.

Lemma request_dispatched c now x k n e :
  kind c = request_web -> is_u64 now -> (in_range e -> received_ok c e) ->
  leads (at_ (Some x) x k n e)
    ('(result, after) ← deck_serial_session_request_web_at_epoch (W := world D) x (command_epoch c) (command_session_id c) (request_id c) (enable c) now;
     _ ← note_grant c x after;
     mret (result, after)) (dispatched c x).
Proof.
  intros Hk Hnow Hc w [Hi Hok]. rewrite run_bind.
  pose proof (request_moves (Some x) x (command_epoch c) (command_session_id c) (request_id c) (enable c) now k n e w Hi) as [Hi' He'].
  pose proof (fun Hwf => wf_run_op DECK_SERIAL_DEFAULT_WEB_LEASE_MS
    (RequestWeb (command_epoch c) (command_session_id c) (request_id c) (enable c) now) x w Hwf) as Hwf. cbn [run_op] in Hwf. rewrite run_fmap in Hwf.
  pose proof (owner_step_request x (command_epoch c) (command_session_id c) (request_id c) (enable c) now w) as Hown.
  pose proof (request_epoch x (command_epoch c) (command_session_id c) (request_id c) (enable c) now w) as Hsame.
  revert Hi' He' Hwf Hown Hsame. generalize (deck_serial_session_request_web_at_epoch (W := world D) x (command_epoch c) (command_session_id c) (request_id c) (enable c) now w).
  intros [[result after] v] Hi' He' Hwf Hown Hsame. cbn [fst snd] in *.
  assert (in_range e -> well_formed DECK_SERIAL_DEFAULT_WEB_LEASE_MS after /\ web_transport_epoch after = Z.of_nat k) as Hfacts.
  { intros Hr. destruct (Hok Hr) as [Hx Hep _], (Hc Hr) as [[(? & ? & ?) ?] _ _]. split; [by apply Hwf|congruence]. }
  rewrite run_bind. unfold note_grant. case_match eqn:Eg; run; bool_prop; destruct_and?.
  - exists k, (born c), e. split; [|congruence]. apply (granted_at _ _ _ n); [done|]. intros Hr. destruct (Hfacts Hr) as [Hw Hep]. split; [done|done|].
    intros _. destruct (Hok Hr) as [_ Hx _], (Hc Hr) as [_ _ Hb]. specialize (Hb Hk).
    destruct (decide (command_epoch c = web_transport_epoch x)) as [Heq|Hne]; [lia|]. rewrite (Hsame Hne) in *. congruence.
  - exists k, n, e. split; [|congruence]. split; [done|]. intros Hr. destruct (Hfacts Hr) as [Hw Hep]. split; [done|done|].
    cbn. intros Hs. destruct (Hok Hr) as [Hx _ Hg]. apply Hg. pose proof Hx as [_ (_ & _ & Hu & _) _ _ _].
    pose proof (increment_nonzero_fresh _ Hu). pose proof (increment_twice_fresh _ Hu).
    destruct Hown as [(E & _)|[E|E]]; [congruence|exfalso..]; apply andb_false_iff in Eg as [Eg|Eg]; bool_prop; congruence.
Qed.

Lemma dispatch_leads c now x k n e :
  is_u64 now -> (in_range e -> received_ok c e) ->
  leads (at_ (Some x) x k n e) (dispatch_command c now x) (dispatched c x).
Proof.
  intros Hnow Hc. unfold dispatch_command, with_result, without_result. destruct (kind c) eqn:Ek.
  - apply (op_dispatched _ Some (Enter (command_epoch c) now)); [congruence| | |done|apply enter_moves].
    + intros w. cbn [run_op]. by rewrite run_fmap.
    + intros Hr. by destruct (Hc Hr) as [[_ ?] _ _].
  - apply (op_dispatched _ Some (Exit (command_epoch c))); [congruence| | |done|apply exit_moves].
    + intros w. cbn [run_op]. by rewrite run_fmap.
    + intros Hr. by destruct (Hc Hr) as [[_ ?] _ _].
  - apply leads_after; [apply keeps_at, keeps_others|]. intros []. apply leads_after; [apply keeps_at, keeps_read|]. intros s.
    case_match; [|by apply request_dispatched].
    apply leads_ret. intros w Hw. exists k, n, e. split; [done|congruence].
  - apply (op_dispatched _ (fun _ => None) (WebActivity (command_session_id c) (command_lease_id c) now)); [congruence| | |done|apply activity_moves].
    + intros w. cbn [run_op]. by rewrite run_fmap.
    + intros Hr. by destruct (Hc Hr) as [[(? & ? & ?) ?] _ _].
  - apply (op_dispatched _ (fun _ => None) (WebDisconnect (command_session_id c) (command_lease_id c))); [congruence| | |done|apply disconnect_moves].
    + intros w. cbn [run_op]. by rewrite run_fmap.
    + intros Hr. by destruct (Hc Hr) as [[(? & ? & ?) ?] _ _].
  - by apply revoke_dispatched.
  - apply (op_dispatched _ Some (Exit (command_epoch c))); [congruence| | |done|apply exit_moves].
    + intros w. cbn [run_op]. by rewrite run_fmap.
    + intros Hr. by destruct (Hc Hr) as [[_ ?] _ _].
Qed.
End Commands.

(** ** The loop *)

Section Loop.
Context {D : Type} `{SerialBuild} `{SerialPlatform D}.
Implicit Types (w : world D) (x : deck_serial_session) (c : Command).

Lemma tick_with c now : is_u64 now -> keeps (holds_with c) (tick_session now).
Proof.
  intros Hnow w (x & k & n & e & Hx & Hc).
  destruct (run_session_leads (D := D) tt (fun x => x ← deck_serial_session_tick x now; mret (tt, x)) x k n e (fun _ _ e' => e' = e)) with (w := w)
    as (x' & k' & n' & e' & Hx' & ->); [|done|by exists x', k', n', e].
  eapply leads_weaken; [apply (op_step _ (Tick now) (Some x) x k n e)|done|]; try done.
  - intros v. cbn [run_op]. unfold deck_serial_session_tick. by rewrite run_bind.
  - eapply leads_bind; [apply expire_moves|]. intros y. by apply leads_ret.
  - intros [[] y] v Hy. by exists k, n, e.
Qed.

Lemma completed_holds epoch x k n e :
  leads (fun w => at_ (Some x) x k n e w /\ (in_range e -> 0 <= epoch <= Z.of_nat k))
    (@access D (fun s => s <| completed_web_revoke_epoch := epoch |>)) (fun _ => holds).
Proof.
  unfold access. intros w [Hx He]. rewrite run_bind. apply (keeps_at _ _ _ _ _ _ (keeps_others _ _ _ _)) in Hx.
  revert Hx. generalize (interfere w).2. clear w. intros w [(Hn & Ht & Hs & Hi) Hok]. exists x, k, n, e. cbn [modify snd].
  apply at_intro; try done. intros Hf. destruct (Hi Hf) as ([Hfd Hkn Hep (Hr & Ha & Hz) Hb Hpb Hc Hwd Hof] & Hau & H1 & H2).
  split_and!; try done. constructor; try done. cbn. split_and!; try done; apply He; unfold in_range, fresh in *; cbn in Hf; lia.
Qed.

Lemma process_leads c : leads (holds_with c) (process_command c) (fun _ => holds).
Proof.
  unfold process_command. intros w Hw. rewrite run_bind. pose proof (now_u64 w) as Hnow.
  apply (keeps_holds_with _ monotonic_ms) in Hw; [|intros; apply keeps_clock]. revert Hw Hnow. generalize (monotonic_ms w). clear w.
  intros [now w] Hw Hnow. cbn [fst snd] in *. revert w Hw.
  apply (leads_after (holds_with c) _ _ (fun _ => holds)); [by apply tick_with|]. intros [].
  apply leads_after; [apply keeps_holds_with; intros; case_match; [apply keeps_store_authority|apply keeps_ret]|]. intros [].
  intros w (x & k & n & e & Hx & Hc). rewrite run_bind.
  destruct (run_session_leads None (dispatch_command c now) x k n e (fun _ k e => kind c = revoke_web_transport -> in_range e -> 0 <= command_epoch c <= Z.of_nat k)) with (w := w)
    as (x' & k' & n' & e' & Hx' & Hz); [by apply dispatch_leads|done|].
  revert Hx' Hz. generalize (run_session None (dispatch_command c now) w). clear w Hx. intros [result w] Hx Hz. cbn [fst snd] in *.
  rewrite run_bind. assert (holds ((if bool_decide (kind c = revoke_web_transport)
      then access (fun s => s <| completed_web_revoke_epoch := command_epoch c |>) else mret tt) w).2) as Hv.
  { case_bool_decide as Hk; [|by exists x', k', n', e']. eapply completed_holds. split; [exact Hx|auto]. }
  revert Hv. generalize ((if bool_decide (kind c = revoke_web_transport)
      then access (fun s => s <| completed_web_revoke_epoch := command_epoch c |>) else mret tt) w). intros [[] v] Hv. revert v Hv.
  apply (leads_after holds _ _ (fun _ => holds)); [apply keeps_holds; intros; apply keeps_sync|]. intros []. apply holds_publish.
Qed.

(** The owner may have given up its session. *)
Definition rests w : Prop := exists Φ k n e, inv Φ k n e w.

Lemma holds_rests w : holds w -> rests w.
Proof. intros (x & k & n & e & Hi & _). by exists (Some x, owns x), k, n, e. Qed.

Definition turned (result : outcome) w : Prop := match result with Continue _ => holds w | Suspended => rests w end.

Lemma destroy_holds x k n e :
  leads (at_ (Some x) x k n e) (deck_serial_session_destroy (W := world D) x) (fun out w => at_ (Some x) out.2 k n e w).
Proof.
  apply method_step.
  - intros w _ Hx. unfold deck_serial_session_destroy. case_match; [by apply wf_disarm|by run].
  - intros w. unfold deck_serial_session_destroy, disarm. case_match; run; cbn; [by case_match|done].
  - unfold deck_serial_session_destroy. case_match; [apply disarm_moves|].
    apply leads_after; [apply (hardware (Some x, owns x) k n e)|]. intros []. by apply leads_ret.
Qed.

Lemma finish_leads next : leads holds (finish_stop next) turned.
Proof.
  intros w Hw. unfold finish_stop. rewrite run_bind. cbn [get fst snd]. destruct Hw as (x & k & n & e & Hx).
  assert (session (service w) = Some x) as -> by apply Hx. case_match; [by exists x, k, n, e|].
  rewrite run_bind. pose proof (run_session_holds (D := D) false deck_serial_session_destroy x k n e (destroy_holds x k n e) w Hx) as Hv.
  revert Hv. generalize (run_session (D := D) false deck_serial_session_destroy w). clear w Hx. intros [destroyed w] Hw. cbn [fst snd] in *.
  case_match; [done|]. rewrite run_bind. cbn [modify fst snd]. destruct Hw as (y & k' & n' & e' & (Hn & He & Hs & Hi) & _).
  assert (inv (None, owns y) k' n' e' (w <| service := (service w) <| session := None |> |>)) as Hv.
  { split_and!; try done. intros Hf. destruct (Hi Hf) as ([] & Ha & Hoa & Hol). by split_and!. }
  assert (keeps (inv (None, owns y) k' n' e') (@access D (fun s => s <| kStoppedBit := true |>))) as Hk by auto with keeps.
  rewrite run_bind. exists (None, owns y), k', n', e'. by apply Hk.
Qed.

Lemma turn_leads next : leads holds (owner_turn next) turned.
Proof.
  unfold owner_turn. apply leads_now. intros now Hnow.
  apply leads_after; [by intros w|]. intros before. apply leads_after; [by apply holds_tick|]. intros [].
  apply leads_after; [by intros w|]. intros after. apply leads_after; [apply keeps_holds; intros; apply keeps_sync|]. intros [].
  cbv zeta. apply leads_after; [apply keeps_holds; intros; case_match; [apply keeps_alert|apply keeps_ret]|]. intros changed.
  apply leads_after; [case_match; [apply holds_publish|apply holds_ret]|]. intros [].
  eapply leads_bind; [apply receive_leads|]. intros [c|].
  - eapply leads_bind; [apply process_leads|]. intros []. case_match; [apply finish_leads|by apply leads_ret].
  - eapply leads_after; [apply holds_drain_inputs|]. intros []. by apply leads_ret.
Qed.

Lemma turns_leads turns next : leads holds (owner_turns turns next) turned.
Proof.
  revert next. induction turns as [|turns IH]; intros next; cbn [owner_turns]; [by apply leads_ret|].
  eapply leads_bind; [apply turn_leads|]. intros [next'|]; [apply IH|]. by apply leads_ret.
Qed.

Lemma started_inv (d : D) sch : inv (None, fun _ => False) 0 0 0 (started d sch).
Proof.
  split_and!; try done. intros _. split_and!; try done. constructor; try done; cbn; try split_and!; try done; try lia.
  exists []. split_and!; [constructor|apply feed_start..].
Qed.

Lemma turned_rests result w : turned result w -> rests w.
Proof. destruct result; [apply holds_rests|done]. Qed.

Lemma task_rests turns (d : D) sch : rests (owner_task turns (started d sch)).2.
Proof.
  pose proof (started_inv d sch) as Hi. revert Hi. generalize (started d sch). unfold owner_task.
  set (Φ := (None, fun _ : Z => False) : permit).
  apply (leads_after (inv Φ 0 0 0) _ _ (fun _ => rests)); [by apply keeps_platform|]. intros allocated.
  apply (leads_bind _ _ _ (fun created w => inv Φ 0 0 0 w
    /\ forall y, created = Some y -> well_formed DECK_SERIAL_DEFAULT_WEB_LEASE_MS y /\ web_transport_epoch y = 0 /\ state y = DECK_SERIAL_DISARMED)).
  - unfold deck_serial_session_create. case_match; [by apply leads_ret|]. cbv zeta. apply leads_after; [apply (hardware Φ 0 0 0)|]. intros [].
    apply leads_ret. intros w Hi. split; [done|]. intros y [= <-]. split; [by constructor|done].
  - intros [x|] w [Hi Hx].
    + destruct (Hx x eq_refl) as (Hwf & Hep & Hst). rewrite run_bind. cbn [modify fst snd].
      assert (holds (w <| service := (service w) <| session := Some x |> |>)) as Hw.
      { exists x, 0%nat, 0%nat, 0%nat. apply (put_session None). split; [by eapply inv_impl; [| |exact Hi]|]. intros _. by constructor; [| |rewrite Hst]. }
      revert Hw. generalize (w <| service := (service w) <| session := Some x |> |>).
      apply (leads_after holds _ _ (fun _ => rests)); [apply keeps_holds; intros; apply keeps_sync|]. intros [].
      apply leads_after; [apply keeps_holds; intros; auto with keeps|]. intros [].
      apply leads_after; [apply holds_publish|]. intros []. apply leads_now. intros now _.
      eapply leads_weaken; [apply turns_leads|done|]. apply turned_rests.
    + rewrite run_bind. exists Φ, 0%nat, 0%nat, 0%nat. assert (keeps (inv Φ 0 0 0) (@access D (fun s => s <| kStoppedBit := true |>))) as Hk by auto with keeps. by apply Hk.
Qed.

Lemma rests_claims w :
  rests w -> fresh w ->
  let g := ghost w in
  exists sources, Forall2 (explains g) (calls g) sources /\ in_order (usb_writes (calls g) sources) /\ in_order (web_writes (calls g) sources).
Proof.
  intros (Φ & k & n & e & _ & _ & _ & Hi) Hf. destruct (Hi Hf) as [[[sources (Hcl & [Hu _ _ _ _] & [Hw _ _ _ _])] _ _ _ _ _ _ _ _] _].
  by exists sources.
Qed.
End Loop.

(** ** Properties *)

(** A device on which everything succeeds, and whose UART takes two bytes at a
    time. *)
Lemma least_history :
  DECK_SERIAL_HISTORY_MIN_BYTES <= DECK_SERIAL_HISTORY_MIN_BYTES <= DECK_SERIAL_HISTORY_MAX_BYTES
  /\ DECK_SERIAL_HISTORY_MIN_BYTES mod 256 = 0.
Proof. unfold DECK_SERIAL_HISTORY_MIN_BYTES, DECK_SERIAL_HISTORY_MAX_BYTES. split; [lia|reflexivity]. Qed.

#[export] Instance sample_build : SerialBuild := {|
  kUsbBridgeEnabled := true; kHistoryBytes := DECK_SERIAL_HISTORY_MIN_BYTES; history_bounds := least_history |}.

#[export] Instance sample_platform : SerialPlatform Z := fun A call =>
  match call in platform_call A return M Z A with
  | esp_timer_get_time => fun now => (now, now + 1000)
  | uart_tx_chars data => fun now => (Z.of_nat (Nat.min 2 (List.length data)), now)
  | callback _ => fun now => (tt, now)
  | set_target_tx_high_impedance | allocate | uart_driver_install | uart_param_config | uart_set_pin
  | uart_is_driver_installed | uart_driver_delete | usb_serial_jtag_driver_install | usb_serial_jtag_driver_uninstall
  | xTaskCreatePinnedToCore | wait_for_tasks | xSemaphoreTake => fun now => (true, now)
  end.

Definition later (accesses : nat) (batch : list action) : list (list action) := repeat [] accesses ++ [batch].

(** The application arms the service, the USB writes a block, the Web takes
    over and writes, its transport is revoked, and that is acknowledged. *)
Definition sample_schedule : list (list action) :=
  later 4 [AppProceed; CallEnter; AppProceed; AppProceed]
  ++ later 10 [UsbCheck; UsbLoad; UsbSubmit [1; 2; 3]]
  ++ later 14 [CallRequestWeb 1 7 true; LinkProceed; LinkProceed]
  ++ later 18 [CallSubmitWeb 1 7 [4; 5; 6]; LinkProceed; LinkProceed]
  ++ later 3 [CallRevoke; LinkProceed; LinkProceed]
  ++ later 20 [CallRevoked 1].

(** C5: Whatever the platform answers and however the tasks interleave, every
    call of [uart_tx_chars], with the bytes it was given, is of the end of
    something that was submitted, by the owner in force: by the USB, under the
    generation of the session of that moment, which is armed for the USB; or
    by the Web, under the session and the lease of that moment, which is the
    Web's, and both the request for the lease and the submission are later
    than the last transport whose revocation was acknowledged.  The calls for
    each source are in order: each goes on where the bytes that the driver
    took of the last one end, or begins a later submission.  (Until 2^64 Web
    transports were revoked.) *)
Theorem uart_bytes_are_authorized {D} `{SerialBuild} `{SerialPlatform D} (turns : nat) (d : D) sch
    (Hfew : fresh (owner_task turns (started d sch)).2) :
  let g := ghost (owner_task turns (started d sch)).2 in
  exists sources : list source,
    Forall2 (explains g) (calls g) sources
    /\ in_order (usb_writes (calls g) sources) /\ in_order (web_writes (calls g) sources).
Proof. apply rests_claims; [apply task_rests|exact Hfew]. Qed.

Lemma uart_bytes_are_authorized_witness :
  let g := ghost (owner_task 16 (started 1000 sample_schedule)).2 in
  map sent (calls g) = [[1; 2; 3]; [3]; [4; 5; 6]] /\ map taken (calls g) = [2; 1; 2]%nat /\ acknowledged g = 1%nat
  /\ exists sources, Forall2 (explains g) (calls g) sources /\ in_order (usb_writes (calls g) sources).
Proof.
  assert (fresh (owner_task 16 (started 1000 sample_schedule)).2) as Hfew by (vm_compute; discriminate).
  split; [reflexivity|]. split; [reflexivity|]. split; [reflexivity|].
  destruct (uart_bytes_are_authorized 16 1000 sample_schedule Hfew) as (sources & Hc & Hu & _).
  exists sources. split; [exact Hc|exact Hu].
Defined.
