(* ===== verification/SerialReceive.v ===== *)
(** * The receive path of the serial service

    [components/serial_service/deck_serial_service.cpp], [uart_rx_task] and
    [router_task]: sixteen blocks go around from the queue of free ones, with
    what the UART driver has read, through the queue of filled ones to the
    router and back.  The tasks interleave at their accesses of queues, router
    and stop request, with each other, with the owner task and with those who
    take from the router. *)

From stdpp Require Import sorting.
From S2P Require Import Prelude SerialRouter SerialRouterPool SerialRouterSpec.

Definition kInputBlockCount : nat := 16.
Definition kInputQueueDepth : nat := kInputBlockCount.
Definition kUartEventQueueDepth : nat := 20.

Inductive uart_event_type_t := UART_DATA (size : nat) | UART_FIFO_OVF | UART_BUFFER_FULL | UART_OTHER.

(** Where [uart_rx_task] stands: before it waits for the start, at the head of
    its loop, before [xQueueReceive]; in [receive_uart_data] with what remains,
    at the head of the loop, before it takes a block, before it reads into the
    block, before it hands the block on; in [return_input_block]; in
    [drain_unrouted_uart_bytes]; in [note_uart_error]; before it flushes. *)
Inductive rx_point :=
  | RxStart | RxLoop | RxWait
  | RxReceive (remaining : nat)
  | RxTake (remaining : nat)
  | RxRead (index remaining : nat)
  | RxSend (index remaining : nat)
  | RxReturn (index : nat) (next : rx_point)
  | RxDrain (remaining : nat)
  | RxNote (error : deck_serial_uart_error_t) (next : rx_point)
  | RxFlush
  | RxStopped.

Inductive router_point :=
  | RouterStart | RouterLoop | RouterWait
  | RouterSubmit (index : nat)
  | RouterNote (index : nat)
  | RouterReturn (index : nat)
  | RouterNoteLoop
  | RouterStopped.

(** A pointer to a block is its index.  Ghosts: the chunks that were read into
    blocks and those that the router accepted, each with its time; how often a
    block was neither queued nor accepted. *)
Record receive_path := {
  input_blocks : list deck_serial_input_block_t;
  free_blocks : list nat;
  filled_blocks : list nat;
  router : deck_serial_router;
  uart_events : list uart_event_type_t;
  start_bit : bool;
  stop_requested : bool;
  rx_task : rx_point;
  router_task : router_point;
  received : list (Z * bytes);
  submitted : list (Z * bytes);
  failures : nat;
}.
#[export] Instance receive_path_rebuild : Rebuild receive_path := fun p =>
  Build_receive_path (input_blocks p) (free_blocks p) (filled_blocks p) (router p) (uart_events p) (start_bit p)
    (stop_requested p) (rx_task p) (router_task p) (received p) (submitted p) (failures p).

Definition empty_block : deck_serial_input_block_t :=
  {| i_monotonic_ms := 0; i_length := 0; i_bytes := replicate DECK_SERIAL_ROUTER_BLOCK_BYTES 0 |}.

(** As [prepare_data_path] leaves it. *)
Definition new_receive_path (r : deck_serial_router) : receive_path := {|
  input_blocks := replicate kInputBlockCount empty_block; free_blocks := seq 0 kInputBlockCount; filled_blocks := [];
  router := r; uart_events := []; start_bit := false; stop_requested := false; rx_task := RxStart;
  router_task := RouterStart; received := []; submitted := []; failures := 0 |}.

Section Receive.
Implicit Types (p : receive_path).

Definition block_at p (index : nat) : deck_serial_input_block_t := default empty_block (input_blocks p !! index).

Definition set_block (index : nat) (b : deck_serial_input_block_t) p : receive_path :=
  p <| input_blocks := <[index := b]> (input_blocks p) |>.

Definition note_uart_error (error : deck_serial_uart_error_t) p : receive_path :=
  p <| router := deck_serial_router_note_uart_error (router p) error |>.

Definition has_room (queue : list nat) : bool := (List.length queue <? kInputQueueDepth)%nat.

Definition fail p : receive_path := p <| failures := S (failures p) |>.

(** [return_input_block] up to its note; whether the block was queued. *)
Definition return_input_block (index : nat) p : bool * receive_path :=
  let p := set_block index empty_block p in
  if has_room (free_blocks p) then (true, p <| free_blocks := free_blocks p ++ [index] |>) else (false, fail p).

(** [uart_read_bytes] reads at most what was requested: [data] as far as that. *)
Definition uart_read_bytes (requested : nat) (data : bytes) : bytes := take requested data.

Definition chunk (b : deck_serial_input_block_t) : Z * bytes := (i_monotonic_ms b, take (i_length b) (i_bytes b)).

Definition chunks p (queue : list nat) : list (Z * bytes) := (fun index => chunk (block_at p index)) <$> queue.

(** The next access of [uart_rx_task], with what the driver has and the time. *)
Definition rx_step (data : bytes) (now_ms : Z) p : receive_path :=
  match rx_task p with
  | RxStart => if stop_requested p || start_bit p then p <| rx_task := RxLoop |> else p
  | RxLoop => p <| rx_task := if stop_requested p then RxStopped else RxWait |>
  | RxWait =>
      match uart_events p with
      | [] => p <| rx_task := RxLoop |>
      | event :: rest =>
          p <| uart_events := rest |>
            <| rx_task := match event with
                          | UART_DATA size => RxReceive size
                          | UART_FIFO_OVF => RxNote DECK_SERIAL_UART_FIFO_OVERFLOW RxFlush
                          | UART_BUFFER_FULL => RxNote DECK_SERIAL_UART_DRIVER_BUFFER_FULL RxFlush
                          | UART_OTHER => RxLoop
                          end |>
      end
  | RxReceive remaining =>
      p <| rx_task := if negb (remaining =? 0)%nat && negb (stop_requested p) then RxTake remaining else RxLoop |>
  | RxTake remaining =>
      match free_blocks p with
      | [] => p <| rx_task := RxDrain remaining |>
      | index :: rest => p <| free_blocks := rest |> <| rx_task := RxRead index remaining |>
      end
  | RxRead index remaining =>
      let data := uart_read_bytes (Nat.min remaining DECK_SERIAL_ROUTER_BLOCK_BYTES) data in
      if (List.length data =? 0)%nat then p <| rx_task := RxReturn index RxLoop |>
      else
        let b := {| i_monotonic_ms := now_ms; i_length := List.length data;
                    i_bytes := data ++ drop (List.length data) (i_bytes (block_at p index)) |} in
        set_block index b p <| rx_task := RxSend index (remaining - List.length data)%nat |>
                            <| received := received p ++ [(now_ms, data)] |>
  | RxSend index remaining =>
      if has_room (filled_blocks p) then p <| filled_blocks := filled_blocks p ++ [index] |> <| rx_task := RxReceive remaining |>
      else fail p <| rx_task := RxNote DECK_SERIAL_UART_ROUTER_STARVED (RxReturn index (RxReceive remaining)) |>
  | RxReturn index next =>
      let '(queued, p) := return_input_block index p in
      p <| rx_task := if queued : bool then next else RxNote DECK_SERIAL_UART_ROUTER_STARVED next |>
  | RxDrain remaining =>
      let data := uart_read_bytes (Nat.min remaining DECK_SERIAL_ROUTER_BLOCK_BYTES) data in
      if (remaining =? 0)%nat || stop_requested p || (List.length data =? 0)%nat
      then p <| rx_task := RxNote DECK_SERIAL_UART_ROUTER_STARVED RxLoop |>
      else p <| rx_task := RxDrain (remaining - List.length data)%nat |>
  | RxNote error next => note_uart_error error p <| rx_task := next |>
  | RxFlush => p <| uart_events := [] |> <| rx_task := RxLoop |>
  | RxStopped => p
  end.

(** The next access of [router_task]. *)
Definition router_step p : receive_path :=
  match router_task p with
  | RouterStart => if stop_requested p || start_bit p then p <| router_task := RouterLoop |> else p
  | RouterLoop => p <| router_task := if stop_requested p then RouterStopped else RouterWait |>
  | RouterWait =>
      match filled_blocks p with
      | [] => p <| router_task := RouterLoop |>
      | index :: rest => p <| filled_blocks := rest |> <| router_task := RouterSubmit index |>
      end
  | RouterSubmit index =>
      let '(sequence, r) := deck_serial_router_submit (router p) (block_at p index) in
      match sequence with
      | Some _ => p <| router := r |> <| submitted := submitted p ++ [chunk (block_at p index)] |> <| router_task := RouterReturn index |>
      | None => fail p <| router := r |> <| router_task := RouterNote index |>
      end
  | RouterNote index => note_uart_error DECK_SERIAL_UART_ROUTER_STARVED p <| router_task := RouterReturn index |>
  | RouterReturn index =>
      let '(queued, p) := return_input_block index p in
      p <| router_task := if queued : bool then RouterLoop else RouterNoteLoop |>
  | RouterNoteLoop => note_uart_error DECK_SERIAL_UART_ROUTER_STARVED p <| router_task := RouterLoop |>
  | RouterStopped => p
  end.

(** Steps of the two tasks; an event of the driver, lost when its queue is
    full; the owner task; whoever uses the router. *)
Inductive receive_action :=
  | RxStep (data : bytes) (now_ms : Z)
  | RouterStep
  | UartEvent (event : uart_event_type_t)
  | SetStartBit
  | RequestStop
  | UseRouter (op : router_op).

Definition receive_step p (a : receive_action) : receive_path :=
  match a with
  | RxStep data now_ms => rx_step data now_ms p
  | RouterStep => router_step p
  | UartEvent event =>
      if (List.length (uart_events p) <? kUartEventQueueDepth)%nat then p <| uart_events := uart_events p ++ [event] |> else p
  | SetStartBit => p <| start_bit := true |>
  | RequestStop => p <| stop_requested := true |>
  | UseRouter op => p <| router := (run_router op (router p)).2 |>
  end.

(** The words of a 64-bit clock and sound arguments of the router. *)
Definition action_ok (a : receive_action) : Prop := match a with UseRouter op => router_op_ok op | _ => True end.

Definition run_receive (actions : list receive_action) p : receive_path := fold_left receive_step actions p.

(** ** The invariant *)

(** The block that a task holds. *)
Fixpoint rx_holds (point : rx_point) : list nat :=
  match point with
  | RxRead index _ | RxSend index _ => [index]
  | RxReturn index next => index :: rx_holds next
  | RxNote _ next => rx_holds next
  | _ => []
  end.

Definition router_holds (point : router_point) : list nat :=
  match point with RouterSubmit index | RouterNote index | RouterReturn index => [index] | _ => [] end.

Definition router_flight (point : router_point) : list nat := match point with RouterSubmit index => [index] | _ => [] end.

(** The filled blocks the router has not got yet, the oldest first. *)
Definition in_flight p : list nat :=
  router_flight (router_task p) ++ filled_blocks p
  ++ match rx_task p with RxSend index _ => [index] | _ => [] end.

Definition held p : list nat := rx_holds (rx_task p) ++ router_holds (router_task p).

(** Points of [uart_rx_task] that it may be at. *)
Definition rx_ok (point : rx_point) : Prop :=
  match point with
  | RxReturn _ next => next = RxLoop
  | RxNote _ next => next = RxFlush \/ next = RxLoop
  | _ => True
  end.

Definition whole (b : deck_serial_input_block_t) : Prop := List.length (i_bytes b) = DECK_SERIAL_ROUTER_BLOCK_BYTES.

Record receive_ok p : Prop := {
  ok_router : router_ok (router p);
  ok_pool : free_blocks p ++ filled_blocks p ++ held p ≡ₚ seq 0 kInputBlockCount;
  ok_length : List.length (input_blocks p) = kInputBlockCount;
  ok_whole : Forall whole (input_blocks p);
  ok_free : forall index, index ∈ free_blocks p -> block_at p index = empty_block;
  ok_chunks : received p = submitted p ++ chunks p (in_flight p);
  ok_filled : forall index, index ∈ in_flight p -> (0 < i_length (block_at p index) <= DECK_SERIAL_ROUTER_BLOCK_BYTES)%nat;
  ok_rx : rx_ok (rx_task p);
  ok_router_task : match router_task p with RouterNote _ | RouterNoteLoop => False | _ => True end;
  ok_failures : failures p = 0%nat;
}.

(** ** Every step keeps it *)

Lemma pool_nodup p : receive_ok p -> NoDup (free_blocks p ++ filled_blocks p ++ held p).
Proof. intros Hp. rewrite (ok_pool _ Hp). apply NoDup_seq. Qed.

Lemma pool_size p : receive_ok p -> (List.length (free_blocks p) + List.length (filled_blocks p) + List.length (held p) = kInputBlockCount)%nat.
Proof.
  intros Hp. pose proof (Permutation_length (ok_pool _ Hp)) as Hl. rewrite !length_app, length_seq in Hl. lia.
Qed.

Lemma held_room p index : receive_ok p -> index ∈ held p -> has_room (free_blocks p) = true /\ has_room (filled_blocks p) = true.
Proof.
  intros Hp Hi. pose proof (pool_size p Hp). assert (0 < List.length (held p))%nat by (destruct (held p); [by apply elem_of_nil in Hi|cbn; lia]).
  unfold has_room, kInputQueueDepth. split; apply Nat.ltb_lt; lia.
Qed.

Lemma held_bound p index : receive_ok p -> index ∈ held p -> (index < List.length (input_blocks p))%nat.
Proof.
  intros Hp Hi. rewrite (ok_length _ Hp). assert (index ∈ seq 0 kInputBlockCount) as Hs by (rewrite <- (ok_pool _ Hp), !elem_of_app; auto).
  apply elem_of_seq in Hs. lia.
Qed.

Lemma held_apart p index : receive_ok p -> index ∈ held p -> (index ∉ free_blocks p) /\ (index ∉ filled_blocks p).
Proof. intros Hp Hi. pose proof (pool_nodup p Hp) as Hn. apply NoDup_app in Hn as (_ & Hfree & Hn). apply NoDup_app in Hn as (_ & Hfilled & _).
  split; intros Hj; [apply (Hfree _ Hj); apply elem_of_app; auto|by apply (Hfilled _ Hj)].
Qed.

Lemma set_block_same index b p : (index < List.length (input_blocks p))%nat -> block_at (set_block index b p) index = b.
Proof. intros Hi. unfold block_at, set_block. cbn. by rewrite list_lookup_insert_eq. Qed.

Lemma set_block_other index b p j : index <> j -> block_at (set_block index b p) j = block_at p j.
Proof. intros Hj. unfold block_at, set_block. cbn. by rewrite list_lookup_insert_ne. Qed.

Lemma whole_at p index : receive_ok p -> whole (block_at p index).
Proof.
  intros Hp. unfold block_at. destruct (input_blocks p !! index) as [b|] eqn:E; [|done].
  pose proof (ok_whole _ Hp) as Hw. rewrite Forall_lookup in Hw. by apply (Hw index).
Qed.

(** The chunks of blocks among which is not the one that changes. *)
Lemma chunks_other index b p queue : index ∉ queue -> chunks (set_block index b p) queue = chunks p queue.
Proof.
  intros Hi. apply list_fmap_ext. intros k j Hj. rewrite set_block_other; [done|]. intros ->. apply Hi. by eapply list_elem_of_lookup_2.
Qed.

Lemma set_whole index b p : Forall whole (input_blocks p) -> whole b -> Forall whole (input_blocks (set_block index b p)).
Proof. intros Hf Hb. cbn. by apply Forall_insert. Qed.

Lemma noted p error : router_ok (router p) -> router_ok (router (note_uart_error error p)).
Proof. intros Hr. by apply note_error_ok. Qed.

Lemma return_step p index :
  receive_ok p -> index ∈ held p ->
  return_input_block index p = (true, (set_block index empty_block p) <| free_blocks := free_blocks p ++ [index] |>).
Proof. intros Hp Hi. unfold return_input_block. destruct (held_room p index Hp Hi) as [Hf _]. cbn in *. by rewrite Hf. Qed.

(** A point that holds nothing and gives up nothing. *)
Lemma rx_goes p point :
  receive_ok p -> rx_holds (rx_task p) = [] -> rx_holds point = [] -> rx_ok point ->
  (forall i n, point <> RxSend i n) -> receive_ok (p <| rx_task := point |>).
Proof.
  intros [Hr Hpool Hl Hw Hf Hc Hn Hx Ht H0] Hold Hnew Hok Hs.
  assert (in_flight (p <| rx_task := point |>) = in_flight p) as Hfl.
  { unfold in_flight. cbn. do 2 f_equal. destruct point as [| | | | | |index n| | | | |]; try (by destruct (Hs index n)); by destruct (rx_task p). }
  constructor; try done; rewrite ?Hfl; try done. unfold held in *. rewrite Hold in Hpool. cbn. by rewrite Hnew.
Qed.

Lemma router_flight_held point index : index ∈ router_flight point -> index ∈ router_holds point.
Proof. destruct point; cbn; auto; by intros ?%elem_of_nil. Qed.

(** A block that the UART task reads into, or returns, is not in flight. *)
Lemma rx_not_in_flight p index :
  receive_ok p -> index ∈ rx_holds (rx_task p) -> (forall i n, rx_task p <> RxSend i n) -> index ∉ in_flight p.
Proof.
  intros Hp Hi Hs. pose proof (pool_nodup p Hp) as Hnd.
  assert (in_flight p = router_flight (router_task p) ++ filled_blocks p) as ->.
  { unfold in_flight. destruct (rx_task p) as [| | | | | |i n| | | | |]; try (by rewrite app_nil_r). by destruct (Hs i n). }
  apply NoDup_app in Hnd as (_ & _ & Hnd). apply NoDup_app in Hnd as (_ & Hfilled & Hnd). apply NoDup_app in Hnd as (_ & Hheld & _).
  intros [Hj|Hj]%elem_of_app.
  - apply (Hheld index); [done|by apply router_flight_held].
  - apply (Hfilled index); [done|]. apply elem_of_app. by left.
Qed.

Lemma rx_read_ok p index remaining (data : bytes) now :
  receive_ok p -> rx_task p = RxRead index remaining -> (0 < List.length data <= DECK_SERIAL_ROUTER_BLOCK_BYTES)%nat ->
  let b := {| i_monotonic_ms := now; i_length := List.length data; i_bytes := data ++ drop (List.length data) (i_bytes (block_at p index)) |} in
  receive_ok (set_block index b p <| rx_task := RxSend index (remaining - List.length data)%nat |> <| received := received p ++ [(now, data)] |>).
Proof.
  intros Hp E Hlen b.
  assert (index ∈ held p) as Hheld by (unfold held; rewrite E; by left).
  assert (index ∉ in_flight p) as Hni by (apply rx_not_in_flight; rewrite ?E; [done|by left|done]).
  destruct (held_apart p index Hp Hheld) as [Hnf Hnq]. pose proof (held_bound p index Hp Hheld) as Hb.
  assert (whole b) as Hwb by (pose proof (whole_at p index Hp) as Hwh; unfold whole, b in *; cbn; rewrite length_app, length_drop; lia).
  pose proof (set_block_same index b p Hb) as Hsame.
  destruct Hp as [Hr Hpool Hl Hw Hf Hc Hn Hx Ht H0]. unfold held in *. rewrite E in *.
  set (p' := set_block index b p <| rx_task := RxSend index (remaining - List.length data)%nat |> <| received := received p ++ [(now, data)] |>).
  assert (in_flight p' = in_flight p ++ [index]) as Hfl by (unfold in_flight; cbn; by rewrite E, app_nil_r, app_assoc).
  assert (forall j, block_at p' j = block_at (set_block index b p) j) as Hat by done.
  constructor; rewrite ?Hfl; try done.
  - cbn. by rewrite length_insert.
  - by apply set_whole.
  - intros j Hj. rewrite Hat, set_block_other; [by apply Hf|]. by intros ->.
  - change (received p ++ [(now, data)] = submitted p ++ chunks (set_block index b p) (in_flight p ++ [index])).
    unfold chunks. rewrite fmap_app. fold (chunks (set_block index b p) (in_flight p)). rewrite chunks_other, Hc by done.
    cbn [fmap list_fmap]. rewrite Hsame, <- app_assoc. unfold chunk, b. cbn. by rewrite take_app_length.
  - intros j [Hj|Hj]%elem_of_app; rewrite Hat.
    + rewrite set_block_other; [by apply Hn|]. by intros ->.
    + apply list_elem_of_singleton in Hj as ->. by rewrite Hsame.
Qed.

(** A block that is in no queue and not in flight is wiped and queued. *)
Lemma returned_ok p p' index :
  receive_ok p -> index ∈ held p -> index ∉ in_flight p ->
  input_blocks p' = input_blocks (set_block index empty_block p) -> free_blocks p' = free_blocks p ++ [index] ->
  filled_blocks p' = filled_blocks p -> router p' = router p -> received p' = received p -> submitted p' = submitted p ->
  failures p' = failures p -> held p ≡ₚ index :: held p' -> in_flight p' = in_flight p -> rx_ok (rx_task p') ->
  match router_task p' with RouterNote _ | RouterNoteLoop => False | _ => True end ->
  receive_ok p'.
Proof.
  intros Hp Hheld Hni Eb Ef Eq Er Erc Es Efl Eh Ein Hrx' Hrt'. pose proof (held_bound p index Hp Hheld) as Hb.
  destruct (held_apart p index Hp Hheld) as [Hnf _].
  assert (forall j, block_at p' j = block_at (set_block index empty_block p) j) as Hat by (intros j; unfold block_at; by rewrite Eb).
  assert (forall queue, chunks p' queue = chunks (set_block index empty_block p) queue) as Hch by (intros queue; apply list_fmap_ext; intros; by rewrite Hat).
  destruct Hp as [Hr Hpool Hl Hw Hf Hc Hn Hx Ht H0].
  constructor; rewrite ?Er, ?Ef, ?Eq, ?Erc, ?Es, ?Efl, ?Ein, ?Eb; try done.
  - rewrite <- Hpool, Eh. solve_Permutation.
  - cbn. by rewrite length_insert.
  - by apply set_whole.
  - intros j [Hj|Hj]%elem_of_app; rewrite Hat.
    + rewrite set_block_other; [by apply Hf|]. by intros ->.
    + apply list_elem_of_singleton in Hj as ->. by apply set_block_same.
  - by rewrite Hch, chunks_other.
  - intros j Hj. rewrite Hat, set_block_other; [by apply Hn|]. by intros ->.
Qed.

Lemma rx_step_ok data now p : receive_ok p -> receive_ok (rx_step data now p).
Proof.
  intros Hp. unfold rx_step. destruct (rx_task p) as [| | |remaining|remaining|index remaining|index remaining|index next|remaining|error next| |] eqn:E.
  - destruct (_ || _); [|done]. by apply rx_goes; rewrite ?E.
  - apply rx_goes; rewrite ?E; try done; by destruct (stop_requested p).
  - destruct (uart_events p) as [|event rest]; [by apply rx_goes; rewrite ?E|].
    apply (rx_goes (p <| uart_events := rest |>)); [by destruct Hp| | | |]; cbn; rewrite ?E; destruct event; try done; by left.
  - apply rx_goes; rewrite ?E; try done; by destruct (_ && _).
  - destruct (free_blocks p) as [|index rest] eqn:Ef; [by apply rx_goes; rewrite ?E|].
    destruct Hp as [Hr Hpool Hl Hw Hf Hc Hn Hx Ht H0]. unfold held, in_flight in *. rewrite E, Ef in *. constructor; try done; cbn in *.
    + rewrite <- Hpool. cbn. solve_Permutation.
    + intros j Hj. apply Hf. by right.
  - case_match eqn:El; bool_prop.
    + destruct Hp as [Hr Hpool Hl Hw Hf Hc Hn Hx Ht H0]. unfold held, in_flight in *. rewrite E in *. by constructor.
    + apply rx_read_ok; [done|done|]. unfold uart_read_bytes in *. rewrite length_take in *. lia.
  - assert (index ∈ held p) as Hheld by (unfold held; rewrite E; by left).
    destruct (held_room p index Hp Hheld) as [_ Hroom]. rewrite Hroom.
    destruct Hp as [Hr Hpool Hl Hw Hf Hc Hn Hx Ht H0]. unfold held in *. rewrite E in *.
    assert (in_flight (p <| filled_blocks := filled_blocks p ++ [index] |> <| rx_task := RxReceive remaining |>) = in_flight p) as Hfl
      by (unfold in_flight; cbn; by rewrite E, app_nil_r).
    constructor; rewrite ?Hfl; try done. cbn. rewrite <- Hpool. solve_Permutation.
  - assert (index ∈ held p) as Hheld by (unfold held; rewrite E; by left). rewrite (return_step p index Hp Hheld).
    pose proof (ok_rx p Hp) as Hnext. rewrite E in Hnext. cbn in Hnext. subst next.
    eapply (returned_ok p _ index); try done; [apply rx_not_in_flight; rewrite ?E; [done|by left|done]|unfold held; by rewrite E|unfold in_flight; by rewrite E|apply Hp].
  - destruct (_ || _); apply rx_goes; rewrite ?E; try done. by right.
  - pose proof (ok_rx p Hp) as Hnext. rewrite E in Hnext. cbn in Hnext.
    apply (rx_goes (note_uart_error error p)); cbn; rewrite ?E; try (by destruct Hnext as [-> | ->]).
    destruct Hp as [Hr Hpool Hl Hw Hf Hc Hn Hx Ht H0]. constructor; try done. by apply noted.
  - apply (rx_goes (p <| uart_events := [] |>)); cbn; rewrite ?E; try done. by destruct Hp.
  - done.
Qed.

(** A point of [router_task] that is as good. *)
Lemma router_goes p point :
  receive_ok p -> router_holds point = router_holds (router_task p) -> router_flight point = router_flight (router_task p) ->
  match point with RouterNote _ | RouterNoteLoop => False | _ => True end -> receive_ok (p <| router_task := point |>).
Proof.
  intros [Hr Hpool Hl Hw Hf Hc Hn Hx Ht H0] Hh Hg Hok.
  assert (in_flight (p <| router_task := point |>) = in_flight p) as Hfl by (unfold in_flight; cbn; by rewrite Hg).
  constructor; try done; rewrite ?Hfl; try done. unfold held in *. cbn. by rewrite Hh.
Qed.

(** A valid chunk is accepted. *)
Lemma submit_accepts r b :
  router_ok r -> whole b -> (0 < i_length b <= DECK_SERIAL_ROUTER_BLOCK_BYTES)%nat ->
  exists sequence r', deck_serial_router_submit r b = (Some sequence, r') /\ router_ok r'.
Proof.
  intros Hr Hb Hlen. destruct (submit_ok r b Hr Hb) as (r' & -> & Hr' & _). unfold spec_submit.
  rewrite (proj2 (Nat.eqb_neq _ _)), (proj2 (Nat.ltb_ge _ _)) by lia. eauto.
Qed.

Lemma router_step_ok p : receive_ok p -> receive_ok (router_step p).
Proof.
  intros Hp. unfold router_step. destruct (router_task p) as [| | |index|index|index| |] eqn:E.
  - destruct (_ || _); [|done]. by apply router_goes; rewrite ?E.
  - apply router_goes; rewrite ?E; try done; by destruct (stop_requested p).
  - destruct (filled_blocks p) as [|index rest] eqn:Ef; [by apply router_goes; rewrite ?E|].
    destruct Hp as [Hr Hpool Hl Hw Hf Hc Hn Hx Ht H0]. unfold held, in_flight in *. rewrite E, Ef in *. constructor; try done; cbn in *.
    rewrite <- Hpool. cbn. solve_Permutation.
  - assert (index ∈ in_flight p) as Hin by (unfold in_flight; rewrite E; by left).
    destruct (submit_accepts (router p) (block_at p index)) as (sequence & r & -> & Hr'); [apply Hp|by apply whole_at|by apply Hp|].
    destruct Hp as [Hr Hpool Hl Hw Hf Hc Hn Hx Ht H0]. unfold held, in_flight in *. rewrite E in *. constructor; try done.
    + cbn. rewrite Hc. cbn. by rewrite <- app_assoc.
    + intros j Hj. apply Hn. by right.
  - by pose proof (ok_router_task p Hp) as Ht; rewrite E in Ht.
  - assert (index ∈ held p) as Hheld by (unfold held; rewrite E; apply elem_of_app; right; by left). rewrite (return_step p index Hp Hheld).
    eapply (returned_ok p _ index); try done; [|unfold held; rewrite E; cbn; solve_Permutation|unfold in_flight; by rewrite E|apply Hp].
    intros Hin. pose proof (pool_nodup p Hp) as Hnd. apply NoDup_app in Hnd as (_ & _ & Hnd). apply NoDup_app in Hnd as (_ & Hfilled & Hnd).
    unfold in_flight, held in *. rewrite E in *. cbn in *. apply elem_of_app in Hin as [Hin|Hin]; [by eapply Hfilled|].
    apply NoDup_app in Hnd as (_ & Hrx & _). destruct (rx_task p); try (by apply elem_of_nil in Hin). by apply (Hrx index); [|left].
  - by pose proof (ok_router_task p Hp) as Ht; rewrite E in Ht.
  - done.
Qed.

Lemma receive_step_ok p a : action_ok a -> receive_ok p -> receive_ok (receive_step p a).
Proof.
  intros Ha Hp. destruct a as [data now| |event| | |op]; cbn [receive_step]; [by apply rx_step_ok|by apply router_step_ok| | | |].
  all: try case_match; try done; destruct Hp as [Hr Hpool Hl Hw Hf Hc Hn Hx Ht H0]; constructor; try done.
  cbn. by destruct (run_router_ok op (router p) Hr Ha) as (r' & -> & Hr' & _).
Qed.

Lemma run_receive_ok actions p : Forall action_ok actions -> receive_ok p -> receive_ok (run_receive actions p).
Proof.
  intros Ha. revert p. induction Ha as [|a actions Ha _ IH]; intros p Hp; [done|]. by apply IH, receive_step_ok.
Qed.

Lemma new_path_ok r : router_ok r -> receive_ok (new_receive_path r).
Proof.
  intros Hr. constructor; try done.
  - by repeat constructor.
  - intros index Hi. unfold block_at. destruct (_ !! index) as [b|] eqn:Eb; [|done].
    apply list_elem_of_lookup_2 in Eb. by apply elem_of_replicate in Eb as [-> _].
  - intros index Hi. by apply elem_of_nil in Hi.
Qed.
End Receive.

(** ** Properties *)

(** C25: In every interleaving of the two tasks with the driver, the owner task
    and the users of the router: the router has accepted the chunks that
    were read into blocks, in their order and with the time of their reading, up
    to those still on their way; every block is in one queue or held by one
    task, so that no block is ever lost and none fails to be queued or
    accepted; and the blocks in the queue of free ones hold no byte that was
    received. *)
Theorem received_bytes_are_routed_in_order session pool_bytes initial_sequence r ops actions
    (Hpool : 0 <= pool_bytes)
    (Hcreate : deck_serial_router_create session pool_bytes initial_sequence true = Some r)
    (Hops : Forall router_op_ok ops) (Hactions : Forall action_ok actions) :
  let p := run_receive actions (new_receive_path (run_router_all ops r).2) in
  received p = submitted p ++ chunks p (in_flight p)
  /\ free_blocks p ++ filled_blocks p ++ held p ≡ₚ seq 0 kInputBlockCount
  /\ failures p = 0%nat
  /\ Forall (fun index => block_at p index = empty_block) (free_blocks p).
Proof.
  destruct (create_ok _ _ _ _ Hpool Hcreate) as [Hr _]. destruct (run_router_all_ok ops r Hr Hops) as (r' & -> & Hr' & _).
  destruct (run_receive_ok actions _ Hactions (new_path_ok r' Hr')) as [_ Hp _ _ Hf Hc _ _ _ H0].
  split_and!; [done|done|done|by apply Forall_forall].
Qed.

(** Two chunks are read, the first is routed, the second is on its way. *)
Definition sample_actions : list receive_action :=
  [SetStartBit; UartEvent (UART_DATA 5)] ++ repeat (RxStep [1; 2; 3] 7) 7 ++ repeat RouterStep 4 ++ [RxStep [] 8; RxStep [] 8; RxStep [4; 5] 9].

Lemma received_bytes_are_routed_in_order_witness :
  exists r, deck_serial_router_create 1 512 0 true = Some r
    /\ let p := run_receive sample_actions (new_receive_path r) in
       submitted p = [(7, [1; 2; 3])] /\ received p = [(7, [1; 2; 3]); (9, [4; 5])] /\ in_flight p = [1%nat] /\ failures p = 0%nat.
Proof.
  destruct (deck_serial_router_create 1 512 0 true) as [r|] eqn:E; [|discriminate]. exists r. split; [reflexivity|].
  pose proof (received_bytes_are_routed_in_order 1 512 0 r [] sample_actions ltac:(lia) E ltac:(constructor) ltac:(repeat constructor)) as (_ & _ & H0 & _).
  cbn zeta. clear - E H0. split_and!; [vm_compute in E; injection E as <-; reflexivity..|exact H0].
Defined.
