(* ===== verification/CString.v ===== *)
(** * NUL-terminated strings

    A [char] array or a [const char *] is the list of its bytes; a string is
    what comes before the first NUL.  Reading at or after the end of the list
    is reading the terminator. *)

From Stdlib Require Import String Ascii.
From S2P Require Import Prelude.

Fixpoint c_string (value : bytes) : bytes :=
  match value with
  | [] => []
  | b :: rest => if b =? 0 then [] else b :: c_string rest
  end.

(** The bytes of a string literal. *)
Definition literal (s : string) : bytes :=
  map (fun c => Z.of_nat (nat_of_ascii c)) (list_ascii_of_string s).

Definition strlen (value : bytes) : nat := List.length (c_string value).

(** [std::strcmp(a, b) == 0] *)
Definition strcmp_eq (a b : bytes) : bool := bool_decide (c_string a = c_string b).

(** [std::memchr(value, '\0', capacity) != nullptr] *)
Definition terminated (value : bytes) (capacity : nat) : bool :=
  existsb (fun b => b =? 0) (take capacity value).

(** [std::strchr] and [std::strrchr] of a character that is not NUL, as the
    offset of the result. *)
Definition strchr (value : bytes) (ch : Z) : option nat :=
  fst <$> list_find (fun b => b = ch) (c_string value).

Fixpoint last_index (value : bytes) (ch : Z) : option nat :=
  match value with
  | [] => None
  | b :: rest =>
      match last_index rest ch with
      | Some i => Some (S i)
      | None => if b =? ch then Some 0%nat else None
      end
  end.

Definition strrchr (value : bytes) (ch : Z) : option nat := last_index (c_string value) ch.

(** ASCII codes the parsers compare with. *)
Definition ch_0 : Z := 48.
Definition ch_9 : Z := 57.
Definition ch_A : Z := 65.
Definition ch_Z : Z := 90.
Definition ch_a : Z := 97.
Definition ch_z : Z := 122.
Definition ch_dot : Z := 46.
Definition ch_minus : Z := 45.
Definition ch_plus : Z := 43.

Definition is_digit (b : Z) : bool := (ch_0 <=? b) && (b <=? ch_9).
Definition is_lower (b : Z) : bool := (ch_a <=? b) && (b <=? ch_z).
Definition is_upper (b : Z) : bool := (ch_A <=? b) && (b <=? ch_Z).

Lemma c_string_nonzero value : Forall (fun b => b <> 0) (c_string value).
Proof.
  induction value as [|b rest IH]; simpl; [constructor|]. case_match; bool_prop; [constructor|].
  by constructor.
Qed.

Lemma c_string_id value : Forall (fun b => b <> 0) value -> c_string value = value.
Proof.
  induction 1 as [|b rest Hb _ IH]; simpl; [done|]. by rewrite (proj2 (Z.eqb_neq _ _) Hb), IH.
Qed.

Lemma c_string_idem value : c_string (c_string value) = c_string value.
Proof. apply c_string_id, c_string_nonzero. Qed.

Lemma c_string_app_nul value rest :
  Forall (fun b => b <> 0) value -> c_string (value ++ 0 :: rest) = value.
Proof.
  induction 1 as [|b l Hb _ IH]; simpl; [done|]. by rewrite (proj2 (Z.eqb_neq _ _) Hb), IH.
Qed.

Lemma c_string_take n v : c_string (take n v) = take n (c_string v).
Proof.
  revert n. induction v as [|b v IH]; intros [|n]; simpl; try done.
  case_match; [done|]. simpl. by rewrite IH.
Qed.

Lemma c_string_prefix v : c_string v = take (strlen v) v.
Proof.
  unfold strlen. induction v as [|b v IH]; simpl; [done|]. case_match; [done|]. simpl. by rewrite <- IH.
Qed.

Lemma strlen_le v : (strlen v <= List.length v)%nat.
Proof.
  unfold strlen. induction v as [|b v IH]; simpl; [done|]. case_match; simpl; lia.
Qed.

(** [strnlen(value, capacity)] *)
Definition strnlen (value : bytes) (capacity : nat) : nat := strlen (take capacity value).

Lemma strnlen_spec v capacity : strnlen v capacity = Nat.min capacity (strlen v).
Proof. unfold strnlen, strlen. by rewrite c_string_take, length_take. Qed.

(** A string in an array that is zero behind it. *)
Definition pad (capacity : nat) (text : bytes) : bytes :=
  text ++ replicate (capacity - List.length text) 0.

Lemma c_string_replicate n : c_string (replicate n 0) = [].
Proof. by destruct n. Qed.

Lemma c_string_pad capacity text : Forall (fun b => b <> 0) text -> c_string (pad capacity text) = text.
Proof.
  intros Ht. unfold pad. destruct (capacity - List.length text)%nat as [|n].
  - rewrite app_nil_r. by apply c_string_id.
  - by apply c_string_app_nul.
Qed.

Lemma length_pad capacity text :
  (List.length text <= capacity)%nat -> List.length (pad capacity text) = capacity.
Proof. intros. unfold pad. rewrite length_app, length_replicate. lia. Qed.

Lemma write_at_zeros capacity text :
  write_at (replicate capacity 0) 0 text = pad capacity text.
Proof. unfold write_at, pad. by rewrite drop_replicate. Qed.

(** The array and its string agree up to the terminator. *)
Lemma c_string_at v i : (i <= strlen v)%nat -> v.[i] = (c_string v).[i].
Proof.
  unfold strlen, byte_at. revert i. induction v as [|b v IH]; intros i; simpl; [done|].
  destruct (Z.eqb_spec b 0) as [->|Hb]; simpl; [intros Hi; by replace i with 0%nat by lia|].
  destruct i as [|i]; [done|]. simpl. intros Hi. apply IH. lia.
Qed.

Lemma slice_c_string v off n : (off + n <= strlen v)%nat -> slice off n v = slice off n (c_string v).
Proof.
  intros Hn. rewrite c_string_prefix. unfold slice. rewrite !take_drop_commute, take_take.
  by rewrite Nat.min_l.
Qed.

Lemma c_string_drop v n : (n <= strlen v)%nat -> c_string (drop n v) = drop n (c_string v).
Proof.
  unfold strlen. revert n. induction v as [|b v IH]; intros [|n]; simpl; try done.
  case_match; simpl; [lia|]. intros Hn. apply IH. lia.
Qed.

Lemma strchr_Some v ch i :
  strchr v ch = Some i <-> exists l1 l2, c_string v = l1 ++ ch :: l2 /\ List.length l1 = i /\ ch ∉ l1.
Proof.
  unfold strchr. split.
  - destruct (list_find _ _) as [[j b]|] eqn:E; simpl; [|done]. intros [= ->].
    apply list_find_Some in E as (Hl & -> & Hn). exists (take i (c_string v)), (drop (S i) (c_string v)).
    split_and!; [by rewrite take_drop_middle|rewrite length_take; apply lookup_lt_Some in Hl; lia|].
    intros (j & Hj)%list_elem_of_lookup. pose proof (lookup_lt_Some _ _ _ Hj) as Hlt.
    rewrite length_take in Hlt. rewrite lookup_take_lt in Hj by lia.
    by apply (Hn j ch Hj); [lia|].
  - intros (l1 & l2 & -> & <- & Hn).
    rewrite (proj2 (list_find_Some _ (l1 ++ ch :: l2) (List.length l1) ch)); [done|].
    split_and!; [by apply list_lookup_middle|done|].
    intros j y Hj Hlt ->. rewrite lookup_app_l in Hj by done.
    apply Hn. by eapply list_elem_of_lookup_2.
Qed.

Lemma last_index_None v ch : last_index v ch = None <-> ch ∉ v.
Proof.
  induction v as [|b v IH]; simpl; [by split; [intros _; apply not_elem_of_nil|]|].
  rewrite not_elem_of_cons. destruct (last_index v ch) as [i|].
  - split; [done|]. by intros [_ ?%IH].
  - destruct (Z.eqb_spec b ch); naive_solver.
Qed.

Lemma strrchr_Some v ch i :
  strrchr v ch = Some i <-> exists l1 l2, c_string v = l1 ++ ch :: l2 /\ List.length l1 = i /\ ch ∉ l2.
Proof.
  unfold strrchr. revert i. generalize (c_string v) as l. clear v.
  induction l as [|b l IH]; intros i; simpl.
  { split; [done|]. by intros ([|] & l2 & ? & _). }
  destruct (last_index l ch) as [j|] eqn:E.
  - split.
    + intros [= <-]. destruct (proj1 (IH j) eq_refl) as (l1 & l2 & -> & <- & Hn).
      by exists (b :: l1), l2.
    + intros ([|c l1] & l2 & Hl & <- & Hn); simplify_eq/=.
      * apply last_index_None in Hn. congruence.
      * f_equal. f_equal. assert (Some j = Some (List.length l1)) as [= <-]; [|done].
        apply IH. by exists l1, l2.
  - apply last_index_None in E. destruct (Z.eqb_spec b ch) as [->|Hb].
    + split; [intros [= <-]; by exists [], l|].
      intros ([|c l1] & l2 & Hl & <- & Hn); simplify_eq/=; [done|]. exfalso. apply E. set_solver.
    + split; [done|]. intros ([|c l1] & l2 & Hl & <- & Hn); simplify_eq/=. exfalso. apply E. set_solver.
Qed.

#[export] Hint Resolve c_string_nonzero : deck.

Lemma terminated_pad capacity text : (List.length text < capacity)%nat -> terminated (pad capacity text) capacity = true.
Proof.
  intros Hl. unfold terminated, pad. rewrite take_ge by (rewrite length_app, length_replicate; lia).
  rewrite existsb_app. apply orb_true_iff. right. destruct (capacity - List.length text)%nat eqn:E; [lia|done].
Qed.
