(* ===== verification/Print.v ===== *)
(** * Printed text

    What [vsnprintf] makes of the conversions the firmware uses, and of a
    buffer that is too small. *)

From Stdlib Require Import String.
From S2P Require Import Prelude CString.

(** A literal in which ' stands for the quotation mark. *)
Definition quoting (s : string) : bytes := map (fun b => if b =? 39 then 34 else b) (literal s).

(** [%u] and [%llu]: at most 20 digits. *)
Fixpoint digits (fuel : nat) (n : Z) : bytes :=
  match fuel with
  | O => []
  | S fuel => if n <? 10 then [ch_0 + n] else digits fuel (n / 10) ++ [ch_0 + n mod 10]
  end.

Definition print_u (n : Z) : bytes := digits 20 n.

(** [%02u]: zeros in front, up to the width. *)
Definition print_0u (width : nat) (n : Z) : bytes :=
  replicate (width - List.length (print_u n)) ch_0 ++ print_u n.

(** [%-8s]: blanks behind, up to the width. *)
Definition print_padded (width : nat) (text : bytes) : bytes :=
  text ++ replicate (width - List.length text) 32.

(** [snprintf] into an array of [capacity] bytes that is never read past its
    terminator: the characters that fit. *)
Definition snprintf (capacity : nat) (text : bytes) : bytes := take (capacity - 1) text.

Lemma length_digits fuel n : (List.length (digits fuel n) <= fuel)%nat.
Proof.
  revert n. induction fuel as [|fuel IH]; intros n; simpl; [lia|].
  case_match; [simpl; lia|]. rewrite length_app. specialize (IH (n / 10)). simpl. lia.
Qed.

(** [print_u] is the decimal notation: reading it gives the number back. *)
Lemma digits_value fuel n :
  0 <= n < 10 ^ Z.of_nat fuel -> fold_left (fun acc b => acc * 10 + (b - ch_0)) (digits fuel n) 0 = n.
Proof.
  revert n. induction fuel as [|fuel IH]; intros n Hn.
  { simpl in Hn. change (10 ^ 0) with 1 in Hn. simpl. lia. }
  simpl. case_match; bool_prop; [unfold ch_0; simpl; lia|].
  rewrite fold_left_app, IH; [unfold ch_0; simpl; Z.div_mod_to_equations; lia|].
  rewrite Nat2Z.inj_succ, Z.pow_succ_r in Hn by lia.
  split; [apply Z.div_pos; lia|]. apply Z.div_lt_upper_bound; lia.
Qed.

(** Digits only. *)
Lemma digits_are_digits fuel n : 0 <= n -> Forall (fun b => is_digit b = true) (digits fuel n).
Proof.
  revert n. induction fuel as [|fuel IH]; intros n Hn; simpl; [constructor|]. unfold is_digit, ch_0, ch_9 in *.
  case_match; bool_prop; [repeat constructor; lia|]. apply Forall_app. split; [apply IH; Z.div_mod_to_equations; lia|].
  repeat constructor. Z.div_mod_to_equations; lia.
Qed.

(** A number of few digits. *)
Lemma length_digits_le k fuel n : 0 <= n < 10 ^ Z.of_nat k -> (0 < k)%nat -> (List.length (digits fuel n) <= k)%nat.
Proof.
  revert k n. induction fuel as [|fuel IH]; intros k n Hn Hk; simpl; [lia|].
  case_match; bool_prop; [simpl; lia|]. rewrite length_app. simpl.
  destruct k as [|[|k]]; [lia|change (10 ^ Z.of_nat 1) with 10 in Hn; lia|].
  assert (List.length (digits fuel (n / 10)) <= S k)%nat; [|lia]. apply IH; [|lia].
  rewrite (Nat2Z.inj_succ (S k)), Z.pow_succ_r in Hn by lia. Z.div_mod_to_equations; lia.
Qed.

(** [%d] and [%ld] *)
Definition print_d (n : Z) : bytes := if n <? 0 then [ch_minus] ++ print_u (- n) else print_u n.
