(* ===== verification/OtaTransaction.v ===== *)
(** * The OTA transaction

    [components/ota_service/deck_ota_transaction.cpp]: one firmware update
    from its offered manifest to the selected boot partition.  Flash and
    crypto adapters are an external world. *)

From S2P Require Import Prelude CString.

(** ** Manifest, options and state *)

Definition DECK_OTA_BOARD_CAPACITY : nat := 49.
Definition DECK_OTA_VERSION_CAPACITY : nat := 33.
Definition DECK_OTA_DIGEST_BYTES : nat := 32.
Definition DECK_OTA_MAX_CHUNK_BYTES : nat := 3072.

Record deck_ota_manifest_t := {
  version : bytes;
  board : bytes;
  image_length : Z;
  image_sha256 : bytes;
  signature : bytes;
  signing_key_id : Z;
  minimum_protocol_version : Z;
}.

Definition empty_manifest : deck_ota_manifest_t := {|
  version := []; board := []; image_length := 0; image_sha256 := []; signature := [];
  signing_key_id := 0; minimum_protocol_version := 0 |}.

Inductive deck_ota_state_t :=
  | DECK_OTA_IDLE
  | DECK_OTA_RECEIVING
  | DECK_OTA_READY_TO_REBOOT
  | DECK_OTA_FAILED.

Inductive deck_ota_result_t :=
  | DECK_OTA_OK
  | DECK_OTA_INVALID_MANIFEST
  | DECK_OTA_WRONG_BOARD
  | DECK_OTA_INCOMPATIBLE_PROTOCOL
  | DECK_OTA_DOWNGRADE_REJECTED
  | DECK_OTA_IMAGE_TOO_LARGE
  | DECK_OTA_SIGNATURE_REJECTED
  | DECK_OTA_BUSY
  | DECK_OTA_STALE_OFFSET
  | DECK_OTA_FLASH_FAILURE
  | DECK_OTA_HASH_MISMATCH
  | DECK_OTA_IMAGE_INVALID
  | DECK_OTA_TIMED_OUT.

#[export] Instance ota_state_eq_dec : EqDecision deck_ota_state_t.
Proof. solve_decision. Defined.
#[export] Instance ota_result_eq_dec : EqDecision deck_ota_result_t.
Proof. solve_decision. Defined.

(** [deck_ota_flash_adapter_t] and [deck_ota_crypto_adapter_t].
    [hash_finish] returns the digest when it succeeds. *)
Class OtaAdapters (W : Type) := {
  flash_begin : Z -> M W bool;
  flash_write : bytes -> M W bool;
  flash_finish : M W bool;
  flash_abort : M W unit;
  flash_select_boot : M W bool;
  hash_begin : M W bool;
  hash_update : bytes -> M W bool;
  hash_finish : M W (option bytes);
  hash_abort : M W unit;
  verify_manifest : deck_ota_manifest_t -> M W bool;
}.

Record deck_ota_transaction_options_t := {
  running_version : bytes;
  o_board : bytes;
  protocol_version : Z;
  partition_capacity : Z;
  inactivity_timeout_ms : Z;
  maximum_duration_ms : Z;
}.

Record deck_ota_transaction_snapshot_t := {
  state : deck_ota_state_t;
  result : deck_ota_result_t;
  received_bytes : Z;
  s_image_length : Z;
}.
#[export] Instance ota_snapshot_rebuild : Rebuild deck_ota_transaction_snapshot_t := fun s =>
  Build_deck_ota_transaction_snapshot_t (state s) (result s) (received_bytes s) (s_image_length s).

Record deck_ota_transaction := {
  options : deck_ota_transaction_options_t;
  manifest : deck_ota_manifest_t;
  snapshot : deck_ota_transaction_snapshot_t;
  started_ms : Z;
  last_activity_ms : Z;
  flash_open : bool;
  hash_open : bool;
}.
#[export] Instance ota_rebuild : Rebuild deck_ota_transaction := fun t =>
  Build_deck_ota_transaction (options t) (manifest t) (snapshot t) (started_ms t)
    (last_activity_ms t) (flash_open t) (hash_open t).

(** ** Versions and boards *)

Definition safe_version (value : bytes) : bool :=
  if negb (terminated value DECK_OTA_VERSION_CAPACITY) then false
  else
    let size := strlen value in
    if (size =? 0)%nat || (32 <=? size)%nat || negb (is_digit value.[0]) then false
    else forallb (fun b => is_digit b || is_upper b || is_lower b
                           || (b =? ch_dot) || (b =? ch_minus) || (b =? ch_plus))
           (take size value).

Definition safe_board (value : bytes) : bool :=
  if negb (terminated value DECK_OTA_BOARD_CAPACITY) then false
  else
    let size := strlen value in
    if (size =? 0)%nat || (DECK_OTA_BOARD_CAPACITY <=? size)%nat then false
    else forallb (fun b => is_lower b || is_digit b || (b =? ch_dot) || (b =? ch_minus))
           (take size value).

(** The [do ... while] loop over the digits of one part; [cursor] is what is
    left of the string.  [None]: the part does not fit 32 bits. *)
Fixpoint digit_loop (value : Z) (cursor : bytes) : option (Z * bytes) :=
  match cursor with
  | [] => Some (value, [])
  | b :: rest =>
      if is_digit b then
        let digit := b - ch_0 in
        if (U32_MAX - digit) / 10 <? value then None
        else digit_loop (value * 10 + digit) rest
      else Some (value, cursor)
  end.

(** One iteration of the loop over the parts, without the separator. *)
Definition parse_part (cursor : bytes) : option (Z * bytes) :=
  if negb (is_digit cursor.[0]) || ((cursor.[0] =? ch_0) && is_digit cursor.[1]) then None
  else digit_loop 0 cursor.

Definition parse_separator (cursor : bytes) : option bytes :=
  if negb (cursor.[0] =? ch_dot) then None else Some (drop 1 cursor).

Definition parse_semantic_core (value : bytes) : option (Z * Z * Z) :=
  if negb (safe_version value) then None
  else
    let cursor := c_string value in
    '(major, cursor) ← parse_part cursor;
    cursor ← parse_separator cursor;
    '(minor, cursor) ← parse_part cursor;
    cursor ← parse_separator cursor;
    '(patch, cursor) ← parse_part cursor;
    if (cursor.[0] =? 0) || (cursor.[0] =? ch_minus) || (cursor.[0] =? ch_plus)
    then Some (major, minor, patch) else None.

(** The comparison loop over the three parts. *)
Definition core_newer (candidate running : Z * Z * Z) : bool :=
  let '(a0, a1, a2) := candidate in
  let '(b0, b1, b2) := running in
  if negb (a0 =? b0) then b0 <? a0
  else if negb (a1 =? b1) then b1 <? a1
  else if negb (a2 =? b2) then b2 <? a2
  else false.

Definition strictly_newer (candidate running : bytes) : bool :=
  match parse_semantic_core candidate, parse_semantic_core running with
  | Some a, Some b => core_newer a b
  | _, _ => false
  end.

(** The constant-time comparison: the differences of all bytes, or-ed. *)
Definition digest_equal (left right : bytes) : bool :=
  fold_left (fun difference index => Z.lor difference (u8 (Z.lxor left.[index] right.[index])))
    (seq 0 DECK_OTA_DIGEST_BYTES) 0 =? 0.

(** ** The transaction *)

Section Transaction.
Context {W : Type} `{OtaAdapters W}.
Implicit Types (t : deck_ota_transaction) (m : deck_ota_manifest_t).

Definition close_open_resources t : M W deck_ota_transaction :=
  t ← (if flash_open t then _ ← flash_abort; mret (t <| flash_open := false |>) else mret t);
  if hash_open t then _ ← hash_abort; mret (t <| hash_open := false |>) else mret t.

Definition fail t (r : deck_ota_result_t) : M W (deck_ota_result_t * deck_ota_transaction) :=
  t ← close_open_resources t;
  mret (r, t <| snapshot := (snapshot t) <| state := DECK_OTA_FAILED |> <| result := r |> |>).

Definition deck_ota_transaction_create (o : deck_ota_transaction_options_t) (allocated : bool) :
    option deck_ota_transaction :=
  if negb (safe_version (running_version o)) || negb (safe_board (o_board o))
     || (protocol_version o =? 0) || (partition_capacity o =? 0)
     || (U32_MAX <? partition_capacity o) || (inactivity_timeout_ms o =? 0)
     || (maximum_duration_ms o =? 0) || negb allocated
  then None
  else Some {| options := o; manifest := empty_manifest;
               snapshot := {| state := DECK_OTA_IDLE; result := DECK_OTA_OK;
                              received_bytes := 0; s_image_length := 0 |};
               started_ms := 0; last_activity_ms := 0; flash_open := false; hash_open := false |}.

(** The transaction as it is when its memory is released. *)
Definition deck_ota_transaction_destroy t : M W deck_ota_transaction :=
  t ← close_open_resources t;
  mret (t <| manifest := empty_manifest |>).

Definition deck_ota_transaction_offer t m (now_ms : Z) :
    M W (deck_ota_result_t * deck_ota_transaction) :=
  if negb (bool_decide (state (snapshot t) = DECK_OTA_IDLE)) then mret (DECK_OTA_BUSY, t)
  else if negb (safe_version (version m)) || negb (safe_board (board m)) || (image_length m =? 0)
          || (signing_key_id m =? 0) || (minimum_protocol_version m =? 0)
  then fail t DECK_OTA_INVALID_MANIFEST
  else if negb (strcmp_eq (board m) (o_board (options t))) then fail t DECK_OTA_WRONG_BOARD
  else if protocol_version (options t) <? minimum_protocol_version m
  then fail t DECK_OTA_INCOMPATIBLE_PROTOCOL
  else if negb (strictly_newer (version m) (running_version (options t)))
  then fail t DECK_OTA_DOWNGRADE_REJECTED
  else if partition_capacity (options t) <? image_length m then fail t DECK_OTA_IMAGE_TOO_LARGE
  else
    verified ← verify_manifest m;
    if negb verified then fail t DECK_OTA_SIGNATURE_REJECTED
    else
      hashing ← hash_begin;
      if negb hashing then fail t DECK_OTA_FLASH_FAILURE
      else
        let t := t <| hash_open := true |> in
        begun ← flash_begin (image_length m);
        if negb begun then fail t DECK_OTA_FLASH_FAILURE
        else
          mret (DECK_OTA_OK,
                t <| flash_open := true |> <| manifest := m |>
                  <| snapshot := {| state := DECK_OTA_RECEIVING; result := DECK_OTA_OK;
                                    received_bytes := 0; s_image_length := image_length m |} |>
                  <| last_activity_ms := now_ms |> <| started_ms := now_ms |>).

(** The clock checks of [write] and [tick]. *)
Definition timed_out t (now_ms : Z) : bool :=
  (now_ms <? started_ms t) || (maximum_duration_ms (options t) <=? now_ms - started_ms t)
  || (now_ms <? last_activity_ms t)
  || (inactivity_timeout_ms (options t) <=? now_ms - last_activity_ms t).

(** After the last byte: digest, image check, boot selection. *)
Definition finish_image t : M W (deck_ota_result_t * deck_ota_transaction) :=
  digest ← hash_finish;
  match digest with
  | None => fail t DECK_OTA_FLASH_FAILURE
  | Some digest =>
      let t := t <| hash_open := false |> in
      if negb (digest_equal digest (image_sha256 (manifest t))) then fail t DECK_OTA_HASH_MISMATCH
      else
        image_valid ← flash_finish;
        let t := t <| flash_open := false |> in
        if negb image_valid then
          mret (DECK_OTA_IMAGE_INVALID,
                t <| snapshot := (snapshot t) <| state := DECK_OTA_FAILED |>
                                   <| result := DECK_OTA_IMAGE_INVALID |> |>)
        else
          selected ← flash_select_boot;
          if negb selected then
            mret (DECK_OTA_FLASH_FAILURE,
                  t <| snapshot := (snapshot t) <| state := DECK_OTA_FAILED |>
                                     <| result := DECK_OTA_FLASH_FAILURE |> |>)
          else
            mret (DECK_OTA_OK,
                  t <| snapshot := (snapshot t) <| state := DECK_OTA_READY_TO_REBOOT |>
                                     <| result := DECK_OTA_OK |> |>)
  end.

Definition deck_ota_transaction_write t (offset : Z) (data : bytes) (final : bool) (now_ms : Z) :
    M W (deck_ota_result_t * deck_ota_transaction) :=
  let size := Z.of_nat (length data) in
  if (size =? 0) || (Z.of_nat DECK_OTA_MAX_CHUNK_BYTES <? size)
     || negb (bool_decide (state (snapshot t) = DECK_OTA_RECEIVING))
  then mret (DECK_OTA_INVALID_MANIFEST, t)
  else if timed_out t now_ms then fail t DECK_OTA_TIMED_OUT
  else
    let remaining := u32 (s_image_length (snapshot t) - received_bytes (snapshot t)) in
    if negb (offset =? received_bytes (snapshot t)) || (remaining <? size)
       || (final && negb (size =? remaining)) || (negb final && (size =? remaining))
    then fail t DECK_OTA_STALE_OFFSET
    else
      hashed ← hash_update data;
      written ← (if hashed : bool then flash_write data else mret false);
      if negb written then fail t DECK_OTA_FLASH_FAILURE
      else
        let t := t <| snapshot := (snapshot t)
                        <| received_bytes := u32 (received_bytes (snapshot t) + size) |> |>
                   <| last_activity_ms := now_ms |> in
        if negb final then mret (DECK_OTA_OK, t) else finish_image t.

Definition deck_ota_transaction_tick t (now_ms : Z) : M W (deck_ota_result_t * deck_ota_transaction) :=
  if bool_decide (state (snapshot t) = DECK_OTA_RECEIVING) && timed_out t now_ms
  then fail t DECK_OTA_TIMED_OUT
  else mret (result (snapshot t), t).

Definition deck_ota_transaction_snapshot t : deck_ota_transaction_snapshot_t := snapshot t.

End Transaction.
