(* ===== verification/OtaSafety.v ===== *)
(** * What an OTA transaction guarantees

    The version order, and a device whose adapters may fail at any call: boot
    is switched only to a complete, hashed, signed and strictly newer image,
    and a transfer that meets no failure does switch it. *)

From S2P Require Import Prelude Codec CString OtaTransaction.

(** ** Versions *)

Definition decimal (value : Z) (digits : bytes) : Z :=
  fold_left (fun value b => value * 10 + (b - ch_0)) digits value.

Definition all_digits (digits : bytes) : Prop := Forall (fun b => is_digit b = true) digits.

Lemma digit_range b : is_digit b = true -> 0 <= b - ch_0 <= 9.
Proof. unfold is_digit, ch_0, ch_9. intros. bool_prop. lia. Qed.

Lemma decimal_mono value digits : 0 <= value -> all_digits digits -> value <= decimal value digits.
Proof.
  intros Hv Hd. revert value Hv. induction Hd as [|b digits Hb _ IH]; intros value Hv; simpl; [lia|].
  pose proof (digit_range b Hb). specialize (IH (value * 10 + (b - ch_0)) ltac:(lia)). lia.
Qed.

Lemma digit_loop_spec value cursor v rest :
  0 <= value <= U32_MAX ->
  digit_loop value cursor = Some (v, rest) <->
  exists digits, cursor = digits ++ rest /\ all_digits digits /\ is_digit rest.[0] = false
    /\ v = decimal value digits /\ v <= U32_MAX.
Proof.
  revert value. induction cursor as [|b cursor IH]; intros value Hv; simpl.
  - split.
    + intros [= <- <-]. exists []. split_and!; try done; [constructor|apply Hv].
    + intros (digits & Heq & _ & _ & -> & _). symmetry in Heq. apply app_eq_nil in Heq as [-> ->]. done.
  - destruct (is_digit b) eqn:Hb.
    + pose proof (digit_range b Hb) as Hr. unfold ch_0 in *.
      destruct ((U32_MAX - (b - 48)) / 10 <? value) eqn:Hover; bool_prop.
      * split; [done|]. intros (digits & Heq & Hd & Hrest & -> & Hmax).
        destruct digits as [|b' digits]; simplify_eq/=.
        { unfold byte_at in Hrest. simpl in Hrest. congruence. }
        apply Forall_cons in Hd as [_ Hd]. exfalso.
        pose proof (decimal_mono (value * 10 + (b' - 48)) digits ltac:(lia) Hd) as Hm.
        unfold ch_0 in *. Z.div_mod_to_equations. lia.
      * rewrite IH by (Z.div_mod_to_equations; lia). split.
        -- intros (digits & -> & Hd & Hrest & -> & Hmax). exists (b :: digits).
           split_and!; try done. by constructor.
        -- intros (digits & Heq & Hd & Hrest & -> & Hmax).
           destruct digits as [|b' digits]; simplify_eq/=.
           { unfold byte_at in Hrest. simpl in Hrest. congruence. }
           apply Forall_cons in Hd as [_ Hd]. by exists digits.
    + split.
      * intros [= <- <-]. exists []. split_and!; try done; [constructor|apply Hv].
      * intros (digits & Heq & Hd & _ & -> & _).
        destruct digits as [|b' digits]; simplify_eq/=; [done|].
        apply Forall_cons in Hd as [Hb' _]. congruence.
Qed.

(** A part as the version grammar has it: decimal digits, no leading zero. *)
Definition part (digits : bytes) : Prop :=
  all_digits digits /\ digits <> [] /\ (digits.[0] = ch_0 -> length digits = 1%nat).

Lemma parse_part_spec cursor v rest :
  parse_part cursor = Some (v, rest) <->
  exists digits, cursor = digits ++ rest /\ part digits /\ is_digit rest.[0] = false
    /\ v = decimal 0 digits /\ v <= U32_MAX.
Proof.
  unfold parse_part, part. split.
  - destruct (_ || _) eqn:Hg; [done|]. bool_prop. intros Hl.
    apply digit_loop_spec in Hl as (digits & -> & Hd & Hrest & -> & Hmax); [|lia].
    exists digits. destruct digits as [|b digits]; [by simpl in *; congruence|].
    split_and!; try done. intros Hz. unfold byte_at in *. simpl in *. subst b.
    destruct digits as [|b' digits]; [done|]. simpl in *. apply Forall_cons in Hd as [_ Hd].
    apply Forall_cons in Hd as [Hb' _]. rewrite Hb' in *. by bool_cases.
  - intros (digits & -> & (Hd & Hne & Hz) & Hrest & -> & Hmax).
    destruct digits as [|b digits]; [done|]. pose proof Hd as Hd'. apply Forall_cons in Hd' as [Hb Hd'].
    assert (is_digit (b :: digits ++ rest).[0] = true) as Hfirst by done.
    assert (((b :: digits ++ rest).[0] =? ch_0) && is_digit (b :: digits ++ rest).[1] = false) as Hlead.
    { unfold byte_at at 1. simpl. destruct (b =? ch_0) eqn:E; [|done]. bool_prop. subst b.
      specialize (Hz eq_refl). destruct digits; [|done]. simpl. exact Hrest. }
    cbn [app]. rewrite Hfirst, Hlead. simpl orb. apply digit_loop_spec; [lia|]. by exists (b :: digits).
Qed.

Definition core_text (major minor patch suffix : bytes) : bytes :=
  major ++ ch_dot :: minor ++ ch_dot :: patch ++ suffix.

Definition suffix_ok (suffix : bytes) : Prop :=
  suffix = [] \/ suffix.[0] = ch_minus \/ suffix.[0] = ch_plus.

Lemma parse_separator_spec cursor rest :
  parse_separator cursor = Some rest <-> cursor = ch_dot :: rest.
Proof.
  unfold parse_separator. destruct cursor as [|b cursor]; simpl; [done|].
  unfold byte_at. simpl. destruct (b =? ch_dot) eqn:E; bool_prop; simpl; unfold drop; split; congruence.
Qed.

Lemma core_newer_spec a b :
  core_newer a b = true <->
  a.1.1 > b.1.1 \/ a.1.1 = b.1.1 /\ (a.1.2 > b.1.2 \/ a.1.2 = b.1.2 /\ a.2 > b.2).
Proof.
  destruct a as [[a0 a1] a2], b as [[b0 b1] b2]. simpl.
  repeat case_match; bool_prop; lia.
Qed.

Lemma parse_core_spec value a b c :
  parse_semantic_core value = Some (a, b, c) <->
  safe_version value = true /\ exists major minor patch suffix,
    c_string value = core_text major minor patch suffix
    /\ part major /\ part minor /\ part patch /\ suffix_ok suffix
    /\ a = decimal 0 major /\ b = decimal 0 minor /\ c = decimal 0 patch
    /\ a <= U32_MAX /\ b <= U32_MAX /\ c <= U32_MAX.
Proof.
  unfold parse_semantic_core. destruct (safe_version value); simpl; [|split; [done|by intros [? _]]].
  split.
  - destruct (parse_part (c_string value)) as [[x r0]|] eqn:E0; simpl; [|done].
    destruct (parse_separator r0) as [r1|] eqn:S0; simpl; [|done].
    destruct (parse_part r1) as [[y r2]|] eqn:E1; simpl; [|done].
    destruct (parse_separator r2) as [r3|] eqn:S1; simpl; [|done].
    destruct (parse_part r3) as [[z r4]|] eqn:E2; simpl; [|done].
    destruct (_ || _) eqn:Hend; [|done]. intros [= -> -> ->]. split; [done|].
    apply parse_part_spec in E0 as (d0 & Ht & Hd0 & _ & -> & Hm0).
    apply parse_separator_spec in S0 as ->.
    apply parse_part_spec in E1 as (d1 & -> & Hd1 & _ & -> & Hm1).
    apply parse_separator_spec in S1 as ->.
    apply parse_part_spec in E2 as (d2 & -> & Hd2 & _ & -> & Hm2).
    exists d0, d1, d2, r4. split_and!; try done.
    unfold suffix_ok. bool_cases; auto. left.
    pose proof (c_string_nonzero value) as Hnz. rewrite Ht in Hnz.
    destruct r4 as [|x r4]; [done|]. exfalso. unfold byte_at in *. simpl in *. subst x.
    rewrite !Forall_app, Forall_cons, !Forall_app, Forall_cons, Forall_app, Forall_cons in Hnz. tauto.
  - intros (_ & d0 & d1 & d2 & suffix & Ht & Hd0 & Hd1 & Hd2 & Hs & -> & -> & -> & H0 & H1 & H2).
    unfold core_text in Ht. rewrite Ht.
    assert (is_digit suffix.[0] = false) as Hsd.
    { destruct Hs as [->|[->| ->]]; done. }
    rewrite (proj2 (parse_part_spec _ (decimal 0 d0) (ch_dot :: d1 ++ ch_dot :: d2 ++ suffix)))
      by (exists d0; by split_and!). simpl.
    rewrite (proj2 (parse_part_spec _ (decimal 0 d1) (ch_dot :: d2 ++ suffix)))
      by (exists d1; by split_and!). simpl.
    rewrite (proj2 (parse_part_spec _ (decimal 0 d2) suffix)) by (exists d2; by split_and!). simpl.
    assert ((suffix.[0] =? 0) || (suffix.[0] =? ch_minus) || (suffix.[0] =? ch_plus) = true) as ->;
      [|done].
    destruct Hs as [->|[->| ->]]; done.
Qed.

(** ** The digest comparison *)

Definition digest (d : bytes) : Prop := length d = DECK_OTA_DIGEST_BYTES /\ is_bytes d.

Lemma digest_equal_spec left right :
  digest left -> digest right -> digest_equal left right = true <-> left = right.
Proof.
  intros [Hl Hbl] [Hr Hbr]. unfold digest_equal. rewrite Z.eqb_eq, u8_difference_zero by (done || lia).
  by rewrite !take_ge by lia.
Qed.

(** ** A device whose adapters may fail *)

(** [plan] answers the adapter calls in order, all true when it runs out;
    [image] is the update partition, [boot] the image boot was switched to. *)
Record device := {
  plan : list bool;
  image : bytes;
  hashing : bytes;
  boot : option bytes;
}.
#[export] Instance device_rebuild : Rebuild device := fun d =>
  Build_device (plan d) (image d) (hashing d) (boot d).

Definition answer (d : device) : bool := hd true (plan d).

#[local] Opaque digest_equal.

Section Device.
(** The hash function and the signature check are the platform's. *)
Context (sha256 : bytes -> bytes) (signed : deck_ota_manifest_t -> bool).

(** One adapter call: the plan moves on; [effect] happens if it succeeds. *)
Definition call (effect : device -> device) (d : device) : bool * device :=
  let ok := answer d in
  let d := d <| plan := tl (plan d) |> in
  (ok, if ok then effect d else d).

#[local] Instance device_adapters : OtaAdapters device := {
  flash_begin _ := call (fun d => d <| image := [] |>);
  flash_write data := call (fun d => d <| image := image d ++ data |>);
  flash_finish := call (fun d => d);
  flash_abort d := (tt, d <| image := [] |>);
  flash_select_boot := call (fun d => d <| boot := Some (image d) |>);
  hash_begin := call (fun d => d <| hashing := [] |>);
  hash_update data := call (fun d => d <| hashing := hashing d ++ data |>);
  hash_finish d := let '(ok, d) := call (fun d => d) d in
                   (if ok then Some (sha256 (hashing d)) else None, d);
  hash_abort d := (tt, d <| hashing := [] |>);
  verify_manifest m d := let '(ok, d) := call (fun d => d) d in (ok && signed m, d);
}.

Inductive ota_op :=
  | Offer (m : deck_ota_manifest_t) (now_ms : Z)
  | Write (offset : Z) (data : bytes) (final : bool) (now_ms : Z)
  | OtaTick (now_ms : Z).

Definition manifest_ok (m : deck_ota_manifest_t) : Prop :=
  is_u32 (image_length m) /\ digest (image_sha256 m).

Definition ota_op_ok (op : ota_op) : Prop :=
  match op with Offer m _ => manifest_ok m | _ => True end.

Definition run_ota (op : ota_op) (t : deck_ota_transaction) :
    M device (deck_ota_result_t * deck_ota_transaction) :=
  match op with
  | Offer m now_ms => deck_ota_transaction_offer t m now_ms
  | Write offset data final now_ms => deck_ota_transaction_write t offset data final now_ms
  | OtaTick now_ms => deck_ota_transaction_tick t now_ms
  end.

Inductive ota_reachable (o : deck_ota_transaction_options_t) : deck_ota_transaction -> device -> Prop :=
  | ota_created t d :
      deck_ota_transaction_create o true = Some t -> boot d = None -> ota_reachable o t d
  | ota_stepped t d op r t' d' :
      ota_reachable o t d -> ota_op_ok op -> run_ota op t d = ((r, t'), d') ->
      ota_reachable o t' d'.

(** A manifest this device may take. *)
Record admissible (o : deck_ota_transaction_options_t) (m : deck_ota_manifest_t) : Prop := {
  ad_ok : manifest_ok m;
  ad_signed : signed m = true;
  ad_board : c_string (board m) = c_string (o_board o);
  ad_newer : strictly_newer (version m) (running_version o) = true;
  ad_protocol : minimum_protocol_version m <= protocol_version o;
  ad_length : 0 < image_length m <= partition_capacity o;
}.

(** The image boot points at is complete and the one the manifest names. *)
Definition bootable (o : deck_ota_transaction_options_t) (m : deck_ota_manifest_t) (img : bytes) : Prop :=
  admissible o m /\ Z.of_nat (length img) = image_length m
  /\ digest_equal (sha256 img) (image_sha256 m) = true.

Record ota_inv (o : deck_ota_transaction_options_t) (t : deck_ota_transaction) (d : device) : Prop := {
  oi_options : options t = o;
  oi_receiving : state (snapshot t) = DECK_OTA_RECEIVING ->
    admissible o (manifest t) /\ flash_open t = true /\ hash_open t = true
    /\ image d = hashing d /\ s_image_length (snapshot t) = image_length (manifest t)
    /\ received_bytes (snapshot t) = Z.of_nat (length (image d))
    /\ received_bytes (snapshot t) < image_length (manifest t);
  oi_closed : state (snapshot t) <> DECK_OTA_RECEIVING -> flash_open t = false /\ hash_open t = false;
  oi_boot : match boot d with
            | None => state (snapshot t) <> DECK_OTA_READY_TO_REBOOT
            | Some img => state (snapshot t) = DECK_OTA_READY_TO_REBOOT /\ bootable o (manifest t) img
            end;
}.

Lemma call_spec effect d :
  call effect d = (answer d, if answer d then effect (d <| plan := tl (plan d) |>)
                             else d <| plan := tl (plan d) |>).
Proof. done. Qed.

(** [fail] closes whatever is open and leaves boot alone. *)
Lemma fail_spec t r d :
  (fail t r d).1 = (r, t <| flash_open := false |> <| hash_open := false |>
    <| snapshot := (snapshot t) <| state := DECK_OTA_FAILED |> <| result := r |> |>)
  /\ boot (fail t r d).2 = boot d.
Proof.
  unfold fail, close_open_resources. destruct t as [o m s st la [] []]; run; done.
Qed.

Lemma fail_inv o t r d r' t' d' :
  options t = o -> boot d = None -> fail t r d = ((r', t'), d') -> ota_inv o t' d'.
Proof.
  intros Ho Hb Hf. destruct (fail_spec t r d) as [Ht Hd]. rewrite Hf in Ht, Hd.
  simpl in Ht, Hd. injection Ht as -> ->. split; simpl; try done. by rewrite Hd, Hb.
Qed.

(** One more adapter call answers. *)
Ltac next_answer :=
  match goal with |- context [answer ?x] => destruct (answer x) end; simpl.

Lemma inv_boot_none o t d :
  ota_inv o t d -> state (snapshot t) <> DECK_OTA_READY_TO_REBOOT -> boot d = None.
Proof. intros [_ _ _ Hb] Hs. destruct (boot d); [by destruct Hb|done]. Qed.

Lemma offer_inv o t m now_ms d r t' d' :
  ota_inv o t d -> manifest_ok m -> deck_ota_transaction_offer t m now_ms d = ((r, t'), d') ->
  ota_inv o t' d'.
Proof.
  intros Hinv Hm. unfold deck_ota_transaction_offer.
  destruct (bool_decide _) eqn:Hs; simpl; [|by intros [= <- <- <-]]. bool_prop.
  pose proof (inv_boot_none o t d Hinv ltac:(congruence)) as Hb.
  pose proof (oi_options _ _ _ Hinv) as Ho. pose proof (oi_closed _ _ _ Hinv ltac:(congruence)) as [Hf Hh].
  destruct (_ || _) eqn:Hg1; [by apply fail_inv|].
  destruct (strcmp_eq _ _) eqn:Hboard; simpl; [|by apply fail_inv].
  destruct (_ <? minimum_protocol_version m) eqn:Hproto; [by apply fail_inv|].
  destruct (strictly_newer _ _) eqn:Hnewer; simpl; [|by apply fail_inv].
  destruct (partition_capacity _ <? _) eqn:Hcap; [by apply fail_inv|].
  unfold mbind, M_bind. simpl. destruct (answer d && signed m) eqn:Hsig; simpl.
  2: { next_answer; by apply fail_inv. }
  apply andb_true_iff in Hsig as [Ha Hsg]. rewrite ?Ha. next_answer; [|by apply fail_inv].
  next_answer; [|by apply fail_inv].
  intros [= <- <- <-]. unfold strcmp_eq in Hboard. bool_prop.
  destruct Hm as [Hlen Hdig]. split; simpl; try done.
  - intros _. split_and!; try done; [|unfold is_u32 in *; lia].
    rewrite Ho in *. split; try done; unfold is_u32 in *; lia.
  - by rewrite Hb.
Qed.

Lemma finish_inv o t d r t' d' :
  options t = o -> boot d = None -> admissible o (manifest t) -> flash_open t = true ->
  hash_open t = true -> image d = hashing d -> Z.of_nat (length (image d)) = image_length (manifest t) ->
  finish_image t d = ((r, t'), d') -> ota_inv o t' d'.
Proof.
  intros Ho Hb Had Hf Hh Himg Hlen. unfold finish_image, mbind, M_bind. simpl.
  next_answer; [|by apply fail_inv].
  destruct (digest_equal _ _) eqn:Hd; simpl; [|by apply fail_inv].
  next_answer; [|intros [= <- <- <-]; by split; simpl; try done; rewrite ?Hb].
  next_answer; intros [= <- <- <-]; split; simpl; try done; rewrite ?Hb; try done.
  split; [done|]. split; [done|]. by rewrite Himg at 2.
Qed.

Lemma write_inv o t offset data final now_ms d r t' d' :
  ota_inv o t d -> deck_ota_transaction_write t offset data final now_ms d = ((r, t'), d') ->
  ota_inv o t' d'.
Proof.
  intros Hinv. unfold deck_ota_transaction_write.
  destruct (_ || negb (bool_decide _)) eqn:Hg; [by intros [= <- <- <-]|]. bool_prop.
  pose proof (inv_boot_none o t d Hinv ltac:(congruence)) as Hb.
  pose proof (oi_options _ _ _ Hinv) as Ho.
  destruct (oi_receiving _ _ _ Hinv ltac:(done)) as (Had & Hf & Hh & Himg & Hlen & Hrec & Hlt).
  destruct (timed_out t now_ms); [by apply fail_inv|].
  rewrite (u32_id (s_image_length (snapshot t) - _)).
  2: { destruct Had as [[? _] _ _ _ _ _]. unfold is_u32 in *. lia. }
  destruct (_ || _) eqn:Hoff; [by apply fail_inv|]. bool_prop.
  unfold mbind, M_bind. simpl. next_answer; [|by apply fail_inv].
  next_answer; [|by apply fail_inv].
  rewrite u32_id by (destruct Had as [[? _] _ _ _ _ _]; unfold is_u32 in *; lia).
  assert (Z.of_nat (length (image d ++ data)) = received_bytes (snapshot t) + Z.of_nat (length data))
    as Hl by (rewrite length_app; lia).
  destruct final; simpl.
  - apply finish_inv; simpl; try done; [by rewrite Himg|]. bool_cases; lia.
  - intros [= <- <- <-]. split; simpl; try done.
    + intros _. split_and!; try done; [by rewrite Himg|]. bool_cases; lia.
    + rewrite Hb. congruence.
Qed.

Lemma tick_inv o t now_ms d r t' d' :
  ota_inv o t d -> deck_ota_transaction_tick t now_ms d = ((r, t'), d') -> ota_inv o t' d'.
Proof.
  intros Hinv. unfold deck_ota_transaction_tick.
  destruct (_ && _) eqn:Hg; [|by intros [= <- <- <-]]. bool_prop.
  apply fail_inv; [apply Hinv|]. eapply inv_boot_none; [done|congruence].
Qed.

Lemma created_inv o t d :
  deck_ota_transaction_create o true = Some t -> boot d = None -> ota_inv o t d.
Proof.
  unfold deck_ota_transaction_create. destruct (_ || _); [done|]. intros [= <-] Hb.
  split; simpl; try done. by rewrite Hb.
Qed.

Lemma ota_reachable_inv o t d : ota_reachable o t d -> ota_inv o t d.
Proof.
  induction 1 as [t d Hc Hb|t d op r t' d' _ IH Hop Hrun]; [by eapply created_inv|].
  destruct op; simpl in *; [by eapply offer_inv|by eapply write_inv|by eapply tick_inv].
Qed.

(** *** A transfer without failures *)

(** The chunks of an image, in order, the last one marked final. *)
Fixpoint send (chunks : list bytes) (offset now_ms : Z) (t : deck_ota_transaction) :
    M device (list deck_ota_result_t * deck_ota_transaction) :=
  match chunks with
  | [] => mret ([], t)
  | chunk :: rest =>
      written ← deck_ota_transaction_write t offset chunk (bool_decide (rest = [])) now_ms;
      let '(r, t) := written in
      sent ← send rest (offset + Z.of_nat (length chunk)) now_ms t;
      let '(rs, t) := sent in
      mret (r :: rs, t)
  end.

Definition chunk_ok (chunk : bytes) : Prop :=
  (0 < length chunk <= DECK_OTA_MAX_CHUNK_BYTES)%nat.

Record sending (t : deck_ota_transaction) (d : device) (now_ms : Z) (sent : bytes) : Prop := {
  sd_state : state (snapshot t) = DECK_OTA_RECEIVING;
  sd_plan : plan d = [];
  sd_image : image d = sent /\ hashing d = sent;
  sd_received : received_bytes (snapshot t) = Z.of_nat (length sent);
  sd_clock : started_ms t = now_ms /\ last_activity_ms t = now_ms
    /\ 0 < maximum_duration_ms (options t) /\ 0 < inactivity_timeout_ms (options t);
  sd_length : is_u32 (s_image_length (snapshot t));
}.

Lemma sending_not_timed_out t d now_ms sent : sending t d now_ms sent -> timed_out t now_ms = false.
Proof.
  intros [_ _ _ _ (Hs & Hl & Hm & Hi) _]. unfold timed_out. rewrite Hs, Hl, Z.sub_diag.
  rewrite Z.ltb_irrefl, !(proj2 (Z.leb_gt _ _)) by done. done.
Qed.

(** A chunk that fits is taken; the last one completes the image. *)
Lemma write_chunk t d now_ms sent chunk final :
  sending t d now_ms sent -> chunk_ok chunk ->
  (if final : bool then Z.of_nat (length (sent ++ chunk)) = s_image_length (snapshot t)
   else Z.of_nat (length (sent ++ chunk)) < s_image_length (snapshot t)) ->
  exists t1 d1, plan d1 = [] /\ image d1 = sent ++ chunk /\ hashing d1 = sent ++ chunk
    /\ boot d1 = boot d /\ manifest t1 = manifest t /\ sending t1 d1 now_ms (sent ++ chunk)
    /\ s_image_length (snapshot t1) = s_image_length (snapshot t)
    /\ deck_ota_transaction_write t (Z.of_nat (length sent)) chunk final now_ms d
       = if final then finish_image t1 d1 else ((DECK_OTA_OK, t1), d1).
Proof.
  intros Hs [Hc0 Hc] Hfit. pose proof (sending_not_timed_out _ _ _ _ Hs) as Hto.
  destruct Hs as [Hst Hplan [Himg Hhash] Hrec (Hs0 & Hl0 & Hmax & Hin) Hu32].
  rewrite length_app in Hfit. unfold is_u32 in Hu32.
  unfold deck_ota_transaction_write. rewrite Hto, Hst, Hrec.
  rewrite u32_id by (destruct final; words).
  rewrite Z.eqb_refl. cbn [negb orb].
  rewrite (proj2 (Z.eqb_neq (Z.of_nat (length chunk)) 0)) by lia.
  rewrite (proj2 (Z.ltb_ge _ (Z.of_nat (length chunk)))) by lia. cbn [orb negb bool_decide].
  rewrite bool_decide_eq_true_2 by done. cbn [negb].
  assert ((s_image_length (snapshot t) - Z.of_nat (length sent) <? Z.of_nat (length chunk))
    || final && negb (Z.of_nat (length chunk) =? s_image_length (snapshot t) - Z.of_nat (length sent))
    || negb final && (Z.of_nat (length chunk) =? s_image_length (snapshot t) - Z.of_nat (length sent))
    = false) as ->.
  { destruct final; simpl; repeat case_match; bool_cases; lia. }
  unfold mbind at 1 2, M_bind. simpl. unfold answer. rewrite Hplan. simpl.
  set (t1 := t <| snapshot := _ |> <| last_activity_ms := now_ms |>).
  set (d1 := _ <| image := _ |>).
  exists t1, d1. split_and!; try done; [by simpl; rewrite Himg|by simpl; rewrite Hhash| |by destruct final].
  split; try done.
  - simpl. by rewrite Himg, Hhash.
  - simpl. rewrite length_app, u32_id; [lia|]. destruct final; words.
Qed.

Lemma finish_accepted t d now_ms sent :
  sending t d now_ms sent -> digest_equal (sha256 sent) (image_sha256 (manifest t)) = true ->
  exists t1 d1, finish_image t d = ((DECK_OTA_OK, t1), d1)
    /\ state (snapshot t1) = DECK_OTA_READY_TO_REBOOT /\ boot d1 = Some sent.
Proof.
  intros [_ Hplan [Himg Hhash] _ _ _] Hd. unfold finish_image, mbind, M_bind. simpl.
  unfold answer. rewrite Hplan. simpl. rewrite Hhash, Hd. simpl. do 2 eexists.
  split; [reflexivity|]. split; [done|]. simpl. by rewrite Himg.
Qed.

Lemma send_ok chunks t d now_ms sent :
  sending t d now_ms sent -> chunks <> [] -> Forall chunk_ok chunks ->
  Z.of_nat (length (sent ++ concat chunks)) = s_image_length (snapshot t) ->
  digest_equal (sha256 (sent ++ concat chunks)) (image_sha256 (manifest t)) = true ->
  exists t1 d1, send chunks (Z.of_nat (length sent)) now_ms t d
      = ((replicate (length chunks) DECK_OTA_OK, t1), d1)
    /\ state (snapshot t1) = DECK_OTA_READY_TO_REBOOT /\ boot d1 = Some (sent ++ concat chunks).
Proof.
  intros Hs Hne Hchunks. revert t d sent Hs Hne.
  induction Hchunks as [|chunk rest Hc Hrest IH]; intros t d sent Hs Hne Hlen Hd; [done|]. clear Hne.
  simpl in *. unfold mbind at 1, M_bind.
  destruct rest as [|chunk' rest].
  - rewrite app_nil_r in *. rewrite bool_decide_eq_true_2 by done.
    destruct (write_chunk t d now_ms sent chunk true Hs Hc Hlen)
      as (t1 & d1 & _ & _ & _ & _ & Hm & Hs1 & _ & ->).
    rewrite <- Hm in Hd. destruct (finish_accepted _ _ _ _ Hs1 Hd) as (t2 & d2 & -> & Hst & Hb).
    exists t2, d2. by split_and!.
  - assert (0 < length chunk')%nat by by apply Forall_cons in Hrest as [[] _].
    destruct (write_chunk t d now_ms sent chunk false Hs Hc)
      as (t1 & d1 & _ & _ & _ & _ & Hm & Hs1 & Hl1 & Hw).
    { cbn [concat] in Hlen. rewrite !length_app in *. lia. }
    rewrite bool_decide_eq_false_2 by done. rewrite Hw.
    destruct (IH t1 d1 (sent ++ chunk) Hs1 ltac:(done)) as (t2 & d2 & Hsend & Hst & Hb).
    + by rewrite Hl1, <- app_assoc.
    + by rewrite Hm, <- app_assoc.
    + replace (Z.of_nat (length sent) + Z.of_nat (length chunk)) with (Z.of_nat (length (sent ++ chunk)))
        by (rewrite length_app; lia).
      unfold mbind, M_bind. rewrite Hsend. exists t2, d2. rewrite <- app_assoc in Hb. by split_and!.
Qed.

Lemma offer_sending o t m now_ms d t' d' :
  deck_ota_transaction_create o true = Some t -> manifest_ok m ->
  is_u64 (inactivity_timeout_ms o) -> is_u64 (maximum_duration_ms o) -> plan d = [] ->
  deck_ota_transaction_offer t m now_ms d = ((DECK_OTA_OK, t'), d') ->
  sending t' d' now_ms [] /\ manifest t' = m /\ s_image_length (snapshot t') = image_length m.
Proof.
  unfold deck_ota_transaction_create. destruct (_ || _) eqn:Hg; [done|]. bool_prop.
  intros [= <-] [Hlen _] Hi Hd Hplan. unfold deck_ota_transaction_offer. simpl.
  assert (forall t r t' d d', fail t r d = ((DECK_OTA_OK, t'), d') -> r = DECK_OTA_OK) as Hfail.
  { intros t0 r t1 d0 d1 Hf. destruct (fail_spec t0 r d0) as [Ht _]. rewrite Hf in Ht.
    by injection Ht as -> _. }
  repeat (case_match; [by intros Hf%Hfail|]). unfold mbind, M_bind. simpl. unfold answer.
  rewrite Hplan. simpl. destruct (signed m); simpl; [|by intros Hf%Hfail].
  intros [= <- <-]. split_and!; try done. split; simpl; try done.
  unfold is_u64 in *. split_and!; lia.
Qed.

End Device.

(** ** Properties *)

(** A toy digest, to run the theorems. *)
Definition sum_digest (data : bytes) : bytes := replicate 32 (u8 (fold_left Z.add data 0)).

Lemma sum_digest_ok data : digest (sum_digest data).
Proof.
  split; [done|]. apply Forall_replicate, u8_range.
Qed.

(** "1.10.0" on board "s3", replacing "1.9.9". *)
Definition sample_ota_options : deck_ota_transaction_options_t := {|
  running_version := [49; 46; 57; 46; 57; 0]; o_board := [115; 51; 0];
  protocol_version := 2; partition_capacity := 4096;
  inactivity_timeout_ms := 1000; maximum_duration_ms := 5000 |}.

Definition sample_image : list bytes := [[1; 2; 3]; [4]].

Definition sample_manifest : deck_ota_manifest_t := {|
  version := [49; 46; 49; 48; 46; 48; 0]; board := [115; 51; 0]; image_length := 4;
  image_sha256 := sum_digest (concat sample_image); signature := []; signing_key_id := 1;
  minimum_protocol_version := 2 |}.

Definition sample_device : device := {| plan := []; image := []; hashing := []; boot := None |}.

Lemma sample_manifest_ok : manifest_ok sample_manifest.
Proof. split; [by split|apply sum_digest_ok]. Qed.

Definition accept_all (m : deck_ota_manifest_t) : bool := true.

(** C3: Whatever the offers, chunks, ticks and adapter failures, boot is only
    ever switched to an image that is complete, whose digest is the
    manifest's, under a signed manifest for this board, of a supported
    protocol, that fits the partition and is strictly newer than the running
    firmware. *)
Theorem ota_boots_only_verified_images sha256 signed o t d img
    (Hsha : forall data, digest (sha256 data))
    (Hr : ota_reachable sha256 signed o t d) (Hboot : boot d = Some img) :
  state (snapshot t) = DECK_OTA_READY_TO_REBOOT
  /\ signed (manifest t) = true /\ sha256 img = image_sha256 (manifest t)
  /\ Z.of_nat (length img) = image_length (manifest t)
  /\ image_length (manifest t) <= partition_capacity o
  /\ c_string (board (manifest t)) = c_string (o_board o)
  /\ minimum_protocol_version (manifest t) <= protocol_version o
  /\ strictly_newer (version (manifest t)) (running_version o) = true.
Proof.
  pose proof (oi_boot _ _ _ _ _ (ota_reachable_inv _ _ _ _ _ Hr)) as Hb. rewrite Hboot in Hb.
  destruct Hb as (Hs & [[_ Hdig] ? ? ? ? ?] & Hlen & Heq).
  apply digest_equal_spec in Heq; [|apply Hsha|done]. split_and!; try done; lia.
Qed.

Lemma ota_boots_only_verified_images_witness :
  exists t d, ota_reachable sum_digest accept_all sample_ota_options t d
    /\ boot d = Some [1; 2; 3; 4] /\ strictly_newer (version (manifest t)) [49; 46; 57; 46; 57; 0] = true.
Proof.
  destruct (deck_ota_transaction_create sample_ota_options true) as [t0|] eqn:E0; [|discriminate].
  destruct (run_ota sum_digest accept_all (Offer sample_manifest 7) t0 sample_device)
    as [[r1 t1] d1] eqn:E1.
  destruct (run_ota sum_digest accept_all (Write 0 [1; 2; 3] false 8) t1 d1) as [[r2 t2] d2] eqn:E2.
  destruct (run_ota sum_digest accept_all (Write 3 [4] true 9) t2 d2) as [[r3 t3] d3] eqn:E3.
  assert (boot d3 = Some [1; 2; 3; 4]) as Hb.
  { clear - E0 E1 E2 E3. vm_compute in E0. injection E0 as <-. vm_compute in E1.
    injection E1 as <- <- <-. vm_compute in E2. injection E2 as <- <- <-.
    vm_compute in E3. injection E3 as <- <- <-. reflexivity. }
  assert (ota_reachable sum_digest accept_all sample_ota_options t3 d3) as Hr.
  { eapply ota_stepped; [| |exact E3]; [|exact I]. eapply ota_stepped; [| |exact E2]; [|exact I].
    eapply ota_stepped; [| |exact E1]; [|exact sample_manifest_ok]. by apply ota_created. }
  exists t3, d3. split; [exact Hr|]. split; [exact Hb|].
  exact (proj2 (proj2 (proj2 (proj2 (proj2 (proj2 (proj2
    (ota_boots_only_verified_images sum_digest accept_all sample_ota_options t3 d3 [1; 2; 3; 4]
      sum_digest_ok Hr Hb)))))))).
Defined.

(** Once an offer was accepted and no adapter fails, sending the image in
    non-empty chunks of at most 3072 bytes, in order and in time, is accepted
    chunk by chunk and ends ready to reboot into exactly that image. *)
Theorem ota_transfer_completes sha256 signed o t m now_ms d t1 d1 chunks
    (Hcreate : deck_ota_transaction_create o true = Some t) (Hm : manifest_ok m)
    (Hi : is_u64 (inactivity_timeout_ms o)) (Hd : is_u64 (maximum_duration_ms o))
    (Hplan : plan d = [])
    (Hoffer : run_ota sha256 signed (Offer m now_ms) t d = ((DECK_OTA_OK, t1), d1))
    (Hchunks : Forall chunk_ok chunks)
    (Hlen : Z.of_nat (length (concat chunks)) = image_length m)
    (Hpos : 0 < image_length m) (Hhash : sha256 (concat chunks) = image_sha256 m)
    (Hsha : digest (sha256 (concat chunks))) :
  exists t2 d2, send sha256 signed chunks 0 now_ms t1 d1
      = ((replicate (length chunks) DECK_OTA_OK, t2), d2)
    /\ state (snapshot t2) = DECK_OTA_READY_TO_REBOOT /\ boot d2 = Some (concat chunks).
Proof.
  destruct (offer_sending sha256 signed o t m now_ms d t1 d1 Hcreate Hm Hi Hd Hplan Hoffer)
    as (Hs & Hman & Hsl).
  apply (send_ok sha256 signed chunks t1 d1 now_ms []); try done.
  - intros ->. simpl in Hlen. lia.
  - by rewrite Hsl.
  - rewrite Hman. apply digest_equal_spec; [done|apply Hm|done].
Qed.

Lemma ota_transfer_completes_witness :
  exists t t1 d1, deck_ota_transaction_create sample_ota_options true = Some t
    /\ run_ota sum_digest accept_all (Offer sample_manifest 7) t sample_device = ((DECK_OTA_OK, t1), d1)
    /\ exists t2 d2, send sum_digest accept_all sample_image 0 7 t1 d1
         = (([DECK_OTA_OK; DECK_OTA_OK], t2), d2)
       /\ state (snapshot t2) = DECK_OTA_READY_TO_REBOOT /\ boot d2 = Some [1; 2; 3; 4].
Proof.
  destruct (deck_ota_transaction_create sample_ota_options true) as [t|] eqn:E0; [|discriminate].
  destruct (run_ota sum_digest accept_all (Offer sample_manifest 7) t sample_device)
    as [[r1 t1] d1] eqn:E1.
  assert (r1 = DECK_OTA_OK) as ->.
  { clear - E0 E1. vm_compute in E0. injection E0 as <-. vm_compute in E1.
    injection E1 as <- <- <-. reflexivity. }
  exists t, t1, d1. split; [reflexivity|]. split; [exact E1|].
  refine (ota_transfer_completes sum_digest accept_all sample_ota_options t sample_manifest 7
    sample_device t1 d1 sample_image E0 sample_manifest_ok _ _ eq_refl E1 _ eq_refl _ eq_refl
    (sum_digest_ok _)); [by split|by split| |reflexivity].
  repeat constructor; simpl; unfold DECK_OTA_MAX_CHUNK_BYTES; lia.
Defined.

(** The order an update is checked against is strict: no version is newer
    than itself, and newer is transitive, so no chain of accepted updates
    returns to an earlier version (in particular no downgrade is accepted
    after an update). *)
Theorem strictly_newer_is_strict_order a b c :
  strictly_newer a a = false
  /\ (strictly_newer a b = true -> strictly_newer b c = true -> strictly_newer a c = true)
  /\ (strictly_newer a b = true -> strictly_newer b a = false).
Proof.
  unfold strictly_newer.
  destruct (parse_semantic_core a) as [x|], (parse_semantic_core b) as [y|],
    (parse_semantic_core c) as [z|]; split_and!; try done;
    rewrite <- ?not_true_iff_false, ?core_newer_spec; lia.
Qed.

(** The parser accepts a version exactly when it is a safe string of
    three decimal parts without leading zeros that fit 32 bits, separated by
    dots and followed by nothing or by a '-' or '+' suffix, and returns their
    values. *)
Theorem parse_semantic_core_spec value major minor patch :
  parse_semantic_core value = Some (major, minor, patch) <->
  safe_version value = true /\ exists d0 d1 d2 suffix,
    c_string value = core_text d0 d1 d2 suffix
    /\ part d0 /\ part d1 /\ part d2 /\ suffix_ok suffix
    /\ major = decimal 0 d0 /\ minor = decimal 0 d1 /\ patch = decimal 0 d2
    /\ major <= U32_MAX /\ minor <= U32_MAX /\ patch <= U32_MAX.
Proof. apply parse_core_spec. Qed.
