(* ===== verification/CompanionFailover.v ===== *)
(** * Companion failover

    [components/companion_link/deck_companion_failover.cpp]: which paired
    Companion the deck connects to.  After 30 s without its active Companion
    it tries every other profile once, best first, and then returns to the
    active one.

    A profile-id array is represented by the string it holds; the bytes after
    the terminator are never read. *)

From Stdlib Require Import Sorted.
From S2P Require Import Prelude CString.

Definition DECK_COMPANION_MAX_PROFILES : nat := 5.
Definition DECK_COMPANION_PROFILE_ID_CAPACITY : nat := 72.
Definition kOfflineWindowMs : Z := 30000.

(** The fields of the profiles snapshot the policy reads. *)
Record profile_view := {
  profile_id : bytes;
  priority : Z;
  last_success_unix_ms : Z;
}.

Record profiles_snapshot := {
  p_generation : Z;
  has_active : bool;
  active_profile_id : bytes;
  profiles : list profile_view;
}.

Inductive deck_companion_failover_event_t :=
  | DECK_COMPANION_FAILOVER_PROFILES_OBSERVED
  | DECK_COMPANION_FAILOVER_TRANSPORT_FAILED
  | DECK_COMPANION_FAILOVER_ONLINE
  | DECK_COMPANION_FAILOVER_TICK.

#[export] Instance failover_event_eq_dec : EqDecision deck_companion_failover_event_t.
Proof. solve_decision. Defined.

(** [NONE], or [CONNECT] with its profile generation and id. *)
Inductive deck_companion_failover_action_t :=
  | DECK_COMPANION_FAILOVER_NONE
  | DECK_COMPANION_FAILOVER_CONNECT (profile_generation : Z) (profile_id : bytes).

Record deck_companion_failover_t := {
  initialized : bool;
  online : bool;
  offline : bool;
  round_active : bool;
  attempted_mask : Z;
  profile_generation : Z;
  offline_since_ms : Z;
  stored_active_profile_id : bytes;
  target_profile_id : bytes;
}.
#[export] Instance failover_rebuild : Rebuild deck_companion_failover_t := fun f =>
  Build_deck_companion_failover_t (initialized f) (online f) (offline f) (round_active f)
    (attempted_mask f) (profile_generation f) (offline_since_ms f)
    (stored_active_profile_id f) (target_profile_id f).

Implicit Types (f : deck_companion_failover_t) (p : profiles_snapshot)
  (act : deck_companion_failover_action_t).

Definition copy_id (input : bytes) : option bytes :=
  if (DECK_COMPANION_PROFILE_ID_CAPACITY <=? strlen input)%nat then None
  else Some (c_string input).

Definition connect_to f p (id : bytes) act :
    bool * deck_companion_failover_t * deck_companion_failover_action_t :=
  match copy_id id with
  | None => (false, f, act)
  | Some id => (true, f <| target_profile_id := id |> <| online := false |>,
                DECK_COMPANION_FAILOVER_CONNECT (p_generation p) id)
  end.

Definition profile_index p (id : bytes) : option nat :=
  fst <$> list_find (fun v => c_string (profile_id v) = c_string id) (profiles p).

(** [(mask & (1U << index)) != 0] *)
Definition attempted f (index : nat) : bool :=
  negb (Z.land (attempted_mask f) (Z.shiftl 1 (Z.of_nat index)) =? 0).

(** [candidate] beats [best]: priority, then the later success. *)
Definition beats (candidate best : profile_view) : bool :=
  (priority best <? priority candidate)
  || ((priority candidate =? priority best)
      && (last_success_unix_ms best <? last_success_unix_ms candidate)).

Fixpoint best_loop f (index : nat) (rest : list profile_view) (best : option (nat * profile_view)) :
    option (nat * profile_view) :=
  match rest with
  | [] => best
  | v :: rest =>
      best_loop f (S index) rest
        (if attempted f index || strcmp_eq (profile_id v) (stored_active_profile_id f) then best
         else match best with
              | None => Some (index, v)
              | Some (_, b) => if beats v b then Some (index, v) else best
              end)
  end.

Definition best_unattempted f p : option (nat * profile_view) := best_loop f 0 (profiles p) None.

Definition mark_attempted f (index : nat) : deck_companion_failover_t :=
  f <| attempted_mask := u8 (Z.lor (attempted_mask f) (u8 (Z.shiftl 1 (Z.of_nat index)))) |>.

Definition advance_round f p (now_ms : Z) act :
    bool * deck_companion_failover_t * deck_companion_failover_action_t :=
  match best_unattempted f p with
  | Some (next, v) => connect_to (mark_attempted f next) p (profile_id v) act
  | None =>
      let returning_from_candidate :=
        negb (strcmp_eq (target_profile_id f) (stored_active_profile_id f)) in
      let f := f <| round_active := false |> <| attempted_mask := 0 |>
                 <| offline_since_ms := now_ms |> in
      if negb returning_from_candidate then (true, f, act)
      else connect_to f p (stored_active_profile_id f) act
  end.

Definition profiles_changed f p (now_ms : Z) (event : deck_companion_failover_event_t) act :
    bool * deck_companion_failover_t * deck_companion_failover_action_t :=
  let accepted_target_became_active :=
    bool_decide (event = DECK_COMPANION_FAILOVER_ONLINE) && has_active p
    && negb ((target_profile_id f).[0] =? 0)
    && strcmp_eq (target_profile_id f) (active_profile_id p) in
  let f := {|
    initialized := true; online := accepted_target_became_active;
    offline := has_active p && negb accepted_target_became_active;
    round_active := false; attempted_mask := 0; profile_generation := p_generation p;
    offline_since_ms := now_ms; stored_active_profile_id := []; target_profile_id := [] |} in
  if negb (has_active p) || (length (profiles p) =? 0)%nat then (true, f, act)
  else
    match copy_id (active_profile_id p) with
    | None => (false, f, act)
    | Some id =>
        let f := f <| stored_active_profile_id := id |> in
        if accepted_target_became_active then (true, f <| target_profile_id := id |>, act)
        else connect_to f p (active_profile_id p) act
    end.

(** [None]: the call is refused before it touches anything. *)
Definition deck_companion_failover_advance f p (now_ms : Z)
    (event : deck_companion_failover_event_t) :
    option (bool * deck_companion_failover_t * deck_companion_failover_action_t) :=
  if (DECK_COMPANION_MAX_PROFILES <? length (profiles p))%nat then None
  else
    let act := DECK_COMPANION_FAILOVER_NONE in
    Some
      (if negb (initialized f) || negb (profile_generation f =? p_generation p)
       then profiles_changed f p now_ms event act
       else if bool_decide (event = DECK_COMPANION_FAILOVER_ONLINE)
       then (true, f <| online := true |> <| offline := false |> <| round_active := false |>
                     <| attempted_mask := 0 |>, act)
       else if bool_decide (event = DECK_COMPANION_FAILOVER_TRANSPORT_FAILED) then
         let f := f <| online := false |> in
         let f := if negb (offline f)
                  then f <| offline := true |> <| offline_since_ms := now_ms |> else f in
         if round_active f then advance_round f p now_ms act else (true, f, act)
       else if negb (bool_decide (event = DECK_COMPANION_FAILOVER_TICK)) || negb (offline f)
               || round_active f || (now_ms <? offline_since_ms f)
               || (now_ms - offline_since_ms f <? kOfflineWindowMs)
       then (true, f, act)
       else
         let f := match profile_index p (stored_active_profile_id f) with
                  | Some active => mark_attempted f active
                  | None => f
                  end in
         advance_round (f <| round_active := true |>) p now_ms act).

(** ** Selection *)

Definition candidate f (index : nat) (v : profile_view) : Prop :=
  attempted f index = false
  /\ c_string (profile_id v) <> c_string (stored_active_profile_id f).

Lemma candidate_guard f index v :
  attempted f index || strcmp_eq (profile_id v) (stored_active_profile_id f) = false
  <-> candidate f index v.
Proof.
  unfold candidate, strcmp_eq. rewrite orb_false_iff, bool_decide_eq_false. done.
Qed.

(** A best profile so far: first among the best of the candidates seen. *)
Definition best_of f (seen : list profile_view) (best : option (nat * profile_view)) : Prop :=
  match best with
  | None => forall k v, seen !! k = Some v -> ~ candidate f k v
  | Some (i, b) =>
      seen !! i = Some b /\ candidate f i b
      /\ forall k v, seen !! k = Some v -> candidate f k v ->
           beats v b = false /\ ((k < i)%nat -> beats b v = true)
  end.

Lemma beats_trans a b c : beats a b = true -> beats b c = true -> beats a c = true.
Proof. unfold beats. intros. bool_cases; rewrite ?orb_true_iff, ?andb_true_iff, ?Z.ltb_lt, ?Z.eqb_eq; lia. Qed.

Lemma beats_asym a b : beats a b = true -> beats b a = false.
Proof.
  unfold beats. intros. bool_cases; apply orb_false_iff; rewrite andb_false_iff, !Z.ltb_ge, Z.eqb_neq; lia.
Qed.

Lemma beats_weak a b c : beats a b = true -> beats c b = false -> beats a c = true.
Proof.
  unfold beats. intros. rewrite orb_true_iff, andb_true_iff, !Z.ltb_lt, Z.eqb_eq.
  bool_cases; lia.
Qed.

Lemma lookup_snoc_inv {A} (l : list A) x k v :
  (l ++ [x]) !! k = Some v -> (l !! k = Some v /\ (k < length l)%nat) \/ (k = length l /\ v = x).
Proof.
  intros Hk. destruct (decide (k < length l)%nat).
  - left. by rewrite lookup_app_l in Hk.
  - rewrite lookup_app_r in Hk by lia. right.
    destruct (k - length l)%nat eqn:E; [|done]. simpl in Hk. split; [lia|congruence].
Qed.

Lemma best_loop_spec f rest seen best :
  best_of f seen best -> best_of f (seen ++ rest) (best_loop f (length seen) rest best).
Proof.
  revert seen best. induction rest as [|v rest IH]; intros seen best Hb; simpl.
  { by rewrite app_nil_r. }
  replace (seen ++ v :: rest) with ((seen ++ [v]) ++ rest) by by rewrite <- app_assoc.
  replace (S (length seen)) with (length (seen ++ [v])) by (rewrite length_app; simpl; lia).
  apply IH. destruct (attempted f (length seen) || _) eqn:Hg.
  - assert (~ candidate f (length seen) v) as Hno by by rewrite <- candidate_guard, Hg.
    destruct best as [[i b]|]; simpl in *.
    + destruct Hb as (Hi & Hc & Hall). split_and!; [by apply lookup_app_l_Some|done|].
      intros k x [[Hk _]|[-> ->]]%lookup_snoc_inv Hx; [by apply Hall|done].
    + intros k x [[Hk _]|[-> ->]]%lookup_snoc_inv; [by apply Hb|done].
  - apply candidate_guard in Hg.
    assert ((seen ++ [v]) !! length seen = Some v) as Hlast by by apply list_lookup_middle.
    destruct best as [[i b]|]; simpl in *.
    + destruct Hb as (Hi & Hc & Hall). destruct (beats v b) eqn:Hv; simpl.
      * split_and!; try done.
        intros k x [[Hk Hlt]|[-> ->]]%lookup_snoc_inv Hx.
        -- destruct (Hall k x Hk Hx) as [Hno _]. split; [|intros _; by eapply beats_weak].
           apply beats_asym. by eapply beats_weak.
        -- split; [|lia]. unfold beats. rewrite Z.ltb_irrefl, Z.ltb_irrefl. by rewrite andb_false_r.
      * split_and!; [by apply lookup_app_l_Some|done|].
        intros k x [[Hk _]|[-> ->]]%lookup_snoc_inv Hx; [by apply Hall|].
        split; [done|]. apply lookup_lt_Some in Hi. lia.
    + split_and!; try done. intros k x [[Hk _]|[-> ->]]%lookup_snoc_inv Hx; [by destruct (Hb k x Hk)|].
      split; [|lia]. unfold beats. by rewrite !Z.ltb_irrefl, andb_false_r.
Qed.

Lemma best_unattempted_spec f p : best_of f (profiles p) (best_unattempted f p).
Proof. apply (best_loop_spec f (profiles p) [] None). intros k v Hk. done. Qed.

(** ** The mask of attempted profiles *)

Lemma land_bit m k : 0 <= k -> negb (Z.land m (Z.shiftl 1 k) =? 0) = Z.testbit m k.
Proof.
  intros Hk. destruct (Z.testbit m k) eqn:E.
  - apply negb_true_iff, Z.eqb_neq. intros H0.
    assert (Z.testbit (Z.land m (Z.shiftl 1 k)) k = true) as Ht.
    { rewrite Z.land_spec, Z.shiftl_1_l, Z.pow2_bits_true, E by done. done. }
    by rewrite H0, Z.bits_0 in Ht.
  - apply negb_false_iff, Z.eqb_eq, Z.bits_inj'. intros n Hn.
    rewrite Z.land_spec, Z.shiftl_1_l, Z.bits_0, Z.pow2_bits_eqb by done.
    destruct (Z.eqb_spec k n) as [->|]; [by rewrite E|apply andb_false_r].
Qed.

Lemma u8_testbit x k : 0 <= k < 8 -> Z.testbit (u8 x) k = Z.testbit x k.
Proof. intros. unfold u8. change 256 with (2 ^ 8). apply Z.mod_pow2_bits_low. lia. Qed.

Lemma attempted_mark f i k :
  (i < 8)%nat -> (k < 8)%nat ->
  attempted (mark_attempted f i) k = attempted f k || (i =? k)%nat.
Proof.
  intros. unfold attempted, mark_attempted. simpl. rewrite !land_bit by lia.
  rewrite u8_testbit, Z.lor_spec, u8_testbit, Z.shiftl_1_l, Z.pow2_bits_eqb by lia. f_equal.
  destruct (Nat.eqb_spec i k) as [->|]; [apply Z.eqb_refl|]. apply Z.eqb_neq. lia.
Qed.

(** ** Rounds *)

#[export] Instance candidate_dec f k v : Decision (candidate f k v).
Proof. unfold candidate. apply _. Defined.

(** The positions still to be tried. *)
Definition is_candidate f p (k : nat) : Prop :=
  match profiles p !! k with Some v => candidate f k v | None => False end.
#[export] Instance is_candidate_dec f p k : Decision (is_candidate f p k).
Proof. unfold is_candidate. case_match; apply _. Defined.

Definition candidates f p : list nat :=
  filter (is_candidate f p) (seq 0 (length (profiles p))).

(** [i] is tried before [j]: higher priority, then the later success, then the
    stable profile order. *)
Definition precedes p (i j : nat) : Prop :=
  match profiles p !! i, profiles p !! j with
  | Some vi, Some vj => beats vj vi = false /\ ((j < i)%nat -> beats vi vj = true)
  | _, _ => False
  end.

Definition ids_fit f p : Prop :=
  (length (profiles p) <= DECK_COMPANION_MAX_PROFILES)%nat
  /\ (strlen (stored_active_profile_id f) < DECK_COMPANION_PROFILE_ID_CAPACITY)%nat
  /\ Forall (fun v => strlen (profile_id v) < DECK_COMPANION_PROFILE_ID_CAPACITY)%nat (profiles p).

Definition id_at p (k : nat) : bytes :=
  match profiles p !! k with Some v => c_string (profile_id v) | None => [] end.

(** A sequence of events under one profile generation; the actions in order.
    [None] when a call reports failure. *)
Fixpoint run f p (events : list (Z * deck_companion_failover_event_t)) :
    option (deck_companion_failover_t * list deck_companion_failover_action_t) :=
  match events with
  | [] => Some (f, [])
  | (now, ev) :: events =>
      match deck_companion_failover_advance f p now ev with
      | Some (true, f, act) =>
          match run f p events with
          | Some (f, acts) => Some (f, act :: acts)
          | None => None
          end
      | _ => None
      end
  end.

Lemma elem_of_candidates f p k : k ∈ candidates f p <-> is_candidate f p k.
Proof.
  unfold candidates. rewrite list_elem_of_filter, elem_of_seq. split; [by intros []|].
  intros Hk. split; [done|]. unfold is_candidate in Hk. case_match eqn:E; [|done].
  apply lookup_lt_Some in E. lia.
Qed.

Lemma candidates_NoDup f p : NoDup (candidates f p).
Proof. apply NoDup_filter, NoDup_seq. Qed.

Lemma candidates_nil f p : best_unattempted f p = None <-> candidates f p = [].
Proof.
  pose proof (best_unattempted_spec f p) as Hb. split.
  - intros E. rewrite E in Hb. apply elem_of_nil_inv. intros k Hk%elem_of_candidates.
    unfold is_candidate in Hk. case_match eqn:Ek; [|done]. by apply (Hb k _ Ek).
  - intros E. destruct (best_unattempted f p) as [[i b]|]; [|done]. destruct Hb as (Hi & Hc & _).
    assert (i ∈ candidates f p) as Hin by (apply elem_of_candidates; unfold is_candidate; by rewrite Hi).
    rewrite E in Hin. by apply not_elem_of_nil in Hin.
Qed.

(** Trying the best candidate removes it, and nothing else. *)
Lemma candidates_step f p i v :
  (length (profiles p) <= 8)%nat -> best_unattempted f p = Some (i, v) ->
  exists l r, candidates f p = l ++ i :: r
    /\ candidates (mark_attempted f i) p = l ++ r
    /\ Forall (precedes p i) (l ++ r) /\ profiles p !! i = Some v /\ candidate f i v.
Proof.
  intros Hlen E. pose proof (best_unattempted_spec f p) as Hb. rewrite E in Hb.
  destruct Hb as (Hi & Hc & Hall).
  assert (i ∈ candidates f p) as Hin by (apply elem_of_candidates; unfold is_candidate; by rewrite Hi).
  destruct (list_elem_of_split _ _ Hin) as (l & r & Hlr). exists l, r.
  pose proof (candidates_NoDup f p) as Hnd. rewrite Hlr in Hnd.
  assert (i ∉ l ++ r) as Hni.
  { apply NoDup_app in Hnd as (_ & Hd & [Hr _]%NoDup_cons). rewrite elem_of_app.
    intros [Hl|]; [|done]. by apply (Hd i Hl), list_elem_of_here. }
  assert (forall k, is_candidate (mark_attempted f i) p k <-> is_candidate f p k /\ k <> i) as Hstep.
  { intros k. unfold is_candidate. case_match eqn:Ek; [|tauto].
    pose proof (lookup_lt_Some _ _ _ Hi). pose proof (lookup_lt_Some _ _ _ Ek).
    unfold candidate. rewrite attempted_mark, orb_false_iff, Nat.eqb_neq by lia. simpl.
    split; [intros [[? ?] ?]; split_and!; auto|intros [[? ?] ?]; split_and!; auto]. }
  split_and!; try done.
  - assert (candidates (mark_attempted f i) p = filter (fun k => k <> i) (candidates f p)) as ->.
    { unfold candidates. rewrite list_filter_filter. apply list_filter_iff. intros k.
      rewrite Hstep. tauto. }
    rewrite Hlr, filter_app, filter_cons_False by tauto.
    assert (forall s : list nat, i ∉ s -> filter (fun k => k <> i) s = s) as Hid.
    { clear. induction s as [|x s IH]; intros Hn; [done|]. rewrite not_elem_of_cons in Hn.
      destruct Hn. rewrite filter_cons_True by congruence. by rewrite IH. }
    rewrite elem_of_app in Hni. rewrite !Hid by tauto. done.
  - apply Forall_forall. intros k Hk. assert (k ∈ candidates f p) as Hkc.
    { rewrite Hlr. rewrite elem_of_app, elem_of_cons. rewrite elem_of_app in Hk. tauto. }
    apply elem_of_candidates in Hkc. unfold is_candidate, precedes in *. rewrite Hi.
    case_match eqn:Ek; [|done]. by apply (Hall k).
Qed.

Lemma copy_id_fits id :
  (strlen id < DECK_COMPANION_PROFILE_ID_CAPACITY)%nat -> copy_id id = Some (c_string id).
Proof. unfold copy_id. intros. by rewrite (proj2 (Nat.leb_gt _ _)). Qed.

Definition connect_action p (id : bytes) := DECK_COMPANION_FAILOVER_CONNECT (p_generation p) id.

(** The action that ends a round. *)
Definition return_action f p : deck_companion_failover_action_t :=
  if strcmp_eq (target_profile_id f) (stored_active_profile_id f) then DECK_COMPANION_FAILOVER_NONE
  else connect_action p (c_string (stored_active_profile_id f)).

Lemma advance_round_end f p now :
  ids_fit f p -> candidates f p = [] ->
  exists f', advance_round f p now DECK_COMPANION_FAILOVER_NONE = (true, f', return_action f p)
    /\ round_active f' = false
    /\ attempted_mask f' = 0
    /\ stored_active_profile_id f' = stored_active_profile_id f
    /\ c_string (target_profile_id f') = c_string (stored_active_profile_id f).
Proof.
  intros (_ & Hs & _) Hnil%candidates_nil. unfold advance_round, return_action, connect_to.
  rewrite Hnil. simpl. rewrite copy_id_fits by done. unfold strcmp_eq.
  case_bool_decide; simpl; eexists; (split; [reflexivity|]); split_and!; simpl; try done.
  apply c_string_idem.
Qed.

Lemma advance_round_next f p now i v :
  ids_fit f p -> best_unattempted f p = Some (i, v) -> profiles p !! i = Some v ->
  advance_round f p now DECK_COMPANION_FAILOVER_NONE =
    (true, (mark_attempted f i) <| target_profile_id := c_string (profile_id v) |>
                                <| online := false |>, connect_action p (id_at p i)).
Proof.
  intros (_ & _ & Hf) E Hi. unfold advance_round, connect_to. rewrite E.
  rewrite copy_id_fits by by eapply Forall_lookup_1 in Hf. unfold id_at. by rewrite Hi.
Qed.

Definition in_round f p : Prop :=
  initialized f = true /\ profile_generation f = p_generation p /\ round_active f = true.

(** What a failure inside a round hands to [advance_round]. *)
Lemma advance_failed f p now :
  ids_fit f p -> in_round f p ->
  exists g, deck_companion_failover_advance f p now DECK_COMPANION_FAILOVER_TRANSPORT_FAILED
              = Some (advance_round g p now DECK_COMPANION_FAILOVER_NONE)
    /\ in_round g p /\ attempted_mask g = attempted_mask f
    /\ stored_active_profile_id g = stored_active_profile_id f
    /\ target_profile_id g = target_profile_id f.
Proof.
  intros (Hlen & _) (Hi & Hg & Hr). unfold deck_companion_failover_advance, in_round.
  rewrite (proj2 (Nat.ltb_ge _ _)) by done. rewrite Hi, Hg, Z.eqb_refl. simpl.
  destruct (offline f) eqn:Ho; simpl; rewrite ?Ho; simpl; rewrite Hr; eexists;
    (split; [reflexivity|]); simpl; by rewrite ?Hi, ?Hg, ?Hr.
Qed.

Lemma candidates_ext f g p :
  attempted_mask g = attempted_mask f ->
  stored_active_profile_id g = stored_active_profile_id f -> candidates g p = candidates f p.
Proof.
  intros Hm Hs. unfold candidates. apply list_filter_iff. intros k. unfold is_candidate, candidate, attempted.
  by rewrite Hm, Hs.
Qed.

Definition failures (times : list Z) : list (Z * deck_companion_failover_event_t) :=
  map (fun t => (t, DECK_COMPANION_FAILOVER_TRANSPORT_FAILED)) times.

(** A round from its first [advance_round] to its end: [order] lists the
    candidates the way they are tried. *)
Lemma round_loop p times : forall f now,
  ids_fit f p -> in_round f p -> length times = length (candidates f p) ->
  exists order f0 act f' acts,
    Permutation order (candidates f p) /\ StronglySorted (precedes p) order
    /\ advance_round f p now DECK_COMPANION_FAILOVER_NONE = (true, f0, act)
    /\ run f0 p (failures times) = Some (f', acts)
    /\ act :: acts = map (fun k => connect_action p (id_at p k)) order
                     ++ [if decide (order = []) then return_action f p
                         else connect_action p (c_string (stored_active_profile_id f))]
    /\ round_active f' = false /\ attempted_mask f' = 0
    /\ stored_active_profile_id f' = stored_active_profile_id f
    /\ c_string (target_profile_id f') = c_string (stored_active_profile_id f).
Proof.
  induction times as [|t times IH]; intros f now Hfit Hin Hlen; simpl in Hlen.
  { symmetry in Hlen. apply nil_length_inv in Hlen.
    destruct (advance_round_end f p now Hfit Hlen) as (f' & E & Hr & Hm & Hs & Ht).
    exists [], f', (return_action f p), f', []. rewrite Hlen. split_and!; try done. constructor. }
  destruct (best_unattempted f p) as [[i v]|] eqn:Eb.
  2: { apply candidates_nil in Eb. by rewrite Eb in Hlen. }
  pose proof Hfit as (Hcount & Hstored & Hids).
  destruct (candidates_step f p i v) as (l & r & Hl & Hl' & Hprec & Hi & Hc);
    [unfold DECK_COMPANION_MAX_PROFILES in *; lia|done|].
  pose proof (advance_round_next f p now i v Hfit Eb Hi) as E.
  set (f0 := (mark_attempted f i) <| target_profile_id := c_string (profile_id v) |>
                                  <| online := false |>) in *.
  destruct (advance_failed f0 p t) as (g & Eg & Hing & Hmg & Hsg & Htg); [done|done|].
  assert (candidates g p = l ++ r) as Hcg by (rewrite <- Hl'; by apply candidates_ext).
  destruct (IH g t) as (order & f1 & act & f' & acts & Hperm & Hsort & Er & Erun & Hacts & Hr & Hm & Hs & Ht).
  { unfold ids_fit in *. rewrite Hsg. done. }
  { done. }
  { rewrite Hcg. rewrite Hl in Hlen. rewrite length_app in *. simpl in Hlen. lia. }
  exists (i :: order), f0, (connect_action p (id_at p i)), f', (act :: acts).
  rewrite Hcg in Hperm. split_and!; try done.
  - rewrite Hl, Hperm. by rewrite Permutation_middle.
  - constructor; [done|]. by rewrite Hperm.
  - simpl. rewrite Eg, Er, Erun. done.
  - rewrite Hacts. simpl. do 2 f_equal. rewrite Hsg. destruct (decide (order = [])); [|done].
    unfold return_action. rewrite Htg, Hsg. unfold strcmp_eq. simpl.
    rewrite c_string_idem. destruct Hc as [_ Hne]. by rewrite bool_decide_false.
  - by rewrite Hs, Hsg.
  - by rewrite Ht, Hsg.
Qed.

(** The positions of the profiles other than the active one. *)
Definition is_other f p (k : nat) : Prop :=
  match profiles p !! k with
  | Some v => c_string (profile_id v) <> c_string (stored_active_profile_id f)
  | None => False
  end.
#[export] Instance is_other_dec f p k : Decision (is_other f p k).
Proof. unfold is_other. case_match; apply _. Defined.
Definition others f p : list nat := filter (is_other f p) (seq 0 (length (profiles p))).

Lemma profile_index_spec p id i :
  profile_index p id = Some i -> exists v, profiles p !! i = Some v /\ c_string (profile_id v) = c_string id.
Proof.
  unfold profile_index. intros ([j v] & Hl & ->)%fmap_Some.
  apply list_find_Some in Hl as (Hl & Hv & _). by exists v.
Qed.

(** At the start of a round the candidates are all the other profiles. *)
Lemma candidates_start f p g :
  (length (profiles p) <= 8)%nat -> attempted_mask f = 0 ->
  stored_active_profile_id g = stored_active_profile_id f ->
  attempted_mask g = attempted_mask (match profile_index p (stored_active_profile_id f) with
                                     | Some active => mark_attempted f active
                                     | None => f end) ->
  candidates g p = others f p.
Proof.
  intros Hlen Hm Hs Hg. unfold candidates, others. apply list_filter_iff. intros k.
  unfold is_candidate, is_other, candidate. destruct (profiles p !! k) as [x|] eqn:Ek; [|done]. rewrite Hs.
  split; [by intros []|]. intros Hne. split; [|done].
  assert (attempted f k = false) as Hf by (unfold attempted; by rewrite Hm, Z.land_0_l).
  assert (attempted g k = attempted (match profile_index p (stored_active_profile_id f) with
            | Some active => mark_attempted f active | None => f end) k) as ->
    by (unfold attempted; by rewrite Hg).
  case_match eqn:Ea; [|done]. apply profile_index_spec in Ea as (v & Hv & Hid).
  apply lookup_lt_Some in Ek as Hk. apply lookup_lt_Some in Hv as Hlt.
  rewrite attempted_mark, Hf by lia. simpl. apply Nat.eqb_neq. intros ->. congruence.
Qed.

Definition known_id f p (id : bytes) : Prop :=
  id = c_string (stored_active_profile_id f) \/ exists k, (k < length (profiles p))%nat /\ id = id_at p k.

Lemma copy_id_Some input id : copy_id input = Some id -> id = c_string input.
Proof. unfold copy_id. case_match; [done|]. by intros [= <-]. Qed.

Lemma connect_to_connects f p input f' g id :
  connect_to f p input DECK_COMPANION_FAILOVER_NONE
    = (true, f', DECK_COMPANION_FAILOVER_CONNECT g id) ->
  g = p_generation p /\ id = c_string input /\ online f' = false /\ target_profile_id f' = id.
Proof.
  unfold connect_to. destruct (copy_id input) as [x|] eqn:E; [|done].
  apply copy_id_Some in E as ->. by intros [= <- <- <-].
Qed.

Lemma advance_round_connects f p now f' g id :
  advance_round f p now DECK_COMPANION_FAILOVER_NONE
    = (true, f', DECK_COMPANION_FAILOVER_CONNECT g id) ->
  g = p_generation p /\ known_id f p id /\ online f' = false /\ target_profile_id f' = id.
Proof.
  unfold advance_round, known_id. intros H. pose proof (best_unattempted_spec f p) as Hb.
  destruct (best_unattempted f p) as [[i v]|].
  - destruct Hb as (Hi & _). apply connect_to_connects in H as (-> & -> & ? & ?).
    split_and!; try done. right. exists i. unfold id_at. rewrite Hi.
    split; [by eapply lookup_lt_Some|done].
  - destruct (negb (negb _)); [done|]. apply connect_to_connects in H as (-> & -> & ? & ?).
    split_and!; auto.
Qed.

Lemma profiles_changed_connects f p now ev f' g id :
  profiles_changed f p now ev DECK_COMPANION_FAILOVER_NONE
    = (true, f', DECK_COMPANION_FAILOVER_CONNECT g id) ->
  g = p_generation p /\ has_active p = true /\ id = c_string (active_profile_id p)
  /\ online f' = false /\ target_profile_id f' = id.
Proof.
  unfold profiles_changed. intros H.
  destruct (negb (has_active p) || _) eqn:Ha; [done|]. bool_prop.
  destruct (copy_id (active_profile_id p)) as [x|]; [|done].
  destruct (bool_decide _ && _ && _ && _); [done|].
  apply connect_to_connects in H as (-> & -> & ? & ?). by split_and!.
Qed.

(** The policy is sticky.  A connection is asked for in three situations
    only: the profiles changed (towards their active one), a TICK after the
    active Companion was away for the whole offline window, or a transport
    failure inside a round; it always names the current profile generation and
    the active profile or a profile of the snapshot, which becomes the target. *)
Theorem failover_connects_only_when_due f p now ev f' g id :
  deck_companion_failover_advance f p now ev
    = Some (true, f', DECK_COMPANION_FAILOVER_CONNECT g id) ->
  g = p_generation p /\ online f' = false /\ target_profile_id f' = id
  /\ ((initialized f && (profile_generation f =? p_generation p) = false
       /\ has_active p = true /\ id = c_string (active_profile_id p))
      \/ (known_id f p id
          /\ ((ev = DECK_COMPANION_FAILOVER_TICK /\ offline f = true /\ round_active f = false
               /\ offline_since_ms f + kOfflineWindowMs <= now)
              \/ (ev = DECK_COMPANION_FAILOVER_TRANSPORT_FAILED /\ round_active f = true)))).
Proof.
  unfold deck_companion_failover_advance. intros H. case_match; [done|]. injection H as H.
  case_match eqn:Hchanged.
  { apply profiles_changed_connects in H as (-> & ? & -> & ? & ?). split_and!; try done. left.
    split_and!; try done. by destruct (initialized f), (profile_generation f =? p_generation p). }
  case_match; [done|]. case_match eqn:Hev.
  { bool_prop. subst. destruct f as [ini onl off rnd mask gen since stored target].
    simpl in *. destruct off, rnd; simpl in H; try done;
      apply advance_round_connects in H as (-> & Hk & ? & ?); split_and!; auto 6. }
  case_match eqn:Hdue; [done|]. apply advance_round_connects in H as (-> & Hk & ? & ?).
  bool_prop. subst. split_and!; try done. right. split.
  - unfold known_id in *. by destruct (profile_index _ _).
  - left. split_and!; try done. lia.
Qed.

(** Once the active Companion has been away for the offline window, the
    TICK that opens a round and one transport failure per other profile try
    every other profile exactly once, best first, then close the round and
    return to the active profile; the round takes at most as many failures as
    there are other profiles. *)
Theorem failover_round_tries_everyone_once f p now times :
  ids_fit f p ->
  initialized f = true -> profile_generation f = p_generation p ->
  offline f = true -> round_active f = false -> attempted_mask f = 0 ->
  offline_since_ms f + kOfflineWindowMs <= now ->
  length times = length (others f p) ->
  exists order f' acts,
    Permutation order (others f p) /\ StronglySorted (precedes p) order
    /\ run f p ((now, DECK_COMPANION_FAILOVER_TICK) :: failures times) = Some (f', acts)
    /\ acts = map (fun k => connect_action p (id_at p k)) order
              ++ [if decide (order = []) then return_action f p
                  else connect_action p (c_string (stored_active_profile_id f))]
    /\ round_active f' = false /\ attempted_mask f' = 0
    /\ c_string (target_profile_id f') = c_string (stored_active_profile_id f).
Proof.
  intros Hfit Hi Hg Ho Hr Hm Hnow Hlen. pose proof Hfit as (Hcount & _).
  unfold DECK_COMPANION_MAX_PROFILES, kOfflineWindowMs in *.
  set (marked := match profile_index p (stored_active_profile_id f) with
                 | Some active => mark_attempted f active | None => f end).
  set (g := marked <| round_active := true |>).
  assert (stored_active_profile_id g = stored_active_profile_id f) as Hsg
    by (subst g marked; by case_match).
  assert (target_profile_id g = target_profile_id f) as Htg by (subst g marked; by case_match).
  assert (candidates g p = others f p) as Hc.
  { apply candidates_start; [lia|done|done|]. subst g marked. by case_match. }
  destruct (round_loop p times g now) as
    (order & f0 & act & f' & acts & Hperm & Hsort & Er & Erun & Hacts & Hr' & Hm' & _ & Ht).
  { unfold ids_fit. by rewrite Hsg. }
  { unfold in_round. subst g marked. by case_match. }
  { by rewrite Hc. }
  exists order, f', (act :: acts). rewrite Hc in Hperm. split_and!; try done.
  - simpl. unfold deck_companion_failover_advance.
    rewrite (proj2 (Nat.ltb_ge _ _)) by (unfold DECK_COMPANION_MAX_PROFILES; lia).
    rewrite Hi, Hg, Z.eqb_refl, Ho, Hr. simpl.
    rewrite (proj2 (Z.ltb_ge _ _)), (proj2 (Z.ltb_ge _ _)) by (unfold kOfflineWindowMs; lia).
    fold marked. simpl. fold g. rewrite Er, Erun. done.
  - rewrite Hacts. unfold return_action. by rewrite Hsg, Htg.
  - by rewrite Ht, Hsg.
Qed.

(** ** Concrete runs *)

Module FailoverExample.
Definition profile (tag pri success : Z) : profile_view :=
  {| profile_id := [tag; 0]; priority := pri; last_success_unix_ms := success |}.
(** [B] is active; [C] and [D] share a priority, [D] worked last. *)
Definition snapshot : profiles_snapshot :=
  {| p_generation := 7; has_active := true; active_profile_id := [66; 0];
     profiles := [profile 65 1 50; profile 66 9 90; profile 67 4 10; profile 68 4 20] |}.
Definition offline_f : deck_companion_failover_t :=
  {| initialized := true; online := false; offline := true; round_active := false;
     attempted_mask := 0; profile_generation := 7; offline_since_ms := 1000;
     stored_active_profile_id := [66]; target_profile_id := [66] |}.
End FailoverExample.

Lemma failover_connects_only_when_due_witness :
  exists f' g id, deck_companion_failover_advance FailoverExample.offline_f FailoverExample.snapshot
      31000 DECK_COMPANION_FAILOVER_TICK = Some (true, f', DECK_COMPANION_FAILOVER_CONNECT g id)
    /\ id = [68] /\ g = 7.
Proof.
  destruct (deck_companion_failover_advance FailoverExample.offline_f FailoverExample.snapshot
    31000 DECK_COMPANION_FAILOVER_TICK) as [[[ok f'] act]|] eqn:E; [|by vm_compute in E].
  pose proof E as E0. vm_compute in E0. injection E0 as <- <- <-.
  destruct (failover_connects_only_when_due _ _ _ _ _ _ _ E) as (Hg & _ & _ & _).
  eexists _, _, _. split; [reflexivity|]. split; [reflexivity|]. exact Hg.
Defined.

Lemma failover_round_tries_everyone_once_witness :
  length (others FailoverExample.offline_f FailoverExample.snapshot) = 3%nat
  /\ exists order f' acts,
    Permutation order [0; 2; 3]%nat
    /\ run FailoverExample.offline_f FailoverExample.snapshot
         ((31000, DECK_COMPANION_FAILOVER_TICK) :: failures [31100; 31200; 31300])
       = Some (f', acts)
    /\ round_active f' = false /\ length acts = 4%nat.
Proof.
  split; [reflexivity|].
  destruct (failover_round_tries_everyone_once FailoverExample.offline_f FailoverExample.snapshot
    31000 [31100; 31200; 31300]) as (order & f' & acts & Hp & _ & Hrun & Hacts & Hr & _).
  1: { unfold ids_fit. split_and!; [vm_compute; lia|vm_compute; lia|]. repeat constructor; vm_compute; lia. }
  1-5: reflexivity.
  1: { vm_compute. discriminate. }
  1: reflexivity.
  exists order, f', acts. split_and!; [exact Hp|exact Hrun|exact Hr|].
  rewrite Hacts, length_app, length_map, (Permutation_length Hp). reflexivity.
Defined.
