(* ===== verification/SerialFrame.v ===== *)
(** * Serial frame

    [components/companion_link/deck_serial_frame.cpp]: the binary frame that
    carries serial bytes over the Companion socket (32-byte big-endian header,
    1..256 payload bytes) and the order filter on received frames.

    A [const uint8_t *] with its size is the list of its bytes; the view's
    payload pointer is the list it points at, cut to [payload_size]. *)

From Stdlib Require Import Sorted.
From S2P Require Import Prelude Codec.

Definition DECK_SERIAL_FRAME_HEADER_BYTES : nat := 32.
Definition DECK_SERIAL_FRAME_MAX_PAYLOAD_BYTES : nat := 256.

(** [{'S', 'R', 'D', '1'}] *)
Definition kMagic : bytes := [83; 82; 68; 49].

Definition DECK_SERIAL_FRAME_TARGET_RX : Z := 1.
Definition DECK_SERIAL_FRAME_WEB_TX : Z := 2.

Record deck_serial_frame_view_t := {
  channel : Z;
  session_id : Z;
  sequence : Z;
  monotonic_ms : Z;
  payload : bytes;
}.

Record deck_serial_frame_order_t := {
  order_session_id : Z;
  order_sequence : Z;
  order_monotonic_ms : Z;
  has_value : bool;
}.

Implicit Types (frame : deck_serial_frame_view_t) (order : deck_serial_frame_order_t).

Definition valid_channel (channel : Z) : bool :=
  (channel =? DECK_SERIAL_FRAME_TARGET_RX) || (channel =? DECK_SERIAL_FRAME_WEB_TX).

Definition sequence_after (candidate previous : Z) : bool :=
  let difference := u64 (candidate - previous) in
  negb (difference =? 0) && (difference <? Z.shiftl 1 63).

(** The bytes written at [output], and the returned size; a refused call
    returns 0 and writes nothing. *)
Definition deck_serial_frame_encode (channel session_id sequence monotonic_ms : Z)
    (payload output : bytes) (output_capacity : nat) : nat * bytes :=
  if negb (valid_channel (u8 channel)) || (session_id =? 0) || (sequence =? 0)
     || (length payload =? 0)%nat
     || (DECK_SERIAL_FRAME_MAX_PAYLOAD_BYTES <? length payload)%nat
     || (output_capacity <? DECK_SERIAL_FRAME_HEADER_BYTES + length payload)%nat
  then (0%nat, output)
  else
    let size := (DECK_SERIAL_FRAME_HEADER_BYTES + length payload)%nat in
    (size,
     kMagic ++ [u8 channel; 0] ++ BE.write_u16 (u16 (Z.of_nat (length payload)))
       ++ BE.write_u64 session_id ++ BE.write_u64 sequence ++ BE.write_u64 monotonic_ms
       ++ payload ++ drop size output).

Definition deck_serial_frame_decode (document : bytes) : option deck_serial_frame_view_t :=
  if (length document <? DECK_SERIAL_FRAME_HEADER_BYTES)%nat
     || negb (bool_decide (take 4 document = kMagic))
     || negb (valid_channel document.[4]) || negb (document.[5] =? 0)
  then None
  else
    let payload_size := BE.read_u16 (drop 6 document) in
    let session_id := BE.read_u64 (drop 8 document) in
    let sequence := BE.read_u64 (drop 16 document) in
    if (payload_size =? 0) || (Z.of_nat DECK_SERIAL_FRAME_MAX_PAYLOAD_BYTES <? payload_size)
       || negb (Z.of_nat (length document) =? Z.of_nat DECK_SERIAL_FRAME_HEADER_BYTES + payload_size)
       || (session_id =? 0) || (sequence =? 0)
    then None
    else Some {|
      channel := document.[4];
      session_id := session_id;
      sequence := sequence;
      monotonic_ms := BE.read_u64 (drop 24 document);
      payload := slice DECK_SERIAL_FRAME_HEADER_BYTES (Z.to_nat payload_size) document;
    |}.

Definition deck_serial_frame_order_reset : deck_serial_frame_order_t :=
  {| order_session_id := 0; order_sequence := 0; order_monotonic_ms := 0; has_value := false |}.

Definition deck_serial_frame_order_accepts order frame : bool :=
  if (session_id frame =? 0) || (sequence frame =? 0) then false
  else
    negb (has_value order) || negb (order_session_id order =? session_id frame)
    || (sequence_after (sequence frame) (order_sequence order)
        && (order_monotonic_ms order <=? monotonic_ms frame)).

Definition deck_serial_frame_order_commit order frame : deck_serial_frame_order_t :=
  {| order_session_id := session_id frame; order_sequence := sequence frame;
     order_monotonic_ms := monotonic_ms frame; has_value := true |}.

(** ** The wire format *)

Definition header_of (channel session_id sequence monotonic_ms : Z) (size : nat) : bytes :=
  kMagic ++ [u8 channel; 0] ++ BE.write_u16 (u16 (Z.of_nat size))
    ++ BE.write_u64 session_id ++ BE.write_u64 sequence ++ BE.write_u64 monotonic_ms.

Lemma valid_channel_u8 c : valid_channel c = true -> u8 c = c.
Proof.
  unfold valid_channel. rewrite orb_true_iff, !Z.eqb_eq.
  by intros [-> | ->].
Qed.

(** The frames the encoder produces. *)
Definition wf_frame frame : Prop :=
  valid_channel (channel frame) = true
  /\ (is_u64 (session_id frame) /\ session_id frame <> 0)
  /\ (is_u64 (sequence frame) /\ sequence frame <> 0)
  /\ is_u64 (monotonic_ms frame)
  /\ (1 <= length (payload frame) <= DECK_SERIAL_FRAME_MAX_PAYLOAD_BYTES)%nat.

Definition encode_frame frame (output : bytes) (capacity : nat) : nat * bytes :=
  deck_serial_frame_encode (channel frame) (session_id frame) (sequence frame)
    (monotonic_ms frame) (payload frame) output capacity.

Lemma length_write_u64 x : length (BE.write_u64 x) = 8%nat.
Proof. reflexivity. Qed.

Lemma encode_frame_fits frame output capacity :
  wf_frame frame -> (DECK_SERIAL_FRAME_HEADER_BYTES + length (payload frame) <= capacity)%nat ->
  encode_frame frame output capacity
    = ((DECK_SERIAL_FRAME_HEADER_BYTES + length (payload frame))%nat,
       header_of (channel frame) (session_id frame) (sequence frame) (monotonic_ms frame)
         (length (payload frame)) ++ payload frame
         ++ drop (DECK_SERIAL_FRAME_HEADER_BYTES + length (payload frame)) output).
Proof.
  intros (Hc & [_ Hs] & [_ Hq] & _ & Hp) Hcap. unfold encode_frame, deck_serial_frame_encode.
  rewrite valid_channel_u8, Hc by done. simpl negb.
  rewrite (proj2 (Z.eqb_neq _ _) Hs), (proj2 (Z.eqb_neq _ _) Hq).
  rewrite (proj2 (Nat.eqb_neq _ _)), !(proj2 (Nat.ltb_ge _ _)) by lia. simpl orb. cbv iota.
  unfold header_of. rewrite <- !app_assoc. by rewrite valid_channel_u8.
Qed.

Lemma decode_header frame :
  wf_frame frame ->
  deck_serial_frame_decode
    (header_of (channel frame) (session_id frame) (sequence frame) (monotonic_ms frame)
       (length (payload frame)) ++ payload frame) = Some frame.
Proof.
  intros (Hc & [Hs Hs0] & [Hq Hq0] & Hm & Hp).
  unfold DECK_SERIAL_FRAME_MAX_PAYLOAD_BYTES in Hp.
  set (n := length (payload frame)) in *.
  unfold deck_serial_frame_decode, header_of. rewrite <- !app_assoc.
  set (doc := kMagic ++ _).
  assert (length doc = 32 + n)%nat as Hlen by (unfold doc; rewrite !length_app; simpl; lia).
  assert (drop 6 doc = BE.write_u16 (u16 (Z.of_nat n)) ++ BE.write_u64 (session_id frame)
    ++ BE.write_u64 (sequence frame) ++ BE.write_u64 (monotonic_ms frame) ++ payload frame)
    as E6 by reflexivity.
  assert (drop 8 doc = BE.write_u64 (session_id frame)
    ++ BE.write_u64 (sequence frame) ++ BE.write_u64 (monotonic_ms frame) ++ payload frame)
    as E8 by reflexivity.
  assert (drop 16 doc = BE.write_u64 (sequence frame) ++ BE.write_u64 (monotonic_ms frame)
    ++ payload frame) as E16 by reflexivity.
  assert (drop 24 doc = BE.write_u64 (monotonic_ms frame) ++ payload frame) as E24 by reflexivity.
  assert (slice 32 n doc = payload frame) as E32.
  { unfold slice. change (drop 32 doc) with (payload frame). apply take_ge. lia. }
  assert (doc.[4] = channel frame) as E4.
  { change (doc.[4]) with (u8 (channel frame)). by apply valid_channel_u8. }
  assert (doc.[5] = 0) as E5 by reflexivity.
  assert (take 4 doc = kMagic) as Emagic by reflexivity.
  clearbody doc. rewrite Hlen, E6, E8, E16, E24, E4, E5, Emagic.
  rewrite BEFacts.be_read_write_u16 by auto with deck. rewrite !BEFacts.be_read_write_u64 by done.
  rewrite (u16_id (Z.of_nat n)) by words. rewrite Hc, bool_decide_true by done.
  unfold DECK_SERIAL_FRAME_HEADER_BYTES, DECK_SERIAL_FRAME_MAX_PAYLOAD_BYTES.
  rewrite (proj2 (Nat.ltb_ge _ _)), (proj2 (Z.eqb_neq (Z.of_nat n) 0)), (proj2 (Z.ltb_ge _ _)) by lia.
  rewrite (proj2 (Z.eqb_eq (Z.of_nat (32 + n)) _)) by lia.
  rewrite (proj2 (Z.eqb_neq _ _) Hs0), (proj2 (Z.eqb_neq _ _) Hq0). simpl. rewrite Nat2Z.id, E32.
  by destruct frame.
Qed.

(** A decoded document is the encoding of the decoded frame. *)
Lemma decode_canonical document frame :
  is_bytes document -> deck_serial_frame_decode document = Some frame ->
  wf_frame frame
  /\ document = header_of (channel frame) (session_id frame) (sequence frame)
                 (monotonic_ms frame) (length (payload frame)) ++ payload frame.
Proof.
  intros Hb. unfold deck_serial_frame_decode.
  destruct (_ || _ || _ || _) eqn:Hg1; [done|]. destruct (_ || _ || _ || _ || _) eqn:Hg2; [done|].
  intros H. injection H as <-. bool_prop.
  unfold DECK_SERIAL_FRAME_HEADER_BYTES, DECK_SERIAL_FRAME_MAX_PAYLOAD_BYTES in *.
  set (n := BE.read_u16 (drop 6 document)) in *.
  assert (is_u16 n) as Hn by (subst n; unfold BE.read_u16; auto with deck).
  assert (length (slice 32 (Z.to_nat n) document) = Z.to_nat n) as Hlen by (rewrite length_slice; lia).
  assert (forall k, (k + 8 <= 32)%nat -> BE.write_u64 (BE.read_u64 (drop k document)) = slice k 8 document)
    as Hw by (intros k Hk; apply BEFacts.write_read_u64; [by apply Forall_drop|rewrite length_drop; lia]).
  assert (forall k, is_u64 (BE.read_u64 (drop k document))) as Hr
    by (intros k; apply BEFacts.read_u64_range; by apply Forall_drop).
  split.
  - unfold wf_frame. cbn [channel session_id sequence monotonic_ms payload]. rewrite Hlen.
    unfold DECK_SERIAL_FRAME_MAX_PAYLOAD_BYTES.
    split_and!; auto; words.
  - unfold header_of. cbn [channel session_id sequence monotonic_ms payload]. rewrite Hlen, !Hw by lia.
    rewrite Z2Nat.id by words. rewrite u16_id by done. subst n.
    rewrite BEFacts.write_read_u16 by (try apply Forall_drop; rewrite ?length_drop; done || lia).
    rewrite valid_channel_u8 by done.
    rewrite <- (take_drop 4 document) at 1. rewrite <- !app_assoc. f_equal; [done|].
    assert (drop 4 document = [document.[4]; document.[5]] ++ drop 6 document) as ->.
    { destruct document as [|? [|? [|? [|? [|? [|? document]]]]]]; simpl in *; try lia. done. }
    assert (document.[5] = 0) as -> by done. f_equal.
    rewrite <- (take_drop 2 (drop 6 document)) at 1. f_equal. rewrite drop_drop.
    change (6 + 2)%nat with 8%nat. unfold slice.
    rewrite <- (take_drop 8 (drop 8 document)) at 1. f_equal. rewrite drop_drop.
    rewrite <- (take_drop 8 (drop (8 + 8) document)) at 1. f_equal. rewrite drop_drop.
    rewrite <- (take_drop 8 (drop (8 + 8 + 8) document)) at 1. f_equal. rewrite drop_drop.
    simpl. symmetry. apply take_ge. rewrite length_drop. lia.
Qed.

(** Encoding and decoding are inverse.  Every frame the encoder accepts is
    decoded back from the bytes it wrote, and every document the decoder
    accepts is, byte for byte, what the encoder writes for the decoded frame:
    the wire format has one representation per frame. *)
Theorem frame_codec_is_bijective :
  (forall frame output capacity,
     wf_frame frame -> (DECK_SERIAL_FRAME_HEADER_BYTES + length (payload frame) <= capacity)%nat ->
     let '(size, written) := encode_frame frame output capacity in
     size = (DECK_SERIAL_FRAME_HEADER_BYTES + length (payload frame))%nat
     /\ drop size written = drop size output
     /\ deck_serial_frame_decode (take size written) = Some frame)
  /\ (forall document frame output capacity,
     is_bytes document -> deck_serial_frame_decode document = Some frame ->
     (length document <= capacity)%nat ->
     wf_frame frame
     /\ (encode_frame frame output capacity).1 = length document
     /\ take (length document) (encode_frame frame output capacity).2 = document).
Proof.
  assert (forall f, length (header_of (channel f) (session_id f) (sequence f) (monotonic_ms f)
    (length (payload f)) ++ payload f) = DECK_SERIAL_FRAME_HEADER_BYTES + length (payload f))%nat
    as Hsize by (intros f; by rewrite length_app).
  split.
  - intros frame output capacity Hwf Hcap. rewrite encode_frame_fits by done.
    rewrite app_assoc. split_and!; [done| |].
    + rewrite drop_app_length' by done. done.
    + rewrite take_app_length' by done. by apply decode_header.
  - intros document frame output capacity Hb Hd Hcap.
    destruct (decode_canonical document frame Hb Hd) as [Hwf Hdoc]. split; [done|].
    assert (length document = DECK_SERIAL_FRAME_HEADER_BYTES + length (payload frame))%nat
      as Hlen by (rewrite Hdoc at 1; apply Hsize).
    rewrite encode_frame_fits by (done || lia). cbn [fst snd]. split; [done|].
    rewrite app_assoc, <- Hdoc. by rewrite take_app_length.
Qed.

(** ** The order filter *)

(** The frames of a stream that the receiver accepts, in order, and the state
    after them. *)
Fixpoint accepted order (frames : list deck_serial_frame_view_t) :
    list deck_serial_frame_view_t * deck_serial_frame_order_t :=
  match frames with
  | [] => ([], order)
  | frame :: frames =>
      if deck_serial_frame_order_accepts order frame
      then let '(rest, order) := accepted (deck_serial_frame_order_commit order frame) frames in
           (frame :: rest, order)
      else accepted order frames
  end.

Lemma sequence_after_counter m n :
  Z.abs (m - n) < 2 ^ 63 -> sequence_after (u64 m) (u64 n) = true <-> n < m.
Proof.
  change (2 ^ 63) with 9223372036854775808. intros H. unfold sequence_after.
  change (Z.shiftl 1 63) with 9223372036854775808.
  rewrite andb_true_iff, negb_true_iff, Z.eqb_neq, Z.ltb_lt. words.
Qed.

(** A numbering of the frames of one session by an unbounded counter whose low
    64 bits are the wire sequence; the counters in flight span less than half
    of the sequence space. *)
Definition numbered (count : deck_serial_frame_view_t -> Z) (s : Z)
    (frames : list deck_serial_frame_view_t) : Prop :=
  Forall (fun frame => session_id frame = s /\ sequence frame = u64 (count frame)) frames
  /\ forall f g, f ∈ frames -> g ∈ frames -> Z.abs (count f - count g) < 2 ^ 63.

Definition later (count : deck_serial_frame_view_t -> Z) (f g : deck_serial_frame_view_t) : Prop :=
  count f < count g /\ monotonic_ms f <= monotonic_ms g.

Lemma accepted_sublist order frames : sublist (accepted order frames).1 frames.
Proof.
  revert order. induction frames as [|f frames IH]; intros order; simpl; [constructor|].
  case_match; [|by constructor]. specialize (IH (deck_serial_frame_order_commit order f)).
  destruct (accepted _ frames). simpl in *. by constructor.
Qed.

Lemma accepted_after count s order last frames :
  numbered count s (last :: frames) ->
  has_value order = true -> order_session_id order = s ->
  order_sequence order = sequence last -> order_monotonic_ms order = monotonic_ms last ->
  StronglySorted (later count) (last :: (accepted order frames).1).
Proof.
  revert order last. induction frames as [|f frames IH]; intros order last Hn Hv Hs Hq Hm.
  { simpl. repeat constructor. }
  destruct Hn as [Hall Hdist]. rewrite !Forall_cons in Hall.
  destruct Hall as ((Hls & Hlq) & (Hfs & Hfq) & Hall).
  simpl. destruct (deck_serial_frame_order_accepts order f) eqn:Ha.
  - assert (later count last f) as Hlast.
    { unfold deck_serial_frame_order_accepts in Ha. rewrite Hv, Hs, Hfs, Z.eqb_refl, Hq, Hm in Ha.
      case_match; [done|]. simpl in Ha. bool_prop. split; [|done].
      apply (sequence_after_counter (count f) (count last)); [|congruence].
      apply Hdist; rewrite !elem_of_cons; auto. }
    assert (StronglySorted (later count)
      (f :: (accepted (deck_serial_frame_order_commit order f) frames).1)) as Hsort.
    { apply IH; try done. split; [by constructor|].
      intros x y Hx Hy. apply Hdist; rewrite elem_of_cons; auto. }
    destruct (accepted _ frames) as [rest o]. simpl in *. constructor; [done|].
    constructor; [done|]. apply StronglySorted_inv in Hsort as [_ Hf].
    eapply Forall_impl; [exact Hf|]. intros x [H1 H2]. split; destruct Hlast; lia.
  - apply IH; try done. split; [by constructor|].
    intros x y Hx Hy. apply Hdist; rewrite !elem_of_cons in *; tauto.
Qed.

(** No replay and no reordering.  Of a session's frames, numbered by an
    unbounded counter that the wire carries modulo 2^64, the receiver accepts a
    subsequence along which the counter strictly increases and the time stamps
    never decrease, however the frames were repeated, delayed or reordered;
    the wrap-around of the sequence included. *)
Theorem accepted_frames_advance count s frames :
  numbered count s frames ->
  sublist (accepted deck_serial_frame_order_reset frames).1 frames
  /\ StronglySorted (later count) (accepted deck_serial_frame_order_reset frames).1.
Proof.
  intros Hn. split; [apply accepted_sublist|].
  induction frames as [|f frames IH]; [constructor|].
  pose proof Hn as [Hall Hdist]. apply Forall_cons in Hall as [[Hfs Hfq] Hall].
  simpl. case_match.
  - pose proof (accepted_after count s (deck_serial_frame_order_commit deck_serial_frame_order_reset f)
      f frames Hn eq_refl Hfs eq_refl eq_refl) as Hs.
    destruct (accepted (deck_serial_frame_order_commit _ f) frames). exact Hs.
  - apply IH. split; [done|]. intros x y Hx Hy. apply Hdist; rewrite elem_of_cons; auto.
Qed.

(** ** Concrete frames *)

Module FrameExample.
Definition frame (seq time : Z) : deck_serial_frame_view_t :=
  {| channel := 1; session_id := 77; sequence := seq; monotonic_ms := time; payload := [104; 105] |}.
(** A counter that wraps between its second and third value. *)
Definition count (f : deck_serial_frame_view_t) : Z :=
  if sequence f <? 100 then sequence f + 18446744073709551616 else sequence f.
Definition stream : list deck_serial_frame_view_t :=
  [frame (U64_MAX - 1) 10; frame U64_MAX 12; frame (U64_MAX - 1) 12; frame 3 15; frame U64_MAX 16;
   frame 3 17; frame 4 14; frame 5 20].
End FrameExample.

Lemma accepted_frames_advance_witness :
  numbered FrameExample.count 77 FrameExample.stream
  /\ (accepted deck_serial_frame_order_reset FrameExample.stream).1
     = [FrameExample.frame (U64_MAX - 1) 10; FrameExample.frame U64_MAX 12;
        FrameExample.frame 3 15; FrameExample.frame 5 20]
  /\ StronglySorted (later FrameExample.count)
       (accepted deck_serial_frame_order_reset FrameExample.stream).1.
Proof.
  assert (numbered FrameExample.count 77 FrameExample.stream) as Hn.
  { split.
    - repeat constructor.
    - intros f g Hf Hg. unfold FrameExample.stream in *.
      assert (forall x, x ∈ FrameExample.stream ->
        18446744073709551614 <= FrameExample.count x <= 18446744073709551621) as Hr.
      { intros x Hx. unfold FrameExample.stream in Hx. rewrite !elem_of_cons in Hx.
        destruct_or! Hx; [subst; vm_compute; split; discriminate..|by apply not_elem_of_nil in Hx]. }
      pose proof (Hr f Hf). pose proof (Hr g Hg). change (2 ^ 63) with 9223372036854775808. lia. }
  split; [exact Hn|]. split; [vm_compute; reflexivity|].
  exact (proj2 (accepted_frames_advance _ _ _ Hn)).
Defined.

Lemma frame_codec_is_bijective_witness :
  wf_frame (FrameExample.frame 5 20)
  /\ (let '(size, written) := encode_frame (FrameExample.frame 5 20) (replicate 64 0) 64 in
     size = 34%nat /\ deck_serial_frame_decode (take size written) = Some (FrameExample.frame 5 20)).
Proof.
  assert (wf_frame (FrameExample.frame 5 20)) as Hwf.
  { unfold wf_frame. split_and!; try done; simpl; unfold DECK_SERIAL_FRAME_MAX_PAYLOAD_BYTES; lia. }
  split; [exact Hwf|].
  pose proof (proj1 frame_codec_is_bijective (FrameExample.frame 5 20) (replicate 64 0) 64%nat Hwf
    ltac:(vm_compute; lia)) as H.
  destruct (encode_frame (FrameExample.frame 5 20) (replicate 64 0) 64) as [size written].
  destruct H as (Hsize & _ & Hd). split; [exact Hsize|exact Hd].
Defined.
