(* ===== verification/RequestTracker.v ===== *)
(** * Serial request tracker

    [components/companion_link/deck_serial_request_tracker.cpp]: the
    correlation of the Companion's request ids with the ids the serial service
    sees; one request is outstanding at a time. *)

From S2P Require Import Prelude.

Record deck_serial_request_tracker_t := {
  pending : bool;
  external_request_id : Z;
  service_request_id : Z;
  next_service_request_id : Z;
}.
#[export] Instance tracker_rebuild : Rebuild deck_serial_request_tracker_t := fun t =>
  Build_deck_serial_request_tracker_t (pending t) (external_request_id t)
    (service_request_id t) (next_service_request_id t).

Inductive deck_serial_request_begin_result_t :=
  | DECK_SERIAL_REQUEST_INVALID
  | DECK_SERIAL_REQUEST_NEW
  | DECK_SERIAL_REQUEST_REPLAY
  | DECK_SERIAL_REQUEST_BUSY.

Implicit Type tracker : deck_serial_request_tracker_t.

Definition allocate_service_request_id tracker : Z * deck_serial_request_tracker_t :=
  let tracker := if next_service_request_id tracker =? 0
                 then tracker <| next_service_request_id := 1 |> else tracker in
  let request_id := next_service_request_id tracker in
  let tracker := tracker <| next_service_request_id := u64 (next_service_request_id tracker + 1) |> in
  let tracker := if next_service_request_id tracker =? 0
                 then tracker <| next_service_request_id := 1 |> else tracker in
  (request_id, tracker).

(** The result, the id written through [service_request_id] (if any), and the
    tracker. *)
Definition deck_serial_request_begin tracker (external : Z) :
    deck_serial_request_begin_result_t * option Z * deck_serial_request_tracker_t :=
  if external =? 0 then (DECK_SERIAL_REQUEST_INVALID, None, tracker)
  else if pending tracker then
    if negb (external_request_id tracker =? external) then (DECK_SERIAL_REQUEST_BUSY, None, tracker)
    else (DECK_SERIAL_REQUEST_REPLAY, Some (service_request_id tracker), tracker)
  else
    let tracker := tracker <| external_request_id := external |> in
    let '(request_id, tracker) := allocate_service_request_id tracker in
    let tracker := tracker <| service_request_id := request_id |> <| pending := true |> in
    (DECK_SERIAL_REQUEST_NEW, Some (service_request_id tracker), tracker).

(** The external id the response belongs to, if any. *)
Definition deck_serial_request_complete tracker (service : Z) :
    option Z * deck_serial_request_tracker_t :=
  if negb (pending tracker) || (service =? 0) || negb (service =? service_request_id tracker)
  then (None, tracker)
  else (Some (external_request_id tracker),
        tracker <| pending := false |> <| external_request_id := 0 |> <| service_request_id := 0 |>).

Definition deck_serial_request_transport_reset tracker : deck_serial_request_tracker_t :=
  tracker <| pending := false |> <| external_request_id := 0 |> <| service_request_id := 0 |>.

(** ** Histories *)

Inductive event :=
  | EBegin (external : Z)
  | EComplete (service : Z)
  | EReset.

(** What the caller observes of an event. *)
Inductive observation :=
  | OBegin (result : deck_serial_request_begin_result_t) (service : option Z)
  | OComplete (external : option Z)
  | OReset.

Definition handle tracker (e : event) : observation * deck_serial_request_tracker_t :=
  match e with
  | EBegin external =>
      let '(result, service, tracker) := deck_serial_request_begin tracker external in
      (OBegin result service, tracker)
  | EComplete service =>
      let '(external, tracker) := deck_serial_request_complete tracker service in
      (OComplete external, tracker)
  | EReset => (OReset, deck_serial_request_transport_reset tracker)
  end.

Fixpoint observe tracker (events : list event) :
    list observation * deck_serial_request_tracker_t :=
  match events with
  | [] => ([], tracker)
  | e :: events =>
      let '(o, tracker) := handle tracker e in
      let '(os, tracker) := observe tracker events in
      (o :: os, tracker)
  end.

(** The zero-initialised tracker. *)
Definition initial : deck_serial_request_tracker_t :=
  {| pending := false; external_request_id := 0; service_request_id := 0;
     next_service_request_id := 0 |}.

(** ** Specification: a correlation table with at most one entry

    [issued] counts the ids handed out; the [k]-th is [service_id k], which
    runs through 1 .. 2^64 - 1 and never is zero. *)

Definition service_id (k : nat) : Z := 1 + Z.of_nat k mod U64_MAX.

Record spec := { outstanding : option (Z * nat); issued : nat }.

Definition spec_handle (s : spec) (e : event) : observation * spec :=
  match e with
  | EBegin external =>
      if external =? 0 then (OBegin DECK_SERIAL_REQUEST_INVALID None, s)
      else match outstanding s with
           | Some (owner, k) =>
               if owner =? external then (OBegin DECK_SERIAL_REQUEST_REPLAY (Some (service_id k)), s)
               else (OBegin DECK_SERIAL_REQUEST_BUSY None, s)
           | None => (OBegin DECK_SERIAL_REQUEST_NEW (Some (service_id (issued s))),
                      {| outstanding := Some (external, issued s); issued := S (issued s) |})
           end
  | EComplete service =>
      match outstanding s with
      | Some (owner, k) =>
          if service =? service_id k
          then (OComplete (Some owner), {| outstanding := None; issued := issued s |})
          else (OComplete None, s)
      | None => (OComplete None, s)
      end
  | EReset => (OReset, {| outstanding := None; issued := issued s |})
  end.

Fixpoint spec_observe (s : spec) (events : list event) : list observation :=
  match events with
  | [] => []
  | e :: events => let '(o, s) := spec_handle s e in o :: spec_observe s events
  end.

Lemma service_id_range k : 1 <= service_id k <= U64_MAX.
Proof. unfold service_id. pose proof (Z.mod_pos_bound (Z.of_nat k) U64_MAX). lia. Qed.

(** The counter before the [k]-th allocation. *)
Definition next_is tracker (k : nat) : Prop :=
  next_service_request_id tracker = service_id k
  \/ (k = 0%nat /\ next_service_request_id tracker = 0).

Lemma service_id_step k :
  (if u64 (service_id k + 1) =? 0 then 1 else u64 (service_id k + 1)) = service_id (S k).
Proof.
  unfold service_id. case_match; bool_prop; unfold u64 in *; Z.div_mod_to_equations; lia.
Qed.

Lemma allocate_spec tracker k :
  next_is tracker k ->
  (allocate_service_request_id tracker).1 = service_id k
  /\ next_service_request_id (allocate_service_request_id tracker).2 = service_id (S k)
  /\ external_request_id (allocate_service_request_id tracker).2 = external_request_id tracker.
Proof.
  intros Hn. unfold allocate_service_request_id.
  set (t := if next_service_request_id tracker =? 0 then _ else _).
  assert (next_service_request_id t = service_id k) as Ht.
  { subst t. destruct Hn as [Hn|[-> Hn]]; rewrite Hn; [|reflexivity].
    pose proof (service_id_range k). rewrite (proj2 (Z.eqb_neq _ _)) by lia. done. }
  assert (external_request_id t = external_request_id tracker) as He by (subst t; by case_match).
  simpl. rewrite Ht. pose proof (service_id_step k) as Hs.
  destruct (u64 (service_id k + 1) =? 0); simpl; auto.
Qed.

Definition refines tracker (s : spec) : Prop :=
  next_is tracker (issued s)
  /\ pending tracker = bool_decide (is_Some (outstanding s))
  /\ match outstanding s with
     | Some (owner, k) =>
         external_request_id tracker = owner /\ service_request_id tracker = service_id k
     | None => True
     end.

Lemma handle_refines tracker s e :
  refines tracker s ->
  (handle tracker e).1 = (spec_handle s e).1 /\ refines (handle tracker e).2 (spec_handle s e).2.
Proof.
  intros (Hn & Hp & Ho). destruct e as [external|service|]; simpl.
  - unfold deck_serial_request_begin. destruct (external =? 0); [by repeat split|].
    rewrite Hp. destruct (outstanding s) as [[owner k]|] eqn:E.
    + destruct Ho as [Hx Hk]. rewrite Hx. simpl.
      destruct (owner =? external); simpl; rewrite ?Hk; unfold refines; rewrite E; by repeat split.
    + destruct (allocate_spec (tracker <| external_request_id := external |>) (issued s)) as (H1 & H2 & H3);
        [exact Hn|].
      destruct (allocate_service_request_id _) as [id t]. simpl in *. subst id.
      repeat split; try done. by left.
  - unfold deck_serial_request_complete. rewrite Hp.
    destruct (outstanding s) as [[owner k]|] eqn:E; simpl; [|by unfold refines; rewrite E].
    destruct Ho as [He Hk]. pose proof (service_id_range k). rewrite Hk.
    destruct (Z.eqb_spec service (service_id k)) as [->|].
    + rewrite (proj2 (Z.eqb_neq _ _)) by lia. simpl. rewrite He. by repeat split.
    + rewrite orb_true_r. simpl. unfold refines. by rewrite E.
  - by repeat split.
Qed.

(** The tracker implements the correlation table.  For every sequence of
    begins, completions and transport resets it answers exactly like a table
    with at most one entry: a repeated begin replays the same service id, a
    different one is refused, a response completes the request that its id was
    issued for and nothing else, and ids are issued in order, never zero,
    the counter's wrap-around and the resets included. *)
Theorem tracker_refines_table events :
  (observe initial events).1 = spec_observe {| outstanding := None; issued := 0 |} events.
Proof.
  assert (forall tracker s, refines tracker s -> (observe tracker events).1 = spec_observe s events) as H.
  { induction events as [|e events IH]; intros tracker s Hr; [done|]. simpl.
    destruct (handle_refines tracker s e Hr) as [Ho Hr']. destruct (handle tracker e) as [o t].
    destruct (spec_handle s e) as [o' s']. simpl in *. subst o'. specialize (IH t s' Hr').
    destruct (observe t events). simpl in *. congruence. }
  apply H. repeat split. right. done.
Qed.
