(* ===== verification/TransportAuthority.v ===== *)
(** * Transport authority

    [components/companion_link/deck_companion_transport_authority.cpp]: what a
    Companion transport may send.  A new transport is in probe mode: only
    heartbeats count until it is activated, and the AI snapshot is stale until
    this transport publishes one. *)

From S2P Require Import Prelude.

Inductive deck_companion_transport_message_t :=
  | DECK_COMPANION_TRANSPORT_HEARTBEAT
  | DECK_COMPANION_TRANSPORT_AI_SNAPSHOT
  | DECK_COMPANION_TRANSPORT_SERIAL_CONTROL
  | DECK_COMPANION_TRANSPORT_SERIAL_BINARY.
#[export] Instance transport_message_eq_dec : EqDecision deck_companion_transport_message_t.
Proof. solve_decision. Defined.

Record deck_companion_transport_authority_t := {
  generation : Z;
  active_authority : bool;
  snapshot_current : bool;
}.
#[export] Instance authority_rebuild : Rebuild deck_companion_transport_authority_t := fun a =>
  Build_deck_companion_transport_authority_t (generation a) (active_authority a) (snapshot_current a).

Implicit Type authority : deck_companion_transport_authority_t.

Definition deck_companion_transport_begin authority (gen : Z) :
    bool * deck_companion_transport_authority_t :=
  if gen =? 0 then (false, authority)
  else (true, {| generation := gen; active_authority := false; snapshot_current := false |}).

Definition deck_companion_transport_allows authority (gen : Z)
    (message : deck_companion_transport_message_t) : bool :=
  if (gen =? 0) || negb (gen =? generation authority) then false
  else bool_decide (message = DECK_COMPANION_TRANSPORT_HEARTBEAT) || active_authority authority.

Definition deck_companion_transport_activate authority (gen : Z) :
    bool * deck_companion_transport_authority_t :=
  if (gen =? 0) || negb (gen =? generation authority) then (false, authority)
  else (true, authority <| active_authority := true |>).

Definition deck_companion_transport_accept_snapshot authority (gen : Z) :
    bool * deck_companion_transport_authority_t :=
  if (gen =? 0) || negb (gen =? generation authority) || negb (active_authority authority)
  then (false, authority)
  else (true, authority <| snapshot_current := true |>).

Definition deck_companion_transport_snapshot_current authority (gen : Z) : bool :=
  negb (gen =? 0) && (gen =? generation authority) && active_authority authority
  && snapshot_current authority.

Definition deck_companion_transport_invalidate authority : deck_companion_transport_authority_t :=
  {| generation := 0; active_authority := false; snapshot_current := false |}.

(** ** Histories *)

Inductive call :=
  | Begin (gen : Z)
  | Activate (gen : Z)
  | AcceptSnapshot (gen : Z)
  | Invalidate.

Definition perform authority (c : call) : deck_companion_transport_authority_t :=
  match c with
  | Begin gen => (deck_companion_transport_begin authority gen).2
  | Activate gen => (deck_companion_transport_activate authority gen).2
  | AcceptSnapshot gen => (deck_companion_transport_accept_snapshot authority gen).2
  | Invalidate => deck_companion_transport_invalidate authority
  end.

Definition initial : deck_companion_transport_authority_t :=
  {| generation := 0; active_authority := false; snapshot_current := false |}.

Definition after (calls : list call) : deck_companion_transport_authority_t :=
  fold_left perform calls initial.

(** The calls that leave the current transport in place. *)
Definition keeps (c : call) : bool :=
  match c with
  | Begin gen => gen =? 0
  | Invalidate => false
  | _ => true
  end.

(** The calls since the transport [gen] began, if it is still the current one. *)
Definition in_transport (gen : Z) (calls since : list call) : Prop :=
  gen <> 0 /\ exists before, calls = before ++ Begin gen :: since /\ Forall (fun c => keeps c = true) since.

(** [gen] was activated, and accepted a snapshot after that. *)
Definition activated (gen : Z) (since : list call) : Prop := Activate gen ∈ since.
Definition published (gen : Z) (since : list call) : Prop :=
  exists s1 s2, since = s1 ++ Activate gen :: s2 /\ AcceptSnapshot gen ∈ s2.

Lemma after_snoc calls c : after (calls ++ [c]) = perform (after calls) c.
Proof. unfold after. by rewrite fold_left_app. Qed.

Lemma app_last_inv {A} (l l' : list A) x y since :
  l ++ [x] = l' ++ y :: since ->
  (since = [] /\ x = y /\ l = l') \/ (exists s, since = s ++ [x] /\ l = l' ++ y :: s).
Proof.
  intros H. destruct since as [|z since _] using rev_ind.
  - left. apply app_inj_tail in H as [-> ->]. done.
  - right. exists since. rewrite app_comm_cons, app_assoc in H. by apply app_inj_tail in H as [-> ->].
Qed.

Lemma in_transport_snoc gen calls c since :
  in_transport gen (calls ++ [c]) since <->
  (since = [] /\ c = Begin gen /\ gen <> 0)
  \/ (exists s, since = s ++ [c] /\ keeps c = true /\ in_transport gen calls s).
Proof.
  unfold in_transport. split.
  - intros (H0 & before & [(-> & -> & ->)|(s & -> & ->)]%app_last_inv & Hk); [by left|].
    right. exists s. apply Forall_app in Hk as [Hs Hc]. apply Forall_cons in Hc as [Hc _].
    split_and!; eauto.
  - intros [(-> & -> & H0)|(s & -> & Hc & H0 & before & -> & Hk)]; (split; [done|]).
    + by exists calls.
    + exists before. rewrite <- app_assoc. split; [done|]. apply Forall_app. split; [done|].
      by constructor.
Qed.

Lemma published_snoc gen since c :
  published gen (since ++ [c]) <->
  published gen since \/ (c = AcceptSnapshot gen /\ activated gen since).
Proof.
  unfold published, activated. split.
  - intros (s1 & s2 & [(-> & -> & ->)|(s & -> & ->)]%app_last_inv & Hin).
    { by apply not_elem_of_nil in Hin. }
    apply elem_of_app in Hin as [Hin|Hin]; [left; eauto|right].
    apply list_elem_of_singleton in Hin as <-. split; [done|]. rewrite elem_of_app, elem_of_cons. auto.
  - intros [(s1 & s2 & -> & Hin)|[-> Hact]].
    + exists s1, (s2 ++ [c]). rewrite <- app_assoc. split; [done|]. rewrite elem_of_app. auto.
    + apply list_elem_of_split in Hact as (s1 & s2 & ->). exists s1, (s2 ++ [AcceptSnapshot gen]). rewrite <- app_assoc. split; [done|].
      rewrite elem_of_app, list_elem_of_singleton. auto.
Qed.

(** The state says exactly what the history says. *)
Definition agrees authority (calls : list call) : Prop :=
  if generation authority =? 0 then
    active_authority authority = false /\ (forall gen since, ~ in_transport gen calls since)
  else
    exists since, in_transport (generation authority) calls since
    /\ (forall gen s, in_transport gen calls s -> gen = generation authority /\ s = since)
    /\ (active_authority authority = true <-> activated (generation authority) since)
    /\ (snapshot_current authority = true <-> published (generation authority) since).

(** A call that leaves the transport and its history's verdicts alone. *)
Lemma agrees_same authority calls c :
  keeps c = true ->
  (generation authority <> 0 -> c = Activate (generation authority) ->
     active_authority authority = true) ->
  (generation authority <> 0 -> c = AcceptSnapshot (generation authority) ->
     active_authority authority = false \/ snapshot_current authority = true) ->
  agrees authority calls -> agrees authority (calls ++ [c]).
Proof.
  unfold agrees. intros Hk Hact Hsnap H. case_match; bool_prop.
  { destruct H as [Ha Hno]. split; [done|]. intros gen since. rewrite in_transport_snoc.
    intros [(-> & -> & Hg)|(s & -> & _ & Hs)]; [|by eapply Hno].
    simpl in Hk. bool_prop. done. }
  destruct H as (since & Hin & Huniq & Ha & Hs). exists (since ++ [c]). split_and!.
  - apply in_transport_snoc. right. eauto.
  - intros gen s Hg. apply in_transport_snoc in Hg as [(-> & -> & Hg)|(s' & -> & _ & Hg)].
    + simpl in Hk. bool_prop. done.
    + apply Huniq in Hg as [-> ->]. done.
  - rewrite Ha. unfold activated. rewrite elem_of_app, list_elem_of_singleton. split; [auto|].
    intros [|<-]; [done|]. apply Ha. by apply Hact.
  - rewrite Hs, published_snoc. split; [auto|]. intros [|[-> Hp]]; [done|].
    apply Hs. destruct (Hsnap ltac:(done) eq_refl) as [Hno|]; [|done]. apply Ha in Hp. congruence.
Qed.

Lemma agrees_after calls : agrees (after calls) calls.
Proof.
  induction calls as [|c calls IH] using rev_ind.
  { unfold agrees. simpl. split; [done|]. intros gen since (_ & before & H & _). by destruct before. }
  rewrite after_snoc. set (a := after calls) in *. clearbody a.
  destruct c as [gen|gen|gen|]; simpl.
  - unfold deck_companion_transport_begin. destruct (Z.eqb_spec gen 0) as [->|Hg]; simpl.
    { apply agrees_same; done. }
    unfold agrees. simpl. rewrite (proj2 (Z.eqb_neq _ _) Hg). exists []. split_and!.
    + apply in_transport_snoc. by left.
    + intros g s [(-> & E & _)|(s' & _ & E & _)]%in_transport_snoc; [by simplify_eq|].
      simpl in E. by bool_prop.
    + split; [done|]. by intros ?%not_elem_of_nil.
    + split; [done|]. intros (s1 & s2 & H & _). by destruct s1.
  - unfold deck_companion_transport_activate. destruct (_ || _) eqn:Hguard; simpl.
    { apply agrees_same; try done. intros H0 [=]. subst. rewrite Z.eqb_refl in Hguard.
      by rewrite (proj2 (Z.eqb_neq _ _) H0) in Hguard. }
    bool_prop. subst gen. unfold agrees in *. simpl.
    rewrite (proj2 (Z.eqb_neq (generation a) 0)) in * by done.
    destruct IH as (since & Hin & Huniq & Ha & Hs). exists (since ++ [Activate (generation a)]).
    split_and!.
    + apply in_transport_snoc. right. eauto.
    + intros g s [(-> & E & _)|(s' & -> & _ & Hg)]%in_transport_snoc; [done|].
      by apply Huniq in Hg as [-> ->].
    + split; [|done]. intros _. unfold activated. rewrite elem_of_app, list_elem_of_singleton. auto.
    + rewrite Hs, published_snoc. split; [auto|]. by intros [|[? _]].
  - unfold deck_companion_transport_accept_snapshot. destruct (_ || _ || _) eqn:Hguard; simpl.
    { apply agrees_same; try done. intros H0 [=]. subst. rewrite Z.eqb_refl in Hguard.
      rewrite (proj2 (Z.eqb_neq _ _) H0) in Hguard. simpl in Hguard. bool_prop. by left. }
    bool_prop. subst gen. unfold agrees in *. simpl.
    rewrite (proj2 (Z.eqb_neq (generation a) 0)) in * by done.
    destruct IH as (since & Hin & Huniq & Ha & Hs). exists (since ++ [AcceptSnapshot (generation a)]).
    split_and!.
    + apply in_transport_snoc. right. eauto.
    + intros g s [(-> & E & _)|(s' & -> & _ & Hg)]%in_transport_snoc; [done|].
      by apply Huniq in Hg as [-> ->].
    + rewrite Ha. unfold activated. rewrite elem_of_app, list_elem_of_singleton. split; [auto|].
      by intros [|].
    + split; [|done]. intros _. apply published_snoc. right. split; [done|]. by apply Ha.
  - unfold agrees. simpl. split; [done|].
    intros g s [(-> & E & _)|(s' & _ & E & _)]%in_transport_snoc; done.
Qed.

(** Authority follows the history of calls.  A generation may send a
    heartbeat exactly when it is the transport that began last and was not
    invalidated; it may send anything else exactly when it was also activated
    since it began; and its snapshot is current exactly when it was published
    after that activation.  No call for another generation, refused call or
    earlier activation counts. *)
Theorem authority_follows_history calls gen message :
  (deck_companion_transport_allows (after calls) gen message = true <->
     exists since, in_transport gen calls since
       /\ (message = DECK_COMPANION_TRANSPORT_HEARTBEAT \/ activated gen since))
  /\ (deck_companion_transport_snapshot_current (after calls) gen = true <->
     exists since, in_transport gen calls since /\ published gen since).
Proof.
  pose proof (agrees_after calls) as H. unfold agrees in H.
  unfold deck_companion_transport_allows, deck_companion_transport_snapshot_current.
  destruct (Z.eqb_spec (generation (after calls)) 0) as [E|E].
  { destruct H as [Ha Hno]. rewrite Ha, E. simpl.
    replace ((gen =? 0) || negb (gen =? 0)) with true by by destruct (gen =? 0).
    rewrite andb_false_r. split; (split; [done|]); intros (since & Hin & _); by destruct (Hno gen since). }
  destruct H as (since & Hin & Huniq & Ha & Hs).
  destruct (Z.eqb_spec gen 0) as [->|Hg0]; simpl.
  { split; (split; [done|]); by intros (s & (H0 & _) & _). }
  destruct (Z.eqb_spec gen (generation (after calls))) as [->|Hg]; simpl.
  2: { split; (split; [done|]); intros (s & H & _); by apply Huniq in H as [? _]. }
  rewrite orb_true_iff, bool_decide_eq_true, andb_true_iff, Ha, Hs. split.
  - split; [eauto|]. intros (s & H & ?). by apply Huniq in H as [_ ->].
  - split; [intros []; eauto|]. intros (s & H & Hp). apply Huniq in H as [_ ->]. split; [|done].
    destruct Hp as (s1 & s2 & -> & _). unfold activated. rewrite elem_of_app, elem_of_cons. auto.
Qed.
