(* ===== verification/LinkTiming.v ===== *)
(** * Companion link timing

    [components/companion_link/deck_companion_link_timing.cpp]: the liveness
    deadlines of a Companion connection, the reconnect back-off, and the
    trusted clock that authenticated server samples drive.

    Times are milliseconds in a [uint64_t]. *)

From Stdlib Require Import Sorted.
From S2P Require Import Prelude.

Record deck_companion_link_timing_t := {
  server_heartbeat_deadline_ms : Z;
  last_server_heartbeat_ms : Z;
  next_client_heartbeat_ms : Z;
}.
#[export] Instance timing_rebuild : Rebuild deck_companion_link_timing_t := fun t =>
  Build_deck_companion_link_timing_t (server_heartbeat_deadline_ms t)
    (last_server_heartbeat_ms t) (next_client_heartbeat_ms t).

Record deck_companion_trusted_clock_t := {
  base_utc_ms : Z;
  base_monotonic_ms : Z;
  server_utc_high_water_ms : Z;
  recovery_utc_floor_ms : Z;
  has_time : bool;
  rollback_latched : bool;
}.
#[export] Instance clock_rebuild : Rebuild deck_companion_trusted_clock_t := fun c =>
  Build_deck_companion_trusted_clock_t (base_utc_ms c) (base_monotonic_ms c)
    (server_utc_high_water_ms c) (recovery_utc_floor_ms c) (has_time c) (rollback_latched c).

Implicit Types (timing : deck_companion_link_timing_t) (clock : deck_companion_trusted_clock_t).

Definition kInitialRetryMs : Z := 1000.
Definition kMaximumRetryMs : Z := 30000.

Definition deadline (now_ms delay_ms : Z) : Z :=
  if U64_MAX - now_ms <? delay_ms then U64_MAX else now_ms + delay_ms.

Definition deck_companion_link_timing_begin_connection (now_ms timeout_ms : Z) :
    deck_companion_link_timing_t :=
  {| server_heartbeat_deadline_ms := deadline now_ms timeout_ms;
     last_server_heartbeat_ms := 0; next_client_heartbeat_ms := 0 |}.

Definition deck_companion_link_timing_server_heartbeat timing (now_ms client_interval_ms : Z) :
    deck_companion_link_timing_t :=
  if client_interval_ms =? 0 then timing
  else {| last_server_heartbeat_ms := now_ms; server_heartbeat_deadline_ms := 0;
          next_client_heartbeat_ms := deadline now_ms client_interval_ms |}.

Definition deck_companion_link_timing_server_expired timing (now_ms timeout_ms : Z) : bool :=
  if timeout_ms =? 0 then false
  else if last_server_heartbeat_ms timing =? 0 then
    negb (server_heartbeat_deadline_ms timing =? 0)
    && (server_heartbeat_deadline_ms timing <=? now_ms)
  else (last_server_heartbeat_ms timing <=? now_ms)
       && (timeout_ms <=? now_ms - last_server_heartbeat_ms timing).

Definition deck_companion_link_timing_client_due timing (now_ms : Z) : bool :=
  negb (next_client_heartbeat_ms timing =? 0) && (next_client_heartbeat_ms timing <=? now_ms).

Definition deck_companion_link_timing_client_sent timing (now_ms client_interval_ms : Z) :
    deck_companion_link_timing_t :=
  if client_interval_ms =? 0 then timing
  else timing <| next_client_heartbeat_ms := deadline now_ms client_interval_ms |>.

Definition deck_companion_link_retry_delay_ms (attempt : Z) : Z :=
  if attempt <=? 1 then kInitialRetryMs
  else if 6 <=? attempt then kMaximumRetryMs
  else
    let delay := u64 (Z.shiftl kInitialRetryMs (u32 (attempt - 1))) in
    if kMaximumRetryMs <? delay then kMaximumRetryMs else delay.

(** The UTC time written through [utc_ms], when the call succeeds. *)
Definition deck_companion_trusted_clock_current clock (now_monotonic_ms : Z) : option Z :=
  if negb (has_time clock) || rollback_latched clock || (now_monotonic_ms <? base_monotonic_ms clock)
  then None
  else
    let elapsed := now_monotonic_ms - base_monotonic_ms clock in
    if U64_MAX - base_utc_ms clock <? elapsed then None
    else Some (base_utc_ms clock + elapsed).

(** The sample is trusted: lines 138-156. *)
Definition adopt_sample clock (server_utc_ms now_monotonic_ms : Z) : deck_companion_trusted_clock_t :=
  let monotonic_utc_ms :=
    if rollback_latched clock then None
    else deck_companion_trusted_clock_current clock now_monotonic_ms in
  {| base_utc_ms := match monotonic_utc_ms with
                    | Some utc => if server_utc_ms <? utc then utc else server_utc_ms
                    | None => server_utc_ms
                    end;
     base_monotonic_ms := now_monotonic_ms;
     server_utc_high_water_ms :=
       if negb (has_time clock) || (server_utc_high_water_ms clock <? server_utc_ms)
       then server_utc_ms else server_utc_high_water_ms clock;
     recovery_utc_floor_ms := 0; has_time := true; rollback_latched := false |}.

Definition deck_companion_trusted_clock_accept clock (server_utc_ms now_monotonic_ms : Z) :
    bool * deck_companion_trusted_clock_t :=
  if rollback_latched clock then
    if server_utc_ms <? recovery_utc_floor_ms clock then (false, clock)
    else (true, adopt_sample clock server_utc_ms now_monotonic_ms)
  else if has_time clock && (server_utc_ms <? server_utc_high_water_ms clock) then
    let recovery_floor := server_utc_high_water_ms clock in
    let recovery_floor :=
      match deck_companion_trusted_clock_current clock now_monotonic_ms with
      | Some current => if recovery_floor <? current then current else recovery_floor
      | None => recovery_floor
      end in
    (false, clock <| recovery_utc_floor_ms := recovery_floor |> <| rollback_latched := true |>)
  else (true, adopt_sample clock server_utc_ms now_monotonic_ms).

(** ** Back-off *)

(** The reconnect delay is the capped exponential of the attempt number:
    1 s doubled for every further attempt and never more than 30 s, for every
    32-bit attempt; no shift overflows. *)
Theorem retry_delay_is_capped_exponential attempt :
  is_u32 attempt ->
  deck_companion_link_retry_delay_ms attempt = Z.min 30000 (1000 * 2 ^ Z.max 0 (attempt - 1)).
Proof.
  intros Ha. unfold deck_companion_link_retry_delay_ms, kInitialRetryMs, kMaximumRetryMs.
  case_match; bool_prop.
  { rewrite Z.max_l by lia. done. }
  case_match; bool_prop.
  - rewrite Z.max_r, Z.min_l; [done| |lia].
    assert (2 ^ 5 <= 2 ^ (attempt - 1)) by (apply Z.pow_le_mono_r; lia). lia.
  - assert (attempt = 2 \/ attempt = 3 \/ attempt = 4 \/ attempt = 5) as Hcases by lia.
    by destruct Hcases as [-> | [-> | [-> | ->]]].
Qed.

(** ** Liveness of the server *)

Inductive link_event :=
  | ServerHeartbeat (now_ms client_interval_ms : Z)
  | ClientSent (now_ms client_interval_ms : Z).

Definition link_step timing (e : link_event) : deck_companion_link_timing_t :=
  match e with
  | ServerHeartbeat now interval => deck_companion_link_timing_server_heartbeat timing now interval
  | ClientSent now interval => deck_companion_link_timing_client_sent timing now interval
  end.

(** The moment the server was last heard; [None] before its first heartbeat. *)
Fixpoint last_heard (events : list link_event) (heard : option Z) : option Z :=
  match events with
  | [] => heard
  | ServerHeartbeat now interval :: events =>
      last_heard events (if interval =? 0 then heard else Some now)
  | ClientSent _ _ :: events => last_heard events heard
  end.

Lemma last_heard_cons e events heard :
  last_heard (e :: events) heard = last_heard events (last_heard [e] heard).
Proof. by destruct e. Qed.

Definition tracks timing (began timeout : Z) (heard : option Z) : Prop :=
  match heard with
  | Some t => last_server_heartbeat_ms timing = t /\ t <> 0
  | None => last_server_heartbeat_ms timing = 0
            /\ server_heartbeat_deadline_ms timing = Z.min U64_MAX (began + timeout)
  end.

Lemma deadline_spec now delay :
  is_u64 now -> is_u64 delay -> deadline now delay = Z.min U64_MAX (now + delay).
Proof. unfold deadline. intros. case_match; words. Qed.

Lemma link_step_tracks timing began timeout heard e :
  match e with ServerHeartbeat now _ => now <> 0 | ClientSent _ _ => True end ->
  tracks timing began timeout heard ->
  tracks (link_step timing e) began timeout (last_heard [e] heard).
Proof.
  destruct e as [now interval|now interval]; simpl; intros He Ht.
  - unfold deck_companion_link_timing_server_heartbeat. by destruct (interval =? 0).
  - unfold deck_companion_link_timing_client_sent. by destruct (interval =? 0), heard.
Qed.

(** A connection is declared dead exactly when the server was silent for
    the timeout: since its last counted heartbeat, or since the connection
    began when there was none; whatever was sent and heard before. *)
Theorem server_expires_after_silence began timeout events now :
  is_u64 began -> 0 < timeout <= U64_MAX -> is_u64 now ->
  Forall (fun e => match e with ServerHeartbeat t _ => 0 < t <= now | ClientSent _ _ => True end) events ->
  let timing := fold_left link_step events
                  (deck_companion_link_timing_begin_connection began timeout) in
  deck_companion_link_timing_server_expired timing now timeout = true <->
    match last_heard events None with
    | Some t => t + timeout <= now
    | None => Z.min U64_MAX (began + timeout) <= now
    end.
Proof.
  intros Hb Ht Hn Hev timing.
  assert (forall tm heard, match heard with Some t => 0 < t <= now | None => True end ->
            tracks tm began timeout heard ->
            tracks (fold_left link_step events tm) began timeout (last_heard events heard)
            /\ match last_heard events heard with Some t => 0 < t <= now | None => True end) as Hrun.
  { clear timing. induction Hev as [|e events He _ IH]; intros tm heard Hh Htm; [done|].
    rewrite last_heard_cons. cbn [fold_left]. apply IH.
    - destruct e as [t i|]; simpl; [|done]. by destruct (i =? 0).
    - apply link_step_tracks; [|done]. destruct e; [lia|done]. }
  destruct (Hrun (deck_companion_link_timing_begin_connection began timeout) None I) as [H Hpos].
  { simpl. split; [done|]. apply deadline_spec; words. }
  fold timing in H. clearbody timing. clear Hrun Hev.
  unfold deck_companion_link_timing_server_expired. rewrite (proj2 (Z.eqb_neq timeout 0)) by lia.
  destruct (last_heard events None) as [t|]; simpl in H.
  - destruct H as [-> Ht0]. rewrite (proj2 (Z.eqb_neq t 0)) by done.
    rewrite andb_true_iff, !Z.leb_le. lia.
  - destruct H as [-> ->]. simpl. rewrite andb_true_iff, negb_true_iff, Z.eqb_neq, Z.leb_le.
    unfold is_u64 in *. lia.
Qed.

(** ** The trusted clock *)

Inductive clock_event :=
  | Sample (server_utc_ms now_monotonic_ms : Z)
  | Read (now_monotonic_ms : Z).

Definition event_time (e : clock_event) : Z :=
  match e with Sample _ now => now | Read now => now end.

(** The successful readings, in order, and the clock after them. *)
Fixpoint readings clock (events : list clock_event) : list Z :=
  match events with
  | [] => []
  | Sample utc now :: events =>
      readings (deck_companion_trusted_clock_accept clock utc now).2 events
  | Read now :: events =>
      match deck_companion_trusted_clock_current clock now with
      | Some utc => utc :: readings clock events
      | None => readings clock events
      end
  end.

(** Samples up to [bound]; monotonic times that never decrease and leave room
    for the sum in 64 bits. *)
Fixpoint plausible (bound now : Z) (events : list clock_event) : Prop :=
  match events with
  | [] => True
  | e :: events =>
      now <= event_time e /\ bound + event_time e <= U64_MAX
      /\ match e with Sample utc _ => 0 <= utc <= bound | Read _ => True end
      /\ plausible bound (event_time e) events
  end.

(** No later reading is below [low]. *)
Definition at_least clock (bound now low : Z) : Prop :=
  0 <= bound /\ 0 <= base_monotonic_ms clock <= now
  /\ 0 <= base_utc_ms clock <= bound + base_monotonic_ms clock
  /\ if rollback_latched clock then low <= recovery_utc_floor_ms clock
     else if has_time clock then low <= base_utc_ms clock + (now - base_monotonic_ms clock)
     else low <= 0.

Lemma current_reading clock bound now :
  has_time clock = true -> rollback_latched clock = false ->
  base_monotonic_ms clock <= now -> base_utc_ms clock <= bound + base_monotonic_ms clock ->
  bound + now <= U64_MAX ->
  deck_companion_trusted_clock_current clock now
    = Some (base_utc_ms clock + (now - base_monotonic_ms clock)).
Proof.
  intros Hh Hl H1 H2 H3. unfold deck_companion_trusted_clock_current. rewrite Hh, Hl. simpl.
  rewrite !(proj2 (Z.ltb_ge _ _)) by lia. done.
Qed.

Lemma adopt_at_least clock bound now utc now' low :
  at_least clock bound now low -> now <= now' -> bound + now' <= U64_MAX -> 0 <= utc <= bound ->
  (rollback_latched clock = true -> low <= utc) ->
  at_least (adopt_sample clock utc now') bound now' low.
Proof.
  intros (Hb & Hm & Hu & Hlow) Hnow Hroom Hutc Hl. unfold at_least, adopt_sample. simpl.
  destruct (rollback_latched clock) eqn:El; simpl.
  { specialize (Hl eq_refl). split_and!; lia. }
  destruct (has_time clock) eqn:Eh.
  - rewrite (current_reading clock bound now') by (done || lia).
    case_match; bool_prop; split_and!; lia.
  - unfold deck_companion_trusted_clock_current. rewrite Eh. simpl. split_and!; lia.
Qed.

Lemma accept_at_least clock bound now utc now' low :
  at_least clock bound now low -> now <= now' -> bound + now' <= U64_MAX -> 0 <= utc <= bound ->
  at_least (deck_companion_trusted_clock_accept clock utc now').2 bound now' low.
Proof.
  intros Hc Hnow Hroom Hutc. pose proof Hc as (Hb & Hm & Hu & Hlow).
  unfold deck_companion_trusted_clock_accept. destruct (rollback_latched clock) eqn:El.
  - destruct (utc <? recovery_utc_floor_ms clock) eqn:E; simpl; bool_prop.
    + unfold at_least. rewrite El. split_and!; lia.
    + eapply adopt_at_least; try done. intros _. lia.
  - destruct (has_time clock && _) eqn:E; simpl.
    + apply andb_true_iff in E as [Eh _]. rewrite Eh in Hlow.
      rewrite (current_reading clock bound now') by (done || lia).
      unfold at_least. simpl. split_and!; try lia. case_match; bool_prop; lia.
    + eapply adopt_at_least; try done. congruence.
Qed.

Definition boot_clock : deck_companion_trusted_clock_t :=
  {| base_utc_ms := 0; base_monotonic_ms := 0; server_utc_high_water_ms := 0;
     recovery_utc_floor_ms := 0; has_time := false; rollback_latched := false |}.

(** The trusted clock never goes back.  Whatever samples an
    authenticated server sends, rolled back ones included, the times the clock
    hands out never decrease along the monotonic clock, as long as the samples
    plus the uptime fit in 64 bits. *)
Theorem trusted_clock_never_goes_back bound events :
  0 <= bound -> plausible bound 0 events ->
  StronglySorted Z.le (readings boot_clock events).
Proof.
  intros Hb.
  assert (forall clock now low, at_least clock bound now low -> plausible bound now events ->
            Forall (Z.le low) (readings clock events)
            /\ StronglySorted Z.le (readings clock events)) as H.
  { induction events as [|e events IH]; intros clock now low Hc Hp; [by repeat constructor|].
    destruct Hp as (Hnow & Hroom & Hutc & Hp). destruct e as [utc now'|now']; simpl in *.
    - eapply IH; [|done]. by eapply accept_at_least.
    - pose proof Hc as (_ & Hm & Hu & Hlow).
      destruct (deck_companion_trusted_clock_current clock now') as [r|] eqn:E.
      + unfold deck_companion_trusted_clock_current in E.
        destruct (has_time clock) eqn:Eh; [|done].
        destruct (rollback_latched clock) eqn:El; [done|]. simpl in E.
        destruct (now' <? base_monotonic_ms clock) eqn:Eb; [done|].
        destruct (U64_MAX - _ <? _) eqn:Eo; [done|]. bool_prop. injection E as <-.
        edestruct (IH clock now' (base_utc_ms clock + (now' - base_monotonic_ms clock)))
          as [Hall Hs]; [|done|].
        { unfold at_least. rewrite Eh, El. split_and!; lia. }
        split; [|by constructor]. constructor; [lia|].
        eapply Forall_impl; [exact Hall|]. intros x Hx. simpl in Hx. lia.
      + eapply IH; [|done]. unfold at_least. split_and!; try lia.
        repeat case_match; lia. }
  intros Hp. eapply (H boot_clock 0 0); [|done]. unfold at_least. simpl. split_and!; lia.
Qed.

Lemma retry_delay_is_capped_exponential_witness :
  is_u32 4 /\ deck_companion_link_retry_delay_ms 4 = 8000.
Proof.
  assert (is_u32 4) as H by words. split; [exact H|].
  rewrite (retry_delay_is_capped_exponential 4 H). reflexivity.
Defined.

Lemma server_expires_after_silence_witness :
  deck_companion_link_timing_server_expired
    (fold_left link_step [ServerHeartbeat 2000 500; ClientSent 2500 500; ServerHeartbeat 4000 500]
       (deck_companion_link_timing_begin_connection 1000 3000)) 7000 3000 = true.
Proof.
  refine (proj2 (server_expires_after_silence 1000 3000
    [ServerHeartbeat 2000 500; ClientSent 2500 500; ServerHeartbeat 4000 500] 7000 _ _ _ _) _).
  1-3: words. 2: { vm_compute. discriminate. }
  repeat constructor; lia.
Defined.

Module ClockExample.
(** The second sample rolls back to 900: the clock is latched until 1400. *)
Definition events : list clock_event :=
  [Sample 1000 100; Read 150; Read 300; Sample 900 500; Read 600; Sample 1300 700; Read 750;
   Sample 1400 800; Read 800; Sample 1350 900; Sample 1600 1000; Read 1100].
End ClockExample.

Lemma trusted_clock_never_goes_back_witness :
  readings boot_clock ClockExample.events = [1050; 1200; 1400; 1700]
  /\ StronglySorted Z.le (readings boot_clock ClockExample.events).
Proof.
  split; [vm_compute; reflexivity|].
  apply (trusted_clock_never_goes_back 2000); [lia|]. cbn. lia.
Defined.
