(* ===== verification/LinkFrame.v ===== *)
(** * Companion link frame

    [components/companion_link/deck_companion_link_frame.cpp]: reassembly of a
    server message from the transport chunks of one WebSocket frame and from
    RFC 6455 continuation frames, into a caller's buffer.

    [buffer] is the list of the bytes behind the pointer, [capacity] of them;
    [size_t] has 32 bits on the target. *)

From S2P Require Import Prelude.

Definition kContinuationOpcode : Z := 0.
Definition kTextOpcode : Z := 1.
Definition kBinaryOpcode : Z := 2.

Record deck_companion_link_frame_t := {
  buffer : option bytes;
  capacity : nat;
  message_size : nat;
  frame_size : nat;
  frame_payload_length : Z;
  frame_opcode : Z;
  message_opcode : Z;
  active : bool;
  frame_active : bool;
  awaiting_continuation : bool;
}.
#[export] Instance link_frame_rebuild : Rebuild deck_companion_link_frame_t := fun f =>
  Build_deck_companion_link_frame_t (buffer f) (capacity f) (message_size f) (frame_size f)
    (frame_payload_length f) (frame_opcode f) (message_opcode f) (active f) (frame_active f)
    (awaiting_continuation f).

Inductive deck_companion_link_frame_result_t :=
  | DECK_COMPANION_LINK_FRAME_INVALID
  | DECK_COMPANION_LINK_FRAME_PARTIAL
  | DECK_COMPANION_LINK_FRAME_COMPLETE.

Implicit Type frame : deck_companion_link_frame_t.

Definition start_transport_frame frame (payload_length opcode : Z) :
    bool * deck_companion_link_frame_t :=
  let started frame :=
    (true, frame <| awaiting_continuation := false |> <| frame_active := true |>
                 <| frame_payload_length := payload_length |> <| frame_opcode := opcode |>
                 <| frame_size := 0%nat |>) in
  if negb (active frame) then
    if negb (opcode =? kTextOpcode) && negb (opcode =? kBinaryOpcode) then (false, frame)
    else started (frame <| active := true |> <| message_opcode := opcode |> <| message_size := 0%nat |>)
  else if negb (awaiting_continuation frame) || negb (opcode =? kContinuationOpcode)
  then (false, frame)
  else started frame.

Definition deck_companion_link_frame_init (buffer : option bytes) (capacity : nat) :
    deck_companion_link_frame_t :=
  {| buffer := buffer; capacity := capacity; message_size := 0; frame_size := 0;
     frame_payload_length := 0; frame_opcode := 0; message_opcode := 0; active := false;
     frame_active := false; awaiting_continuation := false |}.

Definition deck_companion_link_frame_reset frame : deck_companion_link_frame_t :=
  {| buffer := buffer frame; capacity := capacity frame; message_size := 0; frame_size := 0;
     frame_payload_length := 0; frame_opcode := 0; message_opcode := 0; active := false;
     frame_active := false; awaiting_continuation := false |}.

(** The chunk's place in its frame: lines 80-90. *)
Definition place_chunk frame (payload_length payload_offset opcode : Z) :
    bool * deck_companion_link_frame_t :=
  if payload_offset =? 0 then
    if frame_active frame then (false, frame)
    else start_transport_frame frame payload_length opcode
  else
    (frame_active frame && (frame_payload_length frame =? payload_length)
     && (frame_opcode frame =? opcode) && (payload_offset =? Z.of_nat (frame_size frame)), frame).

Definition deck_companion_link_frame_accept frame (payload_length payload_offset opcode : Z)
    (final : bool) (data : bytes) :
    deck_companion_link_frame_result_t * deck_companion_link_frame_t :=
  match buffer frame with
  | None => (DECK_COMPANION_LINK_FRAME_INVALID, frame)
  | Some buf =>
      if (capacity frame =? 0)%nat || (payload_length <=? 0) || (payload_offset <? 0)
         || (payload_length <? u32 (payload_offset + Z.of_nat (length data)))
      then (DECK_COMPANION_LINK_FRAME_INVALID, frame)
      else
        let '(placed, frame) := place_chunk frame payload_length payload_offset opcode in
        if negb placed then (DECK_COMPANION_LINK_FRAME_INVALID, frame)
        else if (capacity frame - message_size frame <? length data)%nat
        then (DECK_COMPANION_LINK_FRAME_INVALID, frame)
        else
          let frame := frame <| buffer := Some (write_at buf (message_size frame) data) |> in
          let frame := frame <| message_size := (message_size frame + length data)%nat |>
                             <| frame_size := (frame_size frame + length data)%nat |> in
          if negb (Z.of_nat (frame_size frame) =? frame_payload_length frame)
          then (DECK_COMPANION_LINK_FRAME_PARTIAL, frame)
          else
            let frame := frame <| frame_active := false |> <| frame_size := 0%nat |>
                               <| frame_payload_length := 0 |> <| frame_opcode := 0 |> in
            if negb final
            then (DECK_COMPANION_LINK_FRAME_PARTIAL, frame <| awaiting_continuation := true |>)
            else (DECK_COMPANION_LINK_FRAME_COMPLETE, frame <| awaiting_continuation := false |>)
  end.

(** ** Memory safety *)

(** The message so far is inside the buffer, the current frame inside the
    message; [capacity] is the size of the allocation behind [buffer]. *)
Definition wf_link_frame frame : Prop :=
  (forall buf, buffer frame = Some buf -> length buf = capacity frame)
  /\ (message_size frame <= capacity frame)%nat
  /\ (frame_size frame <= message_size frame)%nat
  /\ 0 <= frame_payload_length frame
  /\ (frame_active frame = true ->
        Z.of_nat (frame_size frame) < frame_payload_length frame <= 2147483647)
  /\ (frame_active frame = false -> frame_size frame = 0%nat).

(** What a caller may pass: a C [int] twice and a buffer smaller than 2 GiB. *)
Definition chunk_args (payload_length payload_offset : Z) (data : bytes) : Prop :=
  payload_length <= 2147483647 /\ payload_offset <= 2147483647
  /\ Z.of_nat (length data) <= 2147483647.

(** The part of [accept] after the checks: the copy and the bookkeeping. *)
Definition append_chunk frame (buf : bytes) (final : bool) (data : bytes) :
    deck_companion_link_frame_result_t * deck_companion_link_frame_t :=
  let frame := frame <| buffer := Some (write_at buf (message_size frame) data) |>
                     <| message_size := (message_size frame + length data)%nat |>
                     <| frame_size := (frame_size frame + length data)%nat |> in
  if negb (Z.of_nat (frame_size frame) =? frame_payload_length frame)
  then (DECK_COMPANION_LINK_FRAME_PARTIAL, frame)
  else
    let frame := frame <| frame_active := false |> <| frame_size := 0%nat |>
                       <| frame_payload_length := 0 |> <| frame_opcode := 0 |> in
    if negb final
    then (DECK_COMPANION_LINK_FRAME_PARTIAL, frame <| awaiting_continuation := true |>)
    else (DECK_COMPANION_LINK_FRAME_COMPLETE, frame <| awaiting_continuation := false |>).

(** A placed frame: ready for the next chunk of a frame of [len] bytes. *)
Definition placed_frame frame (len : Z) (offset : nat) : Prop :=
  frame_active frame = true /\ frame_payload_length frame = len
  /\ frame_size frame = offset.

Lemma place_chunk_placed frame len off op p :
  wf_link_frame frame -> 0 < len <= 2147483647 -> 0 <= off ->
  place_chunk frame len off op = (true, p) ->
  wf_link_frame p /\ placed_frame p len (Z.to_nat off)
  /\ buffer p = buffer frame /\ capacity p = capacity frame
  /\ message_size p = (if (off =? 0) && negb (active frame) then 0%nat else message_size frame).
Proof.
  intros (Hbuf & Hm & Hf & Hl & Ha & Hna) Hlen Hoff.
  unfold place_chunk, start_transport_frame, wf_link_frame, placed_frame.
  destruct (Z.eqb_spec off 0) as [->|Hne].
  - destruct (frame_active frame) eqn:Efa; [done|].
    intros H. repeat (case_match; simplify_eq/=); split_and!; try done; lia.
  - simpl. intros [= Hg <-]. bool_prop. split_and!; try done; lia.
Qed.

Lemma place_chunk_refused frame len off op p :
  wf_link_frame frame -> place_chunk frame len off op = (false, p) -> p = frame.
Proof.
  intros _. unfold place_chunk, start_transport_frame. intros H.
  by repeat (case_match; simplify_eq/=).
Qed.

Lemma accept_unfold frame buf len off op final data :
  buffer frame = Some buf -> (0 < capacity frame)%nat -> 0 < len -> 0 <= off ->
  chunk_args len off data -> off + Z.of_nat (length data) <= len ->
  deck_companion_link_frame_accept frame len off op final data =
    (let '(placed, p) := place_chunk frame len off op in
     if negb placed then (DECK_COMPANION_LINK_FRAME_INVALID, p)
     else if (capacity p - message_size p <? length data)%nat
     then (DECK_COMPANION_LINK_FRAME_INVALID, p)
     else append_chunk p buf final data).
Proof.
  intros Hb Hc Hl Ho (H1 & H2 & H3) Hfit. unfold deck_companion_link_frame_accept. rewrite Hb.
  rewrite (proj2 (Nat.eqb_neq _ _)), (proj2 (Z.leb_gt _ _)), (proj2 (Z.ltb_ge off 0)) by lia.
  rewrite u32_id by words. rewrite (proj2 (Z.ltb_ge _ _)) by lia. done.
Qed.

Lemma accept_refused frame len off op final data :
  ~ (exists buf, buffer frame = Some buf /\ (0 < capacity frame)%nat /\ 0 < len /\ 0 <= off
     /\ off + Z.of_nat (length data) <= len) ->
  chunk_args len off data ->
  deck_companion_link_frame_accept frame len off op final data
    = (DECK_COMPANION_LINK_FRAME_INVALID, frame).
Proof.
  intros Hno (H1 & H2 & H3). unfold deck_companion_link_frame_accept.
  destruct (buffer frame) as [buf|] eqn:Eb; [|done].
  destruct (_ || _ || _ || _) eqn:Hg; [done|]. bool_prop. rewrite u32_id in * by words.
  exfalso. apply Hno. exists buf. repeat split; try done; lia.
Qed.

Lemma append_chunk_spec p buf final data len off :
  wf_link_frame p -> buffer p = Some buf -> placed_frame p len off ->
  Z.of_nat off + Z.of_nat (length data) <= len ->
  (message_size p + length data <= capacity p)%nat ->
  let '(result, f) := append_chunk p buf final data in
  wf_link_frame f /\ result <> DECK_COMPANION_LINK_FRAME_INVALID
  /\ capacity f = capacity p /\ message_size f = (message_size p + length data)%nat
  /\ buffer f = Some (write_at buf (message_size p) data)
  /\ (result = DECK_COMPANION_LINK_FRAME_COMPLETE <->
        Z.of_nat off + Z.of_nat (length data) = len /\ final = true).
Proof.
  intros (Hbuf & Hm & Hf & Hl & Ha & Hna) Hb (Hact & Hlen & Hoff) Hfit Hroom.
  specialize (Hbuf buf Hb). specialize (Ha Hact).
  unfold append_chunk, wf_link_frame. simpl. rewrite Hlen, Hoff.
  destruct (Z.eqb_spec (Z.of_nat (off + length data)) len) as [E|E]; [destruct final|]; simpl.
  all: split_and!; try done; try lia.
  all: try (intros b [= <-]; rewrite length_write_at; lia).
  all: try (split; [done|intros []; done || lia]).
  all: try (split; [split; [lia|done]|done]).
  intros Hx. congruence.
Qed.

Definition chunk_starts_message frame (off : Z) : bool := (off =? 0) && negb (active frame).

(** Reassembly is memory safe and appends.  For every state the component
    can be in and every chunk a caller may pass, well-formed or hostile, the
    call keeps the message inside the caller's buffer; a refused chunk leaves
    every byte alone, and an accepted one appends exactly its data to the
    message (to an empty one when it opens a message) and touches no byte
    behind it. *)
Theorem accept_appends_or_refuses frame len off op final data buf :
  wf_link_frame frame -> buffer frame = Some buf -> chunk_args len off data ->
  let '(result, f) := deck_companion_link_frame_accept frame len off op final data in
  wf_link_frame f /\ capacity f = capacity frame
  /\ (result = DECK_COMPANION_LINK_FRAME_INVALID -> buffer f = buffer frame)
  /\ (result <> DECK_COMPANION_LINK_FRAME_INVALID ->
        let start := if chunk_starts_message frame off then 0%nat else message_size frame in
        message_size f = (start + length data)%nat
        /\ exists buf', buffer f = Some buf'
             /\ take (message_size f) buf' = take start buf ++ data
             /\ drop (message_size f) buf' = drop (message_size f) buf).
Proof.
  intros Hwf Hb Hargs. pose proof Hargs as (Hl1 & Ho1 & Hd1).
  destruct (decide ((0 < capacity frame)%nat /\ 0 < len /\ 0 <= off
    /\ off + Z.of_nat (length data) <= len)) as [(Hc & Hl & Ho & Hfit)|Hno].
  2: { rewrite accept_refused; [done| |done]. intros (b & _ & Hrest). by apply Hno. }
  rewrite (accept_unfold frame buf) by done.
  destruct (place_chunk frame len off op) as [[|] p] eqn:Ep; simpl.
  2: { apply place_chunk_refused in Ep as ->; done. }
  apply place_chunk_placed in Ep as (Hwfp & Hp & Hbp & Hcp & Hmp); [|done|lia|done].
  destruct (_ <? _)%nat eqn:Eroom; [done|]. bool_prop.
  pose proof Hwfp as (Hbufp & Hmfit & _). rewrite Hb in Hbp. specialize (Hbufp buf Hbp).
  pose proof (append_chunk_spec p buf final data len (Z.to_nat off) Hwfp Hbp Hp ltac:(lia) ltac:(lia)) as Ha.
  destruct (append_chunk p buf final data) as [result f].
  destruct Ha as (Hwff & Hres & Hcf & Hmf & Hbf & _).
  split_and!; [done|congruence|done|]. intros _. simpl. unfold chunk_starts_message.
  rewrite <- Hmp. split; [done|]. eexists. split; [done|]. rewrite Hmf.
  split; [apply write_at_prefix; lia|]. unfold write_at. rewrite app_assoc.
  apply drop_app_length'. rewrite length_app, length_take. lia.
Qed.

(** ** Reassembly *)

(** One transport chunk as the client delivers it. *)
Record chunk := {
  c_payload_length : Z;
  c_payload_offset : Z;
  c_opcode : Z;
  c_final : bool;
  c_data : bytes;
}.

Definition deliver frame (c : chunk) : deck_companion_link_frame_result_t * deck_companion_link_frame_t :=
  deck_companion_link_frame_accept frame (c_payload_length c) (c_payload_offset c) (c_opcode c)
    (c_final c) (c_data c).

Fixpoint deliver_all frame (chunks : list chunk) :
    list deck_companion_link_frame_result_t * deck_companion_link_frame_t :=
  match chunks with
  | [] => ([], frame)
  | c :: chunks =>
      let '(r, frame) := deliver frame c in
      let '(rs, frame) := deliver_all frame chunks in
      (r :: rs, frame)
  end.

(** The chunks of one WebSocket frame: the client repeats the length, the
    opcode and the FIN flag on each. *)
Fixpoint frame_chunks (len : Z) (op : Z) (final : bool) (offset : nat) (pieces : list bytes) : list chunk :=
  match pieces with
  | [] => []
  | data :: pieces =>
      {| c_payload_length := len; c_payload_offset := Z.of_nat offset; c_opcode := op;
         c_final := final; c_data := data |}
      :: frame_chunks len op final (offset + length data) pieces
  end.

(** A message: its first frame has the message opcode, the others continue it;
    FIN is set on the last one only. *)
Fixpoint message_chunks (op : Z) (frames : list (list bytes)) : list chunk :=
  match frames with
  | [] => []
  | pieces :: frames =>
      frame_chunks (Z.of_nat (length (concat pieces))) op (bool_decide (frames = [])) 0 pieces
      ++ message_chunks kContinuationOpcode frames
  end.

Definition wf_pieces (pieces : list bytes) : Prop :=
  pieces <> [] /\ Forall (fun data => data <> []) pieces
  /\ Z.of_nat (length (concat pieces)) <= 2147483647.

(** What the buffer holds of the message. *)
Definition content frame (message : bytes) : Prop :=
  exists buf, buffer frame = Some buf /\ message_size frame = length message
    /\ take (message_size frame) buf = message.

Lemma deliver_all_app frame c1 c2 :
  deliver_all frame (c1 ++ c2) =
    ((deliver_all frame c1).1 ++ (deliver_all (deliver_all frame c1).2 c2).1,
     (deliver_all (deliver_all frame c1).2 c2).2).
Proof.
  revert frame. induction c1 as [|c c1 IH]; intros frame; simpl.
  { by destruct (deliver_all frame c2). }
  destruct (deliver frame c) as [r f]. rewrite IH. by destruct (deliver_all f c1).
Qed.

(** The next chunk of a placed frame. *)
Lemma append_content p len off final data message :
  wf_link_frame p -> placed_frame p len off -> content p message ->
  Z.of_nat off + Z.of_nat (length data) <= len ->
  (length message + length data <= capacity p)%nat ->
  exists buf, buffer p = Some buf
  /\ let f := (append_chunk p buf final data).2 in
     wf_link_frame f /\ content f (message ++ data) /\ capacity f = capacity p
     /\ message_opcode f = message_opcode p /\ active f = active p.
Proof.
  intros Hwf Hp (buf & Hb & Hsize & Htake) Hfit Hroom. exists buf. split; [done|].
  pose proof (append_chunk_spec p buf final data len off Hwf Hb Hp Hfit ltac:(lia)) as Ha.
  destruct Hwf as (Hbuf & _). specialize (Hbuf buf Hb).
  assert (message_opcode (append_chunk p buf final data).2 = message_opcode p
    /\ active (append_chunk p buf final data).2 = active p) as [Hop Hact].
  { unfold append_chunk. by destruct (negb (_ =? _)), final. }
  destruct (append_chunk p buf final data) as [result f].
  destruct Ha as (Hwff & _ & Hcf & Hmf & Hbf & _). simpl in *. split_and!; try done.
  eexists. split; [done|]. rewrite Hmf, length_app. split; [lia|].
  rewrite write_at_prefix by lia. by rewrite Htake.
Qed.

Lemma append_chunk_partial p buf final data len off :
  placed_frame p len off -> Z.of_nat off + Z.of_nat (length data) < len ->
  exists f, append_chunk p buf final data = (DECK_COMPANION_LINK_FRAME_PARTIAL, f)
  /\ placed_frame f len (off + length data) /\ frame_opcode f = frame_opcode p.
Proof.
  intros (Hact & Hlen & Hoff) Hlt. unfold append_chunk, placed_frame. simpl. rewrite Hlen, Hoff.
  rewrite (proj2 (Z.eqb_neq _ _)) by lia. eexists. split; [reflexivity|]. by simpl.
Qed.

Lemma append_chunk_last p buf final data len off :
  placed_frame p len off -> Z.of_nat off + Z.of_nat (length data) = len ->
  exists f, append_chunk p buf final data
    = (if final then DECK_COMPANION_LINK_FRAME_COMPLETE else DECK_COMPANION_LINK_FRAME_PARTIAL, f)
  /\ frame_active f = false /\ awaiting_continuation f = negb final.
Proof.
  intros (Hact & Hlen & Hoff) E. unfold append_chunk. simpl. rewrite Hlen, Hoff.
  rewrite (proj2 (Z.eqb_eq _ _)) by lia. destruct final; eexists; by split.
Qed.

Lemma place_next_chunk f len off op :
  placed_frame f len off -> frame_opcode f = op -> (0 < off)%nat ->
  place_chunk f len (Z.of_nat off) op = (true, f).
Proof.
  intros (Hact & Hlen & Hoff) Hop H0. unfold place_chunk.
  rewrite (proj2 (Z.eqb_neq _ _)) by lia. by rewrite Hact, Hlen, Hop, Hoff, !Z.eqb_refl.
Qed.

Definition frame_result (final : bool) : deck_companion_link_frame_result_t :=
  if final then DECK_COMPANION_LINK_FRAME_COMPLETE else DECK_COMPANION_LINK_FRAME_PARTIAL.

(** One frame, chunk by chunk, from the placement of its first chunk. *)
Lemma frame_delivered len op final pieces : forall f p off message,
  pieces <> [] -> Forall (fun data => data <> []) pieces ->
  Z.of_nat off + Z.of_nat (length (concat pieces)) = len -> len <= 2147483647 ->
  place_chunk f len (Z.of_nat off) op = (true, p) ->
  wf_link_frame f -> frame_opcode p = op -> content p message ->
  (length message + length (concat pieces) <= capacity p)%nat ->
  exists f', deliver_all f (frame_chunks len op final off pieces)
      = (replicate (length pieces - 1) DECK_COMPANION_LINK_FRAME_PARTIAL ++ [frame_result final], f')
  /\ wf_link_frame f' /\ content f' (message ++ concat pieces) /\ capacity f' = capacity p
  /\ message_opcode f' = message_opcode p /\ active f' = active p
  /\ frame_active f' = false /\ awaiting_continuation f' = negb final.
Proof.
  induction pieces as [|data pieces IH]; intros f p off message Hne Hall Hlen Hmax Hplace Hwf Hop Hc Hroom;
    [done|].
  apply Forall_cons in Hall as [Hd Hall]. simpl in Hlen, Hroom. rewrite length_app in Hlen, Hroom.
  assert (0 < length data)%nat as Hpos by (destruct data; [done|simpl; lia]).
  destruct (place_chunk_placed f len (Z.of_nat off) op p) as (Hwfp & Hp & Hbp & Hcp & _); [done|lia..|done|].
  rewrite Nat2Z.id in Hp.
  destruct (append_content p len off final data message) as (buf & Hb & Hwf' & Hc' & Hcap' & Hop' & Hact');
    [done|done|done|lia|lia|].
  assert (deliver f {| c_payload_length := len; c_payload_offset := Z.of_nat off; c_opcode := op;
                       c_final := final; c_data := data |} = append_chunk p buf final data) as Edeliver.
  { unfold deliver. simpl. pose proof Hc as (b & Hb1 & Hsize & _).
    rewrite (accept_unfold f buf); [|congruence|lia|lia|lia|unfold chunk_args; lia|lia].
    rewrite Hplace. simpl. by rewrite (proj2 (Nat.ltb_ge _ _)) by lia. }
  simpl. rewrite Edeliver. destruct pieces as [|data' pieces].
  - simpl in Hlen. destruct (append_chunk_last p buf final data len off Hp ltac:(lia))
      as (f' & E & Hfa & Haw). rewrite E in *. exists f'. simpl.
    rewrite app_nil_r. split_and!; try done.
  - simpl in Hlen. rewrite length_app in Hlen. apply Forall_cons in Hall as Hall'. destruct Hall' as [Hd' _].
    assert (0 < length data')%nat by (destruct data'; [done|simpl; lia]).
    destruct (append_chunk_partial p buf final data len off Hp ltac:(lia)) as (f1 & E & Hp1 & Hop1).
    rewrite E in *. cbn [snd] in *.
    destruct (IH f1 f1 (off + length data)%nat (message ++ data)) as
      (f' & E' & Hwff & Hcf & Hcapf & Hopf & Hactf & Hfa & Haw); try done.
    + simpl. rewrite length_app. lia.
    + apply place_next_chunk; [done|congruence|lia].
    + congruence.
    + rewrite length_app. simpl. rewrite length_app in *. simpl in *. rewrite length_app in *. lia.
    + rewrite E'. exists f'. simpl. rewrite Nat.sub_0_r. rewrite <- app_assoc in Hcf.
      split_and!; try done; congruence.
Qed.

(** The frame may start here: a new message, or a continuation. *)
Definition may_start f (op : Z) : Prop :=
  frame_active f = false
  /\ if active f then awaiting_continuation f = true /\ op = kContinuationOpcode
     else op = kTextOpcode \/ op = kBinaryOpcode.

Definition message_so_far f (message : bytes) : Prop :=
  if active f then content f message else message = [] /\ is_Some (buffer f).

Lemma frame_starts f len op message :
  may_start f op -> message_so_far f message ->
  exists p, place_chunk f len 0 op = (true, p) /\ frame_opcode p = op /\ content p message
  /\ capacity p = capacity f /\ active p = true
  /\ message_opcode p = (if active f then message_opcode f else op).
Proof.
  unfold may_start, message_so_far, place_chunk, start_transport_frame, content.
  intros [Hfa Hs] Hm. rewrite Hfa. simpl. destruct (active f) eqn:Ea; simpl.
  - destruct Hs as [-> ->]. simpl. eexists. split; [reflexivity|]. simpl. by rewrite Ea.
  - destruct Hm as [-> [buf Hb]].
    assert (negb (op =? kTextOpcode) && negb (op =? kBinaryOpcode) = false) as ->
      by by destruct Hs as [-> | ->].
    eexists. split; [reflexivity|]. simpl. split_and!; try done. by exists buf.
Qed.

Definition total (frames : list (list bytes)) : nat := length (concat (concat frames)).

Lemma message_delivered frames : forall f op message,
  frames <> [] -> Forall wf_pieces frames ->
  wf_link_frame f -> may_start f op -> message_so_far f message ->
  (length message + total frames <= capacity f)%nat ->
  exists f', deliver_all f (message_chunks op frames)
      = (replicate (length (concat frames) - 1) DECK_COMPANION_LINK_FRAME_PARTIAL
         ++ [DECK_COMPANION_LINK_FRAME_COMPLETE], f')
  /\ wf_link_frame f' /\ content f' (message ++ concat (concat frames))
  /\ message_opcode f' = (if active f then message_opcode f else op).
Proof.
  induction frames as [|pieces frames IH]; intros f op message Hne Hall Hwf Hstart Hm Hroom; [done|].
  apply Forall_cons in Hall as [(Hp & Hpd & Hpl) Hall]. unfold total in Hroom.
  simpl concat in *. rewrite concat_app, length_app in Hroom.
  set (len := Z.of_nat (length (concat pieces))) in *.
  destruct (frame_starts f len op message Hstart Hm) as (p & Ep & Hop & Hc & Hcap & Hactp & Hmop).
  simpl message_chunks. fold len. rewrite deliver_all_app.
  destruct (frame_delivered len op (bool_decide (frames = [])) pieces f p 0 message)
    as (f1 & E1 & Hwf1 & Hc1 & Hcap1 & Hmop1 & Hact1 & Hfa1 & Haw1); try done; [lia|].
  rewrite E1. cbn [fst snd].
  assert (0 < length pieces)%nat as Hlp by (destruct pieces; [done|simpl; lia]).
  destruct frames as [|next frames].
  - exists f1. simpl. rewrite !app_nil_r. split_and!; try done. congruence.
  - rewrite bool_decide_false in * by done.
    destruct (IH f1 kContinuationOpcode (message ++ concat pieces)) as (f2 & E2 & Hwf2 & Hc2 & Hmop2);
      try done.
    + unfold may_start. rewrite Hact1, Hactp. by split.
    + unfold message_so_far. by rewrite Hact1, Hactp.
    + unfold total. rewrite length_app. lia.
    + exists f2. rewrite E2. cbn [fst snd]. rewrite concat_app. split_and!; try done.
      * apply (f_equal (fun l => (l, f2))). cbn [frame_result]. rewrite app_assoc. f_equal.
        change [DECK_COMPANION_LINK_FRAME_PARTIAL] with (replicate 1 DECK_COMPANION_LINK_FRAME_PARTIAL).
        rewrite <- !replicate_add, length_app. f_equal.
        apply Forall_cons in Hall as [(Hn & _) _]. destruct next; [done|]. simpl. lia.
      * by rewrite app_assoc.
      * rewrite Hmop2, Hact1, Hactp. congruence.
Qed.

(** Reassembly is complete.  A text or binary message cut into any
    number of frames, each cut into any number of non-empty transport chunks,
    that fits the buffer is reassembled: every chunk but the last answers
    PARTIAL, the last one COMPLETE, and the buffer then holds exactly the
    concatenation of all chunks under the message's opcode. *)
Theorem messages_are_reassembled frame op frames buf :
  wf_link_frame frame -> buffer frame = Some buf ->
  op = kTextOpcode \/ op = kBinaryOpcode ->
  frames <> [] -> Forall wf_pieces frames -> (total frames <= capacity frame)%nat ->
  exists f, deliver_all (deck_companion_link_frame_reset frame) (message_chunks op frames)
      = (replicate (length (concat frames) - 1) DECK_COMPANION_LINK_FRAME_PARTIAL
         ++ [DECK_COMPANION_LINK_FRAME_COMPLETE], f)
  /\ content f (concat (concat frames)) /\ message_opcode f = op.
Proof.
  intros (Hbuf & _) Hb Hop Hne Hall Hroom.
  destruct (message_delivered frames (deck_companion_link_frame_reset frame) op [])
    as (f & E & _ & Hc & Hmop); try done.
  - unfold wf_link_frame. simpl. split_and!; try done; lia.
  - by exists f.
Qed.

Module LinkFrameExample.
Definition fresh : deck_companion_link_frame_t :=
  deck_companion_link_frame_init (Some (replicate 8 0)) 8.
(** A frame in two chunks and its continuation. *)
Definition frames : list (list bytes) := [[[1; 2]; [3]]; [[4; 5; 6]]].
End LinkFrameExample.

Lemma fresh_wf : wf_link_frame LinkFrameExample.fresh.
Proof. unfold wf_link_frame. simpl. split_and!; try done; try lia. by intros ? [= <-]. Qed.

Lemma messages_are_reassembled_witness :
  (deliver_all LinkFrameExample.fresh (message_chunks kTextOpcode LinkFrameExample.frames)).1
    = [DECK_COMPANION_LINK_FRAME_PARTIAL; DECK_COMPANION_LINK_FRAME_PARTIAL;
       DECK_COMPANION_LINK_FRAME_COMPLETE]
  /\ exists f, deliver_all (deck_companion_link_frame_reset LinkFrameExample.fresh)
       (message_chunks kTextOpcode LinkFrameExample.frames)
       = (replicate 2 DECK_COMPANION_LINK_FRAME_PARTIAL ++ [DECK_COMPANION_LINK_FRAME_COMPLETE], f)
     /\ content f [1; 2; 3; 4; 5; 6] /\ message_opcode f = kTextOpcode.
Proof.
  split; [reflexivity|].
  apply (messages_are_reassembled LinkFrameExample.fresh kTextOpcode LinkFrameExample.frames
    (replicate 8 0) fresh_wf eq_refl).
  - by left.
  - done.
  - repeat constructor; done.
  - vm_compute. lia.
Defined.

Lemma accept_appends_or_refuses_witness :
  (deck_companion_link_frame_accept LinkFrameExample.fresh 3 0 kTextOpcode true [1; 2]).1
    = DECK_COMPANION_LINK_FRAME_PARTIAL
  /\ message_size (deck_companion_link_frame_accept LinkFrameExample.fresh 3 0 kTextOpcode true [1; 2]).2
    = 2%nat.
Proof.
  pose proof (accept_appends_or_refuses LinkFrameExample.fresh 3 0 kTextOpcode true [1; 2]
    (replicate 8 0) fresh_wf eq_refl ltac:(unfold chunk_args; simpl; lia)) as H.
  destruct (deck_companion_link_frame_accept LinkFrameExample.fresh 3 0 kTextOpcode true [1; 2])
    as [result f] eqn:E. destruct H as (_ & _ & _ & H).
  assert (result = DECK_COMPANION_LINK_FRAME_PARTIAL) as ->
    by (clear - E; vm_compute in E; by injection E as <- _).
  split; [reflexivity|]. exact (proj1 (H ltac:(discriminate))).
Defined.
