(* ===== verification/TransportFence.v ===== *)
(** * The OTA transport fence

    [components/ota_service/deck_ota_transport_fence.cpp]: a lock-free fence
    that orders the abort of an authenticated transport against the commit of
    a boot slot, and rejects commands of a previous transport.

    One 32-bit atomic word holds an epoch and a state.  A method is the program
    of atomic accesses it makes ([prog]); any number of threads run methods
    concurrently, one access at a time ([step]).  All accesses are to the one
    word, so their modification order is the interleaving. *)

From S2P Require Import Prelude Codec.

Inductive State := idle | active | committing | aborting.

#[export] Instance fence_state_eq_dec : EqDecision State.
Proof. solve_decision. Defined.

(** [static_cast<uint32_t>(state)], and [static_cast<State>] of two bits. *)
Definition state_bits (state : State) : Z :=
  match state with idle => 0 | active => 1 | committing => 2 | aborting => 3 end.

Definition bits_state (bits : Z) : State :=
  if bits =? 0 then idle else if bits =? 1 then active else if bits =? 2 then committing else aborting.

Definition kStateBits : Z := 2.
Definition kStateMask : Z := u32 (Z.shiftl 1 kStateBits) - 1.
Definition kMaximumEpoch : Z := Z.shiftr U32_MAX kStateBits.

Definition encode (epoch : Z) (state : State) : Z :=
  Z.lor (u32 (Z.shiftl epoch kStateBits)) (state_bits state).
Definition epoch_of (word : Z) : Z := Z.shiftr word kStateBits.
Definition state_of (word : Z) : State := bits_state (Z.land word kStateMask).

(** The initial value of [word_]. *)
Definition initial_word : Z := encode 1 idle.

(** ** Programs of atomic accesses *)

Inductive prog :=
  | Return (result : option Z)
  (** [word_.load] *)
  | Load (k : Z -> prog)
  (** [return word_.compare_exchange_strong(expected, desired)] *)
  | CasReturn (expected desired : Z)
  (** [while (cond(current) && !word_.compare_exchange_weak(current, next(current))) {}] *)
  | CasWhile (cond : Z -> bool) (next : Z -> Z) (current : Z).

Definition return_bool (b : bool) : prog := Return (Some (if b then 1 else 0)).

Definition capture_epoch : prog := Load (fun word => Return (Some (epoch_of word))).

Definition accepts (command_epoch : Z) : prog :=
  Load (fun word => return_bool (command_epoch =? epoch_of word)).

Definition begin_transaction (command_epoch : Z) : prog :=
  Load (fun current =>
    if negb (epoch_of current =? command_epoch) || negb (bool_decide (state_of current = idle))
    then return_bool false
    else CasReturn current (encode command_epoch active)).

Definition try_begin_commit : prog :=
  Load (fun current =>
    if negb (bool_decide (state_of current = active)) then return_bool false
    else CasReturn current (encode (epoch_of current) committing)).

Definition finish_commit : prog :=
  Load (CasWhile (fun current => bool_decide (state_of current = committing))
                 (fun current => encode (epoch_of current) idle)).

Definition abort_word (current : Z) : Z :=
  let current_state := state_of current in
  let next_state := if bool_decide (current_state = committing) then committing else aborting in
  let current_epoch := epoch_of current in
  let next_epoch := if current_epoch =? kMaximumEpoch then 1 else u32 (current_epoch + 1) in
  encode next_epoch next_state.

Definition begin_abort : prog := Load (CasWhile (fun _ => true) abort_word).

Definition finish_abort : prog :=
  Load (CasWhile (fun current => negb (bool_decide (state_of current = idle)))
                 (fun current => encode (epoch_of current) idle)).

Definition end_transaction : prog :=
  Load (CasWhile (fun current => bool_decide (state_of current = active))
                 (fun current => encode (epoch_of current) idle)).

Inductive method :=
  | CaptureEpoch
  | Accepts (command_epoch : Z)
  | BeginTransaction (command_epoch : Z)
  | TryBeginCommit
  | FinishCommit
  | BeginAbort
  | FinishAbort
  | EndTransaction.
#[export] Instance method_eq_dec : EqDecision method.
Proof. solve_decision. Defined.

Definition program (m : method) : prog :=
  match m with
  | CaptureEpoch => capture_epoch
  | Accepts epoch => accepts epoch
  | BeginTransaction epoch => begin_transaction epoch
  | TryBeginCommit => try_begin_commit
  | FinishCommit => finish_commit
  | BeginAbort => begin_abort
  | FinishAbort => finish_abort
  | EndTransaction => end_transaction
  end.

(** One atomic access; the flag says that a compare-exchange succeeded.  A
    weak one may fail although the word has the expected value. *)
Inductive access : Z -> prog -> bool -> Z -> prog -> Prop :=
  | access_load w k : access w (Load k) false w (k w)
  | access_cas_success w desired :
      access w (CasReturn w desired) true desired (return_bool true)
  | access_cas_failure w expected desired :
      w <> expected -> access w (CasReturn expected desired) false w (return_bool false)
  | access_while_exit w cond next current :
      cond current = false -> access w (CasWhile cond next current) false w (Return None)
  | access_while_success w cond next :
      cond w = true -> access w (CasWhile cond next w) true (next w) (Return None)
  | access_while_failure w cond next current :
      cond current = true -> access w (CasWhile cond next current) false w (CasWhile cond next w).

(** The shared word, the methods in progress, and, as a ghost, the methods
    whose compare-exchange succeeded, in order. *)
Record system := {
  word_ : Z;
  threads : gmap nat (method * prog);
  history : list method;
}.

Definition boot : system := {| word_ := initial_word; threads := ∅; history := [] |}.

Inductive step : system -> system -> Prop :=
  | step_call s t m :
      threads s !! t = None ->
      step s {| word_ := word_ s; threads := <[t := (m, program m)]> (threads s);
                history := history s |}
  | step_access s t m p changed w p' :
      threads s !! t = Some (m, p) -> access (word_ s) p changed w p' ->
      step s {| word_ := w; threads := <[t := (m, p')]> (threads s);
                history := if changed then history s ++ [m] else history s |}
  | step_return s t m r :
      threads s !! t = Some (m, Return r) ->
      step s {| word_ := word_ s; threads := delete t (threads s); history := history s |}.

Inductive reachable : system -> Prop :=
  | reachable_boot : reachable boot
  | reachable_step s s' : reachable s -> step s s' -> reachable s'.

(** ** Specification: one atomic transition per method *)

Definition fence : Type := Z * State.

(** The transition a method makes, if it makes one. *)
Definition atomic (m : method) (f : fence) : option fence :=
  let '(epoch, state) := f in
  match m with
  | CaptureEpoch | Accepts _ => None
  | BeginTransaction e => if (epoch =? e) && bool_decide (state = idle) then Some (epoch, active) else None
  | TryBeginCommit => if bool_decide (state = active) then Some (epoch, committing) else None
  | FinishCommit => if bool_decide (state = committing) then Some (epoch, idle) else None
  | BeginAbort =>
      Some (if epoch =? kMaximumEpoch then 1 else epoch + 1,
            if bool_decide (state = committing) then committing else aborting)
  | FinishAbort => if bool_decide (state = idle) then None else Some (epoch, idle)
  | EndTransaction => if bool_decide (state = active) then Some (epoch, idle) else None
  end.

(** The fence after a sequence of transitions, all of them enabled. *)
Inductive linear : list method -> fence -> Prop :=
  | linear_nil : linear [] (1, idle)
  | linear_snoc h m f f' : linear h f -> atomic m f = Some f' -> linear (h ++ [m]) f'.

Definition decode (w : Z) : fence := (epoch_of w, state_of w).

Definition is_epoch (e : Z) : Prop := 1 <= e <= kMaximumEpoch.

Lemma encode_add e s : is_epoch e -> encode e s = e * 4 + state_bits s.
Proof.
  unfold is_epoch, encode. change kMaximumEpoch with 1073741823. intros He.
  rewrite u32_id by (rewrite Z.shiftl_mul_pow2 by done; change (2 ^ kStateBits) with 4; words).
  rewrite Z.lor_comm, lor_shiftl_add by (destruct s; simpl; unfold kStateBits; lia).
  change (2 ^ kStateBits) with 4. lia.
Qed.

Lemma epoch_encode e s : is_epoch e -> epoch_of (encode e s) = e.
Proof.
  intros He. rewrite encode_add by done. unfold epoch_of, kStateBits.
  rewrite Z.shiftr_div_pow2 by lia. change (2 ^ 2) with 4.
  rewrite Z.add_comm, Z.div_add by lia. by destruct s.
Qed.

Lemma state_encode e s : is_epoch e -> state_of (encode e s) = s.
Proof.
  intros He. rewrite encode_add by done. unfold state_of.
  change kStateMask with (Z.ones 2). rewrite Z.land_ones by lia. change (2 ^ 2) with 4.
  rewrite Z.add_comm, Z.mod_add by lia. by destruct s.
Qed.

Lemma decode_encode e s : is_epoch e -> decode (encode e s) = (e, s).
Proof. intros. unfold decode. by rewrite epoch_encode, state_encode. Qed.

Lemma linear_epoch h f : linear h f -> is_epoch f.1.
Proof.
  induction 1 as [|h m [e st] f' _ IH Hm]; [by unfold is_epoch|]. simpl in IH.
  unfold is_epoch in *. change kMaximumEpoch with 1073741823 in *.
  destruct m; simpl in Hm; repeat case_match; simplify_eq/=; bool_prop; subst; simpl; try lia.
  all: change kMaximumEpoch with 1073741823 in *; lia.
Qed.

(** ** Every compare-exchange that succeeds is the atomic transition *)

(** What the program of [m] may have become. *)
Inductive continuation (m : method) : prog -> Prop :=
  | continuation_start : continuation m (program m)
  | continuation_return r : continuation m (Return r)
  | continuation_cas expected desired :
      (forall e st, is_epoch e -> expected = encode e st ->
         exists f, atomic m (e, st) = Some f /\ desired = encode f.1 f.2 /\ is_epoch f.1) ->
      continuation m (CasReturn expected desired)
  | continuation_while cond next current :
      (forall e st, is_epoch e -> cond (encode e st) = true ->
         exists f, atomic m (e, st) = Some f /\ next (encode e st) = encode f.1 f.2 /\ is_epoch f.1) ->
      continuation m (CasWhile cond next current).

Lemma abort_word_spec e st :
  is_epoch e -> exists f, atomic BeginAbort (e, st) = Some f /\ abort_word (encode e st) = encode f.1 f.2
                     /\ is_epoch f.1.
Proof.
  intros He. unfold abort_word. rewrite epoch_encode, state_encode by done.
  eexists. split; [reflexivity|]. simpl. unfold is_epoch in *.
  change kMaximumEpoch with 1073741823 in *. case_match; bool_prop; split; try done; try lia.
  by rewrite u32_id by words.
Qed.

(** A load leaves a continuation. *)
Lemma continuation_load m w k :
  program m = Load k -> (exists e st, is_epoch e /\ w = encode e st) -> continuation m (k w).
Proof.
  intros Hk (e & st & He & ->). destruct m; simpl in Hk; injection Hk as <-.
  - apply continuation_return.
  - apply continuation_return.
  - rewrite epoch_encode, state_encode by done. case_match eqn:Hg; [apply continuation_return|].
    bool_prop. apply continuation_cas. intros e' st' He' E.
    apply (f_equal decode) in E. rewrite !decode_encode in E by done. simplify_eq.
    exists (e', active). simpl. rewrite Z.eqb_refl. auto.
  - rewrite epoch_encode, state_encode by done. case_match eqn:Hg; [apply continuation_return|].
    bool_prop. apply continuation_cas. intros e' st' He' E.
    apply (f_equal decode) in E. rewrite !decode_encode in E by done. simplify_eq.
    exists (e', committing). auto.
  - apply continuation_while. intros e' st' He'. rewrite state_encode, epoch_encode by done.
    intros Hst. exists (e', idle). simpl. by rewrite Hst.
  - apply continuation_while. intros e' st' He' _. by apply abort_word_spec.
  - apply continuation_while. intros e' st' He'. rewrite state_encode, epoch_encode by done.
    intros Hst%negb_true_iff. exists (e', idle). simpl. by rewrite Hst.
  - apply continuation_while. intros e' st' He'. rewrite state_encode, epoch_encode by done.
    intros Hst. exists (e', idle). simpl. by rewrite Hst.
Qed.

(** Inversion of a continuation by the shape of its program; the start of a
    method is a load. *)
Lemma continuation_inv m p :
  continuation m p ->
  match p with
  | Return _ => True
  | Load k => program m = Load k
  | CasReturn expected desired =>
      forall e st, is_epoch e -> expected = encode e st ->
        exists f, atomic m (e, st) = Some f /\ desired = encode f.1 f.2 /\ is_epoch f.1
  | CasWhile cond next _ =>
      forall e st, is_epoch e -> cond (encode e st) = true ->
        exists f, atomic m (e, st) = Some f /\ next (encode e st) = encode f.1 f.2 /\ is_epoch f.1
  end.
Proof. intros [| | |]; try done. by destruct m. Qed.

Lemma access_continuation m e st p changed w0 w p' :
  is_epoch e -> w0 = encode e st -> continuation m p -> access w0 p changed w p' ->
  continuation m p'
  /\ if changed then exists f, atomic m (e, st) = Some f /\ w = encode f.1 f.2 else w = w0.
Proof.
  intros He Hw0 Hc%continuation_inv Ha. destruct Ha; (split; [try apply continuation_return|try done]).
  - eapply continuation_load; eauto.
  - destruct (Hc e st He Hw0) as (f & ? & ? & _). eauto.
  - subst. destruct (Hc e st He H) as (f & ? & ? & _). eauto.
  - by apply continuation_while.
Qed.

(** The word is the encoding of the fence that the history of successful
    compare-exchanges leads to, and every program in progress continues its
    method. *)
Definition linearized (s : system) : Prop :=
  exists f, linear (history s) f /\ word_ s = encode f.1 f.2
  /\ map_Forall (fun _ mp => continuation mp.1 mp.2) (threads s).

Lemma reachable_linearized s : reachable s -> linearized s.
Proof.
  induction 1 as [|s s' _ (f & Hl & Hw & Hc) Hs].
  { exists (1, idle). split_and!; [constructor|done|apply map_Forall_empty]. }
  destruct Hs as [s t m Hnone|s t m p changed w p' Hp Ha|s t m r Hr]; unfold linearized; simpl.
  - exists f. split_and!; try done. apply map_Forall_insert_2; [apply continuation_start|done].
  - destruct f as [e st]. pose proof (linear_epoch _ _ Hl) as He.
    pose proof (Hc t _ Hp) as Hcp. simpl in *.
    destruct (access_continuation m e st p changed (word_ s) w p' He Hw Hcp Ha) as [Hc' Hchange].
    destruct changed.
    + destruct Hchange as (f' & Hm & ->). exists f'.
      split_and!; [by econstructor|done|by apply map_Forall_insert_2].
    + subst w. exists (e, st). split_and!; try done. by apply map_Forall_insert_2.
  - exists f. split_and!; try done. by apply map_Forall_delete.
Qed.

Definition is_abort (m : method) : bool := bool_decide (m = BeginAbort).
Definition aborts (h : list method) : nat := length (List.filter is_abort h).

(** The epoch after [n] aborts. *)
Definition epoch_after (n : nat) : Z := 1 + Z.of_nat n mod kMaximumEpoch.

Lemma aborts_snoc h m : aborts (h ++ [m]) = (aborts h + if is_abort m then 1 else 0)%nat.
Proof. unfold aborts. rewrite List.filter_app, length_app. simpl. by destruct (is_abort m). Qed.

Lemma linear_epoch_after h f : linear h f -> f.1 = epoch_after (aborts h).
Proof.
  induction 1 as [|h m [e st] f' _ IH Hm]; [done|]. rewrite aborts_snoc. simpl in IH.
  unfold epoch_after in *. change kMaximumEpoch with 1073741823 in *.
  destruct m; simpl in Hm; repeat case_match; simplify_eq/=; bool_prop; subst; simpl;
    rewrite ?Nat.add_0_r; try done; change kMaximumEpoch with 1073741823 in *;
    rewrite Nat2Z.inj_add; Z.div_mod_to_equations; lia.
Qed.

Lemma linear_snoc_inv h m f' :
  linear (h ++ [m]) f' -> exists f, linear h f /\ atomic m f = Some f'.
Proof.
  inversion 1 as [E|h0 m0 f ? Hl Hm E]; [by destruct h|]. apply app_inj_tail in E as [-> ->]. eauto.
Qed.

Lemma linear_prefix h1 h2 f : linear (h1 ++ h2) f -> exists f', linear h1 f'.
Proof.
  revert f. induction h2 as [|m h2 IH] using rev_ind; intros f; [rewrite app_nil_r; eauto|].
  rewrite app_assoc. intros (g & Hg & _)%linear_snoc_inv. eauto.
Qed.

(** Only the begin of a transaction makes the fence active. *)
Lemma active_after h f :
  linear h f -> f.2 = active -> exists h' e, h = h' ++ [BeginTransaction e].
Proof.
  intros Hl Hact. destruct h as [|m h _] using rev_ind.
  { by inversion Hl as [E|? ? ? ? ? ? E]; [subst|destruct h]. }
  exists h. apply linear_snoc_inv in Hl as ([e st] & _ & Hm).
  destruct m; simpl in Hm; repeat case_match; simplify_eq/=; eauto.
Qed.

(** C28: The fence is linearizable.  In every interleaving of any number of
    threads, spurious compare-exchange failures included, the methods whose
    compare-exchange succeeded form a sequence of atomic transitions, each of
    them enabled where it stands, and the word encodes where it leads. *)
Theorem fence_is_linearizable s :
  reachable s -> exists f, linear (history s) f /\ decode (word_ s) = f.
Proof.
  intros (f & Hl & Hw & _)%reachable_linearized. exists f. split; [done|].
  rewrite Hw. destruct f as [e st]. apply decode_encode. by apply linear_epoch in Hl.
Qed.

(** C27: An abort wins over every commit that has not begun.  In the
    linearization order a commit directly follows the begin of its
    transaction: no abort, no other transaction and no end of it comes between
    them.  A transaction begins only for the epoch of the aborts before it, so
    a command that captured its epoch before an abort is refused after it,
    until 2^30 - 1 aborts have passed. *)
Theorem abort_fences_commit s before after :
  reachable s ->
  (history s = before ++ TryBeginCommit :: after ->
     exists earlier e, before = earlier ++ [BeginTransaction e])
  /\ (forall e, history s = before ++ BeginTransaction e :: after ->
        e = epoch_after (aborts before)
        /\ forall captured, e = epoch_after captured ->
             (captured <= aborts before < captured + Z.to_nat kMaximumEpoch)%nat ->
             captured = aborts before).
Proof.
  intros (f & Hl & _)%reachable_linearized.
  assert (forall m, history s = before ++ m :: after ->
    exists g g', linear before g /\ atomic m g = Some g') as Hat.
  { intros m E. rewrite E in Hl. change (m :: after) with ([m] ++ after) in Hl.
    rewrite app_assoc in Hl. apply linear_prefix in Hl as (g' & Hl).
    apply linear_snoc_inv in Hl as (g & Hg & Hm). eauto. }
  split.
  - intros E. destruct (Hat _ E) as ([e st] & g' & Hg & Hm). simpl in Hm. case_match; [|done].
    bool_prop. by apply (active_after before (e, st)).
  - intros e E. destruct (Hat _ E) as ([e' st] & g' & Hg & Hm). simpl in Hm. case_match; [|done].
    bool_prop. subst. pose proof (linear_epoch_after _ _ Hg) as He. simpl in He.
    split; [done|]. intros captured Hcap Hrange. rewrite He in Hcap. unfold epoch_after in Hcap.
    change kMaximumEpoch with 1073741823 in *. Z.div_mod_to_equations. lia.
Qed.

(** ** Progress *)

(** A thread that runs alone, its compare-exchanges not failing spuriously:
    the result and the word, once it has returned. *)
Fixpoint solo (fuel : nat) (w : Z) (p : prog) : option (option Z * Z) :=
  match fuel with
  | O => None
  | S fuel =>
      match p with
      | Return r => Some (r, w)
      | Load k => solo fuel w (k w)
      | CasReturn expected desired =>
          if w =? expected then solo fuel desired (return_bool true)
          else solo fuel w (return_bool false)
      | CasWhile cond next current =>
          if negb (cond current) then solo fuel w (Return None)
          else if w =? current then solo fuel (next current) (Return None)
          else solo fuel w (CasWhile cond next w)
      end
  end.

Lemma solo_while fuel w cond next current :
  exists r w', solo (3 + fuel) w (CasWhile cond next current) = Some (r, w').
Proof.
  cbn [solo Nat.add]. destruct (cond current); simpl; [|eauto].
  destruct (w =? current); [eauto|]. rewrite Z.eqb_refl. destruct (cond w); simpl; eauto.
Qed.

(** The loops terminate.  A method in progress at any moment of any
    interleaving, begin_abort's unbounded loop included, returns after at most
    three more accesses once it runs without interference. *)
Theorem fence_methods_return s t m p :
  reachable s -> threads s !! t = Some (m, p) ->
  exists r w, solo 4 (word_ s) p = Some (r, w).
Proof.
  intros (f & _ & _ & Hc)%reachable_linearized Ht. specialize (Hc t _ Ht). simpl in Hc.
  apply continuation_inv in Hc. destruct p as [r|k|expected desired|cond next current].
  - exists r, (word_ s). done.
  - change (solo 4 (word_ s) (Load k)) with (solo 3 (word_ s) (k (word_ s))).
    destruct m; injection Hc as <-; unfold return_bool; try (case_match; unfold return_bool);
      try apply (solo_while 0); simpl; try case_match; eauto.
  - unfold return_bool; simpl; case_match; eauto.
  - apply (solo_while 1).
Qed.

(** ** Concrete schedules *)

Inductive choice := Call (t : nat) (m : method) | Go (t : nat) | Finish (t : nat).

Definition choose (s : system) (c : choice) : option system :=
  match c with
  | Call t m =>
      match threads s !! t with
      | Some _ => None
      | None => Some {| word_ := word_ s; threads := <[t := (m, program m)]> (threads s);
                        history := history s |}
      end
  | Go t =>
      let put m p w h := Some {| word_ := w; threads := <[t := (m, p)]> (threads s); history := h |} in
      match threads s !! t with
      | Some (m, Load k) => put m (k (word_ s)) (word_ s) (history s)
      | Some (m, CasReturn expected desired) =>
          if word_ s =? expected then put m (return_bool true) desired (history s ++ [m])
          else put m (return_bool false) (word_ s) (history s)
      | Some (m, CasWhile cond next current) =>
          if negb (cond current) then put m (Return None) (word_ s) (history s)
          else if word_ s =? current then put m (Return None) (next current) (history s ++ [m])
          else put m (CasWhile cond next (word_ s)) (word_ s) (history s)
      | _ => None
      end
  | Finish t =>
      match threads s !! t with
      | Some (m, Return r) =>
          Some {| word_ := word_ s; threads := delete t (threads s); history := history s |}
      | _ => None
      end
  end.

Fixpoint schedule (s : system) (cs : list choice) : option system :=
  match cs with
  | [] => Some s
  | c :: cs => match choose s c with Some s => schedule s cs | None => None end
  end.

Lemma choose_step s c s' : choose s c = Some s' -> step s s'.
Proof.
  destruct c as [t m|t|t]; simpl; intros H.
  - case_match eqn:E; simplify_eq. by apply step_call.
  - destruct (threads s !! t) as [[m p]|] eqn:E; [|done].
    destruct p as [r|k|expected desired|cond next current]; [done|..].
    + injection H as <-. by apply (step_access _ t m _ false _ _ E), access_load.
    + case_match eqn:Ew; injection H as <-; bool_prop.
      * subst. by apply (step_access _ t m _ true _ _ E), access_cas_success.
      * by apply (step_access _ t m _ false _ _ E), access_cas_failure.
    + destruct (cond current) eqn:Ec; simpl in H.
      * case_match eqn:Ew; injection H as <-; bool_prop.
        -- subst. by apply (step_access _ t m _ true _ _ E), access_while_success.
        -- by apply (step_access _ t m _ false _ _ E), access_while_failure.
      * injection H as <-. by apply (step_access _ t m _ false _ _ E), access_while_exit.
  - destruct (threads s !! t) as [[m p]|] eqn:E; [|done]. destruct p; [|done..].
    injection H as <-. by eapply step_return.
Qed.

Lemma schedule_reachable s cs s' : reachable s -> schedule s cs = Some s' -> reachable s'.
Proof.
  revert s. induction cs as [|c cs IH]; intros s Hs; simpl; [by intros [= <-]|].
  case_match eqn:E; [|done]. apply IH. eapply reachable_step; [done|by eapply choose_step].
Qed.

Module FenceExample.
(** The worker (0) commits while the link (1) aborts; the abort loads the word
    before the commit and loses its first compare-exchange. *)
Definition choices : list choice :=
  [Call 0 (BeginTransaction 1); Go 0; Go 0; Finish 0; Call 0 TryBeginCommit; Call 1 BeginAbort;
   Go 1; Go 0; Go 0; Go 1; Finish 0].
Definition state : system :=
  match schedule boot choices with Some s => s | None => boot end.
Lemma state_reachable : reachable state.
Proof.
  unfold state. destruct (schedule boot choices) eqn:E; [|apply reachable_boot].
  by apply (schedule_reachable boot choices), E; constructor.
Qed.
End FenceExample.

Lemma fence_is_linearizable_witness :
  exists f, linear (history FenceExample.state) f /\ decode (word_ FenceExample.state) = f
    /\ f = (1, committing).
Proof.
  destruct (fence_is_linearizable FenceExample.state FenceExample.state_reachable) as (f & Hl & Hd).
  exists f. split; [exact Hl|]. split; [exact Hd|]. rewrite <- Hd. vm_compute. reflexivity.
Defined.

Lemma abort_fences_commit_witness :
  history FenceExample.state = [BeginTransaction 1] ++ TryBeginCommit :: []
  /\ exists earlier e, [BeginTransaction 1] = earlier ++ [BeginTransaction e].
Proof.
  assert (history FenceExample.state = [BeginTransaction 1] ++ TryBeginCommit :: []) as H
    by (vm_compute; reflexivity).
  split; [exact H|].
  exact (proj1 (abort_fences_commit FenceExample.state [BeginTransaction 1] []
    FenceExample.state_reachable) H).
Defined.

Lemma fence_methods_return_witness :
  exists r w, match threads FenceExample.state !! 1%nat with
              | Some (_, p) => solo 4 (word_ FenceExample.state) p = Some (r, w)
              | None => False
              end.
Proof.
  assert (match threads FenceExample.state !! 1%nat with Some _ => true | None => false end = true)
    as Hrunning by (vm_compute; reflexivity).
  destruct (threads FenceExample.state !! 1%nat) as [[m p]|] eqn:E; [|discriminate].
  exact (fence_methods_return FenceExample.state 1 m p FenceExample.state_reachable E).
Defined.
