(* ===== verification/Ring.v ===== *)
(** * Circular buffers

    The fixed array with a start index and a count that several components
    keep ([ring_events] of the diagnostic ring, [items] of the setup command
    queue): what it contains, and what writing behind the last element or
    advancing the start does to that.  The serial router's per-sink ring of
    block indices is treated in [SerialRouterPool.v], with the pool it indexes. *)

From S2P Require Import Prelude.

Section ring.
Context {A : Type} (zero : A).
Implicit Type items : list A.

Definition at_index items (i : nat) : A := nth i items zero.

(** The [count] elements from [start], around the end of the array. *)
Definition contents items (start count : nat) : list A :=
  map (fun i => at_index items ((start + i) mod length items)) (seq 0 count).

Lemma length_contents items start count : length (contents items start count) = count.
Proof. unfold contents. by rewrite length_map, length_seq. Qed.

Lemma mod_twice (x c : nat) :
  (0 < c)%nat -> (x < 2 * c)%nat -> (x mod c)%nat = if (x <? c)%nat then x else (x - c)%nat.
Proof.
  intros Hc Hx. case_match; bool_prop; [by apply Nat.mod_small|].
  replace x with ((x - c) + 1 * c)%nat at 1 by lia.
  rewrite Nat.Div0.mod_add. apply Nat.mod_small. lia.
Qed.

Lemma at_index_insert items i j x :
  (i < length items)%nat -> at_index (<[i := x]> items) j = if (i =? j)%nat then x else at_index items j.
Proof.
  intros Hi. unfold at_index. rewrite !nth_lookup. destruct (Nat.eqb_spec i j) as [->|Hne].
  - by rewrite list_lookup_insert_eq.
  - by rewrite list_lookup_insert_ne.
Qed.

(** Writing the first free cell of a buffer that is not full appends. *)
Lemma contents_push items start count x :
  (start < length items)%nat -> (count < length items)%nat ->
  contents (<[((start + count) mod length items)%nat := x]> items) start (S count)
    = contents items start count ++ [x].
Proof.
  intros Hs Hc. unfold contents. rewrite length_insert, seq_S, map_app. simpl. f_equal.
  - apply map_ext_in. intros i Hi%in_seq. rewrite at_index_insert by (apply Nat.mod_upper_bound; lia).
    rewrite !mod_twice by lia. case_match eqn:E; [|done].
    exfalso. repeat case_match; bool_prop; lia.
  - rewrite at_index_insert by (apply Nat.mod_upper_bound; lia). by rewrite Nat.eqb_refl.
Qed.

(** Writing the start cell of a full buffer and advancing the start drops the
    oldest element. *)
Lemma contents_replace items start x :
  (start < length items)%nat ->
  contents (<[start := x]> items) ((start + 1) mod length items) (length items)
    = drop 1 (contents items start (length items)) ++ [x].
Proof.
  intros Hs. set (n := length items).
  assert (exists m, n = S m) as [m Hm] by (exists (n - 1)%nat; lia).
  assert (seq 0 n = seq 0 m ++ [m]) as Hback by (by rewrite Hm, seq_S).
  assert (seq 0 n = 0%nat :: map S (seq 0 m)) as Hfront by (by rewrite Hm, <- cons_seq, <- seq_shift).
  unfold contents. rewrite length_insert. fold n. rewrite Hback at 1. rewrite Hfront, map_app.
  simpl drop. rewrite drop_0, map_map. f_equal.
  - apply map_ext_in. intros i Hi%in_seq. rewrite Nat.Div0.add_mod_idemp_l.
    replace (start + 1 + i)%nat with (start + S i)%nat by lia.
    rewrite at_index_insert by done. rewrite mod_twice by lia.
    case_match eqn:E; [|done]. exfalso. repeat case_match; bool_prop; lia.
  - simpl. f_equal. rewrite Nat.Div0.add_mod_idemp_l.
    replace (start + 1 + m)%nat with (start + 1 * n)%nat by lia.
    rewrite Nat.Div0.mod_add, Nat.mod_small by done.
    rewrite at_index_insert by done. by rewrite Nat.eqb_refl.
Qed.

(** Overwriting the start cell and advancing the start removes the first
    element. *)
Lemma contents_pop items start count x :
  (start < length items)%nat -> (count < length items)%nat ->
  contents items start (S count)
    = at_index items start
      :: contents (<[start := x]> items) ((start + 1) mod length items) count.
Proof.
  intros Hs Hc. unfold contents. rewrite length_insert, <- cons_seq, <- seq_shift. simpl. rewrite map_map.
  rewrite Nat.add_0_r, Nat.mod_small by done. f_equal.
  apply map_ext_in. intros i Hi%in_seq. rewrite Nat.Div0.add_mod_idemp_l.
  replace (start + 1 + i)%nat with (start + S i)%nat by lia.
  rewrite at_index_insert by done.
  destruct (Nat.eqb_spec start ((start + S i) mod length items)) as [E|]; [|done].
  rewrite mod_twice in E by lia. case_match; bool_prop; lia.
Qed.

Lemma contents_lookup items start count i :
  (i < count)%nat -> contents items start count !! i = Some (at_index items ((start + i) mod length items)).
Proof.
  intros Hi. unfold contents. rewrite list_lookup_fmap. rewrite lookup_seq_lt by done. done.
Qed.

End ring.
