(* ===== verification/DiagnosticRing.v ===== *)
(** * Diagnostic ring

    [components/health/deck_diagnostic_ring.cpp]: the fixed ring of the last
    64 diagnostic events, its snapshot, and the JSON document that carries a
    snapshot to the Companion.

    The file-scope variables are one record; every access is under
    [ring_mutex].  The enums are [Z], since a C caller may pass any value. *)

From Stdlib Require Import Sorted String Ascii.
From S2P Require Import Prelude CString Print Ring.

Definition DECK_DIAGNOSTIC_RING_CAPACITY : nat := 64.
#[local] Arguments DECK_DIAGNOSTIC_RING_CAPACITY : simpl never.
#[local] Arguments Nat.modulo : simpl never.
#[local] Arguments Nat.sub : simpl never.

Record deck_diagnostic_event_t := {
  monotonic_ms : Z;
  level : Z;
  component : Z;
  code : Z;
  value : Z;
}.

Definition zero_event : deck_diagnostic_event_t :=
  {| monotonic_ms := 0; level := 0; component := 0; code := 0; value := 0 |}.

(** The first [count] cells of [events] are set, the others are zero. *)
Record deck_diagnostic_snapshot_t := {
  events : list deck_diagnostic_event_t;
  count : nat;
  dropped : Z;
}.

Record ring_state := {
  ring_events : list deck_diagnostic_event_t;
  ring_start : nat;
  ring_count : nat;
  ring_dropped : Z;
}.

Implicit Types (r : ring_state) (e : deck_diagnostic_event_t).

Definition valid_level (level : Z) : bool := (0 <=? level) && (level <=? 2).
Definition valid_component (component : Z) : bool := (0 <=? component) && (component <=? 7).
Definition valid_code (code : Z) : bool := (0 <=? code) && (code <=? 12).

Definition deck_diagnostic_ring_reset : ring_state :=
  {| ring_events := replicate DECK_DIAGNOSTIC_RING_CAPACITY zero_event;
     ring_start := 0; ring_count := 0; ring_dropped := 0 |}.

Definition event_at r (index : nat) : deck_diagnostic_event_t := at_index zero_event (ring_events r) index.

(** The time a new event is recorded with: lines 85-91. *)
Definition clamped_time r (now_ms : Z) : Z :=
  if (ring_count r =? 0)%nat then now_ms
  else
    let last_index := ((ring_start r + ring_count r - 1) mod DECK_DIAGNOSTIC_RING_CAPACITY)%nat in
    if now_ms <? monotonic_ms (event_at r last_index) then monotonic_ms (event_at r last_index)
    else now_ms.

Definition deck_diagnostic_ring_record r (now_ms level component code value : Z) : bool * ring_state :=
  if negb (valid_level level) || negb (valid_component component) || negb (valid_code code)
  then (false, r)
  else
    let now_ms := clamped_time r now_ms in
    let index := ((ring_start r + ring_count r) mod DECK_DIAGNOSTIC_RING_CAPACITY)%nat in
    let events :=
      <[index := {| monotonic_ms := now_ms; level := level; component := component; code := code;
                    value := value |}]> (ring_events r) in
    (true,
     if (ring_count r <? DECK_DIAGNOSTIC_RING_CAPACITY)%nat
     then {| ring_events := events; ring_start := ring_start r; ring_count := S (ring_count r);
             ring_dropped := ring_dropped r |}
     else {| ring_events := events;
             ring_start := ((ring_start r + 1) mod DECK_DIAGNOSTIC_RING_CAPACITY)%nat;
             ring_count := ring_count r;
             ring_dropped := if negb (ring_dropped r =? U32_MAX) then ring_dropped r + 1
                             else ring_dropped r |}).

Definition deck_diagnostic_ring_snapshot r : deck_diagnostic_snapshot_t :=
  {| events :=
       map (fun index => event_at r ((ring_start r + index) mod DECK_DIAGNOSTIC_RING_CAPACITY))
           (seq 0 (ring_count r))
       ++ replicate (DECK_DIAGNOSTIC_RING_CAPACITY - ring_count r) zero_event;
     count := ring_count r; dropped := ring_dropped r |}.

(** ** The ring against the log of everything recorded *)

(** One call of [record]. *)
Record observation := { o_ms : Z; o_level : Z; o_component : Z; o_code : Z; o_value : Z }.

Definition observe r (o : observation) : ring_state :=
  (deck_diagnostic_ring_record r (o_ms o) (o_level o) (o_component o) (o_code o) (o_value o)).2.

Definition valid_observation (o : observation) : bool :=
  valid_level (o_level o) && valid_component (o_component o) && valid_code (o_code o).

(** The unbounded log: invalid observations are refused, a late one is clamped
    to the time of the one before. *)
Definition log_step (log : list deck_diagnostic_event_t) (o : observation) : list deck_diagnostic_event_t :=
  if valid_observation o then
    log ++ [{| monotonic_ms := match last log with
                               | Some e => Z.max (monotonic_ms e) (o_ms o)
                               | None => o_ms o
                               end;
               level := o_level o; component := o_component o; code := o_code o; value := o_value o |}]
  else log.

Definition log_of (os : list observation) : list deck_diagnostic_event_t := fold_left log_step os [].

Definition lost (log : list deck_diagnostic_event_t) : nat :=
  (length log - DECK_DIAGNOSTIC_RING_CAPACITY)%nat.

Definition represents r (log : list deck_diagnostic_event_t) : Prop :=
  length (ring_events r) = DECK_DIAGNOSTIC_RING_CAPACITY
  /\ (ring_start r < DECK_DIAGNOSTIC_RING_CAPACITY)%nat
  /\ ring_count r = Nat.min DECK_DIAGNOSTIC_RING_CAPACITY (length log)
  /\ ring_dropped r = Z.min U32_MAX (Z.of_nat (lost log))
  /\ contents zero_event (ring_events r) (ring_start r) (ring_count r) = drop (lost log) log.

Lemma clamped_time_spec r log now :
  represents r log ->
  clamped_time r now = match last log with Some e => Z.max (monotonic_ms e) now | None => now end.
Proof.
  intros (Hlen & Hs & Hc & _ & Hcont). unfold clamped_time, lost, DECK_DIAGNOSTIC_RING_CAPACITY in *.
  destruct (Nat.eqb_spec (ring_count r) 0) as [E|E].
  { destruct log; [done|]. simpl in Hc. lia. }
  destruct (last log) as [e|] eqn:El.
  2: { apply last_None in El. subst. simpl in Hc. lia. }
  assert (event_at r ((ring_start r + ring_count r - 1) mod 64) = e) as ->.
  { assert (drop (length log - 64) log !! (ring_count r - 1)%nat = Some e) as Hlast.
    { rewrite lookup_drop, <- El, last_lookup. f_equal. lia. }
    rewrite <- Hcont, contents_lookup in Hlast by lia. injection Hlast as <-.
    unfold event_at. rewrite Hlen. do 2 f_equal. lia. }
  case_match; bool_prop; lia.
Qed.

Lemma observe_represents r log o : represents r log -> represents (observe r o) (log_step log o).
Proof.
  intros Hr. unfold observe, deck_diagnostic_ring_record, log_step, valid_observation.
  destruct (valid_level (o_level o)), (valid_component (o_component o)), (valid_code (o_code o)); try done.
  simpl. rewrite (clamped_time_spec r log) by done. set (e := Build_deck_diagnostic_event_t _ _ _ _ _).
  destruct Hr as (Hlen & Hs & Hc & Hd & Hcont). unfold represents, lost in *.
  assert (0 < DECK_DIAGNOSTIC_RING_CAPACITY)%nat as Hpos by (unfold DECK_DIAGNOSTIC_RING_CAPACITY; lia).
  set (cap := DECK_DIAGNOSTIC_RING_CAPACITY) in *. clearbody cap. rewrite length_app. cbn [length].
  destruct (ring_count r <? cap)%nat eqn:Hfull; simpl; bool_prop.
  - rewrite length_insert. split_and!; try done; try lia.
    + rewrite <- Hlen, contents_push, Hcont by lia.
    replace (length log + 1 - length (ring_events r))%nat with 0%nat by lia.
    replace (length log - cap)%nat with 0%nat by lia.
    by rewrite !drop_0.
  - assert (ring_count r = cap) as Hcap by lia.
    rewrite length_insert. split_and!; try done; try lia.
    + apply Nat.mod_upper_bound. lia.
    + rewrite Hd. case_match; bool_prop; lia.
    + rewrite Hcap in *. rewrite <- Hlen in *.
      replace ((ring_start r + length (ring_events r)) mod length (ring_events r))%nat with (ring_start r).
      2: { replace (ring_start r + length (ring_events r))%nat
             with (ring_start r + 1 * length (ring_events r))%nat by lia.
           rewrite Nat.Div0.mod_add, Nat.mod_small by done. done. }
      rewrite contents_replace, Hcont, drop_drop by done.
      rewrite drop_app_le by lia. f_equal. f_equal. lia.
Qed.

Lemma ring_represents os : represents (fold_left observe os deck_diagnostic_ring_reset) (log_of os).
Proof.
  unfold log_of.
  assert (forall r log, represents r log -> represents (fold_left observe os r) (fold_left log_step os log)) as H.
  { induction os as [|o os IH]; intros r log Hr; [done|]. simpl. by apply IH, observe_represents. }
  apply H. unfold represents. simpl. split_and!; try done. vm_compute. lia.
Qed.

Definition earlier (a b : deck_diagnostic_event_t) : Prop := monotonic_ms a <= monotonic_ms b.

Lemma snoc_sorted (l : list deck_diagnostic_event_t) e :
  StronglySorted earlier l -> match last l with Some x => earlier x e | None => True end ->
  StronglySorted earlier (l ++ [e]).
Proof.
  intros Hs Hlast. induction Hs as [|x l Hs IH Hall]; [repeat constructor|]. simpl. constructor.
  - apply IH. destruct l; [done|]. by rewrite last_cons_cons in Hlast.
  - apply Forall_app. split; [done|]. constructor; [|constructor].
    destruct (last l) as [y|] eqn:El.
    + assert (last (x :: l) = Some y) as Hy by by rewrite last_cons, El.
      rewrite Hy in Hlast. rewrite Forall_forall in Hall. unfold earlier in *.
      transitivity (monotonic_ms y); [|done]. apply Hall. rewrite last_lookup in El.
      by eapply list_elem_of_lookup_2.
    + apply last_None in El. subst. done.
Qed.

Lemma sorted_drop n (l : list deck_diagnostic_event_t) :
  StronglySorted earlier l -> StronglySorted earlier (drop n l).
Proof.
  revert l. induction n as [|n IH]; intros l Hs; [by rewrite drop_0|].
  destruct l as [|x l]; [done|]. apply IH. by inversion Hs.
Qed.

Lemma log_sorted os : StronglySorted earlier (log_of os).
Proof.
  induction os as [|o os IH] using rev_ind; [constructor|].
  unfold log_of in *. rewrite fold_left_app. simpl. unfold log_step at 1. case_match; [|done].
  apply snoc_sorted; [done|]. destruct (last _); [|done]. unfold earlier. simpl. lia.
Qed.

(** The ring is the tail of the log.  After any sequence of recordings
    the snapshot holds the last 64 accepted events, oldest first, in
    non-decreasing time whatever times the callers passed; it counts them and
    the older ones that were dropped (saturating), and the cells behind are
    zero. *)
Theorem ring_keeps_the_latest os :
  let s := deck_diagnostic_ring_snapshot (fold_left observe os deck_diagnostic_ring_reset) in
  count s = Nat.min 64 (length (log_of os))
  /\ dropped s = Z.min U32_MAX (Z.of_nat (length (log_of os)) - Z.of_nat (count s))
  /\ take (count s) (events s) = drop (length (log_of os) - 64) (log_of os)
  /\ drop (count s) (events s) = replicate (64 - count s) zero_event
  /\ StronglySorted earlier (take (count s) (events s)).
Proof.
  destruct (ring_represents os) as (Hlen & Hs & Hc & Hd & Hcont). intros s.
  set (r := fold_left observe os deck_diagnostic_ring_reset) in *.
  assert (events s = drop (length (log_of os) - 64) (log_of os)
            ++ replicate (64 - ring_count r) zero_event) as Hev.
  { unfold s, deck_diagnostic_ring_snapshot. simpl events. unfold contents in Hcont.
    rewrite Hlen in Hcont. unfold event_at. by rewrite Hcont. }
  assert (length (drop (length (log_of os) - 64) (log_of os)) = count s) as Hl.
  { unfold s. simpl. rewrite length_drop, Hc. unfold DECK_DIAGNOSTIC_RING_CAPACITY. lia. }
  change (ring_count r) with (count s) in *.
  split_and!.
  - done.
  - change (dropped s) with (ring_dropped r). rewrite Hd, Hc. unfold lost, DECK_DIAGNOSTIC_RING_CAPACITY. lia.
  - by rewrite Hev, <- Hl, take_app_length.
  - by rewrite Hev, <- Hl, drop_app_length.
  - rewrite Hev, <- Hl, take_app_length. apply sorted_drop, log_sorted.
Qed.

(** ** The JSON document

    A [quoting] literal writes ' for the quotation mark. *)

(** [None] is [nullptr]. *)
Definition name_of (names : list string) (valid : bool) (index : Z) : option bytes :=
  if valid then quoting <$> names !! Z.to_nat index else None.

Definition deck_diagnostic_level_name (level : Z) : option bytes :=
  name_of ["info"; "warning"; "error"]%string (valid_level level) level.

Definition deck_diagnostic_component_name (component : Z) : option bytes :=
  name_of ["system"; "display"; "wifi"; "setup"; "sensor"; "device_link"; "serial"; "ota"]%string
    (valid_component component) component.

Definition deck_diagnostic_code_name (code : Z) : option bytes :=
  name_of ["boot"; "ready"; "unavailable"; "connected"; "disconnected"; "storage_error";
           "protocol_error"; "timeout"; "owner_changed"; "update_started"; "update_failed";
           "rollback"; "queue_overflow"]%string (valid_code code) code.

(** [appended] is the text that [vsnprintf] makes of the format and its
    arguments; it writes what fits, and a terminator. *)
Definition append_json (buffer : bytes) (capacity size : nat) (appended : bytes) : bool * bytes * nat :=
  if (capacity <=? size)%nat then (false, buffer, size)
  else
    let buffer := write_at buffer size (take (capacity - size - 1) appended ++ [0]) in
    if (capacity - size <=? length appended)%nat then (false, buffer, size)
    else (true, buffer, (size + length appended)%nat).

Definition header_text (request_id dropped : Z) : bytes :=
  quoting "{'type':'diagnostics.snapshot','protocol_version':1,'request_id':" ++ print_u request_id
  ++ quoting ",'dropped':" ++ print_u dropped ++ quoting ",'events':[".

Definition event_text (first : bool) e (level component code : bytes) : bytes :=
  (if first then [] else quoting ",") ++ quoting "{'monotonic_ms':" ++ print_u (monotonic_ms e)
  ++ quoting ",'level':'" ++ level ++ quoting "','component':'" ++ component
  ++ quoting "','code':'" ++ code ++ quoting "','value':" ++ print_u (value e) ++ quoting "}".

Fixpoint format_events (buffer : bytes) (capacity size index : nat) (previous : Z)
    (rest : list deck_diagnostic_event_t) : bool * bytes * nat :=
  match rest with
  | [] => (true, buffer, size)
  | e :: rest =>
      match deck_diagnostic_level_name (level e), deck_diagnostic_component_name (component e),
            deck_diagnostic_code_name (code e) with
      | Some level, Some component, Some code =>
          if negb (index =? 0)%nat && (monotonic_ms e <? previous) then (false, buffer, size)
          else
            let '(ok, buffer, size) :=
              append_json buffer capacity size (event_text (index =? 0)%nat e level component code) in
            if negb ok then (false, buffer, size)
            else format_events buffer capacity size (S index) (monotonic_ms e) rest
      | _, _, _ => (false, buffer, size)
      end
  end.

(** The result, the output buffer, and the size written through
    [output_size] when the call succeeds. *)
Definition deck_diagnostic_snapshot_format (snapshot : deck_diagnostic_snapshot_t) (request_id : Z)
    (output : bytes) (capacity : nat) : bool * bytes * option nat :=
  if (request_id =? 0) || (capacity =? 0)%nat
     || (DECK_DIAGNOSTIC_RING_CAPACITY <? count snapshot)%nat
  then (false, output, None)
  else
    let '(ok, output, size) :=
      append_json output capacity 0 (header_text request_id (dropped snapshot)) in
    if negb ok then (false, output, None)
    else
      let '(ok, output, size) :=
        format_events output capacity size 0 0 (take (count snapshot) (events snapshot)) in
      if negb ok then (false, output, None)
      else
        let '(ok, output, size) := append_json output capacity size (quoting "]}") in
        if negb ok then (false, output, None) else (true, output, Some size).

(** *** The document as one text *)

Definition names e : option (bytes * bytes * bytes) :=
  match deck_diagnostic_level_name (level e), deck_diagnostic_component_name (component e),
        deck_diagnostic_code_name (code e) with
  | Some level, Some component, Some code => Some (level, component, code)
  | _, _, _ => None
  end.

Definition event_document (first : bool) e : bytes :=
  match names e with Some (l, c, k) => event_text first e l c k | None => [] end.

Fixpoint events_document (first : bool) (es : list deck_diagnostic_event_t) : bytes :=
  match es with
  | [] => []
  | e :: es => event_document first e ++ events_document false es
  end.

Definition document (s : deck_diagnostic_snapshot_t) (request_id : Z) : bytes :=
  header_text request_id (dropped s) ++ events_document true (take (count s) (events s)) ++ quoting "]}".

(** The first [size] bytes are the document so far, terminated, and nothing at
    or after [capacity] was touched. *)
Definition holds (original buffer : bytes) (capacity size : nat) (so_far : bytes) : Prop :=
  length buffer = length original /\ size = length so_far
  /\ (size < capacity)%nat /\ take (S size) buffer = so_far ++ [0]
  /\ drop capacity buffer = drop capacity original.

Lemma append_json_spec original buffer capacity size so_far appended :
  (capacity <= length original)%nat -> holds original buffer capacity size so_far ->
  match append_json buffer capacity size appended with
  | (ok, buffer', size') =>
      ok = (length so_far + length appended <? capacity)%nat
      /\ (ok = true -> holds original buffer' capacity size' (so_far ++ appended))
      /\ length buffer' = length original /\ drop capacity buffer' = drop capacity original
  end.
Proof.
  intros Hcap (Hlen & -> & Hlt & Htake & Hdrop). unfold append_json.
  rewrite (proj2 (Nat.leb_gt _ _)) by done.
  assert (length so_far + length (take (capacity - length so_far - 1) appended ++ [0%Z]) <= capacity)%nat
    as Hfit by (rewrite length_app, length_take; simpl; lia).
  destruct (capacity - length so_far <=? length appended)%nat eqn:E; bool_prop.
  - rewrite (proj2 (Nat.ltb_ge _ _)) by lia. split_and!; [done|done| |].
    + rewrite length_write_at; lia.
    + rewrite write_at_suffix; [done|lia|lia].
  - rewrite (proj2 (Nat.ltb_lt _ _)) by lia. rewrite take_ge in * by lia.
    split_and!; [done|intros _| |].
    + unfold holds. rewrite length_app. simpl in *. rewrite length_app in Hfit. simpl in Hfit.
      split_and!; [rewrite length_write_at; rewrite ?length_app; simpl; lia|done|lia| |].
      * replace (S (length so_far + length appended))
          with (length so_far + length (appended ++ [0%Z]))%nat by (rewrite length_app; simpl; lia).
        rewrite write_at_prefix by (rewrite length_app; simpl; lia).
        rewrite <- app_assoc. f_equal.
        apply (f_equal (take (length so_far))) in Htake.
        rewrite take_take, Nat.min_l, take_app_length in Htake by lia. done.
      * rewrite write_at_suffix; [done|rewrite length_app; simpl; lia..].
    + rewrite length_write_at; [done|lia].
    + rewrite write_at_suffix; [done|lia|lia].
Qed.

(** The times never decrease; the first is unconstrained. *)
Fixpoint ordered (first : bool) (previous : Z) (es : list deck_diagnostic_event_t) : Prop :=
  match es with
  | [] => True
  | e :: es => (first = true \/ previous <= monotonic_ms e) /\ ordered false (monotonic_ms e) es
  end.

Lemma sorted_ordered first previous es :
  StronglySorted earlier es -> (first = true \/ Forall (fun e => previous <= monotonic_ms e) es) ->
  ordered first previous es.
Proof.
  intros Hs. revert first previous. induction Hs as [|e es Hs IH Hall]; intros first previous Hf; [done|].
  simpl. split.
  - destruct Hf as [|Hf]; [by left|right]. by inversion Hf.
  - apply IH. by right.
Qed.

Lemma format_events_spec original es : forall buffer capacity size index previous so_far,
  (capacity <= length original)%nat -> holds original buffer capacity size so_far ->
  Forall (fun e => is_Some (names e)) es -> ordered (index =? 0)%nat previous es ->
  match format_events buffer capacity size index previous es with
  | (ok, buffer', size') =>
      let added := events_document (index =? 0)%nat es in
      ok = (length so_far + length added <? capacity)%nat
      /\ (ok = true -> holds original buffer' capacity size' (so_far ++ added))
      /\ length buffer' = length original /\ drop capacity buffer' = drop capacity original
  end.
Proof.
  induction es as [|e es IH]; intros buffer capacity size index previous so_far Hcap Hh Hn Ho.
  { simpl. pose proof Hh as (Hlen & Hsize & Hlt & _ & Hdrop). rewrite app_nil_r, Nat.add_0_r.
    split_and!; try done. symmetry. apply Nat.ltb_lt. lia. }
  apply Forall_cons in Hn as [[[[l c] k] He] Hn]. destruct Ho as [Ho1 Ho]. simpl.
  unfold event_document. rewrite He. unfold names in He.
  destruct (deck_diagnostic_level_name _); [|done].
  destruct (deck_diagnostic_component_name _); [|done].
  destruct (deck_diagnostic_code_name _); [|done]. injection He as -> -> ->.
  assert (negb (index =? 0)%nat && (monotonic_ms e <? previous) = false) as ->.
  { destruct Ho1 as [->|Hle]; [done|]. apply andb_false_iff. right. by apply Z.ltb_ge. }
  pose proof (append_json_spec original buffer capacity size so_far
    (event_text (index =? 0)%nat e l c k) Hcap Hh) as Ha.
  destruct (append_json _ _ _ _) as [[ok buffer1] size1]. destruct Ha as (Hok & Hh1 & Hl1 & Hd1).
  rewrite length_app. destruct ok; simpl.
  - specialize (IH buffer1 capacity size1 (S index) (monotonic_ms e) _ Hcap (Hh1 eq_refl) Hn Ho).
    destruct (format_events _ _ _ _ _ _) as [[ok2 buffer2] size2]. simpl in IH.
    rewrite length_app, <- app_assoc in IH. by rewrite Nat.add_assoc.
  - split_and!; try done. symmetry in Hok. apply Nat.ltb_ge in Hok. symmetry. apply Nat.ltb_ge. lia.
Qed.

Definition formats (s : deck_diagnostic_snapshot_t) (request_id : Z) (original : bytes)
    (capacity : nat) : Prop :=
  let '(ok, output, size) := deck_diagnostic_snapshot_format s request_id original capacity in
  ok = (length (document s request_id) <? capacity)%nat
  /\ (ok = true -> size = Some (length (document s request_id))
        /\ take (S (length (document s request_id))) output = document s request_id ++ [0])
  /\ length output = length original /\ drop capacity output = drop capacity original.

(** The first text does not need a terminator to be there. *)
Lemma append_json_first original capacity h :
  (0 < capacity)%nat ->
  append_json original capacity 0 h = append_json (write_at original 0 [0]) capacity 0 h.
Proof.
  intros Hcap. assert (forall d, (0 < length d)%nat -> write_at original 0 d = write_at (write_at original 0 [0]) 0 d)
    as Hw.
  { intros [|x d] Hd; [simpl in Hd; lia|]. unfold write_at. simpl. by rewrite drop_drop. }
  unfold append_json. rewrite (proj2 (Nat.leb_gt capacity 0)) by done.
  rewrite <- Hw; [done|]. rewrite length_app. simpl. lia.
Qed.

Lemma format_spec s request_id original capacity :
  request_id <> 0 -> (count s <= DECK_DIAGNOSTIC_RING_CAPACITY)%nat ->
  Forall (fun e => is_Some (names e)) (take (count s) (events s)) ->
  StronglySorted earlier (take (count s) (events s)) ->
  (0 < capacity <= length original)%nat ->
  formats s request_id original capacity.
Proof.
  intros Hr Hc Hn Ho Hcap. unfold formats, deck_diagnostic_snapshot_format.
  rewrite (proj2 (Z.eqb_neq _ _) Hr), (proj2 (Nat.eqb_neq capacity 0)), (proj2 (Nat.ltb_ge _ _)) by lia.
  simpl orb. cbv iota. unfold document. set (h := header_text _ _).
  clearbody h. rewrite !length_app. set (tail := quoting "]}"). clearbody tail.
  assert (forall b, holds original b capacity 0 [] ->
    match append_json b capacity 0 h with (ok, b', sz') =>
      ok = (length h <? capacity)%nat /\ (ok = true -> holds original b' capacity sz' h)
      /\ length b' = length original /\ drop capacity b' = drop capacity original end) as Hhead.
  { intros b Hb. pose proof (append_json_spec original b capacity 0 [] h ltac:(lia) Hb) as Ha. exact Ha. }
  rewrite append_json_first by lia.
  assert (holds original (write_at original 0 [0]) capacity 0 []) as Hstart.
  { unfold holds. rewrite length_write_at by (simpl; lia). split_and!; try done; [lia|].
    rewrite write_at_suffix; simpl; done || lia. }
  specialize (Hhead _ Hstart). destruct (append_json _ capacity 0 h) as [[ok b1] s1].
  destruct Hhead as (Hok & Hh & Hl & Hd). destruct ok; simpl.
  2: { split_and!; try done. symmetry in Hok |- *. apply Nat.ltb_ge in Hok. apply Nat.ltb_ge. lia. }
  pose proof (format_events_spec original (take (count s) (events s)) b1 capacity s1 0 0 h
    ltac:(lia) (Hh eq_refl) Hn) as He.
  destruct (format_events _ _ _ _ _ _) as [[ok b2] s2].
  destruct He as (Hok2 & Hh2 & Hl2 & Hd2); [apply sorted_ordered; auto|].
  simpl (0 =? 0)%nat in *. set (body := events_document true _) in *. destruct ok; simpl.
  2: { split_and!; try done. symmetry in Hok2 |- *. apply Nat.ltb_ge in Hok2. apply Nat.ltb_ge. lia. }
  pose proof (append_json_spec original b2 capacity s2 _ tail ltac:(lia) (Hh2 eq_refl)) as Ht.
  destruct (append_json _ _ _ _) as [[ok b3] s3]. destruct Ht as (Hok3 & Hh3 & Hl3 & Hd3).
  rewrite length_app in Hok3. destruct ok; simpl.
  - split_and!; try done; [by rewrite Nat.add_assoc|]. intros _.
    destruct (Hh3 eq_refl) as (_ & Hsize & _ & Htake & _).
    rewrite !length_app in Hsize. rewrite Hsize in *. rewrite Nat.add_assoc.
    split; [done|]. by rewrite !app_assoc in *.
  - split_and!; try done. by rewrite Nat.add_assoc.
Qed.

(** *** Bounds *)

Lemma level_name_bound l :
  valid_level l = true -> exists n, deck_diagnostic_level_name l = Some n /\ (length n <= 14)%nat.
Proof.
  intros Hv. unfold deck_diagnostic_level_name, name_of. rewrite Hv. unfold valid_level in Hv. bool_prop.
  assert (exists k, l = Z.of_nat k /\ (k < 3)%nat) as (k & -> & Hk) by (exists (Z.to_nat l); lia).
  rewrite Nat2Z.id. do 3 (destruct k as [|k]; [eexists; split; [reflexivity|vm_compute; lia]|]). lia.
Qed.

Lemma component_name_bound c :
  valid_component c = true -> exists n, deck_diagnostic_component_name c = Some n /\ (length n <= 14)%nat.
Proof.
  intros Hv. unfold deck_diagnostic_component_name, name_of. rewrite Hv. unfold valid_component in Hv.
  bool_prop. assert (exists k, c = Z.of_nat k /\ (k < 8)%nat) as (k & -> & Hk) by (exists (Z.to_nat c); lia).
  rewrite Nat2Z.id. do 8 (destruct k as [|k]; [eexists; split; [reflexivity|vm_compute; lia]|]). lia.
Qed.

Lemma code_name_bound c :
  valid_code c = true -> exists n, deck_diagnostic_code_name c = Some n /\ (length n <= 14)%nat.
Proof.
  intros Hv. unfold deck_diagnostic_code_name, name_of. rewrite Hv. unfold valid_code in Hv. bool_prop.
  assert (exists k, c = Z.of_nat k /\ (k < 13)%nat) as (k & -> & Hk) by (exists (Z.to_nat c); lia).
  rewrite Nat2Z.id. do 13 (destruct k as [|k]; [eexists; split; [reflexivity|vm_compute; lia]|]). lia.
Qed.

Definition valid_event e : Prop :=
  valid_level (level e) = true /\ valid_component (component e) = true /\ valid_code (code e) = true.

Lemma event_document_bound first e :
  valid_event e -> is_Some (names e) /\ (length (event_document first e) <= 180)%nat.
Proof.
  intros (Hl & Hc & Hk). unfold event_document, names.
  destruct (level_name_bound _ Hl) as (l & -> & Hll), (component_name_bound _ Hc) as (c & -> & Hcl),
    (code_name_bound _ Hk) as (k & -> & Hkl). split; [eauto|]. unfold event_text, print_u.
  pose proof (length_digits 20 (monotonic_ms e)). pose proof (length_digits 20 (value e)).
  set (d1 := digits 20 (monotonic_ms e)) in *. set (d2 := digits 20 (value e)) in *. clearbody d1 d2.
  rewrite !length_app. destruct first; cbn [length quoting literal map list_ascii_of_string]; lia.
Qed.

Lemma events_document_bound first es :
  Forall valid_event es -> (length (events_document first es) <= 180 * length es)%nat.
Proof.
  intros Hv. revert first. induction Hv as [|e es He _ IH]; intros first; [simpl; lia|].
  cbn [events_document]. rewrite length_app. specialize (IH false).
  destruct (event_document_bound first e He) as [_ Hb]. cbn [length]. lia.
Qed.

Lemma header_bound request_id dropped : (length (header_text request_id dropped) <= 150)%nat.
Proof.
  unfold header_text, print_u. pose proof (length_digits 20 request_id).
  pose proof (length_digits 20 dropped).
  set (d1 := digits 20 request_id) in *. set (d2 := digits 20 dropped) in *. clearbody d1 d2.
  rewrite !length_app. cbn [length quoting literal map list_ascii_of_string]. lia.
Qed.

Lemma log_valid os : Forall valid_event (log_of os).
Proof.
  unfold log_of. induction os as [|o os IH] using rev_ind; [constructor|].
  rewrite fold_left_app. simpl. unfold log_step at 1. case_match eqn:Hv; [|done].
  apply Forall_app. split; [done|]. constructor; [|constructor].
  unfold valid_observation in Hv. bool_prop. done.
Qed.

(** The size of the Companion link's message buffer: [kMaximumMessageBytes + 1]. *)
Definition link_buffer_bytes : nat := Z.to_nat (16 * 1024 + 1).

(** Every snapshot of the ring can be sent.  Whatever was recorded, its
    document is formatted completely into the link's 16 KiB message buffer:
    the header, the events separated by commas and the closing brackets, with
    a terminator behind them; the reported size is the document's length and
    nothing behind the capacity is written. *)
Theorem ring_snapshot_always_formats os request_id original capacity :
  request_id <> 0 -> (link_buffer_bytes <= capacity <= length original)%nat ->
  let s := deck_diagnostic_ring_snapshot (fold_left observe os deck_diagnostic_ring_reset) in
  let '(ok, output, size) := deck_diagnostic_snapshot_format s request_id original capacity in
  ok = true /\ size = Some (length (document s request_id))
  /\ take (S (length (document s request_id))) output = document s request_id ++ [0]
  /\ length output = length original /\ drop capacity output = drop capacity original.
Proof.
  intros Hr Hcap s.
  assert (Z.of_nat link_buffer_bytes = 16385) as Hbuf by (unfold link_buffer_bytes; by rewrite Z2Nat.id).
  destruct (ring_represents os) as (Hlen & _ & Hc & _ & Hcont).
  set (r := fold_left observe os deck_diagnostic_ring_reset) in *.
  assert (take (count s) (events s) = drop (lost (log_of os)) (log_of os)) as Htake.
  { rewrite <- Hcont. unfold s, contents. cbn [count events deck_diagnostic_ring_snapshot].
    rewrite take_app_length'; [|by rewrite length_map, length_seq]. by rewrite Hlen. }
  assert (count s <= 64)%nat as Hcount by (unfold s; cbn [count deck_diagnostic_ring_snapshot];
    rewrite Hc; unfold DECK_DIAGNOSTIC_RING_CAPACITY; lia).
  assert (Forall valid_event (take (count s) (events s))) as Hvalid
    by (rewrite Htake; apply Forall_drop, log_valid).
  assert (length (take (count s) (events s)) <= 64)%nat as Hel by (rewrite length_take; lia).
  assert (length (document s request_id) < capacity)%nat as Hfits.
  { unfold document. rewrite !length_app. pose proof (header_bound request_id (dropped s)).
    pose proof (events_document_bound true _ Hvalid). cbn [length quoting literal map list_ascii_of_string]. lia. }
  assert (formats s request_id original capacity) as Hf.
  { apply format_spec; [done|unfold DECK_DIAGNOSTIC_RING_CAPACITY; lia| | |lia].
    - eapply Forall_impl; [exact Hvalid|]. intros e He. by destruct (event_document_bound true e He).
    - rewrite Htake. apply sorted_drop, log_sorted. }
  unfold formats in Hf. destruct (deck_diagnostic_snapshot_format _ _ _ _) as [[ok output] size].
  destruct Hf as (-> & Hok & Hl & Hd). rewrite (proj2 (Nat.ltb_lt _ _) Hfits) in *.
  destruct (Hok eq_refl) as [Hs Ht]. by split_and!.
Qed.

Lemma ring_snapshot_always_formats_witness :
  let s := deck_diagnostic_ring_snapshot
    (observe deck_diagnostic_ring_reset
       {| o_ms := 7; o_level := 1; o_component := 2; o_code := 3; o_value := 42 |}) in
  (let '(ok, _, size) :=
     deck_diagnostic_snapshot_format s 9 (replicate link_buffer_bytes 0) link_buffer_bytes in
   ok = true /\ size = Some (length (document s 9)))
  /\ document s 9 = quoting "{'type':'diagnostics.snapshot','protocol_version':1,'request_id':9,'dropped':0,'events':[{'monotonic_ms':7,'level':'warning','component':'wifi','code':'connected','value':42}]}".
Proof.
  split; [|vm_compute; reflexivity].
  pose proof (ring_snapshot_always_formats
    [{| o_ms := 7; o_level := 1; o_component := 2; o_code := 3; o_value := 42 |}] 9
    (replicate link_buffer_bytes 0) link_buffer_bytes ltac:(done)
    ltac:(rewrite length_replicate; lia)) as H.
  cbn [fold_left] in H.
  destruct (deck_diagnostic_snapshot_format _ 9 _ _) as [[ok output] size].
  destruct H as (Hok & Hsize & _). split; [exact Hok|exact Hsize].
Defined.
