(* ===== verification/SetupQueue.v ===== *)
(** * Setup command queue

    [components/setup_mode/deck_setup_command_queue.cpp]: the bounded queue
    between the setup portal and the worker.  Commands carry credentials, so a
    received cell is wiped.

    A command is its object representation, [command_bytes] bytes; the queue
    only copies and clears it.  Every operation runs under the queue's mutex. *)

From S2P Require Import Prelude Ring.

Definition DECK_SETUP_COMMAND_QUEUE_CAPACITY : nat := 8.
#[local] Arguments DECK_SETUP_COMMAND_QUEUE_CAPACITY : simpl never.
#[local] Arguments Nat.modulo : simpl never.

Section queue.
(** [sizeof(deck_setup_command_t)] *)
Context (command_bytes : nat).

Record deck_setup_command_queue := {
  items : list bytes;
  head : nat;
  tail : nat;
  count : nat;
}.

Implicit Type q : deck_setup_command_queue.

Definition deck_setup_command_clear (command : bytes) : bytes := map (fun _ => 0) command.

(** [deck_setup_command_t{}] *)
Definition zero_command : bytes := replicate command_bytes 0.

Definition deck_setup_command_queue_create (allocated : bool) : option deck_setup_command_queue :=
  if allocated
  then Some {| items := replicate DECK_SETUP_COMMAND_QUEUE_CAPACITY zero_command;
               head := 0; tail := 0; count := 0 |}
  else None.

(** The memory that is freed. *)
Definition deck_setup_command_queue_destroy q : list bytes := map deck_setup_command_clear (items q).

Definition deck_setup_command_queue_try_send q (command : bytes) : bool * deck_setup_command_queue :=
  if (count q =? DECK_SETUP_COMMAND_QUEUE_CAPACITY)%nat then (false, q)
  else
    (true, {| items := <[tail q := command]> (items q);
              head := head q;
              tail := ((tail q + 1) mod DECK_SETUP_COMMAND_QUEUE_CAPACITY)%nat;
              count := S (count q) |}).

Definition deck_setup_command_queue_try_receive q : option bytes * deck_setup_command_queue :=
  if (count q =? 0)%nat then (None, q)
  else
    (Some (at_index zero_command (items q) (head q)),
     {| items := <[head q := deck_setup_command_clear (at_index zero_command (items q) (head q))]> (items q);
        head := ((head q + 1) mod DECK_SETUP_COMMAND_QUEUE_CAPACITY)%nat;
        tail := tail q;
        count := (count q - 1)%nat |}).

(** ** Refinement of a bounded FIFO *)

Inductive op := Send (command : bytes) | Receive.
Inductive outcome := Sent (ok : bool) | Received (command : option bytes).

Definition run_op q (o : op) : outcome * deck_setup_command_queue :=
  match o with
  | Send command => let '(ok, q) := deck_setup_command_queue_try_send q command in (Sent ok, q)
  | Receive => let '(command, q) := deck_setup_command_queue_try_receive q in (Received command, q)
  end.

(** The FIFO: the pending commands, oldest first. *)
Definition fifo_op (l : list bytes) (o : op) : outcome * list bytes :=
  match o with
  | Send command => if (length l <? 8)%nat then (Sent true, l ++ [command]) else (Sent false, l)
  | Receive => match l with [] => (Received None, []) | c :: l => (Received (Some c), l) end
  end.

Fixpoint run_ops q (os : list op) : list outcome * deck_setup_command_queue :=
  match os with
  | [] => ([], q)
  | o :: os => let '(r, q) := run_op q o in let '(rs, q) := run_ops q os in (r :: rs, q)
  end.

Fixpoint fifo_ops (l : list bytes) (os : list op) : list outcome * list bytes :=
  match os with
  | [] => ([], l)
  | o :: os => let '(r, l) := fifo_op l o in let '(rs, l) := fifo_ops l os in (r :: rs, l)
  end.

(** The cells that hold no pending command. *)
Definition free_cells q : list bytes :=
  contents zero_command (items q) ((head q + count q) mod DECK_SETUP_COMMAND_QUEUE_CAPACITY)
    (DECK_SETUP_COMMAND_QUEUE_CAPACITY - count q).

Definition pending q : list bytes := contents zero_command (items q) (head q) (count q).

Record queue_ok q : Prop := {
  ok_items : length (items q) = DECK_SETUP_COMMAND_QUEUE_CAPACITY;
  ok_head : (head q < DECK_SETUP_COMMAND_QUEUE_CAPACITY)%nat;
  ok_count : (count q <= DECK_SETUP_COMMAND_QUEUE_CAPACITY)%nat;
  ok_tail : tail q = ((head q + count q) mod DECK_SETUP_COMMAND_QUEUE_CAPACITY)%nat;
  ok_sizes : Forall (fun c => length c = command_bytes) (items q);
  ok_wiped : Forall (fun c => c = zero_command) (free_cells q);
}.

Lemma clear_zero command : length command = command_bytes -> deck_setup_command_clear command = zero_command.
Proof.
  intros Hlen. unfold deck_setup_command_clear, zero_command. rewrite <- Hlen. clear Hlen.
  induction command; simpl; congruence.
Qed.

Definition op_sized (o : op) : Prop :=
  match o with Send command => length command = command_bytes | Receive => True end.

Lemma at_index_sized q i : queue_ok q -> length (at_index zero_command (items q) i) = command_bytes.
Proof.
  intros Hok. unfold at_index. rewrite nth_lookup. destruct (items q !! i) eqn:E; simpl.
  - by apply (Forall_lookup_1 _ _ _ _ (ok_sizes _ Hok) E).
  - apply length_replicate.
Qed.

(** The cell after the last pending one leaves the free cells when it is
    written. *)
Lemma free_cells_send q command :
  queue_ok q -> (count q < DECK_SETUP_COMMAND_QUEUE_CAPACITY)%nat ->
  Forall (fun c => c = zero_command)
    (contents zero_command (<[tail q := command]> (items q))
       ((head q + S (count q)) mod DECK_SETUP_COMMAND_QUEUE_CAPACITY)
       (DECK_SETUP_COMMAND_QUEUE_CAPACITY - S (count q))).
Proof.
  intros [Hlen Hh Hc Ht _ Hw] Hroom. unfold free_cells in Hw. rewrite <- Ht in Hw.
  assert (tail q < DECK_SETUP_COMMAND_QUEUE_CAPACITY)%nat as Htb
    by (rewrite Ht; apply Nat.mod_upper_bound; done).
  replace (DECK_SETUP_COMMAND_QUEUE_CAPACITY - count q)%nat
    with (S (DECK_SETUP_COMMAND_QUEUE_CAPACITY - S (count q))) in Hw by lia.
  rewrite (contents_pop _ _ _ _ command) in Hw by lia. apply Forall_cons in Hw as [_ Hw].
  replace ((head q + S (count q)) mod DECK_SETUP_COMMAND_QUEUE_CAPACITY)%nat
    with ((tail q + 1) mod length (items q))%nat; [done|].
  rewrite Hlen, Ht, Nat.Div0.add_mod_idemp_l. f_equal. lia.
Qed.

(** The cell that is received joins the free cells, wiped. *)
Lemma free_cells_receive q :
  queue_ok q -> (0 < count q)%nat ->
  Forall (fun c => c = zero_command)
    (contents zero_command (<[head q := zero_command]> (items q))
       (((head q + 1) mod DECK_SETUP_COMMAND_QUEUE_CAPACITY + (count q - 1))
          mod DECK_SETUP_COMMAND_QUEUE_CAPACITY)
       (DECK_SETUP_COMMAND_QUEUE_CAPACITY - (count q - 1))).
Proof.
  intros [Hlen Hh Hc Ht _ Hw] Hpos. unfold free_cells in Hw. rewrite <- Ht in Hw.
  set (cap := DECK_SETUP_COMMAND_QUEUE_CAPACITY) in *.
  replace (((head q + 1) mod cap + (count q - 1)) mod cap)%nat with (tail q).
  2: { rewrite Ht, Nat.Div0.add_mod_idemp_l. f_equal. lia. }
  apply Forall_forall. intros c Hin. unfold contents in Hin.
  apply list_elem_of_fmap in Hin as (i & -> & Hi). apply elem_of_seq in Hi.
  rewrite length_insert, Hlen, at_index_insert by lia. case_match eqn:E; [done|]. bool_prop.
  rewrite Forall_forall in Hw. apply Hw. unfold contents. rewrite Hlen.
  apply (list_elem_of_fmap_2 (fun i => at_index zero_command (items q) ((tail q + i) mod cap))).
  apply elem_of_seq. split; [lia|]. assert (i <> (cap - count q)%nat); [|lia].
  intros ->. apply E. rewrite Ht, Nat.Div0.add_mod_idemp_l.
  replace (head q + count q + (cap - count q))%nat with (head q + 1 * cap)%nat by lia.
  rewrite Nat.Div0.mod_add. symmetry. by apply Nat.mod_small.
Qed.

Lemma queue_op_ok q o :
  queue_ok q -> op_sized o ->
  (run_op q o).1 = (fifo_op (pending q) o).1
  /\ pending (run_op q o).2 = (fifo_op (pending q) o).2 /\ queue_ok (run_op q o).2.
Proof.
  intros Hok Ho. pose proof Hok as [Hlen Hh Hc Ht Hs Hw].
  assert (length (pending q) = count q) as Hl by apply length_contents.
  destruct o as [command|]; simpl.
  - unfold deck_setup_command_queue_try_send. rewrite Hl.
    destruct (Nat.eqb_spec (count q) DECK_SETUP_COMMAND_QUEUE_CAPACITY) as [E|E]; simpl.
    { rewrite E. by split_and!. }
    rewrite (proj2 (Nat.ltb_lt _ _)) by (unfold DECK_SETUP_COMMAND_QUEUE_CAPACITY in *; lia).
    split; [done|]. split.
    + unfold pending. cbn [items head count snd]. rewrite Ht, <- Hlen. apply contents_push; lia.
    + constructor; cbn [items head count tail].
      * by rewrite length_insert.
      * done.
      * lia.
      * rewrite Ht, Nat.Div0.add_mod_idemp_l. f_equal. lia.
      * by apply Forall_insert.
      * apply free_cells_send; [done|lia].
  - unfold deck_setup_command_queue_try_receive.
    destruct (Nat.eqb_spec (count q) 0) as [E|E]; simpl.
    { destruct (pending q); [by split_and!|]. simpl in Hl. lia. }
    assert (pending q = at_index zero_command (items q) (head q)
      :: contents zero_command
           (<[head q := deck_setup_command_clear (at_index zero_command (items q) (head q))]> (items q))
           ((head q + 1) mod DECK_SETUP_COMMAND_QUEUE_CAPACITY) (count q - 1)) as ->.
    { unfold pending. replace (count q) with (S (count q - 1)) at 1 by lia.
      rewrite <- Hlen. apply contents_pop; lia. }
    split; [done|]. split; [done|]. rewrite clear_zero by by apply at_index_sized.
    constructor; cbn [items head count tail].
    + by rewrite length_insert.
    + by apply Nat.mod_upper_bound.
    + lia.
    + rewrite Ht, Nat.Div0.add_mod_idemp_l. f_equal. lia.
    + apply Forall_insert; [done|apply length_replicate].
    + apply free_cells_receive; [done|lia].
Qed.

Lemma at_index_zeros n i : at_index zero_command (replicate n zero_command) i = zero_command.
Proof.
  unfold at_index. rewrite nth_lookup. destruct (replicate n zero_command !! i) eqn:E; [|done].
  by apply lookup_replicate in E as [-> _].
Qed.

Lemma queue_create_ok q :
  deck_setup_command_queue_create true = Some q -> queue_ok q /\ pending q = [].
Proof.
  intros [= <-]. split; [|done]. constructor; cbn [items head count tail].
  - done.
  - unfold DECK_SETUP_COMMAND_QUEUE_CAPACITY. lia.
  - lia.
  - done.
  - by apply (Forall_replicate _ 8 zero_command), length_replicate.
  - apply Forall_forall. intros c (i & -> & _)%list_elem_of_fmap. apply (at_index_zeros 8).
Qed.

(** The queue is a FIFO of at most eight commands, and forgets what it
    handed out.  For every sequence of sends and receives its answers are
    those of the FIFO, a send is refused exactly when eight commands are
    pending, and at the end every cell that holds no pending command is all
    zero: no credentials stay behind. *)
Theorem queue_is_fifo_and_wipes q os :
  deck_setup_command_queue_create true = Some q -> Forall op_sized os ->
  (run_ops q os).1 = (fifo_ops [] os).1
  /\ pending (run_ops q os).2 = (fifo_ops [] os).2
  /\ Forall (fun c => c = zero_command) (free_cells (run_ops q os).2).
Proof.
  intros [Hok Hp]%queue_create_ok Hs. rewrite <- Hp. clear Hp. revert q Hok.
  induction Hs as [|o os Ho _ IH]; intros q Hok; [split_and!; [done|done|apply ok_wiped, Hok]|].
  destruct (queue_op_ok q o Hok Ho) as (Hr & Hp & Hok'). simpl.
  destruct (run_op q o) as [r q']. simpl in *. destruct (IH q' Hok') as (Hrs & Hps & Hw).
  destruct (fifo_op (pending q) o) as [r' l]. simpl in *. subst r' l.
  destruct (run_ops q' os), (fifo_ops (pending q') os). simpl in *. by subst.
Qed.

End queue.

Lemma queue_is_fifo_and_wipes_witness :
  exists q, deck_setup_command_queue_create 2 true = Some q
  /\ (run_ops 2 q [Send [1; 2]; Send [3; 4]; Receive; Receive; Receive]).1
     = [Sent true; Sent true; Received (Some [1; 2]); Received (Some [3; 4]); Received None].
Proof.
  eexists. split; [reflexivity|].
  refine (eq_trans (proj1 (queue_is_fifo_and_wipes 2 _
    [Send [1; 2]; Send [3; 4]; Receive; Receive; Receive] eq_refl _)) _); [|reflexivity].
  repeat constructor.
Defined.
