(* ===== verification/ResponseBarrier.v ===== *)
(** * Setup response barrier

    [components/setup_mode/deck_setup_response_barrier.cpp]: the pairing worker
    issues a generation for a response it sent and waits until the client that
    received it acknowledges with the response's secret.

    Every operation runs under the barrier's mutex.  An acknowledgement is
    [DECK_SETUP_RESPONSE_ACK_SIZE] bytes. *)

From S2P Require Import Prelude Codec.

Definition DECK_SETUP_RESPONSE_ACK_SIZE : nat := 16.

Record Slot := {
  generation : Z;
  client_ipv4 : Z;
  response_ack : bytes;
  complete : bool;
}.
#[export] Instance slot_rebuild : Rebuild Slot := fun s =>
  Build_Slot (generation s) (client_ipv4 s) (response_ack s) (complete s).

Record deck_setup_response_barrier := {
  slots : list Slot;
  next_generation : Z;
}.

Implicit Types (b : deck_setup_response_barrier) (s : Slot).

(** The cleared slot: every byte zero. *)
Definition clear_slot : Slot :=
  {| generation := 0; client_ipv4 := 0; response_ack := replicate DECK_SETUP_RESPONSE_ACK_SIZE 0;
     complete := false |}.

Definition deck_setup_response_barrier_create (capacity : nat) (allocated slots_allocated : bool) :
    option deck_setup_response_barrier :=
  if (capacity =? 0)%nat then None
  else if negb allocated then None
  else if negb slots_allocated then None
  else Some {| slots := replicate capacity clear_slot; next_generation := 0 |}.

(** The memory that is freed. *)
Definition deck_setup_response_barrier_destroy b : list Slot := map (fun _ => clear_slot) (slots b).

Definition deck_setup_response_barrier_issue b (ipv4 : Z) (ack : bytes) :
    Z * deck_setup_response_barrier :=
  if existsb (fun s => negb (generation s =? 0) && bool_decide (response_ack s = ack)) (slots b)
  then (0, b)
  else
    match list_find (fun s => generation s = 0) (slots b) with
    | None => (0, b)
    | Some (index, s) =>
        let next := u32 (next_generation b + 1) in
        let next := if next =? 0 then u32 (next + 1) else next in
        (next,
         {| slots := <[index := s <| generation := next |> <| client_ipv4 := ipv4 |>
                                  <| response_ack := ack |>]> (slots b);
            next_generation := next |})
    end.

(** The constant-time comparison: lines 115-120. *)
Definition difference (left right : bytes) : Z :=
  fold_left (fun d byte => Z.lor d (u8 (Z.lxor left.[byte] right.[byte])))
    (seq 0 DECK_SETUP_RESPONSE_ACK_SIZE) 0.

Definition matches (ipv4 : Z) (ack : bytes) s : bool :=
  negb (generation s =? 0) && negb (complete s) && (client_ipv4 s =? ipv4)
  && (difference (response_ack s) ack =? 0).

Definition deck_setup_response_barrier_acknowledge b (ipv4 : Z) (ack : bytes) :
    bool * deck_setup_response_barrier :=
  match list_find (fun s => matches ipv4 ack s = true) (slots b) with
  | None => (false, b)
  | Some (index, s) =>
      (true, {| slots := <[index := s <| complete := true |>]> (slots b);
                next_generation := next_generation b |})
  end.

Definition deck_setup_response_barrier_is_complete b (gen : Z) : bool :=
  if gen =? 0 then false
  else match list_find (fun s => generation s = gen) (slots b) with
       | Some (_, s) => complete s
       | None => false
       end.

Definition deck_setup_response_barrier_release b (gen : Z) : deck_setup_response_barrier :=
  if gen =? 0 then b
  else match list_find (fun s => generation s = gen) (slots b) with
       | Some (index, _) => {| slots := <[index := clear_slot]> (slots b);
                               next_generation := next_generation b |}
       | None => b
       end.

(** ** The comparison *)

Definition ack_ok (ack : bytes) : Prop :=
  length ack = DECK_SETUP_RESPONSE_ACK_SIZE /\ is_bytes ack.

Lemma difference_zero left right : ack_ok left -> ack_ok right -> difference left right = 0 <-> left = right.
Proof.
  intros [Hl Hlb] [Hr Hrb]. unfold difference. rewrite u8_difference_zero by (done || lia).
  by rewrite !take_ge by lia.
Qed.

(** ** Refinement of a table of outstanding responses *)

Inductive op :=
  | Issue (ipv4 : Z) (ack : bytes)
  | Acknowledge (ipv4 : Z) (ack : bytes)
  | IsComplete (gen : Z)
  | Release (gen : Z).

Inductive outcome := Issued (gen : Z) | Answer (yes : bool) | Done.

Definition run_op b (o : op) : outcome * deck_setup_response_barrier :=
  match o with
  | Issue ipv4 ack =>
      let '(gen, b) := deck_setup_response_barrier_issue b ipv4 ack in (Issued gen, b)
  | Acknowledge ipv4 ack =>
      let '(yes, b) := deck_setup_response_barrier_acknowledge b ipv4 ack in (Answer yes, b)
  | IsComplete gen => (Answer (deck_setup_response_barrier_is_complete b gen), b)
  | Release gen => (Done, deck_setup_response_barrier_release b gen)
  end.

(** The outstanding responses, in no particular order, and how many were
    issued: the [n]-th gets generation [n]. *)
Record table := { entries : list Slot; issued : Z }.

Definition waits_for (ipv4 : Z) (ack : bytes) s : Prop :=
  complete s = false /\ client_ipv4 s = ipv4 /\ response_ack s = ack.
#[export] Instance waits_for_dec ipv4 ack s : Decision (waits_for ipv4 ack s).
Proof. unfold waits_for. apply _. Defined.

Definition confirm (ipv4 : Z) (ack : bytes) s : Slot :=
  if decide (waits_for ipv4 ack s) then s <| complete := true |> else s.

Definition table_op (capacity : nat) (t : table) (o : op) : outcome * table :=
  match o with
  | Issue ipv4 ack =>
      if bool_decide (Exists (fun s => response_ack s = ack) (entries t))
         || (capacity <=? length (entries t))%nat
      then (Issued 0, t)
      else (Issued (issued t + 1),
            {| entries := {| generation := issued t + 1; client_ipv4 := ipv4; response_ack := ack;
                             complete := false |} :: entries t;
               issued := issued t + 1 |})
  | Acknowledge ipv4 ack =>
      (Answer (bool_decide (Exists (waits_for ipv4 ack) (entries t))),
       {| entries := map (confirm ipv4 ack) (entries t); issued := issued t |})
  | IsComplete gen =>
      (Answer (bool_decide (Exists (fun s => generation s = gen /\ complete s = true) (entries t))), t)
  | Release gen =>
      (Done, {| entries := filter (fun s => generation s <> gen) (entries t); issued := issued t |})
  end.

Definition live s : Prop := generation s <> 0.
#[export] Instance live_dec s : Decision (live s).
Proof. unfold live. apply _. Defined.

Definition lives b : list Slot := filter live (slots b).

Record barrier_ok (capacity : nat) b : Prop := {
  ok_capacity : length (slots b) = capacity;
  ok_cleared : Forall (fun s => generation s = 0 -> s = clear_slot) (slots b);
  ok_acks : Forall (fun s => ack_ok (response_ack s)) (slots b);
  ok_generations : NoDup (map generation (lives b));
  ok_secrets : NoDup (map response_ack (lives b));
  ok_issued : Forall (fun s => 1 <= generation s <= next_generation b) (lives b);
  ok_next : 0 <= next_generation b;
}.

Definition abstracts b (t : table) : Prop :=
  Permutation (entries t) (lives b) /\ issued t = next_generation b.

(** A slot found by position splits the array. *)
Lemma find_split (P : Slot -> Prop) `{!forall s, Decision (P s)} l i s :
  list_find P l = Some (i, s) ->
  exists l1 l2, l = l1 ++ s :: l2 /\ P s /\ Forall (fun x => ~ P x) l1
    /\ forall x, <[i := x]> l = l1 ++ x :: l2.
Proof.
  intros (Hi & HP & Hfirst)%list_find_Some. exists (take i l), (drop (S i) l).
  apply lookup_lt_Some in Hi as Hlt. split_and!; [by rewrite take_drop_middle|done| |].
  - apply Forall_forall. intros x (j & Hj)%list_elem_of_lookup.
    apply lookup_take_Some in Hj as [Hj Hji]. eauto.
  - intros x. by apply insert_take_drop.
Qed.

Lemma lives_split l1 s l2 next :
  lives {| slots := l1 ++ s :: l2; next_generation := next |}
  = filter live l1 ++ (if decide (live s) then [s] else []) ++ filter live l2.
Proof. unfold lives. cbn [slots]. rewrite filter_app, filter_cons. by case_decide. Qed.

Lemma full_lives capacity b :
  barrier_ok capacity b -> list_find (fun s => generation s = 0) (slots b) = None <->
  (capacity <= length (lives b))%nat.
Proof.
  intros Hok. rewrite list_find_None. unfold lives. split.
  - intros Hall. assert (filter live (slots b) = slots b) as ->; [|by rewrite (ok_capacity _ _ Hok)].
    clear Hok. induction Hall as [|s l Hs Hall IH]; [done|].
    rewrite filter_cons_True by done. by rewrite IH.
  - intros Hlen. rewrite <- (ok_capacity _ _ Hok) in Hlen. clear Hok.
    induction (slots b) as [|s l IH]; [constructor|]. pose proof (length_filter live l).
    rewrite filter_cons in Hlen. case_decide as Hs; simpl in Hlen; [|lia].
    constructor; [exact Hs|]. apply IH. lia.
Qed.

Lemma known_ack b ack :
  existsb (fun s => negb (generation s =? 0) && bool_decide (response_ack s = ack)) (slots b) = true
  <-> Exists (fun s => response_ack s = ack) (lives b).
Proof.
  rewrite existsb_exists, Exists_exists. unfold lives. split.
  - intros (s & Hin & Hs). bool_prop. exists s. split; [|done].
    apply list_elem_of_filter. split; [done|]. by apply list_elem_of_In.
  - intros (s & [Hl Hin]%list_elem_of_filter & <-). exists s. split; [by apply list_elem_of_In|].
    rewrite bool_decide_true by done. by rewrite (proj2 (Z.eqb_neq _ _) Hl).
Qed.

Lemma slots_middle l1 x y l2 (P : Slot -> Prop) :
  Forall P (l1 ++ x :: l2) -> P y -> Forall P (l1 ++ y :: l2).
Proof. rewrite !Forall_app, !Forall_cons. tauto. Qed.

Lemma u32_next n :
  0 <= n < U32_MAX -> (if u32 (n + 1) =? 0 then u32 (u32 (n + 1) + 1) else u32 (n + 1)) = n + 1.
Proof. intros Hn. rewrite u32_id by words. by rewrite (proj2 (Z.eqb_neq _ _)) by lia. Qed.

Lemma issue_ok capacity b t ipv4 ack :
  barrier_ok capacity b -> abstracts b t -> next_generation b < U32_MAX -> ack_ok ack ->
  let r := run_op b (Issue ipv4 ack) in let a := table_op capacity t (Issue ipv4 ack) in
  r.1 = a.1 /\ abstracts r.2 a.2 /\ barrier_ok capacity r.2.
Proof.
  intros Hok [Hperm Hissued] Hnext Hack r a. subst r a. simpl.
  unfold deck_setup_response_barrier_issue.
  assert (bool_decide (Exists (fun s => response_ack s = ack) (entries t))
    = existsb (fun s => negb (generation s =? 0) && bool_decide (response_ack s = ack)) (slots b)) as ->.
  { apply eq_bool_prop_intro. rewrite bool_decide_spec, Is_true_true, known_ack. by rewrite Hperm. }
  destruct (existsb _ _) eqn:Hknown; [done|]. simpl.
  assert (~ Exists (fun s => response_ack s = ack) (lives b)) as Hfresh by by rewrite <- known_ack, Hknown.
  rewrite Hperm. destruct (list_find _ (slots b)) as [[i s]|] eqn:Hfind.
  2: { rewrite (proj2 (Nat.leb_le _ _)); [done|]. by apply (full_lives capacity b). }
  assert (~ (capacity <= length (lives b))%nat) as Hroom
    by (rewrite <- (full_lives capacity b Hok); by rewrite Hfind).
  rewrite (proj2 (Nat.leb_gt _ _)) by lia.
  destruct Hok as [Hcap Hclear Hacks Hgens Hsecrets Hrange Hn].
  rewrite u32_next by lia.
  destruct (find_split _ _ _ _ Hfind) as (l1 & l2 & Hl & Hs & _ & Hins). rewrite Hins.
  assert (s = clear_slot) as ->.
  { rewrite Hl in Hclear. rewrite Forall_app, Forall_cons in Hclear. by apply Hclear. }
  set (new := {| generation := next_generation b + 1; client_ipv4 := ipv4; response_ack := ack;
                 complete := false |}).
  change (clear_slot <| generation := next_generation b + 1 |> <| client_ipv4 := ipv4 |>
            <| response_ack := ack |>) with new.
  assert (live new) as Hlive by (unfold live; simpl; lia).
  assert (lives b = filter live l1 ++ filter live l2) as Hlb.
  { unfold lives. rewrite Hl, filter_app, filter_cons_False; [done|]. intros Hn0. by apply Hn0. }
  assert (lives {| slots := l1 ++ new :: l2; next_generation := next_generation b + 1 |}
    = filter live l1 ++ new :: filter live l2) as Hlb'
    by (rewrite lives_split; by rewrite decide_True).
  split; [by rewrite Hissued|]. split.
  - split; [|simpl; lia]. simpl. rewrite Hlb', Hissued, Hperm, Hlb. apply Permutation_middle.
  - constructor; cbn [slots next_generation snd]; rewrite ?Hlb'.
    + rewrite <- Hcap, Hl. by rewrite !length_app.
    + rewrite Hl in Hclear. eapply slots_middle; [done|]. simpl. lia.
    + rewrite Hl in Hacks. by eapply slots_middle.
    + rewrite <- Permutation_middle. simpl. rewrite <- Hlb. constructor; [|done].
      intros (x & Hx & Hin)%list_elem_of_fmap. rewrite Forall_forall in Hrange.
      specialize (Hrange x Hin). lia.
    + rewrite <- Permutation_middle. simpl. rewrite <- Hlb. constructor; [|done].
      intros (x & Hx & Hin)%list_elem_of_fmap. apply Hfresh, Exists_exists. eauto.
    + rewrite <- Permutation_middle, <- Hlb. constructor; [simpl; lia|].
      eapply Forall_impl; [exact Hrange|]. simpl. lia.
    + lia.
Qed.

Lemma release_ok capacity b t gen :
  barrier_ok capacity b -> abstracts b t ->
  let r := run_op b (Release gen) in let a := table_op capacity t (Release gen) in
  r.1 = a.1 /\ abstracts r.2 a.2 /\ barrier_ok capacity r.2.
Proof.
  intros Hok [Hperm Hissued] r a. subst r a. simpl. split; [done|].
  unfold deck_setup_response_barrier_release.
  assert (forall l, Forall (fun s => generation s <> gen) l -> filter (fun s => generation s <> gen) l = l)
    as Hkeep.
  { intros l Hall. induction Hall as [|s l Hs _ IH]; [done|]. by rewrite filter_cons_True, IH. }
  assert (gen = 0 \/ list_find (fun s => generation s = gen) (slots b) = None ->
    filter (fun s => generation s <> gen) (lives b) = lives b) as Hnone.
  { intros H. apply Hkeep, Forall_forall. intros s [Hs Hin]%list_elem_of_filter.
    destruct H as [->|H]; [done|]. rewrite list_find_None, Forall_forall in H. by apply H. }
  destruct (Z.eqb_spec gen 0) as [E0|E0].
  { split; [|done]. split; [|done]. simpl. by rewrite Hperm, Hnone by auto. }
  destruct (list_find _ (slots b)) as [[i s]|] eqn:Hfind.
  2: { split; [|done]. split; [|done]. simpl. by rewrite Hperm, Hnone by auto. }
  destruct (find_split _ _ _ _ Hfind) as (l1 & l2 & Hl & Hs & _ & Hins). rewrite Hins.
  destruct Hok as [Hcap Hclear Hacks Hgens Hsecrets Hrange Hn].
  assert (live s) as Hlive by (unfold live; congruence).
  assert (lives b = filter live l1 ++ s :: filter live l2) as Hlb.
  { unfold lives. by rewrite Hl, filter_app, filter_cons_True. }
  assert (lives {| slots := l1 ++ clear_slot :: l2; next_generation := next_generation b |}
    = filter live l1 ++ filter live l2) as Hlb' by by rewrite lives_split, decide_False by (intros Hc; by apply Hc).
  assert (filter (fun s => generation s <> gen) (lives b) = filter live l1 ++ filter live l2) as Hfilter.
  { rewrite Hlb, filter_app, filter_cons_False by (intros Hx; by apply Hx).
    rewrite Hlb, map_app in Hgens. simpl in Hgens. rewrite <- Permutation_middle in Hgens.
    apply NoDup_cons in Hgens as [Hni _]. rewrite <- map_app in Hni.
    rewrite <- filter_app. rewrite <- (Hkeep (filter live l1 ++ filter live l2)) at 2.
    - by rewrite !filter_app.
    - apply Forall_forall. intros x Hx Hg. apply Hni. rewrite Hs, <- Hg. by apply list_elem_of_fmap_2. }
  rewrite Hlb in Hgens, Hsecrets, Hrange.
  rewrite map_app in Hgens, Hsecrets. simpl in Hgens, Hsecrets.
  rewrite <- Permutation_middle in Hgens, Hsecrets, Hrange.
  apply NoDup_cons in Hgens as [_ Hgens]. apply NoDup_cons in Hsecrets as [_ Hsecrets].
  apply Forall_cons in Hrange as [_ Hrange].
  split.
  - split; [|done]. simpl. by rewrite Hperm, Hfilter, Hlb'.
  - constructor; cbn [slots next_generation snd]; rewrite ?Hlb', ?map_app; try done.
    + rewrite <- Hcap, Hl. by rewrite !length_app.
    + rewrite Hl in Hclear. by eapply slots_middle.
    + rewrite Hl in Hacks. eapply slots_middle; [done|]. split; [done|].
      by apply Forall_replicate.
Qed.

Lemma bool_decide_perm (P : Slot -> Prop) `{!forall s, Decision (P s)} l l' :
  Permutation l l' -> bool_decide (Exists P l) = bool_decide (Exists P l').
Proof. intros Hp. apply bool_decide_ext. by rewrite Hp. Qed.

(** A slot matches an acknowledgement when it is live and waits for it. *)
Lemma matches_spec ipv4 ack s :
  ack_ok ack -> ack_ok (response_ack s) -> matches ipv4 ack s = true <-> live s /\ waits_for ipv4 ack s.
Proof.
  intros Ha Hs. unfold matches, live, waits_for.
  rewrite !andb_true_iff, !negb_true_iff, Z.eqb_neq, !Z.eqb_eq, difference_zero by done. tauto.
Qed.

Lemma map_confirm_none ipv4 ack l :
  Forall (fun s => ~ waits_for ipv4 ack s) l -> map (confirm ipv4 ack) l = l.
Proof.
  induction 1 as [|s l Hs _ IH]; [done|]. simpl. rewrite IH. unfold confirm.
  by rewrite decide_False.
Qed.

Lemma acknowledge_ok capacity b t ipv4 ack :
  barrier_ok capacity b -> abstracts b t -> ack_ok ack ->
  let r := run_op b (Acknowledge ipv4 ack) in let a := table_op capacity t (Acknowledge ipv4 ack) in
  r.1 = a.1 /\ abstracts r.2 a.2 /\ barrier_ok capacity r.2.
Proof.
  intros Hok [Hperm Hissued] Hack r a. subst r a. simpl.
  unfold deck_setup_response_barrier_acknowledge.
  destruct (list_find _ (slots b)) as [[i s]|] eqn:Hfind; simpl.
  2: { assert (Forall (fun s => ~ waits_for ipv4 ack s) (lives b)) as Hno.
       { apply Forall_forall. intros s [Hs Hin]%list_elem_of_filter Hw.
         rewrite list_find_None, Forall_forall in Hfind. apply (Hfind s Hin).
         pose proof (ok_acks _ _ Hok) as Hacks. rewrite Forall_forall in Hacks.
         apply matches_spec; auto. }
       rewrite (bool_decide_perm _ _ _ Hperm), bool_decide_false.
       2: { rewrite Exists_exists. rewrite Forall_forall in Hno. intros (s & Hin & Hw).
            by apply (Hno s). }
       split; [done|]. split; [|done]. split; [|done]. simpl. by rewrite Hperm, map_confirm_none. }
  destruct (find_split _ _ _ _ Hfind) as (l1 & l2 & Hl & Hs & _ & Hins). rewrite Hins.
  destruct Hok as [Hcap Hclear Hacks Hgens Hsecrets Hrange Hn].
  assert (ack_ok (response_ack s)) as Hsack.
  { rewrite Hl, Forall_app, Forall_cons in Hacks. by apply Hacks. }
  apply matches_spec in Hs as [Hlive Hw]; [|done|done].
  set (new := s <| complete := true |>).
  assert (lives b = filter live l1 ++ s :: filter live l2) as Hlb.
  { unfold lives. by rewrite Hl, filter_app, filter_cons_True. }
  assert (lives {| slots := l1 ++ new :: l2; next_generation := next_generation b |}
    = filter live l1 ++ new :: filter live l2) as Hlb' by (rewrite lives_split; by rewrite decide_True).
  assert (Forall (fun x => ~ waits_for ipv4 ack x) (filter live l1 ++ filter live l2)) as Hothers.
  { rewrite Hlb, map_app in Hsecrets. simpl in Hsecrets. rewrite <- Permutation_middle in Hsecrets.
    apply NoDup_cons in Hsecrets as [Hni _]. rewrite <- map_app in Hni.
    apply Forall_forall. intros x Hx (_ & _ & Ha). apply Hni. destruct Hw as (_ & _ & <-).
    rewrite <- Ha. by apply list_elem_of_fmap_2. }
  apply Forall_app in Hothers as [Ho1 Ho2].
  assert (map (confirm ipv4 ack) (lives b) = filter live l1 ++ new :: filter live l2) as Hmap.
  { rewrite Hlb, map_app. simpl. rewrite !map_confirm_none by done. unfold confirm.
    by rewrite decide_True. }
  split; [|split].
  - rewrite (bool_decide_perm _ _ _ Hperm), bool_decide_true; [done|].
    rewrite Hlb, Exists_app, Exists_cons. auto.
  - split; [|done]. simpl. by rewrite Hperm, Hlb', Hmap.
  - assert (map generation (filter live l1 ++ new :: filter live l2) = map generation (lives b)
      /\ map response_ack (filter live l1 ++ new :: filter live l2) = map response_ack (lives b))
      as [Hg Ha] by (rewrite Hlb, !map_app; done).
    constructor; cbn [slots next_generation snd]; rewrite ?Hlb', ?Hg, ?Ha; try done.
    + rewrite <- Hcap, Hl. by rewrite !length_app.
    + rewrite Hl in Hclear. by eapply slots_middle.
    + rewrite Hl in Hacks. by eapply slots_middle.
    + rewrite Hlb in Hrange. by eapply slots_middle; [|apply Forall_app in Hrange as [_ Hr];
        apply Forall_cons in Hr as [Hr _]].
Qed.

Lemma is_complete_ok capacity b t gen :
  barrier_ok capacity b -> abstracts b t ->
  deck_setup_response_barrier_is_complete b gen
  = bool_decide (Exists (fun s => generation s = gen /\ complete s = true) (entries t)).
Proof.
  intros Hok [Hperm _]. rewrite (bool_decide_perm _ _ _ Hperm).
  unfold deck_setup_response_barrier_is_complete.
  destruct (Z.eqb_spec gen 0) as [->|E0].
  { rewrite bool_decide_false; [done|]. rewrite Exists_exists.
    intros (s & [Hs _]%list_elem_of_filter & Hg & _). by apply Hs. }
  destruct (list_find _ (slots b)) as [[i s]|] eqn:Hfind.
  - destruct (find_split _ _ _ _ Hfind) as (l1 & l2 & Hl & Hs & _ & _).
    assert (lives b = filter live l1 ++ s :: filter live l2) as Hlb.
    { unfold lives. rewrite Hl, filter_app, filter_cons_True; [done|]. unfold live. congruence. }
    pose proof (ok_generations _ _ Hok) as Hgens. rewrite Hlb, map_app in Hgens. simpl in Hgens.
    rewrite <- Permutation_middle in Hgens. apply NoDup_cons in Hgens as [Hni _].
    rewrite <- map_app in Hni. destruct (complete s) eqn:Hc; symmetry.
    + apply bool_decide_true. rewrite Hlb, Exists_app, Exists_cons. auto.
    + apply bool_decide_false. rewrite Hlb, <- Permutation_middle, Exists_cons.
      intros [[_ Hx]|(x & Hin & Hx & _)%Exists_exists]; [congruence|].
      apply Hni. rewrite Hs, <- Hx. by apply list_elem_of_fmap_2.
  - rewrite bool_decide_false; [done|]. rewrite Exists_exists.
    intros (s & [_ Hin]%list_elem_of_filter & Hg & _).
    rewrite list_find_None, Forall_forall in Hfind. by apply (Hfind s).
Qed.

Fixpoint run_ops b (os : list op) : list outcome * deck_setup_response_barrier :=
  match os with
  | [] => ([], b)
  | o :: os => let '(r, b) := run_op b o in let '(rs, b) := run_ops b os in (r :: rs, b)
  end.

Fixpoint table_ops (capacity : nat) (t : table) (os : list op) : list outcome :=
  match os with
  | [] => []
  | o :: os => let '(r, t) := table_op capacity t o in r :: table_ops capacity t os
  end.

Definition op_ok (o : op) : Prop :=
  match o with
  | Issue _ ack | Acknowledge _ ack => ack_ok ack
  | IsComplete _ | Release _ => True
  end.

Lemma barrier_op_ok capacity b t o :
  barrier_ok capacity b -> abstracts b t -> next_generation b < U32_MAX -> op_ok o ->
  (run_op b o).1 = (table_op capacity t o).1
  /\ abstracts (run_op b o).2 (table_op capacity t o).2 /\ barrier_ok capacity (run_op b o).2.
Proof.
  intros Hok Ha Hn Ho. destruct o as [ipv4 ack|ipv4 ack|gen|gen].
  - by apply issue_ok.
  - by apply acknowledge_ok.
  - simpl. split; [|done]. f_equal. by eapply is_complete_ok.
  - by apply release_ok.
Qed.

Lemma run_op_next b o :
  0 <= next_generation b < U32_MAX -> next_generation (run_op b o).2 <= next_generation b + 1.
Proof.
  intros Hn. destruct o as [ipv4 ack|ipv4 ack|gen|gen]; simpl.
  - unfold deck_setup_response_barrier_issue. destruct (existsb _ _); simpl; [lia|].
    destruct (list_find _ _) as [[i s]|]; simpl; [|lia]. rewrite u32_next by lia. lia.
  - unfold deck_setup_response_barrier_acknowledge.
    destruct (list_find _ _) as [[]|]; simpl; lia.
  - lia.
  - unfold deck_setup_response_barrier_release. destruct (gen =? 0); [lia|].
    destruct (list_find _ _) as [[]|]; simpl; lia.
Qed.

(** The barrier is a table of outstanding responses.  Over every sequence
    of fewer than 2^32 - 1 calls it answers like the table: issuing hands out
    a fresh non-zero generation unless all slots are taken or another
    outstanding response carries the same secret; an acknowledgement succeeds
    exactly when an outstanding, not yet acknowledged response was sent to
    that address with that 16-byte secret, and then completes only it; a
    generation is complete exactly when it is outstanding and was
    acknowledged; releasing forgets it. *)
Theorem barrier_refines_table capacity b os :
  deck_setup_response_barrier_create capacity true true = Some b ->
  Forall op_ok os -> Z.of_nat (length os) < U32_MAX ->
  (run_ops b os).1 = table_ops capacity {| entries := []; issued := 0 |} os.
Proof.
  unfold deck_setup_response_barrier_create. intros Hb Hos Hlen.
  destruct (capacity =? 0)%nat; [done|]. injection Hb as <-.
  set (b0 := {| slots := replicate capacity clear_slot; next_generation := 0 |}).
  assert (lives b0 = []) as Hl0.
  { unfold lives. simpl. clear. induction capacity as [|n IH]; [done|]. simpl.
    rewrite filter_cons_False; [done|]. intros Hx. by apply Hx. }
  assert (barrier_ok capacity b0) as Hok.
  { constructor; rewrite ?Hl0; try constructor; simpl; try lia.
    - apply length_replicate.
    - by apply Forall_replicate.
    - apply Forall_replicate. split; [done|]. by apply Forall_replicate. }
  assert (abstracts b0 {| entries := []; issued := 0 |}) as Ha by (split; [by rewrite Hl0|done]).
  assert (next_generation b0 + Z.of_nat (length os) < U32_MAX) as Hn by (simpl; lia).
  revert Hok Ha Hn. generalize b0 {| entries := []; issued := 0 |}. clear Hl0 b0 Hlen.
  induction Hos as [|o os Ho _ IH]; intros b t Hok Ha Hn; [done|]. simpl in Hn.
  pose proof (ok_next _ _ Hok) as H0.
  destruct (barrier_op_ok capacity b t o Hok Ha ltac:(lia) Ho) as (Hr & Ha' & Hok').
  pose proof (run_op_next b o ltac:(lia)) as Hnext. simpl.
  destruct (run_op b o) as [r b']. destruct (table_op capacity t o) as [r' t']. simpl in *. subst r'.
  specialize (IH b' t' Hok' Ha' ltac:(lia)). destruct (run_ops b' os). simpl in *. congruence.
Qed.

Module BarrierExample.
Definition secret (x : Z) : bytes := replicate DECK_SETUP_RESPONSE_ACK_SIZE x.
(** Two outstanding responses fill the barrier; a wrong address is refused. *)
Definition ops : list op :=
  [Issue 10 (secret 1); Issue 10 (secret 1); Issue 11 (secret 2); Issue 12 (secret 3);
   Acknowledge 12 (secret 2); Acknowledge 11 (secret 2); Acknowledge 11 (secret 2);
   IsComplete 1; IsComplete 2; Release 2; IsComplete 2; Issue 12 (secret 3)].
End BarrierExample.

Lemma barrier_refines_table_witness :
  exists b, deck_setup_response_barrier_create 2 true true = Some b
  /\ (run_ops b BarrierExample.ops).1
     = [Issued 1; Issued 0; Issued 2; Issued 0; Answer false; Answer true; Answer false;
        Answer false; Answer true; Done; Answer false; Issued 3].
Proof.
  eexists. split; [reflexivity|].
  refine (eq_trans (barrier_refines_table 2 _ BarrierExample.ops eq_refl _ _) _); [| |reflexivity].
  - assert (forall x, is_u8 x -> ack_ok (BarrierExample.secret x)) as H.
    { intros x Hx. split; [apply length_replicate|]. by apply Forall_replicate. }
    unfold BarrierExample.ops. repeat (constructor; [try exact I; apply H; words|]). constructor.
  - vm_compute. reflexivity.
Defined.
