(* ===== verification/Random.v ===== *)
(** * Random sources

    The callback a setup component draws random bytes with ([esp_fill_random]
    on the device): an external world. *)

From S2P Require Import Prelude.

(** The bytes written to [output] when the call succeeds; [None] is a failed
    call. *)
Class RandomSource (W : Type) := {
  random_bytes : nat -> M W (option bytes);
  random_length : forall n w b w', random_bytes n w = (Some b, w') -> length b = n /\ is_bytes b;
}.

(** The two hexadecimal digits of a byte are below 16. *)
Lemma nibbles b : is_u8 b -> 0 <= Z.shiftr b 4 < 16 /\ 0 <= Z.land b 15 < 16.
Proof.
  intros Hb. change 15 with (Z.ones 4). rewrite Z.land_ones, Z.shiftr_div_pow2 by lia.
  change (2 ^ 4) with 16. words.
Qed.
