(* ===== verification/SetupConfirmation.v ===== *)
(** * Setup confirmation

    [components/setup_mode/deck_setup_confirmation.cpp]: the one-time token a
    setup page must send back, from the same session and in time, before a
    destructive command runs.

    The random source is an external world; a token array is the list of its
    17 bytes. *)

From S2P Require Import Prelude Codec CString Random.

Definition DECK_SETUP_CONFIRMATION_TOKEN_CAPACITY : nat := 17.

Inductive deck_setup_confirmation_result_t :=
  | DECK_SETUP_CONFIRMATION_CONFIRMED
  | DECK_SETUP_CONFIRMATION_NOT_ISSUED
  | DECK_SETUP_CONFIRMATION_MISMATCH
  | DECK_SETUP_CONFIRMATION_EXPIRED.

Record deck_setup_confirmation := {
  lifetime_ms : Z;
  token : bytes;
  session_id : Z;
  issued_at_ms : Z;
  issued : bool;
}.

Implicit Type c : deck_setup_confirmation.

Definition clear_issue c : deck_setup_confirmation :=
  {| lifetime_ms := lifetime_ms c; token := map (fun _ => 0) (token c); session_id := 0;
     issued_at_ms := 0; issued := false |}.

Definition token_length : nat := (DECK_SETUP_CONFIRMATION_TOKEN_CAPACITY - 1)%nat.

(** ['0'..'9'], ['a'..'f'] *)
Definition is_hex (b : Z) : bool := is_digit b || ((97 <=? b) && (b <=? 102)).

(** [strnlen(token, CAPACITY)] is the length before the first NUL, at most
    CAPACITY. *)
Definition valid_token (value : bytes) : bool :=
  if negb (strlen (take DECK_SETUP_CONFIRMATION_TOKEN_CAPACITY value) =? token_length)%nat then false
  else forallb is_hex (take token_length value).

Definition tokens_equal (left right : bytes) : bool :=
  fold_left (fun difference index => Z.lor difference (Z.lxor left.[index] right.[index]))
    (seq 0 token_length) 0 =? 0.

Section confirmation.
Context {W : Type} `{RandomSource W}.

Definition deck_setup_confirmation_create (lifetime : Z) (allocated : bool) :
    option deck_setup_confirmation :=
  if lifetime =? 0 then None
  else if negb allocated then None
  else Some {| lifetime_ms := lifetime; token := replicate DECK_SETUP_CONFIRMATION_TOKEN_CAPACITY 0;
               session_id := 0; issued_at_ms := 0; issued := false |}.

(** The memory that is freed. *)
Definition deck_setup_confirmation_destroy c : deck_setup_confirmation := clear_issue c.

(** [kHex[value]] *)
Definition kHex (value : Z) : Z := if value <? 10 then 48 + value else 97 + (value - 10).

(** The two digits of each byte: lines 101-104. *)
Definition hex_digits (random : bytes) : bytes :=
  concat (map (fun b => [kHex (Z.shiftr b 4); kHex (Z.land b 15)]) random).

(** The caller's array [output] is written; [false] clears its first byte or,
    when the call is refused, leaves it alone. *)
Definition deck_setup_confirmation_issue c (session now_ms : Z) (output : bytes)
    (token_capacity : nat) : M W (bool * deck_setup_confirmation * bytes) :=
  if (session =? 0) || (token_capacity <? DECK_SETUP_CONFIRMATION_TOKEN_CAPACITY)%nat
  then mret (false, c, output)
  else
    random ← random_bytes 8;
    match random with
    | None => mret (false, clear_issue c, write_at output 0 [0])
    | Some random =>
        let token := hex_digits random ++ [0] in
        mret (true,
              {| lifetime_ms := lifetime_ms c; token := token; session_id := session;
                 issued_at_ms := now_ms; issued := true |},
              write_at output 0 token)
    end.

End confirmation.

(** [None] is a null [token]. *)
Definition deck_setup_confirmation_consume c (session : Z) (value : option bytes) (now_ms : Z) :
    deck_setup_confirmation_result_t * deck_setup_confirmation :=
  if negb (issued c) then (DECK_SETUP_CONFIRMATION_NOT_ISSUED, c)
  else if (now_ms <? issued_at_ms c) || (lifetime_ms c <? now_ms - issued_at_ms c)
  then (DECK_SETUP_CONFIRMATION_EXPIRED, clear_issue c)
  else
    let matches :=
      match value with
      | None => false
      | Some value => valid_token value && tokens_equal value (token c)
      end in
    if negb (session =? session_id c) || negb matches
    then (DECK_SETUP_CONFIRMATION_MISMATCH, c)
    else (DECK_SETUP_CONFIRMATION_CONFIRMED, clear_issue c).

(** ** Tokens *)

Definition hex_token (t : bytes) : Prop := length t = token_length /\ Forall (fun b => is_hex b = true) t.

Lemma hex_nonzero t : hex_token t -> Forall (fun b => b <> 0) t.
Proof. intros [_ Ht]. eapply Forall_impl; [exact Ht|]. by intros b Hb ->. Qed.

(** The two checks together compare the whole string with the token. *)
Lemma token_matches value t rest :
  hex_token t -> is_bytes value -> is_bytes t -> is_bytes rest ->
  valid_token value && tokens_equal value (t ++ rest) = true <-> c_string value = t.
Proof.
  intros Ht Hv Hbt Hbr. pose proof Ht as [Hlen Hhex]. unfold valid_token, tokens_equal.
  assert (strlen (take DECK_SETUP_CONFIRMATION_TOKEN_CAPACITY value) = token_length
          <-> strlen value = token_length) as Hstr.
  { unfold strlen. rewrite c_string_take, length_take.
    unfold token_length, DECK_SETUP_CONFIRMATION_TOKEN_CAPACITY. lia. }
  assert (take token_length (t ++ rest) = t) as Htake by by apply take_app_length'.
  split.
  - intros [Hvalid He]%andb_true_iff. destruct (Nat.eqb_spec
      (strlen (take DECK_SETUP_CONFIRMATION_TOKEN_CAPACITY value)) token_length) as [Hs|]; [|done].
    apply Hstr in Hs. pose proof (strlen_le value) as Hle. rewrite Z.eqb_eq in He.
    rewrite difference_zero_iff in He; [|done|by apply Forall_app|lia|rewrite length_app; lia].
    by rewrite c_string_prefix, Hs, He, Htake.
  - intros E. assert (strlen value = token_length) as Hs by (unfold strlen; by rewrite E, Hlen).
    pose proof (strlen_le value) as Hle.
    assert (take token_length value = t) as Hv16 by (by rewrite <- E, c_string_prefix, Hs).
    apply Hstr in Hs. rewrite Hs, Nat.eqb_refl. cbn [negb]. apply andb_true_iff. split.
    + rewrite Hv16. apply forallb_forall. intros b Hb. rewrite Forall_forall in Hhex.
      apply Hhex. by apply list_elem_of_In.
    + rewrite Z.eqb_eq, difference_zero_iff; [by rewrite Hv16, Htake|done|by apply Forall_app|lia|
        rewrite length_app; lia].
Qed.

Lemma kHex_hex v : 0 <= v < 16 -> is_hex (kHex v) = true /\ is_u8 (kHex v).
Proof.
  intros Hv. assert (exists n, v = Z.of_nat n /\ (n < 16)%nat) as (n & -> & Hn) by (exists (Z.to_nat v); lia).
  clear Hv.
  do 16 (destruct n as [|n]; [split; [reflexivity|vm_compute; split; discriminate]|]). lia.
Qed.

Lemma hex_digits_token random :
  length random = 8%nat -> is_bytes random -> hex_token (hex_digits random) /\ is_bytes (hex_digits random).
Proof.
  intros Hlen Hb.
  assert (length (hex_digits random) = 2 * length random /\ Forall (fun b => is_hex b = true) (hex_digits random)
    /\ is_bytes (hex_digits random))%nat as (Hl & Hh & Hu).
  { unfold hex_digits. clear Hlen. induction Hb as [|b random Hb _ (IHl & IHh & IHu)]; [done|].
    destruct (nibbles b Hb) as [H1 H2]. destruct (kHex_hex _ H1), (kHex_hex _ H2).
    cbn [map concat app]. cbn [length]. split_and!; [lia|by rewrite !Forall_cons|by rewrite !Forall_cons]. }
  unfold hex_token. rewrite Hl, Hlen. done.
Qed.

(** ** Specification: at most one outstanding confirmation *)

Record outstanding := { o_session : Z; o_token : bytes; o_issued_at : Z }.

Definition abs c : option outstanding :=
  if issued c
  then Some {| o_session := session_id c; o_token := take token_length (token c);
               o_issued_at := issued_at_ms c |}
  else None.

Record confirmation_ok (lifetime : Z) c : Prop := {
  ok_lifetime : lifetime_ms c = lifetime;
  ok_token : length (token c) = DECK_SETUP_CONFIRMATION_TOKEN_CAPACITY /\ is_bytes (token c);
  ok_issued : issued c = true -> hex_token (take token_length (token c));
  ok_wiped : issued c = false -> Forall (fun b => b = 0) (token c);
}.

Definition spec_consume (lifetime : Z) (st : option outstanding) (session : Z) (value : option bytes)
    (now_ms : Z) : deck_setup_confirmation_result_t * option outstanding :=
  match st with
  | None => (DECK_SETUP_CONFIRMATION_NOT_ISSUED, None)
  | Some o =>
      if (now_ms <? o_issued_at o) || (o_issued_at o + lifetime <? now_ms)
      then (DECK_SETUP_CONFIRMATION_EXPIRED, None)
      else if (session =? o_session o)
              && match value with Some v => bool_decide (c_string v = o_token o) | None => false end
      then (DECK_SETUP_CONFIRMATION_CONFIRMED, None)
      else (DECK_SETUP_CONFIRMATION_MISMATCH, Some o)
  end.

Lemma clear_issue_ok lifetime c : confirmation_ok lifetime c -> confirmation_ok lifetime (clear_issue c).
Proof.
  intros [Hl [Ht _] _ _]. constructor; simpl; try done.
  - rewrite length_map. split; [done|]. apply Forall_map, Forall_forall. intros b _. words.
  - intros _. apply Forall_map, Forall_forall. done.
Qed.

Lemma consume_refines lifetime c session value now_ms :
  confirmation_ok lifetime c -> match value with Some v => is_bytes v | None => True end ->
  let r := deck_setup_confirmation_consume c session value now_ms in
  let a := spec_consume lifetime (abs c) session value now_ms in
  r.1 = a.1 /\ abs r.2 = a.2 /\ confirmation_ok lifetime r.2.
Proof.
  intros Hok Hv r a. pose proof Hok as [Hl [Hlen Hb] Hi _]. subst r a.
  unfold deck_setup_confirmation_consume, spec_consume, abs.
  destruct (issued c) eqn:Eiss; simpl; [|by rewrite Eiss].
  rewrite Hl. assert ((now_ms <? issued_at_ms c) || (lifetime <? now_ms - issued_at_ms c)
    = (now_ms <? issued_at_ms c) || (issued_at_ms c + lifetime <? now_ms)) as ->
    by (f_equal; apply eq_bool_prop_intro; rewrite !Is_true_true, !Z.ltb_lt; lia).
  destruct (_ || _); simpl; [by split_and!; [..|apply clear_issue_ok]|].
  assert (match value with Some value => valid_token value && tokens_equal value (token c) | None => false end
    = match value with Some v => bool_decide (c_string v = take token_length (token c)) | None => false end) as ->.
  { destruct value as [v|]; [|done]. apply eq_bool_prop_intro. rewrite Is_true_true, bool_decide_spec.
    rewrite <- (take_drop token_length (token c)) at 1.
    apply token_matches; [by apply Hi|done|by apply Forall_take|by apply Forall_drop]. }
  destruct (session =? session_id c); simpl.
  - destruct (match value with Some _ => _ | None => false end); simpl;
      [by split_and!; [..|apply clear_issue_ok]|by rewrite Eiss].
  - by rewrite Eiss.
Qed.

Section issue.
Context {W : Type} `{RandomSource W}.

Lemma issue_refines lifetime c session now_ms output capacity (w : W) ok c' output' w' :
  confirmation_ok lifetime c ->
  deck_setup_confirmation_issue c session now_ms output capacity w = ((ok, c', output'), w') ->
  confirmation_ok lifetime c'
  /\ (ok = true -> exists random, length random = 8%nat /\ is_bytes random
        /\ (random_bytes 8 w).1 = Some random
        /\ abs c' = Some {| o_session := session; o_token := hex_digits random; o_issued_at := now_ms |}
        /\ output' = write_at output 0 (hex_digits random ++ [0]))
  /\ (ok = false -> c' = c \/ abs c' = None).
Proof.
  intros Hok. unfold deck_setup_confirmation_issue.
  destruct (_ || _); [intros [= <- <- <- <-]; split_and!; auto; done|]. rewrite run_bind.
  destruct (random_bytes 8 w) as [[random|] w2] eqn:E; cbn [fst snd]; intros [= <- <- <- <-].
  - destruct (random_length _ _ _ _ E) as [Hlen Hb]. destruct (hex_digits_token random Hlen Hb) as [Ht Hu].
    assert (length (hex_digits random) = token_length) as Hl by by destruct Ht.
    split_and!; [|intros _|done].
    + constructor; simpl; [apply Hok| |intros _; by rewrite take_app_length'|done].
      rewrite length_app, Hl. split; [done|]. apply Forall_app. split; [done|]. repeat constructor; words.
    + exists random. split_and!; try done. unfold abs. simpl. by rewrite take_app_length'.
  - split_and!; [by apply clear_issue_ok|done|]. intros _. by right.
Qed.

(** The states a confirmation reaches, whatever is issued and consumed. *)
Inductive reachable (lifetime : Z) : deck_setup_confirmation -> W -> Prop :=
  | reachable_create c w :
      deck_setup_confirmation_create lifetime true = Some c -> reachable lifetime c w
  | reachable_issue c w session now_ms output capacity ok c' output' w' :
      reachable lifetime c w ->
      deck_setup_confirmation_issue c session now_ms output capacity w = ((ok, c', output'), w') ->
      reachable lifetime c' w'
  | reachable_consume c w session value now_ms :
      reachable lifetime c w -> match value with Some v => is_bytes v | None => True end ->
      reachable lifetime (deck_setup_confirmation_consume c session value now_ms).2 w.

Lemma reachable_ok lifetime c w : reachable lifetime c w -> confirmation_ok lifetime c.
Proof.
  induction 1 as [c w Hc|c w session now_ms output capacity ok c' output' w' _ IH E|c w session value now_ms _ IH Hv].
  - unfold deck_setup_confirmation_create in Hc. destruct (lifetime =? 0); [done|]. injection Hc as <-.
    constructor; simpl; try done.
    + split; [done|]. repeat constructor; words.
    + intros _. by repeat constructor.
  - by destruct (issue_refines _ _ _ _ _ _ _ _ _ _ _ IH E).
  - by apply consume_refines.
Qed.

End issue.

(** One attempt: session, string and time. *)
Definition attempt : Type := Z * option bytes * Z.

Fixpoint consume_all c (attempts : list attempt) : list deck_setup_confirmation_result_t :=
  match attempts with
  | [] => []
  | (session, value, now_ms) :: attempts =>
      let '(r, c) := deck_setup_confirmation_consume c session value now_ms in
      r :: consume_all c attempts
  end.

(** What the attempts get after [secret] was issued to [session] at [at_ms]. *)
Fixpoint verdicts (lifetime session : Z) (secret : bytes) (at_ms : Z) (attempts : list attempt) :
    list deck_setup_confirmation_result_t :=
  match attempts with
  | [] => []
  | (session', value, now_ms) :: attempts =>
      let spent r := r :: map (fun _ => DECK_SETUP_CONFIRMATION_NOT_ISSUED) attempts in
      if negb ((at_ms <=? now_ms) && (now_ms <=? at_ms + lifetime))
      then spent DECK_SETUP_CONFIRMATION_EXPIRED
      else if (session' =? session)
              && match value with Some v => bool_decide (c_string v = secret) | None => false end
      then spent DECK_SETUP_CONFIRMATION_CONFIRMED
      else DECK_SETUP_CONFIRMATION_MISMATCH :: verdicts lifetime session secret at_ms attempts
  end.

Definition attempt_ok (a : attempt) : Prop :=
  match a with (_, Some v, _) => is_bytes v | _ => True end.

Lemma consume_none lifetime c attempts :
  confirmation_ok lifetime c -> abs c = None -> Forall attempt_ok attempts ->
  consume_all c attempts = map (fun _ => DECK_SETUP_CONFIRMATION_NOT_ISSUED) attempts.
Proof.
  intros Hok Hn Hall. revert c Hok Hn.
  induction Hall as [|[[session value] now_ms] attempts Ha _ IH]; intros c Hok Hn; [done|]. simpl.
  destruct (consume_refines lifetime c session value now_ms Hok) as (Hr & Hs & Hok'); [by destruct value|].
  rewrite Hn in Hr, Hs. destruct (deck_setup_confirmation_consume _ _ _ _) as [r c']. simpl in *.
  rewrite Hr. f_equal. by apply IH.
Qed.

Lemma consume_verdicts lifetime c session secret at_ms attempts :
  confirmation_ok lifetime c ->
  abs c = Some {| o_session := session; o_token := secret; o_issued_at := at_ms |} ->
  Forall attempt_ok attempts -> consume_all c attempts = verdicts lifetime session secret at_ms attempts.
Proof.
  intros Hok Hs Hall. revert c Hok Hs.
  induction Hall as [|[[session' value] now_ms] attempts Ha Hall IH]; intros c Hok Hs; [done|].
  cbn [consume_all verdicts].
  destruct (consume_refines lifetime c session' value now_ms Hok) as (Hr & Hs' & Hok'); [by destruct value|].
  rewrite Hs in Hr, Hs'. destruct (deck_setup_confirmation_consume _ _ _ _) as [r c'].
  unfold spec_consume in Hr, Hs'. cbn [o_session o_token o_issued_at fst snd] in *.
  assert (negb ((at_ms <=? now_ms) && (now_ms <=? at_ms + lifetime))
    = (now_ms <? at_ms) || (at_ms + lifetime <? now_ms)) as ->
    by by rewrite negb_andb, <- !Z.ltb_antisym.
  destruct (_ || _); simpl in *; [rewrite Hr; f_equal; by eapply consume_none|].
  destruct (_ && _); simpl in *; rewrite Hr; f_equal; [by eapply consume_none|by apply IH].
Qed.

(** A confirmation is one-time.  In every state, over every random
    source: a token that is issued is the 16 hex digits of 8 fresh random
    bytes; the attempts after it are confirmed at most once, by the first one
    of the same session that sends exactly this string in its lifetime; a late
    attempt, or a clock that went back, spends the token; after that nothing
    is confirmed; and a wrong attempt changes nothing. *)
Theorem confirmation_is_one_time {W} `{RandomSource W} lifetime c (w : W) session now_ms output capacity
    c' output' w' attempts :
  reachable lifetime c w ->
  deck_setup_confirmation_issue c session now_ms output capacity w = ((true, c', output'), w') ->
  Forall attempt_ok attempts ->
  exists random, (random_bytes 8 w).1 = Some random /\ hex_token (hex_digits random)
    /\ c_string output' = hex_digits random
    /\ consume_all c' attempts = verdicts lifetime session (hex_digits random) now_ms attempts.
Proof.
  intros Hr Hissue Hall. apply reachable_ok in Hr.
  destruct (issue_refines _ _ _ _ _ _ _ _ _ _ _ Hr Hissue) as (Hok & Htrue & _).
  destruct (Htrue eq_refl) as (random & Hlen & Hb & Hdraw & Habs & Hout).
  destruct (hex_digits_token random Hlen Hb) as [Ht _]. exists random. split_and!; try done.
  - rewrite Hout. unfold write_at. simpl. rewrite <- app_assoc. simpl.
    by apply c_string_app_nul, hex_nonzero.
  - by apply consume_verdicts.
Qed.

(** A random source that always draws the same bytes. *)
Module ConfirmationExample.
#[local] Instance fixed_source : RandomSource unit.
Proof.
  refine {| random_bytes n w := (Some (replicate n 0xa5), w) |}.
  intros n w b w' [= <- <-]. split; [apply length_replicate|]. apply Forall_replicate. words.
Defined.
Definition created : deck_setup_confirmation :=
  {| lifetime_ms := 60000; token := replicate DECK_SETUP_CONFIRMATION_TOKEN_CAPACITY 0;
     session_id := 0; issued_at_ms := 0; issued := false |}.
Definition secret : bytes := concat (replicate 8 [97; 53]).
(** A wrong session, a wrong token, the token, the token again. *)
Definition attempts : list attempt :=
  [(4, Some secret, 1500); (3, Some (replicate 16 97), 1600); (3, Some (secret ++ [0]), 61000);
   (3, Some secret, 61001)].
End ConfirmationExample.

Lemma confirmation_is_one_time_witness :
  exists c' output', deck_setup_confirmation_issue (H := ConfirmationExample.fixed_source)
      ConfirmationExample.created 3 1000 (replicate 17 0) 17 tt = ((true, c', output'), tt)
  /\ consume_all c' ConfirmationExample.attempts
     = [DECK_SETUP_CONFIRMATION_MISMATCH; DECK_SETUP_CONFIRMATION_MISMATCH;
        DECK_SETUP_CONFIRMATION_CONFIRMED; DECK_SETUP_CONFIRMATION_NOT_ISSUED].
Proof.
  destruct (deck_setup_confirmation_issue (H := ConfirmationExample.fixed_source)
    ConfirmationExample.created 3 1000 (replicate 17 0) 17 tt) as [[[ok c'] output'] []] eqn:E.
  assert (ok = true) as -> by (clear - E; vm_compute in E; by injection E as <- _ _).
  exists c', output'. split; [reflexivity|].
  destruct (confirmation_is_one_time (H := ConfirmationExample.fixed_source) 60000
    ConfirmationExample.created tt 3 1000 (replicate 17 0) 17 c' output' tt
    ConfirmationExample.attempts) as (random & Hdraw & _ & _ & Hall).
  - by apply reachable_create.
  - exact E.
  - repeat constructor; vm_compute; discriminate.
  - vm_compute in Hdraw. injection Hdraw as <-. rewrite Hall. vm_compute. reflexivity.
Defined.
