(* ===== verification/SetupMode.v ===== *)
(** * Setup mode sessions

    [components/setup_mode/deck_setup_mode.cpp]: the device's own access point,
    its random credentials, and the inactivity timeout that closes it. *)

From Stdlib Require Import String.
From S2P Require Import Prelude CString Random.

Definition DECK_SETUP_SSID_CAPACITY : nat := 13.
Definition DECK_SETUP_PASSWORD_CAPACITY : nat := 15.
Definition DECK_SETUP_ADDRESS_CAPACITY : nat := 16.

Inductive deck_setup_reason_t :=
  | DECK_SETUP_REASON_NONE
  | DECK_SETUP_REASON_NO_WIFI
  | DECK_SETUP_REASON_BOOT_LONG_PRESS.

#[export] Instance reason_eq : EqDecision deck_setup_reason_t.
Proof. solve_decision. Defined.

Inductive deck_setup_mode_result_t :=
  | DECK_SETUP_MODE_UNCHANGED
  | DECK_SETUP_MODE_STARTED
  | DECK_SETUP_MODE_RESTARTED
  | DECK_SETUP_MODE_STOPPED
  | DECK_SETUP_MODE_ERROR.

(** The three [char] arrays are the lists of their 13, 15 and 16 bytes. *)
Record deck_setup_snapshot_t := {
  active : bool;
  reason : deck_setup_reason_t;
  session_id : Z;
  started_at_ms : Z;
  last_activity_ms : Z;
  ssid : bytes;
  password : bytes;
  address : bytes;
}.

#[export] Instance snapshot_rebuild : Rebuild deck_setup_snapshot_t := fun s =>
  {| active := active s; reason := reason s; session_id := session_id s;
     started_at_ms := started_at_ms s; last_activity_ms := last_activity_ms s; ssid := ssid s;
     password := password s; address := address s |}.

(** The random source of the configuration is the world. *)
Record deck_setup_mode := {
  inactivity_timeout_ms : Z;
  snapshot : deck_setup_snapshot_t;
}.

#[export] Instance setup_rebuild : Rebuild deck_setup_mode := fun s =>
  {| inactivity_timeout_ms := inactivity_timeout_ms s; snapshot := snapshot s |}.

Implicit Types (s : deck_setup_mode) (snap : deck_setup_snapshot_t).

Definition kReadableAlphabet : bytes := literal "ABCDEFGHJKLMNPQRSTUVWXYZ23456789".
Definition kReadableAlphabetSize : Z := Z.of_nat (List.length kReadableAlphabet).
Definition kHexAlphabet : bytes := literal "0123456789ABCDEF".
Definition kAddress : bytes := literal "192.168.4.1".

Definition hex_char (digit : Z) : Z := kHexAlphabet.[Z.to_nat digit].

(** What the format ["S3-RLCD-%c%c%c%c"] makes of the first two bytes. *)
Definition ssid_text (random : bytes) : bytes :=
  literal "S3-RLCD-"
  ++ [hex_char (Z.shiftr random.[0] 4); hex_char (Z.land random.[0] 15);
      hex_char (Z.shiftr random.[1] 4); hex_char (Z.land random.[1] 15)].

(** [snprintf] into an array of this capacity: the text that fits and its
    terminator; the rest of the array is kept. *)
Definition snprintf (array text : bytes) : bytes :=
  write_at array 0 (take (List.length array - 1) text ++ [0]).

(** One step of the loop over [random_bytes], lines 41-47: the password and
    [output_index]. *)
Definition password_step (random : bytes) (st : bytes * nat) (random_index : nat) : bytes * nat :=
  let '(password, output_index) := st in
  let '(password, output_index) :=
    if (output_index =? 4)%nat || (output_index =? 9)%nat
    then (<[output_index := ch_minus]> password, S output_index)
    else (password, output_index) in
  let alphabet_index := random.[random_index] mod kReadableAlphabetSize in
  (<[output_index := kReadableAlphabet.[Z.to_nat alphabet_index]]> password, S output_index).

Section setup.
Context {W : Type} `{RandomSource W}.

Definition generate_credentials s : M W (bool * deck_setup_mode) :=
  random ← random_bytes 14;
  match random with
  | None => mret (false, s)
  | Some random =>
      let snap := snapshot s in
      let text := ssid_text random in
      let snap := snap <| ssid := snprintf (ssid snap) text |> in
      if negb (List.length text =? DECK_SETUP_SSID_CAPACITY - 1)%nat
      then mret (false, s <| snapshot := snap |>)
      else
        let '(password', output_index) :=
          fold_left (password_step random) (seq 2 12) (password snap, O) in
        let snap := snap <| password := <[output_index := 0]> password' |> in
        mret ((output_index =? DECK_SETUP_PASSWORD_CAPACITY - 1)%nat, s <| snapshot := snap |>)
  end.

Definition clear_credentials snap : deck_setup_snapshot_t :=
  (snap <| ssid := replicate DECK_SETUP_SSID_CAPACITY 0 |>)
    <| password := replicate DECK_SETUP_PASSWORD_CAPACITY 0 |>.

Definition deck_setup_mode_create (timeout : Z) (allocated : bool) : option deck_setup_mode :=
  if timeout =? 0 then None
  else if negb allocated then None
  else Some {| inactivity_timeout_ms := timeout;
               snapshot := {| active := false; reason := DECK_SETUP_REASON_NONE; session_id := 0;
                 started_at_ms := 0; last_activity_ms := 0;
                 ssid := replicate DECK_SETUP_SSID_CAPACITY 0;
                 password := replicate DECK_SETUP_PASSWORD_CAPACITY 0;
                 address := write_at (replicate DECK_SETUP_ADDRESS_CAPACITY 0) 0 (kAddress ++ [0]) |} |}.

(** The memory that is freed. *)
Definition deck_setup_mode_destroy s : deck_setup_mode :=
  s <| snapshot := clear_credentials (snapshot s) |>.

Definition deck_setup_mode_enter s (reason' : deck_setup_reason_t) (now_ms : Z) :
    M W (deck_setup_mode_result_t * deck_setup_mode) :=
  if bool_decide (reason' = DECK_SETUP_REASON_NONE) then mret (DECK_SETUP_MODE_ERROR, s)
  else
    let previous := snapshot s in
    let was_active := active (snapshot s) in
    generated ← generate_credentials (s <| snapshot := clear_credentials (snapshot s) |>);
    let '(ok, s) := generated in
    if negb ok then mret (DECK_SETUP_MODE_ERROR, s <| snapshot := previous |>)
    else
      let snap := (((((snapshot s) <| active := true |>) <| reason := reason' |>)
        <| session_id := u32 (session_id (snapshot s) + 1) |>)
        <| started_at_ms := now_ms |>) <| last_activity_ms := now_ms |> in
      mret (if was_active then DECK_SETUP_MODE_RESTARTED else DECK_SETUP_MODE_STARTED,
            s <| snapshot := snap |>).

Definition deck_setup_mode_boot s (has_valid_wifi_config : bool) (now_ms : Z) :
    M W (deck_setup_mode_result_t * deck_setup_mode) :=
  if has_valid_wifi_config then mret (DECK_SETUP_MODE_UNCHANGED, s)
  else deck_setup_mode_enter s DECK_SETUP_REASON_NO_WIFI now_ms.

End setup.

Definition deck_setup_mode_activity s (now_ms : Z) : bool * deck_setup_mode :=
  if negb (active (snapshot s)) then (false, s)
  else (true, s <| snapshot := (snapshot s) <| last_activity_ms := now_ms |> |>).

Definition deck_setup_mode_stop s : deck_setup_mode_result_t * deck_setup_mode :=
  if negb (active (snapshot s)) then (DECK_SETUP_MODE_UNCHANGED, s)
  else
    let snap := ((snapshot s) <| active := false |>) <| reason := DECK_SETUP_REASON_NONE |> in
    (DECK_SETUP_MODE_STOPPED, s <| snapshot := clear_credentials snap |>).

Definition deck_setup_mode_tick s (now_ms : Z) : deck_setup_mode_result_t * deck_setup_mode :=
  if negb (active (snapshot s)) || (now_ms <? last_activity_ms (snapshot s))
     || (now_ms - last_activity_ms (snapshot s) <? inactivity_timeout_ms s)
  then (DECK_SETUP_MODE_UNCHANGED, s)
  else deck_setup_mode_stop s.

Definition deck_setup_mode_snapshot s : deck_setup_snapshot_t := snapshot s.

(** ** Credentials *)

(** A letter of the password. *)
Definition letter (b : Z) : Z := kReadableAlphabet.[Z.to_nat (b mod kReadableAlphabetSize)].

Definition password_text (random : bytes) : bytes :=
  let letters := map letter (drop 2 random) in
  take 4 letters ++ [ch_minus] ++ slice 4 4 letters ++ [ch_minus] ++ slice 8 4 letters.

Definition ssid_ok (text : bytes) : Prop :=
  exists digits, text = literal "S3-RLCD-" ++ digits /\ List.length digits = 4%nat
    /\ Forall (.∈ kHexAlphabet) digits.

Definition password_ok (text : bytes) : Prop :=
  exists a b c, text = a ++ [ch_minus] ++ b ++ [ch_minus] ++ c
    /\ List.length a = 4%nat /\ List.length b = 4%nat /\ List.length c = 4%nat
    /\ Forall (.∈ kReadableAlphabet) (a ++ b ++ c).

Lemma byte_at_elem (l : bytes) i : (i < List.length l)%nat -> l.[i] ∈ l.
Proof.
  intros Hi. unfold byte_at. destruct (lookup_lt_is_Some_2 l i Hi) as [b Hb]. rewrite Hb.
  by eapply list_elem_of_lookup_2.
Qed.

Lemma letter_elem b : letter b ∈ kReadableAlphabet.
Proof.
  apply byte_at_elem. pose proof (Z.mod_pos_bound b kReadableAlphabetSize ltac:(done)) as Hb.
  unfold kReadableAlphabetSize in *. lia.
Qed.

Lemma hex_char_elem d : 0 <= d < 16 -> hex_char d ∈ kHexAlphabet.
Proof. intros Hd. apply byte_at_elem. change (List.length kHexAlphabet) with 16%nat. lia. Qed.

Lemma ssid_text_ok random : is_bytes random -> ssid_ok (ssid_text random).
Proof.
  intros Hb. unfold ssid_ok, ssid_text. eexists. split_and!; [done|done|].
  destruct (nibbles random.[0]), (nibbles random.[1]); [auto with deck..|].
  repeat (apply Forall_cons_2; [by apply hex_char_elem|]). done.
Qed.

Lemma length_password_text random :
  List.length random = 14%nat -> List.length (password_text random) = 14%nat.
Proof. intros Hl. do 14 (destruct random as [|? random]; [done|]). by destruct random. Qed.

Lemma password_text_ok random : List.length random = 14%nat -> password_ok (password_text random).
Proof.
  intros Hl. unfold password_text. set (letters := map letter (drop 2 random)).
  assert (List.length letters = 12)%nat as Hn by (unfold letters; rewrite length_map, length_drop; lia).
  assert (Forall (.∈ kReadableAlphabet) letters) as Ha.
  { unfold letters. apply Forall_map, Forall_forall. intros b _. apply letter_elem. }
  exists (take 4 letters), (slice 4 4 letters), (slice 8 4 letters).
  rewrite !length_slice, length_take by lia. split_and!; try done; [lia|].
  rewrite !Forall_app. unfold slice. split_and!; auto using Forall_take, Forall_drop.
Qed.

(** The loop writes the password, and ends at the last cell of the array. *)
Lemma password_loop random :
  List.length random = 14%nat ->
  fold_left (password_step random) (seq 2 12) (replicate DECK_SETUP_PASSWORD_CAPACITY 0, O)
  = (password_text random ++ [0], 14%nat).
Proof.
  intros Hl. do 14 (destruct random as [|? random]; [done|]). destruct random; [|done].
  unfold password_text, slice. cbn -[letter Z.modulo]. reflexivity.
Qed.

Lemma snprintf_fits text :
  List.length text = (DECK_SETUP_SSID_CAPACITY - 1)%nat ->
  snprintf (replicate DECK_SETUP_SSID_CAPACITY 0) text = text ++ [0].
Proof.
  intros Hl. unfold snprintf. rewrite length_replicate, <- Hl, take_ge by done.
  unfold write_at. simpl take. rewrite drop_ge, app_nil_r; [done|].
  rewrite length_replicate, length_app, Hl. done.
Qed.

(** ** Specification: at most one session, and the number started so far *)

Record session := {
  s_reason : deck_setup_reason_t;
  s_started_at : Z;
  s_last_activity : Z;
  s_ssid : bytes;
  s_password : bytes;
}.

#[export] Instance session_rebuild : Rebuild session := fun x =>
  {| s_reason := s_reason x; s_started_at := s_started_at x; s_last_activity := s_last_activity x;
     s_ssid := s_ssid x; s_password := s_password x |}.

Record sessions := { started : Z; current : option session }.

Definition abs s : sessions :=
  let snap := snapshot s in
  {| started := session_id snap;
     current := if active snap
       then Some {| s_reason := reason snap; s_started_at := started_at_ms snap;
                    s_last_activity := last_activity_ms snap; s_ssid := c_string (ssid snap);
                    s_password := c_string (password snap) |}
       else None |}.

Record setup_ok (timeout : Z) s : Prop := {
  ok_timeout : inactivity_timeout_ms s = timeout /\ 0 < timeout;
  ok_address : c_string (address (snapshot s)) = kAddress;
  ok_active : active (snapshot s) = true ->
    reason (snapshot s) <> DECK_SETUP_REASON_NONE
    /\ exists ssid' password', ssid (snapshot s) = ssid' ++ [0] /\ ssid_ok ssid'
       /\ password (snapshot s) = password' ++ [0] /\ password_ok password';
  ok_inactive : active (snapshot s) = false ->
    reason (snapshot s) = DECK_SETUP_REASON_NONE
    /\ ssid (snapshot s) = replicate DECK_SETUP_SSID_CAPACITY 0
    /\ password (snapshot s) = replicate DECK_SETUP_PASSWORD_CAPACITY 0;
}.

Inductive operation :=
  | Boot (has_valid_wifi_config : bool) (now_ms : Z)
  | Enter (reason : deck_setup_reason_t) (now_ms : Z)
  | Activity (now_ms : Z)
  | Tick (now_ms : Z)
  | Stop.

Inductive response :=
  | Result (result : deck_setup_mode_result_t)
  | Accepted (accepted : bool).

Section runs.
Context {W : Type} `{RandomSource W}.

Definition perform s (o : operation) : M W (response * deck_setup_mode) :=
  match o with
  | Boot wifi now_ms => '(r, s) ← deck_setup_mode_boot s wifi now_ms; mret (Result r, s)
  | Enter reason now_ms => '(r, s) ← deck_setup_mode_enter s reason now_ms; mret (Result r, s)
  | Activity now_ms => let '(ok, s) := deck_setup_mode_activity s now_ms in mret (Accepted ok, s)
  | Tick now_ms => let '(r, s) := deck_setup_mode_tick s now_ms in mret (Result r, s)
  | Stop => let '(r, s) := deck_setup_mode_stop s in mret (Result r, s)
  end.

Fixpoint perform_all s (ops : list operation) : M W (list response * deck_setup_mode) :=
  match ops with
  | [] => mret ([], s)
  | o :: ops =>
      '(r, s) ← perform s o;
      '(rs, s) ← perform_all s ops;
      mret (r :: rs, s)
  end.

Definition is_active (x : option session) : bool :=
  match x with Some _ => true | None => false end.

(** A new session replaces the current one, with fresh credentials; when no
    random bytes are to be had, everything stays. *)
Definition spec_enter (x : sessions) (reason : deck_setup_reason_t) (now_ms : Z) :
    M W (response * sessions) :=
  random ← random_bytes 14;
  mret match random with
  | None => (Result DECK_SETUP_MODE_ERROR, x)
  | Some random =>
      (Result (if is_active (current x) then DECK_SETUP_MODE_RESTARTED else DECK_SETUP_MODE_STARTED),
       {| started := u32 (started x + 1);
          current := Some {| s_reason := reason; s_started_at := now_ms; s_last_activity := now_ms;
                             s_ssid := ssid_text random; s_password := password_text random |} |})
  end.

Definition spec_perform (timeout : Z) (x : sessions) (o : operation) : M W (response * sessions) :=
  match o, current x with
  | Boot true _, _ => mret (Result DECK_SETUP_MODE_UNCHANGED, x)
  | Boot false now_ms, _ => spec_enter x DECK_SETUP_REASON_NO_WIFI now_ms
  | Enter DECK_SETUP_REASON_NONE _, _ => mret (Result DECK_SETUP_MODE_ERROR, x)
  | Enter reason now_ms, _ => spec_enter x reason now_ms
  | Activity _, None => mret (Accepted false, x)
  | Activity now_ms, Some s =>
      mret (Accepted true, {| started := started x; current := Some (s <| s_last_activity := now_ms |>) |})
  | (Tick _ | Stop), None => mret (Result DECK_SETUP_MODE_UNCHANGED, x)
  | Tick now_ms, Some s =>
      if s_last_activity s + timeout <=? now_ms
      then mret (Result DECK_SETUP_MODE_STOPPED, {| started := started x; current := None |})
      else mret (Result DECK_SETUP_MODE_UNCHANGED, x)
  | Stop, Some s => mret (Result DECK_SETUP_MODE_STOPPED, {| started := started x; current := None |})
  end.

Fixpoint spec_all (timeout : Z) (x : sessions) (ops : list operation) : M W (list response * sessions) :=
  match ops with
  | [] => mret ([], x)
  | o :: ops =>
      '(r, x) ← spec_perform timeout x o;
      '(rs, x) ← spec_all timeout x ops;
      mret (r :: rs, x)
  end.

(** What a call of the code must do. *)
Definition simulates {R : Type} (timeout : Z) (m : M W (R * deck_setup_mode)) (spec : M W (R * sessions)) :
    Prop :=
  forall w, let '((r, s), w') := m w in spec w = ((r, abs s), w') /\ setup_ok timeout s.

Lemma simulates_ret {R} timeout (r : R) s x :
  setup_ok timeout s -> x = abs s -> simulates timeout (mret (r, s)) (mret (r, x)).
Proof. by intros Hok -> w. Qed.

Lemma simulates_bind {R S} timeout (m : M W (R * deck_setup_mode)) spec
    (k : R * deck_setup_mode -> M W (S * deck_setup_mode)) (k' : R * sessions -> M W (S * sessions)) :
  simulates timeout m spec ->
  (forall r s, setup_ok timeout s -> simulates timeout (k (r, s)) (k' (r, abs s))) ->
  simulates timeout (m ≫= k) (spec ≫= k').
Proof.
  intros Hm Hk w. rewrite !run_bind. specialize (Hm w).
  destruct (m w) as [[r s] w']. destruct Hm as [-> Hok]. apply (Hk r s Hok w').
Qed.

Lemma generate_spec s snap w :
  snapshot s = clear_credentials snap ->
  match random_bytes 14 w with
  | (None, w') => generate_credentials s w = ((false, s), w')
  | (Some random, w') =>
      generate_credentials s w
      = ((true, s <| snapshot := ((snapshot s) <| ssid := ssid_text random ++ [0] |>)
                       <| password := password_text random ++ [0] |> |>), w')
      /\ ssid_ok (ssid_text random) /\ password_ok (password_text random)
  end.
Proof.
  intros Hs. destruct (random_bytes 14 w) as [[random|] w'] eqn:E; unfold generate_credentials;
    rewrite run_bind, E; cbn [fst snd]; [|done].
  destruct (random_length _ _ _ _ E) as [Hlen Hb].
  split; [|split; [by apply ssid_text_ok|by apply password_text_ok]].
  rewrite Hs. unfold clear_credentials. cbn [ssid password set_field field_update].
  change (List.length (ssid_text random)) with 12%nat. rewrite snprintf_fits by done.
  rewrite password_loop by done. cbn [negb Nat.eqb DECK_SETUP_SSID_CAPACITY Nat.sub].
  rewrite list_insert_id; [done|].
  rewrite lookup_app_r; rewrite length_password_text by done; done.
Qed.

Lemma in_alphabet alphabet text :
  forallb (fun b => negb (b =? 0)) alphabet = true -> Forall (.∈ alphabet) text ->
  Forall (fun b => b <> 0) text.
Proof.
  intros Ha Ht. eapply Forall_impl; [exact Ht|]. intros b Hb ->.
  rewrite forallb_forall in Ha. by specialize (Ha 0 (proj1 (list_elem_of_In _ _) Hb)).
Qed.

Lemma ssid_string text : ssid_ok text -> c_string (text ++ [0]) = text.
Proof.
  intros (digits & -> & _ & Hd). apply c_string_app_nul, Forall_app. split.
  - apply (in_alphabet (literal "S3-RLCD-")); [done|by apply Forall_forall].
  - by apply (in_alphabet kHexAlphabet).
Qed.

Lemma password_string text : password_ok text -> c_string (text ++ [0]) = text.
Proof.
  intros (a & b & c & -> & _ & _ & _ & Hd). apply in_alphabet in Hd; [|done].
  rewrite !Forall_app in Hd. destruct Hd as (Ha & Hb & Hc).
  apply c_string_app_nul. rewrite !Forall_app. split_and!; try done; by repeat constructor.
Qed.

Lemma enter_simulates timeout s reason' now_ms :
  setup_ok timeout s -> reason' <> DECK_SETUP_REASON_NONE ->
  simulates timeout ('(r, s) ← deck_setup_mode_enter s reason' now_ms; mret (Result r, s))
    (spec_enter (abs s) reason' now_ms).
Proof.
  intros Hok Hr w. unfold deck_setup_mode_enter. rewrite bool_decide_eq_false_2 by done.
  unfold spec_enter. run.
  pose proof (generate_spec (s <| snapshot := clear_credentials (snapshot s) |>) (snapshot s) w eq_refl) as Hg.
  destruct (random_bytes 14 w) as [[random|] w'].
  - destruct Hg as (-> & Hs & Hp). cbn [fst snd negb]. run. unfold abs.
    revert Hs Hp. generalize (ssid_text random), (password_text random). intros name pass Hs Hp. split.
    + simpl. rewrite (ssid_string _ Hs), (password_string _ Hp). by destruct (active (snapshot s)).
    + constructor; simpl; try done; try apply Hok. intros _. split; [done|]. eauto 10.
  - rewrite Hg. cbn [fst snd negb]. run. split; [|by destruct s].
    by destruct s.
Qed.

Lemma stop_simulates timeout s :
  setup_ok timeout s -> active (snapshot s) = true ->
  simulates timeout (let '(r, s) := deck_setup_mode_stop s in mret (Result r, s))
    (mret (Result DECK_SETUP_MODE_STOPPED, {| started := started (abs s); current := None |})).
Proof.
  intros Hok Ha. unfold deck_setup_mode_stop. rewrite Ha. apply simulates_ret; [|done].
  constructor; simpl; try done; apply Hok.
Qed.

Lemma perform_simulates timeout s o :
  setup_ok timeout s -> simulates timeout (perform s o) (spec_perform timeout (abs s) o).
Proof.
  intros Hok. pose proof (ok_timeout _ _ Hok) as [Ht Hpos]. destruct o as [wifi now_ms|reason' now_ms|now_ms|now_ms|].
  - destruct wifi; simpl; [|by apply enter_simulates]. intros w. by run.
  - destruct reason'; simpl; try (by apply enter_simulates). intros w. by run.
  - unfold perform, deck_setup_mode_activity, spec_perform. simpl.
    destruct (active (snapshot s)) eqn:Ha; simpl; apply simulates_ret; try done.
    + constructor; simpl; try done; apply Hok.
    + unfold abs. simpl. by rewrite Ha.
  - unfold perform, deck_setup_mode_tick. cbn [spec_perform abs current]. rewrite Ht.
    destruct (active (snapshot s)) eqn:Ha; cbn [negb orb]; [|by apply simulates_ret].
    cbn [s_last_activity].
    destruct (Z.leb_spec (last_activity_ms (snapshot s) + timeout) now_ms).
    + rewrite (proj2 (Z.ltb_ge _ _)), (proj2 (Z.ltb_ge _ _)) by lia. by apply stop_simulates.
    + rewrite (proj2 (orb_true_iff _ _)); [by apply simulates_ret|]. rewrite !Z.ltb_lt. lia.
  - unfold perform. cbn [spec_perform abs current].
    destruct (active (snapshot s)) eqn:Ha; [by apply stop_simulates|].
    unfold deck_setup_mode_stop. rewrite Ha. by apply simulates_ret.
Qed.

Lemma perform_all_simulates timeout s ops :
  setup_ok timeout s -> simulates timeout (perform_all s ops) (spec_all timeout (abs s) ops).
Proof.
  revert s. induction ops as [|o ops IH]; intros s Hok; simpl; [by apply simulates_ret|].
  apply simulates_bind; [by apply perform_simulates|]. intros r s' Hok'.
  apply simulates_bind; [by apply IH|]. intros rs s'' Hok''. by apply simulates_ret.
Qed.

Lemma setup_create_ok timeout s :
  0 <= timeout -> deck_setup_mode_create timeout true = Some s ->
  setup_ok timeout s /\ abs s = {| started := 0; current := None |}.
Proof.
  intros Ht. unfold deck_setup_mode_create. destruct (Z.eqb_spec timeout 0); [done|].
  simpl. intros [= <-]. split; [|done]. constructor; simpl; try done. split; [done|lia].
Qed.

End runs.

(** A setup session lives from the call that opens it to the first tick
    after the inactivity timeout, or to its stop.  Every history of calls,
    over every random source, answers like the specification: a session that
    is opened replaces the one before with fresh credentials, a failed random
    source changes nothing, activity extends the session, and a clock that
    goes back never closes it.  While a session is active its network name is
    [S3-RLCD-XXXX] with four hexadecimal digits, its password three groups of
    four readable letters, both terminated inside their arrays; when none is,
    both arrays hold zeros. *)
Theorem setup_session_refines_spec {W} `{RandomSource W} timeout s ops (w : W) :
  is_u64 timeout -> deck_setup_mode_create timeout true = Some s ->
  let '((answers, s'), w') := perform_all s ops w in
  spec_all timeout {| started := 0; current := None |} ops w = ((answers, abs s'), w')
  /\ setup_ok timeout s'.
Proof.
  intros Ht Hc. destruct (setup_create_ok timeout s ltac:(words) Hc) as [Hok <-].
  by apply perform_all_simulates.
Qed.

Module SetupExample.
(** A source with a number of draws left. *)
#[local] Instance counted_source : RandomSource nat.
Proof.
  refine {| random_bytes n w :=
    match w with O => (None, O) | S w => (Some (map (fun i => Z.of_nat i mod 256) (seq 0 n)), w) end |}.
  intros n [|w] b w'; [done|]. intros [= <- <-].
  split; [by rewrite length_map, length_seq|]. apply Forall_map, Forall_forall. intros i _. words.
Defined.
Definition created : deck_setup_mode :=
  {| inactivity_timeout_ms := 600;
     snapshot := {| active := false; reason := DECK_SETUP_REASON_NONE; session_id := 0;
       started_at_ms := 0; last_activity_ms := 0; ssid := replicate 13 0; password := replicate 15 0;
       address := kAddress ++ replicate 5 0 |} |}.
(** Opened at boot, kept by activity, a second session refused for want of
    random bytes, closed by a tick. *)
Definition ops : list operation :=
  [Boot true 0; Boot false 10; Tick 609; Activity 500; Tick 1099; Enter DECK_SETUP_REASON_BOOT_LONG_PRESS 1099;
   Tick 5; Tick 1100; Stop].
Definition answers : list response :=
  [Result DECK_SETUP_MODE_UNCHANGED; Result DECK_SETUP_MODE_STARTED; Result DECK_SETUP_MODE_UNCHANGED;
   Accepted true; Result DECK_SETUP_MODE_UNCHANGED; Result DECK_SETUP_MODE_ERROR;
   Result DECK_SETUP_MODE_UNCHANGED; Result DECK_SETUP_MODE_STOPPED; Result DECK_SETUP_MODE_UNCHANGED].
End SetupExample.

Lemma setup_session_refines_spec_witness :
  let '((answers, s'), w') := perform_all (H := SetupExample.counted_source) SetupExample.created
    SetupExample.ops 1%nat in
  answers = SetupExample.answers /\ w' = 0%nat /\ abs s' = {| started := 1; current := None |}
  /\ setup_ok 600 s'.
Proof.
  pose proof (setup_session_refines_spec (H := SetupExample.counted_source) 600 SetupExample.created
    SetupExample.ops 1%nat ltac:(words) eq_refl) as Hs.
  destruct (perform_all (H := SetupExample.counted_source) SetupExample.created
    SetupExample.ops 1%nat) as [[answers s'] w'].
  destruct Hs as [Hs Hok]. set (st := abs s') in *. clearbody st. vm_compute in Hs.
  injection Hs as <- <- <-. split_and!; [reflexivity..|exact Hok].
Defined.
