(* ===== verification/DeviceSettings.v ===== *)
(** * Device settings

    [components/device_settings/deck_device_settings.cpp]: the temperature
    offset, one two-byte record in a transactional store of its own. *)

From Stdlib Require Import String.
From S2P Require Import Prelude Codec CString TransactionStore TransactionClient TransactionCodec TransactionMedium TransactionCrash.

(** ** The record *)

Definition DECK_DEVICE_SETTINGS_DEFAULT_TEMPERATURE_OFFSET_TENTHS_C : Z := -40.
Definition DECK_DEVICE_SETTINGS_MINIMUM_TEMPERATURE_OFFSET_TENTHS_C : Z := -150.
Definition DECK_DEVICE_SETTINGS_MAXIMUM_TEMPERATURE_OFFSET_TENTHS_C : Z := 150.

Definition kSchemaVersion : Z := 1.
(** ["DST1"] and ["DSM1"] *)
Definition kRecordMagic : bytes := [68; 83; 84; 49].
Definition kMarkerMagic : bytes := [68; 83; 77; 49].
Definition kPayloadSize : nat := 2.

Definition decode_offset (payload : bytes) : Z :=
  let value := Z.lor payload.[0] (u16 (Z.shiftl payload.[1] 8)) in
  i16 value.

Definition encode_offset (offset : Z) : bytes :=
  let value := u16 offset in
  [u8 (Z.land value 0xff); u8 (Z.land (Z.shiftr value 8) 0xff)].

Definition valid_offset (offset : Z) : bool :=
  (DECK_DEVICE_SETTINGS_MINIMUM_TEMPERATURE_OFFSET_TENTHS_C <=? offset)
  && (offset <=? DECK_DEVICE_SETTINGS_MAXIMUM_TEMPERATURE_OFFSET_TENTHS_C).

Definition validate_payload (payload : bytes) : bool :=
  (length payload =? kPayloadSize)%nat && valid_offset (decode_offset payload).

Inductive deck_device_settings_state_t :=
  | DECK_DEVICE_SETTINGS_DEFAULT
  | DECK_DEVICE_SETTINGS_ACTIVE
  | DECK_DEVICE_SETTINGS_STATE_STORAGE_ERROR.

Inductive deck_device_settings_record_status_t :=
  | DECK_DEVICE_SETTINGS_RECORD_EMPTY
  | DECK_DEVICE_SETTINGS_RECORD_VALID
  | DECK_DEVICE_SETTINGS_RECORD_RECOVERED_PREVIOUS
  | DECK_DEVICE_SETTINGS_RECORD_CORRUPT
  | DECK_DEVICE_SETTINGS_RECORD_UNSUPPORTED_SCHEMA
  | DECK_DEVICE_SETTINGS_RECORD_MIGRATION_FAILED
  | DECK_DEVICE_SETTINGS_RECORD_IO_ERROR.

Inductive deck_device_settings_update_result_t :=
  | DECK_DEVICE_SETTINGS_UPDATED
  | DECK_DEVICE_SETTINGS_INVALID_OFFSET
  | DECK_DEVICE_SETTINGS_STORAGE_FAILURE.

#[export] Instance settings_result_eq_dec : EqDecision deck_device_settings_update_result_t.
Proof. solve_decision. Defined.

Definition map_status (status : deck_transaction_record_status_t) : deck_device_settings_record_status_t :=
  match status with
  | DECK_TRANSACTION_RECORD_VALID => DECK_DEVICE_SETTINGS_RECORD_VALID
  | DECK_TRANSACTION_RECORD_RECOVERED_PREVIOUS => DECK_DEVICE_SETTINGS_RECORD_RECOVERED_PREVIOUS
  | DECK_TRANSACTION_RECORD_CORRUPT => DECK_DEVICE_SETTINGS_RECORD_CORRUPT
  | DECK_TRANSACTION_RECORD_UNSUPPORTED_SCHEMA => DECK_DEVICE_SETTINGS_RECORD_UNSUPPORTED_SCHEMA
  | DECK_TRANSACTION_RECORD_MIGRATION_FAILED => DECK_DEVICE_SETTINGS_RECORD_MIGRATION_FAILED
  | DECK_TRANSACTION_RECORD_IO_ERROR => DECK_DEVICE_SETTINGS_RECORD_IO_ERROR
  | DECK_TRANSACTION_RECORD_EMPTY => DECK_DEVICE_SETTINGS_RECORD_EMPTY
  end.

Record deck_device_settings_snapshot_t := {
  state : deck_device_settings_state_t;
  settings_record_status : deck_device_settings_record_status_t;
  settings_candidate_record_status : deck_device_settings_record_status_t;
  settings_has_active : bool;
  settings_has_candidate : bool;
  settings_generation : Z;
  temperature_offset_tenths_c : Z;
}.

(** [store->store] of the object. *)
Record deck_device_settings := { store : deck_transaction_store }.

(** ** Operations *)

Definition store_options : deck_transaction_store_options_t := {|
  record_magic := kRecordMagic;
  marker_magic := kMarkerMagic;
  schema_version := kSchemaVersion;
  payload_capacity := 0;
  payload_length_excluded_prefix := 0;
  TransactionStore.validate_payload := validate_payload;
|}.

Section operations.
Context {W : Type} `{StorageAdapter W}.
Implicit Type s : deck_device_settings.

Definition deck_device_settings_create : M W (option deck_device_settings) :=
  allocated ← heap_alloc;
  if negb allocated then mret None
  else
    created ← deck_transaction_store_create store_options;
    mret (match created with Some st => Some {| store := st |} | None => None end).

Definition deck_device_settings_submit_temperature_offset s (offset : Z) :
    M W (deck_device_settings_update_result_t * deck_device_settings) :=
  if negb (valid_offset offset) then mret (DECK_DEVICE_SETTINGS_INVALID_OFFSET, s)
  else
    staged ← deck_transaction_store_stage (store s) (encode_offset offset);
    let '(result, st) := staged in
    if negb (bool_decide (result = DECK_TRANSACTION_UPDATED))
    then mret (DECK_DEVICE_SETTINGS_STORAGE_FAILURE, {| store := st |})
    else
      committed ← deck_transaction_store_commit st;
      let '(result, st) := committed in
      mret (if bool_decide (result = DECK_TRANSACTION_UPDATED) then DECK_DEVICE_SETTINGS_UPDATED
            else DECK_DEVICE_SETTINGS_STORAGE_FAILURE, {| store := st |}).

End operations.

Definition deck_device_settings_snapshot (s : deck_device_settings) : deck_device_settings_snapshot_t :=
  let stored := deck_transaction_store_snapshot (store s) in
  let state :=
    if snapshot_storage_faulted stored then DECK_DEVICE_SETTINGS_STATE_STORAGE_ERROR
    else if snapshot_has_active stored then DECK_DEVICE_SETTINGS_ACTIVE
    else DECK_DEVICE_SETTINGS_DEFAULT in
  {| state := state;
     settings_record_status := map_status (snapshot_record_status stored);
     settings_candidate_record_status := map_status (snapshot_candidate_record_status stored);
     settings_has_active := snapshot_has_active stored;
     settings_has_candidate := snapshot_has_candidate stored;
     settings_generation :=
       if snapshot_has_active stored then generation (snapshot_active stored) else 0;
     temperature_offset_tenths_c :=
       if snapshot_has_active stored then decode_offset (payload (snapshot_active stored))
       else DECK_DEVICE_SETTINGS_DEFAULT_TEMPERATURE_OFFSET_TENTHS_C |}.

Definition deck_device_settings_state_name (x : deck_device_settings_state_t) : bytes :=
  literal match x with
  | DECK_DEVICE_SETTINGS_ACTIVE => "active"
  | DECK_DEVICE_SETTINGS_STATE_STORAGE_ERROR => "storage_error"
  | DECK_DEVICE_SETTINGS_DEFAULT => "default"
  end%string.

Definition deck_device_settings_record_status_name (x : deck_device_settings_record_status_t) : bytes :=
  literal match x with
  | DECK_DEVICE_SETTINGS_RECORD_VALID => "valid"
  | DECK_DEVICE_SETTINGS_RECORD_RECOVERED_PREVIOUS => "recovered_previous"
  | DECK_DEVICE_SETTINGS_RECORD_CORRUPT => "corrupt"
  | DECK_DEVICE_SETTINGS_RECORD_UNSUPPORTED_SCHEMA => "unsupported_schema"
  | DECK_DEVICE_SETTINGS_RECORD_MIGRATION_FAILED => "migration_failed"
  | DECK_DEVICE_SETTINGS_RECORD_IO_ERROR => "io_error"
  | DECK_DEVICE_SETTINGS_RECORD_EMPTY => "empty"
  end%string.

(** ** The record codec *)

Lemma decode_encode_offset offset : valid_offset offset = true -> decode_offset (encode_offset offset) = offset.
Proof.
  unfold valid_offset, DECK_DEVICE_SETTINGS_MINIMUM_TEMPERATURE_OFFSET_TENTHS_C,
    DECK_DEVICE_SETTINGS_MAXIMUM_TEMPERATURE_OFFSET_TENTHS_C. intros Ho. bool_prop.
  pose proof (LEFacts.read_write_u16 (u16 offset) [] ltac:(words)) as Hr.
  unfold decode_offset. change (encode_offset offset) with (LE.write_u16 (u16 offset)).
  unfold LE.read_u16 in Hr. rewrite app_nil_r in Hr.
  pose proof (LEFacts.is_bytes_write_u16 (u16 offset)) as Hb.
  pose proof (byte_at_range _ 0 Hb). pose proof (byte_at_range _ 1 Hb).
  rewrite !(u16_id (_.[_])) in Hr by words. rewrite Hr. words.
Qed.

Lemma encode_offset_accepted offset :
  valid_offset offset = true -> stage_accepts (created_options store_options) (encode_offset offset) = true.
Proof.
  intros Ho. unfold stage_accepts. rewrite created_validate. simpl TransactionStore.validate_payload.
  unfold validate_payload. by rewrite decode_encode_offset, Ho.
Qed.

(** ** Over any adapter *)

(** What the device shows for an active record, or without one. *)
Definition offset_of (record : option OwnedRecord) : Z :=
  match record with
  | Some r => decode_offset (payload r)
  | None => DECK_DEVICE_SETTINGS_DEFAULT_TEMPERATURE_OFFSET_TENTHS_C
  end.

Lemma snapshot_offset s :
  temperature_offset_tenths_c (deck_device_settings_snapshot s) = offset_of (active_of (store s)).
Proof. unfold deck_device_settings_snapshot, active_of. simpl. by destruct (has_active (store s)). Qed.

Record settings_ok (s : deck_device_settings) : Prop := {
  ok_options : options (store s) = created_options store_options;
  ok_records : records_valid (store s);
}.

Section properties.
Context {W : Type} `{StorageAdapter W}.
Implicit Type s : deck_device_settings.

Lemma submit_save s offset (w : W) :
  deck_device_settings_submit_temperature_offset s offset w
  = if valid_offset offset
    then let '((ok, st), w') := save (store s) (encode_offset offset) w in
         ((if ok : bool then DECK_DEVICE_SETTINGS_UPDATED else DECK_DEVICE_SETTINGS_STORAGE_FAILURE,
           {| store := st |}), w')
    else ((DECK_DEVICE_SETTINGS_INVALID_OFFSET, s), w).
Proof.
  unfold deck_device_settings_submit_temperature_offset, save, mbind, M_bind, mret, M_ret.
  destruct (valid_offset offset); [|done]. cbn [negb].
  destruct (deck_transaction_store_stage _ _ w) as [[r st] w1]. case_bool_decide; [|done]. cbn [negb].
  by destruct (deck_transaction_store_commit st w1) as [[r2 st2] w2].
Qed.

Lemma create_settings_ok (w : W) s w' :
  deck_device_settings_create w = (Some s, w') -> settings_ok s.
Proof.
  unfold deck_device_settings_create. rewrite run_bind. destruct (heap_alloc w) as [[] w1]; [|done].
  cbn [fst snd negb]. rewrite run_bind.
  destruct (deck_transaction_store_create store_options w1) as [[st|] w2] eqn:E; [|done].
  intros [= <- <-]. by apply create_valid in E as [? ?].
Qed.

Lemma submit_settings_ok s offset (w : W) r s' w' :
  settings_ok s -> deck_device_settings_submit_temperature_offset s offset w = ((r, s'), w') ->
  settings_ok s'.
Proof.
  intros [Ho Hv]. rewrite submit_save. destruct (valid_offset offset); [|by intros [= <- <- <-]].
  destruct (save _ _ w) as [[ok st] w1] eqn:E. intros [= <- <- <-].
  pose proof (save_cases _ _ _ _ _ _ E) as [Ho' _]. split; simpl; [congruence|by eapply save_valid].
Qed.

(** The states settings reach over any adapter and heap. *)
Inductive reachable : deck_device_settings -> Prop :=
  | reachable_create (w : W) s w' : deck_device_settings_create w = (Some s, w') -> reachable s
  | reachable_submit s offset (w : W) r s' w' :
      reachable s -> deck_device_settings_submit_temperature_offset s offset w = ((r, s'), w') ->
      reachable s'.

Lemma reachable_settings_ok s : reachable s -> settings_ok s.
Proof. induction 1; [by eapply create_settings_ok|by eapply submit_settings_ok]. Qed.

Lemma valid_offset_range offset : valid_offset offset = true -> -150 <= offset <= 150.
Proof.
  unfold valid_offset, DECK_DEVICE_SETTINGS_MINIMUM_TEMPERATURE_OFFSET_TENTHS_C,
    DECK_DEVICE_SETTINGS_MAXIMUM_TEMPERATURE_OFFSET_TENTHS_C. intros. by bool_prop.
Qed.

Lemma invalid_offset_range offset : valid_offset offset = false -> ~ (-150 <= offset <= 150).
Proof.
  unfold valid_offset, DECK_DEVICE_SETTINGS_MINIMUM_TEMPERATURE_OFFSET_TENTHS_C,
    DECK_DEVICE_SETTINGS_MAXIMUM_TEMPERATURE_OFFSET_TENTHS_C. intros. bool_cases; lia.
Qed.

Lemma offset_in_range s :
  settings_ok s -> -150 <= temperature_offset_tenths_c (deck_device_settings_snapshot s) <= 150.
Proof.
  intros [Ho [Ha _]]. rewrite snapshot_offset. unfold offset_of, active_of.
  destruct (has_active (store s)) eqn:Hh;
    [|unfold DECK_DEVICE_SETTINGS_DEFAULT_TEMPERATURE_OFFSET_TENTHS_C; lia].
  specialize (Ha eq_refl). rewrite Ho, created_validate in Ha. simpl in Ha. unfold validate_payload in Ha.
  bool_prop. by apply valid_offset_range.
Qed.

End properties.

(** The settings over any adapter and any heap.  In every reachable state
    the offset in force is between -15.0 and 15.0 degrees; a submission out
    of range touches nothing; one that reports success puts exactly its
    offset in force, with no fault; one that fails leaves the offset in force
    and shows a storage error. *)
Theorem settings_apply_exactly {W} `{StorageAdapter W} s offset (w : W) r s' w' :
  reachable s ->
  deck_device_settings_submit_temperature_offset s offset w = ((r, s'), w') ->
  let shown := deck_device_settings_snapshot s in
  let shown' := deck_device_settings_snapshot s' in
  -150 <= temperature_offset_tenths_c shown <= 150
  /\ match r with
     | DECK_DEVICE_SETTINGS_INVALID_OFFSET => ~ (-150 <= offset <= 150) /\ s' = s /\ w' = w
     | DECK_DEVICE_SETTINGS_UPDATED =>
         state shown' = DECK_DEVICE_SETTINGS_ACTIVE /\ temperature_offset_tenths_c shown' = offset
         /\ settings_record_status shown' = DECK_DEVICE_SETTINGS_RECORD_VALID
     | DECK_DEVICE_SETTINGS_STORAGE_FAILURE =>
         state shown' = DECK_DEVICE_SETTINGS_STATE_STORAGE_ERROR
         /\ temperature_offset_tenths_c shown' = temperature_offset_tenths_c shown
     end.
Proof.
  intros Hr%reachable_settings_ok Hs shown shown'. split; [by apply offset_in_range|]. subst shown shown'.
  rewrite submit_save in Hs. destruct (valid_offset offset) eqn:Hv.
  2: { injection Hs as <- <- <-. split_and!; try done. by apply invalid_offset_range. }
  destruct (save _ _ w) as [[ok st] w1] eqn:E. injection Hs as <- <- <-.
  apply save_cases in E as [_ E]. rewrite (ok_options _ Hr) in E.
  rewrite !snapshot_offset. unfold deck_device_settings_snapshot, active_of. destruct ok.
  - destruct E as (Ea & Ep & _ & Ef & Es & _). simpl. rewrite Ea, Ef, Es. cbn [offset_of].
    by rewrite Ep, decode_encode_offset.
  - destruct E as (Ea & Eh & Ef). simpl. rewrite Ea, Eh, Ef by by apply encode_offset_accepted. done.
Qed.

(** ** Over a medium that loses power *)

Fixpoint submit_all (s : deck_device_settings) (offsets : list Z) (f : flash) :
    list (Z * deck_device_settings_update_result_t) * deck_device_settings * flash :=
  match offsets with
  | [] => ([], s, f)
  | offset :: offsets =>
      let '((r, s), f) := deck_device_settings_submit_temperature_offset s offset f in
      let '(log, s, f) := submit_all s offsets f in
      ((offset, r) :: log, s, f)
  end.

(** The offset in force after the next restart. *)
Definition offset_after_reboot (f : flash) : Z :=
  match (deck_device_settings_create (reboot f)).1 with
  | Some s => temperature_offset_tenths_c (deck_device_settings_snapshot s)
  | None => DECK_DEVICE_SETTINGS_DEFAULT_TEMPERATURE_OFFSET_TENTHS_C
  end.

(** The offsets a restart may find, from the log of the submissions: the last
    that succeeded, or the first that failed after it. *)
Fixpoint possible (offset : Z) (log : list (Z * deck_device_settings_update_result_t)) : list Z :=
  match log with
  | [] => [offset]
  | (_, DECK_DEVICE_SETTINGS_INVALID_OFFSET) :: log => possible offset log
  | (next, DECK_DEVICE_SETTINGS_UPDATED) :: log => possible next log
  | (next, DECK_DEVICE_SETTINGS_STORAGE_FAILURE) :: _ => [offset; next]
  end.

Abbreviation o := (created_options store_options).

Lemma settings_options_wf : options_wf o.
Proof. apply options_wfb_spec. vm_compute. reflexivity. Qed.

Lemma encode_offset_bytes offset : is_bytes (encode_offset offset).
Proof. unfold encode_offset. auto with deck. Qed.

Lemma create_created {W} `{StorageAdapter W} oo (w : W) :
  deck_transaction_store_create (created_options oo) w = deck_transaction_store_create oo w.
Proof.
  unfold deck_transaction_store_create, created_options.
  destruct (Nat.eqb_spec (payload_capacity oo) 0) as [E|E]; simpl; [|by rewrite (proj2 (Nat.eqb_neq _ _) E)].
  done.
Qed.

Lemma create_settings_flash f :
  powered f = true ->
  exists s, deck_device_settings_create f = (Some s, f)
    /\ active_of (store s) = snd <$> recover o (cells f)
    /\ (medium_ok o (cells f) -> synced o (store s) (cells f)).
Proof.
  intros Hp. destruct (create_flash o settings_options_wf f Hp) as (st & Hc & Ha & Hsy).
  exists {| store := st |}. split; [|by split]. unfold deck_device_settings_create. rewrite run_bind.
  change (heap_alloc f) with (true, f). cbn [fst snd negb]. rewrite create_created in Hc. rewrite run_bind. by rewrite Hc.
Qed.

Lemma offset_after_reboot_recover f :
  offset_after_reboot f = offset_of (snd <$> recover o (cells f)).
Proof.
  unfold offset_after_reboot. destruct (create_settings_flash (reboot f) eq_refl) as (s & -> & Ha & _).
  cbn [fst]. by rewrite snapshot_offset, Ha.
Qed.

(** Without power the cells stay as they are. *)
Lemma submit_all_dead s offsets f log s' f' :
  powered f = false -> submit_all s offsets f = (log, s', f') ->
  f' = f /\ forall x, x ∈ possible x log.
Proof.
  revert s f log s' f'. induction offsets as [|offset offsets IH]; intros s f log s' f' Hp; simpl.
  { intros [= <- <- <-]. split; [done|]. intros x. by left. }
  rewrite submit_save. destruct (valid_offset offset).
  - destruct (save _ _ f) as [[ok st] f1] eqn:E. apply save_dead in E as [-> ->]; [|done].
    destruct (submit_all _ offsets f) as [[log1 s1] f1] eqn:E1. intros [= <- <- <-].
    apply IH in E1 as [-> _]; [|done]. split; [done|]. intros x. by left.
  - destruct (submit_all _ offsets f) as [[log1 s1] f1] eqn:E1. intros [= <- <- <-].
    by apply IH in E1.
Qed.

Lemma submit_all_flash s offsets f log s' f' :
  synced o (store s) (cells f) -> powered f = true -> submit_all s offsets f = (log, s', f') ->
  offset_after_reboot f' ∈ possible (offset_of (active_of (store s))) log
  /\ (powered f' = true -> offset_after_reboot f' = offset_of (active_of (store s'))).
Proof.
  rewrite offset_after_reboot_recover.
  revert s f log s' f'. induction offsets as [|offset offsets IH]; intros s f log s' f' Hsy Hp; simpl.
  { intros [= <- <- <-]. rewrite (recover_synced _ _ _ Hsy). split; [by left|done]. }
  rewrite submit_save. destruct (valid_offset offset) eqn:Hv.
  2: { destruct (submit_all _ offsets f) as [[log1 s1] f1] eqn:E1. intros [= <- <- <-]. by apply IH in E1. }
  destruct (save _ _ f) as [[ok st] f1] eqn:E.
  destruct (submit_all _ offsets f1) as [[log1 s1] f2] eqn:E1. intros [= <- <- <-].
  apply (save_flash _ settings_options_wf) in E;
    [|done|done|apply encode_offset_bytes|by apply encode_offset_accepted].
  destruct ok.
  - destruct E as (Ha & Hrec & Hsy1). destruct (powered f1) eqn:Hp1.
    + apply IH in E1; [|auto..]. cbn [store] in E1. rewrite Ha in E1. cbn [offset_of payload] in E1.
      by rewrite decode_encode_offset in E1.
    + apply submit_all_dead in E1 as [-> E1]; [|done]. rewrite Hrec. simpl.
      rewrite decode_encode_offset by done. split; [apply E1|congruence].
  - destruct E as (Hp1 & E). apply submit_all_dead in E1 as [-> _]; [|done]. simpl.
    split; [|congruence]. destruct E as [-> | ->]; [left|].
    simpl. rewrite decode_encode_offset by done. by right; left.
Qed.

(** C35: The offset survives power losses.  Settings are created on a medium in
    order and offsets are submitted; whatever write loses the power, a restart
    puts in force the last offset that was reported updated (or the one from
    before, without any), or else the one whose submission was the first to
    fail after it; without a power loss it is the offset shown. *)
Theorem settings_survive_power_loss f s f0 offsets log s' f' :
  powered f = true -> medium_ok o (cells f) ->
  deck_device_settings_create f = (Some s, f0) -> submit_all s offsets f0 = (log, s', f') ->
  offset_after_reboot f'
    ∈ possible (temperature_offset_tenths_c (deck_device_settings_snapshot s)) log
  /\ (powered f' = true ->
        offset_after_reboot f' = temperature_offset_tenths_c (deck_device_settings_snapshot s')).
Proof.
  intros Hp Hm Hc Hs. destruct (create_settings_flash f Hp) as (s0 & Hc0 & _ & Hsy).
  rewrite Hc in Hc0. injection Hc0 as <- ->. rewrite !snapshot_offset. by eapply submit_all_flash; eauto.
Qed.

Module SettingsExample.
Definition created : deck_device_settings := {| store := empty_store (created_options store_options) |}.
(** Power is lost in the fourth mutation after the first offset is stored. *)
Definition offsets : list Z := [25; 200; -31; 5].
Definition log : list (Z * deck_device_settings_update_result_t) :=
  [(25, DECK_DEVICE_SETTINGS_UPDATED); (200, DECK_DEVICE_SETTINGS_INVALID_OFFSET);
   (-31, DECK_DEVICE_SETTINGS_STORAGE_FAILURE); (5, DECK_DEVICE_SETTINGS_STORAGE_FAILURE)].
End SettingsExample.

Lemma settings_apply_exactly_witness :
  exists s' f', deck_device_settings_submit_temperature_offset SettingsExample.created 25 (sample_flash 9 true)
      = ((DECK_DEVICE_SETTINGS_UPDATED, s'), f')
    /\ temperature_offset_tenths_c (deck_device_settings_snapshot s') = 25.
Proof.
  assert ((deck_device_settings_submit_temperature_offset SettingsExample.created 25 (sample_flash 9 true)).1.1
    = DECK_DEVICE_SETTINGS_UPDATED) as Er by (vm_compute; reflexivity).
  destruct (deck_device_settings_submit_temperature_offset SettingsExample.created 25 (sample_flash 9 true))
    as [[r s'] f'] eqn:E. cbn [fst] in Er. subst r.
  exists s', f'. split; [reflexivity|].
  apply (settings_apply_exactly SettingsExample.created 25 (sample_flash 9 true)
    DECK_DEVICE_SETTINGS_UPDATED s' f'); [|exact E].
  by apply (reachable_create (sample_flash 9 true) SettingsExample.created (sample_flash 9 true)).
Defined.

Lemma settings_survive_power_loss_witness :
  exists s' f', submit_all SettingsExample.created SettingsExample.offsets (sample_flash 6 false)
      = (SettingsExample.log, s', f')
    /\ powered f' = false /\ offset_after_reboot f' ∈ [25; -31].
Proof.
  assert ((submit_all SettingsExample.created SettingsExample.offsets (sample_flash 6 false)).1.1
    = SettingsExample.log) as El by (vm_compute; reflexivity).
  assert (powered (submit_all SettingsExample.created SettingsExample.offsets (sample_flash 6 false)).2
    = false) as Hp by (vm_compute; reflexivity).
  destruct (submit_all SettingsExample.created SettingsExample.offsets (sample_flash 6 false))
    as [[log s'] f'] eqn:E. cbn [fst snd] in El, Hp. subst log.
  exists s', f'. split; [reflexivity|]. split; [exact Hp|].
  apply (settings_survive_power_loss (sample_flash 6 false) SettingsExample.created (sample_flash 6 false)
    SettingsExample.offsets SettingsExample.log s' f'); [reflexivity|apply map_Forall_empty|reflexivity|exact E].
Defined.
