(* ===== verification/WifiConfig.v ===== *)
(** * Wi-Fi configuration

    [components/wifi_config/deck_wifi_config.cpp]: the network credentials.
    Submitted credentials are staged in the transactional store, tried by the
    Wi-Fi driver, and committed only when the driver reports a connection.

    A [char] array is the list of its bytes.  The driver callbacks are an
    external world, the same one as the store's adapter. *)

From Stdlib Require Import String.
From S2P Require Import Prelude Codec CString TransactionStore TransactionClient TransactionCodec TransactionMedium TransactionCrash.

Definition kSchemaVersion : Z := 1.
(** ["DWF1"] and ["DWM1"] *)
Definition kRecordMagic : bytes := [68; 87; 70; 49].
Definition kMarkerMagic : bytes := [68; 87; 77; 49].
Definition kPayloadHeaderSize : nat := 2.

Definition DECK_WIFI_SSID_CAPACITY : nat := 33.
Definition DECK_WIFI_PASSWORD_CAPACITY : nat := 64.
Definition kPayloadCapacity : nat :=
  (kPayloadHeaderSize + DECK_WIFI_SSID_CAPACITY - 1 + DECK_WIFI_PASSWORD_CAPACITY - 1)%nat.

Record deck_wifi_credentials_t := { ssid : bytes; password : bytes }.

#[export] Instance credentials_eq_dec : EqDecision deck_wifi_credentials_t.
Proof. solve_decision. Defined.

(** ** Validation of a credential's texts *)

(** [byte < 0x20 || byte == 0x7f] *)
Definition control_byte (byte : Z) : bool := (byte <? 0x20) || (byte =? 0x7f).

(** [Some size] is [true] with [*size] set. *)
Definition valid_text (value : bytes) (capacity minimum maximum : nat) : option nat :=
  let length := strnlen value capacity in
  if (length =? capacity)%nat || (length <? minimum)%nat || (maximum <? length)%nat then None
  else if existsb control_byte (take length value) then None
  else Some length.

Definition valid_credentials (credentials : deck_wifi_credentials_t) : option (nat * nat) :=
  match valid_text (ssid credentials) DECK_WIFI_SSID_CAPACITY 1 (DECK_WIFI_SSID_CAPACITY - 1) with
  | None => None
  | Some ssid_size =>
      let length := strnlen (password credentials) DECK_WIFI_PASSWORD_CAPACITY in
      if (length =? DECK_WIFI_PASSWORD_CAPACITY)%nat
         || (negb (length =? 0)%nat
             && ((length <? 8)%nat || (DECK_WIFI_PASSWORD_CAPACITY - 1 <? length)%nat))
      then None
      else if existsb control_byte (take length (password credentials)) then None
      else Some (ssid_size, length)
  end.

(** ** The record *)

(** The payload array up to the returned size; empty for 0. *)
Definition encode_credentials (credentials : deck_wifi_credentials_t) : bytes :=
  match valid_credentials credentials with
  | None => []
  | Some (ssid_size, password_size) =>
      [u8 (Z.of_nat ssid_size); u8 (Z.of_nat password_size)]
      ++ take ssid_size (ssid credentials) ++ take password_size (password credentials)
  end.

Definition empty_credentials : deck_wifi_credentials_t :=
  {| ssid := replicate DECK_WIFI_SSID_CAPACITY 0; password := replicate DECK_WIFI_PASSWORD_CAPACITY 0 |}.

(** The result and [*credentials]. *)
Definition decode_credentials (payload : bytes) (credentials : deck_wifi_credentials_t) :
    bool * deck_wifi_credentials_t :=
  if (length payload <? kPayloadHeaderSize)%nat then (false, credentials)
  else
    let ssid_size := Z.to_nat payload.[0] in
    let password_size := Z.to_nat payload.[1] in
    if (ssid_size =? 0)%nat || (DECK_WIFI_SSID_CAPACITY <=? ssid_size)%nat
       || (DECK_WIFI_PASSWORD_CAPACITY <=? password_size)%nat
       || (negb (password_size =? 0)%nat && (password_size <? 8)%nat)
       || negb (kPayloadHeaderSize + ssid_size + password_size =? length payload)%nat
    then (false, credentials)
    else
      let credentials :=
        {| ssid := write_at (ssid empty_credentials) 0 (slice kPayloadHeaderSize ssid_size payload);
           password := write_at (password empty_credentials) 0
             (slice (kPayloadHeaderSize + ssid_size) password_size payload) |} in
      (match valid_credentials credentials with
       | None => false
       | Some (validated_ssid_size, validated_password_size) =>
           (validated_ssid_size =? ssid_size)%nat && (validated_password_size =? password_size)%nat
       end, credentials).

Definition validate_payload (payload : bytes) : bool := (decode_credentials payload empty_credentials).1.

(** [secure_clear] of both arrays *)
Definition deck_wifi_credentials_clear (credentials : deck_wifi_credentials_t) : deck_wifi_credentials_t :=
  {| ssid := map (fun _ => 0) (ssid credentials); password := map (fun _ => 0) (password credentials) |}.

(** ** The configuration *)

Inductive deck_wifi_config_state_t :=
  | DECK_WIFI_CONFIG_NO_ACTIVE
  | DECK_WIFI_CONFIG_ACTIVE
  | DECK_WIFI_CONFIG_VALIDATING
  | DECK_WIFI_CONFIG_AUTH_FAILED
  | DECK_WIFI_CONFIG_TIMED_OUT
  | DECK_WIFI_CONFIG_CONNECTION_FAILED
  | DECK_WIFI_CONFIG_STORAGE_ERROR.

Inductive deck_wifi_record_status_t :=
  | DECK_WIFI_RECORD_EMPTY
  | DECK_WIFI_RECORD_VALID
  | DECK_WIFI_RECORD_RECOVERED_PREVIOUS
  | DECK_WIFI_RECORD_CORRUPT
  | DECK_WIFI_RECORD_UNSUPPORTED_SCHEMA
  | DECK_WIFI_RECORD_MIGRATION_FAILED
  | DECK_WIFI_RECORD_IO_ERROR.

#[export] Instance wifi_state_eq_dec : EqDecision deck_wifi_config_state_t.
Proof. solve_decision. Defined.
#[export] Instance wifi_status_eq_dec : EqDecision deck_wifi_record_status_t.
Proof. solve_decision. Defined.

Definition map_status (status : deck_transaction_record_status_t) : deck_wifi_record_status_t :=
  match status with
  | DECK_TRANSACTION_RECORD_VALID => DECK_WIFI_RECORD_VALID
  | DECK_TRANSACTION_RECORD_RECOVERED_PREVIOUS => DECK_WIFI_RECORD_RECOVERED_PREVIOUS
  | DECK_TRANSACTION_RECORD_CORRUPT => DECK_WIFI_RECORD_CORRUPT
  | DECK_TRANSACTION_RECORD_UNSUPPORTED_SCHEMA => DECK_WIFI_RECORD_UNSUPPORTED_SCHEMA
  | DECK_TRANSACTION_RECORD_MIGRATION_FAILED => DECK_WIFI_RECORD_MIGRATION_FAILED
  | DECK_TRANSACTION_RECORD_IO_ERROR => DECK_WIFI_RECORD_IO_ERROR
  | DECK_TRANSACTION_RECORD_EMPTY => DECK_WIFI_RECORD_EMPTY
  end.

Inductive deck_wifi_submit_result_t :=
  | DECK_WIFI_SUBMIT_ACCEPTED
  | DECK_WIFI_SUBMIT_INVALID_SSID
  | DECK_WIFI_SUBMIT_INVALID_PASSWORD
  | DECK_WIFI_SUBMIT_BUSY
  | DECK_WIFI_SUBMIT_STORAGE_ERROR
  | DECK_WIFI_SUBMIT_WIFI_ERROR.

Inductive deck_wifi_validation_result_t :=
  | DECK_WIFI_VALIDATION_CONNECTED
  | DECK_WIFI_VALIDATION_AUTH_FAILED
  | DECK_WIFI_VALIDATION_CONNECTION_FAILED.

Inductive deck_wifi_clear_result_t := DECK_WIFI_CLEAR_CLEARED | DECK_WIFI_CLEAR_STORAGE_ERROR.

Record deck_wifi_config := {
  validation_timeout_ms : Z;
  store : deck_transaction_store;
  state : deck_wifi_config_state_t;
  record_status : deck_wifi_record_status_t;
  candidate_record_status : deck_wifi_record_status_t;
  active : deck_wifi_credentials_t;
  candidate : deck_wifi_credentials_t;
  generation : Z;
  validation_started_ms : Z;
  has_active : bool;
  has_candidate : bool;
  storage_faulted : bool;
}.

#[export] Instance config_rebuild : Rebuild deck_wifi_config := fun c =>
  {| validation_timeout_ms := validation_timeout_ms c; store := store c; state := state c;
     record_status := record_status c; candidate_record_status := candidate_record_status c;
     active := active c; candidate := candidate c; generation := generation c;
     validation_started_ms := validation_started_ms c; has_active := has_active c;
     has_candidate := has_candidate c; storage_faulted := storage_faulted c |}.

Implicit Type c : deck_wifi_config.

(** The driver's callbacks. *)
Class WifiValidation (W : Type) := {
  validation_begin : deck_wifi_credentials_t -> M W bool;
  validation_cancel : M W unit;
}.

Definition refresh_store_state c : deck_wifi_config :=
  let stored := deck_transaction_store_snapshot (store c) in
  let cleared_active := deck_wifi_credentials_clear (active c) in
  let cleared_candidate := deck_wifi_credentials_clear (candidate c) in
  let '(active_ok, new_active) :=
    if snapshot_has_active stored then decode_credentials (payload (snapshot_active stored)) cleared_active
    else (true, cleared_active) in
  let '(candidate_ok, new_candidate) :=
    if snapshot_has_candidate stored
    then decode_credentials (payload (snapshot_candidate stored)) cleared_candidate
    else (true, cleared_candidate) in
  {| validation_timeout_ms := validation_timeout_ms c;
     store := store c;
     state := state c;
     record_status :=
       if active_ok then map_status (snapshot_record_status stored) else DECK_WIFI_RECORD_CORRUPT;
     candidate_record_status :=
       if candidate_ok then map_status (snapshot_candidate_record_status stored)
       else DECK_WIFI_RECORD_CORRUPT;
     active := new_active;
     candidate := new_candidate;
     generation :=
       if snapshot_has_active stored then TransactionStore.generation (snapshot_active stored) else 0;
     validation_started_ms := validation_started_ms c;
     has_active := active_ok && snapshot_has_active stored;
     has_candidate := candidate_ok && snapshot_has_candidate stored;
     storage_faulted := snapshot_storage_faulted stored |}.

Definition set_storage_failure c : deck_wifi_config :=
  ((refresh_store_state c) <| storage_faulted := true |>) <| state := DECK_WIFI_CONFIG_STORAGE_ERROR |>.

Definition store_options : deck_transaction_store_options_t := {|
  record_magic := kRecordMagic;
  marker_magic := kMarkerMagic;
  schema_version := kSchemaVersion;
  payload_capacity := 0;
  payload_length_excluded_prefix := kPayloadHeaderSize;
  TransactionStore.validate_payload := validate_payload;
|}.

Section operations.
Context {W : Type} `{StorageAdapter W} `{WifiValidation W}.

Definition commit_candidate c : M W (bool * deck_wifi_config) :=
  committed ← deck_transaction_store_commit (store c);
  let '(result, st) := committed in
  let c := c <| store := st |> in
  mret (if negb (bool_decide (result = DECK_TRANSACTION_UPDATED))
        then (false, set_storage_failure c)
        else (true, (refresh_store_state c) <| state := DECK_WIFI_CONFIG_ACTIVE |>)).

Definition deck_wifi_config_create (timeout : Z) : M W (option deck_wifi_config) :=
  if timeout =? 0 then mret None
  else
    allocated ← heap_alloc;
    if negb allocated then mret None
    else
      created ← deck_transaction_store_create store_options;
      mret match created with
           | None => None
           | Some st =>
               let c := refresh_store_state
                 {| validation_timeout_ms := timeout; store := st;
                    state := DECK_WIFI_CONFIG_NO_ACTIVE; record_status := DECK_WIFI_RECORD_EMPTY;
                    candidate_record_status := DECK_WIFI_RECORD_EMPTY; active := empty_credentials;
                    candidate := empty_credentials; generation := 0; validation_started_ms := 0;
                    has_active := false; has_candidate := false; storage_faulted := false |} in
               Some (if storage_faulted c then c <| state := DECK_WIFI_CONFIG_STORAGE_ERROR |>
                     else if has_active c then c <| state := DECK_WIFI_CONFIG_ACTIVE |> else c)
           end.

(** The memory that is freed. *)
Definition deck_wifi_config_destroy c : deck_wifi_config :=
  (c <| active := deck_wifi_credentials_clear (active c) |>)
    <| candidate := deck_wifi_credentials_clear (candidate c) |>.

Definition deck_wifi_config_submit c (credentials : deck_wifi_credentials_t) (now_ms : Z) :
    M W (deck_wifi_submit_result_t * deck_wifi_config) :=
  if storage_faulted c then mret (DECK_WIFI_SUBMIT_STORAGE_ERROR, c)
  else if bool_decide (state c = DECK_WIFI_CONFIG_VALIDATING) then mret (DECK_WIFI_SUBMIT_BUSY, c)
  else
    match valid_text (ssid credentials) DECK_WIFI_SSID_CAPACITY 1 (DECK_WIFI_SSID_CAPACITY - 1) with
    | None => mret (DECK_WIFI_SUBMIT_INVALID_SSID, c)
    | Some _ =>
        match valid_credentials credentials with
        | None => mret (DECK_WIFI_SUBMIT_INVALID_PASSWORD, c)
        | Some _ =>
            staged ← deck_transaction_store_stage (store c) (encode_credentials credentials);
            let '(result, st) := staged in
            let c := c <| store := st |> in
            if negb (bool_decide (result = DECK_TRANSACTION_UPDATED))
            then mret (DECK_WIFI_SUBMIT_STORAGE_ERROR, set_storage_failure c)
            else
              let c := refresh_store_state c in
              begun ← validation_begin credentials;
              mret (if negb begun
                    then (DECK_WIFI_SUBMIT_WIFI_ERROR, c <| state := DECK_WIFI_CONFIG_CONNECTION_FAILED |>)
                    else (DECK_WIFI_SUBMIT_ACCEPTED,
                          (c <| validation_started_ms := now_ms |>)
                            <| state := DECK_WIFI_CONFIG_VALIDATING |>))
        end
    end.

Definition deck_wifi_config_validation_result c (result : deck_wifi_validation_result_t) :
    M W (bool * deck_wifi_config) :=
  if negb (bool_decide (state c = DECK_WIFI_CONFIG_VALIDATING)) then mret (false, c)
  else
    match result with
    | DECK_WIFI_VALIDATION_CONNECTED => commit_candidate c
    | DECK_WIFI_VALIDATION_AUTH_FAILED => mret (true, c <| state := DECK_WIFI_CONFIG_AUTH_FAILED |>)
    | DECK_WIFI_VALIDATION_CONNECTION_FAILED =>
        mret (true, c <| state := DECK_WIFI_CONFIG_CONNECTION_FAILED |>)
    end.

(** The elapsed time is a [uint64_t] difference: a clock that went back makes
    it large. *)
Definition deck_wifi_config_tick c (now_ms : Z) : M W (bool * deck_wifi_config) :=
  if negb (bool_decide (state c = DECK_WIFI_CONFIG_VALIDATING))
     || (u64 (now_ms - validation_started_ms c) <? validation_timeout_ms c)
  then mret (false, c)
  else
    _ ← validation_cancel;
    mret (true, c <| state := DECK_WIFI_CONFIG_TIMED_OUT |>).

Definition deck_wifi_config_active_connection c (connected : bool) : bool * deck_wifi_config :=
  if negb (has_active c) || bool_decide (state c = DECK_WIFI_CONFIG_VALIDATING) || storage_faulted c
  then (false, c)
  else (true, c <| state := if connected then DECK_WIFI_CONFIG_ACTIVE
                            else DECK_WIFI_CONFIG_CONNECTION_FAILED |>).

Definition deck_wifi_config_clear c : M W (deck_wifi_clear_result_t * deck_wifi_config) :=
  _ ← (if bool_decide (state c = DECK_WIFI_CONFIG_VALIDATING) then validation_cancel else mret tt);
  cleared ← deck_transaction_store_clear (store c);
  let '(ok, st) := cleared in
  let c := c <| store := st |> in
  mret (if negb ok then (DECK_WIFI_CLEAR_STORAGE_ERROR, set_storage_failure c)
        else (DECK_WIFI_CLEAR_CLEARED,
              ((refresh_store_state c) <| state := DECK_WIFI_CONFIG_NO_ACTIVE |>)
                <| validation_started_ms := 0 |>)).

End operations.

Record deck_wifi_config_snapshot_t := {
  snapshot_state : deck_wifi_config_state_t;
  snapshot_record : deck_wifi_record_status_t;
  snapshot_candidate_record : deck_wifi_record_status_t;
  shows_active : bool;
  shows_candidate : bool;
  snapshot_generation : Z;
  active_ssid : bytes;
  candidate_ssid : bytes;
}.

Definition deck_wifi_config_snapshot c : deck_wifi_config_snapshot_t :=
  {| snapshot_state := state c; snapshot_record := record_status c;
     snapshot_candidate_record := candidate_record_status c; shows_active := has_active c;
     shows_candidate := has_candidate c; snapshot_generation := generation c;
     active_ssid := ssid (active c); candidate_ssid := ssid (candidate c) |}.

(** [None] is a null snapshot. *)
Definition deck_wifi_config_recovery_required (snapshot : option deck_wifi_config_snapshot_t) : bool :=
  match snapshot with
  | None => true
  | Some snapshot =>
      negb (shows_active snapshot)
      || negb (bool_decide (snapshot_state snapshot = DECK_WIFI_CONFIG_ACTIVE))
      || negb (bool_decide (snapshot_record snapshot = DECK_WIFI_RECORD_VALID))
      || shows_candidate snapshot
      || negb (bool_decide (snapshot_candidate_record snapshot = DECK_WIFI_RECORD_EMPTY))
  end.

Definition deck_wifi_config_active_credentials c : option deck_wifi_credentials_t :=
  if has_active c then Some (active c) else None.

Definition deck_wifi_config_state_name (x : deck_wifi_config_state_t) : bytes :=
  literal match x with
  | DECK_WIFI_CONFIG_ACTIVE => "active"
  | DECK_WIFI_CONFIG_VALIDATING => "validating"
  | DECK_WIFI_CONFIG_AUTH_FAILED => "auth_failed"
  | DECK_WIFI_CONFIG_TIMED_OUT => "timed_out"
  | DECK_WIFI_CONFIG_CONNECTION_FAILED => "connection_failed"
  | DECK_WIFI_CONFIG_STORAGE_ERROR => "storage_error"
  | DECK_WIFI_CONFIG_NO_ACTIVE => "no_active"
  end%string.

Definition deck_wifi_record_status_name (x : deck_wifi_record_status_t) : bytes :=
  literal match x with
  | DECK_WIFI_RECORD_VALID => "valid"
  | DECK_WIFI_RECORD_RECOVERED_PREVIOUS => "recovered_previous"
  | DECK_WIFI_RECORD_CORRUPT => "corrupt"
  | DECK_WIFI_RECORD_UNSUPPORTED_SCHEMA => "unsupported_schema"
  | DECK_WIFI_RECORD_MIGRATION_FAILED => "migration_failed"
  | DECK_WIFI_RECORD_IO_ERROR => "io_error"
  | DECK_WIFI_RECORD_EMPTY => "empty"
  end%string.

(** ** Credentials as texts *)

Definition printable (text : bytes) : Prop := Forall (fun b => control_byte b = false) text.

(** A network name and a password (none for an open network). *)
Record network := { name : bytes; secret : bytes }.

#[export] Instance network_eq_dec : EqDecision network.
Proof. solve_decision. Defined.

Definition network_of (credentials : deck_wifi_credentials_t) : network :=
  {| name := c_string (ssid credentials); secret := c_string (password credentials) |}.

Record network_ok (n : network) : Prop := {
  name_length : (1 <= length (name n) <= 32)%nat;
  secret_length : length (secret n) = 0%nat \/ (8 <= length (secret n) <= 63)%nat;
  name_printable : printable (name n);
  secret_printable : printable (secret n);
}.

Lemma printable_nonzero text : printable text -> Forall (fun b => b <> 0) text.
Proof. intros Ht. eapply Forall_impl; [exact Ht|]. by intros b Hb ->. Qed.

Lemma valid_text_spec value capacity minimum maximum size :
  (maximum < capacity)%nat ->
  valid_text value capacity minimum maximum = Some size
  <-> size = strlen value /\ (minimum <= size <= maximum)%nat /\ printable (c_string value).
Proof.
  intros Hm. unfold valid_text, printable. rewrite strnlen_spec.
  destruct (_ || _ || _) eqn:E.
  { split; [done|]. intros (-> & Hs & _). bool_cases; lia. }
  bool_prop. assert (Nat.min capacity (strlen value) = strlen value) as E by lia.
  rewrite E in *. rewrite <- c_string_prefix. destruct (existsb control_byte (c_string value)) eqn:Hc.
  - split; [done|]. intros (_ & _ & Hp). apply existsb_false in Hp. congruence.
  - apply existsb_false in Hc. split; [intros [= <-]|intros (-> & _)]; auto with lia.
Qed.

Lemma valid_credentials_spec credentials sizes :
  valid_credentials credentials = Some sizes
  <-> network_ok (network_of credentials)
      /\ sizes = (strlen (ssid credentials), strlen (password credentials)).
Proof.
  unfold valid_credentials.
  destruct (valid_text (ssid credentials) DECK_WIFI_SSID_CAPACITY 1 (DECK_WIFI_SSID_CAPACITY - 1))
    as [n|] eqn:Hs.
  2: { split; [done|]. intros [[Hn _ Hp _] _]. exfalso.
       rewrite (proj2 (valid_text_spec (ssid credentials) DECK_WIFI_SSID_CAPACITY 1
         (DECK_WIFI_SSID_CAPACITY - 1) (strlen (ssid credentials))
         ltac:(unfold DECK_WIFI_SSID_CAPACITY; lia))) in Hs; [done|].
       unfold DECK_WIFI_SSID_CAPACITY, strlen. done. }
  apply valid_text_spec in Hs as (-> & Hn & Hp); [|unfold DECK_WIFI_SSID_CAPACITY; lia].
  rewrite strnlen_spec. unfold DECK_WIFI_PASSWORD_CAPACITY, DECK_WIFI_SSID_CAPACITY in *.
  destruct (_ || _) eqn:E.
  { split; [done|]. intros [[_ Hl _ _] _]. unfold network_of, strlen in *. simpl in Hl. bool_cases; lia. }
  assert (Nat.min 64 (strlen (password credentials)) = strlen (password credentials)
    /\ (strlen (password credentials) = 0%nat \/ (8 <= strlen (password credentials) <= 63)%nat))
    as [Em Hl] by (bool_cases; lia).
  rewrite Em, <- c_string_prefix.
  destruct (existsb control_byte (c_string (password credentials))) eqn:Hc.
  - split; [done|]. intros [[_ _ _ Hq] _]. apply existsb_false in Hq. simpl in Hq. congruence.
  - apply existsb_false in Hc. split; [|by intros [_ ->]]. intros [= <-]. split; [|done].
    by constructor.
Qed.

(** ** The record codec *)

Definition record_of (n : network) : bytes :=
  [Z.of_nat (length (name n)); Z.of_nat (length (secret n))] ++ name n ++ secret n.

Definition credentials_of (n : network) : deck_wifi_credentials_t :=
  {| ssid := pad DECK_WIFI_SSID_CAPACITY (name n);
     password := pad DECK_WIFI_PASSWORD_CAPACITY (secret n) |}.

Lemma network_of_credentials n : network_ok n -> network_of (credentials_of n) = n.
Proof.
  intros [_ _ Hn Hs]. unfold network_of, credentials_of. simpl.
  rewrite !c_string_pad by by apply printable_nonzero. by destruct n.
Qed.

Lemma encode_network credentials :
  network_ok (network_of credentials) -> encode_credentials credentials = record_of (network_of credentials).
Proof.
  intros Hn. unfold encode_credentials.
  rewrite (proj2 (valid_credentials_spec credentials _) (conj Hn eq_refl)).
  rewrite <- !c_string_prefix. pose proof Hn as [H1 H2 _ _]. unfold network_of in *. simpl in *.
  unfold record_of, strlen. simpl. by rewrite !u8_id by words.
Qed.

Lemma decode_network n credentials :
  network_ok n -> decode_credentials (record_of n) credentials = (true, credentials_of n).
Proof.
  intros Hok. pose proof Hok as [H1 H2 _ _]. unfold decode_credentials, record_of, byte_at.
  cbn [app lookup list_lookup default from_option id length]. rewrite !Nat2Z.id, length_app.
  unfold kPayloadHeaderSize.
  assert (slice 2 (length (name n)) (record_of n) = name n) as E1.
  { unfold record_of. rewrite slice_skip by done. by apply take_app_length. }
  assert (slice (2 + length (name n)) (length (secret n)) (record_of n) = secret n) as E2.
  { unfold record_of. rewrite app_assoc, slice_skip; [by apply firstn_all|]. by rewrite length_app. }
  unfold record_of in E1, E2. cbn [app] in E1, E2. rewrite E1, E2.
  destruct (_ || _ || _ || _ || _) eqn:E;
    [unfold DECK_WIFI_SSID_CAPACITY, DECK_WIFI_PASSWORD_CAPACITY in E; bool_cases; lia|]. clear E.
  cbn [Nat.ltb Nat.leb ssid password empty_credentials]. rewrite !write_at_zeros.
  change {| ssid := _; password := _ |} with (credentials_of n).
  pose proof (network_of_credentials n Hok) as En.
  assert (valid_credentials (credentials_of n)
          = Some (length (name n), length (secret n))) as ->.
  { apply valid_credentials_spec. rewrite En. split; [done|].
    unfold strlen. unfold network_of in En. by rewrite <- En at 1 2. }
  by rewrite !Nat.eqb_refl.
Qed.

Lemma valid_credentials_network credentials sizes :
  valid_credentials credentials = Some sizes -> network_ok (network_of credentials).
Proof. by intros [? _]%valid_credentials_spec. Qed.

Lemma encode_nonempty credentials :
  encode_credentials credentials <> [] <-> network_ok (network_of credentials).
Proof.
  split; [|by intros Hn; rewrite encode_network].
  unfold encode_credentials. destruct (valid_credentials credentials) eqn:E; [|done].
  by apply valid_credentials_network in E.
Qed.

(** Decoding that succeeds gives a network, whatever the output held. *)
Lemma decode_valid payload k0 k1 :
  decode_credentials payload k0 = (true, k1) ->
  network_ok (network_of k1) /\ forall k2, decode_credentials payload k2 = (true, k1).
Proof.
  unfold decode_credentials. repeat case_match; try done. intros [= Hv <-]. split.
  - by eapply valid_credentials_network.
  - intros _. by rewrite Hv.
Qed.

Lemma strlen_pad_full capacity text n :
  (n <= capacity)%nat -> length text = n -> strlen (pad capacity text) = n -> c_string (pad capacity text) = text.
Proof.
  intros Hn Hl Hs. rewrite c_string_prefix, Hs. unfold pad. by apply take_app_length'.
Qed.

Lemma slices_cover (payload : bytes) n m :
  (2 + n + m)%nat = length payload ->
  payload = [payload.[0]; payload.[1]] ++ slice 2 n payload ++ slice (2 + n) m payload.
Proof.
  destruct payload as [|a [|b rest]]; [simpl; lia..|]. simpl length. intros Hl.
  unfold byte_at, slice. cbn [lookup list_lookup default from_option id drop app plus]. f_equal. f_equal.
  rewrite (take_ge (drop n rest)) by (rewrite length_drop; lia). by rewrite take_drop.
Qed.

Lemma decode_is_record payload k0 k1 :
  is_bytes payload -> decode_credentials payload k0 = (true, k1) ->
  payload = record_of (network_of k1) /\ k1 = credentials_of (network_of k1).
Proof.
  intros Hb. pose proof (byte_at_range payload 0 Hb). pose proof (byte_at_range payload 1 Hb).
  unfold decode_credentials. destruct (_ <? _)%nat; [done|].
  destruct (_ || _ || _ || _ || _) eqn:E; [done|]. cbn [ssid password empty_credentials].
  rewrite !write_at_zeros. unfold kPayloadHeaderSize, DECK_WIFI_SSID_CAPACITY, DECK_WIFI_PASSWORD_CAPACITY in *.
  set (n := Z.to_nat payload.[0]) in *. set (m := Z.to_nat payload.[1]) in *. bool_prop.
  assert (length (slice 2 n payload) = n) as Ln by (apply length_slice; lia).
  assert (length (slice (2 + n) m payload) = m) as Lm by (apply length_slice; lia).
  destruct (valid_credentials _) as [[n' m']|] eqn:Hv; [|done].
  apply valid_credentials_spec in Hv as [_ [= Hn' Hm']]. intros [= Hok <-]. bool_prop. subst n' m'.
  cbn [ssid password] in *.
  change (S (S n)) with (2 + n)%nat in *.
  assert (network_of {| ssid := pad 33 (slice 2 n payload); password := pad 64 (slice (2 + n) m payload) |}
          = {| name := slice 2 n payload; secret := slice (2 + n) m payload |}) as ->.
  { unfold network_of. cbn [ssid password].
    by rewrite (strlen_pad_full 33 _ n), (strlen_pad_full 64 _ m) by first [assumption|lia]. }
  split; [|done]. unfold record_of. cbn [name secret]. rewrite Ln, Lm. subst n m.
  rewrite !Z2Nat.id by words. by apply slices_cover.
Qed.

(** The record codec.  A password-less or WPA network within the limits
    and free of control bytes has a record, the record decodes to its
    zero-padded credentials, and only such networks have one; a byte string
    passes the store's validation exactly when it is the record of a network,
    so no two byte strings describe one network. *)
Theorem wifi_record_codec :
  (forall credentials,
     encode_credentials credentials <> [] <-> network_ok (network_of credentials))
  /\ (forall credentials, network_ok (network_of credentials) ->
       decode_credentials (encode_credentials credentials) empty_credentials
       = (true, credentials_of (network_of credentials)))
  /\ (forall payload, is_bytes payload ->
       validate_payload payload = true <-> exists n, network_ok n /\ payload = record_of n).
Proof.
  split_and!.
  - apply encode_nonempty.
  - intros credentials Hn. by rewrite encode_network, decode_network.
  - intros payload Hb. unfold validate_payload. split.
    + destruct (decode_credentials payload _) as [ok k] eqn:E. simpl. intros ->.
      exists (network_of k). split; [by apply decode_valid in E as [? _]|by apply (decode_is_record _ _ _ Hb E)].
    + intros (n & Hn & ->). by rewrite decode_network.
Qed.

(** ** The credentials in force and on trial *)

(** What an observer of the results of the operations knows. *)
Record wifi_view := { in_force : option network; on_trial : option network }.

#[export] Instance view_eq_dec : EqDecision wifi_view.
Proof. solve_decision. Defined.

Definition view_of c : wifi_view :=
  {| in_force := network_of <$> deck_wifi_config_active_credentials c;
     on_trial := if bool_decide (state c = DECK_WIFI_CONFIG_VALIDATING)
                 then Some (network_of (candidate c)) else None |}.

Inductive wifi_event :=
  | Submitted (credentials : deck_wifi_credentials_t) (result : deck_wifi_submit_result_t)
  | Reported (result : deck_wifi_validation_result_t) (handled : bool)
  | Ticked (expired : bool)
  | Connection (connected applied : bool)
  | Cleared (result : deck_wifi_clear_result_t).

Definition no_trial (v : wifi_view) : wifi_view := {| in_force := in_force v; on_trial := None |}.

(** The networks after an event: only a connection reported for the network
    on trial, accepted last, puts a network in force. *)
Definition follow (v : wifi_view) (e : wifi_event) : wifi_view :=
  match e with
  | Submitted credentials DECK_WIFI_SUBMIT_ACCEPTED =>
      {| in_force := in_force v; on_trial := Some (network_of credentials) |}
  | Submitted _ _ | Ticked false | Connection _ _ => v
  | Reported DECK_WIFI_VALIDATION_CONNECTED true => {| in_force := on_trial v; on_trial := None |}
  | Reported _ _ | Ticked true | Cleared DECK_WIFI_CLEAR_STORAGE_ERROR => no_trial v
  | Cleared DECK_WIFI_CLEAR_CLEARED => {| in_force := None; on_trial := None |}
  end.

Section properties.
Context {W : Type} `{StorageAdapter W} `{WifiValidation W}.

(** One operation of the configuration, by the event that records it. *)
Inductive wifi_step (c : deck_wifi_config) (w : W) : wifi_event -> deck_wifi_config -> W -> Prop :=
  | step_submit credentials now r c' w' :
      deck_wifi_config_submit c credentials now w = ((r, c'), w') ->
      wifi_step c w (Submitted credentials r) c' w'
  | step_result result b c' w' :
      deck_wifi_config_validation_result c result w = ((b, c'), w') ->
      wifi_step c w (Reported result b) c' w'
  | step_tick now b c' w' :
      deck_wifi_config_tick c now w = ((b, c'), w') -> wifi_step c w (Ticked b) c' w'
  | step_connection connected b c' :
      deck_wifi_config_active_connection c connected = (b, c') ->
      wifi_step c w (Connection connected b) c' w
  | step_clear r c' w' :
      deck_wifi_config_clear c w = ((r, c'), w') -> wifi_step c w (Cleared r) c' w'.

(** A run of the configuration: the events after its creation. *)
Inductive run_from (c0 : deck_wifi_config) : list wifi_event -> deck_wifi_config -> Prop :=
  | run_none : run_from c0 [] c0
  | run_step es c w e c' w' :
      run_from c0 es c -> wifi_step c w e c' w' -> run_from c0 (es ++ [e]) c'.

(** The record of the store that a payload describes. *)
Definition stored (has : bool) (record : OwnedRecord) : option network :=
  if has then Some (network_of (decode_credentials (payload record) empty_credentials).2) else None.

Record config_ok c : Prop := {
  ok_options : options (store c) = created_options store_options;
  ok_records : records_valid (store c);
  ok_active : in_force (view_of c) = stored (TransactionStore.has_active (store c))
                                            (TransactionStore.active (store c));
  ok_candidate : state c = DECK_WIFI_CONFIG_VALIDATING ->
    Some (network_of (candidate c)) = stored (TransactionStore.has_candidate (store c))
                                             (TransactionStore.candidate (store c));
}.

Lemma stored_decodes st record cleared :
  options st = created_options store_options ->
  TransactionStore.validate_payload (options st) (payload record) = true ->
  decode_credentials (payload record) cleared
  = (true, (decode_credentials (payload record) empty_credentials).2)
  /\ network_ok (network_of (decode_credentials (payload record) empty_credentials).2).
Proof.
  intros -> . rewrite created_validate. simpl TransactionStore.validate_payload. unfold validate_payload.
  destruct (decode_credentials _ empty_credentials) as [ok k] eqn:E. simpl. intros ->.
  by apply decode_valid in E as [? ->].
Qed.

Lemma refresh_frame c :
  store (refresh_store_state c) = store c /\ state (refresh_store_state c) = state c.
Proof. unfold refresh_store_state. by repeat case_match. Qed.

(** A refresh shows the store's records. *)
Lemma refresh_shows c :
  options (store c) = created_options store_options -> records_valid (store c) ->
  let c' := refresh_store_state c in
  store c' = store c /\ state c' = state c
  /\ in_force (view_of c') = stored (TransactionStore.has_active (store c))
                                    (TransactionStore.active (store c))
  /\ (TransactionStore.has_candidate (store c) = true ->
      Some (network_of (candidate c')) = stored (TransactionStore.has_candidate (store c))
                                                (TransactionStore.candidate (store c))).
Proof.
  intros Ho [Ha Hc] c'. subst c'. unfold refresh_store_state, view_of, deck_wifi_config_active_credentials, stored.
  cbn [snapshot_has_active snapshot_has_candidate snapshot_active snapshot_candidate
       deck_transaction_store_snapshot].
  destruct (TransactionStore.has_active (store c)).
  1: destruct (stored_decodes _ _ (deck_wifi_credentials_clear (active c)) Ho (Ha eq_refl)) as [-> _].
  all: destruct (TransactionStore.has_candidate (store c));
    [destruct (stored_decodes _ _ (deck_wifi_credentials_clear (candidate c)) Ho (Hc eq_refl)) as [-> _]|].
  all: by split_and!.
Qed.

(** A configuration that shows what a refresh loaded. *)
Lemma refreshed_ok c c' :
  options (store c) = created_options store_options -> records_valid (store c) ->
  store c' = store c -> active c' = active (refresh_store_state c) ->
  has_active c' = has_active (refresh_store_state c) ->
  candidate c' = candidate (refresh_store_state c) ->
  (state c' = DECK_WIFI_CONFIG_VALIDATING -> TransactionStore.has_candidate (store c) = true) ->
  config_ok c'
  /\ in_force (view_of c') = stored (TransactionStore.has_active (store c))
                                    (TransactionStore.active (store c))
  /\ (state c' = DECK_WIFI_CONFIG_VALIDATING ->
      on_trial (view_of c') = stored (TransactionStore.has_candidate (store c))
                                     (TransactionStore.candidate (store c))).
Proof.
  intros Ho Hr Es Ea Eh Ec Hv. destruct (refresh_shows c Ho Hr) as (_ & _ & Hf & Hc).
  assert (in_force (view_of c') = in_force (view_of (refresh_store_state c))) as E
    by (unfold view_of, deck_wifi_config_active_credentials; cbn [in_force]; by rewrite Eh, Ea).
  split_and!.
  - constructor; rewrite ?Es, ?E, ?Ec; auto.
  - by rewrite E.
  - intros Hs. simpl. rewrite bool_decide_eq_true_2, Ec by done. auto.
Qed.

(** [c'] is a refresh of the configuration that holds the store [st]. *)
Ltac refreshed c st Hk Hi Ht :=
  match goal with
  | |- config_ok ?c' /\ _ =>
      destruct (refreshed_ok (c <| store := st |>) c') as (Hk & Hi & Ht);
      try first [done | apply refresh_frame]
  end.

(** Only the state, the start of a validation and the fault flag change. *)
Lemma kept_ok c c' :
  config_ok c -> store c' = store c -> active c' = active c -> has_active c' = has_active c ->
  candidate c' = candidate c ->
  (state c' = DECK_WIFI_CONFIG_VALIDATING -> state c = DECK_WIFI_CONFIG_VALIDATING) ->
  config_ok c' /\ in_force (view_of c') = in_force (view_of c).
Proof.
  intros [? ? Ha Hc] Es Ea Eh Ec Hv.
  assert (in_force (view_of c') = in_force (view_of c)) as E
    by (unfold view_of, deck_wifi_config_active_credentials; cbn [in_force]; by rewrite Eh, Ea).
  split; [|done]. constructor; rewrite ?Es, ?E, ?Ec; auto.
Qed.

Lemma view_eta c v : in_force (view_of c) = in_force v -> on_trial (view_of c) = on_trial v -> view_of c = v.
Proof. destruct v as [f t], (view_of c) as [f' t']. simpl. congruence. Qed.

Lemma view_idle c v :
  state c <> DECK_WIFI_CONFIG_VALIDATING -> in_force (view_of c) = in_force v -> view_of c = no_trial v.
Proof. intros Hs Hf. apply view_eta; [done|]. simpl. by rewrite bool_decide_eq_false_2. Qed.

Lemma idle_no_trial c : state c <> DECK_WIFI_CONFIG_VALIDATING -> no_trial (view_of c) = view_of c.
Proof. intros Hs. symmetry. by apply view_idle. Qed.

Lemma submit_follow c credentials now (w : W) r c' w' :
  config_ok c -> deck_wifi_config_submit c credentials now w = ((r, c'), w') ->
  config_ok c' /\ view_of c' = follow (view_of c) (Submitted credentials r).
Proof.
  intros Hok. pose proof Hok as [Ho Hr Ha _]. unfold deck_wifi_config_submit.
  destruct (storage_faulted c) eqn:Hf; [by intros [= <- <- <-]|].
  destruct (bool_decide _) eqn:Hs; [by intros [= <- <- <-]|]. bool_prop.
  destruct (valid_text _ _ _ _); [|by intros [= <- <- <-]].
  destruct (valid_credentials credentials) as [sizes|] eqn:Hv; [|by intros [= <- <- <-]].
  apply valid_credentials_network in Hv. rewrite run_bind.
  destruct (deck_transaction_store_stage _ _ w) as [[res st] w1] eqn:Hst. cbn [fst snd].
  pose proof (stage_valid _ _ _ _ _ _ Hr Hst) as Hr'.
  apply stage_cases in Hst as (Ho' & Ea & _ & Eh & _ & _ & _ & Hupd).
  assert (in_force (view_of c) = stored (TransactionStore.has_active st) (TransactionStore.active st))
    as Hkeep by by rewrite Ha, Eh, Ea.
  assert (options (store (c <| store := st |>)) = created_options store_options) as Ho1
    by (simpl; congruence).
  case_bool_decide as Hres; cbn [negb].
  2: { intros [= <- <- <-].
       refreshed c st Hk Hi Ht. split; [done|]. rewrite <- (idle_no_trial c Hs). apply view_idle; [done|].
       by rewrite Hi, Hkeep. }
  destruct (Hupd Hres) as (_ & Hc & Hp & _). rewrite run_bind.
  destruct (validation_begin credentials w1) as [[] w2]; cbn [fst snd negb]; intros [= <- <- <-].
  2: { refreshed c st Hk Hi Ht.
       split; [done|]. rewrite <- (idle_no_trial c Hs). apply view_idle; [done|]. by rewrite Hi, Hkeep. }
  refreshed c st Hk Hi Ht.
  split; [done|]. apply view_eta; [by rewrite Hi; symmetry|]. rewrite (Ht eq_refl).
  change (stored (TransactionStore.has_candidate st) (TransactionStore.candidate st)
          = Some (network_of credentials)).
  unfold stored. rewrite Hc, Hp, encode_network, decode_network by done. cbn [snd].
  by rewrite network_of_credentials.
Qed.

Lemma commit_follow c (w : W) ok c' w' :
  config_ok c -> state c = DECK_WIFI_CONFIG_VALIDATING -> commit_candidate c w = ((ok, c'), w') ->
  config_ok c'
  /\ view_of c' = follow (view_of c) (Reported DECK_WIFI_VALIDATION_CONNECTED ok).
Proof.
  intros [Ho Hr Ha Hc] Hs. specialize (Hc Hs). unfold commit_candidate. rewrite run_bind.
  destruct (deck_transaction_store_commit _ w) as [[res st] w1] eqn:Hcm. cbn [fst snd].
  pose proof (commit_valid _ _ _ _ _ Hr Hcm) as Hr'.
  apply commit_cases in Hcm as (Ho' & Hkeep & _ & Hpub).
  assert (options (store (c <| store := st |>)) = created_options store_options) as Ho1
    by (simpl; congruence).
  case_bool_decide as Hres; cbn [negb]; intros [= <- <- <-].
  - destruct (Hpub Hres) as (Hcand & _ & Hact & _ & Hp & _).
    refreshed c st Hk Hi Ht.
    split; [done|]. apply view_eta; [|done]. rewrite Hi. simpl. rewrite bool_decide_eq_true_2 by done.
    rewrite Hc. unfold stored. simpl. by rewrite Hact, Hcand, Hp.
  - destruct (Hkeep Hres) as (Ea & _ & Eh & _).
    refreshed c st Hk Hi Ht.
    split; [done|]. apply view_idle; [done|]. rewrite Hi, Ha. simpl. by rewrite Ea, Eh.
Qed.

Lemma clear_follow c (w : W) r c' w' :
  config_ok c -> deck_wifi_config_clear c w = ((r, c'), w') ->
  config_ok c' /\ view_of c' = follow (view_of c) (Cleared r).
Proof.
  intros [Ho Hr Ha _]. unfold deck_wifi_config_clear. rewrite !run_bind.
  destruct ((if bool_decide _ then validation_cancel else mret tt) w) as [[] w1]. cbn [fst snd].
  destruct (deck_transaction_store_clear _ w1) as [[ok st] w2] eqn:Hcl. cbn [fst snd].
  pose proof (clear_valid _ _ _ _ _ Hr Hcl) as [Hr' Ho'].
  apply clear_cases in Hcl.
  assert (options (store (c <| store := st |>)) = created_options store_options) as Ho1
    by (simpl; congruence).
  destruct ok; cbn [negb]; intros [= <- <- <-].
  - refreshed c st Hk Hi Ht.
    split; [done|]. apply view_eta; [|done]. by rewrite Hi, Hcl.
  - refreshed c st Hk Hi Ht.
    split; [done|]. apply view_idle; [done|]. rewrite Hi, Ha. by rewrite Hcl.
Qed.

Lemma step_follow c (w : W) e c' w' :
  config_ok c -> wifi_step c w e c' w' -> config_ok c' /\ view_of c' = follow (view_of c) e.
Proof.
  intros Hok. destruct 1 as [credentials now r c' w' E|result b c' w' E|now b c' w' E|connected b c' E|r c' w' E].
  - by eapply submit_follow.
  - revert E. unfold deck_wifi_config_validation_result. case_bool_decide as Hs; cbn [negb].
    + destruct result; [by apply commit_follow|..]; intros [= <- <- <-];
        match goal with |- config_ok ?c' /\ _ => destruct (kept_ok c c' Hok) as [Hk Hi]; try done end;
        (split; [done|]; by apply view_idle).
    + intros [= <- <- <-]. split; [done|]. simpl. by destruct result; rewrite idle_no_trial.
  - revert E. unfold deck_wifi_config_tick. destruct (_ || _); [by intros [= <- <- <-]|].
    rewrite run_bind. intros [= <- <- <-].
    destruct (kept_ok c (c <| state := DECK_WIFI_CONFIG_TIMED_OUT |>) Hok) as [Hk Hi]; done.
  - revert E. unfold deck_wifi_config_active_connection. destruct (_ || _) eqn:Hg; [by intros [= <- <-]|].
    intros [= <- <-]. bool_prop. simpl.
    match goal with |- config_ok ?c' /\ _ => destruct (kept_ok c c' Hok) as [Hk Hi] end;
      try done; [by destruct connected|].
    split; [done|]. rewrite <- (idle_no_trial c) by done. apply view_idle; [by destruct connected|done].
  - by eapply clear_follow.
Qed.

Lemma create_config_ok timeout (w : W) c w' :
  deck_wifi_config_create timeout w = (Some c, w') -> config_ok c /\ on_trial (view_of c) = None.
Proof.
  unfold deck_wifi_config_create. destruct (timeout =? 0); [done|]. rewrite run_bind.
  destruct (heap_alloc w) as [[] w1]; cbn [fst snd negb]; [|done]. rewrite run_bind.
  destruct (deck_transaction_store_create store_options w1) as [[st|] w2] eqn:E; [|done].
  apply create_valid in E as [Ho Hr]. intros [= <- <-].
  set (c0 := {| validation_timeout_ms := _ |}). change st with (store c0) in Ho, Hr.
  pose proof (refresh_frame c0) as [Es Est]. change (state c0) with DECK_WIFI_CONFIG_NO_ACTIVE in Est.
  set (r := refresh_store_state c0) in *.
  assert (forall c', c' = (if storage_faulted r then r <| state := DECK_WIFI_CONFIG_STORAGE_ERROR |>
                           else if has_active r then r <| state := DECK_WIFI_CONFIG_ACTIVE |> else r) ->
          store c' = store r /\ active c' = active r /\ has_active c' = has_active r
          /\ candidate c' = candidate r /\ state c' <> DECK_WIFI_CONFIG_VALIDATING) as Hc.
  { intros c' ->. repeat case_match; split_and!; congruence || done. }
  destruct (Hc _ eq_refl) as (? & ? & ? & ? & Hs). split.
  - refine (proj1 (refreshed_ok c0 _ Ho Hr _ _ _ _ _)); congruence || done.
  - simpl. by rewrite bool_decide_eq_false_2.
Qed.

Lemma run_ok c0 es c :
  config_ok c0 -> run_from c0 es c -> config_ok c /\ view_of c = foldl follow (view_of c0) es.
Proof.
  intros Hok0. induction 1 as [|es c w e c' w' _ [Hok IH] Hs]; [done|].
  rewrite foldl_app. cbn [foldl]. rewrite <- IH. by eapply step_follow.
Qed.

Lemma in_force_ok c n : config_ok c -> in_force (view_of c) = Some n -> network_ok n.
Proof.
  intros [Ho [Ha _] Hf _]. rewrite Hf. unfold stored. destruct (TransactionStore.has_active (store c)); [|done].
  intros [= <-]. by apply (stored_decodes (store c) _ empty_credentials Ho (Ha eq_refl)).
Qed.

(** What a submission that is not accepted says. *)
Lemma submit_refused c credentials now (w : W) r c' w' :
  deck_wifi_config_submit c credentials now w = ((r, c'), w') ->
  match r with
  | DECK_WIFI_SUBMIT_ACCEPTED => network_ok (network_of credentials) /\ state c' = DECK_WIFI_CONFIG_VALIDATING
  | DECK_WIFI_SUBMIT_INVALID_SSID | DECK_WIFI_SUBMIT_INVALID_PASSWORD =>
      ~ network_ok (network_of credentials) /\ c' = c /\ w' = w
  | DECK_WIFI_SUBMIT_BUSY => state c = DECK_WIFI_CONFIG_VALIDATING /\ c' = c /\ w' = w
  | DECK_WIFI_SUBMIT_STORAGE_ERROR => storage_faulted c' = true
  | DECK_WIFI_SUBMIT_WIFI_ERROR => state c' = DECK_WIFI_CONFIG_CONNECTION_FAILED
  end.
Proof.
  unfold deck_wifi_config_submit.
  destruct (storage_faulted c) eqn:Hf; [by intros [= <- <- <-]|].
  destruct (bool_decide _) eqn:Hs; [intros [= <- <- <-]; by bool_prop|].
  destruct (valid_text _ _ _ _) eqn:Ht.
  2: { intros [= <- <- <-]. split; [|done]. intros Hn.
       pose proof (proj2 (valid_credentials_spec credentials _) (conj Hn eq_refl)) as Hv.
       unfold valid_credentials in Hv. by rewrite Ht in Hv. }
  destruct (valid_credentials credentials) as [sizes|] eqn:Hv.
  2: { intros [= <- <- <-]. split; [|done]. intros Hn.
       by rewrite (proj2 (valid_credentials_spec credentials _) (conj Hn eq_refl)) in Hv. }
  clear Hs. apply valid_credentials_network in Hv. rewrite run_bind.
  destruct (deck_transaction_store_stage _ _ w) as [[res st] w1]. cbn [fst snd].
  case_bool_decide; cbn [negb]; [|by intros [= <- <- <-]]. rewrite run_bind.
  by destruct (validation_begin credentials w1) as [[] w2]; cbn [fst snd negb]; intros [= <- <- <-].
Qed.

End properties.

(** C8: Which network is in force.  Over any storage adapter and any Wi-Fi
    driver, after any sequence of operations of a created configuration: the
    network in force and the network on trial are the ones [follow] computes
    from the results alone, so a network gets in force only by a connection
    reported while it, the last one accepted, is on trial, and only a
    completed clear removes it; every network in force is within the limits;
    a submission is busy exactly during a trial, and one refused as invalid
    is invalid and changes nothing. *)
Theorem only_connected_networks_in_force {W} `{StorageAdapter W, WifiValidation W}
    timeout (w : W) c0 w0 es c :
  deck_wifi_config_create timeout w = (Some c0, w0) -> run_from c0 es c ->
  view_of c = foldl follow (view_of c0) es
  /\ on_trial (view_of c0) = None
  /\ (forall n, in_force (view_of c) = Some n -> network_ok n)
  /\ (forall credentials now w r c' w',
        deck_wifi_config_submit c credentials now w = ((r, c'), w') ->
        (r = DECK_WIFI_SUBMIT_BUSY -> is_Some (on_trial (view_of c)) /\ c' = c /\ w' = w)
        /\ (r = DECK_WIFI_SUBMIT_INVALID_SSID \/ r = DECK_WIFI_SUBMIT_INVALID_PASSWORD ->
             ~ network_ok (network_of credentials) /\ c' = c /\ w' = w)
        /\ (r = DECK_WIFI_SUBMIT_ACCEPTED -> network_ok (network_of credentials))).
Proof.
  intros [Hok Ht]%create_config_ok Hrun. pose proof (run_ok _ _ _ Hok Hrun) as [Hc Hv].
  split_and!; [done|done|intros n; by apply in_force_ok|].
  intros credentials now w1 r c' w' Hs%submit_refused. split_and!.
  - intros ->. destruct Hs as (Hs & -> & ->). simpl. by rewrite bool_decide_eq_true_2.
  - by intros [-> | ->].
  - intros ->. apply Hs.
Qed.

Module WifiExample.
Definition home : network := {| name := literal "deck"%string; secret := literal "password1"%string |}.

(** A driver that starts every validation. *)
Definition driver : WifiValidation flash := {|
  validation_begin := fun _ => mret true;
  validation_cancel := mret tt;
|}.

Definition created : deck_wifi_config := {|
  validation_timeout_ms := 20000; store := empty_store (created_options store_options);
  state := DECK_WIFI_CONFIG_NO_ACTIVE; record_status := DECK_WIFI_RECORD_EMPTY;
  candidate_record_status := DECK_WIFI_RECORD_EMPTY;
  active := empty_credentials; candidate := empty_credentials; generation := 0;
  validation_started_ms := 0; has_active := false; has_candidate := false; storage_faulted := false |}.

Definition trial := @deck_wifi_config_submit _ _ driver created (credentials_of home) 5 (sample_flash 9 true).
Definition connected :=
  deck_wifi_config_validation_result trial.1.2 DECK_WIFI_VALIDATION_CONNECTED trial.2.
Definition events : list wifi_event :=
  [Submitted (credentials_of home) DECK_WIFI_SUBMIT_ACCEPTED; Reported DECK_WIFI_VALIDATION_CONNECTED true].
End WifiExample.

Lemma wifi_record_codec_witness :
  network_ok WifiExample.home
  /\ decode_credentials (encode_credentials (credentials_of WifiExample.home)) empty_credentials
     = (true, credentials_of WifiExample.home).
Proof.
  assert (network_ok (network_of (credentials_of WifiExample.home))) as Hn.
  { apply encode_nonempty. vm_compute. discriminate. }
  change (network_of (credentials_of WifiExample.home)) with WifiExample.home in Hn.
  split; [exact Hn|]. destruct wifi_record_codec as (_ & Hd & _). exact (Hd (credentials_of WifiExample.home) Hn).
Defined.

Lemma only_connected_networks_in_force_witness :
  exists c w', WifiExample.connected = ((true, c), w')
    /\ view_of c = {| in_force := Some WifiExample.home; on_trial := None |}.
Proof.
  assert (WifiExample.trial.1.1 = DECK_WIFI_SUBMIT_ACCEPTED) as Er by (vm_compute; reflexivity).
  assert (WifiExample.connected.1.1 = true) as Eb by (vm_compute; reflexivity).
  unfold WifiExample.connected in *. destruct WifiExample.trial as [[r c1] w1] eqn:E1.
  cbn [fst snd] in Er, Eb |- *. subst r.
  destruct (deck_wifi_config_validation_result c1 DECK_WIFI_VALIDATION_CONNECTED w1) as [[b c] w'] eqn:E2.
  cbn [fst] in Eb. subst b. exists c, w'. split; [reflexivity|].
  apply (@only_connected_networks_in_force _ _ WifiExample.driver 20000 (sample_flash 9 true)
    WifiExample.created (sample_flash 9 true) WifiExample.events c); [reflexivity|].
  change WifiExample.events with
    (([] ++ [Submitted (credentials_of WifiExample.home) DECK_WIFI_SUBMIT_ACCEPTED])
     ++ [Reported DECK_WIFI_VALIDATION_CONNECTED true]).
  eapply (@run_step _ _ WifiExample.driver); [eapply (@run_step _ _ WifiExample.driver);
    [apply run_none|apply (step_submit _ _ _ 5); exact E1]|apply step_result; exact E2].
Defined.
