(* ===== verification/ProfileText.v ===== *)
(** * The texts of a Companion profile

    [components/companion_profiles/deck_companion_profiles.cpp]: the
    validators of fingerprints, tokens, hub addresses, pairing addresses and
    pairing codes, and the grammars they decide.

    A [char] array is the list of its bytes; what lies beyond an array that
    has no terminator is a terminator, and no validator relies on it. *)

From Stdlib Require Import String.
From S2P Require Import Prelude CString.

Definition kProtocolVersion : Z := 1.
Definition kNoActiveProfile : Z := 0xff.
Definition DECK_COMPANION_PROFILE_VERSION : Z := 1.
Definition DECK_COMPANION_MAX_PROFILES : nat := 5.
Definition DECK_COMPANION_PROFILE_ID_CAPACITY : nat := 72.
Definition DECK_COMPANION_DISPLAY_NAME_CAPACITY : nat := 96.
Definition DECK_COMPANION_HUB_ADDRESS_CAPACITY : nat := 96.
Definition DECK_COMPANION_TOKEN_CAPACITY : nat := 44.
Definition DECK_COMPANION_FINGERPRINT_CAPACITY : nat := 72.
Definition DECK_COMPANION_CERTIFICATE_DER_CAPACITY : nat := 1024.
Definition DECK_COMPANION_PAIRING_CODE_CAPACITY : nat := 7.

(** ** Validators *)

Definition safe_ascii (value : bytes) (capacity : nat) (allow_empty : bool) : bool :=
  if negb (terminated value capacity) then false
  else
    let size := strlen value in
    if (negb allow_empty && (size =? 0)%nat) || (capacity <=? size)%nat then false
    else forallb (fun byte => negb ((byte <? 0x21) || (0x7e <? byte))) (take size value).

Definition is_base64url (byte : Z) : bool :=
  is_upper byte || is_lower byte || is_digit byte || (byte =? 95) || (byte =? 45).

Definition valid_base64url (value : bytes) (expected_size : nat) : bool :=
  if negb (strlen value =? expected_size)%nat then false
  else forallb is_base64url (take expected_size value).

(** ['0'..'9'], ['a'..'f'] *)
Definition is_lower_hex (byte : Z) : bool := is_digit byte || ((97 <=? byte) && (byte <=? 102)).

Definition valid_fingerprint (value : bytes) : bool :=
  if negb (strlen value =? 71)%nat || negb (bool_decide (take 7 value = literal "sha256:")) then false
  else forallb is_lower_hex (slice 7 (71 - 7) value).

Definition valid_host_character (byte : Z) (ipv6 : bool) : bool :=
  if is_lower byte || is_upper byte || is_digit byte || (byte =? ch_dot) || (byte =? ch_minus) then true
  else ipv6 && ((byte =? 58) || (byte =? 37) || (byte =? 95)).

(** The loop over a port's digits: [None] returns [false]. *)
Fixpoint port_digits (digits : bytes) (port : Z) : option Z :=
  match digits with
  | [] => Some port
  | byte :: digits =>
      if (byte <? ch_0) || (ch_9 <? byte) then None
      else
        let port := u32 (port * 10 + (byte - ch_0)) in
        if 65535 <? port then None else port_digits digits port
  end.

(** [host_begin], [host_end], [port_begin] and [ipv6] *)
Definition address_parts (address : bytes) : option (nat * nat * nat * bool) :=
  if address.[0] =? 91 then
    match strchr address 93 with
    | None => None
    | Some closing =>
        if (closing =? 1)%nat || negb (address.[closing + 1] =? 58) then None
        else Some (1, closing, closing + 2, true)%nat
    end
  else
    match strrchr address 58 with
    | None => None
    | Some colon =>
        if (colon =? 0)%nat || negb (bool_decide (strchr address 58 = Some colon)) then None
        else Some (0, colon, colon + 1, false)%nat
    end.

Definition valid_address (address : bytes) : bool :=
  if negb (safe_ascii address DECK_COMPANION_HUB_ADDRESS_CAPACITY false) then false
  else
    let size := strlen address in
    match address_parts address with
    | None => false
    | Some (host_begin, host_end, port_begin, ipv6) =>
        if (size <=? port_begin)%nat then false
        else if negb (forallb (fun byte => valid_host_character byte ipv6)
                        (slice host_begin (host_end - host_begin) address)) then false
        else match port_digits (slice port_begin (size - port_begin) address) 0 with
             | None => false
             | Some port => negb (port =? 0)
             end
    end.

(** [None] is [false]. *)
Definition address_port (address : bytes) : option Z :=
  if negb (valid_address address) then None
  else
    let separator := default 0%nat (strrchr address 58) in
    let digits := c_string (drop (separator + 1) address) in
    Some (u16 (fold_left (fun port byte => u32 (port * 10 + (byte - ch_0))) digits 0)).

(** [std::isspace] *)
Definition is_space (byte : Z) : bool := (byte =? 32) || ((9 <=? byte) && (byte <=? 13)).

Fixpoint skip_space (input : bytes) : bytes :=
  match input with
  | byte :: rest => if is_space byte then skip_space rest else input
  | [] => []
  end.

Fixpoint span_digits (input : bytes) : bytes * bytes :=
  match input with
  | byte :: rest =>
      if is_digit byte then let '(digits, rest) := span_digits rest in (byte :: digits, rest)
      else ([], input)
  | [] => ([], [])
  end.

(** The value of a digit sequence. *)
Definition decimal (digits : bytes) : Z := fold_left (fun v byte => v * 10 + (byte - ch_0)) digits 0.

(** The [%u] conversion of [sscanf], as [strtoul] on 32-bit longs: white
    space, an optional sign and digits; a minus sign negates in [unsigned];
    a value that does not fit becomes [ULONG_MAX].  [None] is a matching
    failure. *)
Definition scan_unsigned (input : bytes) : option (Z * bytes) :=
  let input := skip_space input in
  let '(negative, input) :=
    match input with
    | byte :: rest => if byte =? ch_minus then (true, rest)
                      else if byte =? ch_plus then (false, rest) else (false, input)
    | [] => (false, [])
    end in
  match span_digits input with
  | ([], _) => None
  | (digits, rest) =>
      let value := decimal digits in
      Some (if U32_MAX <? value then U32_MAX else if negative then u32 (- value) else value, rest)
  end.

(** [std::sscanf(address, "192.168.4.%u:%*u%n", &octet, &consumed)]: the
    result, [octet] and [consumed]. *)
Definition scan_pairing_address (address : bytes) : Z * Z * nat :=
  let text := c_string address in
  let prefix := literal "192.168.4." in
  if negb (bool_decide (take (length prefix) text = prefix)) then (0, 0, 0%nat)
  else
    match scan_unsigned (drop (length prefix) text) with
    | None => (0, 0, 0%nat)
    | Some (octet, rest) =>
        match rest with
        | byte :: rest =>
            if negb (byte =? 58) then (1, octet, 0%nat)
            else match scan_unsigned rest with
                 | None => (1, octet, 0%nat)
                 | Some (_, rest) => (1, octet, (length text - length rest)%nat)
                 end
        | [] => (1, octet, 0%nat)
        end
    end.

Definition valid_pairing_address (address : bytes) (expected_port : Z) : bool :=
  match address_port address with
  | None => false
  | Some port =>
      if negb (port =? expected_port) then false
      else
        let '(matched, octet, consumed) := scan_pairing_address address in
        (matched =? 1) && (0 <? consumed)%nat && (consumed =? strlen address)%nat
        && (2 <=? octet) && (octet <=? 254)
  end.

Definition valid_code (code : bytes) : bool :=
  if negb (terminated code DECK_COMPANION_PAIRING_CODE_CAPACITY)
     || negb (strlen code =? DECK_COMPANION_PAIRING_CODE_CAPACITY - 1)%nat then false
  else forallb is_digit (take (DECK_COMPANION_PAIRING_CODE_CAPACITY - 1) code).

(** ** The grammars *)

Lemma terminated_strlen v capacity : terminated v capacity = true -> (strlen v < capacity)%nat.
Proof.
  unfold terminated, strlen. revert capacity. induction v as [|b v IH]; intros [|c]; simpl; try done.
  destruct (b =? 0); simpl; [lia|]. intros Ht. specialize (IH c Ht). lia.
Qed.

Lemma strlen_terminated v capacity :
  (strlen v < capacity)%nat -> (strlen v < length v)%nat -> terminated v capacity = true.
Proof.
  unfold terminated, strlen. revert capacity. induction v as [|b v IH]; intros [|c]; simpl; try lia.
  destruct (b =? 0); simpl; [done|]. intros. apply IH; lia.
Qed.

(** A printable byte that is not a space. *)
Definition graphic (b : Z) : Prop := 0x21 <= b <= 0x7e.

Lemma safe_ascii_spec v capacity :
  safe_ascii v capacity false = true
  <-> terminated v capacity = true /\ c_string v <> [] /\ Forall graphic (c_string v).
Proof.
  unfold safe_ascii. destruct (terminated v capacity) eqn:Ht; cbn [negb]; [|by split; [|intros [? _]]].
  apply terminated_strlen in Ht. rewrite (proj2 (Nat.leb_gt _ _)) by done.
  rewrite <- c_string_prefix, orb_false_r. cbn [negb andb]. unfold strlen.
  destruct (Nat.eqb_spec (length (c_string v)) 0) as [E|E].
  { apply nil_length_inv in E. rewrite E. naive_solver. }
  rewrite forallb_Forall. transitivity (Forall graphic (c_string v)).
  - apply Forall_iff. intros x. unfold graphic. rewrite negb_true_iff, orb_false_iff, !Z.ltb_ge. done.
  - split; [|naive_solver]. intros Hg. split_and!; [done| |done]. intros Hc. by rewrite Hc in E.
Qed.

Lemma valid_base64url_spec v n :
  valid_base64url v n = true
  <-> strlen v = n /\ Forall (fun b => is_base64url b = true) (c_string v).
Proof.
  unfold valid_base64url. destruct (Nat.eqb_spec (strlen v) n) as [<-|Hn]; cbn [negb]; [|naive_solver].
  rewrite <- c_string_prefix, forallb_Forall. naive_solver.
Qed.

(** ["sha256:"] and 64 lower-case hexadecimal digits *)
Definition fingerprint (text : bytes) : Prop :=
  exists hex, text = literal "sha256:" ++ hex /\ length hex = 64%nat
    /\ Forall (fun b => is_lower_hex b = true) hex.

Lemma valid_fingerprint_spec v : valid_fingerprint v = true <-> fingerprint (c_string v).
Proof.
  unfold valid_fingerprint, fingerprint. destruct (Nat.eqb_spec (strlen v) 71) as [Hn|Hn]; cbn [negb orb].
  - rewrite slice_c_string by lia.
    assert (take 7 v = take 7 (c_string v)) as -> by (rewrite c_string_prefix, take_take, Hn; done).
    unfold strlen in Hn. case_bool_decide as Hp; cbn [negb].
    + rewrite forallb_Forall. unfold slice. rewrite (take_ge (drop 7 _)) by (rewrite length_drop; lia).
      split.
      * intros Hh. exists (drop 7 (c_string v)). rewrite <- Hp, take_drop, length_drop. split_and!; [done|lia|done].
      * intros (hex & E & Hl & Hh). rewrite E. exact Hh.
    + split; [done|]. intros (hex & E & _). exfalso. apply Hp. by rewrite E.
  - split; [done|]. intros (hex & E & Hl & _). exfalso. apply Hn. unfold strlen. by rewrite E, length_app, Hl.
Qed.

(** *** Hub addresses *)

Definition host_character (ipv6 : bool) (b : Z) : Prop := valid_host_character b ipv6 = true.
Definition digits (text : bytes) : Prop := Forall (fun b => is_digit b = true) text.

(** A name or an IPv4 address, or an IPv6 address in brackets. *)
Inductive host : bytes -> Prop :=
  | host_plain text : text <> [] -> Forall (host_character false) text -> host text
  | host_bracketed text : text <> [] -> Forall (host_character true) text -> host ([91] ++ text ++ [93]).

(** [host:port] with a port that is not 0 *)
Definition hub_text (text : bytes) : Prop :=
  exists h port, text = h ++ 58 :: port /\ host h /\ digits port /\ 1 <= decimal port <= 65535.

Definition decimal_from (v : Z) (text : bytes) : Z :=
  fold_left (fun v byte => v * 10 + (byte - ch_0)) text v.

Lemma is_digit_value b : is_digit b = true -> 48 <= b <= 57.
Proof. unfold is_digit, ch_0, ch_9. lia. Qed.

Lemma not_digit b : is_digit b = false <-> (b <? ch_0) || (ch_9 <? b) = true.
Proof. unfold is_digit, ch_0, ch_9. lia. Qed.

Lemma decimal_from_ge text v : 0 <= v -> digits text -> v <= decimal_from v text.
Proof.
  intros Hv Hd. revert v Hv. induction Hd as [|b text Hb _ IH]; intros v Hv; simpl; [lia|].
  apply is_digit_value in Hb. unfold ch_0. specialize (IH (v * 10 + (b - 48)) ltac:(lia)). lia.
Qed.

Lemma port_digits_spec text v p :
  0 <= v <= 65535 ->
  port_digits text v = Some p <-> digits text /\ p = decimal_from v text /\ p <= 65535.
Proof.
  revert v. induction text as [|b text IH]; intros v Hv; cbn [port_digits].
  { unfold digits, decimal_from. simpl. split; [intros [= ->]; split_and!; [constructor|done|lia]|].
    by intros (_ & -> & _). }
  destruct (is_digit b) eqn:Hb.
  - pose proof (is_digit_value b Hb). rewrite (proj1 (not_true_iff_false _)) by (rewrite <- not_digit; congruence).
    rewrite u32_id by (unfold ch_0; words). unfold digits. rewrite Forall_cons.
    change (decimal_from v (b :: text)) with (decimal_from (v * 10 + (b - ch_0)) text).
    destruct (Z.ltb_spec 65535 (v * 10 + (b - ch_0))) as [Hlt|Hge].
    + split; [done|]. intros ((_ & Hd) & -> & Hle).
      pose proof (decimal_from_ge text (v * 10 + (b - ch_0)) ltac:(unfold ch_0; lia) Hd). lia.
    + rewrite IH by (unfold ch_0 in *; lia). unfold digits. naive_solver.
  - rewrite (proj1 (not_digit b) Hb). split; [done|]. intros (Hd & _). inversion_clear Hd. congruence.
Qed.

Lemma host_character_not ipv6 b c :
  host_character ipv6 b -> (c = 0 \/ c = 91 \/ c = 93 \/ (ipv6 = false /\ c = 58)) -> b <> c.
Proof.
  unfold host_character, valid_host_character, is_lower, is_upper, is_digit, ch_0, ch_9, ch_a, ch_z, ch_A, ch_Z,
    ch_dot, ch_minus.
  destruct ipv6; case_match; intros; bool_prop; lia.
Qed.

Lemma digits_not text c : digits text -> ~ (48 <= c <= 57) -> c ∉ text.
Proof.
  intros Hd Hc Hin. unfold digits in Hd. rewrite Forall_forall in Hd. apply Hd, is_digit_value in Hin. lia.
Qed.

Lemma hosts_not ipv6 text c :
  Forall (host_character ipv6) text -> (c = 0 \/ c = 91 \/ c = 93 \/ (ipv6 = false /\ c = 58)) -> c ∉ text.
Proof.
  intros Hh Hc Hin. rewrite Forall_forall in Hh. apply Hh in Hin. by apply (host_character_not _ _ c Hin) in Hc.
Qed.

(** What [address_parts] finds. *)
Definition parts (text : bytes) (hb he pb : nat) (ipv6 : bool) : Prop :=
  if ipv6 then
    exists inner rest, text = 91 :: inner ++ 93 :: 58 :: rest /\ inner <> [] /\ 93 ∉ inner
      /\ hb = 1%nat /\ he = S (length inner) /\ pb = (3 + length inner)%nat
  else
    exists h rest, text = h ++ 58 :: rest /\ h <> [] /\ head h <> Some 91 /\ 58 ∉ h /\ 58 ∉ rest
      /\ hb = 0%nat /\ he = length h /\ pb = S (length h).

Lemma head_at (text : bytes) b : b <> 0 -> text.[0] = b <-> head text = Some b.
Proof. unfold byte_at. destruct text as [|c text]; simpl; split; intros; simplify_eq; congruence. Qed.

Lemma address_parts_sound a hb he pb ipv6 :
  address_parts a = Some (hb, he, pb, ipv6) -> parts (c_string a) hb he pb ipv6.
Proof.
  unfold address_parts. rewrite c_string_at by lia. destruct (Z.eqb_spec ((c_string a).[0]) 91) as [H0|H0].
  - destruct (strchr a 93) as [closing|] eqn:Hc; [|done].
    apply strchr_Some in Hc as (l1 & l2 & E & <- & Hn).
    rewrite (c_string_at a (length l1 + 1)) by (unfold strlen; rewrite E, length_app; simpl; lia).
    rewrite E in *.
    destruct l1 as [|c inner]; [done|]. change (((c :: inner) ++ 93 :: l2).[0]) with c in H0. subst c.
    rewrite byte_at_app_r by lia. replace (length (91%Z :: inner) + 1 - length (91%Z :: inner))%nat with 1%nat by lia.
    destruct (_ || _) eqn:Eg; [done|]. intros [= <- <- <- <-]. bool_prop. cbn [length] in *.
    destruct l2 as [|c rest]; [done|]. change ((93 :: c :: rest).[1]) with c in *. subst c.
    exists inner, rest. split_and!; try done; [|set_solver|lia].
    by intros ->.
  - destruct (strrchr a 58) as [colon|] eqn:Hc; [|done]. apply strrchr_Some in Hc as (l1 & l2 & E & <- & Hn).
    destruct (_ || _) eqn:Eg; [done|]. intros [= <- <- <- <-]. bool_prop.
    apply strchr_Some in H1 as (k1 & k2 & E' & Hl & Hn'). rewrite E in *.
    apply app_inj_1 in E' as [-> [= ->]]; [|done].
    exists k1, k2. split_and!; try done; [by intros ->| |lia].
    destruct k1 as [|c k1]; [done|]. intros [= ->]. by apply H0.
Qed.

Lemma address_parts_complete a hb he pb ipv6 :
  parts (c_string a) hb he pb ipv6 -> address_parts a = Some (hb, he, pb, ipv6).
Proof.
  unfold address_parts, parts. rewrite c_string_at by lia. destruct ipv6.
  - intros (inner & rest & E & Hi & Hn & -> & -> & ->).
    assert (strchr a 93 = Some (S (length inner))) as ->.
    { apply strchr_Some. exists (91 :: inner), (58 :: rest). split_and!; [done..|set_solver]. }
    rewrite (c_string_at a (S (length inner) + 1))
      by (unfold strlen; rewrite E; simpl; rewrite length_app; simpl; lia).
    rewrite E. change (((91 :: inner ++ 93 :: 58 :: rest).[0]) =? 91) with true. cbn iota.
    replace (91 :: inner ++ 93 :: 58 :: rest) with ((91 :: inner ++ [93]) ++ 58 :: rest)
      by (cbn [app]; by rewrite <- app_assoc).
    rewrite byte_at_app_r by (simpl; rewrite length_app; simpl; lia).
    replace (S (length inner) + 1 - length (91%Z :: inner ++ [93%Z]))%nat with 0%nat
      by (simpl; rewrite length_app; simpl; lia).
    change ((58 :: rest).[0] =? 58) with true.
    destruct inner; [done|]. simpl. f_equal. f_equal. f_equal. f_equal. lia.
  - intros (h & rest & E & Hh & H91 & Hn & Hn' & -> & -> & ->).
    assert (strrchr a 58 = Some (length h)) as -> by (apply strrchr_Some; by exists h, rest).
    assert (strchr a 58 = Some (length h)) as -> by (apply strchr_Some; by exists h, rest).
    rewrite E. destruct h as [|c h]; [done|]. change (((c :: h) ++ 58 :: rest).[0]) with c.
    rewrite (proj2 (Z.eqb_neq c 91)) by (intros ->; by apply H91).
    rewrite bool_decide_eq_true_2 by done. simpl. by rewrite Nat.add_1_r.
Qed.

Lemma skip_prefix (a b : bytes) n : n = length a -> slice n (length (a ++ b) - n) (a ++ b) = b.
Proof.
  intros ->. rewrite slice_skip by done. apply take_ge. rewrite length_app. lia.
Qed.

Lemma parts_slices text hb he pb ipv6 :
  parts text hb he pb ipv6 ->
  exists h inner rest, text = h ++ 58 :: rest /\ slice hb (he - hb) text = inner
    /\ slice pb (length text - pb) text = rest /\ pb = S (length h) /\ (hb + (he - hb) <= length text)%nat
    /\ inner <> [] /\ h = if ipv6 then [91] ++ inner ++ [93] else inner.
Proof.
  unfold parts. destruct ipv6.
  - intros (inner & rest & -> & Hi & Hn & -> & -> & ->). exists ([91] ++ inner ++ [93]), inner, rest.
    replace (91 :: inner ++ 93 :: 58 :: rest) with (([91] ++ inner ++ [93; 58]) ++ rest)
      by (cbn [app]; by rewrite <- app_assoc).
    assert (length ([91] ++ inner ++ [93; 58]) = (3 + length inner)%nat) as Hl
      by (rewrite !length_app; simpl; lia).
    split_and!; try done.
    + by rewrite <- !app_assoc.
    + rewrite <- !app_assoc. rewrite slice_skip by done. rewrite Nat.sub_succ, Nat.sub_0_r.
      by apply take_app_length.
    + by apply skip_prefix.
    + rewrite !length_app. simpl. lia.
    + rewrite !length_app. simpl. lia.
  - intros (h & rest & -> & Hh & _ & _ & _ & -> & -> & ->). exists h, h, rest.
    rewrite Nat.sub_0_r. split_and!; try done.
    + unfold slice. rewrite drop_0. by apply take_app_length.
    + replace (h ++ 58 :: rest) with ((h ++ [58]) ++ rest) by by rewrite <- app_assoc.
      apply skip_prefix. rewrite length_app. simpl. lia.
    + rewrite length_app. lia.
Qed.

Lemma host_parts h port :
  host h -> digits port -> exists hb he ipv6, parts (h ++ 58 :: port) hb he (S (length h)) ipv6
    /\ Forall (host_character ipv6) (slice hb (he - hb) (h ++ 58 :: port)).
Proof.
  intros Hh Hd. assert (exists hb he ipv6, parts (h ++ 58 :: port) hb he (S (length h)) ipv6
    /\ (exists inner, Forall (host_character ipv6) inner /\ inner <> []
        /\ h = if ipv6 then [91] ++ inner ++ [93] else inner)) as (hb & he & ipv6 & Hp & inner & Hf & _ & E).
  { destruct Hh as [h Hn Hf|h Hn Hf].
    - exists 0%nat, (length h), false. split; [|by exists h]. exists h, port. split_and!; try done.
      + intros E. destruct h as [|c h]; [done|]. injection E as ->. apply Forall_cons in Hf as [Hf _].
        by eapply (host_character_not false 91 91); [exact Hf|auto|].
      + eapply hosts_not; [exact Hf|auto].
      + apply digits_not; [done|lia].
    - exists 1%nat, (S (length h)), true. split; [|by exists h]. exists h, port. split_and!; try done.
      + cbn [app]. by rewrite <- app_assoc.
      + eapply hosts_not; [exact Hf|auto].
      + rewrite !length_app. simpl. lia. }
  exists hb, he, ipv6. split; [done|]. destruct (parts_slices _ _ _ _ _ Hp) as (h' & i' & r' & E1 & -> & _ & El & _ & _ & Eh).
  assert (h' = h) as -> by (apply (f_equal (take (length h))) in E1; injection El as El;
    rewrite take_app_length in E1; by rewrite E1, El, take_app_length).
  rewrite E in Eh. destruct ipv6; [|by subst]. injection Eh as Eh. by apply app_inj_2 in Eh as [<- _].
Qed.

Lemma host_graphic h : host h -> Forall graphic h.
Proof.
  assert (forall ipv6 text, Forall (host_character ipv6) text -> Forall graphic text) as Hg.
  { intros ipv6 text Hf. eapply Forall_impl; [exact Hf|]. intros b. unfold host_character, valid_host_character, graphic,
      is_lower, is_upper, is_digit, ch_0, ch_9, ch_a, ch_z, ch_A, ch_Z, ch_dot, ch_minus.
    case_match; destruct ipv6; intros; bool_cases; lia. }
  destruct 1 as [h _ Hf|h _ Hf]; apply Hg in Hf; [done|].
  repeat (apply Forall_app; split); try done; repeat constructor; unfold graphic; lia.
Qed.

Lemma digits_graphic text : digits text -> Forall graphic text.
Proof.
  intros Hd. eapply Forall_impl; [exact Hd|]. intros b Hb%is_digit_value. unfold graphic. lia.
Qed.

Lemma hub_graphic h port : host h -> digits port -> Forall graphic (h ++ 58 :: port).
Proof.
  intros Hh Hd. apply Forall_app. split; [by apply host_graphic|].
  constructor; [unfold graphic; lia|by apply digits_graphic].
Qed.

Lemma hub_graphic' text : hub_text text -> Forall graphic text.
Proof. intros (h & port & -> & Hh & Hd & _). by apply hub_graphic. Qed.

Lemma valid_address_spec a :
  valid_address a = true
  <-> terminated a DECK_COMPANION_HUB_ADDRESS_CAPACITY = true /\ hub_text (c_string a).
Proof.
  unfold valid_address, hub_text. split.
  - destruct (safe_ascii _ _ _) eqn:Hs; [|done]. apply safe_ascii_spec in Hs as (Ht & _ & _). cbn [negb].
    destruct (address_parts a) as [[[[hb he] pb] ipv6]|] eqn:Hp; [|done]. apply address_parts_sound in Hp.
    destruct (parts_slices _ _ _ _ _ Hp) as (h & inner & rest & E & E1 & E2 & Epb & Hle & Hn & Eh).
    destruct (Nat.leb_spec (strlen a) pb) as [|Hpb]; [done|].
    rewrite slice_c_string by (exact Hle). rewrite (slice_c_string a pb) by lia.
    unfold strlen in *. rewrite E1, E2. destruct (forallb _ _) eqn:Hf; [|done]. cbn [negb].
    apply forallb_Forall in Hf. destruct (port_digits rest 0) as [p|] eqn:Hport; [|done].
    apply port_digits_spec in Hport as (Hd & -> & Hmax); [|lia]. intros Hnz. bool_prop.
    split; [done|]. exists h, rest. split_and!; try done.
    + subst h. destruct ipv6; by constructor.
    + pose proof (decimal_from_ge rest 0 ltac:(lia) Hd). change (decimal rest) with (decimal_from 0 rest). lia.
  - intros (Ht & h & port & E & Hh & Hd & Hport).
    rewrite (proj2 (safe_ascii_spec a _)).
    2: { split; [done|]. rewrite E. split; [by destruct h|by apply hub_graphic]. }
    cbn [negb]. destruct (host_parts h port Hh Hd) as (hb & he & ipv6 & Hp & Hf). rewrite <- E in Hp, Hf.
    rewrite (address_parts_complete _ _ _ _ _ Hp).
    destruct (parts_slices _ _ _ _ _ Hp) as (h' & inner & rest & E1 & E2 & E3 & Epb & Hle & Hn & Eh).
    rewrite E in E1. assert (h' = h /\ rest = port) as [-> ->].
    { injection Epb as El. apply (f_equal (fun l => (take (length h) l, drop (length h) l))) in E1.
      rewrite take_app_length, drop_app_length, El, take_app_length, drop_app_length in E1. by simplify_eq. }
    assert (0 < length port)%nat as Hlp by (destruct port; [unfold decimal in Hport; simpl in Hport; lia|simpl; lia]).
    assert (strlen a = S (length h) + length port)%nat as Hsz by (unfold strlen; rewrite E, length_app; simpl; lia).
    rewrite (proj2 (Nat.leb_gt _ _)) by lia.
    rewrite slice_c_string by exact Hle. rewrite (slice_c_string a (S (length h))) by lia.
    rewrite (proj2 (forallb_Forall _ _) Hf). unfold strlen. rewrite E3. cbn [negb].
    rewrite (proj2 (port_digits_spec port 0 (decimal port) ltac:(lia))) by (split_and!; [done|done|lia]).
    apply negb_true_iff, Z.eqb_neq. lia.
Qed.

Lemma port_fold text v :
  0 <= v -> digits text -> decimal_from v text <= 65535 ->
  fold_left (fun port byte => u32 (port * 10 + (byte - ch_0))) text v = decimal_from v text.
Proof.
  intros Hv Hd. revert v Hv. induction Hd as [|b text Hb Hd IH]; intros v Hv Hle; [done|].
  apply is_digit_value in Hb. unfold decimal_from, ch_0 in *. cbn [fold_left] in *.
  pose proof (decimal_from_ge text (v * 10 + (b - 48)) ltac:(lia) Hd) as Hge.
  unfold decimal_from, ch_0 in Hge. rewrite u32_id by words. by apply IH; [lia|].
Qed.

Lemma address_port_spec a p :
  address_port a = Some p
  <-> terminated a DECK_COMPANION_HUB_ADDRESS_CAPACITY = true
      /\ exists h port, c_string a = h ++ 58 :: port /\ host h /\ digits port /\ decimal port = p
                        /\ 1 <= p <= 65535.
Proof.
  assert (forall h port, c_string a = h ++ 58 :: port -> digits port -> 1 <= decimal port <= 65535 ->
    u16 (fold_left (fun port byte => u32 (port * 10 + (byte - ch_0)))
           (c_string (drop (default 0%nat (strrchr a 58) + 1) a)) 0) = decimal port) as Hval.
  { intros h port E Hd Hp.
    assert (strrchr a 58 = Some (length h)) as ->.
    { apply strrchr_Some. exists h, port. split_and!; [done..|]. apply digits_not; [done|lia]. }
    cbn [default from_option]. unfold id. rewrite c_string_drop by (unfold strlen; rewrite E, length_app; simpl; lia).
    rewrite E. replace (h ++ 58 :: port) with ((h ++ [58]) ++ port) by by rewrite <- app_assoc.
    rewrite drop_app_length' by (rewrite length_app; simpl; lia).
    rewrite port_fold by (done || exact (proj2 Hp)). apply u16_id. words. }
  unfold address_port. destruct (valid_address a) eqn:Hv; cbn [negb].
  - apply valid_address_spec in Hv as (Ht & h & port & E & Hh & Hd & Hp).
    rewrite (Hval h port E Hd Hp). split.
    + intros [= <-]. split; [done|]. by exists h, port.
    + intros (_ & h' & port' & E' & _ & Hd' & <- & Hp'). f_equal. rewrite <- (Hval h port E Hd Hp).
      by rewrite (Hval h' port' E' Hd' Hp').
  - split; [done|]. intros (Ht & h & port & E & Hh & Hd & <- & Hp).
    rewrite (proj2 (valid_address_spec a)) in Hv; [done|]. split; [done|]. by exists h, port.
Qed.

(** *** Pairing addresses *)

Lemma span_digits_spec text ds rest :
  span_digits text = (ds, rest)
  <-> text = ds ++ rest /\ digits ds /\ (forall b, head rest = Some b -> is_digit b = false).
Proof.
  unfold digits. revert ds. induction text as [|b text IH]; intros ds; simpl.
  - split; [intros [= <- <-]; by split_and!|]. intros (E & _ & _). by destruct ds, rest.
  - destruct (is_digit b) eqn:Hb.
    + destruct (span_digits text) as [ds1 rest1]. split.
      * intros [= <- <-]. destruct (proj1 (IH ds1) eq_refl) as (-> & Hd & Hr).
        split_and!; [done|by constructor|done].
      * intros (E & Hd & Hr). destruct ds as [|c ds]; simplify_eq/=.
        -- exfalso. by rewrite (Hr b eq_refl) in Hb.
        -- apply Forall_cons in Hd as [_ Hd]. assert ((ds1, rest1) = (ds, rest)) as [= -> ->]; [|done].
           by apply IH.
    + split.
      * intros [= <- <-]. split_and!; [done|constructor|]. by intros ? [= <-].
      * intros (E & Hd & Hr). destruct ds as [|c ds]; simplify_eq/=; [done|].
        apply Forall_cons in Hd as [Hd _]. congruence.
Qed.

Lemma graphic_no_space text : Forall graphic text -> skip_space text = text.
Proof.
  destruct 1 as [|b text Hb _]; [done|]. simpl. unfold graphic, is_space in *.
  destruct (_ || _) eqn:E; [|done]. bool_cases; lia.
Qed.

(** The value [scan_unsigned] reads from digits behind an optional sign. *)
Definition signed_value (negative : bool) (ds : bytes) : Z :=
  if U32_MAX <? decimal ds then U32_MAX else if negative then u32 (- decimal ds) else decimal ds.

Lemma scan_unsigned_spec text v rest :
  Forall graphic text ->
  scan_unsigned text = Some (v, rest) <->
  exists sign negative ds, text = sign ++ ds ++ rest /\ ds <> [] /\ digits ds
    /\ (forall b, head rest = Some b -> is_digit b = false)
    /\ (sign = [] /\ negative = false \/ sign = [ch_minus] /\ negative = true
        \/ sign = [ch_plus] /\ negative = false)
    /\ v = signed_value negative ds.
Proof.
  intros Hg. unfold scan_unsigned. rewrite graphic_no_space by done.
  assert (forall negative input,
    match span_digits input with
    | ([], _) => None
    | (ds, rest) => Some (signed_value negative ds, rest)
    end = Some (v, rest)
    <-> exists ds, input = ds ++ rest /\ ds <> [] /\ digits ds
          /\ (forall b, head rest = Some b -> is_digit b = false) /\ v = signed_value negative ds) as Hs.
  { intros negative input. destruct (span_digits input) as [ds r] eqn:E. split.
    - destruct ds; [done|]. intros [= <- <-]. apply span_digits_spec in E as (-> & Hd & Hr).
      by eexists.
    - intros (ds' & -> & Hn & Hd & Hr & ->).
      rewrite (proj2 (span_digits_spec _ ds' rest)) in E by done. injection E as <- <-. by destruct ds'. }
  unfold signed_value in Hs at 1. destruct text as [|b text].
  { split; [done|]. intros (sign & negative & ds & E & Hn & _).
    destruct sign; [|done]. by destruct ds. }
  destruct (Z.eqb_spec b ch_minus) as [->|Hm]; [|destruct (Z.eqb_spec b ch_plus) as [->|Hp]].
  - rewrite (Hs true). split.
    + intros (ds & -> & ?). exists [ch_minus], true, ds. naive_solver.
    + intros (sign & negative & ds & E & Hn & Hd & Hr & Hsign & ->).
      destruct Hsign as [[-> ->]|[[-> ->]|[-> ->]]]; simplify_eq/=; [|by exists ds].
      destruct ds as [|c ds]; [done|]. simplify_eq/=. by inversion_clear Hd.
  - rewrite (Hs false). split.
    + intros (ds & -> & ?). exists [ch_plus], false, ds. naive_solver.
    + intros (sign & negative & ds & E & Hn & Hd & Hr & Hsign & ->).
      destruct Hsign as [[-> ->]|[[-> ->]|[-> ->]]]; simplify_eq/=; [|by exists ds].
      destruct ds as [|c ds]; [done|]. simplify_eq/=. by inversion_clear Hd.
  - rewrite (Hs false). split.
    + intros (ds & -> & ?). exists [], false, ds. naive_solver.
    + intros (sign & negative & ds & E & Hn & Hd & Hr & Hsign & ->).
      destruct Hsign as [[-> ->]|[[-> ->]|[-> ->]]]; simplify_eq/=. by exists ds.
Qed.

Definition setup_prefix : bytes := literal "192.168.4.".

(** The last octet of a pairing address: a number from 2 to 254, or, with a
    minus sign, one that is congruent to such a number. *)
Definition octet (text : bytes) (v : Z) : Prop :=
  exists ds, ds <> [] /\ digits ds /\
    (text = ds /\ v = decimal ds
     \/ text = ch_minus :: ds /\ decimal ds <= U32_MAX /\ v = u32 (- decimal ds)).

Definition pairing_text (text : bytes) (p : Z) : Prop :=
  exists last port, text = setup_prefix ++ last ++ 58 :: port
    /\ (exists v, octet last v /\ 2 <= v <= 254) /\ digits port /\ decimal port = p /\ 1 <= p <= 65535.

Lemma scan_port port : port <> [] -> digits port -> exists v, scan_unsigned port = Some (v, []).
Proof.
  intros Hn Hd. exists (signed_value false port). apply scan_unsigned_spec; [by apply digits_graphic|].
  exists [], false, port. rewrite app_nil_r. by split_and!; auto.
Qed.

Lemma unique_split (ch : Z) x rest lead port :
  x ++ ch :: rest = lead ++ ch :: port -> ch ∉ lead -> ch ∉ port -> x = lead /\ rest = port.
Proof.
  revert x. induction lead as [|c lead IH]; intros x E Hl Hp.
  - destruct x as [|d x]; simplify_eq/=; [done|]. exfalso. apply Hp. set_solver.
  - destruct x as [|d x]; simplify_eq/=; [exfalso; set_solver|].
    destruct (IH x) as [-> ->]; [done|set_solver|done|done].
Qed.

(** Reading a setup address with the port known. *)
Lemma scan_pairing_port a lead port v :
  c_string a = setup_prefix ++ lead ++ 58 :: port -> Forall graphic (c_string a) ->
  port <> [] -> digits port -> 58 ∉ lead ->
  scan_pairing_address a = (1, v, strlen a) <->
    exists sign negative ds, lead = sign ++ ds /\ ds <> [] /\ digits ds
      /\ (sign = [] /\ negative = false \/ sign = [ch_minus] /\ negative = true
          \/ sign = [ch_plus] /\ negative = false)
      /\ v = signed_value negative ds.
Proof.
  intros E Hg Hn Hd Hc. unfold scan_pairing_address, strlen. rewrite E.
  change (literal "192.168.4.") with setup_prefix. rewrite take_app_length, bool_decide_eq_true_2 by done.
  rewrite drop_app_length. cbn [negb].
  assert (Forall graphic (lead ++ 58 :: port)) as Hg' by (rewrite E in Hg; by apply Forall_app in Hg as [_ ?]).
  assert (58 ∉ port) as Hc' by (apply digits_not; [done|lia]).
  destruct (scan_port port Hn Hd) as [p Hp]. split.
  - destruct (scan_unsigned (lead ++ 58 :: port)) as [[o rest]|] eqn:Es; [|done].
    destruct rest as [|b rest]; [done|].
    destruct (Z.eqb_spec b 58) as [->|Hb]; cbn [negb]; [|done].
    apply scan_unsigned_spec in Es as (sign & negative & ds & El & Hds & Hdd & _ & Hsign & ->); [|done].
    rewrite app_assoc in El. symmetry in El. apply unique_split in El as [<- ->]; [|done..].
    rewrite Hp. intros [= <-]. by exists sign, negative, ds.
  - intros (sign & negative & ds & El & Hds & Hdd & Hsign & ->).
    rewrite (proj2 (scan_unsigned_spec _ (signed_value negative ds) (58 :: port) Hg')).
    + cbn [Z.eqb negb]. rewrite Hp. cbn [length]. by rewrite Nat.sub_0_r.
    + exists sign, negative, ds. rewrite El, <- app_assoc. split_and!; try done. by intros ? [= <-].
Qed.

Lemma setup_prefix_plain : Forall (host_character false) setup_prefix.
Proof. apply Forall_forall. intros b Hb. unfold host_character. revert b Hb. apply Forall_forall. by repeat constructor. Qed.

Lemma octet_host text v : octet text v -> Forall (host_character false) text /\ text <> [].
Proof.
  intros (ds & Hn & Hd & Ht). assert (Forall (host_character false) ds) as Hh.
  { eapply Forall_impl; [exact Hd|]. intros b Hb. unfold host_character, valid_host_character.
    by rewrite Hb, orb_true_r. }
  destruct Ht as [[-> _]|[-> _]]; [done|]. split; [|done]. by constructor.
Qed.

(** The host of an address that starts like a setup address. *)
Lemma setup_host a h port :
  c_string a = h ++ 58 :: port -> host h -> take (length setup_prefix) (c_string a) = setup_prefix ->
  exists lead, h = setup_prefix ++ lead /\ Forall (host_character false) lead.
Proof.
  intros E Hh Hpre. assert (take (length setup_prefix) h = setup_prefix) as E2.
  { rewrite E in Hpre. destruct (decide (length setup_prefix <= length h)%nat) as [Hl|Hl].
    - by rewrite take_app_le in Hpre.
    - exfalso. rewrite take_app_ge in Hpre by lia.
      apply (hosts_not false setup_prefix 58 setup_prefix_plain); [auto|]. rewrite <- Hpre.
      destruct (length setup_prefix - length h)%nat eqn:El; [lia|]. set_solver. }
  exists (drop (length setup_prefix) h). split; [by rewrite <- E2 at 1; rewrite take_drop|].
  destruct Hh as [h _ Hf|h _ _]; [by apply Forall_drop|]. done.
Qed.

Lemma signed_octet sign negative ds v :
  ds <> [] -> digits ds ->
  sign = [] /\ negative = false \/ sign = [ch_minus] /\ negative = true ->
  v = signed_value negative ds -> v <= 254 -> octet (sign ++ ds) v.
Proof.
  intros Hn Hd Hs -> Hv. exists ds. split_and!; [done..|]. revert Hv. unfold signed_value.
  destruct (Z.ltb_spec U32_MAX (decimal ds)); [lia|].
  destruct Hs as [[-> ->]|[-> ->]]; simpl; auto.
Qed.

Lemma octet_signed text v :
  octet text v -> v <= 254 ->
  exists sign negative ds, text = sign ++ ds /\ ds <> [] /\ digits ds
    /\ (sign = [] /\ negative = false \/ sign = [ch_minus] /\ negative = true
        \/ sign = [ch_plus] /\ negative = false)
    /\ v = signed_value negative ds.
Proof.
  intros (ds & Hn & Hd & [[-> ->]|(-> & Hm & ->)]) Hv.
  - exists [], false, ds. split_and!; auto. unfold signed_value.
    by rewrite (proj2 (Z.ltb_ge _ _)) by lia.
  - exists [ch_minus], true, ds. split_and!; auto. unfold signed_value.
    by rewrite (proj2 (Z.ltb_ge _ _)) by lia.
Qed.

Lemma valid_pairing_address_spec a p :
  valid_pairing_address a p = true
  <-> terminated a DECK_COMPANION_HUB_ADDRESS_CAPACITY = true /\ pairing_text (c_string a) p.
Proof.
  unfold valid_pairing_address, pairing_text. split.
  - destruct (address_port a) as [q|] eqn:Ha; [|done].
    apply address_port_spec in Ha as (Ht & h & port & E & Hh & Hd & <- & Hq).
    destruct (Z.eqb_spec (decimal port) p) as [<-|]; [|done]. cbn [negb].
    destruct (scan_pairing_address a) as [[m o] c] eqn:Es. intros Hv. bool_prop. subst m c.
    assert (take (length setup_prefix) (c_string a) = setup_prefix) as Hpre.
    { unfold scan_pairing_address in Es. case_bool_decide; [done|]. by simplify_eq/=. }
    assert (Forall graphic (c_string a)) as Hg by (rewrite E; by apply hub_graphic).
    destruct (setup_host a h port E Hh Hpre) as (lead & -> & Hf). rewrite <- app_assoc in E.
    assert (port <> []) by (intros ->; unfold decimal in Hq; simpl in Hq; lia).
    apply (scan_pairing_port a lead port) in Es as (sign & negative & ds & -> & Hds & Hdd & Hsign & Ho);
      [|done..|by eapply hosts_not; [exact Hf|auto]].
    split; [done|]. exists (sign ++ ds), port. split_and!; try done; try lia.
    exists o. split; [|done]. eapply signed_octet; [done..| |exact Ho|done].
    destruct Hsign as [?|[?|[-> ->]]]; auto. by inversion_clear Hf.
  - intros (Ht & last & port & E & (v & Ho & Hv) & Hd & <- & Hp).
    assert (c_string a = (setup_prefix ++ last) ++ 58 :: port) as E' by by rewrite <- app_assoc.
    assert (host (setup_prefix ++ last)) as Hh.
    { constructor; [done|]. apply Forall_app. split; [apply setup_prefix_plain|by eapply octet_host]. }
    rewrite (proj2 (address_port_spec a (decimal port)))
      by (split; [done|]; by exists (setup_prefix ++ last), port).
    rewrite Z.eqb_refl. cbn [negb].
    assert (port <> []) by (intros ->; unfold decimal in Hp; simpl in Hp; lia).
    rewrite (proj2 (scan_pairing_port a last port v E ltac:(rewrite E'; by apply hub_graphic) ltac:(done) Hd
      ltac:(eapply hosts_not; [by eapply octet_host|auto])) (octet_signed _ _ Ho ltac:(lia))).
    rewrite !Z.eqb_refl, Nat.eqb_refl. unfold strlen. rewrite E.
    destruct (setup_prefix ++ last ++ 58 :: port) eqn:En; [by destruct last|]. cbn [length Nat.ltb Nat.leb andb].
    apply andb_true_iff. split; apply Z.leb_le; lia.
Qed.

Lemma valid_code_spec code :
  valid_code code = true
  <-> terminated code DECK_COMPANION_PAIRING_CODE_CAPACITY = true
      /\ length (c_string code) = 6%nat /\ digits (c_string code).
Proof.
  unfold valid_code, digits. destruct (terminated code _); cbn [negb orb]; [|naive_solver].
  change (DECK_COMPANION_PAIRING_CODE_CAPACITY - 1)%nat with 6%nat. fold (strlen code).
  destruct (Nat.eqb_spec (strlen code) 6) as [E|E]; cbn [negb]; [|naive_solver].
  assert (take 6 code = c_string code) as -> by by rewrite c_string_prefix, E.
  rewrite forallb_Forall. naive_solver.
Qed.

(** The validators of what a setup page submits decide these grammars: a
    hub address is a host name, an IPv4 address or a bracketed IPv6 address,
    a colon and a port from 1 to 65535 with no overflow however many leading
    zeros it has; its port is the number that is written; a pairing address
    is a hub address on the expected port whose host is the setup network's
    prefix and a last octet from 2 to 254 (or its two's complement behind a
    minus sign, which the [%u] conversion also reads); a code has six
    digits. *)
Theorem validators_decide_grammars :
  (forall address, valid_address address = true
     <-> terminated address DECK_COMPANION_HUB_ADDRESS_CAPACITY = true /\ hub_text (c_string address))
  /\ (forall address p, address_port address = Some p
     <-> terminated address DECK_COMPANION_HUB_ADDRESS_CAPACITY = true
         /\ exists h port, c_string address = h ++ 58 :: port /\ host h /\ digits port
              /\ decimal port = p /\ 1 <= p <= 65535)
  /\ (forall address p, valid_pairing_address address p = true
     <-> terminated address DECK_COMPANION_HUB_ADDRESS_CAPACITY = true
         /\ pairing_text (c_string address) p)
  /\ (forall code, valid_code code = true
     <-> terminated code DECK_COMPANION_PAIRING_CODE_CAPACITY = true
         /\ length (c_string code) = 6%nat /\ digits (c_string code)).
Proof.
  split_and!; intros;
    [apply valid_address_spec|apply address_port_spec|apply valid_pairing_address_spec|apply valid_code_spec].
Qed.

(** A pairing address that is no address: the [%u] conversion reads the
    signed octet as 5. *)
Lemma signed_octet_accepted :
  valid_pairing_address
    (pad DECK_COMPANION_HUB_ADDRESS_CAPACITY (literal "192.168.4.-4294967291:8443")) 8443 = true.
Proof. vm_compute. reflexivity. Qed.
