(* ===== verification/ProfileSet.v ===== *)
(** * The stored set of Companion profiles

    [components/companion_profiles/deck_companion_profiles.cpp]: the stored
    set, its validity and its codec, whose round trip is proved here. *)

From S2P Require Import Prelude Codec CString TransactionStore ProfileText.

Record StoredProfile := {
  profile_version : Z;
  profile_id : bytes;
  display_name : bytes;
  hub_address : bytes;
  token : bytes;
  certificate_fingerprint : bytes;
  certificate_der_size : Z;
  certificate_der : bytes;
  priority : Z;
  last_success_unix_ms : Z;
}.

#[export] Instance profile_rebuild : Rebuild StoredProfile := fun p =>
  {| profile_version := profile_version p; profile_id := profile_id p; display_name := display_name p;
     hub_address := hub_address p; token := token p;
     certificate_fingerprint := certificate_fingerprint p;
     certificate_der_size := certificate_der_size p; certificate_der := certificate_der p;
     priority := priority p; last_success_unix_ms := last_success_unix_ms p |}.

(** [profiles] has [DECK_COMPANION_MAX_PROFILES] elements. *)
Record StoredSet := { count : Z; active_index : Z; profiles : list StoredProfile }.

#[export] Instance set_rebuild : Rebuild StoredSet := fun s =>
  {| count := count s; active_index := active_index s; profiles := profiles s |}.

(** [StoredProfile{}] and [StoredSet{}] *)
Definition empty_profile : StoredProfile := {|
  profile_version := 0;
  profile_id := replicate DECK_COMPANION_PROFILE_ID_CAPACITY 0;
  display_name := replicate DECK_COMPANION_DISPLAY_NAME_CAPACITY 0;
  hub_address := replicate DECK_COMPANION_HUB_ADDRESS_CAPACITY 0;
  token := replicate DECK_COMPANION_TOKEN_CAPACITY 0;
  certificate_fingerprint := replicate DECK_COMPANION_FINGERPRINT_CAPACITY 0;
  certificate_der_size := 0;
  certificate_der := replicate DECK_COMPANION_CERTIFICATE_DER_CAPACITY 0;
  priority := 0;
  last_success_unix_ms := 0;
|}.

Definition empty_set : StoredSet :=
  {| count := 0; active_index := 0; profiles := replicate DECK_COMPANION_MAX_PROFILES empty_profile |}.

(** [set.profiles[index]], inside the array *)
Definition profile_at (set : StoredSet) (index : nat) : StoredProfile :=
  default empty_profile (profiles set !! index).

Definition valid_profile (profile : StoredProfile) : bool :=
  (profile_version profile =? DECK_COMPANION_PROFILE_VERSION)
  && valid_fingerprint (profile_id profile)
  && safe_ascii (display_name profile) DECK_COMPANION_DISPLAY_NAME_CAPACITY false
  && valid_address (hub_address profile)
  && terminated (token profile) DECK_COMPANION_TOKEN_CAPACITY
  && valid_base64url (token profile) 43
  && valid_fingerprint (certificate_fingerprint profile)
  && negb (certificate_der_size profile =? 0)
  && (certificate_der_size profile <=? Z.of_nat DECK_COMPANION_CERTIFICATE_DER_CAPACITY)
  && strcmp_eq (profile_id profile) (certificate_fingerprint profile).

(** The inner loop compares with every profile before. *)
Definition valid_set (set : StoredSet) : bool :=
  if (Z.of_nat DECK_COMPANION_MAX_PROFILES <? count set)
     || ((count set =? 0) && negb (active_index set =? kNoActiveProfile))
     || (negb (count set =? 0) && (count set <=? active_index set)) then false
  else
    forallb (fun index =>
      valid_profile (profile_at set index)
      && forallb (fun other =>
           negb (strcmp_eq (profile_id (profile_at set index)) (profile_id (profile_at set other))))
         (seq 0 index))
      (seq 0 (Z.to_nat (count set))).

(** ** The codec

    [output] is what has been written so far; [None] is a failure. *)

Definition append_string (output : bytes) (capacity : nat) (value : bytes) (value_capacity : nat) :
    option bytes :=
  if negb (terminated value value_capacity) then None
  else
    let size := strlen value in
    if (255 <? size)%nat || (capacity <? length output + 1 + size)%nat then None
    else Some (output ++ [u8 (Z.of_nat size)] ++ take size value).

(** The string and the next offset. *)
Definition read_string (input : bytes) (offset : nat) (value : bytes) (capacity : nat) :
    option (bytes * nat) :=
  if (length input <=? offset)%nat then None
  else
    let value_size := Z.to_nat input.[offset] in
    let offset := (offset + 1)%nat in
    if (capacity <=? value_size)%nat || (length input <? offset + value_size)%nat then None
    else Some (write_at value 0 (slice offset value_size input ++ [0]), (offset + value_size)%nat).

Definition append_bytes (output : bytes) (capacity : nat) (value : bytes) (value_size : nat) :
    option bytes :=
  if (value_size =? 0)%nat || (65535 <? Z.of_nat value_size)
     || (capacity <? length output + 2 + value_size)%nat then None
  else Some (output ++ LE.write_u16 (u16 (Z.of_nat value_size)) ++ take value_size value).

Definition read_bytes (input : bytes) (offset : nat) (value : bytes) (capacity : nat) :
    option (bytes * Z * nat) :=
  if (length input <? offset + 2)%nat then None
  else
    let decoded_size := LE.read_u16 (drop offset input) in
    let offset := (offset + 2)%nat in
    if (decoded_size =? 0) || (Z.of_nat capacity <? decoded_size)
       || (length input <? offset + Z.to_nat decoded_size)%nat then None
    else Some (write_at value 0 (slice offset (Z.to_nat decoded_size) input), decoded_size,
               (offset + Z.to_nat decoded_size)%nat).

Definition encode_profile (capacity : nat) (output : bytes) (profile : StoredProfile) : option bytes :=
  if (capacity <? length output + 13)%nat then None
  else
    let output := output ++ [profile_version profile] ++ LE.write_u32 (u32 (priority profile))
                    ++ LE.write_u64 (last_success_unix_ms profile) in
    output ← append_string output capacity (profile_id profile) DECK_COMPANION_PROFILE_ID_CAPACITY;
    output ← append_string output capacity (display_name profile) DECK_COMPANION_DISPLAY_NAME_CAPACITY;
    output ← append_string output capacity (hub_address profile) DECK_COMPANION_HUB_ADDRESS_CAPACITY;
    output ← append_string output capacity (token profile) DECK_COMPANION_TOKEN_CAPACITY;
    output ← append_string output capacity (certificate_fingerprint profile)
               DECK_COMPANION_FINGERPRINT_CAPACITY;
    append_bytes output capacity (certificate_der profile) (Z.to_nat (certificate_der_size profile)).

Fixpoint encode_profiles (capacity : nat) (output : bytes) (l : list StoredProfile) : option bytes :=
  match l with
  | [] => Some output
  | profile :: l => output ← encode_profile capacity output profile; encode_profiles capacity output l
  end.

(** The bytes written; empty for 0. *)
Definition encode_set (set : StoredSet) (capacity : nat) : bytes :=
  if (capacity <? 2)%nat || negb (valid_set set) then []
  else default [] (encode_profiles capacity [count set; active_index set]
                     (map (profile_at set) (seq 0 (Z.to_nat (count set))))).

Definition decode_profile (input : bytes) (offset : nat) (profile : StoredProfile) :
    option (StoredProfile * nat) :=
  if (length input <? offset + 13)%nat then None
  else
    let version := u8 input.[offset] in
    let weight := i32 (LE.read_u32 (drop (offset + 1) input)) in
    let success := LE.read_u64 (drop (offset + 5) input) in
    '(id, offset) ← read_string input (offset + 13) (profile_id profile) DECK_COMPANION_PROFILE_ID_CAPACITY;
    '(name, offset) ← read_string input offset (display_name profile) DECK_COMPANION_DISPLAY_NAME_CAPACITY;
    '(address, offset) ← read_string input offset (hub_address profile) DECK_COMPANION_HUB_ADDRESS_CAPACITY;
    '(secret, offset) ← read_string input offset (token profile) DECK_COMPANION_TOKEN_CAPACITY;
    '(fingerprint, offset) ← read_string input offset (certificate_fingerprint profile)
                               DECK_COMPANION_FINGERPRINT_CAPACITY;
    '(der, der_size, offset) ← read_bytes input offset (certificate_der profile)
                                 DECK_COMPANION_CERTIFICATE_DER_CAPACITY;
    Some ({| profile_version := version; profile_id := id; display_name := name; hub_address := address;
             token := secret; certificate_fingerprint := fingerprint; certificate_der_size := der_size;
             certificate_der := der; priority := weight; last_success_unix_ms := success |}, offset).

(** The profiles the loop fills in, and the final offset. *)
Fixpoint decode_profiles (input : bytes) (offset : nat) (l : list StoredProfile) (todo : nat) :
    option (list StoredProfile * nat) :=
  match todo, l with
  | S todo, profile :: l =>
      '(profile, offset) ← decode_profile input offset profile;
      '(l, offset) ← decode_profiles input offset l todo;
      Some (profile :: l, offset)
  | _, _ => Some (l, offset)
  end.

(** [None] is [false]: every caller then discards [*set]. *)
Definition decode_set (input : bytes) : option StoredSet :=
  if (length input <? 2)%nat then None
  else
    let n := u8 input.[0] in
    let active := u8 input.[1] in
    if Z.of_nat DECK_COMPANION_MAX_PROFILES <? n then None
    else
      '(l, offset) ← decode_profiles input 2 (profiles empty_set) (Z.to_nat n);
      let set := {| count := n; active_index := active; profiles := l |} in
      if (offset =? length input)%nat && valid_set set then Some set else None.

(** The scratch set of the code is allocated. *)
Definition validate_payload (payload : bytes) : bool :=
  match decode_set payload with Some _ => true | None => false end.

(** ** What the stored set says *)

(** A profile as texts: what its arrays hold. *)
Record profile := {
  id : bytes;
  name : bytes;
  address : bytes;
  secret : bytes;
  certificate : bytes;
  weight : Z;
  success : Z;
}.

#[export] Instance profile_eq_dec : EqDecision profile.
Proof. solve_decision. Defined.

Definition text_of (p : StoredProfile) : profile := {|
  id := c_string (profile_id p);
  name := c_string (display_name p);
  address := c_string (hub_address p);
  secret := c_string (token p);
  certificate := take (Z.to_nat (certificate_der_size p)) (certificate_der p);
  weight := priority p;
  success := last_success_unix_ms p;
|}.

(** The fields within their types. *)
Record stored_wf (p : StoredProfile) : Prop := {
  wf_version : is_u8 (profile_version p);
  wf_priority : is_i32 (priority p);
  wf_success : is_u64 (last_success_unix_ms p);
  wf_size : 0 <= certificate_der_size p;
  wf_der : length (certificate_der p) = DECK_COMPANION_CERTIFICATE_DER_CAPACITY;
  wf_id : length (profile_id p) = DECK_COMPANION_PROFILE_ID_CAPACITY;
  wf_fingerprint : length (certificate_fingerprint p) = DECK_COMPANION_FINGERPRINT_CAPACITY;
}.

(** The same texts in zero-filled arrays. *)
Definition canonical (p : StoredProfile) : StoredProfile := {|
  profile_version := profile_version p;
  profile_id := pad DECK_COMPANION_PROFILE_ID_CAPACITY (c_string (profile_id p));
  display_name := pad DECK_COMPANION_DISPLAY_NAME_CAPACITY (c_string (display_name p));
  hub_address := pad DECK_COMPANION_HUB_ADDRESS_CAPACITY (c_string (hub_address p));
  token := pad DECK_COMPANION_TOKEN_CAPACITY (c_string (token p));
  certificate_fingerprint :=
    pad DECK_COMPANION_FINGERPRINT_CAPACITY (c_string (certificate_fingerprint p));
  certificate_der_size := certificate_der_size p;
  certificate_der :=
    pad DECK_COMPANION_CERTIFICATE_DER_CAPACITY (take (Z.to_nat (certificate_der_size p)) (certificate_der p));
  priority := priority p;
  last_success_unix_ms := last_success_unix_ms p;
|}.

(** *** Strings and byte strings in the record *)

Definition string_bytes (value : bytes) : bytes := u8 (Z.of_nat (strlen value)) :: c_string value.

Lemma append_string_spec output capacity value value_capacity :
  terminated value value_capacity = true -> (value_capacity <= 256)%nat ->
  append_string output capacity value value_capacity
  = if (length output + 1 + strlen value <=? capacity)%nat then Some (output ++ string_bytes value) else None.
Proof.
  intros Ht Hc. unfold append_string, string_bytes. rewrite Ht. apply terminated_strlen in Ht. cbn [negb].
  rewrite <- c_string_prefix. rewrite (proj2 (Nat.ltb_ge _ _)) by lia. cbn [orb].
  destruct (Nat.ltb_spec capacity (length output + 1 + strlen value)%nat), (Nat.leb_spec (length output + 1 + strlen value)%nat capacity);
    done || lia.
Qed.

Lemma lookup_middle (a c : bytes) b : (a ++ b :: c).[length a] = b.
Proof. unfold byte_at. by rewrite lookup_app_r, Nat.sub_diag. Qed.

Lemma slice_middle (a b c : bytes) n m : n = length a -> m = length b -> slice n m (a ++ b ++ c) = b.
Proof. intros -> ->. rewrite slice_skip by done. by apply take_app_length. Qed.

Lemma write_at_terminated capacity text :
  (length text < capacity)%nat -> write_at (replicate capacity 0) 0 (text ++ [0]) = pad capacity text.
Proof.
  intros Hl. rewrite write_at_zeros. unfold pad. rewrite length_app. cbn [length].
  replace (capacity - length text)%nat with (S (capacity - (length text + 1))) by lia.
  cbn [replicate]. by rewrite <- app_assoc.
Qed.

Lemma read_string_spec output value rest capacity :
  (strlen value < capacity)%nat -> (capacity <= 256)%nat ->
  read_string (output ++ string_bytes value ++ rest) (length output) (replicate capacity 0) capacity
  = Some (pad capacity (c_string value), length (output ++ string_bytes value)).
Proof.
  intros Hs Hc. unfold read_string, string_bytes. rewrite !length_app. cbn [length app].
  rewrite (proj2 (Nat.leb_gt _ _)) by lia. rewrite lookup_middle.
  assert (Z.to_nat (u8 (Z.of_nat (strlen value))) = strlen value) as -> by words.
  fold (strlen value).
  rewrite (proj2 (Nat.leb_gt _ _)), (proj2 (Nat.ltb_ge _ _)) by lia. cbn [orb].
  replace (output ++ u8 (Z.of_nat (strlen value)) :: c_string value ++ rest)
    with ((output ++ [u8 (Z.of_nat (strlen value))]) ++ c_string value ++ rest) by by rewrite <- app_assoc.
  rewrite slice_middle by (try rewrite length_app; unfold strlen; simpl; lia).
  rewrite write_at_terminated by done. f_equal. f_equal. lia.
Qed.

Definition block_bytes (value : bytes) (size : nat) : bytes :=
  LE.write_u16 (u16 (Z.of_nat size)) ++ take size value.

Lemma append_bytes_spec output capacity value size :
  0 < Z.of_nat size <= 65535 ->
  append_bytes output capacity value size
  = if (length output + 2 + size <=? capacity)%nat then Some (output ++ block_bytes value size) else None.
Proof.
  intros Hs. unfold append_bytes, block_bytes.
  rewrite (proj2 (Nat.eqb_neq _ _)), (proj2 (Z.ltb_ge _ _)) by lia. cbn [orb].
  destruct (Nat.ltb_spec capacity (length output + 2 + size)), (Nat.leb_spec (length output + 2 + size) capacity);
    done || lia.
Qed.

Lemma read_bytes_spec output value size rest capacity :
  (0 < size <= capacity)%nat -> Z.of_nat capacity <= 65535 -> (size <= length value)%nat ->
  read_bytes (output ++ block_bytes value size ++ rest) (length output) (replicate capacity 0) capacity
  = Some (pad capacity (take size value), Z.of_nat size, length (output ++ block_bytes value size)).
Proof.
  intros Hs Hc Hl. unfold read_bytes, block_bytes. rewrite !length_app.
  change (length (LE.write_u16 (u16 (Z.of_nat size)))) with 2%nat. rewrite length_take.
  rewrite (proj2 (Nat.ltb_ge _ _)) by lia. rewrite drop_app_length, <- app_assoc.
  rewrite LEFacts.read_write_u16 by words. rewrite u16_id by words.
  rewrite (proj2 (Z.eqb_neq _ _)), (proj2 (Z.ltb_ge _ _)), (proj2 (Nat.ltb_ge _ _)) by lia. cbn [orb].
  rewrite Nat2Z.id, (app_assoc output), slice_middle;
    [|rewrite length_app; simpl; lia|rewrite length_take; lia].
  rewrite write_at_zeros. f_equal. f_equal. lia.
Qed.

(** *** Profiles in the record *)

Definition header_bytes (p : StoredProfile) : bytes :=
  [profile_version p] ++ LE.write_u32 (u32 (priority p)) ++ LE.write_u64 (last_success_unix_ms p).

Definition profile_bytes (p : StoredProfile) : bytes :=
  header_bytes p ++ string_bytes (profile_id p) ++ string_bytes (display_name p)
  ++ string_bytes (hub_address p) ++ string_bytes (token p) ++ string_bytes (certificate_fingerprint p)
  ++ block_bytes (certificate_der p) (Z.to_nat (certificate_der_size p)).

(** Every text fits its array. *)
Record texts_fit (p : StoredProfile) : Prop := {
  fit_id : terminated (profile_id p) DECK_COMPANION_PROFILE_ID_CAPACITY = true;
  fit_name : terminated (display_name p) DECK_COMPANION_DISPLAY_NAME_CAPACITY = true;
  fit_address : terminated (hub_address p) DECK_COMPANION_HUB_ADDRESS_CAPACITY = true;
  fit_token : terminated (token p) DECK_COMPANION_TOKEN_CAPACITY = true;
  fit_fingerprint : terminated (certificate_fingerprint p) DECK_COMPANION_FINGERPRINT_CAPACITY = true;
  fit_der : 0 < certificate_der_size p <= Z.of_nat DECK_COMPANION_CERTIFICATE_DER_CAPACITY;
}.

Ltac capacities :=
  unfold DECK_COMPANION_PROFILE_ID_CAPACITY, DECK_COMPANION_DISPLAY_NAME_CAPACITY,
    DECK_COMPANION_HUB_ADDRESS_CAPACITY, DECK_COMPANION_TOKEN_CAPACITY,
    DECK_COMPANION_FINGERPRINT_CAPACITY, DECK_COMPANION_CERTIFICATE_DER_CAPACITY in *.

(** The capacities stay numbers in binary. *)
Definition largest_profile : nat := (13 + 72 + 96 + 96 + 44 + 72 + 2 + 1024)%nat.

Lemma length_string_bytes v : length (string_bytes v) = S (strlen v).
Proof. reflexivity. Qed.

Lemma length_block_bytes v n : (n <= length v)%nat -> length (block_bytes v n) = (2 + n)%nat.
Proof. intros. unfold block_bytes. rewrite length_app, length_take. simpl. lia. Qed.

Lemma length_profile_bytes p :
  stored_wf p -> texts_fit p -> (length (profile_bytes p) <= largest_profile)%nat.
Proof.
  intros [_ _ _ _ Hd _ _] [H1 H2 H3 H4 H5 H6]. unfold profile_bytes.
  apply terminated_strlen in H1, H2, H3, H4, H5.
  rewrite !length_app, !length_string_bytes, length_block_bytes by lia.
  change (length (header_bytes p)) with 13%nat. unfold largest_profile. capacities. lia.
Qed.

Lemma encode_profile_spec capacity output p :
  stored_wf p -> texts_fit p -> (length output + largest_profile <= capacity)%nat ->
  encode_profile capacity output p = Some (output ++ profile_bytes p).
Proof.
  intros Hwf Hf Hc. pose proof (length_profile_bytes p Hwf Hf) as Hl. unfold profile_bytes in *.
  destruct Hwf as [_ _ _ _ Hd _ _], Hf as [H1 H2 H3 H4 H5 H6].
  rewrite !length_app, length_block_bytes in Hl by lia.
  assert (13 <= largest_profile)%nat by (unfold largest_profile; lia).
  unfold encode_profile. rewrite (proj2 (Nat.ltb_ge _ _)) by lia. fold (header_bytes p).
  change (length (header_bytes p)) with 13%nat in Hl. rewrite !length_string_bytes in Hl.
  assert (length (header_bytes p) = 13%nat) as Lh by done.
  do 5 (rewrite append_string_spec by (done || capacities; lia);
        rewrite ?length_app, ?length_string_bytes, ?Lh;
        rewrite (proj2 (Nat.leb_le _ _)) by lia; cbn [mbind option_bind]).
  rewrite append_bytes_spec by (capacities; lia). rewrite !length_app, !length_string_bytes, Lh.
  rewrite (proj2 (Nat.leb_le _ _)) by lia. by rewrite <- !app_assoc.
Qed.

Lemma decode_profile_header output p rest :
  stored_wf p ->
  let input := output ++ header_bytes p ++ rest in
  input.[length output] = profile_version p
  /\ i32 (LE.read_u32 (drop (length output + 1) input)) = priority p
  /\ LE.read_u64 (drop (length output + 5) input) = last_success_unix_ms p.
Proof.
  intros [Hv Hp Hs _ _ _ _] input. subst input. unfold header_bytes. rewrite <- !app_assoc. split_and!.
  - apply lookup_middle.
  - rewrite <- drop_drop, drop_app_length. change (drop 1 ([profile_version p] ++ ?l)) with l.
    rewrite LEFacts.read_write_u32 by words. words.
  - rewrite <- drop_drop, drop_app_length.
    change (drop 5 ([profile_version p] ++ LE.write_u32 (u32 (priority p)) ++ ?l)) with l.
    by apply LEFacts.read_write_u64.
Qed.

(** The readers on an input whose rest is known. *)
Lemma split_at (input : bytes) offset l :
  drop offset input = l -> l <> [] -> exists prefix, input = prefix ++ l /\ length prefix = offset.
Proof.
  intros Hd Hl. exists (take offset input). split; [by rewrite <- Hd, take_drop|].
  rewrite length_take. apply (f_equal length) in Hd. rewrite length_drop in Hd.
  destruct l; [done|]. simpl in Hd. lia.
Qed.

Lemma read_string_drop input value rest offset capacity :
  drop offset input = string_bytes value ++ rest ->
  terminated value capacity = true -> (capacity <= 256)%nat ->
  read_string input offset (replicate capacity 0) capacity
  = Some (pad capacity (c_string value), (offset + length (string_bytes value))%nat)
  /\ drop (offset + length (string_bytes value)) input = rest.
Proof.
  intros Hd Ht%terminated_strlen Hc. destruct (split_at _ _ _ Hd ltac:(done)) as (prefix & -> & <-).
  rewrite read_string_spec by done. rewrite length_app. split; [done|].
  by rewrite <- drop_drop, drop_app_length, drop_app_length.
Qed.

Lemma read_bytes_drop input value size rest offset capacity :
  drop offset input = block_bytes value size ++ rest ->
  (0 < size <= capacity)%nat -> Z.of_nat capacity <= 65535 -> (size <= length value)%nat ->
  read_bytes input offset (replicate capacity 0) capacity
  = Some (pad capacity (take size value), Z.of_nat size, (offset + length (block_bytes value size))%nat)
  /\ drop (offset + length (block_bytes value size)) input = rest.
Proof.
  intros Hd Hs Hc Hl. destruct (split_at _ _ _ Hd ltac:(done)) as (prefix & -> & <-).
  rewrite read_bytes_spec by done. rewrite length_app. split; [done|].
  by rewrite <- drop_drop, drop_app_length, drop_app_length.
Qed.

Lemma decode_profile_spec input offset p rest :
  stored_wf p -> texts_fit p -> drop offset input = profile_bytes p ++ rest ->
  decode_profile input offset empty_profile
  = Some (canonical p, (offset + length (profile_bytes p))%nat)
  /\ drop (offset + length (profile_bytes p)) input = rest.
Proof.
  intros Hwf [H1 H2 H3 H4 H5 H6] Hd. pose proof (wf_der _ Hwf) as Hder.
  unfold profile_bytes in Hd. rewrite <- !app_assoc in Hd.
  destruct (split_at _ _ _ Hd ltac:(done)) as (prefix & Hi & <-).
  match type of Hd with _ = header_bytes p ++ ?tail =>
    pose proof (decode_profile_header prefix p tail Hwf) as (Ev & Ep & Es) end.
  rewrite <- Hi in Ev, Ep, Es. unfold decode_profile. rewrite Ev, Ep, Es, (u8_id _ (wf_version _ Hwf)).
  rewrite (proj2 (Nat.ltb_ge (length input) _)) by (rewrite Hi, length_app; simpl; lia).
  assert (drop (length prefix + 13) input = drop 13 (drop (length prefix) input)) as E
    by by rewrite drop_drop.
  rewrite Hd in E. change (drop 13 (header_bytes p ++ ?l)) with l in E.
  change (replicate DECK_COMPANION_PROFILE_ID_CAPACITY 0) with (profile_id empty_profile).
  assert (DECK_COMPANION_PROFILE_ID_CAPACITY <= 256 /\ DECK_COMPANION_DISPLAY_NAME_CAPACITY <= 256
    /\ DECK_COMPANION_HUB_ADDRESS_CAPACITY <= 256 /\ DECK_COMPANION_TOKEN_CAPACITY <= 256
    /\ DECK_COMPANION_FINGERPRINT_CAPACITY <= 256)%nat as (C1 & C2 & C3 & C4 & C5)
    by (capacities; lia).
  cbn [profile_id display_name hub_address token certificate_fingerprint certificate_der empty_profile].
  destruct (read_string_drop _ _ _ _ _ E H1 C1) as [-> E1]. cbn [mbind option_bind].
  destruct (read_string_drop _ _ _ _ _ E1 H2 C2) as [-> E2]. cbn [mbind option_bind].
  destruct (read_string_drop _ _ _ _ _ E2 H3 C3) as [-> E3]. cbn [mbind option_bind].
  destruct (read_string_drop _ _ _ _ _ E3 H4 C4) as [-> E4]. cbn [mbind option_bind].
  destruct (read_string_drop _ _ _ _ _ E4 H5 C5) as [-> E5]. cbn [mbind option_bind].
  destruct (read_bytes_drop _ _ _ _ _ DECK_COMPANION_CERTIFICATE_DER_CAPACITY E5) as [-> E6];
    [lia|by capacities|lia|]. cbn [mbind option_bind].
  rewrite Z2Nat.id by lia. unfold profile_bytes.
  rewrite !length_app. change (length (header_bytes p)) with 13%nat.
  rewrite !Nat.add_assoc in *. split; [|exact E6]. done.
Qed.

(** ** Valid profiles and sets *)

Lemma fingerprint_terminated v capacity :
  length v = capacity -> capacity = 72%nat -> valid_fingerprint v = true -> terminated v capacity = true.
Proof.
  intros Hl Hc (hex & E & Hh & _)%valid_fingerprint_spec.
  assert (strlen v = 71%nat) by (unfold strlen; by rewrite E, length_app, Hh).
  apply strlen_terminated; lia.
Qed.

(** The texts of a valid profile. *)
Record profile_ok (p : profile) : Prop := {
  id_ok : fingerprint (id p);
  name_ok : name p <> [] /\ Forall graphic (name p) /\ (length (name p) < DECK_COMPANION_DISPLAY_NAME_CAPACITY)%nat;
  address_ok : hub_text (address p) /\ (length (address p) < DECK_COMPANION_HUB_ADDRESS_CAPACITY)%nat;
  secret_ok : length (secret p) = 43%nat /\ Forall (fun b => is_base64url b = true) (secret p);
  certificate_ok : (0 < length (certificate p) <= DECK_COMPANION_CERTIFICATE_DER_CAPACITY)%nat;
}.

Record profile_facts (p : StoredProfile) : Prop := {
  fact_version : profile_version p = DECK_COMPANION_PROFILE_VERSION;
  fact_fits : texts_fit p;
  fact_ok : profile_ok (text_of p);
  fact_same : c_string (certificate_fingerprint p) = c_string (profile_id p);
}.

Lemma valid_profile_spec p : stored_wf p -> valid_profile p = true <-> profile_facts p.
Proof.
  intros [_ _ _ Hsz Hder Hid Hfp]. unfold valid_profile. split.
  - intros Hv. bool_prop.
    match goal with H : strcmp_eq _ _ = true |- _ => unfold strcmp_eq in H; bool_prop; rename H into Hsame end.
    match goal with H : valid_fingerprint (profile_id p) = true |- _ => rename H into Hf1 end.
    match goal with H : valid_fingerprint (certificate_fingerprint p) = true |- _ => rename H into Hf2 end.
    match goal with H : safe_ascii _ _ _ = true |- _ => apply safe_ascii_spec in H as (Hnt & Hn & Hng) end.
    match goal with H : valid_address _ = true |- _ => apply valid_address_spec in H as (Hat & Ha) end.
    match goal with H : valid_base64url _ _ = true |- _ => apply valid_base64url_spec in H as (Htl & Ht) end.
    pose proof (fingerprint_terminated _ _ Hid eq_refl Hf1). pose proof (fingerprint_terminated _ _ Hfp eq_refl Hf2).
    apply valid_fingerprint_spec in Hf1. split; [done| | |done].
    + split; try done. lia.
    + split; unfold text_of; cbn [id name address secret certificate]; try done.
      * split_and!; try done. by apply terminated_strlen in Hnt.
      * split; [done|]. by apply terminated_strlen in Hat.
      * rewrite length_take, Hder. lia.
  - intros [Hv [H1 H2 H3 H4 H5 H6] [Hid' Hn Ha Hs _] Hsame]. unfold text_of in *. cbn [id name address secret] in *.
    rewrite Hv, Z.eqb_refl, H4. repeat (apply andb_true_iff; split); try done.
    + by apply valid_fingerprint_spec.
    + apply safe_ascii_spec. naive_solver.
    + apply valid_address_spec. naive_solver.
    + apply valid_base64url_spec. naive_solver.
    + apply valid_fingerprint_spec. by rewrite Hsame.
    + lia.
    + lia.
    + unfold strcmp_eq. by rewrite bool_decide_eq_true_2.
Qed.

Lemma canonical_texts p :
  texts_fit p -> stored_wf p ->
  c_string (profile_id (canonical p)) = c_string (profile_id p)
  /\ c_string (certificate_fingerprint (canonical p)) = c_string (certificate_fingerprint p)
  /\ text_of (canonical p) = text_of p /\ texts_fit (canonical p) /\ stored_wf (canonical p).
Proof.
  intros [H1 H2 H3 H4 H5 H6] [W1 W2 W3 W4 W5 W6 W7].
  apply terminated_strlen in H1, H2, H3, H4, H5.
  assert (forall c v, c_string (pad c (c_string v)) = c_string v) as Hs by (intros; apply c_string_pad, c_string_nonzero).
  assert (length (take (Z.to_nat (certificate_der_size p)) (certificate_der p))
          = Z.to_nat (certificate_der_size p)) as Hl by (rewrite length_take; lia).
  split_and!.
  - apply Hs.
  - apply Hs.
  - unfold text_of, canonical. cbn. rewrite !Hs. f_equal. unfold pad. rewrite take_app_le by lia.
    by rewrite take_take, Nat.min_id.
  - by split; simpl; try by apply terminated_pad.
  - split; simpl; try done; apply length_pad; unfold strlen in *; lia.
Qed.

Lemma canonical_valid p : stored_wf p -> valid_profile p = true -> valid_profile (canonical p) = true.
Proof.
  intros Hwf Hv. pose proof (proj1 (valid_profile_spec p Hwf) Hv) as [H1 H2 H3 H4].
  destruct (canonical_texts p H2 Hwf) as (E1 & E2 & E3 & Hf' & Hwf').
  apply valid_profile_spec; [done|]. split; [done|done|by rewrite E3|by rewrite E1, E2].
Qed.

(** *** Sets *)

(** The profiles in use. *)
Definition used (set : StoredSet) : list StoredProfile := take (Z.to_nat (count set)) (profiles set).

Record set_wf (set : StoredSet) : Prop := {
  wf_count : is_u8 (count set);
  wf_active : is_u8 (active_index set);
  wf_length : length (profiles set) = DECK_COMPANION_MAX_PROFILES;
  wf_profiles : Forall stored_wf (profiles set);
}.

(** The set as a book of profiles, one of them chosen unless it is empty. *)
Record book := { entries : list profile; chosen : option nat }.

#[export] Instance book_eq_dec : EqDecision book.
Proof. solve_decision. Defined.

Definition book_of (set : StoredSet) : book :=
  {| entries := map text_of (used set);
     chosen := if count set =? 0 then None else Some (Z.to_nat (active_index set)) |}.

Record book_ok (b : book) : Prop := {
  entries_ok : Forall profile_ok (entries b);
  ids_unique : NoDup (map id (entries b));
  entries_fit : (length (entries b) <= DECK_COMPANION_MAX_PROFILES)%nat;
  chosen_ok : match chosen b with
              | None => entries b = []
              | Some i => (i < length (entries b))%nat
              end;
}.

Definition canonical_set (set : StoredSet) : StoredSet :=
  {| count := count set; active_index := active_index set;
     profiles := map canonical (used set)
       ++ replicate (DECK_COMPANION_MAX_PROFILES - length (used set)) empty_profile |}.

Lemma length_used set :
  set_wf set -> count set <= Z.of_nat DECK_COMPANION_MAX_PROFILES -> length (used set) = Z.to_nat (count set).
Proof. intros [Hc _ Hl _] Hm. unfold used. rewrite length_take, Hl. words. Qed.

Lemma used_wf set : set_wf set -> Forall stored_wf (used set).
Proof. intros [_ _ _ Hw]. by apply Forall_take. Qed.

Lemma profile_at_used set i :
  (i < Z.to_nat (count set))%nat -> (i < length (profiles set))%nat ->
  used set !! i = Some (profile_at set i).
Proof.
  intros Hi Hl. unfold used, profile_at. rewrite lookup_take_lt by done.
  by destruct (lookup_lt_is_Some_2 _ _ Hl) as [p ->].
Qed.

Lemma used_map set :
  set_wf set -> count set <= Z.of_nat DECK_COMPANION_MAX_PROFILES ->
  map (profile_at set) (seq 0 (Z.to_nat (count set))) = used set.
Proof.
  intros Hwf Hm. pose proof (length_used set Hwf Hm) as Hl. pose proof (wf_length _ Hwf) as Hp.
  apply list_eq. intros i. change (@map) with (@List.map). rewrite list_lookup_fmap.
  destruct (decide (i < Z.to_nat (count set))%nat) as [Hi|Hi].
  - rewrite lookup_seq_lt by done. simpl. symmetry. apply profile_at_used; [done|]. rewrite Hp. words.
  - rewrite lookup_seq_ge by lia. symmetry. apply lookup_ge_None. lia.
Qed.

Lemma NoDup_ids (l : list StoredProfile) :
  (forall i j p q, (j < i)%nat -> l !! i = Some p -> l !! j = Some q ->
     c_string (profile_id p) <> c_string (profile_id q)) <->
  NoDup (map id (map text_of l)).
Proof.
  rewrite map_map, NoDup_alt. split.
  - intros Hd i j x Hi Hj. rewrite list_lookup_fmap in Hi, Hj.
    destruct (l !! i) as [p|] eqn:Ei; [|done]. destruct (l !! j) as [q|] eqn:Ej; [|done].
    simplify_eq/=. destruct (Nat.lt_trichotomy i j) as [Hlt|[?|Hlt]]; [|done|].
    + by destruct (Hd j i q p Hlt Ej Ei).
    + exfalso. by eapply (Hd i j p q Hlt Ei Ej).
  - intros Hd i j p q Hlt Ei Ej E. assert (i = j); [|lia].
    apply (Hd i j (c_string (profile_id p))); rewrite list_lookup_fmap, ?Ei, ?Ej; simpl; congruence.
Qed.

Lemma valid_set_spec set :
  set_wf set -> valid_set set = true <->
  count set <= Z.of_nat DECK_COMPANION_MAX_PROFILES
  /\ (if count set =? 0 then active_index set = kNoActiveProfile else active_index set < count set)
  /\ Forall profile_facts (used set) /\ NoDup (map id (map text_of (used set))).
Proof.
  intros Hwf. unfold valid_set.
  destruct (Z.ltb_spec (Z.of_nat DECK_COMPANION_MAX_PROFILES) (count set)) as [|Hm]; cbn [orb].
  { split; [done|]. intros [? _]. lia. }
  assert ((count set =? 0) && negb (active_index set =? kNoActiveProfile)
          || negb (count set =? 0) && (count set <=? active_index set) = false
    <-> (if count set =? 0 then active_index set = kNoActiveProfile else active_index set < count set)) as Hg.
  { destruct (count set =? 0); cbn [negb andb orb]; [rewrite orb_false_r, negb_false_iff; apply Z.eqb_eq|].
    apply Z.leb_gt. }
  destruct (_ || _); [split; [done|]; intros (_ & Hx & _); by apply Hg in Hx|].
  assert (Forall profile_facts (used set) <-> Forall (fun p => valid_profile p = true) (used set)) as Hv.
  { pose proof (used_wf set Hwf) as Hu. rewrite !Forall_forall. rewrite Forall_forall in Hu.
    split; intros Hx p Hp; specialize (Hx p Hp); by apply valid_profile_spec; [apply Hu|]. }
  rewrite Hv, <- NoDup_ids, forallb_Forall. pose proof (wf_length _ Hwf) as Hp.
  transitivity (Forall (fun i => valid_profile (profile_at set i) = true
    /\ forall j, (j < i)%nat -> c_string (profile_id (profile_at set i)) <> c_string (profile_id (profile_at set j)))
    (seq 0 (Z.to_nat (count set)))).
  { apply Forall_iff. intros i. rewrite andb_true_iff, forallb_Forall, Forall_forall.
    apply and_iff_compat_l. unfold strcmp_eq. split.
    - intros Hx j Hj. specialize (Hx j ltac:(apply elem_of_seq; lia)). by bool_prop.
    - intros Hx j Hj%elem_of_seq. rewrite bool_decide_eq_false_2; [done|]. apply Hx. lia. }
  assert (forall i, (i < Z.to_nat (count set))%nat -> used set !! i = Some (profile_at set i)) as Hat
    by (intros; apply profile_at_used; [done|rewrite Hp; lia]).
  rewrite Forall_forall. setoid_rewrite elem_of_seq. split.
  - intros Hx. split_and!; [done|by apply Hg| |].
    + apply Forall_lookup. intros i p Hi. pose proof (lookup_lt_Some _ _ _ Hi) as Hlt.
      rewrite length_used in Hlt by done. rewrite Hat in Hi by done. injection Hi as <-. apply Hx. lia.
    + intros i j p q Hlt Hi Hj. pose proof (lookup_lt_Some _ _ _ Hi) as Hlt'.
      rewrite length_used in Hlt' by done. rewrite Hat in Hi, Hj by lia. simplify_eq.
      apply Hx; lia.
  - intros (_ & _ & Hf & Hd) i Hi. split.
    + eapply Forall_lookup_1 in Hf; [exact Hf|]. apply Hat. lia.
    + intros j Hj. eapply (Hd i j); [done|apply Hat; lia..].
Qed.

Lemma valid_set_book set : set_wf set -> valid_set set = true -> book_ok (book_of set).
Proof.
  intros Hwf (Hm & Ha & Hf & Hd)%valid_set_spec; [|done]. pose proof (length_used set Hwf Hm) as Hl.
  pose proof (wf_active _ Hwf) as Hu. pose proof (wf_count _ Hwf) as Hc.
  split; unfold book_of; cbn [entries chosen].
  - apply Forall_map. eapply Forall_impl; [exact Hf|]. by intros p [].
  - done.
  - rewrite length_map. lia.
  - destruct (Z.eqb_spec (count set) 0) as [E|E].
    + rewrite E in Hl. by apply nil_length_inv in Hl as ->.
    + rewrite length_map, Hl. words.
Qed.

Lemma used_canonical set :
  set_wf set -> count set <= Z.of_nat DECK_COMPANION_MAX_PROFILES ->
  used (canonical_set set) = map canonical (used set).
Proof.
  intros Hwf Hm. unfold used at 1. cbn [count profiles canonical_set]. apply take_app_length'.
  by rewrite length_map, length_used.
Qed.

Lemma empty_profile_wf : stored_wf empty_profile.
Proof. by split. Qed.

Lemma canonical_set_ok set :
  set_wf set -> valid_set set = true ->
  set_wf (canonical_set set) /\ valid_set (canonical_set set) = true
  /\ book_of (canonical_set set) = book_of set.
Proof.
  intros Hwf Hv. pose proof (proj1 (valid_set_spec set Hwf) Hv) as (Hm & Ha & Hf & Hd).
  pose proof (length_used set Hwf Hm) as Hl. pose proof (used_wf set Hwf) as Hu.
  assert (map text_of (map canonical (used set)) = map text_of (used set)) as Ht.
  { rewrite map_map. apply map_ext_in. intros p Hp%list_elem_of_In. rewrite Forall_forall in Hf, Hu.
    apply canonical_texts; [by apply Hf|by apply Hu]. }
  assert (set_wf (canonical_set set)) as Hwf'.
  { destruct Hwf as [? ? _ _]. split; [done|done| |].
    - cbn [profiles canonical_set]. rewrite length_app, length_map, length_replicate.
      unfold DECK_COMPANION_MAX_PROFILES in *. words.
    - cbn [profiles canonical_set]. apply Forall_app. split.
      + apply Forall_map, Forall_forall. intros p Hp. rewrite Forall_forall in Hf, Hu.
        apply canonical_texts; [by apply Hf|by apply Hu].
      + apply Forall_replicate, empty_profile_wf. }
  split_and!; [done| |].
  - apply valid_set_spec; [done|]. rewrite used_canonical by done. rewrite Ht. split_and!; try done.
    apply Forall_map, Forall_forall. intros p Hp. rewrite Forall_forall in Hf, Hu.
    specialize (Hf p Hp). specialize (Hu p Hp).
    apply valid_profile_spec; [by apply canonical_texts; [apply Hf|]|].
    by apply canonical_valid; [|apply valid_profile_spec].
  - unfold book_of. rewrite used_canonical by done. by rewrite Ht.
Qed.

(** *** The record of a set *)

#[local] Opaque largest_profile profile_bytes.

Definition set_bytes (set : StoredSet) : bytes :=
  [count set; active_index set] ++ concat (map profile_bytes (used set)).

Lemma encode_profiles_spec l output capacity :
  Forall stored_wf l -> Forall texts_fit l ->
  (length output + length l * largest_profile <= capacity)%nat ->
  encode_profiles capacity output l = Some (output ++ concat (map profile_bytes l))
  /\ (length (output ++ concat (map profile_bytes l)) <= length output + length l * largest_profile)%nat.
Proof.
  revert output. induction l as [|p l IH]; intros output Hw Hf Hc; cbn [map concat encode_profiles length].
  { rewrite app_nil_r. split; [done|lia]. }
  apply Forall_cons in Hw as [Hw Hws], Hf as [Hf Hfs]. cbn [length] in Hc.
  pose proof (length_profile_bytes p Hw Hf) as Hl.
  rewrite encode_profile_spec by (done || lia). cbn [mbind option_bind].
  destruct (IH (output ++ profile_bytes p) Hws Hfs) as [-> Hle]; [rewrite length_app; lia|].
  rewrite <- app_assoc in *. rewrite !length_app in *. split; [done|]. lia.
Qed.

Lemma decode_profiles_spec l input offset rest k :
  Forall stored_wf l -> Forall texts_fit l -> drop offset input = concat (map profile_bytes l) ++ rest ->
  decode_profiles input offset (replicate (length l + k) empty_profile) (length l)
  = Some (map canonical l ++ replicate k empty_profile, (offset + length (concat (map profile_bytes l)))%nat).
Proof.
  revert offset. induction l as [|p l IH]; intros offset Hw Hf Hd; simpl.
  { rewrite Nat.add_0_r. by destruct k. }
  apply Forall_cons in Hw as [Hw Hws], Hf as [Hf Hfs]. cbn [map concat] in Hd. rewrite <- app_assoc in Hd.
  destruct (decode_profile_spec _ _ _ _ Hw Hf Hd) as [-> Hd']. cbn [mbind option_bind].
  rewrite (IH _ Hws Hfs Hd'). cbn [mbind option_bind]. rewrite length_app. do 2 f_equal. lia.
Qed.

Lemma encode_set_spec set capacity :
  set_wf set -> valid_set set = true ->
  (2 + DECK_COMPANION_MAX_PROFILES * largest_profile <= capacity)%nat ->
  encode_set set capacity = set_bytes set
  /\ (length (set_bytes set) <= 2 + DECK_COMPANION_MAX_PROFILES * largest_profile)%nat.
Proof.
  intros Hwf Hv Hc. pose proof (proj1 (valid_set_spec set Hwf) Hv) as (Hm & _ & Hf & _).
  unfold encode_set. rewrite Hv, (proj2 (Nat.ltb_ge _ _)) by lia. cbn [negb orb].
  rewrite used_map by done. pose proof (length_used set Hwf Hm) as Hl.
  assert (length (used set) * largest_profile <= DECK_COMPANION_MAX_PROFILES * largest_profile)%nat as Hle
    by (apply Nat.mul_le_mono_r; lia).
  destruct (encode_profiles_spec (used set) [count set; active_index set] capacity) as [-> Hlen].
  - by apply used_wf.
  - eapply Forall_impl; [exact Hf|]. by intros p [].
  - cbn [length]. lia.
  - split; [done|]. unfold set_bytes. cbn [length] in Hlen |- *. lia.
Qed.

Lemma decode_set_bytes set :
  set_wf set -> valid_set set = true -> decode_set (set_bytes set) = Some (canonical_set set).
Proof.
  intros Hwf Hv. pose proof (proj1 (valid_set_spec set Hwf) Hv) as (Hm & _ & Hf & _).
  pose proof (length_used set Hwf Hm) as Hl. pose proof (canonical_set_ok set Hwf Hv) as (_ & Hv' & _).
  unfold decode_set, set_bytes. cbn [app length Nat.ltb Nat.leb].
  change ((count set :: active_index set :: ?l).[0]) with (count set).
  change ((count set :: active_index set :: ?l).[1]) with (active_index set).
  rewrite (u8_id _ (wf_count _ Hwf)), (u8_id _ (wf_active _ Hwf)).
  rewrite (proj2 (Z.ltb_ge _ _)) by lia. cbn [profiles empty_set].
  replace DECK_COMPANION_MAX_PROFILES with (length (used set) + (DECK_COMPANION_MAX_PROFILES - length (used set)))%nat
    at 1 by lia.
  rewrite <- Hl, (decode_profiles_spec _ _ 2 []).
  - cbn [mbind option_bind length]. fold (canonical_set set). rewrite Hv', andb_true_r.
    by rewrite (proj2 (Nat.eqb_eq _ _)).
  - by apply used_wf.
  - eapply Forall_impl; [exact Hf|]. by intros p [].
  - by rewrite app_nil_r.
Qed.

(** *** What decoding gives *)

Lemma read_string_length input offset value capacity v offset' :
  length value = capacity -> read_string input offset value capacity = Some (v, offset') ->
  length v = capacity.
Proof.
  intros Hl. unfold read_string. destruct (_ <=? _)%nat; [done|]. destruct (_ || _) eqn:E; [done|].
  intros [= <- _]. bool_prop. rewrite length_write_at; [done|].
  rewrite length_app, length_slice by lia. simpl. lia.
Qed.

Lemma read_bytes_length input offset value capacity v size offset' :
  length value = capacity -> read_bytes input offset value capacity = Some (v, size, offset') ->
  length v = capacity /\ 0 <= size.
Proof.
  intros Hl. unfold read_bytes. destruct (_ <? _)%nat; [done|]. destruct (_ || _) eqn:E; [done|].
  intros [= <- <- _]. bool_prop.
  assert (0 <= LE.read_u16 (drop offset input)) by
    (unfold LE.read_u16; apply Z.lor_nonneg; split; apply u16_range).
  split; [|done]. rewrite length_write_at; [done|]. rewrite length_slice by lia. lia.
Qed.

Lemma read_u64_word input : is_u64 (LE.read_u64 input).
Proof.
  unfold LE.read_u64. assert (is_u64 0) as H0 by words. revert H0. generalize 0 as v.
  induction (seq 0 8) as [|i l IH]; intros v Hv; [done|]. cbn [fold_left]. apply IH.
  pose proof (u64_range (Z.shiftl (u64 input.[i]) (Z.of_nat i * 8))) as Hw.
  pose proof (lor_lt_pow2 v (u64 (Z.shiftl (u64 input.[i]) (Z.of_nat i * 8))) 64 ltac:(lia)) as Hlt.
  change (2 ^ 64) with 18446744073709551616 in Hlt. unfold is_u64 in *. lia.
Qed.

Lemma decode_profile_wf input offset p offset' :
  decode_profile input offset empty_profile = Some (p, offset') -> stored_wf p.
Proof.
  unfold decode_profile. destruct (_ <? _)%nat; [done|]. intros Hd.
  repeat match type of Hd with
  | (read_string ?i ?o ?v ?c ≫= _) = _ =>
      let E := fresh "E" in destruct (read_string i o v c) as [[? ?]|] eqn:E; [|done];
      apply read_string_length in E; [|done]; cbn [mbind option_bind] in Hd
  end.
  destruct (read_bytes _ _ _ _) as [[[der size] o]|] eqn:Eb; [|done].
  apply read_bytes_length in Eb as [Eb Hs]; [|done]. cbn [mbind option_bind] in Hd. injection Hd as <- _.
  split; cbn; try done; [apply u8_range|words|apply read_u64_word].
Qed.

Lemma decode_profiles_wf input l offset todo l' offset' :
  Forall (fun p => p = empty_profile) l -> decode_profiles input offset l todo = Some (l', offset') ->
  Forall stored_wf l' /\ length l' = length l.
Proof.
  intros Hl. revert offset todo l' offset'. induction Hl as [|p l -> Hl IH]; intros offset todo l' offset'; simpl.
  { destruct todo; intros [= <- _]; by split. }
  destruct todo as [|todo].
  { intros [= <- _]. split; [|done]. constructor; [apply empty_profile_wf|].
    eapply Forall_impl; [exact Hl|]. intros q ->. apply empty_profile_wf. }
  destruct (decode_profile _ _ _) as [[p o]|] eqn:Ep; [|done]. cbn [mbind option_bind].
  destruct (decode_profiles _ _ _ _) as [[l1 o1]|] eqn:El; [|done]. cbn [mbind option_bind].
  intros [= <- _]. apply IH in El as [Hw El]. split; [|simpl; congruence].
  constructor; [by eapply decode_profile_wf|done].
Qed.

Lemma decode_set_wf input set : decode_set input = Some set -> set_wf set /\ valid_set set = true.
Proof.
  unfold decode_set. destruct (_ <? _)%nat; [done|]. destruct (_ <? _); [done|].
  destruct (decode_profiles _ _ _ _) as [[l o]|] eqn:E; [|done]. cbn [mbind option_bind].
  destruct (_ && _) eqn:Hv; [|done]. intros [= <-]. bool_prop. split; [|done].
  apply decode_profiles_wf in E as [Hw Hl]; [|by repeat constructor].
  split; [apply u8_range|apply u8_range|exact Hl|done].
Qed.

Lemma decode_profiles_rest input l offset todo l' offset' i :
  decode_profiles input offset l todo = Some (l', offset') -> (todo <= i)%nat -> l' !! i = l !! i.
Proof.
  revert l offset l' offset' i. induction todo as [|todo IH]; intros l offset l' offset' i;
    (destruct l as [|p l]; simpl; [by intros [= <- _]|]); [by intros [= <- _]|].
  destruct (decode_profile _ _ _) as [[q o]|]; [|done]. cbn [mbind option_bind].
  destruct (decode_profiles _ _ _ _) as [[l1 o1]|] eqn:El; [|done]. cbn [mbind option_bind].
  intros [= <- _] Hi. destruct i as [|i]; [lia|]. simpl. eapply IH; [exact El|lia].
Qed.

Lemma decode_set_unused input set i :
  decode_set input = Some set -> (Z.to_nat (count set) <= i)%nat -> profile_at set i = empty_profile.
Proof.
  unfold decode_set. destruct (_ <? _)%nat; [done|]. destruct (_ <? _); [done|].
  destruct (decode_profiles _ _ _ _) as [[l o]|] eqn:E; [|done]. cbn [mbind option_bind].
  destruct (_ && _); [|done]. intros [= <-] Hi. unfold profile_at. cbn [count profiles] in *.
  rewrite (decode_profiles_rest _ _ _ _ _ _ _ E Hi). cbn [profiles empty_set].
  destruct (replicate _ _ !! i) eqn:Er; [|done]. by apply lookup_replicate in Er as [-> _].
Qed.

(** C36: The codec of the stored set.  A valid set always fits the store's
    payload, in at most 7097 bytes, and decodes to the same book in
    zero-filled arrays; whatever bytes decode at all decode to a valid set:
    at most five profiles with distinct fingerprints as identifiers, texts in
    their grammars, and a chosen one exactly when there are any. *)
Theorem stored_set_roundtrip :
  (forall set, set_wf set -> valid_set set = true ->
     decode_set (encode_set set DECK_TRANSACTION_MAX_PAYLOAD_CAPACITY) = Some (canonical_set set)
     /\ book_of (canonical_set set) = book_of set
     /\ 0 < Z.of_nat (length (encode_set set DECK_TRANSACTION_MAX_PAYLOAD_CAPACITY)) <= 7097)
  /\ (forall input set, decode_set input = Some set ->
        set_wf set /\ valid_set set = true /\ book_ok (book_of set)).
Proof.
  split.
  - intros set Hwf Hv.
    destruct (encode_set_spec set DECK_TRANSACTION_MAX_PAYLOAD_CAPACITY Hwf Hv) as [-> Hl];
      [apply Nat.leb_le; reflexivity|].
    split; [by apply decode_set_bytes|]. split; [by apply canonical_set_ok|].
    split; [unfold set_bytes; simpl; lia|].
    assert (Z.of_nat (2 + DECK_COMPANION_MAX_PROFILES * largest_profile) = 7097) by reflexivity. lia.
  - intros input set [Hwf Hv]%decode_set_wf. split_and!; [done..|by apply valid_set_book].
Qed.

Module SetExample.
(** Two profiles, the second one chosen. *)
Definition hub (digit port : bytes) : StoredProfile := {|
  profile_version := 1;
  profile_id := pad DECK_COMPANION_PROFILE_ID_CAPACITY
    ([115; 104; 97; 50; 53; 54; 58] ++ concat (replicate 64 digit));
  display_name := pad DECK_COMPANION_DISPLAY_NAME_CAPACITY ([104; 117; 98; 58] ++ port);
  hub_address := pad DECK_COMPANION_HUB_ADDRESS_CAPACITY ([104; 117; 98; 58] ++ port);
  token := pad DECK_COMPANION_TOKEN_CAPACITY (replicate 43 65);
  certificate_fingerprint := pad DECK_COMPANION_FINGERPRINT_CAPACITY
    ([115; 104; 97; 50; 53; 54; 58] ++ concat (replicate 64 digit));
  certificate_der_size := 3;
  certificate_der := pad DECK_COMPANION_CERTIFICATE_DER_CAPACITY [48; 1; 0];
  priority := -7;
  last_success_unix_ms := 1700000000000;
|}.

Definition two : StoredSet := {|
  count := 2; active_index := 1;
  profiles := [hub [97] [56; 48]; hub [98] [56; 49]] ++ replicate 3 empty_profile |}.
End SetExample.

Lemma stored_set_roundtrip_witness :
  decode_set (encode_set SetExample.two DECK_TRANSACTION_MAX_PAYLOAD_CAPACITY)
    = Some (canonical_set SetExample.two)
  /\ valid_set SetExample.two = true.
Proof.
  assert (valid_set SetExample.two = true) as Hv by (vm_compute; reflexivity).
  split; [|exact Hv]. destruct stored_set_roundtrip as [Hr _].
  refine (proj1 (Hr SetExample.two _ Hv)). split; [cbn; words|cbn; words|reflexivity|].
  cbn [profiles SetExample.two app replicate].
  repeat (apply Forall_cons; split); try apply Forall_nil; split; cbn; words || done.
Defined.
