(* ===== verification/CompanionProfiles.v ===== *)
(** * Companion profiles

    [components/companion_profiles/deck_companion_profiles.cpp]: the paired
    Companions, a set of profiles in a transactional store of its own.  Every
    operation loads the set, changes it and saves it whole.

    The pairing adapter is an external world, the same one as the store's
    adapter; operations hold the object's mutex, so they run one at a time.
    Null arguments, which every operation refuses first, are not represented,
    nor is the wiping of scratch memory. *)

From S2P Require Import Prelude Codec CString TransactionStore TransactionClient TransactionMedium TransactionCrash ProfileText ProfileSet.

Definition kSchemaVersion : Z := 2.
(** ["DCP2"] and ["DCM2"] *)
Definition kRecordMagic : bytes := [68; 67; 80; 50].
Definition kMarkerMagic : bytes := [68; 67; 77; 50].

Record deck_companion_pairing_credential_t := {
  credential_token : bytes;
  credential_fingerprint : bytes;
  credential_der : bytes;
  credential_der_size : Z;
  protocol_version : Z;
}.

Definition empty_credential : deck_companion_pairing_credential_t := {|
  credential_token := replicate DECK_COMPANION_TOKEN_CAPACITY 0;
  credential_fingerprint := replicate DECK_COMPANION_FINGERPRINT_CAPACITY 0;
  credential_der := replicate DECK_COMPANION_CERTIFICATE_DER_CAPACITY 0;
  credential_der_size := 0;
  protocol_version := 0;
|}.

(** The types of the fields. *)
Record credential_wf (credential : deck_companion_pairing_credential_t) : Prop := {
  wf_credential_der : length (credential_der credential) = DECK_COMPANION_CERTIFICATE_DER_CAPACITY;
  wf_credential_size : 0 <= credential_der_size credential;
}.

(** [redeem]: hub address, pairing address and code; the result and the
    credential it fills in. *)
Class PairingAdapter (W : Type) := {
  redeem : bytes -> bytes -> bytes -> M W (bool * deck_companion_pairing_credential_t);
  redeem_typed : forall hub peer code w, credential_wf (redeem hub peer code w).1.2;
}.

Record deck_companion_pair_request_t := {
  request_hub_address : bytes;
  pairing_address : bytes;
  code : bytes;
}.

Inductive deck_companion_pair_result_t :=
  | DECK_COMPANION_PAIR_PAIRED
  | DECK_COMPANION_PAIR_INVALID_ADDRESS
  | DECK_COMPANION_PAIR_INVALID_CODE
  | DECK_COMPANION_PAIR_REDEEM_FAILED
  | DECK_COMPANION_PAIR_INVALID_CREDENTIAL
  | DECK_COMPANION_PAIR_CAPACITY_REACHED
  | DECK_COMPANION_PAIR_STORAGE_FAILURE.

Inductive deck_companion_profile_update_result_t :=
  | DECK_COMPANION_PROFILE_UPDATED
  | DECK_COMPANION_PROFILE_NOT_FOUND
  | DECK_COMPANION_PROFILE_INVALID_ARGUMENT
  | DECK_COMPANION_PROFILE_STALE_GENERATION
  | DECK_COMPANION_PROFILE_STORAGE_FAILURE.

#[export] Instance pair_result_eq_dec : EqDecision deck_companion_pair_result_t.
Proof. solve_decision. Defined.
#[export] Instance update_result_eq_dec : EqDecision deck_companion_profile_update_result_t.
Proof. solve_decision. Defined.

Inductive deck_companion_record_status_t :=
  | DECK_COMPANION_RECORD_EMPTY
  | DECK_COMPANION_RECORD_VALID
  | DECK_COMPANION_RECORD_RECOVERED_PREVIOUS
  | DECK_COMPANION_RECORD_CORRUPT
  | DECK_COMPANION_RECORD_UNSUPPORTED_SCHEMA
  | DECK_COMPANION_RECORD_MIGRATION_FAILED
  | DECK_COMPANION_RECORD_IO_ERROR.

Definition map_status (status : deck_transaction_record_status_t) : deck_companion_record_status_t :=
  match status with
  | DECK_TRANSACTION_RECORD_VALID => DECK_COMPANION_RECORD_VALID
  | DECK_TRANSACTION_RECORD_RECOVERED_PREVIOUS => DECK_COMPANION_RECORD_RECOVERED_PREVIOUS
  | DECK_TRANSACTION_RECORD_CORRUPT => DECK_COMPANION_RECORD_CORRUPT
  | DECK_TRANSACTION_RECORD_UNSUPPORTED_SCHEMA => DECK_COMPANION_RECORD_UNSUPPORTED_SCHEMA
  | DECK_TRANSACTION_RECORD_MIGRATION_FAILED => DECK_COMPANION_RECORD_MIGRATION_FAILED
  | DECK_TRANSACTION_RECORD_IO_ERROR => DECK_COMPANION_RECORD_IO_ERROR
  | DECK_TRANSACTION_RECORD_EMPTY => DECK_COMPANION_RECORD_EMPTY
  end.

Definition valid_profile_id_argument (id : bytes) : bool :=
  terminated id DECK_COMPANION_PROFILE_ID_CAPACITY && valid_fingerprint id.

(** [None] is -1. *)
Definition find_profile (set : StoredSet) (id : bytes) : option nat :=
  find (fun index => strcmp_eq (profile_id (profile_at set index)) id) (seq 0 (Z.to_nat (count set))).

(** [None] is [false]; the callers then discard [output]. *)
Definition copy_string (output : bytes) (capacity : nat) (input : bytes) : option bytes :=
  let size := strlen input in
  if (capacity <=? size)%nat then None else Some (write_at output 0 (c_string input ++ [0])).

Definition set_profile (index : nat) (p : StoredProfile) (set : StoredSet) : StoredSet :=
  set <| profiles := <[index := p]> (profiles set) |>.

Record deck_companion_profile_view_t := {
  view_version : Z;
  view_profile_id : bytes;
  view_display_name : bytes;
  view_hub_address : bytes;
  view_fingerprint : bytes;
  view_priority : Z;
  view_last_success : Z;
}.

(** [views] are the first [snapshot_count] elements of [profiles]; the rest
    stay zero. *)
Record deck_companion_profiles_snapshot_t := {
  snapshot_record : deck_companion_record_status_t;
  snapshot_candidate_record : deck_companion_record_status_t;
  snapshot_faulted : bool;
  snapshot_has_active_profile : bool;
  snapshot_generation : Z;
  snapshot_count : Z;
  active_profile_id : bytes;
  views : list deck_companion_profile_view_t;
}.

(** The loop body of [deck_companion_profiles_snapshot]. *)
Definition profile_view (p : StoredProfile) : option deck_companion_profile_view_t :=
  id ← copy_string (replicate DECK_COMPANION_PROFILE_ID_CAPACITY 0) DECK_COMPANION_PROFILE_ID_CAPACITY
         (profile_id p);
  name ← copy_string (replicate DECK_COMPANION_DISPLAY_NAME_CAPACITY 0)
           DECK_COMPANION_DISPLAY_NAME_CAPACITY (display_name p);
  address ← copy_string (replicate DECK_COMPANION_HUB_ADDRESS_CAPACITY 0)
              DECK_COMPANION_HUB_ADDRESS_CAPACITY (hub_address p);
  fingerprint ← copy_string (replicate DECK_COMPANION_FINGERPRINT_CAPACITY 0)
                  DECK_COMPANION_FINGERPRINT_CAPACITY (certificate_fingerprint p);
  Some {| view_version := profile_version p; view_profile_id := id; view_display_name := name;
          view_hub_address := address; view_fingerprint := fingerprint; view_priority := priority p;
          view_last_success := last_success_unix_ms p |}.

Record deck_companion_profile_secret_t := {
  secret_profile_id : bytes;
  secret_hub_address : bytes;
  secret_token : bytes;
  secret_fingerprint : bytes;
  secret_der : bytes;
  secret_der_size : Z;
  secret_protocol_version : Z;
}.

(** The result with [*secret]; [None] is [false] with [*secret] wiped. *)
Definition copy_secret (p : StoredProfile) : option deck_companion_profile_secret_t :=
  id ← copy_string (replicate DECK_COMPANION_PROFILE_ID_CAPACITY 0) DECK_COMPANION_PROFILE_ID_CAPACITY
         (profile_id p);
  address ← copy_string (replicate DECK_COMPANION_HUB_ADDRESS_CAPACITY 0)
              DECK_COMPANION_HUB_ADDRESS_CAPACITY (hub_address p);
  token ← copy_string (replicate DECK_COMPANION_TOKEN_CAPACITY 0) DECK_COMPANION_TOKEN_CAPACITY (token p);
  fingerprint ← copy_string (replicate DECK_COMPANION_FINGERPRINT_CAPACITY 0)
                  DECK_COMPANION_FINGERPRINT_CAPACITY (certificate_fingerprint p);
  Some {| secret_profile_id := id; secret_hub_address := address; secret_token := token;
          secret_fingerprint := fingerprint;
          secret_der := write_at (replicate DECK_COMPANION_CERTIFICATE_DER_CAPACITY 0) 0
            (take (Z.to_nat (certificate_der_size p)) (certificate_der p));
          secret_der_size := certificate_der_size p;
          secret_protocol_version := kProtocolVersion |}.

Record deck_companion_profiles := { store : deck_transaction_store }.

Implicit Type p : deck_companion_profiles.

(** [None] is [false]. *)
Definition load_set p : option StoredSet :=
  let stored := deck_transaction_store_snapshot (store p) in
  if negb (snapshot_has_active stored) then Some (empty_set <| active_index := kNoActiveProfile |>)
  else decode_set (payload (snapshot_active stored)).

Definition store_options : deck_transaction_store_options_t := {|
  record_magic := kRecordMagic;
  marker_magic := kMarkerMagic;
  schema_version := kSchemaVersion;
  payload_capacity := DECK_TRANSACTION_MAX_PAYLOAD_CAPACITY;
  payload_length_excluded_prefix := 0;
  TransactionStore.validate_payload := ProfileSet.validate_payload;
|}.

(** [credential_valid] of [deck_companion_profiles_pair] *)
Definition credential_valid (credential : deck_companion_pairing_credential_t) : bool :=
  terminated (credential_token credential) DECK_COMPANION_TOKEN_CAPACITY
  && terminated (credential_fingerprint credential) DECK_COMPANION_FINGERPRINT_CAPACITY
  && valid_base64url (credential_token credential) 43
  && valid_fingerprint (credential_fingerprint credential)
  && negb (credential_der_size credential =? 0)
  && (credential_der_size credential <=? Z.of_nat DECK_COMPANION_CERTIFICATE_DER_CAPACITY)
  && (protocol_version credential =? kProtocolVersion).

(** The profile the credential replaces or adds: lines 734 to 754.  [None] is
    [copied == false]. *)
Definition paired_profile (previous : StoredProfile) (request : deck_companion_pair_request_t)
    (credential : deck_companion_pairing_credential_t) : option StoredProfile :=
  let p := empty_profile in
  id ← copy_string (profile_id p) DECK_COMPANION_PROFILE_ID_CAPACITY (credential_fingerprint credential);
  name ← copy_string (display_name p) DECK_COMPANION_DISPLAY_NAME_CAPACITY (request_hub_address request);
  address ← copy_string (hub_address p) DECK_COMPANION_HUB_ADDRESS_CAPACITY (request_hub_address request);
  token ← copy_string (token p) DECK_COMPANION_TOKEN_CAPACITY (credential_token credential);
  fingerprint ← copy_string (certificate_fingerprint p) DECK_COMPANION_FINGERPRINT_CAPACITY
                  (credential_fingerprint credential);
  Some {| profile_version := DECK_COMPANION_PROFILE_VERSION;
          profile_id := id; display_name := name; hub_address := address; ProfileSet.token := token;
          certificate_fingerprint := fingerprint;
          certificate_der_size := u16 (credential_der_size credential);
          certificate_der := write_at (certificate_der p) 0
            (take (Z.to_nat (credential_der_size credential)) (credential_der credential));
          priority := priority previous;
          last_success_unix_ms := last_success_unix_ms previous |}.

(** The removal in [deck_companion_profiles_revoke]: lines 814 to 826. *)
Definition remove_profile (removed : nat) (set : StoredSet) : StoredSet :=
  let n := Z.to_nat (count set) in
  let shifted := map (fun index => if (removed <=? index)%nat && (index + 1 <? n)%nat
                                   then profile_at set (index + 1) else profile_at set index)
                   (seq 0 (length (profiles set))) in
  let left := count set - 1 in
  {| count := left;
     active_index :=
       if left =? 0 then kNoActiveProfile
       else if active_index set =? Z.of_nat removed then 0
       else if Z.of_nat removed <? active_index set then active_index set - 1
       else active_index set;
     profiles := <[(n - 1)%nat := empty_profile]> shifted |}.

Section operations.
Context {W : Type} `{StorageAdapter W} `{PairingAdapter W}.

Definition commit_set p (set : StoredSet) : M W (bool * deck_companion_profiles) :=
  allocated ← heap_alloc;
  if negb allocated then mret (false, p)
  else
    let payload := encode_set set DECK_TRANSACTION_MAX_PAYLOAD_CAPACITY in
    if (length payload =? 0)%nat then mret (false, p)
    else
      staged ← deck_transaction_store_stage (store p) payload;
      let '(result, st) := staged in
      if negb (bool_decide (result = DECK_TRANSACTION_UPDATED)) then mret (false, {| store := st |})
      else
        committed ← deck_transaction_store_commit st;
        let '(result, st) := committed in
        mret (bool_decide (result = DECK_TRANSACTION_UPDATED), {| store := st |}).

Definition committed_result (committed : bool) : deck_companion_profile_update_result_t :=
  if committed then DECK_COMPANION_PROFILE_UPDATED else DECK_COMPANION_PROFILE_STORAGE_FAILURE.

(** [new StoredSet{}] and [load_set]: [None] is a failure of either. *)
Definition allocate_and_load p : M W (option StoredSet) :=
  allocated ← heap_alloc;
  mret (if negb allocated then None else load_set p).

Definition update_field p (id : bytes) (weight unix_ms : Z) (update_priority : bool) :
    M W (deck_companion_profile_update_result_t * deck_companion_profiles) :=
  if negb (valid_profile_id_argument id) then mret (DECK_COMPANION_PROFILE_INVALID_ARGUMENT, p)
  else
    loaded ← allocate_and_load p;
    match loaded with
    | None => mret (DECK_COMPANION_PROFILE_STORAGE_FAILURE, p)
    | Some set =>
        match find_profile set id with
        | None => mret (DECK_COMPANION_PROFILE_NOT_FOUND, p)
        | Some found =>
            let profile := profile_at set found in
            let profile :=
              if update_priority then profile <| priority := weight |>
              else if last_success_unix_ms profile <? unix_ms
                   then profile <| last_success_unix_ms := unix_ms |>
                   else profile in
            committed ← commit_set p (set_profile found profile set);
            let '(committed, p) := committed in
            mret (committed_result committed, p)
        end
    end.

Definition deck_companion_profiles_create : M W (option deck_companion_profiles) :=
  allocated ← heap_alloc;
  if negb allocated then mret None
  else
    created ← deck_transaction_store_create store_options;
    mret (match created with Some st => Some {| store := st |} | None => None end).

Definition deck_companion_profiles_pair p (request : deck_companion_pair_request_t) :
    M W (deck_companion_pair_result_t * deck_companion_profiles) :=
  if negb (terminated (request_hub_address request) DECK_COMPANION_HUB_ADDRESS_CAPACITY)
     || negb (terminated (pairing_address request) DECK_COMPANION_HUB_ADDRESS_CAPACITY)
  then mret (DECK_COMPANION_PAIR_INVALID_ADDRESS, p)
  else
    match address_port (request_hub_address request) with
    | None => mret (DECK_COMPANION_PAIR_INVALID_ADDRESS, p)
    | Some hub_port =>
        if negb (valid_pairing_address (pairing_address request) hub_port)
        then mret (DECK_COMPANION_PAIR_INVALID_ADDRESS, p)
        else if negb (valid_code (code request)) then mret (DECK_COMPANION_PAIR_INVALID_CODE, p)
        else
          loaded ← allocate_and_load p;
          match loaded with
          | None => mret (DECK_COMPANION_PAIR_STORAGE_FAILURE, p)
          | Some set =>
              if snapshot_storage_faulted (deck_transaction_store_snapshot (store p))
              then mret (DECK_COMPANION_PAIR_STORAGE_FAILURE, p)
              else
                allocated ← heap_alloc;
                if negb allocated then mret (DECK_COMPANION_PAIR_STORAGE_FAILURE, p)
                else
                  redeemed ← redeem (request_hub_address request) (pairing_address request) (code request);
                  let '(ok, credential) := redeemed in
                  if negb ok then mret (DECK_COMPANION_PAIR_REDEEM_FAILED, p)
                  else if negb (credential_valid credential)
                  then mret (DECK_COMPANION_PAIR_INVALID_CREDENTIAL, p)
                  else
                    let found := find_profile set (credential_fingerprint credential) in
                    if negb (bool_decide (is_Some found))
                       && (Z.of_nat DECK_COMPANION_MAX_PROFILES <=? count set)
                    then mret (DECK_COMPANION_PAIR_CAPACITY_REACHED, p)
                    else
                      let '(found, set) :=
                        match found with
                        | Some found => (found, set)
                        | None => (Z.to_nat (count set), set <| count := u8 (count set + 1) |>)
                        end in
                      match paired_profile (profile_at set found) request credential with
                      | None => mret (DECK_COMPANION_PAIR_STORAGE_FAILURE, p)
                      | Some profile =>
                          let set := (set_profile found profile set)
                                       <| active_index := u8 (Z.of_nat found) |> in
                          committed ← commit_set p set;
                          let '(committed, p) := committed in
                          mret (if (committed : bool) then DECK_COMPANION_PAIR_PAIRED
                                else DECK_COMPANION_PAIR_STORAGE_FAILURE, p)
                      end
          end
    end.

Definition deck_companion_profiles_select_active p (id : bytes) :
    M W (deck_companion_profile_update_result_t * deck_companion_profiles) :=
  if negb (valid_profile_id_argument id) then mret (DECK_COMPANION_PROFILE_INVALID_ARGUMENT, p)
  else
    loaded ← allocate_and_load p;
    match loaded with
    | None => mret (DECK_COMPANION_PROFILE_STORAGE_FAILURE, p)
    | Some set =>
        match find_profile set id with
        | None => mret (DECK_COMPANION_PROFILE_NOT_FOUND, p)
        | Some found =>
            committed ← commit_set p (set <| active_index := u8 (Z.of_nat found) |>);
            let '(committed, p) := committed in
            mret (committed_result committed, p)
        end
    end.

Definition deck_companion_profiles_revoke p (id : bytes) :
    M W (deck_companion_profile_update_result_t * deck_companion_profiles) :=
  if negb (valid_profile_id_argument id) then mret (DECK_COMPANION_PROFILE_INVALID_ARGUMENT, p)
  else
    loaded ← allocate_and_load p;
    match loaded with
    | None => mret (DECK_COMPANION_PROFILE_STORAGE_FAILURE, p)
    | Some set =>
        match find_profile set id with
        | None => mret (DECK_COMPANION_PROFILE_NOT_FOUND, p)
        | Some found =>
            committed ← commit_set p (remove_profile found set);
            let '(committed, p) := committed in
            mret (committed_result committed, p)
        end
    end.

Definition deck_companion_profiles_set_priority p (id : bytes) (weight : Z) :=
  update_field p id weight 0 true.

Definition deck_companion_profiles_record_success p (id : bytes) (unix_ms : Z) :
    M W (deck_companion_profile_update_result_t * deck_companion_profiles) :=
  if unix_ms =? 0 then mret (DECK_COMPANION_PROFILE_INVALID_ARGUMENT, p)
  else update_field p id 0 unix_ms false.

Definition deck_companion_profiles_activate_on_success p (id : bytes) (expected_generation unix_ms : Z) :
    M W (deck_companion_profile_update_result_t * deck_companion_profiles) :=
  if negb (valid_profile_id_argument id) || (unix_ms =? 0)
  then mret (DECK_COMPANION_PROFILE_INVALID_ARGUMENT, p)
  else
    loaded ← allocate_and_load p;
    match loaded with
    | None => mret (DECK_COMPANION_PROFILE_STORAGE_FAILURE, p)
    | Some set =>
        let stored := deck_transaction_store_snapshot (store p) in
        if negb (snapshot_has_active stored)
           || negb (generation (snapshot_active stored) =? expected_generation)
        then mret (DECK_COMPANION_PROFILE_STALE_GENERATION, p)
        else
          match find_profile set id with
          | None => mret (DECK_COMPANION_PROFILE_NOT_FOUND, p)
          | Some found =>
              let profile := profile_at set found in
              let profile :=
                if last_success_unix_ms profile <? unix_ms
                then profile <| last_success_unix_ms := unix_ms |> else profile in
              let set := set <| active_index := u8 (Z.of_nat found) |> in
              committed ← commit_set p (set_profile found profile set);
              let '(committed, p) := committed in
              mret (committed_result committed, p)
          end
    end.

(** [None] is [false]. *)
Definition deck_companion_profiles_snapshot p : M W (option deck_companion_profiles_snapshot_t) :=
  loaded ← allocate_and_load p;
  let stored := deck_transaction_store_snapshot (store p) in
  mret (set ← loaded;
        views ← mapM profile_view (map (profile_at set) (seq 0 (Z.to_nat (count set))));
        active_id ← (let none := replicate DECK_COMPANION_PROFILE_ID_CAPACITY 0 in
                     if count set =? 0 then Some none
                     else copy_string none DECK_COMPANION_PROFILE_ID_CAPACITY
                            (profile_id (profile_at set (Z.to_nat (active_index set)))));
        Some {| snapshot_record := map_status (snapshot_record_status stored);
                snapshot_candidate_record := map_status (snapshot_candidate_record_status stored);
                snapshot_faulted := snapshot_storage_faulted stored;
                snapshot_has_active_profile := negb (count set =? 0);
                snapshot_generation :=
                  if snapshot_has_active stored then generation (snapshot_active stored) else 0;
                snapshot_count := count set;
                active_profile_id := active_id;
                views := views |}).

(** [None] is [false]. *)
Definition deck_companion_profiles_active_secret p : M W (option deck_companion_profile_secret_t) :=
  loaded ← allocate_and_load p;
  mret match loaded with
       | None => None
       | Some set =>
           if count set =? 0 then None
           else copy_secret (profile_at set (Z.to_nat (active_index set)))
       end.

Definition deck_companion_profiles_secret_for p (id : bytes) (expected_generation : Z) :
    M W (option deck_companion_profile_secret_t) :=
  if negb (valid_profile_id_argument id) then mret None
  else
    loaded ← allocate_and_load p;
    let stored := deck_transaction_store_snapshot (store p) in
    mret match loaded with
         | None => None
         | Some set =>
             if negb (snapshot_has_active stored)
                || negb (generation (snapshot_active stored) =? expected_generation)
             then None
             else match find_profile set id with
                  | None => None
                  | Some found => copy_secret (profile_at set found)
                  end
         end.

End operations.

Definition deck_companion_hub_address_valid (hub_address : bytes) : bool := valid_address hub_address.
Definition deck_companion_hub_address_port (hub_address : bytes) : option Z := address_port hub_address.
Definition deck_companion_pairing_code_valid (pairing_code : bytes) : bool := valid_code pairing_code.

(** ** The changes of a set as changes of a book *)

Definition index_of (b : book) (i : bytes) : option nat :=
  fst <$> list_find (fun e => id e = i) (entries b).

(** The entry a pairing makes. *)
Definition new_entry (request : deck_companion_pair_request_t)
    (credential : deck_companion_pairing_credential_t) (weight success : Z) : profile := {|
  id := c_string (credential_fingerprint credential);
  name := c_string (request_hub_address request);
  address := c_string (request_hub_address request);
  secret := c_string (credential_token credential);
  certificate := take (Z.to_nat (credential_der_size credential)) (credential_der credential);
  ProfileSet.weight := weight;
  ProfileSet.success := success;
|}.

(** A known Companion keeps its place, priority and last success; a new one
    comes last.  Either is chosen. *)
Definition pair_book (b : book) (request : deck_companion_pair_request_t)
    (credential : deck_companion_pairing_credential_t) : book :=
  match index_of b (c_string (credential_fingerprint credential)) with
  | Some i =>
      let old := default (new_entry request credential 0 0) (entries b !! i) in
      {| entries := <[i := new_entry request credential (weight old) (success old)]> (entries b);
         chosen := Some i |}
  | None =>
      {| entries := entries b ++ [new_entry request credential 0 0]; chosen := Some (length (entries b)) |}
  end.

Definition select_book (i : nat) (b : book) : book := {| entries := entries b; chosen := Some i |}.

(** The next profiles move up; if the chosen one goes, the first is chosen. *)
Definition revoke_book (i : nat) (b : book) : book :=
  {| entries := delete i (entries b);
     chosen := if (length (entries b) =? 1)%nat then None
               else match chosen b with
                    | Some j => Some (if (j =? i)%nat then 0 else if (i <? j)%nat then j - 1 else j)%nat
                    | None => None
                    end |}.

#[export] Instance entry_rebuild : Rebuild profile := fun e =>
  {| id := id e; name := name e; address := address e; secret := secret e;
     certificate := certificate e; ProfileSet.weight := weight e; ProfileSet.success := success e |}.

Definition weigh (w : Z) (e : profile) : profile := e <| ProfileSet.weight := w |>.
(** The last success never goes back. *)
Definition succeed (ms : Z) (e : profile) : profile := e <| ProfileSet.success := Z.max ms (success e) |>.

Definition alter_book (f : profile -> profile) (i : nat) (b : book) : book :=
  {| entries := alter f i (entries b); chosen := chosen b |}.

(** ** The changed sets are valid *)

Lemma find_seq {A} (l : list A) (P : A -> Prop) `{!forall x, Decision (P x)} (f : nat -> bool) k :
  (forall i x, l !! i = Some x -> f (k + i)%nat = bool_decide (P x)) ->
  find f (seq k (length l)) = (fun r => (k + r.1)%nat) <$> list_find P l.
Proof.
  revert k. induction l as [|x l IH]; intros k Hf; [done|]. cbn [length seq find list_find].
  pose proof (Hf 0%nat x eq_refl) as H0. rewrite Nat.add_0_r in H0. rewrite H0.
  destruct (decide (P x)) as [Hp|Hp].
  - rewrite bool_decide_eq_true_2 by done. simpl. by rewrite Nat.add_0_r.
  - rewrite bool_decide_eq_false_2 by done. rewrite (IH (S k)).
    + destruct (list_find P l) as [[i y]|]; [|done]. simpl. f_equal. lia.
    + intros i y Hi. rewrite <- (Hf (S i) y Hi). f_equal. lia.
Qed.

(** A set that was loaded: valid and within its types. *)
Record set_ok (set : StoredSet) : Prop := {
  set_ok_wf : set_wf set;
  set_ok_valid : valid_set set = true;
}.

Section sets.
Context (set : StoredSet) (Hok : set_ok set).

Let Hwf := set_ok_wf set Hok.

Lemma ok_count : 0 <= count set <= 5.
Proof.
  pose proof (proj1 (valid_set_spec set Hwf) (set_ok_valid set Hok)) as (Hm & _).
  pose proof (wf_count set Hwf) as Hc. unfold DECK_COMPANION_MAX_PROFILES in Hm. unfold is_u8 in Hc. lia.
Qed.

Lemma ok_used : length (used set) = Z.to_nat (count set).
Proof. apply length_used; [done|]. apply ok_count. Qed.

Lemma ok_facts : Forall profile_facts (used set) /\ NoDup (map id (map text_of (used set)))
  /\ (if count set =? 0 then active_index set = kNoActiveProfile else active_index set < count set).
Proof. by pose proof (proj1 (valid_set_spec set Hwf) (set_ok_valid set Hok)) as (_ & ? & ? & ?). Qed.

Lemma ok_length : length (profiles set) = 5%nat.
Proof. apply (wf_length set Hwf). Qed.

Lemma ok_at i : (i < Z.to_nat (count set))%nat -> used set !! i = Some (profile_at set i).
Proof. intros Hi. apply profile_at_used; [done|]. rewrite ok_length. pose proof ok_count. lia. Qed.

Lemma ok_profile i :
  (i < Z.to_nat (count set))%nat -> stored_wf (profile_at set i) /\ profile_facts (profile_at set i).
Proof.
  intros Hi%ok_at. split; eapply Forall_lookup_1; [apply (used_wf set Hwf)|done|apply ok_facts|done].
Qed.

Lemma length_entries : length (entries (book_of set)) = Z.to_nat (count set).
Proof. unfold book_of. cbn [entries]. by rewrite length_map, ok_used. Qed.

Lemma entry_at i :
  (i < Z.to_nat (count set))%nat -> entries (book_of set) !! i = Some (text_of (profile_at set i)).
Proof.
  intros Hi%ok_at. unfold book_of. cbn [entries]. change (@map) with (@List.map).
  by rewrite list_lookup_fmap, Hi.
Qed.

Lemma find_index i : find_profile set i = index_of (book_of set) (c_string i).
Proof.
  unfold find_profile, index_of. rewrite <- length_entries.
  rewrite (find_seq _ (fun e => id e = c_string i)).
  - by destruct (list_find _ _) as [[]|].
  - intros j e Hj. pose proof (lookup_lt_Some _ _ _ Hj) as Hlt. rewrite length_entries in Hlt.
    rewrite entry_at in Hj by done. injection Hj as <-. done.
Qed.

Lemma found_at i j :
  find_profile set i = Some j -> (j < Z.to_nat (count set))%nat
  /\ c_string (profile_id (profile_at set j)) = c_string i.
Proof.
  unfold find_profile. intros [Hin Hj]%find_some. apply in_seq in Hin. split; [lia|].
  unfold strcmp_eq in Hj. by bool_prop.
Qed.

(** Profile [j] changed into [q]. *)
Lemma used_set_profile q j :
  (j < Z.to_nat (count set))%nat -> used (set_profile j q set) = <[j := q]> (used set).
Proof. intros Hj. unfold used, set_profile. cbn. by apply take_insert_lt. Qed.

Lemma wf_set_profile q j : stored_wf q -> set_wf (set_profile j q set).
Proof.
  intros Hq. destruct Hwf as [? ? Hl Hp]. split; try done; cbn.
  - by rewrite length_insert.
  - apply Forall_insert; done.
Qed.

Lemma replace_ok q j a :
  (j < Z.to_nat (count set))%nat -> stored_wf q -> profile_facts q ->
  c_string (profile_id q) = c_string (profile_id (profile_at set j)) ->
  0 <= a < count set ->
  let set' := (set_profile j q set) <| active_index := a |> in
  set_ok set'
  /\ book_of set' = {| entries := <[j := text_of q]> (entries (book_of set)); chosen := Some (Z.to_nat a) |}.
Proof.
  intros Hj Hq Hf Hid Ha set'. destruct ok_facts as (Hfs & Hd & _). pose proof ok_count as Hc.
  assert (used set' = <[j := q]> (used set)) as Hu by by apply used_set_profile.
  assert (set_wf set') as Hw'.
  { destruct (wf_set_profile q j Hq) as [? ? ? ?]. split; try done. cbn. words. }
  assert (map text_of (used set') = <[j := text_of q]> (map text_of (used set))) as Ht.
  { rewrite Hu. change (@map) with (@List.map). apply list_fmap_insert. }
  split; [split; [done|]|].
  - apply valid_set_spec; [done|]. rewrite Hu. unfold DECK_COMPANION_MAX_PROFILES. cbn.
    rewrite (proj2 (Z.eqb_neq _ _)) by lia. split_and!; [lia|lia|by apply Forall_insert|].
    rewrite <- Hu, Ht. change (@map) with (@List.map). rewrite list_fmap_insert, list_insert_id; [done|].
    rewrite list_lookup_fmap. fold (entries (book_of set)).
    pose proof (entry_at j Hj) as E. unfold book_of in E. cbn [entries] in E. rewrite E. simpl. by rewrite Hid.
  - unfold book_of. rewrite Ht. cbn. rewrite (proj2 (Z.eqb_neq _ _)) by lia. done.
Qed.

(** Only the chosen profile changes. *)
Lemma select_ok a :
  0 <= a < count set ->
  let set' := set <| active_index := a |> in
  set_ok set' /\ book_of set' = select_book (Z.to_nat a) (book_of set).
Proof.
  intros Ha set'. destruct ok_facts as (Hfs & Hd & _). pose proof ok_count as Hc.
  assert (set_wf set') as Hw' by (destruct Hwf; split; try done; cbn; words).
  split; [split; [done|]|].
  - apply valid_set_spec; [done|]. unfold DECK_COMPANION_MAX_PROFILES. cbn.
    rewrite (proj2 (Z.eqb_neq _ _)) by lia. split_and!; [lia|lia|done|done].
  - unfold book_of, select_book. cbn. rewrite (proj2 (Z.eqb_neq _ _)) by lia. done.
Qed.

(** Profile [q] added behind the others and chosen. *)
Lemma append_ok q :
  count set < 5 -> stored_wf q -> profile_facts q ->
  index_of (book_of set) (c_string (profile_id q)) = None ->
  let n := Z.to_nat (count set) in
  let set' := (set_profile n q (set <| count := u8 (count set + 1) |>)) <| active_index := u8 (Z.of_nat n) |> in
  set_ok set'
  /\ book_of set' = {| entries := entries (book_of set) ++ [text_of q];
                       chosen := Some (length (entries (book_of set))) |}.
Proof.
  intros Hm Hq Hf Hnew n set'. destruct ok_facts as (Hfs & Hd & _). pose proof ok_count as Hc.
  assert (count set' = count set + 1) as Ec by (cbn; apply u8_id; words).
  assert (active_index set' = count set) as Ea by (cbn; rewrite u8_id; subst n; words).
  assert (used set' = used set ++ [q]) as Hu.
  { unfold used. rewrite Ec. cbn. subst n. replace (Z.to_nat (count set + 1)) with (S (Z.to_nat (count set))) by lia.
    erewrite take_S_r; [|apply list_lookup_insert_eq; rewrite ok_length; lia].
    by rewrite take_insert_ge by lia. }
  assert (set_wf set') as Hw'.
  { pose proof Hwf as [? ? Hl Hp]. split; [rewrite Ec; words|rewrite Ea; words| |].
    - cbn. by rewrite length_insert.
    - cbn. by apply Forall_insert. }
  assert (map text_of (used set') = map text_of (used set) ++ [text_of q]) as Ht by by rewrite Hu, map_app.
  split; [split; [done|]|].
  - apply valid_set_spec; [done|]. rewrite Ht, Hu, Ec, Ea. unfold DECK_COMPANION_MAX_PROFILES.
    rewrite (proj2 (Z.eqb_neq _ _)) by lia. split_and!; [lia|lia| |].
    + apply Forall_app. split; [done|]. by constructor.
    + rewrite map_app. apply NoDup_app. split_and!; [done| |apply NoDup_singleton].
      unfold index_of in Hnew. apply fmap_None, list_find_None in Hnew. unfold book_of in Hnew.
      cbn [entries] in Hnew. rewrite Forall_forall in Hnew.
      intros x Hx Hx'. apply list_elem_of_singleton in Hx' as ->.
      apply list_elem_of_In, in_map_iff in Hx as (e & He & Hin%list_elem_of_In). by apply (Hnew e Hin).
  - unfold book_of. rewrite Ht, Ec, Ea. rewrite (proj2 (Z.eqb_neq _ _)) by lia. cbn [entries].
    by rewrite length_map, ok_used.
Qed.

Lemma used_remove j :
  (j < Z.to_nat (count set))%nat -> used (remove_profile j set) = delete j (used set).
Proof.
  intros Hj. pose proof ok_count as Hc. pose proof ok_length as Hl. pose proof ok_used as Hlu.
  unfold used at 1, remove_profile. cbn [count profiles]. rewrite Hl.
  apply list_eq. intros i. destruct (decide (i < Z.to_nat (count set - 1))%nat) as [Hi|Hi].
  - rewrite lookup_take_lt by done. rewrite list_lookup_insert_ne by lia.
    change (@map) with (@List.map). rewrite list_lookup_fmap, lookup_seq_lt by lia. simpl.
    destruct (Nat.leb_spec j i); simpl.
    + rewrite (proj2 (Nat.ltb_lt _ _)) by lia. rewrite list_lookup_delete_ge by done.
      rewrite <- ok_at by lia. f_equal. lia.
    + rewrite list_lookup_delete_lt by done. by rewrite ok_at by lia.
  - rewrite !(proj2 (lookup_ge_None _ _)); [done| |].
    + rewrite length_delete by (apply lookup_lt_is_Some_2; lia). lia.
    + rewrite length_take. lia.
Qed.

Lemma remove_ok j :
  (j < Z.to_nat (count set))%nat ->
  set_ok (remove_profile j set) /\ book_of (remove_profile j set) = revoke_book j (book_of set).
Proof.
  intros Hj. destruct ok_facts as (Hfs & Hd & Ha). pose proof ok_count as Hc. pose proof ok_length as Hl.
  rewrite (proj2 (Z.eqb_neq _ _)) in Ha by lia. pose proof (used_remove j Hj) as Hu.
  pose proof (wf_active set Hwf) as Hau.
  assert (0 <= active_index (remove_profile j set) <= U8_MAX
    /\ (if count set - 1 =? 0 then active_index (remove_profile j set) = kNoActiveProfile
        else active_index (remove_profile j set) < count set - 1)) as [Hact Hact'].
  { unfold remove_profile, kNoActiveProfile. cbn [active_index]. unfold is_u8 in Hau. repeat case_match; bool_prop; lia. }
  assert (set_wf (remove_profile j set)) as Hw'.
  { split; [unfold remove_profile; cbn; words|exact Hact| |].
    - unfold remove_profile. cbn. by rewrite length_insert, length_map, length_seq.
    - unfold remove_profile. cbn. apply Forall_insert; [|apply empty_profile_wf].
      apply Forall_map, Forall_forall. intros i _.
      assert (forall k, stored_wf (profile_at set k)) as Hk.
      { intros k. unfold profile_at. destruct (profiles set !! k) eqn:E; [|apply empty_profile_wf].
        simpl. eapply Forall_lookup_1; [apply (wf_profiles set Hwf)|done]. }
      destruct (_ && _); apply Hk. }
  assert (map text_of (used (remove_profile j set)) = delete j (map text_of (used set))) as Ht.
  { rewrite Hu. change (@map) with (@List.map). apply list_fmap_delete. }
  split; [split; [done|]|].
  - apply valid_set_spec; [done|]. rewrite Ht, Hu. cbn [count remove_profile].
    unfold DECK_COMPANION_MAX_PROFILES. split_and!; [lia|exact Hact'| |].
    + by apply Forall_delete.
    + eapply sublist_NoDup; [exact Hd|]. change (@map) with (@List.map).
      rewrite list_fmap_delete. apply sublist_delete.
  - unfold book_of, revoke_book. rewrite Ht. cbn [entries chosen count active_index remove_profile].
    rewrite length_map, ok_used. unfold is_u8 in Hau.
    rewrite (proj2 (Z.eqb_neq (count set) 0)) by lia.
    destruct (Z.eqb_spec (count set - 1) 0) as [E|E].
    + by rewrite (proj2 (Nat.eqb_eq (Z.to_nat (count set)) 1)) by lia.
    + rewrite (proj2 (Nat.eqb_neq _ _)) by lia. f_equal. f_equal.
      destruct (Z.eqb_spec (active_index set) (Z.of_nat j)) as [E1|E1];
        [by rewrite (proj2 (Nat.eqb_eq _ _)) by lia|].
      rewrite (proj2 (Nat.eqb_neq _ _)) by lia.
      destruct (Z.ltb_spec (Z.of_nat j) (active_index set)) as [E2|E2].
      * rewrite (proj2 (Nat.ltb_lt _ _)) by lia. lia.
      * by rewrite (proj2 (Nat.ltb_ge _ _)) by lia.
Qed.

End sets.

(** ** The changed profiles *)

Lemma copy_string_spec capacity input :
  (strlen input < capacity)%nat ->
  copy_string (replicate capacity 0) capacity input = Some (pad capacity (c_string input)).
Proof.
  intros Hs. unfold copy_string. rewrite (proj2 (Nat.leb_gt _ _)) by done. by rewrite write_at_terminated.
Qed.

Lemma credential_valid_spec credential :
  credential_valid credential = true ->
  fingerprint (c_string (credential_fingerprint credential))
  /\ strlen (credential_token credential) = 43%nat
  /\ Forall (fun b => is_base64url b = true) (c_string (credential_token credential))
  /\ credential_der_size credential <> 0
  /\ credential_der_size credential <= Z.of_nat DECK_COMPANION_CERTIFICATE_DER_CAPACITY
  /\ protocol_version credential = kProtocolVersion.
Proof.
  unfold credential_valid. intros Hv. bool_prop.
  match goal with H : valid_base64url _ _ = true |- _ => apply valid_base64url_spec in H as [? ?] end.
  split_and!; try done; try congruence. by apply valid_fingerprint_spec.
Qed.

Lemma fingerprint_length text : fingerprint text -> length text = 71%nat.
Proof. intros (hex & -> & Hl & _). by rewrite length_app, Hl. Qed.

Ltac fields :=
  cbn [profile_version profile_id display_name hub_address token certificate_fingerprint
       certificate_der_size certificate_der priority last_success_unix_ms].

Lemma paired_profile_ok previous request credential :
  terminated (request_hub_address request) DECK_COMPANION_HUB_ADDRESS_CAPACITY = true ->
  hub_text (c_string (request_hub_address request)) ->
  credential_valid credential = true -> credential_wf credential ->
  is_i32 (priority previous) -> is_u64 (last_success_unix_ms previous) ->
  exists q, paired_profile previous request credential = Some q /\ stored_wf q /\ profile_facts q
    /\ text_of q = new_entry request credential (priority previous) (last_success_unix_ms previous)
    /\ c_string (profile_id q) = c_string (credential_fingerprint credential).
Proof.
  intros Ht Hhub Hv [Hder Hsize] Hp Hs. apply credential_valid_spec in Hv as (Hf & Htl & Htok & Hnz & Hsz & _).
  pose proof (fingerprint_length _ Hf) as Hfl. pose proof (terminated_strlen _ _ Ht) as Hal.
  fold (strlen (credential_fingerprint credential)) in Hfl.
  assert (forall c v, c_string (pad c (c_string v)) = c_string v) as Hpad
    by (intros; apply c_string_pad, c_string_nonzero).
  unfold paired_profile.
  cbn [profile_id display_name hub_address token certificate_fingerprint certificate_der empty_profile].
  rewrite !copy_string_spec by (capacities; lia). cbn [mbind option_bind].
  eexists. split; [reflexivity|].
  set (q := {| profile_version := _ |}).
  assert (length (take (Z.to_nat (credential_der_size credential)) (credential_der credential))
          = Z.to_nat (credential_der_size credential)) as Hl by (rewrite length_take, Hder; lia).
  assert (stored_wf q) as Hwf.
  { split; subst q; fields; try done.
    - apply u16_range.
    - rewrite length_write_at; rewrite length_replicate; [done|lia].
    - apply length_pad. unfold strlen in *. capacities. lia.
    - apply length_pad. unfold strlen in *. capacities. lia. }
  assert (text_of q = new_entry request credential (priority previous) (last_success_unix_ms previous)) as Htext.
  { unfold text_of, new_entry, q. fields. rewrite !Hpad. f_equal. rewrite u16_id by (unfold DECK_COMPANION_CERTIFICATE_DER_CAPACITY in *; words).
    rewrite write_at_zeros. unfold pad. by rewrite take_app_length'. }
  assert (c_string (profile_id q) = c_string (credential_fingerprint credential)) as Hid by apply Hpad.
  split_and!; try done. split; [done| | |].
  - assert (forall c v, (strlen v < c)%nat -> terminated (pad c (c_string v)) c = true) as Htm
      by (intros; by apply terminated_pad).
    split; subst q; fields; try (apply Htm; capacities; lia).
    rewrite u16_id by (unfold DECK_COMPANION_CERTIFICATE_DER_CAPACITY in *; words). lia.
  - rewrite Htext. unfold new_entry. split; cbn [id name address secret certificate]; try done.
    + split_and!; [|apply hub_graphic'|done]; [|done]. destruct Hhub as (h & port & -> & _). by destruct h.
    + rewrite Hl. lia.
  - subst q. fields. by rewrite !Hpad.
Qed.

(** ** Over any adapter *)

Definition profiles_ok p : Prop :=
  options (store p) = created_options store_options /\ records_valid (store p).

(** The slots behind the profiles in use are zero. *)
Definition unused_empty (set : StoredSet) : Prop :=
  forall i, (Z.to_nat (count set) <= i)%nat -> profile_at set i = empty_profile.

(** The book that the next operation loads. *)
Definition book_in p : book :=
  match load_set p with Some set => book_of set | None => {| entries := []; chosen := None |} end.

Lemma load_ok p :
  profiles_ok p ->
  exists set, load_set p = Some set /\ set_ok set /\ unused_empty set /\ book_in p = book_of set.
Proof.
  intros [Ho [Ha _]]. unfold book_in, load_set. cbn [snapshot_has_active deck_transaction_store_snapshot snapshot_active].
  destruct (has_active (store p)); cbn [negb].
  - specialize (Ha eq_refl). rewrite Ho, created_validate in Ha. simpl in Ha. unfold ProfileSet.validate_payload in Ha.
    destruct (decode_set _) as [set|] eqn:E; [|done]. pose proof (fun i => decode_set_unused _ _ i E) as Hun.
    apply decode_set_wf in E as [? ?]. by exists set.
  - exists (empty_set <| active_index := kNoActiveProfile |>). split_and!; [done| | |done].
    + split; [|reflexivity]. split; [done|done|done|]. repeat constructor; apply empty_profile_wf.
    + intros i _. unfold profile_at. cbn [profiles empty_set]. by do 5 (destruct i as [|i]; [done|]).
Qed.

Lemma book_in_ok p : profiles_ok p -> book_ok (book_in p).
Proof. intros (set & _ & [Hw Hv] & _ & ->)%load_ok. by apply valid_set_book. Qed.

Lemma same_active_book p p' :
  active (store p') = active (store p) -> has_active (store p') = has_active (store p) ->
  book_in p' = book_in p.
Proof. intros Ea Eh. unfold book_in, load_set. simpl. by rewrite Ea, Eh. Qed.

#[local] Opaque DECK_TRANSACTION_MAX_PAYLOAD_CAPACITY set_bytes.

Section properties.
Context {W : Type} `{StorageAdapter W} `{PairingAdapter W}.

Lemma encode_ok set :
  set_ok set ->
  encode_set set DECK_TRANSACTION_MAX_PAYLOAD_CAPACITY = set_bytes set
  /\ (0 < length (set_bytes set) <= DECK_TRANSACTION_MAX_PAYLOAD_CAPACITY)%nat.
Proof.
  intros [Hw Hv].
  assert (2 + DECK_COMPANION_MAX_PROFILES * largest_profile <= DECK_TRANSACTION_MAX_PAYLOAD_CAPACITY)%nat as Hc
    by (apply Nat.leb_le; reflexivity).
  destruct (encode_set_spec set DECK_TRANSACTION_MAX_PAYLOAD_CAPACITY Hw Hv Hc) as [E Hl]. split; [done|]. split; [|lia].
  Transparent set_bytes. unfold set_bytes. simpl. lia.
Qed.
#[local] Opaque set_bytes.

Lemma set_bytes_accepted set :
  set_ok set -> stage_accepts (created_options store_options) (set_bytes set) = true.
Proof.
  intros Hok. pose proof (encode_ok set Hok) as [_ Hl]. destruct Hok as [Hw Hv].
  unfold stage_accepts. rewrite created_validate.
  change (payload_length_excluded_prefix (created_options store_options)) with 0%nat.
  change (payload_capacity (created_options store_options)) with DECK_TRANSACTION_MAX_PAYLOAD_CAPACITY.
  change (TransactionStore.validate_payload store_options) with ProfileSet.validate_payload.
  unfold ProfileSet.validate_payload. rewrite decode_set_bytes by done.
  rewrite (proj2 (Nat.eqb_neq (length (set_bytes set)) 0)) by lia.
  rewrite (proj2 (Nat.ltb_ge DECK_TRANSACTION_MAX_PAYLOAD_CAPACITY (length (set_bytes set)))) by lia. done.
Qed.

(** Every allocation succeeds. *)
Definition ample_heap : Prop := forall w : W, (heap_alloc w).1 = true.

Lemma commit_set_spec p set (w : W) ok p' w' :
  profiles_ok p -> set_ok set -> commit_set p set w = ((ok, p'), w') ->
  profiles_ok p'
  /\ if ok then book_in p' = book_of set /\ storage_faulted (store p') = false
     else book_in p' = book_in p /\ (ample_heap -> storage_faulted (store p') = true).
Proof.
  intros [Ho Hr] Hok. unfold commit_set. rewrite run_bind. destruct (heap_alloc w) as [a w1] eqn:Ea. cbn [fst snd].
  destruct a; cbn [negb].
  2: { intros [= <- <- <-]. split; [done|]. split; [done|]. intros Hh. specialize (Hh w). by rewrite Ea in Hh. }
  destruct (encode_ok set Hok) as [-> Hl]. rewrite (proj2 (Nat.eqb_neq _ _)) by lia. intros Hrun.
  assert (exists st, save (store p) (set_bytes set) w1 = ((ok, st), w') /\ p' = {| store := st |}) as (st & Hs & ->).
  { revert Hrun. unfold save, mbind, M_bind, mret, M_ret.
    destruct (deck_transaction_store_stage _ _ w1) as [[r s1] w2]. case_bool_decide; cbn [negb];
      [|intros [= <- <- <-]; by eexists].
    destruct (deck_transaction_store_commit s1 w2) as [[r2 s2] w3]. intros [= <- <- <-]. by eexists. }
  pose proof (save_valid _ _ _ _ _ _ Hr Hs) as Hr'. apply save_cases in Hs as [Ho' Hs].
  split; [by split; [simpl; congruence|]|]. destruct ok.
  - destruct Hs as (Hact & Hp & _ & Hf & _). split; [|done]. unfold book_in, load_set. simpl.
    rewrite Hact. cbn [negb]. rewrite Hp. destruct Hok as [Hw Hv].
    rewrite decode_set_bytes by done. by apply canonical_set_ok.
  - destruct Hs as (E1 & E2 & Hf). split; [by apply same_active_book|]. intros _. apply Hf.
    rewrite Ho. by apply set_bytes_accepted.
Qed.

(** ** The updates *)

Inductive update :=
  | SelectActive (id : bytes)
  | Revoke (id : bytes)
  | SetPriority (id : bytes) (weight : Z)
  | RecordSuccess (id : bytes) (unix_ms : Z)
  | ActivateOnSuccess (id : bytes) (expected_generation unix_ms : Z).

Definition run_update (u : update) p : M W (deck_companion_profile_update_result_t * deck_companion_profiles) :=
  match u with
  | SelectActive id => deck_companion_profiles_select_active p id
  | Revoke id => deck_companion_profiles_revoke p id
  | SetPriority id weight => deck_companion_profiles_set_priority p id weight
  | RecordSuccess id ms => deck_companion_profiles_record_success p id ms
  | ActivateOnSuccess id g ms => deck_companion_profiles_activate_on_success p id g ms
  end.

End properties.

Definition target (u : update) : bytes :=
  match u with
  | SelectActive id | Revoke id | SetPriority id _ | RecordSuccess id _ | ActivateOnSuccess id _ _ => id
  end.

(** The numbers within their types. *)
Definition update_typed (u : update) : Prop :=
  match u with
  | SetPriority _ weight => is_i32 weight
  | RecordSuccess _ ms | ActivateOnSuccess _ _ ms => is_u64 ms
  | _ => True
  end.

Definition invalid_arguments (u : update) : Prop :=
  ~ (terminated (target u) DECK_COMPANION_PROFILE_ID_CAPACITY = true /\ fingerprint (c_string (target u)))
  \/ match u with RecordSuccess _ ms | ActivateOnSuccess _ _ ms => ms = 0 | _ => False end.

(** What an update of the profile at [i] does to the book. *)
Definition updated_book (u : update) (i : nat) (b : book) : book :=
  match u with
  | SelectActive _ => select_book i b
  | Revoke _ => revoke_book i b
  | SetPriority _ weight => alter_book (weigh weight) i b
  | RecordSuccess _ ms => alter_book (succeed ms) i b
  | ActivateOnSuccess _ _ ms => select_book i (alter_book (succeed ms) i b)
  end.

(** An activation for another version of the set. *)
Definition stale (u : update) p : Prop :=
  match u with
  | ActivateOnSuccess _ g _ => has_active (store p) = false \/ generation (active (store p)) <> g
  | _ => False
  end.

Definition update_guard (u : update) : bool :=
  negb (valid_profile_id_argument (target u))
  || match u with RecordSuccess _ ms | ActivateOnSuccess _ _ ms => ms =? 0 | _ => false end.

Definition stale_guard (u : update) p : bool :=
  match u with
  | ActivateOnSuccess _ g _ => negb (has_active (store p)) || negb (generation (active (store p)) =? g)
  | _ => false
  end.

(** The set an update of the profile at [i] saves. *)
Definition changed_set (u : update) (i : nat) (set : StoredSet) : StoredSet :=
  let e := profile_at set i in
  let succeeded ms := if last_success_unix_ms e <? ms then e <| last_success_unix_ms := ms |> else e in
  match u with
  | SelectActive _ => set <| active_index := u8 (Z.of_nat i) |>
  | Revoke _ => remove_profile i set
  | SetPriority _ weight => set_profile i (e <| priority := weight |>) set
  | RecordSuccess _ ms => set_profile i (succeeded ms) set
  | ActivateOnSuccess _ _ ms => set_profile i (succeeded ms) (set <| active_index := u8 (Z.of_nat i) |>)
  end.

Lemma stored_profile_eta (e : StoredProfile) :
  {| profile_version := profile_version e; profile_id := profile_id e; display_name := display_name e;
     hub_address := hub_address e; token := token e; certificate_fingerprint := certificate_fingerprint e;
     certificate_der_size := certificate_der_size e; certificate_der := certificate_der e;
     priority := priority e; last_success_unix_ms := last_success_unix_ms e |} = e.
Proof. by destruct e. Qed.

Lemma with_numbers_ok e weight ms :
  stored_wf e -> profile_facts e -> is_i32 weight -> is_u64 ms ->
  let q := (e <| priority := weight |>) <| last_success_unix_ms := ms |> in
  stored_wf q /\ profile_facts q /\ text_of q = (text_of e) <| ProfileSet.weight := weight |> <| ProfileSet.success := ms |>.
Proof.
  intros [] [? [] [] ?] ? ? q. split_and!; [by split|split; try done; by split|done].
Qed.

Lemma insert_alter {A} (f : A -> A) (l : list A) i x :
  l !! i = Some x -> <[i := f x]> l = alter f i l.
Proof.
  intros Hi. apply list_eq. intros j. destruct (decide (i = j)) as [<-|Hij].
  - rewrite list_lookup_alter_eq, list_lookup_insert_eq by by eapply lookup_lt_Some. by rewrite Hi.
  - by rewrite list_lookup_alter_ne, list_lookup_insert_ne.
Qed.

(** Changing the numbers of profile [i] and choosing [a]. *)
Lemma renumber_ok set i weight ms a :
  set_ok set -> (i < Z.to_nat (count set))%nat -> is_i32 weight -> is_u64 ms -> 0 <= a < count set ->
  let e := profile_at set i in
  let set' := (set_profile i ((e <| priority := weight |>) <| last_success_unix_ms := ms |>) set)
                <| active_index := a |> in
  set_ok set'
  /\ book_of set' = {| entries := alter (fun e => (e <| ProfileSet.weight := weight |>) <| ProfileSet.success := ms |>)
                                    i (entries (book_of set));
                       chosen := Some (Z.to_nat a) |}.
Proof.
  intros Hok Hi Hw Hms Ha e set'. destruct (ok_profile set Hok i Hi) as [Hwf Hf].
  destruct (with_numbers_ok e weight ms Hwf Hf Hw Hms) as (Hq & Hqf & Ht).
  destruct (replace_ok set Hok _ i a Hi Hq Hqf eq_refl Ha) as [Hok' Hb]. split; [exact Hok'|].
  fold set' in Hb. rewrite Hb, Ht. f_equal.
  by apply (insert_alter (fun e => (e <| ProfileSet.weight := weight |>) <| ProfileSet.success := ms |>)),
    entry_at.
Qed.

Lemma alter_ext_at {A} (f g : A -> A) (l : list A) i x :
  l !! i = Some x -> f x = g x -> alter f i l = alter g i l.
Proof. intros Hi E. by rewrite <- !(insert_alter _ _ _ _ Hi), E. Qed.

Lemma changed_set_ok u set i :
  set_ok set -> (i < Z.to_nat (count set))%nat -> update_typed u ->
  set_ok (changed_set u i set) /\ book_of (changed_set u i set) = updated_book u i (book_of set).
Proof.
  intros Hok Hi Hu. pose proof (ok_count set Hok) as Hc. pose proof (entry_at set Hok i Hi) as He.
  destruct (ok_facts set Hok) as (_ & _ & Ha). rewrite (proj2 (Z.eqb_neq _ _)) in Ha by lia.
  pose proof (wf_active set (set_ok_wf set Hok)) as Hau. unfold is_u8 in Hau.
  destruct (ok_profile set Hok i Hi) as [Hwf Hf]. pose proof Hwf as [_ Hp Hs _ _ _ _].
  assert (u8 (Z.of_nat i) = Z.of_nat i) as Ei by (apply u8_id; words).
  assert (forall ms, is_u64 ms -> (if last_success_unix_ms (profile_at set i) <? ms
            then (profile_at set i) <| last_success_unix_ms := ms |> else profile_at set i)
          = ((profile_at set i) <| priority := priority (profile_at set i) |>)
              <| last_success_unix_ms := Z.max ms (last_success_unix_ms (profile_at set i)) |>) as Hmax.
  { intros ms _. destruct (Z.ltb_spec (last_success_unix_ms (profile_at set i)) ms).
    - rewrite Z.max_l by lia. done.
    - rewrite Z.max_r by lia. symmetry. exact (stored_profile_eta (profile_at set i)). }
  assert (chosen (book_of set) = Some (Z.to_nat (active_index set))) as Hch
    by (unfold book_of; simpl; by rewrite (proj2 (Z.eqb_neq _ _)) by lia).
  assert (forall ms, is_u64 ms -> is_u64 (Z.max ms (last_success_unix_ms (profile_at set i)))) as Hm64 by words.
  destruct u as [x|x|x weight|x ms|x g ms]; cbn [changed_set updated_book update_typed] in *.
  - rewrite Ei. destruct (select_ok set Hok (Z.of_nat i)) as [? ->]; [lia|]. by rewrite Nat2Z.id.
  - by apply remove_ok.
  - destruct (renumber_ok set i weight (last_success_unix_ms (profile_at set i)) (active_index set) Hok Hi Hu Hs)
      as [Hok' Hb]; [lia|].
    split; [exact Hok'|]. etrans; [exact Hb|]. unfold alter_book. rewrite Hch. f_equal.
    apply (alter_ext_at _ _ _ _ _ He). by unfold weigh, text_of.
  - rewrite Hmax by done.
    destruct (renumber_ok set i _ _ (active_index set) Hok Hi Hp (Hm64 ms Hu)) as [Hok' Hb]; [lia|].
    split; [exact Hok'|]. etrans; [exact Hb|]. unfold alter_book. rewrite Hch. f_equal.
    by apply (alter_ext_at _ _ _ _ _ He).
  - rewrite Hmax, Ei by done.
    destruct (renumber_ok set i _ _ (Z.of_nat i) Hok Hi Hp (Hm64 ms Hu)) as [Hok' Hb]; [lia|].
    split; [exact Hok'|]. etrans; [exact Hb|]. unfold select_book, alter_book. cbn [entries].
    rewrite Nat2Z.id. f_equal. by apply (alter_ext_at _ _ _ _ _ He).
Qed.

Lemma guard_spec u : update_guard u = true <-> invalid_arguments u.
Proof.
  unfold update_guard, invalid_arguments, valid_profile_id_argument.
  rewrite orb_true_iff, negb_true_iff, <- not_true_iff_false, andb_true_iff, valid_fingerprint_spec.
  destruct u; rewrite ?Z.eqb_eq; naive_solver.
Qed.

Lemma stale_spec u p : stale_guard u p = true <-> stale u p.
Proof.
  destruct u; simpl; try done. rewrite orb_true_iff, !negb_true_iff, Z.eqb_neq. done.
Qed.

Section updates.
Context {W : Type} `{StorageAdapter W} `{PairingAdapter W}.

(** All updates have one shape. *)
Lemma run_update_shape u p (w : W) :
  run_update u p w =
  (if update_guard u then mret (DECK_COMPANION_PROFILE_INVALID_ARGUMENT, p)
   else
     loaded ← allocate_and_load p;
     match loaded with
     | None => mret (DECK_COMPANION_PROFILE_STORAGE_FAILURE, p)
     | Some set =>
         if stale_guard u p then mret (DECK_COMPANION_PROFILE_STALE_GENERATION, p)
         else match find_profile set (target u) with
              | None => mret (DECK_COMPANION_PROFILE_NOT_FOUND, p)
              | Some found =>
                  committed ← commit_set p (changed_set u found set);
                  let '(committed, p) := committed in
                  mret (committed_result committed, p)
              end
     end) w.
Proof.
  unfold update_guard, run_update, deck_companion_profiles_select_active, deck_companion_profiles_revoke,
    deck_companion_profiles_set_priority, deck_companion_profiles_record_success,
    deck_companion_profiles_activate_on_success, update_field.
  destruct u as [x|x|x weight|x ms|x g ms]; cbn [target stale_guard changed_set]; rewrite ?orb_false_r; try done.
  destruct (ms =? 0); [by rewrite orb_true_r|]. by rewrite orb_false_r.
Qed.

Lemma allocate_and_load_spec p (w : W) loaded w' :
  profiles_ok p -> allocate_and_load p w = (loaded, w') ->
  match loaded with
  | Some set => set_ok set /\ unused_empty set /\ book_in p = book_of set
  | None => ~ ample_heap (W := W)
  end.
Proof.
  intros (set & Hl & Hok & Hun & Hb)%load_ok. unfold allocate_and_load. rewrite run_bind, run_ret, Hl.
  destruct (heap_alloc w) as [[] w1] eqn:E; cbn [fst snd negb]; intros [= <- <-]; [done|].
  intros Hh. specialize (Hh w). by rewrite E in Hh.
Qed.

Lemma run_update_spec u p (w : W) r p' w' :
  profiles_ok p -> update_typed u -> run_update u p w = ((r, p'), w') ->
  profiles_ok p'
  /\ match r with
     | DECK_COMPANION_PROFILE_UPDATED =>
         ~ invalid_arguments u /\ ~ stale u p
         /\ exists i, index_of (book_in p) (c_string (target u)) = Some i
              /\ book_in p' = updated_book u i (book_in p) /\ storage_faulted (store p') = false
     | DECK_COMPANION_PROFILE_NOT_FOUND =>
         index_of (book_in p) (c_string (target u)) = None /\ p' = p
     | DECK_COMPANION_PROFILE_INVALID_ARGUMENT => invalid_arguments u /\ p' = p /\ w' = w
     | DECK_COMPANION_PROFILE_STALE_GENERATION => stale u p /\ p' = p
     | DECK_COMPANION_PROFILE_STORAGE_FAILURE =>
         book_in p' = book_in p /\ (ample_heap (W := W) -> storage_faulted (store p') = true)
     end.
Proof.
  intros Hok Hu. rewrite run_update_shape. destruct (update_guard u) eqn:Hg.
  { intros [= <- <- <-]. split; [done|]. by apply guard_spec in Hg. }
  assert (~ invalid_arguments u) as Hv by (rewrite <- guard_spec; congruence).
  rewrite run_bind. destruct (allocate_and_load p w) as [loaded w1] eqn:El. cbn [fst snd].
  apply allocate_and_load_spec in El; [|done]. destruct loaded as [set|].
  2: { intros [= <- <- <-]. by split. }
  destruct El as (Hset & _ & Hb). destruct (stale_guard u p) eqn:Hs.
  { intros [= <- <- <-]. split; [done|]. by apply stale_spec in Hs. }
  assert (~ stale u p) as Hns by (rewrite <- stale_spec; congruence).
  destruct (find_profile set (target u)) as [i|] eqn:Hf.
  2: { intros [= <- <- <-]. split; [done|]. rewrite Hb. by rewrite <- find_index. }
  destruct (found_at set (target u) i Hf) as [Hi _].
  rewrite find_index in Hf by done. rewrite <- Hb in Hf.
  destruct (changed_set_ok u set i Hset Hi Hu) as [Hset' Hb'].
  rewrite run_bind. destruct (commit_set _ _ w1) as [[ok q] w2] eqn:Ec. cbn [fst snd].
  apply commit_set_spec in Ec as [Hq Hres]; [|done..]. intros [= <- <- <-]. split; [done|].
  unfold committed_result. destruct ok; [|done]. destruct Hres as [Hbq Hfq]. split_and!; [done..|].
  exists i. split; [done|]. by rewrite Hbq, Hb', Hb.
Qed.

(** The tail of a pairing, from the valid credential on. *)
Definition pair_commit p (set : StoredSet) (request : deck_companion_pair_request_t)
    (credential : deck_companion_pairing_credential_t) : M W (deck_companion_pair_result_t * deck_companion_profiles) :=
  let found := find_profile set (credential_fingerprint credential) in
  if negb (bool_decide (is_Some found)) && (Z.of_nat DECK_COMPANION_MAX_PROFILES <=? count set)
  then mret (DECK_COMPANION_PAIR_CAPACITY_REACHED, p)
  else
    let '(found, set) :=
      match found with
      | Some found => (found, set)
      | None => (Z.to_nat (count set), set <| count := u8 (count set + 1) |>)
      end in
    match paired_profile (profile_at set found) request credential with
    | None => mret (DECK_COMPANION_PAIR_STORAGE_FAILURE, p)
    | Some profile =>
        let set := (set_profile found profile set) <| active_index := u8 (Z.of_nat found) |> in
        committed ← commit_set p set;
        let '(committed, p) := committed in
        mret (if (committed : bool) then DECK_COMPANION_PAIR_PAIRED
              else DECK_COMPANION_PAIR_STORAGE_FAILURE, p)
    end.

(** The set a pairing saves is valid and shows the new book. *)
Lemma paired_set_ok set request credential :
  set_ok set -> unused_empty set ->
  hub_text (c_string (request_hub_address request)) ->
  terminated (request_hub_address request) DECK_COMPANION_HUB_ADDRESS_CAPACITY = true ->
  credential_valid credential = true -> credential_wf credential ->
  let found := find_profile set (credential_fingerprint credential) in
  negb (bool_decide (is_Some found)) && (Z.of_nat DECK_COMPANION_MAX_PROFILES <=? count set) = false ->
  let '(found, set1) :=
    match found with
    | Some found => (found, set)
    | None => (Z.to_nat (count set), set <| count := u8 (count set + 1) |>)
    end in
  exists q, paired_profile (profile_at set1 found) request credential = Some q
    /\ let set' := (set_profile found q set1) <| active_index := u8 (Z.of_nat found) |> in
       set_ok set' /\ book_of set' = pair_book (book_of set) request credential.
Proof.
  intros Hok Hun Hhub Ht Hv Hty found Hcap. subst found. pose proof (ok_count set Hok) as Hc.
  unfold pair_book. rewrite <- find_index by done.
  destruct (find_profile set (credential_fingerprint credential)) as [i|] eqn:Hf.
  - destruct (found_at set _ i Hf) as [Hi Hid]. destruct (ok_profile set Hok i Hi) as [Hwf _].
    destruct (paired_profile_ok (profile_at set i) request credential) as (q & Hq & Hqw & Hqf & Hqt & Hqi);
      [done..|apply Hwf|apply Hwf|].
    exists q. split; [done|].
    destruct (replace_ok set Hok q i (u8 (Z.of_nat i)) Hi Hqw Hqf) as [Hok' Hb']; [congruence|words|].
    split; [exact Hok'|]. etrans; [exact Hb'|]. rewrite (entry_at set Hok i Hi). cbn [default from_option].
    rewrite Hqt, u8_id by words. by rewrite Nat2Z.id.
  - rewrite bool_decide_eq_false_2 in Hcap by (by intros []). cbn [negb andb] in Hcap. bool_prop.
    assert (profile_at (set <| count := u8 (count set + 1) |>) (Z.to_nat (count set)) = empty_profile) as ->
      by by apply Hun.
    destruct (paired_profile_ok empty_profile request credential) as (q & Hq & Hqw & Hqf & Hqt & Hqi);
      [done..|]. exists q. split; [done|].
    destruct (append_ok set Hok q) as [Hok' Hb']; [unfold DECK_COMPANION_MAX_PROFILES in *; lia|done|done| |].
    + rewrite Hqi. by rewrite <- find_index.
    + split; [exact Hok'|]. etrans; [exact Hb'|]. by rewrite Hqt.
Qed.

(** The request a pairing needs. *)
Definition pair_request_ok (request : deck_companion_pair_request_t) : Prop :=
  exists port, address_port (request_hub_address request) = Some port
    /\ valid_pairing_address (pairing_address request) port = true.

(** What the Companion answered to the pairing address with the code. *)
Definition redeemed (request : deck_companion_pair_request_t) (ok : bool) (credential : deck_companion_pairing_credential_t) : Prop :=
  exists w1 w2 : W, redeem (request_hub_address request) (pairing_address request) (code request) w1 = ((ok, credential), w2).

(** ... and a pairing from its checked arguments on. *)
Definition pair_valid p (request : deck_companion_pair_request_t) : M W (deck_companion_pair_result_t * deck_companion_profiles) :=
  loaded ← allocate_and_load p;
  match loaded with
  | None => mret (DECK_COMPANION_PAIR_STORAGE_FAILURE, p)
  | Some set =>
      if snapshot_storage_faulted (deck_transaction_store_snapshot (store p))
      then mret (DECK_COMPANION_PAIR_STORAGE_FAILURE, p)
      else
        allocated ← heap_alloc;
        if negb allocated then mret (DECK_COMPANION_PAIR_STORAGE_FAILURE, p)
        else
          redeemed ← redeem (request_hub_address request) (pairing_address request) (code request);
          let '(ok, credential) := redeemed in
          if negb ok then mret (DECK_COMPANION_PAIR_REDEEM_FAILED, p)
          else if negb (credential_valid credential)
          then mret (DECK_COMPANION_PAIR_INVALID_CREDENTIAL, p)
          else pair_commit p set request credential
  end.

Lemma pair_valid_spec p request port (w : W) r p' w' :
  profiles_ok p -> address_port (request_hub_address request) = Some port ->
  terminated (request_hub_address request) DECK_COMPANION_HUB_ADDRESS_CAPACITY = true ->
  pair_valid p request w = ((r, p'), w') ->
  profiles_ok p'
  /\ (r <> DECK_COMPANION_PAIR_INVALID_ADDRESS /\ r <> DECK_COMPANION_PAIR_INVALID_CODE)
  /\ (r <> DECK_COMPANION_PAIR_PAIRED -> book_in p' = book_in p)
  /\ match r with
     | DECK_COMPANION_PAIR_PAIRED =>
         exists credential, redeemed request true credential /\ credential_valid credential = true
              /\ book_in p' = pair_book (book_in p) request credential
              /\ storage_faulted (store p') = false
     | DECK_COMPANION_PAIR_INVALID_ADDRESS | DECK_COMPANION_PAIR_INVALID_CODE => p' = p /\ w' = w
     | DECK_COMPANION_PAIR_CAPACITY_REACHED =>
         length (entries (book_in p)) = DECK_COMPANION_MAX_PROFILES /\ p' = p
         /\ exists credential, redeemed request true credential /\ credential_valid credential = true
     | DECK_COMPANION_PAIR_STORAGE_FAILURE => ample_heap (W := W) -> storage_faulted (store p') = true
     | DECK_COMPANION_PAIR_REDEEM_FAILED => p' = p /\ exists credential, redeemed request false credential
     | DECK_COMPANION_PAIR_INVALID_CREDENTIAL =>
         p' = p /\ exists credential, redeemed request true credential /\ credential_valid credential = false
     end.
Proof.
  intros Hok Hport Hterm. unfold pair_valid.
  rewrite run_bind. destruct (allocate_and_load p w) as [loaded w1] eqn:El. cbn [fst snd].
  apply allocate_and_load_spec in El; [|done]. destruct loaded as [set|].
  2: { intros [= <- <- <-]. by split_and!. }
  destruct El as (Hset & Hun & Hb). cbn [snapshot_storage_faulted deck_transaction_store_snapshot].
  destruct (storage_faulted (store p)) eqn:Hf; [by intros [= <- <- <-]|].
  rewrite run_bind. destruct (heap_alloc w1) as [[] w2] eqn:Eh; cbn [fst snd negb].
  2: { intros [= <- <- <-]. split_and!; try done. intros Hh. specialize (Hh w1). by rewrite Eh in Hh. }
  rewrite run_bind. destruct (redeem _ _ _ w2) as [[ok credential] w3] eqn:Er. cbn [fst snd].
  pose proof (redeem_typed (request_hub_address request) (pairing_address request) (code request) w2) as Hty.
  rewrite Er in Hty. cbn [fst snd] in Hty. assert (redeemed request ok credential) as Hred by by exists w2, w3.
  destruct ok; cbn [negb]; [|by intros [= <- <- <-]; split_and!; eauto].
  destruct (credential_valid credential) eqn:Hcred; cbn [negb]; [|by intros [= <- <- <-]; split_and!; eauto].
  intros Hrun. pose proof (proj1 (address_port_spec _ _) Hport) as [_ (h & pt & Eh1 & Eh2 & Eh3 & Eh4 & Eh5)].
  assert (hub_text (c_string (request_hub_address request))) as Hhub by (exists h, pt; by rewrite Eh4).
  pose proof (paired_set_ok set request credential Hset Hun Hhub Hterm Hcred Hty) as Hpaired.
  unfold pair_commit in Hrun. cbv zeta in Hpaired. destruct (_ && _) eqn:Hcap.
  { injection Hrun as <- <- <-. split_and!; eauto; try done. rewrite Hb, length_entries by done. bool_prop.
    pose proof (ok_count set Hset). unfold DECK_COMPANION_MAX_PROFILES in *. lia. }
  specialize (Hpaired eq_refl).
  destruct (match find_profile set (credential_fingerprint credential) with
            | Some found => (found, set)
            | None => (Z.to_nat (count set), set <| count := u8 (count set + 1) |>)
            end) as [found set1].
  destruct Hpaired as (q & Hq & Hset' & Hb'). rewrite Hq, run_bind in Hrun.
  destruct (commit_set _ _ w3) as [[ok p1] w4] eqn:Ec. cbn [fst snd] in Hrun.
  apply commit_set_spec in Ec as [Hp1 Hres]; [|done..]. injection Hrun as <- <- <-.
  split; [done|]. destruct ok; [|by destruct Hres]. destruct Hres as [Hbq Hfq]. split_and!; try done.
  exists credential. split_and!; try done. by rewrite Hbq, Hb', Hb.
Qed.

Lemma pair_spec p request (w : W) r p' w' :
  profiles_ok p -> deck_companion_profiles_pair p request w = ((r, p'), w') ->
  profiles_ok p'
  /\ (r = DECK_COMPANION_PAIR_INVALID_ADDRESS <-> ~ pair_request_ok request)
  /\ (r = DECK_COMPANION_PAIR_INVALID_CODE <-> pair_request_ok request /\ valid_code (code request) = false)
  /\ (r <> DECK_COMPANION_PAIR_PAIRED -> book_in p' = book_in p)
  /\ match r with
     | DECK_COMPANION_PAIR_PAIRED =>
         exists credential, redeemed request true credential /\ credential_valid credential = true
              /\ book_in p' = pair_book (book_in p) request credential
              /\ storage_faulted (store p') = false
     | DECK_COMPANION_PAIR_INVALID_ADDRESS | DECK_COMPANION_PAIR_INVALID_CODE => p' = p /\ w' = w
     | DECK_COMPANION_PAIR_CAPACITY_REACHED =>
         length (entries (book_in p)) = DECK_COMPANION_MAX_PROFILES /\ p' = p
         /\ exists credential, redeemed request true credential /\ credential_valid credential = true
     | DECK_COMPANION_PAIR_STORAGE_FAILURE => ample_heap (W := W) -> storage_faulted (store p') = true
     | DECK_COMPANION_PAIR_REDEEM_FAILED => p' = p /\ exists credential, redeemed request false credential
     | DECK_COMPANION_PAIR_INVALID_CREDENTIAL =>
         p' = p /\ exists credential, redeemed request true credential /\ credential_valid credential = false
     end.
Proof.
  intros Hok. unfold deck_companion_profiles_pair.
  assert (pair_request_ok request ->
    terminated (request_hub_address request) DECK_COMPANION_HUB_ADDRESS_CAPACITY = true
    /\ terminated (pairing_address request) DECK_COMPANION_HUB_ADDRESS_CAPACITY = true) as Hterm.
  { intros (port & [Ht _]%address_port_spec & [Ht' _]%valid_pairing_address_spec). done. }
  destruct (_ || _) eqn:Ht.
  { intros [= <- <- <-]. assert (~ pair_request_ok request) by (intros [E1 E2]%Hterm; by rewrite E1, E2 in Ht). split_and!; try done; intuition congruence. }
  bool_prop. destruct (address_port _) as [port|] eqn:Hport.
  2: { intros [= <- <- <-]. assert (~ pair_request_ok request) by (intros (q & Hq & _); congruence). split_and!; try done; intuition congruence. }
  destruct (valid_pairing_address _ _) eqn:Hpa; cbn [negb].
  2: { intros [= <- <- <-]. assert (~ pair_request_ok request) by (intros (q & Hq & Hv); congruence). split_and!; try done; intuition congruence. }
  assert (pair_request_ok request) as Hreq by by exists port.
  destruct (valid_code _) eqn:Hcode; cbn [negb]; [|by intros [= <- <- <-]; split_and!; try done; intuition congruence].
  intros Hrun. destruct (pair_valid_spec p request port w r p' w' Hok Hport (proj1 (Hterm Hreq)) Hrun) as (? & [? ?] & ? & ?).
  split_and!; try done; intuition congruence.
Qed.

(** The states the object reaches: created, then paired and updated, over any
    adapters and any heap. *)
Inductive reachable : deck_companion_profiles -> Prop :=
  | reachable_create (w : W) p w' : deck_companion_profiles_create w = (Some p, w') -> reachable p
  | reachable_pair p request (w : W) r p' w' :
      reachable p -> deck_companion_profiles_pair p request w = ((r, p'), w') -> reachable p'
  | reachable_update p u (w : W) r p' w' :
      reachable p -> update_typed u -> run_update u p w = ((r, p'), w') -> reachable p'.

Lemma create_profiles_ok (w : W) p w' : deck_companion_profiles_create w = (Some p, w') -> profiles_ok p.
Proof.
  unfold deck_companion_profiles_create. rewrite run_bind. destruct (heap_alloc w) as [[] w1]; [|done].
  cbn [fst snd negb]. rewrite run_bind.
  destruct (deck_transaction_store_create store_options w1) as [[st|] w2] eqn:E; [|done].
  intros [= <- <-]. by apply create_valid in E.
Qed.

Lemma reachable_profiles_ok p : reachable p -> profiles_ok p.
Proof.
  induction 1; [by eapply create_profiles_ok|by eapply pair_spec|by eapply run_update_spec].
Qed.

End updates.

(** C12: The updates of the paired Companions, over any storage adapter and
    heap.  In every reachable state the stored book has at most five profiles
    with distinct identifiers and texts in their grammars, and one is chosen
    exactly when there are any.  An update that reports success found its
    profile and made exactly its change ([updated_book]): the others keep
    their place, a priority is set, a last success never goes back, a
    revocation chooses the first profile if the chosen one went, and an
    activation chooses and records in one step.  One that does not changes
    nothing in the book, and its result says why; with memory to spare a
    storage failure leaves the store faulted. *)
Theorem updates_follow_the_book {W} `{StorageAdapter W, PairingAdapter W} u p (w : W) r p' w' :
  reachable p -> update_typed u -> run_update u p w = ((r, p'), w') ->
  book_ok (book_in p)
  /\ match r with
     | DECK_COMPANION_PROFILE_UPDATED =>
         ~ invalid_arguments u /\ ~ stale u p
         /\ exists i, index_of (book_in p) (c_string (target u)) = Some i
              /\ book_in p' = updated_book u i (book_in p) /\ storage_faulted (store p') = false
     | DECK_COMPANION_PROFILE_NOT_FOUND =>
         index_of (book_in p) (c_string (target u)) = None /\ p' = p
     | DECK_COMPANION_PROFILE_INVALID_ARGUMENT => invalid_arguments u /\ p' = p /\ w' = w
     | DECK_COMPANION_PROFILE_STALE_GENERATION => stale u p /\ p' = p
     | DECK_COMPANION_PROFILE_STORAGE_FAILURE =>
         book_in p' = book_in p /\ (ample_heap (W := W) -> storage_faulted (store p') = true)
     end.
Proof.
  intros Hr%reachable_profiles_ok Hu Hrun. split; [by apply book_in_ok|]. by eapply run_update_spec.
Qed.


(** ** What the readers show *)

Definition secret_of (e : profile) : deck_companion_profile_secret_t := {|
  secret_profile_id := pad DECK_COMPANION_PROFILE_ID_CAPACITY (id e);
  secret_hub_address := pad DECK_COMPANION_HUB_ADDRESS_CAPACITY (address e);
  secret_token := pad DECK_COMPANION_TOKEN_CAPACITY (secret e);
  secret_fingerprint := pad DECK_COMPANION_FINGERPRINT_CAPACITY (id e);
  secret_der := pad DECK_COMPANION_CERTIFICATE_DER_CAPACITY (certificate e);
  secret_der_size := Z.of_nat (length (certificate e));
  secret_protocol_version := kProtocolVersion;
|}.

Definition view_of_entry (e : profile) : deck_companion_profile_view_t := {|
  view_version := DECK_COMPANION_PROFILE_VERSION;
  view_profile_id := pad DECK_COMPANION_PROFILE_ID_CAPACITY (id e);
  view_display_name := pad DECK_COMPANION_DISPLAY_NAME_CAPACITY (name e);
  view_hub_address := pad DECK_COMPANION_HUB_ADDRESS_CAPACITY (address e);
  view_fingerprint := pad DECK_COMPANION_FINGERPRINT_CAPACITY (id e);
  view_priority := weight e;
  view_last_success := success e;
|}.

Lemma copy_secret_spec q :
  stored_wf q -> profile_facts q -> copy_secret q = Some (secret_of (text_of q)).
Proof.
  intros [_ _ _ Hsz Hder _ _] [_ [H1 H2 H3 H4 H5 H6] _ Hsame].
  apply terminated_strlen in H1, H2, H3, H4, H5. unfold copy_secret, secret_of, text_of.
  rewrite !copy_string_spec by done. cbn [mbind option_bind id address secret certificate].
  rewrite Hsame, write_at_zeros, length_take, Hder. do 2 f_equal. lia.
Qed.

Lemma profile_view_spec q :
  stored_wf q -> profile_facts q -> profile_view q = Some (view_of_entry (text_of q)).
Proof.
  intros _ [Hv [H1 H2 H3 H4 H5 H6] _ Hsame].
  apply terminated_strlen in H1, H2, H3, H4, H5. unfold profile_view, view_of_entry, text_of.
  rewrite !copy_string_spec by done. cbn [mbind option_bind id name address weight success].
  by rewrite Hv, Hsame.
Qed.

Lemma mapM_views l :
  Forall stored_wf l -> Forall profile_facts l ->
  mapM profile_view l = Some (map view_of_entry (map text_of l)).
Proof.
  induction l as [|q l IH]; intros Hw Hf; [done|].
  apply Forall_cons in Hw as [Hw Hws], Hf as [Hf Hfs].
  cbn [mapM map]. rewrite profile_view_spec by done. cbn [mbind option_bind]. by rewrite IH.
Qed.

Section readers.
Context {W : Type} `{StorageAdapter W} `{PairingAdapter W}.

Lemma allocate_and_load_run p (w : W) :
  profiles_ok p -> exists set, set_ok set /\ book_in p = book_of set
    /\ allocate_and_load p w = (if (heap_alloc w).1 then Some set else None, (heap_alloc w).2).
Proof.
  intros (set & Hl & Hok & _ & Hb)%load_ok. exists set. split_and!; [done..|].
  unfold allocate_and_load. rewrite run_bind, run_ret, Hl. by destruct (heap_alloc w) as [[] w1].
Qed.

Lemma chosen_of set :
  set_ok set ->
  chosen (book_of set) = (if count set =? 0 then None else Some (Z.to_nat (active_index set)))
  /\ (count set <> 0 -> (Z.to_nat (active_index set) < Z.to_nat (count set))%nat).
Proof.
  intros Hok. split; [done|]. intros Hn. destruct (ok_facts set Hok) as (_ & _ & Ha).
  rewrite (proj2 (Z.eqb_neq _ _) Hn) in Ha. pose proof (ok_count set Hok).
  pose proof (wf_active set (set_ok_wf set Hok)) as Hau. unfold is_u8 in Hau. lia.
Qed.

End readers.

(** What the readers of the paired Companions show, in every reachable
    state: the secret of the chosen profile; the secret of a given profile
    only for the version of the set the caller names; and a snapshot that
    lists the whole book without any token.  Each needs one allocation and
    none can fail otherwise. *)
Theorem readers_show_the_book {W} `{StorageAdapter W, PairingAdapter W} p (w : W) :
  reachable p ->
  (deck_companion_profiles_active_secret p w).1
    = (if (heap_alloc w).1
       then i ← chosen (book_in p); secret_of <$> entries (book_in p) !! i else None)
  /\ (forall id g, valid_profile_id_argument id = true ->
       (deck_companion_profiles_secret_for p id g w).1
       = if (heap_alloc w).1 && has_active (store p) && (generation (active (store p)) =? g)
         then i ← index_of (book_in p) (c_string id); secret_of <$> entries (book_in p) !! i else None)
  /\ ((heap_alloc w).1 = true -> exists shown,
       (deck_companion_profiles_snapshot p w).1 = Some shown
       /\ views shown = map view_of_entry (entries (book_in p))
       /\ snapshot_count shown = Z.of_nat (length (entries (book_in p)))
       /\ snapshot_has_active_profile shown = bool_decide (is_Some (chosen (book_in p)))
       /\ (forall i e, chosen (book_in p) = Some i -> entries (book_in p) !! i = Some e ->
             c_string (active_profile_id shown) = id e)).
Proof.
  intros Hr%reachable_profiles_ok. destruct (allocate_and_load_run p w Hr) as (set & Hok & Hb & Hrun).
  pose proof (chosen_of set Hok) as [Hch Hlt]. rewrite Hb, Hch. pose proof (ok_count set Hok) as Hc.
  split_and!.
  - unfold deck_companion_profiles_active_secret. rewrite run_bind, run_ret, Hrun. cbn [fst snd].
    destruct (heap_alloc w).1; [|done]. destruct (Z.eqb_spec (count set) 0) as [E|E]; [done|].
    specialize (Hlt E). cbn [mbind option_bind]. rewrite entry_at by done.
    destruct (ok_profile set Hok _ Hlt) as [Hw Hf]. by apply copy_secret_spec.
  - intros i g Hv. unfold deck_companion_profiles_secret_for. rewrite Hv. cbn [negb].
    rewrite run_bind, run_ret, Hrun. cbn [fst snd snapshot_has_active snapshot_active deck_transaction_store_snapshot].
    destruct (heap_alloc w).1; [|done]. destruct (has_active (store p)); cbn [negb orb andb]; [|done].
    destruct (generation _ =? g); cbn [negb]; [|done]. rewrite <- find_index by done.
    destruct (find_profile set i) as [j|] eqn:Hf; [|done]. apply found_at in Hf as [Hj _].
    cbn [mbind option_bind]. rewrite entry_at by done.
    destruct (ok_profile set Hok _ Hj) as [Hw Hf]. by apply copy_secret_spec.
  - intros Hh. unfold deck_companion_profiles_snapshot. rewrite run_bind, run_ret, Hrun, Hh. cbn [fst snd mbind option_bind].
    rewrite used_map by (apply Hok || unfold DECK_COMPANION_MAX_PROFILES; lia).
    rewrite mapM_views by (apply used_wf, Hok || apply ok_facts, Hok). cbn [mbind option_bind].
    destruct (Z.eqb_spec (count set) 0) as [E|E]; cbn [mbind option_bind].
    + eexists. split; [done|]. cbn [views snapshot_count snapshot_has_active_profile active_profile_id].
      rewrite length_entries by done. rewrite Z2Nat.id by lia.
      split_and!; [done..| |]; [|done]. symmetry. apply bool_decide_eq_false_2. by intros [].
    + specialize (Hlt E). destruct (ok_profile set Hok _ Hlt) as [Hw Hf].
      rewrite copy_string_spec by (apply terminated_strlen, Hf). cbn [mbind option_bind].
      eexists. split; [done|]. cbn [views snapshot_count snapshot_has_active_profile active_profile_id].
      rewrite length_entries by done. rewrite Z2Nat.id by lia.
      split_and!; [done|done|by rewrite bool_decide_eq_true_2|]. intros i e [= <-]. rewrite entry_at by done. intros [= <-].
      apply c_string_pad, c_string_nonzero.
Qed.

Module ProfilesExample.
Definition fingerprint_a : bytes :=
  pad DECK_COMPANION_FINGERPRINT_CAPACITY ([115; 104; 97; 50; 53; 54; 58] ++ replicate 64 97).

Definition credential : deck_companion_pairing_credential_t := {|
  credential_token := pad DECK_COMPANION_TOKEN_CAPACITY (replicate 43 65);
  credential_fingerprint := fingerprint_a;
  credential_der := pad DECK_COMPANION_CERTIFICATE_DER_CAPACITY [48; 1; 0];
  credential_der_size := 3;
  protocol_version := 1;
|}.

Lemma credential_typed : credential_wf credential.
Proof. split; [by vm_compute|cbn; lia]. Qed.

(** A Companion that accepts every code. *)
Definition companion : PairingAdapter flash := {|
  redeem := fun _ _ _ => mret (true, credential);
  redeem_typed := fun _ _ _ _ => credential_typed;
|}.

(** ["10.0.0.7:80"], ["192.168.4.2:80"] and ["123456"] *)
Definition request : deck_companion_pair_request_t := {|
  request_hub_address := pad DECK_COMPANION_HUB_ADDRESS_CAPACITY [49; 48; 46; 48; 46; 48; 46; 55; 58; 56; 48];
  pairing_address := pad DECK_COMPANION_HUB_ADDRESS_CAPACITY
    [49; 57; 50; 46; 49; 54; 56; 46; 52; 46; 50; 58; 56; 48];
  code := [49; 50; 51; 52; 53; 54; 0];
|}.

Definition created : deck_companion_profiles := {| store := empty_store (created_options store_options) |}.

Definition paired := @deck_companion_profiles_pair _ _ companion created request (sample_flash 40 true).
Definition prioritised :=
  @run_update _ _ (SetPriority fingerprint_a 5) paired.1.2 paired.2.
End ProfilesExample.

#[local] Existing Instance ProfilesExample.companion.

Lemma created_reachable : reachable (W := flash) ProfilesExample.created.
Proof. by apply (reachable_create (sample_flash 40 true) _ (sample_flash 40 true)). Qed.


Lemma updates_follow_the_book_witness :
  exists p' w', ProfilesExample.prioritised = ((DECK_COMPANION_PROFILE_UPDATED, p'), w')
    /\ storage_faulted (store p') = false.
Proof.
  assert (ProfilesExample.prioritised.1.1 = DECK_COMPANION_PROFILE_UPDATED) as Er by (vm_compute; reflexivity).
  unfold ProfilesExample.prioritised in *. destruct ProfilesExample.paired as [[r0 p0] w0] eqn:E0.
  cbn [fst snd] in Er |- *.
  destruct (run_update (SetPriority ProfilesExample.fingerprint_a 5) p0 w0) as [[r p'] w'] eqn:E.
  cbn [fst] in Er. subst r. exists p', w'. split; [reflexivity|].
  assert (update_typed (SetPriority ProfilesExample.fingerprint_a 5)) as Hu by (cbn; words).
  pose proof (reachable_pair _ _ _ _ _ _ created_reachable E0) as Hr0.
  destruct (updates_follow_the_book _ _ _ _ _ _ Hr0 Hu E) as (_ & _ & _ & i & _ & _ & Hf). exact Hf.
Defined.

Lemma readers_show_the_book_witness :
  exists p' w', ProfilesExample.paired = ((DECK_COMPANION_PAIR_PAIRED, p'), w')
    /\ (deck_companion_profiles_active_secret p' w').1
       = (i ← chosen (book_in p'); secret_of <$> entries (book_in p') !! i).
Proof.
  assert (ProfilesExample.paired.1.1 = DECK_COMPANION_PAIR_PAIRED) as Er by (vm_compute; reflexivity).
  destruct ProfilesExample.paired as [[r p'] w'] eqn:E. cbn [fst] in Er. subst r.
  exists p', w'. split; [reflexivity|].
  pose proof (reachable_pair _ _ _ _ _ _ created_reachable E) as Hr.
  exact (proj1 (readers_show_the_book p' w' Hr)).
Defined.
