(* ===== verification/Utf8.v ===== *)
(** * UTF-8

    [valid_utf8] of [components/ai_snapshot/deck_ai_snapshot.cpp], and what it
    decides: the byte string is the encoding of a sequence of Unicode scalar
    values. *)

From S2P Require Import Prelude Codec.

(** The length of a sequence and the smallest code point it may encode, by its
    first byte; the second component is the payload of the first byte.
    [None] returns [false]. *)
Definition utf8_lead (first : Z) : option (nat * Z * Z) :=
  if Z.land first 0xe0 =? 0xc0 then Some (2%nat, Z.land first 0x1f, 0x80)
  else if Z.land first 0xf0 =? 0xe0 then Some (3%nat, Z.land first 0x0f, 0x800)
  else if Z.land first 0xf8 =? 0xf0 then Some (4%nat, Z.land first 0x07, 0x10000)
  else None.

(** The loop over the continuation bytes. *)
Fixpoint utf8_continue (bytes : list Z) (codepoint : Z) : option Z :=
  match bytes with
  | [] => Some codepoint
  | byte :: bytes =>
      if negb (Z.land byte 0xc0 =? 0x80) then None
      else utf8_continue bytes (Z.lor (u32 (Z.shiftl codepoint 6)) (Z.land byte 0x3f))
  end.

(** One turn of the loop on what is left, [first :: rest]: the bytes it
    consumes, or [None] for [return false]. *)
Definition utf8_step (first : Z) (rest : bytes) : option nat :=
  if first <=? 0x7f then Some 1%nat
  else
    match utf8_lead first with
    | None => None
    | Some (count, codepoint, minimum) =>
        if (S (length rest) <? count)%nat then None
        else
          match utf8_continue (take (count - 1) rest) codepoint with
          | None => None
          | Some codepoint =>
              if (codepoint <? minimum) || (0x10ffff <? codepoint)
                 || ((0xd800 <=? codepoint) && (codepoint <=? 0xdfff)) then None
              else Some count
          end
    end.

(** Every turn consumes a byte: the length is fuel enough. *)
Fixpoint valid_utf8_loop (fuel : nat) (value : bytes) : bool :=
  match fuel, value with
  | _, [] => true
  | 0%nat, _ => false
  | S fuel, first :: rest =>
      match utf8_step first rest with
      | None => false
      | Some count => valid_utf8_loop fuel (drop count value)
      end
  end.

Definition valid_utf8 (value : bytes) : bool := valid_utf8_loop (length value) value.

(** ** The reference: encoded scalar values *)

Definition scalar (c : Z) : Prop := 0 <= c <= 0x10ffff /\ ~ (0xd800 <= c <= 0xdfff).

Definition encode_utf8 (c : Z) : bytes :=
  if c <=? 0x7f then [c]
  else if c <=? 0x7ff then [0xc0 + c / 64; 0x80 + c mod 64]
  else if c <=? 0xffff then [0xe0 + c / 4096; 0x80 + c / 64 mod 64; 0x80 + c mod 64]
  else [0xf0 + c / 262144; 0x80 + c / 4096 mod 64; 0x80 + c / 64 mod 64; 0x80 + c mod 64].

(** The bit tests of a byte, as ranges. *)
Definition mask_facts (b : Z) : bool :=
  Bool.eqb (Z.land b 0xe0 =? 0xc0) ((192 <=? b) && (b <=? 223))
  && Bool.eqb (Z.land b 0xf0 =? 0xe0) ((224 <=? b) && (b <=? 239))
  && Bool.eqb (Z.land b 0xf8 =? 0xf0) ((240 <=? b) && (b <=? 247))
  && Bool.eqb (Z.land b 0xc0 =? 0x80) ((128 <=? b) && (b <=? 191))
  && (Z.land b 0x1f =? b mod 32) && (Z.land b 0x0f =? b mod 16) && (Z.land b 0x07 =? b mod 8)
  && (Z.land b 0x3f =? b mod 64).

Lemma mask_facts_all b : is_u8 b -> mask_facts b = true.
Proof.
  intros Hb. assert (forallb mask_facts (map Z.of_nat (seq 0 256)) = true) as Hall by (vm_compute; reflexivity).
  rewrite forallb_Forall, Forall_forall in Hall. apply Hall.
  apply list_elem_of_In, in_map_iff. exists (Z.to_nat b). split; [words|].
  apply in_seq. words.
Qed.

Lemma mask_ranges b :
  is_u8 b ->
  ((Z.land b 0xe0 =? 0xc0) = (192 <=? b) && (b <=? 223))
  /\ ((Z.land b 0xf0 =? 0xe0) = (224 <=? b) && (b <=? 239))
  /\ ((Z.land b 0xf8 =? 0xf0) = (240 <=? b) && (b <=? 247))
  /\ ((Z.land b 0xc0 =? 0x80) = (128 <=? b) && (b <=? 191))
  /\ Z.land b 0x1f = b mod 32 /\ Z.land b 0x0f = b mod 16 /\ Z.land b 0x07 = b mod 8
  /\ Z.land b 0x3f = b mod 64.
Proof.
  intros Hb%mask_facts_all. unfold mask_facts in Hb. bool_prop.
  split_and!; try by apply eqb_prop. all: done.
Qed.

(** A continuation byte adds six bits. *)
Lemma continue_step c b :
  0 <= c < 2 ^ 25 -> is_u8 b -> Z.lor (u32 (Z.shiftl c 6)) (Z.land b 0x3f) = c * 64 + b mod 64.
Proof.
  intros Hc Hb. destruct (mask_ranges b Hb) as (_ & _ & _ & _ & _ & _ & _ & ->).
  rewrite Z.shiftl_mul_pow2 by lia. change (2 ^ 6) with 64.
  rewrite u32_id by (change (2 ^ 25) with 33554432 in Hc; words).
  replace (c * 64) with (Z.shiftl c 6) by (by rewrite Z.shiftl_mul_pow2).
  rewrite Z.lor_comm, lor_shiftl_add by (lia || (apply Z.mod_pos_bound; lia)).
  change (2 ^ 6) with 64. rewrite Z.shiftl_mul_pow2 by lia. change (2 ^ 6) with 64. lia.
Qed.

Ltac divmod := Z.div_mod_to_equations; lia.

(** The continuation loop on one, two and three bytes. *)
Lemma utf8_continue_cons b bytes c :
  0 <= c < 2 ^ 25 -> is_u8 b ->
  utf8_continue (b :: bytes) c
  = if (128 <=? b) && (b <=? 191) then utf8_continue bytes (c * 64 + b mod 64) else None.
Proof.
  intros Hc Hb. cbn [utf8_continue]. rewrite continue_step by done.
  destruct (mask_ranges b Hb) as (_ & _ & _ & -> & _). by destruct (_ && _).
Qed.

(** What the lead byte says, by ranges. *)
Lemma utf8_lead_spec first :
  is_u8 first -> 0x7f < first ->
  utf8_lead first
  = if first <=? 191 then None
    else if first <=? 223 then Some (2%nat, first - 192, 0x80)
    else if first <=? 239 then Some (3%nat, first - 224, 0x800)
    else if first <=? 247 then Some (4%nat, first - 240, 0x10000)
    else None.
Proof.
  intros Hb Hlt. unfold utf8_lead. destruct (mask_ranges first Hb) as (-> & -> & -> & _ & -> & -> & -> & _).
  unfold is_u8 in Hb.
  repeat match goal with |- context [?a <=? ?b] => destruct (Z.leb_spec a b); try lia; cbn [andb] end;
    try done; do 2 f_equal; f_equal; divmod.
Qed.

Lemma utf8_step_sound first rest n :
  is_bytes (first :: rest) -> utf8_step first rest = Some n ->
  exists c, scalar c /\ first :: rest = encode_utf8 c ++ drop n (first :: rest)
    /\ n = length (encode_utf8 c).
Proof.
  intros [Hb Hrest]%Forall_cons. unfold utf8_step. destruct (Z.leb_spec first 0x7f) as [Hle|Hgt].
  { intros [= <-]. exists first. unfold scalar, encode_utf8. rewrite (proj2 (Z.leb_le _ _)) by lia.
    split_and!; [words|lia|lia|done|done]. }
  rewrite utf8_lead_spec by done.
  destruct (Z.leb_spec first 191); [done|]. destruct (Z.leb_spec first 223); [|destruct (Z.leb_spec first 239);
    [|destruct (Z.leb_spec first 247); [|done]]].
  all: destruct (_ <? _)%nat eqn:Hn; [done|]; bool_prop.
  - destruct rest as [|b1 rest]; [simpl in Hn; lia|]. apply Forall_cons in Hrest as [Hb1 _].
    cbn [firstn Nat.sub]. rewrite utf8_continue_cons by (done || lia).
    destruct (_ && _) eqn:E1; [|done]. change (take 0 rest) with (@nil Z); cbn [utf8_continue]. destruct (_ || _ || _) eqn:Eg; [done|].
    intros [= <-]. bool_prop. exists ((first - 192) * 64 + b1 mod 64). unfold scalar, encode_utf8.
    rewrite (proj2 (Z.leb_gt _ _)), (proj2 (Z.leb_le _ _)) by divmod.
    split_and!; [divmod|divmod|divmod|simpl|done]. repeat f_equal; divmod.
  - destruct rest as [|b1 [|b2 rest]]; [simpl in Hn; lia..|].
    apply Forall_cons in Hrest as [Hb1 [Hb2 _]%Forall_cons].
    cbn [firstn Nat.sub]. rewrite utf8_continue_cons by (done || lia).
    destruct (_ && _) eqn:E1; [|done]. rewrite utf8_continue_cons by (done || divmod).
    destruct ((_ <=? b2) && _) eqn:E2; [|done]. change (take 0 rest) with (@nil Z); cbn [utf8_continue].
    destruct (_ || _ || _) eqn:Eg; [done|]. intros [= <-]. bool_prop.
    exists (((first - 224) * 64 + b1 mod 64) * 64 + b2 mod 64). unfold scalar, encode_utf8.
    rewrite !(proj2 (Z.leb_gt _ _)), (proj2 (Z.leb_le _ _)) by divmod.
    split_and!; [divmod|divmod| |simpl|done].
    + bool_cases; divmod.
    + repeat f_equal; divmod.
  - destruct rest as [|b1 [|b2 [|b3 rest]]]; [simpl in Hn; lia..|].
    apply Forall_cons in Hrest as [Hb1 [Hb2 [Hb3 _]%Forall_cons]%Forall_cons].
    cbn [firstn Nat.sub]. rewrite utf8_continue_cons by (done || lia).
    destruct (_ && _) eqn:E1; [|done]. rewrite utf8_continue_cons by (done || divmod).
    destruct ((_ <=? b2) && _) eqn:E2; [|done]. rewrite utf8_continue_cons by (done || divmod).
    destruct ((_ <=? b3) && _) eqn:E3; [|done]. change (take 0 rest) with (@nil Z); cbn [utf8_continue].
    destruct (_ || _ || _) eqn:Eg; [done|]. intros [= <-]. bool_prop.
    exists ((((first - 240) * 64 + b1 mod 64) * 64 + b2 mod 64) * 64 + b3 mod 64). unfold scalar, encode_utf8.
    rewrite !(proj2 (Z.leb_gt _ _)) by divmod.
    split_and!; [divmod|divmod|divmod|simpl|done]. repeat f_equal; divmod.
Qed.

Lemma utf8_step_complete c k :
  scalar c -> exists first rest, encode_utf8 c ++ k = first :: rest
    /\ utf8_step first rest = Some (length (encode_utf8 c)).
Proof.
  intros [Hc Hs]. unfold encode_utf8.
  destruct (Z.leb_spec c 0x7f) as [H1|H1]; [|destruct (Z.leb_spec c 0x7ff) as [H2|H2];
    [|destruct (Z.leb_spec c 0xffff) as [H3|H3]]].
  all: cbn [app]; eexists _, _; (split; [reflexivity|]).
  - unfold utf8_step. by rewrite (proj2 (Z.leb_le _ _)) by lia.
  - unfold utf8_step. rewrite (proj2 (Z.leb_gt _ 0x7f)) by divmod. rewrite utf8_lead_spec by (words || divmod).
    rewrite (proj2 (Z.leb_gt _ 191)), (proj2 (Z.leb_le _ 223)) by divmod.
    cbn [length Nat.ltb Nat.leb Nat.sub]. simpl take.
    rewrite utf8_continue_cons by (words || divmod).
    rewrite (proj2 (Z.leb_le 128 _)), (proj2 (Z.leb_le _ 191)) by divmod. cbn [andb]. change (take 0 k) with (@nil Z). cbn [utf8_continue].
    replace ((192 + c / 64 - 192) * 64 + (128 + c mod 64) mod 64) with c by divmod.
    rewrite (proj2 (Z.ltb_ge _ _)), (proj2 (Z.ltb_ge _ _)), (proj2 (Z.leb_gt _ c)) by lia. done.
  - unfold utf8_step. rewrite (proj2 (Z.leb_gt _ 0x7f)) by divmod. rewrite utf8_lead_spec by (words || divmod).
    rewrite (proj2 (Z.leb_gt _ 191)), (proj2 (Z.leb_gt _ 223)), (proj2 (Z.leb_le _ 239)) by divmod.
    cbn [length Nat.ltb Nat.leb Nat.sub]. simpl take.
    rewrite utf8_continue_cons by (words || divmod).
    rewrite (proj2 (Z.leb_le 128 _)), (proj2 (Z.leb_le _ 191)) by divmod. cbn [andb].
    rewrite utf8_continue_cons by (words || divmod).
    rewrite (proj2 (Z.leb_le 128 _)), (proj2 (Z.leb_le _ 191)) by divmod. cbn [andb]. change (take 0 k) with (@nil Z). cbn [utf8_continue].
    match goal with |- context [?x <? 2048] => replace x with c by divmod end.
    rewrite (proj2 (Z.ltb_ge _ _)), (proj2 (Z.ltb_ge _ _)) by lia.
    destruct (_ && _) eqn:E; [bool_prop; lia|done].
  - unfold utf8_step. rewrite (proj2 (Z.leb_gt _ 0x7f)) by divmod. rewrite utf8_lead_spec by (words || divmod).
    rewrite (proj2 (Z.leb_gt _ 191)), (proj2 (Z.leb_gt _ 223)), (proj2 (Z.leb_gt _ 239)),
      (proj2 (Z.leb_le _ 247)) by divmod.
    cbn [length Nat.ltb Nat.leb Nat.sub]. simpl take.
    do 3 (rewrite utf8_continue_cons by (words || divmod);
      rewrite (proj2 (Z.leb_le 128 _)), (proj2 (Z.leb_le _ 191)) by divmod; cbn [andb]).
    change (take 0 k) with (@nil Z). cbn [utf8_continue].
    match goal with |- context [?x <? 65536] => replace x with c by divmod end.
    rewrite (proj2 (Z.ltb_ge _ _)), (proj2 (Z.ltb_ge _ _)) by lia.
    destruct (_ && _) eqn:E; [bool_prop; lia|done].
Qed.

Lemma encode_utf8_nonempty c : (0 < length (encode_utf8 c))%nat.
Proof. unfold encode_utf8. repeat case_match; simpl; lia. Qed.

Lemma valid_utf8_loop_spec fuel value :
  (length value <= fuel)%nat -> is_bytes value ->
  valid_utf8_loop fuel value = true
  <-> exists cs, Forall scalar cs /\ value = concat (map encode_utf8 cs).
Proof.
  revert value. induction fuel as [|fuel IH]; intros value Hf Hb.
  { destruct value; [|simpl in Hf; lia]. split; [|done]. intros _. by exists []. }
  destruct value as [|first rest]; [split; [intros _; by exists []|done]|]. cbn [valid_utf8_loop]. split.
  - destruct (utf8_step first rest) as [n|] eqn:E; [|done]. apply utf8_step_sound in E as (c & Hc & Ec & ->); [|done].
    intros Hr. pose proof (encode_utf8_nonempty c).
    apply IH in Hr as (cs & Hcs & Ecs).
    + exists (c :: cs). split; [by constructor|]. cbn [map concat]. by rewrite <- Ecs.
    + rewrite length_drop. simpl in Hf |- *. lia.
    + by apply Forall_drop.
  - intros (cs & Hcs & Ev). destruct Hcs as [|c cs Hc Hcs]; [done|]. cbn [map concat] in Ev.
    destruct (utf8_step_complete c (concat (map encode_utf8 cs)) Hc) as (f & r & Er & Hstep).
    rewrite <- Ev in Er. injection Er as <- <-. rewrite Hstep, Ev, drop_app_length. apply IH.
    + apply (f_equal length) in Ev. rewrite length_app in Ev. pose proof (encode_utf8_nonempty c).
      simpl in Ev, Hf. lia.
    + rewrite Ev in Hb. by apply Forall_app in Hb as [_ ?].
    + by exists cs.
Qed.

(** The UTF-8 check decides the encoding: a byte string passes exactly
    when it is the concatenation of the shortest encodings of Unicode scalar
    values; so over-long forms, surrogates, values beyond U+10FFFF and cut-off
    sequences are all refused, and the loop never runs out of fuel. *)
Theorem valid_utf8_spec value :
  is_bytes value ->
  valid_utf8 value = true <-> exists cs, Forall scalar cs /\ value = concat (map encode_utf8 cs).
Proof. intros Hb. by apply valid_utf8_loop_spec. Qed.

Lemma valid_utf8_spec_witness :
  valid_utf8 [0xe2; 0x82; 0xac; 65] = true
  /\ exists cs, Forall scalar cs /\ [0xe2; 0x82; 0xac; 65] = concat (map encode_utf8 cs).
Proof.
  assert (is_bytes [0xe2; 0x82; 0xac; 65]) as Hb by (repeat constructor; lia).
  split; [vm_compute; reflexivity|]. apply (valid_utf8_spec [0xe2; 0x82; 0xac; 65] Hb). vm_compute. reflexivity.
Defined.
