(* ===== verification/JsonParser.v ===== *)
(** * The JSON parser of the AI snapshot

    [class Parser] and the node array of
    [components/ai_snapshot/deck_ai_snapshot.cpp].  A document is the list of
    its bytes; the nodes form trees linked by indices into the node array, and
    [kNoNode] is [None].  The array holds the [count_] nodes allocated so far.

    A method that returns [false] ends the parse, so [None] stands for
    [false]; one that returns [true] gives its outputs and the new state. *)

From Stdlib Require Import String.
From S2P Require Import Prelude CString Utf8.

Definition kMaximumNodes : nat := 2048.

Inductive NodeType := object | array | string | integer | boolean | null_value.

#[export] Instance node_type_eq_dec : EqDecision NodeType.
Proof. solve_decision. Defined.

Record Node := {
  type : NodeType;
  start : nat;
  end_ : nat;
  first_child : option nat;
  next_sibling : option nat;
}.

#[export] Instance node_rebuild : Rebuild Node := fun n =>
  {| type := type n; start := start n; end_ := end_ n; first_child := first_child n;
     next_sibling := next_sibling n |}.

(** [nodes_[index]], inside the array *)
Definition node (nodes : list Node) (index : nat) : Node :=
  default {| type := null_value; start := 0; end_ := 0; first_child := None; next_sibling := None |}
    (nodes !! index).

(** The indices a loop over siblings visits:
    [for (i = first; i != kNoNode; i = nodes_[i].next_sibling)].  A sibling
    has a larger index, so the size of the array is fuel enough. *)
Fixpoint siblings_from (fuel : nat) (nodes : list Node) (first : option nat) : list nat :=
  match fuel, first with
  | S fuel, Some index => index :: siblings_from fuel nodes (next_sibling (node nodes index))
  | _, _ => []
  end.

Definition siblings (nodes : list Node) (first : option nat) : list nat :=
  siblings_from (List.length nodes) nodes first.

(** ** Strings of the document

    The bytes of a span are read from the front of [rest]. *)

(** [std::strchr("\doublequote\\/bfnrt", escaped) != nullptr]: the terminator
    of the literal is found too. *)
Definition simple_escape (escaped : Z) : bool :=
  existsb (fun c => escaped =? c) [34; 92; 47; 98; 102; 110; 114; 116; 0].

Definition is_xdigit (byte : Z) : bool :=
  is_digit byte || ((97 <=? byte) && (byte <=? 102)) || ((65 <=? byte) && (byte <=? 70)).

(** The value of a hexadecimal digit; [None] is [return false]. *)
Definition hex_value (character : Z) : option Z :=
  if is_digit character then Some (character - 48)
  else if (97 <=? character) && (character <=? 102) then Some (character - 97 + 10)
  else if (65 <=? character) && (character <=? 70) then Some (character - 65 + 10)
  else None.

(** Four digits: the code point and the rest of the span. *)
Definition hex_quad (rest : bytes) : option (Z * bytes) :=
  match rest with
  | h1 :: h2 :: h3 :: h4 :: rest =>
      d1 ← hex_value h1; d2 ← hex_value h2; d3 ← hex_value h3; d4 ← hex_value h4;
      let step codepoint digit := Z.lor (u32 (Z.shiftl codepoint 4)) digit in
      Some (step (step (step (step 0 d1) d2) d3) d4, rest)
  | _ => None
  end.

(** [Document::decode_ascii] on the bytes of the span, with room for
    [capacity] bytes and the terminator included in it; [written] is what has
    been written. *)
Fixpoint decode_ascii_loop (fuel : nat) (capacity : nat) (written rest : bytes) : option bytes :=
  match fuel, rest with
  | _, [] => Some written
  | 0%nat, _ => None
  | S fuel, byte :: rest =>
      let put byte rest :=
        if (0x7f <? byte) || (capacity <=? List.length written + 1)%nat then None
        else decode_ascii_loop fuel capacity (written ++ [byte]) rest in
      if negb (byte =? 92) then put byte rest
      else
        match rest with
        | [] => None
        | escaped :: rest =>
            if (escaped =? 34) || (escaped =? 92) || (escaped =? 47) then put escaped rest
            else if escaped =? 98 then put 8 rest
            else if escaped =? 102 then put 12 rest
            else if escaped =? 110 then put 10 rest
            else if escaped =? 114 then put 13 rest
            else if escaped =? 116 then put 9 rest
            else if escaped =? 117 then
              match hex_quad rest with
              | None => None
              | Some (codepoint, rest) =>
                  if 0x7f <? codepoint then None else put codepoint rest
              end
            else None
        end
  end.

(** A parsed document: its text and its nodes. *)
Record Document := { text : bytes; nodes : list Node }.

(** The bytes of a node's span. *)
Definition span (document : Document) (index : nat) : bytes :=
  let n := node (nodes document) index in slice (start n) (end_ n - start n) (text document).

(** The characters before the terminator; [None] is [false]. *)
Definition decode_ascii (document : Document) (index : nat) (capacity : nat) : option bytes :=
  if negb (bool_decide (type (node (nodes document) index) = string)) || (capacity =? 0)%nat then None
  else
    let bytes := span document index in
    decode_ascii_loop (List.length bytes) capacity [] bytes.

(** ** The parser *)

(** [document_] and [capacity_] do not change. *)
Record parser := { position : nat; parsed : list Node }.

Section parser.
Context (document : bytes) (capacity : nat).

Definition size : nat := List.length document.

(** [true], the outputs and the state. *)
Definition parses (A : Type) := parser -> option (A * parser).

Definition allocate (type : NodeType) (start : nat) : parses nat := fun p =>
  if (List.length (parsed p) =? capacity)%nat then None
  else
    let index := List.length (parsed p) in
    Some (index, {| position := position p;
                    parsed := parsed p ++ [{| type := type; start := start; end_ := 0;
                                              first_child := None; next_sibling := None |}] |}).

(** The walk to the last sibling. *)
Fixpoint last_sibling (fuel : nat) (nodes : list Node) (sibling : nat) : nat :=
  match fuel, next_sibling (node nodes sibling) with
  | S fuel, Some next => last_sibling fuel nodes next
  | _, _ => sibling
  end.

Definition append_child (nodes : list Node) (parent child : nat) : list Node :=
  match first_child (node nodes parent) with
  | None => alter (fun n => n <| first_child := Some child |>) parent nodes
  | Some sibling =>
      let sibling := last_sibling (List.length nodes) nodes sibling in
      alter (fun n => n <| next_sibling := Some child |>) sibling nodes
  end.

Definition set_end (nodes : list Node) (index position : nat) : list Node :=
  alter (fun n => n <| end_ := position |>) index nodes.

Definition is_whitespace (byte : Z) : bool :=
  (byte =? 32) || (byte =? 9) || (byte =? 13) || (byte =? 10).

Fixpoint leading_whitespace (rest : bytes) : nat :=
  match rest with
  | byte :: rest => if is_whitespace byte then S (leading_whitespace rest) else 0
  | [] => 0
  end.

Definition whitespace (p : parser) : parser :=
  {| position := position p + leading_whitespace (drop (position p) document); parsed := parsed p |}.

(** [document_[position_]], [None] at the end. *)
Definition peek (p : parser) : option Z := document !! position p.

(** [None] is [false]. *)
Definition consume (expected : Z) (p : parser) : option parser :=
  if bool_decide (peek p = Some expected)
  then Some {| position := position p + 1; parsed := parsed p |} else None.

(** The loop over the bytes behind the opening quote: the number of bytes
    before the closing one. *)
Fixpoint string_length (rest : bytes) : option nat :=
  match rest with
  | [] => None
  | byte :: rest =>
      if byte =? 34 then Some 0%nat
      else if byte <? 0x20 then None
      else if negb (byte =? 92) then S <$> string_length rest
      else
        match rest with
        | [] => None
        | escaped :: rest =>
            if simple_escape escaped then (fun n => S (S n)) <$> string_length rest
            else if negb (escaped =? 117) then None
            else
              match rest with
              | h1 :: h2 :: h3 :: h4 :: rest =>
                  if is_xdigit h1 && is_xdigit h2 && is_xdigit h3 && is_xdigit h4
                  then (fun n => 6 + n)%nat <$> string_length rest else None
              | _ => None
              end
        end
  end.

Definition parse_string : parses nat := fun p =>
  if negb (bool_decide (peek p = Some 34)) then None
  else
    let start := (position p + 1)%nat in
    '(index, p) ← allocate string start p;
    n ← string_length (drop start document);
    Some (index, {| position := start + n + 1; parsed := set_end (parsed p) index (start + n) |}).

Definition duplicate_key (nodes : list Node) (object_index candidate : nat) : bool :=
  let parsed := {| text := document; nodes := nodes |} in
  match decode_ascii parsed candidate 65 with
  | None => true
  | Some candidate_text =>
      existsb (fun key =>
        match decode_ascii parsed key 65 with
        | None => true
        | Some existing => strcmp_eq candidate_text existing
        end) (siblings nodes (first_child (node nodes object_index)))
  end.

Fixpoint leading_digits (rest : bytes) : nat :=
  match rest with
  | byte :: rest => if is_digit byte then S (leading_digits rest) else 0
  | [] => 0
  end.

Definition parse_integer : parses nat := fun p =>
  let start := position p in
  let at_ := if bool_decide (document !! start = Some 45) then (start + 1)%nat else start in
  let digits := leading_digits (drop at_ document) in
  if (digits =? 0)%nat then None
  else if bool_decide (document !! at_ = Some 48) && (1 <? digits)%nat then None
  else
    let stop := (at_ + digits)%nat in
    if existsb (fun c => bool_decide (document !! stop = Some c)) [46; 101; 69] then None
    else
      '(index, p) ← allocate integer start p;
      Some (index, {| position := stop; parsed := set_end (parsed p) index stop |}).

Definition parse_literal (literal_value : bytes) (type : NodeType) : parses nat := fun p =>
  let start := position p in
  if negb (bool_decide (slice start (List.length literal_value) document = literal_value)) then None
  else
    let stop := (start + List.length literal_value)%nat in
    '(index, p) ← allocate type start p;
    Some (index, {| position := stop; parsed := set_end (parsed p) index stop |}).

Section levels.
(** [value] at the next depth. *)
Context (value : parses nat).

(** The loop of [object] for the object at [index]. *)
Fixpoint object_loop (fuel : nat) (index : nat) (p : parser) : option parser :=
  match fuel with
  | 0%nat => None
  | S fuel =>
      '(key, p) ← parse_string p;
      if duplicate_key (parsed p) index key then None
      else
        let p := {| position := position p; parsed := append_child (parsed p) index key |} in
        p ← consume 58 (whitespace p);
        '(child, p) ← value p;
        let p := {| position := position p;
                    parsed := alter (fun n => n <| first_child := Some child |>) key (parsed p) |} in
        let p := whitespace p in
        match consume 125 p with
        | Some p => Some {| position := position p; parsed := set_end (parsed p) index (position p) |}
        | None => p ← consume 44 p; object_loop fuel index (whitespace p)
        end
  end.

Definition parse_object : parses nat := fun p =>
  let start := position p in
  '(index, p) ← allocate object start {| position := start + 1; parsed := parsed p |};
  let p := whitespace p in
  match consume 125 p with
  | Some p => Some (index, {| position := position p; parsed := set_end (parsed p) index (position p) |})
  | None => p ← object_loop (S size) index p; Some (index, p)
  end.

(** The loop of [array] for the array at [index]. *)
Fixpoint array_loop (fuel : nat) (index : nat) (p : parser) : option parser :=
  match fuel with
  | 0%nat => None
  | S fuel =>
      '(child, p) ← value p;
      let p := whitespace {| position := position p; parsed := append_child (parsed p) index child |} in
      match consume 93 p with
      | Some p => Some {| position := position p; parsed := set_end (parsed p) index (position p) |}
      | None => p ← consume 44 p; array_loop fuel index (whitespace p)
      end
  end.

Definition parse_array : parses nat := fun p =>
  let start := position p in
  '(index, p) ← allocate array start {| position := start + 1; parsed := parsed p |};
  let p := whitespace p in
  match consume 93 p with
  | Some p => Some (index, {| position := position p; parsed := set_end (parsed p) index (position p) |})
  | None => p ← array_loop (S size) index p; Some (index, p)
  end.

End levels.

(** [value(index, depth)] with [levels] = 33 - [depth]: a depth over 32 is
    refused. *)
Fixpoint value (levels : nat) (p : parser) : option (nat * parser) :=
  let p := whitespace p in
  match levels with
  | 0%nat => None
  | S levels =>
      match peek p with
      | None => None
      | Some byte =>
          if byte =? 123 then parse_object (value levels) p
          else if byte =? 91 then parse_array (value levels) p
          else if byte =? 34 then parse_string p
          else if byte =? 116 then parse_literal (literal "true") boolean p
          else if byte =? 102 then parse_literal (literal "false") boolean p
          else if byte =? 110 then parse_literal (literal "null") null_value p
          else parse_integer p
      end
  end.

(** The root and the nodes; [None] is [false]. *)
Definition parse : option (nat * list Node) :=
  '(root, p) ← value 33 (whitespace {| position := 0; parsed := [] |});
  if negb (root =? 0)%nat then None
  else
    let p := whitespace p in
    if (position p =? size)%nat then Some (root, parsed p) else None.

End parser.
