(* ===== verification/JsonGrammar.v ===== *)
(** * The grammar of the JSON parser

    The trees a document denotes, the texts that denote them, and how a tree
    lies in the node array; the parser's soundness and completeness for them
    are in JsonParserSpec. *)

From Stdlib Require Import String.
From S2P Require Import Prelude CString JsonParser.

(** ** Trees and texts *)

(** Strings, keys and numbers are kept as they are spelled. *)
Inductive json :=
  | JObject (members : list (bytes * json))
  | JArray (items : list json)
  | JString (raw : bytes)
  | JInteger (raw : bytes)
  | JBoolean (b : bool)
  | JNull.

(** What may stand between the quotes of a string. *)
Inductive string_body : bytes -> Prop :=
  | body_end : string_body []
  | body_plain b rest :
      0x20 <= b -> b <> 34 -> b <> 92 -> string_body rest -> string_body (b :: rest)
  | body_escape e rest : simple_escape e = true -> string_body rest -> string_body (92 :: e :: rest)
  | body_unicode h1 h2 h3 h4 rest :
      is_xdigit h1 = true -> is_xdigit h2 = true -> is_xdigit h3 = true -> is_xdigit h4 = true ->
      string_body rest -> string_body (92 :: 117 :: h1 :: h2 :: h3 :: h4 :: rest).

(** An integer: no leading zero, no fraction, no exponent. *)
Definition integer_text (raw : bytes) : Prop :=
  exists sign ds, raw = sign ++ ds /\ (sign = [] \/ sign = [45]) /\ ds <> []
    /\ Forall (fun b => is_digit b = true) ds /\ (head ds = Some 48 -> ds = [48]).

Definition blank (w : bytes) : Prop := Forall (fun b => is_whitespace b = true) w.

Definition quoted (raw : bytes) : bytes := [34] ++ raw ++ [34].

Inductive json_text : json -> bytes -> Prop :=
  | text_string raw : string_body raw -> json_text (JString raw) (quoted raw)
  | text_integer raw : integer_text raw -> json_text (JInteger raw) raw
  | text_true : json_text (JBoolean true) (literal "true")
  | text_false : json_text (JBoolean false) (literal "false")
  | text_null : json_text JNull (literal "null")
  | text_no_members w : blank w -> json_text (JObject []) ([123] ++ w ++ [125])
  | text_object ms t : ms <> [] -> members_text ms t -> json_text (JObject ms) ([123] ++ t ++ [125])
  | text_no_items w : blank w -> json_text (JArray []) ([91] ++ w ++ [93])
  | text_array vs t : vs <> [] -> items_text vs t -> json_text (JArray vs) ([91] ++ t ++ [93])
with members_text : list (bytes * json) -> bytes -> Prop :=
  | text_members_one w1 key w2 w3 v t w4 :
      blank w1 -> string_body key -> blank w2 -> blank w3 -> json_text v t -> blank w4 ->
      members_text [(key, v)] (w1 ++ quoted key ++ w2 ++ [58] ++ w3 ++ t ++ w4)
  | text_members_more w1 key w2 w3 v t w4 ms rest :
      blank w1 -> string_body key -> blank w2 -> blank w3 -> json_text v t -> blank w4 ->
      members_text ms rest ->
      members_text ((key, v) :: ms) (w1 ++ quoted key ++ w2 ++ [58] ++ w3 ++ t ++ w4 ++ [44] ++ rest)
with items_text : list json -> bytes -> Prop :=
  | text_items_one w1 v t w2 :
      blank w1 -> json_text v t -> blank w2 -> items_text [v] (w1 ++ t ++ w2)
  | text_items_more w1 v t w2 vs rest :
      blank w1 -> json_text v t -> blank w2 -> items_text vs rest ->
      items_text (v :: vs) (w1 ++ t ++ w2 ++ [44] ++ rest).

(** Nodes of a tree, levels of nesting, and keys: every key decodes to at most
    64 ASCII characters, and no two of an object agree up to a NUL. *)
Fixpoint node_count (t : json) : nat :=
  match t with
  | JObject ms => S (fold_right (fun m n => 1 + node_count m.2 + n)%nat 0%nat ms)
  | JArray vs => S (fold_right (fun v n => node_count v + n)%nat 0%nat vs)
  | _ => 1
  end.

Fixpoint levels (t : json) : nat :=
  match t with
  | JObject ms => S (fold_right (fun m n => Nat.max (levels m.2) n) 0%nat ms)
  | JArray vs => S (fold_right (fun v n => Nat.max (levels v) n) 0%nat vs)
  | _ => 1
  end.

Definition decode_key (key : bytes) : option bytes := decode_ascii_loop (List.length key) 65 [] key.

(** A key that can follow the keys [before]. *)
Definition fresh_key (before : list bytes) (key : bytes) : Prop :=
  exists x, decode_key key = Some x
    /\ Forall (fun k => exists y, decode_key k = Some y /\ c_string x <> c_string y) before.

Fixpoint fresh_keys (before keys : list bytes) : Prop :=
  match keys with
  | [] => True
  | key :: keys => fresh_key before key /\ fresh_keys (before ++ [key]) keys
  end.

Fixpoint keys_ok (t : json) : Prop :=
  match t with
  | JObject ms => fresh_keys [] (map fst ms) /\ fold_right (fun m P => keys_ok m.2 /\ P) True ms
  | JArray vs => fold_right (fun v P => keys_ok v /\ P) True vs
  | _ => True
  end.

(** ** Trees in the node array *)

Section layout.
Context (document : bytes) (nodes : list Node).

Definition node_text (n : Node) : bytes := slice (start n) (end_ n - start n) document.

(** The tree at index [i] fills the array up to [j]; [next] is the root's
    sibling.  The members of an object are its keys, whose children are the
    values; [link] is the sibling of the last one. *)
Inductive tree_at : nat -> option nat -> json -> nat -> Prop :=
  | at_string i n raw :
      nodes !! i = Some n -> type n = string -> node_text n = raw -> first_child n = None ->
      tree_at i (next_sibling n) (JString raw) (S i)
  | at_integer i n raw :
      nodes !! i = Some n -> type n = integer -> node_text n = raw -> first_child n = None ->
      tree_at i (next_sibling n) (JInteger raw) (S i)
  | at_boolean i n b :
      nodes !! i = Some n -> type n = boolean ->
      node_text n = literal (if (b : bool) then "true" else "false") -> first_child n = None ->
      tree_at i (next_sibling n) (JBoolean b) (S i)
  | at_null i n :
      nodes !! i = Some n -> type n = null_value -> first_child n = None ->
      tree_at i (next_sibling n) JNull (S i)
  | at_object i n ms j :
      nodes !! i = Some n -> type n = object ->
      first_child n = (if decide (ms = []) then None else Some (S i)) ->
      members_at (S i) None ms j -> tree_at i (next_sibling n) (JObject ms) j
  | at_array i n vs j :
      nodes !! i = Some n -> type n = array ->
      first_child n = (if decide (vs = []) then None else Some (S i)) ->
      items_at (S i) None vs j -> tree_at i (next_sibling n) (JArray vs) j
with members_at : nat -> option nat -> list (bytes * json) -> nat -> Prop :=
  | at_no_members k link : members_at k link [] k
  | at_member k link n key v k' ms j :
      nodes !! k = Some n -> type n = string -> node_text n = key -> first_child n = Some (S k) ->
      next_sibling n = (if decide (ms = []) then link else Some k') ->
      tree_at (S k) None v k' -> members_at k' link ms j -> members_at k link ((key, v) :: ms) j
with items_at : nat -> option nat -> list json -> nat -> Prop :=
  | at_no_items k link : items_at k link [] k
  | at_item k link v k' vs j :
      tree_at k (if decide (vs = []) then link else Some k') v k' ->
      items_at k' link vs j -> items_at k link (v :: vs) j.

End layout.

Scheme tree_at_min := Minimality for tree_at Sort Prop
  with members_at_min := Minimality for members_at Sort Prop
  with items_at_min := Minimality for items_at Sort Prop.
Combined Scheme layout_ind from tree_at_min, members_at_min, items_at_min.

Scheme json_text_min := Minimality for json_text Sort Prop
  with members_text_min := Minimality for members_text Sort Prop
  with items_text_min := Minimality for items_text Sort Prop.
Combined Scheme text_ind from json_text_min, members_text_min, items_text_min.

(** Trees fill an interval of the array. *)
Lemma layout_bounds document nodes :
  (forall i next t j, tree_at document nodes i next t j -> (i < j <= List.length nodes)%nat /\ j = (i + node_count t)%nat)
  /\ (forall k link ms j, members_at document nodes k link ms j ->
        (k <= j)%nat /\ (ms <> [] -> j <= List.length nodes)%nat
        /\ j = (k + fold_right (fun m n => 1 + node_count m.2 + n)%nat 0%nat ms)%nat)
  /\ (forall k link vs j, items_at document nodes k link vs j ->
        (k <= j)%nat /\ (vs <> [] -> j <= List.length nodes)%nat
        /\ j = (k + fold_right (fun v n => node_count v + n)%nat 0%nat vs)%nat).
Proof.
  apply (layout_ind document nodes); cbn [node_count fold_right].
  - intros i n raw Hn%lookup_lt_Some _ _ _. lia.
  - intros i n raw Hn%lookup_lt_Some _ _ _. lia.
  - intros i n b Hn%lookup_lt_Some _ _ _. lia.
  - intros i n Hn%lookup_lt_Some _ _. lia.
  - intros i n ms j Hn%lookup_lt_Some _ _ _ (Hle & Hlen & Hj).
    split; [|lia]. destruct ms; [simpl in Hj; lia|]. specialize (Hlen ltac:(done)). lia.
  - intros i n vs j Hn%lookup_lt_Some _ _ _ (Hle & Hlen & Hj).
    split; [|lia]. destruct vs; [simpl in Hj; lia|]. specialize (Hlen ltac:(done)). lia.
  - intros k link. split_and!; [lia|done|lia].
  - intros k link n key v k' ms j Hn%lookup_lt_Some _ _ _ _ _ ([? ?] & ?) _ (Hle & Hlen & Hj).
    cbn [snd]. split_and!; [lia| |lia]. intros _. destruct ms; [simpl in Hj; lia|by apply Hlen].
  - intros k link. split_and!; [lia|done|lia].
  - intros k link v k' vs j _ ([? ?] & ?) _ (Hle & Hlen & Hj).
    split_and!; [lia| |lia]. intros _. destruct vs; [simpl in Hj; lia|by apply Hlen].
Qed.

(** The array outside a tree does not matter. *)
Lemma layout_ext document nodes nodes' :
  (forall i next t j, tree_at document nodes i next t j ->
     (forall k, (i <= k < j)%nat -> nodes' !! k = nodes !! k) -> tree_at document nodes' i next t j)
  /\ (forall k link ms j, members_at document nodes k link ms j ->
     (forall x, (k <= x < j)%nat -> nodes' !! x = nodes !! x) -> members_at document nodes' k link ms j)
  /\ (forall k link vs j, items_at document nodes k link vs j ->
     (forall x, (k <= x < j)%nat -> nodes' !! x = nodes !! x) -> items_at document nodes' k link vs j).
Proof.
  pose proof (layout_bounds document nodes) as (Bt & Bm & Bi).
  apply (layout_ind document nodes).
  - intros i n raw Hn Ht Hx Hf He. apply at_string; try done. by rewrite He by lia.
  - intros i n raw Hn Ht Hx Hf He. apply at_integer; try done. by rewrite He by lia.
  - intros i n b Hn Ht Hx Hf He. apply at_boolean; try done. by rewrite He by lia.
  - intros i n Hn Ht Hf He. apply at_null; try done. by rewrite He by lia.
  - intros i n ms j Hn Ht Hf Hm IH He. pose proof (Bm _ _ _ _ Hm) as (Hle & _).
    apply (at_object _ _ _ n); try done; [by rewrite He by lia|]. apply IH. intros. apply He. lia.
  - intros i n vs j Hn Ht Hf Hm IH He. pose proof (Bi _ _ _ _ Hm) as (Hle & _).
    apply (at_array _ _ _ n); try done; [by rewrite He by lia|]. apply IH. intros. apply He. lia.
  - intros. apply at_no_members.
  - intros k link n key v k' ms j Hn Ht Hx Hf Hnext Hv IHv Hm IHm He.
    pose proof (Bt _ _ _ _ Hv) as ([? ?] & _). pose proof (Bm _ _ _ _ Hm) as (? & _).
    apply (at_member _ _ _ _ n _ _ k'); try done.
    + by rewrite He by lia.
    + apply IHv. intros. apply He. lia.
    + apply IHm. intros. apply He. lia.
  - intros. apply at_no_items.
  - intros k link v k' vs j Hv IHv Hm IHm He.
    pose proof (Bt _ _ _ _ Hv) as ([? ?] & _). pose proof (Bi _ _ _ _ Hm) as (? & _).
    apply (at_item _ _ _ _ _ k').
    + apply IHv. intros. apply He. lia.
    + apply IHm. intros. apply He. lia.
Qed.
