(* ===== verification/JsonLayout.v ===== *)
(** * Growing a tree in the node array

    What [append_child] and the assignments of the parser's loops do to an
    object or an array that is still open. *)

From S2P Require Import Prelude CString JsonParser JsonGrammar.

Section growing.
Context (document : bytes).
Implicit Types (nodes : list Node) (ms : list (bytes * json)) (vs : list json).

(** Nodes agree on the interval. *)
Definition agree nodes nodes' (i j : nat) : Prop := forall x, (i <= x < j)%nat -> nodes' !! x = nodes !! x.

Lemma tree_ext nodes nodes' i next t j :
  tree_at document nodes i next t j -> agree nodes nodes' i j -> tree_at document nodes' i next t j.
Proof. intros. by eapply layout_ext. Qed.
Lemma members_ext nodes nodes' k link ms j :
  members_at document nodes k link ms j -> agree nodes nodes' k j -> members_at document nodes' k link ms j.
Proof. intros. by eapply layout_ext. Qed.
Lemma items_ext nodes nodes' k link vs j :
  items_at document nodes k link vs j -> agree nodes nodes' k j -> items_at document nodes' k link vs j.
Proof. intros. by eapply layout_ext. Qed.

Lemma tree_bounds nodes i next t j :
  tree_at document nodes i next t j -> (i < j <= length nodes)%nat /\ j = (i + node_count t)%nat.
Proof. apply layout_bounds. Qed.
Lemma members_bounds nodes k link ms j : members_at document nodes k link ms j -> (k <= j)%nat.
Proof. apply layout_bounds. Qed.
Lemma items_bounds nodes k link vs j : items_at document nodes k link vs j -> (k <= j)%nat.
Proof. apply layout_bounds. Qed.

Definition set_next (next : nat) (n : Node) : Node := n <| next_sibling := Some next |>.

Lemma node_at nodes i n : nodes !! i = Some n -> node nodes i = n.
Proof. unfold node. by intros ->. Qed.

Lemma agree_alter f nodes l i j : (l < i \/ j <= l)%nat -> agree nodes (alter f l nodes) i j.
Proof. intros Hl x Hx. apply list_lookup_alter_ne. lia. Qed.

Lemma agree_app nodes more i j : (j <= length nodes)%nat -> agree nodes (nodes ++ more) i j.
Proof. intros Hj x Hx. apply lookup_app_l. lia. Qed.

(** The root's sibling is set. *)
Lemma tree_set_next nodes i next t j x :
  tree_at document nodes i next t j -> tree_at document (alter (set_next x) i nodes) i (Some x) t j.
Proof.
  intros Ht. pose proof (tree_bounds _ _ _ _ _ Ht) as [[Hi Hj] _].
  destruct (lookup_lt_is_Some_2 nodes i ltac:(lia)) as [n0 Hn0].
  assert (alter (set_next x) i nodes !! i = Some (set_next x n0)) as Hn'
    by (rewrite list_lookup_alter_eq; by rewrite Hn0).
  change (Some x) with (next_sibling (set_next x n0)).
  inversion Ht as [i' n raw Hn Hty Htx Hf|i' n raw Hn Hty Htx Hf|i' n b Hn Hty Htx Hf|i' n Hn Hty Hf
    |i' n ms j' Hn Hty Hf Hm|i' n vs j' Hn Hty Hf Hm]; subst; rewrite Hn in Hn0; injection Hn0 as <-.
  - by apply at_string.
  - by apply at_integer.
  - by apply at_boolean.
  - by apply at_null.
  - apply (at_object _ _ _ (set_next x n)); try done. eapply members_ext; [exact Hm|]. apply agree_alter. lia.
  - apply (at_array _ _ _ (set_next x n)); try done. eapply items_ext; [exact Hm|]. apply agree_alter. lia.
Qed.

Lemma tree_root_next nodes i next t j :
  tree_at document nodes i next t j -> next_sibling (node nodes i) = next.
Proof. by destruct 1; unfold node; match goal with H : _ !! _ = Some _ |- _ => rewrite H end. Qed.

(** The last key of an object gets a sibling. *)
Lemma link_members nodes k ms j x fuel :
  members_at document nodes k None ms j -> ms <> [] -> (length ms <= fuel)%nat ->
  let l := last_sibling fuel nodes k in
  (k <= l < j)%nat /\ members_at document (alter (set_next x) l nodes) k (Some x) ms j.
Proof.
  intros Hm. revert fuel.
  induction ms as [|[key v] ms IH] in k, Hm |- *; intros fuel Hne Hf; [done|].
  inversion Hm as [|k0 lk n key0 v0 k' ms0 j0 Hn Hty Htx Hfc Hnext Hv Hms]; subst.
  pose proof (tree_bounds _ _ _ _ _ Hv) as [[? ?] _]. pose proof (members_bounds _ _ _ _ _ Hms) as ?.
  destruct fuel as [|fuel]; [simpl in Hf; lia|]. cbn [last_sibling]. rewrite (node_at _ _ _ Hn), Hnext.
  destruct (decide (ms = [])) as [->|Hms'].
  - inversion Hms; subst. split; [lia|].
    apply (at_member _ _ _ _ (set_next x n) _ _ j); try done.
    + by rewrite list_lookup_alter_eq, Hn.
    + eapply tree_ext; [exact Hv|]. apply agree_alter. lia.
    + apply at_no_members.
  - destruct (IH k' Hms fuel Hms') as [Hl Hm']; [simpl in Hf; lia|]. split; [lia|].
    apply (at_member _ _ _ _ n _ _ k'); try done.
    + rewrite list_lookup_alter_ne by lia. done.
    + rewrite Hnext. by destruct (decide (ms = [])).
    + eapply tree_ext; [exact Hv|]. apply agree_alter. lia.
Qed.

Lemma link_items nodes k vs j x fuel :
  items_at document nodes k None vs j -> vs <> [] -> (length vs <= fuel)%nat ->
  let l := last_sibling fuel nodes k in
  (k <= l < j)%nat /\ items_at document (alter (set_next x) l nodes) k (Some x) vs j.
Proof.
  intros Hm. revert fuel.
  induction vs as [|v vs IH] in k, Hm |- *; intros fuel Hne Hf; [done|].
  inversion Hm as [|k0 lk v0 k' vs0 j0 Hv Hvs]; subst.
  pose proof (tree_bounds _ _ _ _ _ Hv) as [[? ?] _]. pose proof (items_bounds _ _ _ _ _ Hvs) as ?.
  destruct fuel as [|fuel]; [simpl in Hf; lia|]. cbn [last_sibling].
  rewrite (tree_root_next _ _ _ _ _ Hv). destruct (decide (vs = [])) as [->|Hvs'].
  - inversion Hvs; subst. split; [lia|]. apply (at_item _ _ _ _ _ j); [|apply at_no_items].
    rewrite decide_True by done. by eapply tree_set_next.
  - destruct (IH k' Hvs fuel Hvs') as [Hl Hm']; [simpl in Hf; lia|]. split; [lia|].
    apply (at_item _ _ _ _ _ k'); [|done]. rewrite decide_False by done.
    eapply tree_ext; [exact Hv|]. apply agree_alter. lia.
Qed.

Lemma members_app nodes k ms k1 ms' link j :
  members_at document nodes k (Some k1) ms k1 -> ms' <> [] -> members_at document nodes k1 link ms' j ->
  members_at document nodes k link (ms ++ ms') j.
Proof.
  intros Hm Hne Hm'. remember (Some k1) as lk eqn:El.
  induction ms as [|[key v] ms IH] in k, Hm |- *; [by inversion Hm; subst|].
  inversion Hm as [|k0 l0 n key0 v0 k' ms0 j0 Hn Hty Htx Hfc Hnext Hv Hms]; subst.
  apply (at_member _ _ _ _ n _ _ k'); try done; [|by apply IH].
  rewrite Hnext, (decide_False (P := ms ++ ms' = [])) by (by destruct ms).
  destruct (decide (ms = [])) as [->|]; [|done]. by inversion Hms.
Qed.

Lemma items_app nodes k vs k1 vs' link j :
  items_at document nodes k (Some k1) vs k1 -> vs' <> [] -> items_at document nodes k1 link vs' j ->
  items_at document nodes k link (vs ++ vs') j.
Proof.
  intros Hm Hne Hm'. remember (Some k1) as lk eqn:El.
  induction vs as [|v vs IH] in k, Hm |- *; [by inversion Hm; subst|].
  inversion Hm as [|k0 l0 v0 k' vs0 j0 Hv Hvs]; subst.
  apply (at_item _ _ _ _ _ k'); [|by apply IH].
  rewrite (decide_False (P := vs ++ vs' = [])) by (by destruct vs).
  destruct (decide (vs = [])) as [->|]; [|done]. by inversion Hvs; subst.
Qed.

(** Each member takes two nodes, each item one. *)
Lemma members_length nodes k link ms j : members_at document nodes k link ms j -> (length ms <= j - k)%nat.
Proof.
  induction ms as [|[key v] ms IH] in k |- *; intros Hm; [simpl; lia|].
  inversion Hm as [|k0 l0 n key0 v0 k' ms0 j0 Hn Hty Htx Hfc Hnext Hv Hms]; subst.
  apply IH in Hms as ?. pose proof (tree_bounds _ _ _ _ _ Hv). pose proof (members_bounds _ _ _ _ _ Hms). simpl. lia.
Qed.

Lemma items_length nodes k link vs j : items_at document nodes k link vs j -> (length vs <= j - k)%nat.
Proof.
  induction vs as [|v vs IH] in k |- *; intros Hm; [simpl; lia|].
  inversion Hm as [|k0 l0 v0 k' vs0 j0 Hv Hvs]; subst.
  apply IH in Hvs as ?. pose proof (tree_bounds _ _ _ _ _ Hv). pose proof (items_bounds _ _ _ _ _ Hvs). simpl. lia.
Qed.

(** ** Open containers *)

(** The node of a container that holds [n] children so far. *)
Definition container nodes (i : nat) (ty : NodeType) (empty : bool) : Prop :=
  exists n, nodes !! i = Some n /\ type n = ty /\ next_sibling n = None
    /\ first_child n = if empty then None else Some (S i).

Definition is_nil {A} (l : list A) : bool := match l with [] => true | _ => false end.

Lemma is_nil_decide {A} (l : list A) `{!Decision (l = [])} {B} (x y : B) :
  (if decide (l = []) then x else y) = if is_nil l then x else y.
Proof. destruct l; [by rewrite decide_True|by rewrite decide_False]. Qed.

Definition open_object nodes (i : nat) ms : Prop :=
  container nodes i object (is_nil ms) /\ members_at document nodes (S i) None ms (length nodes).

Definition open_array nodes (i : nat) vs : Prop :=
  container nodes i array (is_nil vs) /\ items_at document nodes (S i) None vs (length nodes).

(** A closed object: its end is set. *)
Lemma close_object nodes i ms position :
  open_object nodes i ms ->
  tree_at document (set_end nodes i position) i None (JObject ms) (length (set_end nodes i position)).
Proof.
  intros [(n & Hn & Hty & Hnx & Hf) Hm]. unfold set_end. rewrite length_alter.
  set (n' := n <| end_ := position |>). change (tree_at document (alter (fun n => n <| end_ := position |>) i nodes)
    i None (JObject ms) (length nodes)).
  assert (next_sibling n' = None) as <- by done.
  apply (at_object _ _ _ n'); [by rewrite list_lookup_alter_eq, Hn|done|by rewrite is_nil_decide|].
  eapply members_ext; [exact Hm|]. apply agree_alter. lia.
Qed.

Lemma close_array nodes i vs position :
  open_array nodes i vs ->
  tree_at document (set_end nodes i position) i None (JArray vs) (length (set_end nodes i position)).
Proof.
  intros [(n & Hn & Hty & Hnx & Hf) Hm]. unfold set_end. rewrite length_alter.
  set (n' := n <| end_ := position |>). change (tree_at document (alter (fun n => n <| end_ := position |>) i nodes)
    i None (JArray vs) (length nodes)).
  assert (next_sibling n' = None) as <- by done.
  apply (at_array _ _ _ n'); [by rewrite list_lookup_alter_eq, Hn|done|by rewrite is_nil_decide|].
  eapply items_ext; [exact Hm|]. apply agree_alter. lia.
Qed.

(** ** Adding a member *)

Definition set_child (child : nat) (n : Node) : Node := n <| first_child := Some child |>.

(** [append_child] of the key in the last node. *)
Lemma append_key nodes i ms kn :
  open_object nodes i ms -> next_sibling kn = None ->
  let k := length nodes in
  let nodes' := append_child (nodes ++ [kn]) i k in
  length nodes' = S k /\ nodes' !! k = Some kn /\ container nodes' i object false
  /\ members_at document nodes' (S i) (Some k) ms k /\ agree nodes nodes' 0 i /\ (i < k)%nat.
Proof.
  intros [(n & Hn & Hty & Hnx & Hf) Hm] Hkn k nodes'.
  pose proof (lookup_lt_Some _ _ _ Hn) as Hi. fold k in Hi, Hm.
  assert ((nodes ++ [kn]) !! k = Some kn) as Hk by by apply list_lookup_middle.
  assert ((nodes ++ [kn]) !! i = Some n) as Hn' by by rewrite lookup_app_l.
  assert (members_at document (nodes ++ [kn]) (S i) None ms k) as Hm1
    by (eapply members_ext; [exact Hm|apply agree_app; subst k; lia]).
  unfold nodes', append_child. rewrite (node_at _ _ _ Hn'), Hf. destruct ms as [|m ms].
  - cbn [is_nil]. assert (k = S i) as Ek by by inversion Hm. split_and!.
    + rewrite length_alter, length_app. simpl. lia.
    + rewrite list_lookup_alter_ne by lia. exact Hk.
    + exists (set_child k n). split_and!; [|done|done|by simpl; f_equal; lia].
      by rewrite list_lookup_alter_eq, Hn'.
    + rewrite Ek. apply at_no_members.
    + intros x Hx. rewrite list_lookup_alter_ne by lia. apply lookup_app_l. lia.
    + lia.
  - cbn [is_nil]. pose proof (members_length _ _ _ _ _ Hm1) as Hlen.
    destruct (link_members _ _ _ _ k (length (nodes ++ [kn])) Hm1) as [Hl Hm2]; [done|rewrite length_app; lia|].
    set (l := last_sibling _ _ _) in *.
    change (alter (fun n => n <| next_sibling := Some k |>) l (nodes ++ [kn]))
      with (alter (set_next k) l (nodes ++ [kn])). split_and!.
    + rewrite length_alter, length_app. simpl. lia.
    + rewrite list_lookup_alter_ne by lia. exact Hk.
    + exists n. split_and!; [|done..]. by rewrite list_lookup_alter_ne by lia.
    + exact Hm2.
    + intros x Hx. rewrite list_lookup_alter_ne by lia. apply lookup_app_l. lia.
    + lia.
Qed.

(** The value is parsed behind the key and becomes its child. *)
Lemma add_member nodes i ms k kn v :
  nodes !! k = Some kn -> type kn = string -> next_sibling kn = None -> (i < k)%nat ->
  container nodes i object false -> members_at document nodes (S i) (Some k) ms k ->
  tree_at document nodes (S k) None v (length nodes) ->
  open_object (alter (set_child (S k)) k nodes) i (ms ++ [(node_text document kn, v)]).
Proof.
  intros Hk Hty Hnx Hi (n & Hn & Hnty & Hnn & Hnf) Hm Hv. split.
  - exists n. split_and!; [by rewrite list_lookup_alter_ne by lia|done|done|]. by destruct ms.
  - rewrite length_alter. apply (members_app _ _ _ k).
    + eapply members_ext; [exact Hm|]. apply agree_alter. lia.
    + done.
    + apply (at_member _ _ _ _ (set_child (S k) kn) _ _ (length nodes)); try done.
      * by rewrite list_lookup_alter_eq, Hk.
      * eapply tree_ext; [exact Hv|]. apply agree_alter. lia.
      * apply at_no_members.
Qed.

(** ** Adding an item *)

Lemma add_item nodes i vs more v :
  open_array nodes i vs ->
  tree_at document (nodes ++ more) (length nodes) None v (length (nodes ++ more)) ->
  let nodes' := append_child (nodes ++ more) i (length nodes) in
  open_array nodes' i (vs ++ [v]) /\ length nodes' = length (nodes ++ more) /\ agree nodes nodes' 0 i.
Proof.
  intros [(n & Hn & Hty & Hnx & Hf) Hm] Hv nodes'. set (c := length nodes) in *.
  pose proof (lookup_lt_Some _ _ _ Hn) as Hi. fold c in Hi.
  assert ((nodes ++ more) !! i = Some n) as Hn' by by rewrite lookup_app_l.
  assert (items_at document (nodes ++ more) (S i) None vs c) as Hm1
    by (eapply items_ext; [exact Hm|apply agree_app; subst c; lia]).
  pose proof (tree_bounds _ _ _ _ _ Hv) as [[Hlt _] _].
  unfold nodes', append_child. rewrite (node_at _ _ _ Hn'), Hf. destruct vs as [|v0 vs].
  - cbn [is_nil app]. assert (c = S i) as Ec by by inversion Hm. split_and!; [split| |].
    + exists (set_child c n). split_and!; [|done|done|by simpl; f_equal; lia].
      by rewrite list_lookup_alter_eq, Hn'.
    + rewrite length_alter. apply (at_item _ _ _ _ _ (length (nodes ++ more))); [|apply at_no_items].
      rewrite decide_True, <- Ec by done.
      eapply tree_ext; [exact Hv|]. apply agree_alter. lia.
    + apply length_alter.
    + intros x Hx. rewrite list_lookup_alter_ne by lia. apply lookup_app_l. lia.
  - cbn [is_nil]. pose proof (items_length _ _ _ _ _ Hm1) as Hlen.
    destruct (link_items _ _ _ _ c (length (nodes ++ more)) Hm1) as [Hl Hm2];
      [done|rewrite length_app; lia|].
    set (l := last_sibling _ _ _) in *.
    change (alter (fun n => n <| next_sibling := Some c |>) l (nodes ++ more))
      with (alter (set_next c) l (nodes ++ more)). split_and!; [split| |].
    + exists n. split_and!; [by rewrite list_lookup_alter_ne by lia|done..].
    + rewrite length_alter. apply (items_app _ _ _ c); [exact Hm2|done|].
      apply (at_item _ _ _ _ _ (length (nodes ++ more))); [|apply at_no_items].
      rewrite decide_True by done. eapply tree_ext; [exact Hv|]. apply agree_alter. lia.
    + apply length_alter.
    + intros x Hx. rewrite list_lookup_alter_ne by lia. apply lookup_app_l. lia.
Qed.

(** ** The children a loop visits *)

Lemma siblings_members nodes k ms j fuel :
  members_at document nodes k None ms j -> (length ms <= fuel)%nat ->
  Forall2 (fun i m => exists n k', nodes !! i = Some n /\ type n = string /\ node_text document n = m.1
             /\ first_child n = Some (S i) /\ tree_at document nodes (S i) None m.2 k')
    (siblings_from fuel nodes (if is_nil ms then None else Some k)) ms.
Proof.
  revert fuel. induction ms as [|[key v] ms IH] in k |- *; intros fuel Hm Hf; [by destruct fuel|].
  inversion Hm as [|k0 l0 n key0 v0 k' ms0 j0 Hn Hty Htx Hfc Hnext Hv Hms]; subst.
  destruct fuel as [|fuel]; [simpl in Hf; lia|]. cbn [is_nil siblings_from]. constructor; [by exists n, k'|].
  rewrite (node_at _ _ _ Hn), Hnext, is_nil_decide. apply IH; [done|simpl in Hf; lia].
Qed.

Lemma siblings_items nodes k vs j fuel :
  items_at document nodes k None vs j -> (length vs <= fuel)%nat ->
  Forall2 (fun i v => exists next k', tree_at document nodes i next v k')
    (siblings_from fuel nodes (if is_nil vs then None else Some k)) vs.
Proof.
  revert fuel. induction vs as [|v vs IH] in k |- *; intros fuel Hm Hf; [by destruct fuel|].
  inversion Hm as [|k0 l0 v0 k' vs0 j0 Hv Hvs]; subst.
  destruct fuel as [|fuel]; [simpl in Hf; lia|]. cbn [is_nil siblings_from]. constructor; [by eexists _, _|].
  rewrite (tree_root_next _ _ _ _ _ Hv), is_nil_decide. apply IH; [done|simpl in Hf; lia].
Qed.

End growing.
