(* ===== verification/JsonParserSpec.v ===== *)
(** * The JSON parser decides its grammar

    Soundness: what the parser accepts is a text of the grammar, and the node
    array then holds its tree.  Completeness: every text of the grammar within
    the limits is accepted. *)

From Stdlib Require Import String.
From S2P Require Import Prelude CString JsonParser JsonGrammar JsonLayout.

(** ** Scanning *)

Lemma leading_whitespace_spec rest :
  exists w tail, rest = w ++ tail /\ blank w /\ length w = leading_whitespace rest
    /\ (forall b, head tail = Some b -> is_whitespace b = false).
Proof.
  induction rest as [|b rest (w & tail & -> & Hw & Hl & Ht)]; [exists [], []; split_and!; [done|constructor|done|done]|].
  simpl. destruct (is_whitespace b) eqn:E.
  - exists (b :: w), tail. split_and!; [done|by constructor|simpl; by rewrite Hl|done].
  - exists [], (b :: w ++ tail). split_and!; [done|constructor|done|]. by intros ? [= <-].
Qed.

Lemma leading_whitespace_blank w tail :
  blank w -> (forall b, head tail = Some b -> is_whitespace b = false) ->
  leading_whitespace (w ++ tail) = length w.
Proof.
  intros Hw Ht. induction Hw as [|b w Hb _ IH]; simpl.
  - destruct tail as [|b tail]; [done|]. simpl. by rewrite (Ht b eq_refl).
  - by rewrite Hb, IH.
Qed.

Lemma leading_digits_spec rest :
  exists ds tail, rest = ds ++ tail /\ Forall (fun b => is_digit b = true) ds /\ length ds = leading_digits rest
    /\ (forall b, head tail = Some b -> is_digit b = false).
Proof.
  induction rest as [|b rest (w & tail & -> & Hw & Hl & Ht)]; [exists [], []; split_and!; [done|constructor|done|done]|].
  simpl. destruct (is_digit b) eqn:E.
  - exists (b :: w), tail. split_and!; [done|by constructor|simpl; by rewrite Hl|done].
  - exists [], (b :: w ++ tail). split_and!; [done|constructor|done|]. by intros ? [= <-].
Qed.

Lemma leading_digits_all ds tail :
  Forall (fun b => is_digit b = true) ds -> (forall b, head tail = Some b -> is_digit b = false) ->
  leading_digits (ds ++ tail) = length ds.
Proof.
  intros Hd Ht. induction Hd as [|b ds Hb _ IH]; simpl.
  - destruct tail as [|b tail]; [done|]. simpl. by rewrite (Ht b eq_refl).
  - by rewrite Hb, IH.
Qed.

Lemma string_length_sound rest n :
  string_length rest = Some n ->
  exists raw tail, rest = raw ++ 34 :: tail /\ length raw = n /\ string_body raw.
Proof.
  remember (length rest) as len eqn:El. assert (length rest <= len)%nat as Hl by lia. clear El.
  revert rest n Hl. induction len as [|len IH]; intros rest n Hl; (destruct rest as [|b rest]; [done|]);
    [simpl in Hl; lia|]. cbn [string_length].
  destruct (Z.eqb_spec b 34) as [->|H34]; [intros [= <-]; exists [], rest; split_and!; [done..|constructor]|].
  destruct (Z.ltb_spec b 0x20); [done|]. destruct (Z.eqb_spec b 92) as [->|H92]; cbn [negb].
  2: { intros (m & Hm & ->)%fmap_Some. apply IH in Hm as (raw & tail & -> & <- & Hb); [|simpl in Hl; lia].
       exists (b :: raw), tail. split_and!; [done..|by constructor]. }
  destruct rest as [|e rest]; [done|]. destruct (simple_escape e) eqn:He.
  { intros (m & Hm & ->)%fmap_Some. apply IH in Hm as (raw & tail & -> & <- & Hb); [|simpl in Hl; lia].
    exists (92 :: e :: raw), tail. split_and!; [done..|by constructor]. }
  destruct (Z.eqb_spec e 117) as [->|]; cbn [negb]; [|done].
  destruct rest as [|h1 [|h2 [|h3 [|h4 rest]]]]; try done.
  destruct (_ && _ && _ && _) eqn:Eh; [|done]. bool_prop.
  intros (m & Hm & ->)%fmap_Some. apply IH in Hm as (raw & tail & -> & <- & Hb); [|simpl in Hl; lia].
  exists (92 :: 117 :: h1 :: h2 :: h3 :: h4 :: raw), tail. split_and!; [done..|by constructor].
Qed.

Lemma string_length_complete raw tail :
  string_body raw -> string_length (raw ++ 34 :: tail) = Some (length raw).
Proof.
  induction 1 as [|b rest Hb H34 H92 _ IH|e rest He _ IH|h1 h2 h3 h4 rest H1 H2 H3 H4 _ IH]; simpl.
  - done.
  - rewrite (proj2 (Z.eqb_neq _ _)), (proj2 (Z.ltb_ge _ _)), (proj2 (Z.eqb_neq _ _)) by lia. simpl. by rewrite IH.
  - rewrite He. by rewrite IH.
  - rewrite H1, H2, H3, H4. simpl. by rewrite IH.
Qed.

Section spec.
Context (document : bytes) (capacity : nat).
Implicit Types p : parser.

(** What is left of the document. *)
Definition rest p : bytes := drop (position p) document.

(** [p'] is behind the text [t]. *)
Definition consumed p p' (t : bytes) : Prop :=
  rest p = t ++ rest p' /\ position p' = (position p + length t)%nat.

Lemma consumed_app p p1 p2 a b : consumed p p1 a -> consumed p1 p2 b -> consumed p p2 (a ++ b).
Proof.
  intros [E1 P1] [E2 P2]. split; [by rewrite E1, E2, app_assoc|]. rewrite length_app. lia.
Qed.

(** Texts up to the bracketing of their parts. *)
Ltac flatten := repeat first [rewrite <- !app_assoc | rewrite <- !app_comm_cons | rewrite app_nil_l]; try done.

(** The same step, however its text is bracketed and whatever the nodes are. *)
Lemma consumed_to p p1 p2 t t' :
  consumed p p1 t -> position p2 = position p1 -> t' = t -> consumed p p2 t'.
Proof. intros [E P] Hpos ->. unfold consumed, rest in *. by rewrite Hpos. Qed.

Lemma rest_skip p t tail n :
  rest p = t ++ tail -> n = length t -> drop (position p + n) document = tail.
Proof. intros E ->. unfold rest in E. rewrite <- drop_drop, E. apply drop_app_length. Qed.

Lemma peek_rest p : peek document p = head (rest p).
Proof. unfold peek, rest. by rewrite head_lookup, lookup_drop, Nat.add_0_r. Qed.

Lemma whitespace_spec p :
  exists w, consumed p (whitespace document p) w /\ blank w
    /\ parsed (whitespace document p) = parsed p
    /\ (forall b, head (rest (whitespace document p)) = Some b -> is_whitespace b = false).
Proof.
  destruct (leading_whitespace_spec (rest p)) as (w & tail & E & Hw & Hl & Ht). exists w.
  assert (rest (whitespace document p) = tail) as Er.
  { unfold rest, whitespace. cbn [position]. apply (rest_skip p w tail); [done|]. unfold rest in Hl. congruence. }
  split; [split; [by rewrite Er|]|split; [done|split; [done|by rewrite Er]]].
  unfold whitespace. cbn [position]. unfold rest in Hl. lia.
Qed.

Lemma consume_Some p expected p' :
  consume document expected p = Some p' -> consumed p p' [expected] /\ parsed p' = parsed p.
Proof.
  unfold consume. case_bool_decide as E; [|done]. intros [= <-]. rewrite peek_rest in E.
  destruct (rest p) as [|b tail] eqn:Er; [done|]. injection E as ->. split; [|done]. split; [|done].
  rewrite Er. simpl. f_equal. symmetry. by apply (rest_skip p [expected] tail).
Qed.

Lemma allocate_Some ty st p i p' :
  allocate capacity ty st p = Some (i, p') -> (length (parsed p) <= capacity)%nat ->
  i = length (parsed p) /\ (length (parsed p) < capacity)%nat
  /\ p' = {| position := position p; parsed := parsed p ++ [{| type := ty; start := st; end_ := 0;
                                           first_child := None; next_sibling := None |}] |}.
Proof.
  unfold allocate. destruct (Nat.eqb_spec (length (parsed p)) capacity); [done|].
  intros [= <- <-] ?. split_and!; [done|lia|done].
Qed.

(** The node of a finished token. *)
Definition token_node (ty : NodeType) (s e : nat) : Node :=
  {| type := ty; start := s; end_ := e; first_child := None; next_sibling := None |}.

Lemma set_end_last l ty s e :
  set_end (l ++ [{| type := ty; start := s; end_ := 0; first_child := None; next_sibling := None |}]) (length l) e
  = l ++ [token_node ty s e].
Proof.
  unfold set_end. apply list_eq. intros i. destruct (Nat.lt_trichotomy i (length l)) as [Hi|[->|Hi]].
  - rewrite list_lookup_alter_ne, !lookup_app_l by lia. done.
  - rewrite list_lookup_alter_eq, !list_lookup_middle by done. done.
  - rewrite !lookup_ge_None_2; [done|rewrite length_app; simpl; lia|].
    rewrite length_alter, length_app. simpl. lia.
Qed.

(** The text of a token is what was consumed. *)
Lemma token_text p ty t tail n off :
  rest p = t ++ tail -> length t = (off + n)%nat ->
  node_text document (token_node ty (position p + off) (position p + off + n)) = slice off n t.
Proof.
  intros E Hl. unfold node_text, slice. cbn [start end_ token_node].
  replace (position p + off + n - (position p + off))%nat with n by lia.
  rewrite <- drop_drop. unfold rest in E. rewrite E, drop_app_le by lia.
  rewrite take_app_le; [done|]. rewrite length_drop. lia.
Qed.

Lemma parse_string_sound p i p' :
  parse_string document capacity p = Some (i, p') -> (length (parsed p) <= capacity)%nat ->
  exists raw kn, consumed p p' (quoted raw) /\ string_body raw /\ i = length (parsed p)
    /\ parsed p' = parsed p ++ [kn] /\ type kn = string /\ node_text document kn = raw
    /\ first_child kn = None /\ next_sibling kn = None /\ (length (parsed p') <= capacity)%nat.
Proof.
  unfold parse_string. intros Hp Hc. case_bool_decide as E; cbn [negb] in Hp; [|done]. rewrite peek_rest in E.
  destruct (allocate _ _ _ p) as [[i0 p0]|] eqn:Ea; [|done]. cbn [mbind option_bind] in Hp.
  apply allocate_Some in Ea as (-> & Hlt & ->); [|done]. cbn [parsed] in Hp.
  destruct (rest p) as [|b tail] eqn:Er; [done|]. injection E as ->.
  assert (drop (position p + 1) document = tail) as Ed by by apply (rest_skip p [34] tail).
  rewrite Ed in Hp. destruct (string_length tail) as [n|] eqn:En; [|done]. cbn [mbind option_bind] in Hp.
  apply string_length_sound in En as (raw & tail' & -> & <- & Hb). injection Hp as <- <-.
  rewrite set_end_last. exists raw, (token_node string (position p + 1) (position p + 1 + length raw)).
  split_and!; [split| |..]; try done.
  - rewrite Er. unfold rest, quoted. cbn [position].
    replace (position p + 1 + length raw + 1)%nat with (position p + (1 + length raw + 1))%nat by lia.
    rewrite (rest_skip p ([34] ++ raw ++ [34]) tail' (1 + length raw + 1));
      [cbn [app]; by rewrite <- app_assoc|by rewrite Er; cbn [app]; rewrite <- app_assoc
      |rewrite !length_app; simpl; lia].
  - unfold quoted. rewrite !length_app. cbn. lia.
  - rewrite (token_text p _ ([34] ++ raw) (34 :: tail')); [|done|done].
    unfold slice. simpl. by rewrite firstn_all.
  - cbn [parsed]. rewrite length_app. simpl. lia.
Qed.

(** The parse of the tree [t] from [p] to [p'] over the text [txt]. *)
Record built p i p' (t : json) (txt : bytes) : Prop := {
  built_index : i = length (parsed p);
  built_text : consumed p p' txt;
  built_prefix : exists more, parsed p' = parsed p ++ more;
  built_tree : tree_at document (parsed p') i None t (length (parsed p'));
  built_fits : (length (parsed p') <= capacity)%nat;
}.

Lemma token_built p i p' t txt ty s e :
  (length (parsed p) < capacity)%nat -> i = length (parsed p) -> consumed p p' txt ->
  parsed p' = parsed p ++ [token_node ty s e] ->
  (forall nodes, nodes !! i = Some (token_node ty s e) -> tree_at document nodes i None t (S i)) ->
  built p i p' t txt.
Proof.
  intros Hc -> Ht Hp Htree. split; [done|done|by eexists| |].
  - rewrite Hp, length_app, Nat.add_1_r. apply Htree. by apply list_lookup_middle.
  - rewrite Hp, length_app. simpl. lia.
Qed.

Lemma first_byte p b tail : rest p = b :: tail -> document !! position p = Some b.
Proof. intros E. pose proof (peek_rest p) as Hp. unfold peek in Hp. by rewrite Hp, E. Qed.

Lemma head_lookup_drop n : head (drop n document) = document !! n.
Proof. by rewrite head_lookup, lookup_drop, Nat.add_0_r. Qed.

Lemma parse_integer_sound p i p' :
  parse_integer document capacity p = Some (i, p') -> (length (parsed p) <= capacity)%nat ->
  exists raw, built p i p' (JInteger raw) raw /\ integer_text raw.
Proof.
  unfold parse_integer. intros Hp Hc.
  set (at_ := if bool_decide _ then _ else _) in Hp.
  assert (exists sign, (sign = [] \/ sign = [45]) /\ at_ = (position p + length sign)%nat
    /\ rest p = sign ++ drop at_ document) as (sign & Hsign & Hat & Er).
  { subst at_. case_bool_decide as E.
    - exists [45]. split_and!; [by right|done|]. rewrite <- head_lookup_drop in E. fold (rest p) in E.
      destruct (rest p) as [|b tail] eqn:Er; [done|]. injection E as ->. simpl. f_equal. symmetry.
      by apply (rest_skip p [45] tail).
    - exists []. split_and!; [by left|simpl; lia|done]. }
  destruct (leading_digits_spec (drop at_ document)) as (ds & tail & Ed & Hds & Hl & Htail).
  rewrite <- Hl in Hp. destruct (Nat.eqb_spec (length ds) 0) as [|Hnz]; [done|].
  destruct (_ && _) eqn:Hzero; [done|]. destruct (existsb _ _); [done|].
  destruct (allocate _ _ _ p) as [[i0 p0]|] eqn:Ea; [|done]. cbn [mbind option_bind] in Hp.
  apply allocate_Some in Ea as (-> & Hlt & ->); [|done]. cbn [parsed] in Hp. injection Hp as <- <-.
  assert (rest p = (sign ++ ds) ++ tail) as Er' by by rewrite Er, Ed, app_assoc.
  exists (sign ++ ds). split.
  - eapply (token_built _ _ _ _ _ integer (position p) (at_ + length ds)); [done|done| |apply set_end_last|].
    + split; [|cbn; rewrite length_app; lia]. rewrite Er'. f_equal. symmetry. unfold rest. cbn [position].
      rewrite Hat, <- Nat.add_assoc. apply (rest_skip p (sign ++ ds) tail); [done|]. by rewrite length_app.
    + intros nodes Hn. apply (at_integer _ _ _ _ _ Hn); [done| |done].
      pose proof (token_text p integer (sign ++ ds) tail (length (sign ++ ds)) 0 Er' eq_refl) as Ht.
      rewrite Nat.add_0_r in Ht. rewrite length_app in Ht. rewrite Hat, <- Nat.add_assoc, Ht.
      rewrite <- length_app. unfold slice. rewrite drop_0. apply firstn_all.
  - exists sign, ds. split_and!; try done; [by destruct ds|].
    intros H0. rewrite <- head_lookup_drop, Ed in Hzero. destruct ds as [|d ds]; [done|].
    cbn [app head] in Hzero, H0. injection H0 as ->. rewrite bool_decide_eq_true_2 in Hzero by done.
    simpl in Hzero. destruct ds; [done|]. simpl in Hzero. done.
Qed.

Lemma parse_literal_sound text ty p i p' t :
  parse_literal document capacity text ty p = Some (i, p') -> (length (parsed p) <= capacity)%nat ->
  (forall nodes n, nodes !! i = Some n -> type n = ty -> node_text document n = text -> first_child n = None ->
     tree_at document nodes i (next_sibling n) t (S i)) ->
  built p i p' t text.
Proof.
  unfold parse_literal. intros Hp Hc Htree. case_bool_decide as E; cbn [negb] in Hp; [|done].
  destruct (allocate _ _ _ p) as [[i0 p0]|] eqn:Ea; [|done]. cbn [mbind option_bind] in Hp.
  apply allocate_Some in Ea as (-> & Hlt & ->); [|done]. cbn [parsed] in Hp. injection Hp as <- <-.
  assert (rest p = text ++ drop (length text) (rest p)) as Er.
  { unfold slice in E. fold (rest p) in E. rewrite <- E at 1. by rewrite take_drop. }
  eapply (token_built _ _ _ _ _ ty (position p) (position p + length text)); [done|done| |apply set_end_last|].
  - split; [|done]. rewrite Er at 1. f_equal. unfold rest. cbn [position]. by rewrite drop_drop.
  - intros nodes Hn. apply (Htree _ _ Hn); [done| |done].
    pose proof (token_text p ty text _ (length text) 0 Er eq_refl) as Ht. rewrite Nat.add_0_r in Ht.
    rewrite Ht. unfold slice. rewrite drop_0. apply firstn_all.
Qed.

(** ** Containers, given their values *)

Lemma members_text_blank w ms t : blank w -> members_text ms t -> members_text ms (w ++ t).
Proof.
  intros Hw Ht.
  destruct Ht as [w1 key w2 w3 v t w4 ?????? | w1 key w2 w3 v t w4 ms rest ???????]; rewrite app_assoc.
  - apply text_members_one; try done. by apply Forall_app.
  - apply text_members_more; try done. by apply Forall_app.
Qed.

Lemma items_text_blank w vs t : blank w -> items_text vs t -> items_text vs (w ++ t).
Proof.
  intros Hw Ht. destruct Ht as [w1 v t w2 ??? | w1 v t w2 vs rest ????]; rewrite app_assoc.
  - apply text_items_one; try done. by apply Forall_app.
  - apply text_items_more; try done. by apply Forall_app.
Qed.

Lemma agree_prefix (l l' : list Node) :
  agree l l' 0 (length l) -> exists more, l' = l ++ more.
Proof.
  intros Ha. exists (drop (length l) l'). rewrite <- (take_drop (length l) l') at 1. f_equal.
  apply list_eq. intros x. destruct (decide (x < length l)%nat) as [Hx|Hx].
  - rewrite lookup_take_lt by done. apply Ha. lia.
  - rewrite !lookup_ge_None_2; [done|lia|]. rewrite length_take. lia.
Qed.

Lemma agree_trans (l l1 l2 : list Node) i j : agree l l1 i j -> agree l1 l2 i j -> agree l l2 i j.
Proof. intros H1 H2 x Hx. by rewrite H2, H1. Qed.

Lemma agree_weaken (l l' : list Node) i j j' : agree l l' i j -> (j' <= j)%nat -> agree l l' i j'.
Proof. intros H Hj x Hx. apply H. lia. Qed.

(** The check of a key against the keys before it. *)
Lemma duplicate_key_fresh nodes i ms kn key :
  open_object document nodes i ms -> type kn = string -> node_text document kn = key ->
  duplicate_key document (nodes ++ [kn]) i (length nodes) = false <-> fresh_key (map fst ms) key.
Proof.
  intros [(n & Hn & Hty & Hnx & Hf) Hm] Hkn Hkey.
  pose proof (lookup_lt_Some _ _ _ Hn) as Hi.
  assert ((nodes ++ [kn]) !! i = Some n) as Hn' by by rewrite lookup_app_l.
  assert (members_at document (nodes ++ [kn]) (S i) None ms (length nodes)) as Hm'
    by (eapply members_ext; [exact Hm|by apply agree_app]).
  assert (forall k x raw, (nodes ++ [kn]) !! k = Some x -> type x = string -> node_text document x = raw ->
    decode_ascii {| text := document; nodes := nodes ++ [kn] |} k 65 = decode_key raw) as Hdec.
  { intros k x raw Hk Hx Hraw. unfold decode_ascii, span. cbn [JsonParser.nodes text].
    rewrite (node_at _ _ _ Hk). rewrite bool_decide_eq_true_2 by done. cbn [negb orb Nat.eqb].
    unfold node_text in Hraw. rewrite Hraw. done. }
  unfold duplicate_key. rewrite (Hdec _ kn key); [|by apply list_lookup_middle|done|done].
  unfold fresh_key. destruct (decode_key key) as [x|]; [|by split; [|intros (x & ? & _)]].
  transitivity (Forall (fun k => exists y, decode_key k = Some y /\ c_string x <> c_string y) (map fst ms));
    [|split; [by eexists|by intros (? & [= <-] & ?)]].
  rewrite existsb_false, (node_at _ _ _ Hn'), Hf. unfold siblings.
  pose proof (siblings_members document _ _ _ _ (length (nodes ++ [kn])) Hm') as Hs.
  pose proof (members_length document _ _ _ _ _ Hm') as Hlen.
  specialize (Hs ltac:(rewrite length_app; lia)). revert Hs.
  generalize (siblings_from (length (nodes ++ [kn])) (nodes ++ [kn]) (if is_nil ms then None else Some (S i))).
  intros keys Hs. clear - Hs Hdec. induction Hs as [|k [raw v] keys ms (nk & k' & Hk & Hty & Htx & _) Hs IH];
    [by split; constructor|].
  cbn [map fst] in *. rewrite !Forall_cons, IH, (Hdec _ _ _ Hk Hty Htx).
  destruct (decode_key raw) as [y|]; [|split; [by intros [? _]|by intros [(y & ? & _) _]]].
  unfold strcmp_eq. rewrite bool_decide_eq_false.
  split; [intros [? ?]; split; [by eexists|done]|intros [(? & [= <-] & ?) ?]; by split].
Qed.

Lemma fresh_keys_app before keys key :
  fresh_keys before (keys ++ [key]) <-> fresh_keys before keys /\ fresh_key (before ++ keys) key.
Proof.
  revert before. induction keys as [|k keys IH]; intros before; simpl.
  - rewrite app_nil_r. tauto.
  - rewrite IH, <- app_assoc. simpl. tauto.
Qed.

(** What a member list must satisfy, besides its text. *)
Definition members_fine (lv : nat) (ms : list (bytes * json)) : Prop :=
  fresh_keys [] (map fst ms) /\ Forall (fun m => keys_ok m.2 /\ (levels m.2 <= lv)%nat) ms.
Definition items_fine (lv : nat) (vs : list json) : Prop := Forall (fun v => keys_ok v /\ (levels v <= lv)%nat) vs.

Lemma members_fine_tree lv ms :
  members_fine lv ms <-> keys_ok (JObject ms) /\ (levels (JObject ms) <= S lv)%nat.
Proof.
  unfold members_fine. cbn [keys_ok levels]. rewrite <- Nat.succ_le_mono.
  assert (Forall (fun m : bytes * json => keys_ok m.2 /\ (levels m.2 <= lv)%nat) ms
    <-> fold_right (fun (m : bytes * json) P => keys_ok m.2 /\ P) True ms
        /\ (fold_right (fun (m : bytes * json) n => Nat.max (levels m.2) n) 0%nat ms <= lv)%nat) as ->; [|tauto].
  induction ms as [|m ms IH]; simpl; [split; [intros; split; [done|lia]|constructor]|].
  rewrite Forall_cons, IH, Nat.max_lub_iff. tauto.
Qed.

Lemma items_fine_tree lv vs :
  items_fine lv vs <-> keys_ok (JArray vs) /\ (levels (JArray vs) <= S lv)%nat.
Proof.
  unfold items_fine. cbn [keys_ok levels]. rewrite <- Nat.succ_le_mono.
  induction vs as [|m ms IH]; simpl; [split; [intros; split; [done|lia]|constructor]|].
  rewrite Forall_cons, IH, Nat.max_lub_iff. tauto.
Qed.

Lemma members_fine_snoc lv ms key v :
  members_fine lv ms -> fresh_key (map fst ms) key -> keys_ok v -> (levels v <= lv)%nat ->
  members_fine lv (ms ++ [(key, v)]).
Proof.
  intros [Hf1 Hf2] ???. split; [|apply Forall_app; split; [done|by repeat constructor]].
  rewrite map_app. by apply fresh_keys_app.
Qed.

Section containers.
Context (lv : nat) (value : parses nat).

(** [value] at the next depth is sound. *)
Definition sound : Prop := forall p i p',
  value p = Some (i, p') -> (length (parsed p) <= capacity)%nat ->
  exists w txt t, built p i p' t (w ++ txt) /\ blank w /\ json_text t txt /\ keys_ok t /\ (levels t <= lv)%nat.

Context (value_sound : sound).

(** One turn of [object_loop], up to the separator. *)
Lemma object_turn_sound fuel i p p' ms :
  object_loop document capacity value (S fuel) i p = Some p' ->
  open_object document (parsed p) i ms -> (length (parsed p) <= capacity)%nat -> members_fine lv ms ->
  exists raw w2 w3 tx v w5 q, string_body raw /\ blank w2 /\ blank w3 /\ json_text v tx /\ blank w5
    /\ consumed p q (quoted raw ++ w2 ++ [58] ++ w3 ++ tx ++ w5)
    /\ open_object document (parsed q) i (ms ++ [(raw, v)]) /\ agree (parsed p) (parsed q) 0 i
    /\ (length (parsed q) <= capacity)%nat /\ members_fine lv (ms ++ [(raw, v)])
    /\ match consume document 125 q with
       | Some p => Some {| position := position p; parsed := set_end (parsed p) i (position p) |}
       | None => p ← consume document 44 q; object_loop document capacity value fuel i (whitespace document p)
       end = Some p'.
Proof.
  intros Hp Ho Hc Hfine. cbn [object_loop] in Hp.
  destruct (parse_string _ _ p) as [[k p1]|] eqn:Hs; [|done]. cbn [mbind option_bind] in Hp.
  apply parse_string_sound in Hs as (raw & kn & Ht1 & Hraw & -> & Hp1 & Hkt & Hkx & Hkf & Hkn & Hc1); [|done].
  rewrite Hp1 in Hp. destruct (duplicate_key _ _ _ _) eqn:Hdup; [done|].
  rewrite (duplicate_key_fresh _ _ _ _ _ Ho Hkt Hkx) in Hdup.
  destruct (append_key _ _ _ _ kn Ho Hkn) as (Hl2 & Hk2 & Hi2 & Hm2 & Ha2 & Hik).
  set (k := length (parsed p)) in *. set (nodes2 := append_child _ _ _) in *.
  set (p2 := {| position := position p1; parsed := nodes2 |}) in Hp.
  destruct (whitespace_spec p2) as (w2 & Ht2 & Hw2 & Hn2 & _).
  destruct (consume document 58 _) as [p3|] eqn:Hc3; [|done]. cbn [mbind option_bind] in Hp.
  apply consume_Some in Hc3 as [Ht3 Hn3]. rewrite Hn2 in Hn3. cbn [p2 parsed] in Hn3.
  destruct (value p3) as [[c p4]|] eqn:Hv; [|done]. cbn [mbind option_bind] in Hp.
  destruct (value_sound _ _ _ Hv) as (w3 & tx & v & [Hci Ht4 [more Hmore] Htree Hc4] & Hw3 & Htx & Hkeys & Hlv);
    [rewrite Hn3, Hl2; rewrite Hp1, length_app in Hc1; simpl in Hc1; lia|].
  rewrite Hn3, Hl2 in Hci. subst c.
  assert (agree nodes2 (parsed p4) 0 (S k)) as Ha4 by (rewrite Hmore, Hn3; apply agree_app; lia).
  set (nodes5 := alter _ k (parsed p4)) in Hp.
  set (p5 := {| position := position p4; parsed := nodes5 |}) in Hp.
  destruct (whitespace_spec p5) as (w5 & Ht5 & Hw5 & _).
  exists raw, w2, w3, tx, v, w5, (whitespace document p5).
  split_and!; [done..| | | | | |exact Hp]; cbn [parsed p5 whitespace].
  - apply (consumed_to p _ _ _ _ (consumed_app _ _ _ _ _ Ht1
      (consumed_app p1 p2 _ [] _ ltac:(split; [done|simpl; lia]) (consumed_app _ _ _ _ _ Ht2
      (consumed_app _ _ _ _ _ Ht3 (consumed_app _ _ _ _ _ Ht4
      (consumed_app p4 p5 _ [] _ ltac:(split; [done|simpl; lia]) Ht5))))))); [done|]. flatten.
  - rewrite <- Hkx. apply add_member; try done.
    + rewrite Ha4 by lia. exact Hk2.
    + destruct Hi2 as (n & Hn & ?). exists n. split; [|done]. rewrite Ha4 by lia. exact Hn.
    + eapply members_ext; [exact Hm2|]. intros x Hx. apply Ha4. lia.
  - eapply agree_trans; [exact Ha2|]. eapply agree_trans; [eapply agree_weaken; [exact Ha4|lia]|].
    apply agree_alter. lia.
  - unfold nodes5. by rewrite length_alter.
  - by apply members_fine_snoc.
Qed.

Lemma object_loop_sound fuel i p p' ms :
  object_loop document capacity value fuel i p = Some p' ->
  open_object document (parsed p) i ms -> (length (parsed p) <= capacity)%nat -> members_fine lv ms ->
  exists ms' txt, ms' <> [] /\ members_text ms' txt /\ consumed p p' (txt ++ [125])
    /\ tree_at document (parsed p') i None (JObject (ms ++ ms')) (length (parsed p'))
    /\ (length (parsed p') <= capacity)%nat /\ agree (parsed p) (parsed p') 0 i
    /\ members_fine lv (ms ++ ms').
Proof.
  induction fuel as [|fuel IH] in p, ms |- *; intros Hp Ho Hc Hfine; [done|].
  destruct (object_turn_sound _ _ _ _ _ Hp Ho Hc Hfine)
    as (raw & w2 & w3 & tx & v & w5 & q & Hraw & Hw2 & Hw3 & Htx & Hw5 & Hq & Hoq & Haq & Hcq & Hfq & Hp').
  destruct (consume document 125 q) as [p6|] eqn:Hc6.
  - apply consume_Some in Hc6 as [Ht6 Hn6]. injection Hp' as <-.
    exists [(raw, v)], ([] ++ quoted raw ++ w2 ++ [58] ++ w3 ++ tx ++ w5). rewrite Hn6.
    pose proof (close_object _ _ _ _ (position p6) Hoq) as Hclose.
    split_and!; [done|by apply text_members_one; [constructor|..]| | | | |done]; cbn [parsed].
    + apply (consumed_to _ _ _ _ _ (consumed_app _ _ _ _ _ Hq Ht6)); done.
    + exact Hclose.
    + unfold set_end. by rewrite length_alter.
    + eapply agree_trans; [exact Haq|]. apply agree_alter. lia.
  - destruct (consume document 44 q) as [p6|] eqn:Hc7; [|done]. cbn [mbind option_bind] in Hp'.
    apply consume_Some in Hc7 as [Ht6 Hn6]. destruct (whitespace_spec p6) as (w7 & Ht7 & Hw7 & Hn7 & _).
    destruct (IH _ (ms ++ [(raw, v)]) Hp') as (ms' & txt & Hne & Htxt & Hcons7 & Htree7 & Hc8 & Ha8 & Hfine8);
      [by rewrite Hn7, Hn6|by rewrite Hn7, Hn6|done|].
    exists ((raw, v) :: ms'), ([] ++ quoted raw ++ w2 ++ [58] ++ w3 ++ tx ++ w5 ++ [44] ++ (w7 ++ txt)).
    rewrite <- app_assoc in Htree7, Hfine8.
    split_and!; [done| | |exact Htree7|done| |exact Hfine8].
    + apply text_members_more; try done; [constructor|]. by apply members_text_blank.
    + apply (consumed_to _ _ _ _ _ (consumed_app _ _ _ _ _ Hq
        (consumed_app _ _ _ _ _ Ht6 (consumed_app _ _ _ _ _ Ht7 Hcons7)))); [done|]. flatten.
    + rewrite Hn7, Hn6 in Ha8. by eapply agree_trans.
Qed.

Lemma array_loop_sound fuel i p p' vs :
  array_loop document value fuel i p = Some p' ->
  open_array document (parsed p) i vs -> (length (parsed p) <= capacity)%nat -> items_fine lv vs ->
  exists vs' txt, vs' <> [] /\ items_text vs' txt /\ consumed p p' (txt ++ [93])
    /\ tree_at document (parsed p') i None (JArray (vs ++ vs')) (length (parsed p'))
    /\ (length (parsed p') <= capacity)%nat /\ agree (parsed p) (parsed p') 0 i
    /\ items_fine lv (vs ++ vs').
Proof.
  induction fuel as [|fuel IH] in p, vs |- *; intros Hp Ho Hc Hfine; [done|]. cbn [array_loop] in Hp.
  destruct (value p) as [[c p1]|] eqn:Hv; [|done]. cbn [mbind option_bind] in Hp.
  destruct (value_sound _ _ _ Hv Hc) as (w1 & tx & v & [-> Ht1 [more Hmore] Htree Hc1] & Hw1 & Htx & Hkeys & Hlv).
  rewrite Hmore in Hp, Htree, Hc1.
  destruct (add_item document _ _ _ _ _ Ho Htree) as (Ho2 & Hl2 & Ha2).
  set (nodes2 := append_child _ _ _) in *.
  set (p2 := {| position := position p1; parsed := nodes2 |}) in Hp.
  destruct (whitespace_spec p2) as (w2 & Ht2 & Hw2 & Hn2 & _).
  assert (items_fine lv (vs ++ [v])) as Hfine2 by (apply Forall_app; split; [done|by repeat constructor]).
  pose proof (consumed_app _ _ _ _ _ Ht1 (consumed_app p1 p2 _ [] _ ltac:(split; [done|simpl; lia]) Ht2)) as Hcons.
  rewrite app_nil_l in Hcons.
  destruct (consume document 93 _) as [p3|] eqn:Hc3.
  - apply consume_Some in Hc3 as [Ht3 Hn3]. injection Hp as <-. rewrite Hn2 in Hn3. cbn [p2 parsed] in Hn3.
    exists [v], (w1 ++ tx ++ w2). rewrite Hn3.
    pose proof (close_array _ _ _ _ (position p3) Ho2) as Hclose.
    split_and!; [done|by apply text_items_one| | | | |done]; cbn [parsed].
    + apply (consumed_to _ _ _ _ _ (consumed_app _ _ _ _ _ Hcons Ht3)); [done|]. flatten.
    + exact Hclose.
    + unfold set_end. rewrite length_alter. lia.
    + eapply agree_trans; [exact Ha2|]. apply agree_alter. lia.
  - destruct (consume document 44 _) as [p3|] eqn:Hc4; [|done]. cbn [mbind option_bind] in Hp.
    apply consume_Some in Hc4 as [Ht3 Hn3]. rewrite Hn2 in Hn3. cbn [p2 parsed] in Hn3.
    destruct (whitespace_spec p3) as (w4 & Ht4 & Hw4 & Hn4 & _).
    destruct (IH _ (vs ++ [v]) Hp) as (vs' & txt & Hne & Htxt & Hcons5 & Htree5 & Hc5 & Ha5 & Hfine5);
      [by rewrite Hn4, Hn3|rewrite Hn4, Hn3; lia|done|].
    exists (v :: vs'), (w1 ++ tx ++ w2 ++ [44] ++ (w4 ++ txt)).
    rewrite <- app_assoc in Htree5, Hfine5.
    split_and!; [done| | |exact Htree5|done| |exact Hfine5].
    + apply text_items_more; try done. by apply items_text_blank.
    + apply (consumed_to _ _ _ _ _ (consumed_app _ _ _ _ _ Hcons
        (consumed_app _ _ _ _ _ Ht3 (consumed_app _ _ _ _ _ Ht4 Hcons5)))); [done|]. flatten.
    + eapply agree_trans; [exact Ha2|]. rewrite Hn4, Hn3 in Ha5. exact Ha5.
Qed.

(** The opening of a container: its node is allocated. *)
Lemma open_container p ty i p0 b tail :
  allocate capacity ty (position p) {| position := position p + 1; parsed := parsed p |} = Some (i, p0) ->
  (length (parsed p) <= capacity)%nat -> rest p = b :: tail ->
  i = length (parsed p) /\ consumed p p0 [b] /\ agree (parsed p) (parsed p0) 0 i
  /\ container (parsed p0) i ty true /\ length (parsed p0) = S i /\ (length (parsed p0) <= capacity)%nat.
Proof.
  intros Ha Hc Er. apply allocate_Some in Ha as (-> & Hlt & ->); [|done]. cbn [parsed position] in *.
  split_and!; try done.
  - split; [|done]. rewrite Er. simpl. f_equal. symmetry. by apply (rest_skip p [b] tail).
  - by apply agree_app.
  - eexists. by rewrite list_lookup_middle.
  - rewrite length_app. simpl. lia.
  - rewrite length_app. simpl. lia.
Qed.

Lemma parse_object_sound p i p' tail :
  parse_object document capacity value p = Some (i, p') -> (length (parsed p) <= capacity)%nat ->
  rest p = 123 :: tail ->
  exists ms txt, built p i p' (JObject ms) txt /\ json_text (JObject ms) txt /\ members_fine lv ms.
Proof.
  unfold parse_object. intros Hp Hc Er.
  destruct (allocate _ _ _ _) as [[i0 p0]|] eqn:Ha; [|done]. cbn [mbind option_bind] in Hp.
  destruct (open_container _ _ _ _ _ _ Ha Hc Er) as (-> & Ht0 & Ha0 & Hi0 & Hl0 & Hc0).
  set (i0 := length (parsed p)) in *. destruct (whitespace_spec p0) as (w1 & Ht1 & Hw1 & Hn1 & _).
  assert (open_object document (parsed p0) i0 []) as Ho by (split; [done|rewrite Hl0; apply at_no_members]).
  assert (members_fine lv []) as Hfine by by repeat constructor.
  destruct (consume document 125 _) as [p2|] eqn:Hc2.
  - apply consume_Some in Hc2 as [Ht2 Hn2]. injection Hp as <- <-. rewrite Hn1 in Hn2.
    exists [], ([123] ++ w1 ++ [125]). rewrite Hn2.
    assert (agree (parsed p) (set_end (parsed p0) i0 (position p2)) 0 i0) as Hagree
      by (eapply agree_trans; [exact Ha0|]; apply agree_alter; lia).
    split_and!; [split| |done]; cbn [parsed]; try done; [| | | |].
    + apply (consumed_to _ _ _ _ _ (consumed_app _ _ _ _ _ Ht0 (consumed_app _ _ _ _ _ Ht1 Ht2))); flatten.
    + by apply agree_prefix.
    + by apply close_object.
    + unfold set_end. by rewrite length_alter.
    + by apply text_no_members.
  - destruct (object_loop _ _ _ _ _ _) as [p2|] eqn:Hl; [|done]. cbn [mbind option_bind] in Hp. injection Hp as <- <-.
    destruct (object_loop_sound _ _ _ _ [] Hl) as (ms & txt & Hne & Htxt & Hcons & Htree & Hc3 & Ha3 & Hf3);
      [by rewrite Hn1|by rewrite Hn1|done|]. rewrite Hn1 in Ha3.
    exists ms, ([123] ++ (w1 ++ txt) ++ [125]).
    split_and!; [split| |done]; try done; [| |].
    + apply (consumed_to _ _ _ _ _ (consumed_app _ _ _ _ _ Ht0 (consumed_app _ _ _ _ _ Ht1 Hcons))); [done|].
      flatten.
    + apply agree_prefix. by eapply agree_trans.
    + apply text_object; [done|]. by apply members_text_blank.
Qed.

Lemma parse_array_sound p i p' tail :
  parse_array document capacity value p = Some (i, p') -> (length (parsed p) <= capacity)%nat ->
  rest p = 91 :: tail ->
  exists vs txt, built p i p' (JArray vs) txt /\ json_text (JArray vs) txt /\ items_fine lv vs.
Proof.
  unfold parse_array. intros Hp Hc Er.
  destruct (allocate _ _ _ _) as [[i0 p0]|] eqn:Ha; [|done]. cbn [mbind option_bind] in Hp.
  destruct (open_container _ _ _ _ _ _ Ha Hc Er) as (-> & Ht0 & Ha0 & Hi0 & Hl0 & Hc0).
  set (i0 := length (parsed p)) in *. destruct (whitespace_spec p0) as (w1 & Ht1 & Hw1 & Hn1 & _).
  assert (open_array document (parsed p0) i0 []) as Ho by (split; [done|rewrite Hl0; apply at_no_items]).
  assert (items_fine lv []) as Hfine by constructor.
  destruct (consume document 93 _) as [p2|] eqn:Hc2.
  - apply consume_Some in Hc2 as [Ht2 Hn2]. injection Hp as <- <-. rewrite Hn1 in Hn2.
    exists [], ([91] ++ w1 ++ [93]). rewrite Hn2.
    assert (agree (parsed p) (set_end (parsed p0) i0 (position p2)) 0 i0) as Hagree
      by (eapply agree_trans; [exact Ha0|]; apply agree_alter; lia).
    split_and!; [split| |done]; cbn [parsed]; try done; [| | | |].
    + apply (consumed_to _ _ _ _ _ (consumed_app _ _ _ _ _ Ht0 (consumed_app _ _ _ _ _ Ht1 Ht2))); flatten.
    + by apply agree_prefix.
    + by apply close_array.
    + unfold set_end. by rewrite length_alter.
    + by apply text_no_items.
  - destruct (array_loop _ _ _ _ _) as [p2|] eqn:Hl; [|done]. cbn [mbind option_bind] in Hp. injection Hp as <- <-.
    destruct (array_loop_sound _ _ _ _ [] Hl) as (vs & txt & Hne & Htxt & Hcons & Htree & Hc3 & Ha3 & Hf3);
      [by rewrite Hn1|by rewrite Hn1|done|]. rewrite Hn1 in Ha3.
    exists vs, ([91] ++ (w1 ++ txt) ++ [93]).
    split_and!; [split| |done]; try done; [| |].
    + apply (consumed_to _ _ _ _ _ (consumed_app _ _ _ _ _ Ht0 (consumed_app _ _ _ _ _ Ht1 Hcons))); [done|].
      flatten.
    + apply agree_prefix. by eapply agree_trans.
    + apply text_array; [done|]. by apply items_text_blank.
Qed.

End containers.

(** ** Values and documents *)

Lemma built_blank p p1 i p' t w txt :
  consumed p p1 w -> parsed p1 = parsed p -> built p1 i p' t txt -> built p i p' t (w ++ txt).
Proof.
  intros Hw Hp [Hi Ht Hpre Htree Hc]. rewrite Hp in Hi, Hpre. split; try done. by eapply consumed_app.
Qed.

Lemma value_sound lv : sound lv (value document capacity lv).
Proof.
  induction lv as [|lv IH]; intros p i p' Hv Hc; [done|]. cbn [value] in Hv.
  destruct (whitespace_spec p) as (w & Hw & Hblank & Hparsed & Hhead).
  set (p1 := whitespace document p) in *. rewrite peek_rest in Hv.
  destruct (rest p1) as [|b tail] eqn:Er; [done|]. cbn [head] in Hv.
  assert (forall t txt, built p1 i p' t txt -> json_text t txt -> keys_ok t -> (levels t <= S lv)%nat ->
    exists w txt t, built p i p' t (w ++ txt) /\ blank w /\ json_text t txt /\ keys_ok t /\ (levels t <= S lv)%nat)
    as Hdone by (intros t txt Hb Ht Hk Hl; exists w, txt, t; split_and!; try done; by apply (built_blank p p1)).
  rewrite <- Hparsed in Hc.
  destruct (Z.eqb_spec b 123) as [->|].
  { destruct (parse_object_sound _ _ IH _ _ _ _ Hv Hc Er) as (ms & txt & Hb & Ht & Hf).
    apply members_fine_tree in Hf as [Hk Hl]. by eapply Hdone. }
  destruct (Z.eqb_spec b 91) as [->|].
  { destruct (parse_array_sound _ _ IH _ _ _ _ Hv Hc Er) as (vs & txt & Hb & Ht & Hf).
    apply items_fine_tree in Hf as [Hk Hl]. by eapply Hdone. }
  destruct (Z.eqb_spec b 34) as [->|].
  { destruct (parse_string_sound _ _ _ Hv Hc) as (raw & kn & Ht & Hraw & Hi & Hp' & Hkt & Hkx & Hkf & Hkn & Hc').
    apply (Hdone (JString raw) (quoted raw)); [|by apply text_string|done|simpl; lia].
    split; [done|done|by eexists| |done]. rewrite Hp', length_app, Nat.add_1_r, Hi, <- Hkn.
    apply at_string; [|done..]. by apply list_lookup_middle. }
  destruct (Z.eqb_spec b 116) as [->|].
  { apply (Hdone (JBoolean true) (literal "true")); [|constructor|done|simpl; lia].
    apply (parse_literal_sound _ _ _ _ _ _ Hv Hc). intros. by apply at_boolean. }
  destruct (Z.eqb_spec b 102) as [->|].
  { apply (Hdone (JBoolean false) (literal "false")); [|constructor|done|simpl; lia].
    apply (parse_literal_sound _ _ _ _ _ _ Hv Hc). intros. by apply at_boolean. }
  destruct (Z.eqb_spec b 110) as [->|].
  { apply (Hdone JNull (literal "null")); [|constructor|done|simpl; lia].
    apply (parse_literal_sound _ _ _ _ _ _ Hv Hc). intros. by apply at_null. }
  destruct (parse_integer_sound _ _ _ Hv Hc) as (raw & Hb & Hraw).
  apply (Hdone (JInteger raw) raw); [done|by apply text_integer|done|simpl; lia].
Qed.

(** What the parser accepts, and the nodes it leaves. *)
Definition parsed_as (t : json) (txt : bytes) (nodes : list Node) : Prop :=
  (exists w w', document = w ++ txt ++ w' /\ blank w /\ blank w')
  /\ json_text t txt /\ tree_at document nodes 0 None t (length nodes)
  /\ (node_count t <= capacity)%nat /\ (levels t <= 33)%nat /\ keys_ok t.

Lemma parse_parsed_as root nodes :
  parse document capacity = Some (root, nodes) -> root = 0%nat /\ exists t txt, parsed_as t txt nodes.
Proof.
  unfold parse. intros Hp. set (p0 := {| position := 0; parsed := [] |}) in Hp.
  destruct (whitespace_spec p0) as (w0 & Hw0 & Hb0 & Hn0 & _).
  set (p1 := whitespace document p0) in *.
  destruct (value _ _ _ p1) as [[r p2]|] eqn:Hv; [|done]. cbn [mbind option_bind] in Hp.
  destruct (value_sound _ _ _ _ Hv) as (w1 & txt & t & [Hi Ht Hpre Htree Hc] & Hb1 & Htxt & Hk & Hl);
    [rewrite Hn0; simpl; lia|].
  rewrite Hn0 in Hi. cbn [p0 parsed length] in Hi. subst r. cbn [Nat.eqb negb] in Hp.
  destruct (whitespace_spec p2) as (w2 & Hw2 & Hb2 & Hn2 & _).
  destruct (Nat.eqb_spec (position (whitespace document p2)) (size document)) as [E|]; [|done].
  injection Hp as <- <-. split; [done|]. exists t, txt.
  pose proof (tree_bounds _ _ _ _ _ _ Htree) as [_ Hcount].
  split_and!; [exists (w0 ++ w1), w2|done|done|lia|done|done].
  split; [|split; [by apply Forall_app|done]].
  assert (rest p0 = document) as E0 by done.
  destruct (consumed_app _ _ _ _ _ Hw0 (consumed_app _ _ _ _ _ Ht Hw2)) as [Eall _]. rewrite E0 in Eall.
  rewrite Eall at 1. unfold rest. rewrite E. unfold size. rewrite drop_all, app_nil_r. flatten.
Qed.

(** ** Completeness

    Every text of the grammar within the limits is parsed to its tree. *)

Lemma whitespace_complete p w tail :
  rest p = w ++ tail -> blank w -> (forall b, head tail = Some b -> is_whitespace b = false) ->
  consumed p (whitespace document p) w /\ rest (whitespace document p) = tail.
Proof.
  intros E Hw Ht. assert (rest (whitespace document p) = tail) as Er.
  { unfold rest, whitespace. cbn [position]. apply (rest_skip p w tail); [done|].
    fold (rest p). rewrite E. by apply leading_whitespace_blank. }
  split; [|done]. split; [by rewrite Er|]. unfold whitespace. cbn [position]. fold (rest p). rewrite E.
  by rewrite leading_whitespace_blank.
Qed.

Lemma consume_complete p c tail :
  rest p = c :: tail ->
  exists p', consume document c p = Some p' /\ rest p' = tail /\ consumed p p' [c] /\ parsed p' = parsed p.
Proof.
  intros E. destruct (consume document c p) as [p'|] eqn:Ec.
  - exists p'. apply consume_Some in Ec as [[E' ?] ?]. split_and!; try done.
    rewrite E in E'. by injection E'.
  - unfold consume in Ec. rewrite peek_rest, E in Ec. by rewrite bool_decide_eq_true_2 in Ec.
Qed.

Lemma consume_other p c b tail : rest p = b :: tail -> b <> c -> consume document c p = None.
Proof. intros E Hb. unfold consume. rewrite peek_rest, E. rewrite bool_decide_eq_false_2; [done|]. by intros [= ->]. Qed.

Lemma allocate_complete ty st p :
  (length (parsed p) < capacity)%nat -> exists p', allocate capacity ty st p = Some (length (parsed p), p').
Proof. intros Hc. unfold allocate. destruct (Nat.eqb_spec (length (parsed p)) capacity); [lia|by eexists]. Qed.

Lemma parse_string_complete p raw tail :
  rest p = quoted raw ++ tail -> string_body raw -> (length (parsed p) < capacity)%nat ->
  exists i p', parse_string document capacity p = Some (i, p') /\ rest p' = tail.
Proof.
  intros E Hb Hc. unfold quoted in E. unfold parse_string.
  rewrite peek_rest, E. cbn [app head]. rewrite bool_decide_eq_true_2 by done. cbn [negb].
  destruct (allocate_complete string (position p + 1) p Hc) as [p0 Ha]. rewrite Ha. cbn [mbind option_bind].
  rewrite (rest_skip p [34] (raw ++ 34 :: tail)); [|rewrite E; flatten|done].
  rewrite (string_length_complete _ _ Hb). cbn [mbind option_bind]. eexists _, _. split; [done|].
  unfold rest. cbn [position].
  replace (position p + 1 + length raw + 1)%nat with (position p + (1 + length raw + 1))%nat by lia.
  apply (rest_skip p ([34] ++ raw ++ [34])); [rewrite E; flatten|]. rewrite !length_app. simpl. lia.
Qed.

(** What follows an integer ends it. *)
Definition ends_integer (tail : bytes) : Prop :=
  forall b, head tail = Some b -> is_digit b = false /\ b <> 46 /\ b <> 101 /\ b <> 69.

Lemma parse_integer_complete p raw tail :
  rest p = raw ++ tail -> integer_text raw -> ends_integer tail -> (length (parsed p) < capacity)%nat ->
  exists i p', parse_integer document capacity p = Some (i, p') /\ rest p' = tail.
Proof.
  intros E (sign & ds & -> & Hsign & Hne & Hds & Hzero) Htail Hc. unfold parse_integer.
  set (at_ := if bool_decide _ then _ else _).
  assert (at_ = (position p + length sign)%nat) as Hat.
  { subst at_. rewrite <- head_lookup_drop. fold (rest p). rewrite E. destruct Hsign as [->| ->]; cbn [app head].
    - destruct ds as [|d ds]; [done|]. cbn [app head]. rewrite bool_decide_eq_false_2; [simpl; lia|].
      intros [= ->]. by inversion Hds.
    - by rewrite bool_decide_eq_true_2. }
  assert (drop at_ document = ds ++ tail) as Ed
    by (rewrite Hat; apply (rest_skip p sign); [by rewrite E, app_assoc|done]).
  rewrite Ed, leading_digits_all; [|done|intros b Hb; by apply Htail].
  destruct (Nat.eqb_spec (length ds) 0) as [H0|]; [by destruct ds|].
  assert (bool_decide (document !! at_ = Some 48) && (1 <? length ds)%nat = false) as ->.
  { rewrite <- head_lookup_drop, Ed. case_bool_decide as Eh; [|done]. simpl.
    destruct ds as [|d ds]; [done|]. cbn [app head] in Eh. injection Eh as ->. by rewrite Hzero. }
  assert (drop (at_ + length ds) document = tail) as Est
    by (rewrite <- drop_drop, Ed; apply drop_app_length).
  assert (existsb (fun c => bool_decide (document !! (at_ + length ds)%nat = Some c)) [46; 101; 69] = false) as ->.
  { rewrite <- head_lookup_drop, Est. apply existsb_false. destruct (head tail) as [b|] eqn:Eb.
    - destruct (Htail b Eb) as (_ & ? & ? & ?). repeat constructor; apply bool_decide_eq_false_2; by intros [= ->].
    - by repeat constructor. }
  destruct (allocate_complete integer (position p) p Hc) as [p0 Ha]. rewrite Ha. cbn [mbind option_bind].
  eexists _, _. split; [done|]. exact Est.
Qed.

Lemma parse_literal_complete p text ty tail :
  rest p = text ++ tail -> (length (parsed p) < capacity)%nat ->
  exists i p', parse_literal document capacity text ty p = Some (i, p') /\ rest p' = tail.
Proof.
  intros E Hc. unfold parse_literal, slice. fold (rest p). rewrite E, take_app_length.
  rewrite bool_decide_eq_true_2 by done. cbn [negb].
  destruct (allocate_complete ty (position p) p Hc) as [p0 Ha]. rewrite Ha. cbn [mbind option_bind].
  eexists _, _. split; [done|]. unfold rest. cbn [position]. by apply (rest_skip p text).
Qed.

Lemma built_rest p i p' t txt tail : built p i p' t txt -> rest p = txt ++ tail -> rest p' = tail.
Proof. intros [_ [E _] _ _ _] E'. rewrite E' in E. by apply app_inv_head in E. Qed.

(** [value] at a level parses the text [txt] of [t] wherever it stands. *)
Definition complete (t : json) (txt : bytes) : Prop := forall lv p w tail,
  rest p = w ++ txt ++ tail -> blank w -> (forall raw, t = JInteger raw -> ends_integer tail) ->
  keys_ok t -> (levels t <= lv)%nat -> (length (parsed p) + node_count t <= capacity)%nat ->
  exists i p', value document capacity lv p = Some (i, p') /\ built p i p' t (w ++ txt).

Definition nodes_of_members (ms : list (bytes * json)) : nat :=
  fold_right (fun m n => 1 + node_count m.2 + n)%nat 0%nat ms.
Definition nodes_of_items (vs : list json) : nat := fold_right (fun v n => node_count v + n)%nat 0%nat vs.

Definition members_complete (ms : list (bytes * json)) (txt : bytes) : Prop := forall lv p i ms0 tail fuel,
  rest p = txt ++ 125 :: tail -> open_object document (parsed p) i ms0 -> members_fine lv (ms0 ++ ms) ->
  (length ms <= fuel)%nat -> (length (parsed p) + nodes_of_members ms <= capacity)%nat ->
  exists p', object_loop document capacity (value document capacity lv) fuel i (whitespace document p) = Some p'
    /\ consumed p p' (txt ++ [125])
    /\ tree_at document (parsed p') i None (JObject (ms0 ++ ms)) (length (parsed p'))
    /\ agree (parsed p) (parsed p') 0 i /\ (length (parsed p') <= capacity)%nat.

Definition items_complete (vs : list json) (txt : bytes) : Prop := forall lv p i vs0 tail fuel,
  rest p = txt ++ 93 :: tail -> open_array document (parsed p) i vs0 -> items_fine lv (vs0 ++ vs) ->
  (length vs <= fuel)%nat -> (length (parsed p) + nodes_of_items vs <= capacity)%nat ->
  exists p', array_loop document (value document capacity lv) fuel i p = Some p'
    /\ consumed p p' (txt ++ [93])
    /\ tree_at document (parsed p') i None (JArray (vs0 ++ vs)) (length (parsed p'))
    /\ agree (parsed p) (parsed p') 0 i /\ (length (parsed p') <= capacity)%nat.

(** A blank text ends an integer before a separator. *)
Lemma ends_integer_blank w c tail :
  blank w -> c = 44 \/ c = 93 \/ c = 125 -> ends_integer (w ++ c :: tail).
Proof.
  intros Hw Hc b. destruct Hw as [|b' w Hb' _]; cbn [app head]; intros [= <-].
  - destruct Hc as [->|[->| ->]]; split_and!; done.
  - unfold is_whitespace in Hb'. bool_cases; subst; split_and!; done.
Qed.

Lemma separator_not_blank c tail :
  c = 44 \/ c = 93 \/ c = 125 -> forall b, head (c :: tail) = Some b -> is_whitespace b = false.
Proof. intros Hc b [= <-]. by destruct Hc as [->|[->| ->]]. Qed.

(** One turn of [object_loop], up to the separator. *)
Lemma member_step lv p i ms0 w1 key w2 w3 v t w4 c tail fuel :
  complete v t -> rest p = w1 ++ quoted key ++ w2 ++ [58] ++ w3 ++ t ++ w4 ++ c :: tail ->
  blank w1 -> string_body key -> blank w2 -> blank w3 -> blank w4 -> c = 44 \/ c = 93 \/ c = 125 ->
  open_object document (parsed p) i ms0 -> fresh_key (map fst ms0) key -> keys_ok v -> (levels v <= lv)%nat ->
  (length (parsed p) + (1 + node_count v) <= capacity)%nat ->
  exists q, rest q = c :: tail /\ consumed p q (w1 ++ quoted key ++ w2 ++ [58] ++ w3 ++ t ++ w4)
    /\ open_object document (parsed q) i (ms0 ++ [(key, v)]) /\ agree (parsed p) (parsed q) 0 i
    /\ length (parsed q) = (length (parsed p) + (1 + node_count v))%nat
    /\ object_loop document capacity (value document capacity lv) (S fuel) i (whitespace document p)
       = match consume document 125 q with
         | Some p => Some {| position := position p; parsed := set_end (parsed p) i (position p) |}
         | None => p ← consume document 44 q;
                   object_loop document capacity (value document capacity lv) fuel i (whitespace document p)
         end.
Proof.
  intros IHv E Hw1 Hkey Hw2 Hw3 Hw4 Hsep Ho Hfresh Hk Hlv Hcap. cbn [object_loop].
  destruct (whitespace_complete p _ _ E Hw1) as [Ht0 E0]; [by intros b [= <-]|].
  set (p0 := whitespace document p) in *. assert (parsed p0 = parsed p) as Hp0 by done.
  destruct (parse_string_complete p0 key _ E0 Hkey) as (k & p1 & Hps & E1); [rewrite Hp0; lia|].
  rewrite Hps. cbn [mbind option_bind].
  apply parse_string_sound in Hps as (raw & kn & Ht1 & _ & -> & Hp1 & Hkt & Hkx & Hkf & Hkn & Hc1); [|rewrite Hp0; lia].
  assert (raw = key) as ->.
  { destruct Ht1 as [E1' _]. rewrite E0, E1 in E1'. apply app_inv_tail in E1'.
    unfold quoted in E1'. injection E1' as E1'. by apply app_inv_tail in E1'. }
  rewrite Hp0 in Hp1. rewrite Hp0, Hp1. rewrite (proj2 (duplicate_key_fresh _ _ _ _ _ Ho Hkt Hkx)) by done.
  destruct (append_key _ _ _ _ kn Ho Hkn) as (Hl2 & Hk2 & Hi2 & Hm2 & Ha2 & Hik).
  set (k := length (parsed p)) in *. set (nodes2 := append_child _ _ _) in *.
  set (p2 := {| position := position p1; parsed := nodes2 |}).
  destruct (whitespace_complete p2 w2 ([58] ++ w3 ++ t ++ w4 ++ c :: tail)) as [Ht2 E2]; [exact E1|done|by intros b [= <-]|].
  destruct (consume_complete _ _ _ E2) as (p3 & -> & E3 & Ht3 & Hn3). cbn [mbind option_bind].
  assert (parsed p3 = nodes2) as Hn3' by done.
  destruct (IHv lv p3 w3 (w4 ++ c :: tail) E3 Hw3) as (ci & p4 & -> & Hb4);
    [intros; by apply ends_integer_blank|done|done|rewrite Hn3', Hl2; lia|].
  cbn [mbind option_bind].
  pose proof (built_rest _ _ _ _ _ (w4 ++ c :: tail) Hb4 ltac:(rewrite E3; flatten)) as E4.
  destruct Hb4 as [Hci Ht4 [more Hmore] Htree Hc4]. rewrite Hn3', Hl2 in Hci. subst ci. rewrite Hn3' in Hmore.
  assert (agree nodes2 (parsed p4) 0 (S k)) as Ha4 by (rewrite Hmore; apply agree_app; lia).
  set (nodes5 := alter _ k (parsed p4)).
  assert (open_object document nodes5 i (ms0 ++ [(key, v)])) as Ho5.
  { rewrite <- Hkx. apply add_member; try done.
    - rewrite Ha4 by lia. exact Hk2.
    - destruct Hi2 as (n & Hn & ?). exists n. split; [|done]. rewrite Ha4 by lia. exact Hn.
    - eapply members_ext; [exact Hm2|]. intros x Hx. apply Ha4. lia. }
  set (p5 := {| position := position p4; parsed := nodes5 |}).
  destruct (whitespace_complete p5 w4 (c :: tail)) as [Ht5 E5]; [exact E4|done|by apply separator_not_blank|].
  exists (whitespace document p5). split_and!; [done| |done| | |done].
  - apply (consumed_to p _ _ _ _ (consumed_app _ _ _ _ _ Ht0 (consumed_app _ _ _ _ _ Ht1
      (consumed_app p1 p2 _ [] _ ltac:(split; [done|simpl; lia]) (consumed_app _ _ _ _ _ Ht2
      (consumed_app _ _ _ _ _ Ht3 (consumed_app _ _ _ _ _ Ht4
      (consumed_app p4 p5 _ [] _ ltac:(split; [done|simpl; lia]) Ht5)))))))); [done|]. flatten.
  - cbn [parsed p5 whitespace]. eapply agree_trans; [exact Ha2|]. eapply agree_trans; [eapply agree_weaken; [exact Ha4|lia]|].
    apply agree_alter. lia.
  - cbn [parsed p5 whitespace]. unfold nodes5. rewrite length_alter.
    pose proof (tree_bounds _ _ _ _ _ _ Htree) as [_ ->]. lia.
Qed.

(** One turn of [array_loop]. *)
Lemma item_step lv p i vs0 w1 v t w2 c tail fuel :
  complete v t -> rest p = w1 ++ t ++ w2 ++ c :: tail ->
  blank w1 -> blank w2 -> c = 44 \/ c = 93 \/ c = 125 ->
  open_array document (parsed p) i vs0 -> keys_ok v -> (levels v <= lv)%nat ->
  (length (parsed p) + node_count v <= capacity)%nat ->
  exists q, rest q = c :: tail /\ consumed p q (w1 ++ t ++ w2)
    /\ open_array document (parsed q) i (vs0 ++ [v]) /\ agree (parsed p) (parsed q) 0 i
    /\ length (parsed q) = (length (parsed p) + node_count v)%nat
    /\ array_loop document (value document capacity lv) (S fuel) i p
       = match consume document 93 q with
         | Some p => Some {| position := position p; parsed := set_end (parsed p) i (position p) |}
         | None => p ← consume document 44 q;
                   array_loop document (value document capacity lv) fuel i (whitespace document p)
         end.
Proof.
  intros IHv E Hw1 Hw2 Hsep Ho Hk Hlv Hcap. cbn [array_loop].
  destruct (IHv lv p w1 (w2 ++ c :: tail) E Hw1) as (ci & p1 & -> & Hb);
    [intros; by apply ends_integer_blank|done|done|done|].
  cbn [mbind option_bind].
  pose proof (built_rest _ _ _ _ _ (w2 ++ c :: tail) Hb ltac:(rewrite E; flatten)) as E1.
  destruct Hb as [-> Ht1 [more Hmore] Htree Hc1]. rewrite Hmore in Htree |- *.
  destruct (add_item document _ _ _ _ _ Ho Htree) as (Ho2 & Hl2 & Ha2).
  set (nodes2 := append_child _ _ _) in *.
  set (p2 := {| position := position p1; parsed := nodes2 |}).
  destruct (whitespace_complete p2 w2 (c :: tail)) as [Ht2 E2]; [exact E1|done|by apply separator_not_blank|].
  exists (whitespace document p2). split_and!; [done| |done|done| |done].
  - apply (consumed_to p _ _ _ _ (consumed_app _ _ _ _ _ Ht1
      (consumed_app p1 p2 _ [] _ ltac:(split; [done|simpl; lia]) Ht2))); [done|]. flatten.
  - cbn [parsed p2 whitespace]. rewrite Hl2. by pose proof (tree_bounds _ _ _ _ _ _ Htree) as [_ ->].
Qed.

Lemma fresh_keys_prefix before keys more : fresh_keys before (keys ++ more) -> fresh_keys before keys.
Proof. revert before. induction keys; intros before; [done|]. simpl. intros [? ?]. by split; [|eauto]. Qed.

Lemma members_fine_prefix lv ms key v more :
  members_fine lv (ms ++ (key, v) :: more) ->
  members_fine lv ms /\ fresh_key (map fst ms) key /\ keys_ok v /\ (levels v <= lv)%nat.
Proof.
  intros [Hf1 Hf2]. apply Forall_app in Hf2 as [Hf2 [[? ?] _]%Forall_cons].
  rewrite map_app in Hf1. cbn [map fst] in Hf1.
  replace (map fst ms ++ key :: map fst more) with ((map fst ms ++ [key]) ++ map fst more) in Hf1 by flatten.
  apply fresh_keys_prefix, fresh_keys_app in Hf1 as [? ?]. by split_and!.
Qed.

Lemma members_one_complete w1 key w2 w3 v t w4 :
  blank w1 -> string_body key -> blank w2 -> blank w3 -> complete v t -> blank w4 ->
  members_complete [(key, v)] (w1 ++ quoted key ++ w2 ++ [58] ++ w3 ++ t ++ w4).
Proof.
  intros Hw1 Hkey Hw2 Hw3 IHv Hw4 lv p i ms0 tail fuel E Ho Hfine Hfuel Hcap.
  destruct (members_fine_prefix _ _ _ _ _ Hfine) as (_ & Hfresh & Hk & Hlv).
  destruct fuel as [|fuel]; [simpl in Hfuel; lia|]. cbn [nodes_of_members fold_right snd] in Hcap.
  destruct (member_step lv p i ms0 w1 key w2 w3 v t w4 125 tail fuel) as (q & Eq & Hq & Hoq & Haq & Hlq & ->);
    try done; [rewrite E; flatten|tauto|lia|].
  destruct (consume_complete _ _ _ Eq) as (p6 & -> & _ & Ht6 & Hn6). eexists. split; [done|].
  pose proof (close_object _ _ _ _ (position p6) Hoq) as Hclose. rewrite Hn6. cbn [parsed].
  split_and!; [|exact Hclose| |].
  - apply (consumed_to _ _ _ _ _ (consumed_app _ _ _ _ _ Hq Ht6)); done.
  - eapply agree_trans; [exact Haq|]. apply agree_alter. lia.
  - unfold set_end. rewrite length_alter. lia.
Qed.

Lemma members_more_complete w1 key w2 w3 v t w4 ms rest_ :
  blank w1 -> string_body key -> blank w2 -> blank w3 -> complete v t -> blank w4 -> members_complete ms rest_ ->
  members_complete ((key, v) :: ms) (w1 ++ quoted key ++ w2 ++ [58] ++ w3 ++ t ++ w4 ++ [44] ++ rest_).
Proof.
  intros Hw1 Hkey Hw2 Hw3 IHv Hw4 IHms lv p i ms0 tail fuel E Ho Hfine Hfuel Hcap.
  destruct (members_fine_prefix _ _ _ _ _ Hfine) as (_ & Hfresh & Hk & Hlv).
  destruct fuel as [|fuel]; [simpl in Hfuel; lia|]. cbn [nodes_of_members fold_right snd] in Hcap.
  destruct (member_step lv p i ms0 w1 key w2 w3 v t w4 44 (rest_ ++ 125 :: tail) fuel)
    as (q & Eq & Hq & Hoq & Haq & Hlq & ->); try done; [rewrite E; flatten|tauto|lia|].
  rewrite (consume_other q 125 44 _ Eq) by done.
  destruct (consume_complete _ _ _ Eq) as (p6 & -> & E6 & Ht6 & Hn6). cbn [mbind option_bind].
  destruct (IHms lv p6 i (ms0 ++ [(key, v)]) tail fuel E6) as (p' & Hp' & Hc' & Htree & Ha & Hl).
  - by rewrite Hn6.
  - by rewrite <- app_assoc.
  - simpl in Hfuel. lia.
  - rewrite Hn6, Hlq. unfold nodes_of_members. lia.
  - exists p'. rewrite <- app_assoc in Htree. split_and!; [done| |done| |done].
    + apply (consumed_to _ _ _ _ _ (consumed_app _ _ _ _ _ Hq (consumed_app _ _ _ _ _ Ht6 Hc'))); [done|]. flatten.
    + rewrite Hn6 in Ha. by eapply agree_trans.
Qed.

Lemma items_fine_prefix lv vs v more :
  items_fine lv (vs ++ v :: more) -> keys_ok v /\ (levels v <= lv)%nat.
Proof. by intros [_ [? _]%Forall_cons]%Forall_app. Qed.

Lemma items_one_complete w1 v t w2 :
  blank w1 -> complete v t -> blank w2 -> items_complete [v] (w1 ++ t ++ w2).
Proof.
  intros Hw1 IHv Hw2 lv p i vs0 tail fuel E Ho Hfine Hfuel Hcap.
  destruct (items_fine_prefix _ _ _ _ Hfine) as (Hk & Hlv).
  destruct fuel as [|fuel]; [simpl in Hfuel; lia|]. cbn [nodes_of_items fold_right] in Hcap.
  destruct (item_step lv p i vs0 w1 v t w2 93 tail fuel) as (q & Eq & Hq & Hoq & Haq & Hlq & ->);
    try done; [rewrite E; flatten|tauto|lia|].
  destruct (consume_complete _ _ _ Eq) as (p6 & -> & _ & Ht6 & Hn6). eexists. split; [done|].
  pose proof (close_array _ _ _ _ (position p6) Hoq) as Hclose. rewrite Hn6. cbn [parsed].
  split_and!; [|exact Hclose| |].
  - apply (consumed_to _ _ _ _ _ (consumed_app _ _ _ _ _ Hq Ht6)); done.
  - eapply agree_trans; [exact Haq|]. apply agree_alter. lia.
  - unfold set_end. rewrite length_alter. lia.
Qed.

(** The loop starts at the next item whether or not blanks were skipped. *)
Lemma value_whitespace lv p : value document capacity lv (whitespace document p) = value document capacity lv p.
Proof.
  assert (whitespace document (whitespace document p) = whitespace document p) as Hid.
  { destruct (whitespace_spec p) as (w & _ & _ & _ & Hh). unfold whitespace at 1.
    replace (leading_whitespace _) with 0%nat; [rewrite Nat.add_0_r; by destruct (whitespace document p)|].
    fold (rest (whitespace document p)). destruct (rest (whitespace document p)) as [|b tail]; [done|].
    simpl. by rewrite (Hh b eq_refl). }
  destruct lv; [done|]. cbn [value]. by rewrite Hid.
Qed.

Lemma array_loop_whitespace lv fuel i p :
  array_loop document (value document capacity lv) fuel i (whitespace document p)
  = array_loop document (value document capacity lv) fuel i p.
Proof. destruct fuel; [done|]. cbn [array_loop]. by rewrite value_whitespace. Qed.

Lemma items_more_complete w1 v t w2 vs rest_ :
  blank w1 -> complete v t -> blank w2 -> items_complete vs rest_ ->
  items_complete (v :: vs) (w1 ++ t ++ w2 ++ [44] ++ rest_).
Proof.
  intros Hw1 IHv Hw2 IHvs lv p i vs0 tail fuel E Ho Hfine Hfuel Hcap.
  destruct (items_fine_prefix _ _ _ _ Hfine) as (Hk & Hlv).
  destruct fuel as [|fuel]; [simpl in Hfuel; lia|]. cbn [nodes_of_items fold_right] in Hcap.
  destruct (item_step lv p i vs0 w1 v t w2 44 (rest_ ++ 93 :: tail) fuel)
    as (q & Eq & Hq & Hoq & Haq & Hlq & ->); try done; [rewrite E; flatten|tauto|lia|].
  rewrite (consume_other q 93 44 _ Eq) by done.
  destruct (consume_complete _ _ _ Eq) as (p6 & -> & E6 & Ht6 & Hn6). cbn [mbind option_bind].
  rewrite array_loop_whitespace.
  destruct (IHvs lv p6 i (vs0 ++ [v]) tail fuel E6) as (p' & Hp' & Hc' & Htree & Ha & Hl).
  - by rewrite Hn6.
  - by rewrite <- app_assoc.
  - simpl in Hfuel. lia.
  - rewrite Hn6, Hlq. unfold nodes_of_items. lia.
  - exists p'. rewrite <- app_assoc in Htree. split_and!; [done| |done| |done].
    + apply (consumed_to _ _ _ _ _ (consumed_app _ _ _ _ _ Hq (consumed_app _ _ _ _ _ Ht6 Hc'))); [done|]. flatten.
    + rewrite Hn6 in Ha. by eapply agree_trans.
Qed.

Lemma text_lengths :
  (forall t txt, json_text t txt -> (0 < length txt)%nat)
  /\ (forall ms txt, members_text ms txt -> (length ms <= length txt)%nat)
  /\ (forall vs txt, items_text vs txt -> (length vs <= length txt)%nat).
Proof.
  apply text_ind; intros; unfold quoted in *; rewrite ?length_app; simpl; try lia.
  match goal with H : integer_text _ |- _ => destruct H as (sg & ds & -> & _ & Hne & _) end.
  rewrite length_app. destruct ds; [done|simpl; lia].
Qed.

(** No value starts with a blank or a closing bracket. *)
Lemma json_text_head t txt :
  json_text t txt -> exists b tl, txt = b :: tl /\ is_whitespace b = false /\ b <> 93.
Proof.
  intros Ht. inversion Ht as [raw ?|raw Hi| | | |w ?|ms t' ??|w ?|vs t' ??]; subst; try by eexists _, _.
  destruct Hi as (sg & ds & -> & [->| ->] & Hne & Hds & _); [|by eexists _, _].
  destruct ds as [|d ds]; [done|]. apply Forall_cons in Hds as [Hd _]. unfold is_digit, ch_0, ch_9 in Hd. bool_prop.
  eexists _, _. split; [done|]. split; [|lia].
  unfold is_whitespace. rewrite !(proj2 (Z.eqb_neq _ _)); [done|lia..].
Qed.

Lemma rest_size p : (length (rest p) <= size document)%nat.
Proof. unfold rest, size. rewrite length_drop. lia. Qed.

Lemma built_token p p' i w txt tail t' txt' t :
  built p i p' t' txt' -> rest p = txt ++ tail -> rest p' = tail -> (txt' = txt -> t' = t) -> txt' = w ->
  built p i p' t txt.
Proof.
  intros Hb E E' Ht _. assert (txt' = txt) as Hx.
  { destruct Hb as [_ [E1 _] _ _ _]. rewrite E, E' in E1. by apply app_inv_tail in E1. }
  rewrite <- (Ht Hx), <- Hx. done.
Qed.

(** The first byte behind the blanks selects the branch. *)
Lemma value_dispatch lv p w b tl :
  rest p = w ++ b :: tl -> blank w -> is_whitespace b = false ->
  consumed p (whitespace document p) w /\ rest (whitespace document p) = b :: tl
  /\ value document capacity (S lv) p
     = (let p := whitespace document p in
        if b =? 123 then parse_object document capacity (value document capacity lv) p
        else if b =? 91 then parse_array document capacity (value document capacity lv) p
        else if b =? 34 then parse_string document capacity p
        else if b =? 116 then parse_literal document capacity (literal "true") boolean p
        else if b =? 102 then parse_literal document capacity (literal "false") boolean p
        else if b =? 110 then parse_literal document capacity (literal "null") null_value p
        else parse_integer document capacity p).
Proof.
  intros E Hw Hb. destruct (whitespace_complete p w (b :: tl) E Hw) as [Hc Er]; [by intros ? [= <-]|].
  split_and!; [done|done|]. cbn [value]. rewrite peek_rest, Er. done.
Qed.

Lemma integer_head raw tail :
  integer_text raw -> exists b tl, raw ++ tail = b :: tl /\ (b = 45 \/ 48 <= b <= 57).
Proof.
  intros (sg & ds & -> & [->| ->] & Hne & Hds & _); [|by eexists _, _; split; [|left]].
  destruct ds as [|d ds]; [done|]. apply Forall_cons in Hds as [Hd _]. unfold is_digit, ch_0, ch_9 in Hd. bool_prop.
  eexists _, _. split; [done|right; lia].
Qed.

Lemma leaf_complete t txt : json_text t txt -> node_count t = 1%nat ->
  match t with JObject _ | JArray _ => False | _ => True end -> complete t txt.
Proof.
  intros Ht Hone Hleaf lv p w tail E Hw Hint _ Hlv Hcap.
  assert (exists lv', lv = S lv') as [lv' ->] by (destruct lv; [destruct t; simpl in Hlv; lia|by eexists]).
  assert (length (parsed (whitespace document p)) < capacity)%nat as Hc by (change (length (parsed p) < capacity)%nat; rewrite Hone in Hcap; lia).
  assert (forall b tl, txt ++ tail = b :: tl -> is_whitespace b = false ->
    consumed p (whitespace document p) w /\ rest (whitespace document p) = txt ++ tail) as Hdisp.
  { intros b tl Etl Hb. rewrite Etl in E |- *. by destruct (value_dispatch lv' p w b tl E Hw Hb) as (? & ? & _). }
  inversion Ht as [raw Hraw|raw Hi| | | |w' ?|ms t' ??|w' ?|vs t' ??]; subst; try done.
  - destruct (value_dispatch lv' p w _ _ E Hw eq_refl) as (Hcons & Er & ->). cbn [Z.eqb Pos.eqb].
    destruct (parse_string_complete _ _ _ Er Hraw Hc) as (i & p' & Hp & Er'). exists i, p'. split; [done|].
    apply (built_blank p (whitespace document p)); [done|done|].
    apply parse_string_sound in Hp as (raw' & kn & Ht' & _ & Hi & Hp' & Hkt & Hkx & Hkf & Hkn & Hc'); [|lia].
    assert (raw' = raw) as ->.
    { destruct Ht' as [E1' _]. rewrite Er, Er' in E1'. apply (app_inv_tail tail (quoted raw) (quoted raw')) in E1'.
      unfold quoted in E1'. injection E1' as E1'. by apply app_inv_tail in E1'. }
    split; [done|done|by eexists| |done]. rewrite Hp', length_app, Nat.add_1_r, Hi, <- Hkn.
    apply at_string; [|done..]. by apply list_lookup_middle.
  - destruct (integer_head txt tail Hi) as (b & tl & Etl & Hb). rewrite Etl in E.
    assert (is_whitespace b = false) as Hwb
      by (unfold is_whitespace; rewrite !(proj2 (Z.eqb_neq _ _)); [done|lia..]).
    destruct (value_dispatch lv' p w _ _ E Hw Hwb) as (Hcons & Er & ->).
    rewrite !(proj2 (Z.eqb_neq b _)) by lia. cbv zeta. rewrite <- Etl in Er.
    destruct (parse_integer_complete _ _ _ Er Hi (Hint _ eq_refl) Hc) as (i & p' & Hp & Er'). exists i, p'. split; [done|].
    apply (built_blank p (whitespace document p)); [done|done|].
    apply parse_integer_sound in Hp as (raw' & Hbuilt & _); [|lia].
    by apply (built_token _ _ _ raw' txt tail (JInteger raw') raw'); [..|intros ->|].
  - destruct (value_dispatch lv' p w _ _ E Hw eq_refl) as (Hcons & Er & ->). cbn [Z.eqb Pos.eqb].
    destruct (parse_literal_complete _ (literal "true") boolean tail Er Hc) as (i & p' & Hp & Er'). exists i, p'. split; [done|].
    apply (built_blank p (whitespace document p)); [done|done|].
    apply (parse_literal_sound _ _ _ _ _ _ Hp); [lia|]. intros. by apply at_boolean.
  - destruct (value_dispatch lv' p w _ _ E Hw eq_refl) as (Hcons & Er & ->). cbn [Z.eqb Pos.eqb].
    destruct (parse_literal_complete _ (literal "false") boolean tail Er Hc) as (i & p' & Hp & Er'). exists i, p'. split; [done|].
    apply (built_blank p (whitespace document p)); [done|done|].
    apply (parse_literal_sound _ _ _ _ _ _ Hp); [lia|]. intros. by apply at_boolean.
  - destruct (value_dispatch lv' p w _ _ E Hw eq_refl) as (Hcons & Er & ->). cbn [Z.eqb Pos.eqb].
    destruct (parse_literal_complete _ (literal "null") null_value tail Er Hc) as (i & p' & Hp & Er'). exists i, p'. split; [done|].
    apply (built_blank p (whitespace document p)); [done|done|].
    apply (parse_literal_sound _ _ _ _ _ _ Hp); [lia|]. intros. by apply at_null.
Qed.

(** A container's node, and the blanks behind its bracket. *)
Lemma open_complete p ty b tail :
  rest p = b :: tail -> (length (parsed p) < capacity)%nat ->
  exists p0, allocate capacity ty (position p) {| position := position p + 1; parsed := parsed p |}
               = Some (length (parsed p), p0)
    /\ consumed p p0 [b] /\ rest p0 = tail /\ agree (parsed p) (parsed p0) 0 (length (parsed p))
    /\ container (parsed p0) (length (parsed p)) ty true /\ length (parsed p0) = S (length (parsed p)).
Proof.
  intros E Hc.
  destruct (allocate_complete ty (position p) {| position := position p + 1; parsed := parsed p |} Hc) as [p0 Ha].
  cbn [parsed] in Ha. exists p0. split; [done|].
  destruct (open_container _ _ _ _ _ _ Ha ltac:(lia) E) as (_ & Hcons & Hag & Hcont & Hl & _).
  split_and!; try done. destruct Hcons as [E' _]. rewrite E in E'. by injection E'.
Qed.

Lemma no_members_complete w : blank w -> complete (JObject []) ([123] ++ w ++ [125]).
Proof.
  intros Hw lv p w0 tail E Hw0 _ _ Hlv Hcap. simpl in Hlv, Hcap. destruct lv as [|lv]; [lia|].
  assert (rest p = w0 ++ 123 :: (w ++ [125]) ++ tail) as E' by (rewrite E; flatten).
  destruct (value_dispatch lv p w0 _ _ E' Hw0 eq_refl) as (Hcons & Er & ->). cbn [Z.eqb Pos.eqb].
  set (p1 := whitespace document p) in *. assert (length (parsed p1) < capacity)%nat as Hc1 by (change (parsed p1) with (parsed p); lia).
  unfold parse_object. destruct (open_complete p1 object _ _ Er Hc1) as (p2 & -> & Ht2 & E2 & Ha2 & Hi2 & Hl2).
  cbn [mbind option_bind].
  destruct (whitespace_complete p2 w (125 :: tail)) as [Ht3 E3]; [rewrite E2; flatten|done|by intros ? [= <-]|].
  destruct (consume_complete _ _ _ E3) as (p4 & -> & _ & Ht4 & Hn4). eexists _, _. split; [done|].
  apply (built_blank p p1); [done|done|]. change (parsed (whitespace document p2)) with (parsed p2) in Hn4.
  rewrite Hn4. split; [done| | | |].
  - apply (consumed_to _ _ _ _ _ (consumed_app _ _ _ _ _ Ht2 (consumed_app _ _ _ _ _ Ht3 Ht4))); done.
  - apply agree_prefix. eapply agree_trans; [exact Ha2|]. apply agree_alter. lia.
  - apply close_object. split; [done|]. rewrite Hl2. apply at_no_members.
  - cbn [parsed]. unfold set_end. rewrite length_alter. lia.
Qed.

Lemma no_items_complete w : blank w -> complete (JArray []) ([91] ++ w ++ [93]).
Proof.
  intros Hw lv p w0 tail E Hw0 _ _ Hlv Hcap. simpl in Hlv, Hcap. destruct lv as [|lv]; [lia|].
  assert (rest p = w0 ++ 91 :: (w ++ [93]) ++ tail) as E' by (rewrite E; flatten).
  destruct (value_dispatch lv p w0 _ _ E' Hw0 eq_refl) as (Hcons & Er & ->). cbn [Z.eqb Pos.eqb].
  set (p1 := whitespace document p) in *. assert (length (parsed p1) < capacity)%nat as Hc1 by (change (parsed p1) with (parsed p); lia).
  unfold parse_array. destruct (open_complete p1 array _ _ Er Hc1) as (p2 & -> & Ht2 & E2 & Ha2 & Hi2 & Hl2).
  cbn [mbind option_bind].
  destruct (whitespace_complete p2 w (93 :: tail)) as [Ht3 E3]; [rewrite E2; flatten|done|by intros ? [= <-]|].
  destruct (consume_complete _ _ _ E3) as (p4 & -> & _ & Ht4 & Hn4). eexists _, _. split; [done|].
  apply (built_blank p p1); [done|done|]. change (parsed (whitespace document p2)) with (parsed p2) in Hn4.
  rewrite Hn4. split; [done| | | |].
  - apply (consumed_to _ _ _ _ _ (consumed_app _ _ _ _ _ Ht2 (consumed_app _ _ _ _ _ Ht3 Ht4))); done.
  - apply agree_prefix. eapply agree_trans; [exact Ha2|]. apply agree_alter. lia.
  - apply close_array. split; [done|]. rewrite Hl2. apply at_no_items.
  - cbn [parsed]. unfold set_end. rewrite length_alter. lia.
Qed.

(** The first byte of a member list behind its blanks is a quote. *)
Lemma members_head ms txt tail :
  members_text ms txt -> exists w tl, txt ++ tail = w ++ 34 :: tl /\ blank w.
Proof. destruct 1; eexists w1, _; split; try done; unfold quoted; by flatten. Qed.

Lemma items_head vs txt tail :
  items_text vs txt -> exists w b tl, txt ++ tail = w ++ b :: tl /\ blank w /\ is_whitespace b = false /\ b <> 93.
Proof.
  destruct 1 as [w1 v t w2 ? Hv ?|w1 v t w2 vs rest_ ? Hv ? ?];
    destruct (json_text_head _ _ Hv) as (b & tl & -> & ? & ?); eexists w1, b, _; split_and!; try done; by flatten.
Qed.

Lemma object_complete ms txt :
  ms <> [] -> members_text ms txt -> members_complete ms txt -> complete (JObject ms) ([123] ++ txt ++ [125]).
Proof.
  intros Hne Hms IH lv p w0 tail E Hw0 _ Hk Hlv Hcap. destruct lv as [|lv]; [simpl in Hlv; lia|].
  pose proof (proj2 (members_fine_tree lv ms) (conj Hk Hlv)) as Hfine.
  cbn [node_count] in Hcap. fold (nodes_of_members ms) in Hcap.
  assert (rest p = w0 ++ 123 :: (txt ++ [125]) ++ tail) as E' by (rewrite E; flatten).
  destruct (value_dispatch lv p w0 _ _ E' Hw0 eq_refl) as (Hcons & Er & ->). cbn [Z.eqb Pos.eqb].
  set (p1 := whitespace document p) in *. change (parsed p) with (parsed p1) in Hcap.
  unfold parse_object. destruct (open_complete p1 object _ _ Er ltac:(lia)) as (p2 & -> & Ht2 & E2 & Ha2 & Hi2 & Hl2).
  cbn [mbind option_bind].
  assert (rest p2 = txt ++ 125 :: tail) as E2' by (rewrite E2; flatten).
  destruct (members_head ms txt (125 :: tail) Hms) as (w & tl & Etl & Hw).
  rewrite <- E2' in Etl. destruct (whitespace_complete p2 w _ Etl Hw) as [_ E3]; [by intros ? [= <-]|].
  rewrite (consume_other _ 125 34 _ E3) by done.
  destruct (IH lv p2 (length (parsed p1)) [] tail (S (size document)) E2') as (p' & -> & Ht' & Htree & Ha & Hc').
  - split; [done|]. rewrite Hl2. apply at_no_members.
  - done.
  - pose proof (rest_size p2) as Hs. rewrite E2', length_app in Hs.
    pose proof (proj1 (proj2 text_lengths) _ _ Hms). lia.
  - lia.
  - cbn [mbind option_bind]. eexists _, _. split; [done|]. apply (built_blank p p1); [done|done|].
    split; [done| | |done|done].
    + by apply (consumed_to _ _ _ _ _ (consumed_app _ _ _ _ _ Ht2 Ht')).
    + apply agree_prefix. by eapply agree_trans.
Qed.

Lemma array_complete vs txt :
  vs <> [] -> items_text vs txt -> items_complete vs txt -> complete (JArray vs) ([91] ++ txt ++ [93]).
Proof.
  intros Hne Hms IH lv p w0 tail E Hw0 _ Hk Hlv Hcap. destruct lv as [|lv]; [simpl in Hlv; lia|].
  pose proof (proj2 (items_fine_tree lv vs) (conj Hk Hlv)) as Hfine.
  cbn [node_count] in Hcap. fold (nodes_of_items vs) in Hcap.
  assert (rest p = w0 ++ 91 :: (txt ++ [93]) ++ tail) as E' by (rewrite E; flatten).
  destruct (value_dispatch lv p w0 _ _ E' Hw0 eq_refl) as (Hcons & Er & ->). cbn [Z.eqb Pos.eqb].
  set (p1 := whitespace document p) in *. change (parsed p) with (parsed p1) in Hcap.
  unfold parse_array. destruct (open_complete p1 array _ _ Er ltac:(lia)) as (p2 & -> & Ht2 & E2 & Ha2 & Hi2 & Hl2).
  cbn [mbind option_bind].
  assert (rest p2 = txt ++ 93 :: tail) as E2' by (rewrite E2; flatten).
  destruct (items_head vs txt (93 :: tail) Hms) as (w & b & tl & Etl & Hw & Hb & Hb').
  rewrite <- E2' in Etl. destruct (whitespace_complete p2 w _ Etl Hw) as [_ E3]; [by intros ? [= <-]|].
  rewrite (consume_other _ 93 b _ E3), array_loop_whitespace by done.
  destruct (IH lv p2 (length (parsed p1)) [] tail (S (size document)) E2') as (p' & -> & Ht' & Htree & Ha & Hc').
  - split; [done|]. rewrite Hl2. apply at_no_items.
  - done.
  - pose proof (rest_size p2) as Hs. rewrite E2', length_app in Hs.
    pose proof (proj2 (proj2 text_lengths) _ _ Hms). lia.
  - lia.
  - cbn [mbind option_bind]. eexists _, _. split; [done|]. apply (built_blank p p1); [done|done|].
    split; [done| | |done|done].
    + by apply (consumed_to _ _ _ _ _ (consumed_app _ _ _ _ _ Ht2 Ht')).
    + apply agree_prefix. by eapply agree_trans.
Qed.

Lemma grammar_complete t txt : json_text t txt -> complete t txt.
Proof.
  revert t txt.
  enough ((forall t txt, json_text t txt -> complete t txt)
    /\ (forall ms txt, members_text ms txt -> members_text ms txt /\ members_complete ms txt)
    /\ (forall vs txt, items_text vs txt -> items_text vs txt /\ items_complete vs txt)) as [? _] by done.
  assert (forall t txt, json_text t txt -> node_count t = 1%nat ->
    match t with JObject _ | JArray _ => False | _ => True end -> complete t txt) as Hleaf by apply leaf_complete.
  apply text_ind.
  - intros. apply Hleaf; [by apply text_string|done..].
  - intros. apply Hleaf; [by apply text_integer|done..].
  - apply Hleaf; [apply text_true|done..].
  - apply Hleaf; [apply text_false|done..].
  - apply Hleaf; [apply text_null|done..].
  - apply no_members_complete.
  - intros ms t Hne _ [Ht IH]. by apply object_complete.
  - apply no_items_complete.
  - intros vs t Hne _ [Ht IH]. by apply array_complete.
  - intros. split; [by apply text_members_one|by apply members_one_complete].
  - intros w1 key w2 w3 v t w4 ms rest_ ??????? _ [? ?].
    split; [by apply text_members_more|by apply members_more_complete].
  - intros. split; [by apply text_items_one|by apply items_one_complete].
  - intros w1 v t w2 vs rest_ ???? _ [? ?]. split; [by apply text_items_more|by apply items_more_complete].
Qed.

Lemma parse_complete t txt w w' :
  document = w ++ txt ++ w' -> blank w -> blank w' -> json_text t txt ->
  (node_count t <= capacity)%nat -> (levels t <= 33)%nat -> keys_ok t ->
  exists nodes, parse document capacity = Some (0%nat, nodes) /\ parsed_as t txt nodes.
Proof.
  intros E Hw Hw' Ht Hn Hl Hk. set (p0 := {| position := 0; parsed := [] |}).
  assert (rest p0 = w ++ txt ++ w') as E0 by (rewrite <- E; done).
  destruct (grammar_complete t txt Ht 33%nat p0 w w' E0 Hw) as (i & p' & Hv & Hb).
  { intros _ _ b Hb. destruct Hw' as [|b' w' Hb' _]; [done|]. injection Hb as ->.
    unfold is_whitespace in Hb'. bool_cases; subst; split_and!; done. }
  { done. } { done. } { simpl. lia. }
  pose proof (built_rest _ _ _ _ _ w' Hb ltac:(rewrite E0; flatten)) as E'.
  destruct Hb as [Hi Hcons _ Htree Hc]. cbn in Hi. subst i.
  unfold parse. fold p0. rewrite value_whitespace, Hv. cbn [mbind option_bind Nat.eqb negb].
  rewrite <- (app_nil_r w') in E'. destruct (whitespace_complete p' w' [] E' Hw') as [[_ Hpos] Hr]; [done|].
  exists (parsed p'). split; [|split_and!; try done; by exists w, w'].
  assert (position (whitespace document p') = size document) as ->.
  { rewrite Hpos. destruct Hcons as [_ ->]. unfold size. rewrite E, !length_app. simpl. lia. }
  by rewrite Nat.eqb_refl.
Qed.

End spec.

(** C2: The JSON parser decides its grammar.  Whatever it accepts is, up to
    blanks around it, the text of a tree (strings of legal escapes, integers
    without leading zero, fraction or exponent, values nested at most 33 deep,
    keys of at most 64 ASCII characters that differ up to a NUL), the root is
    node 0 and the node array is exactly the layout of that tree, first child
    and next sibling of every node included; and every text of such a tree
    with at most [capacity] nodes is accepted, so the loops end and no node is
    lost. *)
Theorem parser_decides_grammar document capacity :
  (forall root nodes, parse document capacity = Some (root, nodes) ->
     root = 0%nat /\ exists t txt, parsed_as document capacity t txt nodes)
  /\ (forall t txt w w', document = w ++ txt ++ w' -> blank w -> blank w' -> json_text t txt ->
        (node_count t <= capacity)%nat -> (levels t <= 33)%nat -> keys_ok t ->
        exists nodes, parse document capacity = Some (0%nat, nodes) /\ parsed_as document capacity t txt nodes).
Proof. split; [apply parse_parsed_as|apply parse_complete]. Qed.

(** An object with an array in it, blanks around and inside. *)
Lemma parser_decides_grammar_witness :
  let t := JObject [(literal "a", JArray [JInteger (literal "1")])] in
  let txt := [123] ++ ([] ++ quoted (literal "a") ++ [32] ++ [58] ++ [] ++
    ([91] ++ ([32] ++ literal "1" ++ []) ++ [93]) ++ []) ++ [125] in
  exists nodes, parse ([10] ++ txt ++ []) 4 = Some (0%nat, nodes)
    /\ parsed_as ([10] ++ txt ++ []) 4 t txt nodes.
Proof.
  intros t txt. apply (proj2 (parser_decides_grammar ([10] ++ txt ++ []) 4) t txt [10] []).
  - done.
  - by repeat constructor.
  - constructor.
  - apply text_object; [done|]. apply text_members_one; try by repeat constructor.
    apply text_array; [done|]. apply text_items_one; try by repeat constructor.
    apply text_integer. exists [], (literal "1"). split_and!; [done|by left|done|by repeat constructor|done].
  - simpl. lia.
  - simpl. lia.
  - repeat constructor. exists (literal "a"). by repeat constructor.
Defined.
