(* ===== verification/SnapshotDocument.v ===== *)
(** * Reading a parsed AI snapshot

    The accessors of [class Document] and the scalar checks of
    [components/ai_snapshot/deck_ai_snapshot.cpp].

    An output parameter is the value of an [option], [None] being [false].  A
    node index that may be [kNoNode] is an [option nat]; the accessors that
    take it as it comes read the node [index_of], which is behind the array for
    [kNoNode] (the code has made sure of the field before). *)

From Stdlib Require Import String.
From S2P Require Import Prelude CString JsonParser.

Definition kMaximumSafeInteger : Z := 9007199254740991.

Definition index_of (d : Document) (index : option nat) : nat := default (List.length (nodes d)) index.

(** ** Strings *)

(** The bytes [append_codepoint] writes. *)
Definition append_codepoint (codepoint : Z) : option bytes :=
  if codepoint <=? 0x7f then Some [u8 codepoint]
  else if codepoint <=? 0x7ff then
    Some [u8 (Z.lor 0xc0 (Z.shiftr codepoint 6)); u8 (Z.lor 0x80 (Z.land codepoint 0x3f))]
  else if codepoint <=? 0xffff then
    Some [u8 (Z.lor 0xe0 (Z.shiftr codepoint 12));
          u8 (Z.lor 0x80 (Z.land (Z.shiftr codepoint 6) 0x3f)); u8 (Z.lor 0x80 (Z.land codepoint 0x3f))]
  else if codepoint <=? 0x10ffff then
    Some [u8 (Z.lor 0xf0 (Z.shiftr codepoint 18)); u8 (Z.lor 0x80 (Z.land (Z.shiftr codepoint 12) 0x3f));
          u8 (Z.lor 0x80 (Z.land (Z.shiftr codepoint 6) 0x3f)); u8 (Z.lor 0x80 (Z.land codepoint 0x3f))]
  else None.

(** The second half of a surrogate pair: the combined code point and the rest
    of the span. *)
Definition low_surrogate (codepoint : Z) (rest : bytes) : option (Z * bytes) :=
  match rest with
  | 92 :: 117 :: rest =>
      '(low, rest) ← hex_quad rest;
      if (low <? 0xdc00) || (0xdfff <? low) then None
      else Some (u32 (0x10000 + Z.shiftl (codepoint - 0xd800) 10 + (low - 0xdc00)), rest)
  | _ => None
  end.

(** The code point of an escape behind [\u]. *)
Definition escaped_codepoint (rest : bytes) : option (Z * bytes) :=
  '(codepoint, rest) ← hex_quad rest;
  if (0xd800 <=? codepoint) && (codepoint <=? 0xdbff) then low_surrogate codepoint rest
  else if (0xdc00 <=? codepoint) && (codepoint <=? 0xdfff) then None
  else Some (codepoint, rest).

(** The bytes copied for the raw character [byte :: rest], its length by the
    first byte. *)
Definition raw_count (byte : Z) : option nat :=
  if Z.land byte 0xe0 =? 0xc0 then Some 2%nat
  else if Z.land byte 0xf0 =? 0xe0 then Some 3%nat
  else if Z.land byte 0xf8 =? 0xf0 then Some 4%nat
  else if 0x80 <=? byte then None
  else Some 1%nat.

(** [Document::decode_utf8] on the bytes of the span. *)
Fixpoint decode_utf8_loop (fuel : nat) (capacity : nat) (written rest : bytes) : option bytes :=
  match fuel, rest with
  | _, [] => Some written
  | 0%nat, _ => None
  | S fuel, byte :: rest =>
      let append codepoint rest :=
        encoded ← append_codepoint codepoint;
        if (capacity <=? List.length written + List.length encoded)%nat then None
        else decode_utf8_loop fuel capacity (written ++ encoded) rest in
      if negb (byte =? 92) then
        count ← raw_count byte;
        if (List.length rest + 1 <? count)%nat || (capacity <=? List.length written + count)%nat then None
        else decode_utf8_loop fuel capacity (written ++ take count (byte :: rest)) (drop count (byte :: rest))
      else
        match rest with
        | [] => None
        | escaped :: rest =>
            if (escaped =? 34) || (escaped =? 92) || (escaped =? 47) then append escaped rest
            else if negb (escaped =? 117) then None
            else '(codepoint, rest) ← escaped_codepoint rest; append codepoint rest
        end
  end.

Definition decode_utf8 (d : Document) (index : option nat) (capacity : nat) : option bytes :=
  let i := index_of d index in
  if negb (bool_decide (type (node (nodes d) i) = string)) || (capacity =? 0)%nat then None
  else let bytes := span d i in decode_utf8_loop (List.length bytes) capacity [] bytes.

Definition decode (d : Document) (index : option nat) (capacity : nat) : option bytes :=
  decode_ascii d (index_of d index) capacity.

Definition string_equals (d : Document) (index : option nat) (expected : bytes) : bool :=
  match decode d index 96 with Some decoded => strcmp_eq decoded expected | None => false end.

(** ** Objects and arrays *)

Definition children (d : Document) (index : option nat) : list nat :=
  siblings (nodes d) (first_child (node (nodes d) (index_of d index))).

Definition field (d : Document) (object_index : option nat) (name : bytes) : option nat :=
  if negb (bool_decide (type (node (nodes d) (index_of d object_index)) = object)) then None
  else
    key ← List.find (fun key => string_equals d (Some key) name) (children d object_index);
    first_child (node (nodes d) key).

Definition array_count (d : Document) (array_index : option nat) : nat :=
  if negb (bool_decide (type (node (nodes d) (index_of d array_index)) = array)) then 0
  else List.length (children d array_index).

Definition array_at (d : Document) (array_index : option nat) (wanted : nat) : option nat :=
  children d array_index !! wanted.

(** ** Scalars *)

(** The loop over the digits. *)
Fixpoint accumulate (maximum : Z) (parsed : Z) (digits : bytes) : option Z :=
  match digits with
  | [] => Some parsed
  | byte :: digits =>
      let digit := u64 (byte - 48) in
      if u64 (maximum - digit) / 10 <? parsed then None
      else accumulate maximum (u64 (parsed * 10 + digit)) digits
  end.

Definition unsigned_integer (d : Document) (index : option nat) : option Z :=
  let i := index_of d index in
  let n := node (nodes d) i in
  if negb (bool_decide (type n = integer)) || (start n =? end_ n)%nat
     || bool_decide (text d !! start n = Some 45) then None
  else accumulate U64_MAX 0 (span d i).

(** The loop of [Document::safe_text]: the code points counted. *)
Fixpoint safe_text_loop (fuel : nat) (rest : bytes) (decoded_codepoints : nat) : option nat :=
  match fuel, rest with
  | _, [] => Some decoded_codepoints
  | 0%nat, _ => None
  | S fuel, byte :: rest =>
      if negb (byte =? 92) then
        if byte =? 0x7f then None
        else
          count ← raw_count byte;
          if (List.length rest + 1 <? count)%nat then None
          else safe_text_loop fuel (drop count (byte :: rest)) (S decoded_codepoints)
      else
        match rest with
        | [] => None
        | escaped :: rest =>
            if existsb (fun c => escaped =? c) [98; 102; 110; 114; 116] then None
            else if negb (escaped =? 117) then safe_text_loop fuel rest (S decoded_codepoints)
            else
              '(codepoint, rest) ← escaped_codepoint rest;
              if (codepoint <? 0x20) || (codepoint =? 0x7f) then None
              else safe_text_loop fuel rest (S decoded_codepoints)
        end
  end.

Definition safe_text (d : Document) (index : option nat) (maximum : nat) : bool :=
  let i := index_of d index in
  let n := node (nodes d) i in
  if negb (bool_decide (type n = string)) || (end_ n =? start n)%nat then false
  else
    let bytes := span d i in
    match safe_text_loop (List.length bytes) bytes 0 with
    | Some decoded_codepoints => (0 <? decoded_codepoints)%nat && (decoded_codepoints <=? maximum)%nat
    | None => false
    end.

Definition is_null (d : Document) (index : option nat) : bool :=
  match index with Some i => bool_decide (type (node (nodes d) i) = null_value) | None => false end.

Definition boolean_value (d : Document) (index : option nat) : option bool :=
  match index with
  | Some i =>
      let n := node (nodes d) i in
      if negb (bool_decide (type n = boolean)) then None
      else Some (bool_decide (text d !! start n = Some 116))
  | None => None
  end.

Definition unsigned_between (d : Document) (index : option nat) (minimum maximum : Z) : option Z :=
  if bool_decide (index = None) then None
  else
    value ← unsigned_integer d index;
    if (value <? minimum) || (maximum <? value) then None else Some value.

(** [Some None] is [true] with [*present = false]; the output is then left as
    it was. *)
Definition nullable_unsigned (d : Document) (index : option nat) (minimum maximum : Z) : option (option Z) :=
  match index with
  | None => None
  | Some _ =>
      if is_null d index then Some None
      else value ← unsigned_between d index minimum maximum; Some (Some value)
  end.

Definition safe_identifier (d : Document) (index : option nat) (maximum : nat) : bool :=
  if (65 <=? maximum)%nat then false
  else
    match decode d index 65 with
    | None => false
    | Some value =>
        match c_string value with
        | [] => false
        | first :: rest =>
            negb ((maximum <? S (List.length rest))%nat || negb (is_lower first))
            && forallb (fun c => is_lower c || is_digit c || (c =? 95) || (c =? 45)) rest
        end
    end.

Definition safe_opaque_id (d : Document) (index : option nat) : bool :=
  match decode d index 65 with
  | None => false
  | Some value =>
      let value := c_string value in
      let size := List.length value in
      negb ((size <? 8)%nat || (64 <? size)%nat)
      && forallb (fun c => is_lower c || is_upper c || is_digit c || (c =? 95) || (c =? 45)) value
  end.

Definition one_of (d : Document) (index : option nat) (values : list bytes) : bool :=
  existsb (string_equals d index) values.

(** A scalar a later minor version may add. *)
Definition safe_forward_scalar (d : Document) (index : option nat) : bool :=
  let i := index_of d index in
  let n := node (nodes d) i in
  if bool_decide (type n = null_value) || bool_decide (type n = boolean) then true
  else if negb (bool_decide (type n = integer)) then false
  else
    let negative := bool_decide (text d !! start n = Some 45) in
    match accumulate kMaximumSafeInteger 0 (drop (if negative then 1 else 0) (span d i)) with
    | Some magnitude => magnitude <=? kMaximumSafeInteger
    | None => false
    end.
