(* ===== verification/SnapshotTime.v ===== *)
(** * Canonical UTC times

    [leap_year], [month_days], [parse_digits], [days_from_civil] and
    [parse_canonical_utc] of [components/ai_snapshot/deck_ai_snapshot.cpp],
    against the calendar counted day by day. *)

From Stdlib Require Import String.
From S2P Require Import Prelude CString JsonParser SnapshotDocument.

Definition leap_year (year : Z) : bool :=
  (year mod 4 =? 0) && (negb (year mod 100 =? 0) || (year mod 400 =? 0)).

Definition kDays : list Z := [31; 28; 31; 30; 31; 30; 31; 31; 30; 31; 30; 31].

Definition month_days (year month : Z) : Z :=
  if (month =? 2) && leap_year year then 29 else default 0 (kDays !! Z.to_nat (month - 1)).

Fixpoint parse_digits_from (parsed : Z) (digits : bytes) : option Z :=
  match digits with
  | [] => Some parsed
  | c :: digits => if is_digit c then parse_digits_from (u32 (parsed * 10 + (c - 48))) digits else None
  end.

(** [parse_digits(value + at, count, &output)], inside the string *)
Definition parse_digits (value : bytes) (at_ count : nat) : option Z :=
  parse_digits_from 0 (slice at_ count value).

(** [int] division truncates. *)
Definition days_from_civil (year month day : Z) : Z :=
  let year := year - (if month <=? 2 then 1 else 0) in
  let era := Z.quot (if 0 <=? year then year else year - 399) 400 in
  let year_of_era := u32 (year - era * 400) in
  let adjusted_month := if 2 <? month then u32 (month - 3) else u32 (month + 9) in
  let day_of_year := u32 (u32 (153 * adjusted_month + 2) / 5 + day - 1) in
  let day_of_era := u32 (u32 (year_of_era * 365) + year_of_era / 4 - year_of_era / 100 + day_of_year) in
  era * 146097 + day_of_era - 719468.

(** The loop over the digits of the fraction, and the padding to nine. *)
Fixpoint parse_fraction (fraction_ns : Z) (digits : bytes) : option Z :=
  match digits with
  | [] => Some fraction_ns
  | c :: digits => if is_digit c then parse_fraction (u64 (fraction_ns * 10 + (c - 48))) digits else None
  end.

Fixpoint pad_fraction (n : nat) (fraction_ns : Z) : Z :=
  match n with 0%nat => fraction_ns | S n => pad_fraction n (u64 (fraction_ns * 10)) end.

(** On the decoded string. *)
Definition parse_utc_text (value : bytes) : option Z :=
  let size := List.length value in
  if (size <? 20)%nat || (30 <? size)%nat || negb (value.[4] =? 45) || negb (value.[7] =? 45)
     || negb (value.[10] =? 84) || negb (value.[13] =? 58) || negb (value.[16] =? 58)
     || negb (value.[size - 1] =? 90) then None
  else
    year ← parse_digits value 0 4;
    month ← parse_digits value 5 2;
    day ← parse_digits value 8 2;
    hour ← parse_digits value 11 2;
    minute ← parse_digits value 14 2;
    second ← parse_digits value 17 2;
    if (year <? 1970) || (month =? 0) || (12 <? month) || (day =? 0) || (month_days year month <? day)
       || (23 <? hour) || (59 <? minute) || (59 <? second) then None
    else
      fraction_ns ←
        (if (20 <? size)%nat then
           let digits := (size - 21)%nat in
           if negb (value.[19] =? 46) || (digits =? 0)%nat || (9 <? digits)%nat || (value.[size - 2] =? 48)
           then None
           else pad_fraction (9 - digits) <$> parse_fraction 0 (slice 20 digits value)
         else Some 0);
      let days := days_from_civil year month day in
      if days <? 0 then None
      else Some (u64 (u64 (days * 86400000) + u64 (hour * 3600000) + u64 (minute * 60000)
                      + u64 (second * 1000) + fraction_ns / 1000000)).

Definition parse_canonical_utc (d : Document) (node_index : option nat) : option Z :=
  value ← decode d node_index 31; parse_utc_text (c_string value).

(** [None] is [false]; [Some None] is a null. *)
Definition nullable_time (d : Document) (index : option nat) (maximum : Z) : option (option Z) :=
  match index with
  | None => None
  | Some _ =>
      if is_null d index then Some None
      else
        parsed ← parse_canonical_utc d index;
        if maximum <? parsed then None else Some (Some parsed)
  end.

(** ** The calendar *)

(** Days before the first of January of [year], and before the first of
    [month] in it, counted from 1970. *)
Definition year_days (year : Z) : Z := if leap_year year then 366 else 365.

Fixpoint days_before_year (n : nat) : Z :=
  match n with 0%nat => 0 | S n => days_before_year n + year_days (1970 + Z.of_nat n) end.

Fixpoint days_before_month (year : Z) (n : nat) : Z :=
  match n with 0%nat => 0 | S n => days_before_month year n + month_days year (Z.of_nat n + 1) end.

(** Day [day] of month [month] of [year], as the number of days since the
    first of January 1970. *)
Definition day_number (year month day : Z) : Z :=
  days_before_year (Z.to_nat (year - 1970)) + days_before_month year (Z.to_nat (month - 1)) + (day - 1).

(** Leap days up to a year. *)
Definition leap_days (year : Z) : Z := year / 4 - year / 100 + year / 400.

Lemma leap_days_step year : leap_days year = leap_days (year - 1) + (if leap_year year then 1 else 0).
Proof.
  unfold leap_days, leap_year.
  assert ((year - 1) / 4 = year / 4 - (if year mod 4 =? 0 then 1 else 0))
    by (destruct (Z.eqb_spec (year mod 4) 0); Z.div_mod_to_equations; lia).
  assert ((year - 1) / 100 = year / 100 - (if year mod 100 =? 0 then 1 else 0))
    by (destruct (Z.eqb_spec (year mod 100) 0); Z.div_mod_to_equations; lia).
  assert ((year - 1) / 400 = year / 400 - (if year mod 400 =? 0 then 1 else 0))
    by (destruct (Z.eqb_spec (year mod 400) 0); Z.div_mod_to_equations; lia).
  destruct (Z.eqb_spec (year mod 4) 0), (Z.eqb_spec (year mod 100) 0), (Z.eqb_spec (year mod 400) 0); simpl;
    try lia; exfalso; Z.div_mod_to_equations; lia.
Qed.

Lemma days_before_year_closed n :
  days_before_year n = 365 * Z.of_nat n + leap_days (1969 + Z.of_nat n) - leap_days 1969.
Proof.
  induction n as [|n IH]; [done|]. cbn [days_before_year]. rewrite IH.
  replace (1970 + Z.of_nat n) with (1969 + Z.of_nat (S n)) by lia.
  rewrite (leap_days_step (1969 + Z.of_nat (S n))). unfold year_days.
  replace (1969 + Z.of_nat (S n) - 1) with (1969 + Z.of_nat n) by lia.
  destruct (leap_year _); lia.
Qed.

(** A month as a small number. *)
Lemma month_cases month (P : Z -> Prop) :
  1 <= month <= 12 -> P 1 -> P 2 -> P 3 -> P 4 -> P 5 -> P 6 -> P 7 -> P 8 -> P 9 -> P 10 -> P 11 -> P 12 -> P month.
Proof.
  intros Hm. intros. assert (month = 1 \/ month = 2 \/ month = 3 \/ month = 4 \/ month = 5 \/ month = 6 \/ month = 7
    \/ month = 8 \/ month = 9 \/ month = 10 \/ month = 11 \/ month = 12) as Hc by lia.
  by repeat destruct Hc as [->|Hc]; subst.
Qed.

Lemma days_before_month_closed year month :
  1 <= month <= 12 ->
  days_before_month year (Z.to_nat (month - 1))
  = (153 * (if 2 <? month then month - 3 else month + 9) + 2) / 5
    + (if 2 <? month then (if leap_year year then 60 else 59) else - 306).
Proof.
  intros Hm. revert month Hm. intros month Hm. pattern month.
  by apply month_cases; [done|..]; unfold days_before_month, month_days; simpl; destruct (leap_year year).
Qed.

Lemma month_days_bounds year month : 1 <= month <= 12 -> 28 <= month_days year month <= 31.
Proof.
  intros Hm. pattern month. by apply month_cases; [done|..]; unfold month_days; simpl; destruct (leap_year year).
Qed.

(** Years by eras of 400. *)
Lemma era_days year :
  0 <= year ->
  year / 400 * 146097 + (365 * (year mod 400) + year mod 400 / 4 - year mod 400 / 100) = 365 * year + leap_days year.
Proof.
  intros Hy. unfold leap_days. set (e := year / 400). set (r := year mod 400).
  assert (year = 400 * e + r) as Hr by (unfold e, r; Z.div_mod_to_equations; lia).
  assert (0 <= r < 400) as Hr' by (unfold r; Z.div_mod_to_equations; lia). clearbody e r. subst year.
  replace ((400 * e + r) / 4) with (100 * e + r / 4) by (Z.div_mod_to_equations; lia).
  replace ((400 * e + r) / 100) with (4 * e + r / 100) by (Z.div_mod_to_equations; lia).
  lia.
Qed.

Lemma days_from_civil_day_number year month day :
  1970 <= year <= 9999 -> 1 <= month <= 12 -> 1 <= day <= month_days year month ->
  days_from_civil year month day = day_number year month day.
Proof.
  intros Hy Hm Hd. unfold day_number. rewrite days_before_month_closed, days_before_year_closed by done.
  pose proof (month_days_bounds year month Hm) as Hmax. rewrite Z2Nat.id by lia.
  change (leap_days 1969) with 477. unfold days_from_civil.
  assert (forall y am off, 1969 <= y <= 9999 -> 0 <= am <= 11 ->
    365 * (year - 1970) + leap_days (1969 + (year - 1970)) - 477 + off = 365 * y + leap_days y - 719468 ->
    Z.quot (if 0 <=? y then y else y - 399) 400 * 146097
    + u32 (u32 (u32 (y - Z.quot (if 0 <=? y then y else y - 399) 400 * 400) * 365)
           + u32 (y - Z.quot (if 0 <=? y then y else y - 399) 400 * 400) / 4
           - u32 (y - Z.quot (if 0 <=? y then y else y - 399) 400 * 400) / 100
           + u32 (u32 (153 * am + 2) / 5 + day - 1)) - 719468
    = 365 * (year - 1970) + leap_days (1969 + (year - 1970)) - 477 + ((153 * am + 2) / 5 + off) + (day - 1)) as Hgen.
  { intros y am off Hy' Ham Hoff. rewrite (proj2 (Z.leb_le _ _)) by lia.
    rewrite Z.quot_div_nonneg by lia. replace (y - y / 400 * 400) with (y mod 400) by (Z.div_mod_to_equations; lia).
    pose proof (era_days y ltac:(lia)) as He. pose proof (Z.mod_pos_bound y 400 ltac:(lia)) as Hr.
    set (r := y mod 400) in *. rewrite (u32_id r), (u32_id (153 * am + 2)), (u32_id (r * 365)) by words.
    assert (0 <= (153 * am + 2) / 5 <= 337) by (Z.div_mod_to_equations; lia).
    rewrite (u32_id (_ / 5 + day - 1)) by (unfold is_u32; lia).
    assert (0 <= r / 4 <= 100 /\ 0 <= r / 100 <= 4 /\ r / 100 <= r / 4) by (Z.div_mod_to_equations; lia).
    rewrite u32_id by (unfold is_u32; lia). lia. }
  destruct (Z.ltb_spec 2 month).
  - rewrite (proj2 (Z.leb_gt month 2)) by lia. rewrite Z.sub_0_r, (u32_id (month - 3)) by (unfold is_u32; lia).
    apply Hgen; [lia|lia|]. rewrite (leap_days_step year). replace (1969 + (year - 1970)) with (year - 1) by lia.
    destruct (leap_year year); lia.
  - rewrite (proj2 (Z.leb_le month 2)), (u32_id (month + 9)) by (unfold is_u32; lia).
    apply Hgen; [lia|lia|]. replace (1969 + (year - 1970)) with (year - 1) by lia. lia.
Qed.

(** ** Canonical texts *)

(** The number a digit string denotes, and [k] digits of a number. *)
Fixpoint number_from (n : Z) (digits : bytes) : Z :=
  match digits with [] => n | c :: digits => number_from (n * 10 + (c - 48)) digits end.

Definition number (digits : bytes) : Z := number_from 0 digits.
Definition all_digits (digits : bytes) : Prop := Forall (fun c => 48 <= c <= 57) digits.

Fixpoint decimal (k : nat) (n : Z) : bytes :=
  match k with 0%nat => [] | S k => decimal k (n / 10) ++ [48 + n mod 10] end.

Record utc := { u_year : Z; u_month : Z; u_day : Z; u_hour : Z; u_minute : Z; u_second : Z; u_fraction : bytes }.

(** [YYYY-MM-DDThh:mm:ss[.fraction]Z] *)
Definition utc_text (u : utc) : bytes :=
  decimal 4 (u_year u) ++ [45] ++ decimal 2 (u_month u) ++ [45] ++ decimal 2 (u_day u) ++ [84]
  ++ decimal 2 (u_hour u) ++ [58] ++ decimal 2 (u_minute u) ++ [58] ++ decimal 2 (u_second u)
  ++ match u_fraction u with [] => [] | fraction => [46] ++ fraction end ++ [90].

(** A date of the calendar, a time of the day, and up to nine digits without
    trailing zeros. *)
Definition utc_ok (u : utc) : Prop :=
  1970 <= u_year u <= 9999 /\ 1 <= u_month u <= 12 /\ 1 <= u_day u <= month_days (u_year u) (u_month u)
  /\ 0 <= u_hour u <= 23 /\ 0 <= u_minute u <= 59 /\ 0 <= u_second u <= 59
  /\ all_digits (u_fraction u) /\ (length (u_fraction u) <= 9)%nat /\ last (u_fraction u) <> Some 48.

(** Milliseconds since 1970; of the fraction, the first three digits. *)
Definition utc_ms (u : utc) : Z :=
  day_number (u_year u) (u_month u) (u_day u) * 86400000
  + u_hour u * 3600000 + u_minute u * 60000 + u_second u * 1000
  + number (take 3 (u_fraction u ++ [48; 48; 48])).

Lemma number_from_app n a b : number_from n (a ++ b) = number_from (number_from n a) b.
Proof. revert n. induction a; intros n; simpl; [done|]. by rewrite IHa. Qed.

Lemma number_from_shift n b :
  number_from n b = n * 10 ^ Z.of_nat (length b) + number b.
Proof.
  unfold number. revert n. induction b as [|c b IH]; intros n; simpl; [lia|].
  rewrite (IH (n * 10 + (c - 48))), (IH (0 * 10 + (c - 48))), Nat2Z.inj_succ, Z.pow_succ_r by lia. lia.
Qed.

Lemma number_app a b : number (a ++ b) = number a * 10 ^ Z.of_nat (length b) + number b.
Proof. unfold number at 1. by rewrite number_from_app, number_from_shift. Qed.

Lemma number_snoc a c : number (a ++ [c]) = number a * 10 + (c - 48).
Proof. unfold number. by rewrite number_from_app. Qed.

Lemma number_range b : all_digits b -> 0 <= number b < 10 ^ Z.of_nat (length b).
Proof.
  induction b as [|c b IH] using rev_ind; [done|].
  intros [Hb Hc]%Forall_app. apply Forall_cons in Hc as [Hc _]. specialize (IH Hb).
  rewrite number_snoc, length_app. simpl. replace (Z.of_nat (length b + 1)) with (Z.succ (Z.of_nat (length b))) by lia.
  rewrite Z.pow_succ_r by lia. lia.
Qed.

Lemma is_digit_range c : is_digit c = true <-> 48 <= c <= 57.
Proof. unfold is_digit, ch_0, ch_9. rewrite andb_true_iff, !Z.leb_le. done. Qed.

Lemma decimal_number ds : all_digits ds -> decimal (length ds) (number ds) = ds.
Proof.
  induction ds as [|c ds IH] using rev_ind; [done|].
  intros [Hb Hc]%Forall_app. apply Forall_cons in Hc as [Hc _].
  rewrite length_app, Nat.add_1_r. cbn [decimal]. rewrite number_snoc.
  replace ((number ds * 10 + (c - 48)) / 10) with (number ds) by (Z.div_mod_to_equations; lia).
  replace ((number ds * 10 + (c - 48)) mod 10) with (c - 48) by (Z.div_mod_to_equations; lia).
  rewrite IH by done. f_equal. f_equal. lia.
Qed.

Lemma length_decimal k n : length (decimal k n) = k.
Proof. revert n. induction k; intros n; [done|]. cbn [decimal]. rewrite length_app, IHk. simpl. lia. Qed.

Lemma decimal_digits k n : all_digits (decimal k n).
Proof.
  revert n. induction k; intros n; [constructor|]. cbn [decimal]. apply Forall_app. split; [apply IHk|].
  constructor; [|constructor]. pose proof (Z.mod_pos_bound n 10 ltac:(lia)). lia.
Qed.

Lemma number_decimal k n : 0 <= n < 10 ^ Z.of_nat k -> number (decimal k n) = n.
Proof.
  revert n. induction k as [|k IH]; intros n Hn; [simpl in Hn; unfold number; simpl; lia|].
  cbn [decimal]. rewrite number_snoc.
  rewrite Nat2Z.inj_succ, Z.pow_succ_r in Hn by lia.
  rewrite IH; Z.div_mod_to_equations; lia.
Qed.

(** [parse_digits] on up to nine digits. *)
Lemma parse_digits_from_spec p ds r :
  0 <= p -> p * 10 ^ Z.of_nat (length ds) + 10 ^ Z.of_nat (length ds) <= 4294967296 ->
  parse_digits_from p ds = Some r <-> all_digits ds /\ r = number_from p ds.
Proof.
  revert p. induction ds as [|c ds IH]; intros p Hp Hb; simpl.
  - split; [intros [= <-]; by split; [constructor|]|by intros [_ ->]].
  - destruct (is_digit c) eqn:E.
    + apply is_digit_range in E. simpl length in Hb. rewrite Nat2Z.inj_succ, Z.pow_succ_r in Hb by lia.
      assert (1 <= 10 ^ Z.of_nat (length ds)) by (apply (Z.pow_le_mono_r 10 0); lia).
      rewrite u32_id by (unfold is_u32; nia). rewrite IH by nia. unfold all_digits. rewrite Forall_cons. tauto.
    + split; [done|]. intros [[Hc _]%Forall_cons _]. by rewrite (proj2 (is_digit_range c) Hc) in E.
Qed.

Lemma parse_fraction_spec p ds r :
  0 <= p -> p * 10 ^ Z.of_nat (length ds) + 10 ^ Z.of_nat (length ds) <= 10000000000 ->
  parse_fraction p ds = Some r <-> all_digits ds /\ r = number_from p ds.
Proof.
  revert p. induction ds as [|c ds IH]; intros p Hp Hb; simpl.
  - split; [intros [= <-]; by split; [constructor|]|by intros [_ ->]].
  - destruct (is_digit c) eqn:E.
    + apply is_digit_range in E. simpl length in Hb. rewrite Nat2Z.inj_succ, Z.pow_succ_r in Hb by lia.
      assert (1 <= 10 ^ Z.of_nat (length ds)) by (apply (Z.pow_le_mono_r 10 0); lia).
      rewrite u64_id by (unfold is_u64; nia). rewrite IH by nia. unfold all_digits. rewrite Forall_cons. tauto.
    + split; [done|]. intros [[Hc _]%Forall_cons _]. by rewrite (proj2 (is_digit_range c) Hc) in E.
Qed.

Lemma pad_fraction_spec n x :
  0 <= x -> x * 10 ^ Z.of_nat n <= U64_MAX -> pad_fraction n x = x * 10 ^ Z.of_nat n.
Proof.
  revert x. induction n as [|n IH]; intros x Hx Hb; [simpl; lia|]. cbn [pad_fraction].
  rewrite Nat2Z.inj_succ, Z.pow_succ_r in Hb |- * by lia.
  assert (1 <= 10 ^ Z.of_nat n) by (apply (Z.pow_le_mono_r 10 0); lia).
  rewrite u64_id by (unfold is_u64; nia). rewrite IH by nia. lia.
Qed.

Lemma parse_digits_Some v a k n :
  (a + k <= length v)%nat -> (k <= 4)%nat ->
  parse_digits v a k = Some n <-> slice a k v = decimal k n /\ 0 <= n < 10 ^ Z.of_nat k.
Proof.
  intros Hl Hk. unfold parse_digits. pose proof (length_slice a k v Hl) as Hs.
  assert (10 ^ Z.of_nat k <= 10 ^ 4) by (apply Z.pow_le_mono_r; lia).
  rewrite parse_digits_from_spec by (try rewrite Hs; lia). fold (number (slice a k v)). split.
  - intros [Hd ->]. rewrite <- Hs at 2. rewrite decimal_number by done. split; [done|].
    rewrite <- Hs at 3. by apply number_range.
  - intros [-> Hn]. split; [apply decimal_digits|]. by rewrite number_decimal.
Qed.

(** The fraction of a second. *)
Lemma fraction_ms ds :
  all_digits ds -> (length ds <= 9)%nat ->
  pad_fraction (9 - length ds) (number ds) / 1000000 = number (take 3 (ds ++ [48; 48; 48])).
Proof.
  intros Hd Hl. pose proof (number_range ds Hd) as Hr.
  assert (10 ^ Z.of_nat (length ds) * 10 ^ Z.of_nat (9 - length ds) = 1000000000) as Hpow
    by (rewrite <- Z.pow_add_r by lia; by replace (Z.of_nat (length ds) + Z.of_nat (9 - length ds)) with 9 by lia).
  assert (1 <= 10 ^ Z.of_nat (9 - length ds)) by (apply (Z.pow_le_mono_r 10 0); lia).
  rewrite pad_fraction_spec by nia.
  destruct (decide (3 <= length ds)%nat) as [H3|H3].
  - rewrite take_app_le by done. 
    assert (number ds = number (take 3 ds) * 10 ^ Z.of_nat (length ds - 3) + number (drop 3 ds)) as Hsplit
      by (rewrite <- length_drop, <- number_app; by rewrite take_drop). rewrite Hsplit in Hr |- *.
    pose proof (number_range (drop 3 ds) ltac:(by apply Forall_drop)) as Hr'. rewrite length_drop in Hr'.
    set (a := number (take 3 ds)). set (b := number (drop 3 ds)) in *.
    set (k := 10 ^ Z.of_nat (9 - length ds)) in *. set (m := 10 ^ Z.of_nat (length ds - 3)) in *.
    assert (m * k = 1000000) as Hmk.
    { unfold m, k. rewrite <- Z.pow_add_r by lia.
      by replace (Z.of_nat (length ds - 3) + Z.of_nat (9 - length ds)) with 6 by lia. }
    replace ((a * m + b) * k) with (a * 1000000 + b * k) by nia.
    rewrite Z.div_add_l by lia. rewrite Z.div_small; [lia|nia].
  - assert (take 3 (ds ++ [48; 48; 48]) = ds ++ replicate (3 - length ds) 48) as ->.
    { rewrite take_app_ge by lia. f_equal. destruct ds as [|? [|? [|? ?]]]; simpl in *; try done; lia. }
    rewrite number_app, length_replicate.
    assert (number (replicate (3 - length ds) 48) = 0) as ->.
    { clear. induction (3 - length ds)%nat as [|n IH]; [done|]. exact IH. }
    replace (9 - length ds)%nat with (3 - length ds + 6)%nat by lia.
    rewrite Nat2Z.inj_add, Z.pow_add_r, Z.mul_assoc by lia. change (10 ^ Z.of_nat 6) with 1000000.
    rewrite Z.div_mul by lia. lia.
Qed.

Lemma last_snoc_bytes (l : bytes) x : last (l ++ [x]) = Some x.
Proof. apply last_snoc. Qed.

(** A text of the right length, taken apart at its separators. *)
Lemma utc_shape value :
  (20 <= length value)%nat ->
  exists a b c d e f (s1 s2 s3 s4 s5 : Z) tail z,
    value = a ++ s1 :: b ++ s2 :: c ++ s3 :: d ++ s4 :: e ++ s5 :: f ++ tail ++ [z]
    /\ length a = 4%nat /\ length b = 2%nat /\ length c = 2%nat /\ length d = 2%nat /\ length e = 2%nat
    /\ length f = 2%nat /\ slice 0 4 value = a /\ slice 5 2 value = b /\ slice 8 2 value = c
    /\ slice 11 2 value = d /\ slice 14 2 value = e /\ slice 17 2 value = f
    /\ value.[4] = s1 /\ value.[7] = s2 /\ value.[10] = s3 /\ value.[13] = s4 /\ value.[16] = s5
    /\ value.[length value - 1] = z /\ length value = (20 + length tail)%nat
    /\ value.[19] = (tail ++ [z]).[0] /\ (forall n, slice 20 n value = take n (drop 1 (tail ++ [z])))
    /\ (tail <> [] -> value.[length value - 2] = default 0 (last tail)).
Proof.
  intros Hl.
  destruct value as [|a1 [|a2 [|a3 [|a4 [|s1 [|b1 [|b2 [|s2 [|c1 [|c2 value]]]]]]]]]]; try (simpl in Hl; lia).
  destruct value as [|s3 [|d1 [|d2 [|s4 [|e1 [|e2 [|s5 [|f1 [|f2 value]]]]]]]]]; try (simpl in Hl; lia).
  destruct value as [|z tail _] using rev_ind; [simpl in Hl; lia|].
  exists [a1; a2; a3; a4], [b1; b2], [c1; c2], [d1; d2], [e1; e2], [f1; f2], s1, s2, s3, s4, s5, tail, z.
  cbn [length]. rewrite length_app. cbn [length].
  split_and!; try done; try (rewrite <- take_take; done).
  - replace (S _ - 1)%nat with (19 + length tail)%nat by lia. unfold byte_at.
    change (default 0 ((tail ++ [z]) !! length tail) = z). by rewrite list_lookup_middle.
  - lia.
  - intros Hne. destruct tail as [|f ds _] using rev_ind; [done|]. rewrite last_snoc, length_app. cbn [length default].
    replace (S _ - 2)%nat with (19 + length ds)%nat by lia. unfold byte_at.
    change (default 0 (((ds ++ [f]) ++ [z]) !! length ds) = f). rewrite <- app_assoc.
    change ([f] ++ [z]) with [f; z]. by rewrite list_lookup_middle.
Qed.

Definition fraction_text (fraction : bytes) : bytes := match fraction with [] => [] | _ => 46 :: fraction end.

Lemma utc_text_eq u :
  utc_text u = decimal 4 (u_year u) ++ 45 :: decimal 2 (u_month u) ++ 45 :: decimal 2 (u_day u)
    ++ 84 :: decimal 2 (u_hour u) ++ 58 :: decimal 2 (u_minute u) ++ 58 :: decimal 2 (u_second u)
    ++ fraction_text (u_fraction u) ++ [90].
Proof. unfold utc_text, fraction_text. by destruct (u_fraction u). Qed.

(** The guard on the fraction and its nanoseconds. *)
Lemma fraction_spec value tail z ns :
  length value = (20 + length tail)%nat -> (length value <= 30)%nat ->
  value.[19] = (tail ++ [z]).[0] -> (forall n, slice 20 n value = take n (drop 1 (tail ++ [z]))) ->
  (tail <> [] -> value.[length value - 2] = default 0 (last tail)) ->
  (if (20 <? length value)%nat then
     let digits := (length value - 21)%nat in
     if negb (value.[19] =? 46) || (digits =? 0)%nat || (9 <? digits)%nat || (value.[length value - 2] =? 48)
     then None
     else pad_fraction (9 - digits) <$> parse_fraction 0 (slice 20 digits value)
   else Some 0) = Some ns
  <-> exists fraction, tail = fraction_text fraction /\ all_digits fraction /\ (length fraction <= 9)%nat
      /\ last fraction <> Some 48 /\ ns = pad_fraction (9 - length fraction) (number fraction).
Proof.
  intros Hl Hmax H19 Hslice Hlast. destruct tail as [|c ds].
  - rewrite Hl. simpl. split.
    + intros [= <-]. exists []. split_and!; try done; [constructor|simpl; lia].
    + by intros (fr & Ht & _ & _ & _ & ->); destruct fr.
  - rewrite (proj2 (Nat.ltb_lt _ _)) by (simpl in Hl; lia). cbv zeta.
    replace (length value - 21)%nat with (length ds) by (simpl in Hl; lia).
    rewrite H19, Hslice, Hlast by done.
    change (drop 1 ((c :: ds) ++ [z])) with (ds ++ [z]). change (((c :: ds) ++ [z]).[0]) with c.
    rewrite take_app_length.
    assert (forall fr, c :: ds = fraction_text fr -> c = 46 /\ ds = fr /\ ds <> []) as Hfr
      by (intros fr; destruct fr; [done|by intros [= -> ->]]).
    assert (forall x, ds <> [] -> last (c :: ds) = Some x <-> last ds = Some x) as Hl' by (by destruct ds).
    assert (10 ^ Z.of_nat (length ds) <= 10 ^ 9) by (apply Z.pow_le_mono_r; simpl in Hl; lia).
    split.
    + destruct (Z.eqb_spec c 46) as [->|], (Nat.eqb_spec (length ds) 0), (9 <? length ds)%nat eqn:H9; simpl; try done.
      apply Nat.ltb_ge in H9. assert (ds <> []) as Hne by (by destruct ds).
      destruct (Z.eqb_spec (default 0 (last (46 :: ds))) 48) as [|H48]; [done|].
      intros (x & Hx & ->)%fmap_Some. apply parse_fraction_spec in Hx as [Hd ->]; [|lia..].
      exists ds. split_and!; try done; [by destruct ds|]. intros Hlast'. by rewrite (proj2 (Hl' _ Hne) Hlast') in H48.
    + intros (fr & Ht & Hd & Hlen & H48 & ->). destruct (Hfr _ Ht) as (-> & <- & Hne).
      rewrite (proj2 (Nat.eqb_neq _ _)) by (by destruct ds). rewrite (proj2 (Nat.ltb_ge _ _)) by lia.
      destruct (last ds) as [x|] eqn:Ex; [|by apply last_None in Ex].
      assert ((default 0 (last (46 :: ds)) =? 48) = false) as ->
        by (rewrite (proj2 (Hl' _ Hne) eq_refl); apply Z.eqb_neq; simpl; congruence).
      simpl. rewrite (proj2 (parse_fraction_spec 0 ds (number ds) ltac:(lia) ltac:(lia))) by done. done.
Qed.

Lemma fraction_ns_range fr :
  all_digits fr -> (length fr <= 9)%nat -> 0 <= number (take 3 (fr ++ [48; 48; 48])) < 1000.
Proof.
  intros Hd Hl.
  assert (all_digits (take 3 (fr ++ [48; 48; 48]))) as Ht
    by (apply Forall_take, Forall_app; split; [done|]; repeat (apply Forall_cons; split; [lia|]); constructor).
  pose proof (number_range _ Ht) as Hr. rewrite length_take, length_app in Hr.
  replace (Nat.min 3 _) with 3%nat in Hr by (simpl length; lia). exact Hr.
Qed.

Lemma days_before_year_range n : 0 <= days_before_year n <= 366 * Z.of_nat n.
Proof. induction n as [|n IH]; [simpl; lia|]. cbn [days_before_year]. unfold year_days. destruct (leap_year _); lia. Qed.

Lemma days_before_month_range year month : 1 <= month <= 12 -> 0 <= days_before_month year (Z.to_nat (month - 1)) <= 366.
Proof.
  intros Hm. pattern month.
  by apply month_cases; [done|..]; unfold days_before_month, month_days; simpl; destruct (leap_year year).
Qed.

Lemma day_number_range u : utc_ok u ->
  0 <= day_number (u_year u) (u_month u) (u_day u) <= 366 * 8032.
Proof.
  intros (Hy & Hm & Hd & _). unfold day_number.
  pose proof (days_before_year_range (Z.to_nat (u_year u - 1970))). pose proof (days_before_month_range (u_year u) _ Hm).
  pose proof (month_days_bounds (u_year u) _ Hm). lia.
Qed.

(** The guards behind the separators, and the time. *)
Lemma utc_fields year month day hour minute second fraction_ns fr t :
  all_digits fr -> (length fr <= 9)%nat -> last fr <> Some 48 ->
  fraction_ns = pad_fraction (9 - length fr) (number fr) ->
  0 <= year < 10000 -> 0 <= month < 100 -> 0 <= day < 100 -> 0 <= hour < 100 -> 0 <= minute < 100 -> 0 <= second < 100 ->
  let u := {| u_year := year; u_month := month; u_day := day; u_hour := hour; u_minute := minute;
              u_second := second; u_fraction := fr |} in
  (if (year <? 1970) || (month =? 0) || (12 <? month) || (day =? 0) || (month_days year month <? day)
      || (23 <? hour) || (59 <? minute) || (59 <? second) then None
   else
     let days := days_from_civil year month day in
     if days <? 0 then None
     else Some (u64 (u64 (days * 86400000) + u64 (hour * 3600000) + u64 (minute * 60000)
                     + u64 (second * 1000) + fraction_ns / 1000000))) = Some t
  <-> utc_ok u /\ t = utc_ms u.
Proof.
  intros Hfd Hfl Hf0 -> Hy Hm Hd Hh Hn Hs u.
  assert (utc_ok u <-> (year <? 1970) || (month =? 0) || (12 <? month) || (day =? 0) || (month_days year month <? day)
      || (23 <? hour) || (59 <? minute) || (59 <? second) = false) as Hok.
  { unfold utc_ok. cbn [u_year u_month u_day u_hour u_minute u_second u_fraction u].
    rewrite !orb_false_iff, !Z.ltb_ge, !Z.eqb_neq. split; [intros; split_and!; lia|].
    intros [[[[[[[? ?] ?] ?] ?] ?] ?] ?]. split_and!; try done; lia. }
  destruct (_ || _) eqn:E.
  - split; [done|]. intros [Ho _]. by apply Hok in Ho.
  - pose proof (proj2 Hok eq_refl) as Ho. pose proof (day_number_range u Ho) as Hr.
    destruct Ho as (Hy' & Hm' & Hd' & Hh' & Hn' & Hs' & _).
    cbn [u_year u_month u_day u_hour u_minute u_second u_fraction u] in *. cbv zeta.
    rewrite days_from_civil_day_number, fraction_ms by done. pose proof (fraction_ns_range fr Hfd Hfl).
    rewrite (proj2 (Z.ltb_ge _ _)) by lia.
    rewrite !(u64_id (_ * _)), u64_id by (unfold is_u64; lia).
    unfold utc_ms. cbn [u_year u_month u_day u_hour u_minute u_second u_fraction u].
    split; [intros [= <-]; split; [by apply Hok|done]|intros [_ ->]; done].
Qed.

Lemma app_cons_inj (a a' l l' : bytes) x y :
  length a = length a' -> a ++ x :: l = a' ++ y :: l' -> a = a' /\ x = y /\ l = l'.
Proof. intros Hl H. apply app_inj_1 in H as [-> [= -> ->]]; done. Qed.

(** The texts [parse_canonical_utc] accepts. *)
Lemma parse_utc_text_spec value t :
  parse_utc_text value = Some t <-> exists u, utc_ok u /\ value = utc_text u /\ t = utc_ms u.
Proof.
  assert (parse_utc_text value = Some t \/ (exists u, utc_ok u /\ value = utc_text u /\ t = utc_ms u) ->
    (20 <= length value <= 30)%nat) as Hlen.
  { intros [H|(u & (_ & _ & _ & _ & _ & _ & _ & Hl & _) & -> & _)].
    - unfold parse_utc_text in H.
      destruct (Nat.ltb_spec (length value) 20); [done|]. destruct (Nat.ltb_spec 30 (length value)); [done|]. lia.
    - rewrite utc_text_eq. rewrite !length_app. cbn [length]. rewrite !length_app. cbn [length].
      rewrite !length_app. cbn [length]. rewrite !length_app. cbn [length]. rewrite !length_app. cbn [length].
      rewrite !length_app, !length_decimal. unfold fraction_text. destruct (u_fraction u); simpl in *; lia. }
  destruct (decide (20 <= length value <= 30)%nat) as [Hl|Hl]; [clear Hlen|by split; intros; exfalso; apply Hl, Hlen; auto].
  destruct (utc_shape value) as (a & b & c & d & e & f & s1 & s2 & s3 & s4 & s5 & tail & z & Hv & La & Lb & Lc & Ld & Le
    & Lf & Sa & Sb & Sc & Sd & Se & Sf & E1 & E2 & E3 & E4 & E5 & Ez & Hlv & H19 & Hs20 & Hlast); [lia|].
  assert (forall at_ k n part, slice at_ k value = part -> (at_ + k <= length value)%nat -> (k <= 4)%nat ->
    parse_digits value at_ k = Some n <-> part = decimal k n /\ 0 <= n < 10 ^ Z.of_nat k) as Hpd
    by (intros at_ k n part <- ??; by apply parse_digits_Some).
  unfold parse_utc_text. rewrite (proj2 (Nat.ltb_ge _ 20)), (proj2 (Nat.ltb_ge 30 _)), E1, E2, E3, E4, E5, Ez by lia.
  cbn [orb]. split.
  - destruct (Z.eqb_spec s1 45) as [->|], (Z.eqb_spec s2 45) as [->|], (Z.eqb_spec s3 84) as [->|],
      (Z.eqb_spec s4 58) as [->|], (Z.eqb_spec s5 58) as [->|], (Z.eqb_spec z 90) as [->|]; try done. cbn [negb orb].
    intros (year & [Ha Ry]%(Hpd _ _ _ a Sa ltac:(lia) ltac:(lia)) & H)%bind_Some.
    apply bind_Some in H as (month & [Hb Rm]%(Hpd _ _ _ b Sb ltac:(lia) ltac:(lia)) & H).
    apply bind_Some in H as (day & [Hc Rd]%(Hpd _ _ _ c Sc ltac:(lia) ltac:(lia)) & H).
    apply bind_Some in H as (hour & [Hd Rh]%(Hpd _ _ _ d Sd ltac:(lia) ltac:(lia)) & H).
    apply bind_Some in H as (minute & [He Rn]%(Hpd _ _ _ e Se ltac:(lia) ltac:(lia)) & H).
    apply bind_Some in H as (second & [Hf Rs]%(Hpd _ _ _ f Sf ltac:(lia) ltac:(lia)) & H).
    destruct (_ || _) eqn:Eg in H; [done|]. apply bind_Some in H as (ns & Hns & H).
    apply (fraction_spec value tail 90 ns Hlv ltac:(lia) H19 Hs20 Hlast) in Hns as (fr & -> & Hfd & Hfl & Hf0 & ->).
    eexists {| u_year := year; u_month := month; u_day := day; u_hour := hour; u_minute := minute;
               u_second := second; u_fraction := fr |}.
    pose proof (utc_fields year month day hour minute second _ fr t Hfd Hfl Hf0 eq_refl Ry Rm Rd Rh Rn Rs) as Hiff.
    rewrite Eg in Hiff. apply Hiff in H as [Hok ->]. split_and!; [done| |done].
    rewrite utc_text_eq. cbn [u_year u_month u_day u_hour u_minute u_second u_fraction]. by rewrite Hv, Ha, Hb, Hc, Hd, He, Hf.
  - intros (u & Hok & Hu & ->). rewrite utc_text_eq in Hu. rewrite Hv in Hu.
    apply app_cons_inj in Hu as (Ha & -> & Hu); [|by rewrite length_decimal].
    apply app_cons_inj in Hu as (Hb & -> & Hu); [|by rewrite length_decimal].
    apply app_cons_inj in Hu as (Hc & -> & Hu); [|by rewrite length_decimal].
    apply app_cons_inj in Hu as (Hd & -> & Hu); [|by rewrite length_decimal].
    apply app_cons_inj in Hu as (He & -> & Hu); [|by rewrite length_decimal].
    apply app_inj_1 in Hu as [Hf Hu]; [|by rewrite length_decimal].
    apply app_inj_tail in Hu as [-> ->]. cbn [Z.eqb Pos.eqb negb orb].
    pose proof Hok as (Ry & Rm & Rd & Rh & Rn & Rs & Hfd & Hfl & Hf0).
    pose proof (month_days_bounds (u_year u) _ Rm) as Hmd.
    rewrite (proj2 (Hpd 0%nat 4%nat (u_year u) a Sa ltac:(lia) ltac:(lia))) by (split; [done|simpl; lia]). cbn [mbind option_bind].
    rewrite (proj2 (Hpd 5%nat 2%nat (u_month u) b Sb ltac:(lia) ltac:(lia))) by (split; [done|simpl; lia]). cbn [mbind option_bind].
    rewrite (proj2 (Hpd 8%nat 2%nat (u_day u) c Sc ltac:(lia) ltac:(lia))) by (split; [done|simpl; lia]). cbn [mbind option_bind].
    rewrite (proj2 (Hpd 11%nat 2%nat (u_hour u) d Sd ltac:(lia) ltac:(lia))) by (split; [done|simpl; lia]). cbn [mbind option_bind].
    rewrite (proj2 (Hpd 14%nat 2%nat (u_minute u) e Se ltac:(lia) ltac:(lia))) by (split; [done|simpl; lia]). cbn [mbind option_bind].
    rewrite (proj2 (Hpd 17%nat 2%nat (u_second u) f Sf ltac:(lia) ltac:(lia))) by (split; [done|simpl; lia]). cbn [mbind option_bind].
    pose proof (proj2 (utc_fields (u_year u) (u_month u) (u_day u) (u_hour u) (u_minute u) (u_second u) _ (u_fraction u)
      (utc_ms u) Hfd Hfl Hf0 eq_refl ltac:(lia) ltac:(lia) ltac:(lia) ltac:(lia) ltac:(lia) ltac:(lia))) as H.
    assert (u = {| u_year := u_year u; u_month := u_month u; u_day := u_day u; u_hour := u_hour u;
      u_minute := u_minute u; u_second := u_second u; u_fraction := u_fraction u |}) as Hu by by destruct u.
    cbv zeta in H. rewrite <- Hu in H. specialize (H (conj Hok eq_refl)).
    destruct (_ || _) in H |- *; [done|].
    apply bind_Some. eexists. split; [|exact H].
    apply (fraction_spec value _ 90 _ Hlv ltac:(lia) H19 Hs20 Hlast). exists (u_fraction u). by split_and!.
Qed.

(** A time is accepted exactly when its text is a canonical UTC time: a
    date of the Gregorian calendar from 1970 to 9999, a time of the day, a
    capital Z, and a fraction of up to nine digits without a trailing zero;
    its value is then the number of milliseconds since 1970, the days counted
    one by one through the leap years, the rest of the fraction cut off. *)
Theorem canonical_utc_times d index t :
  parse_canonical_utc d index = Some t <->
  exists s u, decode d index 31 = Some s /\ c_string s = utc_text u /\ utc_ok u /\ t = utc_ms u.
Proof.
  unfold parse_canonical_utc. rewrite bind_Some. split.
  - intros (s & Hs & (u & ? & ? & ?)%parse_utc_text_spec). by exists s, u.
  - intros (s & u & Hs & ? & ? & ->). exists s. split; [done|]. apply parse_utc_text_spec. by exists u.
Qed.
