(* ===== verification/SnapshotPrivacy.v ===== *)
(** * What an AI snapshot may not contain

    [key_is_private], [string_contains_absolute_path] and
    [contains_private_content] of
    [components/ai_snapshot/deck_ai_snapshot.cpp]. *)

From Stdlib Require Import String.
From S2P Require Import Prelude CString JsonParser JsonGrammar JsonLayout SnapshotDocument.

Definition kPrivate : list bytes := map literal
  ["absolutepath"; "accesstoken"; "apikey"; "attributes"; "command"; "commandoutput"; "credential";
   "credentials"; "path"; "prompt"; "raw"; "rawresponse"; "refreshtoken"; "reply"; "response";
   "toolarguments"; "toolargs"; "toolparams"; "upstream"]%string.

(** The loop over the characters of the key up to the terminator. *)
Fixpoint normalize (decoded : bytes) : bytes :=
  match decoded with
  | [] => []
  | character :: decoded =>
      let character := if is_upper character then character + (97 - 65) else character in
      if is_lower character || is_digit character then character :: normalize decoded else normalize decoded
  end.

Definition private_name (decoded : bytes) : bool :=
  existsb (strcmp_eq (normalize (c_string decoded))) kPrivate.

Definition key_is_private (d : Document) (key : nat) : bool :=
  match decode d (Some key) 65 with
  | None => true
  | Some decoded => private_name decoded
  end.

(** ** Paths *)

(** The next character and what is left of the span. *)
Definition next_path_character (rest : bytes) : option (Z * bytes) :=
  match rest with
  | [] => None
  | byte :: rest =>
      if negb (byte =? 92) then Some (if byte <=? 0x7f then byte else 0x7f, rest)
      else
        match rest with
        | [] => None
        | escaped :: rest =>
            if (escaped =? 47) || (escaped =? 92) || (escaped =? 34) then Some (escaped, rest)
            else if existsb (fun c => escaped =? c) [98; 102; 110; 114; 116] then Some (32, rest)
            else if negb (escaped =? 117) then None
            else
              '(codepoint, rest) ← hex_quad rest;
              Some (if codepoint <=? 0x7f then codepoint else 0x7f, rest)
        end
  end.

Definition path_boundary (character : Z) : bool :=
  existsb (fun c => character =? c) [32; 9; 13; 10; 40; 91; 123; 34; 39; 61; 58; 59; 44].

Definition ascii_alpha (character : Z) : bool := is_upper character || is_lower character.

(** A separator at [position] behind the last three characters starts an
    absolute path. *)
Definition path_starts (position : nat) (previous two_back three_back : Z) : bool :=
  (position =? 0)%nat || path_boundary previous
  || ((previous =? 126) && ((position =? 1)%nat || path_boundary two_back))
  || ((2 <=? position)%nat && (previous =? 58) && ascii_alpha two_back
      && ((position =? 2)%nat || path_boundary three_back)).

Fixpoint path_loop (fuel : nat) (rest : bytes) (position : nat) (previous two_back three_back : Z) : bool :=
  match fuel, rest with
  | _, [] => false
  | 0%nat, _ => false
  | S fuel, _ =>
      match next_path_character rest with
      | None => false
      | Some (character, rest) =>
          if ((character =? 47) || (character =? 92)) && path_starts position previous two_back three_back
          then true
          else path_loop fuel rest (S position) character previous two_back
      end
  end.

Definition string_contains_absolute_path (d : Document) (index : nat) : bool :=
  if negb (bool_decide (type (node (nodes d) index) = string)) then false
  else let bytes := span d index in path_loop (List.length bytes) bytes 0 0 0 0.

(** A child has a larger index than its parent: the size of the array is fuel
    enough. *)
Fixpoint private_content (fuel : nat) (d : Document) (index : nat) : bool :=
  match fuel with
  | 0%nat => false
  | S fuel =>
      let n := node (nodes d) index in
      if bool_decide (type n = string) && string_contains_absolute_path d index then true
      else if bool_decide (type n = object) then
        existsb (fun key => key_is_private d key
          || private_content fuel d (index_of d (first_child (node (nodes d) key)))) (children d (Some index))
      else if bool_decide (type n = array) then existsb (private_content fuel d) (children d (Some index))
      else false
  end.

Definition contains_private_content (d : Document) (index : nat) : bool :=
  private_content (S (List.length (nodes d))) d index.

(** ** On trees *)

Definition absolute_path (raw : bytes) : bool := path_loop (List.length raw) raw 0 0 0 0.

Definition private_key (key : bytes) : bool :=
  match decode_key key with None => true | Some decoded => private_name decoded end.

Fixpoint tree_private (t : json) : bool :=
  match t with
  | JString raw => absolute_path raw
  | JObject ms => existsb (fun m => private_key m.1 || tree_private m.2) ms
  | JArray vs => existsb tree_private vs
  | _ => false
  end.

Lemma Forall2_elem {A B} (P : A -> B -> Prop) l k :
  Forall2 P l k -> Forall2 (fun x y => P x y /\ y ∈ k) l k.
Proof.
  intros H. assert (forall k' : list B, (forall y, y ∈ k -> y ∈ k') -> Forall2 (fun x y => P x y /\ y ∈ k') l k) as Hgen;
    [|by apply Hgen].
  induction H as [|x y l k Hxy H IH]; intros k' Hk; constructor.
  - split; [done|]. apply Hk. by left.
  - apply IH. intros z Hz. apply Hk. by right.
Qed.

Lemma existsb_Forall2 {A B} (f : A -> bool) (g : B -> bool) l k :
  Forall2 (fun x y => f x = g y) l k -> existsb f l = existsb g k.
Proof. induction 1 as [|x y l k Hxy _ IH]; simpl; [done|]. by rewrite Hxy, IH. Qed.

(** The accessors on a node of the array. *)
Section tree.
Context (document : bytes) (nodes : list Node).
Let d := {| text := document; JsonParser.nodes := nodes |}.

Lemma decode_node i n raw capacity :
  nodes !! i = Some n -> type n = string -> node_text document n = raw -> (0 < capacity)%nat ->
  decode d (Some i) capacity = decode_ascii_loop (List.length raw) capacity [] raw.
Proof.
  intros Hn Hty Hx Hc. unfold decode, decode_ascii, span. change (index_of d (Some i)) with i.
  change (JsonParser.nodes d) with nodes. change (text d) with document.
  rewrite (node_at _ _ _ Hn), Hty, bool_decide_eq_true_2 by done.
  destruct capacity; [lia|]. cbn [negb orb Nat.eqb]. unfold node_text in Hx. by rewrite Hx.
Qed.

Lemma children_members i n ms j :
  nodes !! i = Some n -> first_child n = (if decide (ms = []) then None else Some (S i)) ->
  members_at document nodes (S i) None ms j ->
  Forall2 (fun i m => (exists n k', nodes !! i = Some n /\ type n = string /\ node_text document n = m.1
      /\ first_child n = Some (S i) /\ tree_at document nodes (S i) None m.2 k') /\ m ∈ ms) (children d (Some i)) ms.
Proof.
  intros Hn Hf Hm. apply Forall2_elem. unfold children, siblings. change (index_of d (Some i)) with i.
  change (JsonParser.nodes d) with nodes.
  rewrite (node_at _ _ _ Hn), Hf, is_nil_decide. apply (siblings_members document _ _ _ j); [done|].
  pose proof (members_length document _ _ _ _ _ Hm). destruct ms as [|m ms]; [simpl; lia|].
  pose proof (proj1 (proj2 (layout_bounds document nodes)) _ _ _ _ Hm) as (_ & Hle & _). specialize (Hle ltac:(done)). lia.
Qed.

Lemma children_items i n vs j :
  nodes !! i = Some n -> first_child n = (if decide (vs = []) then None else Some (S i)) ->
  items_at document nodes (S i) None vs j ->
  Forall2 (fun i v => (exists next k', tree_at document nodes i next v k') /\ v ∈ vs) (children d (Some i)) vs.
Proof.
  intros Hn Hf Hm. apply Forall2_elem. unfold children, siblings. change (index_of d (Some i)) with i.
  change (JsonParser.nodes d) with nodes.
  rewrite (node_at _ _ _ Hn), Hf, is_nil_decide. apply (siblings_items document _ _ _ j); [done|].
  pose proof (items_length document _ _ _ _ _ Hm). destruct vs as [|v vs]; [simpl; lia|].
  pose proof (proj2 (proj2 (layout_bounds document nodes)) _ _ _ _ Hm) as (_ & Hle & _). specialize (Hle ltac:(done)). lia.
Qed.

Lemma node_count_member m ms : m ∈ ms -> (node_count m.2 < node_count (JObject ms))%nat.
Proof. induction 1; cbn [node_count fold_right] in *; lia. Qed.
Lemma node_count_item v vs : v ∈ vs -> (node_count v < node_count (JArray vs))%nat.
Proof.
  induction 1 as [v vs|v w vs _ IH]; cbn [node_count fold_right] in *; lia.
Qed.

Lemma private_content_tree fuel i next t j :
  tree_at document nodes i next t j -> (node_count t <= fuel)%nat -> private_content fuel d i = tree_private t.
Proof.
  induction fuel as [|fuel IH] in i, next, t, j |- *; intros Ht Hc; [destruct t; simpl in Hc; lia|].
  cbn [private_content]. change (JsonParser.nodes d) with nodes.
  inversion Ht as [i' n raw Hn Hty Hx Hf|i' n raw Hn Hty Hx Hf|i' n b Hn Hty Hx Hf|i' n Hn Hty Hf
    |i' n ms j' Hn Hty Hf Hm|i' n vs j' Hn Hty Hf Hm]; subst; rewrite (node_at _ _ _ Hn), Hty; cbn [tree_private].
  - unfold string_contains_absolute_path, span. change (JsonParser.nodes d) with nodes. rewrite (node_at _ _ _ Hn), Hty.
    change ((if absolute_path (node_text document n) then true else false) = absolute_path (node_text document n)).
    by destruct (absolute_path _).
  - done.
  - done.
  - done.
  - simpl. apply existsb_Forall2. eapply Forall2_impl; [by apply (children_members _ _ _ _ Hn Hf Hm)|].
    intros k m [(n' & k' & Hk & Hkt & Hkx & Hkf & Hkv) Hin]. cbn beta. f_equal.
    + unfold key_is_private, private_key, decode_key. by rewrite (decode_node _ _ _ _ Hk Hkt Hkx) by lia.
    + rewrite (node_at _ _ _ Hk), Hkf. apply (IH _ None _ k' Hkv). apply node_count_member in Hin. lia.
  - simpl. apply existsb_Forall2. eapply Forall2_impl; [by apply (children_items _ _ _ _ Hn Hf Hm)|].
    intros k v [(next & k' & Hkv) Hin]. apply (IH _ _ _ _ Hkv). apply node_count_item in Hin. lia.
Qed.

Lemma contains_private_content_tree i next t j :
  tree_at document nodes i next t j -> contains_private_content d i = tree_private t.
Proof.
  intros Ht. apply (private_content_tree _ _ _ _ _ Ht).
  pose proof (tree_bounds _ _ _ _ _ _ Ht) as [? ->]. change (JsonParser.nodes d) with nodes. lia.
Qed.

End tree.

(** ** What the checks mean *)

(** The characters the path check reads. *)
Fixpoint path_characters (fuel : nat) (rest : bytes) : list Z :=
  match fuel with
  | 0%nat => []
  | S fuel =>
      match next_path_character rest with
      | None => []
      | Some (character, rest) => character :: path_characters fuel rest
      end
  end.

(** A separator behind the characters [back], the nearest first, starts an
    absolute path: at the start of the string or of a word, behind a tilde or a
    drive letter that is. *)
Definition word_start (back : list Z) : bool :=
  match back with [] => true | previous :: _ => path_boundary previous end.

Definition opens_path (back : list Z) : bool :=
  word_start back
  || match back with
     | previous :: back' =>
         ((previous =? 126) && word_start back')
         || ((previous =? 58)
             && match back' with letter :: back'' => ascii_alpha letter && word_start back'' | [] => false end)
     | [] => false
     end.

Definition names_path (characters : list Z) : Prop :=
  exists before separator after, characters = before ++ separator :: after
    /\ (separator = 47 \/ separator = 92) /\ opens_path (reverse before) = true.

Lemma path_starts_opens back :
  path_starts (List.length back) (default 0 (back !! 0%nat)) (default 0 (back !! 1%nat)) (default 0 (back !! 2%nat))
  = opens_path back.
Proof.
  unfold path_starts, opens_path, word_start. destruct back as [|p back]; [done|].
  destruct back as [|t back]; cbn [List.length lookup list_lookup default from_option id Nat.eqb Nat.leb orb andb].
  { destruct (path_boundary p), (p =? 126), (p =? 58); done. }
  change (path_boundary (id p)) with (path_boundary p). change (path_boundary (id t)) with (path_boundary t).
  destruct back as [|h back]; cbn [List.length lookup list_lookup default from_option id Nat.eqb Nat.leb orb andb];
    unfold id; rewrite ?orb_false_r, ?andb_true_r, ?orb_assoc, ?andb_assoc; done.
Qed.

Lemma path_loop_spec fuel rest back :
  path_loop fuel rest (List.length back) (default 0 (back !! 0%nat)) (default 0 (back !! 1%nat)) (default 0 (back !! 2%nat))
  = true <->
  exists before separator after, path_characters fuel rest = before ++ separator :: after
    /\ (separator = 47 \/ separator = 92) /\ opens_path (reverse before ++ back) = true.
Proof.
  induction fuel as [|fuel IH] in rest, back |- *.
  { split; [by destruct rest|]. intros (before & ? & ? & H & _). by destruct before. }
  cbn [path_loop path_characters]. destruct rest as [|byte tail].
  { split; [done|]. intros (before & ? & ? & H & _). by destruct before. }
  destruct (next_path_character _) as [[c rest]|].
  2: { split; [done|]. intros (before & ? & ? & H & _). by destruct before. }
  rewrite path_starts_opens. destruct (((c =? 47) || (c =? 92)) && opens_path back) eqn:E.
  - apply andb_true_iff in E as [Hc Ho]. split; [intros _|done].
    exists [], c, (path_characters fuel rest). split_and!; [done| |done]. apply orb_true_iff in Hc as [Hc|Hc]; bool_prop; lia.
  - specialize (IH rest (c :: back)). cbn [List.length lookup list_lookup default from_option id] in IH.
    assert (path_loop fuel rest (S (List.length back)) c (default 0 (back !! 0%nat)) (default 0 (back !! 1%nat)) = true <->
      exists before separator after, path_characters fuel rest = before ++ separator :: after
        /\ (separator = 47 \/ separator = 92) /\ opens_path (reverse before ++ c :: back) = true) as ->
      by (rewrite <- IH; by destruct back as [|? [|? ?]]).
    split; intros (before & sep & after & Hch & Hsep & Ho).
    + exists (c :: before), sep, after. rewrite Hch. split_and!; [done|done|]. by rewrite reverse_cons, <- app_assoc.
    + destruct before as [|c' before].
      * injection Hch as -> _. cbn in Ho. rewrite Ho, andb_true_r in E. destruct Hsep as [->| ->]; done.
      * injection Hch as -> Hch. exists before, sep, after. split_and!; [done|done|].
        by rewrite reverse_cons, <- app_assoc in Ho.
Qed.

Lemma absolute_path_spec raw : absolute_path raw = true <-> names_path (path_characters (List.length raw) raw).
Proof.
  unfold absolute_path, names_path. rewrite (path_loop_spec (List.length raw) raw []).
  split; intros (b & s & a & ? & ? & H); exists b, s, a; rewrite ?app_nil_r in *; done.
Qed.

(** Strings whose escapes are all known, and their characters; a character
    outside ASCII is read as DEL. *)
Inductive reads : bytes -> list Z -> Prop :=
  | reads_end : reads [] []
  | reads_plain b rest cs : b <> 92 -> reads rest cs -> reads (b :: rest) ((if b <=? 0x7f then b else 0x7f) :: cs)
  | reads_self e rest cs : e = 34 \/ e = 47 \/ e = 92 -> reads rest cs -> reads (92 :: e :: rest) (e :: cs)
  | reads_control e rest cs :
      e = 98 \/ e = 102 \/ e = 110 \/ e = 114 \/ e = 116 -> reads rest cs -> reads (92 :: e :: rest) (32 :: cs)
  | reads_unicode h1 h2 h3 h4 codepoint rest cs :
      hex_quad [h1; h2; h3; h4] = Some (codepoint, []) -> reads rest cs ->
      reads (92 :: 117 :: h1 :: h2 :: h3 :: h4 :: rest) ((if codepoint <=? 0x7f then codepoint else 0x7f) :: cs).

Lemma hex_quad_app h1 h2 h3 h4 c rest :
  hex_quad [h1; h2; h3; h4] = Some (c, []) -> hex_quad (h1 :: h2 :: h3 :: h4 :: rest) = Some (c, rest).
Proof.
  unfold hex_quad. destruct (hex_value h1); [|done]. destruct (hex_value h2); [|done].
  destruct (hex_value h3); [|done]. destruct (hex_value h4); [|done]. simpl. by intros [= ->].
Qed.

Lemma reads_path_characters raw cs fuel :
  reads raw cs -> (List.length raw <= fuel)%nat -> path_characters fuel raw = cs.
Proof.
  intros Hr. revert fuel. induction Hr as [|b rest cs Hb _ IH|e rest cs He _ IH|e rest cs He _ IH
    |h1 h2 h3 h4 c rest cs Hq _ IH]; intros fuel Hf; (destruct fuel as [|fuel]; [simpl in Hf; try lia; done|]);
    cbn [path_characters next_path_character]; simpl in Hf.
  - done.
  - rewrite (proj2 (Z.eqb_neq _ _)) by done. simpl. by rewrite IH by lia.
  - change (negb (92 =? 92)) with false. cbn [negb]. by destruct He as [->|[->| ->]]; simpl; rewrite IH by lia.
  - by destruct He as [->|[->|[->|[->| ->]]]]; simpl; rewrite IH by lia.
  - change (negb (92 =? 92)) with false. change (negb (117 =? 117)) with false. simpl.
    pose proof (hex_quad_app _ _ _ _ _ rest Hq) as Hq'. unfold hex_quad in Hq'. cbn [mbind option_bind] in *.
    rewrite Hq'. simpl. by rewrite IH by lia.
Qed.

Lemma is_xdigit_value h : is_xdigit h = true -> exists v, hex_value h = Some v.
Proof.
  unfold is_xdigit, hex_value. destruct (is_digit h); [by eexists|].
  destruct (_ && _); [by eexists|]. destruct (_ && _); [by eexists|done].
Qed.

(** A legal string without NUL bytes is read to its end. *)
Lemma string_body_reads raw : string_body raw -> Forall (fun b => b <> 0) raw -> exists cs, reads raw cs.
Proof.
  induction 1 as [|b rest Hb H34 H92 _ IH|e rest He _ IH|h1 h2 h3 h4 rest H1 H2 H3 H4 _ IH]; intros Hn.
  - exists []. constructor.
  - apply Forall_cons in Hn as [_ Hn]. destruct (IH Hn) as [cs Hcs]. eexists. by apply reads_plain.
  - apply Forall_cons in Hn as [_ [He0 Hn]%Forall_cons]. destruct (IH Hn) as [cs Hcs].
    unfold simple_escape in He. cbn [existsb] in He. bool_cases; try done.
    all: first [by eexists; apply reads_self; [lia|] | by eexists; apply reads_control; [lia|]].
  - do 6 (apply Forall_cons in Hn as [_ Hn]). destruct (IH Hn) as [cs Hcs].
    destruct (is_xdigit_value _ H1) as [v1 E1], (is_xdigit_value _ H2) as [v2 E2],
      (is_xdigit_value _ H3) as [v3 E3], (is_xdigit_value _ H4) as [v4 E4].
    eexists. eapply reads_unicode; [|done]. unfold hex_quad. by rewrite E1, E2, E3, E4.
Qed.

(** The strings and the keys of a tree, at any depth. *)
Fixpoint strings_of (t : json) : list bytes :=
  match t with
  | JObject ms => flat_map (fun m => strings_of m.2) ms
  | JArray vs => flat_map strings_of vs
  | JString raw => [raw]
  | _ => []
  end.

Fixpoint keys_of (t : json) : list bytes :=
  match t with
  | JObject ms => flat_map (fun m => m.1 :: keys_of m.2) ms
  | JArray vs => flat_map keys_of vs
  | _ => []
  end.

(** Induction through the nested lists. *)
Lemma json_nested_ind (P : json -> Prop) :
  (forall ms, Forall (fun m => P m.2) ms -> P (JObject ms)) -> (forall vs, Forall P vs -> P (JArray vs)) ->
  (forall raw, P (JString raw)) -> (forall raw, P (JInteger raw)) -> (forall b, P (JBoolean b)) -> P JNull ->
  forall t, P t.
Proof.
  intros Ho Ha Hs Hi Hb Hn. fix IH 1. intros [ms|vs|raw|raw|b|]; [apply Ho|apply Ha|done..].
  - induction ms as [|m ms IHms]; constructor; [apply IH|exact IHms].
  - induction vs as [|v vs IHvs]; constructor; [apply IH|exact IHvs].
Qed.

Lemma existsb_flat_map {A B} (p : B -> bool) (f : A -> list B) l :
  existsb p (flat_map f l) = existsb (fun x => existsb p (f x)) l.
Proof. induction l as [|x l IH]; simpl; [done|]. by rewrite existsb_app, IH. Qed.

Lemma existsb_or {A} (p q : A -> bool) l : existsb (fun x => p x || q x) l = existsb p l || existsb q l.
Proof. induction l as [|x l IH]; simpl; [done|]. rewrite IH. by destruct (p x), (q x), (existsb p l). Qed.

Lemma existsb_ext_Forall {A} (p q : A -> bool) l : Forall (fun x => p x = q x) l -> existsb p l = existsb q l.
Proof. induction 1 as [|x l Hx _ IH]; simpl; [done|]. by rewrite Hx, IH. Qed.

Lemma tree_private_flat t :
  tree_private t = existsb private_key (keys_of t) || existsb absolute_path (strings_of t).
Proof.
  induction t as [ms IH|vs IH|raw|raw|b|] using json_nested_ind; cbn [tree_private keys_of strings_of]; try done.
  - rewrite !existsb_flat_map, <- existsb_or. apply existsb_ext_Forall.
    eapply Forall_impl; [exact IH|]. intros [key v] Hv. simpl in *. rewrite Hv. by rewrite orb_assoc.
  - rewrite !existsb_flat_map, <- existsb_or. by apply existsb_ext_Forall.
  - simpl. by rewrite orb_false_r.
Qed.

(** The strings are parts of the text. *)
Lemma strings_of_text (P : Z -> Prop) :
  (forall t txt, json_text t txt -> Forall P txt -> Forall (fun raw => string_body raw /\ Forall P raw) (strings_of t))
  /\ (forall ms txt, members_text ms txt -> Forall P txt ->
        Forall (fun raw => string_body raw /\ Forall P raw) (strings_of (JObject ms)))
  /\ (forall vs txt, items_text vs txt -> Forall P txt ->
        Forall (fun raw => string_body raw /\ Forall P raw) (strings_of (JArray vs))).
Proof.
  apply text_ind; cbn [strings_of flat_map snd]; try (intros; by constructor).
  - intros raw Hb Hf. constructor; [|constructor]. split; [done|]. unfold quoted in Hf.
    by apply Forall_app in Hf as [_ [Hf _]%Forall_app].
  - intros ms t _ _ IH Hf. apply Forall_app in Hf as [_ [Hf _]%Forall_app]. by apply IH.
  - intros vs t _ _ IH Hf. apply Forall_app in Hf as [_ [Hf _]%Forall_app]. by apply IH.
  - intros w1 key w2 w3 v t w4 _ _ _ _ _ IH _ Hf. rewrite !Forall_app in Hf. rewrite app_nil_r. tauto.
  - intros w1 key w2 w3 v t w4 ms rest _ _ _ _ _ IH _ _ IHm Hf. rewrite !Forall_app in Hf.
    apply Forall_app. tauto.
  - intros w1 v t w2 _ _ IH _ Hf. rewrite !Forall_app in Hf. rewrite app_nil_r. tauto.
  - intros w1 v t w2 vs rest _ _ IH _ _ IHv Hf. rewrite !Forall_app in Hf. apply Forall_app. tauto.
Qed.
