(* ===== verification/SnapshotValidate.v ===== *)
(** * Validating an AI snapshot

    The schema checks of [components/ai_snapshot/deck_ai_snapshot.cpp] behind
    the parser, [deck_ai_snapshot_validate] and the retained snapshot.  Outputs
    of a check that is accepted are returned with the result. *)

From Stdlib Require Import String.
From S2P Require Import Prelude CString Utf8 JsonParser SnapshotDocument SnapshotTime SnapshotPrivacy.

Inductive deck_ai_snapshot_result_t :=
  | DECK_AI_SNAPSHOT_ACCEPTED
  | DECK_AI_SNAPSHOT_MALFORMED
  | DECK_AI_SNAPSHOT_UNSUPPORTED_VERSION
  | DECK_AI_SNAPSHOT_PRIVATE_DATA.

#[export] Instance result_eq_dec : EqDecision deck_ai_snapshot_result_t.
Proof. solve_decision. Defined.

Definition DECK_AI_SNAPSHOT_SCHEMA_MAJOR : Z := 1.
Definition DECK_AI_SNAPSHOT_SCHEMA_MINOR : Z := 0.
Definition DECK_AI_SNAPSHOT_MAX_BYTES : Z := 16384.
Definition DECK_AI_SNAPSHOT_MAX_PROVIDERS : nat := 8.
Definition DECK_AI_SNAPSHOT_MAX_SESSIONS : nat := 16.
Definition DECK_AI_SNAPSHOT_MAX_WINDOWS : nat := 4.
Definition kMaximumForwardFields : Z := 16.

Record deck_ai_snapshot_metadata_t := {
  schema_minor : Z;
  generated_at_unix_ms : Z;
  provider_count : Z;
  session_count : Z;
  next_refresh_seconds : Z;
}.

Definition no_metadata : deck_ai_snapshot_metadata_t :=
  {| schema_minor := 0; generated_at_unix_ms := 0; provider_count := 0; session_count := 0;
     next_refresh_seconds := 0 |}.

(** [if (result != ACCEPTED) return result;] *)
Definition check (result next : deck_ai_snapshot_result_t) : deck_ai_snapshot_result_t :=
  if bool_decide (result = DECK_AI_SNAPSHOT_ACCEPTED) then next else result.

Notation "'require' c ; k" := (if c then k else DECK_AI_SNAPSHOT_MALFORMED)
  (at level 100, c at level 99, k at level 100, right associativity) : deck_scope.

Definition names (l : list String.string) : list bytes := map literal l.

(** The loop over the keys of an object; [forward_fields] counts the unknown
    ones. *)
Fixpoint fields_loop (d : Document) (minor : Z) (known : list bytes) (forward_fields : Z) (keys : list nat)
  : deck_ai_snapshot_result_t :=
  match keys with
  | [] => DECK_AI_SNAPSHOT_ACCEPTED
  | key :: keys =>
      if key_is_private d key then DECK_AI_SNAPSHOT_PRIVATE_DATA
      else if one_of d (Some key) known then fields_loop d minor known forward_fields keys
      else if minor =? DECK_AI_SNAPSHOT_SCHEMA_MINOR then DECK_AI_SNAPSHOT_MALFORMED
      else if negb (safe_identifier d (Some key) 32) then DECK_AI_SNAPSHOT_MALFORMED
      else if kMaximumForwardFields <? forward_fields + 1 then DECK_AI_SNAPSHOT_MALFORMED
      else if negb (safe_forward_scalar d (first_child (node (nodes d) key))) then DECK_AI_SNAPSHOT_PRIVATE_DATA
      else fields_loop d minor known (forward_fields + 1) keys
  end.

Definition object_fields (d : Document) (object_index : option nat) (minor : Z) (known : list bytes)
  : deck_ai_snapshot_result_t :=
  require bool_decide (type (node (nodes d) (index_of d object_index)) = object);
  fields_loop d minor known 0 (children d object_index).

(** The result, and [*minor] as it is left. *)
Definition parse_version (d : Document) (object_index : option nat) : deck_ai_snapshot_result_t * Z :=
  if bool_decide (object_index = None) then (DECK_AI_SNAPSHOT_MALFORMED, 0)
  else
    match object_fields d object_index 0 (names ["major"; "minor"]%string) with
    | DECK_AI_SNAPSHOT_ACCEPTED =>
        match unsigned_between d (field d object_index (literal "major")) 0 U16_MAX,
              unsigned_between d (field d object_index (literal "minor")) 0 U16_MAX with
        | Some major, Some minor_value =>
            if negb (major =? DECK_AI_SNAPSHOT_SCHEMA_MAJOR) then (DECK_AI_SNAPSHOT_UNSUPPORTED_VERSION, 0)
            else (DECK_AI_SNAPSHOT_ACCEPTED, u16 minor_value)
        | _, _ => (DECK_AI_SNAPSHOT_MALFORMED, 0)
        end
    | fields_result => (fields_result, 0)
    end.

Definition required (d : Document) (object : option nat) (name : bytes) (nullable : bool) : bool :=
  let f := field d object name in negb (bool_decide (f = None)) && (nullable || negb (is_null d f)).

(** The loop over the fields of an object, the nullable ones in [nullable]. *)
Definition all_required (d : Document) (object : option nat) (fields nullable : list bytes) : bool :=
  forallb (fun name => required d object name (bool_decide (name ∈ nullable))) fields.

Definition is_some {A} (x : option A) : bool := bool_decide (is_Some x).

(** [fields == PRIVATE_DATA ? fields : MALFORMED] *)
Definition private_or_malformed (result : deck_ai_snapshot_result_t) : deck_ai_snapshot_result_t :=
  if bool_decide (result = DECK_AI_SNAPSHOT_PRIVATE_DATA) then result else DECK_AI_SNAPSHOT_MALFORMED.

Definition validate_money (d : Document) (index : option nat) (minor : Z) : deck_ai_snapshot_result_t :=
  if is_null d index then DECK_AI_SNAPSHOT_ACCEPTED
  else
    let fields := object_fields d index minor (names ["amount_micros"; "currency"]%string) in
    let amount := field d index (literal "amount_micros") in
    let currency := field d index (literal "currency") in
    if negb (bool_decide (fields = DECK_AI_SNAPSHOT_ACCEPTED))
       || negb (required d index (literal "amount_micros") false) || negb (required d index (literal "currency") false)
       || negb (is_some (unsigned_between d amount 0 kMaximumSafeInteger))
    then private_or_malformed fields
    else
      match decode d currency 4 with
      | None => DECK_AI_SNAPSHOT_MALFORMED
      | Some currency_text =>
          require (strlen currency_text =? 3)%nat;
          require forallb is_upper (c_string currency_text);
          DECK_AI_SNAPSHOT_ACCEPTED
      end.

Definition window_fields : list bytes :=
  names ["name"; "used_basis_points"; "remaining_basis_points"; "window_minutes"; "resets_at"]%string.

Definition validate_window (d : Document) (index : option nat) (minor : Z) : deck_ai_snapshot_result_t :=
  check (object_fields d index minor window_fields) (
  require all_required d index window_fields (tail window_fields);
  require safe_identifier d (field d index (literal "name")) 24;
  match nullable_unsigned d (field d index (literal "used_basis_points")) 0 10000,
        nullable_unsigned d (field d index (literal "remaining_basis_points")) 0 10000,
        nullable_unsigned d (field d index (literal "window_minutes")) 1 525600,
        nullable_time d (field d index (literal "resets_at")) U64_MAX with
  | Some used, Some remaining, Some _, Some _ =>
      require match used, remaining with
              | Some used, Some remaining => u64 (used + remaining) =? 10000
              | _, _ => true
              end;
      DECK_AI_SNAPSHOT_ACCEPTED
  | _, _, _, _ => DECK_AI_SNAPSHOT_MALFORMED
  end).

Definition token_fields : list bytes := names ["input"; "cached_input"; "output"; "reasoning"; "total"]%string.

Definition validate_tokens (d : Document) (index : option nat) (minor : Z) : deck_ai_snapshot_result_t :=
  if is_null d index then DECK_AI_SNAPSHOT_ACCEPTED
  else
    check (object_fields d index minor token_fields) (
    match mapM (fun name => nullable_unsigned d (field d index name) 0 kMaximumSafeInteger) token_fields with
    | Some [input; cached; output; reasoning; total] =>
        require match input, cached with Some input, Some cached => cached <=? input | _, _ => true end;
        require match input, output, reasoning, total with
                | Some input, Some output, Some reasoning, Some total =>
                    u64 (input + output + reasoning) =? total
                | _, _, _, _ => true
                end;
        DECK_AI_SNAPSHOT_ACCEPTED
    | _ => DECK_AI_SNAPSHOT_MALFORMED
    end).

Definition error_codes : list bytes :=
  names ["auth_stale"; "permission_denied"; "timeout"; "process_exited"; "schema_changed"; "unavailable"]%string.

Definition validate_provider_error (d : Document) (index : option nat) (minor : Z) : deck_ai_snapshot_result_t :=
  if is_null d index then DECK_AI_SNAPSHOT_ACCEPTED
  else
    let fields := object_fields d index minor (names ["code"; "retryable"]%string) in
    if negb (bool_decide (fields = DECK_AI_SNAPSHOT_ACCEPTED))
       || negb (required d index (literal "code") false) || negb (required d index (literal "retryable") false)
       || negb (one_of d (field d index (literal "code")) error_codes)
       || negb (is_some (boolean_value d (field d index (literal "retryable"))))
    then private_or_malformed fields
    else DECK_AI_SNAPSHOT_ACCEPTED.

(** [for (item : items) { result = f(item); if (result != ACCEPTED) return result; }] *)
Fixpoint check_all {A} (f : A -> deck_ai_snapshot_result_t) (l : list A) : deck_ai_snapshot_result_t :=
  match l with [] => DECK_AI_SNAPSHOT_ACCEPTED | x :: l => check (f x) (check_all f l) end.

Definition provider_fields : list bytes := names
  ["schema_version"; "provider_id"; "display_name"; "status"; "source"; "confidence"; "experimental";
   "updated_at"; "stale_after_seconds"; "balance"; "windows"; "tokens"; "error"]%string.

Definition provider_nullable : list bytes :=
  names ["updated_at"; "stale_after_seconds"; "balance"; "tokens"; "error"]%string.

Definition confidences : list bytes := names ["verified"; "inferred"; "unavailable"]%string.

(** The relations between status, source and confidence. *)
Definition provider_consistent (d : Document) (status source confidence : option nat) : bool :=
  let source_none := string_equals d source (literal "none") in
  let unavailable_confidence := string_equals d confidence (literal "unavailable") in
  let status_unavailable := string_equals d status (literal "unavailable") in
  negb (negb (Bool.eqb source_none unavailable_confidence) || (status_unavailable && negb source_none)
        || (string_equals d source (literal "codex_app_server")
            && negb (string_equals d confidence (literal "verified")))
        || (string_equals d source (literal "cursor_local")
            && negb (string_equals d confidence (literal "inferred")))).

(** On acceptance [*provider_id] is [field d index "provider_id"]; the caller
    below reads it there. *)
Definition validate_provider (d : Document) (index : option nat) (generated_at : Z) : deck_ai_snapshot_result_t :=
  let '(result, minor) := parse_version d (field d index (literal "schema_version")) in
  check result (
  check (object_fields d index minor provider_fields) (
  require all_required d index provider_fields provider_nullable;
  let id := field d index (literal "provider_id") in
  let status := field d index (literal "status") in
  let source := field d index (literal "source") in
  let confidence := field d index (literal "confidence") in
  require safe_identifier d id 32 && safe_text d (field d index (literal "display_name")) 48
          && one_of d status (names ["ok"; "degraded"; "unavailable"]%string)
          && one_of d source (names ["codex_app_server"; "cursor_local"; "structured_http"; "none"]%string)
          && one_of d confidence confidences
          && is_some (boolean_value d (field d index (literal "experimental")))
          && is_some (nullable_time d (field d index (literal "updated_at")) generated_at)
          && is_some (nullable_unsigned d (field d index (literal "stale_after_seconds")) 1 86400);
  require provider_consistent d status source confidence;
  check (validate_money d (field d index (literal "balance")) 0) (
  let windows := field d index (literal "windows") in
  require bool_decide (type (node (nodes d) (index_of d windows)) = array)
          && (array_count d windows <=? DECK_AI_SNAPSHOT_MAX_WINDOWS)%nat;
  check (check_all (fun window => validate_window d (Some window) 0) (children d windows)) (
  check (validate_tokens d (field d index (literal "tokens")) 0) (
  let error := field d index (literal "error") in
  let result := validate_provider_error d error 0 in
  if negb (bool_decide (result = DECK_AI_SNAPSHOT_ACCEPTED))
     || (string_equals d status (literal "ok") && negb (is_null d error))
     || (negb (string_equals d status (literal "ok")) && is_null d error)
  then private_or_malformed result
  else DECK_AI_SNAPSHOT_ACCEPTED))))).

Definition session_fields : list bytes := names
  ["schema_version"; "session_id"; "provider_id"; "display_name"; "state"; "source"; "confidence";
   "started_at"; "last_activity_at"; "duration_seconds"; "turn_tokens"; "context_used_basis_points"]%string.

Definition session_nullable : list bytes := names
  ["display_name"; "started_at"; "last_activity_at"; "duration_seconds"; "turn_tokens";
   "context_used_basis_points"]%string.

Definition session_states : list bytes := names
  ["running"; "waiting_approval"; "waiting_input"; "completed"; "failed"; "recent"; "ended"; "unknown";
   "unavailable"]%string.

(** The identifiers of two nodes agree; [capacity] is that of the buffers. *)
Definition same_id (d : Document) (capacity : nat) (a b : option nat) : bool :=
  match decode d a capacity, decode d b capacity with Some a, Some b => strcmp_eq a b | _, _ => false end.

(** The relations between state, source and confidence. *)
Definition session_consistent (d : Document) (state source confidence : option nat) : bool :=
  let source_none := string_equals d source (literal "none") in
  let unavailable_confidence := string_equals d confidence (literal "unavailable") in
  negb (negb (Bool.eqb source_none unavailable_confidence)
        || (source_none && negb (string_equals d state (literal "unavailable")))
        || (string_equals d source (literal "codex_app_server_owned")
            && negb (string_equals d confidence (literal "verified")))
        || (string_equals d source (literal "process_jsonl_observer")
            && negb (string_equals d confidence (literal "inferred"))))
  && negb (string_equals d source (literal "codex_app_server_owned")
           && negb (one_of d state (names ["running"; "waiting_approval"; "waiting_input"; "completed"; "failed"]%string)))
  && negb (string_equals d source (literal "process_jsonl_observer")
           && negb (one_of d state (names ["running"; "recent"; "ended"; "unknown"]%string))).

Definition validate_session (d : Document) (index : option nat) (generated_at : Z) (provider_ids : list (option nat))
  : deck_ai_snapshot_result_t :=
  let '(result, minor) := parse_version d (field d index (literal "schema_version")) in
  check result (
  check (object_fields d index minor session_fields) (
  require all_required d index session_fields session_nullable;
  let provider_id := field d index (literal "provider_id") in
  let display_name := field d index (literal "display_name") in
  let state := field d index (literal "state") in
  let source := field d index (literal "source") in
  let confidence := field d index (literal "confidence") in
  require safe_opaque_id d (field d index (literal "session_id")) && safe_identifier d provider_id 32
          && (is_null d display_name || safe_text d display_name 48)
          && one_of d state session_states
          && one_of d source (names ["codex_app_server_owned"; "process_jsonl_observer"; "none"]%string)
          && one_of d confidence confidences;
  require existsb (fun id => same_id d 33 provider_id id) provider_ids;
  require session_consistent d state source confidence;
  match nullable_time d (field d index (literal "started_at")) generated_at,
        nullable_time d (field d index (literal "last_activity_at")) generated_at,
        nullable_unsigned d (field d index (literal "duration_seconds")) 0 31536000,
        nullable_unsigned d (field d index (literal "turn_tokens")) 0 kMaximumSafeInteger,
        nullable_unsigned d (field d index (literal "context_used_basis_points")) 0 10000 with
  | Some started_at, Some last_activity_at, Some _, Some _, Some _ =>
      require match started_at, last_activity_at with
              | Some started_at, Some last_activity_at => started_at <=? last_activity_at
              | _, _ => true
              end;
      DECK_AI_SNAPSHOT_ACCEPTED
  | _, _, _, _, _ => DECK_AI_SNAPSHOT_MALFORMED
  end)).

Definition snapshot_fields : list bytes := names
  ["type"; "protocol_version"; "schema_version"; "generated_at"; "timezone"; "provider_order"; "providers";
   "sessions"; "next_refresh_seconds"]%string.

(** The check of an identifier against the ones before it. *)
Definition distinct_id (d : Document) (capacity : nat) (actual : bytes) (previous : list (option nat)) : bool :=
  forallb (fun p => match decode d p capacity with Some id => negb (strcmp_eq actual id) | None => false end) previous.

(** The loop over the providers, from [provider] on, [count] of them;
    [ids] are the identifiers so far. *)
Fixpoint providers_loop (d : Document) (providers order : option nat) (generated_at : Z) (count provider : nat)
    (ids : list (option nat)) : deck_ai_snapshot_result_t * list (option nat) :=
  match count with
  | 0%nat => (DECK_AI_SNAPSHOT_ACCEPTED, ids)
  | S count =>
      let provider_node := array_at d providers provider in
      match validate_provider d provider_node generated_at with
      | DECK_AI_SNAPSHOT_ACCEPTED =>
          let id := field d provider_node (literal "provider_id") in
          match decode d id 33, decode d (array_at d order provider) 33 with
          | Some actual, Some ordered =>
              if negb (strcmp_eq actual ordered) || negb (distinct_id d 33 actual ids)
              then (DECK_AI_SNAPSHOT_MALFORMED, ids)
              else providers_loop d providers order generated_at count (S provider) (ids ++ [id])
          | _, _ => (DECK_AI_SNAPSHOT_MALFORMED, ids)
          end
      | result => (result, ids)
      end
  end.

(** The loop over the sessions. *)
Fixpoint sessions_loop (d : Document) (sessions : option nat) (generated_at : Z) (provider_ids : list (option nat))
    (count session : nat) (ids : list (option nat)) : deck_ai_snapshot_result_t :=
  match count with
  | 0%nat => DECK_AI_SNAPSHOT_ACCEPTED
  | S count =>
      let session_node := array_at d sessions session in
      check (validate_session d session_node generated_at provider_ids) (
      let id := field d session_node (literal "session_id") in
      match decode d id 65 with
      | Some actual =>
          require distinct_id d 65 actual ids;
          sessions_loop d sessions generated_at provider_ids count (S session) (ids ++ [id])
      | None => DECK_AI_SNAPSHOT_MALFORMED
      end)
  end.

(** The result and, on acceptance, the metadata. *)
Definition validate_snapshot (d : Document) (root : nat) : deck_ai_snapshot_result_t * deck_ai_snapshot_metadata_t :=
  let stop result := (result, no_metadata) in
  let root := Some root in
  if negb (bool_decide (type (node (nodes d) (index_of d root)) = object)) then stop DECK_AI_SNAPSHOT_MALFORMED
  else if negb (all_required d root snapshot_fields [literal "timezone"]) then stop DECK_AI_SNAPSHOT_MALFORMED
  else
    let '(result, minor) := parse_version d (field d root (literal "schema_version")) in
    let result := check result (object_fields d root minor snapshot_fields) in
    if negb (bool_decide (result = DECK_AI_SNAPSHOT_ACCEPTED)) then stop result
    else
      let timezone := field d root (literal "timezone") in
      match unsigned_between d (field d root (literal "protocol_version")) 1 1,
            parse_canonical_utc d (field d root (literal "generated_at")),
            unsigned_between d (field d root (literal "next_refresh_seconds")) 1 3600 with
      | Some _, Some generated_at, Some next_refresh =>
          if negb (string_equals d (field d root (literal "type")) (literal "snapshot.ai"))
             || negb (is_null d timezone || safe_text d timezone 64)
          then stop DECK_AI_SNAPSHOT_MALFORMED
          else
            let provider_order := field d root (literal "provider_order") in
            let providers := field d root (literal "providers") in
            let sessions := field d root (literal "sessions") in
            let is_array index := bool_decide (type (node (nodes d) (index_of d index)) = array) in
            let provider_count := array_count d providers in
            let session_count := array_count d sessions in
            if negb (is_array provider_order && is_array providers && is_array sessions)
               || (DECK_AI_SNAPSHOT_MAX_PROVIDERS <? provider_count)%nat
               || negb (array_count d provider_order =? provider_count)%nat
               || (DECK_AI_SNAPSHOT_MAX_SESSIONS <? session_count)%nat
            then stop DECK_AI_SNAPSHOT_MALFORMED
            else
              match providers_loop d providers provider_order generated_at provider_count 0 [] with
              | (DECK_AI_SNAPSHOT_ACCEPTED, provider_ids) =>
                  match sessions_loop d sessions generated_at provider_ids session_count 0 [] with
                  | DECK_AI_SNAPSHOT_ACCEPTED =>
                      (DECK_AI_SNAPSHOT_ACCEPTED,
                       {| schema_minor := minor; generated_at_unix_ms := generated_at;
                          provider_count := u8 (Z.of_nat provider_count);
                          session_count := u8 (Z.of_nat session_count);
                          next_refresh_seconds := u32 next_refresh |})
                  | result => stop result
                  end
              | (result, _) => stop result
              end
      | _, _, _ => stop DECK_AI_SNAPSHOT_MALFORMED
      end.

(** [deck_ai_snapshot_validate] with a metadata argument; the allocation of the
    nodes succeeds. *)
Definition deck_ai_snapshot_validate (document : bytes) : deck_ai_snapshot_result_t * deck_ai_snapshot_metadata_t :=
  let size := Z.of_nat (List.length document) in
  if (size =? 0) || (DECK_AI_SNAPSHOT_MAX_BYTES <? size) || negb (valid_utf8 document)
  then (DECK_AI_SNAPSHOT_MALFORMED, no_metadata)
  else
    match parse document kMaximumNodes with
    | Some (root, nodes) =>
        if (List.length nodes =? 0)%nat then (DECK_AI_SNAPSHOT_MALFORMED, no_metadata)
        else
          let parsed := {| text := document; nodes := nodes |} in
          if contains_private_content parsed root then (DECK_AI_SNAPSHOT_PRIVATE_DATA, no_metadata)
          else validate_snapshot parsed root
    | None => (DECK_AI_SNAPSHOT_MALFORMED, no_metadata)
    end.

(** ** The retained snapshot *)

(** [storage] is the caller's array behind [document]; [None] before
    [deck_ai_snapshot_retained_init]. *)
Record deck_ai_snapshot_retained_t := {
  storage : option bytes;
  capacity : Z;
  document_size : Z;
  metadata : deck_ai_snapshot_metadata_t;
  has_snapshot : bool;
}.

(** A storage array that exists; its capacity is its length. *)
Definition deck_ai_snapshot_retained_init (storage : bytes) : option deck_ai_snapshot_retained_t :=
  let storage_capacity := Z.of_nat (List.length storage) in
  if storage_capacity <? DECK_AI_SNAPSHOT_MAX_BYTES then None
  else Some {| storage := Some storage; capacity := storage_capacity; document_size := 0; metadata := no_metadata;
               has_snapshot := false |}.

Definition deck_ai_snapshot_retained_apply (retained : deck_ai_snapshot_retained_t) (document : bytes)
  : deck_ai_snapshot_result_t * deck_ai_snapshot_retained_t :=
  match storage retained with
  | None => (DECK_AI_SNAPSHOT_MALFORMED, retained)
  | Some buffer =>
      if capacity retained <? Z.of_nat (List.length document) then (DECK_AI_SNAPSHOT_MALFORMED, retained)
      else
        match deck_ai_snapshot_validate document with
        | (DECK_AI_SNAPSHOT_ACCEPTED, candidate) =>
            (DECK_AI_SNAPSHOT_ACCEPTED,
             {| storage := Some (write_at buffer 0 document); capacity := capacity retained;
                document_size := Z.of_nat (List.length document); metadata := candidate; has_snapshot := true |})
        | (result, _) => (result, retained)
        end
  end.

(** The document and its metadata. *)
Definition deck_ai_snapshot_retained_current (retained : deck_ai_snapshot_retained_t)
  : option (bytes * deck_ai_snapshot_metadata_t) :=
  if negb (has_snapshot retained) then None
  else Some (take (Z.to_nat (document_size retained)) (default [] (storage retained)), metadata retained).
