(* ===== verification/SnapshotProject.v ===== *)
(** * Projecting an AI snapshot

    The display-safe projections of
    [components/ai_snapshot/deck_ai_snapshot.cpp]: the Codex provider with its
    featured session, and the pages of all providers.  A [char] array is the
    list of its bytes; [None] is [false]. *)

From Stdlib Require Import String.
From S2P Require Import Prelude CString JsonParser SnapshotDocument SnapshotTime SnapshotPrivacy SnapshotValidate.

Definition DECK_AI_SNAPSHOT_DISPLAY_TEXT_CAPACITY : nat := 193.
Definition DECK_AI_SNAPSHOT_WINDOW_NAME_CAPACITY : nat := 25.
Definition DECK_AI_SNAPSHOT_SESSION_ID_CAPACITY : nat := 65.
Definition DECK_AI_SNAPSHOT_TIMEZONE_CAPACITY : nat := 65.
Definition DECK_AI_SNAPSHOT_PROVIDER_ID_CAPACITY : nat := 33.
Definition DECK_AI_SNAPSHOT_CURRENCY_CAPACITY : nat := 4.
Definition DECK_AI_SNAPSHOT_ERROR_CODE_CAPACITY : nat := 24.

Inductive deck_ai_snapshot_provider_status_t :=
  | DECK_AI_SNAPSHOT_PROVIDER_OK
  | DECK_AI_SNAPSHOT_PROVIDER_DEGRADED
  | DECK_AI_SNAPSHOT_PROVIDER_UNAVAILABLE.

Inductive deck_ai_snapshot_confidence_t :=
  | DECK_AI_SNAPSHOT_CONFIDENCE_VERIFIED
  | DECK_AI_SNAPSHOT_CONFIDENCE_INFERRED
  | DECK_AI_SNAPSHOT_CONFIDENCE_UNAVAILABLE.

Inductive deck_ai_snapshot_session_state_t :=
  | DECK_AI_SNAPSHOT_SESSION_RUNNING
  | DECK_AI_SNAPSHOT_SESSION_WAITING_APPROVAL
  | DECK_AI_SNAPSHOT_SESSION_WAITING_INPUT
  | DECK_AI_SNAPSHOT_SESSION_COMPLETED
  | DECK_AI_SNAPSHOT_SESSION_FAILED
  | DECK_AI_SNAPSHOT_SESSION_RECENT
  | DECK_AI_SNAPSHOT_SESSION_ENDED
  | DECK_AI_SNAPSHOT_SESSION_UNKNOWN
  | DECK_AI_SNAPSHOT_SESSION_UNAVAILABLE.

Record deck_ai_snapshot_quota_projection_t := {
  name : bytes;
  has_used_basis_points : bool;
  used_basis_points : Z;
  has_remaining_basis_points : bool;
  remaining_basis_points : Z;
  has_window_minutes : bool;
  window_minutes : Z;
  has_resets_at : bool;
  resets_at_unix_ms : Z;
}.

Record deck_ai_snapshot_session_projection_t := {
  present : bool;
  session_id : bytes;
  has_display_name : bool;
  display_name : bytes;
  state : deck_ai_snapshot_session_state_t;
  confidence : deck_ai_snapshot_confidence_t;
  has_last_activity_at : bool;
  last_activity_at_unix_ms : Z;
  has_duration_seconds : bool;
  duration_seconds : Z;
  has_turn_tokens : bool;
  turn_tokens : Z;
  has_context_used_basis_points : bool;
  context_used_basis_points : Z;
}.

Definition no_session : deck_ai_snapshot_session_projection_t :=
  {| present := false; session_id := pad DECK_AI_SNAPSHOT_SESSION_ID_CAPACITY []; has_display_name := false;
     display_name := pad DECK_AI_SNAPSHOT_DISPLAY_TEXT_CAPACITY []; state := DECK_AI_SNAPSHOT_SESSION_RUNNING;
     confidence := DECK_AI_SNAPSHOT_CONFIDENCE_VERIFIED; has_last_activity_at := false;
     last_activity_at_unix_ms := 0; has_duration_seconds := false; duration_seconds := 0;
     has_turn_tokens := false; turn_tokens := 0; has_context_used_basis_points := false;
     context_used_basis_points := 0 |}.

Record deck_ai_snapshot_codex_projection_t := {
  has_timezone : bool;
  timezone : bytes;
  provider_present : bool;
  provider_display_name : bytes;
  provider_status : deck_ai_snapshot_provider_status_t;
  provider_confidence : deck_ai_snapshot_confidence_t;
  has_provider_updated_at : bool;
  provider_updated_at_unix_ms : Z;
  windows : list deck_ai_snapshot_quota_projection_t;
  has_total_tokens : bool;
  total_tokens : Z;
  codex_session_count : Z;
  featured_session : deck_ai_snapshot_session_projection_t;
}.

#[export] Instance codex_rebuild : Rebuild deck_ai_snapshot_codex_projection_t := fun p =>
  {| has_timezone := has_timezone p; timezone := timezone p; provider_present := provider_present p;
     provider_display_name := provider_display_name p; provider_status := provider_status p;
     provider_confidence := provider_confidence p; has_provider_updated_at := has_provider_updated_at p;
     provider_updated_at_unix_ms := provider_updated_at_unix_ms p; windows := windows p;
     has_total_tokens := has_total_tokens p; total_tokens := total_tokens p;
     codex_session_count := codex_session_count p; featured_session := featured_session p |}.

Definition no_codex : deck_ai_snapshot_codex_projection_t :=
  {| has_timezone := false; timezone := pad DECK_AI_SNAPSHOT_TIMEZONE_CAPACITY []; provider_present := false;
     provider_display_name := pad DECK_AI_SNAPSHOT_DISPLAY_TEXT_CAPACITY [];
     provider_status := DECK_AI_SNAPSHOT_PROVIDER_OK; provider_confidence := DECK_AI_SNAPSHOT_CONFIDENCE_VERIFIED;
     has_provider_updated_at := false; provider_updated_at_unix_ms := 0; windows := [];
     has_total_tokens := false; total_tokens := 0; codex_session_count := 0; featured_session := no_session |}.

Record deck_ai_snapshot_provider_projection_t := {
  page_provider_id : bytes;
  page_display_name : bytes;
  page_status : deck_ai_snapshot_provider_status_t;
  page_confidence : deck_ai_snapshot_confidence_t;
  page_experimental : bool;
  page_has_updated_at : bool;
  page_updated_at_unix_ms : Z;
  page_has_balance : bool;
  page_balance_amount_micros : Z;
  page_balance_currency : bytes;
  page_windows : list deck_ai_snapshot_quota_projection_t;
  page_has_total_tokens : bool;
  page_total_tokens : Z;
  page_has_error : bool;
  page_error_code : bytes;
}.

(** [windows] and [providers] are the entries in use, their counts the
    lengths. *)
Record deck_ai_snapshot_pages_projection_t := {
  pages_has_timezone : bool;
  pages_timezone : bytes;
  providers : list deck_ai_snapshot_provider_projection_t;
}.

Definition no_pages : deck_ai_snapshot_pages_projection_t :=
  {| pages_has_timezone := false; pages_timezone := pad DECK_AI_SNAPSHOT_TIMEZONE_CAPACITY []; providers := [] |}.

(** The first of the names that matches, with its value. *)
Definition by_name {A} (d : Document) (index : option nat) (table : list (bytes * A)) : option A :=
  snd <$> List.find (fun entry => string_equals d index entry.1) table.

Definition project_confidence (d : Document) (index : option nat) : option deck_ai_snapshot_confidence_t :=
  by_name d index
    [(literal "verified", DECK_AI_SNAPSHOT_CONFIDENCE_VERIFIED);
     (literal "inferred", DECK_AI_SNAPSHOT_CONFIDENCE_INFERRED);
     (literal "unavailable", DECK_AI_SNAPSHOT_CONFIDENCE_UNAVAILABLE)].

Definition project_provider_status (d : Document) (index : option nat) : option deck_ai_snapshot_provider_status_t :=
  by_name d index
    [(literal "ok", DECK_AI_SNAPSHOT_PROVIDER_OK);
     (literal "degraded", DECK_AI_SNAPSHOT_PROVIDER_DEGRADED);
     (literal "unavailable", DECK_AI_SNAPSHOT_PROVIDER_UNAVAILABLE)].

Definition project_session_state (d : Document) (index : option nat) : option deck_ai_snapshot_session_state_t :=
  by_name d index
    [(literal "running", DECK_AI_SNAPSHOT_SESSION_RUNNING);
     (literal "waiting_approval", DECK_AI_SNAPSHOT_SESSION_WAITING_APPROVAL);
     (literal "waiting_input", DECK_AI_SNAPSHOT_SESSION_WAITING_INPUT);
     (literal "completed", DECK_AI_SNAPSHOT_SESSION_COMPLETED);
     (literal "failed", DECK_AI_SNAPSHOT_SESSION_FAILED);
     (literal "recent", DECK_AI_SNAPSHOT_SESSION_RECENT);
     (literal "ended", DECK_AI_SNAPSHOT_SESSION_ENDED);
     (literal "unknown", DECK_AI_SNAPSHOT_SESSION_UNKNOWN);
     (literal "unavailable", DECK_AI_SNAPSHOT_SESSION_UNAVAILABLE)].

Definition session_priority (state : deck_ai_snapshot_session_state_t) : Z :=
  match state with
  | DECK_AI_SNAPSHOT_SESSION_WAITING_APPROVAL => 90
  | DECK_AI_SNAPSHOT_SESSION_WAITING_INPUT => 80
  | DECK_AI_SNAPSHOT_SESSION_RUNNING => 70
  | DECK_AI_SNAPSHOT_SESSION_RECENT => 60
  | DECK_AI_SNAPSHOT_SESSION_UNKNOWN => 50
  | DECK_AI_SNAPSHOT_SESSION_FAILED => 40
  | DECK_AI_SNAPSHOT_SESSION_COMPLETED => 30
  | DECK_AI_SNAPSHOT_SESSION_ENDED => 20
  | DECK_AI_SNAPSHOT_SESSION_UNAVAILABLE => 10
  end.

(** A nullable field and its [has_] flag: [value] was reset to 0. *)
Definition has {A} (x : option A) : bool := is_some x.
Definition value_of (x : option Z) : Z := default 0 x.

Definition project_window (d : Document) (index : option nat) : option deck_ai_snapshot_quota_projection_t :=
  name ← decode d (field d index (literal "name")) DECK_AI_SNAPSHOT_WINDOW_NAME_CAPACITY;
  used ← nullable_unsigned d (field d index (literal "used_basis_points")) 0 10000;
  remaining ← nullable_unsigned d (field d index (literal "remaining_basis_points")) 0 10000;
  minutes ← nullable_unsigned d (field d index (literal "window_minutes")) 1 525600;
  resets_at ← nullable_time d (field d index (literal "resets_at")) U64_MAX;
  Some {| name := pad DECK_AI_SNAPSHOT_WINDOW_NAME_CAPACITY name;
          has_used_basis_points := has used; used_basis_points := u16 (value_of used);
          has_remaining_basis_points := has remaining; remaining_basis_points := u16 (value_of remaining);
          has_window_minutes := has minutes; window_minutes := u32 (value_of minutes);
          has_resets_at := has resets_at; resets_at_unix_ms := value_of resets_at |}.

(** A display text that may be null. *)
Definition nullable_text (d : Document) (index : option nat) (capacity : nat) : option (option bytes) :=
  if is_null d index then Some None else text ← decode_utf8 d index capacity; Some (Some text).

Definition project_session (d : Document) (index : option nat) : option deck_ai_snapshot_session_projection_t :=
  id ← decode d (field d index (literal "session_id")) DECK_AI_SNAPSHOT_SESSION_ID_CAPACITY;
  state ← project_session_state d (field d index (literal "state"));
  confidence ← project_confidence d (field d index (literal "confidence"));
  display_name ← nullable_text d (field d index (literal "display_name")) DECK_AI_SNAPSHOT_DISPLAY_TEXT_CAPACITY;
  last_activity_at ← nullable_time d (field d index (literal "last_activity_at")) U64_MAX;
  duration ← nullable_unsigned d (field d index (literal "duration_seconds")) 0 31536000;
  tokens ← nullable_unsigned d (field d index (literal "turn_tokens")) 0 kMaximumSafeInteger;
  context ← nullable_unsigned d (field d index (literal "context_used_basis_points")) 0 10000;
  Some {| present := true; session_id := pad DECK_AI_SNAPSHOT_SESSION_ID_CAPACITY id;
          has_display_name := is_some display_name;
          display_name := pad DECK_AI_SNAPSHOT_DISPLAY_TEXT_CAPACITY (default [] display_name);
          state := state; confidence := confidence;
          has_last_activity_at := has last_activity_at; last_activity_at_unix_ms := value_of last_activity_at;
          has_duration_seconds := has duration; duration_seconds := u32 (value_of duration);
          has_turn_tokens := has tokens; turn_tokens := value_of tokens;
          has_context_used_basis_points := has context; context_used_basis_points := u16 (value_of context) |}.

(** The total of the token object, absent when that is null. *)
Definition project_total (d : Document) (tokens : option nat) : option (option Z) :=
  if is_null d tokens then Some None
  else nullable_unsigned d (field d tokens (literal "total")) 0 kMaximumSafeInteger.

(** The windows, by index.  A validated document has at most four of them, as
    many as the projection holds: the count fits its [uint8_t]. *)
Definition project_windows (d : Document) (windows : option nat) : option (list deck_ai_snapshot_quota_projection_t) :=
  mapM (fun window => project_window d (array_at d windows window)) (seq 0 (array_count d windows)).

Definition project_balance (d : Document) (balance : option nat) : option (option (Z * bytes)) :=
  if is_null d balance then Some None
  else
    amount ← unsigned_between d (field d balance (literal "amount_micros")) 0 kMaximumSafeInteger;
    currency ← decode d (field d balance (literal "currency")) DECK_AI_SNAPSHOT_CURRENCY_CAPACITY;
    Some (Some (amount, currency)).

Definition project_error (d : Document) (problem : option nat) : option (option bytes) :=
  if is_null d problem then Some None
  else code ← decode d (field d problem (literal "code")) DECK_AI_SNAPSHOT_ERROR_CODE_CAPACITY; Some (Some code).

Definition project_provider_page (d : Document) (index : option nat) : option deck_ai_snapshot_provider_projection_t :=
  id ← decode d (field d index (literal "provider_id")) DECK_AI_SNAPSHOT_PROVIDER_ID_CAPACITY;
  display_name ← decode_utf8 d (field d index (literal "display_name")) DECK_AI_SNAPSHOT_DISPLAY_TEXT_CAPACITY;
  status ← project_provider_status d (field d index (literal "status"));
  confidence ← project_confidence d (field d index (literal "confidence"));
  experimental ← boolean_value d (field d index (literal "experimental"));
  updated_at ← nullable_time d (field d index (literal "updated_at")) U64_MAX;
  balance ← project_balance d (field d index (literal "balance"));
  windows ← project_windows d (field d index (literal "windows"));
  total ← project_total d (field d index (literal "tokens"));
  problem ← project_error d (field d index (literal "error"));
  Some {| page_provider_id := pad DECK_AI_SNAPSHOT_PROVIDER_ID_CAPACITY id;
          page_display_name := pad DECK_AI_SNAPSHOT_DISPLAY_TEXT_CAPACITY display_name;
          page_status := status; page_confidence := confidence; page_experimental := experimental;
          page_has_updated_at := has updated_at; page_updated_at_unix_ms := value_of updated_at;
          page_has_balance := is_some balance; page_balance_amount_micros := value_of (fst <$> balance);
          page_balance_currency := pad DECK_AI_SNAPSHOT_CURRENCY_CAPACITY (default [] (snd <$> balance));
          page_windows := windows; page_has_total_tokens := has total; page_total_tokens := value_of total;
          page_has_error := is_some problem;
          page_error_code := pad DECK_AI_SNAPSHOT_ERROR_CODE_CAPACITY (default [] problem) |}.

Definition project_pages (d : Document) (root : nat) : option deck_ai_snapshot_pages_projection_t :=
  timezone ← nullable_text d (field d (Some root) (literal "timezone")) DECK_AI_SNAPSHOT_TIMEZONE_CAPACITY;
  let providers := field d (Some root) (literal "providers") in
  pages ← mapM (fun index => project_provider_page d (array_at d providers index)) (seq 0 (array_count d providers));
  Some {| pages_has_timezone := is_some timezone;
          pages_timezone := pad DECK_AI_SNAPSHOT_TIMEZONE_CAPACITY (default [] timezone); providers := pages |}.

(** [std::strcmp(a, b) < 0], on the bytes before the terminator. *)
Fixpoint bytes_lt (a b : bytes) : bool :=
  match a, b with
  | _, [] => false
  | [], _ :: _ => true
  | x :: a, y :: b => (x <? y) || ((x =? y) && bytes_lt a b)
  end.

Definition strcmp_lt (a b : bytes) : bool := bytes_lt (c_string a) (c_string b).

Definition session_is_better (candidate current : deck_ai_snapshot_session_projection_t) : bool :=
  if negb (present current) then true
  else
    let candidate_priority := session_priority (state candidate) in
    let current_priority := session_priority (state current) in
    if negb (candidate_priority =? current_priority) then current_priority <? candidate_priority
    else if negb (Bool.eqb (has_last_activity_at candidate) (has_last_activity_at current))
    then has_last_activity_at candidate
    else if negb (last_activity_at_unix_ms candidate =? last_activity_at_unix_ms current)
    then last_activity_at_unix_ms current <? last_activity_at_unix_ms candidate
    else strcmp_lt (session_id candidate) (session_id current).

(** The node is the Codex provider, or one of its sessions. *)
Definition is_codex (d : Document) (index : nat) : bool :=
  string_equals d (field d (Some index) (literal "provider_id")) (literal "codex").

(** The loop over the sessions. *)
Fixpoint codex_sessions (d : Document) (sessions : list nat) (session_count : Z)
    (featured : deck_ai_snapshot_session_projection_t) : option (Z * deck_ai_snapshot_session_projection_t) :=
  match sessions with
  | [] => Some (session_count, featured)
  | session :: sessions =>
      if negb (is_codex d session) then codex_sessions d sessions session_count featured
      else if session_count =? U8_MAX then None
      else
        projected ← project_session d (Some session);
        codex_sessions d sessions (session_count + 1)
          (if session_is_better projected featured then projected else featured)
  end.

(** The fields of the provider. *)
Definition codex_provider (d : Document) (provider : option nat) (candidate : deck_ai_snapshot_codex_projection_t)
  : option deck_ai_snapshot_codex_projection_t :=
  display_name ← decode_utf8 d (field d provider (literal "display_name")) DECK_AI_SNAPSHOT_DISPLAY_TEXT_CAPACITY;
  status ← project_provider_status d (field d provider (literal "status"));
  confidence ← project_confidence d (field d provider (literal "confidence"));
  updated_at ← nullable_time d (field d provider (literal "updated_at")) U64_MAX;
  projected ← project_windows d (field d provider (literal "windows"));
  total ← project_total d (field d provider (literal "tokens"));
  Some (candidate <| provider_present := true |>
          <| provider_display_name := pad DECK_AI_SNAPSHOT_DISPLAY_TEXT_CAPACITY display_name |>
          <| provider_status := status |> <| provider_confidence := confidence |>
          <| has_provider_updated_at := has updated_at |> <| provider_updated_at_unix_ms := value_of updated_at |>
          <| windows := projected |> <| has_total_tokens := has total |> <| total_tokens := value_of total |>).

Definition project_codex (d : Document) (root : nat) : option deck_ai_snapshot_codex_projection_t :=
  timezone_text ← nullable_text d (field d (Some root) (literal "timezone")) DECK_AI_SNAPSHOT_TIMEZONE_CAPACITY;
  let candidate := no_codex <| has_timezone := is_some timezone_text |>
    <| timezone := pad DECK_AI_SNAPSHOT_TIMEZONE_CAPACITY (default [] timezone_text) |> in
  match List.find (is_codex d) (children d (field d (Some root) (literal "providers"))) with
  | None => Some candidate
  | Some provider =>
      candidate ← codex_provider d (Some provider) candidate;
      '(count, featured) ← codex_sessions d (children d (field d (Some root) (literal "sessions"))) 0 no_session;
      Some (candidate <| codex_session_count := count |> <| featured_session := featured |>)
  end.

(** Both entry points validate, parse again and project; on failure the
    projection is the empty one. *)
Definition project_document {A} (project : Document -> nat -> option A) (document : bytes) : option A :=
  match deck_ai_snapshot_validate document with
  | (DECK_AI_SNAPSHOT_ACCEPTED, _) =>
      '(root, nodes) ← parse document kMaximumNodes;
      if (List.length nodes =? 0)%nat then None else project {| text := document; nodes := nodes |} root
  | _ => None
  end.

Definition deck_ai_snapshot_project_codex (document : bytes) : bool * deck_ai_snapshot_codex_projection_t :=
  match project_document project_codex document with
  | Some projection => (true, projection)
  | None => (false, no_codex)
  end.

Definition deck_ai_snapshot_project_pages (document : bytes) : bool * deck_ai_snapshot_pages_projection_t :=
  match project_document project_pages document with
  | Some projection => (true, projection)
  | None => (false, no_pages)
  end.
