(* ===== verification/SnapshotSample.v ===== *)
(** * A sample AI snapshot

    The document of [protocol/fixtures/ai-snapshot-v1/valid-full.json] without
    its blanks, with the text of the time zone (a JSON value) and of the
    session's display name left open; the witnesses and the examples of the
    snapshot files evaluate it. *)

From Stdlib Require Import String.
From S2P Require Import Prelude CString.

(** Apostrophes for quotation marks. *)
Definition quoting (s : String.string) : bytes := map (fun c => if c =? 39 then 34 else c) (literal s).

Definition sample_document (timezone display_name : bytes) : bytes :=
  quoting "{'type':'snapshot.ai','protocol_version':1,'schema_version':{'major':1,'minor':0},"
  ++ quoting "'generated_at':'2026-08-13T12:34:56Z','timezone':" ++ timezone
  ++ quoting ",'provider_order':['codex'],'providers':[{'schema_version':{'major':1,'minor':0},"
  ++ quoting "'provider_id':'codex','display_name':'Codex','status':'ok','source':'codex_app_server',"
  ++ quoting "'confidence':'verified','experimental':false,'updated_at':'2026-08-13T12:34:55Z',"
  ++ quoting "'stale_after_seconds':120,'balance':null,'windows':[{'name':'primary',"
  ++ quoting "'used_basis_points':3800,'remaining_basis_points':6200,'window_minutes':300,"
  ++ quoting "'resets_at':'2026-08-13T15:00:00Z'}],'tokens':{'input':120000,'cached_input':45000,"
  ++ quoting "'output':18000,'reasoning':8000,'total':146000},'error':null}],"
  ++ quoting "'sessions':[{'schema_version':{'major':1,'minor':0},'session_id':'ses_7uYwPz0vQ9nJ4kLm',"
  ++ quoting "'provider_id':'codex','display_name':'" ++ display_name
  ++ quoting "','state':'running','source':'codex_app_server_owned','confidence':'verified',"
  ++ quoting "'started_at':'2026-08-13T12:20:00Z','last_activity_at':'2026-08-13T12:34:50Z',"
  ++ quoting "'duration_seconds':890,'turn_tokens':18420,'context_used_basis_points':4100}],"
  ++ quoting "'next_refresh_seconds':5}".

Definition sample : bytes := sample_document (quoting "'Asia/Shanghai'") (literal "Deck development").
