(* ===== verification/SnapshotSpec.v ===== *)
(** * What an accepted AI snapshot guarantees

    Theorems about [deck_ai_snapshot_validate] and the retained snapshot:
    privacy, the schema, and what is retained. *)

From Stdlib Require Import String.
From S2P Require Import Prelude CString Utf8 JsonParser JsonGrammar JsonLayout JsonParserSpec SnapshotDocument SnapshotTime SnapshotPrivacy SnapshotValidate SnapshotSample.

(** ** What acceptance goes through *)

Lemma check_accepted r k :
  check r k = DECK_AI_SNAPSHOT_ACCEPTED <-> r = DECK_AI_SNAPSHOT_ACCEPTED /\ k = DECK_AI_SNAPSHOT_ACCEPTED.
Proof. unfold check. case_bool_decide; split; [tauto|by intros [_ ?]|done|by intros [? _]]. Qed.

Lemma private_or_malformed_not r : private_or_malformed r <> DECK_AI_SNAPSHOT_ACCEPTED.
Proof. unfold private_or_malformed. case_bool_decide; congruence. Qed.

Lemma validate_accepted document metadata :
  deck_ai_snapshot_validate document = (DECK_AI_SNAPSHOT_ACCEPTED, metadata) ->
  Z.of_nat (length document) <= DECK_AI_SNAPSHOT_MAX_BYTES /\ valid_utf8 document = true
  /\ exists nodes t txt, parse document kMaximumNodes = Some (0%nat, nodes)
     /\ parsed_as document kMaximumNodes t txt nodes /\ tree_private t = false
     /\ validate_snapshot {| text := document; nodes := nodes |} 0 = (DECK_AI_SNAPSHOT_ACCEPTED, metadata).
Proof.
  unfold deck_ai_snapshot_validate. destruct (_ || _) eqn:E; [done|]. bool_prop.
  destruct (parse document kMaximumNodes) as [[root nodes]|] eqn:Ep; [|done].
  destruct (parse_parsed_as _ _ _ _ Ep) as (-> & t & txt & Ht).
  destruct (Nat.eqb_spec (length nodes) 0); [done|].
  destruct (contains_private_content _ _) eqn:Epriv; [done|]. intros Hv.
  split; [lia|]. split; [done|]. exists nodes, t, txt. split_and!; try done.
  rewrite <- Epriv. symmetry. destruct Ht as (_ & _ & Htree & _). by eapply contains_private_content_tree.
Qed.

(** ** Privacy *)

Lemma document_strings document w w' txt t :
  document = w ++ txt ++ w' -> json_text t txt -> Forall (fun b => b <> 0) document ->
  Forall (fun raw => string_body raw /\ Forall (fun b => b <> 0) raw) (strings_of t).
Proof.
  intros -> Ht [_ [Hf _]%Forall_app]%Forall_app. by apply (proj1 (strings_of_text (fun b => b <> 0)) t txt Ht).
Qed.

(** C6: An accepted document keeps private content out.  It is valid UTF-8 of
    at most 16 KiB and denotes a tree in which, at any depth, no key becomes a
    private name when its letters are lowered and everything but letters and
    digits is dropped, and no string read as characters opens an absolute path
    at its start, at the start of a word, behind a tilde or behind a drive
    letter, if the document has no NUL byte. *)
Theorem accepted_snapshot_is_private document metadata :
  deck_ai_snapshot_validate document = (DECK_AI_SNAPSHOT_ACCEPTED, metadata) ->
  valid_utf8 document = true /\ Z.of_nat (length document) <= DECK_AI_SNAPSHOT_MAX_BYTES
  /\ exists nodes t txt, parsed_as document kMaximumNodes t txt nodes
     /\ Forall (fun key => exists decoded, decode_key key = Some decoded
                  /\ normalize (c_string decoded) ∉ kPrivate) (keys_of t)
     /\ (Forall (fun b => b <> 0) document ->
         Forall (fun raw => exists cs, reads raw cs /\ ~ names_path cs) (strings_of t)).
Proof.
  intros (Hlen & Hutf & nodes & t & txt & _ & Ht & Hpriv & _)%validate_accepted. split_and!; [done|done|].
  exists nodes, t, txt. split; [done|]. rewrite tree_private_flat in Hpriv. apply orb_false_iff in Hpriv as [Hk Hs].
  apply existsb_false in Hk, Hs. split.
  - eapply Forall_impl; [exact Hk|]. intros key Hkey. cbn beta in *. unfold private_key in Hkey.
    destruct (decode_key key) as [x|]; [|done]. exists x. split; [done|]. intros Hin.
    unfold private_name in Hkey. apply existsb_false in Hkey. rewrite Forall_forall in Hkey.
    specialize (Hkey _ Hin). unfold strcmp_eq in Hkey. by rewrite bool_decide_eq_true_2 in Hkey.
  - intros Hnul. destruct Ht as ((w & w' & Hdoc & _) & Htxt & _).
    pose proof (document_strings _ _ _ _ _ Hdoc Htxt Hnul) as Hb. apply Forall_forall. intros raw Hin.
    rewrite Forall_forall in Hb, Hs. destruct (Hb raw Hin) as [Hbody Hnz].
    destruct (string_body_reads raw Hbody Hnz) as [cs Hcs]. exists cs. split; [done|]. intros Hpath.
    specialize (Hs raw Hin). cbn beta in Hs. rewrite (proj2 (absolute_path_spec raw)) in Hs; [done|].
    by rewrite (reads_path_characters _ _ _ Hcs).
Qed.

Lemma sample_accepted : exists metadata, deck_ai_snapshot_validate sample = (DECK_AI_SNAPSHOT_ACCEPTED, metadata).
Proof. eexists. vm_compute. reflexivity. Defined.

Lemma accepted_snapshot_is_private_witness :
  exists metadata, deck_ai_snapshot_validate sample = (DECK_AI_SNAPSHOT_ACCEPTED, metadata)
    /\ valid_utf8 sample = true /\ Z.of_nat (length sample) <= DECK_AI_SNAPSHOT_MAX_BYTES
    /\ exists nodes t txt, parsed_as sample kMaximumNodes t txt nodes
       /\ Forall (fun key => exists decoded, decode_key key = Some decoded
                    /\ normalize (c_string decoded) ∉ kPrivate) (keys_of t)
       /\ (Forall (fun b => b <> 0) sample ->
           Forall (fun raw => exists cs, reads raw cs /\ ~ names_path cs) (strings_of t)).
Proof.
  destruct sample_accepted as [metadata Hm]. exists metadata. split; [exact Hm|].
  by apply (accepted_snapshot_is_private sample metadata).
Defined.

(** An escaped NUL byte ends the path check early: the document holds the path
    of a file behind it and is accepted. *)
Lemma path_behind_nul_accepted :
  let document := sample_document (literal "null") ([92; 0] ++ literal "/etc/passwd") in
  (deck_ai_snapshot_validate document).1 = DECK_AI_SNAPSHOT_ACCEPTED
  /\ (deck_ai_snapshot_validate (sample_document (literal "null") (literal "/etc/passwd"))).1
     = DECK_AI_SNAPSHOT_PRIVATE_DATA.
Proof. vm_compute. done. Qed.

(** ** The retained snapshot *)

(** The applies of a run, in order, and the snapshot they leave. *)
Definition apply_all (retained : deck_ai_snapshot_retained_t) (documents : list bytes) : deck_ai_snapshot_retained_t :=
  fold_left (fun r document => (deck_ai_snapshot_retained_apply r document).2) documents retained.

(** The abstract state: the last document that was accepted, with the metadata
    of its validation. *)
Definition last_accepted (capacity : Z) (documents : list bytes) : option (bytes * deck_ai_snapshot_metadata_t) :=
  fold_left (fun kept document =>
    match deck_ai_snapshot_validate document with
    | (DECK_AI_SNAPSHOT_ACCEPTED, metadata) =>
        if capacity <? Z.of_nat (length document) then kept else Some (document, metadata)
    | _ => kept
    end) documents None.

(** The retained record holds the abstract state. *)
Definition retains (retained : deck_ai_snapshot_retained_t) (kept : option (bytes * deck_ai_snapshot_metadata_t)) : Prop :=
  (exists buffer, storage retained = Some buffer /\ Z.of_nat (length buffer) = capacity retained)
  /\ deck_ai_snapshot_retained_current retained = kept.

Lemma retained_init_retains buffer retained :
  deck_ai_snapshot_retained_init buffer = Some retained ->
  retains retained None /\ capacity retained = Z.of_nat (length buffer).
Proof.
  unfold deck_ai_snapshot_retained_init. case_match; [done|]. intros [= <-]. split; [|done].
  split; [by exists buffer|done].
Qed.

Lemma retained_apply_retains retained kept document :
  retains retained kept ->
  let '(result, retained') := deck_ai_snapshot_retained_apply retained document in
  capacity retained' = capacity retained
  /\ retains retained'
       (match deck_ai_snapshot_validate document with
        | (DECK_AI_SNAPSHOT_ACCEPTED, metadata) =>
            if capacity retained <? Z.of_nat (length document) then kept else Some (document, metadata)
        | _ => kept
        end)
  /\ (result <> DECK_AI_SNAPSHOT_ACCEPTED -> retained' = retained).
Proof.
  intros [(buffer & Hs & Hl) Hc]. unfold deck_ai_snapshot_retained_apply. rewrite Hs.
  destruct (Z.ltb_spec (capacity retained) (Z.of_nat (length document))) as [Hlt|Hge].
  { split_and!; [done| |done]. destruct (deck_ai_snapshot_validate document) as [[] m]; by (split; [exists buffer|]). }
  destruct (deck_ai_snapshot_validate document) as [r m].
  destruct r; cbn [capacity]; split_and!; try done; try by (split; [exists buffer|]).
  split.
  - exists (write_at buffer 0 document). split; [done|]. cbn [capacity]. rewrite length_write_at by lia. done.
  - unfold deck_ai_snapshot_retained_current. cbn [has_snapshot negb document_size storage default metadata].
    rewrite Nat2Z.id. f_equal. f_equal.
    pose proof (write_at_prefix buffer 0 document ltac:(lia)) as Hp. simpl in Hp. exact Hp.
Qed.

(** C26: The retained snapshot is the last accepted document.  From storage of
    at least 16 KiB, whatever documents are applied, [current] then yields
    byte for byte the last one that was accepted, with the metadata of its
    own validation, and nothing before the first; a document that is refused
    leaves the retained snapshot exactly as it was. *)
Theorem retained_is_last_accepted buffer retained documents document :
  deck_ai_snapshot_retained_init buffer = Some retained ->
  deck_ai_snapshot_retained_current (apply_all retained documents)
    = last_accepted (Z.of_nat (length buffer)) documents
  /\ (let '(result, after) := deck_ai_snapshot_retained_apply (apply_all retained documents) document in
      result <> DECK_AI_SNAPSHOT_ACCEPTED -> after = apply_all retained documents).
Proof.
  intros Hinit. apply retained_init_retains in Hinit as [Hr Hcap].
  assert (retains (apply_all retained documents) (last_accepted (Z.of_nat (length buffer)) documents)
    /\ capacity (apply_all retained documents) = Z.of_nat (length buffer)) as [Hall Hcap'].
  { unfold apply_all, last_accepted. revert Hr Hcap. generalize (@None (bytes * deck_ai_snapshot_metadata_t)).
    revert retained. induction documents as [|doc documents IH]; intros retained kept Hr Hcap; [done|].
    cbn [fold_left]. pose proof (retained_apply_retains retained kept doc Hr) as Hstep.
    destruct (deck_ai_snapshot_retained_apply retained doc) as [result after]. destruct Hstep as (Hc & Hr' & _).
    rewrite Hcap in Hr', Hc. by apply IH. }
  split; [apply Hall|].
  pose proof (retained_apply_retains _ _ document Hall) as Hstep.
  destruct (deck_ai_snapshot_retained_apply _ document) as [result after]. by destruct Hstep as (_ & _ & ?).
Qed.

Lemma retained_is_last_accepted_witness :
  let buffer := replicate (Z.to_nat 16384) 0 in
  exists retained, deck_ai_snapshot_retained_init buffer = Some retained
    /\ deck_ai_snapshot_retained_current (apply_all retained [sample; []])
       = last_accepted (Z.of_nat (length buffer)) [sample; []]
    /\ (let '(result, after) := deck_ai_snapshot_retained_apply (apply_all retained [sample; []]) [123] in
        result <> DECK_AI_SNAPSHOT_ACCEPTED -> after = apply_all retained [sample; []]).
Proof.
  intros buffer. assert (exists retained, deck_ai_snapshot_retained_init buffer = Some retained) as [retained Hr]
    by (eexists; vm_compute; reflexivity).
  exists retained. split; [exact Hr|]. apply (retained_is_last_accepted buffer retained [sample; []] [123] Hr).
Defined.

(** ** The schema *)

(** The identifier a node spells, in a buffer of [capacity] bytes. *)
Definition identifier (d : Document) (index : option nat) (capacity : nat) : option bytes :=
  c_string <$> decode d index capacity.

(** A nullable time that is not after [limit]. *)
Definition not_after (d : Document) (index : option nat) (limit : Z) : Prop :=
  exists t, nullable_time d index limit = Some t /\ (forall x, t = Some x -> x <= limit).

Lemma nullable_time_not_after d index limit :
  is_some (nullable_time d index limit) = true -> not_after d index limit.
Proof.
  unfold is_some, not_after. intros [t Ht]%bool_decide_eq_true. exists t. split; [done|].
  intros x ->. revert Ht. unfold nullable_time. destruct index; [|done]. destruct (is_null _ _); [done|].
  destruct (parse_canonical_utc _ _) as [p|]; [|done]. cbn [mbind option_bind].
  destruct (Z.ltb_spec limit p); [done|]. by intros [= ->].
Qed.

Lemma distinct_id_spec d capacity actual previous ids :
  Forall2 (fun p id => identifier d p capacity = Some id) previous ids ->
  distinct_id d capacity actual previous = true -> c_string actual ∉ ids.
Proof.
  induction 1 as [|p id previous ids Hp _ IH]; intros Hd; [by apply not_elem_of_nil|].
  unfold distinct_id in Hd. cbn [forallb] in Hd. apply andb_true_iff in Hd as [Hx Hd].
  apply not_elem_of_cons. split; [|by apply IH]. unfold identifier in Hp.
  destruct (decode d p capacity) as [x|]; [|done]. injection Hp as <-.
  unfold strcmp_eq in Hx. bool_prop. done.
Qed.

(** What the loop over the providers has made sure of. *)
Lemma providers_loop_spec d providers order generated count provider ids pids ids' :
  providers_loop d providers order generated count provider ids = (DECK_AI_SNAPSHOT_ACCEPTED, ids') ->
  Forall2 (fun p id => identifier d p 33 = Some id) ids pids -> NoDup pids ->
  exists more, Forall2 (fun p id => identifier d p 33 = Some id) ids' (pids ++ more) /\ NoDup (pids ++ more)
    /\ Forall2 (fun k id =>
         validate_provider d (array_at d providers k) generated = DECK_AI_SNAPSHOT_ACCEPTED
         /\ identifier d (field d (array_at d providers k) (literal "provider_id")) 33 = Some id
         /\ identifier d (array_at d order k) 33 = Some id) (seq provider count) more.
Proof.
  induction count as [|count IH] in provider, ids, pids |- *; cbn [providers_loop seq]; intros Hl Hids Hnd.
  - injection Hl as <-. exists []. rewrite app_nil_r. split_and!; [done..|constructor].
  - destruct (validate_provider _ _ _) eqn:Hv; try done.
    destruct (decode d (field d (array_at d providers provider) _) 33) as [actual|] eqn:Ha; [|done].
    destruct (decode d (array_at d order provider) 33) as [ordered|] eqn:Ho; [|done].
    destruct (_ || _) eqn:E; [done|]. bool_prop.
    match goal with H : strcmp_eq _ _ = true |- _ => unfold strcmp_eq in H end. bool_prop.
    match goal with H : distinct_id _ _ _ _ = true |- _ => apply (distinct_id_spec _ _ _ _ _ Hids) in H as Hnew end.
    destruct (IH _ _ (pids ++ [c_string actual]) Hl) as (more & Hids' & Hnd' & Hmore).
    + apply Forall2_app; [done|]. constructor; [|constructor]. unfold identifier. by rewrite Ha.
    + apply NoDup_app. split_and!; [done| |apply NoDup_singleton].
      intros x Hx ->%list_elem_of_singleton. done.
    + exists (c_string actual :: more). rewrite <- app_assoc in Hids', Hnd'. split_and!; [done|done|].
      constructor; [|done]. unfold identifier. rewrite Ha, Ho. split_and!; [done|done|]. simpl. congruence.
Qed.

Lemma sessions_loop_spec d sessions generated pids count session ids sids :
  sessions_loop d sessions generated pids count session ids = DECK_AI_SNAPSHOT_ACCEPTED ->
  Forall2 (fun p id => identifier d p 65 = Some id) ids sids -> NoDup sids ->
  exists more, NoDup (sids ++ more)
    /\ Forall2 (fun k id =>
         validate_session d (array_at d sessions k) generated pids = DECK_AI_SNAPSHOT_ACCEPTED
         /\ identifier d (field d (array_at d sessions k) (literal "session_id")) 65 = Some id) (seq session count) more.
Proof.
  induction count as [|count IH] in session, ids, sids |- *; cbn [sessions_loop seq]; intros Hl Hids Hnd.
  - exists []. rewrite app_nil_r. split; [done|constructor].
  - apply check_accepted in Hl as [Hv Hl].
    destruct (decode d (field d (array_at d sessions session) _) 65) as [actual|] eqn:Ha; [|done].
    destruct (distinct_id _ _ _ _) eqn:Hd; [|done]. apply (distinct_id_spec _ _ _ _ _ Hids) in Hd as Hnew.
    destruct (IH _ _ (sids ++ [c_string actual]) Hl) as (more & Hnd' & Hmore).
    + apply Forall2_app; [done|]. constructor; [|constructor]. unfold identifier. by rewrite Ha.
    + apply NoDup_app. split_and!; [done| |apply NoDup_singleton].
      intros x Hx ->%list_elem_of_singleton. done.
    + exists (c_string actual :: more). rewrite <- app_assoc in Hnd'. split; [done|].
      constructor; [|done]. unfold identifier. rewrite Ha. done.
Qed.

Lemma require_accepted (c : bool) k :
  (require c; k) = DECK_AI_SNAPSHOT_ACCEPTED <-> c = true /\ k = DECK_AI_SNAPSHOT_ACCEPTED.
Proof. destruct c; split; [by split|by intros [_ ?]|done|by intros [? _]]. Qed.

(** The guards an accepted object has passed. *)
Ltac accepted H :=
  repeat first
    [ rewrite check_accepted in H | rewrite require_accepted in H
    | match type of H with _ /\ _ => let H' := fresh "Ha" in destruct H as [H' H] end
    | progress cbv zeta in H ].

(** A provider's times and a session's are not in the future; a session that
    has both did not end before it started. *)
Definition provider_times (d : Document) (generated : Z) (provider : option nat) : Prop :=
  not_after d (field d provider (literal "updated_at")) generated.

Definition session_times (d : Document) (generated : Z) (session : option nat) : Prop :=
  exists started last,
    nullable_time d (field d session (literal "started_at")) generated = Some started
    /\ nullable_time d (field d session (literal "last_activity_at")) generated = Some last
    /\ (forall s l, started = Some s -> last = Some l -> s <= l).

Lemma provider_accepted d provider generated :
  validate_provider d provider generated = DECK_AI_SNAPSHOT_ACCEPTED -> provider_times d generated provider.
Proof.
  unfold validate_provider. destruct (parse_version _ _) as [r minor]. intros H. accepted H.
  apply nullable_time_not_after. by bool_prop.
Qed.

Lemma session_accepted d session generated provider_ids pids :
  validate_session d session generated provider_ids = DECK_AI_SNAPSHOT_ACCEPTED ->
  Forall2 (fun p id => identifier d p 33 = Some id) provider_ids pids ->
  session_times d generated session
  /\ exists id, identifier d (field d session (literal "provider_id")) 33 = Some id /\ id ∈ pids.
Proof.
  unfold validate_session. destruct (parse_version _ _) as [r minor]. intros H Hids. accepted H. split.
  - destruct (nullable_time d (field d session (literal "started_at")) generated) as [s|] eqn:Es; [|done].
    destruct (nullable_time d (field d session (literal "last_activity_at")) generated) as [l|] eqn:El; [|done].
    destruct (nullable_unsigned d (field d session (literal "duration_seconds")) 0 31536000); [|discriminate H].
    destruct (nullable_unsigned d (field d session (literal "turn_tokens")) 0 kMaximumSafeInteger); [|discriminate H].
    destruct (nullable_unsigned d (field d session (literal "context_used_basis_points")) 0 10000); [|discriminate H].
    exists s, l. split_and!; [done|done|]. intros s' l' -> ->.
    match type of H with (if ?b then _ else _) = _ => destruct b eqn:E; [|done] end. by bool_prop.
  - match goal with Hx : existsb _ provider_ids = true |- _ =>
      apply existsb_exists in Hx as (p & Hin & Hsame) end.
    unfold same_id in Hsame.
    destruct (decode d (field d session _) 33) as [a|] eqn:Ea; [|done].
    destruct (decode d p 33) as [b|] eqn:Eb; [|done]. unfold strcmp_eq in Hsame. bool_prop.
    exists (c_string a). split; [unfold identifier; by rewrite Ea|].
    apply list_elem_of_In in Hin. apply list_elem_of_lookup in Hin as [i Hi].
    destruct (Forall2_lookup_l _ _ _ _ _ Hids Hi) as (id & Hid & Heq).
    unfold identifier in Heq. rewrite Eb in Heq. injection Heq as <-. rewrite Hsame.
    by eapply list_elem_of_lookup_2.
Qed.

Lemma children_seq d index :
  array_count d index = length (children d index) \/ array_count d index = 0%nat.
Proof. unfold array_count. destruct (negb _); [by right|by left]. Qed.

(** What an accepted document says, in the names of its fields. *)
Record schema (d : Document) (m : deck_ai_snapshot_metadata_t) : Prop := {
  schema_generated : parse_canonical_utc d (field d (Some 0%nat) (literal "generated_at")) = Some (generated_at_unix_ms m);
  schema_minor_range : 0 <= schema_minor m <= U16_MAX;
  schema_refresh : 1 <= next_refresh_seconds m <= 3600;
  schema_providers :
    let providers := field d (Some 0%nat) (literal "providers") in
    let order := field d (Some 0%nat) (literal "provider_order") in
    let sessions := field d (Some 0%nat) (literal "sessions") in
    exists pids sids,
      (** Up to eight providers with distinct identifiers, in the announced order. *)
      provider_count m = Z.of_nat (length pids) /\ (length pids <= 8)%nat /\ NoDup pids
      /\ Forall2 (fun k id => identifier d (field d (array_at d providers k) (literal "provider_id")) 33 = Some id
            /\ identifier d (array_at d order k) 33 = Some id
            /\ provider_times d (generated_at_unix_ms m) (array_at d providers k)) (seq 0 (length pids)) pids
      (** Up to sixteen sessions with distinct identifiers, each of one of the providers. *)
      /\ session_count m = Z.of_nat (length sids) /\ (length sids <= 16)%nat /\ NoDup sids
      /\ Forall2 (fun k id => identifier d (field d (array_at d sessions k) (literal "session_id")) 65 = Some id
            /\ session_times d (generated_at_unix_ms m) (array_at d sessions k)
            /\ exists pid, identifier d (field d (array_at d sessions k) (literal "provider_id")) 33 = Some pid
                 /\ pid ∈ pids) (seq 0 (length sids)) sids;
}.

Lemma unsigned_between_range d index minimum maximum x :
  unsigned_between d index minimum maximum = Some x -> minimum <= x <= maximum.
Proof.
  unfold unsigned_between. case_bool_decide; [done|]. destruct (unsigned_integer _ _) as [v|]; [|done].
  cbn [mbind option_bind]. destruct (_ || _) eqn:E; [done|]. intros [= <-]. bool_prop. lia.
Qed.

Lemma parse_version_minor d index : 0 <= (parse_version d index).2 <= U16_MAX.
Proof.
  unfold parse_version. pose proof (fun x => u16_range x) as Hu. unfold is_u16 in Hu.
  repeat case_match; simpl; try lia; apply Hu.
Qed.

(** What [validate_snapshot] has gone through. *)
Record passed (d : Document) (m : deck_ai_snapshot_metadata_t) (ids : list (option nat)) : Prop := {
  passed_generated : parse_canonical_utc d (field d (Some 0%nat) (literal "generated_at")) = Some (generated_at_unix_ms m);
  passed_minor : 0 <= schema_minor m <= U16_MAX;
  passed_refresh : 1 <= next_refresh_seconds m <= 3600;
  passed_timezone :
    let timezone := field d (Some 0%nat) (literal "timezone") in is_null d timezone || safe_text d timezone 64 = true;
  passed_arrays :
    let arrays := [field d (Some 0%nat) (literal "providers"); field d (Some 0%nat) (literal "sessions")] in
    Forall (fun index => type (node (nodes d) (index_of d index)) = array) arrays;
  passed_counts :
    (array_count d (field d (Some 0%nat) (literal "providers")) <= DECK_AI_SNAPSHOT_MAX_PROVIDERS)%nat
    /\ (array_count d (field d (Some 0%nat) (literal "sessions")) <= DECK_AI_SNAPSHOT_MAX_SESSIONS)%nat;
  passed_metadata :
    provider_count m = u8 (Z.of_nat (array_count d (field d (Some 0%nat) (literal "providers"))))
    /\ session_count m = u8 (Z.of_nat (array_count d (field d (Some 0%nat) (literal "sessions"))));
  passed_providers :
    let providers := field d (Some 0%nat) (literal "providers") in
    providers_loop d providers (field d (Some 0%nat) (literal "provider_order")) (generated_at_unix_ms m)
      (array_count d providers) 0 [] = (DECK_AI_SNAPSHOT_ACCEPTED, ids);
  passed_sessions :
    let sessions := field d (Some 0%nat) (literal "sessions") in
    sessions_loop d sessions (generated_at_unix_ms m) ids (array_count d sessions) 0 [] = DECK_AI_SNAPSHOT_ACCEPTED;
}.

Lemma validate_snapshot_passed d m :
  validate_snapshot d 0 = (DECK_AI_SNAPSHOT_ACCEPTED, m) -> exists ids, passed d m ids.
Proof.
  unfold validate_snapshot. cbv zeta. destruct (negb (bool_decide _)); [done|].
  destruct (negb (all_required _ _ _ _)); [done|].
  destruct (parse_version d _) as [r minor] eqn:Ever.
  destruct (negb _) eqn:Eresult; [bool_prop; by intros [= ? _]|].
  destruct (unsigned_between _ _ 1 1) as [pv|]; [|done].
  destruct (parse_canonical_utc _ _) as [generated|] eqn:Egen; [|done].
  destruct (unsigned_between _ _ 1 3600) as [refresh|] eqn:Eref; [|done].
  destruct (negb (string_equals _ _ _) || _) eqn:Etz; [done|].
  match goal with |- (if ?b then _ else _) = _ -> _ => destruct b eqn:Ec; [done|] end. bool_prop.
  destruct (providers_loop _ _ _ _ _ _ _) as [r1 ids] eqn:Ep. destruct r1; try done.
  destruct (sessions_loop _ _ _ _ _ _ _) eqn:Es; try done. intros [= <-]. exists ids.
  apply unsigned_between_range in Eref.
  pose proof (parse_version_minor d (field d (Some 0%nat) (literal "schema_version"))) as Hminor. rewrite Ever in Hminor.
  split; cbn [generated_at_unix_ms schema_minor next_refresh_seconds provider_count session_count]; try done.
  - rewrite u32_id by (unfold is_u32; lia). done.
  - by repeat constructor.
Qed.

Lemma validate_snapshot_schema d m :
  validate_snapshot d 0 = (DECK_AI_SNAPSHOT_ACCEPTED, m) -> schema d m.
Proof.
  intros [ids [Hgen Hmin Href _ _ [Hcp Hcs] [Hmp Hms] Hp Hs]]%validate_snapshot_passed. cbv zeta in *.
  unfold DECK_AI_SNAPSHOT_MAX_PROVIDERS, DECK_AI_SNAPSHOT_MAX_SESSIONS in *.
  apply (providers_loop_spec _ _ _ _ _ _ _ []) in Hp as (pids & Hids & Hnd & Hp); [|constructor|constructor].
  apply (sessions_loop_spec _ _ _ _ _ _ _ []) in Hs as (sids & Hnds & Hs); [|constructor|constructor].
  cbn [app] in *. pose proof (Forall2_length _ _ _ Hp) as Hlp. pose proof (Forall2_length _ _ _ Hs) as Hls.
  rewrite length_seq in Hlp, Hls. rewrite u8_id in Hmp, Hms by (unfold is_u8; lia).
  split; try done. exists pids, sids. rewrite <- Hlp, <- Hls. split_and!; try done.
  - eapply Forall2_impl; [exact Hp|]. intros k id (Hv & ? & ?). split_and!; try done. by eapply provider_accepted.
  - eapply Forall2_impl; [exact Hs|]. intros k id (Hv & ?).
    destruct (session_accepted _ _ _ _ _ Hv Hids) as [? ?]. done.
Qed.

(** C10: An accepted document meets the schema.  It is a parsed object whose
    generation time, schema minor and refresh interval (1 to 3600 seconds) are
    those of the metadata; it has at most eight providers with pairwise
    distinct identifiers, listed in the order [provider_order] announces, and
    at most sixteen sessions with pairwise distinct identifiers, each of one of
    these providers; the counts of the metadata are these; and no update,
    start or activity lies after the generation, nor an activity before its
    start. *)
Theorem accepted_snapshot_schema document metadata :
  deck_ai_snapshot_validate document = (DECK_AI_SNAPSHOT_ACCEPTED, metadata) ->
  exists nodes, parse document kMaximumNodes = Some (0%nat, nodes)
    /\ schema {| text := document; nodes := nodes |} metadata.
Proof.
  intros (_ & _ & nodes & t & txt & Hp & _ & _ & Hv)%validate_accepted. exists nodes.
  split; [done|]. by apply validate_snapshot_schema.
Qed.

Lemma accepted_snapshot_schema_witness :
  exists metadata nodes, parse sample kMaximumNodes = Some (0%nat, nodes)
    /\ schema {| text := sample; nodes := nodes |} metadata.
Proof.
  destruct sample_accepted as [metadata Hm]. exists metadata. by apply (accepted_snapshot_schema sample metadata).
Defined.
