(* ===== verification/SnapshotProjectSpec.v ===== *)
(** * What the projections show

    The featured session is the best of the Codex sessions, and an accepted
    document whose texts hold no NUL and fit projects. *)

From Stdlib Require Import String.
From S2P Require Import Prelude Codec CString Utf8 JsonParser JsonGrammar JsonLayout SnapshotDocument SnapshotTime SnapshotPrivacy SnapshotValidate SnapshotProject SnapshotSample SnapshotSpec.

(** ** The order of sessions *)

Lemma bytes_lt_trans a b c : bytes_lt a b = true -> bytes_lt b c = true -> bytes_lt a c = true.
Proof.
  revert b c. induction a as [|x a IH]; intros [|y b] [|z c]; simpl; try done.
  rewrite !orb_true_iff, !andb_true_iff, !Z.ltb_lt, !Z.eqb_eq.
  intros [?|[-> ?]] [?|[-> ?]]; [left; lia|left; lia|left; lia|right]. split; [done|by eapply IH].
Qed.

Lemma bytes_lt_irrefl a : bytes_lt a a = false.
Proof. induction a as [|x a IH]; simpl; [done|]. by rewrite Z.ltb_irrefl, Z.eqb_refl, IH. Qed.

Lemma bytes_lt_total a b : bytes_lt a b = false -> bytes_lt b a = false -> a = b.
Proof.
  revert b. induction a as [|x a IH]; intros [|y b]; simpl; try done.
  rewrite !orb_false_iff, !andb_false_iff, !Z.ltb_ge, !Z.eqb_neq.
  intros [? [?|?]] [? [?|?]]; try lia. assert (x = y) as -> by lia. f_equal. by apply IH.
Qed.

(** [session_is_better] between sessions that are present, as propositions. *)
Definition better (a b : deck_ai_snapshot_session_projection_t) : Prop :=
  session_priority (state b) < session_priority (state a)
  \/ (session_priority (state a) = session_priority (state b)
      /\ ((has_last_activity_at a = true /\ has_last_activity_at b = false)
          \/ (has_last_activity_at a = has_last_activity_at b
              /\ (last_activity_at_unix_ms b < last_activity_at_unix_ms a
                  \/ (last_activity_at_unix_ms a = last_activity_at_unix_ms b
                      /\ strcmp_lt (session_id a) (session_id b) = true))))).

Lemma session_is_better_spec a b :
  present b = true -> session_is_better a b = true <-> better a b.
Proof.
  intros Hb. unfold session_is_better, better. rewrite Hb. cbn [negb].
  destruct (Z.eqb_spec (session_priority (state a)) (session_priority (state b))) as [->|Hp]; cbn [negb].
  2: { rewrite Z.ltb_lt. split; [by left|]. intros [?|[? _]]; [done|lia]. }
  assert (~ session_priority (state b) < session_priority (state b)) as Hirr by lia.
  destruct (has_last_activity_at a), (has_last_activity_at b); cbn [negb Bool.eqb].
  1, 4: destruct (Z.eqb_spec (last_activity_at_unix_ms a) (last_activity_at_unix_ms b)) as [E|Ht]; cbn [negb].
  - split; [intros ?; right; split; [done|]; right; split; [done|]; right; by split|].
    intros [?|[_ [[? ?]|[_ [?|[_ ?]]]]]]; first [done|lia].
  - rewrite Z.ltb_lt. split; [intros ?; right; split; [done|]; right; split; [done|]; by left|].
    intros [?|[_ [[? ?]|[_ [?|[? _]]]]]]; first [done|lia].
  - split; [intros ?; right; split; [done|]; right; split; [done|]; right; by split|].
    intros [?|[_ [[? ?]|[_ [?|[_ ?]]]]]]; first [done|lia].
  - rewrite Z.ltb_lt. split; [intros ?; right; split; [done|]; right; split; [done|]; by left|].
    intros [?|[_ [[? ?]|[_ [?|[? _]]]]]]; first [done|lia].
  - split; [|done]. intros _. right. split; [done|]. by left.
  - split; [done|]. intros [?|[_ [[? _]|[? _]]]]; try done; lia.
Qed.

Lemma better_trans a b c : better a b -> better b c -> better a c.
Proof.
  unfold better. intros [?|[E1 H1]] [?|[E2 H2]]; [left; lia|left; lia|left; lia|right; split; [lia|]].
  destruct H1 as [[H1 H1']|[H1 H1']], H2 as [[H2 H2']|[H2 H2']]; try congruence.
  - left. split; congruence.
  - left. split; congruence.
  - right. split; [congruence|]. destruct H1' as [?|[? L1]], H2' as [?|[? L2]]; [left; lia|left; lia|left; lia|right].
    split; [lia|]. unfold strcmp_lt in *. by eapply bytes_lt_trans.
Qed.

Lemma better_irrefl a : ~ better a a.
Proof.
  unfold better, strcmp_lt. rewrite bytes_lt_irrefl. intros [?|[_ [[? ?]|[_ [?|[_ ?]]]]]]; try lia; congruence.
Qed.

Lemma better_total a b : c_string (session_id a) <> c_string (session_id b) -> better a b \/ better b a.
Proof.
  intros Hid. unfold better.
  destruct (Z.lt_trichotomy (session_priority (state a)) (session_priority (state b))) as [?|[E|?]]; [by right; left| |by left; left].
  destruct (has_last_activity_at a) eqn:Ha, (has_last_activity_at b) eqn:Hb.
  2: left; right; split; [done|by left].
  2: right; right; split; [done|by left].
  1, 2: destruct (Z.lt_trichotomy (last_activity_at_unix_ms a) (last_activity_at_unix_ms b)) as [?|[E'|?]];
    [right; right; split; [done|]; right; split; [done|by left] | |left; right; split; [done|]; right; split; [done|by left]];
    destruct (strcmp_lt (session_id a) (session_id b)) eqn:L1;
    [left; right; split; [done|]; right; split; [done|]; right; by split|];
    destruct (strcmp_lt (session_id b) (session_id a)) eqn:L2;
    [right; right; split; [done|]; right; split; [done|]; right; by split|];
    exfalso; apply Hid; by apply bytes_lt_total.
Qed.

(** ** The featured session *)

Lemma project_session_present d index p : project_session d index = Some p -> present p = true.
Proof.
  unfold project_session. intros H.
  repeat (apply bind_Some in H as (? & _ & H)). by injection H as <-.
Qed.

(** [featured] is the best of the sessions [seen] so far. *)
Definition best_of (featured : deck_ai_snapshot_session_projection_t)
    (seen : list deck_ai_snapshot_session_projection_t) : Prop :=
  match seen with
  | [] => featured = no_session
  | _ => featured ∈ seen /\ Forall (fun p => ~ better p featured) seen
  end.

Lemma best_of_snoc featured seen p :
  Forall (fun p => present p = true) (seen ++ [p]) -> best_of featured seen ->
  best_of (if session_is_better p featured then p else featured) (seen ++ [p]).
Proof.
  intros Hpres Hbest. destruct seen as [|q seen].
  - simpl in Hbest. subst featured. simpl. split; [by left|]. constructor; [apply better_irrefl|constructor].
  - destruct Hbest as [Hin Hbest]. assert (present featured = true) as Hf.
    { rewrite Forall_forall in Hpres. apply Hpres. apply elem_of_app. by left. }
    assert (best_of (if session_is_better p featured then p else featured) ((q :: seen) ++ [p])
      <-> (if session_is_better p featured then p else featured) ∈ (q :: seen) ++ [p]
          /\ Forall (fun x => ~ better x (if session_is_better p featured then p else featured)) ((q :: seen) ++ [p])) as ->
      by done.
    rewrite elem_of_app, Forall_app. destruct (session_is_better p featured) eqn:E.
    + apply session_is_better_spec in E; [|done]. split_and!; [right; by apply list_elem_of_singleton| |].
      * eapply Forall_impl; [exact Hbest|]. intros x Hx Hxp. apply Hx. by eapply better_trans.
      * constructor; [apply better_irrefl|constructor].
    + assert (~ better p featured) as Hnb by (intros Hb; apply session_is_better_spec in Hb; congruence).
      split_and!; [by left|done|by constructor].
Qed.

Lemma codex_sessions_spec d sessions count featured count' featured' seen :
  codex_sessions d sessions count featured = Some (count', featured') ->
  count = Z.of_nat (length seen) -> best_of featured seen -> Forall (fun p => present p = true) seen ->
  exists more, mapM (fun s => project_session d (Some s)) (List.filter (is_codex d) sessions) = Some more
    /\ count' = Z.of_nat (length (seen ++ more)) /\ best_of featured' (seen ++ more).
Proof.
  revert count featured seen. induction sessions as [|s sessions IH]; intros count featured seen H Hcount Hbest Hpres.
  - injection H as <- <-. exists []. by rewrite app_nil_r.
  - cbn [codex_sessions List.filter] in *. destruct (is_codex d s); cbn [negb] in H; [|by eapply IH].
    destruct (count =? U8_MAX); [done|].
    destruct (project_session d (Some s)) as [p|] eqn:Ep; [|done]. cbn [mbind option_bind] in H.
    assert (Forall (fun p => present p = true) (seen ++ [p])) as Hpres'
      by (apply Forall_app; split; [done|]; constructor; [by eapply project_session_present|constructor]).
    destruct (IH _ _ (seen ++ [p]) H) as (more & Hmore & Hc & Hb);
      [rewrite length_app; simpl; lia|by apply best_of_snoc|done|].
    exists (p :: more). rewrite <- app_assoc in Hc, Hb. split_and!; [|done|done].
    cbn [mapM]. rewrite Ep. simpl. by rewrite Hmore.
Qed.

(** The Codex projection features the best Codex session.  When the
    projection succeeds and the document has the Codex provider, every session
    of it was projected, their number is the count shown, and the featured
    session is one of them that no other beats in the order the code compares
    by (state priority, then having an activity time, then the later time, then
    the smaller identifier), and that beats every one with another
    identifier; without sessions the featured one is absent. *)
Theorem featured_session_is_best document projection :
  deck_ai_snapshot_project_codex document = (true, projection) -> provider_present projection = true ->
  exists nodes sessions, parse document kMaximumNodes = Some (0%nat, nodes)
    /\ (let d := {| text := document; nodes := nodes |} in
        mapM (fun s => project_session d (Some s))
          (List.filter (is_codex d) (children d (field d (Some 0%nat) (literal "sessions")))) = Some sessions)
    /\ codex_session_count projection = Z.of_nat (length sessions)
    /\ (sessions = [] -> featured_session projection = no_session)
    /\ (sessions <> [] -> featured_session projection ∈ sessions)
    /\ Forall (fun s => session_is_better s (featured_session projection) = false
         /\ (c_string (session_id s) <> c_string (session_id (featured_session projection)) ->
             session_is_better (featured_session projection) s = true)) sessions.
Proof.
  unfold deck_ai_snapshot_project_codex, project_document. intros H Hpp.
  destruct (deck_ai_snapshot_validate document) as [r metadata] eqn:Hv. destruct r; try done.
  apply validate_accepted in Hv as (_ & _ & nodes & _ & _ & Hp & _). rewrite Hp in H. cbn [mbind option_bind] in H.
  destruct (length nodes =? 0)%nat; [done|]. set (d := {| text := document; nodes := nodes |}) in *.
  destruct (project_codex d 0) as [q|] eqn:Eq; [|done]. injection H as ->. unfold project_codex in Eq.
  apply bind_Some in Eq as (tz & _ & Eq). destruct (List.find _ _) as [provider|]; [|by injection Eq as <-].
  apply bind_Some in Eq as (candidate & _ & Eq). apply bind_Some in Eq as ([count featured] & Hs & Eq).
  injection Eq as <-. cbn [codex_session_count featured_session].
  destruct (codex_sessions_spec _ _ _ _ _ _ [] Hs) as (sessions & Hm & -> & Hb); [done|done|constructor|].
  cbn [app] in Hb |- *. exists nodes, sessions.
  assert (Forall (fun p => present p = true) sessions) as Hpres.
  { apply mapM_Some in Hm. clear -Hm. induction Hm; constructor; [by eapply project_session_present|done]. }
  split_and!; [done|exact Hm|done| | |].
  - intros ->. exact Hb.
  - destruct sessions; [done|]. by destruct Hb.
  - destruct sessions as [|s0 sessions]; [constructor|]. destruct Hb as [Hin Hb].
    rewrite Forall_forall in Hpres, Hb. pose proof (Hpres _ Hin) as Hf. apply Forall_forall. intros s Hs'.
    specialize (Hb s Hs'). specialize (Hpres s Hs'). split.
    + destruct (session_is_better s featured) eqn:E; [|done]. exfalso. apply Hb. by apply session_is_better_spec in E.
    + intros Hid. apply session_is_better_spec; [done|]. destruct (better_total s featured Hid); [done|done].
Qed.

Lemma featured_session_is_best_witness :
  exists projection nodes sessions,
    deck_ai_snapshot_project_codex sample = (true, projection) /\ provider_present projection = true
    /\ parse sample kMaximumNodes = Some (0%nat, nodes)
    /\ codex_session_count projection = Z.of_nat (length sessions)
    /\ (sessions <> [] -> featured_session projection ∈ sessions).
Proof.
  assert (exists projection, deck_ai_snapshot_project_codex sample = (true, projection)
    /\ provider_present projection = true) as (projection & Hp & Hpp)
    by (eexists; split; vm_compute; reflexivity).
  destruct (featured_session_is_best sample projection Hp Hpp) as (nodes & sessions & Hn & _ & Hc & _ & Hin & _).
  exists projection, nodes, sessions. exact (conj Hp (conj Hpp (conj Hn (conj Hc Hin)))).
Defined.

(** ** Accepted documents project

    A document can be accepted and still not project: a time zone of 64
    characters may take more than the 64 bytes there is room for, and a text
    that ends in an escaped NUL passes the comparisons by [strcmp] but not the
    buffers of the projection.  Apart from that every accepted document
    projects. *)

(** The text of a string is UTF-8, spelled with known escapes, and holds no
    NUL. *)
Inductive plain_text : bytes -> Prop :=
  | plain_end : plain_text []
  | plain_char c rest : scalar c -> c <> 92 -> c <> 0 -> plain_text rest -> plain_text (encode_utf8 c ++ rest)
  | plain_escape e rest :
      existsb (fun c => e =? c) [34; 47; 92; 98; 102; 110; 114; 116] = true -> plain_text rest ->
      plain_text (92 :: e :: rest)
  | plain_unicode h1 h2 h3 h4 codepoint rest :
      hex_quad [h1; h2; h3; h4] = Some (codepoint, []) -> codepoint <> 0 -> plain_text rest ->
      plain_text (92 :: 117 :: h1 :: h2 :: h3 :: h4 :: rest).

(** A character that is not ASCII starts with a byte beyond it, which tells its
    length. *)
Lemma encode_utf8_head c :
  scalar c -> (c <= 0x7f /\ encode_utf8 c = [c])
  \/ exists first more, encode_utf8 c = first :: more /\ 0x80 <= first <= 0xff /\ first <> 92
       /\ raw_count first = Some (length (encode_utf8 c)) /\ (length (encode_utf8 c) <= 4)%nat.
Proof.
  intros [Hc _]. unfold encode_utf8. destruct (Z.leb_spec c 0x7f); [by left|right].
  assert (forall b, is_u8 b -> raw_count b =
    if (192 <=? b) && (b <=? 223) then Some 2%nat else if (224 <=? b) && (b <=? 239) then Some 3%nat
    else if (240 <=? b) && (b <=? 247) then Some 4%nat else if 128 <=? b then None else Some 1%nat) as Hraw.
  { intros b Hb. unfold raw_count. by destruct (mask_ranges b Hb) as (-> & -> & -> & _). }
  destruct (Z.leb_spec c 0x7ff); [|destruct (Z.leb_spec c 0xffff)];
    eexists _, _; (split; [reflexivity|]); (split; [divmod|]); (split; [divmod|]); (split; [|simpl; lia]);
    rewrite Hraw by (unfold is_u8; divmod);
    repeat match goal with |- context [?a <=? ?b] => destruct (Z.leb_spec a b); try (exfalso; divmod) end; done.
Qed.

(** The byte one turn of the decoding loop reads, and what is left. *)
Definition ascii_step (byte : Z) (rest : bytes) : option (Z * bytes) :=
  if negb (byte =? 92) then Some (byte, rest)
  else
    match rest with
    | [] => None
    | escaped :: rest =>
        if (escaped =? 34) || (escaped =? 92) || (escaped =? 47) then Some (escaped, rest)
        else if escaped =? 98 then Some (8, rest)
        else if escaped =? 102 then Some (12, rest)
        else if escaped =? 110 then Some (10, rest)
        else if escaped =? 114 then Some (13, rest)
        else if escaped =? 116 then Some (9, rest)
        else if escaped =? 117 then
          match hex_quad rest with
          | None => None
          | Some (codepoint, rest) => if 0x7f <? codepoint then None else Some (codepoint, rest)
          end
        else None
    end.

Lemma decode_ascii_loop_step fuel capacity written byte rest :
  decode_ascii_loop (S fuel) capacity written (byte :: rest)
  = match ascii_step byte rest with
    | None => None
    | Some (byte, rest) =>
        if (0x7f <? byte) || (capacity <=? List.length written + 1)%nat then None
        else decode_ascii_loop fuel capacity (written ++ [byte]) rest
    end.
Proof.
  unfold ascii_step. cbn [decode_ascii_loop]. destruct (negb _); [done|]. destruct rest as [|escaped rest]; [done|].
  destruct ((escaped =? 34) || (escaped =? 92) || (escaped =? 47)); [done|].
  destruct (escaped =? 98), (escaped =? 102), (escaped =? 110), (escaped =? 114), (escaped =? 116),
    (escaped =? 117); try done.
  destruct (hex_quad rest) as [[codepoint rest']|]; [|done]. destruct (0x7f <? codepoint) eqn:E; [done|]. by rewrite E.
Qed.

(** A turn on a plain text reads no NUL. *)
Lemma plain_step byte rest b rest' :
  plain_text (byte :: rest) -> ascii_step byte rest = Some (b, rest') -> b <= 0x7f -> b <> 0 /\ plain_text rest'.
Proof.
  intros Hr Hs Hb. unfold ascii_step in Hs. remember (byte :: rest) as raw eqn:Eraw.
  destruct Hr as [|c r Hc H92 H0 Hr|e r He Hr|h1 h2 h3 h4 c r Hq H0 Hr]; [done|..].
  - destruct (encode_utf8_head c Hc) as [[_ E]|(f & more & E & Hf & Hf92 & _)]; rewrite E in Eraw; cbn [app] in Eraw;
      injection Eraw as <- <-.
    + rewrite (proj2 (Z.eqb_neq _ _)) in Hs by done. injection Hs as <- <-. done.
    + rewrite (proj2 (Z.eqb_neq _ _)) in Hs by done. injection Hs as <- <-. lia.
  - injection Eraw as <- <-. cbn [existsb] in He. bool_cases; try done; subst e; injection Hs as <- <-; done.
  - injection Eraw as <- <-. cbn [Z.eqb Pos.eqb negb orb] in Hs. rewrite (hex_quad_app _ _ _ _ _ r Hq) in Hs.
    destruct (Z.ltb_spec 0x7f c); [done|]. by injection Hs as <- <-.
Qed.

Lemma plain_decode fuel capacity written raw v :
  plain_text raw -> decode_ascii_loop fuel capacity written raw = Some v ->
  exists tail, v = written ++ tail /\ Forall (fun b => b <> 0) tail.
Proof.
  revert written raw. induction fuel as [|fuel IH]; intros written raw Hr H;
    (destruct raw as [|byte rest]; [injection H as <-; exists []; rewrite app_nil_r; by split; [|constructor]|]); [done|].
  rewrite decode_ascii_loop_step in H. destruct (ascii_step byte rest) as [[b rest']|] eqn:Es; [|done].
  destruct (_ || _) eqn:E; [done|]. bool_prop.
  destruct (plain_step _ _ _ _ Hr Es) as [Hb Hr']; [lia|].
  destruct (IH _ _ Hr' H) as (tail & -> & Ht).
  exists (b :: tail). rewrite <- app_assoc. split; [done|]. by constructor.
Qed.

Lemma decode_ascii_loop_length fuel c written rest v :
  decode_ascii_loop fuel c written rest = Some v -> (length written <= length v)%nat.
Proof.
  revert written rest. induction fuel as [|fuel IH]; intros written rest H;
    (destruct rest as [|byte rest]; [by injection H as <-|]); [done|].
  rewrite decode_ascii_loop_step in H. destruct (ascii_step byte rest) as [[b rest']|]; [|done].
  destruct (_ || _); [done|]. apply IH in H. rewrite length_app in H. simpl in H. lia.
Qed.

(** A decoded string fits every buffer larger than it. *)
Lemma decode_ascii_loop_fits fuel c c' written rest v :
  decode_ascii_loop fuel c written rest = Some v -> (length v < c')%nat ->
  decode_ascii_loop fuel c' written rest = Some v.
Proof.
  revert written rest. induction fuel as [|fuel IH]; intros written rest H Hc;
    (destruct rest as [|byte rest]; [by injection H as <-|]); [done|].
  rewrite decode_ascii_loop_step in H |- *. destruct (ascii_step byte rest) as [[b rest']|]; [|done].
  destruct (_ || _) eqn:E; [done|]. bool_prop. apply decode_ascii_loop_length in H as Hl.
  rewrite length_app in Hl. simpl in Hl.
  rewrite (proj2 (Z.ltb_ge _ _)), (proj2 (Nat.leb_gt _ _)) by lia. by apply IH.
Qed.

(** ** Display texts *)

Lemma length_append_codepoint codepoint encoded :
  append_codepoint codepoint = Some encoded -> (length encoded <= 4)%nat.
Proof. unfold append_codepoint. repeat case_match; intros [= <-]; simpl; lia. Qed.

Lemma append_codepoint_Some c : c <= 0x10ffff -> exists encoded, append_codepoint c = Some encoded.
Proof.
  intros Hc. unfold append_codepoint. rewrite (proj2 (Z.leb_le c 0x10ffff) Hc).
  destruct (c <=? 0x7f), (c <=? 0x7ff), (c <=? 0xffff); by eexists.
Qed.

Lemma hex_value_range h d : hex_value h = Some d -> 0 <= d < 16.
Proof. unfold hex_value, is_digit, ch_0, ch_9. repeat case_match; intros; simplify_eq; bool_prop; lia. Qed.

(** One hexadecimal digit shifted in. *)
Lemma hex_step a d k :
  0 <= a < 2 ^ k -> 0 <= d < 16 -> 0 <= k <= 12 -> 0 <= Z.lor (u32 (Z.shiftl a 4)) d < 2 ^ (k + 4).
Proof.
  intros Ha Hd Hk. assert (2 ^ k <= 2 ^ 12) by (apply Z.pow_le_mono_r; lia).
  rewrite u32_id by (rewrite Z.shiftl_mul_pow2 by lia; unfold is_u32; lia).
  rewrite Z.lor_comm, lor_shiftl_add by lia. rewrite Z.pow_add_r by lia. lia.
Qed.

Lemma hex_quad_range r x r' : hex_quad r = Some (x, r') -> length r = (length r' + 4)%nat /\ 0 <= x <= 0xffff.
Proof.
  unfold hex_quad. destruct r as [|h1 [|h2 [|h3 [|h4 r]]]]; try done.
  destruct (hex_value h1) as [d1|] eqn:E1; [|done]. destruct (hex_value h2) as [d2|] eqn:E2; [|done].
  destruct (hex_value h3) as [d3|] eqn:E3; [|done]. destruct (hex_value h4) as [d4|] eqn:E4; [|done].
  intros [= <- <-]. split; [simpl; lia|].
  apply hex_value_range in E1, E2, E3, E4.
  pose proof (hex_step 0 d1 0 ltac:(lia) E1 ltac:(lia)) as S1. pose proof (hex_step _ d2 4 S1 E2 ltac:(lia)) as S2.
  pose proof (hex_step _ d3 8 S2 E3 ltac:(lia)) as S3. pose proof (hex_step _ d4 12 S3 E4 ltac:(lia)) as S4.
  change (2 ^ (12 + 4)) with 65536 in S4. lia.
Qed.

(** The rest of an escape, and that its code point is encoded. *)
Lemma escaped_codepoint_facts rest c rest' :
  escaped_codepoint rest = Some (c, rest') ->
  (length rest' + 4 <= length rest)%nat /\ (exists encoded, append_codepoint c = Some encoded).
Proof.
  unfold escaped_codepoint. intros H. apply bind_Some in H as ([x r1] & Hx & H).
  apply hex_quad_range in Hx as [Hl1 Hx]. destruct (_ && _) eqn:Esur in H.
  - unfold low_surrogate in H. destruct r1 as [|b1 [|b2 r1]]; try (by repeat case_match).
    assert (exists low r2, hex_quad r1 = Some (low, r2) /\ 0xdc00 <= low <= 0xdfff /\ rest' = r2
      /\ c = u32 (0x10000 + Z.shiftl (x - 0xd800) 10 + (low - 0xdc00))) as (low & r2 & Hlow & Hrange & -> & ->).
    { repeat (case_match; try done). apply bind_Some in H as ([low r2] & Hlow & H).
      destruct (_ || _) eqn:E in H; [done|]. bool_prop. injection H as <- <-. exists low, r2. split_and!; try done; lia. }
    apply hex_quad_range in Hlow as [Hl2 _]. simpl in Hl1. split; [lia|]. bool_prop.
    rewrite Z.shiftl_mul_pow2 by lia. change (2 ^ 10) with 1024. rewrite u32_id by (unfold is_u32; lia).
    apply append_codepoint_Some. lia.
  - destruct ((0xdc00 <=? x) && (x <=? 0xdfff)); [done|]. injection H as <- <-. split; [lia|].
    apply append_codepoint_Some. lia.
Qed.

(** What is left behind an escape is plain again. *)
Lemma plain_escape_u rest :
  plain_text (92 :: 117 :: rest) ->
  exists h1 h2 h3 h4 r c, rest = h1 :: h2 :: h3 :: h4 :: r /\ hex_quad [h1; h2; h3; h4] = Some (c, []) /\ plain_text r.
Proof.
  remember (92 :: 117 :: rest) as raw eqn:Eraw. intros Hp.
  destruct Hp as [|c r Hc H92 H0 Hp|e r He Hp|h1 h2 h3 h4 c r Hq H0 Hp]; [done|..].
  - destruct (encode_utf8_head c Hc) as [[_ E]|(f & more & E & _ & Hf92 & _)]; rewrite E in Eraw; by injection Eraw.
  - by injection Eraw as -> ->.
  - injection Eraw as <-. by exists h1, h2, h3, h4, r, c.
Qed.

Lemma escaped_plain h1 h2 h3 h4 c r cp r' :
  hex_quad [h1; h2; h3; h4] = Some (c, []) -> plain_text r ->
  escaped_codepoint (h1 :: h2 :: h3 :: h4 :: r) = Some (cp, r') -> plain_text r'.
Proof.
  intros Hq Hp. unfold escaped_codepoint. rewrite (hex_quad_app _ _ _ _ _ r Hq). cbn [mbind option_bind].
  destruct (_ && _); [|destruct (_ && _); [done|by intros [= _ <-]]].
  unfold low_surrogate. intros H.
  assert (exists r1, r = 92 :: 117 :: r1) as [r1 ->] 
    by (destruct r as [|b1 [|b2 r1]]; [done|by repeat case_match|]; exists r1; repeat (case_match; try done)).
  apply plain_escape_u in Hp as (g1 & g2 & g3 & g4 & r2 & low & -> & Hq' & Hp).
  rewrite (hex_quad_app _ _ _ _ _ r2 Hq') in H. cbn [mbind option_bind] in H. destruct (_ || _); [done|]. by injection H as _ <-.
Qed.

Lemma safe_text_loop_mono fuel rest n m : safe_text_loop fuel rest n = Some m -> (n <= m)%nat.
Proof.
  revert rest n. induction fuel as [|fuel IH]; intros rest n H; (destruct rest as [|byte rest]; [injection H; lia|]); [done|].
  cbn [safe_text_loop] in H. destruct (negb _).
  - destruct (byte =? 0x7f); [done|]. apply bind_Some in H as (count & _ & H). destruct (_ <? _)%nat; [done|].
    apply IH in H. lia.
  - destruct rest as [|escaped rest]; [done|]. destruct (existsb _ _); [done|]. destruct (negb _); [apply IH in H; lia|].
    apply bind_Some in H as ([c r] & _ & H). destruct (_ || _); [done|]. apply IH in H. lia.
Qed.

(** A plain text the check lets through is decoded into any buffer with room
    for four bytes a character, or for the bytes of its spelling. *)
Lemma safe_text_decodes fuel rest n m written capacity :
  safe_text_loop fuel rest n = Some m -> plain_text rest ->
  (length written + Nat.min (4 * (m - n)) (length rest) < capacity)%nat ->
  exists v, decode_utf8_loop fuel capacity written rest = Some v.
Proof.
  revert rest n written. induction fuel as [|fuel IH]; intros rest n written H Hp Hcap;
    (destruct rest as [|byte rest]; [by eexists|]); [done|].
  cbn [safe_text_loop decode_utf8_loop] in *. remember (byte :: rest) as raw eqn:Eraw.
  destruct Hp as [|c r Hc H92 H0 Hp|e r He Hp|h1 h2 h3 h4 c r Hq H0 Hp]; [done|..].
  - assert (byte <> 92 /\ raw_count byte = Some (length (encode_utf8 c)) /\ (length (encode_utf8 c) <= 4)%nat)
      as (Hb & Hraw & Hlen).
    { destruct (encode_utf8_head c Hc) as [[Hle E]|(f & more & E & _ & Hf92 & Hraw & Hlen)]; rewrite E in Eraw |- *;
        injection Eraw as <- <-; [|by rewrite <- E].
      split_and!; [done| |simpl; lia]. destruct Hc as [Hc _]. unfold raw_count.
      destruct (mask_ranges c) as (-> & -> & -> & _); [unfold is_u8; lia|].
      by rewrite !(proj2 (Z.leb_gt _ c)) by lia. }
    rewrite (proj2 (Z.eqb_neq _ _)) in H |- * by done. cbn [negb] in *. destruct (byte =? 0x7f); [done|].
    rewrite Hraw in H |- *. cbn [mbind option_bind] in *.
    assert (S (length rest) = length (encode_utf8 c ++ r)) as Hl by by rewrite Eraw.
    rewrite length_app in Hl, Hcap. pose proof (encode_utf8_nonempty c).
    destruct (Nat.ltb_spec (length rest + 1) (length (encode_utf8 c))); [done|]. cbn [orb].
    rewrite drop_app_length in H. apply safe_text_loop_mono in H as Hm.
    rewrite (proj2 (Nat.leb_gt _ _)) by lia. rewrite drop_app_length, take_app_length.
    apply (IH _ _ _ H Hp). rewrite length_app. lia.
  - injection Eraw as <- <-. cbn [Z.eqb Pos.eqb negb] in *. simpl length in Hcap.
    destruct (existsb _ _) eqn:Ectl in H; [done|].
    assert (e = 34 \/ e = 47 \/ e = 92) as He'.
    { cbn [existsb] in He, Ectl. bool_cases; try done; bool_prop; subst e; try done; tauto. }
    assert (negb (e =? 117) = true) as E117 by by destruct He' as [->|[->| ->]]. rewrite E117 in H.
    apply safe_text_loop_mono in H as Hm.
    assert ((e =? 34) || (e =? 92) || (e =? 47) = true) as -> by by destruct He' as [->|[->| ->]].
    assert (append_codepoint e = Some [e]) as -> by by destruct He' as [->|[->| ->]].
    cbn [mbind option_bind length]. rewrite (proj2 (Nat.leb_gt _ _)) by lia.
    apply (IH _ _ _ H Hp). rewrite length_app. simpl. lia.
  - injection Eraw as <- <-. cbn [Z.eqb Pos.eqb negb orb existsb] in *. simpl length in Hcap.
    apply bind_Some in H as ([cp r'] & Hesc & H). rewrite Hesc. cbn [mbind option_bind].
    destruct (_ || _) in H; [done|]. apply safe_text_loop_mono in H as Hm.
    destruct (escaped_codepoint_facts _ _ _ Hesc) as [Hl (encoded & Henc)]. rewrite Henc. cbn [mbind option_bind].
    apply length_append_codepoint in Henc. simpl length in Hl.
    rewrite (proj2 (Nat.leb_gt _ _)) by lia. apply (IH _ _ _ H); [|rewrite length_app; lia].
    by eapply escaped_plain.
Qed.

(** ** The fields of an accepted document fit the projection *)

Section fits.
Context (d : Document).

Definition plain_document : Prop := forall i n,
  nodes d !! i = Some n -> type n = string -> plain_text (node_text (text d) n).

Context (Hplain : plain_document).

Lemma string_node index :
  type (node (nodes d) (index_of d index)) = string -> plain_text (span d (index_of d index)).
Proof.
  destruct (nodes d !! index_of d index) as [n|] eqn:En; [|unfold node; by rewrite En].
  unfold span. rewrite (node_at _ _ _ En). intros Ht. by apply (Hplain _ _ En).
Qed.

Lemma decode_fits index c c' v :
  decode d index c = Some v -> (strlen v < c')%nat -> decode d index c' = Some v.
Proof.
  unfold decode, decode_ascii. destruct (negb _ || _) eqn:E; [done|]. bool_prop. intros Hd Hlt.
  rewrite bool_decide_eq_true_2 by done. rewrite (proj2 (Nat.eqb_neq c' 0)) by lia. cbn [negb orb].
  destruct (plain_decode _ _ _ _ _ (string_node index ltac:(done)) Hd) as (tail & -> & Hnz).
  cbn [app] in *. unfold strlen in Hlt. rewrite (c_string_id tail Hnz) in Hlt. by eapply decode_ascii_loop_fits.
Qed.

Lemma safe_identifier_fits index maximum c :
  safe_identifier d index maximum = true -> (maximum < c)%nat -> exists v, decode d index c = Some v.
Proof.
  unfold safe_identifier. destruct (65 <=? maximum)%nat; [done|].
  destruct (decode d index 65) as [v|] eqn:Ed; [|done]. intros Hs Hc. exists v. apply (decode_fits _ _ _ _ Ed).
  unfold strlen. destruct (c_string v) as [|first rest]; [simpl; lia|]. bool_prop. simpl. lia.
Qed.

Lemma string_equals_fits index expected c :
  string_equals d index expected = true -> (strlen expected < c)%nat -> exists v, decode d index c = Some v.
Proof.
  unfold string_equals. destruct (decode d index 96) as [v|] eqn:Ed; [|done]. unfold strcmp_eq. intros He Hc. bool_prop.
  exists v. apply (decode_fits _ _ _ _ Ed). unfold strlen in *. by rewrite He.
Qed.

Lemma safe_text_fits index maximum c :
  safe_text d index maximum = true ->
  (4 * maximum < c \/ length (span d (index_of d index)) < c)%nat -> exists v, decode_utf8 d index c = Some v.
Proof.
  unfold safe_text, decode_utf8. destruct (negb _ || _) eqn:E; [done|]. bool_prop. intros Hs Hc.
  rewrite bool_decide_eq_true_2 by done. rewrite (proj2 (Nat.eqb_neq c 0)) by lia. cbn [negb orb].
  destruct (safe_text_loop _ _ _) as [m|] eqn:El; [|done]. bool_prop.
  apply (safe_text_decodes _ _ _ _ [] c El (string_node index ltac:(done))). simpl. lia.
Qed.

Lemma nullable_time_limit index limit x :
  nullable_time d index limit = Some x -> nullable_time d index U64_MAX = Some x.
Proof.
  unfold nullable_time. destruct index; [|done]. destruct (is_null _ _); [done|].
  destruct (parse_canonical_utc _ _) as [p|] eqn:Ep; [|done]. cbn [mbind option_bind].
  destruct (limit <? p); [done|]. intros [= <-]. rewrite (proj2 (Z.ltb_ge _ _)); [done|].
  unfold parse_canonical_utc in Ep. apply bind_Some in Ep as (s & _ & Ep). unfold parse_utc_text in Ep.
  destruct (_ || _) in Ep; [done|]. do 6 (apply bind_Some in Ep as (? & _ & Ep)).
  destruct (_ || _) in Ep; [done|]. apply bind_Some in Ep as (ns & _ & Ep). cbv zeta in Ep.
  destruct (_ <? 0) in Ep; [done|]. injection Ep as <-. match goal with |- u64 ?x <= _ => pose proof (u64_range x) as Hr end.
  unfold is_u64 in Hr. lia.
Qed.

Lemma by_name_one_of {A} index (table : list (bytes * A)) :
  one_of d index (map fst table) = true -> exists a, by_name d index table = Some a.
Proof.
  unfold one_of, by_name. induction table as [|[n a] table IH]; [done|]. cbn [map fst existsb List.find].
  destruct (string_equals d index n); [by eexists|]. exact IH.
Qed.

Lemma is_some_true {A} (x : option A) : is_some x = true -> exists a, x = Some a.
Proof. unfold is_some. by intros [a ->]%bool_decide_eq_true; exists a. Qed.

Lemma window_projects window minor :
  validate_window d window minor = DECK_AI_SNAPSHOT_ACCEPTED -> exists w, project_window d window = Some w.
Proof.
  unfold validate_window, project_window. intros H. accepted H.
  match goal with Hid : safe_identifier _ _ _ = true |- _ =>
    destruct (safe_identifier_fits _ _ DECK_AI_SNAPSHOT_WINDOW_NAME_CAPACITY Hid) as [name ->]; [unfold DECK_AI_SNAPSHOT_WINDOW_NAME_CAPACITY; lia|] end.
  destruct (nullable_unsigned d (field d window (literal "used_basis_points")) 0 10000) as [u|]; [|discriminate H].
  destruct (nullable_unsigned d (field d window (literal "remaining_basis_points")) 0 10000) as [r|]; [|discriminate H].
  destruct (nullable_unsigned d (field d window (literal "window_minutes")) 1 525600) as [m|]; [|discriminate H].
  destruct (nullable_time d (field d window (literal "resets_at")) U64_MAX) as [t|]; [|discriminate H].
  by eexists.
Qed.

Lemma check_all_Forall {A} (f : A -> deck_ai_snapshot_result_t) l :
  check_all f l = DECK_AI_SNAPSHOT_ACCEPTED -> Forall (fun x => f x = DECK_AI_SNAPSHOT_ACCEPTED) l.
Proof. induction l as [|x l IH]; [constructor|]. cbn [check_all]. intros [? ?]%check_accepted. constructor; auto. Qed.

(** The elements of an array, by index. *)
Lemma mapM_array {A} (f : option nat -> option A) index (P : nat -> Prop) :
  type (node (nodes d) (index_of d index)) = array -> Forall P (children d index) ->
  (forall i, P i -> exists a, f (Some i) = Some a) ->
  exists l, mapM (fun k => f (array_at d index k)) (seq 0 (array_count d index)) = Some l.
Proof.
  intros Ht Hall Hf. unfold array_count. rewrite bool_decide_eq_true_2 by done. cbn [negb].
  assert (forall ks, Forall (fun k => (k < length (children d index))%nat) ks ->
    exists l, mapM (fun k => f (array_at d index k)) ks = Some l) as Hgen.
  { induction 1 as [|k ks Hk _ [l Hl]]; [by eexists|]. destruct (lookup_lt_is_Some_2 _ _ Hk) as [i Hi].
    rewrite Forall_lookup in Hall. destruct (Hf i (Hall _ _ Hi)) as [a Ha].
    exists (a :: l). apply mapM_Some. constructor; [by rewrite <- Ha, <- Hi|by apply mapM_Some]. }
  apply Hgen. apply Forall_forall. intros k Hk%elem_of_seq. lia.
Qed.

Lemma balance_projects balance minor :
  validate_money d balance minor = DECK_AI_SNAPSHOT_ACCEPTED -> exists b, project_balance d balance = Some b.
Proof.
  unfold validate_money, project_balance. destruct (is_null d balance); [by eexists|]. cbv zeta.
  destruct (_ || _) eqn:E; [intros H; by apply private_or_malformed_not in H|]. bool_prop.
  match goal with Hs : is_some _ = true |- _ => apply is_some_true in Hs as [a ->] end.
  destruct (decode d _ 4) as [c|] eqn:Ec; [|done]. intros _. cbn [mbind option_bind].
  unfold DECK_AI_SNAPSHOT_CURRENCY_CAPACITY. rewrite Ec. by eexists.
Qed.

Lemma total_projects tokens minor :
  validate_tokens d tokens minor = DECK_AI_SNAPSHOT_ACCEPTED -> exists t, project_total d tokens = Some t.
Proof.
  unfold validate_tokens, project_total. destruct (is_null d tokens); [by eexists|]. intros H. accepted H.
  destruct (mapM _ token_fields) as [l|] eqn:Em; [|discriminate H]. apply mapM_Some in Em.
  destruct (Forall2_lookup_l _ _ _ 4 (literal "total") Em eq_refl) as (t & _ & Ht). by exists t.
Qed.

Lemma error_projects problem minor :
  validate_provider_error d problem minor = DECK_AI_SNAPSHOT_ACCEPTED -> exists e, project_error d problem = Some e.
Proof.
  unfold validate_provider_error, project_error. destruct (is_null d problem); [by eexists|]. cbv zeta.
  destruct (_ || _) eqn:E; [intros H; by apply private_or_malformed_not in H|]. bool_prop. intros _.
  match goal with Hs : one_of _ _ _ = true |- _ => unfold one_of in Hs; apply existsb_exists in Hs as (code & Hin & Hcode) end.
  assert (strlen code < 24)%nat as Hlen.
  { assert (Forall (fun c => strlen c < 24)%nat error_codes) as Hall by (by repeat (constructor; [vm_compute; lia|])).
    rewrite List.Forall_forall in Hall. by apply Hall. }
  destruct (string_equals_fits _ _ 24 Hcode Hlen) as [v Hv]. unfold DECK_AI_SNAPSHOT_ERROR_CODE_CAPACITY. rewrite Hv.
  by eexists.
Qed.

Lemma text_projects index maximum capacity :
  is_null d index || safe_text d index maximum = true ->
  (4 * maximum < capacity \/ length (span d (index_of d index)) < capacity)%nat ->
  exists t, nullable_text d index capacity = Some t.
Proof.
  unfold nullable_text. destruct (is_null d index); [by eexists|]. cbn [orb]. intros Hs Hc.
  destruct (safe_text_fits _ _ _ Hs Hc) as [v ->]. by eexists.
Qed.

Lemma session_projects session generated ids :
  validate_session d session generated ids = DECK_AI_SNAPSHOT_ACCEPTED -> exists s, project_session d session = Some s.
Proof.
  unfold validate_session, project_session. destruct (parse_version _ _) as [r minor]. intros H. accepted H. bool_prop.
  assert (exists v, decode d (field d session (literal "session_id")) DECK_AI_SNAPSHOT_SESSION_ID_CAPACITY = Some v)
    as [id ->].
  { match goal with Hs : safe_opaque_id _ _ = true |- _ => unfold safe_opaque_id in Hs end.
    unfold DECK_AI_SNAPSHOT_SESSION_ID_CAPACITY. destruct (decode d _ 65); [by eexists|done]. }
  assert (exists v, project_session_state d (field d session (literal "state")) = Some v) as [st ->]
    by (apply by_name_one_of; assumption).
  assert (exists v, project_confidence d (field d session (literal "confidence")) = Some v) as [cf ->]
    by (apply by_name_one_of; assumption).
  match goal with Hs : is_null _ _ || safe_text _ _ _ = true |- _ =>
    destruct (text_projects _ _ DECK_AI_SNAPSHOT_DISPLAY_TEXT_CAPACITY Hs) as [dn ->];
    [left; unfold DECK_AI_SNAPSHOT_DISPLAY_TEXT_CAPACITY; lia|] end.
  destruct (nullable_time d (field d session (literal "started_at")) generated); [|discriminate H].
  destruct (nullable_time d (field d session (literal "last_activity_at")) generated) as [la|] eqn:El; [|discriminate H].
  rewrite (nullable_time_limit _ _ _ El).
  destruct (nullable_unsigned d (field d session (literal "duration_seconds")) 0 31536000); [|discriminate H].
  destruct (nullable_unsigned d (field d session (literal "turn_tokens")) 0 kMaximumSafeInteger); [|discriminate H].
  destruct (nullable_unsigned d (field d session (literal "context_used_basis_points")) 0 10000); [|discriminate H].
  by eexists.
Qed.

(** The parts of a provider both projections read. *)
Lemma provider_parts provider generated :
  validate_provider d provider generated = DECK_AI_SNAPSHOT_ACCEPTED ->
  (exists v, decode d (field d provider (literal "provider_id")) DECK_AI_SNAPSHOT_PROVIDER_ID_CAPACITY = Some v)
  /\ (exists v, decode_utf8 d (field d provider (literal "display_name")) DECK_AI_SNAPSHOT_DISPLAY_TEXT_CAPACITY = Some v)
  /\ (exists v, project_provider_status d (field d provider (literal "status")) = Some v)
  /\ (exists v, project_confidence d (field d provider (literal "confidence")) = Some v)
  /\ (exists v, boolean_value d (field d provider (literal "experimental")) = Some v)
  /\ (exists v, nullable_time d (field d provider (literal "updated_at")) U64_MAX = Some v)
  /\ (exists v, project_balance d (field d provider (literal "balance")) = Some v)
  /\ (exists v, project_windows d (field d provider (literal "windows")) = Some v)
  /\ (exists v, project_total d (field d provider (literal "tokens")) = Some v)
  /\ (exists v, project_error d (field d provider (literal "error")) = Some v).
Proof.
  unfold validate_provider. destruct (parse_version _ _) as [r minor]. intros H. accepted H.
  match type of H with (if ?b then _ else _) = _ => destruct b eqn:Eerr end;
    [by apply private_or_malformed_not in H|]. bool_prop. split_and!.
  - eapply safe_identifier_fits; [eassumption|]. unfold DECK_AI_SNAPSHOT_PROVIDER_ID_CAPACITY. lia.
  - eapply safe_text_fits; [eassumption|]. left. unfold DECK_AI_SNAPSHOT_DISPLAY_TEXT_CAPACITY. lia.
  - apply by_name_one_of. assumption.
  - apply by_name_one_of. assumption.
  - apply is_some_true. assumption.
  - match goal with Ht : is_some (nullable_time _ _ generated) = true |- _ => apply is_some_true in Ht as [t Ht] end.
    exists t. by eapply nullable_time_limit.
  - eapply balance_projects. eassumption.
  - match goal with Hw : check_all _ _ = _ |- _ => apply check_all_Forall in Hw;
      eapply (mapM_array (project_window d)); [eassumption|exact Hw|] end.
    intros i Hi. eapply window_projects. exact Hi.
  - eapply total_projects. eassumption.
  - eapply error_projects. eassumption.
Qed.

Lemma page_projects provider generated :
  validate_provider d provider generated = DECK_AI_SNAPSHOT_ACCEPTED ->
  exists p, project_provider_page d provider = Some p.
Proof.
  intros ([? E1] & [? E2] & [? E3] & [? E4] & [? E5] & [? E6] & [? E7] & [? E8] & [? E9] & [? E10])%provider_parts.
  unfold project_provider_page. rewrite E1, E2, E3, E4, E5, E6, E7, E8, E9, E10. by eexists.
Qed.

Lemma codex_projects provider generated candidate :
  validate_provider d provider generated = DECK_AI_SNAPSHOT_ACCEPTED ->
  exists p, codex_provider d provider candidate = Some p.
Proof.
  intros (_ & [? E2] & [? E3] & [? E4] & _ & [? E6] & _ & [? E8] & [? E9] & _)%provider_parts.
  unfold codex_provider. rewrite E2, E3, E4, E6, E8, E9. by eexists.
Qed.

Lemma codex_sessions_project generated ids sessions count featured :
  Forall (fun s => validate_session d (Some s) generated ids = DECK_AI_SNAPSHOT_ACCEPTED) sessions ->
  0 <= count -> count + Z.of_nat (length sessions) <= U8_MAX ->
  exists r, codex_sessions d sessions count featured = Some r.
Proof.
  intros Hall. revert count featured. induction Hall as [|s sessions Hs _ IH]; intros count featured H0 Hc; [by eexists|].
  cbn [codex_sessions]. simpl length in Hc. destruct (negb _); [apply IH; lia|].
  rewrite (proj2 (Z.eqb_neq _ _)) by lia. destruct (session_projects _ _ _ Hs) as [p ->]. cbn [mbind option_bind].
  apply IH; lia.
Qed.

(** The elements a loop by index has checked. *)
Lemma Forall_children index (P : option nat -> Prop) n (ids : list bytes) (Q : nat -> bytes -> Prop) :
  n = length (children d index) -> Forall2 (fun k id => P (array_at d index k) /\ Q k id) (seq 0 n) ids ->
  Forall (fun i => P (Some i)) (children d index).
Proof.
  intros -> Hall. apply Forall_lookup. intros k i Hk. pose proof (lookup_lt_Some _ _ _ Hk) as Hlt.
  destruct (Forall2_lookup_l _ _ _ k k Hall) as (id & _ & HP & _); [by apply lookup_seq|].
  unfold array_at in HP. by rewrite Hk in HP.
Qed.

Lemma passed_projects m ids :
  passed d m ids ->
  (length (span d (index_of d (field d (Some 0%nat) (literal "timezone")))) < DECK_AI_SNAPSHOT_TIMEZONE_CAPACITY)%nat ->
  (exists p, project_pages d 0 = Some p) /\ (exists p, project_codex d 0 = Some p).
Proof.
  intros [_ _ _ Htz Harr [Hcp Hcs] _ Hp Hs] Hfit. cbv zeta in *.
  apply Forall_cons in Harr as [Hap [Has _]%Forall_cons].
  apply (providers_loop_spec _ _ _ _ _ _ _ []) in Hp as (pids & _ & _ & Hp); [|constructor|constructor].
  apply (sessions_loop_spec _ _ _ _ _ _ _ []) in Hs as (sids & _ & Hs); [|constructor|constructor].
  assert (forall index, type (node (nodes d) (index_of d index)) = array -> array_count d index = length (children d index))
    as Hcount by (intros index Ht; unfold array_count; by rewrite bool_decide_eq_true_2).
  apply (Forall_children _ (fun p => validate_provider d p (generated_at_unix_ms m) = _) _ _ _ (Hcount _ Hap)) in Hp.
  apply (Forall_children _ (fun s => validate_session d s (generated_at_unix_ms m) ids = _) _ _ _ (Hcount _ Has)) in Hs.
  destruct (text_projects _ _ _ Htz (or_intror Hfit)) as [tz Etz]. split.
  - unfold project_pages. rewrite Etz. cbn [mbind option_bind].
    destruct (mapM_array (project_provider_page d) _ _ Hap Hp) as [l ->]; [|by eexists].
    intros i Hi. eapply page_projects. exact Hi.
  - unfold project_codex. rewrite Etz. cbn [mbind option_bind].
    destruct (List.find _ _) as [provider|] eqn:Ef; [|by eexists]. apply find_some in Ef as [Hin _].
    rewrite List.Forall_forall in Hp. specialize (Hp _ Hin). cbn beta in Hp.
    match goal with |- context [codex_provider d (Some provider) ?c] =>
      destruct (codex_projects _ _ c Hp) as [candidate ->] end. cbn [mbind option_bind].
    destruct (codex_sessions_project _ _ _ 0 no_session Hs) as [[count featured] ->]; [lia| |by eexists].
    rewrite <- (Hcount _ Has). unfold DECK_AI_SNAPSHOT_MAX_SESSIONS in Hcs. lia.
Qed.

End fits.

(** C33: An accepted document projects.  If every string of it (names included)
    is spelled without a NUL and the spelling of the time zone has at most 64
    bytes, both the page projection and the Codex projection of an accepted
    document succeed: every text, identifier, number and time the schema lets
    through fits the field it is shown in. *)
Theorem accepted_snapshot_projects document metadata nodes :
  deck_ai_snapshot_validate document = (DECK_AI_SNAPSHOT_ACCEPTED, metadata) ->
  parse document kMaximumNodes = Some (0%nat, nodes) ->
  let d := {| text := document; nodes := nodes |} in
  plain_document d ->
  (length (span d (index_of d (field d (Some 0%nat) (literal "timezone")))) < DECK_AI_SNAPSHOT_TIMEZONE_CAPACITY)%nat ->
  (deck_ai_snapshot_project_pages document).1 = true /\ (deck_ai_snapshot_project_codex document).1 = true.
Proof.
  intros Hv Hp d Hplain Hfit. pose proof Hv as Hv'.
  apply validate_accepted in Hv' as (_ & _ & nodes' & t & txt & Hp' & Ht & _ & Hs). rewrite Hp in Hp'. injection Hp' as <-.
  apply validate_snapshot_passed in Hs as [ids Hs].
  destruct (passed_projects d Hplain _ _ Hs Hfit) as [[pages Hpages] [codex Hcodex]].
  unfold deck_ai_snapshot_project_pages, deck_ai_snapshot_project_codex, project_document. rewrite Hv, Hp.
  cbn [mbind option_bind]. destruct (Nat.eqb_spec (length nodes) 0) as [E|E].
  - destruct Ht as (_ & _ & Htree & _). pose proof (JsonLayout.tree_bounds _ _ _ _ _ _ Htree). lia.
  - fold d. by rewrite Hpages, Hcodex.
Qed.

(** Printable ASCII without backslashes is plain. *)
Definition simple_text (raw : bytes) : bool := forallb (fun b => (0x20 <=? b) && (b <=? 0x7f) && negb (b =? 92)) raw.

Lemma simple_text_plain raw : simple_text raw = true -> plain_text raw.
Proof.
  induction raw as [|b raw IH]; [constructor|]. cbn [simple_text forallb]. intros [Hb Hr]%andb_true_iff. bool_prop.
  assert (encode_utf8 b = [b]) as E by (unfold encode_utf8; by rewrite (proj2 (Z.leb_le _ _))).
  pose proof (plain_char b raw) as Hp. rewrite E in Hp. apply Hp; [split; lia|done|lia|by apply IH].
Qed.

Lemma accepted_snapshot_projects_witness :
  exists metadata nodes, deck_ai_snapshot_validate sample = (DECK_AI_SNAPSHOT_ACCEPTED, metadata)
    /\ parse sample kMaximumNodes = Some (0%nat, nodes)
    /\ (deck_ai_snapshot_project_pages sample).1 = true /\ (deck_ai_snapshot_project_codex sample).1 = true.
Proof.
  destruct sample_accepted as [metadata Hm].
  assert (exists nodes, parse sample kMaximumNodes = Some (0%nat, nodes)
    /\ forallb (fun n => negb (bool_decide (type n = string)) || simple_text (node_text sample n)) nodes = true
    /\ (length (span {| text := sample; nodes := nodes |} (index_of {| text := sample; nodes := nodes |}
         (field {| text := sample; nodes := nodes |} (Some 0%nat) (literal "timezone")))) <=? 64)%nat = true)
    as (nodes & Hn & Hs & Htz) by (eexists; split; [vm_compute; reflexivity|split; vm_compute; reflexivity]).
  exists metadata, nodes. split; [exact Hm|split; [exact Hn|]].
  apply (accepted_snapshot_projects sample metadata nodes Hm Hn).
  - intros i n Hi Ht. apply simple_text_plain. rewrite forallb_Forall, Forall_lookup in Hs. specialize (Hs i n Hi).
    cbn beta in Hs. rewrite bool_decide_eq_true_2 in Hs; [exact Hs|exact Ht].
  - apply Nat.leb_le in Htz. unfold DECK_AI_SNAPSHOT_TIMEZONE_CAPACITY. lia.
Defined.

(** The schema lets a time zone of 64 characters through; 64 of two bytes each
    are more than the projection has room for. *)
Lemma long_timezone_not_projected :
  let document := sample_document ([34] ++ concat (replicate 64 [0xc3; 0xa9]) ++ [34]) (literal "Deck") in
  (deck_ai_snapshot_validate document).1 = DECK_AI_SNAPSHOT_ACCEPTED
  /\ (deck_ai_snapshot_project_pages document).1 = false /\ (deck_ai_snapshot_project_codex document).1 = false.
Proof. vm_compute. done. Qed.
