(* ===== verification/SnapshotStore.v ===== *)
(** * The AI snapshot store

    [components/ai_snapshot/deck_ai_snapshot_store.cpp]: the document in
    memory, its checkpoints in a transactional store, and the private worker
    that writes them.  The callers' operations and each critical section of
    the worker run under one mutex and are single steps; what the worker does
    between its critical sections are steps of their own, so callers
    interleave with them.  [SnapshotStoreSpec.v] states what holds in every
    interleaving. *)

From S2P Require Import Prelude Codec TransactionStore TransactionClient SnapshotValidate.

(** ['A' 'I' 'S' '1'], ['A' 'I' 'M' '1'] and ['A' 'I' 'T' '1'] *)
Definition kRecordMagic : bytes := [65; 73; 83; 49].
Definition kMarkerMagic : bytes := [65; 73; 77; 49].
Definition kAttemptMagic : bytes := [65; 73; 84; 49].
Definition kStorageSchemaVersion : Z := 1.
Definition kAttemptRecordSize : nat := 28.

Definition DECK_AI_SNAPSHOT_FLASH_INTERVAL_MS : Z := 30 * 60 * 1000.
Definition DECK_AI_SNAPSHOT_OFFLINE_LIMIT_MS : Z := 24 * 60 * 60 * 1000.

Inductive ClockObservation := clock_valid | clock_invalid | clock_rollback.

Inductive deck_ai_snapshot_store_update_result_t :=
  | DECK_AI_SNAPSHOT_STORE_ACCEPTED_MEMORY
  | DECK_AI_SNAPSHOT_STORE_ACCEPTED_PERSISTED
  | DECK_AI_SNAPSHOT_STORE_ACCEPTED_STORAGE_FAILURE
  | DECK_AI_SNAPSHOT_STORE_UNCHANGED
  | DECK_AI_SNAPSHOT_STORE_MALFORMED
  | DECK_AI_SNAPSHOT_STORE_UNSUPPORTED_VERSION
  | DECK_AI_SNAPSHOT_STORE_PRIVATE_DATA
  | DECK_AI_SNAPSHOT_STORE_INVALID_TIME
  | DECK_AI_SNAPSHOT_STORE_TIME_ROLLBACK.

Inductive deck_ai_snapshot_store_state_t :=
  | DECK_AI_SNAPSHOT_STORE_EMPTY
  | DECK_AI_SNAPSHOT_STORE_FRESH
  | DECK_AI_SNAPSHOT_STORE_STALE
  | DECK_AI_SNAPSHOT_STORE_UNAVAILABLE.

#[export] Instance clock_eq_dec : EqDecision ClockObservation.
Proof. solve_decision. Defined.
#[export] Instance store_result_eq_dec : EqDecision deck_ai_snapshot_store_update_result_t.
Proof. solve_decision. Defined.
#[export] Instance store_state_eq_dec : EqDecision deck_ai_snapshot_store_state_t.
Proof. solve_decision. Defined.

(** Which function pointers and contexts of the options are set. *)
Record deck_ai_snapshot_store_options_t := {
  read_set : bool;
  write_set : bool;
  erase_set : bool;
  storage_context_set : bool;
  open_set : bool;
  close_set : bool;
  provider_context_set : bool;
}.

Definition storage_configured (o : deck_ai_snapshot_store_options_t) : bool :=
  read_set o && write_set o && erase_set o.

Definition storage_empty (o : deck_ai_snapshot_store_options_t) : bool :=
  negb (read_set o) && negb (write_set o) && negb (erase_set o) && negb (storage_context_set o).

Definition provider_configured (o : deck_ai_snapshot_store_options_t) : bool := open_set o && close_set o.

Definition provider_empty (o : deck_ai_snapshot_store_options_t) : bool :=
  negb (open_set o) && negb (close_set o) && negb (provider_context_set o).

(** What [open] of a storage provider answers: its result, whether the adapter
    it filled in is configured, and whether it left a handle. *)
Record opened_storage := { open_result : bool; adapter_configured : bool; handle_given : bool }.

Class StorageProvider (W : Type) := {
  provider_open : M W opened_storage;
  provider_close : M W unit;
}.

(** [pthread_attr_init] and [pthread_create] succeed. *)
Class Threads (W : Type) := {
  pthread_attr_init : M W bool;
  pthread_create : M W bool;
}.

Definition accepted (document : bytes) : bool :=
  bool_decide ((deck_ai_snapshot_validate document).1 = DECK_AI_SNAPSHOT_ACCEPTED).

Definition validate_payload (payload : bytes) : bool := accepted payload.

Definition map_validation_result (result : deck_ai_snapshot_result_t) : deck_ai_snapshot_store_update_result_t :=
  match result with
  | DECK_AI_SNAPSHOT_UNSUPPORTED_VERSION => DECK_AI_SNAPSHOT_STORE_UNSUPPORTED_VERSION
  | DECK_AI_SNAPSHOT_PRIVATE_DATA => DECK_AI_SNAPSHOT_STORE_PRIVATE_DATA
  | _ => DECK_AI_SNAPSHOT_STORE_MALFORMED
  end.

Definition elapsed_at_least (newer older interval : Z) : bool :=
  (older <=? newer) && (interval <=? newer - older).

(** ** The store

    [document] and [checkpoint_document] are the arrays of
    [DECK_AI_SNAPSHOT_MAX_BYTES] bytes.  [configured] stands for
    [configured_storage] and [storage_provider]; [storage] is the adapter as
    long as [persistent] is a store.  Only the worker uses [persistent] and
    [storage_handle]. *)

Record deck_ai_snapshot_store := {
  document : bytes;
  checkpoint_document : bytes;
  document_size : nat;
  metadata : deck_ai_snapshot_metadata_t;
  has_snapshot : bool;
  configured : deck_ai_snapshot_store_options_t;
  storage_handle : bool;
  persistent : option deck_transaction_store;
  persisted_generated_at_ms : Z;
  last_persist_attempt_utc_ms : Z;
  unknown_watermark_started_utc_ms : Z;
  persisted_generation : Z;
  record_status : deck_transaction_record_status_t;
  candidate_record_status : deck_transaction_record_status_t;
  storage_missing : bool;
  storage_ready : bool;
  storage_faulted : bool;
  unreported_storage_failure : bool;
  persistence_needs_reopen : bool;
  attempt_watermark_unknown : bool;
  bootstrap_complete : bool;
  checkpoint_size : nat;
  checkpoint_generated_at_ms : Z;
  checkpoint_attempt_utc_ms : Z;
  latest_apply_utc_ms : Z;
  checkpoint_pending : bool;
  worker_busy : bool;
  stop_requested : bool;
  worker_started : bool;
  worker_exited : bool;
  apply_utc_high_water_ms : Z;
  apply_clock_rollback_latched : bool;
  copy_utc_high_water_ms : Z;
  copy_clock_rollback_latched : bool;
}.

#[export] Instance snapshot_store_rebuild : Rebuild deck_ai_snapshot_store := fun s =>
  Build_deck_ai_snapshot_store (document s) (checkpoint_document s) (document_size s) (metadata s)
    (has_snapshot s) (configured s) (storage_handle s) (persistent s) (persisted_generated_at_ms s)
    (last_persist_attempt_utc_ms s) (unknown_watermark_started_utc_ms s) (persisted_generation s)
    (record_status s) (candidate_record_status s) (storage_missing s) (storage_ready s)
    (storage_faulted s) (unreported_storage_failure s) (persistence_needs_reopen s)
    (attempt_watermark_unknown s) (bootstrap_complete s) (checkpoint_size s)
    (checkpoint_generated_at_ms s) (checkpoint_attempt_utc_ms s) (latest_apply_utc_ms s)
    (checkpoint_pending s) (worker_busy s) (stop_requested s) (worker_started s) (worker_exited s)
    (apply_utc_high_water_ms s) (apply_clock_rollback_latched s) (copy_utc_high_water_ms s)
    (copy_clock_rollback_latched s).

Implicit Type s : deck_ai_snapshot_store.

(** The document in memory, and the queued one. *)
Definition current_document s : bytes := take (document_size s) (document s).
Definition queued_document s : bytes := take (checkpoint_size s) (checkpoint_document s).

(** The observation, and the high-water mark and latch behind it. *)
Definition observe_clock (high_water_ms : Z) (rollback_latched : bool) (trusted_utc_ms : Z)
  : ClockObservation * Z * bool :=
  if trusted_utc_ms =? 0 then (clock_invalid, high_water_ms, rollback_latched)
  else if negb (high_water_ms =? 0) && (trusted_utc_ms <? high_water_ms) then (clock_rollback, high_water_ms, true)
  else (clock_valid, trusted_utc_ms, false).

Definition cache_transaction_status (stored : deck_transaction_store_snapshot_t) s : deck_ai_snapshot_store :=
  let s := s <| record_status := snapshot_record_status stored |>
             <| candidate_record_status := snapshot_candidate_record_status stored |> in
  if snapshot_storage_faulted stored then s <| storage_faulted := true |> else s.

Definition persistent_options : deck_transaction_store_options_t := {|
  record_magic := kRecordMagic;
  marker_magic := kMarkerMagic;
  schema_version := kStorageSchemaVersion;
  payload_capacity := Z.to_nat DECK_AI_SNAPSHOT_MAX_BYTES;
  payload_length_excluded_prefix := 0;
  TransactionStore.validate_payload := validate_payload;
|}.

(** ** The attempt record *)

(** The attempt and the generation time. *)
Definition decode_attempt_record (record : bytes) : option (Z * Z) :=
  if negb (length record =? kAttemptRecordSize)%nat || negb (bool_decide (take 4 record = kAttemptMagic))
     || negb (record.[4] =? kStorageSchemaVersion) || negb (record.[5] =? 0) || negb (record.[6] =? 0)
     || negb (record.[7] =? 0) || negb (LE.read_u32 (drop 24 record) =? crc32 (take 24 record))
  then None
  else
    let attempt := LE.read_u64 (drop 8 record) in
    let generated := LE.read_u64 (drop 16 record) in
    if (attempt =? 0) || (generated =? 0) || (attempt <? generated) then None
    else Some (attempt, generated).

(** The record [write_attempt_record] fills in. *)
Definition attempt_record (attempt_utc_ms generated_at_ms : Z) : bytes :=
  let body := kAttemptMagic ++ [kStorageSchemaVersion; 0; 0; 0] ++ LE.write_u64 attempt_utc_ms
                ++ LE.write_u64 generated_at_ms in
  body ++ LE.write_u32 (crc32 body).

(** ** What a worker reads back

    [r_document] are the [document_size] bytes of the recovered document. *)
Record RecoveredState := {
  r_document : bytes;
  r_metadata : deck_ai_snapshot_metadata_t;
  r_has_snapshot : bool;
  r_persisted_generated_at_ms : Z;
  r_last_persist_attempt_utc_ms : Z;
  r_attempt_watermark_unknown : bool;
  r_persisted_generation : Z;
  r_record_status : deck_transaction_record_status_t;
  r_candidate_record_status : deck_transaction_record_status_t;
  r_storage_faulted : bool;
}.

#[export] Instance recovered_rebuild : Rebuild RecoveredState := fun r =>
  Build_RecoveredState (r_document r) (r_metadata r) (r_has_snapshot r) (r_persisted_generated_at_ms r)
    (r_last_persist_attempt_utc_ms r) (r_attempt_watermark_unknown r) (r_persisted_generation r)
    (r_record_status r) (r_candidate_record_status r) (r_storage_faulted r).

Definition empty_recovered : RecoveredState := {|
  r_document := []; r_metadata := no_metadata; r_has_snapshot := false; r_persisted_generated_at_ms := 0;
  r_last_persist_attempt_utc_ms := 0; r_attempt_watermark_unknown := false; r_persisted_generation := 0;
  r_record_status := DECK_TRANSACTION_RECORD_EMPTY; r_candidate_record_status := DECK_TRANSACTION_RECORD_EMPTY;
  r_storage_faulted := false;
|}.

(** The candidate behind the watermark: the last lines of
    [load_attempt_record]. *)
Definition candidate_watermark (persisted : deck_transaction_store_snapshot_t) (r : RecoveredState) : RecoveredState :=
  if negb (r_attempt_watermark_unknown r) && snapshot_has_candidate persisted
     && negb (length (payload (snapshot_candidate persisted)) =? 0)%nat
  then
    match deck_ai_snapshot_validate (payload (snapshot_candidate persisted)) with
    | (DECK_AI_SNAPSHOT_ACCEPTED, candidate) =>
        if r_last_persist_attempt_utc_ms r <? generated_at_unix_ms candidate
        then r <| r_last_persist_attempt_utc_ms := generated_at_unix_ms candidate |> else r
    | _ => r
    end
  else r.

(** The active record, when it is a document: the last lines of
    [load_persisted_snapshot]. *)
Definition recover_document (persisted : deck_transaction_store_snapshot_t) (r : RecoveredState) : RecoveredState :=
  let payload := payload (snapshot_active persisted) in
  if negb (snapshot_has_active persisted) || (length payload =? 0)%nat
     || (DECK_AI_SNAPSHOT_MAX_BYTES <? Z.of_nat (length payload)) then r
  else
    match deck_ai_snapshot_validate payload with
    | (DECK_AI_SNAPSHOT_ACCEPTED, metadata) =>
        r <| r_document := payload |> <| r_metadata := metadata |> <| r_has_snapshot := true |>
          <| r_persisted_generated_at_ms := generated_at_unix_ms metadata |>
          <| r_persisted_generation := generation (snapshot_active persisted) |>
    | _ => r
    end.

Section storage.
Context {W : Type} `{StorageAdapter W}.

Definition create_transaction_store : M W (option deck_transaction_store) :=
  deck_transaction_store_create persistent_options.

Definition write_attempt_record (attempt_utc_ms generated_at_ms : Z) : M W bool :=
  storage_write DECK_TRANSACTION_STORAGE_METADATA (attempt_record attempt_utc_ms generated_at_ms).

Definition load_attempt_record (persisted : deck_transaction_store_snapshot_t) (r : RecoveredState)
  : M W RecoveredState :=
  read ← storage_read DECK_TRANSACTION_STORAGE_METADATA kAttemptRecordSize;
  let unknown r := r <| r_attempt_watermark_unknown := true |> in
  let faulted r := unknown (r <| r_storage_faulted := true |>) in
  let r :=
    match read with
    | (DECK_TRANSACTION_STORAGE_OK, record) =>
        match decode_attempt_record record with
        | None => faulted r
        | Some (attempt_utc_ms, _) => r <| r_last_persist_attempt_utc_ms := attempt_utc_ms |>
        end
    | (DECK_TRANSACTION_STORAGE_ERROR, _) => faulted r
    | (DECK_TRANSACTION_STORAGE_NOT_FOUND, _) =>
        if snapshot_has_active persisted || snapshot_has_candidate persisted then unknown r else r
    end in
  mret (candidate_watermark persisted r).

Definition load_persisted_snapshot (persistent : deck_transaction_store) : M W RecoveredState :=
  allocated ← heap_alloc;
  if negb allocated then mret (empty_recovered <| r_storage_faulted := true |>)
  else
    let persisted := deck_transaction_store_snapshot persistent in
    let r := empty_recovered
      <| r_record_status := snapshot_record_status persisted |>
      <| r_candidate_record_status := snapshot_candidate_record_status persisted |>
      <| r_storage_faulted := snapshot_storage_faulted persisted |> in
    r ← load_attempt_record persisted r;
    mret (recover_document persisted r).

End storage.

(** ** Queueing a checkpoint *)

Definition persistence_due s (candidate_generated_at_ms trusted_utc_ms : Z) : bool :=
  if (negb (storage_ready s) && negb (persistence_needs_reopen s)) || negb (bootstrap_complete s)
     || negb (worker_started s) || checkpoint_pending s || worker_busy s then false
  else if attempt_watermark_unknown s
          && ((unknown_watermark_started_utc_ms s =? 0)
              || negb (elapsed_at_least trusted_utc_ms (unknown_watermark_started_utc_ms s)
                         DECK_AI_SNAPSHOT_FLASH_INTERVAL_MS)) then false
  else if negb (last_persist_attempt_utc_ms s =? 0)
          && negb (elapsed_at_least trusted_utc_ms (last_persist_attempt_utc_ms s)
                     DECK_AI_SNAPSHOT_FLASH_INTERVAL_MS) then false
  else (persisted_generated_at_ms s =? 0)
       || elapsed_at_least candidate_generated_at_ms (persisted_generated_at_ms s)
            DECK_AI_SNAPSHOT_FLASH_INTERVAL_MS.

Definition mark_storage_failure s : deck_ai_snapshot_store :=
  s <| storage_faulted := true |> <| unreported_storage_failure := true |> <| persistence_needs_reopen := true |>.

Definition queue_current_checkpoint_locked s : bool * deck_ai_snapshot_store :=
  if negb (has_snapshot s) || negb (persistence_due s (generated_at_unix_ms (metadata s)) (latest_apply_utc_ms s))
  then (false, s)
  else
    (true,
     s <| checkpoint_document := write_at (checkpoint_document s) 0 (current_document s) |>
       <| checkpoint_size := document_size s |>
       <| checkpoint_generated_at_ms := generated_at_unix_ms (metadata s) |>
       <| checkpoint_attempt_utc_ms := latest_apply_utc_ms s |>
       <| last_persist_attempt_utc_ms := latest_apply_utc_ms s |>
       <| attempt_watermark_unknown := false |>
       <| unknown_watermark_started_utc_ms := 0 |>
       <| checkpoint_pending := true |>).

(** ** Opening and closing the storage *)

Section opening.
Context {W : Type} `{StorageAdapter W} `{StorageProvider W}.

Definition close_worker_storage s : M W deck_ai_snapshot_store :=
  _ ← (if storage_handle s && close_set (configured s) then provider_close else mret tt);
  mret (s <| persistent := None |> <| storage_handle := false |>).

(** The result and [*recovered], which stays empty on failure. *)
Definition open_worker_storage s : M W (bool * RecoveredState * deck_ai_snapshot_store) :=
  s ← close_worker_storage s;
  opened ← (if provider_configured (configured s) then
              answer ← provider_open;
              if negb (open_result answer) || negb (adapter_configured answer)
              then
                _ ← (if handle_given answer then provider_close else mret tt);
                mret None
              else mret (Some (handle_given answer))
            else mret (Some false));
  match opened with
  | None => mret (false, empty_recovered, s)
  | Some handle =>
      created ← create_transaction_store;
      match created with
      | None =>
          _ ← (if handle : bool then provider_close else mret tt);
          mret (false, empty_recovered, s)
      | Some store =>
          loaded ← load_persisted_snapshot store;
          mret (true, loaded, s <| storage_handle := handle |> <| persistent := Some store |>)
      end
  end.

End opening.

(** ** Publishing what was read back *)

Definition same_document (left right : bytes) : bool := bool_decide (left = right).

Definition publish_recovered_locked (recovered : RecoveredState) (opened : bool) s : deck_ai_snapshot_store :=
  let s := s <| bootstrap_complete := true |> <| storage_ready := opened |> <| storage_missing := negb opened |> in
  if negb opened then
    (mark_storage_failure s) <| attempt_watermark_unknown := true |>
      <| unknown_watermark_started_utc_ms := latest_apply_utc_ms s |>
  else
    let s := s <| record_status := r_record_status recovered |>
      <| candidate_record_status := r_candidate_record_status recovered |>
      <| persisted_generated_at_ms := r_persisted_generated_at_ms recovered |>
      <| last_persist_attempt_utc_ms := r_last_persist_attempt_utc_ms recovered |>
      <| attempt_watermark_unknown := r_attempt_watermark_unknown recovered |>
      <| unknown_watermark_started_utc_ms :=
           if r_attempt_watermark_unknown recovered then latest_apply_utc_ms s else 0 |>
      <| persisted_generation := r_persisted_generation recovered |>
      <| storage_faulted := r_storage_faulted recovered |>
      <| persistence_needs_reopen := r_storage_faulted recovered |> in
    let s := if r_storage_faulted recovered then s <| unreported_storage_failure := true |> else s in
    let same_timestamp := r_has_snapshot recovered && has_snapshot s
      && (generated_at_unix_ms (r_metadata recovered) =? generated_at_unix_ms (metadata s)) in
    let conflicting_same_timestamp :=
      same_timestamp && negb (same_document (r_document recovered) (current_document s)) in
    let recovered_is_authoritative := r_has_snapshot recovered
      && (negb (has_snapshot s)
          || (generated_at_unix_ms (metadata s) <? generated_at_unix_ms (r_metadata recovered))
          || conflicting_same_timestamp) in
    if recovered_is_authoritative then
      s <| document := write_at (document s) 0 (r_document recovered) |>
        <| document_size := length (r_document recovered) |>
        <| metadata := r_metadata recovered |> <| has_snapshot := true |>
    else s.

Definition recovered_supersedes_checkpoint (recovered : RecoveredState) (checkpoint_generated_at_ms : Z) : bool :=
  r_has_snapshot recovered && (checkpoint_generated_at_ms <=? generated_at_unix_ms (r_metadata recovered)).

Definition live_supersedes_checkpoint_locked s (generated_at_ms : Z) (checkpoint : bytes) : bool :=
  has_snapshot s
  && ((generated_at_ms <? generated_at_unix_ms (metadata s))
      || ((generated_at_unix_ms (metadata s) =? generated_at_ms)
          && negb (same_document (current_document s) checkpoint))).

(** ** The worker *)

(** The locals of one turn: the size and times of the checkpoint taken. *)
Record Checkpoint := { cp_size : nat; cp_generated_at_ms : Z; cp_attempt_utc_ms : Z }.

(** Where the worker stands.  Between [worker_waiting] and the next critical
    section it holds no lock. *)
Inductive worker_state :=
  | worker_absent
  | worker_opening
  | worker_opened (opened : bool) (recovered : RecoveredState)
  | worker_waiting
  | worker_reopening (c : Checkpoint)
  | worker_reopened (c : Checkpoint) (persisted_ok : bool) (reopened : RecoveredState)
  | worker_attempting (c : Checkpoint) (persisted_ok : bool)
  | worker_saving (c : Checkpoint) (persisted_ok : bool)
  | worker_saved (c : Checkpoint) (persisted_ok : bool)
  | worker_closing
  | worker_closed
  | worker_done.

(** The wait and the top of the loop: lines 622 to 633.  Without a reason to
    wake up the worker stays where it is. *)
Definition worker_take s : worker_state * deck_ai_snapshot_store :=
  if stop_requested s && negb (checkpoint_pending s) then (worker_closing, s)
  else if negb (checkpoint_pending s) then (worker_waiting, s)
  else
    let c := {| cp_size := checkpoint_size s; cp_generated_at_ms := checkpoint_generated_at_ms s;
                cp_attempt_utc_ms := checkpoint_attempt_utc_ms s |} in
    let reopen_persistence := persistence_needs_reopen s in
    let s := s <| checkpoint_pending := false |> <| worker_busy := true |> in
    (if reopen_persistence then worker_reopening c else worker_attempting c true, s).

(** The critical section behind a reopening. *)
Definition worker_publish_reopened (c : Checkpoint) (persisted_ok : bool) (reopened : RecoveredState) s
  : worker_state * deck_ai_snapshot_store :=
  let checkpoint_obsolete :=
    persisted_ok && recovered_supersedes_checkpoint reopened (cp_generated_at_ms c) in
  let s := publish_recovered_locked reopened persisted_ok s in
  let checkpoint_obsolete := checkpoint_obsolete
    || live_supersedes_checkpoint_locked s (cp_generated_at_ms c) (take (cp_size c) (checkpoint_document s)) in
  if checkpoint_obsolete
  then (worker_waiting, (queue_current_checkpoint_locked (s <| worker_busy := false |>)).2)
  else (worker_attempting c persisted_ok, s).

(** The critical section behind a save. *)
Definition worker_finish (c : Checkpoint) (persisted_ok : bool) s : worker_state * deck_ai_snapshot_store :=
  let persisted := deck_transaction_store_snapshot <$> persistent s in
  let s := match persisted with Some stored => cache_transaction_status stored s | None => s end in
  let s :=
    match persisted with
    | Some stored =>
        if persisted_ok && snapshot_has_active stored
        then s <| persisted_generated_at_ms := cp_generated_at_ms c |>
               <| last_persist_attempt_utc_ms := cp_attempt_utc_ms c |>
               <| persisted_generation := generation (snapshot_active stored) |>
               <| storage_faulted := false |> <| persistence_needs_reopen := false |>
               <| attempt_watermark_unknown := false |> <| unknown_watermark_started_utc_ms := 0 |>
        else mark_storage_failure s
    | None => mark_storage_failure s
    end in
  (worker_waiting, s <| worker_busy := false |>).

Section worker.
Context {W : Type} `{StorageAdapter W} `{StorageProvider W}.

(** [deck_transaction_store_stage] and [deck_transaction_store_commit] of the
    bytes that are in the checkpoint array now; without a store the former
    refuses. *)
Definition worker_save (c : Checkpoint) s : M W (bool * deck_ai_snapshot_store) :=
  match persistent s with
  | None => mret (false, s)
  | Some store =>
      saved ← save store (take (cp_size c) (checkpoint_document s));
      let '(ok, store) := saved in
      mret (ok, s <| persistent := Some store |>)
  end.

(** One step of [persistence_worker]. *)
Definition persistence_worker (at_ : worker_state) s : M W (worker_state * deck_ai_snapshot_store) :=
  match at_ with
  | worker_opening =>
      '(opened, recovered, s) ← open_worker_storage s;
      mret (worker_opened opened recovered, s)
  | worker_opened opened recovered =>
      let s := (publish_recovered_locked recovered opened s) <| worker_busy := false |> in
      mret (worker_waiting, (queue_current_checkpoint_locked s).2)
  | worker_waiting => mret (worker_take s)
  | worker_reopening c =>
      '(persisted_ok, reopened, s) ← open_worker_storage s;
      mret (worker_reopened c persisted_ok reopened, s)
  | worker_reopened c persisted_ok reopened => mret (worker_publish_reopened c persisted_ok reopened s)
  | worker_attempting c persisted_ok =>
      if persisted_ok && negb (bool_decide (persistent s = None)) then
        ok ← write_attempt_record (cp_attempt_utc_ms c) (cp_generated_at_ms c);
        mret (worker_saving c ok, s)
      else mret (worker_saving c persisted_ok, s)
  | worker_saving c persisted_ok =>
      if persisted_ok then
        '(ok, s) ← worker_save c s;
        mret (worker_saved c ok, s)
      else mret (worker_saved c persisted_ok, s)
  | worker_saved c persisted_ok => mret (worker_finish c persisted_ok s)
  | worker_closing => s ← close_worker_storage s; mret (worker_closed, s)
  | worker_closed =>
      mret (worker_done,
            s <| storage_ready := false |> <| worker_busy := false |> <| worker_exited := true |>)
  | worker_absent | worker_done => mret (at_, s)
  end.

(** ** Creation and destruction

    No caller has the store before [create] returns, so that the worker is
    started is one step with setting [worker_started] behind it. *)

Definition start_worker s `{Threads W} : M W (worker_state * deck_ai_snapshot_store) :=
  initialised ← pthread_attr_init;
  if negb initialised then mret (worker_absent, s)
  else
    created ← pthread_create;
    if negb created then mret (worker_absent, s <| worker_started := false |> <| worker_busy := false |>)
    else mret (worker_opening, s <| worker_busy := true |> <| worker_started := true |>).

Definition no_options : deck_ai_snapshot_store_options_t :=
  {| read_set := false; write_set := false; erase_set := false; storage_context_set := false;
     open_set := false; close_set := false; provider_context_set := false |}.

(** A store as constructed, with its two arrays as the heap gave them. *)
Definition new_store (document checkpoint_document : bytes) : deck_ai_snapshot_store := {|
  document := document; checkpoint_document := checkpoint_document; document_size := 0; metadata := no_metadata;
  has_snapshot := false; configured := no_options; storage_handle := false; persistent := None;
  persisted_generated_at_ms := 0; last_persist_attempt_utc_ms := 0; unknown_watermark_started_utc_ms := 0;
  persisted_generation := 0; record_status := DECK_TRANSACTION_RECORD_EMPTY;
  candidate_record_status := DECK_TRANSACTION_RECORD_EMPTY; storage_missing := false; storage_ready := false;
  storage_faulted := false; unreported_storage_failure := false; persistence_needs_reopen := false;
  attempt_watermark_unknown := false; bootstrap_complete := false; checkpoint_size := 0;
  checkpoint_generated_at_ms := 0; checkpoint_attempt_utc_ms := 0; latest_apply_utc_ms := 0;
  checkpoint_pending := false; worker_busy := false; stop_requested := false; worker_started := false;
  worker_exited := false; apply_utc_high_water_ms := 0; apply_clock_rollback_latched := false;
  copy_utc_high_water_ms := 0; copy_clock_rollback_latched := false;
|}.

(** [options] is [None] for a null pointer.  A null result is [None]. *)
Definition deck_ai_snapshot_store_create (options : option deck_ai_snapshot_store_options_t)
    (document checkpoint_document : bytes) `{Threads W} : M W (option (worker_state * deck_ai_snapshot_store)) :=
  allocated ← heap_alloc;
  if negb allocated then mret None
  else
    first ← heap_alloc;
    second ← heap_alloc;
    if negb first || negb second then mret None
    else
      let s := new_store document checkpoint_document in
      match options with
      | None => mret (Some (worker_absent, s <| storage_missing := true |>))
      | Some o =>
          if storage_empty o && provider_empty o
          then mret (Some (worker_absent, s <| storage_missing := true |>))
          else
            let direct_storage := storage_configured o && provider_empty o in
            let delayed_storage := storage_empty o && provider_configured o in
            if negb direct_storage && negb delayed_storage then mret None
            else
              '(at_, s) ← start_worker (s <| configured := o |>);
              mret (Some (at_, if negb (worker_started s)
                               then s <| storage_missing := true |> <| storage_faulted := true |> else s))
      end.

End worker.

(** [deck_ai_snapshot_store_destroy] up to the bounded wait, and behind it: a
    worker that has not exited by then makes it fail.  On success the arrays
    are wiped before they are freed. *)
Definition destroy_request s : deck_ai_snapshot_store :=
  if worker_started s then s <| stop_requested := true |> else s.

Definition deck_ai_snapshot_store_destroy s : bool * deck_ai_snapshot_store :=
  if worker_started s && negb (worker_exited s) then (false, s)
  else (true, s <| worker_started := false |>
                <| document := map (fun _ => 0) (document s) |>
                <| checkpoint_document := map (fun _ => 0) (checkpoint_document s) |>).

(** ** The callers' operations *)

(** Behind the checks of [apply]: lines 852 to 877. *)
Definition apply_document (d : bytes) (candidate : deck_ai_snapshot_metadata_t) (trusted_utc_ms : Z) s
  : deck_ai_snapshot_store_update_result_t * deck_ai_snapshot_store :=
  let terminator := if Z.of_nat (length d) <? DECK_AI_SNAPSHOT_MAX_BYTES then [0] else [] in
  let s := s <| document := write_at (document s) 0 (d ++ terminator) |>
    <| document_size := length d |> <| metadata := candidate |> <| has_snapshot := true |>
    <| latest_apply_utc_ms := trusted_utc_ms |> in
  let s := if attempt_watermark_unknown s && (unknown_watermark_started_utc_ms s =? 0)
           then s <| unknown_watermark_started_utc_ms := trusted_utc_ms |> else s in
  let '(queued, s) := queue_current_checkpoint_locked s in
  (if negb queued
      && (negb (worker_started s)
          || (bootstrap_complete s && (negb (storage_ready s) || storage_missing s || storage_faulted s)))
   then DECK_AI_SNAPSHOT_STORE_ACCEPTED_STORAGE_FAILURE else DECK_AI_SNAPSHOT_STORE_ACCEPTED_MEMORY, s).

Definition deck_ai_snapshot_store_apply s (d : bytes) (trusted_utc_ms : Z)
  : deck_ai_snapshot_store_update_result_t * deck_ai_snapshot_store :=
  match deck_ai_snapshot_validate d with
  | (DECK_AI_SNAPSHOT_ACCEPTED, candidate) =>
      let '(clock, high_water, latched) :=
        observe_clock (apply_utc_high_water_ms s) (apply_clock_rollback_latched s) trusted_utc_ms in
      let s := s <| apply_utc_high_water_ms := high_water |> <| apply_clock_rollback_latched := latched |> in
      match clock with
      | clock_invalid => (DECK_AI_SNAPSHOT_STORE_INVALID_TIME, s)
      | clock_rollback => (DECK_AI_SNAPSHOT_STORE_TIME_ROLLBACK, s)
      | clock_valid =>
          if trusted_utc_ms <? generated_at_unix_ms candidate then (DECK_AI_SNAPSHOT_STORE_INVALID_TIME, s)
          else if has_snapshot s && (generated_at_unix_ms candidate <? generated_at_unix_ms (metadata s))
          then (DECK_AI_SNAPSHOT_STORE_TIME_ROLLBACK, s)
          else if has_snapshot s && (generated_at_unix_ms candidate =? generated_at_unix_ms (metadata s))
          then (if bool_decide (d = current_document s) then DECK_AI_SNAPSHOT_STORE_UNCHANGED
                else DECK_AI_SNAPSHOT_STORE_TIME_ROLLBACK, s)
          else apply_document d candidate trusted_utc_ms s
      end
  | (validation, _) => (map_validation_result validation, s)
  end.

(** The condition [deck_ai_snapshot_store_wait_for_idle] waits for. *)
Definition deck_ai_snapshot_store_wait_for_idle s : bool := negb (checkpoint_pending s) && negb (worker_busy s).

Definition deck_ai_snapshot_store_take_storage_failure s : bool * deck_ai_snapshot_store :=
  (unreported_storage_failure s, s <| unreported_storage_failure := false |>).

Record deck_ai_snapshot_store_snapshot_t := {
  state : deck_ai_snapshot_store_state_t;
  snapshot_record : deck_transaction_record_status_t;
  snapshot_candidate_record : deck_transaction_record_status_t;
  shows_snapshot : bool;
  document_visible : bool;
  quotas_visible : bool;
  snapshot_faulted : bool;
  snapshot_document_size : nat;
  snapshot_persisted_generation : Z;
  snapshot_metadata : deck_ai_snapshot_metadata_t;
}.

#[export] Instance store_snapshot_rebuild : Rebuild deck_ai_snapshot_store_snapshot_t := fun n =>
  Build_deck_ai_snapshot_store_snapshot_t (state n) (snapshot_record n) (snapshot_candidate_record n)
    (shows_snapshot n) (document_visible n) (quotas_visible n) (snapshot_faulted n)
    (snapshot_document_size n) (snapshot_persisted_generation n) (snapshot_metadata n).

(** The freshness of what is in memory, and the marks behind the observation of
    the clock. *)
Definition display_state s (now_utc_ms : Z) (companion_online : bool)
  : deck_ai_snapshot_store_state_t * Z * bool :=
  let '(clock, high_water, latched) :=
    observe_clock (copy_utc_high_water_ms s) (copy_clock_rollback_latched s) now_utc_ms in
  let generated := generated_at_unix_ms (metadata s) in
  (if bool_decide (clock = clock_valid) && negb (apply_clock_rollback_latched s) && negb latched
      && (generated <=? now_utc_ms) && (now_utc_ms - generated <? DECK_AI_SNAPSHOT_OFFLINE_LIMIT_MS)
   then (if companion_online then DECK_AI_SNAPSHOT_STORE_FRESH else DECK_AI_SNAPSHOT_STORE_STALE)
   else DECK_AI_SNAPSHOT_STORE_UNAVAILABLE, high_water, latched).

(** [capacity] is that of the caller's array, [None] for a null pointer.  The
    result, the bytes copied ([*document_size] is their number) and
    [*snapshot]; the clock's marks are [mutable]. *)
Definition deck_ai_snapshot_store_copy s (now_utc_ms : Z) (companion_online : bool) (capacity : option nat)
  : bool * bytes * deck_ai_snapshot_store_snapshot_t * deck_ai_snapshot_store :=
  let snapshot := {|
    state := DECK_AI_SNAPSHOT_STORE_EMPTY; snapshot_record := record_status s;
    snapshot_candidate_record := candidate_record_status s; shows_snapshot := has_snapshot s;
    document_visible := false; quotas_visible := false;
    snapshot_faulted := storage_faulted s || storage_missing s; snapshot_document_size := 0;
    snapshot_persisted_generation := persisted_generation s; snapshot_metadata := metadata s |} in
  if negb (has_snapshot s) then (true, [], snapshot, s)
  else
    let '(shown, high_water, latched) := display_state s now_utc_ms companion_online in
    let s := s <| copy_utc_high_water_ms := high_water |> <| copy_clock_rollback_latched := latched |> in
    let visible := bool_decide (shown = DECK_AI_SNAPSHOT_STORE_FRESH)
                   || bool_decide (shown = DECK_AI_SNAPSHOT_STORE_STALE) in
    let snapshot := snapshot <| state := shown |> <| document_visible := visible |>
                      <| quotas_visible := visible |> in
    if negb visible then (true, [], snapshot, s)
    else
      match capacity with
      | None => (false, [], snapshot, s)
      | Some capacity =>
          if (capacity <? document_size s)%nat then (false, [], snapshot, s)
          else (true, current_document s, snapshot <| snapshot_document_size := document_size s |>, s)
      end.
