(* ===== verification/SnapshotStoreSpec.v ===== *)
(** * The AI snapshot store in every interleaving

    Runs of the store of [SnapshotStore.v]: any sequence of callers'
    operations and worker steps, over any storage, storage provider and heap.
    The invariant of these runs, and what callers see. *)

From S2P Require Import Prelude Codec TransactionStore TransactionClient SnapshotValidate SnapshotStore.

#[local] Opaque deck_ai_snapshot_validate DECK_AI_SNAPSHOT_MAX_BYTES kRecordHeaderSize kChecksumSize kMarkerSize
  crc32 DECK_TRANSACTION_MAX_PAYLOAD_CAPACITY.

(** ** Runs *)

Inductive call :=
  | Apply (d : bytes) (trusted_utc_ms : Z)
  | Copy (now_utc_ms : Z) (companion_online : bool) (capacity : option nat)
  | TakeStorageFailure
  | RequestDestroy.

Definition run_call (c : call) (s : deck_ai_snapshot_store) : deck_ai_snapshot_store :=
  match c with
  | Apply d trusted => (deck_ai_snapshot_store_apply s d trusted).2
  | Copy now online capacity => (deck_ai_snapshot_store_copy s now online capacity).2
  | TakeStorageFailure => (deck_ai_snapshot_store_take_storage_failure s).2
  | RequestDestroy => destroy_request s
  end.

Inductive event := Call (c : call) | Worker.

(** The store, its worker and the world the worker acts on. *)
Record system (W : Type) := { at_ : worker_state; store : deck_ai_snapshot_store; world : W }.
Arguments at_ {W}.
Arguments store {W}.
Arguments world {W}.
Arguments Build_system {W}.

Definition run_event {W} `{StorageAdapter W, StorageProvider W} (y : system W) (e : event) : system W :=
  match e with
  | Call c => {| at_ := at_ y; store := run_call c (store y); world := world y |}
  | Worker =>
      let '((a, s), w) := persistence_worker (at_ y) (store y) (world y) in
      {| at_ := a; store := s; world := w |}
  end.

Definition run {W} `{StorageAdapter W, StorageProvider W} (y : system W) (es : list event) : system W :=
  foldl run_event y es.

(** ** The invariant *)

Definition maximum : nat := Z.to_nat DECK_AI_SNAPSHOT_MAX_BYTES.

Definition valid_document (d : bytes) (m : deck_ai_snapshot_metadata_t) : Prop :=
  deck_ai_snapshot_validate d = (DECK_AI_SNAPSHOT_ACCEPTED, m).

(** The worker works outside the mutex, or is about to. *)
Definition busy (a : worker_state) : bool :=
  match a with
  | worker_absent | worker_waiting | worker_closing | worker_closed | worker_done => false
  | _ => true
  end.

Definition started (a : worker_state) : bool := match a with worker_absent => false | _ => true end.

(** The first critical section is over. *)
Definition booted (a : worker_state) : bool :=
  match a with worker_absent | worker_opening | worker_opened _ _ => false | _ => true end.

(** The checkpoint the worker carries. *)
Definition carried (a : worker_state) : option Checkpoint :=
  match a with
  | worker_reopening c | worker_reopened c _ _ | worker_attempting c _ | worker_saving c _ | worker_saved c _ => Some c
  | _ => None
  end.

(** The first [size] bytes of the checkpoint array are a document of that
    time. *)
Definition checkpoint_holds s (size : nat) (generated : Z) : Prop :=
  (size <= maximum)%nat
  /\ exists m, valid_document (take size (checkpoint_document s)) m /\ generated_at_unix_ms m = generated.

(** What was read back from a store is its active record. *)
Record read_back (r : RecoveredState) (t : deck_transaction_store) : Prop := {
  rb_document : r_has_snapshot r = true ->
    valid_document (r_document r) (r_metadata r) /\ has_active t = true /\ payload (active t) = r_document r
    /\ r_persisted_generation r = generation (active t)
    /\ r_persisted_generated_at_ms r = generated_at_unix_ms (r_metadata r);
  rb_nothing : r_has_snapshot r = false -> r_persisted_generated_at_ms r = 0;
}.

(** The generation time that is shown as persisted is that of the active
    record. *)
Definition reported s : Prop :=
  persisted_generated_at_ms s <> 0 -> exists t m,
    persistent s = Some t /\ has_active t = true /\ valid_document (payload (active t)) m
    /\ generated_at_unix_ms m = persisted_generated_at_ms s /\ persisted_generation s = generation (active t).

(** What the worker knows between its critical sections. *)
Definition worker_knows (a : worker_state) s : Prop :=
  match a with
  | worker_opened true r | worker_reopened _ true r => exists t, persistent s = Some t /\ read_back r t
  | worker_saved c true =>
      exists t, persistent s = Some t /\ has_active t = true
                /\ payload (active t) = take (cp_size c) (checkpoint_document s)
  | worker_waiting => persistence_needs_reopen s = false -> reported s
  | _ => True
  end.

Record store_inv (a : worker_state) s : Prop := {
  inv_document : length (document s) = maximum;
  inv_checkpoint_document : length (checkpoint_document s) = maximum;
  inv_memory : has_snapshot s = true ->
    (document_size s <= maximum)%nat /\ valid_document (current_document s) (metadata s);
  inv_started : worker_started s = started a;
  inv_busy : worker_busy s = busy a;
  inv_booted : bootstrap_complete s = booted a;
  inv_pending : checkpoint_pending s = true ->
    booted a = true /\ busy a = false /\ checkpoint_holds s (checkpoint_size s) (checkpoint_generated_at_ms s)
    /\ last_persist_attempt_utc_ms s = checkpoint_attempt_utc_ms s;
  inv_carried : forall c, carried a = Some c -> checkpoint_holds s (cp_size c) (cp_generated_at_ms c);
  inv_knows : worker_knows a s;
}.

(** The cases of [worker_knows]. *)
Ltac destruct_worker a :=
  destruct a as [| |opened r| |c|c ok r|c ok|c ok|c ok| | |];
  try match goal with b : bool |- _ => destruct b end.

(** ** Documents in the arrays *)

Lemma valid_document_size d m : valid_document d m -> (0 < length d <= maximum)%nat.
Proof.
  unfold valid_document, maximum. intros Hv. Transparent deck_ai_snapshot_validate.
  unfold deck_ai_snapshot_validate in Hv. Opaque deck_ai_snapshot_validate.
  destruct (_ || _) eqn:E; [done|]. bool_prop. lia.
Qed.

Lemma accepted_valid d : accepted d = true -> exists m, valid_document d m.
Proof.
  unfold accepted, valid_document. case_bool_decide as E; [|done]. intros _.
  destruct (deck_ai_snapshot_validate d) as [r m]. simpl in E. subst r. by exists m.
Qed.

Lemma take_written buf d rest : take (length d) (write_at buf 0 (d ++ rest)) = d.
Proof. unfold write_at. rewrite take_0, <- app_assoc. by rewrite app_nil_l, take_app_length. Qed.

Lemma take_written_all buf d : take (length d) (write_at buf 0 d) = d.
Proof. pose proof (take_written buf d []) as H. by rewrite app_nil_r in H. Qed.

(** ** Queueing *)

Lemma due_idle s generated now :
  persistence_due s generated now = true ->
  bootstrap_complete s = true /\ worker_started s = true /\ checkpoint_pending s = false /\ worker_busy s = false
  /\ (storage_ready s = true \/ persistence_needs_reopen s = true)
  /\ (persisted_generated_at_ms s = 0
      \/ elapsed_at_least generated (persisted_generated_at_ms s) DECK_AI_SNAPSHOT_FLASH_INTERVAL_MS = true).
Proof.
  unfold persistence_due. destruct (_ || worker_busy s) eqn:E; [done|]. bool_prop.
  destruct (attempt_watermark_unknown s && _); [done|]. destruct (negb (last_persist_attempt_utc_ms s =? 0) && _); [done|].
  intros [Hd|Hd]%orb_true_iff; bool_prop.
  all: split_and!; auto using andb_false_iff.
  all: match goal with H : _ && _ = false |- _ => apply andb_false_iff in H as [H|H]; bool_prop; auto end.
Qed.

(** A queued checkpoint, if any, is the document in memory. *)
Lemma queue_cases s q s' :
  queue_current_checkpoint_locked s = (q, s') ->
  if q then
    has_snapshot s = true /\ persistence_due s (generated_at_unix_ms (metadata s)) (latest_apply_utc_ms s) = true
  else s' = s.
Proof.
  unfold queue_current_checkpoint_locked. destruct (_ || _) eqn:E; [by intros [= <- <-]|].
  bool_prop. by intros [= <- <-].
Qed.

Lemma idle_carries_nothing a : busy a = false -> carried a = None.
Proof. by destruct a. Qed.

Lemma length_current s : (document_size s <= length (document s))%nat -> length (current_document s) = document_size s.
Proof. intros. unfold current_document. rewrite length_take. lia. Qed.

Lemma queue_inv a s : store_inv a s -> store_inv a (queue_current_checkpoint_locked s).2.
Proof.
  intros Hi. destruct (queue_current_checkpoint_locked s) as [q s'] eqn:Eq. pose proof (queue_cases _ _ _ Eq) as Hq.
  cbn [snd]. destruct q; [|by subst s'].
  destruct Hq as [Hs Hdue]. apply due_idle in Hdue as (Hboot & Hstart & _ & Hidle & _).
  unfold queue_current_checkpoint_locked in Eq. destruct (_ || _); [done|]. injection Eq as <-.
  destruct Hi as [Hd Hc Hm Hst Hbu Hbo _ Hca Hk]. destruct (Hm Hs) as [Hsize Hdoc].
  assert (length (current_document s) = document_size s) as Hl by (apply length_current; lia).
  split; cbn; [exact Hd| |intros _; by apply Hm|exact Hst|exact Hbu|exact Hbo| | |].
  - rewrite length_write_at; [exact Hc|]. lia.
  - intros _. rewrite <- Hbo, <- Hbu. split; [exact Hboot|]. split; [exact Hidle|]. split; [|reflexivity].
    split; [exact Hsize|]. exists (metadata s). split; [|reflexivity]. cbn. rewrite <- Hl, take_written_all. exact Hdoc.
  - intros c. rewrite idle_carries_nothing by congruence. discriminate.
  - rewrite Hbu in Hidle. destruct_worker a; try discriminate Hidle; try exact I. exact Hk.
Qed.

(** ** The callers' operations *)

(** An operation that leaves alone what the invariant speaks of, but for the
    document in memory. *)
Record calm s s' : Prop := {
  cm_checkpoint_document : checkpoint_document s' = checkpoint_document s;
  cm_checkpoint_size : checkpoint_size s' = checkpoint_size s;
  cm_checkpoint_time : checkpoint_generated_at_ms s' = checkpoint_generated_at_ms s;
  cm_checkpoint_attempt : checkpoint_attempt_utc_ms s' = checkpoint_attempt_utc_ms s;
  cm_last_attempt : last_persist_attempt_utc_ms s' = last_persist_attempt_utc_ms s;
  cm_started : worker_started s' = worker_started s;
  cm_busy : worker_busy s' = worker_busy s;
  cm_booted : bootstrap_complete s' = bootstrap_complete s;
  cm_pending : checkpoint_pending s' = checkpoint_pending s;
  cm_reopen : persistence_needs_reopen s' = persistence_needs_reopen s;
  cm_persistent : persistent s' = persistent s;
  cm_generated : persisted_generated_at_ms s' = persisted_generated_at_ms s;
  cm_generation : persisted_generation s' = persisted_generation s;
}.

Lemma checkpoint_holds_calm s s' size generated :
  checkpoint_document s' = checkpoint_document s -> checkpoint_holds s size generated ->
  checkpoint_holds s' size generated.
Proof. unfold checkpoint_holds. by intros ->. Qed.

Lemma calm_inv a s s' :
  store_inv a s -> calm s s' -> length (document s') = maximum ->
  (has_snapshot s' = true -> (document_size s' <= maximum)%nat /\ valid_document (current_document s') (metadata s')) ->
  store_inv a s'.
Proof.
  intros [Hd Hc Hm Hst Hbu Hbo Hp Hca Hk] [E1 E2 E3 Ea El E4 E5 E6 E7 E8 E9 E10 E11] Hd' Hm'.
  split; [exact Hd'| |exact Hm'| | | | | |].
  1: by rewrite E1. 1: by rewrite E4. 1: by rewrite E5. 1: by rewrite E6.
  - rewrite E7, E2, E3, Ea, El. intros Hpe. destruct (Hp Hpe) as (? & ? & Hh & ?).
    split; [assumption|]. split; [assumption|]. split; [|assumption]. exact (checkpoint_holds_calm _ _ _ _ E1 Hh).
  - intros c Hcar. eapply checkpoint_holds_calm; [exact E1|by apply Hca].
  - unfold worker_knows, reported in *. by rewrite E8, E9, E10, E11, E1.
Qed.

Lemma written_document s d m rest :
  valid_document d m -> (length (d ++ rest) <= length (document s))%nat ->
  length (write_at (document s) 0 (d ++ rest)) = length (document s)
  /\ valid_document (take (length d) (write_at (document s) 0 (d ++ rest))) m.
Proof. intros Hv Hl. rewrite take_written, length_write_at by done. done. Qed.

Lemma apply_document_inv a s d m trusted :
  store_inv a s -> valid_document d m -> store_inv a (apply_document d m trusted s).2.
Proof.
  intros Hi Hv. pose proof (valid_document_size _ _ Hv) as Hl. unfold apply_document.
  set (terminator := if _ <? _ then [0] else []).
  assert (length (d ++ terminator) <= length (document s))%nat as Hfit.
  { rewrite (inv_document _ _ Hi), length_app. subst terminator. unfold maximum in *. case_match; simpl; lia. }
  destruct (written_document s d m terminator Hv Hfit) as [Hd Hdoc].
  match goal with |- context [if ?b then ?s1 <| unknown_watermark_started_utc_ms := _ |> else ?s2] =>
    set (s0 := if b then _ else _) end.
  assert (store_inv a s0) as H0.
  { apply (calm_inv a s); [done| | |]; subst s0; case_match; simpl.
    1, 2: by split. 1, 2: by rewrite Hd, (inv_document _ _ Hi). all: split; [lia|exact Hdoc]. }
  apply queue_inv in H0. by destruct (queue_current_checkpoint_locked s0).
Qed.

Lemma apply_inv a s d trusted : store_inv a s -> store_inv a (deck_ai_snapshot_store_apply s d trusted).2.
Proof.
  intros Hi. unfold deck_ai_snapshot_store_apply.
  destruct (deck_ai_snapshot_validate d) as [r m] eqn:Hv. destruct r; try done.
  destruct (observe_clock _ _ _) as [[clock high] latched].
  set (s1 := s <| apply_utc_high_water_ms := high |> <| apply_clock_rollback_latched := latched |>).
  assert (store_inv a s1) as H1
    by (apply (calm_inv a s); [done|by split|apply (inv_document _ _ Hi)|exact (inv_memory _ _ Hi)]).
  destruct clock; try done. repeat (case_match; try done). by apply apply_document_inv.
Qed.

Lemma copy_inv a s now online capacity :
  store_inv a s -> store_inv a (deck_ai_snapshot_store_copy s now online capacity).2.
Proof.
  intros Hi. unfold deck_ai_snapshot_store_copy. destruct (negb (has_snapshot s)); [done|].
  destruct (display_state s now online) as [[shown high] latched].
  set (s1 := s <| copy_utc_high_water_ms := high |> <| copy_clock_rollback_latched := latched |>).
  assert (store_inv a s1) as H1
    by (apply (calm_inv a s); [done|by split|apply (inv_document _ _ Hi)|exact (inv_memory _ _ Hi)]).
  by repeat case_match.
Qed.

Lemma call_inv a s c : store_inv a s -> store_inv a (run_call c s).
Proof.
  intros Hi. destruct c; simpl; [by apply apply_inv|by apply copy_inv| |].
  - apply (calm_inv a s); [done|by split|apply (inv_document _ _ Hi)|exact (inv_memory _ _ Hi)].
  - unfold destroy_request. case_match; [|done].
    apply (calm_inv a s); [done|by split|apply (inv_document _ _ Hi)|exact (inv_memory _ _ Hi)].
Qed.

(** ** Publishing what was read back *)

(** What publishing leaves alone, and what holds behind it. *)
Record publishes (opened : bool) s s' : Prop := {
  pb_checkpoint_document : checkpoint_document s' = checkpoint_document s;
  pb_checkpoint_size : checkpoint_size s' = checkpoint_size s;
  pb_checkpoint_time : checkpoint_generated_at_ms s' = checkpoint_generated_at_ms s;
  pb_started : worker_started s' = worker_started s;
  pb_busy : worker_busy s' = worker_busy s;
  pb_booted : bootstrap_complete s' = true;
  pb_pending : checkpoint_pending s' = checkpoint_pending s;
  pb_stop : stop_requested s' = stop_requested s;
  pb_persistent : persistent s' = persistent s;
  pb_apply_time : latest_apply_utc_ms s' = latest_apply_utc_ms s;
  pb_ready : storage_ready s' = opened;
  pb_length : length (document s') = length (document s);
  pb_memory : has_snapshot s' = true ->
    (document_size s' <= maximum)%nat /\ valid_document (current_document s') (metadata s');
  pb_reported : persistence_needs_reopen s' = false -> opened = true /\ reported s';
}.

(** The store behind the first half of publishing what was read. *)
Definition cache_recovered (recovered : RecoveredState) s : deck_ai_snapshot_store :=
  let s := s <| bootstrap_complete := true |> <| storage_ready := true |> <| storage_missing := false |>
      <| record_status := r_record_status recovered |>
      <| candidate_record_status := r_candidate_record_status recovered |>
      <| persisted_generated_at_ms := r_persisted_generated_at_ms recovered |>
      <| last_persist_attempt_utc_ms := r_last_persist_attempt_utc_ms recovered |>
      <| attempt_watermark_unknown := r_attempt_watermark_unknown recovered |>
      <| unknown_watermark_started_utc_ms :=
           if r_attempt_watermark_unknown recovered then latest_apply_utc_ms s else 0 |>
      <| persisted_generation := r_persisted_generation recovered |>
      <| storage_faulted := r_storage_faulted recovered |>
      <| persistence_needs_reopen := r_storage_faulted recovered |> in
  if r_storage_faulted recovered then s <| unreported_storage_failure := true |> else s.

(** What was read takes the place of the document in memory. *)
Definition authoritative (recovered : RecoveredState) s : bool :=
  r_has_snapshot recovered
  && (negb (has_snapshot s)
      || (generated_at_unix_ms (metadata s) <? generated_at_unix_ms (r_metadata recovered))
      || (r_has_snapshot recovered && has_snapshot s
          && (generated_at_unix_ms (r_metadata recovered) =? generated_at_unix_ms (metadata s))
          && negb (same_document (r_document recovered) (current_document s)))).

Lemma publish_opened r s :
  publish_recovered_locked r true s =
  if authoritative r s
  then (cache_recovered r s) <| document := write_at (document s) 0 (r_document r) |>
         <| document_size := length (r_document r) |> <| metadata := r_metadata r |> <| has_snapshot := true |>
  else cache_recovered r s.
Proof. unfold publish_recovered_locked, cache_recovered, authoritative, current_document. by destruct (r_storage_faulted r). Qed.

(** The fields that caching what was read does not touch. *)
Lemma cache_frame r s :
  let s' := cache_recovered r s in
  document s' = document s /\ document_size s' = document_size s /\ metadata s' = metadata s
  /\ has_snapshot s' = has_snapshot s /\ checkpoint_document s' = checkpoint_document s
  /\ checkpoint_size s' = checkpoint_size s /\ checkpoint_generated_at_ms s' = checkpoint_generated_at_ms s
  /\ worker_started s' = worker_started s /\ worker_busy s' = worker_busy s
  /\ checkpoint_pending s' = checkpoint_pending s /\ stop_requested s' = stop_requested s
  /\ persistent s' = persistent s /\ latest_apply_utc_ms s' = latest_apply_utc_ms s
  /\ bootstrap_complete s' = true /\ storage_ready s' = true
  /\ persistence_needs_reopen s' = r_storage_faulted r
  /\ persisted_generated_at_ms s' = r_persisted_generated_at_ms r
  /\ persisted_generation s' = r_persisted_generation r.
Proof. unfold cache_recovered. destruct (r_storage_faulted r); repeat (split; [reflexivity|]); reflexivity. Qed.

Lemma read_back_reported r t s :
  read_back r t -> persistent s = Some t -> persisted_generated_at_ms s = r_persisted_generated_at_ms r ->
  persisted_generation s = r_persisted_generation r -> reported s.
Proof.
  intros [Hd Hn] Ht E1 E2. unfold reported. rewrite E1, E2, Ht. intros Hz.
  destruct (r_has_snapshot r); [|by rewrite Hn in Hz]. destruct (Hd eq_refl) as (Hv & Ha & Hp & Hg & Hm).
  exists t, (r_metadata r). rewrite Hp. by split_and!.
Qed.

Lemma publish_publishes a r opened s :
  store_inv a s -> (opened = true -> exists t, persistent s = Some t /\ read_back r t) ->
  publishes opened s (publish_recovered_locked r opened s).
Proof.
  intros Hi Hr. pose proof (inv_memory _ _ Hi) as Hm. destruct opened.
  - destruct (Hr eq_refl) as (t & Ht & Hrb). rewrite publish_opened.
    destruct (cache_frame r s) as (E1 & E2 & E3 & E4 & E5 & E6 & E7 & E8 & E9 & E10 & E11 & E12 & E13 & E14 & E15 & E16 & E17 & E18).
    assert (reported (cache_recovered r s)) as Hrep by (eapply read_back_reported; eauto; congruence).
    revert Hrep E1 E2 E3 E4 E5 E6 E7 E8 E9 E10 E11 E12 E13 E14 E15 E16 E17 E18. generalize (cache_recovered r s) as s1. intros.
    destruct (authoritative r s) eqn:Ha.
    + unfold authoritative in Ha. apply andb_true_iff in Ha as [Hhas _]. destruct (rb_document _ _ Hrb Hhas) as (Hv & _).
      pose proof (valid_document_size _ _ Hv) as Hl.
      split; cbn; [assumption..| | |].
      * rewrite length_write_at; [done|]. rewrite (inv_document _ _ Hi). lia.
      * intros _. split; [lia|]. unfold current_document. cbn. by rewrite take_written_all.
      * intros _. split; [reflexivity|exact Hrep].
    + split; [assumption..|by rewrite E1| |by split].
      unfold current_document. by rewrite E1, E2, E3, E4.
  - split; try reflexivity; [exact Hm|discriminate].
Qed.

(** ** The worker *)

Section storage.
Context {W : Type} `{StorageAdapter W} `{StorageProvider W}.

(** Nothing was recovered. *)
Definition nothing_read (r : RecoveredState) : Prop :=
  r_has_snapshot r = false /\ r_persisted_generated_at_ms r = 0.

Lemma nothing_read_back r t : nothing_read r -> read_back r t.
Proof. intros [Hs Hg]. split; [|done]. rewrite Hs. discriminate. Qed.

Lemma candidate_watermark_reads p r : nothing_read r -> nothing_read (candidate_watermark p r).
Proof. intros [Hs Hg]. unfold candidate_watermark. by repeat case_match. Qed.

Lemma load_attempt_reads p r (w : W) r' w' :
  load_attempt_record p r w = (r', w') -> nothing_read r -> nothing_read r'.
Proof.
  unfold load_attempt_record. rewrite run_bind.
  destruct (storage_read _ _ w) as [[result record] w1]. cbn [fst snd]. rewrite run_ret. intros [= <- _] [Hs Hg].
  apply candidate_watermark_reads. by repeat case_match.
Qed.

Lemma recover_document_reads t r : nothing_read r -> read_back (recover_document (deck_transaction_store_snapshot t) r) t.
Proof.
  intros Hr. unfold recover_document. cbn [snapshot_active snapshot_has_active deck_transaction_store_snapshot].
  destruct (_ || _) eqn:E; [by apply nothing_read_back|]. bool_prop.
  destruct (deck_ai_snapshot_validate (payload (active t))) as [res m] eqn:Hv.
  destruct res; try (by apply nothing_read_back). split; [|discriminate]. intros _. by split_and!.
Qed.

Lemma load_read_back t (w : W) r w' : load_persisted_snapshot t w = (r, w') -> read_back r t.
Proof.
  unfold load_persisted_snapshot. rewrite run_bind. destruct (heap_alloc w) as [[] w1]; cbn [fst snd negb];
    [|rewrite run_ret; intros [= <- _]; by apply nothing_read_back].
  rewrite run_bind. destruct (load_attempt_record _ _ w1) as [r1 w2] eqn:Hl. cbn [fst snd].
  rewrite run_ret. intros [= <- _]. by apply recover_document_reads, (load_attempt_reads _ _ _ _ _ Hl).
Qed.

Lemma close_cases s (w : W) s' w' :
  close_worker_storage s w = (s', w') -> s' = s <| persistent := None |> <| storage_handle := false |>.
Proof.
  unfold close_worker_storage. rewrite run_bind.
  match goal with |- context [(if ?b then ?x else ?y) w] => destruct ((if b then x else y) w) as [[] w1] end.
  rewrite run_ret. by intros [= <- _].
Qed.

(** Opening changes the worker's own fields only. *)
Lemma open_cases s (w : W) ok r s' w' :
  open_worker_storage s w = ((ok, r, s'), w') ->
  exists t handle, s' = s <| persistent := t |> <| storage_handle := handle |>
    /\ if ok then exists t', t = Some t' /\ read_back r t' /\ records_valid t'
                  /\ options t' = created_options persistent_options
       else r = empty_recovered.
Proof.
  unfold open_worker_storage. rewrite run_bind. destruct (close_worker_storage s w) as [s1 w1] eqn:Hclose.
  apply close_cases in Hclose as ->. cbn [fst snd]. rewrite run_bind.
  match goal with |- context [(if ?b then ?x else ?y) w1] => destruct ((if b then x else y) w1) as [[handle|] w2] end;
    cbn [fst snd].
  2: { rewrite run_ret. intros [= <- <- <- _]. by exists None, false. }
  rewrite run_bind. destruct (create_transaction_store w2) as [[t|] w3] eqn:Hc; cbn [fst snd].
  - rewrite run_bind. destruct (load_persisted_snapshot t w3) as [r1 w4] eqn:Hl. cbn [fst snd]. rewrite run_ret.
    intros [= <- <- <- _]. exists (Some t), handle. split; [done|]. exists t.
    apply create_valid in Hc as [? ?]. split_and!; try done. by eapply load_read_back.
  - rewrite run_bind. match goal with |- context [(if ?b then ?x else ?y) w3] =>
      destruct ((if b then x else y) w3) as [[] w4] end; cbn [fst snd].
    rewrite run_ret. intros [= <- <- <- _]. by exists None, false.
Qed.

(** Behind publishing, the worker waits or goes on with its checkpoint. *)
Lemma published_waits a s s' opened :
  store_inv a s -> busy a = true -> publishes opened s s' -> store_inv worker_waiting (s' <| worker_busy := false |>).
Proof.
  intros Hi Hb Hp. pose proof (inv_busy _ _ Hi) as Hbu.
  split; cbn; [by rewrite (pb_length _ _ _ Hp), (inv_document _ _ Hi)
    |by rewrite (pb_checkpoint_document _ _ _ Hp), (inv_checkpoint_document _ _ Hi)
    |exact (pb_memory _ _ _ Hp)| |reflexivity|exact (pb_booted _ _ _ Hp)| |discriminate|].
  - rewrite (pb_started _ _ _ Hp), (inv_started _ _ Hi). by destruct a.
  - rewrite (pb_pending _ _ _ Hp). intros Hpe. apply (inv_pending _ _ Hi) in Hpe as (_ & Hf & _). congruence.
  - intros Hn. by apply (pb_reported _ _ _ Hp).
Qed.

Lemma published_attempts c ok r s s' opened ok' :
  store_inv (worker_reopened c ok r) s -> publishes opened s s' -> store_inv (worker_attempting c ok') s'.
Proof.
  intros Hi Hp.
  split; cbn; [by rewrite (pb_length _ _ _ Hp), (inv_document _ _ Hi)
    |by rewrite (pb_checkpoint_document _ _ _ Hp), (inv_checkpoint_document _ _ Hi)
    |exact (pb_memory _ _ _ Hp)|by rewrite (pb_started _ _ _ Hp), (inv_started _ _ Hi)
    |by rewrite (pb_busy _ _ _ Hp), (inv_busy _ _ Hi)|exact (pb_booted _ _ _ Hp)| | |exact I].
  - rewrite (pb_pending _ _ _ Hp). intros Hpe. apply (inv_pending _ _ Hi) in Hpe as (_ & Hf & _). discriminate.
  - intros c' [= <-]. eapply checkpoint_holds_calm; [exact (pb_checkpoint_document _ _ _ Hp)|].
    by apply (inv_carried _ _ Hi).
Qed.

(** A step of the worker that changes no field the invariant depends on but the
    two that tell where it stands. *)
Lemma moved_inv a a' s s' :
  store_inv a s -> busy a = true -> busy a' = true -> booted a' = booted a ->
  (forall c, carried a' = Some c -> carried a = Some c) ->
  document s' = document s -> document_size s' = document_size s -> metadata s' = metadata s ->
  has_snapshot s' = has_snapshot s -> checkpoint_document s' = checkpoint_document s ->
  worker_started s' = worker_started s -> worker_busy s' = worker_busy s ->
  bootstrap_complete s' = bootstrap_complete s -> checkpoint_pending s' = checkpoint_pending s ->
  worker_knows a' s' -> store_inv a' s'.
Proof.
  intros Hi Hb Hb' Hbo Hca E1 E2 E3 E4 E5 E6 E7 E8 E9 Hk.
  split; [by rewrite E1, (inv_document _ _ Hi)|by rewrite E5, (inv_checkpoint_document _ _ Hi)
    |unfold current_document; rewrite E1, E2, E3, E4; exact (inv_memory _ _ Hi)| | | | | |exact Hk].
  - rewrite E6, (inv_started _ _ Hi). destruct a, a'; done.
  - by rewrite E7, (inv_busy _ _ Hi), Hb, Hb'.
  - by rewrite E8, (inv_booted _ _ Hi), Hbo.
  - rewrite E9. intros Hpe. apply (inv_pending _ _ Hi) in Hpe as (_ & Hf & _). congruence.
  - intros c Hc. eapply checkpoint_holds_calm; [exact E5|]. by apply (inv_carried _ _ Hi), Hca.
Qed.

Lemma take_inv s : store_inv worker_waiting s -> store_inv (worker_take s).1 (worker_take s).2.
Proof.
  intros Hi. unfold worker_take. destruct (stop_requested s && negb (checkpoint_pending s)) eqn:Hstop; cbn [fst snd].
  - destruct Hi as [Hd Hc Hm Hst Hbu Hbo Hp Hca Hk]. by split.
  - destruct (checkpoint_pending s) eqn:Hpe; cbn [negb fst snd]; [|exact Hi].
    destruct (inv_pending _ _ Hi Hpe) as (_ & _ & Hh & _).
    pose proof (inv_started _ _ Hi) as Hst. pose proof (inv_booted _ _ Hi) as Hbo.
    set (c := {| cp_size := checkpoint_size s |}).
    destruct (persistence_needs_reopen s); (split; cbn;
      [exact (inv_document _ _ Hi)|exact (inv_checkpoint_document _ _ Hi)|exact (inv_memory _ _ Hi)|exact Hst
      |reflexivity|exact Hbo|discriminate|by intros ? [= <-]|exact I]).
Qed.

Lemma worker_finish_inv c ok s : store_inv (worker_saved c ok) s -> store_inv worker_waiting (worker_finish c ok s).2.
Proof.
  intros Hi. pose proof (inv_carried _ _ Hi c eq_refl) as (_ & m & Hv & Hg). pose proof (inv_knows _ _ Hi) as Hk.
  pose proof (inv_pending _ _ Hi) as Hpe. pose proof (inv_started _ _ Hi) as Hst. pose proof (inv_booted _ _ Hi) as Hbo.
  assert (forall s', document s' = document s -> document_size s' = document_size s -> metadata s' = metadata s ->
    has_snapshot s' = has_snapshot s -> checkpoint_document s' = checkpoint_document s ->
    worker_started s' = worker_started s -> bootstrap_complete s' = bootstrap_complete s ->
    checkpoint_pending s' = checkpoint_pending s -> (persistence_needs_reopen s' = false -> reported s') ->
    store_inv worker_waiting (s' <| worker_busy := false |>)) as Hgo.
  { intros s' E1 E2 E3 E4 E5 E6 E8 E9 Hrep.
    split; cbn; [by rewrite E1, (inv_document _ _ Hi)|by rewrite E5, (inv_checkpoint_document _ _ Hi)
      |unfold current_document; cbn; rewrite E1, E2, E3, E4; exact (inv_memory _ _ Hi)
      |by rewrite E6|reflexivity|by rewrite E8| |discriminate|exact Hrep].
    rewrite E9. intros Hp. by apply Hpe in Hp as (_ & ? & _). }
  unfold worker_finish. cbn [snd]. destruct (persistent s) as [t|] eqn:Ht; cbn [fmap option_fmap option_map].
  - unfold cache_transaction_status. destruct ok; cbn [andb snapshot_has_active deck_transaction_store_snapshot].
    + destruct Hk as (t' & Et & Ha & Hp). rewrite Ht in Et. injection Et as <-. rewrite Ha.
      destruct (snapshot_storage_faulted _); (apply Hgo; cbn; try reflexivity); intros _; unfold reported; cbn;
        intros _; exists t, m; rewrite Hp; repeat (split; [assumption|]); reflexivity.
    + destruct (snapshot_storage_faulted _); (apply Hgo; cbn; try reflexivity); discriminate.
  - apply Hgo; cbn; try reflexivity. discriminate.
Qed.

Lemma worker_inv a s (w : W) a' s' w' :
  store_inv a s -> persistence_worker a s w = ((a', s'), w') -> store_inv a' s'.
Proof.
  intros Hi. destruct a as [| |opened r| |c|c ok r|c ok|c ok|c ok| | |]; cbn [persistence_worker].
  - rewrite run_ret. by intros [= <- <- _].
  - rewrite run_bind. destruct (open_worker_storage s w) as [[[ok r] s1] w1] eqn:Ho. cbn [fst snd]. rewrite run_ret.
    apply open_cases in Ho as (t & handle & -> & Hok). intros [= <- <- _].
    apply (moved_inv worker_opening _ s); try reflexivity; [done|done|].
    destruct ok; [|exact I]. destruct Hok as (t' & -> & Hrb & _). by exists t'.
  - rewrite run_ret. intros [= <- <- _]. apply queue_inv.
    eapply (published_waits _ s); [exact Hi|done|]. eapply publish_publishes; [exact Hi|].
    intros ->. exact (inv_knows _ _ Hi).
  - rewrite run_ret. intros [= E _]. apply take_inv in Hi. by rewrite E in Hi.
  - rewrite run_bind. destruct (open_worker_storage s w) as [[[ok r] s1] w1] eqn:Ho. cbn [fst snd]. rewrite run_ret.
    apply open_cases in Ho as (t & handle & -> & Hok). intros [= <- <- _].
    apply (moved_inv (worker_reopening c) _ s); try reflexivity; [done|done|].
    destruct ok; [|exact I]. destruct Hok as (t' & -> & Hrb & _). by exists t'.
  - rewrite run_ret. intros [= E _]. unfold worker_publish_reopened in E.
    assert (publishes ok s (publish_recovered_locked r ok s)) as Hp
      by (eapply publish_publishes; [exact Hi|intros ->; exact (inv_knows _ _ Hi)]).
    destruct (_ || _); injection E as <- <-.
    + apply queue_inv. by eapply published_waits.
    + by eapply published_attempts.
  - destruct (_ && _).
    + rewrite run_bind. destruct (write_attempt_record _ _ w) as [ok' w1]. cbn [fst snd]. rewrite run_ret.
      intros [= <- <- _]. by apply (moved_inv (worker_attempting c ok) _ s).
    + rewrite run_ret. intros [= <- <- _]. by apply (moved_inv (worker_attempting c ok) _ s).
  - destruct ok.
    + rewrite run_bind. unfold worker_save. destruct (persistent s) as [t|] eqn:Ht.
      * rewrite run_bind. destruct (save t _ w) as [[ok t'] w1] eqn:Hs. cbn [fst snd]. rewrite !run_ret. cbn [fst snd].
        intros [= <- <- _]. apply (moved_inv (worker_saving c true) _ s); try reflexivity; [done|done|].
        destruct ok; [|exact I]. apply save_cases in Hs as (_ & Ha & Hp & _). by exists t'.
      * rewrite !run_ret. cbn [fst snd]. intros [= <- <- _]. by apply (moved_inv (worker_saving c true) _ s).
    + rewrite run_ret. intros [= <- <- _]. by apply (moved_inv (worker_saving c false) _ s).
  - rewrite run_ret. intros [= <- <- _]. exact (worker_finish_inv _ _ _ Hi).
  - rewrite run_bind. destruct (close_worker_storage s w) as [s1 w1] eqn:Hc. cbn [fst snd]. rewrite run_ret.
    apply close_cases in Hc as ->. intros [= <- <- _]. destruct Hi as [Hd Hc Hm Hst Hbu Hbo Hp Hca Hk].
    split; [exact Hd|exact Hc|exact Hm|exact Hst|exact Hbu|exact Hbo|exact Hp|done|exact I].
  - rewrite run_ret. intros [= <- <- _]. destruct Hi as [Hd Hc Hm Hst Hbu Hbo Hp Hca Hk].
    split; [exact Hd|exact Hc|exact Hm|exact Hst|reflexivity|exact Hbo|exact Hp|done|exact I].
  - rewrite run_ret. by intros [= <- <- _].
Qed.

Lemma event_inv (y : system W) e :
  store_inv (at_ y) (store y) -> store_inv (at_ (run_event y e)) (store (run_event y e)).
Proof.
  intros Hi. destruct e as [c|]; cbn; [by apply call_inv|].
  destruct (persistence_worker (at_ y) (store y) (world y)) as [[a s] w] eqn:Hw. by eapply worker_inv.
Qed.

Lemma run_inv es (y : system W) : store_inv (at_ y) (store y) -> store_inv (at_ (run y es)) (store (run y es)).
Proof. revert y. induction es as [|e es IH]; intros y Hi; [done|]. by apply IH, event_inv. Qed.

End storage.

(** ** Creation *)

(** A store as created: its worker, if any, is about to open the storage. *)
Definition created (d c : bytes) (a : worker_state) s : Prop :=
  (a = worker_absent \/ a = worker_opening)
  /\ exists o missing faulted, s = (new_store d c) <| configured := o |> <| worker_started := started a |>
       <| worker_busy := busy a |> <| storage_missing := missing |> <| storage_faulted := faulted |>.

Section creation.
Context {W : Type} `{StorageAdapter W} `{StorageProvider W} `{Threads W}.

Lemma create_cases options d c (w : W) a s w' :
  deck_ai_snapshot_store_create options d c w = (Some (a, s), w') -> created d c a s.
Proof.
  unfold deck_ai_snapshot_store_create, start_worker, mbind, M_bind, mret, M_ret. intros Hc.
  repeat (case_match; simplify_eq/=); (split; [tauto|]).
  all: first [exists no_options, true, false; reflexivity
    | match goal with o : deck_ai_snapshot_store_options_t |- _ =>
        first [exists o, true, true; reflexivity | exists o, false, false; reflexivity] end].
Qed.

End creation.

Lemma created_store_inv d c a s :
  length d = maximum -> length c = maximum -> created d c a s -> store_inv a s.
Proof.
  intros Hd Hc [Ha (o & missing & faulted & ->)].
  split; cbn; [exact Hd|exact Hc|discriminate|reflexivity|reflexivity| |discriminate| |]; by destruct Ha as [->| ->].
Qed.

(** Every state of a run that started at a creation. *)
Definition reachable {W} `{StorageAdapter W, StorageProvider W} (y : system W) : Prop :=
  exists d c y0 es, length d = maximum /\ length c = maximum /\ created d c (at_ y0) (store y0) /\ y = run y0 es.

Lemma reachable_inv {W} `{StorageAdapter W, StorageProvider W} (y : system W) :
  reachable y -> store_inv (at_ y) (store y).
Proof.
  intros (d & c & y0 & es & Hd & Hc & Hcr & ->). apply run_inv. exact (created_store_inv d c _ _ Hd Hc Hcr).
Qed.
