(* ===== verification/SnapshotStoreSample.v ===== *)
(** * Concrete runs of the AI snapshot store

    Systems for the witnesses and examples of the store's properties: a store
    with direct storage on the medium of [TransactionMedium.v], and one on a
    storage that refuses every write. *)

From Stdlib Require Import String.
From S2P Require Import Prelude CString TransactionStore TransactionMedium SnapshotSample SnapshotStore SnapshotStoreSpec.

(** Both storages come without a provider. *)
#[export] Instance flash_provider : StorageProvider flash := {
  provider_open f := ({| open_result := true; adapter_configured := true; handle_given := true |}, f);
  provider_close f := (tt, f);
}.

(** A storage that is full: nothing is in it and nothing can be written. *)
Inductive full_storage := the_full_storage.

#[export] Instance full_adapter : StorageAdapter full_storage := {
  storage_read _ _ f := ((DECK_TRANSACTION_STORAGE_NOT_FOUND, []), f);
  storage_write _ _ f := (false, f);
  storage_erase _ f := (true, f);
  heap_alloc f := (true, f);
}.

#[export] Instance full_provider : StorageProvider full_storage := {
  provider_open f := ({| open_result := true; adapter_configured := true; handle_given := true |}, f);
  provider_close f := (tt, f);
}.

Definition direct_storage : deck_ai_snapshot_store_options_t :=
  {| read_set := true; write_set := true; erase_set := true; storage_context_set := true;
     open_set := false; close_set := false; provider_context_set := false |}.

Definition zeros : bytes := replicate maximum 0.

(** The state behind a successful [deck_ai_snapshot_store_create]. *)
Definition start {W} (w : W) : system W := {|
  at_ := worker_opening;
  store := (new_store zeros zeros) <| configured := direct_storage |> <| worker_started := true |> <| worker_busy := true |>;
  world := w;
|}.

Lemma start_reachable {W} `{StorageAdapter W, StorageProvider W} (w : W) es : reachable (run (start w) es).
Proof.
  exists zeros, zeros, (start w), es. split; [apply length_replicate|]. split; [apply length_replicate|].
  split; [|reflexivity]. split; [by right|]. by exists direct_storage, false, false.
Qed.

(** A document without providers, generated at the given time. *)
Definition small_document (time : String.string) : bytes :=
  quoting "{'type':'snapshot.ai','protocol_version':1,'schema_version':{'major':1,'minor':0},'generated_at':'"
  ++ literal time
  ++ quoting "','timezone':'UTC','provider_order':[],'providers':[],'sessions':[],'next_refresh_seconds':5}".

Definition small_sample : bytes := small_document "2026-08-13T12:34:56Z".

(** The generation time of [small_sample], and a second later. *)
Definition sample_time : Z := 1786624496000.
Definition sample_now : Z := sample_time + 1000.

(** Booting the worker, and letting it save a checkpoint. *)
Definition boot : list event := [Worker; Worker].
Definition save_it : list event := [Worker; Worker; Worker; Worker].

Lemma is_bytes_check (l : bytes) : forallb (fun b => (0 <=? b) && (b <=? 255)) l = true -> is_bytes l.
Proof. intros H. apply Forall_forall. intros b Hb%list_elem_of_In. apply (proj1 (forallb_forall _ _) H) in Hb. bool_prop. words. Qed.

Lemma small_sample_bytes : is_bytes small_sample.
Proof. apply is_bytes_check. vm_compute. reflexivity. Qed.

(** A document generated half an hour after [small_sample]. *)
Definition later_sample : bytes := small_document "2026-08-13T13:04:56Z".

Lemma later_sample_bytes : is_bytes later_sample.
Proof. apply is_bytes_check. vm_compute. reflexivity. Qed.
