(* ===== verification/SnapshotStoreSafety.v ===== *)
(** * What the AI snapshot store promises its callers

    In every state of every run of [SnapshotStoreSpec.v]: what [copy] shows,
    what [apply] takes, and that neither ever goes back in time; what the
    worker saves, and what the store reports about it. *)

From S2P Require Import Prelude Codec TransactionStore TransactionClient TransactionMedium TransactionCrash SnapshotValidate SnapshotSample SnapshotStore SnapshotStoreSpec SnapshotStoreSample.

#[local] Opaque deck_ai_snapshot_validate DECK_AI_SNAPSHOT_MAX_BYTES kRecordHeaderSize kChecksumSize kMarkerSize
  crc32 DECK_TRANSACTION_MAX_PAYLOAD_CAPACITY.

Implicit Type s : deck_ai_snapshot_store.

(** ** Time never goes back *)

(** A high-water mark moves up; zero is no mark. *)
Definition mark_le (h h' : Z) : Prop := h = 0 \/ (h' <> 0 /\ h <= h').

#[export] Instance mark_le_preorder : PreOrder mark_le.
Proof. split; unfold mark_le; repeat intro; lia. Qed.

(** Every operation and every step moves the document in memory and both marks
    forward. *)
Record advances s s' : Prop := {
  adv_memory : has_snapshot s = true ->
    has_snapshot s' = true /\ generated_at_unix_ms (metadata s) <= generated_at_unix_ms (metadata s');
  adv_apply : mark_le (apply_utc_high_water_ms s) (apply_utc_high_water_ms s');
  adv_copy : mark_le (copy_utc_high_water_ms s) (copy_utc_high_water_ms s');
}.

#[export] Instance advances_preorder : PreOrder advances.
Proof.
  split.
  - intros s. split; [|reflexivity..]. intros ->. split; reflexivity.
  - intros s1 s2 s3 [M1 A1 C1] [M2 A2 C2]. split; [|by etransitivity..].
    intros H1. destruct (M1 H1) as [H2 L2], (M2 H2) as [H3 L3]. split; [done|lia].
Qed.

Lemma still_advances s s' :
  has_snapshot s' = has_snapshot s -> metadata s' = metadata s ->
  apply_utc_high_water_ms s' = apply_utc_high_water_ms s -> copy_utc_high_water_ms s' = copy_utc_high_water_ms s ->
  advances s s'.
Proof. intros E1 E2 E3 E4. split; rewrite ?E1, ?E2, ?E3, ?E4; try reflexivity. intros ->. split; reflexivity. Qed.

Lemma observe_cases high latched now clock high' latched' :
  observe_clock high latched now = (clock, high', latched') ->
  mark_le high high'
  /\ match clock with
     | clock_valid => now <> 0 /\ (high = 0 \/ high <= now) /\ high' = now /\ latched' = false
     | clock_invalid => now = 0 /\ high' = high /\ latched' = latched
     | clock_rollback => now <> 0 /\ high <> 0 /\ now < high /\ high' = high /\ latched' = true
     end.
Proof.
  unfold observe_clock, mark_le. destruct (now =? 0) eqn:E1; [|destruct (_ && _) eqn:E2]; intros [= <- <- <-]; bool_prop;
    (split; [lia|]); split_and?; first [reflexivity|lia].
Qed.

Lemma queue_frame s :
  let s' := (queue_current_checkpoint_locked s).2 in
  document s' = document s /\ document_size s' = document_size s /\ metadata s' = metadata s
  /\ has_snapshot s' = has_snapshot s /\ apply_utc_high_water_ms s' = apply_utc_high_water_ms s
  /\ apply_clock_rollback_latched s' = apply_clock_rollback_latched s
  /\ copy_utc_high_water_ms s' = copy_utc_high_water_ms s
  /\ copy_clock_rollback_latched s' = copy_clock_rollback_latched s
  /\ latest_apply_utc_ms s' = latest_apply_utc_ms s /\ persistent s' = persistent s.
Proof. unfold queue_current_checkpoint_locked. destruct (_ || _); repeat split. Qed.

Lemma queue_advances s : advances s (queue_current_checkpoint_locked s).2.
Proof. destruct (queue_frame s) as (_ & _ & ? & ? & ? & _ & ? & _). by apply still_advances. Qed.

Lemma publish_advances r opened s : advances s (publish_recovered_locked r opened s).
Proof.
  destruct opened; [|by apply still_advances]. rewrite publish_opened.
  assert (advances s (cache_recovered r s)) as Hc
    by (unfold cache_recovered; destruct (r_storage_faulted r); by apply still_advances).
  destruct (authoritative r s) eqn:Ha; [|done]. destruct Hc as [Hm Hap Hco]. split; [|exact Hap|exact Hco].
  intros Hs. split; [reflexivity|]. cbn. unfold authoritative in Ha. rewrite Hs in Ha. cbn in Ha. apply andb_true_iff in Ha as [_ Ha]. apply orb_true_iff in Ha as [Ha|Ha]; bool_prop; lia.
Qed.

Lemma apply_advances s d trusted : advances s (deck_ai_snapshot_store_apply s d trusted).2.
Proof.
  unfold deck_ai_snapshot_store_apply. destruct (deck_ai_snapshot_validate d) as [r m]. destruct r; try reflexivity.
  destruct (observe_clock _ _ _) as [[clock high] latched] eqn:Ho. apply observe_cases in Ho as [Hm _].
  set (s1 := s <| apply_utc_high_water_ms := high |> <| apply_clock_rollback_latched := latched |>).
  assert (advances s s1) as H1 by (split; [intros H1; split; [exact H1|reflexivity]|exact Hm|reflexivity]).
  destruct clock; try exact H1. destruct (_ <? _); [exact H1|].
  destruct (has_snapshot s1 && (generated_at_unix_ms m <? _)) eqn:E1; [exact H1|].
  destruct (has_snapshot s1 && (generated_at_unix_ms m =? _)); [exact H1|].
  etransitivity; [exact H1|]. unfold apply_document.
  match goal with |- context [queue_current_checkpoint_locked ?x] => set (s2 := x) end.
  assert (advances s1 s2) as H2.
  { subst s2. split.
    - intros Hs. rewrite Hs in E1. cbn [andb] in E1. bool_prop. case_match; (split; [reflexivity|]); cbn in *; lia.
    - case_match; reflexivity.
    - case_match; reflexivity. }
  etransitivity; [exact H2|]. pose proof (queue_advances s2) as H3. by destruct (queue_current_checkpoint_locked s2).
Qed.

Lemma copy_advances s now online capacity : advances s (deck_ai_snapshot_store_copy s now online capacity).2.
Proof.
  unfold deck_ai_snapshot_store_copy, display_state. destruct (negb (has_snapshot s)); [reflexivity|].
  destruct (observe_clock _ _ _) as [[clock high] latched] eqn:Ho. apply observe_cases in Ho as [Hm _].
  set (s1 := s <| copy_utc_high_water_ms := high |> <| copy_clock_rollback_latched := latched |>).
  assert (advances s s1) as H1 by (split; [intros H1; split; [exact H1|reflexivity]|reflexivity|exact Hm]).
  by repeat case_match.
Qed.

Section runs.
Context {W : Type} `{StorageAdapter W} `{StorageProvider W}.

Lemma open_keeps s (w : W) : let s' := (open_worker_storage s w).1.2 in
  exists t handle, s' = s <| persistent := t |> <| storage_handle := handle |>.
Proof.
  destruct (open_worker_storage s w) as [[[ok r] s'] w'] eqn:Ho. cbn. apply open_cases in Ho as (t & handle & -> & _).
  by exists t, handle.
Qed.

Lemma worker_advances a s (w : W) : advances s (persistence_worker a s w).1.2.
Proof.
  destruct a as [| |opened r| |c|c ok r|c ok|c ok|c ok| | |]; cbn [persistence_worker]; rewrite ?run_ret; try reflexivity.
  - rewrite run_bind. destruct (open_worker_storage s w) as [[[ok r] s1] w1] eqn:Ho. cbn [fst snd]. rewrite run_ret.
    apply open_cases in Ho as (t & handle & -> & _). by apply still_advances.
  - cbn [fst snd]. etransitivity; [apply publish_advances|]. etransitivity; [|apply queue_advances].
    by apply still_advances.
  - unfold worker_take. repeat case_match; by apply still_advances.
  - rewrite run_bind. destruct (open_worker_storage s w) as [[[ok r] s1] w1] eqn:Ho. cbn [fst snd]. rewrite run_ret.
    apply open_cases in Ho as (t & handle & -> & _). by apply still_advances.
  - unfold worker_publish_reopened. destruct (_ || _); cbn [fst snd]; [|apply publish_advances].
    etransitivity; [apply (publish_advances r ok)|]. etransitivity; [|apply queue_advances]. by apply still_advances.
  - destruct (_ && _); [|reflexivity]. rewrite run_bind, run_ret. reflexivity.
  - destruct ok; [|reflexivity]. unfold worker_save. rewrite run_bind.
    destruct (persistent s) as [t|]; [|rewrite !run_ret; reflexivity].
    rewrite run_bind. destruct (save t _ w) as [[ok t'] w1]. cbn [fst snd]. rewrite !run_ret. by apply still_advances.
  - unfold worker_finish, cache_transaction_status. apply still_advances; cbn; repeat case_match; reflexivity.
  - rewrite run_bind, run_ret. destruct (close_worker_storage s w) as [s1 w1] eqn:Hc. apply close_cases in Hc as ->.
    by apply still_advances.
  - by apply still_advances.
Qed.

Lemma event_advances (y : system W) e : advances (store y) (store (run_event y e)).
Proof.
  destruct e as [[d trusted|now online capacity| |]|]; cbn.
  - apply apply_advances.
  - apply copy_advances.
  - by apply still_advances.
  - unfold destroy_request. case_match; by apply still_advances.
  - pose proof (worker_advances (at_ y) (store y) (world y)) as Ha.
    by destruct (persistence_worker (at_ y) (store y) (world y)) as [[a s] w].
Qed.

Lemma run_advances es (y : system W) : advances (store y) (store (run y es)).
Proof.
  revert y. induction es as [|e es IH]; intros y; [reflexivity|].
  etransitivity; [apply event_advances|apply IH].
Qed.

End runs.

(** ** What [copy] shows *)

(** A reader at [now] is given [d] and [m]. *)
Record shown (now : Z) (online : bool) (d : bytes) (n : deck_ai_snapshot_store_snapshot_t) : Prop := {
  sh_document : valid_document d (snapshot_metadata n);
  sh_size : snapshot_document_size n = length d;
  sh_state : state n = if online then DECK_AI_SNAPSHOT_STORE_FRESH else DECK_AI_SNAPSHOT_STORE_STALE;
  sh_age : generated_at_unix_ms (snapshot_metadata n) <= now
           < generated_at_unix_ms (snapshot_metadata n) + DECK_AI_SNAPSHOT_OFFLINE_LIMIT_MS;
}.

(** When a reader at [now] is to see the document: its clock and that of the
    publisher are not behind what they were, and the document is less than a
    day old. *)
Definition visible s (now : Z) : Prop :=
  has_snapshot s = true /\ now <> 0
  /\ (copy_utc_high_water_ms s = 0 \/ copy_utc_high_water_ms s <= now)
  /\ apply_clock_rollback_latched s = false
  /\ generated_at_unix_ms (metadata s) <= now
     < generated_at_unix_ms (metadata s) + DECK_AI_SNAPSHOT_OFFLINE_LIMIT_MS.

Lemma display_cases s now online shown high latched :
  has_snapshot s = true -> display_state s now online = (shown, high, latched) ->
  (visible s now /\ high = now
   /\ shown = if online then DECK_AI_SNAPSHOT_STORE_FRESH else DECK_AI_SNAPSHOT_STORE_STALE)
  \/ (~ visible s now /\ shown = DECK_AI_SNAPSHOT_STORE_UNAVAILABLE).
Proof.
  intros Hs. unfold display_state, visible. destruct (observe_clock _ _ now) as [[clock h] l] eqn:Ho.
  apply observe_cases in Ho as [_ Ho]. intros [= <- <- <-]. destruct clock.
  - destruct Ho as (Hz & Hhw & -> & ->). rewrite bool_decide_eq_true_2 by done. cbn [andb].
    destruct (apply_clock_rollback_latched s); cbn [negb andb]; [right; split; [|done]; intros (_ & _ & _ & [=] & _)|].
    destruct (_ <=? now) eqn:E1, (_ <? _) eqn:E2; bool_prop; cbn [andb]; [left|right..]; (split; [|try done]).
    2-4: intros (_ & _ & _ & _ & ? & ?); lia.
    split_and!; [done|done|done|done|lia|lia].
  - right. split; [|done]. intros (_ & Hz & _). tauto.
  - right. split; [|done]. intros (_ & Hz & Hhw & _). lia.
Qed.

Lemma copy_cases a s now online capacity ok d n s' :
  store_inv a s -> deck_ai_snapshot_store_copy s now online capacity = ((ok, d, n), s') ->
  (document_visible n = true <-> visible s now) /\ quotas_visible n = document_visible n
  /\ snapshot_metadata n = metadata s
  /\ (if ok && document_visible n then shown now online d n /\ d = current_document s
      else d = [] /\ snapshot_document_size n = 0%nat)
  /\ (ok = false <-> document_visible n = true
                     /\ forall size, capacity = Some size -> (size < document_size s)%nat)
  /\ (document_visible n = true -> copy_utc_high_water_ms s' = now).
Proof.
  intros Hi. unfold deck_ai_snapshot_store_copy. destruct (has_snapshot s) eqn:Hs; cbn [negb].
  2: { intros [= <- <- <- <-]. cbn. unfold visible. rewrite Hs. split_and!; try done; split; try done; by intros (? & _). }
  destruct (inv_memory _ _ Hi Hs) as [Hsize Hv]. pose proof (inv_document _ _ Hi) as Hd.
  destruct (display_state s now online) as [[sh high] latched] eqn:Hds.
  apply display_cases in Hds as [(Hvis & -> & ->)|[Hvis ->]]; [| |done].
  2: { cbn. intros [= <- <- <- <-]. cbn. split_and!; try done; split; try done. by intros [? _]. }
  remember (if online then DECK_AI_SNAPSHOT_STORE_FRESH else DECK_AI_SNAPSHOT_STORE_STALE) as sh eqn:Esh.
  assert (bool_decide (sh = DECK_AI_SNAPSHOT_STORE_FRESH) || bool_decide (sh = DECK_AI_SNAPSHOT_STORE_STALE) = true)
    as Hsh by (subst; by destruct online).
  cbv zeta. rewrite Hsh. cbn [negb].
  destruct capacity as [capacity|]; [destruct (_ <? _)%nat eqn:E|]; bool_prop; cbn in *; intros [= <- <- <- <-]; cbn; split_and!; try done.
  - split; [|done]. intros _. split; [done|]. by intros ? [= <-].
  - split; [exact Hv| |exact Esh|apply Hvis]. cbn. symmetry. apply length_current. lia.
  - split; [done|]. intros [_ Hc]. specialize (Hc _ eq_refl). lia.
Qed.

(** C15: What a reader is shown is the document in memory, which passed the
    validation, with its own metadata and never more bytes than its array
    holds: exactly when there is one, the reader's clock and the publisher's
    are not behind what they were, and it is less than a day old; as fresh
    while the Companion is online and as stale otherwise.  In every other case
    no byte is copied.  Between two readings in a run neither the time of
    reading nor the time of the shown document goes back. *)
Theorem readers_see_the_newest_document {W} `{StorageAdapter W, StorageProvider W} (y : system W) es
    now1 online1 capacity1 ok1 d1 n1 s1 now2 online2 capacity2 ok2 d2 n2 s2
    (Hy : reachable y)
    (H1 : deck_ai_snapshot_store_copy (store y) now1 online1 capacity1 = ((ok1, d1, n1), s1))
    (Hseen : document_visible n1 = true)
    (H2 : deck_ai_snapshot_store_copy (store (run (run_event y (Call (Copy now1 online1 capacity1))) es)) now2 online2 capacity2
          = ((ok2, d2, n2), s2)) :
  let s := store (run (run_event y (Call (Copy now1 online1 capacity1))) es) in
  (document_visible n2 = true <-> visible s now2)
  /\ (if ok2 && document_visible n2
      then shown now2 online2 d2 n2 /\ d2 = current_document s
           /\ now1 <= now2 /\ generated_at_unix_ms (snapshot_metadata n1) <= generated_at_unix_ms (snapshot_metadata n2)
      else d2 = [] /\ snapshot_document_size n2 = 0%nat)
  /\ (ok2 = false <-> document_visible n2 = true
                      /\ forall size, capacity2 = Some size -> (size < document_size s)%nat).
Proof.
  apply reachable_inv in Hy as Hi. set (y1 := run_event y _).
  pose proof (run_inv es y1 (event_inv y (Call (Copy now1 online1 capacity1)) Hi)) as Hi2. fold y1 in H2.
  destruct (copy_cases _ _ _ _ _ _ _ _ _ Hi H1) as (Hv1 & _ & Hm1 & _ & _ & Hmark).
  destruct (copy_cases _ _ _ _ _ _ _ _ _ Hi2 H2) as (Hv2 & _ & Hm2 & Hd2 & Hok2 & _).
  split; [exact Hv2|]. split; [|exact Hok2]. destruct (ok2 && document_visible n2) eqn:E; [|exact Hd2]. apply andb_true_iff in E as [_ Hseen2].
  destruct Hd2 as [Hsh Hd]. split; [exact Hsh|]. split; [exact Hd|].
  assert (store y1 = s1) as Es by (subst y1; cbn; by rewrite H1).
  pose proof (run_advances es y1) as [Ham _ Hac]. rewrite Es in Ham, Hac.
  pose proof (copy_advances (store y) now1 online1 capacity1) as Hadv. rewrite H1 in Hadv. cbn in Hadv.
  apply Hv1 in Hseen as Hvis1. apply Hv2 in Hseen2 as Hvis2. rewrite (Hmark Hseen) in Hac.
  destruct Hvis1 as (Hhas & Hz & _), Hvis2 as (_ & _ & Hhw & _).
  destruct (adv_memory _ _ Hadv Hhas) as [Hs1 Hg1]. destruct (Ham Hs1) as [_ Hg2].
  rewrite Hm1, Hm2. unfold mark_le in Hac. lia.
Qed.

Lemma readers_see_the_newest_document_witness :
  let y := run (start (sample_flash 9 true)) (boot ++ [Call (Apply small_sample sample_now)]) in
  let read := deck_ai_snapshot_store_copy (store y) sample_now true (Some maximum) in
  let y' := run (run_event y (Call (Copy sample_now true (Some maximum)))) save_it in
  let again := deck_ai_snapshot_store_copy (store y') (sample_now + 5) false (Some maximum) in
  document_visible read.1.2 = true
  /\ (document_visible again.1.2 = true <-> visible (store y') (sample_now + 5)).
Proof.
  intros y read y' again. assert (document_visible read.1.2 = true) as Hv by (vm_compute; reflexivity).
  split; [exact Hv|].
  destruct read as [[[ok1 d1] n1] s1] eqn:E1, again as [[[ok2 d2] n2] s2] eqn:E2.
  exact (proj1 (readers_see_the_newest_document y save_it sample_now true (Some maximum) ok1 d1 n1 s1
    (sample_now + 5) false (Some maximum) ok2 d2 n2 s2 (start_reachable _ _) E1 Hv E2)).
Defined.

(** ** What [apply] takes *)

(** The document, its metadata and the checkpoint are as before. *)
Definition document_kept s s' : Prop :=
  document s' = document s /\ document_size s' = document_size s /\ metadata s' = metadata s
  /\ has_snapshot s' = has_snapshot s /\ checkpoint_pending s' = checkpoint_pending s
  /\ checkpoint_document s' = checkpoint_document s.

(** The publisher's clock shows a time, and not one before an earlier one. *)
Definition clock_advances s (trusted : Z) : Prop :=
  trusted <> 0 /\ (apply_utc_high_water_ms s = 0 \/ apply_utc_high_water_ms s <= trusted).

(** The worker could not be given the document, and storage is out of order. *)
Definition not_persisted s s' : Prop :=
  checkpoint_pending s' = checkpoint_pending s
  /\ (worker_started s = false
      \/ (bootstrap_complete s = true
          /\ (storage_ready s = false \/ storage_missing s = true \/ storage_faulted s = true))).

(** The result of [apply], case by case. *)
Definition apply_result s (d : bytes) (trusted : Z) r s' : Prop :=
  match r with
  | DECK_AI_SNAPSHOT_STORE_ACCEPTED_MEMORY | DECK_AI_SNAPSHOT_STORE_ACCEPTED_STORAGE_FAILURE =>
      exists m, valid_document d m /\ clock_advances s trusted /\ generated_at_unix_ms m <= trusted
        /\ (has_snapshot s = true -> generated_at_unix_ms (metadata s) < generated_at_unix_ms m)
        /\ current_document s' = d /\ metadata s' = m /\ has_snapshot s' = true
        /\ apply_utc_high_water_ms s' = trusted /\ apply_clock_rollback_latched s' = false
        /\ (r = DECK_AI_SNAPSHOT_STORE_ACCEPTED_STORAGE_FAILURE <-> not_persisted s s')
  | DECK_AI_SNAPSHOT_STORE_ACCEPTED_PERSISTED => False
  | DECK_AI_SNAPSHOT_STORE_UNCHANGED =>
      has_snapshot s = true /\ d = current_document s /\ clock_advances s trusted /\ document_kept s s'
  | DECK_AI_SNAPSHOT_STORE_INVALID_TIME =>
      (exists m, valid_document d m /\ (trusted = 0 \/ trusted < generated_at_unix_ms m)) /\ document_kept s s'
  | DECK_AI_SNAPSHOT_STORE_TIME_ROLLBACK =>
      (exists m, valid_document d m /\ trusted <> 0
        /\ ((apply_utc_high_water_ms s <> 0 /\ trusted < apply_utc_high_water_ms s
             /\ apply_clock_rollback_latched s' = true)
            \/ (has_snapshot s = true /\ generated_at_unix_ms m <= generated_at_unix_ms (metadata s)
                /\ d <> current_document s)))
      /\ document_kept s s'
  | _ => map_validation_result (deck_ai_snapshot_validate d).1 = r /\ accepted d = false /\ s' = s
  end.

Lemma queue_pending s :
  let '(queued, s') := queue_current_checkpoint_locked s in
  if queued : bool then checkpoint_pending s = false /\ checkpoint_pending s' = true else s' = s.
Proof.
  destruct (queue_current_checkpoint_locked s) as [queued s'] eqn:Eq. pose proof (queue_cases _ _ _ Eq) as Hq.
  destruct queued; [|exact Hq]. destruct Hq as [_ Hdue]. apply due_idle in Hdue as (_ & _ & Hp & _).
  split; [exact Hp|]. unfold queue_current_checkpoint_locked in Eq. destruct (_ || _); [done|]. by injection Eq as <-.
Qed.

Lemma apply_document_cases a s d m trusted r s' :
  store_inv a s -> valid_document d m -> apply_document d m trusted s = (r, s') ->
  current_document s' = d /\ metadata s' = m /\ has_snapshot s' = true
  /\ apply_utc_high_water_ms s' = apply_utc_high_water_ms s
  /\ apply_clock_rollback_latched s' = apply_clock_rollback_latched s
  /\ (r = DECK_AI_SNAPSHOT_STORE_ACCEPTED_STORAGE_FAILURE <-> not_persisted s s')
  /\ (r = DECK_AI_SNAPSHOT_STORE_ACCEPTED_STORAGE_FAILURE \/ r = DECK_AI_SNAPSHOT_STORE_ACCEPTED_MEMORY).
Proof.
  intros Hi Hv. pose proof (valid_document_size _ _ Hv) as Hl. unfold apply_document.
  match goal with |- context [queue_current_checkpoint_locked ?x] => set (s0 := x) end.
  assert (document s0 = write_at (document s) 0 (d ++ if Z.of_nat (length d) <? DECK_AI_SNAPSHOT_MAX_BYTES then [0] else [])
    /\ document_size s0 = length d /\ metadata s0 = m /\ has_snapshot s0 = true
    /\ apply_utc_high_water_ms s0 = apply_utc_high_water_ms s
    /\ apply_clock_rollback_latched s0 = apply_clock_rollback_latched s
    /\ worker_started s0 = worker_started s /\ bootstrap_complete s0 = bootstrap_complete s
    /\ storage_ready s0 = storage_ready s /\ storage_missing s0 = storage_missing s
    /\ storage_faulted s0 = storage_faulted s /\ checkpoint_pending s0 = checkpoint_pending s)
    as (E1 & E2 & E3 & E4 & E5 & E6 & E7 & E8 & E9 & E10 & E11 & E12)
    by (subst s0; case_match; repeat (split; [reflexivity|]); reflexivity).
  destruct (queue_frame s0) as (F1 & F2 & F3 & F4 & F5 & F6 & _). pose proof (queue_pending s0) as Hq.
  destruct (queue_current_checkpoint_locked s0) as [queued s1] eqn:Eq. cbn [snd] in *.
  destruct (negb queued && _) eqn:Ecase; intros [= <- <-].
  all: split; [unfold current_document; rewrite F1, F2, E1, E2; apply take_written|].
  all: split; [congruence|]; split; [congruence|]; split; [congruence|]; split; [congruence|]; split; [|auto].
  all: unfold not_persisted; rewrite <- E7, <- E8, <- E9, <- E10, <- E11, <- E12.
  all: destruct queued; [destruct Hq|subst s1]; cbn [negb andb] in Ecase.
  all: try discriminate Ecase.
  2: split; [done|]; intros [? _]; congruence.
  all: destruct (worker_started s0), (bootstrap_complete s0), (storage_ready s0), (storage_missing s0),
    (storage_faulted s0); cbn in Ecase; try discriminate Ecase; intuition discriminate.
Qed.

Lemma apply_cases a s d trusted : store_inv a s ->
  let '(r, s') := deck_ai_snapshot_store_apply s d trusted in apply_result s d trusted r s'.
Proof.
  intros Hi.
  unfold deck_ai_snapshot_store_apply.
  destruct (deck_ai_snapshot_validate d) as [v m] eqn:Hv.
  assert (v <> DECK_AI_SNAPSHOT_ACCEPTED -> accepted d = false) as Hacc
    by (intros; unfold accepted; rewrite Hv; by apply bool_decide_eq_false).
  destruct v; try (unfold apply_result; rewrite Hv; split_and!; [done|by apply Hacc|done]). clear Hacc.
  destruct (observe_clock _ _ trusted) as [[clock high] latched] eqn:Ho. apply observe_cases in Ho as [_ Ho].
  destruct clock; cbn -[apply_document apply_result].
  2: { destruct Ho as (-> & _). split; [exists m; tauto|]. by repeat split. }
  2: { destruct Ho as (? & ? & ? & -> & ->). split; [|by repeat split]. exists m. split; [exact Hv|].
    split; [done|]. by left. }
  destruct Ho as (Hz & Hhw & -> & ->).
  destruct (trusted <? _) eqn:E1; bool_prop; [split; [exists m; tauto|by repeat split]|].
  match goal with |- context [apply_document d m trusted ?x] => set (s1 := x) end.
  destruct (apply_document d m trusted s1) as [r s'] eqn:Ea.
  assert ((has_snapshot s = true -> generated_at_unix_ms (metadata s) < generated_at_unix_ms m) ->
    apply_result s d trusted r s') as Hnew.
  { intros Hlt. assert (store_inv a s1) as H1
      by (apply (calm_inv _ s); [done|by split|apply (inv_document _ _ Hi)|exact (inv_memory _ _ Hi)]).
    apply (apply_document_cases _ _ _ _ _ _ _ H1 Hv) in Ea as (? & ? & ? & ? & ? & Hiff & [-> | ->]);
      (exists m; split_and!; try assumption; by split). }
  destruct (has_snapshot s) eqn:Hs; cbn [andb].
  - destruct (_ <? _) eqn:E2; bool_prop.
    { split; [|by repeat split]. exists m. split; [exact Hv|]. split; [done|]. right. split; [done|]. split; [lia|].
      intros ->. destruct (inv_memory _ _ Hi Hs) as [_ Hv']. unfold valid_document in *. rewrite Hv in Hv'.
      injection Hv' as ->. lia. }
    destruct (_ =? _) eqn:E3; bool_prop.
    { case_bool_decide as Hsame; [unfold apply_result; by split_and!|]. split; [|by repeat split]. exists m. split; [exact Hv|].
      split; [done|]. right. split; [done|]. split; [lia|exact Hsame]. }
    apply Hnew. lia.
  - by apply Hnew.
Qed.

(** C17: C14: [apply] takes a document exactly when it is valid, the clock did not go
    back and the document is not of the future and strictly newer than the one
    in memory; it is then the one in memory, and a storage failure is reported
    exactly when no checkpoint was queued and storage is out of order.  In every
    other case the result says why, and the document, its metadata and the
    checkpoint are kept.  No apply ever reports a document as persisted. *)
Theorem apply_takes_the_strictly_newer {W} `{StorageAdapter W, StorageProvider W} (y : system W) d trusted
    (Hy : reachable y) :
  let '(r, s') := deck_ai_snapshot_store_apply (store y) d trusted in apply_result (store y) d trusted r s'.
Proof. eapply apply_cases, reachable_inv, Hy. Qed.

Lemma apply_takes_the_strictly_newer_witness :
  let y := run (start (sample_flash 9 true)) (boot ++ [Call (Apply small_sample sample_now)]) in
  let '(r, s') := deck_ai_snapshot_store_apply (store y) small_sample sample_now in
  apply_result (store y) small_sample sample_now r s'.
Proof. intros y. exact (apply_takes_the_strictly_newer y small_sample sample_now (start_reachable _ _)). Defined.


(** ** What the worker saves *)

Lemma queue_refused a s : store_inv a s -> busy a = true -> queue_current_checkpoint_locked s = (false, s).
Proof.
  intros Hi Hb. pose proof (inv_busy _ _ Hi) as Hbu. destruct (queue_current_checkpoint_locked s) as [q s'] eqn:Eq.
  pose proof (queue_cases _ _ _ Eq) as Hq. destruct q; [|by subst]. destruct Hq as [_ Hdue].
  apply due_idle in Hdue as (_ & _ & _ & Hidle & _). congruence.
Qed.

Lemma apply_spares_checkpoint a s d trusted :
  store_inv a s -> busy a = true ->
  checkpoint_document (deck_ai_snapshot_store_apply s d trusted).2 = checkpoint_document s.
Proof.
  intros Hi Hb. unfold deck_ai_snapshot_store_apply. destruct (deck_ai_snapshot_validate d) as [r m]. destruct r; try done.
  destruct (observe_clock _ _ _) as [[clock high] latched]. destruct clock; try done.
  destruct (trusted <? _); [done|]. destruct (_ && _); [done|]. destruct (_ && _); [done|]. unfold apply_document.
  match goal with |- context [queue_current_checkpoint_locked ?x] => set (s0 := x) end.
  assert (worker_busy s0 = true /\ checkpoint_document s0 = checkpoint_document s) as [Hbu Hc].
  { pose proof (inv_busy _ _ Hi) as Hbu. rewrite Hb in Hbu. subst s0. case_match; by split. }
  destruct (queue_current_checkpoint_locked s0) as [q s'] eqn:Eq. pose proof (queue_cases _ _ _ Eq) as Hq.
  destruct q; [|by subst]. destruct Hq as [_ Hdue]. apply due_idle in Hdue as (_ & _ & _ & Hidle & _). congruence.
Qed.

Section worker.
Context {W : Type} `{StorageAdapter W} `{StorageProvider W}.

(** While the worker carries a checkpoint nobody touches the array. *)
Lemma carried_event (y : system W) e c c' :
  store_inv (at_ y) (store y) -> carried (at_ y) = Some c -> carried (at_ (run_event y e)) = Some c' ->
  c' = c /\ checkpoint_document (store (run_event y e)) = checkpoint_document (store y).
Proof.
  intros Hi Hc. destruct y as [a s w]. cbn in *. destruct e as [k|]; cbn.
  - intros Hc'. split; [congruence|]. assert (busy a = true) as Hb by (by destruct a).
    destruct k as [d trusted|now online capacity| |]; cbn; [by eapply apply_spares_checkpoint| |reflexivity|].
    + unfold deck_ai_snapshot_store_copy. destruct (negb _); [done|]. destruct (display_state _ _ _) as [[? ?] ?].
      by repeat case_match.
    + unfold destroy_request. by case_match.
  - destruct a as [| |opened r| |c0|c0 ok r|c0 ok|c0 ok|c0 ok| | |]; try discriminate Hc; injection Hc as ->;
      cbn [persistence_worker].
    + rewrite run_bind. destruct (open_worker_storage s w) as [[[ok r] s1] w1] eqn:Ho. cbn [fst snd]. rewrite run_ret.
      apply open_cases in Ho as (t & handle & -> & _). cbn. by intros [= <-].
    + rewrite run_ret. cbn. unfold worker_publish_reopened. destruct (_ || _); cbn; [discriminate|]. intros [= <-].
      split; [done|]. apply (pb_checkpoint_document ok). eapply publish_publishes; [exact Hi|].
      intros ->. exact (inv_knows _ _ Hi).
    + destruct (_ && _); rewrite ?run_bind, run_ret; cbn; by intros [= <-].
    + destruct ok; [|rewrite run_ret; cbn; by intros [= <-]]. rewrite run_bind. unfold worker_save.
      destruct (persistent s) as [t|]; [|rewrite !run_ret; cbn; by intros [= <-]].
      rewrite run_bind. destruct (save t _ w) as [[ok t'] w1]. cbn [fst snd]. rewrite !run_ret. cbn. by intros [= <-].
    + rewrite run_ret. cbn. discriminate.
Qed.

Lemma carried_run es (y : system W) c :
  store_inv (at_ y) (store y) -> (forall n, carried (at_ (run y (take n es))) = Some c) ->
  checkpoint_document (store (run y es)) = checkpoint_document (store y).
Proof.
  revert y. induction es as [|e es IH]; intros y Hi Hall; [done|].
  pose proof (Hall 0%nat) as H0'. pose proof (Hall 1%nat) as H1'. cbn [take run foldl] in H0', H1'. rewrite take_0 in *. cbn in *.
  destruct (carried_event _ _ _ _ Hi H0' H1') as [_ <-]. apply IH; [by apply event_inv|].
  intros n. apply (Hall (S n)).
Qed.

End worker.

(** C16: The worker saves exactly what was queued.  From its taking the
    checkpoint to the end of the turn no interleaved caller changes the array
    it reads without the lock; what it takes is a whole valid document of the
    time it carries; and a save that succeeds has made those bytes the active
    record. *)
Theorem the_queued_document_is_saved {W} `{StorageAdapter W, StorageProvider W} (y : system W) es c
    (Hy : reachable y) (Hwaits : at_ y = worker_waiting) (Hpending : checkpoint_pending (store y) = true)
    (Hturn : forall n, carried (at_ (run (run_event y Worker) (take n es))) = Some c) :
  let queued := queued_document (store y) in
  let s := store (run (run_event y Worker) es) in
  c = {| cp_size := checkpoint_size (store y); cp_generated_at_ms := checkpoint_generated_at_ms (store y);
         cp_attempt_utc_ms := checkpoint_attempt_utc_ms (store y) |}
  /\ (exists m, valid_document queued m /\ generated_at_unix_ms m = checkpoint_generated_at_ms (store y))
  /\ take (cp_size c) (checkpoint_document s) = queued
  /\ (at_ (run (run_event y Worker) es) = worker_saved c true ->
      exists t, persistent s = Some t /\ has_active t = true /\ payload (active t) = queued).
Proof.
  apply reachable_inv in Hy as Hi. pose proof (event_inv y Worker Hi) as Hi1.
  pose proof (run_inv es _ Hi1) as Hi2.
  pose proof (carried_run es _ _ Hi1 Hturn) as Harr. specialize (Hturn 0%nat). rewrite take_0 in Hturn.
  cbn [run foldl] in Hturn. destruct (inv_pending _ _ Hi Hpending) as (_ & _ & (_ & Hm) & _). cbv zeta.
  assert (c = {| cp_size := checkpoint_size (store y); cp_generated_at_ms := checkpoint_generated_at_ms (store y);
         cp_attempt_utc_ms := checkpoint_attempt_utc_ms (store y) |}
    /\ checkpoint_document (store (run_event y Worker)) = checkpoint_document (store y)) as [-> Hfirst].
  { clear - Hwaits Hpending Hturn. revert Hturn. destruct y as [a s w]; cbn in *. subst a. cbn. unfold worker_take.
    rewrite Hpending, andb_false_r. cbn. destruct (persistence_needs_reopen s); cbn; by intros [= <-]. }
  split; [done|]. split; [exact Hm|]. rewrite Hfirst in Harr. split; [by rewrite Harr|].
  intros Hsaved. pose proof (inv_knows _ _ Hi2) as Hk. rewrite Hsaved in Hk. destruct Hk as (t & Ht & Ha & Hp).
  exists t. rewrite Harr in Hp. by split_and!.
Qed.

Lemma the_queued_document_is_saved_witness :
  let y := run (start (sample_flash 9 true)) (boot ++ [Call (Apply small_sample sample_now)]) in
  exists t, persistent (store (run (run_event y Worker) [Worker; Worker])) = Some t
    /\ has_active t = true /\ payload (active t) = queued_document (store y).
Proof.
  intros y. set (c := {| cp_size := length small_sample; cp_generated_at_ms := sample_time; cp_attempt_utc_ms := sample_now |}).
  assert (forall n, carried (at_ (run (run_event y Worker) (take n [Worker; Worker]))) = Some c) as Hturn
    by (intros [|[|[|n]]]; vm_compute; reflexivity).
  assert (at_ (run (run_event y Worker) [Worker; Worker]) = worker_saved c true) as Hsaved by (vm_compute; reflexivity).
  apply (the_queued_document_is_saved y [Worker; Worker] c (start_reachable _ _)); [vm_compute; reflexivity..| |].
  - exact Hturn.
  - exact Hsaved.
Defined.

(** Whenever the worker rests and nothing asks for a reopening, the
    generation and the time the store reports as persisted are those of the
    active record of its transactional store, which holds a valid document. *)
Theorem persisted_state_is_truthful {W} `{StorageAdapter W, StorageProvider W} (y : system W)
    (Hy : reachable y) (Hwaits : at_ y = worker_waiting)
    (Hsound : persistence_needs_reopen (store y) = false) (Hany : persisted_generated_at_ms (store y) <> 0) :
  exists t m, persistent (store y) = Some t /\ has_active t = true /\ valid_document (payload (active t)) m
    /\ generated_at_unix_ms m = persisted_generated_at_ms (store y)
    /\ persisted_generation (store y) = generation (active t).
Proof.
  apply reachable_inv in Hy. pose proof (inv_knows _ _ Hy) as Hk. rewrite Hwaits in Hk. by apply Hk.
Qed.

Lemma persisted_state_is_truthful_witness :
  let y := run (start (sample_flash 9 true)) (boot ++ Call (Apply small_sample sample_now) :: save_it) in
  exists t m, persistent (store y) = Some t /\ has_active t = true /\ valid_document (payload (active t)) m
    /\ generated_at_unix_ms m = persisted_generated_at_ms (store y)
    /\ persisted_generation (store y) = generation (active t).
Proof.
  intros y. apply (persisted_state_is_truthful y (start_reachable _ _)); [vm_compute; reflexivity..|].
  vm_compute. discriminate.
Defined.
