(* ===== verification/SnapshotStoreCrash.v ===== *)
(** * The AI snapshot store across power losses

    Runs of the store over the medium of [TransactionMedium.v]: which document
    a restart shows, whatever write loses the power. *)

From S2P Require Import Prelude Codec TransactionStore TransactionClient TransactionCodec TransactionMedium TransactionCrash SnapshotValidate SnapshotSample SnapshotStore SnapshotStoreSpec SnapshotStoreSample SnapshotStoreSafety.

#[local] Opaque deck_ai_snapshot_validate DECK_AI_SNAPSHOT_MAX_BYTES kRecordHeaderSize kChecksumSize kMarkerSize
  crc32 DECK_TRANSACTION_MAX_PAYLOAD_CAPACITY.

Implicit Types (s : deck_ai_snapshot_store) (f : flash).

(** ** The store's records on the medium *)

Lemma snapshot_options_wf : options_wf persistent_options.
Proof. apply options_wfb_spec. vm_compute. reflexivity. Qed.

Lemma snapshot_options_created : created_options persistent_options = persistent_options.
Proof. reflexivity. Qed.

(** The document the cells designate. *)
Definition durable f : option bytes := (fun x : Z * OwnedRecord => payload x.2) <$> recover persistent_options (cells f).

Lemma durable_active f r : snd <$> recover persistent_options (cells f) = r -> durable f = payload <$> r.
Proof. intros <-. unfold durable. by destruct (recover _ _). Qed.

Lemma valid_document_accepts d m : valid_document d m -> stage_accepts persistent_options d = true.
Proof.
  intros Hv. pose proof (valid_document_size _ _ Hv) as Hl. unfold stage_accepts.
  change (payload_length_excluded_prefix persistent_options) with 0%nat.
  change (payload_capacity persistent_options) with maximum.
  change (TransactionStore.validate_payload persistent_options d) with (accepted d).
  unfold accepted. rewrite Hv. apply negb_true_iff. repeat (apply orb_false_iff; split); try reflexivity;
    [apply Nat.eqb_neq|apply Nat.ltb_ge]; lia.
Qed.

(** ** What the worker reads and writes *)

(** A cell that recovery does not look at. *)
Lemma recover_metadata_irrelevant o c c' :
  (forall key, key <> DECK_TRANSACTION_STORAGE_METADATA -> c !! key = c' !! key) ->
  recover o c = recover o c'.
Proof.
  intros Hkeys. assert (stored_marker o c = stored_marker o c') as Hm by (unfold stored_marker; by rewrite Hkeys).
  assert (forall slot gen, stored_generation o c slot gen = stored_generation o c' slot gen) as Hg.
  { intros. unfold stored_generation, stored_record. rewrite Hkeys; [done|]. unfold slot_key. by case_match. }
  unfold recover. rewrite Hm. destruct (stored_marker o c'); simpl; [|done]. by rewrite !Hg.
Qed.

Lemma synced_metadata o t c c' :
  (forall key, key <> DECK_TRANSACTION_STORAGE_METADATA -> c !! key = c' !! key) ->
  medium_ok o c' -> synced o t c -> synced o t c'.
Proof.
  intros Hkeys Hm [Ho _ Ha Hma Hp Hc Hf].
  assert (stored_marker o c' = stored_marker o c) as Em by (unfold stored_marker; by rewrite Hkeys).
  split; try done.
  - by rewrite <- (recover_metadata_irrelevant o c c').
  - by rewrite Em.
  - rewrite <- Hkeys by done. done.
  - rewrite <- Hc. unfold stored_record. by rewrite Hkeys.
Qed.

Lemma attempt_record_ok attempt generated :
  cell_ok persistent_options DECK_TRANSACTION_STORAGE_METADATA (attempt_record attempt generated).
Proof.
  unfold cell_ok, cell_limit, attempt_record. rewrite decide_False by done. split.
  - repeat (apply Forall_app; split); auto with deck; repeat (constructor; [vm_compute; by split|]); constructor.
  - rewrite !length_app. cbn. vm_compute. lia.
Qed.

Lemma write_attempt_flash attempt generated f ok f' :
  write_attempt_record attempt generated f = (ok, f') ->
  durable f' = durable f
  /\ (powered f = false -> ok = false /\ f' = f)
  /\ (powered f = true -> medium_ok persistent_options (cells f) ->
      if ok then powered f' = true /\ medium_ok persistent_options (cells f')
                /\ forall t, synced persistent_options t (cells f) -> synced persistent_options t (cells f')
      else powered f' = false).
Proof.
  unfold write_attempt_record. cbn [storage_write flash_adapter]. set (record := attempt_record attempt generated).
  destruct (powered f) eqn:Hp; [|rewrite dead_mutate by done; by intros [= <- <-]].
  unfold flash_mutate. rewrite Hp. cbn [negb]. destruct (budget f) as [|more]; intros [= <- <-].
  - split; [|by split]. unfold durable. cbn. f_equal. unfold torn_cells. rewrite decide_False by done.
    symmetry. apply recover_metadata_irrelevant. intros key Hk.
    destruct (torn_value f); [by rewrite lookup_insert_ne|by rewrite lookup_delete_ne].
  - assert (forall key, key <> DECK_TRANSACTION_STORAGE_METADATA ->
      cells f !! key = <[DECK_TRANSACTION_STORAGE_METADATA := record]> (cells f) !! key) as Hkeys
      by (intros; by rewrite lookup_insert_ne).
    split; [unfold durable; cbn; f_equal; symmetry; by apply recover_metadata_irrelevant|]. split; [done|].
    intros _ Hm. assert (medium_ok persistent_options (<[DECK_TRANSACTION_STORAGE_METADATA := record]> (cells f))) as Hm'
      by (by apply map_Forall_insert_2; [apply attempt_record_ok|]).
    split; [exact Hp|]. split; [exact Hm'|]. intros t. by apply synced_metadata.
Qed.

(** A computation that mutates nothing. *)
Definition reads_only {A} (m : M flash A) : Prop := forall f, (m f).2 = f.

Lemma reads_ret {A} (a : A) : reads_only (mret a).
Proof. done. Qed.

Lemma reads_bind {A B} (m : M flash A) (k : A -> M flash B) :
  reads_only m -> (forall a, reads_only (k a)) -> reads_only (m ≫= k).
Proof. intros Hm Hk f. rewrite run_bind, Hk. apply Hm. Qed.

Lemma reads_heap : reads_only (heap_alloc (W := flash)).
Proof. done. Qed.

Lemma reads_read key capacity : reads_only (storage_read (W := flash) key capacity).
Proof. done. Qed.

Lemma reads_close : reads_only (provider_close (W := flash)).
Proof. done. Qed.

Lemma reads_open : reads_only (provider_open (W := flash)).
Proof. done. Qed.

Ltac reads_only leaf :=
  repeat first
    [ simple apply leaf | simple apply reads_ret | simple apply reads_heap | simple apply reads_read
    | simple apply reads_close | simple apply reads_open
    | simple apply reads_bind; [|intros ?]
    | match goal with |- reads_only (match ?x with _ => _ end) => destruct x end ].

Lemma read_encoded_reads o key : reads_only (read_encoded_record (W := flash) o key).
Proof. unfold read_encoded_record, decode_record, assign_record. reads_only @reads_ret. Qed.

Lemma create_reads : reads_only (create_transaction_store (W := flash)).
Proof.
  unfold create_transaction_store, deck_transaction_store_create, load_candidate, load_active.
  reads_only read_encoded_reads.
Qed.

Lemma open_reads s : reads_only (open_worker_storage (W := flash) s).
Proof.
  unfold open_worker_storage, close_worker_storage, load_persisted_snapshot, load_attempt_record.
  reads_only create_reads.
Qed.

(** The bytes of the document the cells designate. *)
Lemma synced_bytes t c : synced persistent_options t c -> has_active t = true -> is_bytes (payload (active t)).
Proof.
  intros Hs Ha. destruct (synced_active _ _ _ Hs Ha) as (_ & _ & Hr).
  by destruct (stored_record_ok _ _ _ _ (sy_medium _ _ _ Hs) Hr) as [[? _ _ _ _] _].
Qed.

(** Every record of the store is a document, and is recovered. *)
Lemma load_recovers t f r f' :
  records_valid t -> options t = persistent_options -> load_persisted_snapshot t f = (r, f') ->
  r_has_snapshot r = has_active t.
Proof.
  intros Hv Ho. unfold load_persisted_snapshot. rewrite run_bind. change (heap_alloc f) with (true, f). cbn [fst snd negb].
  rewrite run_bind. destruct (load_attempt_record _ _ f) as [r1 f1] eqn:Hl. cbn [fst snd]. rewrite run_ret. intros [= <- _].
  apply load_attempt_reads in Hl as [Hn _]; [|by split].
  unfold recover_document. cbn [snapshot_active snapshot_has_active deck_transaction_store_snapshot].
  destruct (has_active t) eqn:Ha; cbn [negb orb]; [|exact Hn].
  pose proof (active_valid _ Hv Ha) as Hacc. rewrite Ho in Hacc. apply accepted_valid in Hacc as [m Hm].
  pose proof (valid_document_size _ _ Hm) as Hl. unfold maximum in Hl.
  rewrite (proj2 (Nat.eqb_neq _ _)), (proj2 (Z.ltb_ge _ _)) by lia. cbn [orb]. unfold valid_document in Hm. by rewrite Hm.
Qed.

(** Opening on a medium with power. *)
Lemma open_flash s f : powered f = true ->
  exists r t handle, open_worker_storage s f = ((true, r, s <| persistent := Some t |> <| storage_handle := handle |>), f)
    /\ read_back r t /\ r_has_snapshot r = has_active t /\ payload <$> active_of t = durable f
    /\ (medium_ok persistent_options (cells f) -> synced persistent_options t (cells f)).
Proof.
  intros Hp. destruct (create_flash persistent_options snapshot_options_wf f Hp) as (t & Hc & Ha & Hsy).
  pose proof (open_reads s f) as Hr. revert Hr. unfold open_worker_storage. rewrite run_bind.
  assert (close_worker_storage s f = (s <| persistent := None |> <| storage_handle := false |>, f)) as ->
    by (unfold close_worker_storage; rewrite run_bind, run_ret; by case_match).
  cbn [fst snd]. rewrite run_bind.
  match goal with |- context [(if ?b then ?x else ?y) f] => assert (exists handle, (if b then x else y) f = (Some handle, f))
    as (handle & ->) by (destruct b; [exists true|exists false]; reflexivity) end.
  cbn [fst snd]. rewrite run_bind. unfold create_transaction_store. rewrite Hc. cbn [fst snd].
  rewrite run_bind. destruct (load_persisted_snapshot t f) as [r f'] eqn:Hl. cbn [fst snd]. rewrite run_ret. cbn [snd].
  intros ->. exists r, t, handle. split; [reflexivity|]. split; [exact (load_read_back _ _ _ _ Hl)|].
  apply create_valid in Hc as [Ho Hv]. split; [exact (load_recovers _ _ _ _ Hv Ho Hl)|]. split; [|exact Hsy].
  by rewrite (durable_active f _ eq_refl), Ha.
Qed.

(** ** What a restart shows *)

(** The document in memory after the worker of a fresh store has booted. *)
Definition document_after_restart f : option bytes :=
  let s := store (run (start (reboot f)) boot) in
  if has_snapshot s then Some (current_document s) else None.

Lemma document_after_restart_durable f : document_after_restart f = durable f.
Proof.
  unfold document_after_restart, boot. cbn [run foldl]. set (y0 := start (reboot f)).
  destruct (open_flash (store y0) (world y0) eq_refl) as (r & t & handle & Ho & Hrb & Hhas & Hd & _).
  change (durable (world y0)) with (durable f) in Hd. cbn [run_event]. 
  assert (persistence_worker (at_ y0) (store y0) (world y0) = ((worker_opened true r,
    (store y0) <| persistent := Some t |> <| storage_handle := handle |>), world y0)) as ->.
  { change (at_ y0) with worker_opening. cbn [persistence_worker]. by rewrite run_bind, Ho. }
  cbn [run_event at_ store world persistence_worker]. rewrite run_ret. cbn [store].
  set (s1 := (store y0) <| persistent := Some t |> <| storage_handle := handle |>).
  destruct (queue_frame ((publish_recovered_locked r true s1) <| worker_busy := false |>))
    as (F1 & F2 & _ & F4 & _). unfold current_document. rewrite F1, F2, F4.
  change (has_snapshot ((publish_recovered_locked r true s1) <| worker_busy := false |>))
    with (has_snapshot (publish_recovered_locked r true s1)).
  change (document ((publish_recovered_locked r true s1) <| worker_busy := false |>))
    with (document (publish_recovered_locked r true s1)).
  change (document_size ((publish_recovered_locked r true s1) <| worker_busy := false |>))
    with (document_size (publish_recovered_locked r true s1)).
  rewrite publish_opened. destruct (cache_frame r s1) as (_ & _ & _ & E4 & _).
  assert (authoritative r s1 = r_has_snapshot r) as ->
    by (unfold authoritative; change (has_snapshot s1) with false; by destruct (r_has_snapshot r)).
  rewrite <- Hd, Hhas. unfold active_of. destruct (has_active t) eqn:Ha; cbn [fmap option_fmap option_map].
  - destruct (rb_document _ _ Hrb) as (_ & _ & -> & _); [by rewrite Hhas|].
    cbn [has_snapshot document document_size set_field field_update]. f_equal. apply take_written_all.
  - by rewrite E4.
Qed.

(** ** The store in step with its medium *)

Definition arrays_ok s : Prop := is_bytes (document s) /\ is_bytes (checkpoint_document s).

(** What the worker has read, and has not published yet. *)
Definition read_ok (a : worker_state) : Prop :=
  match a with
  | worker_opened _ r | worker_reopened _ _ r => r_has_snapshot r = true -> is_bytes (r_document r)
  | _ => True
  end.

(** The worker has its transactional store. *)
Definition holds_store (a : worker_state) : bool :=
  match a with
  | worker_opened _ _ | worker_waiting | worker_reopened _ _ _ | worker_attempting _ _ | worker_saving _ _
  | worker_saved _ _ => true
  | _ => false
  end.

Record in_step (y : system flash) : Prop := {
  is_medium : medium_ok persistent_options (cells (world y));
  is_synced : forall t, persistent (store y) = Some t -> synced persistent_options t (cells (world y));
  is_arrays : arrays_ok (store y);
  is_read : read_ok (at_ y);
  is_store : holds_store (at_ y) = true -> persistent (store y) <> None;
}.

(** The callers hand over bytes. *)
Definition call_bytes (e : event) : Prop := match e with Call (Apply d _) => is_bytes d | _ => True end.

Lemma is_bytes_write_at buf n data : is_bytes buf -> is_bytes data -> is_bytes (write_at buf n data).
Proof.
  intros Hb Hd. unfold write_at. apply Forall_app. split; [by apply Forall_take|]. apply Forall_app.
  split; [exact Hd|by apply Forall_drop].
Qed.

Lemma queue_arrays s : arrays_ok s -> arrays_ok (queue_current_checkpoint_locked s).2.
Proof.
  intros [Hd Hc]. unfold queue_current_checkpoint_locked. destruct (_ || _); [by split|]. split; [exact Hd|].
  cbn. apply is_bytes_write_at; [exact Hc|]. by apply Forall_take.
Qed.

Lemma publish_arrays r opened s :
  arrays_ok s -> (r_has_snapshot r = true -> is_bytes (r_document r)) ->
  arrays_ok (publish_recovered_locked r opened s).
Proof.
  intros [Hd Hc] Hr. destruct opened; [|by split]. rewrite publish_opened.
  destruct (cache_frame r s) as (E1 & _ & _ & _ & E5 & _). revert E1 E5. generalize (cache_recovered r s) as s1.
  intros s1 E1 E5. destruct (authoritative r s) eqn:Ha; split; cbn.
  - apply is_bytes_write_at; [exact Hd|]. unfold authoritative in Ha. apply andb_true_iff in Ha as [Ha _].
    by apply Hr.
  - by rewrite E5.
  - by rewrite E1.
  - by rewrite E5.
Qed.

Lemma call_arrays k s : call_bytes (Call k) -> arrays_ok s -> arrays_ok (run_call k s) /\ persistent (run_call k s) = persistent s.
Proof.
  intros Hk Hs. destruct k as [d trusted|now online capacity| |]; cbn.
  - unfold deck_ai_snapshot_store_apply. destruct (deck_ai_snapshot_validate d) as [r m]. destruct r; try by split.
    destruct (observe_clock _ _ _) as [[clock high] latched]. destruct clock; try by split.
    destruct (trusted <? _); [by split|]. destruct (_ && _); [by split|]. destruct (_ && _); [by split|].
    unfold apply_document. set (terminator := if _ <? _ then [0] else []).
    assert (is_bytes terminator) as Hterm by (subst terminator; case_match; repeat constructor; words).
    clearbody terminator. match goal with |- context [queue_current_checkpoint_locked ?x] => set (s0 := x) end.
    assert (arrays_ok s0 /\ persistent s0 = persistent s) as [H0 Hp].
    { destruct Hs as [Hd Hc]. assert (is_bytes (write_at (document s) 0 (d ++ terminator))) as Hw
        by (apply is_bytes_write_at; [exact Hd|by apply Forall_app]).
      subst s0. case_match; (split; [split; [exact Hw|exact Hc]|reflexivity]). }
    pose proof (queue_arrays _ H0) as Hq. destruct (queue_frame s0) as (_ & _ & _ & _ & _ & _ & _ & _ & _ & Fp).
    destruct (queue_current_checkpoint_locked s0). cbn [snd] in *. by rewrite Fp.
  - unfold deck_ai_snapshot_store_copy. destruct (negb _); [by split|].
    destruct (display_state _ _ _) as [[? ?] ?]. by repeat case_match.
  - by split.
  - unfold destroy_request. by case_match.
Qed.

(** The saves of a run: the documents, and whether the save succeeded. *)
Definition save_of (y : system flash) (e : event) : list (bytes * bool) :=
  match e, at_ y with
  | Worker, worker_saving c true =>
      [(take (cp_size c) (checkpoint_document (store y)),
        match at_ (run_event y Worker) with worker_saved _ ok => ok | _ => false end)]
  | _, _ => []
  end.

Fixpoint saves (y : system flash) (es : list event) : list (bytes * bool) :=
  match es with
  | [] => []
  | e :: es => save_of y e ++ saves (run_event y e) es
  end.

(** The documents a restart may show, from the saves: the last that succeeded,
    or the first that failed after it. *)
Fixpoint possible_documents (d : option bytes) (log : list (bytes * bool)) : list (option bytes) :=
  match log with
  | [] => [d]
  | (next, true) :: log => possible_documents (Some next) log
  | (next, false) :: _ => [d; Some next]
  end.

(** ** One event *)

(** Without power nothing is written, and nothing is saved. *)
Lemma dead_event (y : system flash) e :
  powered (world y) = false ->
  world (run_event y e) = world y /\ Forall (fun save => save.2 = false) (save_of y e).
Proof.
  destruct y as [a s f]. cbn. intros Hp. destruct e as [k|]; cbn; [by split|].
  destruct a as [| |ok r| |c|c ok r|c ok|c ok|c ok| | |]; cbn [persistence_worker]; try by split.
  - rewrite run_bind. pose proof (open_reads s f) as Hr. destruct (open_worker_storage s f) as [[[ok r] s1] f1].
    cbn in *. by subst f1.
  - rewrite run_ret. by destruct (worker_take s).
  - rewrite run_bind. pose proof (open_reads s f) as Hr. destruct (open_worker_storage s f) as [[[ok r] s1] f1].
    cbn in *. by subst f1.
  - rewrite run_ret. by destruct (worker_publish_reopened c ok r s).
  - destruct (_ && _); [|by split]. rewrite run_bind. destruct (write_attempt_record _ _ f) as [ok' f1] eqn:Hw.
    apply write_attempt_flash in Hw as (_ & Hdead & _). destruct (Hdead Hp) as [-> ->]. by split.
  - destruct ok; [|by split]. rewrite run_bind. unfold worker_save. destruct (persistent s) as [t|]; [|by repeat constructor].
    rewrite run_bind. destruct (save t _ f) as [[ok t'] f1] eqn:Hs. apply save_dead in Hs as [-> ->]; [|done].
    by repeat constructor.
  - rewrite run_bind. unfold close_worker_storage. rewrite run_bind, !run_ret. by case_match.
Qed.

(** A step that leaves the medium and the transactional store alone. *)
Lemma in_step_moved (y : system flash) a' s' :
  in_step y -> persistent s' = persistent (store y) -> arrays_ok s' -> read_ok a' ->
  (holds_store a' = true -> holds_store (at_ y) = true) ->
  in_step {| at_ := a'; store := s'; world := world y |}.
Proof.
  intros [Hm Hs Ha Hr Hh] Ep Ha' Hr' Hh'. split; cbn; [exact Hm|rewrite Ep; exact Hs|exact Ha'|exact Hr'|].
  rewrite Ep. auto.
Qed.

(** What an event means for the durable document. *)
Definition event_effect (y : system flash) e (y' : system flash) : Prop :=
  (powered (world y') = true -> in_step y')
  /\ match save_of y e with
     | [] => durable (world y') = durable (world y)
     | (d, true) :: _ => durable (world y') = Some d
     | (d, false) :: _ =>
         powered (world y') = false
         /\ (durable (world y') = durable (world y) \/ durable (world y') = Some d)
     end.

Lemma opening_effect (a : worker_state) s f (resumes : bool -> RecoveredState -> worker_state) :
  powered f = true -> in_step {| at_ := a; store := s; world := f |} ->
  (forall r, (r_has_snapshot r = true -> is_bytes (r_document r)) -> read_ok (resumes true r)) ->
  exists r s', open_worker_storage s f = ((true, r, s'), f)
    /\ in_step {| at_ := resumes true r; store := s'; world := f |}.
Proof.
  intros Hp [Hm _ Ha _ _] Hres. destruct (open_flash s f Hp) as (r & t & handle & Ho & Hrb & Hhas & _ & Hsy).
  exists r. eexists. split; [exact Ho|]. cbn in Hm. specialize (Hsy Hm).
  split; cbn; [exact Hm| |exact Ha| |discriminate].
  - intros t' [= <-]. exact Hsy.
  - apply Hres. intros Hr. destruct (rb_document _ _ Hrb Hr) as (_ & Hact & <- & _). by eapply synced_bytes.
Qed.

Lemma saving_effect c s f :
  powered f = true -> store_inv (worker_saving c true) s ->
  let y := {| at_ := worker_saving c true; store := s; world := f |} in in_step y -> event_effect y Worker (run_event y Worker).
Proof.
  intros Hp Hi y Hin. destruct (inv_carried _ _ Hi c eq_refl) as (_ & m & Hv & _).
  destruct Hin as [Hm Hs [Hd Hc] _ Hh]. cbn in *. unfold event_effect, save_of. cbn [at_ y]. unfold run_event.
  cbn [at_ store world y persistence_worker]. rewrite run_bind. unfold worker_save.
  destruct (persistent s) as [t|] eqn:Ht; [|by destruct (Hh eq_refl)]. specialize (Hs t eq_refl).
  rewrite run_bind. destruct (save t _ f) as [[ok t'] f1] eqn:Hsave. cbn [fst snd]. rewrite !run_ret. cbn [fst snd]. rewrite !run_ret. cbn [fst snd at_ world store].
  apply (save_flash _ snapshot_options_wf) in Hsave;
    [|exact Hs|exact Hp|by apply Forall_take|by eapply valid_document_accepts]. cbv zeta in Hsave.
  destruct ok.
  - destruct Hsave as (_ & Hrec & Hsy). split.
    + intros Hp1. specialize (Hsy Hp1). split; cbn; [exact (sy_medium _ _ _ Hsy)| |by split|exact I|discriminate].
      intros t2 [= <-]. exact Hsy.
    + by rewrite (durable_active _ _ Hrec).
  - destruct Hsave as (Hp1 & Hrec). split; [congruence|]. split; [exact Hp1|].
    destruct Hrec as [Hrec|Hrec]; rewrite (durable_active _ _ Hrec); [left|by right].
    by rewrite (durable_active f _ (recover_synced _ _ _ Hs)).
Qed.

Lemma live_event (y : system flash) e :
  powered (world y) = true -> in_step y -> store_inv (at_ y) (store y) -> call_bytes e ->
  event_effect y e (run_event y e).
Proof.
  destruct y as [a s f]. cbn [world at_ store]. intros Hp Hin Hi He. destruct e as [k|].
  { destruct (call_arrays k s He (is_arrays _ Hin)) as [Ha Ep]. split; [|reflexivity]. intros _.
    apply (in_step_moved _ _ _ Hin); [exact Ep|exact Ha|exact (is_read _ Hin)|done]. }
  pose proof (is_arrays _ Hin) as Harr. pose proof (is_read _ Hin) as Hread. cbn [store at_] in Harr, Hread.
  destruct a as [| |ok r| |c|c ok r|c ok|c ok|c ok| | |];
    unfold event_effect, save_of, run_event; cbn [at_ store world persistence_worker].
  - split; [done|reflexivity].
  - destruct (opening_effect _ _ _ worker_opened Hp Hin) as (r & s' & Ho & Hin'); [done|].
    rewrite run_bind, Ho. split; [intros _; exact Hin'|reflexivity].
  - rewrite run_ret. split; [|reflexivity]. intros _.
    apply (in_step_moved _ _ _ Hin); [|apply queue_arrays, publish_arrays; done|exact I|done].
    destruct (queue_frame ((publish_recovered_locked r ok s) <| worker_busy := false |>)) as (_ & _ & _ & _ & _ & _ & _ & _ & _ & Fp).
    cbn [store]. rewrite Fp. change (persistent (publish_recovered_locked r ok s) = persistent s).
    apply (pb_persistent ok). eapply publish_publishes; [exact Hi|intros ->; exact (inv_knows _ _ Hi)].
  - rewrite run_ret. unfold worker_take.
    destruct (stop_requested s && _); [|destruct (negb _); [|destruct (persistence_needs_reopen s)]]; (split; [intros _|reflexivity]);
      (apply (in_step_moved _ _ _ Hin); [reflexivity|exact Harr|exact I|done]).
  - destruct (opening_effect _ _ _ (worker_reopened c) Hp Hin) as (r & s' & Ho & Hin'); [done|].
    rewrite run_bind, Ho. split; [intros _; exact Hin'|reflexivity].
  - rewrite run_ret. unfold worker_publish_reopened.
    assert (persistent (publish_recovered_locked r ok s) = persistent s) as Ep.
    { apply (pb_persistent ok). eapply publish_publishes; [exact Hi|intros ->; exact (inv_knows _ _ Hi)]. }
    pose proof (publish_arrays r ok s Harr Hread) as Hpa.
    destruct (_ || _); (split; [intros _|reflexivity]); (apply (in_step_moved _ _ _ Hin); [|..|exact I|done]);
      [|by apply queue_arrays|exact Ep|exact Hpa].
    destruct (queue_frame ((publish_recovered_locked r ok s) <| worker_busy := false |>)) as (_ & _ & _ & _ & _ & _ & _ & _ & _ & Fp).
    cbn [store]. rewrite Fp. exact Ep.
  - destruct (_ && _).
    + rewrite run_bind. destruct (write_attempt_record _ _ f) as [ok' f1] eqn:Hw. cbn [fst snd]. rewrite run_ret.
      apply write_attempt_flash in Hw as (Hd & _ & Hlive). specialize (Hlive Hp (is_medium _ Hin)).
      split; [|exact Hd]. cbn [world]. intros Hp1. destruct ok'; [|congruence]. destruct Hlive as (_ & Hm & Hsy).
      destruct Hin as [_ Hs Ha Hr Hh]. split; cbn; [exact Hm| |exact Ha|exact I|exact Hh].
      intros t Ht. by apply Hsy, Hs.
    + rewrite run_ret. split; [intros _|reflexivity]. by apply (in_step_moved _ _ _ Hin).
  - destruct ok; [by apply saving_effect|]. rewrite run_ret. split; [intros _|reflexivity].
    by apply (in_step_moved _ _ _ Hin).
  - rewrite run_ret. split; [intros _|reflexivity].
    apply (in_step_moved _ _ _ Hin); [|..|exact I|done]; cbn [store];
      destruct (deck_transaction_store_snapshot <$> persistent s) as [n|]; cbn;
      try (unfold cache_transaction_status; destruct (snapshot_storage_faulted n), (ok && snapshot_has_active n));
      first [reflexivity|exact Harr].
  - rewrite run_bind. destruct (close_worker_storage s f) as [s1 f1] eqn:Hc.
    assert (f1 = f) as ->.
    { revert Hc. unfold close_worker_storage. rewrite run_bind, run_ret. case_match; by intros [= _ <-]. }
    apply close_cases in Hc as ->. cbn [fst snd]. rewrite run_ret. split; [intros _|reflexivity].
    destruct Hin as [Hm Hs Ha Hr Hh]. split; cbn; [exact Hm|discriminate|exact Ha|exact I|discriminate].
  - rewrite run_ret. split; [intros _|reflexivity]. by apply (in_step_moved _ _ _ Hin).
  - rewrite run_ret. split; [intros _; exact Hin|reflexivity].
Qed.

(** ** Whole runs *)

Lemma run_dead es (y : system flash) :
  powered (world y) = false ->
  world (run y es) = world y /\ Forall (fun save => save.2 = false) (saves y es).
Proof.
  revert y. induction es as [|e es IH]; intros y Hp; [by split|]. destruct (dead_event y e Hp) as [Ew Hs].
  destruct (IH (run_event y e)) as [Ew' Hs']; [by rewrite Ew|]. cbn [run foldl saves]. split.
  - by rewrite <- Ew.
  - by apply Forall_app.
Qed.

Lemma dead_possible d log : Forall (fun save : bytes * bool => save.2 = false) log -> d ∈ possible_documents d log.
Proof. intros [|[next ok] log' Hok _]; [by left|]. cbn in Hok. subst ok. by left. Qed.

Lemma save_of_single (y : system flash) e : save_of y e = [] \/ exists save, save_of y e = [save].
Proof. unfold save_of. destruct e as [k|]; [by left|]. destruct (at_ y); try by left. destruct persisted_ok; [right|by left]. by eexists. Qed.

Lemma run_possible es (y : system flash) :
  powered (world y) = true -> in_step y -> store_inv (at_ y) (store y) -> Forall call_bytes es ->
  durable (world (run y es)) ∈ possible_documents (durable (world y)) (saves y es)
  /\ (powered (world (run y es)) = true -> Forall (fun save => save.2 = true) (saves y es)).
Proof.
  revert y. induction es as [|e es IH]; intros y Hp Hin Hi He; [split; [by left|done]|].
  apply Forall_cons in He as [He Hes]. destruct (live_event y e Hp Hin Hi He) as [Hin' Heff].
  pose proof (event_inv y e Hi) as Hi'. cbn [run foldl saves]. change (foldl run_event ?x es) with (run x es).
  assert (durable (world (run (run_event y e) es))
      ∈ possible_documents (durable (world (run_event y e))) (saves (run_event y e) es)
    /\ (powered (world (run (run_event y e) es)) = true ->
        Forall (fun save => save.2 = true) (saves (run_event y e) es))) as [Htail Hall].
  { destruct (powered (world (run_event y e))) eqn:Hp'; [by apply IH; auto|].
    destruct (run_dead es _ Hp') as [-> Hs]. split; [by apply dead_possible|]. intros; congruence. }
  destruct (save_of_single y e) as [Es|[[d ok] Es]]; rewrite Es in *; cbn [app]; [by rewrite Heff in Htail|].
  destruct ok.
  - rewrite Heff in Htail. split; [exact Htail|]. intros Hpf. by constructor; [|apply Hall].
  - destruct Heff as [Hp' Hd]. destruct (run_dead es _ Hp') as [Ew _]. rewrite Ew. split; [|congruence].
    destruct Hd as [-> | ->]; [by left|by right; left].
Qed.

Lemma created_in_step d c (y : system flash) :
  is_bytes d -> is_bytes c -> medium_ok persistent_options (cells (world y)) ->
  created d c (at_ y) (store y) -> in_step y.
Proof.
  intros Hd Hc Hm [Ha (o & missing & faulted & Es)]. split; [exact Hm|rewrite Es; discriminate|rewrite Es; by split| |];
    by destruct Ha as [-> | ->].
Qed.

(** C14: The snapshot survives power losses.  A store is created on a medium in
    order and runs; whatever write loses the power, in whatever state of the
    worker and interleaved with whatever calls, a restart shows the last
    document whose save succeeded (or the one from before, without any), or
    else the one whose save was the first to fail after it; without a power
    loss every save succeeds and it is the last document saved. *)
Theorem snapshot_survives_power_loss (y : system flash) d c es
    (Hd : length d = maximum /\ is_bytes d) (Hc : length c = maximum /\ is_bytes c)
    (Hcreated : created d c (at_ y) (store y))
    (Hp : powered (world y) = true) (Hmedium : medium_ok persistent_options (cells (world y)))
    (Hcalls : Forall call_bytes es) :
  let f := world (run y es) in
  document_after_restart f ∈ possible_documents (document_after_restart (world y)) (saves y es)
  /\ (powered f = true -> Forall (fun save => save.2 = true) (saves y es)).
Proof.
  cbv zeta. rewrite !document_after_restart_durable. apply run_possible; [exact Hp| | |exact Hcalls].
  - exact (created_in_step _ _ _ (proj2 Hd) (proj2 Hc) Hmedium Hcreated).
  - exact (created_store_inv _ _ _ _ (proj1 Hd) (proj1 Hc) Hcreated).
Qed.

(** Power is lost while the second document is saved. *)
Lemma snapshot_survives_power_loss_witness :
  let y := start (sample_flash 8 false) in
  let es := boot ++ Call (Apply small_sample sample_now) :: save_it
    ++ Call (Apply later_sample (sample_now + DECK_AI_SNAPSHOT_FLASH_INTERVAL_MS)) :: save_it in
  let f := world (run y es) in
  powered f = false
  /\ document_after_restart f ∈ possible_documents None [(small_sample, true); (later_sample, false)].
Proof.
  intros y es f. split; [vm_compute; reflexivity|].
  assert (saves y es = [(small_sample, true); (later_sample, false)]) as <- by (vm_compute; reflexivity).
  assert (document_after_restart (world y) = None) as <- by (vm_compute; reflexivity).
  assert (length zeros = maximum /\ is_bytes zeros) as Hz.
  { split; [apply length_replicate|]. apply Forall_replicate. words. }
  apply (snapshot_survives_power_loss y zeros zeros es Hz Hz).
  - split; [by right|]. by exists direct_storage, false, false.
  - reflexivity.
  - apply map_Forall_empty.
  - unfold es, boot, save_it. cbn [app].
    repeat (apply Forall_cons; split; [first [exact I|exact small_sample_bytes|exact later_sample_bytes]|]). apply Forall_nil. exact I.
Defined.
