(* ===== verification/SnapshotStoreWorker.v ===== *)
(** * The worker of the AI snapshot store left to itself

    How many steps the worker needs to come to rest, the one document with which
    it may not, and how far apart the checkpoints it takes are. *)

From Stdlib Require Import String.
From S2P Require Import Prelude Codec TransactionStore TransactionClient TransactionMedium TransactionCrash SnapshotValidate SnapshotSample SnapshotStore SnapshotStoreSpec SnapshotStoreSample SnapshotStoreSafety.

#[local] Opaque deck_ai_snapshot_validate DECK_AI_SNAPSHOT_MAX_BYTES kRecordHeaderSize kChecksumSize kMarkerSize
  crc32 DECK_TRANSACTION_MAX_PAYLOAD_CAPACITY.

Implicit Type s : deck_ai_snapshot_store.

(** ** Coming to rest *)

(** Nothing is left to do until a caller acts. *)
Definition settled (a : worker_state) s : Prop :=
  a = worker_absent \/ a = worker_done
  \/ (a = worker_waiting /\ checkpoint_pending s = false /\ stop_requested s = false).

(** The document in memory is dated 1 January 1970, at midnight. *)
Definition epoch s : Prop := has_snapshot s = true /\ generated_at_unix_ms (metadata s) = 0.

(** The checkpoint is the document in memory. *)
Definition mirrors s (size : nat) (generated : Z) : Prop :=
  has_snapshot s = true /\ generated = generated_at_unix_ms (metadata s)
  /\ take size (checkpoint_document s) = current_document s.

Lemma queue_mirrors a s :
  store_inv a s -> let s' := (queue_current_checkpoint_locked s).2 in
  checkpoint_pending s = false -> checkpoint_pending s' = true ->
  mirrors s' (checkpoint_size s') (checkpoint_generated_at_ms s').
Proof.
  intros Hi. cbv zeta. unfold queue_current_checkpoint_locked. destruct (_ || _) eqn:E; cbn [snd]; [congruence|].
  bool_prop. intros _ _. destruct (inv_memory _ _ Hi) as [Hsize _]; [done|].
  pose proof (inv_document _ _ Hi) as Hd. pose proof (length_current s ltac:(lia)) as Hl.
  split; [assumption|]. split; [reflexivity|]. cbn. rewrite <- Hl at 1. apply take_written_all.
Qed.

Lemma mirrored_is_live s c :
  mirrors s (cp_size c) (cp_generated_at_ms c) ->
  live_supersedes_checkpoint_locked s (cp_generated_at_ms c) (take (cp_size c) (checkpoint_document s)) = false.
Proof.
  intros (Hs & Hg & Hd). unfold live_supersedes_checkpoint_locked, same_document. rewrite Hs, Hg, Hd, Z.ltb_irrefl.
  by rewrite bool_decide_eq_true_2, andb_false_r.
Qed.

(** The memory behind a successful reopening. *)
Lemma publish_memory r s :
  let s' := publish_recovered_locked r true s in
  persisted_generated_at_ms s' = r_persisted_generated_at_ms r /\ checkpoint_document s' = checkpoint_document s
  /\ if authoritative r s then has_snapshot s' = true /\ metadata s' = r_metadata r
     else has_snapshot s' = has_snapshot s /\ metadata s' = metadata s /\ current_document s' = current_document s.
Proof.
  cbv zeta. rewrite publish_opened.
  destruct (cache_frame r s) as (E1 & E2 & E3 & E4 & E5 & _ & _ & _ & _ & _ & _ & _ & _ & _ & _ & _ & E17 & _).
  destruct (authoritative r s); (split; [exact E17|]; split; [exact E5|]); [by split|].
  unfold current_document. by rewrite E1, E2, E3, E4.
Qed.

(** Queueing finds nothing to do when storage has the document. *)
Lemma persisted_not_queued s :
  has_snapshot s = true -> persisted_generated_at_ms s = generated_at_unix_ms (metadata s) ->
  checkpoint_pending s = false -> let s' := (queue_current_checkpoint_locked (s <| worker_busy := false |>)).2 in
  checkpoint_pending s' = false \/ epoch s'.
Proof.
  intros Hs Hg Hp. change (has_snapshot (s <| worker_busy := false |>) = true) in Hs.
  change (persisted_generated_at_ms (s <| worker_busy := false |>)
          = generated_at_unix_ms (metadata (s <| worker_busy := false |>))) in Hg.
  change (checkpoint_pending (s <| worker_busy := false |>) = false) in Hp. revert Hs Hg Hp.
  generalize (s <| worker_busy := false |>). clear s. intros s Hs Hg Hp. destruct (queue_frame s) as (_ & _ & F3 & F4 & _). cbv zeta. unfold epoch. rewrite F3, F4.
  destruct (queue_current_checkpoint_locked s) as [q s'] eqn:Eq. pose proof (queue_cases _ _ _ Eq) as Hq. cbn [snd].
  destruct q; [|left; by subst]. right. destruct Hq as [_ Hdue]. apply due_idle in Hdue as (_ & _ & _ & _ & _ & [Hz|Hel]).
  - split; [done|congruence].
  - rewrite Hg in Hel. unfold elapsed_at_least, DECK_AI_SNAPSHOT_FLASH_INTERVAL_MS in Hel. bool_prop. lia.
Qed.

(** Behind a reopening, a checkpoint that mirrors memory is either attempted or
    obsolete because storage has as new a document; the latter is not queued
    again. *)
Lemma mirrored_reopened c ok r s :
  store_inv (worker_reopened c ok r) s -> mirrors s (cp_size c) (cp_generated_at_ms c) ->
  let '(a', s') := worker_publish_reopened c ok r s in
  a' = worker_attempting c ok \/ (a' = worker_waiting /\ (checkpoint_pending s' = false \/ epoch s')).
Proof.
  intros Hi Hm. pose proof Hm as (Hs & Hg & Hd). unfold worker_publish_reopened.
  assert (publishes ok s (publish_recovered_locked r ok s)) as Hp.
  { eapply publish_publishes; [exact Hi|]. intros ->. exact (inv_knows _ _ Hi). }
  pose proof (inv_pending _ _ Hi) as Hpend.
  assert (checkpoint_pending s = false) as Hidle.
  { destruct (checkpoint_pending s); [|done]. by destruct (Hpend eq_refl) as (_ & ? & _). }
  destruct ok.
  - destruct (publish_memory r s) as (E1 & E2 & Hmem). set (s1 := publish_recovered_locked r true s) in *.
    destruct (recovered_supersedes_checkpoint r (cp_generated_at_ms c)) eqn:Er; cbn [andb orb].
    + right. split; [done|]. unfold recovered_supersedes_checkpoint in Er. bool_prop.
      destruct (inv_knows _ _ Hi) as (t & _ & Hrb). destruct (rb_document _ _ Hrb) as (_ & _ & _ & _ & Hrg); [done|].
      apply persisted_not_queued; [|rewrite E1, Hrg|by rewrite (pb_pending _ _ _ Hp)];
        unfold authoritative in Hmem; rewrite Hs in Hmem; destruct (_ && _) eqn:Ea.
      * by destruct Hmem.
      * destruct Hmem as (-> & _). done.
      * by destruct Hmem as [_ ->].
      * destruct Hmem as (_ & -> & _). cbn [negb orb] in Ea.
        destruct (r_has_snapshot r); [|done]. cbn [andb] in Ea. bool_prop. lia.
    + destruct (authoritative r s) eqn:Ea.
      * exfalso. unfold authoritative, recovered_supersedes_checkpoint in *. rewrite Hs, Hg in *.
        destruct (r_has_snapshot r); [|done]. cbn [negb andb orb] in *. bool_prop.
        apply orb_true_iff in Ea as [Ea|Ea]; bool_prop; lia.
      * destruct Hmem as (F1 & F2 & F3). rewrite mirrored_is_live; [by left|].
        split; [congruence|]. split; [congruence|]. by rewrite E2, F3.
  - cbn [andb orb]. rewrite mirrored_is_live; [by left|]. exact Hm.
Qed.

Section worker.
Context {W : Type} `{StorageAdapter W} `{StorageProvider W}.

(** Within [n] steps the worker alone settles, or has a document of the epoch
    in memory. *)
Definition rests (n : nat) (y : system W) : Prop :=
  exists k, (k <= n)%nat /\ let y' := run y (repeat Worker k) in settled (at_ y') (store y') \/ epoch (store y').

Lemma rests_now n (y : system W) : settled (at_ y) (store y) \/ epoch (store y) -> rests n y.
Proof. intros. exists 0%nat. split; [lia|done]. Qed.

Lemma rests_step n (y : system W) : rests n (run_event y Worker) -> rests (S n) y.
Proof. intros (k & Hk & Hr). exists (S k). split; [lia|exact Hr]. Qed.

Lemma rests_more n m (y : system W) : (n <= m)%nat -> rests n y -> rests m y.
Proof. intros Hle (k & Hk & Hr). exists k. split; [lia|exact Hr]. Qed.

Lemma rests_closing s w : rests 2 {| at_ := worker_closing; store := s; world := w |}.
Proof.
  apply rests_step. cbn. rewrite run_bind, run_ret. apply rests_step, rests_now. left. right. left. reflexivity.
Qed.

Lemma rests_idle s w : checkpoint_pending s = false -> rests 3 {| at_ := worker_waiting; store := s; world := w |}.
Proof.
  intros Hp. destruct (stop_requested s) eqn:Hs.
  - apply rests_step. cbn. unfold worker_take. rewrite Hp, Hs. apply rests_closing.
  - apply rests_now. left. right. right. by split_and!.
Qed.

(** From the attempt on. *)
Lemma rests_saved c ok s w :
  store_inv (worker_saved c ok) s -> rests 4 {| at_ := worker_saved c ok; store := s; world := w |}.
Proof.
  intros Hi. apply rests_step. cbn. apply rests_idle.
  assert (checkpoint_pending s = false) as Hp.
  { destruct (checkpoint_pending s) eqn:Hp; [|done]. by destruct (inv_pending _ _ Hi Hp) as (_ & ? & _). }
  unfold cache_transaction_status. rewrite <- Hp. cbn. by repeat case_match.
Qed.

(** A step of a worker that is known not to publish. *)
Lemma rests_by_step n (y : system W) a' :
  store_inv (at_ y) (store y) -> (persistence_worker (at_ y) (store y) (world y)).1.1 = a' ->
  (forall s' w', store_inv a' s' -> rests n {| at_ := a'; store := s'; world := w' |}) -> rests (S n) y.
Proof.
  intros Hi Ha Hgo. apply rests_step. pose proof (event_inv y Worker Hi) as Hi'. revert Hi'. unfold run_event.
  destruct (persistence_worker (at_ y) (store y) (world y)) as [[a1 s1] w1]. cbn in *. subst a1. apply Hgo.
Qed.

Lemma rests_saving c ok s w :
  store_inv (worker_saving c ok) s -> rests 5 {| at_ := worker_saving c ok; store := s; world := w |}.
Proof.
  intros Hi. eapply rests_by_step; [exact Hi|reflexivity|]. cbn. destruct ok.
  - rewrite run_bind. destruct (worker_save c s w) as [[ok s1] w1]. cbn [fst snd]. rewrite run_ret. apply rests_saved.
  - apply rests_saved.
Qed.

Lemma rests_attempting c ok s w :
  store_inv (worker_attempting c ok) s -> rests 6 {| at_ := worker_attempting c ok; store := s; world := w |}.
Proof.
  intros Hi. eapply rests_by_step; [exact Hi|reflexivity|]. cbn. destruct (_ && _).
  - rewrite run_bind, run_ret. cbn. apply rests_saving.
  - apply rests_saving.
Qed.

(** Reopening keeps the checkpoint and the memory. *)
Lemma reopening_step c s w :
  exists ok r s' w', persistence_worker (worker_reopening c) s w = ((worker_reopened c ok r, s'), w')
    /\ (mirrors s (cp_size c) (cp_generated_at_ms c) -> mirrors s' (cp_size c) (cp_generated_at_ms c)).
Proof.
  cbn. rewrite run_bind. destruct (open_worker_storage s w) as [[[ok r] s1] w1] eqn:Ho. cbn [fst snd]. rewrite run_ret.
  apply open_cases in Ho as (t & handle & -> & _). exists ok, r. eexists _, _. split; [reflexivity|]. by intros ?.
Qed.

(** A checkpoint of what is in memory. *)
Lemma rests_mirrored s w :
  store_inv worker_waiting s -> checkpoint_pending s = true ->
  mirrors s (checkpoint_size s) (checkpoint_generated_at_ms s) ->
  rests 9 {| at_ := worker_waiting; store := s; world := w |}.
Proof.
  intros Hi Hp Hm. pose proof (take_inv _ Hi) as Hi1. apply rests_step. cbn. revert Hi1. unfold worker_take.
  rewrite Hp, andb_false_r. cbn [negb].
  set (c := {| cp_size := checkpoint_size s |}). set (s1 := s <| checkpoint_pending := false |> <| worker_busy := true |>).
  assert (mirrors s1 (cp_size c) (cp_generated_at_ms c)) as Hm1 by exact Hm. clearbody c s1.
  destruct (persistence_needs_reopen _); cbn [fst snd]; intros Hi1.
  2: { eapply rests_more; [|by apply rests_attempting]. lia. }
  destruct (reopening_step c s1 w) as (ok & r & s2 & w2 & Hstep & Hm2). specialize (Hm2 Hm1).
  pose proof (worker_inv _ _ _ _ _ _ Hi1 Hstep) as Hi2. apply rests_step. unfold run_event. cbn [at_ store world].
  rewrite Hstep. apply rests_step. cbn.
  pose proof (mirrored_reopened c ok r s2 Hi2 Hm2) as Hcases.
  assert (store_inv (worker_publish_reopened c ok r s2).1 (worker_publish_reopened c ok r s2).2) as Hi3.
  { eapply (worker_inv (worker_reopened c ok r) s2 w2); [exact Hi2|]. cbn. rewrite run_ret. by rewrite <- surjective_pairing. }
  destruct (worker_publish_reopened c ok r s2) as [a3 s3]. cbn [fst snd] in *.
  destruct Hcases as [-> | [-> [Hp3|He]]].
  - by apply rests_attempting.
  - eapply rests_more; [|by apply rests_idle]. lia.
  - apply rests_now. by right.
Qed.

Lemma rests_queued s w :
  store_inv worker_waiting s -> checkpoint_pending s = false ->
  rests 9 {| at_ := worker_waiting; store := (queue_current_checkpoint_locked s).2; world := w |}.
Proof.
  intros Hi Hp. pose proof (queue_inv _ _ Hi) as Hq. pose proof (queue_mirrors _ _ Hi Hp) as Hm.
  destruct (checkpoint_pending (queue_current_checkpoint_locked s).2) eqn:Hp'.
  - apply rests_mirrored; [exact Hq|exact Hp'|by apply Hm].
  - eapply rests_more; [|by apply rests_idle]. lia.
Qed.

Lemma not_pending a s : store_inv a s -> busy a = true -> checkpoint_pending s = false.
Proof.
  intros Hi Hb. destruct (checkpoint_pending s) eqn:Hp; [|done].
  destruct (inv_pending _ _ Hi Hp) as (_ & ? & _). congruence.
Qed.

Lemma rests_opened ok r s w :
  store_inv (worker_opened ok r) s -> rests 10 {| at_ := worker_opened ok r; store := s; world := w |}.
Proof.
  intros Hi. apply rests_step. cbn.
  assert (publishes ok s (publish_recovered_locked r ok s)) as Hp
    by (eapply publish_publishes; [exact Hi|intros ->; exact (inv_knows _ _ Hi)]).
  apply rests_queued; [by eapply published_waits|]. cbn. rewrite (pb_pending _ _ _ Hp). by eapply not_pending.
Qed.

Lemma rests_reopened c ok r s w :
  store_inv (worker_reopened c ok r) s -> rests 10 {| at_ := worker_reopened c ok r; store := s; world := w |}.
Proof.
  intros Hi. apply rests_step. cbn. unfold worker_publish_reopened.
  assert (publishes ok s (publish_recovered_locked r ok s)) as Hp
    by (eapply publish_publishes; [exact Hi|intros ->; exact (inv_knows _ _ Hi)]).
  destruct (_ || _).
  - apply rests_queued; [by eapply published_waits|]. cbn. rewrite (pb_pending _ _ _ Hp). by eapply not_pending.
  - eapply rests_more; [|apply rests_attempting; by eapply published_attempts]. lia.
Qed.

Lemma rests_reopening c s w :
  store_inv (worker_reopening c) s -> rests 11 {| at_ := worker_reopening c; store := s; world := w |}.
Proof.
  intros Hi. destruct (reopening_step c s w) as (ok & r & s2 & w2 & Hstep & _).
  pose proof (worker_inv _ _ _ _ _ _ Hi Hstep) as Hi2. apply rests_step. unfold run_event. cbn [at_ store world].
  rewrite Hstep. by apply rests_reopened.
Qed.

End worker.

(** C18: Left alone, within twelve steps from every state a run can reach and
    whatever storage and provider answer, the worker either comes to rest, that
    is, it exits if it was asked to and waits with no checkpoint left
    otherwise, or the document in memory is dated 1 January 1970 at midnight.
    With such a document it may go round without end
    ([midnight_document_never_rests]): the time zero also says that no document
    is persisted, so that a worker that reopens a faulted storage and recovers
    this very document finds it due once more. *)
Theorem worker_settles {W} `{StorageAdapter W, StorageProvider W} (y : system W) (Hy : reachable y) :
  exists k, (k <= 12)%nat /\
    let y' := run y (repeat Worker k) in settled (at_ y') (store y') \/ epoch (store y').
Proof.
  apply reachable_inv in Hy as Hi. change (rests 12 y). destruct y as [a s w]. cbn in Hi.
  assert (Hle : forall n, (n <= 12)%nat -> rests n {| at_ := a; store := s; world := w |} ->
    rests 12 {| at_ := a; store := s; world := w |}) by (intros n; apply rests_more).
  destruct a as [| |ok r| |c|c ok r|c ok|c ok|c ok| | |].
  - apply rests_now. left. by left.
  - apply (Hle 11%nat); [lia|]. eapply rests_by_step; [exact Hi|reflexivity|]. cbn. rewrite run_bind.
    destruct (open_worker_storage s w) as [[[ok r] s1] w1]. cbn [fst snd]. rewrite run_ret. apply rests_opened.
  - apply (Hle 10%nat); [lia|]. by apply rests_opened.
  - destruct (checkpoint_pending s) eqn:Hp; [|apply (Hle 3%nat); [lia|by apply rests_idle]].
    eapply rests_by_step; [exact Hi|reflexivity|]. cbn. unfold worker_take. rewrite Hp, andb_false_r. cbn [negb].
    destruct (persistence_needs_reopen s); cbn [fst]; intros s' w' Hi'; [by apply rests_reopening|].
    eapply rests_more; [|by apply rests_attempting]. lia.
  - apply (Hle 11%nat); [lia|]. by apply rests_reopening.
  - apply (Hle 10%nat); [lia|]. by apply rests_reopened.
  - apply (Hle 6%nat); [lia|]. by apply rests_attempting.
  - apply (Hle 5%nat); [lia|]. by apply rests_saving.
  - apply (Hle 4%nat); [lia|]. by apply rests_saved.
  - apply (Hle 2%nat); [lia|]. apply rests_closing.
  - apply (Hle 1%nat); [lia|]. apply rests_step, rests_now. left. right. by left.
  - apply rests_now. left. right. by left.
Qed.

Lemma worker_settles_witness :
  let y := run (start (sample_flash 3 true)) (boot ++ [Call (Apply small_sample sample_now); Worker; Call RequestDestroy]) in
  exists k, (k <= 12)%nat /\
    let y' := run y (repeat Worker k) in settled (at_ y') (store y') \/ epoch (store y').
Proof. intros y. exact (worker_settles y (start_reachable _ _)). Defined.

(** A storage that always gives the same answers: its candidate cannot be read,
    and its active record is a document of 1 January 1970 behind the attempt
    record of another. *)
Inductive stuck_storage := the_stuck_storage.

Definition midnight_sample : bytes := small_document "1970-01-01T00:00:00Z".

#[export] Instance stuck_adapter : StorageAdapter stuck_storage := {
  storage_read key _ f :=
    (match key with
     | DECK_TRANSACTION_STORAGE_CANDIDATE => (DECK_TRANSACTION_STORAGE_ERROR, [])
     | DECK_TRANSACTION_STORAGE_SLOT_0 =>
         (DECK_TRANSACTION_STORAGE_OK,
          encode_record persistent_options midnight_sample 1 (16 + length midnight_sample))
     | DECK_TRANSACTION_STORAGE_SLOT_1 => (DECK_TRANSACTION_STORAGE_NOT_FOUND, [])
     | DECK_TRANSACTION_STORAGE_ACTIVE_MARKER =>
         (DECK_TRANSACTION_STORAGE_OK, encode_marker persistent_options 0 1 false 0 0)
     | DECK_TRANSACTION_STORAGE_METADATA =>
         (DECK_TRANSACTION_STORAGE_OK, attempt_record sample_time sample_time)
     end, f);
  storage_write _ _ f := (false, f);
  storage_erase _ f := (true, f);
  heap_alloc f := (true, f);
}.

#[export] Instance stuck_provider : StorageProvider stuck_storage := {
  provider_open f := ({| open_result := true; adapter_configured := true; handle_given := true |}, f);
  provider_close f := (tt, f);
}.

(** The worker is handed that document half an hour behind the attempt. *)
Definition midnight_system : system stuck_storage :=
  run (start the_stuck_storage) (Call (Apply midnight_sample (sample_time + DECK_AI_SNAPSHOT_FLASH_INTERVAL_MS)) :: boot).

(** The same with another transaction store open. *)
Definition midnight_with (p : option deck_transaction_store) : system stuck_storage :=
  {| at_ := worker_waiting; store := (store midnight_system) <| persistent := p |>; world := the_stuck_storage |}.

Lemma but_persistent s s0 : s <| persistent := None |> = s0 <| persistent := None |> -> s = s0 <| persistent := persistent s |>.
Proof. intros E. apply (f_equal (fun x => x <| persistent := persistent s |>)) in E. by destruct s. Qed.

Lemma midnight_with_any (y : system stuck_storage) : at_ y = worker_waiting ->
  (store y) <| persistent := None |> = (store midnight_system) <| persistent := None |> ->
  y = midnight_with (persistent (store y)).
Proof.
  destruct y as [a s []]. cbn [at_ store]. intros -> E%but_persistent. unfold midnight_with. by rewrite <- E.
Qed.

Lemma midnight_turn p : exists p', run (midnight_with p) (repeat Worker 3) = midnight_with p'.
Proof. eexists. apply midnight_with_any; vm_compute; reflexivity. Qed.

Lemma run_app {W} `{StorageAdapter W, StorageProvider W} (y : system W) es es' : run y (es ++ es') = run (run y es) es'.
Proof. apply foldl_app. Qed.

Lemma midnight_turns n p : exists p', run (midnight_with p) (repeat Worker (3 * n)) = midnight_with p'.
Proof.
  revert p. induction n as [|n IH]; intros p; [by exists p|]. destruct (midnight_turn p) as [p1 E], (IH p1) as [p2 E2].
  exists p2. replace (3 * S n)%nat with (3 + 3 * n)%nat by lia. rewrite repeat_app, run_app, E. exact E2.
Qed.

Lemma midnight_self : midnight_system = midnight_with (persistent (store midnight_system)).
Proof. apply midnight_with_any; [vm_compute|]; reflexivity. Qed.

Lemma midnight_pending p : checkpoint_pending (store (midnight_with p)) = true /\ epoch (store (midnight_with p)).
Proof. vm_compute. repeat split. Qed.

(** The exception of [worker_settles] is real: every three steps the worker is
    where it was, with the same checkpoint pending once more. *)
Lemma midnight_document_never_rests n : exists p,
  run midnight_system (repeat Worker (3 * n)) = midnight_with p
  /\ at_ (midnight_with p) = worker_waiting /\ checkpoint_pending (store (midnight_with p)) = true
  /\ epoch (store (midnight_with p)).
Proof.
  destruct (midnight_turns n (persistent (store midnight_system))) as [p E]. exists p. rewrite <- midnight_self in E.
  split; [exact E|]. split; [reflexivity|]. apply midnight_pending.
Qed.

(** ** How far apart checkpoints are *)

(** The event queues a checkpoint. *)
Definition queues {W} `{StorageAdapter W, StorageProvider W} (y : system W) (e : event) : Prop :=
  checkpoint_pending (store y) = false /\ checkpoint_pending (store (run_event y e)) = true.

(** The worker is about to publish what it read from a storage it opened. *)
Definition reopens (a : worker_state) : bool :=
  match a with worker_opened ok _ | worker_reopened _ ok _ => ok | _ => false end.

(** The last attempt was due at [t]. *)
Record since (t : Z) (a : worker_state) s : Prop := {
  since_last : last_persist_attempt_utc_ms s = t;
  since_pending : checkpoint_pending s = true -> checkpoint_attempt_utc_ms s = t;
  since_carried : forall c, carried a = Some c -> cp_attempt_utc_ms c = t;
}.

(** The next one is half an hour later, if the event queues one. *)
Definition spaced (t : Z) (a : worker_state) s (a' : worker_state) s' : Prop :=
  since t a' s' /\ (checkpoint_pending s' = true -> checkpoint_pending s = true)
  \/ checkpoint_pending s' = true /\ t + DECK_AI_SNAPSHOT_FLASH_INTERVAL_MS <= checkpoint_attempt_utc_ms s'
     /\ since (checkpoint_attempt_utc_ms s') a' s'.

Lemma queue_spaced t a a' s0 s :
  0 < t -> since t a' s -> checkpoint_pending s = checkpoint_pending s0 ->
  (worker_busy s = false -> carried a' = None) ->
  spaced t a s0 a' (queue_current_checkpoint_locked s).2.
Proof.
  intros Ht Hsince Hsame Hidle. unfold spaced, queue_current_checkpoint_locked.
  destruct (_ || _) eqn:E; cbn [snd]; [left; split; [done|congruence]|].
  right. bool_prop. cbn.
  destruct (due_idle _ _ _ H0) as (_ & _ & _ & Hbusy & _). split; [done|].
  split; [|split; [done|done|rewrite (Hidle Hbusy); discriminate]].
  revert H0. unfold persistence_due. rewrite (since_last _ _ _ Hsince).
  destruct (_ || worker_busy s); [done|]. destruct (attempt_watermark_unknown s && _); [done|].
  destruct (negb (t =? 0) && _) eqn:Et; [done|]. intros _. apply andb_false_iff in Et as [Et|Et]; bool_prop; [lia|].
  unfold elapsed_at_least in Et. bool_prop. lia.
Qed.

(** What an operation leaves alone that queues nothing. *)
Lemma since_kept t a s s' :
  since t a s -> last_persist_attempt_utc_ms s' = last_persist_attempt_utc_ms s ->
  checkpoint_pending s' = checkpoint_pending s -> checkpoint_attempt_utc_ms s' = checkpoint_attempt_utc_ms s ->
  since t a s'.
Proof. intros [Hl Hp Hc] E1 E2 E3. split; [congruence|rewrite E2, E3; exact Hp|exact Hc]. Qed.

Lemma kept_spaced t a s s' :
  since t a s -> last_persist_attempt_utc_ms s' = last_persist_attempt_utc_ms s ->
  checkpoint_pending s' = checkpoint_pending s -> checkpoint_attempt_utc_ms s' = checkpoint_attempt_utc_ms s ->
  spaced t a s a s'.
Proof. intros Hs E1 E2 E3. left. split; [by eapply since_kept|congruence]. Qed.

Lemma call_spaced t a s k : 0 < t -> store_inv a s -> since t a s -> spaced t a s a (run_call k s).
Proof.
  intros Ht Hi Hs. destruct k as [d trusted|now online capacity| |]; cbn.
  - unfold deck_ai_snapshot_store_apply. destruct (deck_ai_snapshot_validate d) as [r m].
    destruct r; try by apply kept_spaced.
    destruct (observe_clock _ _ _) as [[clock high] latched]. destruct clock; try by apply kept_spaced.
    destruct (trusted <? _); [by apply kept_spaced|]. destruct (_ && _); [by apply kept_spaced|].
    destruct (_ && _); [by apply kept_spaced|]. unfold apply_document.
    match goal with |- context [queue_current_checkpoint_locked ?x] => set (s0 := x) end.
    assert (since t a s0 /\ worker_busy s0 = worker_busy s /\ checkpoint_pending s0 = checkpoint_pending s)
      as (H0 & Hb & Hp) by (subst s0; case_match; (split; [by apply (since_kept _ _ s)|by split])).
    assert (spaced t a s a (queue_current_checkpoint_locked s0).2) as Hq.
    { apply queue_spaced; [done|done|done|]. rewrite Hb, (inv_busy _ _ Hi). apply idle_carries_nothing. }
    by destruct (queue_current_checkpoint_locked s0).
  - unfold deck_ai_snapshot_store_copy. destruct (negb _); [by apply kept_spaced|].
    destruct (display_state _ _ _) as [[? ?] ?]. repeat case_match; by apply kept_spaced.
  - by apply kept_spaced.
  - unfold destroy_request. case_match; by apply kept_spaced.
Qed.

(** A step of the worker that queues nothing. *)
Lemma moved_spaced t a s a' s' :
  since t a s -> last_persist_attempt_utc_ms s' = last_persist_attempt_utc_ms s ->
  checkpoint_attempt_utc_ms s' = checkpoint_attempt_utc_ms s ->
  (checkpoint_pending s' = true -> checkpoint_pending s = true) ->
  (forall c, carried a' = Some c ->
    carried a = Some c \/ (checkpoint_pending s = true /\ cp_attempt_utc_ms c = checkpoint_attempt_utc_ms s)) ->
  spaced t a s a' s'.
Proof.
  intros [Hl Hp Hc] E1 E2 E3 E4. left. split; [|exact E3]. split; [congruence|intros; rewrite E2; auto|].
  intros c Ha. destruct (E4 c Ha) as [?|[Hpe ->]]; auto.
Qed.

(** Publishing a reopening that failed. *)
Lemma publish_failed_spaced t a s r :
  0 < t -> since t a s ->
  spaced t a s worker_waiting (queue_current_checkpoint_locked
    ((publish_recovered_locked r false s) <| worker_busy := false |>)).2.
Proof.
  intros Ht [Hl Hp Hc].
  set (s' := (publish_recovered_locked r false s) <| worker_busy := false |>).
  assert (last_persist_attempt_utc_ms s' = t /\ checkpoint_pending s' = checkpoint_pending s
    /\ checkpoint_attempt_utc_ms s' = checkpoint_attempt_utc_ms s) as (E1 & E2 & E3)
    by (split; [exact Hl|split; reflexivity]).
  clearbody s'. apply queue_spaced; [exact Ht| |exact E2|reflexivity].
  split; [exact E1|rewrite E2, E3; exact Hp|discriminate].
Qed.

Section spacing.
Context {W : Type} `{StorageAdapter W} `{StorageProvider W}.

Lemma worker_spaced t a s (w : W) a' s' w' :
  0 < t -> store_inv a s -> since t a s -> reopens a = false ->
  persistence_worker a s w = ((a', s'), w') -> spaced t a s a' s'.
Proof.
  intros Ht Hi Hs Hno. destruct a as [| |ok r| |c|c ok r|c ok|c ok|c ok| | |]; cbn [persistence_worker].
  - rewrite run_ret. intros [= <- <- _]. by apply kept_spaced.
  - rewrite run_bind. destruct (open_worker_storage s w) as [[[ok r] s1] w1] eqn:Ho. cbn [fst snd]. rewrite run_ret.
    apply open_cases in Ho as (u & handle & -> & _). intros [= <- <- _].
    apply (moved_spaced _ _ _ _ _ Hs); [reflexivity..|exact (fun h => h)|discriminate].
  - cbn in Hno. subst ok. rewrite run_ret. intros [= <- <- _].
    by apply publish_failed_spaced.
  - rewrite run_ret. unfold worker_take. destruct (stop_requested s && _).
    { intros [= <- <- _]. apply (moved_spaced _ _ _ _ _ Hs); [reflexivity..|exact (fun h => h)|discriminate]. }
    destruct (checkpoint_pending s) eqn:Hpe; cbn [negb]; [|intros [= <- <- _]; by apply kept_spaced].
    intros [= <- <- _]. apply (moved_spaced _ _ _ _ _ Hs); [reflexivity..|discriminate|].
    intros c. destruct (persistence_needs_reopen _); cbn; intros [= <-]; right; by split.
  - rewrite run_bind. destruct (open_worker_storage s w) as [[[ok r] s1] w1] eqn:Ho. cbn [fst snd]. rewrite run_ret.
    apply open_cases in Ho as (u & handle & -> & _). intros [= <- <- _].
    apply (moved_spaced _ _ _ _ _ Hs); [reflexivity..|exact (fun h => h)|by left].
  - cbn in Hno. subst ok. rewrite run_ret. unfold worker_publish_reopened. cbn [andb orb].
    destruct (live_supersedes_checkpoint_locked _ _ _); intros [= <- <- _]; [by apply publish_failed_spaced|].
    apply (moved_spaced _ _ _ _ _ Hs); [reflexivity..|exact (fun h => h)|by left].
  - destruct (_ && _); rewrite ?run_bind, run_ret; intros [= <- <- _];
      (apply (moved_spaced _ _ _ _ _ Hs); [reflexivity..|exact (fun h => h)|by left]).
  - destruct ok; [|rewrite run_ret; intros [= <- <- _];
      apply (moved_spaced _ _ _ _ _ Hs); [reflexivity..|exact (fun h => h)|by left]].
    rewrite run_bind. unfold worker_save. destruct (persistent s) as [u|].
    + rewrite run_bind. destruct (save u _ w) as [[ok u'] w1]. cbn [fst snd]. rewrite !run_ret. cbn [fst snd].
      intros [= <- <- _]. apply (moved_spaced _ _ _ _ _ Hs); [reflexivity..|exact (fun h => h)|by left].
    + rewrite !run_ret. cbn [fst snd]. intros [= <- <- _].
      apply (moved_spaced _ _ _ _ _ Hs); [reflexivity..|exact (fun h => h)|by left].
  - rewrite run_ret. intros [= <- <- _]. pose proof (since_carried _ _ _ Hs c eq_refl) as Hc.
    pose proof (since_last _ _ _ Hs) as Hl. unfold cache_transaction_status.
    apply (moved_spaced _ _ _ _ _ Hs); [| | |discriminate]; cbn.
    all: destruct (persistent s) as [u|]; cbn; [|first [reflexivity|exact (fun h => h)]].
    all: destruct (TransactionStore.storage_faulted u), (ok && has_active u); cbn; first [congruence|exact (fun h => h)].
  - rewrite run_bind. destruct (close_worker_storage s w) as [s1 w1] eqn:Hcl. cbn [fst snd]. rewrite run_ret.
    apply close_cases in Hcl as ->. intros [= <- <- _].
    apply (moved_spaced _ _ _ _ _ Hs); [reflexivity..|exact (fun h => h)|discriminate].
  - rewrite run_ret. intros [= <- <- _].
    apply (moved_spaced _ _ _ _ _ Hs); [reflexivity..|exact (fun h => h)|discriminate].
  - rewrite run_ret. intros [= <- <- _]. by apply kept_spaced.
Qed.

Lemma event_spaced t (y : system W) e :
  0 < t -> store_inv (at_ y) (store y) -> since t (at_ y) (store y) -> reopens (at_ y) = false ->
  spaced t (at_ y) (store y) (at_ (run_event y e)) (store (run_event y e)).
Proof.
  intros Ht Hi Hs Hno. destruct e as [k|]; cbn; [by apply call_spaced|].
  destruct (persistence_worker (at_ y) (store y) (world y)) as [[a s] w] eqn:Hw. by eapply worker_spaced.
Qed.

Lemma run_since t es (y : system W) :
  0 < t -> store_inv (at_ y) (store y) -> since t (at_ y) (store y) ->
  (forall n, reopens (at_ (run y (take n es))) = false) ->
  exists t', t <= t' /\ since t' (at_ (run y es)) (store (run y es)).
Proof.
  revert t y. induction es as [|e es IH]; intros t y Ht Hi Hs Hno; [by exists t|].
  pose proof (event_spaced t y e Ht Hi Hs (Hno 0%nat)) as Hsp.
  pose proof (event_inv y e Hi) as Hi'. assert (forall n, reopens (at_ (run (run_event y e) (take n es))) = false) as Hno'
    by (intros n; apply (Hno (S n))).
  destruct Hsp as [[Hs' _]|(_ & Hle & Hs')].
  - by apply (IH t).
  - unfold DECK_AI_SNAPSHOT_FLASH_INTERVAL_MS in Hle.
    edestruct (IH (checkpoint_attempt_utc_ms (store (run_event y e)))) as (t' & Hle' & Hs''); [lia|done..|].
    exists t'. split; [lia|exact Hs''].
Qed.

End spacing.

(** C34: Checkpoints are half an hour apart: between two that are queued in a
    run without a successful reopening of the storage in between, thirty minutes
    pass, whatever became of the first. *)
Theorem checkpoints_are_half_an_hour_apart {W} `{StorageAdapter W, StorageProvider W} (y : system W) e es e'
    (Hy : reachable y) (Hfirst : queues y e) (Hpositive : 0 < checkpoint_attempt_utc_ms (store (run_event y e)))
    (Hno : forall n, reopens (at_ (run (run_event y e) (take n es))) = false)
    (Hsecond : queues (run (run_event y e) es) e') :
  checkpoint_attempt_utc_ms (store (run_event y e)) + DECK_AI_SNAPSHOT_FLASH_INTERVAL_MS
  <= checkpoint_attempt_utc_ms (store (run_event (run (run_event y e) es) e')).
Proof.
  apply reachable_inv in Hy as Hi. pose proof (event_inv y e Hi) as Hi1.
  assert (since (checkpoint_attempt_utc_ms (store (run_event y e))) (at_ (run_event y e)) (store (run_event y e))) as Hs.
  { destruct (inv_pending _ _ Hi1 (proj2 Hfirst)) as (_ & Hidle & _ & Hl).
    split; [exact Hl|reflexivity|]. intros c. by rewrite idle_carries_nothing. }
  destruct (run_since _ es _ Hpositive Hi1 Hs Hno) as (t & Hle & Ht).
  pose proof (run_inv es _ Hi1) as Hi2. specialize (Hno (length es)). rewrite take_ge in Hno by lia.
  destruct (event_spaced t _ e' ltac:(lia) Hi2 Ht Hno) as [[_ Hn]|(_ & Hle' & _)]; [|lia].
  destruct Hsecond as [Hp Hp']. rewrite (Hn Hp') in Hp. discriminate.
Qed.

(** The second and third document of the examples, a minute and a second on. *)
Definition second_sample : bytes := small_document "2026-08-13T12:35:56Z".
Definition third_sample : bytes := small_document "2026-08-13T12:35:57Z".
Definition half_an_hour_later : Z := sample_now + DECK_AI_SNAPSHOT_FLASH_INTERVAL_MS.

Lemma checkpoints_are_half_an_hour_apart_witness :
  let y := run (start (sample_flash 99 true)) boot in
  let e := Call (Apply small_sample sample_now) in
  let es := save_it ++ [Call (Apply second_sample (half_an_hour_later - 1))] in
  let e' := Call (Apply later_sample half_an_hour_later) in
  checkpoint_attempt_utc_ms (store (run_event y e)) + DECK_AI_SNAPSHOT_FLASH_INTERVAL_MS
  <= checkpoint_attempt_utc_ms (store (run_event (run (run_event y e) es) e')).
Proof.
  intros y e es e'. apply (checkpoints_are_half_an_hour_apart y e es e' (start_reachable _ _)).
  - split; vm_compute; reflexivity.
  - vm_compute. reflexivity.
  - intros n. destruct (decide (n < 5)%nat) as [Hn|Hn]; [|rewrite take_ge by (simpl; lia); vm_compute; reflexivity].
    do 5 (destruct n as [|n]; [vm_compute; reflexivity|]). lia.
  - split; vm_compute; reflexivity.
Defined.

(** With a reopening in between they are not: when storage refuses the writes,
    [publish_recovered_locked] replaces the time of the attempt it was called
    for by the older one of the storage, and the failure does not put it back;
    the next snapshot is attempted at once, a second after the last. *)
Lemma failing_storage_is_retried_at_once :
  let failed := run (start the_full_storage) (boot ++ Call (Apply small_sample sample_now) :: save_it) in
  let first := run failed [Call (Apply second_sample half_an_hour_later)] in
  let resting := run first (repeat Worker 6) in
  let second := run_event resting (Call (Apply third_sample (half_an_hour_later + 1000))) in
  checkpoint_pending (store first) = true /\ checkpoint_attempt_utc_ms (store first) = half_an_hour_later
  /\ at_ resting = worker_waiting /\ checkpoint_pending (store resting) = false
  /\ checkpoint_pending (store second) = true
  /\ checkpoint_attempt_utc_ms (store second) = half_an_hour_later + 1000.
Proof. vm_compute. repeat split. Qed.
