(* ===== verification/DeviceProtocol.v ===== *)
(** * The control messages of the device protocol

    [components/companion_link/deck_device_protocol.cpp]: the forward-only JSON
    cursor, the four parsers of control messages and the comparison of
    certificate fingerprints; and the dispatch of a server message,
    [components/companion_link/deck_companion_link_message.cpp].

    A cursor is the list of bytes between [current_] and [end_].  A method
    that answers [false] is [None]: no caller uses the cursor after that, nor
    what a failed parser left in its result.  A null message and an empty one
    are refused alike, and are both the empty list. *)

From Stdlib Require Import String.
From S2P Require Import Prelude CString SnapshotTime TransactionClient SnapshotStore.

Definition DECK_DEVICE_PROTOCOL_VERSION : Z := 1.
Definition DECK_DEVICE_PROTOCOL_MAX_CONTROL_BYTES : nat := 16 * 1024.

(** [std::strcmp(value, "...") == 0], of a string the cursor has read: it has
    no NUL. *)
Definition is_string (value : bytes) (text : string) : bool := bool_decide (value = literal text).

(** ** The cursor *)

Definition JsonCursor : Type := bytes.

Definition is_blank (byte : Z) : bool := (byte =? 32) || (byte =? 9) || (byte =? 13) || (byte =? 10).

Fixpoint whitespace (current : JsonCursor) : JsonCursor :=
  match current with
  | byte :: rest => if is_blank byte then whitespace rest else current
  | [] => []
  end.

Definition consume (expected : Z) (current : JsonCursor) : option JsonCursor :=
  match whitespace current with
  | byte :: rest => if byte =? expected then Some rest else None
  | [] => None
  end.

(** The escapes of one character; those of control characters yield bytes that
    are refused below. *)
Definition simple_escape (escaped : Z) : option Z :=
  if (escaped =? 34) || (escaped =? 92) || (escaped =? 47) then Some escaped
  else if escaped =? 98 then Some 8
  else if escaped =? 102 then Some 12
  else if escaped =? 110 then Some 10
  else if escaped =? 114 then Some 13
  else if escaped =? 116 then Some 9
  else None.

Definition hex_digit (digit : Z) : option Z :=
  if is_digit digit then Some (digit - 48)
  else if (97 <=? digit) && (digit <=? 102) then Some (digit - 97 + 10)
  else if (65 <=? digit) && (digit <=? 70) then Some (digit - 65 + 10)
  else None.

(** The loop over the four digits. *)
Fixpoint hex_codepoint (digits : nat) (codepoint : Z) (current : JsonCursor) : option (Z * JsonCursor) :=
  match digits with
  | O => Some (codepoint, current)
  | S digits =>
      match current with
      | [] => None
      | digit :: rest =>
          value ← hex_digit digit;
          hex_codepoint digits (Z.lor (u32 (Z.shiftl codepoint 4)) value) rest
      end
  end.

(** One turn of the loop in [string], up to the check of the byte. *)
Definition string_byte (current : JsonCursor) : option (Z * JsonCursor) :=
  match current with
  | [] => None
  | byte :: rest =>
      if byte =? 92 then
        match rest with
        | [] => None
        | escaped :: rest =>
            if escaped =? 117 then
              '(codepoint, rest) ← hex_codepoint 4 0 rest;
              if 127 <? codepoint then None else Some (codepoint, rest)
            else
              byte ← simple_escape escaped;
              Some (byte, rest)
        end
      else Some (byte, rest)
  end.

Fixpoint string_loop (fuel capacity size : nat) (current : JsonCursor) : option (bytes * JsonCursor) :=
  match fuel with
  | O => None
  | S fuel =>
      match current with
      | [] => None
      | 34 :: rest => Some ([], rest)
      | _ =>
          '(byte, rest) ← string_byte current;
          if (byte <? 32) || (126 <? byte) || (capacity <=? size + 1)%nat then None
          else
            '(output, rest) ← string_loop fuel capacity (S size) rest;
            Some (byte :: output, rest)
      end
  end.

(** Into an array of [capacity] bytes, which is not zero. *)
Definition string (capacity : nat) (current : JsonCursor) : option (bytes * JsonCursor) :=
  match whitespace current with
  | 34 :: rest => string_loop (S (List.length rest)) capacity 0 rest
  | _ => None
  end.

Fixpoint digits_loop (value : Z) (current : JsonCursor) : option (Z * JsonCursor) :=
  match current with
  | digit :: rest =>
      if is_digit digit then
        if (U64_MAX - (digit - 48)) / 10 <? value then None
        else digits_loop (u64 (value * 10 + (digit - 48))) rest
      else Some (value, current)
  | [] => Some (value, [])
  end.

(** What may not follow a number. *)
Definition continues_number (byte : Z) : bool := (byte =? 46) || (byte =? 101) || (byte =? 69) || (byte =? 45).

Definition unsigned_integer (current : JsonCursor) : option (Z * JsonCursor) :=
  match whitespace current with
  | digit :: rest =>
      if negb (is_digit digit) then None
      else
        '(value, rest) ← digits_loop 0 (digit :: rest);
        match rest with
        | byte :: _ => if continues_number byte then None else Some (value, rest)
        | [] => Some (value, rest)
        end
  | [] => None
  end.

Definition boolean (current : JsonCursor) : option (bool * JsonCursor) :=
  let current := whitespace current in
  if bool_decide (take 4 current = literal "true") then Some (true, drop 4 current)
  else if bool_decide (take 5 current = literal "false") then Some (false, drop 5 current)
  else None.

(** Whether the closing bracket was read. *)
Definition separator (closing : Z) (current : JsonCursor) : option (bool * JsonCursor) :=
  match whitespace current with
  | byte :: rest => if byte =? closing then Some (true, rest) else if byte =? 44 then Some (false, rest) else None
  | [] => None
  end.

Definition object_separator : JsonCursor -> option (bool * JsonCursor) := separator 125.
Definition array_separator : JsonCursor -> option (bool * JsonCursor) := separator 93.

Definition finished (current : JsonCursor) : bool := bool_decide (whitespace current = []).

(** ** Identifiers, versions and capabilities *)

Definition safe_device_id (value : bytes) : bool :=
  let value := c_string value in
  let size := List.length value in
  if (size <? 8)%nat || (64 <? size)%nat || negb (is_lower value.[0]) then false
  else forallb (fun byte => is_lower byte || is_digit byte || (byte =? 95) || (byte =? 45)) (drop 1 value).

Definition version_byte (index : nat) (byte : Z) : bool :=
  is_upper byte || is_lower byte || is_digit byte
  || (negb (index =? 0)%nat && ((byte =? 46) || (byte =? 43) || (byte =? 95) || (byte =? 45))).

Definition safe_version (value : bytes) : bool :=
  let value := c_string value in
  let size := List.length value in
  if (size =? 0)%nat || (32 <? size)%nat then false
  else forallb (fun x => x) (imap version_byte value).

Definition capability_bit (capability : bytes) : option Z :=
  if is_string capability "display" then Some 1
  else if is_string capability "serial" then Some 2
  else if is_string capability "ota" then Some 4
  else if is_string capability "diagnostics" then Some 8
  else None.

Fixpoint capabilities_loop (fuel : nat) (seen : Z) (count : nat) (cursor : JsonCursor)
  : option (Z * nat * JsonCursor) :=
  match fuel with
  | O => None
  | S fuel =>
      '(capability, cursor) ← string 16 cursor;
      bit ← capability_bit capability;
      if negb (Z.land seen bit =? 0) then None
      else
        let seen := Z.lor seen bit in
        let count := S count in
        if (8 <? count)%nat then None
        else
          '(done, cursor) ← array_separator cursor;
          if done : bool then Some (seen, count, cursor) else capabilities_loop fuel seen count cursor
  end.

(** [*has_serial] *)
Definition parse_capabilities (cursor : JsonCursor) : option (bool * JsonCursor) :=
  cursor ← consume 91 cursor;
  '(seen, count, cursor) ← capabilities_loop (S (List.length cursor)) 0 0 cursor;
  if (count =? 0)%nat then None else Some (negb (Z.land seen 2 =? 0), cursor).

(** The same text of code as in [deck_ai_snapshot.cpp], with its helpers. *)
Definition parse_canonical_utc (value : bytes) : option Z := parse_utc_text (c_string value).

(** ** Fingerprints *)

Definition kHex : bytes := literal "0123456789abcdef".
Definition kPrefix : bytes := literal "sha256:".

(** One turn of the loop over the digest. *)
Definition digest_difference (digest fingerprint : bytes) (difference : Z) (index : nat) : Z :=
  let difference := u8 (Z.lor difference
    (u8 (Z.lxor fingerprint.[7 + index * 2] kHex.[Z.to_nat (Z.shiftr digest.[index] 4)]))) in
  u8 (Z.lor difference
    (u8 (Z.lxor fingerprint.[8 + index * 2] kHex.[Z.to_nat (Z.land digest.[index] 15)]))).

Definition deck_device_protocol_fingerprint_matches_sha256 (digest fingerprint : bytes) : bool :=
  if negb (strlen fingerprint =? 71)%nat || negb (bool_decide (take 7 fingerprint = kPrefix)) then false
  else fold_left (digest_difference digest fingerprint) (seq 0 32) 0 =? 0.

(** ** The loop over the members of a message

    Every parser has this loop of its own: [member] reads the value of one
    key and answers the key's bit. *)

Section members.
Context {State : Type} (member : bytes -> State -> JsonCursor -> option (Z * State * JsonCursor)).

Fixpoint object_loop (fuel : nat) (seen : Z) (state : State) (cursor : JsonCursor)
  : option (Z * State * JsonCursor) :=
  match fuel with
  | O => None
  | S fuel =>
      '(key, cursor) ← string 32 cursor;
      cursor ← consume 58 cursor;
      '(bit, state, cursor) ← member key state cursor;
      if negb (Z.land seen bit =? 0) then None
      else
        let seen := Z.lor seen bit in
        '(done, cursor) ← object_separator cursor;
        if done : bool then Some (seen, state, cursor) else object_loop fuel seen state cursor
  end.

(** From the check of the size to the end of the loop. *)
Definition parse_object (initial : State) (message : bytes) : option (Z * State * JsonCursor) :=
  if (List.length message =? 0)%nat || (DECK_DEVICE_PROTOCOL_MAX_CONTROL_BYTES <? List.length message)%nat then None
  else
    cursor ← consume 123 message;
    object_loop (S (List.length cursor)) 0 initial cursor.

End members.

(** A member whose value is a string, or a number, that passes a check. *)
Definition checked_string {State} (bit : Z) (capacity : nat) (check : bytes -> bool) (state : State)
    (cursor : JsonCursor) : option (Z * State * JsonCursor) :=
  '(value, cursor) ← string capacity cursor;
  if negb (check value) then None else Some (bit, state, cursor).

Definition checked_number {State} (bit : Z) (check : Z -> bool) (update : Z -> State) (cursor : JsonCursor)
  : option (Z * State * JsonCursor) :=
  '(value, cursor) ← unsigned_integer cursor;
  if negb (check value) then None else Some (bit, update value, cursor).

(** ** [device.hello] *)

Record hello_state := { serial_disarmed : bool; has_serial_capability : bool; serial_session_id : Z }.
#[export] Instance hello_rebuild : Rebuild hello_state := fun s =>
  Build_hello_state (serial_disarmed s) (has_serial_capability s) (serial_session_id s).

Definition hello_member (authenticated_device_id key : bytes) (s : hello_state) (cursor : JsonCursor)
  : option (Z * hello_state * JsonCursor) :=
  if is_string key "type" then checked_string 1 17 (fun value => is_string value "device.hello") s cursor
  else if is_string key "protocol_version" then
    checked_number 2 (fun value => value =? DECK_DEVICE_PROTOCOL_VERSION) (fun _ => s) cursor
  else if is_string key "device_id" then
    checked_string 4 65 (fun value => safe_device_id value && bool_decide (value = c_string authenticated_device_id))
      s cursor
  else if is_string key "firmware_version" then checked_string 8 33 safe_version s cursor
  else if is_string key "board" then checked_string 16 32 (fun value => is_string value "esp32-s3-rlcd-4.2") s cursor
  else if is_string key "capabilities" then
    '(has_serial, cursor) ← parse_capabilities cursor;
    Some (32, s <| has_serial_capability := has_serial |>, cursor)
  else if is_string key "serial_state" then
    '(value, cursor) ← string 16 cursor;
    let disarmed := is_string value "disarmed" in
    if negb disarmed && negb (is_string value "usb_tx") && negb (is_string value "web_tx") then None
    else Some (64, s <| serial_disarmed := disarmed |>, cursor)
  else if is_string key "serial_session_id" then
    checked_number 128 (fun _ => true) (fun value => s <| serial_session_id := value |>) cursor
  else None.

Definition deck_device_protocol_validate_hello (message authenticated_device_id : bytes) : bool :=
  if negb (safe_device_id authenticated_device_id) then false
  else
    match parse_object (hello_member authenticated_device_id)
            {| serial_disarmed := false; has_serial_capability := false; serial_session_id := 0 |} message with
    | None => false
    | Some (seen, s, cursor) =>
        (seen =? 255) && finished cursor
        && (if serial_disarmed s then serial_session_id s =? 0
            else negb (serial_session_id s =? 0) && has_serial_capability s)
    end.

(** ** [device.heartbeat] *)

Record deck_device_heartbeat_t := { utc_unix_ms : Z; monotonic_ms : Z }.

Inductive deck_device_heartbeat_result_t :=
  | DECK_DEVICE_HEARTBEAT_INVALID
  | DECK_DEVICE_HEARTBEAT_VALID
  | DECK_DEVICE_HEARTBEAT_UNSUPPORTED_MAJOR.

#[export] Instance heartbeat_result_eq_dec : EqDecision deck_device_heartbeat_result_t.
Proof. solve_decision. Defined.

Record heartbeat_state := {
  heartbeat_utc : Z;
  heartbeat_monotonic : Z;
  unsupported_major : bool;
  tx_depth : Z;
  tx_capacity : Z;
  rx_depth : Z;
  rx_capacity : Z;
}.
#[export] Instance heartbeat_rebuild : Rebuild heartbeat_state := fun s =>
  Build_heartbeat_state (heartbeat_utc s) (heartbeat_monotonic s) (unsupported_major s) (tx_depth s) (tx_capacity s)
    (rx_depth s) (rx_capacity s).

Definition fits_u32 (value : Z) : bool := value <=? U32_MAX.

Definition heartbeat_member (key : bytes) (s : heartbeat_state) (cursor : JsonCursor)
  : option (Z * heartbeat_state * JsonCursor) :=
  if is_string key "type" then checked_string 1 24 (fun value => is_string value "device.heartbeat") s cursor
  else if is_string key "protocol_version" then
    checked_number 2 (fun _ => true)
      (fun value => s <| unsupported_major := negb (value =? DECK_DEVICE_PROTOCOL_VERSION) |>) cursor
  else if is_string key "utc" then
    '(value, cursor) ← string 32 cursor;
    utc ← parse_canonical_utc value;
    Some (4, s <| heartbeat_utc := utc |>, cursor)
  else if is_string key "monotonic_ms" then
    checked_number 8 (fun _ => true) (fun value => s <| heartbeat_monotonic := value |>) cursor
  else if is_string key "tx_queue_depth" then checked_number 16 fits_u32 (fun value => s <| tx_depth := value |>) cursor
  else if is_string key "tx_queue_capacity" then
    checked_number 32 fits_u32 (fun value => s <| tx_capacity := value |>) cursor
  else if is_string key "rx_queue_depth" then checked_number 64 fits_u32 (fun value => s <| rx_depth := value |>) cursor
  else if is_string key "rx_queue_capacity" then
    checked_number 128 fits_u32 (fun value => s <| rx_capacity := value |>) cursor
  else None.

Definition no_heartbeat_state : heartbeat_state :=
  {| heartbeat_utc := 0; heartbeat_monotonic := 0; unsupported_major := false; tx_depth := 0; tx_capacity := 0;
     rx_depth := 0; rx_capacity := 0 |}.

(** The heartbeat is [None] when the result is [INVALID]. *)
Definition deck_device_protocol_parse_heartbeat (message : bytes) (previous_monotonic_ms : Z) (has_previous : bool)
  : deck_device_heartbeat_result_t * option deck_device_heartbeat_t :=
  match parse_object heartbeat_member no_heartbeat_state message with
  | None => (DECK_DEVICE_HEARTBEAT_INVALID, None)
  | Some (seen, s, cursor) =>
      if negb (seen =? 255) || negb (finished cursor) || (tx_capacity s =? 0) || (rx_capacity s =? 0)
         || (tx_capacity s <? tx_depth s) || (rx_capacity s <? rx_depth s)
         || (has_previous && (heartbeat_monotonic s <? previous_monotonic_ms))
      then (DECK_DEVICE_HEARTBEAT_INVALID, None)
      else
        (if unsupported_major s then DECK_DEVICE_HEARTBEAT_UNSUPPORTED_MAJOR else DECK_DEVICE_HEARTBEAT_VALID,
         Some {| utc_unix_ms := heartbeat_utc s; monotonic_ms := heartbeat_monotonic s |})
  end.

(** ** [serial.*] *)

Inductive deck_device_serial_control_kind_t :=
  | DECK_DEVICE_SERIAL_OWNER_REQUEST
  | DECK_DEVICE_SERIAL_OWNER_ACTIVITY
  | DECK_DEVICE_SERIAL_HISTORY_REQUEST.

Record deck_device_serial_control_t := {
  kind : deck_device_serial_control_kind_t;
  session_id : Z;
  request_id : Z;
  lease_id : Z;
  after_sequence : Z;
  enable : bool;
}.
#[export] Instance serial_control_rebuild : Rebuild deck_device_serial_control_t := fun c =>
  Build_deck_device_serial_control_t (kind c) (session_id c) (request_id c) (lease_id c) (after_sequence c) (enable c).

(** [*control], and the members its type requires; [has_kind] is whether there
    are any. *)
Record control_state := { control : deck_device_serial_control_t; required : Z; has_kind : bool }.
#[export] Instance control_rebuild : Rebuild control_state := fun s =>
  Build_control_state (control s) (required s) (has_kind s).

Definition control_kind (value : bytes) : option (deck_device_serial_control_kind_t * Z) :=
  if is_string value "serial.owner.request" then Some (DECK_DEVICE_SERIAL_OWNER_REQUEST, 31)
  else if is_string value "serial.owner.activity" then Some (DECK_DEVICE_SERIAL_OWNER_ACTIVITY, 39)
  else if is_string value "serial.history.request" then Some (DECK_DEVICE_SERIAL_HISTORY_REQUEST, 71)
  else None.

Definition nonzero (value : Z) : bool := negb (value =? 0).

Definition control_member (key : bytes) (s : control_state) (cursor : JsonCursor)
  : option (Z * control_state * JsonCursor) :=
  if is_string key "type" then
    '(value, cursor) ← string 32 cursor;
    '(kind_, required_) ← control_kind value;
    Some (1, s <| control := (control s) <| kind := kind_ |> |> <| required := required_ |> <| has_kind := true |>, cursor)
  else if is_string key "protocol_version" then
    checked_number 2 (fun value => value =? DECK_DEVICE_PROTOCOL_VERSION) (fun _ => s) cursor
  else if is_string key "serial_session_id" then
    checked_number 4 nonzero (fun value => s <| control := (control s) <| session_id := value |> |>) cursor
  else if is_string key "request_id" then
    checked_number 8 nonzero (fun value => s <| control := (control s) <| request_id := value |> |>) cursor
  else if is_string key "enable" then
    '(value, cursor) ← boolean cursor;
    Some (16, s <| control := (control s) <| enable := value |> |>, cursor)
  else if is_string key "lease_id" then
    checked_number 32 nonzero (fun value => s <| control := (control s) <| lease_id := value |> |>) cursor
  else if is_string key "after_sequence" then
    checked_number 64 (fun _ => true) (fun value => s <| control := (control s) <| after_sequence := value |> |>) cursor
  else None.

Definition no_control : deck_device_serial_control_t :=
  {| kind := DECK_DEVICE_SERIAL_OWNER_REQUEST; session_id := 0; request_id := 0; lease_id := 0; after_sequence := 0;
     enable := false |}.

Definition deck_device_protocol_parse_serial_control (message : bytes) : option deck_device_serial_control_t :=
  '(seen, s, cursor) ← parse_object control_member {| control := no_control; required := 0; has_kind := false |} message;
  if has_kind s && (seen =? required s) && finished cursor then Some (control s) else None.

(** ** [diagnostics.request] *)

(** The state is [request->request_id]. *)
Definition diagnostics_member (key : bytes) (request_id_ : Z) (cursor : JsonCursor) : option (Z * Z * JsonCursor) :=
  if is_string key "type" then checked_string 1 32 (fun value => is_string value "diagnostics.request") request_id_ cursor
  else if is_string key "protocol_version" then
    checked_number 2 (fun value => value =? DECK_DEVICE_PROTOCOL_VERSION) (fun _ => request_id_) cursor
  else if is_string key "request_id" then checked_number 4 nonzero (fun value => value) cursor
  else None.

Definition deck_device_protocol_parse_diagnostics_request (message : bytes) : option Z :=
  '(seen, request_id_, cursor) ← parse_object diagnostics_member 0 message;
  if (seen =? 7) && finished cursor then Some request_id_ else None.

(** ** The dispatch of a server message *)

Inductive deck_companion_server_message_result_t :=
  | DECK_COMPANION_SERVER_HEARTBEAT
  | DECK_COMPANION_SERVER_AI_SNAPSHOT
  | DECK_COMPANION_SERVER_AI_SNAPSHOT_STORAGE_DEGRADED
  | DECK_COMPANION_SERVER_INVALID_MESSAGE.

(** The heartbeat is set when the result says so. *)
Definition deck_companion_link_accept_server_message (snapshots : deck_ai_snapshot_store) (message : bytes)
    (trusted_utc_ms previous_server_monotonic_ms : Z) (has_previous_server_monotonic : bool)
  : deck_companion_server_message_result_t * option deck_device_heartbeat_t * deck_ai_snapshot_store :=
  if (List.length message =? 0)%nat then (DECK_COMPANION_SERVER_INVALID_MESSAGE, None, snapshots)
  else
    match deck_device_protocol_parse_heartbeat message previous_server_monotonic_ms has_previous_server_monotonic with
    | (DECK_DEVICE_HEARTBEAT_VALID, heartbeat) => (DECK_COMPANION_SERVER_HEARTBEAT, heartbeat, snapshots)
    | _ =>
        let '(update, snapshots) := deck_ai_snapshot_store_apply snapshots message trusted_utc_ms in
        (match update with
         | DECK_AI_SNAPSHOT_STORE_ACCEPTED_STORAGE_FAILURE => DECK_COMPANION_SERVER_AI_SNAPSHOT_STORAGE_DEGRADED
         | DECK_AI_SNAPSHOT_STORE_ACCEPTED_MEMORY | DECK_AI_SNAPSHOT_STORE_ACCEPTED_PERSISTED
         | DECK_AI_SNAPSHOT_STORE_UNCHANGED => DECK_COMPANION_SERVER_AI_SNAPSHOT
         | _ => DECK_COMPANION_SERVER_INVALID_MESSAGE
         end, None, snapshots)
    end.
