(* ===== verification/DeviceGrammar.v ===== *)
(** * The grammar of control messages

    What a text the device protocol accepts looks like - one flat object whose
    values are strings of printable characters, 64-bit numerals, booleans or
    lists of strings - and that the methods of the cursor read exactly these
    texts.  The messages themselves are in DeviceProtocolSpec. *)

From Stdlib Require Import String.
From S2P Require Import Prelude CString DeviceProtocol.

(** ** Texts *)

Inductive value :=
  | VString (text : bytes)
  | VNumber (number : Z)
  | VBoolean (b : bool)
  | VStrings (texts : list bytes).

Abbreviation field := (bytes * value)%type (only parsing).

Definition blanks (w : bytes) : Prop := Forall (fun b => is_blank b = true) w.

Definition printable (b : Z) : Prop := 32 <= b <= 126.

(** The number that four hexadecimal digits spell. *)
Definition hex_value (digits : bytes) : option Z :=
  match mapM hex_digit digits with
  | Some [a; b; c; d] => Some (4096 * a + 256 * b + 16 * c + d)
  | _ => None
  end.

(** [spelled s t]: the text [t], between quotes, denotes the string [s]. *)
Inductive spelled : bytes -> bytes -> Prop :=
  | spelled_nil : spelled [] []
  | spelled_plain b s t : printable b -> b <> 34 -> b <> 92 -> spelled s t -> spelled (b :: s) (b :: t)
  | spelled_escape b s t : b = 34 \/ b = 92 \/ b = 47 -> spelled s t -> spelled (b :: s) (92 :: b :: t)
  | spelled_unicode b digits s t :
      printable b -> hex_value digits = Some b -> spelled s t -> spelled (b :: s) (92 :: 117 :: digits ++ t).

(** Leading zeros are allowed. *)
Definition decimal (digits : bytes) : Z := fold_left (fun n d => 10 * n + (d - 48)) digits 0.

Definition numeral (number : Z) (t : bytes) : Prop :=
  t <> [] /\ Forall (fun b => is_digit b = true) t /\ decimal t = number /\ number <= U64_MAX.

Definition in_quotes (t : bytes) : bytes := 34 :: t ++ [34].

Inductive strings_text : list bytes -> bytes -> Prop :=
  | strings_last w1 s t w2 :
      blanks w1 -> spelled s t -> blanks w2 -> strings_text [s] (w1 ++ in_quotes t ++ w2 ++ [93])
  | strings_more w1 s t w2 l rest :
      blanks w1 -> spelled s t -> blanks w2 -> strings_text l rest ->
      strings_text (s :: l) (w1 ++ in_quotes t ++ w2 ++ [44] ++ rest).

Inductive value_text : value -> bytes -> Prop :=
  | text_of_string s t : spelled s t -> value_text (VString s) (in_quotes t)
  | text_of_number n t : numeral n t -> value_text (VNumber n) t
  | text_of_true : value_text (VBoolean true) (literal "true")
  | text_of_false : value_text (VBoolean false) (literal "false")
  | text_of_strings l t : strings_text l t -> value_text (VStrings l) (91 :: t).

Inductive fields_text : list field -> bytes -> Prop :=
  | fields_last w1 k kt w2 w3 v t w4 :
      blanks w1 -> spelled k kt -> blanks w2 -> blanks w3 -> value_text v t -> blanks w4 ->
      fields_text [(k, v)] (w1 ++ in_quotes kt ++ w2 ++ [58] ++ w3 ++ t ++ w4 ++ [125])
  | fields_more w1 k kt w2 w3 v t w4 fs rest :
      blanks w1 -> spelled k kt -> blanks w2 -> blanks w3 -> value_text v t -> blanks w4 ->
      fields_text fs rest ->
      fields_text ((k, v) :: fs) (w1 ++ in_quotes kt ++ w2 ++ [58] ++ w3 ++ t ++ w4 ++ [44] ++ rest).

(** The texts of a message whose members are [fs], in this order. *)
Definition message_text (fs : list field) (message : bytes) : Prop :=
  (List.length message <= DECK_DEVICE_PROTOCOL_MAX_CONTROL_BYTES)%nat
  /\ exists w1 t w2, message = w1 ++ [123] ++ t ++ w2 /\ blanks w1 /\ fields_text fs t /\ blanks w2.

(** ** Blanks and brackets *)

Lemma skip_blanks cursor :
  exists w, blanks w /\ cursor = w ++ whitespace cursor
    /\ forall b, head (whitespace cursor) = Some b -> is_blank b = false.
Proof.
  induction cursor as [|b cursor (w & Hw & E & Hh)]; simpl.
  - exists []. split_and!; [constructor|done|done].
  - destruct (is_blank b) eqn:Eb.
    + exists (b :: w). split_and!; [by constructor|simpl; by f_equal|exact Hh].
    + exists []. split_and!; [constructor|done|]. intros ? [= <-]. done.
Qed.

(** Where blanks end. *)
Definition solid (cursor : JsonCursor) : Prop :=
  match cursor with b :: _ => is_blank b = false | [] => True end.

Lemma whitespace_solid w rest : blanks w -> solid rest -> whitespace (w ++ rest) = rest.
Proof.
  intros Hw Hr. induction Hw as [|b w Hb _ IH]; simpl; [|by rewrite Hb].
  destruct rest as [|b rest]; [done|]. simpl in *. by rewrite Hr.
Qed.

Lemma whitespace_blanks w : blanks w -> whitespace w = [].
Proof. intros Hw. rewrite <- (app_nil_r w). by apply whitespace_solid. Qed.

Lemma finished_spec cursor : finished cursor = true <-> blanks cursor.
Proof.
  unfold finished. rewrite bool_decide_eq_true. split; [|apply whitespace_blanks].
  intros E. destruct (skip_blanks cursor) as (w & Hw & Ec & _). rewrite E, app_nil_r in Ec. by subst.
Qed.

Lemma consume_read expected cursor rest :
  consume expected cursor = Some rest -> exists w, blanks w /\ cursor = w ++ expected :: rest.
Proof.
  unfold consume. destruct (skip_blanks cursor) as (w & Hw & E & _). revert E.
  destruct (whitespace cursor) as [|b t]; intros E ?; [discriminate|]. guards; subst. by exists w.
Qed.

Lemma consume_reads expected w rest :
  is_blank expected = false -> blanks w -> consume expected (w ++ expected :: rest) = Some rest.
Proof. intros. unfold consume. rewrite whitespace_solid by done. by rewrite Z.eqb_refl. Qed.

Lemma separator_sound closing cursor done_ rest :
  separator closing cursor = Some (done_, rest) ->
  exists w, blanks w /\ cursor = w ++ (if done_ then closing else 44) :: rest.
Proof.
  unfold separator. destruct (skip_blanks cursor) as (w & Hw & E & _). revert E.
  destruct (whitespace cursor) as [|b t]; intros E ?; [discriminate|]. guards; subst; by exists w.
Qed.

Lemma separator_complete closing (done_ : bool) w rest :
  is_blank closing = false -> closing <> 44 -> blanks w ->
  separator closing (w ++ (if done_ then closing else 44) :: rest) = Some (done_, rest).
Proof.
  intros Hc Hn Hw. unfold separator. rewrite whitespace_solid by (try done; by destruct done_).
  destruct done_; [by rewrite Z.eqb_refl|]. by rewrite (proj2 (Z.eqb_neq 44 closing)).
Qed.

(** ** Strings *)

Lemma hex_digit_range digit n : hex_digit digit = Some n -> 0 <= n < 16.
Proof. unfold hex_digit, is_digit, ch_0, ch_9. intros. guards; lia. Qed.

Lemma lor_nibble high low : 0 <= high < 268435456 -> 0 <= low < 16 ->
  Z.lor (u32 (Z.shiftl high 4)) low = 16 * high + low.
Proof.
  intros Hh Hl. rewrite Z.shiftl_mul_pow2 by lia. rewrite u32_id by words.
  change (2 ^ 4) with 16. pose proof (Z.add_lor_land (high * 16) low) as E.
  enough (Z.land (high * 16) low = 0) by lia. clear E. apply Z.bits_inj'. intros i Hi.
  rewrite Z.land_spec, Z.bits_0. destruct (decide (i < 4)).
  - change 16 with (2 ^ 4). by rewrite Z.mul_pow2_bits_low.
  - rewrite (Z.bits_above_log2 low); [by rewrite andb_false_r|lia|].
    destruct (decide (low = 0)) as [->|]; [change (Z.log2 0) with 0; lia|]. apply Z.log2_lt_pow2; [lia|].
    apply Z.lt_le_trans with (2 ^ 4); [lia|]. apply Z.pow_le_mono_r; lia.
Qed.

Lemma lor_nibbles a b c d : 0 <= a < 16 -> 0 <= b < 16 -> 0 <= c < 16 -> 0 <= d < 16 ->
  let add high low := Z.lor (u32 (Z.shiftl high 4)) low in
  add (add (add (add 0 a) b) c) d = 4096 * a + 256 * b + 16 * c + d.
Proof.
  intros Ha Hb Hc Hd. simpl. rewrite (lor_nibble 0 a), (lor_nibble _ b), (lor_nibble _ c), (lor_nibble _ d) by lia. lia.
Qed.

(** The loop over the four digits computes [hex_value]. *)
Lemma hex_codepoint_spec cursor codepoint rest :
  hex_codepoint 4 0 cursor = Some (codepoint, rest) <->
  exists digits, cursor = digits ++ rest /\ hex_value digits = Some codepoint.
Proof.
  split.
  - destruct cursor as [|d1 [|d2 [|d3 [|d4 cursor]]]]; simpl; intros H;
      repeat (first [discriminate | apply bind_Some in H as (? & ? & H)]).
    simplify_eq.
    match goal with
    | H1 : hex_digit d1 = Some ?a, H2 : hex_digit d2 = Some ?b, H3 : hex_digit d3 = Some ?c,
      H4 : hex_digit d4 = Some ?d |- _ =>
      pose proof (hex_digit_range _ _ H1); pose proof (hex_digit_range _ _ H2);
      pose proof (hex_digit_range _ _ H3); pose proof (hex_digit_range _ _ H4);
      exists [d1; d2; d3; d4]; split; [done|]; unfold hex_value; simpl; rewrite H1, H2, H3, H4; simpl
    end.
    f_equal. by rewrite lor_nibbles.
  - intros (digits & -> & H). unfold hex_value in H.
    destruct (mapM hex_digit digits) as [l|] eqn:E; [|done].
    destruct l as [|a [|b [|c [|d []]]]]; try done. simplify_eq.
    apply mapM_Some in E. inversion_clear E as [|d1 ? ? ? H1 E2]. inversion_clear E2 as [|d2 ? ? ? H2 E3].
    inversion_clear E3 as [|d3 ? ? ? H3 E4]. inversion_clear E4 as [|d4 ? ? ? H4 E5]. inversion_clear E5.
    pose proof (hex_digit_range _ _ H1); pose proof (hex_digit_range _ _ H2);
    pose proof (hex_digit_range _ _ H3); pose proof (hex_digit_range _ _ H4).
    simpl. rewrite H1; simpl. rewrite H2; simpl. rewrite H3; simpl. rewrite H4; simpl.
    do 2 f_equal. by apply lor_nibbles.
Qed.

Lemma string_loop_step fuel capacity size b rest :
  string_loop (S fuel) capacity size (b :: rest) =
  if b =? 34 then Some ([], rest)
  else
    '(byte, rest) ← string_byte (b :: rest);
    if (byte <? 32) || (126 <? byte) || (capacity <=? size + 1)%nat then None
    else
      '(output, rest) ← string_loop fuel capacity (S size) rest;
      Some (byte :: output, rest).
Proof.
  destruct (b =? 34) eqn:E; bool_prop; [by subst|].
  destruct b as [|p|p]; try reflexivity. repeat (destruct p as [p|p|]; try reflexivity). done.
Qed.

(** One turn of the loop: a printable character of the string and its
    spelling. *)
Lemma string_byte_sound cursor byte rest :
  head cursor <> Some 34 -> string_byte cursor = Some (byte, rest) -> printable byte ->
  exists unit, cursor = unit ++ rest /\ (List.length rest < List.length cursor)%nat
    /\ forall s t, spelled s t -> spelled (byte :: s) (unit ++ t).
Proof.
  intros Hh Hb Hp. destruct cursor as [|b cursor]; [done|]. simpl in Hb.
  destruct (b =? 92) eqn:E1; bool_prop; subst.
  - destruct cursor as [|e cursor]; [done|]. destruct (e =? 117) eqn:E2; bool_prop; subst.
    + apply bind_Some in Hb as ([codepoint rest'] & Hx & Hb). case_match; [done|]. simplify_eq.
      apply hex_codepoint_spec in Hx as (digits & -> & Hv). exists (92 :: 117 :: digits). split_and!.
      * done.
      * simpl. rewrite length_app. lia.
      * intros. by apply spelled_unicode.
    + apply bind_Some in Hb as (b & He & Hb). simplify_eq. exists [92; e]. split_and!; [done|simpl; lia|].
      unfold simple_escape in He. unfold printable in Hp. guards; try lia. bool_cases; subst.
      all: intros; apply spelled_escape; auto.
  - simplify_eq. exists [byte]. split_and!; [done|simpl; lia|]. intros. apply spelled_plain; auto. naive_solver.
Qed.

Lemma string_loop_sound fuel capacity size cursor s rest :
  string_loop fuel capacity size cursor = Some (s, rest) ->
  exists t, cursor = t ++ 34 :: rest /\ spelled s t.
Proof.
  revert size cursor s. induction fuel as [|fuel IH]; intros size cursor s H; [done|].
  destruct cursor as [|b cursor]; [done|]. rewrite string_loop_step in H.
  destruct (b =? 34) eqn:E; bool_prop.
  { simplify_eq. exists []. split; [done|constructor]. }
  apply bind_Some in H as ([byte rest1] & Hb & H). case_match eqn:Eg; [done|]. bool_prop.
  apply bind_Some in H as ([s' rest2] & Hs & H). simplify_eq.
  apply IH in Hs as (t & -> & Ht).
  apply string_byte_sound in Hb as (unit & Eu & _ & Hu); [|naive_solver|unfold printable; lia].
  exists (unit ++ t). split; [by rewrite Eu, <- app_assoc|auto].
Qed.

Lemma string_byte_complete b s t rest :
  spelled (b :: s) t ->
  exists unit t', t = unit ++ t' /\ spelled s t' /\ unit <> [] /\ head (unit ++ rest) <> Some 34
    /\ forall rest', string_byte (unit ++ rest') = Some (b, rest').
Proof.
  inversion 1 as [|? ? t' Hp H1 H2 Hs|? ? t' He Hs|? digits ? t' Hp Hv Hs]; subst.
  - exists [b], t'. split_and!; [done|done|done|simpl; congruence|].
    intros. simpl. by rewrite (proj2 (Z.eqb_neq b 92)).
  - exists [92; b], t'. split_and!; [done|done|done|done|]. intros. simpl.
    by destruct He as [->|[->| ->]].
  - exists (92 :: 117 :: digits), t'. split_and!; [done|done|done|done|]. intros. cbn -[hex_codepoint].
    rewrite (proj2 (hex_codepoint_spec _ b rest')) by eauto. simpl.
    unfold printable in Hp. by rewrite (proj2 (Z.ltb_ge 127 b)) by lia.
Qed.

Lemma spelled_printable s t : spelled s t -> Forall printable s.
Proof.
  induction 1 as [| |b s t He _ IH|]; constructor; auto. unfold printable. lia.
Qed.

Lemma string_loop_complete fuel capacity size s t rest :
  spelled s t -> (List.length t < fuel)%nat -> (size + List.length s < capacity)%nat ->
  string_loop fuel capacity size (t ++ 34 :: rest) = Some (s, rest).
Proof.
  revert fuel size t. induction s as [|b s IH]; intros fuel size t Ht Hf Hc.
  { inversion Ht; subst. destruct fuel as [|fuel]; [simpl in Hf; lia|]. apply string_loop_step. }
  pose proof (spelled_printable _ _ Ht) as Hp. apply Forall_cons in Hp as [Hp _].
  destruct (string_byte_complete b s t (t ++ 34 :: rest) Ht) as (unit & t' & -> & Hs & Hn & Hh & Hu).
  rewrite <- app_assoc. specialize (Hu (t' ++ 34 :: rest)).
  rewrite length_app in Hf. simpl in Hc. destruct fuel as [|fuel]; [lia|].
  destruct unit as [|u unit]; [done|]. simpl app in Hu |- *. rewrite string_loop_step.
  rewrite (proj2 (Z.eqb_neq u 34)) by (simpl in Hh; congruence). rewrite Hu. simpl.
  unfold printable in Hp. rewrite (proj2 (Z.ltb_ge b 32)), (proj2 (Z.ltb_ge 126 b)) by lia. simpl.
  rewrite (proj2 (Nat.leb_gt _ _)) by lia. simpl in Hf. rewrite IH; [done|done|lia|lia].
Qed.

Lemma string_step capacity cursor b rest :
  whitespace cursor = b :: rest ->
  string capacity cursor = if b =? 34 then string_loop (S (List.length rest)) capacity 0 rest else None.
Proof.
  unfold string. intros ->. destruct (b =? 34) eqn:E; bool_prop; [by subst|].
  destruct b as [|p|p]; try reflexivity. repeat (destruct p as [p|p|]; try reflexivity). done.
Qed.

Lemma string_sound capacity cursor s rest :
  string capacity cursor = Some (s, rest) ->
  exists w t, blanks w /\ cursor = w ++ in_quotes t ++ rest /\ spelled s t.
Proof.
  intros H. destruct (skip_blanks cursor) as (w & Hw & E & _).
  destruct (whitespace cursor) as [|b r] eqn:Er.
  { unfold string in H. by rewrite Er in H. }
  rewrite (string_step _ _ _ _ Er) in H. case_match; [|done]. bool_prop. subst b.
  apply string_loop_sound in H as (t & -> & Ht). exists w, t. split_and!; [done| |done].
  rewrite E. unfold in_quotes. simpl. by rewrite <- app_assoc.
Qed.

Lemma string_complete capacity w s t rest :
  blanks w -> spelled s t -> (List.length s < capacity)%nat ->
  string capacity (w ++ in_quotes t ++ rest) = Some (s, rest).
Proof.
  intros Hw Ht Hc. unfold in_quotes. simpl. rewrite <- app_assoc. simpl.
  rewrite (string_step _ _ 34 (t ++ 34 :: rest)) by (apply whitespace_solid; done).
  simpl Z.eqb. apply string_loop_complete; [done| |simpl; lia]. rewrite length_app. simpl. lia.
Qed.

(** ** Numbers and booleans *)

Definition accumulate (n : Z) (digits : bytes) : Z := fold_left (fun n d => 10 * n + (d - 48)) digits n.

Lemma accumulate_ge n t : 0 <= n -> Forall (fun b => is_digit b = true) t -> n <= accumulate n t.
Proof.
  intros Hn Ht. revert n Hn. unfold accumulate.
  induction Ht as [|d t Hd _ IH]; intros n Hn; cbn [fold_left]; [lia|].
  unfold is_digit, ch_0, ch_9 in Hd. bool_prop. etrans; [|apply IH]; lia.
Qed.

(** What may follow a numeral; a digit would belong to it. *)
Definition ends_number (rest : JsonCursor) : Prop :=
  match rest with b :: _ => is_digit b = false | [] => True end.

Lemma digits_loop_sound n cursor m rest : 0 <= n <= U64_MAX ->
  digits_loop n cursor = Some (m, rest) ->
  exists t, cursor = t ++ rest /\ Forall (fun b => is_digit b = true) t /\ m = accumulate n t
    /\ m <= U64_MAX /\ ends_number rest.
Proof.
  revert n. induction cursor as [|d cursor IH]; intros n Hn H; cbn [digits_loop] in H.
  { simplify_eq. exists []. split_and!; [done|constructor|done|lia|done]. }
  destruct (is_digit d) eqn:Hd.
  - case_match; [done|]. unfold is_digit, ch_0, ch_9 in Hd. bool_prop.
    rewrite u64_id in H by words.
    apply IH in H as (t & -> & Ht & -> & Hm & He); [|words]. exists (d :: t). split_and!; [done| | |done|done].
    + constructor; [|done]. unfold is_digit, ch_0, ch_9. lia.
    + unfold accumulate. cbn [fold_left]. by rewrite (Z.mul_comm 10).
  - simplify_eq. exists []. split_and!; [done|constructor|done|lia|done].
Qed.

Lemma digits_loop_complete n t rest : 0 <= n ->
  Forall (fun b => is_digit b = true) t -> accumulate n t <= U64_MAX -> ends_number rest ->
  digits_loop n (t ++ rest) = Some (accumulate n t, rest).
Proof.
  intros Hn Ht. revert n Hn. induction Ht as [|d t Hd Ht IH]; intros n Hn Hm He; simpl app.
  - destruct rest as [|b rest]; [done|]. cbn [digits_loop]. simpl in He. by rewrite He.
  - cbn [digits_loop]. rewrite Hd. unfold is_digit, ch_0, ch_9 in Hd. bool_prop.
    unfold accumulate in *. cbn [fold_left] in *.
    pose proof (accumulate_ge (10 * n + (d - 48)) t ltac:(lia) Ht) as Hge. unfold accumulate in Hge.
    rewrite (proj2 (Z.ltb_ge _ _)) by words. rewrite u64_id by words. rewrite (Z.mul_comm n 10).
    apply IH; [lia|done|done].
Qed.

Lemma unsigned_integer_sound cursor n rest :
  unsigned_integer cursor = Some (n, rest) -> exists w t, blanks w /\ cursor = w ++ t ++ rest /\ numeral n t.
Proof.
  unfold unsigned_integer. destruct (skip_blanks cursor) as (w & Hw & E & _). revert E.
  destruct (whitespace cursor) as [|d r]; intros E H; [discriminate|].
  destruct (is_digit d) eqn:Hd; simpl negb in H; cbv iota in H; [|discriminate].
  apply bind_Some in H as ([m rest'] & H & Hr).
  apply digits_loop_sound in H as (t & Et & Ht & Em & Hm & He); [|lia].
  assert (m = n /\ rest' = rest) as [-> ->] by (destruct rest'; [|case_match; [discriminate|]]; by simplify_eq).
  exists w, t. split_and!; [done|by rewrite E, Et|]. split_and!; [|done|done|done].
  intros ->. simpl in Et. subst rest. simpl in He. congruence.
Qed.

(** What follows a value. *)
Definition delimited (rest : JsonCursor) : Prop :=
  match rest with b :: _ => is_blank b = true \/ b = 44 \/ b = 93 \/ b = 125 | [] => True end.

Lemma delimited_blanks w b rest : blanks w -> b = 44 \/ b = 93 \/ b = 125 -> delimited (w ++ b :: rest).
Proof. intros Hw Hb. destruct Hw as [|c w Hc _]; simpl; auto. Qed.

Lemma unsigned_integer_complete w t n rest :
  blanks w -> numeral n t -> delimited rest -> unsigned_integer (w ++ t ++ rest) = Some (n, rest).
Proof.
  intros Hw (Hn & Ht & <- & Hm) Hd. unfold unsigned_integer.
  assert (ends_number rest /\ match rest with b :: _ => continues_number b = false | [] => True end) as [He Hc].
  { destruct rest as [|b rest]; [done|]. simpl in Hd. unfold is_blank in Hd. simpl.
    unfold is_digit, continues_number, ch_0, ch_9. lia. }
  destruct Ht as [|d t Hd' Ht]; [done|].
  rewrite whitespace_solid; [|done|].
  - cbn [app]. rewrite Hd'. cbn [negb]. change (d :: t ++ rest) with ((d :: t) ++ rest).
    rewrite digits_loop_complete; [|lia|by constructor|done|done]. simpl.
    destruct rest as [|b rest]; [done|]. by rewrite Hc.
  - unfold is_digit, ch_0, ch_9 in Hd'. simpl. unfold is_blank. lia.
Qed.

Lemma boolean_sound cursor b rest :
  boolean cursor = Some (b, rest) ->
  exists w t, blanks w /\ cursor = w ++ t ++ rest /\ value_text (VBoolean b) t.
Proof.
  unfold boolean. destruct (skip_blanks cursor) as (w & Hw & E & _). revert E.
  generalize (whitespace cursor) as c. intros c E H. exists w.
  destruct (bool_decide (take 4 c = _)) eqn:E1; [|destruct (bool_decide (take 5 c = _)) eqn:E2; [|discriminate]];
    simplify_eq; bool_prop.
  - exists (literal "true"). split_and!; [done| |constructor]. by rewrite <- E1, take_drop.
  - exists (literal "false"). split_and!; [done| |constructor]. by rewrite <- E2, take_drop.
Qed.

Lemma boolean_complete w b t rest :
  blanks w -> value_text (VBoolean b) t -> boolean (w ++ t ++ rest) = Some (b, rest).
Proof.
  intros Hw Ht. unfold boolean. rewrite whitespace_solid; [|done|by inversion Ht; subst].
  by inversion Ht; subst.
Qed.

(** ** Sets of members

    The parsers keep the members they have seen as bits.  [collect] is that
    check alone. *)

Section marks.
Context {A : Type} `{EqDecision A} (bit : A -> option Z) (table : list (A * Z)).

Fixpoint collect (seen : Z) (l : list A) : option Z :=
  match l with
  | [] => Some seen
  | x :: l =>
      b ← bit x;
      if Z.land seen b =? 0 then collect (Z.lor seen b) l else None
  end.

Definition marked (mask : Z) : list A := fst <$> filter (fun kb => Z.land mask kb.2 <> 0) table.

(** Distinct members have disjoint bits. *)
Fixpoint disjoint_bits (table : list (A * Z)) : bool :=
  match table with
  | [] => true
  | (x, b) :: table =>
      negb (b =? 0) && forallb (fun kb => negb (bool_decide (kb.1 = x)) && (Z.land kb.2 b =? 0)) table
      && disjoint_bits table
  end.

Context (Htable : disjoint_bits table = true) (Hbit : forall x b, bit x = Some b <-> (x, b) ∈ table).

Lemma disjoint_bits_spec t x b :
  disjoint_bits t = true -> (x, b) ∈ t ->
  b <> 0 /\ forall y c, (y, c) ∈ t -> x = y /\ b = c \/ x <> y /\ Z.land b c = 0.
Proof.
  induction t as [|[z d] t IH]; intros Ht Hx; [by apply not_elem_of_nil in Hx|]. simpl in Ht. bool_prop.
  match goal with H : forallb _ t = true |- _ => rewrite forallb_forall in H; rename H into Hf end.
  assert (forall y c, (y, c) ∈ t -> y <> z /\ Z.land c d = 0) as Hd.
  { intros y c Hy. apply list_elem_of_In, Hf in Hy. simpl in Hy. bool_prop. auto. }
  apply elem_of_cons in Hx as [[= -> ->]|Hx].
  - split; [done|]. intros y c [[= -> ->]|Hy]%elem_of_cons; [auto|].
    apply Hd in Hy as [? E]. right. rewrite Z.land_comm. auto.
  - destruct (IH ltac:(done) Hx) as [Hb Hi]. split; [done|]. intros y c [[= -> ->]|Hy]%elem_of_cons; [|auto].
    right. by apply Hd.
Qed.

Lemma land_lor_zero a b c : Z.land (Z.lor a b) c = 0 <-> Z.land a c = 0 /\ Z.land b c = 0.
Proof. rewrite Z.land_lor_distr_l. apply Z.lor_eq_0_iff. Qed.

Lemma collect_sound seen l mask :
  collect seen l = Some mask ->
  NoDup l
  /\ (forall x, x ∈ l -> exists b, (x, b) ∈ table /\ Z.land seen b = 0 /\ Z.land mask b <> 0)
  /\ (forall x b, (x, b) ∈ table -> x ∉ l -> Z.land mask b = Z.land seen b).
Proof.
  revert seen. induction l as [|x l IH]; intros seen H; simpl in H.
  { simplify_eq. split_and!; [constructor| |done]. intros x Hx. by apply not_elem_of_nil in Hx. }
  apply bind_Some in H as (b & Hb & H). case_match; [|done]. bool_prop. apply Hbit in Hb.
  apply IH in H as (Hn & Hin & Hout). destruct (disjoint_bits_spec _ _ _ Htable Hb) as [Hz Hd].
  assert (x ∉ l) as Hx.
  { intros Hx. apply Hin in Hx as (b' & Hb' & E & _). apply land_lor_zero in E as [_ E].
    destruct (Hd _ _ Hb') as [[_ <-]|[? _]]; [|done]. by rewrite Z.land_diag in E. }
  split_and!; [by constructor| |].
  - intros y [-> |Hy]%elem_of_cons.
    + exists b. split_and!; [done|done|]. rewrite (Hout _ _ Hb Hx). rewrite land_lor_zero, Z.land_diag. tauto.
    + apply Hin in Hy as (c & Hc & E & Hm). apply land_lor_zero in E as [E _]. eauto.
  - intros y c Hc Hy. apply not_elem_of_cons in Hy as [Hy Hy']. rewrite (Hout _ _ Hc Hy').
    rewrite Z.land_lor_distr_l. destruct (Hd _ _ Hc) as [[? _]|[_ ->]]; [congruence|]. apply Z.lor_0_r.
Qed.

Lemma marked_NoDup mask : NoDup (marked mask).
Proof.
  assert (NoDup table.*1) as Hn.
  { clear Hbit. induction table as [|[x b] t IH]; simpl; [constructor|]. simpl in Htable. bool_prop.
    constructor; [|auto]. intros ([y c] & -> & Hy)%list_elem_of_fmap.
    match goal with H : forallb _ t = true |- _ => rewrite forallb_forall in H; apply list_elem_of_In, H in Hy end.
    simpl in Hy. by bool_prop. }
  unfold marked. clear Htable Hbit. induction table as [|[x b] t IH]; simpl in *; [constructor|].
  apply NoDup_cons in Hn as [Hx Hn]. rewrite filter_cons. case_match; [|auto]. simpl. constructor; [|auto].
  intros ([y c] & -> & [_ Hy]%list_elem_of_filter)%list_elem_of_fmap. apply Hx. simpl.
  by apply (list_elem_of_fmap_2 fst _ (y, c)).
Qed.

Lemma collect_marked l mask : collect 0 l = Some mask -> l ≡ₚ marked mask.
Proof.
  intros H. apply collect_sound in H as (Hn & Hin & Hout).
  apply NoDup_Permutation; [done|apply marked_NoDup|]. intros x. unfold marked. split.
  - intros Hx. apply Hin in Hx as (b & Hb & _ & Hm). apply (list_elem_of_fmap_2 fst _ (x, b)).
    by apply list_elem_of_filter.
  - intros ([y c] & -> & [Hm Hy]%list_elem_of_filter)%list_elem_of_fmap. simpl in *.
    destruct (decide (y ∈ l)); [done|]. exfalso. by rewrite (Hout _ _ Hy) in Hm.
Qed.

Lemma collect_complete seen l :
  NoDup l -> (forall x, x ∈ l -> exists b, (x, b) ∈ table /\ Z.land seen b = 0) ->
  exists mask, collect seen l = Some mask.
Proof.
  intros Hn. revert seen. induction Hn as [|x l Hx Hn IH]; intros seen Hin; simpl; [eauto|].
  destruct (Hin x) as (b & Hb & E); [by apply elem_of_cons; left|].
  rewrite (proj2 (Hbit _ _) Hb). simpl. rewrite E. simpl. apply IH. intros y Hy.
  destruct (Hin y) as (c & Hc & E'); [by apply elem_of_cons; right|]. exists c. split; [done|].
  apply land_lor_zero. split; [done|].
  destruct (disjoint_bits_spec _ _ _ Htable Hb) as [_ Hd]. destruct (Hd _ _ Hc) as [[-> _]|[_ ?]]; done.
Qed.

End marks.

(** ** Lists of capabilities *)

Definition capability_table : list (bytes * Z) :=
  [(literal "display", 1); (literal "serial", 2); (literal "ota", 4); (literal "diagnostics", 8)].

Definition capabilities : list bytes := capability_table.*1.

Lemma capability_bit_spec x b : capability_bit x = Some b <-> (x, b) ∈ capability_table.
Proof.
  unfold capability_table. rewrite !elem_of_cons, elem_of_nil. split.
  - unfold capability_bit, is_string. intros.
    repeat (case_bool_decide; [subst; simplify_eq; tauto|]). done.
  - intros [[= -> ->]|[[= -> ->]|[[= -> ->]|[[= -> ->]|[]]]]]; reflexivity.
Qed.

Lemma capabilities_disjoint : disjoint_bits capability_table = true.
Proof. reflexivity. Qed.

Lemma separator_closing closing w rest : is_blank closing = false -> closing <> 44 -> blanks w ->
  separator closing (w ++ closing :: rest) = Some (true, rest).
Proof. apply (separator_complete closing true). Qed.

Lemma separator_comma closing w rest : is_blank closing = false -> closing <> 44 -> blanks w ->
  separator closing (w ++ 44 :: rest) = Some (false, rest).
Proof. apply (separator_complete closing false). Qed.

Lemma capabilities_loop_sound fuel seen count cursor mask count' rest :
  capabilities_loop fuel seen count cursor = Some (mask, count', rest) ->
  exists l t, cursor = t ++ rest /\ strings_text l t /\ collect capability_bit seen l = Some mask
    /\ count' = (count + List.length l)%nat.
Proof.
  revert seen count cursor. induction fuel as [|fuel IH]; intros seen count cursor H; [done|].
  cbn [capabilities_loop] in H.
  apply bind_Some in H as ([s c1] & Hs & H). apply bind_Some in H as (b & Hb & H).
  destruct (Z.land seen b =? 0) eqn:Ez; [|done]. cbn [negb] in H. cbv zeta in H. case_match; [done|].
  apply bind_Some in H as ([last c2] & Hsep & H).
  apply string_sound in Hs as (w1 & t & Hw1 & -> & Ht). apply separator_sound in Hsep as (w2 & Hw2 & ->).
  destruct last.
  - simplify_eq. exists [s], (w1 ++ in_quotes t ++ w2 ++ [93]). split_and!.
    + by rewrite <- !app_assoc.
    + by constructor.
    + simpl. rewrite Hb. simpl. by rewrite Ez.
    + simpl. lia.
  - apply IH in H as (l & t' & -> & Hl & Hc & ->). exists (s :: l), (w1 ++ in_quotes t ++ w2 ++ [44] ++ t').
    split_and!.
    + by rewrite <- !app_assoc.
    + by constructor.
    + simpl. rewrite Hb. simpl. by rewrite Ez.
    + simpl. lia.
Qed.

Lemma capability_length x b : (x, b) ∈ capability_table -> (List.length x < 16)%nat.
Proof.
  unfold capability_table. rewrite !elem_of_cons, elem_of_nil.
  intros [[= -> ->]|[[= -> ->]|[[= -> ->]|[[= -> ->]|[]]]]]; simpl; lia.
Qed.

Lemma capabilities_loop_complete fuel seen count l t mask rest :
  strings_text l t -> collect capability_bit seen l = Some mask ->
  (List.length t < fuel)%nat -> (count + List.length l <= 8)%nat ->
  capabilities_loop fuel seen count (t ++ rest) = Some (mask, (count + List.length l)%nat, rest).
Proof.
  intros Hl. revert fuel seen count.
  induction Hl as [w1 s t w2 Hw1 Hs Hw2|w1 s t w2 l t' Hw1 Hs Hw2 Hl IH]; intros fuel seen count Hc Hf H8;
    simpl in Hc; apply bind_Some in Hc as (b & Hb & Hc); case_match eqn:Ez; try done; simpl in H8;
    (destruct fuel as [|fuel]; [lia|]); cbn [capabilities_loop];
    rewrite <- !app_assoc, (string_complete 16 w1 s t); [|done|done|by eapply capability_length, capability_bit_spec
                                            | |done|done|by eapply capability_length, capability_bit_spec];
    simpl mbind; rewrite Hb; simpl mbind; rewrite Ez; cbn [negb]; cbv zeta;
    rewrite (proj2 (Nat.ltb_ge _ _)) by lia.
  - unfold array_separator. rewrite separator_closing by done. simpl. simplify_eq. do 3 f_equal. lia.
  - unfold array_separator. rewrite separator_comma by done. simpl mbind. cbv iota beta.
    rewrite !length_app in Hf. simpl in Hf. rewrite IH; [do 3 f_equal; simpl; lia|done|lia|lia].
Qed.

(** Any of the four capabilities, none twice. *)
Definition capabilities_listed (l : list bytes) : Prop := NoDup l /\ Forall (fun x => x ∈ capabilities) l.

#[export] Instance capabilities_listed_dec l : Decision (capabilities_listed l).
Proof. unfold capabilities_listed. apply _. Defined.

Lemma in_capabilities x : x ∈ capabilities <-> exists b, (x, b) ∈ capability_table.
Proof.
  unfold capabilities. rewrite list_elem_of_fmap. split; [intros ([y b] & -> & ?); eauto|].
  intros (b & ?). by exists (x, b).
Qed.

Lemma capabilities_collect l mask : collect capability_bit 0 l = Some mask ->
  capabilities_listed l /\ negb (Z.land mask 2 =? 0) = bool_decide (literal "serial" ∈ l).
Proof.
  intros H. apply (collect_sound _ _ capabilities_disjoint capability_bit_spec) in H as (Hn & Hin & Hout).
  split; [split; [done|]|].
  - apply Forall_forall. intros x (b & Hb & _)%Hin. apply in_capabilities. eauto.
  - case_bool_decide as Hs; bool_prop.
    + apply Hin in Hs as (b & Hb & _ & Hm). unfold capability_table in Hb.
      apply capability_bit_spec in Hb. simpl in Hb. injection Hb as <-. by apply negb_true_iff, Z.eqb_neq.
    + rewrite (Hout (literal "serial") 2); [done| |done]. by apply capability_bit_spec.
Qed.

Lemma capabilities_collected l : capabilities_listed l ->
  (List.length l <= 4)%nat /\ exists mask, collect capability_bit 0 l = Some mask.
Proof.
  intros [Hn Hin]. rewrite Forall_forall in Hin. split.
  - change 4%nat with (List.length capabilities). apply submseteq_length. by apply NoDup_submseteq.
  - apply (collect_complete _ _ capabilities_disjoint capability_bit_spec); [done|].
    intros x (b & Hb)%Hin%in_capabilities. eauto.
Qed.

Lemma parse_capabilities_sound cursor serial rest :
  parse_capabilities cursor = Some (serial, rest) ->
  exists w t l, blanks w /\ cursor = w ++ t ++ rest /\ value_text (VStrings l) t
    /\ capabilities_listed l /\ serial = bool_decide (literal "serial" ∈ l).
Proof.
  unfold parse_capabilities. intros H. apply bind_Some in H as (c1 & (w & Hw & ->)%consume_read & H).
  apply bind_Some in H as ([[mask count] c2] & Hl & H). case_match; [done|].
  injection H as <- <-. apply capabilities_loop_sound in Hl as (l & t & -> & Ht & Hc & _).
  apply capabilities_collect in Hc as [Hl ->].
  exists w, (91 :: t), l. do 4 (split; [first [done | by constructor]|]). done.
Qed.

Lemma strings_text_nonempty l t : strings_text l t -> l <> [].
Proof. by intros []. Qed.

Lemma parse_capabilities_complete w l t rest :
  blanks w -> value_text (VStrings l) t -> capabilities_listed l ->
  parse_capabilities (w ++ t ++ rest) = Some (bool_decide (literal "serial" ∈ l), rest).
Proof.
  intros Hw Ht Hl. inversion Ht as [| | | |l' t' Hs]; subst. unfold parse_capabilities. simpl app.
  rewrite consume_reads by done. cbn -[capabilities_loop].
  destruct (capabilities_collected l Hl) as [H4 [mask Hm]].
  rewrite (capabilities_loop_complete _ _ _ _ _ _ _ Hs Hm) by (rewrite ?length_app; lia). simpl.
  apply strings_text_nonempty in Hs. destruct l; [done|]. simpl.
  by apply capabilities_collect in Hm as [_ ->].
Qed.
