(* ===== verification/DeviceMembers.v ===== *)
(** * The members of a control message

    What the loop over the members does, given what one member does: the class
    [ReadsMembers] is the contract between the loop and the member functions
    of the parsers, and [accept_all] the loop on a parsed message.  Members of
    different names commute, so that their order in the message is
    irrelevant ([accept_all_perm]), and the bits seen at the end name them
    ([accept_all_canonical]). *)

From Stdlib Require Import String.
From S2P Require Import Prelude CString DeviceProtocol DeviceGrammar.

Definition as_string (v : value) : option bytes := match v with VString s => Some s | _ => None end.
Definition as_number (v : value) : option Z := match v with VNumber n => Some n | _ => None end.
Definition as_boolean (v : value) : option bool := match v with VBoolean b => Some b | _ => None end.
Definition as_strings (v : value) : option (list bytes) := match v with VStrings l => Some l | _ => None end.

Definition in_table (table : list (bytes * Z)) (key : bytes) : option Z :=
  snd <$> (snd <$> list_find (fun kb => kb.1 = key) table).

Lemma in_table_spec table key b : disjoint_bits table = true -> in_table table key = Some b <-> (key, b) ∈ table.
Proof.
  intros Ht. unfold in_table. split.
  - destruct (list_find _ table) as [[i [k c]]|] eqn:E; [|done]. simpl. intros [= ->].
    apply list_find_Some in E as (E & Hk & _). simpl in Hk. subst k. by eapply list_elem_of_lookup_2.
  - intros Hb. destruct (list_find_elem_of (fun kb : bytes * Z => kb.1 = key) table (key, b) Hb eq_refl) as [[i [k c]] E].
    rewrite E. simpl. apply list_find_Some in E as (E & Hk & _). simpl in Hk. subst k.
    apply list_elem_of_lookup_2 in E.
    destruct (disjoint_bits_spec table key b Ht Hb) as [_ Hd]. destruct (Hd _ _ E) as [[_ ->]|[? _]]; done.
Qed.

(** What a member function of the code promises: [accept] is what it does with
    a value, the rest of the cursor apart. *)
Class ReadsMembers {State : Type} (member : bytes -> State -> JsonCursor -> option (Z * State * JsonCursor))
    (accept : bytes -> value -> option (Z * (State -> State))) (table : list (bytes * Z)) := {
  member_sound key s cursor bit s' rest :
    member key s cursor = Some (bit, s', rest) ->
    exists w t v f, blanks w /\ cursor = w ++ t ++ rest /\ value_text v t /\ accept key v = Some (bit, f) /\ s' = f s;
  member_complete key s w t v bit f rest :
    accept key v = Some (bit, f) -> blanks w -> value_text v t -> delimited rest ->
    member key s (w ++ t ++ rest) = Some (bit, f s, rest);
  accept_key key v bit f : accept key v = Some (bit, f) -> (key, bit) ∈ table;
  accept_commutes key v bit f key' v' bit' f' s :
    accept key v = Some (bit, f) -> accept key' v' = Some (bit', f') -> key <> key' -> f (f' s) = f' (f s);
  table_disjoint : disjoint_bits table = true;
  table_short : Forall (fun kb => (List.length kb.1 < 32)%nat) table;
}.

Section loop.
Context {State : Type} {member : bytes -> State -> JsonCursor -> option (Z * State * JsonCursor)}.
Context {accept : bytes -> value -> option (Z * (State -> State))} {table : list (bytes * Z)}.
Context `{!ReadsMembers member accept table}.

Fixpoint accept_all (seen : Z) (s : State) (fs : list field) : option (Z * State) :=
  match fs with
  | [] => Some (seen, s)
  | (key, v) :: fs =>
      '(bit, f) ← accept key v;
      if Z.land seen bit =? 0 then accept_all (Z.lor seen bit) (f s) fs else None
  end.

(** ** The loop reads the members *)

Lemma members_loop_sound fuel seen s cursor mask s' rest :
  object_loop member fuel seen s cursor = Some (mask, s', rest) ->
  exists fs t, cursor = t ++ rest /\ fields_text fs t /\ accept_all seen s fs = Some (mask, s').
Proof.
  revert seen s cursor. induction fuel as [|fuel IH]; intros seen s cursor H; [done|].
  cbn [object_loop] in H. apply bind_Some in H as ([key c1] & Hk & H). apply bind_Some in H as (c2 & Hc & H).
  apply bind_Some in H as ([[bit s1] c3] & Hm & H).
  destruct (Z.land seen bit =? 0) eqn:Ez; [|done]. cbn [negb] in H. cbv zeta in H.
  apply bind_Some in H as ([last c4] & Hsep & H).
  apply string_sound in Hk as (w1 & kt & Hw1 & -> & Hkt). apply consume_read in Hc as (w2 & Hw2 & ->).
  apply member_sound in Hm as (w3 & t & v & f & Hw3 & -> & Ht & Ha & ->).
  apply separator_sound in Hsep as (w4 & Hw4 & ->). destruct last.
  - simplify_eq. exists [(key, v)], (w1 ++ in_quotes kt ++ w2 ++ [58] ++ w3 ++ t ++ w4 ++ [125]). split_and!.
    + by rewrite <- !app_assoc.
    + by constructor.
    + simpl. rewrite Ha. simpl. by rewrite Ez.
  - apply IH in H as (fs & t' & -> & Hfs & Hall).
    exists ((key, v) :: fs), (w1 ++ in_quotes kt ++ w2 ++ [58] ++ w3 ++ t ++ w4 ++ [44] ++ t'). split_and!.
    + by rewrite <- !app_assoc.
    + by constructor.
    + simpl. rewrite Ha. simpl. by rewrite Ez.
Qed.

Lemma accept_short key v bit f : accept key v = Some (bit, f) -> (List.length key < 32)%nat.
Proof. intros Hk%accept_key. pose proof table_short as Hs. rewrite Forall_forall in Hs. apply (Hs (key, bit) Hk). Qed.

Lemma members_loop_complete fuel seen s fs t mask s' rest :
  fields_text fs t -> accept_all seen s fs = Some (mask, s') -> (List.length t < fuel)%nat ->
  object_loop member fuel seen s (t ++ rest) = Some (mask, s', rest).
Proof.
  intros Hfs. revert fuel seen s.
  induction Hfs as [w1 k kt w2 w3 v t w4 Hw1 Hk Hw2 Hw3 Hv Hw4|w1 k kt w2 w3 v t w4 fs t' Hw1 Hk Hw2 Hw3 Hv Hw4 _ IH];
    intros fuel seen s Ha Hf; cbn [accept_all] in Ha; apply bind_Some in Ha as ([bit f] & Hb & Ha);
    case_match eqn:Ez; try discriminate;
    (destruct fuel as [|fuel]; [lia|]); cbn [object_loop]; rewrite <- !app_assoc;
    rewrite (string_complete 32 w1 k kt); try done; try (by eapply accept_short);
    simpl mbind; rewrite consume_reads by done; simpl mbind.
  - rewrite (member_complete k s w3 t v bit f); [|done|done|done|by apply delimited_blanks; auto].
    simpl mbind. rewrite Ez. cbn [negb]. cbv zeta. unfold object_separator.
    rewrite separator_closing by done. simpl. by simplify_eq.
  - rewrite (member_complete k s w3 t v bit f); [|done|done|done|by apply delimited_blanks; auto].
    simpl mbind. rewrite Ez. cbn [negb]. cbv zeta. unfold object_separator.
    rewrite separator_comma by done. simpl mbind. cbv beta iota.
    apply IH; [done|]. rewrite !length_app in Hf. simpl in Hf. rewrite !length_app in Hf. lia.
Qed.

Theorem parse_message_sound initial message mask s rest :
  parse_object member initial message = Some (mask, s, rest) -> finished rest = true ->
  exists fs, message_text fs message /\ accept_all 0 initial fs = Some (mask, s).
Proof.
  unfold parse_object. intros H Hf. case_match; [done|]. bool_prop.
  apply bind_Some in H as (c & (w1 & Hw1 & ->)%consume_read & H).
  apply members_loop_sound in H as (fs & t & -> & Hfs & Ha). apply finished_spec in Hf.
  exists fs. split; [|done]. split; [done|]. by exists w1, t, rest.
Qed.

Theorem parse_message_complete initial fs message mask s :
  message_text fs message -> accept_all 0 initial fs = Some (mask, s) ->
  exists rest, parse_object member initial message = Some (mask, s, rest) /\ finished rest = true.
Proof.
  intros (Hm & w1 & t & w2 & -> & Hw1 & Hfs & Hw2) Ha. exists w2. split; [|by apply finished_spec].
  unfold parse_object. rewrite (proj2 (Nat.eqb_neq _ _)) by (rewrite !length_app; simpl; lia).
  rewrite (proj2 (Nat.ltb_ge _ _)) by done. simpl orb. cbv iota. change ([123] ++ t ++ w2) with (123 :: t ++ w2). rewrite consume_reads by done. cbn -[object_loop].
  apply (members_loop_complete _ _ _ fs); [done|done|]. rewrite length_app. lia.
Qed.

(** ** The order of the members is irrelevant *)

Lemma accept_all_collect seen s fs mask s' :
  accept_all seen s fs = Some (mask, s') -> collect (in_table table) seen fs.*1 = Some mask.
Proof.
  revert seen s. induction fs as [|[key v] fs IH]; intros seen s H; simpl in *; [by simplify_eq|].
  apply bind_Some in H as ([bit f] & Hb & H). apply accept_key in Hb.
  rewrite (proj2 (in_table_spec _ _ _ table_disjoint) Hb). simpl. case_match; [eauto|done].
Qed.

Lemma accept_distinct key v bit f key' v' bit' f' :
  accept key v = Some (bit, f) -> accept key' v' = Some (bit', f') -> Z.land bit bit' = 0 -> key <> key'.
Proof.
  intros Hk%accept_key Hk'%accept_key E <-.
  destruct (disjoint_bits_spec _ _ _ table_disjoint Hk) as [Hz Hd].
  destruct (Hd _ _ Hk') as [[_ <-]|[? _]]; [|done]. by rewrite Z.land_diag in E.
Qed.

Lemma accept_all_perm seen s fs fs' r :
  fs ≡ₚ fs' -> accept_all seen s fs = Some r -> accept_all seen s fs' = Some r.
Proof.
  intros Hp. revert seen s.
  induction Hp as [|[key v] fs fs' _ IH|[k1 v1] [k2 v2] fs|fs1 fs2 fs3 _ IH1 _ IH2]; intros seen s H; [done| | |auto].
  - simpl in *. apply bind_Some in H as ([bit f] & Hb & H). rewrite Hb. simpl. case_match; [auto|done].
  - simpl in *. apply bind_Some in H as ([b2 f2] & H2 & H). case_match eqn:E2; [|done].
    apply bind_Some in H as ([b1 f1] & H1 & H). case_match eqn:E1; [|done]. bool_prop.
    apply land_lor_zero in E1 as [E1 E12]. rewrite H1. simpl. rewrite E1. simpl. rewrite H2. simpl.
    rewrite (proj2 (Z.eqb_eq _ _)) by (apply land_lor_zero; by rewrite Z.land_comm in E12).
    rewrite <- (Z.lor_assoc seen b1), (Z.lor_comm b1), Z.lor_assoc.
    rewrite (accept_commutes k2 v2 b2 f2 k1 v1 b1 f1); [done|done|done|].
    by eapply accept_distinct.
Qed.

(** The members seen, in the order of the table. *)
Theorem accept_all_canonical initial fs mask s :
  accept_all 0 initial fs = Some (mask, s) ->
  exists fs', fs ≡ₚ fs' /\ fs'.*1 = marked table mask /\ accept_all 0 initial fs' = Some (mask, s).
Proof.
  intros H. pose proof (accept_all_collect _ _ _ _ _ H) as Hc.
  apply (collect_marked _ _ table_disjoint (fun x b => in_table_spec _ x b table_disjoint)) in Hc.
  symmetry in Hc. apply Permutation_map_inv in Hc as (fs' & Ek & Hp). exists fs'.
  split_and!; [done|done|by eapply accept_all_perm].
Qed.

Lemma accept_all_invariant (P : State -> Prop) seen s fs r :
  (forall key v bit f s, accept key v = Some (bit, f) -> P s -> P (f s)) -> P s ->
  accept_all seen s fs = Some r -> P r.2.
Proof.
  intros Hstep. revert seen s. induction fs as [|[key v] fs IH]; intros seen s Hs H; simpl in H; [by simplify_eq|].
  apply bind_Some in H as ([bit f] & Hb & H). case_match; [eauto|done].
Qed.

End loop.

(** ** Values that pass a check *)

Lemma checked_string_sound {State} bit capacity check (s : State) cursor bit' s' rest :
  checked_string bit capacity check s cursor = Some (bit', s', rest) ->
  exists w t x, blanks w /\ cursor = w ++ t ++ rest /\ value_text (VString x) t /\ check x = true /\ bit' = bit /\ s' = s.
Proof.
  unfold checked_string. intros H. apply bind_Some in H as ([x c] & (w & t & Hw & -> & Ht)%string_sound & H).
  case_match; [done|]. simplify_eq. bool_prop. exists w, (in_quotes t), x. split_and!; try done. by constructor.
Qed.

Lemma read_string capacity w t x rest :
  blanks w -> value_text (VString x) t -> (List.length x < capacity)%nat ->
  string capacity (w ++ t ++ rest) = Some (x, rest).
Proof. intros Hw Ht Hl. inversion Ht; subst. by apply string_complete. Qed.

Lemma read_number w t n rest :
  blanks w -> value_text (VNumber n) t -> delimited rest -> unsigned_integer (w ++ t ++ rest) = Some (n, rest).
Proof. intros Hw Ht Hd. inversion Ht; subst. by apply unsigned_integer_complete. Qed.

Lemma checked_string_complete {State} bit capacity check (s : State) w t x rest :
  blanks w -> value_text (VString x) t -> (List.length x < capacity)%nat -> check x = true ->
  checked_string bit capacity check s (w ++ t ++ rest) = Some (bit, s, rest).
Proof.
  intros Hw Ht Hl Hc. unfold checked_string. rewrite (read_string capacity w t x) by done. simpl. by rewrite Hc.
Qed.

Lemma checked_number_sound {State} bit check (update : Z -> State) cursor bit' s' rest :
  checked_number bit check update cursor = Some (bit', s', rest) ->
  exists w t n, blanks w /\ cursor = w ++ t ++ rest /\ value_text (VNumber n) t /\ check n = true
    /\ bit' = bit /\ s' = update n.
Proof.
  unfold checked_number. intros H. apply bind_Some in H as ([n c] & (w & t & Hw & -> & Ht)%unsigned_integer_sound & H).
  case_match; [done|]. simplify_eq. bool_prop. exists w, t, n. split_and!; try done. by constructor.
Qed.

Lemma checked_number_complete {State} bit check (update : Z -> State) w t n rest :
  blanks w -> value_text (VNumber n) t -> delimited rest -> check n = true ->
  checked_number bit check update (w ++ t ++ rest) = Some (bit, update n, rest).
Proof. intros Hw Ht Hd Hc. unfold checked_number. rewrite (read_number w t n) by done. simpl. by rewrite Hc. Qed.
