(* ===== verification/DeviceProtocolSpec.v ===== *)
(** * What the control message parsers accept

    Each parser of [deck_device_protocol.cpp] accepts exactly the messages
    whose members are, in any order, those of the result; a message with a
    member too many, too few or twice, with a value of another type, or with
    anything behind it, is refused. *)

From Stdlib Require Import String.
From S2P Require Import Prelude CString SnapshotTime DeviceProtocol DeviceGrammar DeviceMembers.

Definition text_field (key text : String.string) : field := (literal key, VString (literal text)).
Definition number_field (key : String.string) (n : Z) : field := (literal key, VNumber n).

(** ** Automation *)

#[local] Arguments literal : simpl never.
#[local] Arguments is_string : simpl never.
#[local] Arguments nonzero : simpl never.
#[local] Arguments fits_u32 : simpl never.
#[local] Arguments safe_device_id : simpl never.
#[local] Arguments safe_version : simpl never.
#[local] Arguments parse_canonical_utc : simpl never.
#[local] Arguments utc_text : simpl never.
#[local] Arguments utc_ms : simpl never.

Lemma nonzero_spec n : nonzero n = true <-> n <> 0.
Proof. unfold nonzero. rewrite negb_true_iff. apply Z.eqb_neq. Qed.

Lemma as_string_inv v x : as_string v = Some x -> v = VString x.
Proof. destruct v; simpl; congruence. Qed.
Lemma as_number_inv v x : as_number v = Some x -> v = VNumber x.
Proof. destruct v; simpl; congruence. Qed.
Lemma as_boolean_inv v x : as_boolean v = Some x -> v = VBoolean x.
Proof. destruct v; simpl; congruence. Qed.
Lemma as_strings_inv v x : as_strings v = Some x -> v = VStrings x.
Proof. destruct v; simpl; congruence. Qed.

(** What an accepted value was. *)
Ltac invert H :=
  repeat lazymatch type of H with
  | _ ≫= _ = Some _ =>
      let E := fresh "E" in
      apply bind_Some in H as (? & E & H);
      repeat match goal with p : _ * _ |- _ => destruct p end; cbv beta iota in H;
      first [ apply as_string_inv in E; subst | apply as_number_inv in E; subst
            | apply as_boolean_inv in E; subst | apply as_strings_inv in E; subst | idtac ]
  | (if ?b then _ else None) = Some _ => destruct b eqn:?; [|discriminate H]
  | Some (_, _) = Some (_, _) => injection H as <- <-
  end.

(** One case for each name a member function knows. *)
Ltac name_cases H :=
  repeat lazymatch type of H with
  | (if is_string ?k ?s then _ else _) = _ => destruct (is_string k s) eqn:?
  end; try discriminate H.

(** ... as a name. *)
Ltac names :=
  repeat match goal with
  | H : is_string ?k _ = true |- _ => apply bool_decide_eq_true in H; subst k
  end.

(** What a member function read, by the method that read it. *)
Ltac member_read H :=
  lazymatch type of H with
  | checked_string _ _ _ _ _ = _ =>
      let w := fresh "w" in let t := fresh "t" in let x := fresh "x" in let Hc := fresh "Hc" in
      apply checked_string_sound in H as (w & t & x & ? & -> & ? & Hc & -> & ->);
      eexists w, t, (VString x), _; split; [done|split; [done|split; [done|]]]; cbn; rewrite ?Hc
  | checked_number _ _ _ _ = _ =>
      let w := fresh "w" in let t := fresh "t" in let n := fresh "n" in let Hc := fresh "Hc" in
      apply checked_number_sound in H as (w & t & n & ? & -> & ? & Hc & -> & ->);
      eexists w, t, (VNumber n), _; split; [done|split; [done|split; [done|]]]; cbn; cbv beta in Hc; rewrite ?Hc
  end; split; reflexivity.

(** The branch that [accept] took, taken by the member function. *)
Ltac same_branch :=
  repeat match goal with
  | H : is_string ?k ?s = ?b |- context [is_string ?k ?s] => rewrite H
  end.

(** The function that [H] is an equation of, unfolded. *)
Ltac head_of t := lazymatch t with ?f _ => head_of f | _ => t end.
Ltac unfold_head H := lazymatch type of H with ?t = _ => let f := head_of t in unfold f in H end.

(** The laws of a member function that are cases on its names. *)
Ltac solve_accept_key :=
  let H := fresh in
  intros ???? H; unfold_head H; name_cases H; invert H; names;
  apply (bool_decide_unpack _); vm_compute; exact I.

Ltac solve_accept_commutes :=
  let H1 := fresh in let H2 := fresh in let Hn := fresh in
  intros ????????? H1 H2 Hn; unfold_head H1; unfold_head H2;
  name_cases H1; name_cases H2; names; try (destruct (Hn eq_refl)); invert H1; invert H2; reflexivity.

(** A string that equals a literal fits the buffer it is read into. *)
Ltac fits := names; vm_compute; lia.

(** ** Serial control *)

Definition control_table : list (bytes * Z) :=
  [(literal "type", 1); (literal "protocol_version", 2); (literal "serial_session_id", 4); (literal "request_id", 8);
   (literal "enable", 16); (literal "lease_id", 32); (literal "after_sequence", 64)].

Definition control_accept (key : bytes) (v : value) : option (Z * (control_state -> control_state)) :=
  if is_string key "type" then
    text ← as_string v;
    '(kind_, required_) ← control_kind text;
    Some (1, fun s => s <| control := (control s) <| kind := kind_ |> |> <| required := required_ |> <| has_kind := true |>)
  else if is_string key "protocol_version" then
    n ← as_number v; if n =? DECK_DEVICE_PROTOCOL_VERSION then Some (2, fun s => s) else None
  else if is_string key "serial_session_id" then
    n ← as_number v;
    if nonzero n then Some (4, fun s => s <| control := (control s) <| session_id := n |> |>) else None
  else if is_string key "request_id" then
    n ← as_number v;
    if nonzero n then Some (8, fun s => s <| control := (control s) <| request_id := n |> |>) else None
  else if is_string key "enable" then
    b ← as_boolean v; Some (16, fun s => s <| control := (control s) <| enable := b |> |>)
  else if is_string key "lease_id" then
    n ← as_number v;
    if nonzero n then Some (32, fun s => s <| control := (control s) <| lease_id := n |> |>) else None
  else if is_string key "after_sequence" then
    n ← as_number v; Some (64, fun s => s <| control := (control s) <| after_sequence := n |> |>)
  else None.

Lemma control_kind_length text r : control_kind text = Some r -> (List.length text < 32)%nat.
Proof. unfold control_kind. intros H. name_cases H; fits. Qed.

#[export] Instance control_reads : ReadsMembers control_member control_accept control_table.
Proof.
  split; [| |solve_accept_key|solve_accept_commutes|done|by apply (bool_decide_unpack _)].
  - intros key s cursor bit s' rest H. unfold control_member in H. unfold control_accept.
    name_cases H; try member_read H.
    + apply bind_Some in H as ([text c] & (w & t & Hw & -> & Ht)%string_sound & H). invert H. simplify_eq.
      eexists w, _, (VString text), _. split; [done|split; [done|split; [by constructor|]]]. cbn.
      match goal with E : control_kind _ = _ |- _ => rewrite E end. by split.
    + apply bind_Some in H as ([b c] & (w & t & Hw & -> & Ht)%boolean_sound & H). simplify_eq.
      by eexists w, t, (VBoolean b), _.
  - intros key s w t v bit f rest H Hw Ht Hd. unfold control_accept in H. unfold control_member.
    name_cases H; same_branch; invert H;
      try (erewrite checked_number_complete by eauto; reflexivity).
    + rewrite (read_string 32 w t x) by eauto using control_kind_length. cbn.
      match goal with E : control_kind _ = _ |- _ => rewrite E end. done.
    + by rewrite (boolean_complete w x t rest).
Qed.

(** The members of a control message, by its kind. *)
Definition control_fields (c : deck_device_serial_control_t) : list field :=
  match kind c with
  | DECK_DEVICE_SERIAL_OWNER_REQUEST =>
      [text_field "type" "serial.owner.request"; number_field "protocol_version" 1;
       number_field "serial_session_id" (session_id c); number_field "request_id" (request_id c);
       (literal "enable", VBoolean (enable c))]
  | DECK_DEVICE_SERIAL_OWNER_ACTIVITY =>
      [text_field "type" "serial.owner.activity"; number_field "protocol_version" 1;
       number_field "serial_session_id" (session_id c); number_field "lease_id" (lease_id c)]
  | DECK_DEVICE_SERIAL_HISTORY_REQUEST =>
      [text_field "type" "serial.history.request"; number_field "protocol_version" 1;
       number_field "serial_session_id" (session_id c); number_field "after_sequence" (after_sequence c)]
  end.

(** Identifiers are not zero; what the message does not carry is. *)
Definition control_valid (c : deck_device_serial_control_t) : Prop :=
  session_id c <> 0
  /\ match kind c with
     | DECK_DEVICE_SERIAL_OWNER_REQUEST => request_id c <> 0 /\ lease_id c = 0 /\ after_sequence c = 0
     | DECK_DEVICE_SERIAL_OWNER_ACTIVITY =>
         lease_id c <> 0 /\ request_id c = 0 /\ after_sequence c = 0 /\ enable c = false
     | DECK_DEVICE_SERIAL_HISTORY_REQUEST => request_id c = 0 /\ lease_id c = 0 /\ enable c = false
     end.

Definition control_required (k : deck_device_serial_control_kind_t) : Z :=
  match k with
  | DECK_DEVICE_SERIAL_OWNER_REQUEST => 31
  | DECK_DEVICE_SERIAL_OWNER_ACTIVITY => 39
  | DECK_DEVICE_SERIAL_HISTORY_REQUEST => 71
  end.

Definition control_start : control_state := {| control := no_control; required := 0; has_kind := false |}.

Lemma control_kind_spec text k r : control_kind text = Some (k, r) ->
  r = control_required k
  /\ text = match k with
            | DECK_DEVICE_SERIAL_OWNER_REQUEST => literal "serial.owner.request"
            | DECK_DEVICE_SERIAL_OWNER_ACTIVITY => literal "serial.owner.activity"
            | DECK_DEVICE_SERIAL_HISTORY_REQUEST => literal "serial.history.request"
            end.
Proof. unfold control_kind. intros H. name_cases H; simplify_eq; names; done. Qed.

(** What the type requires is what its kind requires. *)
Lemma control_required_spec fs mask s : accept_all (accept := control_accept) 0 control_start fs = Some (mask, s) ->
  has_kind s = true -> required s = control_required (kind (control s)).
Proof.
  apply (accept_all_invariant (fun s => has_kind s = true -> required s = control_required (kind (control s))) 0
    control_start fs (mask, s)); [|done].
  intros key v bit f s' H. unfold control_accept in H. name_cases H; invert H; try done.
  intros _ _. cbn. by eapply control_kind_spec.
Qed.

(** Comparisons of literals, decided. *)
Ltac decide_literals H :=
  repeat lazymatch type of H with
  | context [is_string (literal ?a) ?b] =>
      let r := eval vm_compute in (is_string (literal a) b) in change (is_string (literal a) b) with r in H
  | context [Z.land ?a ?b =? 0] => let r := eval vm_compute in (Z.land a b =? 0) in change (Z.land a b =? 0) with r in H
  end; cbv iota in H.

(** The members [fs], whose names [E] are known and which [H] accepts, one by
    one. *)
Ltac name_fields E :=
  repeat lazymatch type of E with
  | fst <$> _ = _ :: _ =>
      let Hk := fresh in apply fmap_cons_inv in E as ([? ?] & ? & Hk & E & ->); cbn [fst] in Hk; subst; symmetry in E
  end; apply fmap_nil_inv in E; subst.

Ltac accept_fields H :=
  cbn [accept_all] in H;
  repeat lazymatch type of H with
  | (match _ with Some _ => _ | None => _ end) = _ => idtac
  | _ ≫= _ = _ =>
      let Hb := fresh "Hb" in apply bind_Some in H as ([? ?] & Hb & H);
      unfold_head Hb; decide_literals Hb; invert Hb; decide_literals H
  end.

(** Known members accepted. *)
Ltac accept_known accept :=
  cbn [accept_all text_field number_field]; unfold accept;
  repeat (progress (cbn; repeat match goal with
  | |- context [is_string (literal ?a) ?b] =>
      let r := eval vm_compute in (is_string (literal a) b) in change (is_string (literal a) b) with r
  | H : ?b = true |- context [if ?b then _ else _] => rewrite H
  | H : ?o = Some _ |- context [?o ≫= _] => rewrite H
  end)).

Lemma control_names c : marked control_table (control_required (kind c)) = (control_fields c).*1.
Proof. unfold control_fields. by destruct (kind c). Qed.

Lemma control_values fs mask s :
  accept_all (accept := control_accept) 0 control_start fs = Some (mask, s) -> has_kind s = true ->
  mask = required s -> fs ≡ₚ control_fields (control s) /\ control_valid (control s).
Proof.
  intros H Hk Hm. pose proof (control_required_spec _ _ _ H Hk) as Hr. rewrite Hm, Hr in H.
  apply accept_all_canonical in H as (fs' & Hp & Ek & Ha). rewrite Hp. clear Hm Hp fs mask.
  rewrite control_names in Ek. unfold control_fields, control_valid in *.
  destruct (kind (control s)) eqn:Eq; cbn [fmap list_fmap fst text_field number_field] in Ek; name_fields Ek.
  all: accept_fields Ha; injection Ha as <-; cbn in Eq; subst; unfold nonzero in *; bool_prop;
    match goal with E : control_kind _ = _ |- _ => apply control_kind_spec in E as [_ E]; subst end;
    subst; split; [done|tauto].
Qed.

Lemma control_values_accepted c : control_valid c ->
  accept_all (accept := control_accept) 0 control_start (control_fields c) =
    Some (control_required (kind c), {| control := c; required := control_required (kind c); has_kind := true |}).
Proof.
  destruct c as [k session request lease after en]. unfold control_valid, control_fields. cbn.
  intros [Hs H]. apply nonzero_spec in Hs. destruct k; destruct_and!; subst;
    repeat match goal with H : _ <> 0 |- _ => apply nonzero_spec in H end; by accept_known control_accept.
Qed.

(** C19: A serial control message is accepted exactly when its members are, in
    any order, the type, the protocol version and the identifiers of one
    control record whose identifiers are not zero; everything else is
    refused. *)
Theorem serial_control_parser_is_exact message c :
  deck_device_protocol_parse_serial_control message = Some c
  <-> control_valid c /\ exists fs, fs ≡ₚ control_fields c /\ message_text fs message.
Proof.
  unfold deck_device_protocol_parse_serial_control. fold control_start. split.
  - intros H. apply bind_Some in H as ([[mask s] rest] & Hp & H). case_match; [|done]. simplify_eq. bool_prop.
    apply parse_message_sound in Hp as (fs & Hm & Ha); [|done].
    apply control_values in Ha as [Hf Hv]; [|done|done]. eauto.
  - intros (Hv & fs & Hf & Hm). apply control_values_accepted in Hv. symmetry in Hf.
    apply (accept_all_perm _ _ _ _ _ Hf) in Hv.
    destruct (parse_message_complete _ _ _ _ _ Hm Hv) as (rest & -> & Hr). simpl.
    rewrite Z.eqb_refl. by rewrite Hr.
Qed.

(** ** Diagnostics requests *)

Definition diagnostics_table : list (bytes * Z) :=
  [(literal "type", 1); (literal "protocol_version", 2); (literal "request_id", 4)].

Definition diagnostics_accept (key : bytes) (v : value) : option (Z * (Z -> Z)) :=
  if is_string key "type" then
    text ← as_string v; if is_string text "diagnostics.request" then Some (1, fun s => s) else None
  else if is_string key "protocol_version" then
    n ← as_number v; if n =? DECK_DEVICE_PROTOCOL_VERSION then Some (2, fun s => s) else None
  else if is_string key "request_id" then
    n ← as_number v; if nonzero n then Some (4, fun _ => n) else None
  else None.

#[export] Instance diagnostics_reads : ReadsMembers diagnostics_member diagnostics_accept diagnostics_table.
Proof.
  split; [| |solve_accept_key|solve_accept_commutes|done|by apply (bool_decide_unpack _)].
  - intros key s cursor bit s' rest H. unfold diagnostics_member in H. unfold diagnostics_accept.
    name_cases H; member_read H.
  - intros key s w t v bit f rest H Hw Ht Hd. unfold diagnostics_accept in H. unfold diagnostics_member.
    name_cases H; same_branch; invert H.
    + erewrite checked_string_complete by (eauto; fits). reflexivity.
    + erewrite checked_number_complete by eauto. reflexivity.
    + erewrite checked_number_complete by eauto. reflexivity.
Qed.

Definition diagnostics_fields (id : Z) : list field :=
  [text_field "type" "diagnostics.request"; number_field "protocol_version" 1; number_field "request_id" id].

(** A diagnostics request is accepted exactly when its members are, in any
    order, the type, the version and an identifier that is not zero. *)
Theorem diagnostics_parser_is_exact message id :
  deck_device_protocol_parse_diagnostics_request message = Some id
  <-> id <> 0 /\ exists fs, fs ≡ₚ diagnostics_fields id /\ message_text fs message.
Proof.
  unfold deck_device_protocol_parse_diagnostics_request. split.
  - intros H. apply bind_Some in H as ([[mask s] rest] & Hp & H). case_match; [|done]. simplify_eq. bool_prop. subst.
    apply parse_message_sound in Hp as (fs & Hm & Ha); [|done].
    apply accept_all_canonical in Ha as (fs' & Hp & Ek & Ha).
    change (marked diagnostics_table 7) with ((diagnostics_fields id).*1) in Ek.
    unfold diagnostics_fields in *. cbn [fmap list_fmap fst text_field number_field] in Ek. name_fields Ek.
    accept_fields Ha. injection Ha as ->. names. bool_prop. subst. rewrite nonzero_spec in *. eauto.
  - intros (Hn & fs & Hf & Hm). apply nonzero_spec in Hn. symmetry in Hf.
    assert (accept_all (accept := diagnostics_accept) 0 0 (diagnostics_fields id) = Some (7, id)) as Ha
      by (unfold diagnostics_fields; by accept_known diagnostics_accept).
    apply (accept_all_perm _ _ _ _ _ Hf) in Ha.
    destruct (parse_message_complete _ _ _ _ _ Hm Ha) as (rest & -> & Hr). simpl. by rewrite Hr.
Qed.

(** ** Heartbeats *)

Definition heartbeat_table : list (bytes * Z) :=
  [(literal "type", 1); (literal "protocol_version", 2); (literal "utc", 4); (literal "monotonic_ms", 8);
   (literal "tx_queue_depth", 16); (literal "tx_queue_capacity", 32); (literal "rx_queue_depth", 64);
   (literal "rx_queue_capacity", 128)].

Definition heartbeat_accept (key : bytes) (v : value) : option (Z * (heartbeat_state -> heartbeat_state)) :=
  if is_string key "type" then
    text ← as_string v; if is_string text "device.heartbeat" then Some (1, fun s => s) else None
  else if is_string key "protocol_version" then
    n ← as_number v; Some (2, fun s => s <| unsupported_major := negb (n =? DECK_DEVICE_PROTOCOL_VERSION) |>)
  else if is_string key "utc" then
    text ← as_string v; utc ← parse_canonical_utc text; Some (4, fun s => s <| heartbeat_utc := utc |>)
  else if is_string key "monotonic_ms" then
    n ← as_number v; Some (8, fun s => s <| heartbeat_monotonic := n |>)
  else if is_string key "tx_queue_depth" then
    n ← as_number v; if fits_u32 n then Some (16, fun s => s <| tx_depth := n |>) else None
  else if is_string key "tx_queue_capacity" then
    n ← as_number v; if fits_u32 n then Some (32, fun s => s <| tx_capacity := n |>) else None
  else if is_string key "rx_queue_depth" then
    n ← as_number v; if fits_u32 n then Some (64, fun s => s <| rx_depth := n |>) else None
  else if is_string key "rx_queue_capacity" then
    n ← as_number v; if fits_u32 n then Some (128, fun s => s <| rx_capacity := n |>) else None
  else None.

Lemma value_string_printable x t : value_text (VString x) t -> Forall printable x.
Proof. inversion 1; subst. by eapply spelled_printable. Qed.

Lemma printable_c_string x : Forall printable x -> c_string x = x.
Proof. intros H. apply c_string_id. eapply Forall_impl; [exact H|]. unfold printable. lia. Qed.

Lemma canonical_utc_length x u : Forall printable x -> parse_canonical_utc x = Some u -> (List.length x < 32)%nat.
Proof.
  unfold parse_canonical_utc, parse_utc_text. intros Hx. rewrite printable_c_string by done.
  intros H. case_match; [done|]. bool_prop. lia.
Qed.

#[export] Instance heartbeat_reads : ReadsMembers heartbeat_member heartbeat_accept heartbeat_table.
Proof.
  split; [| |solve_accept_key|solve_accept_commutes|done|by apply (bool_decide_unpack _)].
  - intros key s cursor bit s' rest H. unfold heartbeat_member in H. unfold heartbeat_accept.
    name_cases H; try member_read H.
    apply bind_Some in H as ([text c] & (w & t & Hw & -> & Ht)%string_sound & H). invert H. simplify_eq.
    eexists w, _, (VString text), _. split; [done|split; [done|split; [by constructor|]]]. cbn. rewrite E. by split.
  - intros key s w t v bit f rest H Hw Ht Hd. unfold heartbeat_accept in H. unfold heartbeat_member.
    name_cases H; same_branch; invert H; try (erewrite checked_number_complete by eauto; reflexivity).
    + erewrite checked_string_complete by (eauto; fits). reflexivity.
    + rewrite (read_string 32 w t x) by eauto using canonical_utc_length, value_string_printable. cbn. by rewrite E.
Qed.

(** What a heartbeat says. *)
Record heartbeat_message := {
  heartbeat_version : Z;
  heartbeat_time : utc;
  heartbeat_uptime : Z;
  sent_depth : Z;
  sent_capacity : Z;
  received_depth : Z;
  received_capacity : Z;
}.

Definition heartbeat_fields (m : heartbeat_message) : list field :=
  [text_field "type" "device.heartbeat"; number_field "protocol_version" (heartbeat_version m);
   (literal "utc", VString (utc_text (heartbeat_time m))); number_field "monotonic_ms" (heartbeat_uptime m);
   number_field "tx_queue_depth" (sent_depth m); number_field "tx_queue_capacity" (sent_capacity m);
   number_field "rx_queue_depth" (received_depth m); number_field "rx_queue_capacity" (received_capacity m)].

(** A time of the calendar, and queues that are not overfull. *)
Definition heartbeat_valid (m : heartbeat_message) : Prop :=
  utc_ok (heartbeat_time m)
  /\ sent_capacity m <> 0 /\ sent_depth m <= sent_capacity m <= U32_MAX
  /\ received_capacity m <> 0 /\ received_depth m <= received_capacity m <= U32_MAX.

Definition heartbeat_result (m : heartbeat_message) : deck_device_heartbeat_result_t :=
  if decide (heartbeat_version m = 1) then DECK_DEVICE_HEARTBEAT_VALID else DECK_DEVICE_HEARTBEAT_UNSUPPORTED_MAJOR.

Definition heartbeat_reading (m : heartbeat_message) : deck_device_heartbeat_t :=
  {| utc_unix_ms := utc_ms (heartbeat_time m); monotonic_ms := heartbeat_uptime m |}.

Definition heartbeat_state_of (m : heartbeat_message) : heartbeat_state :=
  {| heartbeat_utc := utc_ms (heartbeat_time m); heartbeat_monotonic := heartbeat_uptime m;
     unsupported_major := negb (heartbeat_version m =? 1);
     tx_depth := sent_depth m; tx_capacity := sent_capacity m;
     rx_depth := received_depth m; rx_capacity := received_capacity m |}.

Lemma fits_u32_spec n : fits_u32 n = true <-> n <= U32_MAX.
Proof. apply Z.leb_le. Qed.

Lemma digits_printable k n : Forall printable (SnapshotTime.decimal k n).
Proof. eapply Forall_impl; [apply decimal_digits|]. unfold printable. simpl. lia. Qed.

Lemma utc_text_printable u : utc_ok u -> Forall printable (utc_text u).
Proof.
  intros (_ & _ & _ & _ & _ & _ & Hf & _). unfold utc_text.
  assert (Forall printable (u_fraction u)) as Hp
    by (eapply Forall_impl; [exact Hf|]; unfold printable; simpl; lia).
  destruct (u_fraction u); rewrite ?Forall_app; split_and?; try apply digits_printable; try exact Hp;
    repeat apply Forall_cons_2; try apply Forall_nil_2; try done; unfold printable; lia.
Qed.

Lemma utc_text_parsed u : utc_ok u -> parse_canonical_utc (utc_text u) = Some (utc_ms u).
Proof.
  intros Hu. unfold parse_canonical_utc. rewrite printable_c_string by by apply utc_text_printable.
  apply parse_utc_text_spec. eauto.
Qed.

(** The strings of a message are printable. *)
Definition printable_value (v : value) : Prop := match v with VString x => Forall printable x | _ => True end.

Lemma fields_text_printable fs t : fields_text fs t -> Forall (fun f => printable_value f.2) fs.
Proof.
  assert (forall v t, value_text v t -> printable_value v) as Hv
    by (intros v t' Hv; destruct v; try done; by eapply value_string_printable).
  induction 1; constructor; try constructor; simpl; eauto.
Qed.

Lemma message_text_printable fs message : message_text fs message -> Forall (fun f => printable_value f.2) fs.
Proof. intros (_ & w1 & t & w2 & _ & _ & Hfs & _). by eapply fields_text_printable. Qed.

Lemma heartbeat_values fs s : Forall (fun f => printable_value f.2) fs ->
  accept_all (accept := heartbeat_accept) 0 no_heartbeat_state fs = Some (255, s) ->
  exists m, fs ≡ₚ heartbeat_fields m /\ utc_ok (heartbeat_time m) /\ s = heartbeat_state_of m
    /\ Forall (fun n => n <= U32_MAX) [sent_depth m; sent_capacity m; received_depth m; received_capacity m].
Proof.
  intros Hpr H. apply accept_all_canonical in H as (fs' & Hp & Ek & Ha). rewrite Hp in Hpr.
  setoid_rewrite Hp. clear Hp fs.
  change (marked heartbeat_table 255) with (fst <$> heartbeat_fields (Build_heartbeat_message 0 (Build_utc 0 0 0 0 0 0 []) 0 0 0 0 0)) in Ek.
  cbn [heartbeat_fields fmap list_fmap fst text_field number_field] in Ek. name_fields Ek.
  accept_fields Ha. injection Ha as <-. rewrite fits_u32_spec in *. names.
  unfold parse_canonical_utc in *.
  match goal with E : parse_utc_text (c_string ?x) = Some _ |- _ =>
    rewrite printable_c_string in E by (do 2 apply Forall_inv_tail in Hpr; apply (Forall_inv Hpr));
    apply parse_utc_text_spec in E as (u & Hu & -> & ->)
  end.
  lazymatch goal with
  | |- context [[_; (_, VNumber ?v); _; (_, VNumber ?n); (_, VNumber ?a); (_, VNumber ?b); (_, VNumber ?c); (_, VNumber ?d)]] =>
      exists (Build_heartbeat_message v u n a b c d)
  end.
  split; [reflexivity|]. split; [done|]. split; [reflexivity|].
  by repeat constructor.
Qed.

Lemma heartbeat_values_accepted m : heartbeat_valid m ->
  accept_all (accept := heartbeat_accept) 0 no_heartbeat_state (heartbeat_fields m)
    = Some (255, heartbeat_state_of m).
Proof.
  intros (Hu & _ & Hs & _ & Hr). unfold heartbeat_fields. apply utc_text_parsed in Hu.
  assert (forall n, n <= U32_MAX -> fits_u32 n = true) as Hf by (intros; by apply fits_u32_spec).
  pose proof (Hf (sent_depth m) ltac:(lia)). pose proof (Hf (sent_capacity m) ltac:(lia)).
  pose proof (Hf (received_depth m) ltac:(lia)). pose proof (Hf (received_capacity m) ltac:(lia)).
  clear Hf Hs Hr. by accept_known heartbeat_accept.
Qed.

Lemma parse_heartbeat_spec message previous has_previous result reading :
  deck_device_protocol_parse_heartbeat message previous has_previous = (result, Some reading)
  <-> exists m, heartbeat_valid m /\ (has_previous = true -> previous <= heartbeat_uptime m)
      /\ result = heartbeat_result m /\ reading = heartbeat_reading m
      /\ exists fs, fs ≡ₚ heartbeat_fields m /\ message_text fs message.
Proof.
  unfold deck_device_protocol_parse_heartbeat. split.
  - destruct (parse_object _ _ _) as [[[mask s] rest]|] eqn:Hp; [|done]. intros H. case_match eqn:Eg; [done|].
    repeat (apply orb_false_iff in Eg as [Eg ?]). bool_prop. subst mask.
    apply parse_message_sound in Hp as (fs & Hm & Ha); [|done].
    apply heartbeat_values in Ha as (m & Hf & Hu & -> & Hr); [|by eapply message_text_printable].
    rewrite !Forall_cons in Hr. cbn in *. exists m. split; [unfold heartbeat_valid; split_and!; tauto|].
    split; [|split; [|split; [by simplify_eq|eauto]]].
    + intros ->. match goal with E : _ && _ = false |- _ => simpl in E; by bool_prop end.
    + unfold heartbeat_result. destruct (Z.eqb_spec (heartbeat_version m) 1); simpl in H; simplify_eq; by case_decide.
  - intros (m & Hv & Hprev & -> & -> & fs & Hf & Hm). pose proof (heartbeat_values_accepted m Hv) as Ha.
    symmetry in Hf. apply (accept_all_perm _ _ _ _ _ Hf) in Ha.
    destruct (parse_message_complete _ _ _ _ _ Hm Ha) as (rest & -> & Hr). rewrite Hr.
    destruct Hv as (_ & H1 & H2 & H3 & H4). cbn.
    rewrite (proj2 (Z.eqb_neq (sent_capacity m) 0)), (proj2 (Z.eqb_neq (received_capacity m) 0)),
      (proj2 (Z.ltb_ge (sent_capacity m) _)), (proj2 (Z.ltb_ge (received_capacity m) _)) by first [done | lia].
    assert (has_previous && (heartbeat_uptime m <? previous) = false) as ->.
    { destruct has_previous; [|done]. simpl. apply Z.ltb_ge. by apply Hprev. }
    cbn. unfold heartbeat_result, heartbeat_reading. by destruct (Z.eqb_spec (heartbeat_version m) 1); case_decide.
Qed.

(** C20: A heartbeat is accepted exactly when its members are, in any order, the
    type, a protocol version, a canonical time, an uptime and the fill and
    size of both queues, with queues that are neither empty nor overfull and,
    when there was a heartbeat before, an uptime that did not go back; the
    reading is the time in milliseconds and the uptime, and only version one
    is supported. *)
Theorem heartbeat_parser_is_exact message previous has_previous result reading :
  deck_device_protocol_parse_heartbeat message previous has_previous = (result, Some reading)
  <-> exists m, heartbeat_valid m /\ (has_previous = true -> previous <= heartbeat_uptime m)
      /\ result = heartbeat_result m /\ reading = heartbeat_reading m
      /\ exists fs, fs ≡ₚ heartbeat_fields m /\ message_text fs message.
Proof. apply parse_heartbeat_spec. Qed.

(** ** The hello *)

Definition hello_table : list (bytes * Z) :=
  [(literal "type", 1); (literal "protocol_version", 2); (literal "device_id", 4); (literal "firmware_version", 8);
   (literal "board", 16); (literal "capabilities", 32); (literal "serial_state", 64);
   (literal "serial_session_id", 128)].

Definition hello_accept (device_id key : bytes) (v : value) : option (Z * (hello_state -> hello_state)) :=
  if is_string key "type" then
    text ← as_string v; if is_string text "device.hello" then Some (1, fun s => s) else None
  else if is_string key "protocol_version" then
    n ← as_number v; if n =? DECK_DEVICE_PROTOCOL_VERSION then Some (2, fun s => s) else None
  else if is_string key "device_id" then
    text ← as_string v;
    if safe_device_id text && bool_decide (text = c_string device_id) then Some (4, fun s => s) else None
  else if is_string key "firmware_version" then
    text ← as_string v;
    if safe_version text then Some (8, fun s => s) else None
  else if is_string key "board" then
    text ← as_string v; if is_string text "esp32-s3-rlcd-4.2" then Some (16, fun s => s) else None
  else if is_string key "capabilities" then
    l ← as_strings v;
    if bool_decide (capabilities_listed l) then
      Some (32, fun s => s <| has_serial_capability := bool_decide (literal "serial" ∈ l) |>)
    else None
  else if is_string key "serial_state" then
    text ← as_string v;
    if is_string text "disarmed" || is_string text "usb_tx" || is_string text "web_tx" then
      Some (64, fun s => s <| serial_disarmed := is_string text "disarmed" |>)
    else None
  else if is_string key "serial_session_id" then
    n ← as_number v; Some (128, fun s => s <| serial_session_id := n |>)
  else None.

Lemma safe_device_id_length x : Forall printable x -> safe_device_id x = true -> (List.length x < 65)%nat.
Proof.
  unfold safe_device_id. intros Hx. rewrite printable_c_string by done. intros H.
  destruct (_ || _) eqn:E in H; [done|]. bool_prop. lia.
Qed.

Lemma safe_version_length x : Forall printable x -> safe_version x = true -> (List.length x < 33)%nat.
Proof.
  unfold safe_version. intros Hx. rewrite printable_c_string by done. intros H.
  destruct (_ || _) eqn:E in H; [done|]. bool_prop. lia.
Qed.

#[export] Instance hello_reads device_id : ReadsMembers (hello_member device_id) (hello_accept device_id) hello_table.
Proof.
  split; [| |solve_accept_key|solve_accept_commutes|done|by apply (bool_decide_unpack _)].
  - intros key s cursor bit s' rest H. unfold hello_member in H. unfold hello_accept.
    name_cases H; try member_read H.
    + apply bind_Some in H as ([serial c] & (w & t & l & Hw & -> & Ht & Hl & ->)%parse_capabilities_sound & H).
      simplify_eq. eexists w, t, (VStrings l), _. split; [done|split; [done|split; [done|]]]. cbn.
      rewrite (bool_decide_eq_true_2 _ Hl). by split.
    + apply bind_Some in H as ([text c] & (w & t & Hw & -> & Ht)%string_sound & H).
      cbv zeta in H. destruct (_ && _) eqn:Eg in H; [done|]. simplify_eq.
      eexists w, _, (VString text), _. split; [done|split; [done|split; [by constructor|]]]. cbn.
      match goal with |- context [if ?g then _ else _] => assert (g = true) as -> end; [|by split].
      by destruct (is_string text "disarmed"), (is_string text "usb_tx"), (is_string text "web_tx").
  - intros key s w t v bit f rest H Hw Ht Hd. unfold hello_accept in H. unfold hello_member.
    name_cases H; same_branch; invert H; try (erewrite checked_number_complete by eauto; reflexivity);
      try (erewrite checked_string_complete by (eauto; fits); reflexivity).
    + erewrite checked_string_complete; [reflexivity|done|done| |done]. bool_prop.
      by eapply safe_device_id_length; [eapply value_string_printable|].
    + erewrite checked_string_complete; [reflexivity|done|done| |done].
      by eapply safe_version_length; [eapply value_string_printable|].
    + bool_prop. by rewrite (parse_capabilities_complete w x t rest).
    + rewrite (read_string 16 w t x); [|done|done|bool_cases; fits]. cbn.
      destruct (is_string x "disarmed"), (is_string x "usb_tx"), (is_string x "web_tx"); done.
Qed.

(** The members of a hello. *)
Definition hello_fields (device_id version : bytes) (supported : list bytes) (state : bytes) (session : Z) : list field :=
  [text_field "type" "device.hello"; number_field "protocol_version" 1; (literal "device_id", VString device_id);
   (literal "firmware_version", VString version); text_field "board" "esp32-s3-rlcd-4.2";
   (literal "capabilities", VStrings supported); (literal "serial_state", VString state);
   number_field "serial_session_id" session].

(** No session without a transmitter, and no transmitter without the
    capability and a session. *)
Definition hello_session (supported : list bytes) (state : bytes) (session : Z) : Prop :=
  state = literal "disarmed" /\ session = 0
  \/ (state = literal "usb_tx" \/ state = literal "web_tx") /\ session <> 0 /\ literal "serial" ∈ supported.

Definition hello_start : hello_state :=
  {| serial_disarmed := false; has_serial_capability := false; serial_session_id := 0 |}.

Definition hello_end (supported : list bytes) (state : bytes) (session : Z) : hello_state :=
  {| serial_disarmed := is_string state "disarmed"; has_serial_capability := bool_decide (literal "serial" ∈ supported);
     serial_session_id := session |}.

Definition hello_known (state : bytes) : bool :=
  is_string state "disarmed" || is_string state "usb_tx" || is_string state "web_tx".

Lemma hello_end_spec supported state session : hello_known state = true ->
  (let s := hello_end supported state session in
   if serial_disarmed s then serial_session_id s =? 0
   else negb (serial_session_id s =? 0) && has_serial_capability s) = true
  <-> hello_session supported state session.
Proof.
  unfold hello_known, hello_session, hello_end, is_string. cbn. intros H.
  destruct (bool_decide (state = literal "disarmed")) eqn:E1; bool_prop; subst.
  - rewrite Z.eqb_eq. split; [auto|]. intros [[_ ?]|([H'|H'] & _)]; [done|vm_compute in H'; done..].
  - simpl in H. rewrite andb_true_iff, negb_true_iff, Z.eqb_neq, bool_decide_eq_true.
    apply orb_true_iff in H as [H|H]; bool_prop; subst; split; try tauto; intros [[? _]|(_ & ?)]; done.
Qed.

Lemma hello_values device_id fs s :
  accept_all (accept := hello_accept device_id) 0 hello_start fs = Some (255, s) ->
  exists version supported state session,
    fs ≡ₚ hello_fields (c_string device_id) version supported state session
    /\ safe_version version = true /\ capabilities_listed supported /\ hello_known state = true
    /\ s = hello_end supported state session.
Proof.
  intros H. apply accept_all_canonical in H as (fs' & Hp & Ek & Ha). setoid_rewrite Hp. clear Hp fs.
  change (marked hello_table 255) with (fst <$> hello_fields [] [] [] [] 0) in Ek.
  cbn [hello_fields fmap list_fmap fst text_field number_field] in Ek. name_fields Ek.
  accept_fields Ha. injection Ha as <-. names. bool_prop. subst.
  lazymatch goal with
  | |- context [[_; _; _; (_, VString ?v); _; (_, VStrings ?l); (_, VString ?st); (_, VNumber ?n)]] => exists v, l, st, n
  end.
  split; [reflexivity|]. by split_and!.
Qed.

Lemma hello_values_accepted device_id version supported state session :
  safe_device_id device_id = true -> safe_version version = true -> capabilities_listed supported ->
  hello_known state = true ->
  accept_all (accept := hello_accept device_id) 0 hello_start
    (hello_fields (c_string device_id) version supported state session)
  = Some (255, hello_end supported state session).
Proof.
  intros Hi Hv Hc Hs. apply (bool_decide_eq_true_2 _) in Hc. unfold hello_known in Hs.
  assert (safe_device_id (c_string device_id) && bool_decide (c_string device_id = c_string device_id) = true) as Hi'.
  { rewrite bool_decide_eq_true_2 by done. unfold safe_device_id in *. by rewrite c_string_idem, Hi. }
  unfold hello_fields. clear Hi. by accept_known hello_accept.
Qed.

(** C21: A hello is accepted exactly when the device that was authenticated sent
    it: its members are, in any order, the type, the version, this
    identifier, a firmware version, the board, capabilities without
    repetition, and a serial state that has a session exactly when it has a
    transmitter, which needs the serial capability. *)
Theorem hello_validation_is_exact message device_id :
  deck_device_protocol_validate_hello message device_id = true
  <-> safe_device_id device_id = true
      /\ exists version supported state session,
           safe_version version = true /\ capabilities_listed supported /\ hello_session supported state session
           /\ exists fs, fs ≡ₚ hello_fields (c_string device_id) version supported state session
                /\ message_text fs message.
Proof.
  unfold deck_device_protocol_validate_hello. fold hello_start.
  destruct (safe_device_id device_id) eqn:Hi; cbn [negb]; [|split; [done|by intros [? _]]]. split.
  - intros H. split; [done|]. destruct (parse_object _ _ _) as [[[mask s] rest]|] eqn:Hp; [|done].
    apply andb_true_iff in H as [H Hs]. bool_prop. subst mask.
    apply parse_message_sound in Hp as (fs & Hm & Ha); [|done].
    apply hello_values in Ha as (version & supported & state & session & Hf & Hv & Hc & Hk & ->).
    exists version, supported, state, session. split; [done|]. split; [done|]. split; [|eauto].
    by apply hello_end_spec.
  - intros (_ & version & supported & state & session & Hv & Hc & Hs & fs & Hf & Hm). symmetry in Hf.
    assert (hello_known state = true) as Hk
      by (destruct Hs as [[-> _]|[[-> | ->] _]]; reflexivity).
    pose proof (hello_values_accepted device_id version supported state session Hi Hv Hc Hk) as Ha.
    apply (accept_all_perm _ _ _ _ _ Hf) in Ha.
    destruct (parse_message_complete _ _ _ _ _ Hm Ha) as (rest & -> & Hr). rewrite Hr. simpl andb.
    by apply (hello_end_spec supported state session Hk).
Qed.
