(* ===== verification/DeviceDispatch.v ===== *)
(** * Fingerprints, and what a server message does

    The comparison of certificate fingerprints, and the dispatch of
    [deck_companion_link_message.cpp] over the control messages of
    DeviceProtocolSpec and the snapshot store. *)

From Stdlib Require Import String.
From S2P Require Import Prelude CString SnapshotTime TransactionStore TransactionClient TransactionMedium TransactionCrash SnapshotValidate SnapshotSample SnapshotStore SnapshotStoreSpec SnapshotStoreSample SnapshotStoreSafety DeviceProtocol DeviceGrammar DeviceProtocolSpec.

(** ** Fingerprints *)

(** Two lower-case hexadecimal digits for each byte. *)
Definition hex_text (digest : bytes) : bytes :=
  flat_map (fun b => [kHex.[Z.to_nat (b / 16)]; kHex.[Z.to_nat (b mod 16)]]) digest.

Lemma length_hex_text digest : List.length (hex_text digest) = (2 * List.length digest)%nat.
Proof. induction digest as [|b digest IH]; [done|]. simpl in *. lia. Qed.

Lemma hex_text_spec digest l : List.length l = (2 * List.length digest)%nat ->
  l = hex_text digest
  <-> forall i, (i < List.length digest)%nat ->
       l.[i * 2] = kHex.[Z.to_nat (digest.[i] / 16)] /\ l.[1 + i * 2] = kHex.[Z.to_nat (digest.[i] mod 16)].
Proof.
  revert l. induction digest as [|b digest IH]; intros l Hl.
  { destruct l; [|done]. split; [|done]. simpl. intros _ ? ?. lia. }
  destruct l as [|x [|y l]]; try (simpl in Hl; lia). specialize (IH l ltac:(simpl in Hl; lia)). split.
  - intros [= -> -> E] [|i] Hi; [done|]. apply (proj1 IH E i). simpl in Hi. lia.
  - intros H. destruct (H 0%nat ltac:(simpl; lia)) as [E1 E2]. 
    change (x = kHex.[Z.to_nat (b / 16)]) in E1. change (y = kHex.[Z.to_nat (b mod 16)]) in E2.
    rewrite E1, E2. change (hex_text (b :: digest)) with
      (kHex.[Z.to_nat (b / 16)] :: kHex.[Z.to_nat (b mod 16)] :: hex_text digest). do 2 f_equal.
    apply IH. intros i Hi. apply (H (S i)). simpl. lia.
Qed.

Lemma kHex_range i : is_u8 kHex.[i].
Proof. apply byte_at_range. by apply is_bytes_check. Qed.

Lemma log2_u8 c : is_u8 c -> Z.log2 c < 8.
Proof.
  unfold is_u8. intros Hc. destruct (decide (c = 0)) as [->|]; [done|]. apply Z.log2_lt_pow2; [lia|]. simpl. lia.
Qed.

Lemma u8_log2 c : 0 <= c -> Z.log2 c < 8 -> is_u8 c.
Proof.
  intros Hc Hl. unfold is_u8. destruct (decide (c = 0)) as [->|]; [lia|].
  apply Z.log2_lt_pow2 in Hl; [|lia]. change (2 ^ 8) with 256 in Hl. lia.
Qed.

Lemma lxor_zero a b : is_u8 a -> is_u8 b -> u8 (Z.lxor a b) = 0 <-> a = b.
Proof.
  intros Ha Hb. rewrite u8_id; [apply Z.lxor_eq_0_iff|]. pose proof (log2_u8 _ Ha). pose proof (log2_u8 _ Hb).
  unfold is_u8 in Ha, Hb. apply u8_log2; [apply Z.lxor_nonneg; lia|].
  eapply Z.le_lt_trans; [apply Z.log2_lxor; lia|]. by apply Z.max_lub_lt.
Qed.

Lemma lor_zero d x : is_u8 d -> is_u8 x -> u8 (Z.lor d x) = 0 <-> d = 0 /\ x = 0.
Proof.
  intros Hd Hx. rewrite u8_id; [apply Z.lor_eq_0_iff|]. pose proof (log2_u8 _ Hd). pose proof (log2_u8 _ Hx).
  unfold is_u8 in Hd, Hx. apply u8_log2; [apply Z.lor_nonneg; lia|].
  rewrite Z.log2_lor by lia. by apply Z.max_lub_lt.
Qed.

Lemma digest_difference_spec digest fingerprint d i :
  is_bytes digest -> is_bytes fingerprint -> is_u8 d ->
  is_u8 (digest_difference digest fingerprint d i)
  /\ (digest_difference digest fingerprint d i = 0 <->
      d = 0 /\ fingerprint.[7 + i * 2] = kHex.[Z.to_nat (digest.[i] / 16)]
      /\ fingerprint.[8 + i * 2] = kHex.[Z.to_nat (digest.[i] mod 16)]).
Proof.
  intros Hd Hf H. unfold digest_difference. split; [apply u8_range|].
  rewrite !lor_zero, !lxor_zero by auto using u8_range, byte_at_range, kHex_range.
  change 15 with (Z.ones 4). rewrite Z.land_ones, Z.shiftr_div_pow2 by lia. change (2 ^ 4) with 16. tauto.
Qed.

Lemma difference_loop digest fingerprint l d : is_bytes digest -> is_bytes fingerprint -> is_u8 d ->
  fold_left (digest_difference digest fingerprint) l d = 0
  <-> d = 0 /\ forall i, i ∈ l -> fingerprint.[7 + i * 2] = kHex.[Z.to_nat (digest.[i] / 16)]
      /\ fingerprint.[8 + i * 2] = kHex.[Z.to_nat (digest.[i] mod 16)].
Proof.
  intros Hd Hf. revert d. induction l as [|i l IH]; intros d H; simpl.
  { split; [|tauto]. intros ->. split; [done|]. intros i Hi. by apply not_elem_of_nil in Hi. }
  destruct (digest_difference_spec digest fingerprint d i Hd Hf H) as [Hr He]. rewrite IH, He by done. split.
  - intros [(-> & H1 & H2) Hl]. split; [done|]. intros j [-> |Hj]%elem_of_cons; [by split|by apply Hl].
  - intros [-> Hl]. split; [|by intros j Hj; apply Hl, elem_of_cons; right]. split; [done|]. apply Hl, elem_of_cons. by left.
Qed.

(** A fingerprint matches a digest exactly when it is the scheme followed by
    the digest's bytes in lower-case hexadecimal, whatever lies behind its
    terminator. *)
Theorem fingerprint_comparison_is_exact digest fingerprint
    (Hd : is_bytes digest) (Hn : List.length digest = 32%nat) (Hf : is_bytes fingerprint) :
  deck_device_protocol_fingerprint_matches_sha256 digest fingerprint = true
  <-> c_string fingerprint = literal "sha256:" ++ hex_text digest.
Proof.
  unfold deck_device_protocol_fingerprint_matches_sha256.
  assert (c_string fingerprint = literal "sha256:" ++ hex_text digest -> strlen fingerprint = 71%nat) as Hlen.
  { unfold strlen. intros ->. rewrite length_app, length_hex_text, Hn. done. }
  destruct (Nat.eqb_spec (strlen fingerprint) 71) as [Hs|Hs]; [clear Hlen|by split; [|intros ?%Hlen]].
  assert (c_string fingerprint = take 7 fingerprint ++ take 64 (drop 7 fingerprint)) as Ec.
  { rewrite c_string_prefix, Hs. by rewrite take_take_drop. }
  pose proof (strlen_le fingerprint) as Hl. cbn [negb orb].
  case_bool_decide as Hp; cbn [negb].
  - rewrite Z.eqb_eq, difference_loop by (done || unfold is_u8; lia). rewrite Ec, Hp. unfold kPrefix.
    transitivity (take 64 (drop 7 fingerprint) = hex_text digest); [|split; [by intros ->|apply app_inv_head]].
    rewrite hex_text_spec by (rewrite length_take, length_drop; lia). rewrite Hn.
    assert (forall i, (i < 64)%nat -> (take 64 (drop 7 fingerprint)).[i] = fingerprint.[7 + i]) as Hi.
    { intros i Hi. unfold byte_at. by rewrite lookup_take_lt, lookup_drop by done. }
    split.
    + intros [_ H] i Hlt. rewrite !Hi by lia. apply (H i). apply elem_of_seq. lia.
    + intros H. split; [done|]. intros i Hin%elem_of_seq. specialize (H i ltac:(lia)). by rewrite !Hi in H by lia.
  - split; [done|]. intros E. destruct Hp. apply (f_equal (take 7)) in E.
    rewrite c_string_prefix, Hs, take_take in E. exact E.
Qed.

Lemma fingerprint_comparison_is_exact_witness :
  let digest := replicate 32 171 in
  let fingerprint := literal "sha256:" ++ hex_text digest ++ [0] in
  is_bytes digest /\ deck_device_protocol_fingerprint_matches_sha256 digest fingerprint = true
  /\ c_string fingerprint = literal "sha256:" ++ hex_text digest.
Proof.
  assert (is_bytes (replicate 32 171)) as Hd by by apply is_bytes_check.
  assert (is_bytes (literal "sha256:" ++ hex_text (replicate 32 171) ++ [0])) as Hf by by apply is_bytes_check.
  split; [exact Hd|]. split; [|reflexivity].
  apply (fingerprint_comparison_is_exact _ _ Hd eq_refl Hf). reflexivity.
Defined.

(** ** Server messages *)

(** The message is a heartbeat of a version the device speaks, not older than
    the one before. *)
Definition is_heartbeat (message : bytes) (previous : Z) (has_previous : bool) (m : heartbeat_message) : Prop :=
  heartbeat_valid m /\ heartbeat_version m = 1 /\ (has_previous = true -> previous <= heartbeat_uptime m)
  /\ exists fs, fs ≡ₚ heartbeat_fields m /\ message_text fs message.

Lemma heartbeat_said message previous has_previous reading :
  deck_device_protocol_parse_heartbeat message previous has_previous = (DECK_DEVICE_HEARTBEAT_VALID, Some reading)
  <-> exists m, is_heartbeat message previous has_previous m /\ reading = heartbeat_reading m.
Proof.
  rewrite parse_heartbeat_spec. unfold is_heartbeat, heartbeat_result. split.
  - intros (m & Hv & Hp & Hr & -> & Hm). case_decide; [|done]. eauto 10.
  - intros (m & (Hv & E & Hp & Hm) & ->). exists m. rewrite decide_True by done. eauto 10.
Qed.

Lemma heartbeat_valid_reading message previous has_previous hb :
  deck_device_protocol_parse_heartbeat message previous has_previous = (DECK_DEVICE_HEARTBEAT_VALID, hb) ->
  exists reading, hb = Some reading.
Proof.
  unfold deck_device_protocol_parse_heartbeat. intros H.
  destruct (parse_object _ _ _) as [[[mask s] rest]|]; [|done]. case_match; [done|]. injection H as _ <-. eauto.
Qed.

(** What became of the message, by the result: a heartbeat leaves the snapshots
    alone, a snapshot is the document shown from now on, and an invalid
    message is neither and changes no document. *)
Definition dispatched s (message : bytes) (trusted previous : Z) (has_previous : bool)
    (result : deck_companion_server_message_result_t) (heartbeat : option deck_device_heartbeat_t) s' : Prop :=
  match result with
  | DECK_COMPANION_SERVER_HEARTBEAT =>
      s' = s /\ exists m, is_heartbeat message previous has_previous m /\ heartbeat = Some (heartbeat_reading m)
  | DECK_COMPANION_SERVER_INVALID_MESSAGE =>
      heartbeat = None /\ document_kept s s' /\ forall m, ~ is_heartbeat message previous has_previous m
  | _ =>
      heartbeat = None /\ (forall m, ~ is_heartbeat message previous has_previous m)
      /\ clock_advances s trusted /\ has_snapshot s' = true /\ current_document s' = message
      /\ valid_document message (metadata s')
      /\ (result = DECK_COMPANION_SERVER_AI_SNAPSHOT_STORAGE_DEGRADED -> not_persisted s s')
  end.

(** C11: In every reachable state a server message does what its result says: a
    heartbeat of the supported version is read and leaves the snapshots
    alone; a valid snapshot that the clock admits is the document in memory
    from now on, reported as degraded only when it cannot be saved; anything
    else is refused and changes no document.  What is a heartbeat is never
    given to the snapshots. *)
Theorem server_messages_are_dispatched {W} `{StorageAdapter W, StorageProvider W} (y : system W) message trusted
    previous has_previous (Hy : reachable y) :
  let '(result, heartbeat, s') :=
    deck_companion_link_accept_server_message (store y) message trusted previous has_previous in
  dispatched (store y) message trusted previous has_previous result heartbeat s'.
Proof.
  apply reachable_inv in Hy as Hi. revert Hi. generalize (store y) as s. intros s Hi.
  unfold deck_companion_link_accept_server_message.
  destruct (Nat.eqb_spec (List.length message) 0) as [E|E].
  { split; [done|]. split; [by repeat split|]. intros m (_ & _ & _ & fs & _ & _ & w1 & t & w2 & -> & _).
    rewrite !length_app in E. simpl in E. lia. }
  destruct (deck_device_protocol_parse_heartbeat _ _ _) as [r hb] eqn:Hp.
  destruct (decide (r = DECK_DEVICE_HEARTBEAT_VALID)) as [->|Hr].
  { destruct (heartbeat_valid_reading _ _ _ _ Hp) as [reading ->].
    apply heartbeat_said in Hp as (m & Hm & ->). split; [done|]. eauto. }
  assert (forall m, ~ is_heartbeat message previous has_previous m) as Hno.
  { intros m Hm. assert (deck_device_protocol_parse_heartbeat message previous has_previous
      = (DECK_DEVICE_HEARTBEAT_VALID, Some (heartbeat_reading m))) as Hp' by (apply heartbeat_said; eauto). congruence. }
  pose proof (apply_cases _ s message trusted Hi) as Ha. pose proof (apply_inv _ s message trusted Hi) as Hi'.
  destruct (deck_ai_snapshot_store_apply s message trusted) as [u s'] eqn:Hu. cbn [snd] in Hi'.
  enough (dispatched s message trusted previous has_previous
    match u with
    | DECK_AI_SNAPSHOT_STORE_ACCEPTED_STORAGE_FAILURE => DECK_COMPANION_SERVER_AI_SNAPSHOT_STORAGE_DEGRADED
    | DECK_AI_SNAPSHOT_STORE_ACCEPTED_MEMORY | DECK_AI_SNAPSHOT_STORE_ACCEPTED_PERSISTED
    | DECK_AI_SNAPSHOT_STORE_UNCHANGED => DECK_COMPANION_SERVER_AI_SNAPSHOT
    | _ => DECK_COMPANION_SERVER_INVALID_MESSAGE
    end None s') by by destruct r.
  assert (has_snapshot s' = true -> valid_document (current_document s') (metadata s')) as Hv
    by (intros Hs; by apply (inv_memory _ _ Hi' Hs)).
  destruct u; cbn [apply_result] in Ha; unfold dispatched.
  - destruct Ha as (m & _ & Hc & _ & _ & Ed & _ & Es & _ & _ & _). rewrite Ed in Hv. by split_and!; auto.
  - done.
  - destruct Ha as (m & _ & Hc & _ & _ & Ed & _ & Es & _ & _ & Hn). rewrite Ed in Hv.
    split_and!; auto. intros _. by apply Hn.
  - destruct Ha as (Hs & Ed & Hc & K). pose proof K as (K1 & K2 & _ & K4 & _).
    assert (current_document s' = message) as Ed' by (unfold current_document; by rewrite K1, K2).
    rewrite Ed' in Hv. rewrite K4 in *. by split_and!; auto.
  - destruct Ha as (_ & _ & ->). split_and!; [done|by repeat split|exact Hno].
  - destruct Ha as (_ & _ & ->). split_and!; [done|by repeat split|exact Hno].
  - destruct Ha as (_ & _ & ->). split_and!; [done|by repeat split|exact Hno].
  - destruct Ha as (_ & K). by split.
  - destruct Ha as (_ & K). by split.
Qed.

(** A heartbeat in another order than the Companion's, with blanks. *)
Definition sample_heartbeat : bytes :=
  quoting "{'utc':'2026-08-13T12:34:56Z','monotonic_ms':90 , 'type':'device.heartbeat','tx_queue_depth':0,"
  ++ quoting "'protocol_version':1,'tx_queue_capacity':16,'rx_queue_capacity':16,'rx_queue_depth':2 } ".

(** A heartbeat and a snapshot, one after the other. *)
Lemma server_messages_are_dispatched_witness :
  let y := run (start (sample_flash 9 true)) boot in
  let accept := deck_companion_link_accept_server_message in
  (accept (store y) sample_heartbeat sample_now 80 true).1
  = (DECK_COMPANION_SERVER_HEARTBEAT, Some {| utc_unix_ms := sample_time; monotonic_ms := 90 |})
  /\ (accept (store y) small_sample sample_now 90 true).1 = (DECK_COMPANION_SERVER_AI_SNAPSHOT, None)
  /\ let '(result, heartbeat, s') := accept (store y) small_sample sample_now 90 true in
     dispatched (store y) small_sample sample_now 90 true result heartbeat s'.
Proof.
  intros y accept. split; [vm_compute; reflexivity|]. split; [vm_compute; reflexivity|].
  exact (server_messages_are_dispatched y small_sample sample_now 90 true (start_reachable _ _)).
Defined.
