(* ===== verification/AiPageView.v ===== *)
(** * The AI pages

    [components/application_ui/deck_ai_page_view_model.cpp]: the text of the
    page that shows a provider, the selection of the provider, and the local
    time of the status line.

    The text a successful call leaves in the buffer is the result; what a
    failed call leaves there is not read.  Windows and providers are the lists
    of entries in use. *)

From Stdlib Require Import String.
From S2P Require Import Prelude CString Print SnapshotTime SnapshotValidate SnapshotProject.

Definition DECK_AI_PAGE_MAX_LINES : nat := 13.
Definition DECK_AI_PAGE_MAX_SESSION_NAME_CELLS : nat := 27.

(** ** Local time *)

Record CivilDate := { year : Z; month : Z; day : Z }.

(** [days_from_civil] of this file computes what that of [deck_ai_snapshot.cpp]
    does. *)
Definition days_from_civil : Z -> Z -> Z -> Z := SnapshotTime.days_from_civil.

Definition civil_from_days (days : Z) : CivilDate :=
  let days := days + 719468 in
  let era := Z.quot (if 0 <=? days then days else days - 146096) 146097 in
  let day_of_era := u32 (days - era * 146097) in
  let year_of_era :=
    u32 (u32 (u32 (day_of_era - day_of_era / 1460) + day_of_era / 36524) - day_of_era / 146096) / 365 in
  let year := i32 year_of_era + i32 (era * 400) in
  let day_of_year := u32 (day_of_era - u32 (u32 (u32 (365 * year_of_era) + year_of_era / 4) - year_of_era / 100)) in
  let month_prime := u32 (u32 (5 * day_of_year) + 2) / 153 in
  let day := u32 (u32 (day_of_year - u32 (u32 (153 * month_prime) + 2) / 5) + 1) in
  let month := if month_prime <? 10 then u32 (month_prime + 3) else u32 (month_prime - 9) in
  {| year := year + (if month <=? 2 then 1 else 0); month := month; day := day |}.

Definition weekday_from_days (days : Z) : Z :=
  let weekday := Z.rem (days + 4) 7 in
  u32 (if weekday <? 0 then weekday + 7 else weekday).

Definition nth_sunday (year month occurrence : Z) : Z :=
  let first_weekday := weekday_from_days (days_from_civil year month 1) in
  u32 (u32 (1 + u32 (7 - first_weekday) mod 7) + u32 (u32 (occurrence - 1) * 7)).

Definition last_sunday (year month last_day : Z) : Z :=
  let weekday := weekday_from_days (days_from_civil year month last_day) in
  u32 (last_day - weekday).

Definition utc_seconds (year month day hour : Z) : Z := days_from_civil year month day * 86400 + hour * 3600.

Definition kFixed : list (bytes * Z) :=
  [(literal "UTC", 0); (literal "Etc/UTC", 0); (literal "GMT", 0); (literal "Asia/Shanghai", 480);
   (literal "Asia/Hong_Kong", 480); (literal "Asia/Singapore", 480); (literal "Asia/Taipei", 480);
   (literal "Asia/Tokyo", 540); (literal "Asia/Seoul", 540); (literal "Asia/Kolkata", 330);
   (literal "Asia/Dubai", 240)].

(** The two rules of the north, and that of Sydney; [utc] is in the year [y]. *)
Definition american_offset (pacific : bool) (y utc : Z) : Z :=
  let standard_offset := if pacific then -480 else -300 in
  let daylight_offset := standard_offset + 60 in
  let start_day := nth_sunday y 3 2 in
  let end_day := nth_sunday y 11 1 in
  let start := utc_seconds y 3 start_day (u32 (2 - Z.quot standard_offset 60)) in
  let end_ := utc_seconds y 11 end_day (u32 (2 - Z.quot daylight_offset 60)) in
  if (start <=? utc) && (utc <? end_) then daylight_offset else standard_offset.

Definition european_offset (london : bool) (y utc : Z) : Z :=
  let start_day := last_sunday y 3 31 in
  let end_day := last_sunday y 10 31 in
  let daylight := (utc_seconds y 3 start_day 1 <=? utc) && (utc <? utc_seconds y 10 end_day 1) in
  (if london then 0 else 60) + (if daylight then 60 else 0).

Definition sydney_offset (y utc : Z) : Z :=
  let start := utc_seconds y 10 (nth_sunday y 10 1) 2 - 10 * 3600 in
  let end_ := utc_seconds y 4 (nth_sunday y 4 1) 3 - 11 * 3600 in
  if (utc <? end_) || (start <=? utc) then 660 else 600.

(** [timezone] is [None] for a null pointer. *)
Definition timezone_offset_minutes (timezone : option bytes) (utc : Z) : option Z :=
  timezone ← timezone;
  match List.find (fun candidate => strcmp_eq timezone candidate.1) kFixed with
  | Some candidate => Some candidate.2
  | None =>
      let date := civil_from_days (Z.quot utc 86400) in
      if strcmp_eq timezone (literal "America/Los_Angeles") || strcmp_eq timezone (literal "America/New_York") then
        Some (american_offset (timezone.[8] =? 76) (year date) utc)
      else if strcmp_eq timezone (literal "Europe/London") || strcmp_eq timezone (literal "Europe/Berlin")
              || strcmp_eq timezone (literal "Europe/Paris") then
        Some (european_offset (timezone.[7] =? 76) (year date) utc)
      else if strcmp_eq timezone (literal "Australia/Sydney") then Some (sydney_offset (year date) utc)
      else None
  end.

(** The hour and the minute. *)
Definition deck_ai_page_local_time_from_utc (utc_ms : Z) (timezone : option bytes) : option (Z * Z) :=
  if 9223372036854775807 <? utc_ms / 1000 then None
  else
    let utc := utc_ms / 1000 in
    offset_minutes ← timezone_offset_minutes timezone utc;
    let local := utc + offset_minutes * 60 in
    let seconds_of_day := Z.rem local 86400 in
    let seconds_of_day := if seconds_of_day <? 0 then seconds_of_day + 86400 else seconds_of_day in
    Some (u8 (Z.quot seconds_of_day 3600), u8 (Z.rem (Z.quot seconds_of_day 60) 60)).

(** ** The model *)

Inductive deck_ai_page_wifi_state_t :=
  | DECK_AI_PAGE_WIFI_UNAVAILABLE
  | DECK_AI_PAGE_WIFI_DISCONNECTED
  | DECK_AI_PAGE_WIFI_CONNECTED.

Inductive deck_ai_page_companion_state_t :=
  | DECK_AI_PAGE_COMPANION_UNPAIRED
  | DECK_AI_PAGE_COMPANION_OFFLINE
  | DECK_AI_PAGE_COMPANION_CONNECTING
  | DECK_AI_PAGE_COMPANION_ONLINE.

Inductive deck_ai_page_snapshot_state_t :=
  | DECK_AI_PAGE_SNAPSHOT_EMPTY
  | DECK_AI_PAGE_SNAPSHOT_FRESH
  | DECK_AI_PAGE_SNAPSHOT_STALE
  | DECK_AI_PAGE_SNAPSHOT_UNAVAILABLE.

Record deck_ai_page_view_model_t := {
  active : bool;
  rtc_available : bool;
  rtc_hour : Z;
  rtc_minute : Z;
  temperature_available : bool;
  calibrated_temperature_tenths_c : Z;
  wifi_state : deck_ai_page_wifi_state_t;
  wifi_signal_bars : Z;
  companion_state : deck_ai_page_companion_state_t;
  snapshot_state : deck_ai_page_snapshot_state_t;
  trusted_utc_ms : Z;
  codex : deck_ai_snapshot_codex_projection_t;
  pages : deck_ai_snapshot_pages_projection_t;
  selected_provider : Z;
  configuration_hint : bool;
}.

#[export] Instance page_model_rebuild : Rebuild deck_ai_page_view_model_t := fun m =>
  Build_deck_ai_page_view_model_t (active m) (rtc_available m) (rtc_hour m) (rtc_minute m) (temperature_available m)
    (calibrated_temperature_tenths_c m) (wifi_state m) (wifi_signal_bars m) (companion_state m) (snapshot_state m)
    (trusted_utc_ms m) (codex m) (pages m) (selected_provider m) (configuration_hint m).

#[export] Instance page_wifi_state_eq_dec : EqDecision deck_ai_page_wifi_state_t.
Proof. solve_decision. Defined.
#[export] Instance page_companion_state_eq_dec : EqDecision deck_ai_page_companion_state_t.
Proof. solve_decision. Defined.
#[export] Instance page_snapshot_state_eq_dec : EqDecision deck_ai_page_snapshot_state_t.
Proof. solve_decision. Defined.
#[export] Instance provider_status_eq_dec : EqDecision deck_ai_snapshot_provider_status_t.
Proof. solve_decision. Defined.

Implicit Types (m : deck_ai_page_view_model_t).

Definition provider_count (p : deck_ai_snapshot_pages_projection_t) : Z := Z.of_nat (List.length (providers p)).

(** ** The selection *)

Definition deck_ai_page_wifi_signal_bars (rssi : Z) : Z :=
  if -55 <=? rssi then 4 else if -67 <=? rssi then 3 else if -75 <=? rssi then 2 else 1.

(** The index of the first provider with this identifier, from [index] on. *)
Fixpoint provider_index (index : Z) (id : bytes) (ps : list deck_ai_snapshot_provider_projection_t) : option Z :=
  match ps with
  | [] => None
  | p :: ps => if strcmp_eq id (page_provider_id p) then Some index else provider_index (index + 1) id ps
  end.

Definition selected_id m : bytes :=
  if negb (configuration_hint m) && (selected_provider m <? provider_count (pages m)) then
    from_option page_provider_id [] (providers (pages m) !! Z.to_nat (selected_provider m))
  else [].

Definition deck_ai_page_view_model_apply_pages m (new : deck_ai_snapshot_pages_projection_t)
  : bool * deck_ai_page_view_model_t :=
  if Z.of_nat DECK_AI_SNAPSHOT_MAX_PROVIDERS <? provider_count new then (false, m)
  else
    let selected := selected_id m in
    let m := m <| pages := new |> <| selected_provider := 0 |> in
    if provider_count new =? 0 then (true, m <| configuration_hint := true |>)
    else if configuration_hint m && (provider_count new =? 1) then (true, m)
    else
      let m := m <| configuration_hint := false |> in
      match (if negb (selected.[0] =? 0) then provider_index 0 selected (providers new) else None) with
      | Some index => (true, m <| selected_provider := index |>)
      | None =>
          match provider_index 0 (literal "codex") (providers new) with
          | Some index => (true, m <| selected_provider := index |>)
          | None => (true, m)
          end
      end.

Definition deck_ai_page_view_model_next m : deck_ai_page_view_model_t :=
  if provider_count (pages m) <=? 1 then
    m <| selected_provider := 0 |> <| configuration_hint := negb (configuration_hint m) |>
  else
    m <| configuration_hint := false |>
      <| selected_provider := u8 ((selected_provider m + 1) mod provider_count (pages m)) |>.

(** ** Text *)

Definition kDivider : bytes := literal "----------------------------------------".

(** What was written, and the number of its lines. *)
Record Writer := { text : bytes; lines : nat }.

Definition newline : bytes := [10].

Definition count_lines (appended : bytes) : nat := List.length (List.filter (fun b => b =? 10) appended).

(** [appended] is what [vsnprintf] makes of the format and its arguments. *)
Definition append (capacity : nat) (writer : Writer) (appended : bytes) : option Writer :=
  let size := List.length (text writer) in
  if (capacity <=? size)%nat || (capacity - size <=? List.length appended)%nat then None
  else
    let writer := {| text := text writer ++ appended; lines := lines writer + count_lines appended |} in
    if (lines writer <=? DECK_AI_PAGE_MAX_LINES)%nat then Some writer else None.

Definition utf8_sequence_size (first : Z) : nat :=
  if first <? 128 then 1
  else if Z.land first 224 =? 192 then 2
  else if Z.land first 240 =? 224 then 3
  else if Z.land first 248 =? 240 then 4
  else 0.

Definition continuation (b : Z) : bool := Z.land b 192 =? 128.

(** One turn reads a character of the input; the fuel is its length. *)
Fixpoint display_loop (fuel output_capacity maximum_cells : nat) (uppercase_ascii : bool) (input output : bytes)
    (cells : nat) : option bytes :=
  match fuel with
  | O => Some output
  | S fuel =>
      let first := input.[0] in
      if first =? 0 then Some output
      else
        let sequence := utf8_sequence_size first in
        if (sequence =? 0)%nat || negb (forallb (fun offset => continuation input.[offset]) (seq 1 (sequence - 1)))
        then None
        else
          let width := if (sequence =? 1)%nat then 1%nat else 2%nat in
          if (maximum_cells <? cells + width)%nat then Some output
          else if (output_capacity <=? List.length output + sequence)%nat then None
          else
            let character :=
              if (sequence =? 1)%nat
              then [if uppercase_ascii && (97 <=? first) && (first <=? 122) then first - 32 else first]
              else take sequence input in
            display_loop fuel output_capacity maximum_cells uppercase_ascii (drop sequence input)
              (output ++ character) (cells + width)
  end.

Definition display_text (input : bytes) (output_capacity maximum_cells : nat) (uppercase_ascii : bool)
  : option bytes :=
  output ← display_loop (List.length input) output_capacity maximum_cells uppercase_ascii input [] 0;
  if (List.length output =? 0)%nat then None else Some output.

Definition confidence_name (confidence : deck_ai_snapshot_confidence_t) : bytes :=
  match confidence with
  | DECK_AI_SNAPSHOT_CONFIDENCE_VERIFIED => literal "VERIFIED"
  | DECK_AI_SNAPSHOT_CONFIDENCE_INFERRED => literal "INFERRED"
  | DECK_AI_SNAPSHOT_CONFIDENCE_UNAVAILABLE => literal "UNAVAILABLE"
  end.

Definition provider_status_name (status : deck_ai_snapshot_provider_status_t) : bytes :=
  match status with
  | DECK_AI_SNAPSHOT_PROVIDER_OK => literal "OK"
  | DECK_AI_SNAPSHOT_PROVIDER_DEGRADED => literal "DEGRADED"
  | DECK_AI_SNAPSHOT_PROVIDER_UNAVAILABLE => literal "UNAVAILABLE"
  end.

Definition session_state_name (state : deck_ai_snapshot_session_state_t) : bytes :=
  match state with
  | DECK_AI_SNAPSHOT_SESSION_RUNNING => literal "RUNNING"
  | DECK_AI_SNAPSHOT_SESSION_WAITING_APPROVAL => literal "WAITING APPROVAL"
  | DECK_AI_SNAPSHOT_SESSION_WAITING_INPUT => literal "WAITING INPUT"
  | DECK_AI_SNAPSHOT_SESSION_COMPLETED => literal "COMPLETED"
  | DECK_AI_SNAPSHOT_SESSION_FAILED => literal "FAILED"
  | DECK_AI_SNAPSHOT_SESSION_RECENT => literal "RECENT"
  | DECK_AI_SNAPSHOT_SESSION_ENDED => literal "ENDED"
  | DECK_AI_SNAPSHOT_SESSION_UNKNOWN => literal "UNKNOWN"
  | DECK_AI_SNAPSHOT_SESSION_UNAVAILABLE => literal "UNAVAILABLE"
  end.

Definition compact_count (value : Z) (capacity : nat) : bytes :=
  snprintf capacity
    (if 1000000000 <=? value then
       print_u (value / 1000000000) ++ literal "." ++ print_u (value / 100000000 mod 10) ++ literal "B"
     else if 1000000 <=? value then
       print_u (value / 1000000) ++ literal "." ++ print_u (value / 100000 mod 10) ++ literal "M"
     else if 100000 <=? value then print_u (value / 1000) ++ literal "K"
     else if 1000 <=? value then print_u (value / 1000) ++ literal "." ++ print_u (value / 100 mod 10) ++ literal "K"
     else print_u value).

Definition duration_text (seconds : Z) (capacity : nat) : bytes :=
  snprintf capacity
    (if 86400 <=? seconds then
       let days := seconds / 86400 in
       if 999 <? days then literal "999d+"
       else print_u days ++ literal "d" ++ print_0u 2 (seconds / 3600 mod 24) ++ literal "h"
     else if 3600 <=? seconds then
       print_u (seconds / 3600) ++ literal "h" ++ print_0u 2 (seconds / 60 mod 60) ++ literal "m"
     else if 60 <=? seconds then print_u (seconds / 60) ++ literal "m"
     else print_u seconds ++ literal "s").

(** ** The status line *)

Definition status_time m : bytes :=
  let timezone :=
    if pages_has_timezone (pages m) then Some (pages_timezone (pages m))
    else if has_timezone (codex m) then Some (timezone (codex m)) else None in
  let snapshot_time :=
    match timezone with
    | Some timezone => deck_ai_page_local_time_from_utc (trusted_utc_ms m) (Some timezone)
    | None => None
    end in
  match snapshot_time with
  | Some (hour, minute) => snprintf 8 (print_0u 2 hour ++ literal ":" ++ print_0u 2 minute)
  | None =>
      if rtc_available m && (rtc_hour m <=? 23) && (rtc_minute m <=? 59) then
        snprintf 8 (print_0u 2 (rtc_hour m) ++ literal ":" ++ print_0u 2 (rtc_minute m))
      else literal "--:--"
  end.

Definition status_temperature m : bytes :=
  if temperature_available m then
    let signed_value := calibrated_temperature_tenths_c m in
    let magnitude := u32 (if signed_value <? 0 then - signed_value else signed_value) in
    snprintf 16 ((if signed_value <? 0 then literal "-" else literal "+")
                 ++ print_u (magnitude / 10) ++ literal "." ++ print_u (magnitude mod 10) ++ literal "C")
  else literal "--.-C".

Definition status_wifi m : bytes :=
  match wifi_state m with
  | DECK_AI_PAGE_WIFI_CONNECTED =>
      if (1 <=? wifi_signal_bars m) && (wifi_signal_bars m <=? 4) then
        snprintf 8 (print_u (wifi_signal_bars m) ++ literal "/4")
      else literal "--"
  | DECK_AI_PAGE_WIFI_DISCONNECTED => snprintf 8 (literal "OFF")
  | DECK_AI_PAGE_WIFI_UNAVAILABLE => literal "--"
  end.

Definition status_companion m : bytes :=
  match companion_state m with
  | DECK_AI_PAGE_COMPANION_ONLINE => literal "ON"
  | DECK_AI_PAGE_COMPANION_CONNECTING => literal "LINK"
  | DECK_AI_PAGE_COMPANION_OFFLINE => literal "OFF"
  | DECK_AI_PAGE_COMPANION_UNPAIRED => literal "NONE"
  end.

Definition append_status (capacity : nat) (writer : Writer) m : option Writer :=
  append capacity writer
    (status_time m ++ literal "  " ++ status_temperature m ++ literal "  WIFI " ++ status_wifi m
     ++ literal "  AGENT " ++ status_companion m ++ newline ++ kDivider ++ newline).

(** ** Quota windows *)

Definition usage_bar (basis_points : Z) : bytes :=
  let filled := Nat.min (Z.to_nat (u32 (basis_points + 500) / 1000)) 10 in
  replicate filled 35 ++ replicate (10 - filled) 45.

Definition window_timing (window : deck_ai_snapshot_quota_projection_t) (now_utc_ms : Z) : bytes :=
  if has_resets_at window && (now_utc_ms <? resets_at_unix_ms window) then
    snprintf 24 (literal "@" ++ duration_text ((resets_at_unix_ms window - now_utc_ms) / 1000) 16)
  else if has_window_minutes window then
    if window_minutes window mod 1440 =? 0 then
      snprintf 24 (print_u (window_minutes window / 1440) ++ literal "d")
    else snprintf 24 (duration_text (window_minutes window * 60) 16)
  else [].

Definition append_window (capacity : nat) (writer : Writer) (window : deck_ai_snapshot_quota_projection_t)
    (now_utc_ms : Z) : option Writer :=
  if negb (has_remaining_basis_points window) && negb (has_used_basis_points window) then Some writer
  else
    name ← display_text (name window) 10 8 true;
    let '(basis_points, qualifier) :=
      if has_remaining_basis_points window then (remaining_basis_points window, literal "R")
      else (used_basis_points window, literal "U") in
    let timing := window_timing window now_utc_ms in
    append capacity writer
      (print_padded 8 name ++ literal "[" ++ usage_bar basis_points ++ literal "] " ++ qualifier
       ++ print_u (basis_points / 100) ++ literal "%"
       ++ (if timing.[0] =? 0 then [] else literal " " ++ timing) ++ newline).

(** The loop over the windows; [more] is its condition on the writer. *)
Fixpoint append_windows (capacity : nat) (more : Writer -> bool) (now_utc_ms : Z) (writer : Writer)
    (windows : list deck_ai_snapshot_quota_projection_t) : option Writer :=
  match windows with
  | [] => Some writer
  | window :: windows =>
      if negb (more writer) then Some writer
      else
        writer ← append_window capacity writer window now_utc_ms;
        append_windows capacity more now_utc_ms writer windows
  end.

(** ** The page of a provider *)

Definition append_updated (capacity : nat) (writer : Writer) m (provider : deck_ai_snapshot_provider_projection_t)
  : option Writer :=
  if page_has_updated_at provider && (page_updated_at_unix_ms provider <=? trusted_utc_ms m) then
    append capacity writer
      (literal "UPDATED " ++ duration_text ((trusted_utc_ms m - page_updated_at_unix_ms provider) / 1000) 16
       ++ literal " AGO" ++ newline)
  else append capacity writer (literal "UPDATED --" ++ newline).

Definition append_balance (capacity : nat) (writer : Writer) (provider : deck_ai_snapshot_provider_projection_t)
  : option Writer :=
  let cents := u64 (page_balance_amount_micros provider + 5000) / 10000 in
  append capacity writer
    (literal "BAL " ++ print_u (cents / 100) ++ literal "." ++ print_0u 2 (cents mod 100) ++ literal " "
     ++ c_string (page_balance_currency provider) ++ newline).

Definition append_error (capacity : nat) (writer : Writer) (provider : deck_ai_snapshot_provider_projection_t)
  : option Writer :=
  problem ← display_text (page_error_code provider) DECK_AI_SNAPSHOT_ERROR_CODE_CAPACITY
              (DECK_AI_SNAPSHOT_ERROR_CODE_CAPACITY - 1) true;
  append capacity writer (literal "ERROR " ++ problem ++ newline).

Definition append_tokens (capacity : nat) (writer : Writer) (tokens : Z) : option Writer :=
  append capacity writer (literal "TOKEN " ++ compact_count tokens 24 ++ newline).

(** The statement under [if (condition)]. *)
Definition when (condition : bool) (statement : Writer -> option Writer) (writer : Writer) : option Writer :=
  if condition then statement writer else Some writer.

Definition append_provider_page (capacity : nat) (writer : Writer) m
    (provider : deck_ai_snapshot_provider_projection_t) : option Writer :=
  name ← display_text (page_display_name provider) 128 24 true;
  writer ← append capacity writer (name ++ newline);
  let status :=
    match snapshot_state m with
    | DECK_AI_PAGE_SNAPSHOT_STALE => literal "STALE"
    | DECK_AI_PAGE_SNAPSHOT_UNAVAILABLE => literal "UNAVAILABLE"
    | _ => provider_status_name (page_status provider)
    end in
  writer ← append capacity writer
             (status ++ literal " / " ++ confidence_name (page_confidence provider)
              ++ (if page_experimental provider then literal " / EXPERIMENTAL" else []) ++ newline);
  if bool_decide (snapshot_state m = DECK_AI_PAGE_SNAPSHOT_UNAVAILABLE) then
    writer ← when (bool_decide (companion_state m = DECK_AI_PAGE_COMPANION_OFFLINE))
               (fun writer => append capacity writer (literal "AGENT OFFLINE" ++ newline)) writer;
    append capacity writer
      (literal "NO CURRENT AI DATA" ++ newline ++ kDivider ++ newline ++ literal "KEY: NEXT  TX DISARMED")
  else
    writer ← append_updated capacity writer m provider;
    let metric_line_limit := (DECK_AI_PAGE_MAX_LINES - 2 - if page_has_error provider then 1 else 0)%nat in
    let more writer := (lines writer <? metric_line_limit)%nat in
    writer ← when (page_has_balance provider && more writer)
               (fun writer => append_balance capacity writer provider) writer;
    writer ← append_windows capacity more (trusted_utc_ms m) writer (page_windows provider);
    writer ← when (page_has_total_tokens provider && more writer)
               (fun writer => append_tokens capacity writer (page_total_tokens provider)) writer;
    writer ← when (page_has_error provider && (lines writer <? DECK_AI_PAGE_MAX_LINES - 2)%nat)
               (fun writer => append_error capacity writer provider) writer;
    append capacity writer (kDivider ++ newline ++ literal "KEY: NEXT  TX DISARMED").

Definition append_configuration_hint (capacity : nat) (writer : Writer) : option Writer :=
  append capacity writer
    (literal "ADD AI PROVIDER" ++ newline ++ literal "OPEN COMPANION WEB" ++ newline ++ literal "WEB ON COMPUTER"
     ++ newline ++ literal "NO EXTRA PROVIDERS" ++ newline ++ literal "KEY: CODEX" ++ newline
     ++ literal "TX DISARMED").

(** ** The page of Codex *)

(** The featured session's name, or the end of its identifier. *)
Definition session_title (session : deck_ai_snapshot_session_projection_t) : option bytes :=
  if has_display_name session then
    display_text (display_name session) 96 DECK_AI_PAGE_MAX_SESSION_NAME_CELLS true
  else
    let id := c_string (session_id session) in
    Some (snprintf 96 (literal "SESSION " ++ drop (List.length id - 8) id)).

(** The metrics of the last lines, each with a separator when one came before
    it: the writer, and [has_metric]. *)
Definition append_metric (capacity : nat) (condition : bool) (metric : bytes) (written : Writer * bool)
  : option (Writer * bool) :=
  let '(writer, has_metric) := written in
  if condition then
    writer ← append capacity writer ((if has_metric : bool then literal " / " else []) ++ metric);
    Some (writer, true)
  else Some (writer, has_metric).

Definition append_session (capacity : nat) (writer : Writer) (c : deck_ai_snapshot_codex_projection_t)
  : option Writer :=
  let session := featured_session c in
  if negb (present session) then append capacity writer (literal "NO CODEX SESSION" ++ newline ++ literal "TX DISARMED")
  else
    name ← session_title session;
    writer ← append capacity writer
               (name ++ newline ++ session_state_name (state session) ++ literal " / "
                ++ confidence_name (confidence session));
    writer ← when (has_duration_seconds session)
               (fun writer => append capacity writer (literal " / " ++ duration_text (duration_seconds session) 16))
               writer;
    writer ← append capacity writer newline;
    written ← append_metric capacity (has_turn_tokens session)
                (compact_count (turn_tokens session) 24 ++ literal " TOK") (writer, false);
    written ← append_metric capacity (has_context_used_basis_points session)
                (literal "CTX " ++ print_u (context_used_basis_points session / 100) ++ literal "%") written;
    '(writer, has_metric) ← append_metric capacity (1 <? codex_session_count c)
                              (literal "+" ++ print_u (codex_session_count c - 1) ++ literal " SESS") written;
    append capacity writer ((if has_metric : bool then newline else []) ++ literal "TX DISARMED").

Definition append_codex_page (capacity : nat) (writer : Writer) m : option Writer :=
  let confidence := confidence_name (provider_confidence (codex m)) in
  if bool_decide (snapshot_state m = DECK_AI_PAGE_SNAPSHOT_UNAVAILABLE) || negb (provider_present (codex m)) then
    writer ← append capacity writer (literal "CODEX  UNAVAILABLE" ++ newline);
    writer ← append capacity writer
               (match companion_state m with
                | DECK_AI_PAGE_COMPANION_OFFLINE => literal "AGENT OFFLINE"
                | DECK_AI_PAGE_COMPANION_UNPAIRED => literal "NO ACTIVE COMPANION"
                | _ => literal "NO CODEX DATA"
                end ++ newline);
    append capacity writer (literal "NO CURRENT AI DATA" ++ newline ++ literal "TX DISARMED")
  else if negb (bool_decide (snapshot_state m = DECK_AI_PAGE_SNAPSHOT_STALE))
          && bool_decide (provider_status (codex m) = DECK_AI_SNAPSHOT_PROVIDER_UNAVAILABLE) then
    append capacity writer
      (literal "CODEX  UNAVAILABLE / " ++ confidence ++ newline ++ literal "NO CURRENT AI DATA" ++ newline
       ++ literal "TX DISARMED")
  else
    writer ← append capacity writer
               (literal "CODEX  "
                ++ (if bool_decide (snapshot_state m = DECK_AI_PAGE_SNAPSHOT_STALE) then literal "STALE / "
                    else if bool_decide (provider_status (codex m) = DECK_AI_SNAPSHOT_PROVIDER_DEGRADED)
                    then literal "DEGRADED / " else []) ++ confidence ++ newline);
    writer ← append_windows capacity (fun _ => true) (trusted_utc_ms m) writer (windows (codex m));
    writer ← when (has_total_tokens (codex m)) (fun writer => append_tokens capacity writer (total_tokens (codex m)))
               writer;
    writer ← append capacity writer (kDivider ++ newline);
    append_session capacity writer (codex m).

(** ** The page *)

(** The provider whose own page is shown; [None] when the call fails. *)
Definition shown_provider m : option (option deck_ai_snapshot_provider_projection_t) :=
  let count := provider_count (pages m) in
  if (Z.of_nat DECK_AI_SNAPSHOT_MAX_PROVIDERS <? count) || (count <=? selected_provider m) then
    if negb (count =? 0) then None else Some None
  else
    provider ← providers (pages m) !! Z.to_nat (selected_provider m);
    Some (if strcmp_eq (page_provider_id provider) (literal "codex") then None else Some provider).

(** The text, when the call succeeds. *)
Definition deck_ai_page_view_model_format m (buffer_size : nat) : option bytes :=
  if (buffer_size =? 0)%nat || negb (active m) then None
  else if (DECK_AI_SNAPSHOT_MAX_WINDOWS <? List.length (windows (codex m)))%nat then None
  else
    text <$>
      (writer ← append_status buffer_size {| text := []; lines := 1 |} m;
       if configuration_hint m then append_configuration_hint buffer_size writer
       else
         provider ← shown_provider m;
         match provider with
         | Some provider => append_provider_page buffer_size writer m provider
         | None => append_codex_page buffer_size writer m
         end).

Definition deck_ai_page_view_model_equal (left right : deck_ai_page_view_model_t) : bool :=
  if negb (Bool.eqb (active left) (active right)) then false
  else if negb (active left) then true
  else
    match deck_ai_page_view_model_format left 1024, deck_ai_page_view_model_format right 1024 with
    | Some left_text, Some right_text => strcmp_eq left_text right_text
    | _, _ => false
    end.
