(* ===== verification/AiPageText.v ===== *)
(** * What the AI pages say

    Every page fits the buffer and the screen, ends by saying that the
    transmitter is disarmed, and shows no AI data when there is none that is
    current. *)

From Stdlib Require Import String.
From S2P Require Import Prelude CString Print SnapshotTime SnapshotValidate SnapshotProject AiPageView.

(** ** Text without NUL *)

Definition plain (t : bytes) : Prop := Forall (fun b => b <> 0) t.

Lemma plain_app a b : plain a -> plain b -> plain (a ++ b).
Proof. intros. by apply Forall_app. Qed.

Lemma plain_take n t : plain t -> plain (take n t).
Proof. apply Forall_take. Qed.

Lemma plain_drop n t : plain t -> plain (drop n t).
Proof. apply Forall_drop. Qed.

Lemma plain_check t : forallb (fun b => negb (b =? 0)) t = true -> plain t.
Proof. intros H. apply Forall_forall. intros b Hb%list_elem_of_In. apply (proj1 (forallb_forall _ _) H) in Hb. by bool_prop. Qed.

Lemma plain_print_u n : 0 <= n -> plain (print_u n).
Proof.
  intros Hn. eapply Forall_impl; [by apply digits_are_digits|]. intros b. unfold is_digit, ch_0. simpl. lia.
Qed.

Lemma plain_print_0u k n : 0 <= n -> plain (print_0u k n).
Proof. intros. apply plain_app; [by apply Forall_replicate|by apply plain_print_u]. Qed.


(** The fields are words of the machine. *)
Record window_words (window : deck_ai_snapshot_quota_projection_t) : Prop := {
  words_used : is_u16 (used_basis_points window);
  words_remaining : is_u16 (remaining_basis_points window);
  words_minutes : is_u32 (window_minutes window);
  words_resets : is_u64 (resets_at_unix_ms window);
}.

Record provider_words (provider : deck_ai_snapshot_provider_projection_t) : Prop := {
  words_updated : is_u64 (page_updated_at_unix_ms provider);
  words_balance : is_u64 (page_balance_amount_micros provider);
  words_windows : Forall window_words (page_windows provider);
  words_tokens : is_u64 (page_total_tokens provider);
}.

Record codex_words (c : deck_ai_snapshot_codex_projection_t) : Prop := {
  words_codex_windows : Forall window_words (windows c);
  words_total_tokens : is_u64 (total_tokens c);
  words_session_count : is_u8 (codex_session_count c);
  words_duration : is_u64 (duration_seconds (featured_session c));
  words_turn : is_u64 (turn_tokens (featured_session c));
  words_context : is_u16 (context_used_basis_points (featured_session c));
}.

Record page_words (m : deck_ai_page_view_model_t) : Prop := {
  words_hour : is_u8 (rtc_hour m);
  words_minute : is_u8 (rtc_minute m);
  words_temperature : is_i16 (calibrated_temperature_tenths_c m);
  words_bars : is_u8 (wifi_signal_bars m);
  words_utc : is_u64 (trusted_utc_ms m);
  words_codex : codex_words (codex m);
  words_providers : Forall provider_words (providers (pages m));
  words_selected : is_u8 (selected_provider m);
}.

Lemma mod_nonneg a b : 0 < b -> 0 <= a mod b.
Proof. intros Hb. by apply Z.mod_pos_bound. Qed.

Ltac nonneg :=
  repeat first [assumption | (apply Z.div_pos; [|lia]) | (apply mod_nonneg; lia)];
  try (unfold is_u8, is_u16, is_u32, is_u64 in *; lia).

(** Text that is put together from literals, numbers and plain text. *)
Ltac solve_plain :=
  repeat (unfold snprintf, print_padded, newline, kDivider; lazymatch goal with
  | H : plain ?t |- plain ?t => exact H
  | |- plain (_ ++ _) => apply plain_app
  | |- plain (take _ _) => apply plain_take
  | |- plain (drop _ _) => apply plain_drop
  | |- plain (print_u _) => apply plain_print_u; nonneg
  | |- plain (print_0u _ _) => apply plain_print_0u; nonneg
  | |- plain (replicate _ _) => by apply Forall_replicate
  | |- plain (literal _) => apply plain_check; vm_compute; reflexivity
  | |- plain (c_string _) => apply c_string_nonzero
  | |- plain [10] => apply plain_check; reflexivity
  | |- plain [] => apply Forall_nil_2
  | |- plain (if ?b then _ else _) => destruct b eqn:?; bool_prop
  | |- plain (match ?x with _ => _ end) => destruct x eqn:?
  | |- plain (let x := _ in _) => cbv zeta
  end).

(** ** Pieces of the page are plain *)

Lemma plain_compact_count n k : 0 <= n -> plain (compact_count n k).
Proof. intros. unfold compact_count. solve_plain. Qed.

Lemma plain_duration_text n k : 0 <= n -> plain (duration_text n k).
Proof. intros. unfold duration_text. solve_plain. Qed.

Lemma land_continuation b : continuation b = true -> b <> 0.
Proof. unfold continuation. intros H ->. done. Qed.

(** The bytes of one character. *)
Lemma plain_character (input : bytes) : input.[0] <> 0 ->
  forallb (fun offset => continuation input.[offset]) (seq 1 (utf8_sequence_size input.[0] - 1)) = true ->
  plain (take (utf8_sequence_size input.[0]) input).
Proof.
  intros H0 Hc. apply Forall_lookup. intros i b Hb. apply lookup_take_Some in Hb as [Hb Hi].
  assert (input.[i] = b) as <- by (unfold byte_at; by rewrite Hb).
  destruct i as [|i]; [done|]. apply land_continuation. apply (proj1 (forallb_forall _ _) Hc), in_seq. lia.
Qed.

Lemma display_loop_plain fuel capacity cells upper input output width t :
  plain output -> display_loop fuel capacity cells upper input output width = Some t -> plain t.
Proof.
  revert input output width. induction fuel as [|fuel IH]; intros input output width Ho H; [by simplify_eq/=|].
  cbn [display_loop] in H. cbv zeta in H. destruct (Z.eqb_spec input.[0] 0) as [|H0]; [by simplify_eq|].
  destruct (_ || _) eqn:Eg in H; [done|]. apply orb_false_iff in Eg as [_ Eg]. apply negb_false_iff in Eg.
  destruct (cells <? _)%nat; [by simplify_eq|]. destruct (capacity <=? _)%nat; [done|].
  apply IH in H; [done|]. apply plain_app; [done|]. destruct (utf8_sequence_size _ =? 1)%nat eqn:E1.
  - constructor; [|constructor]. case_match; bool_prop; lia.
  - by apply plain_character.
Qed.

Lemma display_text_plain input capacity cells upper t : display_text input capacity cells upper = Some t -> plain t.
Proof.
  unfold display_text. intros H. apply bind_Some in H as (o & Ho & H). case_match; [done|]. simplify_eq.
  eapply display_loop_plain; [|exact Ho]. constructor.
Qed.

Lemma local_time_words utc zone h mi : deck_ai_page_local_time_from_utc utc zone = Some (h, mi) -> 0 <= h /\ 0 <= mi.
Proof.
  unfold deck_ai_page_local_time_from_utc. intros H. case_match; [done|].
  apply bind_Some in H as (o & _ & H). simplify_eq. split; apply u8_range.
Qed.

Lemma plain_status_time m : page_words m -> plain (status_time m).
Proof.
  intros Hm. pose proof (words_hour _ Hm). pose proof (words_minute _ Hm). unfold status_time. cbv zeta.
  match goal with |- plain (match ?x with _ => _ end) => destruct x as [[h mi]|] eqn:E end.
  - assert (0 <= h /\ 0 <= mi) as [? ?] by (repeat case_match; try done; by eapply local_time_words). solve_plain.
  - solve_plain.
Qed.

Lemma plain_status m : page_words m ->
  plain (status_temperature m) /\ plain (status_wifi m) /\ plain (status_companion m).
Proof.
  intros Hm. pose proof (words_bars _ Hm). pose proof (words_temperature _ Hm).
  unfold status_temperature, status_wifi, status_companion. cbv zeta.
  pose proof (u32_range (if calibrated_temperature_tenths_c m <? 0 then - calibrated_temperature_tenths_c m
                         else calibrated_temperature_tenths_c m)).
  set (magnitude := u32 _) in *. clearbody magnitude. split_and!; solve_plain.
Qed.

Lemma plain_window_timing window now : window_words window -> plain (window_timing window now).
Proof.
  intros Hw. pose proof (words_minutes _ Hw). unfold window_timing. unfold is_u32 in *. solve_plain.
  - apply plain_duration_text. nonneg.
  - apply plain_duration_text. nonneg.
Qed.

(** ** The writer *)

Record writer_ok (capacity : nat) (w : Writer) : Prop := {
  ok_size : (List.length (text w) < capacity)%nat;
  ok_lines : lines w = S (count_lines (text w));
  ok_limit : (lines w <= DECK_AI_PAGE_MAX_LINES)%nat;
  ok_plain : plain (text w);
}.

Lemma count_lines_app a b : count_lines (a ++ b) = (count_lines a + count_lines b)%nat.
Proof. unfold count_lines. by rewrite List.filter_app, length_app. Qed.

Lemma append_keeps_ok capacity w t w' : writer_ok capacity w -> plain t -> append capacity w t = Some w' ->
  writer_ok capacity w' /\ text w' = text w ++ t.
Proof.
  intros Hw Ht. unfold append. destruct (_ || _) eqn:E; [done|]. cbn [lines]. case_match; [|done]. intros [= <-].
  bool_prop. destruct Hw as [Hs Hl Hm Hp]. split; [|done]. split; cbn [text lines].
  - rewrite length_app. lia.
  - rewrite count_lines_app. lia.
  - lia.
  - by apply plain_app.
Qed.

(** A step of the page. *)
Definition step_ok (capacity : nat) (f : Writer -> option Writer) : Prop :=
  forall w w', writer_ok capacity w -> f w = Some w' -> writer_ok capacity w'.

Lemma append_step capacity t : plain t -> step_ok capacity (fun w => append capacity w t).
Proof. intros Ht w w' Hw H. by eapply append_keeps_ok. Qed.

(** ** The page *)

Ltac steps H :=
  repeat lazymatch type of H with
  | _ ≫= _ = Some _ => let E := fresh "E" in apply bind_Some in H as (? & E & H)
  end.

Section page.
Context (capacity : nat).

Abbreviation ok := (writer_ok capacity).

(** The last step of a page. *)
Definition disarmed (w : Writer) : Prop := exists before, text w = before ++ literal "TX DISARMED".

Lemma append_last w t w' : ok w -> plain t -> append capacity w (t ++ literal "TX DISARMED") = Some w' ->
  ok w' /\ disarmed w'.
Proof.
  intros Hw Ht H. apply append_keeps_ok in H as [Hw' E]; [|done|solve_plain]. split; [done|]. exists (text w ++ t).
  by rewrite E, app_assoc.
Qed.

(** The last line, split off. *)
Ltac last_line H :=
  try change (literal "KEY: NEXT  TX DISARMED") with (literal "KEY: NEXT  " ++ literal "TX DISARMED") in H;
  rewrite ?app_assoc in H; eapply append_last in H; [exact H|assumption|solve_plain].

Lemma when_ok b f : step_ok capacity f -> step_ok capacity (when b f).
Proof. intros Hf w w' Hw H. unfold when in H. destruct b; [eauto|by simplify_eq]. Qed.

Lemma append_status_ok m w w' : page_words m -> ok w -> append_status capacity w m = Some w' ->
  ok w' /\ text w' = text w ++ status_time m ++ literal "  " ++ status_temperature m ++ literal "  WIFI "
             ++ status_wifi m ++ literal "  AGENT " ++ status_companion m ++ newline ++ kDivider ++ newline.
Proof.
  intros Hm Hw H. destruct (plain_status m Hm) as (? & ? & ?). pose proof (plain_status_time m Hm).
  apply append_keeps_ok in H as [? ?]; [done|done|]. solve_plain.
Qed.

Lemma append_window_ok window now : window_words window -> step_ok capacity (fun w => append_window capacity w window now).
Proof.
  intros Hwin w w' Hw H. unfold append_window in H. destruct (_ && _); [by simplify_eq|].
  apply bind_Some in H as (name & Hn & H). apply display_text_plain in Hn.
  pose proof (plain_window_timing window now Hwin). set (timing := window_timing window now) in *. clearbody timing.
  pose proof (words_used _ Hwin). pose proof (words_remaining _ Hwin). unfold is_u16 in *.
  destruct (has_remaining_basis_points window); cbv beta iota zeta in H; apply append_keeps_ok in H as [? _]; try done;
    unfold usage_bar; solve_plain.
Qed.

Lemma append_windows_ok more now ws : Forall window_words ws ->
  step_ok capacity (fun w => append_windows capacity more now w ws).
Proof.
  intros Hws. induction Hws as [|window ws Hwin _ IH]; intros w w' Hw H; simpl in H; [by simplify_eq|].
  destruct (negb _); [by simplify_eq|]. steps H. apply IH in H; [done|]. by eapply append_window_ok.
Qed.

Lemma plain_confidence c : plain (confidence_name c).
Proof. destruct c; apply plain_check; reflexivity. Qed.

Lemma plain_provider_status s : plain (provider_status_name s).
Proof. destruct s; apply plain_check; reflexivity. Qed.

Lemma plain_session_state s : plain (session_state_name s).
Proof. destruct s; apply plain_check; reflexivity. Qed.

Lemma append_updated_ok m p : page_words m -> provider_words p -> step_ok capacity (fun w => append_updated capacity w m p).
Proof.
  intros Hm Hp w w' Hw H. pose proof (words_utc _ Hm). pose proof (words_updated _ Hp). unfold is_u64 in *.
  unfold append_updated in H. destruct (_ && _) eqn:E; apply append_keeps_ok in H as [? _]; try done; bool_prop;
    solve_plain. apply plain_duration_text. nonneg.
Qed.

Lemma append_balance_ok p : step_ok capacity (fun w => append_balance capacity w p).
Proof.
  intros w w' Hw H. unfold append_balance in H. pose proof (u64_range (page_balance_amount_micros p + 5000)).
  set (x := u64 _) in *. clearbody x. cbv zeta in H. unfold is_u64 in *. apply append_keeps_ok in H as [? _]; try done. solve_plain.
Qed.

Lemma append_tokens_ok n : 0 <= n -> step_ok capacity (fun w => append_tokens capacity w n).
Proof. intros Hn. apply append_step. pose proof (plain_compact_count n 24 Hn). solve_plain. Qed.

Lemma append_error_ok p : step_ok capacity (fun w => append_error capacity w p).
Proof.
  intros w w' Hw H. unfold append_error in H. apply bind_Some in H as (t & Ht & H). apply display_text_plain in Ht.
  apply append_keeps_ok in H as [? _]; try done. solve_plain.
Qed.

Lemma provider_page_ok m p w w' : page_words m -> provider_words p -> ok w ->
  append_provider_page capacity w m p = Some w' -> ok w' /\ disarmed w'.
Proof.
  intros Hm Hp Hw H. unfold append_provider_page in H. apply bind_Some in H as (name & Hn & H).
  apply display_text_plain in Hn. apply bind_Some in H as (w1 & H1 & H).
  apply append_keeps_ok in H1 as [Hw1 _]; [|done|solve_plain]. apply bind_Some in H as (w2 & H2 & H).
  apply append_keeps_ok in H2 as [Hw2 _]; [|done|].
  2: { pose proof (plain_confidence (page_confidence p)). pose proof (plain_provider_status (page_status p)). solve_plain. }
  case_bool_decide.
  - apply bind_Some in H as (w3 & H3 & H).
    eapply when_ok in H3; [|apply append_step; solve_plain|exact Hw2]. last_line H.
  - cbv zeta in H. apply bind_Some in H as (w3 & H3 & H). apply append_updated_ok in H3; [|done..].
    apply bind_Some in H as (w4 & H4 & H). apply (when_ok _ _ (append_balance_ok p)) in H4; [|done].
    apply bind_Some in H as (w5 & H5 & H). apply append_windows_ok in H5; [|apply Hp|done].
    apply bind_Some in H as (w6 & H6 & H).
    apply (when_ok _ _ (append_tokens_ok (page_total_tokens p) (proj1 (words_tokens _ Hp)))) in H6; [|done].
    apply bind_Some in H as (w7 & H7 & H). apply (when_ok _ _ (append_error_ok p)) in H7; [|done].
    last_line H.
Qed.

Lemma session_title_plain s t : session_title s = Some t -> plain t.
Proof.
  unfold session_title. destruct (has_display_name s); [apply display_text_plain|].
  intros E. apply (inj Some) in E as <-. cbv zeta. solve_plain.
Qed.

Lemma append_metric_ok b metric : plain metric ->
  forall wh wh', ok wh.1 -> append_metric capacity b metric wh = Some wh' -> ok wh'.1.
Proof.
  intros Hp [w h] wh' Hw H. unfold append_metric in H. cbn in Hw. destruct b; [|by simplify_eq].
  apply bind_Some in H as (w1 & H1 & H). simplify_eq. apply append_keeps_ok in H1 as [? _]; try done. solve_plain.
Qed.

Lemma session_ok c w w' : codex_words c -> ok w -> append_session capacity w c = Some w' -> ok w' /\ disarmed w'.
Proof.
  intros Hc Hw H. unfold append_session in H. destruct (negb _).
  { last_line H. }
  apply bind_Some in H as (name & Hn & H). apply session_title_plain in Hn.
  apply bind_Some in H as (w1 & H1 & H). apply append_keeps_ok in H1 as [Hw1 _]; [|done|].
  2: { pose proof (plain_session_state (state (featured_session c))).
       pose proof (plain_confidence (confidence (featured_session c))). solve_plain. }
  pose proof (words_duration _ Hc) as Wd. pose proof (words_turn _ Hc) as Wt.
  pose proof (words_context _ Hc) as Wc. pose proof (words_session_count _ Hc) as Ws. unfold is_u64, is_u16, is_u8 in *.
  apply bind_Some in H as (w2 & H2 & H).
  eapply when_ok in H2; [|apply append_step, plain_app; [solve_plain|apply plain_duration_text; lia]|exact Hw1].
  apply bind_Some in H as (w3 & H3 & H). apply append_keeps_ok in H3 as [Hw3 _]; [|done|solve_plain].
  apply bind_Some in H as (a1 & A1 & H).
  apply append_metric_ok in A1; [|solve_plain; apply plain_compact_count; lia|done].
  apply bind_Some in H as (a2 & A2 & H). apply append_metric_ok in A2; [|solve_plain|done].
  apply bind_Some in H as ([w4 h] & A3 & H).
  assert (ok w4) as Hw4.
  { unfold append_metric in A3. destruct a2 as [w5 h5]. destruct (1 <? _) eqn:E; [|by simplify_eq].
    apply bind_Some in A3 as (w6 & H6 & A3). simplify_eq. bool_prop. apply append_keeps_ok in H6 as [? _]; try done. solve_plain. }
  destruct h; last_line H.
Qed.

Lemma codex_page_ok m w w' : page_words m -> ok w -> append_codex_page capacity w m = Some w' -> ok w' /\ disarmed w'.
Proof.
  intros Hm Hw H. pose proof (words_codex _ Hm) as Hc. pose proof (plain_confidence (provider_confidence (codex m))).
  unfold append_codex_page in H. cbv zeta in H. destruct (_ || _).
  { apply bind_Some in H as (w1 & H1 & H). apply append_keeps_ok in H1 as [Hw1 _]; [|done|solve_plain].
    apply bind_Some in H as (w2 & H2 & H). apply append_keeps_ok in H2 as [Hw2 _]; [|done|solve_plain].
    last_line H. }
  destruct (_ && _).
  { last_line H. }
  apply bind_Some in H as (w1 & H1 & H). apply append_keeps_ok in H1 as [Hw1 _]; [|done|solve_plain].
  apply bind_Some in H as (w2 & H2 & H). apply append_windows_ok in H2; [|apply Hc|done].
  apply bind_Some in H as (w3 & H3 & H).
  apply (when_ok _ _ (append_tokens_ok (total_tokens (codex m)) (proj1 (words_total_tokens _ Hc)))) in H3; [|done].
  apply bind_Some in H as (w4 & H4 & H). apply append_keeps_ok in H4 as [Hw4 _]; [|done|solve_plain].
  by eapply session_ok.
Qed.

Lemma hint_ok w w' : ok w -> append_configuration_hint capacity w = Some w' -> ok w' /\ disarmed w'.
Proof.
  intros Hw H. unfold append_configuration_hint in H. last_line H.
Qed.

Lemma shown_provider_words m p : page_words m -> shown_provider m = Some (Some p) -> provider_words p.
Proof.
  intros Hm. unfold shown_provider. cbv zeta. destruct (_ || _); [case_match; by intros|].
  intros H. apply bind_Some in H as (q & Hq & H). simplify_eq. case_match; [done|]. simplify_eq.
  eapply Forall_lookup_1; [apply (words_providers _ Hm)|exact Hq].
Qed.

End page.

Lemma format_ok m n t : page_words m -> deck_ai_page_view_model_format m n = Some t ->
  exists w, t = text w /\ writer_ok n w /\ disarmed w.
Proof.
  intros Hm H. unfold deck_ai_page_view_model_format in H. destruct (_ || _) eqn:E in H; [done|].
  destruct (_ <? _)%nat; [done|]. apply fmap_Some in H as (w & H & ->). exists w. split; [done|].
  apply bind_Some in H as (w1 & H1 & H). bool_prop. apply append_status_ok in H1 as [Hw1 _]; [|done|].
  2: { split; cbn; [lia|done|unfold DECK_AI_PAGE_MAX_LINES; lia|constructor]. }
  destruct (configuration_hint m); [by eapply hint_ok|].
  apply bind_Some in H as ([p|] & Hp & H); [|by eapply codex_page_ok].
  eapply provider_page_ok; [done|by eapply shown_provider_words|done|done].
Qed.

(** C37: A page that is formatted fits its buffer with a terminator, has at most
    thirteen lines and no NUL, and ends with the words that say that the
    transmitter is disarmed. *)
Theorem ai_pages_fit_and_are_disarmed m n t (Hm : page_words m) (Ht : deck_ai_page_view_model_format m n = Some t) :
  (List.length t < n)%nat /\ (S (count_lines t) <= DECK_AI_PAGE_MAX_LINES)%nat /\ plain t
  /\ exists before, t = before ++ literal "TX DISARMED".
Proof.
  destruct (format_ok m n t Hm Ht) as (w & -> & Hw & before & E).
  split; [apply Hw|]. split; [rewrite <- (ok_lines _ _ Hw); apply Hw|]. split; [apply Hw|]. by exists before.
Qed.

(** ** Without current data *)

(** What is not AI data: the names, and how they are qualified. *)
Definition blank_provider (p : deck_ai_snapshot_provider_projection_t) : deck_ai_snapshot_provider_projection_t :=
  {| page_provider_id := page_provider_id p; page_display_name := page_display_name p;
     page_status := DECK_AI_SNAPSHOT_PROVIDER_OK; page_confidence := page_confidence p;
     page_experimental := page_experimental p; page_has_updated_at := false; page_updated_at_unix_ms := 0;
     page_has_balance := false; page_balance_amount_micros := 0; page_balance_currency := [];
     page_windows := []; page_has_total_tokens := false; page_total_tokens := 0;
     page_has_error := false; page_error_code := [] |}.

Definition without_data m : deck_ai_page_view_model_t :=
  m <| codex := no_codex <| has_timezone := has_timezone (codex m) |> <| timezone := timezone (codex m) |> |>
    <| pages := {| pages_has_timezone := pages_has_timezone (pages m); pages_timezone := pages_timezone (pages m);
                   providers := map blank_provider (providers (pages m)) |} |>.

Lemma shown_provider_blank m : shown_provider (without_data m) = fmap (M := option) (option_map blank_provider) (shown_provider m).
Proof.
  unfold shown_provider, provider_count, without_data. cbn. rewrite length_map. destruct (_ || _).
  - by destruct (negb _).
  - change (map blank_provider (providers (pages m))) with (blank_provider <$> providers (pages m)).
    rewrite list_lookup_fmap. destruct (providers (pages m) !! _) as [p|]; [|done]. cbn.
    by destruct (strcmp_eq _ _).
Qed.

(** C38: When the snapshot is unavailable, the page is the one that would be shown
    if there were no AI data at all: no quota, token count, balance, session,
    update time or error of the old snapshot is in it. *)
Theorem unavailable_pages_show_no_data m n (Hs : snapshot_state m = DECK_AI_PAGE_SNAPSHOT_UNAVAILABLE)
    (Hw : (List.length (windows (codex m)) <= DECK_AI_SNAPSHOT_MAX_WINDOWS)%nat) :
  deck_ai_page_view_model_format m n = deck_ai_page_view_model_format (without_data m) n.
Proof.
  unfold deck_ai_page_view_model_format.
  change (active (without_data m)) with (active m). change (windows (codex (without_data m))) with (@nil deck_ai_snapshot_quota_projection_t).
  destruct (_ || _); [done|]. rewrite (proj2 (Nat.ltb_ge _ _)) by done. simpl Nat.ltb. cbv iota.
  change (append_status n {| text := []; lines := 1 |} (without_data m)) with (append_status n {| text := []; lines := 1 |} m).
  f_equal. destruct (append_status _ _ _) as [w|]; [|done]. simpl mbind.
  change (configuration_hint (without_data m)) with (configuration_hint m).
  destruct (configuration_hint m); [done|]. rewrite shown_provider_blank.
  destruct (shown_provider m) as [[p|]|]; [| |done]; simpl.
  - unfold append_provider_page. cbn [page_display_name blank_provider].
    destruct (display_text _ _ _ _); [|done]. simpl mbind. destruct (append _ _ _); [|done]. simpl mbind.
    change (snapshot_state (without_data m)) with (snapshot_state m). by rewrite Hs.
  - unfold append_codex_page. change (snapshot_state (without_data m)) with (snapshot_state m). by rewrite Hs.
Qed.

(** ** Witnesses *)

Definition sample_window : deck_ai_snapshot_quota_projection_t :=
  {| name := literal "5h"; has_used_basis_points := true; used_basis_points := 2500;
     has_remaining_basis_points := true; remaining_basis_points := 7500; has_window_minutes := true;
     window_minutes := 300; has_resets_at := false; resets_at_unix_ms := 0 |}.

Definition sample_codex : deck_ai_snapshot_codex_projection_t :=
  {| has_timezone := true; timezone := literal "Asia/Shanghai"; provider_present := true;
     provider_display_name := literal "Codex"; provider_status := DECK_AI_SNAPSHOT_PROVIDER_OK;
     provider_confidence := DECK_AI_SNAPSHOT_CONFIDENCE_VERIFIED; has_provider_updated_at := false;
     provider_updated_at_unix_ms := 0; windows := [sample_window]; has_total_tokens := true;
     total_tokens := 1234567; codex_session_count := 0; featured_session := no_session |}.

Definition sample_page (state : deck_ai_page_snapshot_state_t) : deck_ai_page_view_model_t :=
  {| active := true; rtc_available := false; rtc_hour := 0; rtc_minute := 0; temperature_available := true;
     calibrated_temperature_tenths_c := -25; wifi_state := DECK_AI_PAGE_WIFI_CONNECTED; wifi_signal_bars := 3;
     companion_state := DECK_AI_PAGE_COMPANION_ONLINE; snapshot_state := state; trusted_utc_ms := 1786624496000;
     codex := sample_codex; pages := no_pages; selected_provider := 0; configuration_hint := false |}.

Definition lines_of (ls : list bytes) : bytes :=
  match ls with [] => [] | l :: ls => l ++ flat_map (fun l => newline ++ l) ls end.

Lemma ai_pages_fit_and_are_disarmed_witness :
  let m := sample_page DECK_AI_PAGE_SNAPSHOT_FRESH in
  let t := lines_of [literal "20:34  -2.5C  WIFI 3/4  AGENT ON"; kDivider; literal "CODEX  VERIFIED";
                     literal "5H      [########--] R75% 5h00m"; literal "TOKEN 1.2M"; kDivider;
                     literal "NO CODEX SESSION"; literal "TX DISARMED"] in
  deck_ai_page_view_model_format m 1024 = Some t
  /\ (List.length t < 1024)%nat /\ (S (count_lines t) <= DECK_AI_PAGE_MAX_LINES)%nat /\ plain t
  /\ exists before, t = before ++ literal "TX DISARMED".
Proof.
  intros m t. assert (deck_ai_page_view_model_format m 1024 = Some t) as Ht by (vm_compute; reflexivity).
  split; [exact Ht|]. apply (ai_pages_fit_and_are_disarmed m 1024 t); [|exact Ht].
  split; try (vm_compute; split; discriminate); [|constructor].
  split; try (vm_compute; split; discriminate). constructor; [|constructor]. split; vm_compute; split; discriminate.
Defined.

Lemma unavailable_pages_show_no_data_witness :
  let m := sample_page DECK_AI_PAGE_SNAPSHOT_UNAVAILABLE in
  deck_ai_page_view_model_format m 1024 = deck_ai_page_view_model_format (without_data m) 1024.
Proof. intros m. apply (unavailable_pages_show_no_data m 1024); [reflexivity|]. apply Nat.leb_le. reflexivity. Defined.
