(* ===== verification/M0View.v ===== *)
(** * The active page

    [components/application_ui/deck_m0_view_model.cpp]: the diagnostics page,
    the serial page, the choice between them and the AI pages, and the
    comparison of models that decides whether the display is written again.

    As in AiPageView, the text a successful call leaves in the buffer is the
    result. *)

From Stdlib Require Import String.
From S2P Require Import Prelude CString Print AiPageView.

Inductive deck_button_event_t := DECK_BUTTON_NONE | DECK_BUTTON_SHORT_PRESS | DECK_BUTTON_LONG_PRESS.

Inductive deck_wifi_state_t := DECK_WIFI_UNAVAILABLE | DECK_WIFI_DISCONNECTED | DECK_WIFI_CONNECTED.

Inductive deck_wifi_config_view_state_t :=
  | DECK_WIFI_CONFIG_VIEW_NO_ACTIVE
  | DECK_WIFI_CONFIG_VIEW_ACTIVE
  | DECK_WIFI_CONFIG_VIEW_VALIDATING
  | DECK_WIFI_CONFIG_VIEW_AUTH_FAILED
  | DECK_WIFI_CONFIG_VIEW_TIMED_OUT
  | DECK_WIFI_CONFIG_VIEW_CONNECTION_FAILED
  | DECK_WIFI_CONFIG_VIEW_STORAGE_ERROR.

Inductive deck_wifi_record_view_status_t :=
  | DECK_WIFI_RECORD_VIEW_EMPTY
  | DECK_WIFI_RECORD_VIEW_VALID
  | DECK_WIFI_RECORD_VIEW_RECOVERED_PREVIOUS
  | DECK_WIFI_RECORD_VIEW_CORRUPT
  | DECK_WIFI_RECORD_VIEW_UNSUPPORTED_SCHEMA
  | DECK_WIFI_RECORD_VIEW_MIGRATION_FAILED
  | DECK_WIFI_RECORD_VIEW_IO_ERROR.

Inductive deck_setup_state_t := DECK_SETUP_UNAVAILABLE | DECK_SETUP_IDLE | DECK_SETUP_ACTIVE.

Inductive deck_serial_view_state_t :=
  | DECK_SERIAL_VIEW_UNAVAILABLE
  | DECK_SERIAL_VIEW_DISARMED
  | DECK_SERIAL_VIEW_USB_TX
  | DECK_SERIAL_VIEW_WEB_TX.

#[export] Instance button_event_eq_dec : EqDecision deck_button_event_t.
Proof. solve_decision. Defined.
#[export] Instance m0_wifi_state_eq_dec : EqDecision deck_wifi_state_t.
Proof. solve_decision. Defined.
#[export] Instance wifi_config_view_state_eq_dec : EqDecision deck_wifi_config_view_state_t.
Proof. solve_decision. Defined.
#[export] Instance wifi_record_view_status_eq_dec : EqDecision deck_wifi_record_view_status_t.
Proof. solve_decision. Defined.
#[export] Instance m0_setup_state_eq_dec : EqDecision deck_setup_state_t.
Proof. solve_decision. Defined.
#[export] Instance serial_view_state_eq_dec : EqDecision deck_serial_view_state_t.
Proof. solve_decision. Defined.

Record deck_serial_view_model_t := {
  serial_state : deck_serial_view_state_t;
  session_id : Z;
  owner_generation : Z;
  usb_tx_rejected : Z;
  uart_install_failures : Z;
  uart_fifo_overflows : Z;
  uart_driver_buffer_full : Z;
  uart_install_failed : bool;
  uart_installed : bool;
}.

(** [deck_data_source_t] *)
Definition DECK_DATA_UNAVAILABLE : Z := 0.
Definition DECK_DATA_SIMULATED : Z := 1.
Definition DECK_DATA_VERIFIED : Z := 2.

(** [firmware_version] is [None] when null. *)
Record deck_m0_view_model_t := {
  firmware_version : option bytes;
  data_source : Z;
  rtc_available : bool;
  rtc_hour : Z;
  rtc_minute : Z;
  rtc_error_count : Z;
  sensor_available : bool;
  raw_temperature_tenths_c : Z;
  calibrated_temperature_tenths_c : Z;
  humidity_tenths_percent : Z;
  sensor_error_count : Z;
  buttons_available : bool;
  key_event : deck_button_event_t;
  key_event_count : Z;
  boot_event : deck_button_event_t;
  boot_event_count : Z;
  wifi_state : deck_wifi_state_t;
  wifi_config_state : deck_wifi_config_view_state_t;
  wifi_record_status : deck_wifi_record_view_status_t;
  wifi_candidate_record_status : deck_wifi_record_view_status_t;
  wifi_config_generation : Z;
  setup_state : deck_setup_state_t;
  setup_ssid : bytes;
  setup_password : bytes;
  setup_address : bytes;
  refresh_count : Z;
  uptime_seconds : Z;
  minimum_free_heap_bytes : Z;
  ai_page : deck_ai_page_view_model_t;
  serial : deck_serial_view_model_t;
}.

Implicit Types (m : deck_m0_view_model_t) (s : deck_serial_view_model_t).

Definition button_event_name (event : deck_button_event_t) : bytes :=
  match event with
  | DECK_BUTTON_SHORT_PRESS => literal "短按"
  | DECK_BUTTON_LONG_PRESS => literal "长按"
  | DECK_BUTTON_NONE => literal "NONE"
  end.

Definition wifi_state_name (state : deck_wifi_state_t) : bytes :=
  match state with
  | DECK_WIFI_DISCONNECTED => literal "DISCONNECTED"
  | DECK_WIFI_CONNECTED => literal "CONNECTED"
  | DECK_WIFI_UNAVAILABLE => literal "UNAVAILABLE"
  end.

Definition setup_state_name (state : deck_setup_state_t) : bytes :=
  match state with
  | DECK_SETUP_ACTIVE => literal "ACTIVE"
  | DECK_SETUP_IDLE => literal "IDLE"
  | DECK_SETUP_UNAVAILABLE => literal "UNAVAILABLE"
  end.

Definition wifi_config_state_name (state : deck_wifi_config_view_state_t) : bytes :=
  match state with
  | DECK_WIFI_CONFIG_VIEW_ACTIVE => literal "ACTIVE"
  | DECK_WIFI_CONFIG_VIEW_VALIDATING => literal "VALIDATING"
  | DECK_WIFI_CONFIG_VIEW_AUTH_FAILED => literal "AUTH_FAILED"
  | DECK_WIFI_CONFIG_VIEW_TIMED_OUT => literal "TIMED_OUT"
  | DECK_WIFI_CONFIG_VIEW_CONNECTION_FAILED => literal "CONNECTION_FAILED"
  | DECK_WIFI_CONFIG_VIEW_STORAGE_ERROR => literal "STORAGE_ERROR"
  | DECK_WIFI_CONFIG_VIEW_NO_ACTIVE => literal "NO_ACTIVE"
  end.

Definition wifi_record_status_name (status : deck_wifi_record_view_status_t) : bytes :=
  match status with
  | DECK_WIFI_RECORD_VIEW_VALID => literal "VALID"
  | DECK_WIFI_RECORD_VIEW_RECOVERED_PREVIOUS => literal "RECOVERED"
  | DECK_WIFI_RECORD_VIEW_CORRUPT => literal "CORRUPT"
  | DECK_WIFI_RECORD_VIEW_UNSUPPORTED_SCHEMA => literal "UNSUPPORTED"
  | DECK_WIFI_RECORD_VIEW_MIGRATION_FAILED => literal "MIGRATION_FAILED"
  | DECK_WIFI_RECORD_VIEW_IO_ERROR => literal "IO_ERROR"
  | DECK_WIFI_RECORD_VIEW_EMPTY => literal "EMPTY"
  end.

Definition same_text (left_ right_ : option bytes) : bool :=
  match left_, right_ with
  | Some left_, Some right_ => strcmp_eq left_ right_
  | None, None => true
  | _, _ => false
  end.

Definition data_is_available (source : Z) : bool := (source =? DECK_DATA_SIMULATED) || (source =? DECK_DATA_VERIFIED).

(** ** The serial page *)

Definition serial_page_visible s : bool :=
  bool_decide (serial_state s = DECK_SERIAL_VIEW_USB_TX) || bool_decide (serial_state s = DECK_SERIAL_VIEW_WEB_TX).

Definition serial_owner_name (state : deck_serial_view_state_t) : bytes :=
  if bool_decide (state = DECK_SERIAL_VIEW_WEB_TX) then literal "WEB TX" else literal "USB TX".

Definition serial_equal (left right : deck_serial_view_model_t) : bool :=
  bool_decide (serial_state left = serial_state right) && (session_id left =? session_id right)
  && (owner_generation left =? owner_generation right) && (usb_tx_rejected left =? usb_tx_rejected right)
  && (uart_install_failures left =? uart_install_failures right)
  && (uart_fifo_overflows left =? uart_fifo_overflows right)
  && (uart_driver_buffer_full left =? uart_driver_buffer_full right)
  && Bool.eqb (uart_install_failed left) (uart_install_failed right)
  && Bool.eqb (uart_installed left) (uart_installed right).

Definition format_uart_error_count (count : Z) : bytes :=
  if 999999 <? count then literal "999999+" else snprintf 8 (print_u count).

(** [snprintf] into the caller's buffer, and the check that it fitted. *)
Definition fits (buffer_size : nat) (text : bytes) : option bytes :=
  if (List.length text <? buffer_size)%nat then Some text else None.

Definition serial_rule : bytes := literal "--------------------------------".

Definition serial_page_text s : bytes :=
  let fifo_overflows := format_uart_error_count (uart_fifo_overflows s) in
  let driver_buffer_full := format_uart_error_count (uart_driver_buffer_full s) in
  let uart_data_lost := negb (uart_fifo_overflows s =? 0) || negb (uart_driver_buffer_full s =? 0) in
  literal "SERIAL          " ++ serial_owner_name (serial_state s) ++ newline
  ++ (if uart_data_lost then literal "!! UART RX LOSS" else literal "UART RX OK") ++ literal " F" ++ fifo_overflows
  ++ literal " B" ++ driver_buffer_full ++ newline
  ++ serial_rule ++ newline
  ++ literal "115200  8N1  UART " ++ (if uart_installed s then literal "OK" else literal "FAULT") ++ newline
  ++ literal "SESSION #" ++ print_u (session_id s) ++ newline
  ++ literal "OWNER GEN " ++ print_u (owner_generation s) ++ newline
  ++ literal "USB REJECTED " ++ print_u (usb_tx_rejected s) ++ literal " B" ++ newline
  ++ literal "UART INSTALL ERR " ++ print_u (uart_install_failures s) ++ newline
  ++ literal "ROUTER ACTIVE / STATS LATEST" ++ newline
  ++ serial_rule ++ newline
  ++ literal "KEY: Stats    BOOT: Exit".

Definition format_serial_page s (buffer_size : nat) : option bytes :=
  if negb (serial_page_visible s) || (buffer_size =? 0)%nat then None else fits buffer_size (serial_page_text s).

(** ** The footer of the AI pages *)

Definition serial_footer s : bytes :=
  if bool_decide (serial_state s = DECK_SERIAL_VIEW_UNAVAILABLE) then literal "TX UNAVAILABLE"
  else if uart_install_failed s then literal "TX UART ERROR"
  else literal "TX DISARMED".

Definition placeholder : bytes := literal "TX DISARMED".

(** The offset of the first occurrence. *)
Fixpoint strstr (haystack needle : bytes) : option nat :=
  if bool_decide (take (List.length needle) haystack = needle) then Some 0%nat
  else match haystack with [] => None | _ :: haystack => S <$> strstr haystack needle end.

(** [buffer] is the text before the terminator. *)
Definition overlay_serial_footer s (buffer : bytes) (buffer_size : nat) : option bytes :=
  match strstr buffer placeholder with
  | None => Some buffer
  | Some prefix_size =>
      let replacement := serial_footer s in
      let old_size := List.length placeholder in
      let new_size := List.length replacement in
      let tail := drop (prefix_size + old_size) buffer in
      let tail_size := (List.length tail + 1)%nat in
      if (buffer_size <? prefix_size + new_size + tail_size)%nat then None
      else Some (take prefix_size buffer ++ replacement ++ tail)
  end.

(** ** The diagnostics page *)

Definition rtc_text m (available : bool) (rtc_state : bytes) : bytes :=
  if available && rtc_available m then
    print_0u 2 (rtc_hour m) ++ literal ":" ++ print_0u 2 (rtc_minute m) ++ literal " / 状态 " ++ rtc_state
    ++ literal " / RTC ERR " ++ print_u (rtc_error_count m)
  else literal "--:-- / 状态 UNAVAILABLE / RTC ERR " ++ print_u (rtc_error_count m).

Definition signed_tenths (value : Z) : bytes :=
  let magnitude := if value <? 0 then - value else value in
  (if value <? 0 then literal "-" else literal "+") ++ print_u (magnitude / 10) ++ literal "."
  ++ print_u (magnitude mod 10).

Definition sensor_text m (available : bool) : bytes :=
  if available && sensor_available m then
    literal "温度 RAW " ++ signed_tenths (raw_temperature_tenths_c m) ++ literal "C / CAL "
    ++ signed_tenths (calibrated_temperature_tenths_c m) ++ literal "C" ++ newline
    ++ literal "湿度 " ++ print_u (humidity_tenths_percent m / 10) ++ literal "."
    ++ print_u (humidity_tenths_percent m mod 10) ++ literal "% / SENSOR ERR " ++ print_u (sensor_error_count m)
  else
    literal "温度 RAW --.-C / CAL --.-C" ++ newline ++ literal "湿度 --.-% / SENSOR ERR " ++ print_u (sensor_error_count m).

Definition setup_text m : bytes :=
  literal "Wi-Fi " ++ wifi_state_name (wifi_state m) ++ literal " / CFG " ++ wifi_config_state_name (wifi_config_state m)
  ++ literal " #" ++ print_u (wifi_config_generation m) ++ literal " / REC "
  ++ wifi_record_status_name (wifi_record_status m) ++ literal "/"
  ++ wifi_record_status_name (wifi_candidate_record_status m)
  ++ (if bool_decide (setup_state m = DECK_SETUP_ACTIVE) then
        literal " / Setup ACTIVE" ++ newline ++ literal "AP " ++ c_string (setup_ssid m) ++ newline
        ++ literal "PASS " ++ c_string (setup_password m) ++ newline
        ++ literal "HTTP http://" ++ c_string (setup_address m)
      else literal " / Setup " ++ setup_state_name (setup_state m)).

Definition deck_m0_view_model_format m (buffer_size : nat) : option bytes :=
  firmware_version ← firmware_version m;
  if (buffer_size =? 0)%nat then None
  else
    let hours := uptime_seconds m / 3600 in
    let minutes := uptime_seconds m / 60 mod 60 in
    let seconds := uptime_seconds m mod 60 in
    let available := data_is_available (data_source m) in
    let '(source_suffix, rtc_state) :=
      if data_source m =? DECK_DATA_SIMULATED then (literal " [SIM]", literal "SIMULATED")
      else if data_source m =? DECK_DATA_VERIFIED then ([], literal "OK")
      else (literal " [UNAVAILABLE]", literal "UNAVAILABLE") in
    rtc ← fits 64 (rtc_text m available rtc_state);
    sensor ← fits 160 (sensor_text m available);
    setup ← fits 256 (setup_text m);
    fits buffer_size
      (literal "S3 RLCD Deck / M0 诊断" ++ source_suffix ++ newline
       ++ literal "FW " ++ c_string firmware_version ++ literal " / UP " ++ print_0u 2 hours ++ literal ":"
       ++ print_0u 2 minutes ++ literal ":" ++ print_0u 2 seconds ++ newline
       ++ literal "RTC " ++ rtc ++ newline
       ++ sensor ++ newline
       ++ literal "KEY " ++ (if available && buttons_available m then button_event_name (key_event m) else literal "UNAVAILABLE")
       ++ literal " #" ++ print_u (key_event_count m)
       ++ literal " / BOOT " ++ (if available && buttons_available m then button_event_name (boot_event m) else literal "UNAVAILABLE")
       ++ literal " #" ++ print_u (boot_event_count m) ++ newline
       ++ setup ++ newline
       ++ literal "刷新 " ++ print_u (refresh_count m) ++ literal " / 最低堆 "
       ++ print_u (minimum_free_heap_bytes m / 1024) ++ literal " KiB" ++ newline
       ++ literal "Companion 配对 M1").

(** ** The choice of the page *)

Definition ai_visible m : bool := active (ai_page m) && negb (bool_decide (setup_state m = DECK_SETUP_ACTIVE)).

(** The text, and [*ai_page_visible]. *)
Definition deck_m0_view_model_format_active_page m (buffer_size : nat) : option bytes * bool :=
  if serial_page_visible (serial m) then (format_serial_page (serial m) buffer_size, false)
  else if negb (ai_visible m) then (deck_m0_view_model_format m buffer_size, false)
  else
    (page ← deck_ai_page_view_model_format (ai_page m) buffer_size;
     overlay_serial_footer (serial m) page buffer_size, true).

Definition deck_m0_view_model_equal (left right : deck_m0_view_model_t) : bool :=
  let left_serial_visible := serial_page_visible (serial left) in
  let right_serial_visible := serial_page_visible (serial right) in
  if left_serial_visible || right_serial_visible then
    Bool.eqb left_serial_visible right_serial_visible && serial_equal (serial left) (serial right)
  else
    let left_ai_visible := ai_visible left in
    let right_ai_visible := ai_visible right in
    if left_ai_visible || right_ai_visible then
      Bool.eqb left_ai_visible right_ai_visible && deck_ai_page_view_model_equal (ai_page left) (ai_page right)
      && strcmp_eq (serial_footer (serial left)) (serial_footer (serial right))
    else
      same_text (firmware_version left) (firmware_version right)
      && (data_source left =? data_source right) && Bool.eqb (rtc_available left) (rtc_available right)
      && (rtc_hour left =? rtc_hour right) && (rtc_minute left =? rtc_minute right)
      && (rtc_error_count left =? rtc_error_count right)
      && Bool.eqb (sensor_available left) (sensor_available right)
      && (raw_temperature_tenths_c left =? raw_temperature_tenths_c right)
      && (calibrated_temperature_tenths_c left =? calibrated_temperature_tenths_c right)
      && (humidity_tenths_percent left =? humidity_tenths_percent right)
      && (sensor_error_count left =? sensor_error_count right)
      && Bool.eqb (buttons_available left) (buttons_available right)
      && bool_decide (key_event left = key_event right) && (key_event_count left =? key_event_count right)
      && bool_decide (boot_event left = boot_event right) && (boot_event_count left =? boot_event_count right)
      && bool_decide (wifi_state left = wifi_state right)
      && bool_decide (wifi_config_state left = wifi_config_state right)
      && bool_decide (wifi_record_status left = wifi_record_status right)
      && bool_decide (wifi_candidate_record_status left = wifi_candidate_record_status right)
      && (wifi_config_generation left =? wifi_config_generation right)
      && bool_decide (setup_state left = setup_state right)
      && bool_decide (setup_ssid left = setup_ssid right) && bool_decide (setup_password left = setup_password right)
      && bool_decide (setup_address left = setup_address right)
      && (refresh_count left =? refresh_count right) && (uptime_seconds left =? uptime_seconds right)
      && (minimum_free_heap_bytes left =? minimum_free_heap_bytes right).
