(* ===== verification/M0ViewSpec.v ===== *)
(** * What the active page shows

    The display is only left alone when it shows the same text already; an
    armed transmitter is always on the screen; the footer of the AI pages
    tells the state of the transmitter - unless a name on the page holds the
    words the footer is found by. *)

From Stdlib Require Import String.
From S2P Require Import Prelude CString Print SnapshotTime SnapshotProject AiPageView AiPageText M0View.

(** ** Models that are equal *)

Lemma strcmp_eq_spec a b : strcmp_eq a b = true <-> c_string a = c_string b.
Proof. apply bool_decide_eq_true. Qed.

Lemma ai_pages_equal l r : page_words l -> page_words r -> active l = true ->
  deck_ai_page_view_model_equal l r = true ->
  exists t, deck_ai_page_view_model_format l 1024 = Some t /\ deck_ai_page_view_model_format r 1024 = Some t.
Proof.
  intros Hl Hr Ha. unfold deck_ai_page_view_model_equal. rewrite Ha. destruct (negb _); [done|]. cbn [negb].
  destruct (deck_ai_page_view_model_format l 1024) as [t|] eqn:El; [|done].
  destruct (deck_ai_page_view_model_format r 1024) as [t'|] eqn:Er; [|done].
  intros E%strcmp_eq_spec. exists t. split; [done|].
  apply format_ok in El as (w & -> & Hw & _); [|done]. apply format_ok in Er as (w' & -> & Hw' & _); [|done].
  by rewrite !c_string_id in E by (by eapply ok_plain); rewrite E.
Qed.

(** C40: The presentation is skipped only for a model that gives the very text, and
    the very kind of page, that is on the display. *)
Theorem equal_models_look_alike l r (Hl : page_words (ai_page l)) (Hr : page_words (ai_page r))
    (He : deck_m0_view_model_equal l r = true) :
  deck_m0_view_model_format_active_page l 1024 = deck_m0_view_model_format_active_page r 1024.
Proof.
  unfold deck_m0_view_model_equal in He. unfold deck_m0_view_model_format_active_page. cbv zeta in He.
  destruct (serial_page_visible (serial l)) eqn:Vl, (serial_page_visible (serial r)) eqn:Vr; try discriminate He;
    cbn [orb Bool.eqb andb] in He.
  { f_equal. unfold format_serial_page. rewrite Vl, Vr. unfold serial_equal in He.
    destruct (serial l), (serial r). cbn in He. bool_prop.
    repeat match goal with H : Bool.eqb _ _ = true |- _ => apply eqb_prop in H end. by subst. }
  destruct (ai_visible l) eqn:Al, (ai_visible r) eqn:Ar; try discriminate He; cbn [orb Bool.eqb andb negb] in He |- *.
  - apply andb_true_iff in He as [He Hf]. apply strcmp_eq_spec in Hf.
    apply andb_true_iff in Al as [Al _].
    destruct (ai_pages_equal _ _ Hl Hr Al He) as (t & -> & ->). cbn. f_equal.
    assert (serial_footer (serial l) = serial_footer (serial r)) as E.
    { revert Hf. unfold serial_footer. repeat case_match; done. }
    unfold overlay_serial_footer. by rewrite E.
  - f_equal. destruct l, r. cbn in *. bool_prop.
    repeat match goal with H : Bool.eqb _ _ = true |- _ => apply eqb_prop in H end. subst.
    unfold deck_m0_view_model_format. cbn.
    repeat match goal with x : option bytes |- _ => destruct x end; try done; cbn.
    match goal with H : same_text (Some _) (Some _) = true |- _ => apply strcmp_eq_spec in H; rewrite H end. done.
Qed.

Definition sample_serial (state : deck_serial_view_state_t) (failed : bool) : deck_serial_view_model_t :=
  {| serial_state := state; session_id := 7; owner_generation := 3; usb_tx_rejected := 0; uart_install_failures := 1;
     uart_fifo_overflows := 0; uart_driver_buffer_full := 0; uart_install_failed := failed; uart_installed := false |}.

(** A model that shows the AI page [page]. *)
Definition sample_model (page : deck_ai_page_view_model_t) (s : deck_serial_view_model_t) (uptime : Z)
  : deck_m0_view_model_t :=
  {| firmware_version := Some (literal "1.0.0"); data_source := DECK_DATA_VERIFIED; rtc_available := true;
     rtc_hour := 9; rtc_minute := 5; rtc_error_count := 0; sensor_available := true; raw_temperature_tenths_c := 251;
     calibrated_temperature_tenths_c := -25; humidity_tenths_percent := 505; sensor_error_count := 0;
     buttons_available := true; key_event := DECK_BUTTON_SHORT_PRESS; key_event_count := 1;
     boot_event := DECK_BUTTON_NONE; boot_event_count := 0; wifi_state := DECK_WIFI_CONNECTED;
     wifi_config_state := DECK_WIFI_CONFIG_VIEW_ACTIVE; wifi_record_status := DECK_WIFI_RECORD_VIEW_VALID;
     wifi_candidate_record_status := DECK_WIFI_RECORD_VIEW_EMPTY; wifi_config_generation := 1;
     setup_state := DECK_SETUP_IDLE; setup_ssid := []; setup_password := []; setup_address := []; refresh_count := 2;
     uptime_seconds := uptime; minimum_free_heap_bytes := 65536; ai_page := page; serial := s |}.

Lemma sample_page_words state : page_words (sample_page state).
Proof.
  split; try (vm_compute; split; discriminate); [|constructor].
  split; try (vm_compute; split; discriminate). constructor; [|constructor]. split; vm_compute; split; discriminate.
Qed.

(** The uptime is not on the AI page. *)
Lemma equal_models_look_alike_witness :
  let model := sample_model (sample_page DECK_AI_PAGE_SNAPSHOT_FRESH) (sample_serial DECK_SERIAL_VIEW_DISARMED false) in
  deck_m0_view_model_equal (model 1) (model 2) = true
  /\ deck_m0_view_model_format_active_page (model 1) 1024 = deck_m0_view_model_format_active_page (model 2) 1024.
Proof.
  intros model. assert (deck_m0_view_model_equal (model 1) (model 2) = true) as He by (vm_compute; reflexivity).
  split; [exact He|]. exact (equal_models_look_alike (model 1) (model 2) (sample_page_words _) (sample_page_words _) He).
Defined.

(** ** An armed transmitter is on the screen *)

Lemma length_print_u n : (List.length (print_u n) <= 20)%nat.
Proof. apply length_digits. Qed.

Lemma length_error_count n : (List.length (format_uart_error_count n) <= 7)%nat.
Proof. unfold format_uart_error_count. case_match; [vm_compute; lia|]. unfold snprintf. rewrite length_take. lia. Qed.

Lemma serial_page_fits s : (List.length (serial_page_text s) < 1024)%nat.
Proof.
  unfold serial_page_text. cbv zeta.
  pose proof (length_error_count (uart_fifo_overflows s)). pose proof (length_error_count (uart_driver_buffer_full s)).
  pose proof (length_print_u (session_id s)). pose proof (length_print_u (owner_generation s)).
  pose proof (length_print_u (usb_tx_rejected s)). pose proof (length_print_u (uart_install_failures s)).
  rewrite !length_app.
  assert (List.length (serial_owner_name (serial_state s)) = 6%nat) as -> by (unfold serial_owner_name; by case_match).
  generalize dependent (print_u (session_id s)). generalize dependent (print_u (owner_generation s)).
  generalize dependent (print_u (usb_tx_rejected s)). generalize dependent (print_u (uart_install_failures s)).
  generalize dependent (format_uart_error_count (uart_fifo_overflows s)).
  generalize dependent (format_uart_error_count (uart_driver_buffer_full s)).
  intros. destruct (_ || _), (uart_installed s); cbn [List.length literal]; simpl; lia.
Qed.

(** The words the footer is found by are on the page only once. *)
Definition says_disarmed_once (page : bytes) : Prop :=
  strstr page placeholder = Some (List.length page - List.length placeholder)%nat.

Definition armed_page (owner : String.string) (result : option bytes * bool) : Prop :=
  exists rest, result = (Some (literal "SERIAL          " ++ literal owner ++ newline ++ rest), false).

(** What is shown, by the state of the transmitter. *)
Definition transmitter_shown m (result : option bytes * bool) : Prop :=
  match serial_state (serial m) with
  | DECK_SERIAL_VIEW_USB_TX => armed_page "USB TX" result
  | DECK_SERIAL_VIEW_WEB_TX => armed_page "WEB TX" result
  | _ =>
      result.2 = ai_visible m
      /\ forall t, ai_visible m = true -> result.1 = Some t ->
         exists before, deck_ai_page_view_model_format (ai_page m) 1024 = Some (before ++ placeholder)
           /\ (says_disarmed_once (before ++ placeholder) -> t = before ++ serial_footer (serial m))
  end.

Lemma overlay_once s before n t : says_disarmed_once (before ++ placeholder) ->
  overlay_serial_footer s (before ++ placeholder) n = Some t -> t = before ++ serial_footer s.
Proof.
  unfold says_disarmed_once, overlay_serial_footer. rewrite length_app, Nat.add_sub. intros ->. cbv zeta.
  case_match; [done|]. intros E. apply (inj Some) in E as <-.
  rewrite take_app_length, drop_ge; [by rewrite app_nil_r|]. by rewrite length_app.
Qed.

(** While somebody may transmit, the serial page says who, whatever else is in
    the model, and it always fits.  Otherwise the AI page ends with the state
    of the transmitter, if the words the footer is found by are not elsewhere
    on it. *)
Theorem transmitter_is_always_shown m (Hm : page_words (ai_page m)) :
  transmitter_shown m (deck_m0_view_model_format_active_page m 1024).
Proof.
  unfold transmitter_shown, deck_m0_view_model_format_active_page, serial_page_visible, armed_page.
  destruct (serial_state (serial m)) eqn:Es; cbn [bool_decide orb].
  1,2: rewrite !bool_decide_eq_false_2 by done; cbn [orb]; destruct (ai_visible m) eqn:Ev; cbn [negb fst snd];
    (split; [done|]); intros t Hv Ht; [|done];
    apply bind_Some in Ht as (page & Hp & Ht); destruct (format_ok _ _ _ Hm Hp) as (w & -> & _ & before & E);
    rewrite E in *; exists before; (split; [done|]); intros Ho; by eapply overlay_once.
  all: rewrite ?(bool_decide_eq_true_2 (DECK_SERIAL_VIEW_USB_TX = DECK_SERIAL_VIEW_USB_TX)) by done;
    rewrite ?(bool_decide_eq_true_2 (DECK_SERIAL_VIEW_WEB_TX = DECK_SERIAL_VIEW_WEB_TX)) by done;
    rewrite ?orb_true_r; cbn [orb]; unfold format_serial_page, serial_page_visible; rewrite Es;
    rewrite ?(bool_decide_eq_true_2 (DECK_SERIAL_VIEW_USB_TX = DECK_SERIAL_VIEW_USB_TX)) by done;
    rewrite ?(bool_decide_eq_true_2 (DECK_SERIAL_VIEW_WEB_TX = DECK_SERIAL_VIEW_WEB_TX)) by done;
    rewrite ?orb_true_r; cbn [orb negb]; unfold fits;
    rewrite (proj2 (Nat.ltb_lt _ _) (serial_page_fits (serial m))); unfold serial_page_text, serial_owner_name;
    rewrite Es; by eexists.
Qed.

Lemma transmitter_is_always_shown_witness :
  let m := sample_model (sample_page DECK_AI_PAGE_SNAPSHOT_FRESH) (sample_serial DECK_SERIAL_VIEW_DISARMED true) 1 in
  transmitter_shown m (deck_m0_view_model_format_active_page m 1024).
Proof. intros m. exact (transmitter_is_always_shown m (sample_page_words _)). Defined.

(** A session whose name is those words: the name is replaced, and the page
    goes on saying that the transmitter is disarmed when the UART has failed. *)
Definition spoofing_page : deck_ai_page_view_model_t :=
  (sample_page DECK_AI_PAGE_SNAPSHOT_FRESH)
    <| codex := sample_codex <| featured_session :=
         {| present := true; SnapshotProject.session_id := literal "s1"; has_display_name := true;
            display_name := literal "tx disarmed"; state := DECK_AI_SNAPSHOT_SESSION_RUNNING;
            confidence := DECK_AI_SNAPSHOT_CONFIDENCE_VERIFIED; has_last_activity_at := false;
            last_activity_at_unix_ms := 0; has_duration_seconds := false; duration_seconds := 0;
            has_turn_tokens := false; turn_tokens := 0; has_context_used_basis_points := false;
            context_used_basis_points := 0 |} |> |>.

Lemma footer_replaces_a_name :
  let m := sample_model spoofing_page (sample_serial DECK_SERIAL_VIEW_DISARMED true) 1 in
  serial_footer (serial m) = literal "TX UART ERROR"
  /\ exists before, deck_m0_view_model_format_active_page m 1024
       = (Some (before ++ lines_of [literal "TX UART ERROR"; literal "RUNNING / VERIFIED"; literal "TX DISARMED"]), true).
Proof.
  split; [reflexivity|].
  eexists (lines_of [literal "20:34  -2.5C  WIFI 3/4  AGENT ON"; kDivider; literal "CODEX  VERIFIED";
                     literal "5H      [########--] R75% 5h00m"; literal "TOKEN 1.2M"; kDivider] ++ newline).
  vm_compute. reflexivity.
Qed.
