(* ===== verification/AiPageTime.v ===== *)
(** * The local time of the status line

    The civil date of a day number, the Sundays that start and end summer
    time, and the rules of the time zones, against the calendar of
    SnapshotTime; and what stands in the status line. *)

From Stdlib Require Import String.
From S2P Require Import Prelude CString Print SnapshotTime SnapshotProject AiPageView.

(** ** The date of a day *)

(** Days of the first [y] years of an era; years begin in March. *)
Definition era_start (y : Z) : Z := 365 * y + y / 4 - y / 100.

(** The expression the year of the era is computed from. *)
Definition scaled (day_of_era : Z) : Z :=
  day_of_era - day_of_era / 1460 + day_of_era / 36524 - day_of_era / 146096.

Lemma scaled_mono a b : 0 <= a <= b -> b <= 146096 -> scaled a <= scaled b.
Proof. intros. unfold scaled. Z.div_mod_to_equations. lia. Qed.

(** The first and the last day of every year of the era give its number. *)
Lemma scaled_ends : forallb (fun y => (365 * y <=? scaled (era_start y))
  && (scaled (Z.min 146096 (era_start (y + 1) - 1)) <? 365 * (y + 1))) (map Z.of_nat (seq 0 400)) = true.
Proof. vm_compute. reflexivity. Qed.

Lemma scaled_year y doe : 0 <= y < 400 -> era_start y <= doe -> doe < era_start (y + 1) \/ y = 399 -> doe <= 146096 ->
  scaled doe / 365 = y.
Proof.
  intros Hy Hlo Hhi Hd. destruct (decide (doe = 146096)) as [->|Hne].
  { change (scaled 146096 / 365) with 399. destruct Hhi as [Hhi|]; [|done].
    exfalso. unfold era_start in Hhi. Z.div_mod_to_equations. lia. }
  pose proof scaled_ends as H. rewrite forallb_forall in H. specialize (H y).
  assert (In y (map Z.of_nat (seq 0 400))) as Hin.
  { apply in_map_iff. exists (Z.to_nat y). split; [lia|]. apply in_seq. lia. }
  apply H in Hin. clear H. bool_prop.
  assert (0 <= era_start y) by (unfold era_start; Z.div_mod_to_equations; lia).
  pose proof (scaled_mono (era_start y) doe ltac:(lia) Hd).
  assert (doe <= Z.min 146096 (era_start (y + 1) - 1)).
  { destruct Hhi as [Hhi| ->]; [lia|]. change (Z.min 146096 (era_start (399 + 1) - 1)) with 146095. lia. }
  pose proof (scaled_mono doe (Z.min 146096 (era_start (y + 1) - 1)) ltac:(lia) ltac:(lia)).
  symmetry. apply Z.div_unique with (scaled doe - 365 * y); lia.
Qed.

(** Every day of an era is in one year of it. *)
Lemma era_year doe : 0 <= doe <= 146096 ->
  exists y, 0 <= y < 400 /\ era_start y <= doe /\ (doe < era_start (y + 1) \/ y = 399).
Proof.
  intros Hd. assert (forall n, (n <= 400)%nat -> doe < era_start (Z.of_nat n) ->
    exists y, 0 <= y < 400 /\ era_start y <= doe /\ (doe < era_start (y + 1) \/ y = 399)) as Hall.
  { induction n as [|n IH]; intros Hn Hlt; [change (era_start (Z.of_nat 0)) with 0 in Hlt; lia|].
    destruct (decide (doe < era_start (Z.of_nat n))); [apply IH; lia|]. exists (Z.of_nat n).
    rewrite Nat2Z.inj_succ in Hlt. split; [lia|]. split; [lia|]. left. by rewrite Z.add_1_r. }
  destruct (decide (doe < era_start 400)); [by apply (Hall 400%nat)|].
  exists 399. split; [lia|]. split; [|by right]. unfold era_start in *. Z.div_mod_to_equations. lia.
Qed.

(** The year of a date that begins in March, and its month of that year. *)
Definition march_year (year month : Z) : Z := if 2 <? month then year else year - 1.
Definition march_month (month : Z) : Z := if 2 <? month then month - 3 else month + 9.

Lemma day_number_march year month day : 1970 <= year -> 1 <= month <= 12 ->
  day_number year month day = 365 * march_year year month + leap_days (march_year year month)
    + (153 * march_month month + 2) / 5 + (day - 1) - 719468.
Proof.
  intros Hy Hm. unfold day_number, march_year, march_month.
  rewrite days_before_month_closed, days_before_year_closed by done. rewrite Z2Nat.id by lia.
  change (leap_days 1969) with 477. replace (1969 + (year - 1970)) with (year - 1) by lia.
  destruct (2 <? month); [|lia]. rewrite (leap_days_step year). destruct (leap_year year); lia.
Qed.

(** A year that begins in March is as long as the February at its end. *)
Lemma era_year_leap e y : 0 <= y < 400 ->
  era_start (y + 1) - era_start y + (if y =? 399 then 1 else 0) = if leap_year (400 * e + y + 1) then 366 else 365.
Proof.
  intros Hy. unfold era_start, leap_year.
  replace ((400 * e + y + 1) mod 4) with ((y + 1) mod 4) by (Z.div_mod_to_equations; lia).
  replace ((400 * e + y + 1) mod 100) with ((y + 1) mod 100) by (Z.div_mod_to_equations; lia).
  replace ((400 * e + y + 1) mod 400) with ((y + 1) mod 400) by (Z.div_mod_to_equations; lia).
  destruct (Z.eqb_spec y 399) as [->|Hne]; [reflexivity|].
  destruct (Z.eqb_spec ((y + 1) mod 4) 0), (Z.eqb_spec ((y + 1) mod 100) 0), (Z.eqb_spec ((y + 1) mod 400) 0);
    cbn [negb andb orb]; Z.div_mod_to_equations; lia.
Qed.

(** Month and day from the day of a year that begins in March. *)
Lemma month_of_day doy leap : 0 <= doy < (if leap : bool then 366 else 365) ->
  let mp := (5 * doy + 2) / 153 in
  let day := doy - (153 * mp + 2) / 5 + 1 in
  let month := if mp <? 10 then mp + 3 else mp - 9 in
  0 <= mp <= 11 /\ 1 <= day /\ march_month month = mp /\ 1 <= month <= 12 /\ (month <=? 2) = negb (mp <? 10)
  /\ forall year, (month = 2 -> leap_year year = leap) -> day <= month_days year month.
Proof.
  intros Hd mp day month. assert (0 <= mp <= 11) as Hmp by (unfold mp; destruct leap; Z.div_mod_to_equations; lia).
  assert (doy - (153 * mp + 2) / 5 + 1 = day) as Ed by done. assert (153 * mp <= 5 * doy + 2 < 153 * mp + 153) as Hr
    by (unfold mp; Z.div_mod_to_equations; lia).
  subst month. clearbody day mp.
  assert (mp = 0 \/ mp = 1 \/ mp = 2 \/ mp = 3 \/ mp = 4 \/ mp = 5 \/ mp = 6 \/ mp = 7 \/ mp = 8 \/ mp = 9 \/ mp = 10 \/ mp = 11)
    as Hc by lia.
  destruct Hc as [->|[->|[->|[->|[->|[->|[->|[->|[->|[->|[->| ->]]]]]]]]]]]; cbn [Z.ltb Z.compare Pos.compare Pos.compare_cont];
    (split; [lia|]); (split; [Z.div_mod_to_equations; lia|]); (split; [reflexivity|]); (split; [lia|]); (split; [reflexivity|]);
    intros year Hl; unfold month_days; simpl.
  12: { rewrite (Hl eq_refl). destruct leap; Z.div_mod_to_equations; lia. }
  all: Z.div_mod_to_equations; lia.
Qed.

(** The days of the years up to 9999. *)
Definition last_day : Z := 2932896.

(** [civil_from_days] is the date of a day. *)
Lemma civil_from_days_spec d : 0 <= d <= last_day ->
  let date := civil_from_days d in
  1970 <= year date <= 9999 /\ 1 <= month date <= 12 /\ 1 <= day date <= month_days (year date) (month date)
  /\ day_number (year date) (month date) (day date) = d.
Proof.
  unfold last_day. intros Hd. unfold civil_from_days. rewrite (proj2 (Z.leb_le 0 (d + 719468))) by lia. rewrite Z.quot_div_nonneg by lia.
  set (e := (d + 719468) / 146097).
  assert (0 <= e <= 24) as He by (unfold e; Z.div_mod_to_equations; lia).
  assert (exists doe, d + 719468 - e * 146097 = doe /\ 0 <= doe <= 146096) as (doe & Edoe & Hdoe)
    by (eexists; split; [reflexivity|]; unfold e; Z.div_mod_to_equations; lia).
  rewrite Edoe, (u32_id doe) by words. clearbody e.
  assert (0 <= doe - doe / 1460 + doe / 36524 - doe / 146096 <= 200000) as Hs by (Z.div_mod_to_equations; lia).
  assert (0 <= doe - doe / 1460 <= 200000 /\ 0 <= doe - doe / 1460 + doe / 36524 <= 200000) as [Hs1 Hs2]
    by (Z.div_mod_to_equations; lia).
  rewrite (u32_id (doe - _)), (u32_id (_ + doe / 36524)), (u32_id (_ - doe / 146096)) by (unfold is_u32; lia).
  change (doe - doe / 1460 + doe / 36524 - doe / 146096) with (scaled doe).
  destruct (era_year doe Hdoe) as (y & Hy & Hlo & Hhi). rewrite (scaled_year y doe) by (done || lia). clear Hs Hs1 Hs2.
  assert (forall x, 0 <= x <= 2000000000 -> i32 x = x) as Hi by (intros; unfold i32; rewrite Z.mod_small; lia).
  rewrite (Hi y), (Hi (e * 400)) by lia. clear Hi.
  assert (0 <= y / 4 <= 100 /\ 0 <= y / 100 <= 4 /\ y / 100 <= y / 4) as (Hy4 & Hy100 & Hyy) by (Z.div_mod_to_equations; lia).
  rewrite (u32_id (365 * y)), (u32_id (365 * y + y / 4)), (u32_id (365 * y + y / 4 - y / 100)) by (unfold is_u32; lia).
  change (365 * y + y / 4 - y / 100) with (era_start y).
  pose proof (era_year_leap e y Hy) as Hlen.
  set (leap := leap_year (400 * e + y + 1)) in *.
  assert (0 <= doe - era_start y < if leap then 366 else 365) as Hdoy.
  { destruct (Z.eqb_spec y 399) as [->|Hne]; [change (era_start 399) with 145731 in *; change (era_start (399 + 1)) with 146096 in Hlen; destruct leap; lia|].
    destruct leap; lia. }
  rewrite (u32_id (doe - era_start y)) by (unfold is_u32; destruct leap; lia).
  set (doy := doe - era_start y) in *.
  destruct (month_of_day doy leap Hdoy) as (Hmp & Hday & Hmm & Hmon & Hfeb & Hmax). cbv zeta in *.
  assert (0 <= doy < 366) as Hdoy' by (destruct leap; lia).
  rewrite (u32_id (5 * doy)), (u32_id (5 * doy + 2)) by (unfold is_u32; lia). set (mp := (5 * doy + 2) / 153) in *.
  assert (0 <= (153 * mp + 2) / 5 <= doy) as Hdiv by (split; [Z.div_mod_to_equations; lia|lia]).
  rewrite (u32_id (153 * mp)), (u32_id (153 * mp + 2)), (u32_id (doy - _)), (u32_id (doy - _ + 1)) by (unfold is_u32; lia).
  assert ((if mp <? 10 then u32 (mp + 3) else u32 (mp - 9)) = if mp <? 10 then mp + 3 else mp - 9) as ->.
  { destruct (Z.ltb_spec mp 10); apply u32_id; unfold is_u32; lia. }
  set (mon := if mp <? 10 then mp + 3 else mp - 9) in *. cbn [year month day].
  set (yr := y + e * 400 + (if mon <=? 2 then 1 else 0)).
  assert (march_year yr mon = 400 * e + y) as Hmy.
  { unfold march_year, yr. destruct (Z.ltb_spec 2 mon), (Z.leb_spec mon 2); lia. }
  assert (mon = 2 -> leap_year yr = leap) as Hleap.
  { intros E. unfold leap, yr. rewrite E. simpl. f_equal. lia. }
  pose proof (era_days (400 * e + y) ltac:(lia)) as Hera.
  replace ((400 * e + y) / 400) with e in Hera by (Z.div_mod_to_equations; lia).
  replace ((400 * e + y) mod 400) with y in Hera by (Z.div_mod_to_equations; lia).
  change (365 * y + y / 4 - y / 100) with (era_start y) in Hera.
  assert (d + 719468 = e * 146097 + era_start y + doy) as Ed by (unfold doy; lia).
  assert (1970 <= yr <= 9999) as Hyr.
  { assert (mon <=? 2 = negb (mp <? 10)) as E by done. unfold yr. rewrite E.
    assert (mp <? 10 = (doy <=? 305)) as ->
      by (destruct (Z.ltb_spec mp 10), (Z.leb_spec doy 305); try done; unfold mp in *; Z.div_mod_to_equations; lia).
    clear - Ed Hd He Hy Hdoy'. unfold era_start in Ed.
    destruct (Z.leb_spec doy 305); cbn [negb]; Z.div_mod_to_equations; lia. }
  split; [exact Hyr|]. split; [exact Hmon|]. split; [split; [exact Hday|by apply Hmax]|].
  rewrite day_number_march by lia. rewrite Hmy, Hmm. lia.
Qed.

(** ** Sundays *)

(** Day 0 was a Thursday. *)
Definition next_sunday (d : Z) : Z := d + (- (d + 4)) mod 7.
Definition previous_sunday (d : Z) : Z := d - (d + 4) mod 7.

Lemma next_sunday_spec d : d <= next_sunday d < d + 7 /\ (next_sunday d + 4) mod 7 = 0.
Proof. unfold next_sunday. Z.div_mod_to_equations. lia. Qed.

Lemma previous_sunday_spec d : d - 7 < previous_sunday d <= d /\ (previous_sunday d + 4) mod 7 = 0.
Proof. unfold previous_sunday. Z.div_mod_to_equations. lia. Qed.

Lemma weekday_spec d : 0 <= d -> weekday_from_days d = (d + 4) mod 7.
Proof.
  intros Hd. unfold weekday_from_days. rewrite Z.rem_mod_nonneg by lia.
  rewrite (proj2 (Z.ltb_ge _ 0)) by (apply Z.mod_pos_bound; lia). apply u32_id. words.
Qed.

Lemma day_number_day y m d : day_number y m d = day_number y m 1 + (d - 1).
Proof. unfold day_number. lia. Qed.

Lemma day_number_nonneg y m : 1970 <= y -> 1 <= m <= 12 -> 0 <= day_number y m 1.
Proof.
  intros Hy Hm. unfold day_number.
  assert (forall n, 0 <= days_before_year n) as Ha
    by (induction n; cbn [days_before_year]; [lia|]; unfold year_days; destruct (leap_year _); lia).
  assert (forall n, (n <= 11)%nat -> 0 <= days_before_month y n) as Hb.
  { induction n; cbn [days_before_month]; intros; [lia|]. pose proof (month_days_bounds y (Z.of_nat n + 1) ltac:(lia)).
    specialize (IHn ltac:(lia)). lia. }
  specialize (Ha (Z.to_nat (y - 1970))). specialize (Hb (Z.to_nat (m - 1)) ltac:(lia)). lia.
Qed.

(** A day of a month, as the code counts it. *)
Lemma civil_day y m d : 1970 <= y <= 9999 -> 1 <= m <= 12 -> 1 <= d <= month_days y m ->
  AiPageView.days_from_civil y m d = day_number y m d.
Proof. apply days_from_civil_day_number. Qed.

Lemma nth_sunday_spec y m n : 1970 <= y <= 9999 -> 1 <= m <= 12 -> 1 <= n <= 4 ->
  1 <= nth_sunday y m n <= month_days y m
  /\ AiPageView.days_from_civil y m (nth_sunday y m n) = next_sunday (day_number y m (7 * n - 6)).
Proof.
  intros Hy Hm Hn. pose proof (month_days_bounds y m Hm) as Hb. pose proof (day_number_nonneg y m ltac:(lia) Hm) as H0.
  assert (nth_sunday y m n = 1 + (7 - (day_number y m 1 + 4) mod 7) mod 7 + (n - 1) * 7) as E.
  { unfold nth_sunday. rewrite civil_day, weekday_spec by lia.
    pose proof (Z.mod_pos_bound (day_number y m 1 + 4) 7 ltac:(lia)).
    set (w := (day_number y m 1 + 4) mod 7) in *. clearbody w. pose proof (Z.mod_pos_bound (7 - w) 7 ltac:(lia)).
    rewrite (u32_id (7 - w)), (u32_id (n - 1)), (u32_id ((n - 1) * 7)) by (unfold is_u32; lia).
    rewrite (u32_id (1 + _)) by (unfold is_u32; lia). apply u32_id. unfold is_u32. lia. }
  assert (1 <= nth_sunday y m n <= month_days y m) as Hr.
  { rewrite E. pose proof (Z.mod_pos_bound (7 - (day_number y m 1 + 4) mod 7) 7 ltac:(lia)). lia. }
  split; [exact Hr|]. rewrite civil_day by done. rewrite (day_number_day _ _ (nth_sunday y m n)), (day_number_day _ _ (7 * n - 6)), E.
  unfold next_sunday. generalize (day_number y m 1). intros z. Z.div_mod_to_equations. lia.
Qed.

Lemma last_sunday_spec y m d : 1970 <= y <= 9999 -> 1 <= m <= 12 -> 7 <= d <= month_days y m ->
  1 <= last_sunday y m d <= month_days y m
  /\ AiPageView.days_from_civil y m (last_sunday y m d) = previous_sunday (day_number y m d).
Proof.
  intros Hy Hm Hd. pose proof (day_number_nonneg y m ltac:(lia) Hm) as H0. pose proof (month_days_bounds y m Hm).
  assert (last_sunday y m d = d - (day_number y m d + 4) mod 7) as E.
  { unfold last_sunday. rewrite civil_day by lia. rewrite (day_number_day y m d). rewrite weekday_spec by lia.
    pose proof (Z.mod_pos_bound (day_number y m 1 + (d - 1) + 4) 7 ltac:(lia)). apply u32_id. unfold is_u32. lia. }
  pose proof (Z.mod_pos_bound (day_number y m d + 4) 7 ltac:(lia)).
  assert (1 <= last_sunday y m d <= month_days y m) as Hr by lia. split; [exact Hr|]. rewrite civil_day by done.
  rewrite (day_number_day _ _ (last_sunday y m d)), E. unfold previous_sunday. rewrite (day_number_day _ _ d). lia.
Qed.

(** ** Seasons *)

(** Summer time of the United States, by the offset of the zone in minutes:
    from the second Sunday of March to the first of November, at two o'clock. *)
Definition american_start (standard y : Z) : Z := next_sunday (day_number y 3 8) * 86400 + 2 * 3600 - standard * 60.
Definition american_end (standard y : Z) : Z :=
  next_sunday (day_number y 11 1) * 86400 + 2 * 3600 - (standard + 60) * 60.

(** Of Europe: from the last Sunday of March to the last of October, at one
    o'clock UTC. *)
Definition european_start (y : Z) : Z := previous_sunday (day_number y 3 31) * 86400 + 3600.
Definition european_end (y : Z) : Z := previous_sunday (day_number y 10 31) * 86400 + 3600.

(** The winter of Sydney: from the first Sunday of April to that of October, at
    two o'clock standard time. *)
Definition sydney_start (y : Z) : Z := next_sunday (day_number y 4 1) * 86400 + (2 - 10) * 3600.
Definition sydney_end (y : Z) : Z := next_sunday (day_number y 10 1) * 86400 + (2 - 10) * 3600.

Definition in_season (start end_ : Z -> Z) (utc : Z) : Prop :=
  exists y, 1970 <= y <= 9999 /\ start y <= utc < end_ y.

Definition american : list (bytes * Z) := [(literal "America/Los_Angeles", -480); (literal "America/New_York", -300)].
Definition european : list (bytes * Z) :=
  [(literal "Europe/London", 0); (literal "Europe/Berlin", 60); (literal "Europe/Paris", 60)].

(** The zones without summer time, by their distance from UTC in hours and
    minutes. *)
Inductive stands_at : bytes -> Z -> Z -> Prop :=
  | utc_stands zone : zone ∈ [literal "UTC"; literal "Etc/UTC"; literal "GMT"] -> stands_at zone 0 0
  | dubai_stands : stands_at (literal "Asia/Dubai") 4 0
  | kolkata_stands : stands_at (literal "Asia/Kolkata") 5 30
  | china_stands zone :
      zone ∈ [literal "Asia/Shanghai"; literal "Asia/Hong_Kong"; literal "Asia/Singapore"; literal "Asia/Taipei"] ->
      stands_at zone 8 0
  | tokyo_stands : stands_at (literal "Asia/Tokyo") 9 0
  | seoul_stands : stands_at (literal "Asia/Seoul") 9 0.

(** The offset in minutes that a zone observes at a time. *)
Inductive observes (utc : Z) : bytes -> Z -> Prop :=
  | observes_fixed zone hours minutes : stands_at zone hours minutes -> observes utc zone (hours * 60 + minutes)
  | observes_american_summer zone offset : (zone, offset) ∈ american ->
      in_season (american_start offset) (american_end offset) utc -> observes utc zone (offset + 60)
  | observes_american_winter zone offset : (zone, offset) ∈ american ->
      ~ in_season (american_start offset) (american_end offset) utc -> observes utc zone offset
  | observes_european_summer zone offset : (zone, offset) ∈ european ->
      in_season european_start european_end utc -> observes utc zone (offset + 60)
  | observes_european_winter zone offset : (zone, offset) ∈ european ->
      ~ in_season european_start european_end utc -> observes utc zone offset
  | observes_sydney_winter : in_season sydney_start sydney_end utc -> observes utc (literal "Australia/Sydney") 600
  | observes_sydney_summer : ~ in_season sydney_start sydney_end utc -> observes utc (literal "Australia/Sydney") 660.

(** The first second of a year. *)
Definition new_year (y : Z) : Z := day_number y 1 1 * 86400.

Lemma new_year_next y : 1970 <= y -> new_year (y + 1) = new_year y + year_days y * 86400.
Proof.
  intros Hy. unfold new_year, day_number. rewrite !Z.sub_diag. simpl days_before_month.
  replace (Z.to_nat (y + 1 - 1970)) with (S (Z.to_nat (y - 1970))) by lia. cbn [days_before_year].
  rewrite Z2Nat.id by lia. replace (1970 + (y - 1970)) with y by lia. lia.
Qed.

Lemma new_year_mono y y' : 1970 <= y <= y' -> new_year y <= new_year y'.
Proof.
  intros Hy. replace y' with (y + Z.of_nat (Z.to_nat (y' - y))) by lia. generalize (Z.to_nat (y' - y)) as n.
  induction n as [|n IH]; [rewrite Z.add_0_r; lia|]. rewrite Nat2Z.inj_succ, <- Z.add_1_r, Z.add_assoc.
  rewrite new_year_next by lia. unfold year_days. destruct (leap_year _); lia.
Qed.

(** Days of a month from the beginning of the year, at most a leap year's. *)
Lemma day_in_year y m : 1970 <= y -> 3 <= m <= 11 ->
  let d := (153 * (m - 3) + 2) / 5 + 59 in
  new_year y + d * 86400 <= day_number y m 1 * 86400 <= new_year y + (d + 1) * 86400
  /\ day_number y m 1 * 86400 = new_year (y + 1) - (306 - (153 * (m - 3) + 2) / 5) * 86400.
Proof.
  intros Hy Hm. cbv zeta. unfold new_year. rewrite !day_number_march by lia. unfold march_year, march_month.
  rewrite (proj2 (Z.ltb_lt 2 m)) by lia. change (2 <? 1) with false. cbv iota.
  replace (y + 1 - 1) with y by lia. rewrite (leap_days_step y). change ((153 * (1 + 9) + 2) / 5) with 306.
  destruct (leap_year y); lia.
Qed.

(** A season that lies within its year is that of the current year. *)
Lemma season_of_year start end_ Y utc :
  (forall y, 1970 <= y <= 9999 -> new_year y <= start y /\ end_ y <= new_year (y + 1)) ->
  1970 <= Y <= 9999 -> new_year Y <= utc < new_year (Y + 1) ->
  in_season start end_ utc <-> (start Y <=? utc) && (utc <? end_ Y) = true.
Proof.
  intros Hin HY Hu. transitivity (start Y <= utc < end_ Y); [|by rewrite andb_true_iff, Z.leb_le, Z.ltb_lt]. split; [|intros H; by exists Y]. intros (y & Hy & Hs). pose proof (Hin y Hy) as [H1 H2].
  assert (y = Y) as ->; [|done]. destruct (Z.lt_trichotomy y Y) as [Hlt|[->|Hlt]]; [|done|].
  - pose proof (new_year_mono (y + 1) Y ltac:(lia)). lia.
  - pose proof (new_year_mono (Y + 1) y ltac:(lia)). lia.
Qed.

(** The seasons lie within their years. *)
Lemma american_in_year standard y : -480 <= standard <= -300 -> 1970 <= y ->
  new_year y <= american_start standard y /\ american_end standard y <= new_year (y + 1).
Proof.
  intros Hs Hy. unfold american_start, american_end. rewrite (day_number_day y 3 8).
  pose proof (day_in_year y 3 Hy ltac:(lia)) as [H3 _]. pose proof (day_in_year y 11 Hy ltac:(lia)) as [_ H11].
  pose proof (next_sunday_spec (day_number y 3 1 + (8 - 1))). pose proof (next_sunday_spec (day_number y 11 1)).
  cbv zeta in *. Z.div_mod_to_equations. lia.
Qed.

Lemma european_in_year y : 1970 <= y -> new_year y <= european_start y /\ european_end y <= new_year (y + 1).
Proof.
  intros Hy. unfold european_start, european_end. rewrite (day_number_day y 3 31), (day_number_day y 10 31).
  pose proof (day_in_year y 3 Hy ltac:(lia)) as [H3 _]. pose proof (day_in_year y 10 Hy ltac:(lia)) as [_ H10].
  pose proof (previous_sunday_spec (day_number y 3 1 + (31 - 1))).
  pose proof (previous_sunday_spec (day_number y 10 1 + (31 - 1))).
  cbv zeta in *. Z.div_mod_to_equations. lia.
Qed.

Lemma sydney_in_year y : 1970 <= y -> new_year y <= sydney_start y /\ sydney_end y <= new_year (y + 1).
Proof.
  intros Hy. unfold sydney_start, sydney_end.
  pose proof (day_in_year y 4 Hy ltac:(lia)) as [H4 _]. pose proof (day_in_year y 10 Hy ltac:(lia)) as [_ H10].
  pose proof (next_sunday_spec (day_number y 4 1)). pose proof (next_sunday_spec (day_number y 10 1)).
  cbv zeta in *. Z.div_mod_to_equations. lia.
Qed.

(** A month lies within its year. *)
Lemma month_in_year y m : 1970 <= y -> 1 <= m <= 12 ->
  new_year y <= day_number y m 1 * 86400 /\ day_number y m 1 * 86400 + month_days y m * 86400 <= new_year (y + 1).
Proof.
  intros Hy Hm. unfold new_year. rewrite !day_number_march by lia. unfold march_year, march_month.
  change (2 <? 1) with false. cbv iota. replace (y + 1 - 1) with y by lia. rewrite (leap_days_step y).
  unfold month_days. pattern m.
  apply month_cases; [exact Hm|..]; cbn -[Z.mul Z.div leap_year leap_days];
    try (match goal with |- context [kDays !! ?i] => let d := eval vm_compute in (kDays !! i) in change (kDays !! i) with d end;
         cbn [from_option default id]);
    rewrite ?(leap_days_step y); destruct (leap_year y); Z.div_mod_to_equations; lia.
Qed.

(** The year of a time. *)
Lemma year_of utc : 0 <= utc < (last_day + 1) * 86400 ->
  let Y := year (civil_from_days (Z.quot utc 86400)) in
  1970 <= Y <= 9999 /\ new_year Y <= utc < new_year (Y + 1).
Proof.
  intros Hu. cbv zeta. unfold last_day in Hu. rewrite Z.quot_div_nonneg by lia. set (Y := year _).
  assert (0 <= utc / 86400 <= last_day) as Hd by (unfold last_day; Z.div_mod_to_equations; lia).
  destruct (civil_from_days_spec (utc / 86400) Hd) as (Hy & Hm & Hday & E). fold Y in Hy, Hday, E.
  split; [exact Hy|].
  assert (new_year Y <= utc / 86400 * 86400 < new_year (Y + 1)) as Hyear; [|unfold new_year in *; Z.div_mod_to_equations; lia].
  rewrite <- E. rewrite day_number_day. set (m := month _) in *. set (d := day _) in *. clearbody m d. clear E Hd.
  pose proof (month_in_year Y m ltac:(lia) Hm). lia.
Qed.

(** The remainder of a day, corrected as the code does. *)
Lemma rem_day x : (if Z.rem x 86400 <? 0 then Z.rem x 86400 + 86400 else Z.rem x 86400) = x mod 86400.
Proof.
  destruct (Z.ltb_spec (Z.rem x 86400) 0) as [H|H]; Z.to_euclidean_division_equations; lia.
Qed.

(** ** The offset of a zone *)

(** Case analysis on the zones of a list. *)
Ltac in_zones H := unfold kFixed, american, european in H;
  repeat (apply elem_of_cons in H as [[= -> ->]|H]); [..|by apply not_elem_of_nil in H].

Ltac in_names H := repeat (apply elem_of_cons in H as [->|H]); [..|by apply not_elem_of_nil in H].

Section Offsets.
Context (utc : Z) (Hutc : 0 <= utc < (last_day + 1) * 86400).

Let Y : Z := year (civil_from_days (Z.quot utc 86400)).

Lemma american_season standard : -480 <= standard <= -300 ->
  in_season (american_start standard) (american_end standard) utc
  <-> (american_start standard Y <=? utc) && (utc <? american_end standard Y) = true.
Proof.
  intros Hs. destruct (year_of utc Hutc). apply season_of_year; [|done|done].
  intros y Hy. apply american_in_year; lia.
Qed.

Lemma european_season : in_season european_start european_end utc
  <-> (european_start Y <=? utc) && (utc <? european_end Y) = true.
Proof. destruct (year_of utc Hutc). apply season_of_year; [|done|done]. intros y Hy. apply european_in_year; lia. Qed.

Lemma sydney_season : in_season sydney_start sydney_end utc
  <-> (sydney_start Y <=? utc) && (utc <? sydney_end Y) = true.
Proof. destruct (year_of utc Hutc). apply season_of_year; [|done|done]. intros y Hy. apply sydney_in_year; lia. Qed.

Lemma american_offset_spec (pacific : bool) : let standard := if pacific then -480 else -300 in
  american_offset pacific Y utc
  = standard + if (american_start standard Y <=? utc) && (utc <? american_end standard Y) then 60 else 0.
Proof.
  destruct (year_of utc Hutc) as [HY _]. fold Y in HY. cbv zeta. unfold american_offset, utc_seconds.
  rewrite (proj2 (nth_sunday_spec Y 3 2 HY ltac:(lia) ltac:(lia))), (proj2 (nth_sunday_spec Y 11 1 HY ltac:(lia) ltac:(lia))).
  change (7 * 2 - 6) with 8. change (7 * 1 - 6) with 1. unfold american_start, american_end.
  set (first := next_sunday _). set (last := next_sunday _). clearbody first last. destruct pacific.
  - change (u32 (2 - Z.quot (-480) 60)) with 10. change (u32 (2 - Z.quot (-480 + 60) 60)) with 9.
    case_match; case_match; bool_prop; lia.
  - change (u32 (2 - Z.quot (-300) 60)) with 7. change (u32 (2 - Z.quot (-300 + 60) 60)) with 6.
    case_match; case_match; bool_prop; lia.
Qed.

Lemma european_offset_spec (london : bool) : european_offset london Y utc
  = (if london then 0 else 60) + if (european_start Y <=? utc) && (utc <? european_end Y) then 60 else 0.
Proof.
  destruct (year_of utc Hutc) as [HY _]. fold Y in HY. unfold european_offset, utc_seconds.
  rewrite (proj2 (last_sunday_spec Y 3 31 HY ltac:(lia) ltac:(unfold month_days; simpl; lia))),
    (proj2 (last_sunday_spec Y 10 31 HY ltac:(lia) ltac:(unfold month_days; simpl; lia))).
  unfold european_start, european_end. by rewrite !Z.mul_1_l.
Qed.

Lemma sydney_offset_spec :
  sydney_offset Y utc = if (sydney_start Y <=? utc) && (utc <? sydney_end Y) then 600 else 660.
Proof.
  destruct (year_of utc Hutc) as [HY _]. fold Y in HY. unfold sydney_offset, utc_seconds.
  rewrite (proj2 (nth_sunday_spec Y 4 1 HY ltac:(lia) ltac:(lia))), (proj2 (nth_sunday_spec Y 10 1 HY ltac:(lia) ltac:(lia))).
  change (7 * 1 - 6) with 1. unfold sydney_start, sydney_end.
  set (first := next_sunday _). set (last := next_sunday _). clearbody first last.
  case_match; case_match; bool_prop; lia.
Qed.

(** The zones of [timezone_offset_minutes], on the text of the name. *)
Definition zone_offset (zone : bytes) : option Z :=
  match List.find (fun candidate => bool_decide (zone = candidate.1)) kFixed with
  | Some candidate => Some candidate.2
  | None =>
      if bool_decide (zone = literal "America/Los_Angeles") then Some (american_offset true Y utc)
      else if bool_decide (zone = literal "America/New_York") then Some (american_offset false Y utc)
      else if bool_decide (zone = literal "Europe/London") then Some (european_offset true Y utc)
      else if bool_decide (zone = literal "Europe/Berlin") || bool_decide (zone = literal "Europe/Paris")
           then Some (european_offset false Y utc)
      else if bool_decide (zone = literal "Australia/Sydney") then Some (sydney_offset Y utc)
      else None
  end.

Lemma zone_character timezone i zone : c_string timezone = zone -> (i <= List.length zone)%nat -> timezone.[i] = zone.[i].
Proof. intros E Hi. rewrite c_string_at by (unfold strlen; rewrite E; lia). by rewrite E. Qed.

Lemma timezone_offset_zone timezone : timezone_offset_minutes (Some timezone) utc = zone_offset (c_string timezone).
Proof.
  unfold timezone_offset_minutes, zone_offset. cbn [mbind option_bind]. unfold strcmp_eq. fold Y.
  replace (List.find (fun candidate => bool_decide (c_string timezone = c_string candidate.1)) kFixed)
    with (List.find (fun candidate => bool_decide (c_string timezone = candidate.1)) kFixed) by reflexivity.
  destruct (List.find _ kFixed); [done|].
  repeat match goal with |- context [c_string (literal ?s)] => change (c_string (literal s)) with (literal s) end.
  destruct (bool_decide_reflect (c_string timezone = literal "America/Los_Angeles")) as [E|_].
  { by rewrite (zone_character _ 8 _ E) by (vm_compute; lia). }
  destruct (bool_decide_reflect (c_string timezone = literal "America/New_York")) as [E|_].
  { by rewrite (zone_character _ 8 _ E) by (vm_compute; lia). }
  destruct (bool_decide_reflect (c_string timezone = literal "Europe/London")) as [E|_].
  { by rewrite (zone_character _ 7 _ E) by (vm_compute; lia). }
  destruct (bool_decide_reflect (c_string timezone = literal "Europe/Berlin")) as [E|_].
  { by rewrite (zone_character _ 7 _ E) by (vm_compute; lia). }
  destruct (bool_decide_reflect (c_string timezone = literal "Europe/Paris")) as [E|_]; [|done].
  by rewrite (zone_character _ 7 _ E) by (vm_compute; lia).
Qed.

(** What the northern zones and Sydney observe. *)
Lemma american_observed (pacific : bool) zone : (zone, if pacific then -480 else -300) ∈ american ->
  observes utc zone (american_offset pacific Y utc).
Proof.
  intros Hz. rewrite american_offset_spec.
  set (standard := if pacific then -480 else -300) in *.
  pose proof (american_season standard ltac:(unfold standard; destruct pacific; lia)) as Hs. destruct (_ && _).
  - by apply observes_american_summer; [|apply Hs].
  - rewrite Z.add_0_r. apply observes_american_winter; [done|]. by intros H%Hs.
Qed.

Lemma european_observed (london : bool) zone : (zone, if london then 0 else 60) ∈ european ->
  observes utc zone (european_offset london Y utc).
Proof.
  intros Hz. rewrite european_offset_spec. pose proof european_season as Hs. destruct (_ && _).
  - by apply observes_european_summer; [|apply Hs].
  - rewrite Z.add_0_r. apply observes_european_winter; [done|]. by intros H%Hs.
Qed.

Lemma sydney_observed : observes utc (literal "Australia/Sydney") (sydney_offset Y utc).
Proof.
  rewrite sydney_offset_spec. pose proof sydney_season as Hs. destruct (_ && _).
  - by apply observes_sydney_winter, Hs.
  - apply observes_sydney_summer. by intros H%Hs.
Qed.

Lemma fixed_stands name minutes : (name, minutes) ∈ kFixed -> exists h m, stands_at name h m /\ minutes = h * 60 + m.
Proof.
  intros Hz. in_zones Hz;
    first [exists 0, 0; split; [constructor; set_solver|reflexivity]|exists 8, 0; split; [constructor; set_solver|reflexivity]
          |eexists _, _; split; [constructor|reflexivity]].
Qed.

Lemma zone_offset_observed zone offset : zone_offset zone = Some offset -> observes utc zone offset.
Proof.
  unfold zone_offset. destruct (List.find _ kFixed) as [[name minutes]|] eqn:Ef.
  { apply List.find_some in Ef as [Hin Hz%bool_decide_eq_true]. intros [= <-]. cbn in Hz. subst.
    apply list_elem_of_In, fixed_stands in Hin as (h & m & Hs & ->). by apply observes_fixed. }
  clear Ef. repeat case_bool_decide; subst; cbn [orb]; intros E; try discriminate E;
    apply (inj Some) in E; rewrite <- E.
  all: clear -Hutc; lazymatch goal with
    | |- observes _ (literal "America/Los_Angeles") _ => apply (american_observed true); left
    | |- observes _ (literal "America/New_York") _ => apply (american_observed false); right; left
    | |- observes _ (literal "Europe/London") _ => apply (european_observed true); left
    | |- observes _ (literal "Europe/Berlin") _ => apply (european_observed false); right; left
    | |- observes _ (literal "Europe/Paris") _ => apply (european_observed false); right; right; left
    | |- _ => exact sydney_observed
    end.
Qed.

(** A zone observes one offset at a time. *)
Lemma observed_zone_offset zone offset : observes utc zone offset -> zone_offset zone = Some offset.
Proof.
  destruct 1 as [zone hours minutes Hz|zone offset Hz Hs|zone offset Hz Hs|zone offset Hz Hs|zone offset Hz Hs|Hs|Hs].
  - destruct Hz as [zone Hz| | |zone Hz| |]; try reflexivity; in_names Hz; reflexivity.
  - in_zones Hz; apply american_season in Hs; try lia.
    + change (Some (american_offset true Y utc) = Some (-480 + 60)). by rewrite american_offset_spec, Hs.
    + change (Some (american_offset false Y utc) = Some (-300 + 60)). by rewrite american_offset_spec, Hs.
  - in_zones Hz; rewrite american_season in Hs by lia; apply not_true_is_false in Hs.
    + change (Some (american_offset true Y utc) = Some (-480)). by rewrite american_offset_spec, Hs.
    + change (Some (american_offset false Y utc) = Some (-300)). by rewrite american_offset_spec, Hs.
  - apply european_season in Hs. in_zones Hz.
    + change (Some (european_offset true Y utc) = Some (0 + 60)). by rewrite european_offset_spec, Hs.
    + change (Some (european_offset false Y utc) = Some (60 + 60)). by rewrite european_offset_spec, Hs.
    + change (Some (european_offset false Y utc) = Some (60 + 60)). by rewrite european_offset_spec, Hs.
  - rewrite european_season in Hs. apply not_true_is_false in Hs. in_zones Hz.
    + change (Some (european_offset true Y utc) = Some 0). by rewrite european_offset_spec, Hs.
    + change (Some (european_offset false Y utc) = Some 60). by rewrite european_offset_spec, Hs.
    + change (Some (european_offset false Y utc) = Some 60). by rewrite european_offset_spec, Hs.
  - change (Some (sydney_offset Y utc) = Some 600). apply sydney_season in Hs. by rewrite sydney_offset_spec, Hs.
  - change (Some (sydney_offset Y utc) = Some 660). rewrite sydney_season in Hs. apply not_true_is_false in Hs.
    by rewrite sydney_offset_spec, Hs.
Qed.
End Offsets.

Lemma offset_bounds utc zone offset : observes utc zone offset -> -480 <= offset <= 660.
Proof. destruct 1 as [? ? ? Hz|? ? Hz ?|? ? Hz ?|? ? Hz ?|? ? Hz ?|?|?]; [destruct Hz; lia|..]; try in_zones Hz; lia. Qed.

Lemma local_time_iff utc_ms timezone h mi (Hu : 0 <= utc_ms < (last_day + 1) * 86400000) :
  deck_ai_page_local_time_from_utc utc_ms (Some timezone) = Some (h, mi)
  <-> exists offset, observes (utc_ms / 1000) (c_string timezone) offset
      /\ let s := (utc_ms / 1000 + offset * 60) mod 86400 in h = s / 3600 /\ mi = s / 60 mod 60.
Proof.
  set (utc := utc_ms / 1000). assert (0 <= utc < (last_day + 1) * 86400) as Hutc
    by (unfold utc, last_day in *; Z.div_mod_to_equations; lia).
  unfold deck_ai_page_local_time_from_utc. fold utc. rewrite (proj2 (Z.ltb_ge _ _)) by (unfold last_day in *; lia).
  rewrite timezone_offset_zone.
  assert (forall offset, let s := Z.rem (utc + offset * 60) 86400 in let s := if s <? 0 then s + 86400 else s in
    (u8 (Z.quot s 3600), u8 (Z.rem (Z.quot s 60) 60))
    = ((utc + offset * 60) mod 86400 / 3600, (utc + offset * 60) mod 86400 / 60 mod 60)) as Hclock.
  { intros offset. cbv zeta. rewrite rem_day. pose proof (Z.mod_pos_bound (utc + offset * 60) 86400 ltac:(lia)).
    set (s := _ mod 86400) in *. clearbody s. rewrite !Z.quot_div_nonneg, Z.rem_mod_nonneg by (Z.div_mod_to_equations; lia).
    f_equal; words. }
  split.
  - destruct (zone_offset utc _) as [offset|] eqn:Eo; [|done]. cbn [mbind option_bind]. intros E.
    exists offset. split; [by apply zone_offset_observed|]. cbv zeta in *.
    specialize (Hclock offset). injection E as <- <-. injection Hclock as -> ->. done.
  - intros (offset & Ho & Eh & Em). apply observed_zone_offset in Ho; [|done]. rewrite Ho. cbn [mbind option_bind].
    cbv zeta in *. f_equal. rewrite Hclock. by subst.
Qed.

(** ** The status line *)

(** The hour and the minute as a clock shows them. *)
Definition clock (h mi : Z) : bytes := [ch_0 + h / 10; ch_0 + h mod 10; 58; ch_0 + mi / 10; ch_0 + mi mod 10].

(** The zone of the documents: of the pages, or else of the projection for
    Codex. *)
Definition document_zone (m : deck_ai_page_view_model_t) : option bytes :=
  if pages_has_timezone (pages m) then Some (pages_timezone (pages m))
  else if has_timezone (codex m) then Some (timezone (codex m)) else None.

(** The documents name no zone whose rules are known. *)
Definition no_local_time (m : deck_ai_page_view_model_t) : Prop :=
  forall zone offset, document_zone m = Some zone -> ~ observes (trusted_utc_ms m / 1000) (c_string zone) offset.

Definition rtc_readable (m : deck_ai_page_view_model_t) : Prop :=
  rtc_available m = true /\ rtc_hour m <= 23 /\ rtc_minute m <= 59.

(** What stands where the time is: the local time, or else that of the clock
    chip, or else dashes. *)
Inductive shows_time (m : deck_ai_page_view_model_t) : bytes -> Prop :=
  | shows_local zone offset :
      document_zone m = Some zone -> observes (trusted_utc_ms m / 1000) (c_string zone) offset ->
      let s := (trusted_utc_ms m / 1000 + offset * 60) mod 86400 in shows_time m (clock (s / 3600) (s / 60 mod 60))
  | shows_rtc : no_local_time m -> rtc_readable m -> shows_time m (clock (rtc_hour m) (rtc_minute m))
  | shows_dashes : no_local_time m -> ~ rtc_readable m -> shows_time m (literal "--:--").

Lemma two_digits : forallb (fun n => bool_decide (print_0u 2 n = [ch_0 + n / 10; ch_0 + n mod 10])) (map Z.of_nat (seq 0 60)) = true.
Proof. vm_compute. reflexivity. Qed.

Lemma print_two n : 0 <= n < 60 -> print_0u 2 n = [ch_0 + n / 10; ch_0 + n mod 10].
Proof.
  intros Hn. pose proof two_digits as H. rewrite forallb_forall in H.
  assert (In n (map Z.of_nat (seq 0 60))) as Hin by (apply in_map_iff; exists (Z.to_nat n); split; [lia|]; apply in_seq; lia).
  by apply H, bool_decide_eq_true in Hin.
Qed.

Lemma printed_clock h mi : 0 <= h < 60 -> 0 <= mi < 60 ->
  snprintf 8 (print_0u 2 h ++ literal ":" ++ print_0u 2 mi) = clock h mi.
Proof. intros Hh Hm. by rewrite !print_two. Qed.

Lemma no_time_unobserved utc_ms zone offset (Hu : 0 <= utc_ms < (last_day + 1) * 86400000) :
  deck_ai_page_local_time_from_utc utc_ms (Some zone) = None -> ~ observes (utc_ms / 1000) (c_string zone) offset.
Proof.
  intros E Ho. pose proof (proj2 (local_time_iff utc_ms zone _ _ Hu)
    (ex_intro _ offset (conj Ho (conj eq_refl eq_refl)))) as E'. congruence.
Qed.

Lemma status_time_shown m (Hu : 0 <= trusted_utc_ms m < (last_day + 1) * 86400000) :
  is_u8 (rtc_hour m) -> is_u8 (rtc_minute m) -> shows_time m (status_time m).
Proof.
  intros Hh Hm. unfold status_time. fold (document_zone m).
  assert (no_local_time m -> shows_time m (if rtc_available m && (rtc_hour m <=? 23) && (rtc_minute m <=? 59)
    then snprintf 8 (print_0u 2 (rtc_hour m) ++ literal ":" ++ print_0u 2 (rtc_minute m)) else literal "--:--")) as Hrtc.
  { intros Hno. destruct (_ && _) eqn:E.
    - bool_prop. destruct_and?. rewrite printed_clock by words. by apply shows_rtc.
    - apply shows_dashes; [done|]. intros (E1 & E2 & E3). rewrite E1, (proj2 (Z.leb_le _ _) E2), (proj2 (Z.leb_le _ _) E3) in E. done. }
  destruct (document_zone m) as [zone|] eqn:Ez; [|apply Hrtc; intros zone offset Ez'; congruence].
  destruct (deck_ai_page_local_time_from_utc _ _) as [[h mi]|] eqn:El.
  - apply local_time_iff in El as (offset & Ho & -> & ->); [|done].
    rewrite printed_clock by (Z.div_mod_to_equations; lia). by apply (shows_local m zone offset).
  - apply Hrtc. intros zone' offset E. rewrite Ez in E. injection E as <-. by apply no_time_unobserved.
Qed.


(** New York, at half past seven in the morning of a day in July; and a page
    without a zone, at noon by the clock chip. *)
Definition zoneless_page : deck_ai_page_view_model_t :=
  {| active := true; rtc_available := true; rtc_hour := 12; rtc_minute := 0; temperature_available := false;
     calibrated_temperature_tenths_c := 0; wifi_state := DECK_AI_PAGE_WIFI_DISCONNECTED; wifi_signal_bars := 0;
     companion_state := DECK_AI_PAGE_COMPANION_OFFLINE; snapshot_state := DECK_AI_PAGE_SNAPSHOT_FRESH;
     trusted_utc_ms := 0; codex := no_codex; pages := no_pages; selected_provider := 0;
     configuration_hint := false |}.

