(* ===== verification/SetupHttp.v ===== *)
(** * Requests and status of the setup portal

    [components/setup_mode/deck_setup_http.cpp]: the route table, the address
    checks, the parsers of the form bodies, and the JSON status document.  The
    page itself is a constant.

    A body is the list of its bytes.  What a failed call leaves in its output
    arguments is not read by its callers and not part of a result. *)

From Stdlib Require Import String.
From S2P Require Import Prelude CString Print ProfileText SetupMode SetupConfirmation WifiConfig DeviceSettings CompanionProfiles.

Definition DECK_SETUP_SCAN_SSID_CAPACITY : nat := 33.
Definition DECK_SETUP_PAIR_ACK_SIZE : nat := 16.

(** ** Routes *)

Inductive deck_setup_http_route_t :=
  | DECK_SETUP_HTTP_NOT_FOUND
  | DECK_SETUP_HTTP_METHOD_NOT_ALLOWED
  | DECK_SETUP_HTTP_PAGE
  | DECK_SETUP_HTTP_STATUS
  | DECK_SETUP_HTTP_SCAN
  | DECK_SETUP_HTTP_WIFI
  | DECK_SETUP_HTTP_TEMPERATURE
  | DECK_SETUP_HTTP_WIFI_CLEAR_REQUEST
  | DECK_SETUP_HTTP_WIFI_CLEAR_CONFIRM
  | DECK_SETUP_HTTP_COMPANION_PAIR
  | DECK_SETUP_HTTP_COMPANION_PAIR_ACK
  | DECK_SETUP_HTTP_COMPANION_SELECT
  | DECK_SETUP_HTTP_COMPANION_PRIORITY
  | DECK_SETUP_HTTP_COMPANION_REVOKE.

Inductive deck_setup_http_method_t := DECK_SETUP_HTTP_GET | DECK_SETUP_HTTP_POST.

#[export] Instance http_route_eq_dec : EqDecision deck_setup_http_route_t.
Proof. solve_decision. Defined.
#[export] Instance http_method_eq_dec : EqDecision deck_setup_http_method_t.
Proof. solve_decision. Defined.

Record deck_setup_http_route_spec_t := {
  route : deck_setup_http_route_t;
  method : deck_setup_http_method_t;
  path : bytes;
}.

Definition kRoutes : list deck_setup_http_route_spec_t := [
  {| route := DECK_SETUP_HTTP_PAGE; method := DECK_SETUP_HTTP_GET; path := literal "/" |};
  {| route := DECK_SETUP_HTTP_STATUS; method := DECK_SETUP_HTTP_GET; path := literal "/api/status" |};
  {| route := DECK_SETUP_HTTP_SCAN; method := DECK_SETUP_HTTP_POST; path := literal "/api/scan" |};
  {| route := DECK_SETUP_HTTP_WIFI; method := DECK_SETUP_HTTP_POST; path := literal "/api/wifi" |};
  {| route := DECK_SETUP_HTTP_TEMPERATURE; method := DECK_SETUP_HTTP_POST; path := literal "/api/temperature" |};
  {| route := DECK_SETUP_HTTP_WIFI_CLEAR_REQUEST; method := DECK_SETUP_HTTP_POST;
     path := literal "/api/wifi/clear/request" |};
  {| route := DECK_SETUP_HTTP_WIFI_CLEAR_CONFIRM; method := DECK_SETUP_HTTP_POST;
     path := literal "/api/wifi/clear/confirm" |};
  {| route := DECK_SETUP_HTTP_COMPANION_PAIR; method := DECK_SETUP_HTTP_POST;
     path := literal "/api/companions/pair" |};
  {| route := DECK_SETUP_HTTP_COMPANION_PAIR_ACK; method := DECK_SETUP_HTTP_POST;
     path := literal "/api/companions/pair/ack" |};
  {| route := DECK_SETUP_HTTP_COMPANION_SELECT; method := DECK_SETUP_HTTP_POST;
     path := literal "/api/companions/select" |};
  {| route := DECK_SETUP_HTTP_COMPANION_PRIORITY; method := DECK_SETUP_HTTP_POST;
     path := literal "/api/companions/priority" |};
  {| route := DECK_SETUP_HTTP_COMPANION_REVOKE; method := DECK_SETUP_HTTP_POST;
     path := literal "/api/companions/revoke" |}].

(** [None] is a null pointer. *)
Definition deck_setup_http_route (method_ path_ : option bytes) : deck_setup_http_route_t :=
  match method_, path_ with
  | Some method_, Some path_ =>
      match List.find (fun route => strcmp_eq path_ (path route)) kRoutes with
      | Some r =>
          let expected_method :=
            if bool_decide (method r = DECK_SETUP_HTTP_GET) then literal "GET" else literal "POST" in
          if strcmp_eq method_ expected_method then route r else DECK_SETUP_HTTP_METHOD_NOT_ALLOWED
      | None => DECK_SETUP_HTTP_NOT_FOUND
      end
  | _, _ => DECK_SETUP_HTTP_NOT_FOUND
  end.

(** ** Addresses *)

Definition kIpv4MappedPrefix : bytes := [0; 0; 0; 0; 0; 0; 0; 0; 0; 0; 0xff; 0xff].
Definition kSetupGateway : bytes := [192; 168; 4; 1].

(** The address is its [address_size] bytes. *)
Definition deck_setup_http_extract_ipv4 (address : bytes) : option bytes :=
  if (List.length address =? 16)%nat then
    if negb (bool_decide (take 12 address = kIpv4MappedPrefix)) then None
    else Some (take 4 (drop 12 address))
  else if negb (List.length address =? 4)%nat then None
  else Some (take 4 address).

Definition deck_setup_http_address_is_setup_gateway (local_address : bytes) : bool :=
  match deck_setup_http_extract_ipv4 local_address with
  | None => false
  | Some local_ipv4 => bool_decide (local_ipv4 = kSetupGateway)
  end.

(** ** Scan results *)

Record deck_setup_scan_result_t := { scan_ssid : bytes; scan_rssi : Z; scan_secure : bool }.

(** [observed_ssid] is [None] for a null pointer, and has [observed_size]
    bytes otherwise. *)
Record deck_setup_scan_observation_t := {
  observed_ssid : option bytes;
  observed_size : nat;
  observed_rssi : Z;
  observed_secure : bool;
}.

Definition convert_observation (o : deck_setup_scan_observation_t) : option deck_setup_scan_result_t :=
  match observed_ssid o with
  | None =>
      if negb (observed_size o =? 0)%nat then None
      else Some {| scan_ssid := replicate DECK_SETUP_SCAN_SSID_CAPACITY 0; scan_rssi := observed_rssi o;
                   scan_secure := observed_secure o |}
  | Some ssid =>
      let copy_size := if (observed_size o <? DECK_SETUP_SCAN_SSID_CAPACITY - 1)%nat then observed_size o
                       else (DECK_SETUP_SCAN_SSID_CAPACITY - 1)%nat in
      Some {| scan_ssid := pad DECK_SETUP_SCAN_SSID_CAPACITY (take copy_size ssid); scan_rssi := observed_rssi o;
              scan_secure := observed_secure o |}
  end.

Definition deck_setup_http_convert_scan_results (observations : list deck_setup_scan_observation_t)
    (result_capacity : nat) : option (list deck_setup_scan_result_t) :=
  let count := if (List.length observations <? result_capacity)%nat then List.length observations
               else result_capacity in
  mapM convert_observation (take count observations).

(** ** Forms *)

Definition hex_value (value : Z) : Z :=
  if (ch_0 <=? value) && (value <=? ch_9) then value - ch_0
  else if (ch_a <=? value) && (value <=? 102) then value - ch_a + 10
  else if (ch_A <=? value) && (value <=? 70) then value - ch_A + 10
  else -1.

(** The last lines of a turn: the decoded byte is refused or written. *)
Definition decoded_byte (output_capacity : nat) (output : bytes) (byte : Z) : option bytes :=
  if (byte <? 0x20) || (byte =? 0x7f) || (output_capacity <=? List.length output + 1)%nat then None
  else Some (output ++ [byte]).

Fixpoint decode_loop (input : bytes) (output_capacity : nat) (output : bytes) : option bytes :=
  match input with
  | [] => Some output
  | byte :: rest =>
      if byte =? 37 then
        match rest with
        | first :: second :: rest =>
            let high := hex_value first in
            let low := hex_value second in
            if (high <? 0) || (low <? 0) then None
            else
              output ← decoded_byte output_capacity output (u8 (Z.lor (Z.shiftl high 4) low));
              decode_loop rest output_capacity output
        | _ => None
        end
      else
        output ← decoded_byte output_capacity output (if byte =? 43 then 32 else byte);
        decode_loop rest output_capacity output
  end.

Definition decode_form_component (input : bytes) (output_capacity : nat) : option bytes :=
  if (output_capacity =? 0)%nat then None else decode_loop input output_capacity [].

(** The number of bytes before the first [ch], or of all bytes. *)
Fixpoint scan_to (ch : Z) (input : bytes) : nat :=
  match input with
  | [] => O
  | byte :: rest => if byte =? ch then O else S (scan_to ch rest)
  end.

(** The loop over the members of a form that both form parsers have.  [member]
    stores a value under a decoded key; one turn consumes a byte or more. *)
Fixpoint form_loop {S : Type} (key_capacity : nat) (member : bytes -> bytes -> S -> option S) (fuel : nat)
    (body : bytes) (state : S) : option S :=
  match fuel with
  | O => Some state
  | Datatypes.S fuel =>
      match body with
      | [] => Some state
      | _ =>
          let end_ := scan_to 38 body in
          let component := take end_ body in
          let equals := scan_to 61 component in
          if (equals =? end_)%nat then None
          else
            key ← decode_form_component (take equals component) key_capacity;
            state ← member key (drop (equals + 1) component) state;
            form_loop key_capacity member fuel (drop (end_ + 1) body) state
      end
  end.

Inductive deck_setup_wifi_request_result_t :=
  | DECK_SETUP_WIFI_REQUEST_OK
  | DECK_SETUP_WIFI_REQUEST_MALFORMED
  | DECK_SETUP_WIFI_REQUEST_INVALID_SSID
  | DECK_SETUP_WIFI_REQUEST_INVALID_PASSWORD.

(** [None] before [saw_ssid] or [saw_password]. *)
Record wifi_form := { form_ssid : option bytes; form_password : option bytes }.

Definition wifi_member (key value : bytes) (form : wifi_form) : option wifi_form :=
  if strcmp_eq key (literal "ssid") then
    match form_ssid form with
    | Some _ => None
    | None =>
        ssid ← decode_form_component value DECK_WIFI_SSID_CAPACITY;
        Some {| form_ssid := Some ssid; form_password := form_password form |}
    end
  else if strcmp_eq key (literal "password") then
    match form_password form with
    | Some _ => None
    | None =>
        if (List.length value =? 0)%nat then
          Some {| form_ssid := form_ssid form; form_password := Some [] |}
        else
          password ← decode_form_component value DECK_WIFI_PASSWORD_CAPACITY;
          Some {| form_ssid := form_ssid form; form_password := Some password |}
    end
  else None.

Definition deck_setup_http_parse_wifi_request (body : bytes)
  : deck_setup_wifi_request_result_t * option deck_wifi_credentials_t :=
  if (List.length body =? 0)%nat || (256 <? List.length body)%nat then (DECK_SETUP_WIFI_REQUEST_MALFORMED, None)
  else
    match form_loop 16 wifi_member (List.length body) body {| form_ssid := None; form_password := None |} with
    | Some {| form_ssid := Some ssid; form_password := Some password |} =>
        let ssid_size := strlen ssid in
        let password_size := strlen password in
        if (ssid_size =? 0)%nat || (DECK_WIFI_SSID_CAPACITY <=? ssid_size)%nat
        then (DECK_SETUP_WIFI_REQUEST_INVALID_SSID, None)
        else if negb (password_size =? 0)%nat && (password_size <? 8)%nat
        then (DECK_SETUP_WIFI_REQUEST_INVALID_PASSWORD, None)
        else (DECK_SETUP_WIFI_REQUEST_OK,
              Some {| ssid := pad DECK_WIFI_SSID_CAPACITY ssid; password := pad DECK_WIFI_PASSWORD_CAPACITY password |})
    | _ => (DECK_SETUP_WIFI_REQUEST_MALFORMED, None)
    end.

Inductive deck_setup_temperature_request_result_t :=
  | DECK_SETUP_TEMPERATURE_REQUEST_OK
  | DECK_SETUP_TEMPERATURE_REQUEST_MALFORMED
  | DECK_SETUP_TEMPERATURE_REQUEST_NOT_NUMERIC
  | DECK_SETUP_TEMPERATURE_REQUEST_OUT_OF_RANGE
  | DECK_SETUP_TEMPERATURE_REQUEST_NOT_EXACT_TENTH.

#[export] Instance temperature_result_eq_dec : EqDecision deck_setup_temperature_request_result_t.
Proof. solve_decision. Defined.

(** The first [while] of [parse_decimal_tenths]: the integer, whether it is
    too large, and what follows. *)
Fixpoint integer_loop (value : bytes) (integer : Z) (too_large : bool) : Z * bool * bytes :=
  match value with
  | byte :: rest =>
      if is_digit byte then
        if integer <=? 1000 then integer_loop rest (integer * 10 + (byte - ch_0)) too_large
        else integer_loop rest integer true
      else (integer, too_large, value)
  | [] => (integer, too_large, value)
  end.

(** The second one: [None] for a digit that is not zero. *)
Fixpoint zeros_loop (value : bytes) : option bytes :=
  match value with
  | byte :: rest => if is_digit byte then if negb (byte =? ch_0) then None else zeros_loop rest else Some value
  | [] => Some value
  end.

(** The tenth and what follows it. *)
Definition tenth_part (value : bytes)
  : deck_setup_temperature_request_result_t + Z * bytes :=
  if value.[0] =? ch_dot then
    let value := drop 1 value in
    if negb (is_digit value.[0]) then inl DECK_SETUP_TEMPERATURE_REQUEST_NOT_NUMERIC
    else
      match zeros_loop (drop 1 value) with
      | None => inl DECK_SETUP_TEMPERATURE_REQUEST_NOT_EXACT_TENTH
      | Some rest => inr (value.[0] - ch_0, rest)
      end
  else inr (0, value).

(** [value] is a string without NUL; the byte behind it is the terminator. *)
Definition parse_decimal_tenths (value : bytes) : deck_setup_temperature_request_result_t * option Z :=
  if value.[0] =? 0 then (DECK_SETUP_TEMPERATURE_REQUEST_NOT_NUMERIC, None)
  else
    let '(negative, value) :=
      if (value.[0] =? ch_plus) || (value.[0] =? ch_minus) then (value.[0] =? ch_minus, drop 1 value)
      else (false, value) in
    if negb (is_digit value.[0]) then (DECK_SETUP_TEMPERATURE_REQUEST_NOT_NUMERIC, None)
    else
      let '(integer, too_large, value) := integer_loop value 0 false in
      match tenth_part value with
      | inl result => (result, None)
      | inr (tenth, value) =>
          if negb (value.[0] =? 0) then (DECK_SETUP_TEMPERATURE_REQUEST_NOT_NUMERIC, None)
          else if too_large || (15 <? integer) || ((integer =? 15) && negb (tenth =? 0))
          then (DECK_SETUP_TEMPERATURE_REQUEST_OUT_OF_RANGE, None)
          else
            let magnitude := integer * 10 + tenth in
            (DECK_SETUP_TEMPERATURE_REQUEST_OK, Some (i16 (if negative then - magnitude else magnitude)))
      end.

(** [memcmp(body, prefix, size) == 0], the body having as many bytes. *)
Definition has_prefix (prefix body : bytes) : bool := bool_decide (take (List.length prefix) body = prefix).

Definition deck_setup_http_parse_temperature_request (body : bytes)
  : deck_setup_temperature_request_result_t * option Z :=
  let kPrefix := literal "offset=" in
  let kMaximumBodySize := 64%nat in
  if (List.length body =? 0)%nat || (kMaximumBodySize <? List.length body)%nat
     || (List.length body <? List.length kPrefix)%nat || negb (has_prefix kPrefix body)
     || existsb (fun byte => byte =? 38) body
  then (DECK_SETUP_TEMPERATURE_REQUEST_MALFORMED, None)
  else
    match decode_form_component (drop (List.length kPrefix) body) 32 with
    | None => (DECK_SETUP_TEMPERATURE_REQUEST_MALFORMED, None)
    | Some decoded => parse_decimal_tenths decoded
    end.

Definition lower_hex (byte : Z) : bool :=
  ((ch_0 <=? byte) && (byte <=? ch_9)) || ((ch_a <=? byte) && (byte <=? 102)).

Definition deck_setup_http_parse_confirmation_request (body : bytes) (token_capacity : nat) : option bytes :=
  let kPrefix := literal "token=" in
  if (token_capacity <? DECK_SETUP_CONFIRMATION_TOKEN_CAPACITY)%nat
     || negb (List.length body =? List.length kPrefix + DECK_SETUP_CONFIRMATION_TOKEN_CAPACITY - 1)%nat
     || negb (has_prefix kPrefix body)
  then None
  else
    token ← decode_form_component (drop (List.length kPrefix) body) token_capacity;
    if forallb (fun index => lower_hex token.[index]) (seq 0 (DECK_SETUP_CONFIRMATION_TOKEN_CAPACITY - 1))
    then Some token else None.

Inductive deck_setup_companion_request_result_t :=
  | DECK_SETUP_COMPANION_REQUEST_OK
  | DECK_SETUP_COMPANION_REQUEST_MALFORMED
  | DECK_SETUP_COMPANION_REQUEST_INVALID_ADDRESS
  | DECK_SETUP_COMPANION_REQUEST_INVALID_CODE.

(** [None] before [saw_address] or [saw_code]. *)
Record pair_form := { form_address : option bytes; form_code : option bytes }.

Definition pair_member (key value : bytes) (form : pair_form) : option pair_form :=
  if strcmp_eq key (literal "hub_address") then
    match form_address form with
    | Some _ => None
    | None =>
        address ← decode_form_component value DECK_COMPANION_HUB_ADDRESS_CAPACITY;
        Some {| form_address := Some address; form_code := form_code form |}
    end
  else if strcmp_eq key (literal "code") then
    match form_code form with
    | Some _ => None
    | None =>
        code ← decode_form_component value DECK_COMPANION_PAIRING_CODE_CAPACITY;
        Some {| form_address := form_address form; form_code := Some code |}
    end
  else None.

Definition deck_setup_http_parse_companion_pair_request (body : bytes)
  : deck_setup_companion_request_result_t * option deck_companion_pair_request_t :=
  if (List.length body =? 0)%nat || (160 <? List.length body)%nat
  then (DECK_SETUP_COMPANION_REQUEST_MALFORMED, None)
  else
    match form_loop 20 pair_member (List.length body) body {| form_address := None; form_code := None |} with
    | Some {| form_address := Some address; form_code := Some code |} =>
        let request :=
          {| request_hub_address := pad DECK_COMPANION_HUB_ADDRESS_CAPACITY address;
             pairing_address := replicate DECK_COMPANION_HUB_ADDRESS_CAPACITY 0;
             CompanionProfiles.code := pad DECK_COMPANION_PAIRING_CODE_CAPACITY code |} in
        if negb (valid_code (CompanionProfiles.code request)) then (DECK_SETUP_COMPANION_REQUEST_INVALID_CODE, None)
        else if negb (valid_address (request_hub_address request))
        then (DECK_SETUP_COMPANION_REQUEST_INVALID_ADDRESS, None)
        else (DECK_SETUP_COMPANION_REQUEST_OK, Some request)
    | _ => (DECK_SETUP_COMPANION_REQUEST_MALFORMED, None)
    end.

(** The loop of [deck_setup_http_parse_pair_ack_request], over the digits. *)
Fixpoint ack_bytes (digits : bytes) : option bytes :=
  match digits with
  | first :: second :: digits =>
      let high := hex_value first in
      let low := hex_value second in
      if (high <? 0) || (low <? 0) then None
      else
        rest ← ack_bytes digits;
        Some (u8 (Z.lor (Z.shiftl high 4) low) :: rest)
  | _ => Some []
  end.

Definition deck_setup_http_parse_pair_ack_request (body : bytes) : option bytes :=
  let kPrefix := literal "response_ack=" in
  let kHexSize := 32%nat in
  if negb (List.length body =? List.length kPrefix + kHexSize)%nat || negb (has_prefix kPrefix body) then None
  else ack_bytes (slice (List.length kPrefix) (2 * DECK_SETUP_PAIR_ACK_SIZE) body).

(** [strlen], [memcmp] and the loop over the digits of a decoded identifier. *)
Definition canonical_profile_id (profile_id : bytes) : bool :=
  (strlen profile_id =? 71)%nat && has_prefix (literal "sha256:") profile_id
  && forallb (fun index => lower_hex profile_id.[index]) (seq 7 64).

Definition deck_setup_http_parse_companion_profile_request (body : bytes) (profile_id_capacity : nat) : option bytes :=
  let kPrefix := literal "profile_id=" in
  if (profile_id_capacity <? DECK_COMPANION_PROFILE_ID_CAPACITY)%nat
     || (List.length body <? List.length kPrefix)%nat || (128 <? List.length body)%nat
     || negb (has_prefix kPrefix body) || existsb (fun byte => byte =? 38) body
  then None
  else
    profile_id ← decode_form_component (drop (List.length kPrefix) body) profile_id_capacity;
    if canonical_profile_id profile_id then Some profile_id else None.

(** The [for] over the digits of a priority; [maximum] is at least 9. *)
Fixpoint magnitude_loop (maximum : Z) (digits : bytes) (magnitude : Z) : option Z :=
  match digits with
  | [] => Some magnitude
  | byte :: digits =>
      if negb (is_digit byte) || (u64 (maximum - (byte - ch_0)) / 10 <? magnitude) then None
      else magnitude_loop maximum digits (u64 (magnitude * 10 + (byte - ch_0)))
  end.

Definition decode_priority (decoded_priority : bytes) : option Z :=
  let negative := decoded_priority.[0] =? ch_minus in
  let cursor := if negative then drop 1 decoded_priority else decoded_priority in
  if cursor.[0] =? 0 then None
  else
    let maximum := if negative then 2147483648 else 2147483647 in
    magnitude ← magnitude_loop maximum cursor 0;
    Some (if negative then if magnitude =? 2147483648 then -2147483648 else - i32 magnitude else i32 magnitude).

(** The identifier and the priority. *)
Definition deck_setup_http_parse_companion_priority_request (body : bytes) (profile_id_capacity : nat)
  : option (bytes * Z) :=
  let kProfilePrefix := literal "profile_id=" in
  let kPrioritySeparator := literal "&priority=" in
  if (profile_id_capacity <? DECK_COMPANION_PROFILE_ID_CAPACITY)%nat
     || (List.length body =? 0)%nat || (160 <? List.length body)%nat
     || (List.length body <=? List.length kProfilePrefix + List.length kPrioritySeparator)%nat
     || negb (has_prefix kProfilePrefix body)
  then None
  else
    let encoded := drop (List.length kProfilePrefix) body in
    let id_size := scan_to 38 encoded in
    if (id_size =? List.length encoded)%nat then None
    else
      let separator := drop id_size encoded in
      if (List.length separator <=? List.length kPrioritySeparator)%nat
         || negb (has_prefix kPrioritySeparator separator)
         || existsb (fun byte => byte =? 38) (drop 1 separator)
      then None
      else
        profile_id ← decode_form_component (take id_size encoded) profile_id_capacity;
        if negb (canonical_profile_id profile_id) then None
        else
          decoded_priority ← decode_form_component (drop (List.length kPrioritySeparator) separator) 16;
          priority ← decode_priority decoded_priority;
          Some (profile_id, priority).

(** ** The status document *)

(** [BufferWriter]: what was written, [None] when not [ok_]. *)
Definition append (capacity : nat) (writer : option bytes) (piece : bytes) : option bytes :=
  written ← writer;
  if (capacity - List.length written <=? List.length piece)%nat then None else Some (written ++ piece).

Definition quote : bytes := [34].

Definition kHexDigits : bytes := literal "0123456789abcdef".

(** [%04x] of a byte. *)
Definition print_04x (byte : Z) : bytes :=
  literal "00" ++ [kHexDigits.[Z.to_nat (byte / 16)]; kHexDigits.[Z.to_nat (byte mod 16)]].

(** What one turn of [append_json_string] appends. *)
Definition json_character (byte : Z) : bytes :=
  if (byte =? 92) || (byte =? 34) then [92; byte]
  else if byte <? 0x20 then literal "\u" ++ print_04x byte
  else [byte].

(** The pieces that [append_json_string] appends. *)
Definition append_json_string (value : bytes) : list bytes := [quote] ++ map json_character (c_string value) ++ [quote].

Definition reason_name (reason : deck_setup_reason_t) : bytes :=
  match reason with
  | DECK_SETUP_REASON_NO_WIFI => literal "no_wifi_config"
  | DECK_SETUP_REASON_BOOT_LONG_PRESS => literal "boot_long_press"
  | DECK_SETUP_REASON_NONE => literal "none"
  end.

Definition bool_name (b : bool) : bytes := if b then literal "true" else literal "false".

(** A member in front of which a comma stands when it is not the first. *)
Fixpoint separated {A : Type} (pieces : A -> list bytes) (first : bool) (items : list A) : list bytes :=
  match items with
  | [] => []
  | item :: items => (if first then [] else [literal ","]) ++ pieces item ++ separated pieces false items
  end.

Section status.
Implicit Types (snapshot : deck_setup_snapshot_t) (wifi : deck_wifi_config_snapshot_t)
  (settings : deck_device_settings_snapshot_t) (companions : deck_companion_profiles_snapshot_t)
  (profile : deck_companion_profile_view_t) (network : deck_setup_scan_result_t).

Definition session_pieces snapshot : list bytes :=
  [quoting "{'active':" ++ bool_name (SetupMode.active snapshot) ++ quoting ",'reason':'"
   ++ reason_name (SetupMode.reason snapshot) ++ quoting "','session_id':" ++ print_u (SetupMode.session_id snapshot)
   ++ quoting ",'address':"]
  ++ append_json_string (SetupMode.address snapshot).

Definition wifi_pieces wifi : list bytes :=
  [quoting ",'wifi':{";
   quoting "'state':'" ++ deck_wifi_config_state_name (WifiConfig.snapshot_state wifi)
   ++ quoting "','record':'" ++ deck_wifi_record_status_name (WifiConfig.snapshot_record wifi)
   ++ quoting "','candidate_record':'" ++ deck_wifi_record_status_name (WifiConfig.snapshot_candidate_record wifi)
   ++ quoting "','has_active':" ++ bool_name (shows_active wifi)
   ++ quoting ",'has_candidate':" ++ bool_name (shows_candidate wifi)
   ++ quoting ",'generation':" ++ print_u (WifiConfig.snapshot_generation wifi) ++ quoting ",'active_ssid':"]
  ++ append_json_string (active_ssid wifi)
  ++ [quoting ",'candidate_ssid':"] ++ append_json_string (candidate_ssid wifi).

Definition settings_pieces settings : list bytes :=
  [quoting "},'device_settings':{";
   quoting "'state':'" ++ deck_device_settings_state_name (DeviceSettings.state settings)
   ++ quoting "','record':'" ++ deck_device_settings_record_status_name (settings_record_status settings)
   ++ quoting "','candidate_record':'"
   ++ deck_device_settings_record_status_name (settings_candidate_record_status settings)
   ++ quoting "','has_active':" ++ bool_name (settings_has_active settings)
   ++ quoting ",'has_candidate':" ++ bool_name (settings_has_candidate settings)
   ++ quoting ",'generation':" ++ print_u (settings_generation settings)
   ++ quoting ",'temperature_offset_tenths_c':" ++ print_d (temperature_offset_tenths_c settings) ++ quoting "},"].

Definition profile_pieces profile : list bytes :=
  [quoting "{'profile_version':" ++ print_u (view_version profile) ++ quoting ",'profile_id':"]
  ++ append_json_string (view_profile_id profile)
  ++ [quoting ",'display_name':"] ++ append_json_string (view_display_name profile)
  ++ [quoting ",'hub_address':"] ++ append_json_string (view_hub_address profile)
  ++ [quoting ",'certificate_fingerprint':"] ++ append_json_string (view_fingerprint profile)
  ++ [quoting ",'priority':" ++ print_d (view_priority profile)
      ++ quoting ",'last_success_unix_ms':" ++ print_u (view_last_success profile) ++ quoting "}"].

Definition companions_pieces companions : list bytes :=
  [quoting "'companions':{";
   quoting "'generation':" ++ print_u (CompanionProfiles.snapshot_generation companions)
   ++ quoting ",'storage_faulted':" ++ bool_name (snapshot_faulted companions)
   ++ quoting ",'has_active':" ++ bool_name (snapshot_has_active_profile companions)
   ++ quoting ",'active_profile_id':"]
  ++ append_json_string (active_profile_id companions)
  ++ [quoting ",'profiles':["] ++ separated profile_pieces true (views companions).

Definition network_pieces network : list bytes :=
  [quoting "{'ssid':"] ++ append_json_string (scan_ssid network)
  ++ [quoting ",'rssi':" ++ print_d (scan_rssi network) ++ quoting ",'secure':" ++ bool_name (scan_secure network)
      ++ quoting "}"].

(** What the calls of the writer append, in their order. *)
Definition status_pieces snapshot wifi settings companions (networks : list deck_setup_scan_result_t) : list bytes :=
  session_pieces snapshot ++ wifi_pieces wifi ++ settings_pieces settings ++ companions_pieces companions
  ++ [quoting "]},'networks':["] ++ separated network_pieces true networks ++ [quoting "]}"].

Definition deck_setup_http_render_status snapshot wifi settings companions networks (buffer_size : nat)
  : option bytes :=
  fold_left (append buffer_size) (status_pieces snapshot wifi settings companions networks)
    (if (buffer_size =? 0)%nat then None else Some []).
End status.
