(* ===== verification/SetupForm.v ===== *)
(** * The forms the setup portal accepts

    The spellings of a form component, the texts of a form, and that the
    parsers of SetupHttp accept exactly the forms with the members they need. *)

From Stdlib Require Import String.
From S2P Require Import Prelude CString ProfileText SetupMode SetupConfirmation WifiConfig CompanionProfiles SetupHttp.

(** ** Components *)

Definition text_byte (b : Z) : Prop := 0x20 <= b /\ b <> 0x7f.

(** [encodes raw t]: the component [raw] spells the text [t]. *)
Inductive encodes : bytes -> bytes -> Prop :=
  | encodes_end : encodes [] []
  | encodes_plain b raw t : b <> 37 -> b <> 43 -> text_byte b -> encodes raw t -> encodes (b :: raw) (b :: t)
  | encodes_plus raw t : encodes raw t -> encodes (43 :: raw) (32 :: t)
  | encodes_hex high low raw t :
      0 <= hex_value high -> 0 <= hex_value low -> text_byte (16 * hex_value high + hex_value low) ->
      encodes raw t -> encodes (37 :: high :: low :: raw) (16 * hex_value high + hex_value low :: t).

Lemma form_hex_value_range b : hex_value b = -1 \/ 0 <= hex_value b <= 15.
Proof. unfold hex_value, ch_0, ch_9, ch_a, ch_A. repeat case_match; bool_prop; lia. Qed.

Lemma nibbles_check : forallb (fun high => forallb (fun low => u8 (Z.lor (Z.shiftl high 4) low) =? 16 * high + low)
  (map Z.of_nat (seq 0 16))) (map Z.of_nat (seq 0 16)) = true.
Proof. vm_compute. reflexivity. Qed.

Lemma form_nibbles high low : 0 <= high <= 15 -> 0 <= low <= 15 -> u8 (Z.lor (Z.shiftl high 4) low) = 16 * high + low.
Proof.
  intros Hh Hl. pose proof nibbles_check as H. rewrite forallb_forall in H. specialize (H high).
  assert (forall x, 0 <= x <= 15 -> In x (map Z.of_nat (seq 0 16))) as Hin.
  { intros x Hx. apply in_map_iff. exists (Z.to_nat x). split; [lia|]. apply in_seq. lia. }
  specialize (H (Hin _ Hh)). rewrite forallb_forall in H. specialize (H low (Hin _ Hl)). by apply Z.eqb_eq.
Qed.

Lemma decoded_byte_Some capacity output b output' :
  decoded_byte capacity output b = Some output'
  <-> output' = output ++ [b] /\ text_byte b /\ (List.length output + 1 < capacity)%nat.
Proof.
  unfold decoded_byte, text_byte. destruct (_ || _) eqn:E.
  - split; [done|]. intros (_ & ? & ?). bool_cases; lia.
  - bool_prop. split; [intros [= <-]; split; [done|]; lia|by intros (-> & _)].
Qed.

Lemma decode_loop_spec raw capacity output result : (List.length output < capacity)%nat ->
  decode_loop raw capacity output = Some result
  <-> exists t, encodes raw t /\ result = output ++ t /\ (List.length output + List.length t < capacity)%nat.
Proof.
  revert raw output. refine (well_founded_induction (well_founded_ltof _ (@List.length Z)) _ _).
  unfold ltof. intros raw IH output Ho. destruct raw as [|b raw]; cbn [decode_loop].
  { split; [intros [= <-]; exists []; split; [constructor|]; rewrite app_nil_r; simpl; by split; [|lia]|].
    intros (t & He & -> & _). inversion He. by rewrite app_nil_r. }
  assert (forall c raw' (Hlt : (List.length raw' < List.length (b :: raw))%nat),
    (output' ← decoded_byte capacity output c; decode_loop raw' capacity output') = Some result
    <-> exists t, text_byte c /\ encodes raw' t /\ result = output ++ c :: t
        /\ (List.length output + S (List.length t) < capacity)%nat) as Hstep.
  { intros c raw' Hlt. split.
    - intros (o & Hd & H)%bind_Some. apply decoded_byte_Some in Hd as (-> & Hc & Hlen).
      apply IH in H as (t & He & -> & Ht); [|done|rewrite length_app; simpl; lia].
      exists t. rewrite <- app_assoc. rewrite length_app in Ht. simpl in *. split_and!; try done. lia.
    - intros (t & Hc & He & -> & Hlen). apply bind_Some. exists (output ++ [c]).
      split; [apply decoded_byte_Some; split_and!; try done; lia|].
      apply IH; [done|rewrite length_app; simpl; lia|]. exists t. rewrite <- app_assoc, length_app. simpl. split_and!; [done..|lia]. }
  destruct (Z.eqb_spec b 37) as [->|Hp].
  - destruct raw as [|high [|low raw]].
    1,2: split; [done|]; intros (t & He & _); inversion He; congruence.
    pose proof (form_hex_value_range high) as Hh. pose proof (form_hex_value_range low) as Hl. destruct (_ || _) eqn:E.
    { split; [done|]. intros (t & He & _). inversion He; subst; [congruence|]. bool_cases; lia. }
    bool_prop.
    rewrite form_nibbles by lia. rewrite Hstep by (simpl; lia). split.
    + intros (t & Hc & He & -> & Hlen). exists (16 * hex_value high + hex_value low :: t).
      split; [constructor; try lia; done|]. by split.
    + intros (t & He & -> & Hlen). inversion He; subst; [congruence|]. eexists. by split_and!.
  - destruct (Z.eqb_spec b 43) as [->|Hq].
    + rewrite Hstep by (simpl; lia). split.
      * intros (t & Hc & He & -> & Hlen). exists (32 :: t). split; [by constructor|]. by split.
      * intros (t & He & -> & Hlen). inversion He; subst; [congruence|]. eexists. split; [unfold text_byte; lia|]. by split_and!.
    + rewrite Hstep by (simpl; lia). split.
      * intros (t & Hc & He & -> & Hlen). exists (b :: t). split; [by constructor|]. by split.
      * intros (t & He & -> & Hlen). inversion He; subst; try congruence. eexists. by split_and!.
Qed.

(** A component is decoded to the text it spells, if the text fits. *)
Lemma decode_form_component_spec raw capacity t :
  decode_form_component raw capacity = Some t <-> encodes raw t /\ (List.length t < capacity)%nat.
Proof.
  unfold decode_form_component. destruct (Nat.eqb_spec capacity 0) as [->|Hc]; [split; [done|lia]|].
  rewrite decode_loop_spec by (simpl; lia). simpl. split; [by intros (? & ? & -> & ?)|]. intros [? ?]. by exists t.
Qed.

Lemma encodes_text raw t : encodes raw t -> Forall text_byte t.
Proof. induction 1; constructor; unfold text_byte in *; first [done|lia]. Qed.

Lemma encodes_functional raw t t' : encodes raw t -> encodes raw t' -> t = t'.
Proof.
  intros H1 H2.
  assert (decode_form_component raw (S (List.length t + List.length t')) = Some t) as E1
    by (apply decode_form_component_spec; split; [done|lia]).
  assert (decode_form_component raw (S (List.length t + List.length t')) = Some t') as E2
    by (apply decode_form_component_spec; split; [done|lia]). congruence.
Qed.

(** ** Forms *)

(** The members of a form, as they are spelled; an ampersand may end it. *)
Inductive form_text : bytes -> list (bytes * bytes) -> Prop :=
  | form_end : form_text [] []
  | form_last key value :
      38 ∉ key -> 61 ∉ key -> 38 ∉ value -> form_text (key ++ [61] ++ value) [(key, value)]
  | form_more key value rest members :
      38 ∉ key -> 61 ∉ key -> 38 ∉ value -> form_text rest members ->
      form_text (key ++ [61] ++ value ++ [38] ++ rest) ((key, value) :: members).

Fixpoint store_members {S : Type} (key_capacity : nat) (member : bytes -> bytes -> S -> option S)
    (members : list (bytes * bytes)) (state : S) : option S :=
  match members with
  | [] => Some state
  | (raw, value) :: members =>
      key ← decode_form_component raw key_capacity;
      state ← member key value state;
      store_members key_capacity member members state
  end.

Lemma scan_to_split ch (l : bytes) :
  ch ∉ take (scan_to ch l) l
  /\ (l = take (scan_to ch l) l /\ scan_to ch l = List.length l
      \/ l = take (scan_to ch l) l ++ [ch] ++ drop (scan_to ch l + 1) l /\ (scan_to ch l < List.length l)%nat).
Proof.
  induction l as [|b l [IH1 IH2]]; cbn [scan_to].
  { split; [apply not_elem_of_nil|]. by left. }
  destruct (Z.eqb_spec b ch) as [->|Hb]; simpl.
  { split; [apply not_elem_of_nil|]. right. split; [by rewrite drop_0|lia]. }
  split; [by apply not_elem_of_cons|].
  destruct IH2 as [[E1 E2]|[E1 E2]]; [left|right]; (split; [f_equal; exact E1|lia]).
Qed.

Lemma scan_to_app ch (l r : bytes) : ch ∉ l -> scan_to ch (l ++ [ch] ++ r) = List.length l.
Proof.
  induction l as [|b l IH]; simpl; [by rewrite Z.eqb_refl|]. intros [Hb Hl]%not_elem_of_cons.
  rewrite (proj2 (Z.eqb_neq b ch)) by congruence. simpl in IH. by rewrite IH.
Qed.

Lemma scan_to_all ch (l : bytes) : ch ∉ l -> scan_to ch l = List.length l.
Proof.
  induction l as [|b l IH]; simpl; [done|]. intros [Hb Hl]%not_elem_of_cons.
  rewrite (proj2 (Z.eqb_neq b ch)) by congruence. by rewrite IH.
Qed.

Lemma form_text_nil members : form_text [] members -> members = [].
Proof. inversion 1 as [| |]; [done|..]; by destruct key. Qed.

(** A form from its first member on, as the loop takes it apart. *)
Lemma form_text_step text members : text <> [] ->
  let end_ := scan_to 38 text in
  let component := take end_ text in
  let equals := scan_to 61 component in
  form_text text members
  <-> equals <> end_ /\ exists members', members = (take equals component, drop (equals + 1) component) :: members'
      /\ form_text (drop (end_ + 1) text) members'.
Proof.
  intros Ht. cbv zeta. split.
  - intros H. inversion H as [|key value Hk He Hv|key value rest ms Hk He Hv Hrest]; subst; [done|..].
    + assert (scan_to 38 (key ++ [61] ++ value) = List.length (key ++ [61] ++ value)) as ->.
      { apply scan_to_all. rewrite !elem_of_app, list_elem_of_singleton. intros [?|[?|?]]; done. }
      rewrite firstn_all, scan_to_app by done. split; [rewrite !length_app; simpl; lia|].
      exists []. rewrite take_app_length, (drop_ge _ (List.length (key ++ [61] ++ value) + 1)) by lia. split; [|constructor].
      rewrite app_assoc, drop_app_length'; [done|]. rewrite length_app. simpl. lia.
    + assert (exists m, m = key ++ [61] ++ value) as [m Em] by eauto.
      replace (key ++ [61] ++ value ++ [38] ++ rest) with (m ++ [38] ++ rest) by (by rewrite Em, <- !app_assoc).
      assert (38 ∉ m) by (rewrite Em, !elem_of_app, list_elem_of_singleton; intros [?|[?|?]]; done).
      rewrite scan_to_app, take_app_length by done.
      assert (scan_to 61 m = List.length key) as -> by (by rewrite Em, scan_to_app).
      split; [rewrite Em, !length_app; simpl; lia|]. exists ms.
      split; [|rewrite app_assoc, drop_app_length'; [done|]; rewrite length_app; simpl; lia].
      rewrite Em, take_app_length, app_assoc, drop_app_length'; [done|]. rewrite length_app. simpl. lia.
  - intros (Hne & ms & -> & Hms). destruct (scan_to_split 38 text) as [Hamp Hsplit].
    set (end_ := scan_to 38 text) in *. set (component := take end_ text) in *.
    assert (List.length component = end_) as Hcl
      by (unfold component; rewrite length_take; destruct Hsplit as [[_ ->]|[_ ?]]; lia).
    destruct (scan_to_split 61 component) as [Heq [[_ E]|[E Elt]]]; [lia|].
    set (equals := scan_to 61 component) in *. set (key := take equals component) in *.
    set (value := drop (equals + 1) component) in *.
    assert (38 ∉ key /\ 38 ∉ value) as [Hk Hv].
    { rewrite E in Hamp. rewrite !elem_of_app in Hamp. tauto. }
    destruct Hsplit as [[Hall Hlen]|[Hmore Hlen]].
    + rewrite drop_ge in Hms by lia. apply form_text_nil in Hms as ->. rewrite Hall, E. by constructor.
    + rewrite Hmore, E. rewrite <- !app_assoc. by constructor.
Qed.

Lemma form_loop_nil {S : Type} key_capacity (member : bytes -> bytes -> S -> option S) fuel state state' :
  form_loop key_capacity member fuel [] state = Some state'
  <-> exists members, form_text [] members /\ store_members key_capacity member members state = Some state'.
Proof.
  destruct fuel; simpl; (split; [intros [= <-]; exists []; by split; [constructor|]|]);
    by intros (ms & ->%form_text_nil & Hs).
Qed.

(** The loop stores the members of the form, one after the other. *)
Lemma form_loop_spec {S : Type} key_capacity (member : bytes -> bytes -> S -> option S) fuel body state state' :
  (List.length body <= fuel)%nat ->
  form_loop key_capacity member fuel body state = Some state'
  <-> exists members, form_text body members /\ store_members key_capacity member members state = Some state'.
Proof.
  revert body state. induction fuel as [|fuel IH]; intros body state Hf; [destruct body; [apply form_loop_nil|simpl in Hf; lia]|].
  destruct body as [|b body]; [apply form_loop_nil|].
  assert (b :: body <> []) as Hne by done. set (text := b :: body) in *.
  change (form_loop key_capacity member (Datatypes.S fuel) text state) with
    (let end_ := scan_to 38 text in let component := take end_ text in let equals := scan_to 61 component in
     if (equals =? end_)%nat then None
     else key ← decode_form_component (take equals component) key_capacity;
          state ← member key (drop (equals + 1) component) state;
          form_loop key_capacity member fuel (drop (end_ + 1) text) state).
  cbv zeta. setoid_rewrite (form_text_step text _ Hne). cbv zeta.
  set (end_ := scan_to 38 text). set (component := take end_ text). set (equals := scan_to 61 component).
  destruct (Nat.eqb_spec equals end_) as [E|E]; [split; [done|by intros (? & [? _] & _)]|].
  assert (List.length (drop (end_ + 1) text) <= fuel)%nat as Hlen by (rewrite length_drop; unfold text in *; simpl in *; lia).
  split.
  - intros (key & Hk & (st & Hm & H)%bind_Some)%bind_Some. apply IH in H as (ms & Hms & Hs); [|exact Hlen].
    eexists. split; [split; [done|]; by eexists|]. simpl. rewrite Hk. simpl. by rewrite Hm.
  - intros (ms & (_ & ms' & -> & Hms) & Hs). simpl in Hs. apply bind_Some in Hs as (key & -> & Hs). simpl.
    apply bind_Some in Hs as (st & -> & Hs). simpl. apply IH; [exact Hlen|]. by exists ms'.
Qed.

(** ** Forms of two members *)

(** [body] is a form with the members [k1] and [k2], in either order, that
    spell [a] and [b]. *)
Definition two_members (body k1 a k2 b : bytes) : Prop :=
  exists r1 v1 r2 v2,
    (form_text body [(r1, v1); (r2, v2)] \/ form_text body [(r2, v2); (r1, v1)])
    /\ encodes r1 k1 /\ encodes v1 a /\ encodes r2 k2 /\ encodes v2 b.

(** Both form parsers store their members into two slots. *)
Definition two_slots (k1 : bytes) (c1 : nat) (k2 : bytes) (c2 : nat) (key value : bytes)
    (slots : option bytes * option bytes) : option (option bytes * option bytes) :=
  if strcmp_eq key k1 then
    match slots.1 with Some _ => None | None => t ← decode_form_component value c1; Some (Some t, slots.2) end
  else if strcmp_eq key k2 then
    match slots.2 with Some _ => None | None => t ← decode_form_component value c2; Some (slots.1, Some t) end
  else None.

Lemma form_loop_map {S T : Type} key_capacity member member' (f : S -> T) fuel body state :
  (forall key value state, member' key value (f state) = f <$> member key value state) ->
  form_loop key_capacity member' fuel body (f state) = f <$> form_loop key_capacity member fuel body state.
Proof.
  intros Hf. revert body state. induction fuel as [|fuel IH]; intros body state; [done|]. destruct body as [|b body]; [done|].
  cbn [form_loop]. destruct (_ =? _)%nat; [done|]. destruct (decode_form_component _ _) as [key|]; [|done]. simpl.
  rewrite Hf. destruct (member _ _ _); [|done]. simpl. apply IH.
Qed.

Lemma text_c_string t : Forall text_byte t -> c_string t = t.
Proof. intros Ht. apply c_string_id. eapply Forall_impl; [exact Ht|]. unfold text_byte. lia. Qed.

Section two.
Context (k1 k2 : bytes) (c1 c2 key_capacity : nat).
Context (Hk1 : Forall text_byte k1) (Hk2 : Forall text_byte k2) (Hne : k1 <> k2).
Context (Hl1 : (List.length k1 < key_capacity)%nat) (Hl2 : (List.length k2 < key_capacity)%nat).

Let member := two_slots k1 c1 k2 c2.

Lemma two_slots_step raw value slots slots' :
  (key ← decode_form_component raw key_capacity; member key value slots) = Some slots'
  <-> (encodes raw k1 /\ slots.1 = None /\ exists t, encodes value t /\ (List.length t < c1)%nat /\ slots' = (Some t, slots.2))
      \/ (encodes raw k2 /\ slots.2 = None /\ exists t, encodes value t /\ (List.length t < c2)%nat /\ slots' = (slots.1, Some t)).
Proof.
  unfold member, two_slots. split.
  - intros (key & [He Hl]%decode_form_component_spec & H)%bind_Some. unfold strcmp_eq in H.
    rewrite !text_c_string in H by (done || by eapply encodes_text). repeat case_bool_decide; subst; [left|right|done].
    + destruct slots as [[?|] s2]; [done|]. apply bind_Some in H as (t & [? ?]%decode_form_component_spec & [= <-]).
      split; [done|]. split; [done|]. by exists t.
    + destruct slots as [s1 [?|]]; [done|]. apply bind_Some in H as (t & [? ?]%decode_form_component_spec & [= <-]).
      split; [done|]. split; [done|]. by exists t.
  - intros [(He & Hs & t & Ht & Hlt & ->)|(He & Hs & t & Ht & Hlt & ->)]; destruct slots as [s1 s2]; simpl in *; subst;
      apply bind_Some; eexists; (split; [by apply decode_form_component_spec|]); unfold strcmp_eq;
      rewrite !text_c_string by done.
    + rewrite bool_decide_eq_true_2 by done. apply bind_Some. eexists. by split; [apply decode_form_component_spec|].
    + rewrite bool_decide_eq_false_2, bool_decide_eq_true_2 by done. apply bind_Some. eexists.
      by split; [apply decode_form_component_spec|].
Qed.

Lemma store_members_cons raw value members slots slots' :
  store_members key_capacity member ((raw, value) :: members) slots = Some slots'
  <-> exists next, (key ← decode_form_component raw key_capacity; member key value slots) = Some next
      /\ store_members key_capacity member members next = Some slots'.
Proof.
  simpl. destruct (decode_form_component raw key_capacity) as [key|]; simpl; [apply bind_Some|].
  split; [done|by intros (? & ? & _)].
Qed.

Lemma two_slots_full members a b slots' : members <> [] ->
  store_members key_capacity member members (Some a, Some b) = Some slots' -> False.
Proof.
  intros Hm. destruct members as [|[raw value] members]; [done|]. intros (n & Hn & _)%store_members_cons.
  apply two_slots_step in Hn as [(_ & ? & _)|(_ & ? & _)]; done.
Qed.

Lemma two_members_stored members a b :
  store_members key_capacity member members (None, None) = Some (Some a, Some b)
  <-> exists r1 v1 r2 v2, (members = [(r1, v1); (r2, v2)] \/ members = [(r2, v2); (r1, v1)])
      /\ encodes r1 k1 /\ encodes v1 a /\ encodes r2 k2 /\ encodes v2 b
      /\ (List.length a < c1)%nat /\ (List.length b < c2)%nat.
Proof.
  split.
  - destruct members as [|[ra va] members]; [done|]. intros (n & Hn & H)%store_members_cons.
    destruct members as [|[rb vb] members].
    { simpl in H. injection H as ->. by apply two_slots_step in Hn as [(_ & _ & ? & _ & _ & ?)|(_ & _ & ? & _ & _ & ?)]. }
    apply store_members_cons in H as (n' & Hn' & H).
    apply two_slots_step in Hn as [(He & _ & t & Ht & Hl & ->)|(He & _ & t & Ht & Hl & ->)];
      apply two_slots_step in Hn' as [(He' & Hs & t' & Ht' & Hl' & ->)|(He' & Hs & t' & Ht' & Hl' & ->)];
      try discriminate Hs; simpl in H.
    + destruct (decide (members = [])) as [->|Hm]; [|exfalso; by eapply two_slots_full].
      simpl in H. injection H as <- <-. exists ra, va, rb, vb. split; [by left|]. by split_and!.
    + destruct (decide (members = [])) as [->|Hm]; [|exfalso; by eapply two_slots_full].
      simpl in H. injection H as <- <-. exists rb, vb, ra, va. split; [by right|]. by split_and!.
  - intros (r1 & v1 & r2 & v2 & Hms & Hr1 & Hv1 & Hr2 & Hv2 & Ha & Hb).
    destruct Hms as [->| ->]; apply store_members_cons; eexists;
      (split; [apply two_slots_step; (left + right); split; [eassumption|]; split; [reflexivity|]; by eexists|]);
      apply store_members_cons; eexists;
      (split; [apply two_slots_step; (left + right); split; [eassumption|]; split; [reflexivity|]; by eexists|reflexivity]).
Qed.

(** The loop over a form of two members. *)
Lemma two_members_parsed body a b :
  form_loop key_capacity member (List.length body) body (None, None) = Some (Some a, Some b)
  <-> two_members body k1 a k2 b /\ (List.length a < c1)%nat /\ (List.length b < c2)%nat.
Proof.
  rewrite form_loop_spec by done. unfold two_members. split.
  - intros (ms & Hf & (r1 & v1 & r2 & v2 & Hms & ? & ? & ? & ? & ? & ?)%two_members_stored). split; [|done].
    exists r1, v1, r2, v2. split; [|done]. destruct Hms as [->| ->]; [by left|by right].
  - intros [(r1 & v1 & r2 & v2 & [Hf|Hf] & ? & ? & ? & ?) [? ?]]; (eexists; split; [exact Hf|]); apply two_members_stored;
      exists r1, v1, r2, v2; (split; [|done]); [by left|by right].
Qed.
End two.

Lemma two_members_functional body k1 a k2 b a' b' : Forall text_byte k1 -> Forall text_byte k2 -> k1 <> k2 ->
  two_members body k1 a k2 b -> two_members body k1 a' k2 b' -> a = a' /\ b = b'.
Proof.
  intros Hk1 Hk2 Hne H H'.
  set (c := S (List.length a + List.length b + List.length a' + List.length b')).
  set (kc := S (List.length k1 + List.length k2)).
  assert (form_loop kc (two_slots k1 c k2 c) (List.length body) body (None, None) = Some (Some a, Some b)) as E
    by (apply two_members_parsed; unfold c, kc; try done; try lia; split; [done|lia]).
  assert (form_loop kc (two_slots k1 c k2 c) (List.length body) body (None, None) = Some (Some a', Some b')) as E'
    by (apply two_members_parsed; unfold c, kc; try done; try lia; split; [done|lia]).
  rewrite E in E'. by injection E' as -> ->.
Qed.

Ltac text_literal := repeat constructor; unfold text_byte; vm_compute; by repeat split.

(** ** The Wi-Fi form *)

(** The form of a network's name and password. *)
Definition submits_wifi (body : bytes) (n : network) : Prop :=
  (List.length body <= 256)%nat /\ two_members body (literal "ssid") (name n) (literal "password") (secret n)
  /\ (List.length (name n) < DECK_WIFI_SSID_CAPACITY)%nat /\ (List.length (secret n) < DECK_WIFI_PASSWORD_CAPACITY)%nat.

Lemma wifi_form_loop body s p :
  form_loop 16 wifi_member (List.length body) body {| form_ssid := None; form_password := None |}
  = Some {| form_ssid := Some s; form_password := Some p |}
  <-> two_members body (literal "ssid") s (literal "password") p
      /\ (List.length s < DECK_WIFI_SSID_CAPACITY)%nat /\ (List.length p < DECK_WIFI_PASSWORD_CAPACITY)%nat.
Proof.
  rewrite <- (two_members_parsed (literal "ssid") (literal "password") _ _ 16)
    by (try text_literal; try discriminate; vm_compute; lia).
  set (f := fun slots : option bytes * option bytes => {| form_ssid := slots.1; form_password := slots.2 |}).
  change {| form_ssid := None; form_password := None |} with (f (None, None)).
  change {| form_ssid := Some s; form_password := Some p |} with (f (Some s, Some p)).
  rewrite (form_loop_map 16 (two_slots (literal "ssid") DECK_WIFI_SSID_CAPACITY (literal "password") DECK_WIFI_PASSWORD_CAPACITY) _ f).
  - destruct (form_loop _ _ _ _ _) as [[o1 o2]|]; [|done]. unfold f. simpl. split; [by intros [= -> ->]|by intros [= -> ->]].
  - intros key value [o1 o2]. unfold wifi_member, two_slots, f. cbn [fst snd form_ssid form_password].
    destruct (strcmp_eq key (literal "ssid")); [destruct o1; [done|]; by destruct (decode_form_component _ _)|].
    destruct (strcmp_eq key (literal "password")); [|done]. destruct o2; [done|].
    destruct value; [done|]. cbn [List.length Nat.eqb]. by destruct (decode_form_component _ _).
Qed.

Lemma text_printable t : Forall text_byte t -> printable t.
Proof.
  intros Ht. eapply Forall_impl; [exact Ht|]. intros b [H1 H2]. unfold control_byte.
  rewrite (proj2 (Z.ltb_ge _ _)), (proj2 (Z.eqb_neq _ _)) by lia. done.
Qed.

Lemma submitted_texts body n : submits_wifi body n -> Forall text_byte (name n) /\ Forall text_byte (secret n).
Proof. intros (_ & (r1 & v1 & r2 & v2 & _ & _ & H1 & _ & H2) & _). split; by eapply encodes_text. Qed.

(** The result of the parser for a form of a network. *)
Definition wifi_answer (n : network) : deck_setup_wifi_request_result_t * option deck_wifi_credentials_t :=
  if (List.length (name n) =? 0)%nat then (DECK_SETUP_WIFI_REQUEST_INVALID_SSID, None)
  else if negb (List.length (secret n) =? 0)%nat && (List.length (secret n) <? 8)%nat
  then (DECK_SETUP_WIFI_REQUEST_INVALID_PASSWORD, None)
  else (DECK_SETUP_WIFI_REQUEST_OK, Some (credentials_of n)).

Lemma wifi_answered body n : submits_wifi body n -> deck_setup_http_parse_wifi_request body = wifi_answer n.
Proof.
  intros Hs. pose proof (submitted_texts _ _ Hs) as [Hn Hp]. destruct Hs as (Hlen & Htwo & Hln & Hlp).
  unfold deck_setup_http_parse_wifi_request, wifi_answer.
  assert (body <> []) as Hne by (intros ->; destruct Htwo as (? & ? & ? & ? & [H%form_text_nil|H%form_text_nil] & _); discriminate H).
  rewrite (proj2 (Nat.eqb_neq _ _)), (proj2 (Nat.ltb_ge _ _)) by (destruct body; simpl in *; (done || lia)). cbn [orb].
  rewrite (proj2 (wifi_form_loop body (name n) (secret n))) by done.
  unfold strlen. rewrite !text_c_string by done.
  rewrite (proj2 (Nat.leb_gt DECK_WIFI_SSID_CAPACITY _)) by done. by rewrite orb_false_r.
Qed.

Lemma wifi_malformed body : (forall n, ~ submits_wifi body n) ->
  deck_setup_http_parse_wifi_request body = (DECK_SETUP_WIFI_REQUEST_MALFORMED, None).
Proof.
  intros Hno. unfold deck_setup_http_parse_wifi_request. destruct (_ || _) eqn:E; [done|]. bool_prop.
  destruct (form_loop _ _ _ _ _) as [[[s|] [p|]]|] eqn:El; try done. exfalso.
  apply wifi_form_loop in El. apply (Hno {| name := s; secret := p |}). split; [lia|exact El].
Qed.

(** A submission is malformed or of one network. *)
Lemma wifi_cases body : (forall n, ~ submits_wifi body n) \/ exists n, submits_wifi body n.
Proof.
  destruct (decide (List.length body <= 256)%nat) as [Hl|Hl]; [|left; intros n (? & _); lia].
  destruct (form_loop 16 wifi_member (List.length body) body {| form_ssid := None; form_password := None |})
    as [[[s|] [p|]]|] eqn:El;
    try (left; intros n (_ & H); apply wifi_form_loop in H; rewrite El in H; discriminate H).
  right. apply wifi_form_loop in El. exists {| name := s; secret := p |}. by split.
Qed.

(** C22: The parser on every body: a form of exactly a name and a password gives
    the network, or says which of the two has the wrong length; everything
    else is malformed.  An accepted network meets the limits of the
    configuration, so submitting it is never refused as invalid. *)
Theorem wifi_request_is_exact body :
  let result := deck_setup_http_parse_wifi_request body in
  (forall n, submits_wifi body n -> result = wifi_answer n)
  /\ ((forall n, ~ submits_wifi body n) -> result = (DECK_SETUP_WIFI_REQUEST_MALFORMED, None))
  /\ (forall c, result.2 = Some c -> exists n, submits_wifi body n /\ network_ok n /\ c = credentials_of n).
Proof.
  cbv zeta. split; [apply wifi_answered|]. split; [apply wifi_malformed|]. intros c Hc.
  destruct (wifi_cases body) as [Hno|[n Hn]]; [by rewrite (wifi_malformed _ Hno) in Hc|].
  rewrite (wifi_answered _ _ Hn) in Hc. unfold wifi_answer in Hc.
  destruct (_ =? 0)%nat eqn:Es; [done|]. destruct (negb _ && _) eqn:Ep; [done|]. injection Hc as <-.
  exists n. split; [done|]. split; [|done]. pose proof (submitted_texts _ _ Hn) as [? ?].
  destruct Hn as (_ & _ & Hn & Hp). unfold DECK_WIFI_SSID_CAPACITY, DECK_WIFI_PASSWORD_CAPACITY in *. bool_prop.
  constructor; [lia| |by apply text_printable..].
  apply andb_false_iff in Ep as [Ep|Ep]; bool_prop; lia.
Qed.

(** ** What the page submits *)

(** The serializer of [URLSearchParams], which the page's scripts use. *)
Definition hex_upper (d : Z) : Z := if d <? 10 then ch_0 + d else ch_A + (d - 10).

Definition form_encode_byte (b : Z) : bytes :=
  if is_digit b || is_lower b || is_upper b || (b =? 42) || (b =? 45) || (b =? 46) || (b =? 95) then [b]
  else if b =? 32 then [43]
  else [37; hex_upper (b / 16); hex_upper (b mod 16)].

Definition form_encode (text : bytes) : bytes := flat_map form_encode_byte text.

Definition byte_value (b : Z) : Prop := 0 <= b < 256.

Lemma hex_value_upper d : 0 <= d < 16 -> hex_value (hex_upper d) = d.
Proof.
  intros Hd. unfold hex_upper, hex_value, ch_0, ch_9, ch_a, ch_A. destruct (Z.ltb_spec d 10);
    repeat case_match; bool_prop; lia.
Qed.

Lemma form_encode_byte_spells b raw t : text_byte b -> byte_value b -> encodes raw t ->
  encodes (form_encode_byte b ++ raw) (b :: t).
Proof.
  intros Ht Hb He. unfold form_encode_byte.
  destruct (_ || _) eqn:E; [|destruct (Z.eqb_spec b 32) as [->|Hs]].
  - assert (b <> 37 /\ b <> 43) as [? ?] by (unfold is_digit, is_lower, is_upper, ch_0, ch_9, ch_a, ch_z, ch_A, ch_Z in E; lia).
    by constructor.
  - by constructor.
  - unfold byte_value in Hb. assert (b = 16 * (b / 16) + b mod 16) as Eb by (Z.div_mod_to_equations; lia).
    rewrite Eb at 3. rewrite <- (hex_value_upper (b / 16)) at 2 by (Z.div_mod_to_equations; lia).
    rewrite <- (hex_value_upper (b mod 16)) at 2 by (Z.div_mod_to_equations; lia).
    apply (encodes_hex (hex_upper (b / 16)) (hex_upper (b mod 16))); rewrite ?hex_value_upper by (Z.div_mod_to_equations; lia);
      try (Z.div_mod_to_equations; lia); [by rewrite <- Eb|done].
Qed.

(** The encoding spells the text, without the separators of a form. *)
Lemma form_encode_spells t : Forall text_byte t -> Forall byte_value t -> encodes (form_encode t) t.
Proof.
  intros Ht Hb. induction t as [|b t IH]; simpl; [constructor|]. apply Forall_cons in Ht as [? ?].
  apply Forall_cons in Hb as [? ?]. apply form_encode_byte_spells; auto.
Qed.

Lemma form_encode_separator c t : c = 38 \/ c = 61 -> Forall byte_value t -> c ∉ form_encode t.
Proof.
  intros Hc Hb. induction t as [|b t IH]; simpl; [apply not_elem_of_nil|]. apply Forall_cons in Hb as [Hb Ht].
  rewrite elem_of_app. intros [H|H]; [|by apply IH]. revert H. unfold form_encode_byte, byte_value in *.
  destruct (_ || _) eqn:E; [|destruct (Z.eqb_spec b 32)].
  - intros ->%list_elem_of_singleton. unfold is_digit, is_lower, is_upper, ch_0, ch_9, ch_a, ch_z, ch_A, ch_Z in E. lia.
  - intros ->%list_elem_of_singleton. lia.
  - rewrite !elem_of_cons. unfold hex_upper, ch_0, ch_A. intros [?|[H|[H|H]]]; [lia| | |by apply not_elem_of_nil in H];
      destruct (Z.ltb_spec (b / 16) 10), (Z.ltb_spec (b mod 16) 10); Z.div_mod_to_equations; lia.
Qed.

(** The body of the page's Wi-Fi form. *)
Definition wifi_page_body (n : network) : bytes :=
  literal "ssid=" ++ form_encode (name n) ++ literal "&password=" ++ form_encode (secret n).

Lemma printable_text t : printable t -> Forall text_byte t.
Proof.
  intros Ht. eapply Forall_impl; [exact Ht|]. intros b. unfold control_byte, text_byte. intros [? ?]%orb_false_iff.
  bool_prop. lia.
Qed.

(** A network the user enters on the page arrives as it was entered, if its
    spelling has at most 256 bytes; otherwise the request is malformed. *)
Theorem page_networks_arrive n (Hn : network_ok n) (Hb : Forall byte_value (name n) /\ Forall byte_value (secret n)) :
  deck_setup_http_parse_wifi_request (wifi_page_body n)
  = if (List.length (wifi_page_body n) <=? 256)%nat then (DECK_SETUP_WIFI_REQUEST_OK, Some (credentials_of n))
    else (DECK_SETUP_WIFI_REQUEST_MALFORMED, None).
Proof.
  destruct Hb as [Hb1 Hb2]. pose proof Hn as [H1 H2 H3%printable_text H4%printable_text].
  destruct (Nat.leb_spec (List.length (wifi_page_body n)) 256) as [Hl|Hl].
  - rewrite (wifi_answered _ n).
    + unfold wifi_answer. rewrite (proj2 (Nat.eqb_neq _ _)) by lia.
      destruct (Nat.eqb_spec (List.length (secret n)) 0), (Nat.ltb_spec (List.length (secret n)) 8); cbn [negb andb]; (done || lia).
    + split; [done|]. unfold DECK_WIFI_SSID_CAPACITY, DECK_WIFI_PASSWORD_CAPACITY. split; [|lia].
      exists (literal "ssid"), (form_encode (name n)), (literal "password"), (form_encode (secret n)).
      split; [left|split_and!].
      * change (wifi_page_body n) with (literal "ssid" ++ [61] ++ form_encode (name n) ++ [38]
          ++ (literal "password" ++ [61] ++ form_encode (secret n))).
        apply form_more; [apply (bool_decide_unpack _); reflexivity..|apply form_encode_separator; [by left|done]|].
        apply form_last; [apply (bool_decide_unpack _); reflexivity..|]. apply form_encode_separator; [by left|done].
      * apply (form_encode_spells (literal "ssid")); [text_literal|]. repeat constructor; vm_compute; by repeat split.
      * by apply form_encode_spells.
      * apply (form_encode_spells (literal "password")); [text_literal|]. repeat constructor; vm_compute; by repeat split.
      * by apply form_encode_spells.
  - apply wifi_malformed. intros n' [? _]. lia.
Qed.

(** Chinese characters: each is three bytes, and each byte three in the
    form. *)
Definition long_network : network :=
  {| name := concat (replicate 10 [0xe4; 0xb8; 0xad]); secret := concat (replicate 21 [0xe5; 0xaf; 0x86]) |}.

(** A name and a password within the limits that the page itself states, and
    that the configuration accepts, are refused: 294 bytes of form do not fit
    the parser's 256. *)
Lemma long_credentials_refused :
  network_ok long_network
  /\ deck_setup_http_parse_wifi_request (wifi_page_body long_network) = (DECK_SETUP_WIFI_REQUEST_MALFORMED, None).
Proof.
  split; [|vm_compute; reflexivity].
  constructor; [vm_compute; lia|right; vm_compute; lia|..]; unfold printable; apply Forall_forall; intros b Hb;
    vm_compute in Hb; repeat (apply elem_of_cons in Hb as [->|Hb]; [reflexivity|]); by apply not_elem_of_nil in Hb.
Qed.

Lemma wifi_request_is_exact_witness :
  exists n, submits_wifi (literal "password=&ssid=caf%65") n /\ network_ok n.
Proof.
  destruct (wifi_request_is_exact (literal "password=&ssid=caf%65")) as (_ & _ & H).
  destruct (H (credentials_of {| name := literal "cafe"; secret := [] |})) as (n & Hs & Hn & _);
    [vm_compute; reflexivity|]. by exists n.
Defined.

Definition home_network : network := {| name := literal "Home & Co"; secret := literal "pass=word+1" |}.

Lemma home_network_ok : network_ok home_network.
Proof.
  constructor; [vm_compute; lia|right; vm_compute; lia|..]; unfold printable; repeat constructor.
Qed.

Lemma page_networks_arrive_witness :
  deck_setup_http_parse_wifi_request (literal "ssid=Home+%26+Co&password=pass%3Dword%2B1")
  = (DECK_SETUP_WIFI_REQUEST_OK, Some (credentials_of home_network)).
Proof.
  apply (page_networks_arrive home_network); [exact home_network_ok|]. split; repeat constructor; vm_compute; by repeat split.
Defined.

(** ** The pairing form *)

(** The form of a hub's address and a pairing code. *)
Definition submits_pairing (body address code : bytes) : Prop :=
  (List.length body <= 160)%nat /\ two_members body (literal "hub_address") address (literal "code") code
  /\ (List.length address < DECK_COMPANION_HUB_ADDRESS_CAPACITY)%nat
  /\ (List.length code < DECK_COMPANION_PAIRING_CODE_CAPACITY)%nat.

Definition pair_request (address code : bytes) : deck_companion_pair_request_t :=
  {| request_hub_address := pad DECK_COMPANION_HUB_ADDRESS_CAPACITY address;
     pairing_address := replicate DECK_COMPANION_HUB_ADDRESS_CAPACITY 0;
     CompanionProfiles.code := pad DECK_COMPANION_PAIRING_CODE_CAPACITY code |}.

Definition six_digits (code : bytes) : Prop := List.length code = 6%nat /\ digits code.

Lemma pair_form_loop body address code :
  form_loop 20 pair_member (List.length body) body {| form_address := None; form_code := None |}
  = Some {| form_address := Some address; form_code := Some code |}
  <-> two_members body (literal "hub_address") address (literal "code") code
      /\ (List.length address < DECK_COMPANION_HUB_ADDRESS_CAPACITY)%nat
      /\ (List.length code < DECK_COMPANION_PAIRING_CODE_CAPACITY)%nat.
Proof.
  rewrite <- (two_members_parsed (literal "hub_address") (literal "code") _ _ 20)
    by (try text_literal; try discriminate; vm_compute; lia).
  set (f := fun slots : option bytes * option bytes => {| form_address := slots.1; form_code := slots.2 |}).
  change {| form_address := None; form_code := None |} with (f (None, None)).
  change {| form_address := Some address; form_code := Some code |} with (f (Some address, Some code)).
  rewrite (form_loop_map 20 (two_slots (literal "hub_address") DECK_COMPANION_HUB_ADDRESS_CAPACITY (literal "code")
             DECK_COMPANION_PAIRING_CODE_CAPACITY) _ f).
  - destruct (form_loop _ _ _ _ _) as [[o1 o2]|]; [|done]. unfold f. simpl. split; [by intros [= -> ->]|by intros [= -> ->]].
  - intros key value [o1 o2]. unfold pair_member, two_slots, f. cbn [fst snd form_address form_code].
    destruct (strcmp_eq key (literal "hub_address")); [destruct o1; [done|]; by destruct (decode_form_component _ _)|].
    destruct (strcmp_eq key (literal "code")); [|done]. destruct o2; [done|]. by destruct (decode_form_component _ _).
Qed.

Lemma pair_address_valid address : Forall text_byte address ->
  (List.length address < DECK_COMPANION_HUB_ADDRESS_CAPACITY)%nat ->
  valid_address (pad DECK_COMPANION_HUB_ADDRESS_CAPACITY address) = true <-> hub_text address.
Proof.
  intros Ht Hl. rewrite valid_address_spec, terminated_pad by done. rewrite c_string_pad; [tauto|].
  eapply Forall_impl; [exact Ht|]. unfold text_byte. lia.
Qed.

Lemma pair_code_valid code : Forall text_byte code -> (List.length code < DECK_COMPANION_PAIRING_CODE_CAPACITY)%nat ->
  valid_code (pad DECK_COMPANION_PAIRING_CODE_CAPACITY code) = true <-> six_digits code.
Proof.
  intros Ht Hl. rewrite valid_code_spec, terminated_pad by done. rewrite c_string_pad; [unfold six_digits; tauto|].
  eapply Forall_impl; [exact Ht|]. unfold text_byte. lia.
Qed.

(** C31: The parser on every body: a form of exactly an address and a code is
    answered by the first of the two that is not in its grammar, the code
    before the address, or with the request; everything else is malformed. *)
Theorem pair_request_is_exact body :
  let result := deck_setup_http_parse_companion_pair_request body in
  (forall address code, submits_pairing body address code ->
     (~ six_digits code -> result = (DECK_SETUP_COMPANION_REQUEST_INVALID_CODE, None))
     /\ (six_digits code -> ~ hub_text address -> result = (DECK_SETUP_COMPANION_REQUEST_INVALID_ADDRESS, None))
     /\ (six_digits code -> hub_text address ->
         result = (DECK_SETUP_COMPANION_REQUEST_OK, Some (pair_request address code))))
  /\ ((forall address code, ~ submits_pairing body address code) ->
      result = (DECK_SETUP_COMPANION_REQUEST_MALFORMED, None)).
Proof.
  cbv zeta. unfold deck_setup_http_parse_companion_pair_request. split.
  - intros address code (Hlen & Htwo & Hla & Hlc).
    assert (Forall text_byte address /\ Forall text_byte code) as [Ha Hc]
      by (destruct Htwo as (? & ? & ? & ? & _ & _ & H1 & _ & H2); split; by eapply encodes_text).
    assert (body <> []) as Hne by (intros ->; destruct Htwo as (? & ? & ? & ? & [H%form_text_nil|H%form_text_nil] & _); discriminate H).
    rewrite (proj2 (Nat.eqb_neq _ _)), (proj2 (Nat.ltb_ge _ _)) by (destruct body; simpl in *; (done || lia)). cbn [orb].
    rewrite (proj2 (pair_form_loop body address code)) by done. cbv zeta. fold (pair_request address code).
    cbn [CompanionProfiles.code request_hub_address pair_request].
    pose proof (pair_address_valid address Ha Hla) as Va. pose proof (pair_code_valid code Hc Hlc) as Vc.
    destruct (valid_code _), (valid_address _); cbn [negb]; naive_solver.
  - intros Hno. destruct (_ || _) eqn:E; [done|]. bool_prop.
    destruct (form_loop _ _ _ _ _) as [[[a|] [c|]]|] eqn:El; try done. exfalso.
    apply pair_form_loop in El. apply (Hno a c). split; [lia|exact El].
Qed.

Lemma pair_request_is_exact_witness :
  deck_setup_http_parse_companion_pair_request (literal "code=12a456&hub_address=x")
  = (DECK_SETUP_COMPANION_REQUEST_INVALID_CODE, None).
Proof.
  apply (pair_request_is_exact (literal "code=12a456&hub_address=x")) with (address := literal "x") (code := literal "12a456").
  - split; [vm_compute; lia|]. apply (pair_form_loop _ (literal "x") (literal "12a456")). vm_compute. reflexivity.
  - intros [_ Hd]. apply (Forall_lookup_1 _ _ 2 97) in Hd; [discriminate Hd|reflexivity].
Defined.
