(* ===== verification/SetupNumbers.v ===== *)
(** * The numbers and identifiers the setup portal accepts

    Temperatures in tenths, priorities, profile identifiers, tokens and
    acknowledgements: which bodies the parsers of SetupHttp accept, and what
    they read. *)

From Stdlib Require Import String.
From S2P Require Import Prelude CString Print ProfileText SetupConfirmation DeviceSettings CompanionProfiles SetupHttp SetupForm.

(** ** Decimals *)

(** [decimal_text t n k]: [t] is a decimal with [k] digits behind the point,
    if there is one, whose value is [n / 10^k]. *)
Definition decimal_text (t : bytes) (n k : Z) : Prop :=
  exists sign ip fd tail,
    t = sign ++ ip ++ tail /\ (sign = [] \/ sign = [ch_plus] \/ sign = [ch_minus]) /\ ip <> [] /\ digits ip
    /\ (tail = [] /\ fd = [] \/ tail = ch_dot :: fd /\ fd <> []) /\ digits fd
    /\ n = (if decide (sign = [ch_minus]) then -1 else 1) * decimal (ip ++ fd) /\ k = Z.of_nat (List.length fd).

Lemma decimal_from_app v a b : decimal_from v (a ++ b) = decimal_from (decimal_from v a) b.
Proof. apply fold_left_app. Qed.

Lemma decimal_from_shift v ds : decimal_from v ds = v * 10 ^ Z.of_nat (List.length ds) + decimal ds.
Proof.
  revert v. induction ds as [|d ds IH]; intros v; [unfold decimal_from, decimal; simpl; lia|].
  unfold decimal_from, decimal in *. cbn [fold_left List.length]. rewrite IH, (IH (0 * 10 + _)).
  rewrite Nat2Z.inj_succ, Z.pow_succ_r by lia. ring.
Qed.

Lemma decimal_bound ds : digits ds -> 0 <= decimal ds < 10 ^ Z.of_nat (List.length ds).
Proof.
  induction ds as [|d ds IH]; intros Hd; [unfold decimal; simpl; lia|]. apply Forall_cons in Hd as [Hd%is_digit_value Hds].
  specialize (IH Hds). change (decimal (d :: ds)) with (decimal_from (0 * 10 + (d - ch_0)) ds).
  rewrite decimal_from_shift. unfold ch_0. cbn [List.length]. rewrite Nat2Z.inj_succ, Z.pow_succ_r by lia. nia.
Qed.

Lemma decimal_zeros ds : digits ds -> decimal ds = 0 <-> Forall (fun d => d = ch_0) ds.
Proof.
  induction ds as [|d ds IH]; intros Hd; [by split; [constructor|]|]. apply Forall_cons in Hd as [Hd%is_digit_value Hds].
  specialize (IH Hds). rewrite Forall_cons, <- IH. change (decimal (d :: ds)) with (decimal_from (0 * 10 + (d - ch_0)) ds).
  rewrite decimal_from_shift. pose proof (decimal_bound ds Hds) as Hb. unfold ch_0 in *.
  assert (0 < 10 ^ Z.of_nat (List.length ds)) by (apply Z.pow_pos_nonneg; lia). nia.
Qed.

Definition not_digit_first (t : bytes) : Prop := is_digit t.[0] = false.

(** The integer, or that it is too large. *)
Lemma integer_loop_spec ip rest i large : digits ip -> not_digit_first rest -> 0 <= i ->
  exists i' large', integer_loop (ip ++ rest) i large = (i', large', rest)
    /\ (large' = large /\ i' = decimal_from i ip \/ large' = true /\ 1000 < decimal_from i ip).
Proof.
  intros Hd Hr. revert i large. induction ip as [|d ip IH]; intros i large Hi.
  { exists i, large. split; [|by left]. destruct rest as [|b rest]; [done|]. simpl.
    unfold not_digit_first, byte_at in Hr. simpl in Hr. by rewrite Hr. }
  apply Forall_cons in Hd as [Hd Hds]. simpl. rewrite Hd. apply is_digit_value in Hd.
  change (decimal_from i (d :: ip)) with (decimal_from (i * 10 + (d - ch_0)) ip).
  destruct (Z.leb_spec i 1000); [apply IH; [done|unfold ch_0; lia]|].
  destruct (IH Hds i true Hi) as (i' & large' & E & Hcase). exists i', true.
  assert (large' = true) as -> by (destruct Hcase as [[-> _]|[-> _]]; done). split; [exact E|]. right. split; [done|].
  pose proof (decimal_from_ge ip (i * 10 + (d - ch_0)) ltac:(unfold ch_0; lia) Hds). unfold ch_0 in *. lia.
Qed.

Lemma zeros_loop_spec fs rest : digits fs -> not_digit_first rest ->
  zeros_loop (fs ++ rest) = if decide (decimal fs = 0) then Some rest else None.
Proof.
  intros Hd Hr. induction fs as [|d fs IH].
  { simpl. destruct rest as [|b rest]; [done|]. simpl. unfold not_digit_first, byte_at in Hr. simpl in Hr. by rewrite Hr. }
  pose proof (decimal_zeros (d :: fs) Hd) as Hz. apply Forall_cons in Hd as [Hd Hds].
  pose proof (decimal_zeros fs Hds) as Hz'. simpl. rewrite Hd. rewrite (IH Hds). clear IH.
  rewrite Forall_cons in Hz. destruct (Z.eqb_spec d ch_0); cbn [negb]; repeat case_decide; tauto.
Qed.

(** The parts of a decimal, and their value in tenths: [None] if there is a
    digit other than zero behind the tenths. *)
Definition tenths (sign ip fd : bytes) : option Z :=
  match fd with
  | [] => Some ((if decide (sign = [ch_minus]) then -1 else 1) * (10 * decimal ip))
  | f :: fs => if decide (decimal fs = 0)
               then Some ((if decide (sign = [ch_minus]) then -1 else 1) * (10 * decimal ip + (f - ch_0))) else None
  end.

Definition temperature_answer (value : option Z) : deck_setup_temperature_request_result_t * option Z :=
  match value with
  | None => (DECK_SETUP_TEMPERATURE_REQUEST_NOT_EXACT_TENTH, None)
  | Some v => if (-150 <=? v) && (v <=? 150) then (DECK_SETUP_TEMPERATURE_REQUEST_OK, Some v)
              else (DECK_SETUP_TEMPERATURE_REQUEST_OUT_OF_RANGE, None)
  end.

(** [parse_decimal_tenths] behind the sign. *)
Definition parse_unsigned_tenths (negative : bool) (value : bytes) : deck_setup_temperature_request_result_t * option Z :=
  if negb (is_digit value.[0]) then (DECK_SETUP_TEMPERATURE_REQUEST_NOT_NUMERIC, None)
  else
    let '(integer, too_large, value) := integer_loop value 0 false in
    match tenth_part value with
    | inl result => (result, None)
    | inr (tenth, value) =>
        if negb (value.[0] =? 0) then (DECK_SETUP_TEMPERATURE_REQUEST_NOT_NUMERIC, None)
        else if too_large || (15 <? integer) || ((integer =? 15) && negb (tenth =? 0))
        then (DECK_SETUP_TEMPERATURE_REQUEST_OUT_OF_RANGE, None)
        else
          let magnitude := integer * 10 + tenth in
          (DECK_SETUP_TEMPERATURE_REQUEST_OK, Some (i16 (if negative then - magnitude else magnitude)))
    end.

Definition sign_text (sign : bytes) : Prop := sign = [] \/ sign = [ch_plus] \/ sign = [ch_minus].

Lemma parse_sign sign value : sign_text sign ->
  (sign = [] -> value.[0] <> 0 /\ value.[0] <> ch_plus /\ value.[0] <> ch_minus) ->
  parse_decimal_tenths (sign ++ value) = parse_unsigned_tenths (if decide (sign = [ch_minus]) then true else false) value.
Proof.
  intros Hs Hv. unfold parse_decimal_tenths. destruct Hs as [->|[->| ->]].
  - specialize (Hv eq_refl) as (H0 & H1 & H2). rewrite app_nil_l.
    rewrite (proj2 (Z.eqb_neq _ 0)), (proj2 (Z.eqb_neq _ ch_plus)), (proj2 (Z.eqb_neq _ ch_minus)) by done. reflexivity.
  - reflexivity.
  - reflexivity.
Qed.

Lemma digit_first (sign ip tail : bytes) : ip <> [] -> digits ip ->
  is_digit (ip ++ tail).[0] = true
  /\ (sign = [] -> (ip ++ tail).[0] <> 0 /\ (ip ++ tail).[0] <> ch_plus /\ (ip ++ tail).[0] <> ch_minus).
Proof.
  destruct ip as [|d ip]; [done|]. intros _ [Hd _]%Forall_cons. unfold byte_at. simpl. split; [exact Hd|].
  apply is_digit_value in Hd. unfold ch_plus, ch_minus. lia.
Qed.

(** The result for an integer, its size flag and a tenth. *)
Lemma tenths_in_range (negative : bool) ip i large tenth : digits ip -> 0 <= tenth <= 9 ->
  (large = false /\ i = decimal ip \/ large = true /\ 1000 < decimal ip) ->
  let v := (if negative then -1 else 1) * (10 * decimal ip + tenth) in
  (if large || (15 <? i) || ((i =? 15) && negb (tenth =? 0)) then (DECK_SETUP_TEMPERATURE_REQUEST_OUT_OF_RANGE, None)
   else let magnitude := i * 10 + tenth in
        (DECK_SETUP_TEMPERATURE_REQUEST_OK, Some (i16 (if negative then - magnitude else magnitude))))
  = temperature_answer (Some v).
Proof.
  intros Hd Ht Hi v. pose proof (decimal_bound ip Hd) as [H0 _]. unfold temperature_answer.
  destruct (_ || _) eqn:E.
  - rewrite (proj2 (andb_false_iff _ _)); [done|]. rewrite !Z.leb_gt. subst v.
    assert (150 < 10 * decimal ip + tenth) as Hbig; [|destruct negative; lia].
    destruct Hi as [[-> ->]|[-> ?]]; [|lia]. bool_cases; lia.
  - bool_prop. destruct Hi as [[-> ->]|[-> ?]]; [|done].
    assert (10 * decimal ip + tenth <= 150) as Hle
      by (apply andb_false_iff in H1 as [?|?]; bool_prop; lia).
    rewrite (proj2 (andb_true_iff _ _)) by (rewrite !Z.leb_le; subst v; destruct negative; lia).
    do 2 f_equal. subst v. destruct negative; unfold i16; words.
Qed.

Definition tail_of (tail fd : bytes) : Prop := tail = [] /\ fd = [] \/ tail = ch_dot :: fd /\ fd <> [].

Lemma tail_not_digit tail fd : tail_of tail fd -> not_digit_first tail.
Proof. by intros [[-> _]|[-> _]]. Qed.

(** A decimal is answered by its value in tenths. *)
Lemma parse_decimal_answer sign ip fd tail : sign_text sign -> ip <> [] -> digits ip -> tail_of tail fd -> digits fd ->
  parse_decimal_tenths (sign ++ ip ++ tail) = temperature_answer (tenths sign ip fd).
Proof.
  intros Hs Hne Hd Ht Hfd. destruct (digit_first sign ip tail Hne Hd) as [Hfirst Hv].
  rewrite parse_sign by done. unfold parse_unsigned_tenths. rewrite Hfirst. cbn [negb].
  destruct (integer_loop_spec ip tail 0 false Hd (tail_not_digit _ _ Ht) ltac:(lia)) as (i & large & -> & Hi).
  change (decimal_from 0 ip) with (decimal ip) in Hi.
  assert ((if decide (sign = [ch_minus]) then -1 else 1)
    = if (if decide (sign = [ch_minus]) then true else false) then -1 else 1) as Esign by (by case_decide).
  destruct Ht as [[-> ->]|[-> Hfn]].
  - unfold tenths. rewrite Esign. cbn [tenth_part].
    change (tenth_part []) with (@inr deck_setup_temperature_request_result_t _ (0, @nil Z)). cbv iota.
    change (negb (byte_at (@nil Z) 0 =? 0)) with false. cbv iota.
    rewrite (tenths_in_range _ ip i large 0 Hd ltac:(lia) Hi). by rewrite Z.add_0_r.
  - destruct fd as [|f fs]; [done|]. pose proof Hfd as [Hf Hfs]%Forall_cons. unfold tenth_part, tenths.
    change ((ch_dot :: f :: fs).[0] =? ch_dot) with true. cbv iota. change (drop 1 (ch_dot :: f :: fs)) with (f :: fs).
    change ((f :: fs).[0]) with f. rewrite Hf. cbn [negb]. change (drop 1 (f :: fs)) with fs.
    pose proof (zeros_loop_spec fs [] Hfs eq_refl) as Hz. rewrite app_nil_r in Hz. rewrite Hz, Esign. case_decide; [|done].
    change (negb (byte_at (@nil Z) 0 =? 0)) with false. cbv iota. apply is_digit_value in Hf.
    by apply tenths_in_range; [|unfold ch_0; lia|].
Qed.

Lemma leading_digits t : exists ds rest, t = ds ++ rest /\ digits ds /\ not_digit_first rest.
Proof.
  induction t as [|b t (ds & rest & -> & Hd & Hr)]; [exists [], []; split; [done|]; by split; [constructor|]|].
  destruct (is_digit b) eqn:E; [exists (b :: ds), rest; split; [done|]; split; [by constructor|done]|].
  exists [], (b :: ds ++ rest). split; [done|]. split; [constructor|exact E].
Qed.

Lemma first_nonzero t : Forall text_byte t -> t <> [] -> t.[0] <> 0.
Proof. destruct t; [done|]. intros [[? _] _]%Forall_cons _. unfold byte_at. simpl. lia. Qed.

Definition not_a_decimal (result : deck_setup_temperature_request_result_t * option Z) : Prop :=
  result = (DECK_SETUP_TEMPERATURE_REQUEST_NOT_NUMERIC, None)
  \/ result = (DECK_SETUP_TEMPERATURE_REQUEST_NOT_EXACT_TENTH, None).

Lemma parse_unsigned_spec negative value : Forall text_byte value ->
  (exists ip fd tail, value = ip ++ tail /\ ip <> [] /\ digits ip /\ tail_of tail fd /\ digits fd)
  \/ not_a_decimal (parse_unsigned_tenths negative value).
Proof.
  intros Ht. unfold parse_unsigned_tenths. destruct (leading_digits value) as (ip & rest & -> & Hd & Hr).
  destruct ip as [|d ip]; [right; left; unfold not_digit_first in Hr; simpl; by rewrite Hr|].
  destruct (digit_first [] (d :: ip) rest ltac:(done) Hd) as [-> _]. cbn [negb].
  destruct (integer_loop_spec (d :: ip) rest 0 false Hd Hr ltac:(lia)) as (i & large & -> & _).
  apply Forall_app in Ht as [_ Ht]. destruct rest as [|c rest].
  { left. exists (d :: ip), [], []. split; [done|]. split; [done|]. split; [exact Hd|]. split; [by left|constructor]. }
  unfold tenth_part. change ((c :: rest).[0]) with c. destruct (Z.eqb_spec c ch_dot) as [->|Hc].
  - change (drop 1 (ch_dot :: rest)) with rest. destruct (leading_digits rest) as (fd & rest' & -> & Hfd & Hr').
    destruct fd as [|f fs]; [right; left; unfold not_digit_first in Hr'; simpl; by rewrite Hr'|].
    pose proof Hfd as [Hf Hfs]%Forall_cons. change (((f :: fs) ++ rest').[0]) with f. rewrite Hf. cbn [negb].
    change (drop 1 ((f :: fs) ++ rest')) with (fs ++ rest'). rewrite zeros_loop_spec by done.
    destruct (decide (rest' = [])) as [->|Hne].
    { left. exists (d :: ip), (f :: fs), (ch_dot :: f :: fs). rewrite app_nil_r. split_and!; try done. by right. }
    right. case_decide; [|by right]. left. apply Forall_cons in Ht as [_ Ht]. apply Forall_app in Ht as [_ Ht].
    pose proof (first_nonzero _ Ht Hne). by rewrite (proj2 (Z.eqb_neq _ 0)).
  - right. left. pose proof (first_nonzero _ Ht ltac:(done)). by rewrite (proj2 (Z.eqb_neq _ 0)).
Qed.

Lemma tenths_value sign ip fd : digits ip -> digits fd ->
  let n := (if decide (sign = [ch_minus]) then -1 else 1) * decimal (ip ++ fd) in
  let k := Z.of_nat (List.length fd) in
  match tenths sign ip fd with
  | Some v => 10 * n = v * 10 ^ k
  | None => forall v, 10 * n <> v * 10 ^ k
  end.
Proof.
  intros Hip Hfd. cbv zeta. change (decimal (ip ++ fd)) with (decimal_from 0 (ip ++ fd)).
  rewrite decimal_from_app. change (decimal_from 0 ip) with (decimal ip). rewrite decimal_from_shift.
  set (sgn := if decide (sign = [ch_minus]) then -1 else 1). assert (sgn = 1 \/ sgn = -1) as Hsgn by (unfold sgn; case_decide; lia).
  destruct fd as [|f fs]; [cbn [tenths List.length]; fold sgn; change (decimal []) with 0; change (10 ^ Z.of_nat 0) with 1; ring|].
  pose proof Hfd as [Hf%is_digit_value Hfs]%Forall_cons. unfold tenths. fold sgn.
  change (decimal (f :: fs)) with (decimal_from (0 * 10 + (f - ch_0)) fs). rewrite decimal_from_shift.
  cbn [List.length]. rewrite Nat2Z.inj_succ, Z.pow_succ_r by lia.
  pose proof (decimal_bound fs Hfs) as Hb. set (p := 10 ^ Z.of_nat (List.length fs)) in *.
  case_decide as Ez; [rewrite Ez; ring|].
  intros v E. assert (exists w, decimal fs = w * p) as [w Ew].
  { exists (sgn * v - 10 * decimal ip - (f - ch_0)). destruct Hsgn as [-> | ->]; lia. }
  clear - Ew Hb Ez. destruct (Z.le_gt_cases w 0); nia.
Qed.

(** ** Bodies of one member *)

Lemma has_prefix_spec prefix body : has_prefix prefix body = true <-> exists rest, body = prefix ++ rest.
Proof.
  unfold has_prefix. rewrite bool_decide_eq_true. split.
  - intros E. exists (drop (List.length prefix) body). by rewrite <- E at 1; rewrite take_drop.
  - intros [rest ->]. apply take_app_length.
Qed.

Lemma no_separator (ch : Z) (l : bytes) : existsb (fun byte => byte =? ch) l = false <-> ch ∉ l.
Proof.
  induction l as [|b l IH]; simpl; [by split; [intros _; apply not_elem_of_nil|]|].
  rewrite orb_false_iff, IH, Z.eqb_neq, not_elem_of_cons. naive_solver.
Qed.

(** [body] is [prefix] and a component that spells [t]. *)
Definition one_member (prefix body t : bytes) : Prop :=
  exists raw, body = prefix ++ raw /\ 38 ∉ raw /\ encodes raw t.

Definition submits_temperature (body t : bytes) : Prop :=
  (List.length body <= 64)%nat /\ one_member (literal "offset=") body t /\ (List.length t < 32)%nat.

Lemma temperature_guard body :
  (List.length body =? 0)%nat || (64 <? List.length body)%nat || (List.length body <? List.length (literal "offset="))%nat
  || negb (has_prefix (literal "offset=") body) || existsb (fun byte => byte =? 38) body = false
  <-> (List.length body <= 64)%nat /\ exists raw, body = literal "offset=" ++ raw /\ 38 ∉ raw.
Proof.
  rewrite !orb_false_iff, negb_false_iff, has_prefix_spec, Nat.eqb_neq, !Nat.ltb_ge, no_separator. split.
  - intros [[[[_ Hl] _] [raw ->]] Hno]. split; [exact Hl|]. exists raw. split; [done|]. intros H. apply Hno. rewrite elem_of_app. by right.
  - intros (Hl & raw & -> & Hr). rewrite !length_app in *. change (List.length (literal "offset=")) with 7%nat in *.
    split; [|rewrite elem_of_app; intros [H|H]; [|done]; vm_compute in H;
             repeat (apply elem_of_cons in H as [H|H]; [discriminate H|]); by apply not_elem_of_nil in H].
    split; [split; [split; lia|lia]|by eexists].
Qed.

Lemma temperature_submitted body t : submits_temperature body t ->
  deck_setup_http_parse_temperature_request body = parse_decimal_tenths t.
Proof.
  intros (Hl & (raw & -> & Hr & He) & Ht). unfold deck_setup_http_parse_temperature_request.
  rewrite (proj2 (temperature_guard _)) by eauto.
  change (drop (List.length (literal "offset=")) (literal "offset=" ++ raw)) with raw.
  by rewrite (proj2 (decode_form_component_spec raw 32 t)).
Qed.

Lemma temperature_cases body : (exists t, submits_temperature body t)
  \/ (forall t, ~ submits_temperature body t)
     /\ deck_setup_http_parse_temperature_request body = (DECK_SETUP_TEMPERATURE_REQUEST_MALFORMED, None).
Proof.
  unfold deck_setup_http_parse_temperature_request. destruct (_ || _) eqn:Eg.
  - right. split; [|done]. intros t (Hl & (raw & E & Hr & _) & _).
    by rewrite (proj2 (temperature_guard _)) in Eg by eauto.
  - apply temperature_guard in Eg as (Hl & raw & -> & Hr).
    change (drop (List.length (literal "offset=")) (literal "offset=" ++ raw)) with raw.
    destruct (decode_form_component raw 32) as [t|] eqn:Ed.
    + apply decode_form_component_spec in Ed as [He Ht]. left. exists t. split; [exact Hl|]. split; [|done]. by exists raw.
    + right. split; [|done]. intros t (_ & (raw' & Eq & _ & He) & Ht). apply app_inv_head in Eq as <-.
      by rewrite (proj2 (decode_form_component_spec raw 32 t)) in Ed.
Qed.

Lemma submitted_temperature_text body t : submits_temperature body t -> Forall text_byte t.
Proof. intros (_ & (raw & _ & _ & He) & _). by eapply encodes_text. Qed.

(** A decimal has one value; its answer. *)
Lemma decimal_answer t n k : decimal_text t n k ->
  exists value, parse_decimal_tenths t = temperature_answer value
    /\ match value with Some v => 10 * n = v * 10 ^ k | None => forall v, 10 * n <> v * 10 ^ k end.
Proof.
  intros (sign & ip & fd & tail & -> & Hs & Hne & Hd & Ht & Hfd & -> & ->).
  exists (tenths sign ip fd). split; [by apply parse_decimal_answer|]. by apply tenths_value.
Qed.

Lemma decimal_or_not t : Forall text_byte t ->
  (exists n k, decimal_text t n k) \/ not_a_decimal (parse_decimal_tenths t).
Proof.
  intros Ht. destruct t as [|b t]; [right; by left|].
  assert (exists sign value, b :: t = sign ++ value /\ sign_text sign
    /\ (sign = [] -> value.[0] <> 0 /\ value.[0] <> ch_plus /\ value.[0] <> ch_minus)) as (sign & value & E & Hs & Hv).
  { pose proof (first_nonzero _ Ht ltac:(done)) as H0. change ((b :: t).[0]) with b in H0.
    destruct (decide (b = ch_plus)) as [->|]; [exists [ch_plus], t; split; [done|]; split; [right; by left|done]|].
    destruct (decide (b = ch_minus)) as [->|]; [exists [ch_minus], t; split; [done|]; split; [right; by right|done]|].
    exists [], (b :: t). split; [done|]. split; [by left|]. done. }
  rewrite E, parse_sign by done. rewrite E in Ht. apply Forall_app in Ht as [_ Ht].
  destruct (parse_unsigned_spec (if decide (sign = [ch_minus]) then true else false) value Ht)
    as [(ip & fd & tail & -> & Hne & Hd & Htl & Hfd)|Hbad]; [left|by right].
  do 2 eexists. exists sign, ip, fd, tail. split; [reflexivity|]. by split_and!.
Qed.

Lemma pow_cancel v v' k : 0 <= k -> v * 10 ^ k = v' * 10 ^ k -> v = v'.
Proof. intros Hk. assert (0 < 10 ^ k) by (apply Z.pow_pos_nonneg; lia). nia. Qed.

Lemma decimal_places t n k : decimal_text t n k -> 0 <= k.
Proof. intros (? & ? & ? & ? & _ & _ & _ & _ & _ & _ & _ & ->). lia. Qed.

(** The temperature request on every body: a decimal is accepted exactly when
    it is a whole number of tenths between -15.0 and 15.0, which is the result;
    otherwise the answer says what is wrong.  An accepted offset is one the
    settings accept. *)
Theorem temperature_request_is_exact body :
  let result := deck_setup_http_parse_temperature_request body in
  (forall t n k v, submits_temperature body t -> decimal_text t n k -> 10 * n = v * 10 ^ k ->
     result = if decide (-150 <= v <= 150) then (DECK_SETUP_TEMPERATURE_REQUEST_OK, Some v)
              else (DECK_SETUP_TEMPERATURE_REQUEST_OUT_OF_RANGE, None))
  /\ (forall t n k, submits_temperature body t -> decimal_text t n k -> (forall v, 10 * n <> v * 10 ^ k) ->
     result = (DECK_SETUP_TEMPERATURE_REQUEST_NOT_EXACT_TENTH, None))
  /\ (forall t, submits_temperature body t -> (forall n k, ~ decimal_text t n k) -> not_a_decimal result)
  /\ ((forall t, ~ submits_temperature body t) -> result = (DECK_SETUP_TEMPERATURE_REQUEST_MALFORMED, None))
  /\ (forall v, result.2 = Some v -> valid_offset v = true).
Proof.
  cbv zeta. split_and!.
  - intros t n k v Hs Hd Hv. rewrite (temperature_submitted _ _ Hs). pose proof (decimal_places _ _ _ Hd) as Hk.
    destruct (decimal_answer t n k Hd) as (value & -> & Hval). destruct value as [v'|]; [|by specialize (Hval v)].
    assert (v' = v) as -> by (eapply pow_cancel; [exact Hk|congruence]). unfold temperature_answer.
    case_decide; [rewrite (proj2 (andb_true_iff _ _)) by (rewrite !Z.leb_le; lia); done|].
    rewrite (proj2 (andb_false_iff _ _)) by (rewrite !Z.leb_gt; lia). done.
  - intros t n k Hs Hd Hv. rewrite (temperature_submitted _ _ Hs).
    destruct (decimal_answer t n k Hd) as ([v|] & -> & Hval); [by specialize (Hv v)|done].
  - intros t Hs Hno. rewrite (temperature_submitted _ _ Hs).
    destruct (decimal_or_not t (submitted_temperature_text _ _ Hs)) as [(n & k & Hd)|]; [by destruct (Hno n k)|done].
  - intros Hno. destruct (temperature_cases body) as [[t Hs]|[_ ?]]; [by destruct (Hno t)|done].
  - intros v. destruct (temperature_cases body) as [[t Hs]|[_ ->]]; [|done]. rewrite (temperature_submitted _ _ Hs).
    destruct (decimal_or_not t (submitted_temperature_text _ _ Hs)) as [(n & k & Hd)|[-> | ->]]; [|done..].
    destruct (decimal_answer t n k Hd) as ([v'|] & -> & _); [|done]. unfold temperature_answer.
    destruct (_ && _) eqn:E; [|done]. intros [= <-]. exact E.
Qed.

(** The factory offset, as the page submits it. *)
Lemma temperature_request_is_exact_witness :
  deck_setup_http_parse_temperature_request (literal "offset=-4.0") = (DECK_SETUP_TEMPERATURE_REQUEST_OK, Some (-40)).
Proof.
  apply (proj1 (temperature_request_is_exact (literal "offset=-4.0")) (literal "-4.0") (-40) 1 (-40)); [| |reflexivity].
  - split; [apply Nat.leb_le; reflexivity|]. split; [|apply Nat.leb_le; reflexivity]. exists (literal "-4.0").
    split; [reflexivity|]. split; [apply (bool_decide_unpack _); reflexivity|].
    repeat (apply encodes_plain; [discriminate|discriminate|unfold text_byte; vm_compute; by split|]). constructor.
  - exists [ch_minus], (literal "4"), (literal "0"), (literal ".0"). split; [reflexivity|]. split; [right; by right|].
    split; [discriminate|]. split; [repeat constructor|]. split; [right; split; [reflexivity|discriminate]|].
    split; [repeat constructor|]. split; reflexivity.
Defined.

(** ** Priorities *)

(** A decimal integer: a minus sign at most, and digits. *)
Definition integer_spelling (t : bytes) (z : Z) : Prop :=
  exists sign ds, t = sign ++ ds /\ (sign = [] \/ sign = [ch_minus]) /\ ds <> [] /\ digits ds
    /\ z = (if decide (sign = [ch_minus]) then -1 else 1) * decimal ds.

Lemma magnitude_loop_spec maximum ds m result : 9 <= maximum <= 2147483648 -> 0 <= m <= maximum ->
  magnitude_loop maximum ds m = Some result <-> digits ds /\ result = decimal_from m ds /\ result <= maximum.
Proof.
  intros Hmax. revert m. induction ds as [|d ds IH]; intros m Hm; cbn [magnitude_loop].
  { unfold decimal_from. simpl. split; [intros [= <-]; split_and!; [constructor|done|lia]|by intros (_ & -> & _)]. }
  unfold digits. rewrite Forall_cons. destruct (is_digit d) eqn:Ed; cbn [negb orb]; [|naive_solver].
  pose proof (is_digit_value _ Ed) as Hd. unfold ch_0.
  assert (u64 (maximum - (d - 48)) = maximum - (d - 48)) as -> by words.
  change (decimal_from m (d :: ds)) with (decimal_from (m * 10 + (d - 48)) ds).
  destruct (Z.ltb_spec ((maximum - (d - 48)) / 10) m) as [Hlt|Hle].
  - split; [done|]. intros ([_ Hds] & -> & Hr).
    pose proof (decimal_from_ge ds (m * 10 + (d - 48)) ltac:(lia) Hds).
    assert (maximum < m * 10 + (d - 48)) by (Z.div_mod_to_equations; lia). lia.
  - assert (m * 10 + (d - 48) <= maximum) by (Z.div_mod_to_equations; lia).
    rewrite u64_id by words. rewrite IH by lia. unfold digits. naive_solver.
Qed.

Lemma decode_priority_spec t z : Forall text_byte t ->
  decode_priority t = Some z <-> integer_spelling t z /\ -2147483648 <= z <= 2147483647.
Proof.
  intros Ht. unfold decode_priority.
  assert (forall sign ds, t = sign ++ ds -> sign = [] \/ sign = [ch_minus] -> ds <> [] -> ds.[0] <> 0) as Hfirst.
  { intros sign ds -> _ Hne. apply Forall_app in Ht as [_ Ht]. by apply first_nonzero. }
  destruct (Z.eqb_spec t.[0] ch_minus) as [Em|Em].
  - destruct t as [|b ds]; [done|]. unfold byte_at in Em. simpl in Em. subst b. change (drop 1 (ch_minus :: ds)) with ds.
    split.
    + destruct (Z.eqb_spec ds.[0] 0) as [|E0]; [done|]. intros (m & Hm & [= <-])%bind_Some.
      apply magnitude_loop_spec in Hm as (Hd & Em & Hmax); [|lia|lia]. pose proof (decimal_bound ds Hd) as [H0 _].
      change (decimal_from 0 ds) with (decimal ds) in Em. split.
      * exists [ch_minus], ds. split; [done|]. split; [by right|]. split; [by intros ->|]. split; [done|].
        rewrite decide_True by done. destruct (Z.eqb_spec m 2147483648); [lia|]. unfold i32. words.
      * destruct (Z.eqb_spec m 2147483648); [lia|]. unfold i32. words.
    + intros ((sign & ds' & E & Hs & Hne & Hd & Ez) & Hr).
      destruct Hs as [->| ->].
      { simpl in E. subst ds'. apply Forall_cons in Hd as [Hd%is_digit_value _]. unfold ch_minus in Hd. lia. }
      injection E as <-. rewrite decide_True in Ez by done. pose proof (decimal_bound ds Hd) as [H0 _].
      rewrite (proj2 (Z.eqb_neq ds.[0] 0)) by (apply (Hfirst [ch_minus] ds); [done|by right|done]).
      rewrite (proj2 (magnitude_loop_spec 2147483648 ds 0 (decimal ds) ltac:(lia) ltac:(lia))) by (split_and!; [done|done|lia]).
      cbn [mbind option_bind]. f_equal. destruct (Z.eqb_spec (decimal ds) 2147483648); [lia|]. unfold i32. words.
  - split.
    + destruct (Z.eqb_spec t.[0] 0) as [|E0]; [done|]. intros (m & Hm & [= <-])%bind_Some.
      apply magnitude_loop_spec in Hm as (Hd & Ev & Hmax); [|lia|lia]. pose proof (decimal_bound t Hd) as [H0 _].
      change (decimal_from 0 t) with (decimal t) in Ev. assert (i32 m = m) as Ei by (unfold i32; words). split; [|lia].
      exists [], t. split; [done|]. split; [by left|]. split; [by intros ->|]. split; [done|].
      rewrite decide_False by done. lia.
    + intros ((sign & ds & -> & Hs & Hne & Hd & Ez) & Hr). destruct Hs as [->| ->]; [|done]. rewrite app_nil_l in *.
      rewrite decide_False in Ez by done. pose proof (decimal_bound ds Hd) as [H0 _].
      rewrite (proj2 (Z.eqb_neq ds.[0] 0)) by (apply (Hfirst [] ds); [done|by left|done]).
      rewrite (proj2 (magnitude_loop_spec 2147483647 ds 0 (decimal ds) ltac:(lia) ltac:(lia))) by (split_and!; [done|done|lia]).
      cbn [mbind option_bind]. f_equal. unfold i32. words.
Qed.

(** ** Identifiers *)

(** A profile's identifier: the SHA-256 fingerprint in lower case. *)
Definition profile_identifier (id : bytes) : Prop :=
  exists h, id = literal "sha256:" ++ h /\ List.length h = 64%nat /\ Forall (fun b => lower_hex b = true) h.

Lemma indexed_forall (P : Z -> bool) (l : bytes) from n :
  forallb (fun index => P l.[index]) (seq from n) = true
  <-> forall i, (from <= i < from + n)%nat -> P l.[i] = true.
Proof.
  rewrite forallb_forall. split; [intros H i Hi; apply H, in_seq; lia|]. intros H i Hi%in_seq. apply H. lia.
Qed.

Lemma forall_indexed (P : Z -> bool) (l : bytes) : Forall (fun b => P b = true) l
  <-> forall i, (i < List.length l)%nat -> P l.[i] = true.
Proof.
  rewrite Forall_lookup. split.
  - intros H i [b Hb]%lookup_lt_is_Some_2. unfold byte_at. rewrite Hb. by eapply H.
  - intros H i b Hb. specialize (H i (lookup_lt_Some _ _ _ Hb)). unfold byte_at in H. by rewrite Hb in H.
Qed.

Lemma canonical_profile_id_spec id : Forall text_byte id -> canonical_profile_id id = true <-> profile_identifier id.
Proof.
  intros Ht. unfold canonical_profile_id, strlen. rewrite text_c_string by done.
  rewrite !andb_true_iff, Nat.eqb_eq, has_prefix_spec, indexed_forall. unfold profile_identifier. split.
  - intros [[Hl [h ->]] Hh]. exists h. split; [done|]. rewrite length_app in Hl. change (List.length (literal "sha256:")) with 7%nat in Hl.
    split; [lia|]. apply forall_indexed. intros i Hi. specialize (Hh (7 + i)%nat ltac:(lia)).
    unfold byte_at in *. rewrite lookup_app_r in Hh by (vm_compute; lia).
    replace (7 + i - List.length (literal "sha256:"))%nat with i in Hh by (change (List.length (literal "sha256:")) with 7%nat; lia). done.
  - intros (h & -> & Hl & Hh). rewrite length_app. change (List.length (literal "sha256:")) with 7%nat.
    split; [split; [lia|by eexists]|]. intros i Hi. unfold byte_at. rewrite lookup_app_r by (change (List.length (literal "sha256:")) with 7%nat; lia).
    change (List.length (literal "sha256:")) with 7%nat. apply (proj1 (forall_indexed lower_hex h) Hh). lia.
Qed.

(** A request for a profile is accepted exactly when it names one. *)
Lemma profile_request_spec body capacity id : (DECK_COMPANION_PROFILE_ID_CAPACITY <= capacity)%nat ->
  deck_setup_http_parse_companion_profile_request body capacity = Some id
  <-> (List.length body <= 128)%nat /\ one_member (literal "profile_id=") body id /\ profile_identifier id.
Proof.
  intros Hc. unfold deck_setup_http_parse_companion_profile_request. split.
  - destruct (_ || _) eqn:E; [done|]. rewrite !orb_false_iff, negb_false_iff, has_prefix_spec, !Nat.ltb_ge, no_separator in E.
    destruct E as [[[[_ _] Hl] [raw ->]] Hno]. change (drop (List.length (literal "profile_id=")) (literal "profile_id=" ++ raw)) with raw.
    intros (t & [He Ht]%decode_form_component_spec & H)%bind_Some. destruct (canonical_profile_id t) eqn:Ec; [|done].
    injection H as ->. apply canonical_profile_id_spec in Ec; [|by eapply encodes_text]. split; [exact Hl|]. split; [|done].
    exists raw. split; [done|]. split; [|done]. intros Hin. apply Hno. rewrite elem_of_app. by right.
  - intros (Hl & (raw & -> & Hr & He) & Hid). destruct (_ || _) eqn:E.
    { exfalso. apply not_false_iff_true in E. apply E.
      rewrite !orb_false_iff, negb_false_iff, has_prefix_spec, !Nat.ltb_ge, no_separator.
      split; [split; [split; [split; [done|]|done]|by eexists]|]; [rewrite length_app; lia|].
      rewrite elem_of_app. intros [H|H]; [|done]. revert H. apply (bool_decide_unpack (38 ∉ literal "profile_id=")). reflexivity. }
    change (drop (List.length (literal "profile_id=")) (literal "profile_id=" ++ raw)) with raw.
    rewrite (proj2 (decode_form_component_spec raw capacity id)).
    + cbn [mbind option_bind]. rewrite (proj2 (canonical_profile_id_spec id (encodes_text _ _ He)) Hid). done.
    + split; [done|]. destruct Hid as (h & -> & Hh & _). rewrite length_app, Hh.
      change (List.length (literal "sha256:")) with 7%nat. unfold DECK_COMPANION_PROFILE_ID_CAPACITY in Hc. lia.
Qed.

(** C32: A request for a priority is accepted exactly when it names a profile and
    spells a 32-bit integer, which is the result. *)
Theorem priority_request_is_exact body capacity id z (Hc : (DECK_COMPANION_PROFILE_ID_CAPACITY <= capacity)%nat) :
  deck_setup_http_parse_companion_priority_request body capacity = Some (id, z)
  <-> exists raw_id raw t,
        body = literal "profile_id=" ++ raw_id ++ literal "&priority=" ++ raw /\ (List.length body <= 160)%nat
        /\ 38 ∉ raw_id /\ 38 ∉ raw /\ encodes raw_id id /\ profile_identifier id
        /\ encodes raw t /\ (List.length t < 16)%nat /\ integer_spelling t z /\ -2147483648 <= z <= 2147483647.
Proof.
  unfold deck_setup_http_parse_companion_priority_request. split.
  - destruct (_ || _) eqn:E; [done|]. rewrite !orb_false_iff, negb_false_iff, has_prefix_spec, !Nat.ltb_ge in E.
    destruct E as [[[[_ _] Hl] _] [encoded ->]].
    change (drop (List.length (literal "profile_id=")) (literal "profile_id=" ++ encoded)) with encoded.
    destruct (scan_to_split 38 encoded) as [Hamp Hsplit].
    destruct (Nat.eqb_spec (scan_to 38 encoded) (List.length encoded)) as [|Hne]; [done|].
    destruct Hsplit as [[_ ?]|[Esplit Hlt]]; [done|]. set (raw_id := take (scan_to 38 encoded) encoded) in *.
    destruct (_ || _) eqn:E; [done|]. rewrite !orb_false_iff, negb_false_iff, has_prefix_spec, no_separator in E.
    destruct E as [[_ [raw Esep]] Hraw]. rewrite Esep in *.
    change (drop (List.length (literal "&priority=")) (literal "&priority=" ++ raw)) with raw.
    intros (id' & [He _]%decode_form_component_spec & H)%bind_Some.
    destruct (canonical_profile_id id') eqn:Ec; [|done]. cbn [negb] in H.
    apply bind_Some in H as (t & [Ht Hlt']%decode_form_component_spec & H). apply bind_Some in H as (z' & Hz & [= -> ->]).
    apply canonical_profile_id_spec in Ec; [|by eapply encodes_text].
    apply decode_priority_spec in Hz as [Hz [Hr1 Hr2]]; [|by eapply encodes_text].
    exists raw_id, raw, t. split; [by rewrite <- Esep; unfold raw_id; rewrite take_drop|]. split; [exact Hl|].
    split; [done|]. split; [|by split_and!]. intros Hin. apply Hraw. change (drop 1 (literal "&priority=" ++ raw)) with (literal "priority=" ++ raw).
    rewrite elem_of_app. by right.
  - intros (raw_id & raw & t & -> & Hl & Hri & Hraw & He & Hid & Ht & Hlt & Hz & Hr).
    assert (raw <> []) as Hne.
    { intros ->. inversion Ht; subst. destruct Hz as (sign & ds & E & _ & Hne & _). symmetry in E. by apply app_eq_nil in E as [_ ->]. }
    assert (0 < List.length raw)%nat as Hpos by (destruct raw; [done|simpl; lia]).
    destruct (_ || _) eqn:E.
    { exfalso. apply not_false_iff_true in E. apply E. rewrite !orb_false_iff, negb_false_iff, has_prefix_spec, !Nat.ltb_ge.
      split; [split; [split; [split; [exact Hc|]|exact Hl]|]|by eexists].
      - apply Nat.eqb_neq. rewrite !length_app. lia.
      - apply Nat.leb_gt. rewrite !length_app. assert (0 < List.length raw_id)%nat; [|lia].
        destruct raw_id; [inversion He; subst; by destruct Hid as (h & Hh & _)|simpl; lia]. }
    clear E. set (rest := raw_id ++ literal "&priority=" ++ raw).
    change (drop (List.length (literal "profile_id=")) (literal "profile_id=" ++ rest)) with rest.
    assert (scan_to 38 rest = List.length raw_id) as -> by (apply (scan_to_app 38 raw_id (literal "priority=" ++ raw)); done).
    rewrite (proj2 (Nat.eqb_neq _ _)) by (unfold rest; rewrite !length_app; lia).
    unfold rest. rewrite drop_app_length, take_app_length.
    destruct (_ || _) eqn:E.
    { exfalso. apply not_false_iff_true in E. apply E. rewrite !orb_false_iff, negb_false_iff, has_prefix_spec, no_separator.
      split; [split; [apply Nat.leb_gt; rewrite length_app; lia|by eexists]|].
      change (drop 1 (literal "&priority=" ++ raw)) with (literal "priority=" ++ raw).
      rewrite elem_of_app. intros [H|H]; [|done]. revert H. apply (bool_decide_unpack (38 ∉ literal "priority=")). reflexivity. }
    change (drop (List.length (literal "&priority=")) (literal "&priority=" ++ raw)) with raw.
    rewrite (proj2 (decode_form_component_spec raw_id capacity id)).
    + cbn [mbind option_bind]. rewrite (proj2 (canonical_profile_id_spec id (encodes_text _ _ He)) Hid). cbn [negb].
      rewrite (proj2 (decode_form_component_spec raw 16 t)) by done. cbn [mbind option_bind].
      by rewrite (proj2 (decode_priority_spec t z (encodes_text _ _ Ht))).
    + split; [done|]. destruct Hid as (h & -> & Hh & _). rewrite length_app, Hh.
      change (List.length (literal "sha256:")) with 7%nat. unfold DECK_COMPANION_PROFILE_ID_CAPACITY in Hc. lia.
Qed.

Definition sample_identifier : bytes := literal "sha256:" ++ concat (replicate 16 (literal "0af9")).

Definition sample_priority_body : bytes :=
  literal "profile_id=sha256%3A" ++ concat (replicate 16 (literal "0af9")) ++ literal "&priority=-2147483648".

Lemma priority_request_is_exact_witness :
  exists raw_id raw t,
    sample_priority_body = literal "profile_id=" ++ raw_id ++ literal "&priority=" ++ raw
    /\ (List.length sample_priority_body <= 160)%nat
    /\ 38 ∉ raw_id /\ 38 ∉ raw /\ encodes raw_id sample_identifier /\ profile_identifier sample_identifier
    /\ encodes raw t /\ (List.length t < 16)%nat /\ integer_spelling t (-2147483648)
    /\ -2147483648 <= -2147483648 <= 2147483647.
Proof.
  apply (proj1 (priority_request_is_exact sample_priority_body 72 sample_identifier (-2147483648)
    ltac:(apply Nat.leb_le; reflexivity))). vm_compute. reflexivity.
Defined.

(** ** What the page submits *)

Lemma print_u_decimal n : 0 <= n < 10 ^ 20 -> decimal (print_u n) = n /\ digits (print_u n).
Proof.
  intros Hn. split; [|apply digits_are_digits; lia].
  transitivity (fold_left (fun acc b => acc * 10 + (b - ch_0)) (print_u n) 0); [done|]. by apply digits_value.
Qed.

Lemma print_u_nonempty n : print_u n <> [].
Proof. unfold print_u. cbn [Print.digits]. case_match; [done|]. intros [_ E]%app_eq_nil. discriminate E. Qed.

(** A printed 32-bit integer spells it, in characters the form does not
    escape. *)
Lemma print_d_spells z : -2147483648 <= z <= 2147483647 ->
  integer_spelling (print_d z) z /\ (List.length (print_d z) <= 11)%nat
  /\ Forall (fun b => is_digit b = true \/ b = ch_minus) (print_d z).
Proof.
  intros Hz. unfold print_d. destruct (Z.ltb_spec z 0).
  - destruct (print_u_decimal (- z) ltac:(lia)) as [Hv Hd]. split; [|split].
    + exists [ch_minus], (print_u (- z)). split; [done|]. split; [by right|]. split; [apply print_u_nonempty|].
      split; [done|]. rewrite decide_True by done. lia.
    + rewrite length_app. cbn [List.length]. pose proof (length_digits_le 10 20 (- z) ltac:(lia) ltac:(lia)).
      unfold print_u. lia.
    + apply Forall_app. split; [repeat constructor; by right|]. eapply Forall_impl; [exact Hd|]. tauto.
  - destruct (print_u_decimal z ltac:(lia)) as [Hv Hd]. split; [|split].
    + exists [], (print_u z). split; [done|]. split; [by left|]. split; [apply print_u_nonempty|].
      split; [done|]. rewrite decide_False by done. lia.
    + pose proof (length_digits_le 10 20 z ltac:(lia) ltac:(lia)). unfold print_u. lia.
    + eapply Forall_impl; [exact Hd|]. tauto.
Qed.

Lemma form_encode_plain t : Forall (fun b => form_encode_byte b = [b]) t -> form_encode t = t.
Proof. induction 1 as [|b t Hb _ IH]; simpl; [done|]. by rewrite Hb, IH. Qed.

(** A priority the user enters arrives as it was entered. *)
Theorem page_priorities_arrive id z (Hid : profile_identifier id) (Hz : -2147483648 <= z <= 2147483647) :
  deck_setup_http_parse_companion_priority_request
    (literal "profile_id=" ++ form_encode id ++ literal "&priority=" ++ form_encode (print_d z))
    DECK_COMPANION_PROFILE_ID_CAPACITY = Some (id, z).
Proof.
  destruct (print_d_spells z Hz) as (Hs & Hl & Hc).
  assert (form_encode (print_d z) = print_d z) as Ez.
  { apply form_encode_plain. eapply Forall_impl; [exact Hc|]. intros b [Hb| ->]; [|done]. unfold form_encode_byte. by rewrite Hb. }
  destruct Hid as (h & -> & Hlh & Hh).
  assert (form_encode (literal "sha256:" ++ h) = literal "sha256%3A" ++ h) as Eid.
  { change (form_encode (literal "sha256:" ++ h)) with (literal "sha256%3A" ++ form_encode h). f_equal.
    apply form_encode_plain. eapply Forall_impl; [exact Hh|]. intros b Hb. unfold form_encode_byte.
    assert (is_digit b || is_lower b = true) as -> ; [|done].
    unfold lower_hex, is_digit, is_lower, ch_0, ch_9, ch_a, ch_z in *. lia. }
  assert (Forall text_byte (print_d z) /\ Forall byte_value (print_d z) /\ Forall text_byte h /\ Forall byte_value h)
    as (Ht & Hb & Hth & Hbh).
  { unfold text_byte, byte_value. split_and!; (eapply Forall_impl; [first [exact Hc|exact Hh]|]); intros b;
      unfold lower_hex, is_digit, ch_0, ch_9, ch_a, ch_minus; lia. }
  apply (priority_request_is_exact _ _ _ _ (Nat.le_refl _)).
  exists (form_encode (literal "sha256:" ++ h)), (form_encode (print_d z)), (print_d z). split; [done|].
  split; [rewrite Eid, Ez, !length_app, Hlh; change (List.length (literal "profile_id=")) with 11%nat;
          change (List.length (literal "&priority=")) with 10%nat; change (List.length (literal "sha256%3A")) with 9%nat; lia|].
  assert (Forall text_byte (literal "sha256:" ++ h)) by (apply Forall_app; split; [text_literal|done]).
  assert (Forall byte_value (literal "sha256:" ++ h)).
  { apply Forall_app; split; [|done]. repeat constructor; vm_compute; by repeat split. }
  split; [by apply form_encode_separator; [left|]|]. split; [by apply form_encode_separator; [left|]|].
  split; [by apply form_encode_spells|]. split; [by exists h|]. split; [by apply form_encode_spells|].
  split; [lia|]. by split.
Qed.

Lemma page_priorities_arrive_witness :
  deck_setup_http_parse_companion_priority_request
    (literal "profile_id=" ++ form_encode sample_identifier ++ literal "&priority=" ++ form_encode (print_d (-7)))
    DECK_COMPANION_PROFILE_ID_CAPACITY = Some (sample_identifier, -7).
Proof.
  apply page_priorities_arrive; [|by split]. exists (concat (replicate 16 (literal "0af9"))).
  split; [reflexivity|]. split; [reflexivity|]. repeat constructor.
Defined.

(** ** Tokens and acknowledgements *)

Lemma encodes_length raw t : encodes raw t ->
  (List.length t <= List.length raw)%nat /\ (List.length t = List.length raw -> 32 ∉ t -> raw = t).
Proof.
  induction 1 as [|b raw t _ _ _ _ [IH1 IH2]|raw t _ [IH1 _]|high low raw t _ _ _ _ [IH1 _]]; simpl; [done|..].
  - split; [lia|]. intros Hl [_ Hn]%not_elem_of_cons. f_equal. apply IH2; [lia|done].
  - split; [lia|]. intros _ [Hn _]%not_elem_of_cons. done.
  - split; lia.
Qed.

(** The token must be spelled as it was issued: sixteen digits of lower case. *)
Lemma confirmation_request_spec body capacity token : (DECK_SETUP_CONFIRMATION_TOKEN_CAPACITY <= capacity)%nat ->
  deck_setup_http_parse_confirmation_request body capacity = Some token
  <-> body = literal "token=" ++ token /\ List.length token = 16%nat /\ Forall (fun b => lower_hex b = true) token.
Proof.
  intros Hc. unfold deck_setup_http_parse_confirmation_request. unfold DECK_SETUP_CONFIRMATION_TOKEN_CAPACITY in *.
  change (List.length (literal "token=")) with 6%nat. simpl (6 + 17 - 1)%nat. simpl (17 - 1)%nat.
  rewrite (proj2 (Nat.ltb_ge _ _)) by exact Hc. cbn [orb]. split.
  - destruct (_ || _) eqn:E; [done|]. rewrite orb_false_iff, !negb_false_iff, Nat.eqb_eq, has_prefix_spec in E.
    destruct E as [Hl [raw ->]]. change (drop 6 (literal "token=" ++ raw)) with raw.
    intros (t & [He _]%decode_form_component_spec & H)%bind_Some. destruct (forallb _ _) eqn:Eh; [|done].
    injection H as ->. pose proof (proj1 (indexed_forall lower_hex token 0 16) Eh) as Hh. cbn [Nat.add] in Hh.
    rewrite length_app in Hl. change (List.length (literal "token=")) with 6%nat in Hl.
    destruct (encodes_length raw token He) as [Hle Heq].
    assert (List.length token = 16%nat) as Hlt.
    { destruct (decide (List.length token < 16)%nat) as [Hlt|]; [|lia]. specialize (Hh (List.length token) ltac:(lia)).
      unfold byte_at in Hh. rewrite lookup_ge_None_2 in Hh by lia. discriminate Hh. }
    assert (Forall (fun b => lower_hex b = true) token) as Hf by (apply forall_indexed; intros i Hi; apply Hh; lia).
    split; [|done]. f_equal. apply Heq; [lia|]. intros Hin. rewrite Forall_forall in Hf. by specialize (Hf _ Hin).
  - intros (-> & Hl & Hf). rewrite length_app, Hl. change (List.length (literal "token=")) with 6%nat.
    rewrite Nat.eqb_refl, (proj2 (has_prefix_spec _ _)) by by eexists. cbn [negb orb].
    change (drop 6 (literal "token=" ++ token)) with token.
    assert (decode_form_component token capacity = Some token) as ->.
    { apply decode_form_component_spec. split; [|lia]. clear Hl. induction Hf as [|b l Hb _ IH]; [constructor|].
      unfold lower_hex, ch_0, ch_9, ch_a in Hb. constructor; [lia|lia|unfold text_byte; lia|exact IH]. }
    cbn [mbind option_bind].
    rewrite (proj2 (indexed_forall lower_hex token 0 16)); [done|]. intros i Hi. apply (proj1 (forall_indexed lower_hex token) Hf). lia.
Qed.

(** The portal's spelling of an acknowledgement, as the pairing handler sends
    it. *)
Definition hex_text (bytes_ : bytes) : bytes :=
  flat_map (fun b => [kHexDigits.[Z.to_nat (b / 16)]; kHexDigits.[Z.to_nat (b mod 16)]]) bytes_.

Lemma hex_digit_value d : 0 <= d < 16 -> hex_value kHexDigits.[Z.to_nat d] = d.
Proof.
  intros Hd. assert (forallb (fun n => hex_value kHexDigits.[n] =? Z.of_nat n) (seq 0 16) = true) as H by (vm_compute; reflexivity).
  rewrite forallb_forall in H. specialize (H (Z.to_nat d) ltac:(apply in_seq; lia)). apply Z.eqb_eq in H. lia.
Qed.

Lemma ack_bytes_hex ack : Forall byte_value ack -> ack_bytes (hex_text ack) = Some ack.
Proof.
  induction 1 as [|b ack Hb _ IH]; [done|]. unfold byte_value in Hb. cbn [hex_text flat_map app ack_bytes].
  rewrite !hex_digit_value by (Z.div_mod_to_equations; lia). rewrite orb_false_intro by (apply Z.ltb_ge; Z.div_mod_to_equations; lia).
  fold (hex_text ack). rewrite IH. cbn [mbind option_bind]. f_equal. f_equal.
  rewrite form_nibbles by (Z.div_mod_to_equations; lia). Z.div_mod_to_equations; lia.
Qed.

Lemma length_ack_text ack : List.length (hex_text ack) = (2 * List.length ack)%nat.
Proof. induction ack as [|b ack IH]; [done|]. cbn [hex_text flat_map app List.length]. fold (hex_text ack). rewrite IH. lia. Qed.

(** An acknowledgement the portal sent arrives as it was sent. *)
Lemma acknowledgement_arrives ack : List.length ack = DECK_SETUP_PAIR_ACK_SIZE -> Forall byte_value ack ->
  deck_setup_http_parse_pair_ack_request (literal "response_ack=" ++ hex_text ack) = Some ack.
Proof.
  intros Hl Hb. unfold deck_setup_http_parse_pair_ack_request. unfold DECK_SETUP_PAIR_ACK_SIZE in *.
  rewrite length_app, length_ack_text, Hl. rewrite (proj2 (has_prefix_spec _ _)) by by eexists.
  change (negb (List.length (literal "response_ack=") + 2 * 16 =? List.length (literal "response_ack=") + 32)%nat) with false.
  cbn [orb negb]. unfold slice.
  change (drop (List.length (literal "response_ack=")) (literal "response_ack=" ++ hex_text ack)) with (hex_text ack).
  rewrite take_ge by (rewrite length_ack_text, Hl; lia). by apply ack_bytes_hex.
Qed.
