(* ===== verification/SetupStatus.v ===== *)
(** * The status document of the setup portal

    What SetupHttp renders is the text of one JSON tree, its strings spell the
    fields they show, and it always fits the buffer of the service. *)

From Stdlib Require Import String.
From S2P Require Import Prelude CString Print JsonParser JsonGrammar SetupMode WifiConfig DeviceSettings CompanionFailover ProfileText CompanionProfiles SetupHttp SetupForm SetupNumbers.

(** ** Printed trees *)

Fixpoint join (separator : bytes) (parts : list bytes) : bytes :=
  match parts with
  | [] => []
  | [part] => part
  | part :: parts => part ++ separator ++ join separator parts
  end.

Lemma join_cons separator part parts : parts <> [] -> join separator (part :: parts) = part ++ separator ++ join separator parts.
Proof. by destruct parts. Qed.

Fixpoint print_json (t : json) : bytes :=
  match t with
  | JObject ms => [123] ++ join [44] (map (fun m => quoted m.1 ++ [58] ++ print_json m.2) ms) ++ [125]
  | JArray vs => [91] ++ join [44] (map print_json vs) ++ [93]
  | JString raw => quoted raw
  | JInteger raw => raw
  | JBoolean b => bool_name b
  | JNull => literal "null"
  end.

Fixpoint json_wf (t : json) : Prop :=
  match t with
  | JObject ms => fold_right (fun m P => string_body m.1 /\ json_wf m.2 /\ P) True ms
  | JArray vs => fold_right (fun v P => json_wf v /\ P) True vs
  | JString raw => string_body raw
  | JInteger raw => integer_text raw
  | _ => True
  end.

Lemma blank_nil : blank [].
Proof. constructor. Qed.

(** A tree is printed as one of its texts. *)
Fixpoint print_json_text (t : json) : json_wf t -> json_text t (print_json t).
Proof.
  destruct t as [ms|vs|raw|raw|b|]; intros Hw; cbn [print_json].
  - destruct (decide (ms = [])) as [->|Hne]; [apply (text_no_members []), blank_nil|]. apply text_object; [exact Hne|].
    revert Hne Hw. induction ms as [|[key v] ms IH]; [done|]. intros _ (Hk & Hv & Hms).
    destruct ms as [|m ms].
    + pose proof (text_members_one [] key [] [] v (print_json v) [] blank_nil Hk blank_nil blank_nil
        (print_json_text v Hv) blank_nil) as H. by rewrite app_nil_r in H.
    + pose proof (text_members_more [] key [] [] v (print_json v) [] (m :: ms) _ blank_nil Hk blank_nil blank_nil
        (print_json_text v Hv) blank_nil (IH ltac:(done) Hms)) as H.
      rewrite map_cons, join_cons by done. rewrite <- !app_assoc. exact H.
  - destruct (decide (vs = [])) as [->|Hne]; [apply (text_no_items []), blank_nil|]. apply text_array; [exact Hne|].
    revert Hne Hw. induction vs as [|v vs IH]; [done|]. intros _ (Hv & Hvs). destruct vs as [|v' vs].
    + pose proof (text_items_one [] v (print_json v) [] blank_nil (print_json_text v Hv) blank_nil) as H.
      by rewrite app_nil_r in H.
    + rewrite map_cons, join_cons by done.
      exact (text_items_more [] v (print_json v) [] (v' :: vs) _ blank_nil (print_json_text v Hv) blank_nil (IH ltac:(done) Hvs)).
  - by apply text_string.
  - by apply text_integer.
  - destruct b; constructor.
  - constructor.
Qed.

(** ** Strings *)

(** What stands between the quotes for the text [t]. *)
Definition escaped (t : bytes) : bytes := concat (map json_character (c_string t)).

(** [spells raw t]: a JSON reader reads [raw] as [t]; only the escapes that
    are written here. *)
Inductive spells : bytes -> bytes -> Prop :=
  | spells_end : spells [] []
  | spells_plain b raw t : 0x20 <= b -> b <> 34 -> b <> 92 -> spells raw t -> spells (b :: raw) (b :: t)
  | spells_escape b raw t : b = 34 \/ b = 92 -> spells raw t -> spells (92 :: b :: raw) (b :: t)
  | spells_control high low raw t : 0 <= hex_value high -> 0 <= hex_value low -> 16 * hex_value high + hex_value low < 0x20 ->
      spells raw t ->
      spells (92 :: 117 :: 48 :: 48 :: high :: low :: raw) (16 * hex_value high + hex_value low :: t).

Lemma json_character_spells b raw t : byte_value b -> spells raw t -> spells (json_character b ++ raw) (b :: t).
Proof.
  intros Hb H. unfold json_character, byte_value in *. destruct (_ || _) eqn:E.
  - apply (spells_escape b); [bool_cases; lia|done].
  - bool_prop. destruct (Z.ltb_spec b 0x20); [|by apply spells_plain].
    assert (b = 16 * (b / 16) + b mod 16) as Eb by (Z.div_mod_to_equations; lia). unfold print_04x.
    rewrite Eb at 3. rewrite <- (hex_digit_value (b / 16)) at 2 by (Z.div_mod_to_equations; lia).
    rewrite <- (hex_digit_value (b mod 16)) at 2 by (Z.div_mod_to_equations; lia).
    apply (spells_control kHexDigits.[Z.to_nat (b / 16)] kHexDigits.[Z.to_nat (b mod 16)]);
      rewrite ?hex_digit_value by (Z.div_mod_to_equations; lia); Z.div_mod_to_equations; try lia; done.
Qed.

(** The string a field is shown as spells the field. *)
Lemma escaped_spells t : Forall byte_value (c_string t) -> spells (escaped t) (c_string t).
Proof.
  intros Hc. unfold escaped. induction Hc as [|b l Hb' _ IH]; [constructor|]. cbn [map concat]. by apply json_character_spells.
Qed.

Lemma spells_functional raw t t' : spells raw t -> spells raw t' -> t = t'.
Proof.
  intros H. revert t'. induction H as [|b raw t Hb Hq Hs _ IH|b raw t Hb _ IH|high low raw t Hh Hl Hlt _ IH]; intros t' H';
    inversion H'; subst; try done; try lia; f_equal; by apply IH.
Qed.

Lemma spells_body raw t : spells raw t -> string_body raw.
Proof.
  induction 1 as [|b raw t Hb Hq Hs _ IH|b raw t Hb _ IH|high low raw t Hh Hl Hlt _ IH]; [constructor|by constructor|..].
  - apply body_escape; [|exact IH]. by destruct Hb as [->| ->].
  - assert (forall c, 0 <= hex_value c -> is_xdigit c = true) as Hx.
    { intros c. unfold hex_value, is_xdigit, is_digit, ch_0, ch_9, ch_a, ch_A. repeat case_match; bool_prop; lia. }
    by apply body_unicode; [..|exact IH]; try apply Hx.
Qed.

Lemma escaped_body t : Forall byte_value (c_string t) -> string_body (escaped t).
Proof. intros Ht. by eapply spells_body, escaped_spells. Qed.

(** ** Numbers *)

Lemma print_u_leading fuel n : 1 <= n < 10 ^ Z.of_nat fuel -> exists d ds, Print.digits fuel n = d :: ds /\ d <> 48.
Proof.
  revert n. induction fuel as [|fuel IH]; intros n Hn; [change (10 ^ Z.of_nat 0) with 1 in Hn; lia|]. cbn [Print.digits].
  destruct (Z.ltb_spec n 10); [exists (ch_0 + n), []; split; [done|unfold ch_0; lia]|].
  rewrite Nat2Z.inj_succ, Z.pow_succ_r in Hn by lia.
  destruct (IH (n / 10)) as (d & ds & -> & Hd); [Z.div_mod_to_equations; lia|].
  exists d, (ds ++ [ch_0 + n mod 10]). by split.
Qed.

Lemma print_u_integer n : 0 <= n < 10 ^ 20 -> integer_text (print_u n).
Proof.
  intros Hn. exists [], (print_u n). destruct (print_u_decimal n Hn) as [_ Hd]. split; [done|]. split; [by left|].
  split; [apply print_u_nonempty|]. split; [exact Hd|]. intros Hh.
  destruct (decide (n = 0)) as [->|Hne]; [done|].
  destruct (print_u_leading 20 n ltac:(change (10 ^ Z.of_nat 20) with (10 ^ 20); lia)) as (d & ds & E & Hd0).
  unfold print_u in Hh. rewrite E in Hh. injection Hh as ->. done.
Qed.

Lemma print_d_integer n : - 10 ^ 20 < n < 10 ^ 20 -> integer_text (print_d n).
Proof.
  intros Hn. unfold print_d. destruct (Z.ltb_spec n 0); [|apply print_u_integer; lia].
  destruct (print_u_integer (- n) ltac:(lia)) as (sign & ds & E & Hs & Hne & Hd & Hz).
  assert (sign = []) as ->.
  { destruct Hs as [->|Hs]; [done|]. subst sign. exfalso.
    destruct (print_u_decimal (- n) ltac:(lia)) as [_ Hdd]. rewrite E in Hdd. apply Forall_cons in Hdd as [Hdd _].
    unfold is_digit, ch_0, ch_9 in Hdd. lia. }
  exists [ch_minus], ds. rewrite E. split; [done|]. split; [by right|]. done.
Qed.

(** ** The tree of the document *)

Section status.
Implicit Types (snapshot : deck_setup_snapshot_t) (wifi : deck_wifi_config_snapshot_t)
  (settings : deck_device_settings_snapshot_t) (companions : deck_companion_profiles_snapshot_t)
  (profile : deck_companion_profile_view_t) (network : deck_setup_scan_result_t).

Definition member (key : String.string) (value : json) : bytes * json := (literal key, value).
Definition shown (text : bytes) : json := JString (escaped text).

Definition wifi_tree wifi : json :=
  JObject [
    member "state" (JString (deck_wifi_config_state_name (WifiConfig.snapshot_state wifi)));
    member "record" (JString (deck_wifi_record_status_name (WifiConfig.snapshot_record wifi)));
    member "candidate_record" (JString (deck_wifi_record_status_name (WifiConfig.snapshot_candidate_record wifi)));
    member "has_active" (JBoolean (shows_active wifi));
    member "has_candidate" (JBoolean (shows_candidate wifi));
    member "generation" (JInteger (print_u (WifiConfig.snapshot_generation wifi)));
    member "active_ssid" (shown (active_ssid wifi));
    member "candidate_ssid" (shown (candidate_ssid wifi))].

Definition settings_tree settings : json :=
  JObject [
    member "state" (JString (deck_device_settings_state_name (DeviceSettings.state settings)));
    member "record" (JString (deck_device_settings_record_status_name (settings_record_status settings)));
    member "candidate_record"
      (JString (deck_device_settings_record_status_name (settings_candidate_record_status settings)));
    member "has_active" (JBoolean (settings_has_active settings));
    member "has_candidate" (JBoolean (settings_has_candidate settings));
    member "generation" (JInteger (print_u (settings_generation settings)));
    member "temperature_offset_tenths_c" (JInteger (print_d (temperature_offset_tenths_c settings)))].

Definition profile_tree profile : json :=
  JObject [
    member "profile_version" (JInteger (print_u (view_version profile)));
    member "profile_id" (shown (view_profile_id profile));
    member "display_name" (shown (view_display_name profile));
    member "hub_address" (shown (view_hub_address profile));
    member "certificate_fingerprint" (shown (view_fingerprint profile));
    member "priority" (JInteger (print_d (view_priority profile)));
    member "last_success_unix_ms" (JInteger (print_u (view_last_success profile)))].

Definition companions_tree companions : json :=
  JObject [
    member "generation" (JInteger (print_u (CompanionProfiles.snapshot_generation companions)));
    member "storage_faulted" (JBoolean (snapshot_faulted companions));
    member "has_active" (JBoolean (snapshot_has_active_profile companions));
    member "active_profile_id" (shown (active_profile_id companions));
    member "profiles" (JArray (map profile_tree (views companions)))].

Definition network_tree network : json :=
  JObject [
    member "ssid" (shown (scan_ssid network));
    member "rssi" (JInteger (print_d (scan_rssi network)));
    member "secure" (JBoolean (scan_secure network))].

Definition status_tree snapshot wifi settings companions (networks : list deck_setup_scan_result_t) : json :=
  JObject [
    member "active" (JBoolean (SetupMode.active snapshot));
    member "reason" (JString (reason_name (SetupMode.reason snapshot)));
    member "session_id" (JInteger (print_u (SetupMode.session_id snapshot)));
    member "address" (shown (SetupMode.address snapshot));
    member "wifi" (wifi_tree wifi);
    member "device_settings" (settings_tree settings);
    member "companions" (companions_tree companions);
    member "networks" (JArray (map network_tree networks))].

(** ** The pieces are the printed tree *)

(** Right-nested appends with the closed texts in front evaluated. *)
Ltac flat :=
  repeat match goal with
  | |- context [literal ?s] => let v := eval vm_compute in (literal s) in change (literal s) with v
  | |- context [quoting ?s] => let v := eval vm_compute in (quoting s) in change (quoting s) with v
  end;
  repeat rewrite <- app_assoc; cbn [app].

Lemma string_pieces value : concat (append_json_string value) = quoted (escaped value).
Proof.
  unfold append_json_string, quoted, escaped. rewrite !concat_app. cbn [concat]. by rewrite app_nil_r.
Qed.

Lemma separated_pieces {A : Type} (pieces : A -> list bytes) (first : bool) (items : list A) :
  concat (separated pieces first items)
  = (if first then [] else match items with [] => [] | _ => [44] end) ++ join [44] (map (fun i => concat (pieces i)) items).
Proof.
  revert first. induction items as [|i items IH]; intros first; [by destruct first|].
  cbn [separated]. rewrite !concat_app, IH. destruct items as [|j items].
  - cbn. rewrite !app_nil_r. by destruct first.
  - rewrite (map_cons _ i), (join_cons _ _ (map _ (j :: items))) by done. by destruct first.
Qed.

Lemma profile_printed profile : concat (profile_pieces profile) = print_json (profile_tree profile).
Proof.
  unfold profile_pieces, profile_tree, member, shown. rewrite !concat_app, !string_pieces. cbn [concat print_json map join fst snd].
  rewrite ?app_nil_r. unfold quoted. flat. reflexivity.
Qed.

Lemma network_printed network : concat (network_pieces network) = print_json (network_tree network).
Proof.
  unfold network_pieces, network_tree, member, shown. rewrite !concat_app, !string_pieces. cbn [concat print_json map join fst snd].
  rewrite ?app_nil_r. unfold quoted. flat. reflexivity.
Qed.

(** The calls of the writer spell the printed tree. *)
Lemma status_printed snapshot wifi settings companions networks :
  concat (status_pieces snapshot wifi settings companions networks)
  = print_json (status_tree snapshot wifi settings companions networks).
Proof.
  unfold status_pieces, session_pieces, wifi_pieces, settings_pieces, companions_pieces, status_tree, wifi_tree,
    settings_tree, companions_tree, member, shown.
  rewrite !concat_app, !string_pieces, !separated_pieces, (map_ext _ _ profile_printed), (map_ext _ _ network_printed).
  cbn [concat print_json map join fst snd]. rewrite !map_map, ?app_nil_r. unfold quoted. flat. reflexivity.
Qed.

(** ** The writer *)

Lemma append_none capacity pieces : fold_left (append capacity) pieces None = None.
Proof. by induction pieces. Qed.

(** The writer keeps everything or reports that it does not fit. *)
Lemma append_exact capacity pieces written : (List.length written < capacity)%nat ->
  fold_left (append capacity) pieces (Some written)
  = (if (List.length (written ++ concat pieces) <? capacity)%nat then Some (written ++ concat pieces) else None).
Proof.
  revert written. induction pieces as [|piece pieces IH]; intros written H; cbn [fold_left concat].
  - rewrite app_nil_r. by destruct (Nat.ltb_spec (List.length written) capacity); [|lia].
  - unfold append at 2. cbn [mbind option_bind].
    destruct (Nat.leb_spec (capacity - List.length written) (List.length piece)).
    + rewrite append_none. destruct (Nat.ltb_spec (List.length (written ++ piece ++ concat pieces)) capacity) as [Hl|]; [|done].
      rewrite !length_app in Hl. lia.
    + rewrite IH by (rewrite length_app; lia). by rewrite <- app_assoc.
Qed.

Lemma render_status_eq snapshot wifi settings companions networks capacity :
  deck_setup_http_render_status snapshot wifi settings companions networks capacity
  = let text := print_json (status_tree snapshot wifi settings companions networks) in
    if (List.length text <? capacity)%nat then Some text else None.
Proof.
  rewrite <- status_printed. unfold deck_setup_http_render_status. destruct (Nat.eqb_spec capacity 0) as [->|Hc].
  - rewrite append_none. by destruct (Nat.ltb_spec (List.length (concat (status_pieces snapshot wifi settings companions networks))) 0); [lia|].
  - by apply (append_exact capacity _ []); cbn [List.length]; lia.
Qed.

(** ** Lengths *)

Lemma escaped_length k t : Forall (fun b => (List.length (json_character b) <= k)%nat) (c_string t) ->
  (List.length (escaped t) <= k * List.length (c_string t))%nat.
Proof.
  unfold escaped. induction 1 as [|b l Hb _ IH]; [simpl; lia|]. cbn [map concat List.length]. rewrite length_app. lia.
Qed.

Lemma json_character_6 b : (List.length (json_character b) <= 6)%nat.
Proof. unfold json_character. repeat case_match; vm_compute; lia. Qed.

Lemma json_character_2 b : 0x20 <= b -> (List.length (json_character b) <= 2)%nat.
Proof. intros Hb. unfold json_character. repeat case_match; bool_prop; try (vm_compute; lia). Qed.

Lemma print_u_length k n : 0 <= n < 10 ^ Z.of_nat k -> (0 < k)%nat -> (List.length (print_u n) <= k)%nat.
Proof. intros Hn Hk. by apply length_digits_le. Qed.

Lemma print_d_length k n : - 10 ^ Z.of_nat k < n < 10 ^ Z.of_nat k -> (0 < k)%nat -> (List.length (print_d n) <= S k)%nat.
Proof.
  intros Hn Hk. unfold print_d. destruct (Z.ltb_spec n 0); rewrite ?length_app.
  - pose proof (print_u_length k (- n) ltac:(lia) Hk). cbn [List.length]. lia.
  - pose proof (print_u_length k n ltac:(lia) Hk). lia.
Qed.

Lemma join_length k (parts : list bytes) : Forall (fun part => (List.length part <= k)%nat) parts ->
  (List.length (join [44%Z] parts) <= S k * List.length parts)%nat.
Proof.
  induction 1 as [|part parts Hp _ IH]; [simpl; lia|]. destruct parts as [|part' parts]; [simpl; lia|].
  rewrite join_cons by done. rewrite !length_app. cbn [List.length] in *. lia.
Qed.

(** ** What the services publish *)

(** An array of [capacity] bytes that holds a text without control bytes. *)
Record holds_text (capacity : nat) (t : bytes) : Prop := {
  text_fits : (List.length (c_string t) < capacity)%nat;
  text_bytes : Forall (fun b => 0x20 <= b < 256) (c_string t);
}.

(** One that holds any bytes. *)
Record holds_bytes (capacity : nat) (t : bytes) : Prop := {
  bytes_fit : (List.length (c_string t) < capacity)%nat;
  bytes_are : Forall byte_value (c_string t);
}.

Definition word (n : Z) : Prop := 0 <= n < 2 ^ 32.
Definition double_word (n : Z) : Prop := 0 <= n < 2 ^ 64.
Definition signed_word (n : Z) : Prop := - 2 ^ 31 <= n < 2 ^ 31.
Definition signed_byte (n : Z) : Prop := - 2 ^ 7 <= n < 2 ^ 7.

Record profile_shown profile : Prop := {
  shown_version : word (view_version profile);
  shown_id : holds_text DECK_COMPANION_PROFILE_ID_CAPACITY (view_profile_id profile);
  shown_name : holds_text DECK_COMPANION_DISPLAY_NAME_CAPACITY (view_display_name profile);
  shown_address : holds_text DECK_COMPANION_HUB_ADDRESS_CAPACITY (view_hub_address profile);
  shown_fingerprint : holds_text DECK_COMPANION_FINGERPRINT_CAPACITY (view_fingerprint profile);
  shown_priority : signed_word (view_priority profile);
  shown_success : double_word (view_last_success profile);
}.

Record network_shown network : Prop := {
  shown_ssid : holds_bytes DECK_SETUP_SCAN_SSID_CAPACITY (scan_ssid network);
  shown_rssi : signed_byte (scan_rssi network);
}.

(** The texts, counts and numbers of what [copy_state] copies. *)
Record status_shown snapshot wifi settings companions (networks : list deck_setup_scan_result_t) : Prop := {
  shown_session : word (SetupMode.session_id snapshot);
  shown_session_address : holds_text DECK_SETUP_ADDRESS_CAPACITY (SetupMode.address snapshot);
  shown_wifi_generation : word (WifiConfig.snapshot_generation wifi);
  shown_active_ssid : holds_text DECK_WIFI_SSID_CAPACITY (active_ssid wifi);
  shown_candidate_ssid : holds_text DECK_WIFI_SSID_CAPACITY (candidate_ssid wifi);
  shown_settings_generation : word (settings_generation settings);
  shown_offset : signed_word (temperature_offset_tenths_c settings);
  shown_companions_generation : word (CompanionProfiles.snapshot_generation companions);
  shown_active_profile : holds_text DECK_COMPANION_PROFILE_ID_CAPACITY (active_profile_id companions);
  shown_profiles : Forall profile_shown (views companions);
  shown_profile_count : (List.length (views companions) <= DECK_COMPANION_MAX_PROFILES)%nat;
  shown_networks : Forall network_shown networks;
  shown_network_count : (List.length networks <= 10)%nat;
}.

Lemma text_length capacity t : holds_text capacity t -> (List.length (escaped t) <= 2 * (capacity - 1))%nat.
Proof.
  intros [Hf Hb]. assert (List.length (escaped t) <= 2 * List.length (c_string t))%nat; [|lia].
  apply escaped_length. eapply Forall_impl; [exact Hb|]. intros b [Hb' _]. by apply json_character_2.
Qed.

Lemma bytes_length capacity t : holds_bytes capacity t -> (List.length (escaped t) <= 6 * (capacity - 1))%nat.
Proof.
  intros [Hf Hb]. assert (List.length (escaped t) <= 6 * List.length (c_string t))%nat; [|lia].
  apply escaped_length. eapply Forall_impl; [exact Hb|]. intros b _. apply json_character_6.
Qed.

Lemma text_bytes_of capacity t : holds_text capacity t -> Forall byte_value (c_string t).
Proof. intros [_ Hb]. eapply Forall_impl; [exact Hb|]. unfold byte_value. simpl. lia. Qed.

(** Lengths of closed texts, and of appends. *)
Ltac measure :=
  unfold quoted; rewrite ?length_app;
  repeat match goal with
  | |- context [List.length (literal ?s)] =>
      let v := eval vm_compute in (List.length (literal s)) in change (List.length (literal s)) with v
  end; cbn [List.length].

Lemma bool_length b : (List.length (bool_name b) <= 5)%nat.
Proof. destruct b; vm_compute; lia. Qed.

Lemma profile_length profile : profile_shown profile -> (List.length (print_json (profile_tree profile)) <= 850)%nat.
Proof.
  intros [Hv Hi Hn Ha Hf Hp Hs]. unfold profile_tree, member, shown. cbn [print_json map join fst snd]. measure.
  apply text_length in Hi, Hn, Ha, Hf.
  pose proof (print_u_length 10 (view_version profile) ltac:(unfold word in Hv; simpl; lia) ltac:(lia)).
  pose proof (print_d_length 10 (view_priority profile) ltac:(unfold signed_word in Hp; simpl; lia) ltac:(lia)).
  pose proof (print_u_length 20 (view_last_success profile) ltac:(unfold double_word in Hs; simpl; lia) ltac:(lia)).
  unfold DECK_COMPANION_PROFILE_ID_CAPACITY, DECK_COMPANION_DISPLAY_NAME_CAPACITY, DECK_COMPANION_HUB_ADDRESS_CAPACITY,
    DECK_COMPANION_FINGERPRINT_CAPACITY in *. lia.
Qed.

Lemma network_length network : network_shown network -> (List.length (print_json (network_tree network)) <= 235)%nat.
Proof.
  intros [Hs Hr]. unfold network_tree, member, shown. cbn [print_json map join fst snd]. measure.
  apply bytes_length in Hs. pose proof (bool_length (scan_secure network)).
  pose proof (print_d_length 3 (scan_rssi network) ltac:(unfold signed_byte in Hr; simpl; lia) ltac:(lia)).
  unfold DECK_SETUP_SCAN_SSID_CAPACITY in *. lia.
Qed.

Lemma array_length {A : Type} (tree : A -> json) (shown_item : A -> Prop) k items :
  (forall i, shown_item i -> (List.length (print_json (tree i)) <= k)%nat) -> Forall shown_item items ->
  (List.length (print_json (JArray (map tree items))) <= 2 + S k * List.length items)%nat.
Proof.
  intros Hk Hi. cbn [print_json]. rewrite !length_app, map_map. cbn [List.length].
  pose proof (join_length k (map (fun i => print_json (tree i)) items)) as H. rewrite length_map in H.
  assert (List.length (join [44%Z] (map (fun i => print_json (tree i)) items)) <= S k * List.length items)%nat; [|lia].
  apply H, Forall_map. eapply Forall_impl; [exact Hi|]. exact Hk.
Qed.

Lemma wifi_length wifi :
  word (WifiConfig.snapshot_generation wifi) -> holds_text DECK_WIFI_SSID_CAPACITY (active_ssid wifi) ->
  holds_text DECK_WIFI_SSID_CAPACITY (candidate_ssid wifi) ->
  (List.length (print_json (wifi_tree wifi)) <= 400)%nat.
Proof.
  intros Hg Ha Hc. unfold wifi_tree, member, shown. cbn [print_json map join fst snd]. measure.
  apply text_length in Ha, Hc. pose proof (bool_length (shows_active wifi)). pose proof (bool_length (shows_candidate wifi)).
  pose proof (print_u_length 10 _ ltac:(unfold word in Hg; simpl; split; [apply Hg|lia]) ltac:(lia)).
  assert (forall s, (List.length (deck_wifi_record_status_name s) <= 20)%nat) as Hn by (intros []; vm_compute; lia).
  pose proof (Hn (WifiConfig.snapshot_record wifi)). pose proof (Hn (WifiConfig.snapshot_candidate_record wifi)).
  assert (List.length (deck_wifi_config_state_name (WifiConfig.snapshot_state wifi)) <= 20)%nat
    by (destruct (WifiConfig.snapshot_state wifi); vm_compute; lia).
  unfold DECK_WIFI_SSID_CAPACITY in *. lia.
Qed.

Lemma settings_length settings :
  word (settings_generation settings) -> signed_word (temperature_offset_tenths_c settings) ->
  (List.length (print_json (settings_tree settings)) <= 250)%nat.
Proof.
  intros Hg Ht. unfold settings_tree, member. cbn [print_json map join fst snd]. measure.
  pose proof (bool_length (settings_has_active settings)). pose proof (bool_length (settings_has_candidate settings)).
  pose proof (print_u_length 10 (settings_generation settings) ltac:(unfold word in Hg; simpl; lia) ltac:(lia)).
  pose proof (print_d_length 10 (temperature_offset_tenths_c settings) ltac:(unfold signed_word in Ht; simpl; lia) ltac:(lia)).
  assert (forall s, (List.length (deck_device_settings_record_status_name s) <= 20)%nat) as Hn by (intros []; vm_compute; lia).
  pose proof (Hn (settings_record_status settings)). pose proof (Hn (settings_candidate_record_status settings)).
  assert (List.length (deck_device_settings_state_name (DeviceSettings.state settings)) <= 20)%nat
    by (destruct (DeviceSettings.state settings); vm_compute; lia).
  lia.
Qed.

Lemma companions_length companions :
  word (CompanionProfiles.snapshot_generation companions) ->
  holds_text DECK_COMPANION_PROFILE_ID_CAPACITY (active_profile_id companions) ->
  Forall profile_shown (views companions) -> (List.length (views companions) <= DECK_COMPANION_MAX_PROFILES)%nat ->
  (List.length (print_json (companions_tree companions)) <= 4600)%nat.
Proof.
  intros Hg Ha Hp Hc. pose proof (array_length profile_tree profile_shown 850 _ profile_length Hp) as Hl.
  unfold companions_tree, member, shown. revert Hl. generalize (JArray (map profile_tree (views companions))). intros profiles Hl.
  cbn [print_json map join fst snd]. measure. apply text_length in Ha.
  pose proof (bool_length (snapshot_faulted companions)). pose proof (bool_length (snapshot_has_active_profile companions)).
  pose proof (print_u_length 10 (CompanionProfiles.snapshot_generation companions)
    ltac:(unfold word in Hg; simpl; lia) ltac:(lia)).
  unfold DECK_COMPANION_PROFILE_ID_CAPACITY, DECK_COMPANION_MAX_PROFILES in *. lia.
Qed.

(** The buffer of [render_status] in the service. *)
Definition kStatusResponseCapacity : Z := 8192.

Lemma status_length snapshot wifi settings companions networks :
  status_shown snapshot wifi settings companions networks ->
  (List.length (print_json (status_tree snapshot wifi settings companions networks)) < Z.to_nat kStatusResponseCapacity)%nat.
Proof.
  intros [Hs Ha Hw Ha' Hc' Hd Ht Hg Hi Hp Hpc Hn Hnc].
  pose proof (wifi_length wifi Hw Ha' Hc') as Hwl. pose proof (settings_length settings Hd Ht) as Hsl.
  pose proof (companions_length companions Hg Hi Hp Hpc) as Hcl.
  pose proof (array_length network_tree network_shown 235 networks network_length Hn) as Hnl.
  unfold status_tree, member, shown. revert Hwl Hsl Hcl Hnl.
  generalize (wifi_tree wifi) (settings_tree settings) (companions_tree companions) (JArray (map network_tree networks)).
  intros w d c n Hwl Hsl Hcl Hnl. cbn [print_json map join fst snd]. measure. apply text_length in Ha.
  pose proof (bool_length (SetupMode.active snapshot)).
  pose proof (print_u_length 10 (SetupMode.session_id snapshot) ltac:(unfold word in Hs; simpl; lia) ltac:(lia)).
  assert (List.length (reason_name (SetupMode.reason snapshot)) <= 15)%nat
    by (destruct (SetupMode.reason snapshot); vm_compute; lia).
  unfold DECK_SETUP_ADDRESS_CAPACITY, kStatusResponseCapacity in *. lia.
Qed.

(** ** The document *)

Lemma word_integer n : word n \/ double_word n -> integer_text (print_u n).
Proof. intros H. apply print_u_integer. unfold word, double_word in H. lia. Qed.

Lemma signed_integer n : signed_word n \/ signed_byte n -> integer_text (print_d n).
Proof. intros H. apply print_d_integer. unfold signed_word, signed_byte in H. lia. Qed.

Definition plain (t : bytes) : bool := forallb (fun b => (0x20 <=? b) && negb (b =? 34) && negb (b =? 92)) t.

Lemma plain_body t : plain t = true -> string_body t.
Proof.
  induction t as [|b t IH]; intros H; [constructor|]. cbn [plain forallb] in H. bool_prop. constructor; [lia..|by apply IH].
Qed.

Lemma shown_body capacity t : holds_text capacity t -> string_body (escaped t).
Proof. intros H. by eapply escaped_body, text_bytes_of. Qed.

Create HintDb status.
#[local] Hint Resolve word_integer signed_integer shown_body : status.

(** The keys are closed texts; the names are those of an enumeration. *)
Ltac well_formed :=
  lazymatch goal with
  | |- _ /\ _ => split; well_formed
  | |- True => exact I
  | |- string_body (literal _) => apply plain_body; reflexivity
  | |- string_body (?name ?value) => first [solve [eauto with status] | apply plain_body; destruct value; reflexivity]
  | |- _ => eauto with status
  end.

Lemma profile_wf profile : profile_shown profile -> json_wf (profile_tree profile).
Proof.
  intros [Hv Hi Hn Ha Hf Hp Hs]. unfold profile_tree, member, shown. cbn [json_wf fold_right fst snd]. well_formed.
Qed.

Lemma network_wf network : network_shown network -> json_wf (network_tree network).
Proof.
  intros [[Hs Hb] Hr]. unfold network_tree, member, shown. cbn [json_wf fold_right fst snd].
  pose proof (escaped_body _ Hb). well_formed.
Qed.

Lemma array_wf {A : Type} (tree : A -> json) (shown_item : A -> Prop) items :
  (forall i, shown_item i -> json_wf (tree i)) -> Forall shown_item items -> json_wf (JArray (map tree items)).
Proof. intros Hw. induction 1 as [|i items Hi _ IH]; [exact I|]. split; [by apply Hw|exact IH]. Qed.

Lemma status_wf snapshot wifi settings companions networks :
  status_shown snapshot wifi settings companions networks ->
  json_wf (status_tree snapshot wifi settings companions networks).
Proof.
  intros [Hs Ha Hw Ha' Hc' Hd Ht Hg Hi Hp Hpc Hn Hnc].
  pose proof (array_wf profile_tree profile_shown _ profile_wf Hp) as Hps.
  pose proof (array_wf network_tree network_shown networks network_wf Hn) as Hns.
  unfold status_tree, wifi_tree, settings_tree, companions_tree, member, shown. revert Hps Hns.
  generalize (JArray (map profile_tree (views companions))) (JArray (map network_tree networks)).
  intros ps ns Hps Hns. cbn [json_wf fold_right fst snd]. well_formed.
Qed.

(** Every text the document shows. *)
Definition shown_texts snapshot wifi companions (networks : list deck_setup_scan_result_t) : list bytes :=
  [SetupMode.address snapshot; active_ssid wifi; candidate_ssid wifi; active_profile_id companions]
  ++ (views companions ≫= fun p => [view_profile_id p; view_display_name p; view_hub_address p; view_fingerprint p])
  ++ map scan_ssid networks.

Lemma shown_texts_bytes snapshot wifi settings companions networks :
  status_shown snapshot wifi settings companions networks ->
  Forall (fun t => Forall byte_value (c_string t)) (shown_texts snapshot wifi companions networks).
Proof.
  intros [Hs Ha Hw Ha' Hc' Hd Ht Hg Hi Hp Hpc Hn Hnc]. unfold shown_texts.
  repeat (apply Forall_cons; split; [by eapply text_bytes_of|]). apply Forall_app. split.
  - apply Forall_bind. eapply Forall_impl; [exact Hp|]. intros p [? ? ? ? ? ? ?].
    repeat (apply Forall_cons; split; [by eapply text_bytes_of|]). constructor.
  - apply Forall_map. eapply Forall_impl; [exact Hn|]. by intros n [[? ?] ?].
Qed.

(** C23: What the setup page fetches is JSON whatever the
    names that are in it: [deck_setup_http_render_status] fits the service's
    8,192 bytes with five Companion profiles and ten networks whose names are
    any 32 bytes; what it writes is a text of the tree of the fields, each
    string of which a reader reads back as the field; and a smaller buffer is
    either refused or given the same document, never a shortened one. *)
Theorem status_is_always_json snapshot wifi settings companions networks
    (H : status_shown snapshot wifi settings companions networks) :
  let tree := status_tree snapshot wifi settings companions networks in
  (exists text,
    deck_setup_http_render_status snapshot wifi settings companions networks (Z.to_nat kStatusResponseCapacity) = Some text
    /\ json_text tree text)
  /\ (forall capacity text,
        deck_setup_http_render_status snapshot wifi settings companions networks capacity = Some text ->
        json_text tree text /\ (List.length text < capacity)%nat)
  /\ Forall (fun t => spells (escaped t) (c_string t)) (shown_texts snapshot wifi companions networks).
Proof.
  intros tree. pose proof (print_json_text tree (status_wf _ _ _ _ _ H)) as Ht. split; [|split].
  - exists (print_json tree). split; [|exact Ht]. rewrite render_status_eq. cbv zeta.
    pose proof (status_length _ _ _ _ _ H) as Hl. apply Nat.ltb_lt in Hl. by rewrite Hl.
  - intros capacity text. rewrite render_status_eq. cbv zeta. fold tree.
    destruct (Nat.ltb_spec (List.length (print_json tree)) capacity); [|done]. intros [= <-]. by split.
  - eapply Forall_impl; [exact (shown_texts_bytes _ _ _ _ _ H)|]. intros t. apply escaped_spells.
Qed.
End status.

Definition example_snapshot : deck_setup_snapshot_t := {|
  SetupMode.active := true; SetupMode.reason := DECK_SETUP_REASON_NO_WIFI; SetupMode.session_id := 7;
  SetupMode.started_at_ms := 0; SetupMode.last_activity_ms := 0; SetupMode.ssid := []; SetupMode.password := [];
  SetupMode.address := pad DECK_SETUP_ADDRESS_CAPACITY (literal "192.168.4.1");
|}.

Definition example_wifi : deck_wifi_config_snapshot_t := {|
  WifiConfig.snapshot_state := DECK_WIFI_CONFIG_ACTIVE; WifiConfig.snapshot_record := DECK_WIFI_RECORD_VALID;
  WifiConfig.snapshot_candidate_record := DECK_WIFI_RECORD_EMPTY; shows_active := true; shows_candidate := false;
  WifiConfig.snapshot_generation := 3; active_ssid := pad DECK_WIFI_SSID_CAPACITY (quoting "caf'\");
  candidate_ssid := replicate DECK_WIFI_SSID_CAPACITY 0;
|}.

Definition example_settings : deck_device_settings_snapshot_t := {|
  DeviceSettings.state := DECK_DEVICE_SETTINGS_ACTIVE; settings_record_status := DECK_DEVICE_SETTINGS_RECORD_VALID;
  settings_candidate_record_status := DECK_DEVICE_SETTINGS_RECORD_EMPTY; settings_has_active := true;
  settings_has_candidate := false; settings_generation := 2; temperature_offset_tenths_c := -15;
|}.

Definition example_companions : deck_companion_profiles_snapshot_t := {|
  CompanionProfiles.snapshot_record := DECK_COMPANION_RECORD_VALID;
  CompanionProfiles.snapshot_candidate_record := DECK_COMPANION_RECORD_EMPTY; snapshot_faulted := false;
  snapshot_has_active_profile := false; CompanionProfiles.snapshot_generation := 0; snapshot_count := 0;
  active_profile_id := replicate DECK_COMPANION_PROFILE_ID_CAPACITY 0; views := [];
|}.

(** A network whose name holds an escape character. *)
Definition example_network : deck_setup_scan_result_t := {|
  scan_ssid := pad DECK_SETUP_SCAN_SSID_CAPACITY [27; 65]; scan_rssi := -60; scan_secure := true |}.

Lemma status_is_always_json_witness :
  exists text,
    deck_setup_http_render_status example_snapshot example_wifi example_settings example_companions [example_network]
      (Z.to_nat kStatusResponseCapacity) = Some text.
Proof.
  destruct (status_is_always_json example_snapshot example_wifi example_settings example_companions [example_network])
    as ((text & H & _) & _).
  - constructor; try (vm_compute; lia); try (split; vm_compute; [lia|]; repeat constructor; done); repeat constructor;
      try done; vm_compute; lia.
  - by exists text.
Defined.
