(* ===== verification/OtaService.v ===== *)
(** * The OTA service

    [components/ota_service/deck_ota_service.cpp]: the worker task that runs
    one OtaTransaction at a time over ESP-IDF, the queues and flags through
    which the companion link task hands it commands, and the transport fence
    between the two.

    The two tasks interleave at their accesses of shared state.  A worker
    access first lets the link task make the accesses that the [schedule] of
    the world has for it ([interfere]); the theorems are about every schedule.
    A method of the fence is one access, as TransportFence proves it to be. *)

From Stdlib Require Import String.
From S2P Require Import Prelude CString Codec OtaTransaction TransportFence.

Definition kBoard : bytes := literal "esp32-s3-rlcd-4.2".
Definition kProtocolVersion : Z := 1.
Definition kInactivityTimeoutMs : Z := 30000.
Definition kTransactionTimeoutMs : Z := 600000.
Definition kManifestMagic : bytes := literal "S3RLCDOTA1".
Definition DECK_OTA_TRANSACTION_ID_CAPACITY : nat := 33.
(** The length of either queue. *)
Definition kQueueLength : nat := 2.

(** ** ESP-IDF *)

Record esp_partition_t := { partition_address : Z; partition_size : Z }.

(** What the service calls, with what each call answers.  A function with an
    output argument returns it with its success. *)
Inductive esp_call : Type -> Type :=
  | psa_crypto_init : esp_call bool
  | esp_timer_get_time : esp_call Z
  | esp_ota_get_next_update_partition : esp_call (option esp_partition_t)
  | esp_ota_begin (partition : esp_partition_t) (image_size : Z) : esp_call (bool * Z)
  | esp_ota_write (handle : Z) (d : bytes) : esp_call bool
  | esp_ota_end (handle : Z) : esp_call bool
  | esp_ota_abort (handle : Z) : esp_call unit
  | esp_ota_get_partition_description (partition : esp_partition_t) : esp_call (option bytes)
  | esp_ota_set_boot_partition (partition : esp_partition_t) : esp_call bool
  | psa_hash_setup : esp_call bool
  | psa_hash_update (d : bytes) : esp_call bool
  | psa_hash_finish : esp_call (option bytes)
  | psa_hash_abort : esp_call unit
  | psa_import_key (public_key : bytes) : esp_call (bool * Z)
  | psa_hash_compute (d : bytes) : esp_call (option bytes)
  | psa_verify_hash (key : Z) (digest signature : bytes) : esp_call bool
  | psa_destroy_key (key : Z) : esp_call unit
  (** [new (std::nothrow)], the queues, the event group and the task *)
  | allocate : esp_call bool.

(** The answers, over an arbitrary state of the platform. *)
Class OtaPlatform (D : Type) := perform : forall {A}, esp_call A -> M D A.

(** ** Commands and state *)

Inductive CommandKind := offer | chunk | abort_transport | stop.

#[export] Instance command_kind_eq_dec : EqDecision CommandKind.
Proof. solve_decision. Defined.

(** The chunk is [data].  [stamp] is a ghost: the number of transports aborted
    before [transport_epoch] was captured. *)
Record Command := {
  kind : CommandKind;
  transport_epoch : Z;
  command_transaction_id : bytes;
  command_manifest : deck_ota_manifest_t;
  offset : Z;
  data : bytes;
  final : bool;
  stamp : nat;
}.

Record deck_ota_service_result_t := {
  result_transaction_id : bytes;
  result_transaction : deck_ota_transaction_snapshot_t;
  reboot_required : bool;
}.

(** The pointer to the transaction; [Freed] points to memory that was
    released. *)
Inductive transaction_pointer := Null | Live (t : deck_ota_transaction) | Freed.

(** The event group [lifecycle] is its two bits; a result in the queue has a
    ghost, the [stamp] of the command it answers. *)
Record deck_ota_service := {
  commands : list Command;
  results : list (nat * deck_ota_service_result_t);
  kStoppedBit : bool;
  kTransportAbortCompleteBit : bool;
  transaction : transaction_pointer;
  transaction_options : deck_ota_transaction_options_t;
  adapter_manifest : deck_ota_manifest_t;
  ota_handle : Z;
  update_partition : option esp_partition_t;
  hash_active : bool;
  active_transaction_id : bytes;
  transport_fence : fence;
  transport_abort_requested : bool;
}.
#[export] Instance service_rebuild : Rebuild deck_ota_service := fun s =>
  Build_deck_ota_service (commands s) (results s) (kStoppedBit s) (kTransportAbortCompleteBit s) (transaction s)
    (transaction_options s) (adapter_manifest s) (ota_handle s) (update_partition s) (hash_active s)
    (active_transaction_id s) (transport_fence s) (transport_abort_requested s).

(** ** The link task *)

(** Where [deck_ota_service_abort_transport] stands; the flag, a ghost, says
    that no earlier abort was still to be served when the call began. *)
Inductive abort_point := AtBeginAbort | AtRequest | AtSend | AtWait.

Inductive link_state :=
  | Free
  | Sending (command : Command)
  | Aborting (point : abort_point) (clean : bool)
  | StopSending
  | StopWaiting
  | Deleted.

(** What the link task does next: it calls a function of the service, makes
    the next access of the call in progress, or its wait times out. *)
Inductive link_action :=
  | CallOffer (transaction_id : bytes) (manifest : deck_ota_manifest_t)
  | CallWrite (transaction_id : bytes) (offset : Z) (data : bytes) (final : bool)
  | CallPollResult
  | CallAbortTransport
  | CallStop
  | Proceed
  | TimeOut.

(** Ghosts: transports aborted so far; those the worker has cleaned up after;
    whether it is cleaning up; the stamps of the transaction that has begun and
    of the command received last; and what happened: [BootSelected] is a call
    of [esp_ota_set_boot_partition], with both stamps and the transports
    aborted when it is made. *)
Inductive event :=
  | BootSelected (offered handled now : nat)
  | Polled (from served : nat)
  | AbortReturned (clean completed : bool) (served now : nat).

Record ghost_state := {
  transports : nat;
  served : nat;
  serving : bool;
  begun : nat;
  handled : nat;
  log : list event;
}.
#[export] Instance ghost_rebuild : Rebuild ghost_state := fun g =>
  Build_ghost_state (transports g) (served g) (serving g) (begun g) (handled g) (log g).

Record world {D : Type} := {
  service : deck_ota_service;
  platform : D;
  link : link_state;
  schedule : list (list link_action);
  ghost : ghost_state;
}.
Arguments world : clear implicits.
#[export] Instance world_rebuild {D} : Rebuild (world D) := fun w =>
  Build_world D (service w) (platform w) (link w) (schedule w) (ghost w).

Definition valid_transaction_id (value : bytes) : bool :=
  if negb (strlen value =? 32)%nat then false
  else forallb (fun b => is_digit b || ((ch_a <=? b) && (b <=? 102))) (take 32 value).

Definition has_room {A} (queue : list A) : bool := (List.length queue <? kQueueLength)%nat.

Definition is_abort_command (c : Command) : bool := bool_decide (kind c = abort_transport).

(** No earlier abort is still to be served. *)
Definition nothing_to_serve (s : deck_ota_service) (g : ghost_state) : bool :=
  negb (existsb is_abort_command (commands s)) && negb (transport_abort_requested s) && negb (serving g).

Definition lifecycle_command (k : CommandKind) : Command := {|
  kind := k; transport_epoch := 0; command_transaction_id := replicate DECK_OTA_TRANSACTION_ID_CAPACITY 0;
  command_manifest := empty_manifest; offset := 0; data := []; final := false; stamp := 0 |}.

Section Link.
Context {D : Type}.
Implicit Types (w : world D).

Definition note (e : event) w : world D := w <| ghost := (ghost w) <| log := log (ghost w) ++ [e] |> |>.

Definition offer_command w (id : bytes) (m : deck_ota_manifest_t) : Command := {|
  kind := offer; transport_epoch := (transport_fence (service w)).1;
  command_transaction_id := pad DECK_OTA_TRANSACTION_ID_CAPACITY (c_string id);
  command_manifest := m; offset := 0; data := []; final := false; stamp := transports (ghost w) |}.

Definition chunk_command w (id : bytes) (o : Z) (d : bytes) (f : bool) : Command := {|
  kind := chunk; transport_epoch := (transport_fence (service w)).1;
  command_transaction_id := pad DECK_OTA_TRANSACTION_ID_CAPACITY (c_string id);
  command_manifest := empty_manifest; offset := o; data := d; final := f; stamp := transports (ghost w) |}.

Definition deck_ota_service_offer (id : bytes) (m : deck_ota_manifest_t) w : world D :=
  if negb (valid_transaction_id id) then w else w <| link := Sending (offer_command w id m) |>.

Definition deck_ota_service_write (id : bytes) (o : Z) (d : bytes) (f : bool) w : world D :=
  if negb (valid_transaction_id id) || (List.length d =? 0)%nat || (DECK_OTA_MAX_CHUNK_BYTES <? List.length d)%nat
  then w else w <| link := Sending (chunk_command w id o d f) |>.

Definition deck_ota_service_poll_result w : world D :=
  match results (service w) with
  | [] => w
  | (from, _) :: rest => note (Polled from (served (ghost w))) (w <| service := (service w) <| results := rest |> |>)
  end.

(** The accesses of [deck_ota_service_abort_transport] after the first. *)
Definition abort_access (point : abort_point) (clean : bool) w : world D :=
  let s := service w in
  match point with
  | AtBeginAbort =>
      let s := match atomic BeginAbort (transport_fence s) with
               | Some f => s <| transport_fence := f |>
               | None => s
               end in
      w <| service := s |> <| link := Aborting AtRequest clean |>
        <| ghost := (ghost w) <| transports := S (transports (ghost w)) |> |>
  | AtRequest =>
      w <| service := s <| transport_abort_requested := true |> |> <| link := Aborting AtSend clean |>
  | AtSend =>
      let s := if has_room (commands s) then s <| commands := lifecycle_command abort_transport :: commands s |> else s in
      w <| service := s |> <| link := Aborting AtWait clean |>
  | AtWait =>
      if kTransportAbortCompleteBit s
      then note (AbortReturned clean true (served (ghost w)) (transports (ghost w))) (w <| link := Free |>)
      else w
  end.

Definition proceed w : world D :=
  let s := service w in
  match link w with
  | Sending c => if has_room (commands s) then w <| service := s <| commands := commands s ++ [c] |> |> <| link := Free |> else w
  | Aborting point clean => abort_access point clean w
  | StopSending =>
      if has_room (commands s)
      then w <| service := s <| commands := lifecycle_command stop :: commands s |> |> <| link := StopWaiting |> else w
  | StopWaiting => if kStoppedBit s then w <| link := Deleted |> else w
  | _ => w
  end.

(** A wait for room or for a bit that lasted [kQueueTicks]. *)
Definition time_out w : world D :=
  match link w with
  | Sending _ | StopSending | StopWaiting => w <| link := Free |>
  | Aborting AtWait clean =>
      note (AbortReturned clean (kTransportAbortCompleteBit (service w)) (served (ghost w)) (transports (ghost w)))
        (w <| link := Free |>)
  | _ => w
  end.

Definition link_step w (action : link_action) : world D :=
  match action with
  | Proceed => proceed w
  | TimeOut => time_out w
  | _ =>
      match link w with
      | Free =>
          match action with
          | CallOffer id m => deck_ota_service_offer id m w
          | CallWrite id o d f => deck_ota_service_write id o d f w
          | CallPollResult => deck_ota_service_poll_result w
          | CallAbortTransport =>
              w <| service := (service w) <| kTransportAbortCompleteBit := false |> |>
                <| link := Aborting AtBeginAbort (nothing_to_serve (service w) (ghost w)) |>
          | CallStop => w <| link := StopSending |>
          | _ => w
          end
      | _ => w
      end
  end.
End Link.

(** ** Accesses of the worker task *)

Definition kSigningKeyV1 : bytes := [
  0x04; 0x65; 0x6b; 0x37; 0xc0; 0xad; 0xb4; 0xd5; 0xc2; 0xa9; 0x71;
  0xfc; 0x07; 0xfa; 0xd9; 0xbc; 0xdd; 0x67; 0x9d; 0x30; 0xee; 0xb2;
  0xbf; 0xf1; 0x40; 0xa0; 0x1d; 0x88; 0xf2; 0x92; 0xfa; 0x2b; 0xb5;
  0x78; 0xd0; 0xf3; 0x32; 0x04; 0x88; 0xc5; 0x76; 0xd9; 0x99; 0x0b;
  0xb6; 0x9d; 0xc9; 0xb0; 0x55; 0x47; 0xe1; 0x75; 0x2c; 0x61; 0xde;
  0x8d; 0x0b; 0x84; 0xe4; 0xa8; 0xfc; 0x04; 0xdd; 0xb1; 0x37].

Definition deck_ota_signing_public_key (key_id : Z) : option bytes :=
  if negb (key_id =? 1) then None else Some kSigningKeyV1.

Definition put_u32 (value : Z) : bytes :=
  [u8 (Z.shiftr value 24); u8 (Z.shiftr value 16); u8 (Z.shiftr value 8); u8 value].

(** The bytes that are signed: [memcpy] of the texts into zeros. *)
Definition canonical_manifest (m : deck_ota_manifest_t) : bytes :=
  kManifestMagic ++ put_u32 (signing_key_id m) ++ put_u32 (minimum_protocol_version m)
  ++ put_u32 (image_length m) ++ pad 48 (c_string (board m)) ++ pad 32 (c_string (version m))
  ++ take DECK_OTA_DIGEST_BYTES (image_sha256 m).

(** [strncmp(a, b, size) == 0] *)
Definition strncmp_eq (a b : bytes) (size : nat) : bool :=
  bool_decide (take size (c_string a) = take size (c_string b)).

Section Worker.
Context {D : Type} `{OtaPlatform D}.

Definition get : M (world D) deck_ota_service := fun w => (service w, w).

Definition modify (f : deck_ota_service -> deck_ota_service) : M (world D) unit :=
  fun w => (tt, w <| service := f (service w) |>).

(** The ghosts. *)
Definition modify_ghost (f : ghost_state -> ghost_state) : M (world D) unit :=
  fun w => (tt, w <| ghost := f (ghost w) |>).

(** The calls that select the boot partition are recorded. *)
Definition recorded {A} (call : esp_call A) (g : ghost_state) : ghost_state :=
  match call with
  | esp_ota_set_boot_partition _ => g <| log := log g ++ [BootSelected (begun g) (handled g) (transports g)] |>
  | _ => g
  end.

(** A call of the platform; the link task's accesses meanwhile are those
    before the next access of the worker. *)
Definition esp {A} (call : esp_call A) : M (world D) A :=
  fun w => let '(a, d) := perform call (platform w) in (a, w <| platform := d |> <| ghost := recorded call (ghost w) |>).

Definition interfere : M (world D) unit := fun w =>
  match schedule w with
  | [] => (tt, w)
  | batch :: rest => (tt, fold_left link_step batch (w <| schedule := rest |>))
  end.

Definition fence_call (m : TransportFence.method) : M (world D) bool := fun w =>
  let w := (interfere w).2 in
  match atomic m (transport_fence (service w)) with
  | Some f => (true, w <| service := (service w) <| transport_fence := f |> |>)
  | None => (false, w)
  end.

Definition fence_accepts (c : Command) : M (world D) bool :=
  _ ← interfere;
  s ← get;
  mret (transport_epoch c =? (transport_fence s).1).

Definition fence_begin_transaction (c : Command) : M (world D) bool :=
  begins ← fence_call (BeginTransaction (transport_epoch c));
  _ ← (if begins : bool then modify_ghost (fun g => g <| begun := stamp c |>) else mret tt);
  mret begins.

Definition fence_finish_abort : M (world D) unit :=
  _ ← fence_call FinishAbort;
  modify_ghost (fun g => g <| served := transports g |>).

(** [transport_abort_requested.exchange(false)] and [.load()] *)
Definition exchange_request : M (world D) bool :=
  _ ← interfere;
  s ← get;
  let requested := transport_abort_requested s in
  _ ← modify (fun s => s <| transport_abort_requested := false |>);
  _ ← (if requested then modify_ghost (fun g => g <| serving := true |>) else mret tt);
  mret requested.

Definition load_request : M (world D) bool :=
  _ ← interfere;
  s ← get;
  mret (transport_abort_requested s).

(** [xQueueReceive(commands, ...)]: [None] when 250 ms pass without one. *)
Definition receive_command : M (world D) (option Command) :=
  _ ← interfere;
  s ← get;
  match commands s with
  | [] => mret None
  | c :: rest =>
      _ ← modify (fun s => s <| commands := rest |>);
      _ ← modify_ghost (fun g => g <| handled := stamp c |>);
      _ ← (if is_abort_command c then modify_ghost (fun g => g <| serving := true |>) else mret tt);
      mret (Some c)
  end.

(** [xQueueReceive(results, ..., 0)] *)
Definition receive_result : M (world D) bool :=
  _ ← interfere;
  s ← get;
  match results s with
  | [] => mret false
  | _ :: rest => _ ← modify (fun s => s <| results := rest |>); mret true
  end.

(** [xQueueSend(results, ..., kQueueTicks)]: a result that finds no room is
    lost. *)
Definition send_result (from : ghost_state -> nat) (r : deck_ota_service_result_t) : M (world D) unit :=
  _ ← interfere;
  (fun w =>
    let s := service w in
    (tt, if has_room (results s) then w <| service := s <| results := results s ++ [(from (ghost w), r)] |> |> else w))
    : M (world D) unit.

Definition set_abort_complete : M (world D) unit :=
  _ ← interfere;
  _ ← modify (fun s => s <| kTransportAbortCompleteBit := true |>);
  modify_ghost (fun g => g <| serving := false |>).

Definition set_stopped : M (world D) unit :=
  _ ← interfere;
  modify (fun s => s <| kStoppedBit := true |>).

Definition now_ms : M (world D) Z :=
  now ← esp esp_timer_get_time;
  mret (now / 1000).

(** ** The adapters of the transaction *)

Definition flash_begin (image_size : Z) : M (world D) bool :=
  partition ← esp esp_ota_get_next_update_partition;
  _ ← modify (fun s => s <| update_partition := partition |>);
  match partition with
  | None => mret false
  | Some p =>
      if partition_size p <? image_size then
        _ ← modify (fun s => s <| update_partition := None |>);
        mret false
      else
        _ ← modify (fun s => s <| ota_handle := 0 |>);
        '(begun, handle) ← esp (esp_ota_begin p image_size);
        _ ← modify (fun s => s <| ota_handle := handle |>);
        mret begun
  end.

Definition flash_write (d : bytes) : M (world D) bool :=
  s ← get;
  if ota_handle s =? 0 then mret false else esp (esp_ota_write (ota_handle s) d).

Definition flash_finish : M (world D) bool :=
  s ← get;
  ended ← (if ota_handle s =? 0 then mret false else esp (esp_ota_end (ota_handle s)));
  _ ← modify (fun s => s <| ota_handle := 0 |>);
  if negb ended then mret false
  else
    s ← get;
    match update_partition s with
    | None => mret false
    | Some p =>
        description ← esp (esp_ota_get_partition_description p);
        match description with
        | None => mret false
        | Some description_version => mret (strncmp_eq description_version (version (adapter_manifest s)) 32)
        end
    end.

Definition flash_abort : M (world D) unit :=
  s ← get;
  _ ← (if ota_handle s =? 0 then mret tt
       else _ ← esp (esp_ota_abort (ota_handle s)); modify (fun s => s <| ota_handle := 0 |>));
  modify (fun s => s <| update_partition := None |>).

Definition flash_select_boot : M (world D) bool :=
  commits ← fence_call TryBeginCommit;
  if negb commits then mret false
  else
    s ← get;
    selected ← match update_partition s with
               | None => mret false
               | Some p => esp (esp_ota_set_boot_partition p)
               end;
    _ ← fence_call FinishCommit;
    mret selected.

Definition hash_begin : M (world D) bool :=
  s ← get;
  _ ← (if hash_active s then esp psa_hash_abort else mret tt);
  active ← esp psa_hash_setup;
  _ ← modify (fun s => s <| hash_active := active |>);
  mret active.

Definition hash_update (d : bytes) : M (world D) bool :=
  s ← get;
  if negb (hash_active s) then mret false else esp (psa_hash_update d).

Definition hash_finish : M (world D) (option bytes) :=
  s ← get;
  output ← (if negb (hash_active s) then mret None else esp psa_hash_finish);
  let finished := match output with
                  | Some digest => (List.length digest =? DECK_OTA_DIGEST_BYTES)%nat
                  | None => false
                  end in
  _ ← (if negb finished && hash_active s then esp psa_hash_abort else mret tt);
  _ ← modify (fun s => s <| hash_active := false |>);
  mret (if finished then output else None).

Definition hash_abort : M (world D) unit :=
  s ← get;
  if hash_active s then _ ← esp psa_hash_abort; modify (fun s => s <| hash_active := false |>) else mret tt.

Definition verify_manifest (m : deck_ota_manifest_t) : M (world D) bool :=
  match deck_ota_signing_public_key (signing_key_id m) with
  | None => mret false
  | Some public_key =>
      '(imported, key) ← esp (psa_import_key public_key);
      digest ← (if imported : bool then esp (psa_hash_compute (canonical_manifest m)) else mret None);
      valid ← match digest with
              | Some digest =>
                  if (List.length digest =? DECK_OTA_DIGEST_BYTES)%nat
                  then esp (psa_verify_hash key digest (signature m)) else mret false
              | None => mret false
              end;
      _ ← (if key =? 0 then mret tt else esp (psa_destroy_key key));
      mret valid
  end.

#[export] Instance service_adapters : OtaAdapters (world D) := {
  OtaTransaction.flash_begin := flash_begin;
  OtaTransaction.flash_write := flash_write;
  OtaTransaction.flash_finish := flash_finish;
  OtaTransaction.flash_abort := flash_abort;
  OtaTransaction.flash_select_boot := flash_select_boot;
  OtaTransaction.hash_begin := hash_begin;
  OtaTransaction.hash_update := hash_update;
  OtaTransaction.hash_finish := hash_finish;
  OtaTransaction.hash_abort := hash_abort;
  OtaTransaction.verify_manifest := verify_manifest;
}.

(** ** The worker task *)

(** A turn of the loop, of which one is the last; [Undefined] when it uses the
    memory of a transaction that was released. *)
Inductive outcome := Continue | Stopped | Undefined.

Definition create_transaction : M (world D) (option deck_ota_transaction) :=
  s ← get;
  allocated ← esp allocate;
  mret (deck_ota_transaction_create (transaction_options s) allocated).

(** [deck_ota_transaction_destroy(service->transaction)]; the pointer is left
    as it is.  [false] when the memory was released before. *)
Definition destroy_transaction : M (world D) bool :=
  s ← get;
  match transaction s with
  | Null => mret true
  | Live t =>
      _ ← deck_ota_transaction_destroy t;
      _ ← modify (fun s => s <| transaction := Freed |>);
      mret true
  | Freed => mret false
  end.

Fixpoint drain_results (fuel : nat) : M (world D) unit :=
  match fuel with
  | O => mret tt
  | S fuel => more ← receive_result; if more : bool then drain_results fuel else mret tt
  end.

Definition abort_transport_transaction : M (world D) bool :=
  valid ← destroy_transaction;
  if negb valid then mret false
  else
    _ ← modify (fun s => s <| transaction := Null |>
                           <| active_transaction_id := replicate DECK_OTA_TRANSACTION_ID_CAPACITY 0 |>
                           <| adapter_manifest := empty_manifest |>);
    _ ← drain_results (S kQueueLength);
    _ ← fence_finish_abort;
    _ ← set_abort_complete;
    mret true.

Definition clear_active_transaction_id : M (world D) unit :=
  modify (fun s => s <| active_transaction_id := replicate DECK_OTA_TRANSACTION_ID_CAPACITY 0 |>).

(** [transaction] is the one the service points to, [None] for a null pointer. *)
Definition publish_result (t : option deck_ota_transaction) (id : bytes) (r : deck_ota_result_t) : M (world D) unit :=
  requested ← load_request;
  if requested : bool then mret tt
  else
    let snap := match t with
                | Some t => deck_ota_transaction_snapshot t
                | None => {| state := DECK_OTA_FAILED; result := r; received_bytes := 0; s_image_length := 0 |}
                end in
    let snap := snap <| result := r |> in
    send_result begun {| result_transaction_id := id; result_transaction := snap;
                         reboot_required := bool_decide (state snap = DECK_OTA_READY_TO_REBOOT) |}.

Definition publish_rejection (id : bytes) (r : deck_ota_result_t) : M (world D) unit :=
  requested ← load_request;
  if requested : bool then mret tt
  else
    send_result handled {|
      result_transaction_id := id;
      result_transaction := {| state := DECK_OTA_FAILED; result := r; received_bytes := 0; s_image_length := 0 |};
      reboot_required := false |}.

(** A turn without a command. *)
Definition tick_turn : M (world D) outcome :=
  s ← get;
  match transaction s with
  | Null => mret Continue
  | Freed => mret Undefined
  | Live t =>
      if negb (bool_decide (state (deck_ota_transaction_snapshot t) = DECK_OTA_RECEIVING)) then mret Continue
      else
        now ← now_ms;
        '(r, t) ← deck_ota_transaction_tick t now;
        _ ← modify (fun s => s <| transaction := Live t |>);
        if negb (bool_decide (r = DECK_OTA_TIMED_OUT)) then mret Continue
        else
          s ← get;
          _ ← publish_result (Some t) (active_transaction_id s) r;
          _ ← fence_call EndTransaction;
          _ ← clear_active_transaction_id;
          mret Continue
  end.

(** The offer of a manifest, once its transaction has begun. *)
Definition run_offer (c : Command) (created : option deck_ota_transaction) : M (world D) outcome :=
  _ ← modify (fun s => s <| transaction := match created with Some t => Live t | None => Null end |>
                         <| adapter_manifest := command_manifest c |>
                         <| active_transaction_id := command_transaction_id c |>);
  '(r, t) ← match created with
            | None => mret (DECK_OTA_FLASH_FAILURE, None)
            | Some t =>
                now ← now_ms;
                '(r, t) ← deck_ota_transaction_offer t (command_manifest c) now;
                _ ← modify (fun s => s <| transaction := Live t |>);
                mret (r, Some t)
            end;
  _ ← publish_result t (command_transaction_id c) r;
  if bool_decide (r = DECK_OTA_OK) then mret Continue
  else
    _ ← fence_call EndTransaction;
    _ ← clear_active_transaction_id;
    mret Continue.

(** ... once nothing is being received. *)
Definition begin_offer (c : Command) : M (world D) outcome :=
  begins ← fence_begin_transaction c;
  if negb begins then mret Continue
  else
    created ← create_transaction;
    run_offer c created.

Definition offer_turn (c : Command) : M (world D) outcome :=
  s ← get;
  match transaction s with
  | Null => begin_offer c
  | Freed => mret Undefined
  | Live t =>
      if bool_decide (state (deck_ota_transaction_snapshot t) = DECK_OTA_RECEIVING) then
        _ ← publish_rejection (command_transaction_id c) DECK_OTA_BUSY;
        mret Continue
      else
        _ ← destroy_transaction;
        _ ← fence_call EndTransaction;
        begin_offer c
  end.

Definition write_turn (c : Command) (t : deck_ota_transaction) : M (world D) outcome :=
  now ← now_ms;
  '(r, t) ← deck_ota_transaction_write t (offset c) (data c) (final c) now;
  _ ← modify (fun s => s <| transaction := Live t |>);
  _ ← publish_result (Some t) (command_transaction_id c) r;
  if bool_decide (r = DECK_OTA_OK) && negb (final c) then mret Continue
  else
    _ ← fence_call EndTransaction;
    _ ← clear_active_transaction_id;
    mret Continue.

Definition chunk_turn (c : Command) : M (world D) outcome :=
  s ← get;
  let other := negb (strcmp_eq (active_transaction_id s) (command_transaction_id c)) in
  match transaction s with
  | Live t =>
      if negb other then write_turn c t
      else _ ← publish_rejection (command_transaction_id c) DECK_OTA_INVALID_MANIFEST; mret Continue
  | Freed =>
      if negb other then mret Undefined
      else _ ← publish_rejection (command_transaction_id c) DECK_OTA_INVALID_MANIFEST; mret Continue
  | Null => _ ← publish_rejection (command_transaction_id c) DECK_OTA_INVALID_MANIFEST; mret Continue
  end.

(** After the loop. *)
Definition stop_turn : M (world D) outcome :=
  valid ← destroy_transaction;
  if negb valid then mret Undefined
  else
    _ ← modify (fun s => s <| transaction := Null |>);
    _ ← set_stopped;
    mret Stopped.

Definition serve_abort : M (world D) outcome :=
  valid ← abort_transport_transaction;
  mret (if valid : bool then Continue else Undefined).

Definition command_turn (c : Command) : M (world D) outcome :=
  match kind c with
  | stop => stop_turn
  | abort_transport => serve_abort
  | _ =>
      accepted ← fence_accepts c;
      if negb accepted then mret Continue
      else if bool_decide (kind c = offer) then offer_turn c else chunk_turn c
  end.

(** One turn of the loop of [ota_task]. *)
Definition ota_turn : M (world D) outcome :=
  requested ← exchange_request;
  valid ← (if requested : bool then abort_transport_transaction else mret true);
  if negb valid then mret Undefined
  else
    command ← receive_command;
    match command with
    | None => tick_turn
    | Some c =>
        requested ← exchange_request;
        valid ← (if requested : bool then abort_transport_transaction else mret true);
        if negb valid then mret Undefined
        else if requested && negb (bool_decide (kind c = stop)) then mret Continue
        else command_turn c
    end.

(** [ota_task] from its start, for at most [turns] turns. *)
Fixpoint ota_task (turns : nat) : M (world D) outcome :=
  match turns with
  | O => mret Continue
  | S turns =>
      result ← ota_turn;
      match result with Continue => ota_task turns | _ => mret result end
  end.

(** [deck_ota_service_start], without the task. *)
Definition deck_ota_service_start (running_version_ : bytes) : M D (option deck_ota_service) :=
  if (DECK_OTA_VERSION_CAPACITY <=? strnlen running_version_ DECK_OTA_VERSION_CAPACITY)%nat then mret None
  else
    initialized ← perform psa_crypto_init;
    if negb initialized then mret None
    else
      allocated ← perform allocate;
      if negb allocated then mret None
      else
        partition ← perform esp_ota_get_next_update_partition;
        match partition with
        | None => mret None
        | Some p =>
            started ← perform allocate;
            if negb started then mret None
            else
              mret (Some {|
                commands := []; results := []; kStoppedBit := false; kTransportAbortCompleteBit := false;
                transaction := Null;
                transaction_options := {|
                  running_version := pad DECK_OTA_VERSION_CAPACITY (c_string running_version_);
                  o_board := kBoard ++ [0]; protocol_version := kProtocolVersion;
                  partition_capacity := partition_size p; inactivity_timeout_ms := kInactivityTimeoutMs;
                  maximum_duration_ms := kTransactionTimeoutMs |};
                adapter_manifest := empty_manifest; ota_handle := 0; update_partition := None; hash_active := false;
                active_transaction_id := replicate DECK_OTA_TRANSACTION_ID_CAPACITY 0;
                transport_fence := (1, idle); transport_abort_requested := false |})
        end.
End Worker.

(** The world in which the worker task of [s] starts. *)
Definition started {D} (s : deck_ota_service) (d : D) (schedule : list (list link_action)) : world D := {|
  service := s; platform := d; link := Free; schedule := schedule;
  ghost := {| transports := 0; served := 0; serving := false; begun := 0; handled := 0; log := [] |} |}.
