(* ===== verification/OtaServiceSafety.v ===== *)
(** * Safety of the OTA service

    For every schedule of the link task and every platform: a boot partition is
    selected only for a transaction whose offer and last chunk belong to the
    transport in force, results of an earlier transport are not handed out
    behind a completed abort, and a completed abort was cleaned up after. *)

From Stdlib Require Import String.
From S2P Require Import Prelude CString Codec Keeps OtaTransaction TransportFence OtaService.

(** The accesses of a run, by their definitions. *)
Ltac access := repeat (progress (run; unfold get, modify, modify_ghost; cbn [fst snd])).

(** ** Calls of the platform *)

Section Quiet.
Context {D : Type} `{OtaPlatform D}.

(** What the calls of the platform leave alone. *)
Definition view (w : world D) : deck_ota_service * link_state * list (list link_action) * ghost_state :=
  ((service w) <| ota_handle := 0 |> <| update_partition := None |> <| hash_active := false |>,
   link w, schedule w, ghost w).

(** A property of that only. *)
Definition sees_view (P : world D -> Prop) : Prop := forall w w', view w = view w' -> P w -> P w'.

(** A property that does not depend on the accesses to come. *)
Definition sees_schedule (P : world D -> Prop) : Prop := forall w rest, P w -> P (w <| schedule := rest |>).

Section adapters.
Context (P : world D -> Prop) (HP : sees_view P).

Lemma keeps_get : keeps P get.
Proof. by intros w. Qed.

(** Every call but that of [esp_ota_set_boot_partition]. *)
Definition silent {A} (call : esp_call A) : Prop := match call with esp_ota_set_boot_partition _ => False | _ => True end.

Lemma keeps_esp {A} (call : esp_call A) : silent call -> keeps P (esp call).
Proof. intros Hc w Hw. unfold esp. destruct (perform call (platform w)) as [a d]. apply (HP w); [|done]. by destruct call. Qed.

(** ... and that one, for what is not about the log. *)
Lemma keeps_boot p : (forall w l, P w -> P (w <| ghost := (ghost w) <| log := l |> |>)) -> keeps P (esp (esp_ota_set_boot_partition p)).
Proof.
  intros Hl w Hw. unfold esp. destruct (perform _ (platform w)) as [a d]. cbn [snd recorded].
  assert (P (w <| platform := d |>)) as Hd by by apply (HP w).
  apply (Hl _ (log (ghost w) ++ [BootSelected (begun (ghost w)) (handled (ghost w)) (transports (ghost w))])) in Hd. exact Hd.
Qed.

Lemma keeps_io f :
  (forall s, (f s) <| ota_handle := 0 |> <| update_partition := None |> <| hash_active := false |>
             = s <| ota_handle := 0 |> <| update_partition := None |> <| hash_active := false |>) ->
  keeps P (modify f).
Proof. intros Hf w Hw. apply (HP w); [|done]. unfold view. cbn. by rewrite Hf. Qed.

Hint Resolve keeps_get : keeps.
Hint Extern 2 (keeps _ (esp _)) => (apply keeps_esp; exact I) : keeps.
Hint Extern 2 (keeps _ (modify _)) => (apply keeps_io; by intros []) : keeps.

Lemma keeps_flash_begin n : keeps P (OtaTransaction.flash_begin n).
Proof. change (keeps P (OtaService.flash_begin n)). unfold OtaService.flash_begin. keep. Qed.

Lemma keeps_flash_write d : keeps P (OtaTransaction.flash_write d).
Proof. change (keeps P (OtaService.flash_write d)). unfold OtaService.flash_write. keep. Qed.

Lemma keeps_flash_finish : keeps P (OtaTransaction.flash_finish).
Proof. change (keeps P (OtaService.flash_finish)). unfold OtaService.flash_finish. keep. Qed.

Lemma keeps_flash_abort : keeps P (OtaTransaction.flash_abort).
Proof. change (keeps P (OtaService.flash_abort)). unfold OtaService.flash_abort. keep. Qed.

Lemma keeps_hash_begin : keeps P (OtaTransaction.hash_begin).
Proof. change (keeps P (OtaService.hash_begin)). unfold OtaService.hash_begin. keep. Qed.

Lemma keeps_hash_update d : keeps P (OtaTransaction.hash_update d).
Proof. change (keeps P (OtaService.hash_update d)). unfold OtaService.hash_update. keep. Qed.

Lemma keeps_hash_finish : keeps P (OtaTransaction.hash_finish).
Proof. change (keeps P (OtaService.hash_finish)). unfold OtaService.hash_finish. keep. Qed.

Lemma keeps_hash_abort : keeps P (OtaTransaction.hash_abort).
Proof. change (keeps P (OtaService.hash_abort)). unfold OtaService.hash_abort. keep. Qed.

Lemma keeps_verify_manifest m : keeps P (OtaTransaction.verify_manifest m).
Proof. change (keeps P (OtaService.verify_manifest m)). unfold OtaService.verify_manifest. keep. Qed.

Hint Resolve keeps_flash_begin keeps_flash_write keeps_flash_finish keeps_flash_abort keeps_hash_begin
  keeps_hash_update keeps_hash_finish keeps_hash_abort keeps_verify_manifest : keeps.

Lemma keeps_fail t r : keeps P (fail t r).
Proof. unfold fail, close_open_resources. keep. Qed.
Hint Resolve keeps_fail : keeps.

Lemma keeps_offer t m now : keeps P (deck_ota_transaction_offer t m now).
Proof. unfold deck_ota_transaction_offer. keep. Qed.

Lemma keeps_tick t now : keeps P (deck_ota_transaction_tick t now).
Proof. unfold deck_ota_transaction_tick. keep. Qed.

Lemma keeps_destroy t : keeps P (deck_ota_transaction_destroy t).
Proof. unfold deck_ota_transaction_destroy, close_open_resources. keep. Qed.

Lemma keeps_now : keeps P now_ms.
Proof. unfold now_ms. keep. Qed.

Lemma keeps_create : keeps P create_transaction.
Proof. unfold create_transaction. keep. Qed.

(** Only the last chunk of an image reaches the fence. *)
Lemma keeps_write t o d f now : keeps P flash_select_boot -> keeps P (deck_ota_transaction_write t o d f now).
Proof.
  intros Hs. change (keeps P OtaTransaction.flash_select_boot) in Hs.
  unfold deck_ota_transaction_write, finish_image. keep.
Qed.
End adapters.

(** A property that the link task keeps is kept by waiting for it. *)
Lemma keeps_interfere (P : world D -> Prop) :
  sees_schedule P -> (forall action w, P w -> P (link_step w action)) -> keeps P interfere.
Proof.
  intros Hs Hl w Hw. unfold interfere. destruct (schedule w) as [|batch rest]; [done|]. cbn [snd].
  assert (P (w <| schedule := rest |>)) as Hr by (by apply Hs). revert Hr.
  generalize (w <| schedule := rest |>). induction batch as [|action batch IH]; intros v Hv; [done|]. by apply IH, Hl.
Qed.
End Quiet.
#[export] Hint Extern 2 (keeps _ (esp _)) => (apply keeps_esp; [|exact I]) : keeps.
#[export] Hint Resolve keeps_get keeps_fail keeps_offer keeps_tick keeps_destroy keeps_now keeps_create keeps_write : keeps.

(** ** The invariant *)

(** A command carries the epoch of the transport it was handed in on. *)
Definition ok_command (g : ghost_state) (c : Command) : Prop :=
  (stamp c <= transports g)%nat
  /\ (kind c = offer \/ kind c = chunk -> transport_epoch c = 1 + Z.of_nat (stamp c)).

(** What is claimed of an event. *)
Definition sound (e : event) : Prop :=
  match e with
  | BootSelected offered handled now => offered = now /\ handled = now
  | Polled from served => (served <= from)%nat
  | AbortReturned clean completed served now => clean = true -> completed = true -> served = now
  end.

(** An abort that began with nothing to serve is completed by being served. *)
Definition clean_abort (s : deck_ota_service) (g : ghost_state) (l : link_state) : Prop :=
  match l with
  | Aborting (AtBeginAbort | AtRequest) true => kTransportAbortCompleteBit s = false /\ nothing_to_serve s g = true
  | Aborting (AtSend | AtWait) true => kTransportAbortCompleteBit s = true -> served g = transports g
  | _ => True
  end.

Section Invariant.
Context {D : Type} `{OtaPlatform D}.
Implicit Types (w : world D) (c : Command).

(** [c] is the command the worker received last, [h] its stamp. *)
Record inv c (h : nat) w : Prop := {
  inv_epoch : (transport_fence (service w)).1 = 1 + Z.of_nat (transports (ghost w));
  inv_active : (transport_fence (service w)).2 = active -> begun (ghost w) = transports (ghost w);
  inv_handled : handled (ghost w) = h /\ (h <= transports (ghost w))%nat;
  inv_command : ok_command (ghost w) c;
  inv_commands : Forall (ok_command (ghost w)) (commands (service w));
  inv_sending : forall c', link w = Sending c' -> ok_command (ghost w) c';
  inv_served : (served (ghost w) <= transports (ghost w))%nat;
  inv_live : forall t, transaction (service w) = Live t -> (served (ghost w) <= begun (ghost w))%nat;
  inv_results : Forall (fun r => (served (ghost w) <= r.1)%nat) (results (service w));
  inv_room : (List.length (results (service w)) <= kQueueLength)%nat;
  inv_log : Forall sound (log (ghost w));
  inv_clean : clean_abort (service w) (ghost w) (link w);
}.

(** The epochs count the transports until they wrap around. *)
Definition fresh w : Prop := (Z.of_nat (transports (ghost w)) < kMaximumEpoch).

Definition safe c h w : Prop := fresh w -> inv c h w.

Lemma ok_command_mono g g' c : (transports g <= transports g')%nat -> ok_command g c -> ok_command g' c.
Proof. intros Hle [Hs Hk]. split; [lia|done]. Qed.

Lemma link_transports w action : (transports (ghost w) <= transports (ghost (link_step w action)))%nat.
Proof.
  destruct action; cbn [link_step]; unfold proceed, time_out, deck_ota_service_offer, deck_ota_service_write,
    deck_ota_service_poll_result, abort_access; repeat case_match; cbn; lia.
Qed.

Lemma sees_view_safe c h : sees_view (safe c h).
Proof.
  intros [s d l sch g] [s' d' l' sch' g'] E Hw Hf. destruct s, s'. injection E; intros; subst.
  destruct (Hw Hf). by constructor.
Qed.

Lemma sees_schedule_safe c h : sees_schedule (safe c h).
Proof. intros w rest Hw Hf. destruct (Hw Hf). by constructor. Qed.

Lemma ok_commands_mono g g' cs : (transports g <= transports g')%nat -> Forall (ok_command g) cs -> Forall (ok_command g') cs.
Proof. intros Hle Hcs. eapply Forall_impl; [exact Hcs|]. intros c. by apply ok_command_mono. Qed.

Lemma lifecycle_ok g k : k = abort_transport \/ k = stop -> ok_command g (lifecycle_command k).
Proof. intros Hk. split; [cbn; lia|]. by intros [E|E]; cbn in E; destruct Hk; subst. Qed.

(** A new abort by the link task: the fence is not active behind it. *)
Lemma begin_abort_inv c h clean w :
  link w = Aborting AtBeginAbort clean -> safe c h w -> safe c h (abort_access AtBeginAbort clean w).
Proof.
  intros Hl Hs Hf. unfold fresh in Hf. cbn in Hf. destruct Hs as [He Ha [Hh Hhl] Hc Hcs Hsend Hsv Hlv Hr Hroom Hlog Hcl]; [unfold fresh; lia|].
  destruct (transport_fence (service w)) as [epoch st] eqn:Ef. cbn in He, Ha. subst epoch.
  unfold abort_access. rewrite Ef. cbn [atomic]. destruct (Z.eqb_spec (1 + Z.of_nat (transports (ghost w))) kMaximumEpoch); [lia|].
  constructor; cbn; try done; try lia.
  - intros Hst. by case_bool_decide.
  - eapply ok_command_mono; [|exact Hc]. cbn. lia.
  - eapply ok_commands_mono; [|exact Hcs]. cbn. lia.
  - rewrite Hl in Hcl. by destruct clean.
Qed.

Lemma note_inv c h e w : safe c h w -> (fresh w -> sound e) -> safe c h (note e w).
Proof.
  intros Hs He Hf. specialize (He Hf). destruct (Hs Hf). constructor; cbn; try done. apply Forall_app. by repeat constructor.
Qed.

Lemma link_safe c h action w : safe c h w -> safe c h (link_step w action).
Proof.
  intros Hs. pose proof (link_transports w action) as Ht.
  destruct action; cbn [link_step] in *.
  - destruct (link w) eqn:El; try done. unfold deck_ota_service_offer. case_match; [done|].
    intros Hf. destruct (Hs Hf). constructor; cbn; try done. intros c' [= <-]. by split.
  - destruct (link w) eqn:El; try done. unfold deck_ota_service_write. case_match; [done|].
    intros Hf. destruct (Hs Hf). constructor; cbn; try done. intros c' [= <-]. by split.
  - destruct (link w) eqn:El; try done. unfold deck_ota_service_poll_result.
    destruct (results (service w)) as [|[from r] rest] eqn:Er; [done|]. apply note_inv.
    + intros Hf. destruct (Hs Hf) as [He Ha Hh Hc Hcs Hsend Hsv Hlv Hr Hroom Hlog Hcl].
      rewrite Er in Hr, Hroom. cbn in Hroom. apply Forall_cons in Hr as [_ Hr]. constructor; cbn; try done; lia.
    + intros Hf. destruct (Hs Hf) as [He Ha Hh Hc Hcs Hsend Hsv Hlv Hr Hroom Hlog Hcl].
      rewrite Er in Hr. by apply Forall_cons in Hr as [Hr _].
  - destruct (link w) eqn:El; try done.
    intros Hf. destruct (Hs Hf). constructor; cbn; try done. by destruct (nothing_to_serve _ _) eqn:En.
  - destruct (link w) eqn:El; try done. intros Hf. destruct (Hs Hf). by constructor.
  - unfold proceed. destruct (link w) as [|c'|point clean| | |] eqn:El; try done.
    + case_match; [|done]. intros Hf. destruct (Hs Hf). constructor; cbn; try done.
      apply Forall_app. split; [done|]. apply Forall_cons. by split; [apply inv_sending0|constructor].
    + destruct point.
      * by apply begin_abort_inv.
      * intros Hf. destruct (Hs Hf) as [He Ha Hh Hc Hcs Hsend Hsv Hlv Hr Hroom Hlog Hcl]. constructor; cbn; try done.
        rewrite El in Hcl. destruct clean; [|done]. cbn in Hcl. intros Hb. by destruct Hcl as [Hcl _]; rewrite Hcl in Hb.
      * intros Hf. destruct (Hs Hf) as [He Ha Hh Hc Hcs Hsend Hsv Hlv Hr Hroom Hlog Hcl]. rewrite El in Hcl.
        unfold abort_access. case_match; constructor; cbn; try done; try (destruct clean; exact Hcl).
        constructor; [apply lifecycle_ok; by left|done].
      * cbn. case_match eqn:Eb; [|done]. apply note_inv.
        -- intros Hf. destruct (Hs Hf). by constructor.
        -- intros Hf. destruct (Hs Hf) as [He Ha Hh Hc Hcs Hsend Hsv Hlv Hr Hroom Hlog Hcl]. rewrite El in Hcl. intros -> _. by apply Hcl.
    + case_match; [|done]. intros Hf. destruct (Hs Hf). constructor; cbn; try done.
      constructor; [apply lifecycle_ok; by right|done].
    + case_match; [|done]. intros Hf. destruct (Hs Hf). by constructor.
  - unfold time_out. destruct (link w) as [|c'|[] clean| | |] eqn:El; try done;
      try (intros Hf; destruct (Hs Hf); by constructor). apply note_inv.
    + intros Hf. destruct (Hs Hf). by constructor.
    + intros Hf. destruct (Hs Hf) as [He Ha Hh Hc Hcs Hsend Hsv Hlv Hr Hroom Hlog Hcl]. rewrite El in Hcl. intros -> Hb. by apply Hcl.
Qed.

(** ** Facts that the link task does not change *)

Definition holds (X : world D -> Prop) c h w : Prop := fresh w -> inv c h w /\ X w.

Class LinkStable (X : world D -> Prop) : Prop := {
  stable_link : forall c h w action, inv c h w -> X w -> X (link_step w action);
  stable_schedule : sees_schedule X;
  stable_view : sees_view X;
}.

#[export] Instance stable_and X Y : LinkStable X -> LinkStable Y -> LinkStable (fun w => X w /\ Y w).
Proof.
  intros [HX HX' HX''] [HY HY' HY'']. split.
  - intros c h w a Hi [? ?]. split; [by eapply HX|by eapply HY].
  - intros w rest [? ?]. split; [by apply HX'|by apply HY'].
  - intros w w' E [? ?]. split; [by apply (HX'' w)|by apply (HY'' w)].
Qed.

(** The ghosts and the parts of the service that are the worker's. *)
Lemma link_private w action :
  served (ghost (link_step w action)) = served (ghost w) /\ serving (ghost (link_step w action)) = serving (ghost w)
  /\ begun (ghost (link_step w action)) = begun (ghost w) /\ handled (ghost (link_step w action)) = handled (ghost w)
  /\ transaction (service (link_step w action)) = transaction (service w).
Proof.
  destruct action; cbn [link_step]; unfold proceed, time_out, deck_ota_service_offer, deck_ota_service_write,
    deck_ota_service_poll_result, abort_access; repeat case_match; cbn; done.
Qed.

Lemma link_results w action : exists k, results (service (link_step w action)) = drop k (results (service w)).
Proof.
  destruct action; cbn [link_step]; unfold proceed, time_out, deck_ota_service_offer, deck_ota_service_write,
    deck_ota_service_poll_result, abort_access; repeat case_match; cbn; try (by exists 0%nat); by exists 1%nat.
Qed.

(** A property of what is the worker's own. *)
Definition private w := (served (ghost w), serving (ghost w), begun (ghost w), handled (ghost w), transaction (service w)).

Lemma stable_private (R : _ -> Prop) : LinkStable (fun w => R (private w)).
Proof.
  split.
  - intros c h w a _ HR. unfold private. by destruct (link_private w a) as (-> & -> & -> & -> & ->).
  - by intros w rest.
  - intros [s d l sch g] [s' d' l' sch' g'] E. destruct s, s'. injection E; intros; subst. done.
Qed.

#[export] Instance stable_true : LinkStable (fun _ => True).
Proof. exact (stable_private (fun _ => True)). Qed.
#[export] Instance stable_serving : LinkStable (fun w => serving (ghost w) = true).
Proof. exact (stable_private (fun p => p.1.1.1.2 = true)). Qed.
#[export] Instance stable_abort c : LinkStable (fun w => is_abort_command c = true -> serving (ghost w) = true).
Proof. exact (stable_private (fun p => is_abort_command c = true -> p.1.1.1.2 = true)). Qed.
#[export] Instance stable_null : LinkStable (fun w => transaction (service w) = Null).
Proof. exact (stable_private (fun p => p.2 = Null)). Qed.
#[export] Instance stable_begun : LinkStable (fun w => (served (ghost w) <= begun (ghost w))%nat).
Proof. exact (stable_private (fun p => (p.1.1.1.1 <= p.1.1.2)%nat)). Qed.
#[export] Instance stable_handled : LinkStable (fun w => (served (ghost w) <= handled (ghost w))%nat).
Proof. exact (stable_private (fun p => (p.1.1.1.1 <= p.1.2)%nat)). Qed.

#[export] Instance stable_few k : LinkStable (fun w => (List.length (results (service w)) <= k)%nat).
Proof.
  split.
  - intros c h w a _ HR. destruct (link_results w a) as [n ->]. rewrite length_skipn. lia.
  - by intros w rest.
  - intros [s d l sch g] [s' d' l' sch' g'] E. destruct s, s'. injection E; intros; subst. done.
Qed.

(** The aborts in progress have been served. *)
Definition served_now w : Prop :=
  serving (ghost w) = true
  /\ match link w with Aborting (AtSend | AtWait) true => served (ghost w) = transports (ghost w) | _ => True end.

#[export] Instance stable_served_now : LinkStable served_now.
Proof.
  split.
  - intros c h w a Hi [Hs Hn]. destruct (link_private w a) as (_ & Hs' & _). split; [by rewrite Hs'|].
    pose proof (inv_clean _ _ _ Hi) as Hc. unfold clean_abort, nothing_to_serve in Hc. rewrite Hs in Hc.
    destruct a; cbn [link_step]; unfold proceed, time_out, deck_ota_service_offer, deck_ota_service_write,
      deck_ota_service_poll_result, abort_access, nothing_to_serve in *; rewrite ?Hs;
      repeat case_match; cbn in *; simplify_eq; try congruence; rewrite ?andb_false_r in *; destruct_and?; try done.
  - by intros w rest.
  - intros [s d l sch g] [s' d' l' sch' g'] E. injection E; intros; subst. done.
Qed.

(** The command received last is of the transport for which the fence is
    active, if it is. *)
Definition accepted_now w : Prop :=
  (transport_fence (service w)).2 = active -> handled (ghost w) = transports (ghost w).

#[export] Instance stable_accepted_now : LinkStable accepted_now.
Proof.
  split.
  - intros c h w a Hi Ha. unfold accepted_now in *. destruct a; cbn [link_step]; unfold proceed, time_out, deck_ota_service_offer,
      deck_ota_service_write, deck_ota_service_poll_result, abort_access; repeat case_match; try done; cbn; simplify_eq; try done.
    all: destruct (transport_fence (service w)) as [epoch st]; cbn in *; simplify_eq/=; by try case_bool_decide.
  - by intros w rest.
  - intros [s d l sch g] [s' d' l' sch' g'] E. destruct s, s'. injection E; intros; subst. done.
Qed.

Lemma holds_interfere X c h : LinkStable X -> keeps (holds X c h) interfere.
Proof.
  intros HX. apply keeps_interfere.
  - intros w rest Hw Hf. destruct (Hw Hf) as [Hi Hx]. split; [by eapply (sees_schedule_safe c h w); [intros _|]|by apply HX].
  - intros a w Hw Hf. assert (fresh w) as Hf' by (pose proof (link_transports w a); unfold fresh in *; lia).
    destruct (Hw Hf') as [Hi Hx]. split; [by eapply (link_safe c h a w); [intros _|]|by eapply HX].
Qed.

Lemma holds_view X c h : LinkStable X -> sees_view (holds X c h).
Proof.
  intros HX w w' E Hw Hf. assert (fresh w) as Hf' by (apply (f_equal snd) in E; cbn in E; unfold fresh in *; by rewrite E).
  destruct (Hw Hf') as [Hi Hx]. split; [by eapply (sees_view_safe c h w); [|intros _|]|by apply (stable_view w)].
Qed.

(** ** The worker's accesses *)


(** An access: the link task runs, then [f]. *)
Lemma leads_access {A} X c h (f : M (world D) A) (Q : A -> world D -> Prop) : LinkStable X ->
  (forall w, holds X c h w -> Q (f w).1 (f w).2) -> leads (holds X c h) (_ ← interfere; f) Q.
Proof.
  intros HX Hf. apply (leads_bind _ _ _ (fun _ => holds X c h)); [|intros []; exact Hf].
  apply leads_keeps; [by apply holds_interfere|done].
Qed.

(** A change of the world that keeps the facts [Y] ends in. *)
Lemma holds_step X Y c h c' h' w w' :
  transports (ghost w') = transports (ghost w) -> holds X c h w ->
  (fresh w -> inv c h w -> X w -> inv c' h' w' /\ Y w') -> holds Y c' h' w'.
Proof. intros Ht Hw Hstep Hf. unfold fresh in *. rewrite Ht in Hf. destruct (Hw Hf). by apply Hstep. Qed.

Lemma holds_weaken X Y c h w : (inv c h w -> X w -> Y w) -> holds X c h w -> holds Y c h w.
Proof. intros HXY Hw Hf. destruct (Hw Hf). split; [done|by apply HXY]. Qed.

(** The flag is taken: it was not set while an abort that found nothing to
    serve has not set it. *)
Lemma leads_exchange_request X c h : LinkStable X ->
  (forall w, X w -> X (w <| service := (service w) <| transport_abort_requested := false |> |>)) ->
  (forall w, X w -> X (w <| ghost := (ghost w) <| serving := true |> |>)) ->
  leads (holds X c h) exchange_request
    (fun requested => holds (fun w => X w /\ (requested = true -> serving (ghost w) = true)) c h).
Proof.
  intros HX Hs Hg. unfold exchange_request. apply leads_access; [done|]. intros w Hw.
  access. destruct (transport_abort_requested (service w)) eqn:Er; access;
    (eapply holds_step; [|exact Hw|]; [done|]); intros Hf [He Ha Hh Hc Hcs Hsend Hsv Hlv Hr Hroom Hlog Hcl] Hx;
    (split; [|split; [by first [apply (Hg (w <| service := _ |>)), Hs|apply Hs]|done]]); constructor; cbn; try done;
    destruct (link w) as [| |[] []| | |]; cbn in *; try done; unfold nothing_to_serve in *; cbn in *; rewrite Er in Hcl;
    cbn in Hcl; rewrite ?andb_false_r in Hcl; naive_solver.
Qed.

Lemma holds_load_request X c h : LinkStable X -> keeps (holds X c h) load_request.
Proof.
  intros HX. unfold load_request. apply keeps_bind; [by apply holds_interfere|]. intros []. by intros w.
Qed.

(** A received command is one that was handed in. *)
Lemma leads_receive_command c h :
  leads (holds (fun _ => True) c h) receive_command
    (fun received => match received with
                     | Some c' => holds (fun w => is_abort_command c' = true -> serving (ghost w) = true) c' (stamp c')
                     | None => holds (fun _ => True) c h
                     end).
Proof.
  unfold receive_command. apply leads_access; [apply _|]. intros w Hw.
  access. destruct (commands (service w)) as [|c' rest] eqn:Ec; [done|]. access.
  destruct (is_abort_command c') eqn:Ea; access; (eapply holds_step; [|exact Hw|]; [done|]);
    intros Hf [He Ha Hh Hc Hcs Hsend Hsv Hlv Hr Hroom Hlog Hcl] _; rewrite Ec in Hcs; apply Forall_cons in Hcs as [Hc' Hcs];
    (split; [|done]); constructor; cbn; try done; try (by split; [|apply Hc']);
    destruct (link w) as [| |[] []| | |]; cbn in *; try done; unfold nothing_to_serve in *; cbn in *; rewrite Ec in Hcl;
    cbn in Hcl; rewrite Ea in Hcl; naive_solver.
Qed.

Lemma leads_receive_result X c h k : LinkStable X ->
  (forall w f, X w -> X (w <| service := (service w) <| results := f |> |>)) ->
  leads (holds (fun w => X w /\ (List.length (results (service w)) <= k)%nat) c h) receive_result
    (fun more => holds (fun w => X w /\ (List.length (results (service w)) <= if more then k - 1 else 0)%nat) c h).
Proof.
  intros HX Hs. unfold receive_result. apply leads_access; [apply _|]. intros w Hw.
  access. destruct (results (service w)) as [|r rest] eqn:Er; access.
  - eapply holds_weaken; [|exact Hw]. cbn. intros _ [Hx _]. rewrite Er. by split.
  - eapply holds_step; [|exact Hw|]; [done|]. intros Hf [He Ha Hh Hc Hcs Hsend Hsv Hlv Hr Hroom Hlog Hcl] [Hx Hk].
    rewrite Er in Hr, Hroom, Hk. apply Forall_cons in Hr as [_ Hr]. cbn in Hroom, Hk.
    split; [|split; [by apply Hs|cbn; lia]]. constructor; cbn; try done. lia.
Qed.

(** An accepted command is one of the transport in force. *)
Lemma leads_accepts c : kind c = offer \/ kind c = chunk ->
  leads (holds (fun _ => True) c (stamp c)) (fence_accepts c)
    (fun accepted => if accepted then holds (fun w => (served (ghost w) <= handled (ghost w))%nat /\ accepted_now w) c (stamp c)
                     else holds (fun _ => True) c (stamp c)).
Proof.
  intros Hk. unfold fence_accepts. apply leads_access; [apply _|]. intros w Hw. access.
  destruct (transport_epoch c =? (transport_fence (service w)).1) eqn:Ee; [|exact Hw]. apply Z.eqb_eq in Ee.
  eapply holds_weaken; [|exact Hw]. intros [He Ha [Hh Hhl] [Hst Hc] Hcs Hsend Hsv Hlv Hr Hroom Hlog Hcl] _.
  specialize (Hc Hk). unfold accepted_now. split; [lia|]. intros _. lia.
Qed.

(** The methods of the fence that the worker calls without a ghost. *)
Lemma holds_fence_call X c h m : m = FinishCommit \/ m = EndTransaction \/ m = FinishAbort -> LinkStable X ->
  (forall w f, f.2 <> active -> X w -> X (w <| service := (service w) <| transport_fence := f |> |>)) ->
  keeps (holds X c h) (fence_call m).
Proof.
  intros Hm HX Hs w Hw. unfold fence_call. pose proof (holds_interfere X c h HX w Hw) as Hv. revert Hv.
  generalize (interfere w).2. intros v Hv. destruct (transport_fence (service v)) as [epoch st] eqn:Ef.
  destruct (atomic m (epoch, st)) as [f|] eqn:Ea; [|done]. cbn [snd].
  eapply holds_step; [|exact Hv|]; [done|]. intros Hf [He Ha Hh Hc Hcs Hsend Hsv Hlv Hr Hroom Hlog Hcl] Hx.
  split; [|apply Hs; [|done]]; [rewrite Ef in He; cbn in He; constructor; cbn; try done|];
    destruct Hm as [-> |[-> | ->]]; cbn in Ea; case_bool_decide; simplify_eq; done.
Qed.

(** A transaction begins for a command that was accepted: it is of the
    transport in force at that instant. *)
Lemma leads_begin_transaction X c : kind c = offer -> LinkStable X ->
  (forall w f, X w -> X (w <| service := (service w) <| transport_fence := f |> |>)) ->
  leads (holds X c (stamp c)) (fence_begin_transaction c)
    (fun begins => if begins then holds (fun w => (served (ghost w) <= begun (ghost w))%nat) c (stamp c)
                   else holds X c (stamp c)).
Proof.
  intros Hk HX Hs w Hw. unfold fence_begin_transaction, fence_call. rewrite run_bind.
  pose proof (holds_interfere X c (stamp c) HX w Hw) as Hv. revert Hv.
  generalize (interfere w).2. intros v Hv. destruct (transport_fence (service v)) as [epoch st] eqn:Ef.
  cbn [atomic]. destruct ((epoch =? transport_epoch c) && bool_decide (st = idle)) eqn:Ea; access; [|exact Hv].
  bool_prop. subst. eapply holds_step; [|exact Hv|]; [done|].
  intros Hf [He Ha [Hh Hhl] Hc Hcs Hsend Hsv Hlv Hr Hroom Hlog Hcl] _. rewrite Ef in He. cbn in He.
  destruct Hc as [Hst Hc]. specialize (Hc (or_introl Hk)). assert (stamp c = transports (ghost v)) as Hn by lia.
  split; [|cbn; lia]. constructor; cbn; try done; lia.
Qed.

(** A commit begins for what was offered and sent on the transport in
    force; nothing comes between that and the call it is for. *)
Definition commits_now w : Prop :=
  fresh w -> begun (ghost w) = transports (ghost w) /\ handled (ghost w) = transports (ghost w).

Lemma leads_try_begin_commit X c h : LinkStable X ->
  (forall w, X w -> accepted_now w) ->
  (forall w f, f.2 <> active -> X w -> X (w <| service := (service w) <| transport_fence := f |> |>)) ->
  leads (holds X c h) (fence_call TryBeginCommit)
    (fun commits w => holds X c h w /\ (commits = true -> commits_now w)).
Proof.
  intros HX Hnow Hs w Hw. unfold fence_call. pose proof (holds_interfere X c h HX w Hw) as Hv. revert Hv.
  generalize (interfere w).2. intros v Hv. destruct (transport_fence (service v)) as [epoch st] eqn:Ef.
  cbn [atomic]. destruct (bool_decide (st = active)) eqn:Ea; cbn [fst snd]; [|by split]. bool_prop. subst. split.
  - eapply holds_step; [|exact Hv|]; [done|]. intros Hf [He Ha Hh Hc Hcs Hsend Hsv Hlv Hr Hroom Hlog Hcl] Hx.
    rewrite Ef in He. split; [by constructor|by apply Hs].
  - intros _ Hf. destruct (Hv Hf) as [[_ Ha _ _ _ _ _ _ _ _ _ _] Hx]. apply Hnow in Hx. unfold accepted_now in Hx. rewrite Ef in Ha, Hx. split; [by apply Ha|by apply Hx].
Qed.

Lemma leads_boot X c h p : LinkStable X ->
  (forall w l, X w -> X (w <| ghost := (ghost w) <| log := l |> |>)) ->
  leads (fun w => holds X c h w /\ commits_now w) (esp (esp_ota_set_boot_partition p)) (fun _ => holds X c h).
Proof.
  intros HX Hl w [Hw Hn]. unfold esp. destruct (perform _ (platform w)) as [a d]. cbn [snd recorded].
  apply (holds_view X c h HX (w <| ghost := (ghost w) <| log := log (ghost w) ++ [BootSelected (begun (ghost w)) (handled (ghost w)) (transports (ghost w))] |> |>)); [done|].
  eapply holds_step; [|exact Hw|]; [done|]. intros Hf [He Ha Hh Hc Hcs Hsend Hsv Hlv Hr Hroom Hlog Hcl] Hx. split; [|by apply Hl].
  constructor; cbn; try done. apply Forall_app. split; [done|]. apply Forall_singleton. by apply Hn.
Qed.

(** The worker serves an abort: at most [k] results are still to be dropped. *)
Definition cleaning (k : nat) w : Prop :=
  (serving (ghost w) = true /\ transaction (service w) = Null) /\ (List.length (results (service w)) <= k)%nat.

#[export] Instance stable_cleaning k : LinkStable (cleaning k).
Proof. exact (stable_and _ _ _ (stable_few k)). Qed.

(** The fence is opened again behind an abort once nothing of the transport
    is left. *)
Lemma leads_finish_abort c h :
  leads (holds (cleaning 0) c h) fence_finish_abort (fun _ => holds served_now c h).
Proof.
  intros w Hw. unfold fence_finish_abort. rewrite run_bind. cbn [fst snd].
  pose proof (holds_fence_call (cleaning 0) c h FinishAbort ltac:(auto) _ ltac:(by intros) w Hw) as Hv. revert Hv.
  generalize (fence_call FinishAbort w).2. intros v Hv. access.
  eapply holds_step; [|exact Hv|]; [done|]. intros Hf [He Ha Hh Hc Hcs Hsend Hsv Hlv Hr Hroom Hlog Hcl] [[Hs Ht] Hl].
  split; [constructor; cbn; try done|].
  - intros t. by rewrite Ht.
  - destruct (results (service v)); [constructor|cbn in Hl; lia].
  - destruct (link v) as [| |[] []| | |]; cbn in *; try done; unfold nothing_to_serve in *; cbn in *; rewrite Hs in *;
      rewrite ?andb_false_r in Hcl; naive_solver.
  - split; [done|]. cbn. by repeat case_match.
Qed.

Lemma leads_set_abort_complete c h : leads (holds served_now c h) set_abort_complete (fun _ => holds (fun _ => True) c h).
Proof.
  unfold set_abort_complete. apply leads_access; [apply _|]. intros w Hw. access.
  eapply holds_step; [|exact Hw|]; [done|]. intros Hf [He Ha Hh Hc Hcs Hsend Hsv Hlv Hr Hroom Hlog Hcl] [Hs Hn].
  split; [|done]. constructor; cbn; try done.
  destruct (link w) as [| |[] []| | |]; cbn in *; try done; unfold nothing_to_serve in *; rewrite Hs in Hcl;
    rewrite ?andb_false_r in Hcl; naive_solver.
Qed.

Lemma holds_set_stopped c h : keeps (holds (fun _ => True) c h) set_stopped.
Proof.
  unfold set_stopped. apply keeps_bind; [apply holds_interfere, _|]. intros [] w Hw. access.
  eapply holds_step; [|exact Hw|]; [done|]. intros Hf [He Ha Hh Hc Hcs Hsend Hsv Hlv Hr Hroom Hlog Hcl] _.
  split; [|done]. by constructor.
Qed.

(** A result is stamped with a transport that is not behind the aborts that
    were served. *)
Lemma leads_send_result from c h r : LinkStable (fun w => (served (ghost w) <= from (ghost w))%nat) ->
  keeps (holds (fun w => (served (ghost w) <= from (ghost w))%nat) c h) (send_result from r).
Proof.
  intros HX. unfold send_result. apply keeps_bind; [by apply holds_interfere|]. intros [] w Hw. cbn [snd].
  destruct (has_room (results (service w))) eqn:Er; [|done]. apply Nat.ltb_lt in Er.
  eapply holds_step; [|exact Hw|]; [done|]. intros Hf [He Ha Hh Hc Hcs Hsend Hsv Hlv Hr Hroom Hlog Hcl] Hx.
  split; [|done]. constructor; cbn; try done.
  - apply Forall_app. split; [done|]. by apply Forall_cons.
  - rewrite length_app. cbn. lia.
Qed.

(** ** The worker's turns *)

(** The worker changes what only it reads. *)
Lemma holds_modify X c h f : LinkStable X ->
  (forall s, commands (f s) = commands s /\ results (f s) = results s /\ transport_fence (f s) = transport_fence s
     /\ kTransportAbortCompleteBit (f s) = kTransportAbortCompleteBit s
     /\ transport_abort_requested (f s) = transport_abort_requested s) ->
  (forall w, X w -> X (w <| service := f (service w) |>)) ->
  (forall w t, X w -> transaction (f (service w)) = Live t ->
     (served (ghost w) <= begun (ghost w))%nat \/ exists t', transaction (service w) = Live t') ->
  keeps (holds X c h) (modify f).
Proof.
  intros HX Hf Hx Ht w Hw. access. eapply holds_step; [|exact Hw|]; [done|].
  intros Hfr [He Ha Hh Hc Hcs Hsend Hsv Hlv Hr Hroom Hlog Hcl] HXw. split; [|by apply Hx].
  destruct (Hf (service w)) as (E1 & E2 & E3 & E4 & E5).
  constructor; cbn; rewrite ?E1, ?E2, ?E3; try done.
  - intros t Hl. destruct (Ht w t HXw Hl) as [?|[t' Hl']]; [done|by eapply Hlv].
  - unfold clean_abort, nothing_to_serve in *. by rewrite E1, E4, E5.
Qed.

Lemma holds_get X c h : keeps (holds X c h) get.
Proof. by intros w. Qed.

Lemma holds_clear X c h : LinkStable X ->
  (forall w f, X w -> X (w <| service := (service w) <| active_transaction_id := f |> |>)) ->
  keeps (holds X c h) clear_active_transaction_id.
Proof. intros HX Hs. unfold clear_active_transaction_id. apply holds_modify; [done|by intros []|by auto|]. intros w t _ Hl. by right; exists t. Qed.

Lemma holds_destroy X c h : LinkStable X -> (forall w f, X w -> X (w <| service := f |>)) ->
  keeps (holds X c h) destroy_transaction.
Proof.
  intros HX Hs. unfold destroy_transaction. apply keeps_bind; [apply holds_get|]. intros s. destruct (transaction s) as [|t|]; [apply keeps_ret| |apply keeps_ret].
  apply keeps_bind; [by apply keeps_destroy, holds_view|]. intros t'. apply keeps_bind; [|intros []; apply keeps_ret].
  apply holds_modify; [done|by intros []|by intros; apply Hs|by intros].
Qed.

Lemma leads_drain_results c h k fuel : (k < fuel)%nat ->
  leads (holds (cleaning k) c h) (drain_results fuel) (fun _ => holds (cleaning 0) c h).
Proof.
  revert k. induction fuel as [|fuel IH]; intros k Hk; [lia|]. cbn [drain_results]. eapply leads_bind.
  { apply (leads_receive_result (fun w => serving (ghost w) = true /\ transaction (service w) = Null)); [apply _|by intros]. }
  intros more. destruct more; [|by apply leads_ret].
  destruct fuel as [|fuel]; [|apply (IH (k - 1)%nat); lia]. replace k with 0%nat by lia. by apply leads_ret.
Qed.

Lemma leads_abort_transport_transaction c h :
  leads (holds (fun w => serving (ghost w) = true) c h) abort_transport_transaction (fun _ => holds (fun _ => True) c h).
Proof.
  unfold abort_transport_transaction. eapply leads_after; [by apply holds_destroy; [apply _|]|].
  intros valid. destruct (negb valid); [apply leads_ret; intros w; by apply holds_weaken|].
  eapply (leads_bind _ _ _ (fun _ => holds (cleaning kQueueLength) c h)).
  - intros w Hw. access. eapply holds_step; [|exact Hw|]; [done|].
    intros Hf [He Ha Hh Hc Hcs Hsend Hsv Hlv Hr Hroom Hlog Hcl] Hs. split; [by constructor|]. by split.
  - intros []. eapply leads_bind; [apply (leads_drain_results c h kQueueLength); lia|]. intros [].
    eapply leads_bind; [apply leads_finish_abort|]. intros []. eapply leads_bind; [apply leads_set_abort_complete|].
    intros []. by apply leads_ret.
Qed.

Abbreviation begun_kept := (fun w => (served (ghost w) <= begun (ghost w))%nat).
Abbreviation handled_kept := (fun w => (served (ghost w) <= handled (ghost w))%nat).

Lemma holds_publish_result c h t id r : keeps (holds begun_kept c h) (publish_result t id r).
Proof.
  unfold publish_result. apply keeps_bind; [apply holds_load_request, _|]. intros [|]; [apply keeps_ret|].
  apply leads_send_result, _.
Qed.

Lemma holds_publish_rejection c h id r : keeps (holds handled_kept c h) (publish_rejection id r).
Proof.
  unfold publish_rejection. apply keeps_bind; [apply holds_load_request, _|]. intros [|]; [apply keeps_ret|].
  apply leads_send_result, _.
Qed.

(** A turn keeps the invariant of some command and stamp. *)
Definition well w : Prop := exists c h, holds (fun _ => True) c h w.

Lemma well_intro c h w : holds (fun _ => True) c h w -> well w.
Proof. intros Hw. by exists c, h. Qed.

(** From a world to the computation that runs in it. *)
Ltac computation w Hw :=
  revert w Hw;
  match goal with
  | |- forall w, holds ?X ?c ?h w -> holds ?Y ?c' ?h' (?m w).2 =>
      change (leads (holds X c h) m (fun _ => holds Y c' h'))
  | |- forall w, holds ?X ?c ?h w -> well (?m w).2 => change (leads (holds X c h) m (fun _ => well))
  end.

(** How a turn ends whose transaction is over. *)
Lemma holds_end X c h : LinkStable X ->
  (forall w f, X w -> X (w <| service := f |>)) ->
  keeps (holds X c h) (_ ← fence_call EndTransaction; _ ← clear_active_transaction_id; mret Continue).
Proof.
  intros HX Hs. apply keeps_bind; [apply holds_fence_call; [auto|done|by intros; apply Hs]|]. intros b.
  apply keeps_bind; [apply holds_clear; [done|by intros; apply Hs]|]. intros []. apply keeps_ret.
Qed.

Lemma holds_set_transaction c h t : keeps (holds begun_kept c h) (modify (fun s => s <| transaction := t |>)).
Proof. apply holds_modify; [apply _|by intros []|by intros|]. intros w t' Hw _. by left. Qed.

Lemma sees_view_begun c h : sees_view (holds begun_kept c h).
Proof. apply holds_view, _. Qed.
Hint Resolve sees_view_begun holds_publish_result holds_set_transaction : keeps.
Hint Resolve holds_end : keeps.

(** The transaction in memory began behind the aborts that were served. *)
Lemma holds_live X c h w t : transaction (service w) = Live t -> holds X c h w -> holds begun_kept c h w.
Proof. intros Ht Hw Hf. destruct (Hw Hf) as [Hi _]. split; [done|]. by eapply inv_live. Qed.

Lemma forget X c h w : holds X c h w -> holds (fun _ => True) c h w.
Proof. intros Hw Hf. destruct (Hw Hf). by split. Qed.

Lemma safe_tick_turn c h : keeps (holds (fun _ => True) c h) tick_turn.
Proof.
  intros w Hw. unfold tick_turn. rewrite run_bind. cbn [get fst snd].
  destruct (transaction (service w)) as [|t|] eqn:Et; [done| |done]. apply (holds_live _ _ _ _ _ Et) in Hw.
  apply (forget begun_kept). clear Et. computation w Hw. apply leads_keeps; [|done].
  case_match; [apply keeps_ret|]. apply keeps_bind; [apply keeps_now; auto with keeps|]. intros now.
  apply keeps_bind; [apply keeps_tick; auto with keeps|]. intros [r t']. apply keeps_bind; [apply holds_set_transaction|].
  intros []. case_match; [apply keeps_ret|]. apply keeps_bind; [apply holds_get|]. intros s.
  apply keeps_bind; [apply holds_publish_result|]. intros []. apply holds_end; [apply _|by intros].
Qed.

Abbreviation sent_now := (fun w => begun_kept w /\ accepted_now w).

(** [flash_select_boot] is the only adapter that reaches the fence. *)
Lemma holds_select_boot c h : keeps (holds sent_now c h) flash_select_boot.
Proof.
  assert (forall w f, f.2 <> active -> sent_now w -> sent_now (w <| service := (service w) <| transport_fence := f |> |>)) as Hf
    by (intros w f Hf [Hb _]; split; [done|]; unfold accepted_now; cbn; congruence).
  change (leads (holds sent_now c h) flash_select_boot (fun _ => holds sent_now c h)).
  unfold flash_select_boot. eapply leads_bind; [apply leads_try_begin_commit; [apply _|by intros w []|exact Hf]|].
  intros [|] w [Hw Hn]; cbn [negb]; [specialize (Hn eq_refl)|done].
  rewrite run_bind. cbn [get fst snd]. rewrite run_bind.
  assert (holds sent_now c h (match update_partition (service w) with None => mret false | Some p => esp (esp_ota_set_boot_partition p) end w).2) as Hv.
  { case_match; [|done]. by apply leads_boot; [apply _| |]. }
  revert Hv. generalize (match update_partition (service w) with None => mret false | Some p => esp (esp_ota_set_boot_partition p) end w).
  intros [selected v] Hv. cbn [fst snd] in *. rewrite run_bind.
  apply (holds_fence_call sent_now c h FinishCommit); [auto|apply _|exact Hf|exact Hv].
Qed.

Lemma safe_write_turn c h c' t : leads (holds sent_now c h) (write_turn c' t) (fun _ => holds begun_kept c h).
Proof.
  assert (sees_view (holds sent_now c h)) as Hv by (apply holds_view, _).
  unfold write_turn. eapply leads_after; [by apply keeps_now|]. intros now.
  eapply leads_after; [apply keeps_write; [done|apply holds_select_boot]|]. intros [r t'].
  apply (leads_weaken _ (holds begun_kept c h) _ _ (fun _ => holds begun_kept c h)); [|intros w; apply holds_weaken; by intros _ []|done].
  apply leads_keeps; [|done].
  apply keeps_bind; [apply holds_set_transaction|]. intros []. apply keeps_bind; [apply holds_publish_result|]. intros [].
  case_match; [apply keeps_ret|]. apply holds_end; [apply _|by intros].
Qed.

(** ... from the fact about it that a turn begins with. *)
Lemma keeps_forget {A} X c h (m : M (world D) A) :
  keeps (holds X c h) m -> leads (holds X c h) m (fun _ => holds (fun _ => True) c h).
Proof. intros Hm w Hw. by eapply forget, Hm. Qed.

Lemma safe_chunk_turn c h c' :
  leads (holds (fun w => handled_kept w /\ accepted_now w) c h) (chunk_turn c') (fun _ => holds (fun _ => True) c h).
Proof.
  intros w Hw. unfold chunk_turn. rewrite run_bind. cbn [get fst snd].
  assert (forall (o : outcome), holds (fun _ => True) c h
    ((_ ← publish_rejection (command_transaction_id c') DECK_OTA_INVALID_MANIFEST; mret o) w).2) as Hrej.
  { intros o. eapply (forget handled_kept). assert (holds handled_kept c h w) as Hk by (eapply holds_weaken; [|exact Hw]; by intros _ []).
    revert Hk. generalize w. clear. apply keeps_bind; [apply holds_publish_rejection|]. intros []. apply keeps_ret. }
  destruct (transaction (service w)) as [|t|] eqn:Et; [apply Hrej| |].
  - destruct (negb (negb _)); [|apply Hrej]. eapply forget, safe_write_turn. intros Hf. destruct (Hw Hf) as [Hi [_ Ha]].
    split; [done|]. split; [by eapply inv_live|done].
  - destruct (negb (negb _)); [by eapply forget|apply Hrej].
Qed.

Lemma safe_begin_offer c : kind c = offer ->
  leads (holds (fun _ => True) c (stamp c)) (begin_offer c) (fun _ => holds (fun _ => True) c (stamp c)).
Proof.
  intros Hk. unfold begin_offer. eapply leads_bind; [by apply (leads_begin_transaction (fun _ => True)); [|apply _|]|].
  intros [|]; [|by apply leads_ret]. apply keeps_forget.
  apply keeps_bind; [apply keeps_create; auto with keeps|]. intros created. unfold run_offer. apply keeps_bind.
  { apply holds_modify; [apply _|by intros []|by intros|]. intros w t Hw _. by left. }
  intros []. apply keeps_bind.
  - destruct created as [t|]; [|apply keeps_ret]. apply keeps_bind; [apply keeps_now; auto with keeps|]. intros now.
    apply keeps_bind; [apply keeps_offer; auto with keeps|]. intros [r t'].
    apply keeps_bind; [apply holds_set_transaction|]. intros []. apply keeps_ret.
  - intros [r t']. apply keeps_bind; [apply holds_publish_result|]. intros []. case_match; [apply keeps_ret|].
    apply holds_end; [apply _|by intros].
Qed.

Lemma safe_offer_turn c : kind c = offer ->
  leads (holds handled_kept c (stamp c)) (offer_turn c) (fun _ => holds (fun _ => True) c (stamp c)).
Proof.
  intros Hk w Hw. unfold offer_turn. rewrite run_bind. cbn [get fst snd].
  destruct (transaction (service w)) as [|t|] eqn:Et; [by apply safe_begin_offer; [|eapply forget]| |by eapply forget].
  case_match.
  - eapply (forget handled_kept). clear Et. computation w Hw. apply leads_keeps; [|done].
    apply keeps_bind; [apply holds_publish_rejection|]. intros []. apply keeps_ret.
  - apply forget in Hw. clear Et. computation w Hw. eapply leads_after; [by apply holds_destroy; [apply _|]|]. intros valid.
    eapply leads_after; [by apply holds_fence_call; [auto|apply _|]|]. intros b. by apply safe_begin_offer.
Qed.

Lemma safe_stop_turn c h : keeps (holds (fun _ => True) c h) stop_turn.
Proof.
  unfold stop_turn. apply keeps_bind; [by apply holds_destroy; [apply _|]|]. intros valid. case_match; [apply keeps_ret|].
  apply keeps_bind; [apply holds_modify; [apply _|by intros []|by intros|by intros]|]. intros [].
  apply keeps_bind; [apply holds_set_stopped|]. intros []. apply keeps_ret.
Qed.

Lemma safe_command_turn c :
  leads (holds (fun w => is_abort_command c = true -> serving (ghost w) = true) c (stamp c)) (command_turn c) (fun _ => well).
Proof.
  intros w Hw. unfold command_turn. destruct (kind c) eqn:Ek.
  1, 2: apply forget in Hw; computation w Hw; eapply leads_bind; [apply leads_accepts; auto|];
    intros [|]; [|apply leads_ret; intros w; apply well_intro]; cbn [negb].
  - rewrite bool_decide_true by done. eapply leads_weaken; [by apply safe_offer_turn|intros w; apply holds_weaken; by intros _ []|]. intros ? w. apply well_intro.
  - rewrite bool_decide_false by congruence. eapply leads_weaken; [apply safe_chunk_turn|done|]. intros ? w. apply well_intro.
  - assert (holds (fun w => serving (ghost w) = true) c (stamp c) w) as Hw'.
    { eapply holds_weaken; [|exact Hw]. intros _ Hs. apply Hs. unfold is_abort_command. by rewrite Ek. }
    clear Hw. computation w Hw'. unfold serve_abort. eapply leads_bind; [apply leads_abort_transport_transaction|].
    intros valid. apply leads_ret. intros w. apply well_intro.
  - apply forget in Hw. by eapply well_intro, safe_stop_turn.
Qed.

Lemma leads_request X c h (requested : bool) :
  leads (holds (fun w => X w /\ (requested = true -> serving (ghost w) = true)) c h)
    (if requested then abort_transport_transaction else mret true)
    (fun _ => holds (fun w => if requested then True else X w) c h).
Proof.
  destruct requested.
  - eapply leads_weaken; [apply leads_abort_transport_transaction| |intros ? w Hw; exact Hw].
    intros w. apply holds_weaken. naive_solver.
  - apply leads_ret. intros w. apply holds_weaken. naive_solver.
Qed.

(** Every turn keeps the invariant. *)
Lemma safe_ota_turn : keeps well ota_turn.
Proof.
  intros w (c & h & Hw). computation w Hw. unfold ota_turn.
  eapply leads_bind; [by apply leads_exchange_request; [apply _| |]|]. intros requested.
  eapply leads_bind; [apply leads_request|]. intros valid.
  apply (leads_weaken _ (holds (fun _ => True) c h) _ _ (fun _ => well)); [|intros w Hw; by eapply forget|done].
  case_match; [apply leads_ret; intros w; apply well_intro|].
  eapply leads_bind; [apply leads_receive_command|]. intros [c'|].
  - eapply leads_bind.
    { apply (leads_exchange_request (fun w => is_abort_command c' = true -> serving (ghost w) = true)); [apply _|intros w Hx; exact Hx|by intros]. }
    intros requested'. eapply leads_bind; [apply leads_request|]. intros valid'.
    destruct (negb valid') eqn:Ev; [apply leads_ret; intros w Hw; by eapply well_intro, forget|].
    destruct requested'; cbn [andb].
    + destruct (negb (bool_decide (kind c' = stop))) eqn:Ek; [apply leads_ret; intros w Hw; by eapply well_intro, forget|].
      eapply leads_weaken; [apply safe_command_turn| |done]. intros w. apply holds_weaken. intros _ _ Ha.
      unfold is_abort_command in Ha. bool_prop. congruence.
    + apply safe_command_turn.
  - eapply leads_weaken; [apply leads_keeps; [apply safe_tick_turn|]|done|]; [by intros ? w Hw; exact Hw|].
    intros ? w. apply well_intro.
Qed.

Lemma safe_ota_task turns : keeps well (ota_task turns).
Proof.
  induction turns as [|turns IH]; [apply keeps_ret|]. cbn [ota_task].
  apply keeps_bind; [apply safe_ota_turn|]. intros []; [exact IH|apply keeps_ret..].
Qed.

(** The service as it starts. *)
Lemma started_service running d s d' : deck_ota_service_start running d = (Some s, d') ->
  exists o, s = {|
    commands := []; results := []; kStoppedBit := false; kTransportAbortCompleteBit := false; transaction := Null;
    transaction_options := o; adapter_manifest := empty_manifest; ota_handle := 0; update_partition := None;
    hash_active := false; active_transaction_id := replicate DECK_OTA_TRANSACTION_ID_CAPACITY 0;
    transport_fence := (1, idle); transport_abort_requested := false |}.
Proof.
  unfold deck_ota_service_start. run_cases; try done.
  destruct (perform esp_ota_get_next_update_partition _) as [[p|] d'']; cbn [fst snd]; [|done].
  run_cases; [done|]. intros [= <- _]. by eexists.
Qed.

Lemma started_well running d s d' sch : deck_ota_service_start running d = (Some s, d') -> well (started s d' sch).
Proof.
  intros Hs. exists (lifecycle_command stop), 0%nat. intros _. split; [|done]. destruct (started_service _ _ _ _ Hs) as [o ->].
  constructor; cbn; try done; try lia. by apply lifecycle_ok; right.
Qed.

End Invariant.

(** ** Concrete runs *)

Module OtaServiceExample.

(** A platform on which everything succeeds. *)
#[export] Instance platform : OtaPlatform Z := fun A call =>
  match call in esp_call A return M Z A with
  | esp_timer_get_time => fun now => (now * 1000, now)
  | esp_ota_get_next_update_partition => mret (Some {| partition_address := 0x10000; partition_size := 0x100000 |})
  | esp_ota_begin _ _ => mret (true, 1)
  | esp_ota_get_partition_description _ => mret (Some (literal "1.3.0"))
  | psa_hash_finish => mret (Some (replicate 32 7))
  | psa_import_key _ => mret (true, 1)
  | psa_hash_compute _ => mret (Some (replicate 32 0))
  | esp_ota_abort _ | psa_hash_abort | psa_destroy_key _ => mret tt
  | psa_crypto_init | esp_ota_write _ _ | esp_ota_end _ | esp_ota_set_boot_partition _ | psa_hash_setup
  | psa_hash_update _ | psa_verify_hash _ _ _ | allocate => mret true
  end.

Definition id : bytes := literal "0123456789abcdef0123456789abcdef".

Definition manifest : deck_ota_manifest_t := {|
  version := literal "1.3.0" ++ [0]; board := kBoard ++ [0]; image_length := 2; image_sha256 := replicate 32 7;
  signature := []; signing_key_id := 1; minimum_protocol_version := 1 |}.

Definition start (sch : list (list link_action)) : world Z :=
  match (deck_ota_service_start (literal "1.2.0" ++ [0]) 5).1 with
  | Some s => started s 5 sch
  | None => started {| commands := []; results := []; kStoppedBit := true; kTransportAbortCompleteBit := false;
      transaction := Null; transaction_options := {| running_version := []; o_board := []; protocol_version := 0;
      partition_capacity := 0; inactivity_timeout_ms := 0; maximum_duration_ms := 0 |};
      adapter_manifest := empty_manifest; ota_handle := 0; update_partition := None; hash_active := false;
      active_transaction_id := []; transport_fence := (1, idle); transport_abort_requested := false |} 0 []
  end.

(** An image of two bytes, in two chunks. *)
Definition update : list (list link_action) :=
  [[CallOffer id manifest; Proceed; CallWrite id 0 [1] false; Proceed]; []; []; []; []; [];
   [CallPollResult; CallWrite id 1 [2] true; Proceed]].

Definition old_manifest : deck_ota_manifest_t := {|
  version := literal "1.1.0" ++ [0]; board := kBoard ++ [0]; image_length := 2; image_sha256 := replicate 32 7;
  signature := []; signing_key_id := 1; minimum_protocol_version := 1 |}.

(** A refused offer leaves its transaction in memory; the transport drops
    while the worker replaces it for the next offer. *)
Definition race : list (list link_action) :=
  [[CallOffer id old_manifest; Proceed]; []; []; []; []; []; []; [];
   [CallPollResult; CallOffer id manifest; Proceed]; []; []; []; [CallAbortTransport; Proceed]; [];
   [Proceed]].

(** The command of an abort that the worker has served by the flag is still in
    the queue when the next transport drops. *)
Definition leftover : list (list link_action) :=
  [[CallAbortTransport; Proceed; Proceed; Proceed]; []; []; [];
   [Proceed; CallOffer id manifest; Proceed; CallAbortTransport]; []; []; []; []; []; []; []; []; []; []; [];
   [Proceed; Proceed; Proceed; Proceed; CallPollResult]].

End OtaServiceExample.

Section Examples.
Import OtaServiceExample.
#[local] Existing Instance platform.

(** The worker destroys the old transaction before it knows that the new one
    may begin: when the transport drops in between, the next turn destroys it
    again. *)
Lemma lost_race_uses_freed_memory : (ota_task 3 (start race)).1 = Undefined.
Proof. vm_compute. reflexivity. Qed.

(** The completion bit does not say which abort completed: the second one
    returns true before the worker has seen it, and a result of the transport
    it retires is handed out behind it. *)
Lemma early_completion :
  log (ghost (ota_task 4 (start leftover)).2) = [AbortReturned true true 1 1; AbortReturned false true 1 2; Polled 1 1].
Proof. vm_compute. reflexivity. Qed.

End Examples.
