(* ===== verification/OtaServiceProgress.v ===== *)
(** * Progress and memory of the OTA service

    A request to abort is served in one turn, without an abort no released
    memory is used, and the signature covers the whole manifest. *)

From Stdlib Require Import String.
From S2P Require Import Prelude CString Codec Keeps OtaTransaction TransportFence OtaService OtaServiceSafety.

(** ** What no turn undoes *)

Section Kept.
Context {D : Type} `{OtaPlatform D}.
Implicit Types (w : world D) (c : Command).

(** Facts about the transports, the fence and the completion bit that the
    steps of both tasks keep, but for a commit's own steps of the fence. *)
Record robust (P : world D -> Prop) : Prop := {
  robust_view : sees_view P;
  robust_interfere : keeps P interfere;
  robust_service : forall w s, transport_fence s = transport_fence (service w) ->
    kTransportAbortCompleteBit s = kTransportAbortCompleteBit (service w) -> P w -> P (w <| service := s |>);
  robust_ghost : forall w g, transports g = transports (ghost w) -> served g = served (ghost w) -> P w -> P (w <| ghost := g |>);
  robust_fence : forall m, m <> BeginAbort -> keeps P (fence_call m);
  robust_finish : keeps P fence_finish_abort;
  robust_complete : keeps P set_abort_complete;
}.

Section Robust.
Context (P : world D -> Prop) (HP : robust P).

Lemma kept_modify f :
  (forall s, transport_fence (f s) = transport_fence s /\ kTransportAbortCompleteBit (f s) = kTransportAbortCompleteBit s) ->
  keeps P (modify f).
Proof. intros Hf w Hw. destruct (Hf (service w)). by apply (robust_service _ HP w (f (service w))). Qed.

Lemma kept_ghost f : (forall g, served (f g) = served g /\ transports (f g) = transports g) -> keeps P (modify_ghost f).
Proof. intros Hf w Hw. destruct (Hf (ghost w)). by apply (robust_ghost _ HP w (f (ghost w))). Qed.

Lemma kept_esp {A} (call : esp_call A) : keeps P (esp call).
Proof.
  destruct call; try (apply keeps_esp; [apply HP|exact I]). apply keeps_boot; [apply HP|].
  intros w l Hw. by apply (robust_ghost _ HP w ((ghost w) <| log := l |>)).
Qed.

Lemma kept_view : sees_view P.
Proof. apply HP. Qed.

Lemma kept_interfere : keeps P interfere.
Proof. apply HP. Qed.

Lemma kept_finish_abort : keeps P fence_finish_abort.
Proof. apply HP. Qed.

Lemma kept_complete : keeps P set_abort_complete.
Proof. apply HP. Qed.

Lemma kept_send from r : keeps P (send_result from r).
Proof.
  unfold send_result. apply keeps_bind; [apply HP|]. intros [] w Hw. cbn [snd]. destruct (has_room _); [|done].
  by apply (robust_service _ HP w ((service w) <| results := results (service w) ++ [(from (ghost w), r)] |>)).
Qed.

#[local] Hint Resolve kept_view kept_interfere kept_send kept_finish_abort kept_complete kept_esp : keeps.
#[local] Hint Extern 2 (keeps _ (modify _)) => (apply kept_modify; by intros []) : keeps.
#[local] Hint Extern 2 (keeps _ (modify_ghost _)) => (apply kept_ghost; by intros []) : keeps.
#[local] Hint Extern 2 (keeps _ (fence_call _)) => (apply (robust_fence _ HP); discriminate) : keeps.

Lemma kept_drain fuel : keeps P (drain_results fuel).
Proof. induction fuel as [|fuel IH]; cbn [drain_results]; [keep|]. unfold receive_result. keep. Qed.
#[local] Hint Resolve kept_drain : keeps.

Lemma kept_destroy : keeps P destroy_transaction.
Proof. unfold destroy_transaction. keep. Qed.
#[local] Hint Resolve kept_destroy : keeps.

Lemma kept_publish t id r : keeps P (publish_result t id r).
Proof. unfold publish_result, load_request. keep. Qed.
Lemma kept_reject id r : keeps P (publish_rejection id r).
Proof. unfold publish_rejection, load_request. keep. Qed.
#[local] Hint Resolve kept_publish kept_reject : keeps.

Lemma kept_select_boot : keeps P flash_select_boot.
Proof. unfold flash_select_boot. keep. Qed.
#[local] Hint Resolve kept_select_boot : keeps.

Lemma kept_abort : keeps P abort_transport_transaction.
Proof. unfold abort_transport_transaction. keep. Qed.
#[local] Hint Resolve kept_abort : keeps.

Lemma kept_begin_offer c : keeps P (begin_offer c).
Proof. unfold begin_offer, run_offer, fence_begin_transaction, clear_active_transaction_id. keep. Qed.
#[local] Hint Resolve kept_begin_offer : keeps.

Lemma kept_command_turn c : keeps P (command_turn c).
Proof.
  unfold command_turn, stop_turn, set_stopped, serve_abort, fence_accepts, offer_turn, chunk_turn, write_turn,
    clear_active_transaction_id. keep.
Qed.

Lemma kept_tick_turn : keeps P tick_turn.
Proof. unfold tick_turn, clear_active_transaction_id. keep. Qed.
#[local] Hint Resolve kept_command_turn kept_tick_turn : keeps.

Lemma kept_exchange : keeps P exchange_request.
Proof. unfold exchange_request. keep. Qed.
Lemma kept_receive : keeps P receive_command.
Proof. unfold receive_command. keep. Qed.
#[local] Hint Resolve kept_exchange kept_receive : keeps.

Lemma kept_ota_turn : keeps P ota_turn.
Proof. unfold ota_turn. keep. Qed.

Lemma kept_ota_task turns : keeps P (ota_task turns).
Proof.
  induction turns as [|turns IH]; [apply keeps_ret|]. cbn [ota_task].
  apply keeps_bind; [apply kept_ota_turn|]. intros []; [exact IH|apply keeps_ret..].
Qed.

(** The turn behind its first look at the request. *)
Definition rest_of_turn : M (world D) outcome :=
  command ← receive_command;
  match command with
  | None => tick_turn
  | Some c =>
      requested ← exchange_request;
      valid ← (if requested : bool then abort_transport_transaction else mret true);
      if negb valid then mret Undefined
      else if requested && negb (bool_decide (kind c = stop)) then mret Continue
      else command_turn c
  end.

Lemma kept_rest_of_turn : keeps P rest_of_turn.
Proof. unfold rest_of_turn. keep. Qed.
End Robust.

(** At least [n] transports were cleaned up after, no more than were aborted,
    and at least [k] were aborted. *)
Definition cleaned (n k : nat) w : Prop :=
  (n <= served (ghost w) <= transports (ghost w))%nat /\ (k <= transports (ghost w))%nat.

Lemma cleaned_robust n k : robust (cleaned n k).
Proof.
  assert (sees_view (cleaned n k)) as Hv by (intros w w' E; unfold cleaned; apply (f_equal snd) in E; cbn in E; by rewrite E).
  assert (keeps (cleaned n k) interfere) as Hi.
  { apply keeps_interfere; [by intros w rest|]. intros a w. unfold cleaned. pose proof (link_transports w a).
    destruct (link_private w a) as (-> & _). lia. }
  assert (forall m, keeps (cleaned n k) (fence_call m)) as Hf.
  { intros m w Hw. unfold fence_call. apply Hi in Hw. destruct (interfere w) as [[] v]. cbn [snd] in *.
    by destruct (atomic m (transport_fence (service v))). }
  split; [done|done| | |by intros|..].
  - by intros.
  - intros w g Ht Hs. unfold cleaned. cbn. by rewrite Ht, Hs.
  - unfold fence_finish_abort. apply keeps_bind; [apply Hf|]. intros b w. unfold cleaned. cbn. lia.
  - unfold set_abort_complete. apply keeps_bind; [done|]. intros []. apply keeps_bind; [by intros w|]. by intros [] w.
Qed.

(** The fence does not stand in an abort, unless more than [k] transports were
    aborted ... *)
Definition opened (k : nat) w : Prop :=
  (k <= transports (ghost w))%nat /\ (transports (ghost w) = k -> (transport_fence (service w)).2 <> aborting).

(** ... and neither does the link task wait for one. *)
Definition completed w : Prop :=
  match link w with
  | Aborting (AtRequest | AtSend | AtWait) _ => kTransportAbortCompleteBit (service w) = true
  | _ => True
  end.

Definition over (k : nat) w : Prop := opened k w /\ (transports (ghost w) = k -> completed w).

Lemma atomic_opens m f f' : m <> BeginAbort -> atomic m f = Some f' -> f'.2 <> aborting.
Proof. destruct f as [epoch st]. destruct m; cbn; intros Hm E; repeat case_match; simplify_eq; done. Qed.

Lemma opened_link k w a : opened k w -> opened k (link_step w a).
Proof.
  unfold opened. intros [Hk Ho]. destruct a; cbn [link_step]; unfold proceed, time_out, deck_ota_service_offer,
    deck_ota_service_write, deck_ota_service_poll_result, abort_access; repeat case_match; cbn; try done; (split; [lia|]); intros; lia.
Qed.

Lemma over_link k w a : over k w -> over k (link_step w a).
Proof.
  intros [Ho Hc]. split; [by apply opened_link|]. destruct Ho as [Hk _]. unfold completed in *.
  destruct a; cbn [link_step]; unfold proceed, time_out, deck_ota_service_offer, deck_ota_service_write,
    deck_ota_service_poll_result, abort_access; repeat case_match; cbn in *; simplify_eq; try done; try congruence; intros; lia.
Qed.

Lemma opened_interfere k : keeps (opened k) interfere.
Proof. apply keeps_interfere; [by intros w rest|]. intros a w. apply opened_link. Qed.

Lemma over_interfere k : keeps (over k) interfere.
Proof. apply keeps_interfere; [by intros w rest|]. intros a w. apply over_link. Qed.

(** The completion bit is set for what the fence was opened behind. *)
Lemma complete_over k : leads (opened k) set_abort_complete (fun _ => over k).
Proof.
  unfold set_abort_complete. eapply leads_after; [apply opened_interfere|]. intros [] w Ho. access.
  split; [exact Ho|]. intros _. unfold completed. cbn. by repeat case_match.
Qed.

Lemma over_fence k m : m <> BeginAbort -> keeps (over k) (fence_call m).
Proof.
  intros Hm w Hw. unfold fence_call. apply over_interfere in Hw. revert Hw. generalize (interfere w).2. intros v [[Hk Ho] Hc].
  destruct (atomic m (transport_fence (service v))) as [f|] eqn:Ea; [|by split]. cbn [snd]. split; [split|]; [done| |done].
  intros _. cbn. by eapply atomic_opens.
Qed.

Lemma over_robust k : robust (over k).
Proof.
  split.
  - intros [s d l sch g] [s' d' l' sch' g'] E [[Hk Ho] Hc]. destruct s, s'. injection E; intros; subst. by repeat split.
  - apply over_interfere.
  - intros w s Hf Hb [[Hk Ho] Hc]. unfold over, opened, completed in *. cbn. by rewrite Hf, Hb.
  - intros w g Ht _ [[Hk Ho] Hc]. unfold over, opened, completed in *. cbn. by rewrite Ht.
  - intros m. apply over_fence.
  - unfold fence_finish_abort. apply keeps_bind; [by apply over_fence|]. intros b w Hw. exact Hw.
  - intros w [Ho _]. by apply complete_over.
Qed.
End Kept.

(** ** A request to abort *)

Section Liveness.
Context {D : Type} `{OtaPlatform D}.
Implicit Types (w : world D) (c : Command).

Lemma finish_opens n k : leads (cleaned n k) fence_finish_abort (fun _ w => cleaned k k w /\ opened k w).
Proof.
  intros w Hw. unfold fence_finish_abort. rewrite run_bind. unfold fence_call.
  apply (robust_interfere _ (cleaned_robust n k)) in Hw. revert Hw. generalize (interfere w).2. intros v [Hs Hk].
  destruct (atomic FinishAbort (transport_fence (service v))) as [f|] eqn:Ea; cbn [snd]; access; unfold cleaned, opened; cbn;
    (split; [lia|]); (split; [done|]); intros _.
  - by apply (atomic_opens FinishAbort _ _ ltac:(discriminate) Ea).
  - destruct (transport_fence (service v)) as [epoch st]. cbn in Ea. by case_bool_decide; simplify_eq.
Qed.

(** The transaction, if there is one, is in memory. *)
Definition owned w : Prop := transaction (service w) <> Freed.
Definition none w : Prop := transaction (service w) = Null.

#[local] Instance stable_owned : LinkStable owned.
Proof. exact (stable_private (fun p => p.2 <> Freed)). Qed.

Lemma interfere_private (R : transaction_pointer -> Prop) : keeps (fun w => R (transaction (service w))) interfere.
Proof.
  apply keeps_interfere; [by intros w rest|]. intros a w. by destruct (link_private w a) as (_ & _ & _ & _ & ->).
Qed.

Lemma fence_private (R : transaction_pointer -> Prop) m : keeps (fun w => R (transaction (service w))) (fence_call m).
Proof.
  intros w Hw. unfold fence_call. apply interfere_private in Hw. destruct (interfere w) as [[] v]. cbn [snd] in *.
  by destruct (atomic m (transport_fence (service v))).
Qed.

Lemma none_interfere : keeps none interfere.
Proof. apply (interfere_private (fun t => t = Null)). Qed.
#[local] Hint Resolve none_interfere : keeps.
#[local] Hint Extern 2 (keeps none (modify _)) => (by intros w) : keeps.
#[local] Hint Extern 2 (keeps none (modify_ghost _)) => (by intros w) : keeps.
#[local] Hint Extern 2 (keeps none (fence_call _)) => (apply (fence_private (fun t => t = Null))) : keeps.

Lemma none_drain fuel : keeps none (drain_results fuel).
Proof. induction fuel as [|fuel IH]; cbn [drain_results]; [keep|]. unfold receive_result. keep. Qed.
#[local] Hint Resolve none_drain : keeps.

Lemma none_finish_abort : keeps none fence_finish_abort.
Proof. unfold fence_finish_abort. keep. Qed.
Lemma none_complete : keeps none set_abort_complete.
Proof. unfold set_abort_complete. keep. Qed.
#[local] Hint Resolve none_finish_abort none_complete : keeps.

Lemma destroy_owned : leads owned destroy_transaction (fun valid _ => valid = true).
Proof.
  intros w Hw. unfold destroy_transaction. rewrite run_bind. cbn [get fst snd].
  unfold owned in Hw. destruct (transaction (service w)); [done|by run|done].
Qed.

(** An abort leaves no transaction, behind one that is in memory. *)
Lemma abort_owned : leads owned abort_transport_transaction (fun valid w => valid = true /\ none w).
Proof.
  unfold abort_transport_transaction. eapply leads_bind; [apply destroy_owned|]. intros valid w ->. cbn [negb].
  match goal with |- (?m w).1 = true /\ none (?m w).2 =>
    assert (leads (fun _ => True) m (fun valid w => valid = true /\ none w)) as Hl; [|by apply Hl] end.
  apply (leads_bind _ _ _ (fun _ => none)); [by intros v|]. intros [].
  do 3 (eapply leads_after; [auto with keeps|]; intros ?). by apply leads_ret.
Qed.

(** What holds behind the service of a request that was made when [k]
    transports had been aborted. *)
Definition served_all (k : nat) w : Prop := cleaned k k w /\ over k w.

Lemma served_robust k : robust (served_all k).
Proof.
  destruct (cleaned_robust (D := D) k k) as [H1 H2 H3 H4 H5 H6 H7], (over_robust (D := D) k) as [G1 G2 G3 G4 G5 G6 G7]. unfold served_all. split.
  - intros w w' E [? ?]. split; [by apply (H1 w)|by apply (G1 w)].
  - intros w [? ?]. split; [by apply H2|by apply G2].
  - intros w s' Hf Hb [? ?]. split; [by apply H3|by apply G3].
  - intros w g Ht Hs [? ?]. split; [by apply H4|by apply G4].
  - intros m Hm w [? ?]. split; [by apply H5|by apply G5].
  - intros w [? ?]. split; [by apply H6|by apply G6].
  - intros w [? ?]. split; [by apply H7|by apply G7].
Qed.

Lemma abort_serves n k :
  leads (cleaned n k) abort_transport_transaction (fun valid w => valid = true -> served_all k w).
Proof.
  pose proof (cleaned_robust (D := D) n k) as Hc. unfold abort_transport_transaction.
  eapply leads_after; [by apply kept_destroy|]. intros [|]; [|by apply leads_ret].
  eapply leads_after; [by intros w|]. intros []. eapply leads_after; [by apply kept_drain|]. intros [].
  eapply leads_bind; [apply finish_opens|]. intros []. apply (leads_bind _ _ _ (fun _ => served_all k)); [|intros []; by apply leads_ret].
  intros w [Hw Ho]. split; [by apply (robust_complete _ (cleaned_robust k k))|by apply complete_over].
Qed.

Lemma begin_continues c : leads (fun _ => True) (begin_offer c) (fun r _ => r = Continue).
Proof.
  unfold begin_offer, run_offer. eapply leads_after; [done|]. intros begins. case_match; [by apply leads_ret|].
  do 2 (eapply leads_after; [done|]; intros ?). eapply leads_after; [done|]. intros [r t]. eapply leads_after; [done|]. intros [].
  case_match; [by apply leads_ret|]. do 2 (eapply leads_after; [done|]; intros ?). by apply leads_ret.
Qed.

(** Without a transaction nothing is undefined. *)
Definition defined (o : outcome) : Prop := o <> Undefined.

Lemma none_command c : leads none (command_turn c) (fun o _ => defined o).
Proof.
  unfold command_turn. destruct (kind c).
  1, 2: (eapply leads_after; [unfold fence_accepts; keep|]; intros [|]; [|by apply leads_ret]; cbn [negb]; case_bool_decide).
  1, 3: intros w Hw; unfold offer_turn; rewrite run_bind; cbn [get fst snd]; unfold none in Hw; rewrite Hw;
    pose proof (begin_continues c w I) as Hb; unfold defined; by rewrite Hb.
  1, 2: intros w Hw; unfold chunk_turn; rewrite run_bind; cbn [get fst snd]; unfold none in Hw; rewrite Hw; by rewrite run_bind.
  - unfold serve_abort. apply (leads_bind _ _ _ (fun valid _ => valid = true)).
    + intros w Hw. apply abort_owned. unfold none, owned in *. by rewrite Hw.
    + intros valid. apply leads_ret. by intros w ->.
  - intros w Hw. unfold stop_turn. rewrite run_bind. unfold destroy_transaction. rewrite run_bind. cbn [get fst snd].
    unfold none in Hw. rewrite Hw. cbn [mret M_ret fst snd negb]. by rewrite run_bind, run_bind.
Qed.

Lemma none_rest : leads none rest_of_turn (fun o _ => defined o).
Proof.
  unfold rest_of_turn. eapply leads_after; [unfold receive_command; keep|]. intros [c|].
  - eapply leads_after; [unfold exchange_request; keep|]. intros requested.
    apply (leads_bind _ _ _ (fun valid w => valid = true /\ none w)).
    + destruct requested; [|by apply leads_ret]. intros w Hw. apply abort_owned. unfold none, owned in *. by rewrite Hw.
    + intros valid w [-> Hw]. cbn [negb]. case_match; [done|]. by apply none_command.
  - intros w Hw. unfold tick_turn. rewrite run_bind. cbn [get fst snd]. unfold none in Hw. by rewrite Hw.
Qed.

Lemma link_keeps_request w a :
  transport_abort_requested (service w) = true -> transport_abort_requested (service (link_step w a)) = true.
Proof.
  destruct a; cbn [link_step]; unfold proceed, time_out, deck_ota_service_offer, deck_ota_service_write,
    deck_ota_service_poll_result, abort_access; repeat case_match; cbn; done.
Qed.

Lemma turn_serves w :
  let k := transports (ghost w) in
  (served (ghost w) <= k)%nat -> owned w -> transport_abort_requested (service w) = true ->
  defined (ota_turn w).1 /\ served_all k (ota_turn w).2.
Proof.
  intros k Hs Ho Hr. pose proof (cleaned_robust (D := D) 0 k) as Hc.
  change ota_turn with (requested ← exchange_request; valid ← (if requested : bool then abort_transport_transaction else mret true);
    if negb valid then mret Undefined else rest_of_turn).
  assert (leads (fun v => (cleaned 0 k v /\ owned v) /\ transport_abort_requested (service v) = true) exchange_request
    (fun requested v => requested = true /\ cleaned 0 k v /\ owned v)) as He.
  { unfold exchange_request. eapply leads_after.
    - intros v [[H1 H2] H3]. split; [split; [by apply Hc|by apply (interfere_private (fun t => t <> Freed))]|].
      clear H1 H2. revert v H3. apply (keeps_interfere (fun v => transport_abort_requested (service v) = true)); [by intros v rest|].
      intros a v. apply link_keeps_request.
    - intros [] v [[H1 H2] H3]. access. rewrite H3. by access. }
  rewrite run_bind. destruct (He w) as [E Hv]; [by repeat split; try lia|]. rewrite E. revert Hv. generalize (exchange_request w).2. clear He E.
  intros v [Hv Hov]. rewrite run_bind. destruct (abort_owned v Hov) as [E Hn]. pose proof (abort_serves 0 k v Hv E) as Ha.
  rewrite E. cbn [negb]. split; [by apply none_rest|]. by apply (kept_rest_of_turn _ (served_robust k)).
Qed.

(** C30: A request to abort is served within one turn of the worker, whatever
    it was doing and whatever the link task does meanwhile.  At the end of the
    turn no result in the queue and no transaction in memory is of a transport
    that had been aborted when it began; and if no other was aborted since, the
    fence is open again, and the completion bit is set if the link task is
    waiting for it.  The turn does not use released memory, if the transaction
    was in memory when it began.  (Until the epochs of the fence wrap
    around.) *)
Theorem abort_requests_are_served running d s d' sch turns
    (Hstart : deck_ota_service_start running d = (Some s, d')) :
  let w := (ota_task turns (started s d' sch)).2 in
  let w' := (ota_turn w).2 in
  let k := transports (ghost w) in
  transport_abort_requested (service w) = true -> transaction (service w) <> Freed ->
  Z.of_nat (transports (ghost w')) < kMaximumEpoch ->
  (ota_turn w).1 <> Undefined
  /\ Forall (fun result => (k <= result.1)%nat) (results (service w'))
  /\ (forall t, transaction (service w') = Live t -> (k <= begun (ghost w'))%nat)
  /\ (transports (ghost w') = k ->
      (transport_fence (service w')).2 <> aborting
      /\ (forall point clean, link w' = Aborting point clean -> point <> AtBeginAbort ->
            kTransportAbortCompleteBit (service w') = true)).
Proof.
  intros w w' k Hreq Hlive Hfew.
  assert (cleaned 0 0 w) as [[_ Hs] _] by (apply (kept_ota_task _ (cleaned_robust 0 0)); unfold cleaned; cbn; lia).
  destruct (turn_serves w Hs Hlive Hreq) as [Hd [[Hc _] [[_ Ho] Hb]]]. fold w' k in Hc, Ho, Hb.
  assert (well w') as (c & h & Hw) by (by apply safe_ota_turn, safe_ota_task, (started_well _ _ _ _ sch Hstart)).
  destruct (Hw Hfew) as [Hi _]. split_and!.
  - exact Hd.
  - eapply Forall_impl; [exact (inv_results _ _ _ Hi)|]. cbn. lia.
  - intros t Ht. pose proof (inv_live _ _ _ Hi t Ht). lia.
  - intros E. split; [by apply Ho|]. intros point clean El Hp. specialize (Hb E). unfold completed in Hb. rewrite El in Hb. by destruct point.
Qed.
End Liveness.

(** ** Memory *)

Definition is_call_abort (a : link_action) : bool := match a with CallAbortTransport => true | _ => false end.
Definition is_aborting (l : link_state) : bool := match l with Aborting _ _ => true | _ => false end.
Definition of_first_transport (c : Command) : Prop := kind c <> abort_transport /\ (kind c = offer -> transport_epoch c = 1).

Section Memory.
Context {D : Type} `{OtaPlatform D}.
Implicit Types (w : world D) (c : Command).

(** No transport was aborted and none will be; the fence is in [st]. *)
Record undisturbed (st : State) w : Prop := {
  calm_schedule : Forall (Forall (fun a => is_call_abort a = false)) (schedule w);
  calm_link : is_aborting (link w) = false;
  calm_sending : forall c, link w = Sending c -> of_first_transport c;
  calm_fence : transport_fence (service w) = (1, st);
  calm_request : transport_abort_requested (service w) = false;
  calm_commands : Forall of_first_transport (commands (service w));
}.

Lemma undisturbed_link st w a : is_call_abort a = false -> undisturbed st w -> undisturbed st (link_step w a).
Proof.
  intros Ha Hu. destruct a; try done; cbn [link_step]; unfold proceed, time_out,
    deck_ota_service_offer, deck_ota_service_write, deck_ota_service_poll_result;
    repeat case_match; try done; destruct Hu as [Hsch Hl Hs Hf Hr Hc];
    try (match goal with E : link w = Aborting _ _ |- _ => by rewrite E in Hl end); constructor; cbn; try done.
  - intros c [= <-]. split; [done|]. cbn. by rewrite Hf.
  - intros c [= <-]. by split.
  - apply Forall_app. split; [done|]. apply Forall_cons. by split; [apply Hs|constructor].
  - by constructor.
Qed.

Lemma interfere_undisturbed st (R : transaction_pointer -> Prop) :
  keeps (fun w => undisturbed st w /\ R (transaction (service w))) interfere.
Proof.
  intros w [Hu HR]. unfold interfere. destruct (schedule w) as [|batch rest] eqn:Es; [done|]. cbn [snd].
  destruct Hu as [Hsch Hl Hs Hf Hr Hc]. rewrite Es in Hsch. apply Forall_cons in Hsch as [Hb Hsch].
  assert (undisturbed st (w <| schedule := rest |>)) as Hu by by constructor.
  assert (R (transaction (service (w <| schedule := rest |>)))) as HR' by done. revert Hu HR'.
  generalize (w <| schedule := rest |>). clear -Hb. induction Hb as [|a batch Ha _ IH]; intros v Hu HR; [done|].
  cbn [fold_left]. apply IH; [by apply undisturbed_link|]. by destruct (link_private v a) as (_ & _ & _ & _ & ->).
Qed.

(** ... and the transaction, if there is one, is in memory: between turns. *)
Definition at_rest (st : State) w : Prop := undisturbed st w /\ transaction (service w) <> Freed.
Definition calm w : Prop := exists st, (st = idle \/ st = active) /\ at_rest st w.

Lemma calm_view : sees_view calm.
Proof.
  intros [s d l sch g] [s' d' l' sch' g'] E (st & Hst & Hu & Ht). exists st. split; [done|].
  destruct s, s'. injection E; intros; subst. destruct Hu. split; [by constructor|done].
Qed.

Lemma calm_interfere : keeps calm interfere.
Proof.
  intros w (st & Hst & Hw). exists st. split; [done|]. by apply (interfere_undisturbed st (fun t => t <> Freed)).
Qed.

Lemma calm_modify f :
  (forall s, commands (f s) = commands s /\ transport_fence (f s) = transport_fence s
     /\ transport_abort_requested (f s) = transport_abort_requested s
     /\ (transaction s <> Freed -> transaction (f s) <> Freed)) ->
  keeps calm (modify f).
Proof.
  intros Hf w (st & Hst & [Hsch Hl Hs Hfe Hr Hc] & Ht). exists st. split; [done|].
  destruct (Hf (service w)) as (E1 & E2 & E3 & E4). split; [|by apply E4].
  constructor; cbn; rewrite ?E1, ?E2, ?E3; done.
Qed.

Lemma calm_ghost f : keeps calm (modify_ghost f).
Proof. intros w (st & Hst & Hu & Ht). exists st. split; [done|]. destruct Hu. split; [by constructor|done]. Qed.

Lemma calm_end : keeps calm (fence_call EndTransaction).
Proof.
  intros w Hw. unfold fence_call. apply calm_interfere in Hw. revert Hw. generalize (interfere w).2.
  intros v (st & Hst & Hu & Ht). rewrite (calm_fence _ _ Hu). cbn [atomic].
  destruct (bool_decide (st = active)); [|by exists st]. exists idle. split; [by left|]. split; [|done].
  destruct Hu. by constructor.
Qed.

Lemma calm_send from r : keeps calm (send_result from r).
Proof.
  unfold send_result. apply keeps_bind; [apply calm_interfere|]. intros [] w Hw. cbn [snd]. destruct (has_room _); [|done].
  by apply (calm_modify (fun s => s <| results := results s ++ [(from (ghost w), r)] |>)); [intros []|].
Qed.

#[local] Hint Resolve calm_view calm_interfere calm_end calm_send calm_ghost : keeps.
#[local] Hint Extern 2 (keeps _ (modify _)) => (apply calm_modify; by intros []) : keeps.

Lemma calm_publish t id r : keeps calm (publish_result t id r).
Proof. unfold publish_result, load_request. keep. Qed.
Lemma calm_reject id r : keeps calm (publish_rejection id r).
Proof. unfold publish_rejection, load_request. keep. Qed.
#[local] Hint Resolve calm_publish calm_reject : keeps.

(** A commit that begins ends. *)
Lemma calm_select_boot : keeps calm flash_select_boot.
Proof.
  change (leads calm flash_select_boot (fun _ => calm)). unfold flash_select_boot.
  apply (leads_bind _ _ _ (fun (commits : bool) => if commits then at_rest committing else calm)).
  - intros w Hw. unfold fence_call. apply calm_interfere in Hw. revert Hw.
    generalize (interfere w).2. intros v (st & Hst & Hu & Ht). rewrite (calm_fence _ _ Hu). cbn [atomic].
    destruct (bool_decide (st = active)); cbn [fst snd]; [|by exists st]. destruct Hu. split; [by constructor|done].
  - intros [|]; [|by apply leads_ret]. cbn [negb]. eapply leads_after; [by intros w|]. intros s.
    eapply leads_after.
    { case_match; [|apply keeps_ret]. apply keeps_boot; [|by intros v l [[] ?]; split; [constructor|]]. intros [s0 d l sch g] [s' d' l' sch' g'] E [Hu Ht].
      destruct s0, s'. injection E; intros; subst. destruct Hu. split; [by constructor|done]. }
    intros selected. apply (leads_bind _ _ _ (fun _ => calm)); [|intros b; by apply leads_ret].
    intros w Hw. unfold fence_call. apply (interfere_undisturbed committing (fun t => t <> Freed)) in Hw. revert Hw.
    generalize (interfere w).2. intros v [Hu Ht]. rewrite (calm_fence _ _ Hu). cbn [atomic snd].
    rewrite bool_decide_true by done. exists idle. split; [by left|]. destruct Hu. split; [by constructor|done].
Qed.
#[local] Hint Resolve calm_select_boot : keeps.

(** ** Turns *)

Definition safe_outcome (o : outcome) w : Prop := o <> Undefined /\ calm w.

Lemma continue_calm : forall w, calm w -> safe_outcome Continue w.
Proof. by intros. Qed.

(** A turn that keeps the calm and goes on. *)
Lemma leads_continue {A} (m : M (world D) A) : keeps calm m -> leads calm (_ ← m; mret Continue) safe_outcome.
Proof. intros Hm. eapply leads_after; [exact Hm|]. intros a. by apply leads_ret. Qed.

Lemma calm_clear : keeps calm clear_active_transaction_id.
Proof. unfold clear_active_transaction_id. keep. Qed.

Lemma leads_end : leads calm (_ ← fence_call EndTransaction; _ ← clear_active_transaction_id; mret Continue) safe_outcome.
Proof. eapply leads_after; [apply calm_end|]. intros b. apply leads_continue, calm_clear. Qed.

Ltac run_of w Hw :=
  revert w Hw;
  match goal with |- forall w, ?P w -> safe_outcome (?m w).1 (?m w).2 => change (leads P m safe_outcome) end.

Lemma calm_tick_turn : leads calm tick_turn safe_outcome.
Proof.
  intros w Hw. unfold tick_turn. rewrite run_bind. cbn [get fst snd].
  destruct (transaction (service w)) as [|t|] eqn:Et; [by apply continue_calm| |by destruct Hw as (st & _ & _ & ?)].
  clear Et. run_of w Hw. case_match; [by apply leads_ret|]. eapply leads_after; [apply keeps_now, calm_view|]. intros now.
  eapply leads_after; [apply keeps_tick, calm_view|]. intros [r t']. eapply leads_after; [auto with keeps|]. intros [].
  case_match; [by apply leads_ret|]. eapply leads_after; [by intros w|]. intros s.
  eapply leads_after; [apply calm_publish|]. intros []. apply leads_end.
Qed.

Lemma calm_chunk_turn c : leads calm (chunk_turn c) safe_outcome.
Proof.
  intros w Hw. unfold chunk_turn. rewrite run_bind. cbn [get fst snd].
  destruct (transaction (service w)) as [|t|] eqn:Et; [| |by destruct Hw as (st & _ & _ & ?)]; clear Et.
  - run_of w Hw. apply leads_continue, calm_reject.
  - match goal with |- context [strcmp_eq ?a ?b] => destruct (strcmp_eq a b) end; cbn [negb]; run_of w Hw;
      [|apply leads_continue, calm_reject]. unfold write_turn.
    eapply leads_after; [apply keeps_now, calm_view|]. intros now.
    eapply leads_after; [apply keeps_write; [apply calm_view|apply calm_select_boot]|]. intros [r t'].
    eapply leads_after; [auto with keeps|]. intros []. eapply leads_after; [apply calm_publish|]. intros [].
    case_match; [by apply leads_ret|]. apply leads_end.
Qed.

Lemma calm_run_offer c created : leads (undisturbed active) (run_offer c created) safe_outcome.
Proof.
  unfold run_offer. apply (leads_bind _ _ _ (fun _ => calm)).
  - intros w Hu. exists active. split; [by right|]. destruct Hu. split; [by constructor|]. by destruct created.
  - intros []. eapply leads_after; [keep|]. intros [r t]. eapply leads_after; [apply calm_publish|]. intros [].
    case_match; [by apply leads_ret|]. apply leads_end.
Qed.

Lemma keeps_undisturbed_create : keeps (undisturbed active) create_transaction.
Proof.
  apply keeps_create. intros [s d l sch g] [s' d' l' sch' g'] E Hu. destruct s, s'. injection E; intros; subst.
  destruct Hu. by constructor.
Qed.

(** An idle fence begins, with or without a transaction in memory. *)
Lemma calm_begin c : transport_epoch c = 1 -> leads (undisturbed idle) (begin_offer c) safe_outcome.
Proof.
  intros Hc. unfold begin_offer.
  apply (leads_bind _ _ _ (fun (begins : bool) w => begins = true /\ undisturbed active w)).
  - intros w Hw. unfold fence_begin_transaction, fence_call. rewrite run_bind.
    destruct (interfere_undisturbed idle (fun _ => True) w ltac:(by split)) as [Hv _]. revert Hv.
    generalize (interfere w).2. intros v Hv. rewrite (calm_fence _ _ Hv). cbn [atomic]. rewrite Hc. access.
    split; [done|]. destruct Hv. by constructor.
  - intros begins w [-> Hw]. cbn [negb]. revert w Hw.
    change (leads (undisturbed active) (created ← create_transaction; run_offer c created) safe_outcome).
    eapply leads_after; [apply keeps_undisturbed_create|]. apply calm_run_offer.
Qed.

Lemma calm_begin_null c : leads calm (begin_offer c) safe_outcome.
Proof.
  unfold begin_offer. apply (leads_bind _ _ _ (fun (begins : bool) => if begins then undisturbed active else calm)).
  - intros w Hw. unfold fence_begin_transaction, fence_call. rewrite run_bind. apply calm_interfere in Hw. revert Hw.
    generalize (interfere w).2. intros v (st & Hst & Hu & Ht). rewrite (calm_fence _ _ Hu). cbn [atomic].
    destruct (_ && _) eqn:Eb; access; [|by exists st]. destruct Hu. bool_prop. constructor; cbn; congruence || done.
  - intros [|]; [|by apply leads_ret]. eapply leads_after; [apply keeps_undisturbed_create|]. apply calm_run_offer.
Qed.

(** The memory of the old transaction is released. *)
Definition released w : Prop := exists st, (st = idle \/ st = active) /\ undisturbed st w.

Lemma calm_destroy : leads calm destroy_transaction (fun valid w => valid = true /\ released w).
Proof.
  intros w Hw. unfold destroy_transaction. rewrite run_bind. cbn [get fst snd].
  destruct (transaction (service w)) as [|t|] eqn:Et; [| |by destruct Hw as (st & _ & _ & ?)].
  - split; [done|]. destruct Hw as (st & Hst & Hu & _). by exists st.
  - access. split; [done|]. destruct (keeps_destroy calm calm_view t w Hw) as (st & Hst & Hu & _). exists st.
    split; [done|]. destruct Hu. by constructor.
Qed.

Lemma released_end : leads released (fence_call EndTransaction) (fun _ => undisturbed idle).
Proof.
  intros w (st & Hst & Hu). unfold fence_call. destruct (interfere_undisturbed st (fun _ => True) w ltac:(by split)) as [Hv _].
  revert Hv. generalize (interfere w).2. intros v Hv. rewrite (calm_fence _ _ Hv). cbn [atomic].
  destruct Hst as [-> | ->]; [done|]. cbn [snd]. destruct Hv. by constructor.
Qed.

Lemma calm_offer_turn c : transport_epoch c = 1 -> leads calm (offer_turn c) safe_outcome.
Proof.
  intros Hc w Hw. unfold offer_turn. rewrite run_bind. cbn [get fst snd].
  destruct (transaction (service w)) as [|t|] eqn:Et; [by apply calm_begin_null| |by destruct Hw as (st & _ & _ & ?)].
  clear Et. case_match; run_of w Hw; [apply leads_continue, calm_reject|].
  eapply leads_bind; [apply calm_destroy|]. intros valid.
  apply (leads_weaken _ released _ _ safe_outcome); [|by intros w []|done].
  eapply leads_bind; [apply released_end|]. intros b. by apply calm_begin.
Qed.

Lemma calm_stop_turn : leads calm stop_turn safe_outcome.
Proof.
  unfold stop_turn. eapply leads_bind; [apply calm_destroy|]. intros valid w [-> Hw]. cbn [negb]. revert w Hw.
  change (leads released (_ ← modify (fun s => s <| transaction := Null |>); _ ← set_stopped; mret Stopped) safe_outcome).
  apply (leads_bind _ _ _ (fun _ => calm)).
  - intros w (st & Hst & Hu). exists st. split; [done|]. destruct Hu. by split; [constructor|].
  - intros []. unfold set_stopped. eapply leads_after; [keep|]. intros []. by apply leads_ret.
Qed.

Lemma calm_command_turn c : of_first_transport c -> leads calm (command_turn c) safe_outcome.
Proof.
  intros [Hka Hko]. unfold command_turn. destruct (kind c) eqn:Ek; [..|done|apply calm_stop_turn];
    (eapply leads_after; [unfold fence_accepts; keep|]; intros [|]; [|by apply leads_ret]; cbn [negb]).
  - rewrite bool_decide_true by done. by apply calm_offer_turn, Hko.
  - rewrite bool_decide_false by done. apply calm_chunk_turn.
Qed.

Lemma calm_exchange : leads calm exchange_request (fun requested w => requested = false /\ calm w).
Proof.
  unfold exchange_request. eapply leads_after; [apply calm_interfere|]. intros [] w (st & Hst & Hu & Ht). access.
  rewrite (calm_request _ _ Hu). access. split; [done|]. exists st. split; [done|]. destruct Hu. by split; [constructor|].
Qed.

Lemma calm_receive : leads calm receive_command
  (fun received w => calm w /\ forall c, received = Some c -> of_first_transport c).
Proof.
  unfold receive_command. eapply leads_after; [apply calm_interfere|]. intros [] w (st & Hst & Hu & Ht). access.
  destruct (commands (service w)) as [|c rest] eqn:Ec; access; [split; [by exists st|done]|].
  pose proof (calm_commands _ _ Hu) as Hc. rewrite Ec in Hc. apply Forall_cons in Hc as [Hc Hcs].
  assert (is_abort_command c = false) as -> by (destruct Hc; by apply bool_decide_eq_false). access.
  split; [|by intros c' [= <-]]. exists st. split; [done|]. destruct Hu. by split; [constructor|].
Qed.

Lemma calm_ota_turn : leads calm ota_turn safe_outcome.
Proof.
  unfold ota_turn. eapply leads_bind; [apply calm_exchange|]. intros requested w [-> Hw]. rewrite run_bind. cbn [mret M_ret fst snd negb]. rewrite run_bind.
  destruct (calm_receive w Hw) as [Hv Hc]. revert Hv Hc. generalize (receive_command w). clear.
  intros [[c|] v] Hv Hc; cbn [fst snd] in *; [|by apply calm_tick_turn]. rewrite run_bind.
  destruct (calm_exchange v Hv) as [-> Hu]. rewrite run_bind. cbn [mret M_ret fst snd negb andb]. by apply calm_command_turn; [apply Hc|].
Qed.

Lemma calm_ota_task turns : leads calm (ota_task turns) safe_outcome.
Proof.
  induction turns as [|turns IH]; [by apply leads_ret|]. cbn [ota_task].
  eapply leads_bind; [apply calm_ota_turn|]. intros result w [Hr Hw].
  destruct result; [by apply IH|by split|done].
Qed.

(** As long as no transport is aborted the worker uses only
    memory it owns: a transaction is released exactly when its place is taken,
    whatever is offered, sent, refused, timed out or stopped, in every
    interleaving.  (With an abort it may not be: lost_race_uses_freed_memory.) *)
Theorem memory_is_safe_without_aborts running d s d' sch turns
    (Hstart : deck_ota_service_start running d = (Some s, d'))
    (Hsch : Forall (Forall (fun a => is_call_abort a = false)) sch) :
  (ota_task turns (started s d' sch)).1 <> Undefined.
Proof.
  apply (calm_ota_task turns). exists idle. split; [by left|]. destruct (started_service _ _ _ _ Hstart) as [o ->].
  split; [|done]. by constructor.
Qed.
End Memory.

(** ** The signed bytes *)

Lemma put_u32_inj a b : is_u32 a -> is_u32 b -> put_u32 a = put_u32 b -> a = b.
Proof.
  unfold is_u32, put_u32, u8. intros Ha Hb [= H1 H2 H3 H4].
  rewrite !Z.shiftr_div_pow2 in * by lia. change (2 ^ 24) with 16777216 in *. change (2 ^ 16) with 65536 in *.
  change (2 ^ 8) with 256 in *. words.
Qed.

Lemma pad_inj capacity a b : pad capacity (c_string a) = pad capacity (c_string b) -> c_string a = c_string b.
Proof. intros E. apply (f_equal c_string) in E. by rewrite !c_string_pad in E by apply c_string_nonzero. Qed.

(** A manifest as [deck_ota_transaction_offer] has it verified. *)
Record presentable (m : deck_ota_manifest_t) : Prop := {
  presentable_version : safe_version (version m) = true;
  presentable_board : safe_board (board m) = true;
  presentable_length : is_u32 (image_length m);
  presentable_key : is_u32 (signing_key_id m);
  presentable_protocol : is_u32 (minimum_protocol_version m);
  presentable_digest : List.length (image_sha256 m) = DECK_OTA_DIGEST_BYTES;
}.

Lemma presentable_texts m : presentable m -> (strlen (board m) <= 48)%nat /\ (strlen (version m) <= 32)%nat.
Proof.
  intros [Hv Hb _ _ _ _]. split.
  - clear Hv. unfold safe_board, DECK_OTA_BOARD_CAPACITY in Hb. destruct (negb _); [done|].
    destruct (_ || _) eqn:E; [done|]. bool_prop. lia.
  - clear Hb. unfold safe_version in Hv. destruct (negb _); [done|]. destruct (_ || _) eqn:E; [done|]. bool_prop. lia.
Qed.

(** The signature covers the manifest: the canonical bytes fill
    their array exactly, for every text the offer lets through, and manifests
    with the same bytes are the same in every field but the signature, so a
    signature made for one cannot be used for another. *)
Theorem signature_covers_manifest m m' (Hm : presentable m) (Hm' : presentable m') :
  List.length (canonical_manifest m) = 134%nat
  /\ (canonical_manifest m = canonical_manifest m' ->
      c_string (version m) = c_string (version m') /\ c_string (board m) = c_string (board m')
      /\ image_length m = image_length m' /\ signing_key_id m = signing_key_id m'
      /\ minimum_protocol_version m = minimum_protocol_version m' /\ image_sha256 m = image_sha256 m').
Proof.
  assert (forall n (a b c d : bytes), List.length a = n -> List.length c = n -> a ++ b = c ++ d -> a = c /\ b = d) as Hsplit
    by (intros n a b c d Ha Hc; apply app_inj_1; congruence).
  destruct (presentable_texts _ Hm) as [Hb Hv], (presentable_texts _ Hm') as [Hb' Hv'].
  assert (forall capacity t, (strlen t <= capacity)%nat -> List.length (pad capacity (c_string t)) = capacity) as Hpad
    by (intros; by apply length_pad).
  destruct Hm as [_ _ Hl Hk Hp Hd], Hm' as [_ _ Hl' Hk' Hp' Hd']. unfold canonical_manifest. split.
  - rewrite !length_app, (Hpad 48%nat), (Hpad 32%nat), length_take, Hd by assumption. reflexivity.
  - intros E. apply (Hsplit 10%nat) in E as [_ E]; [|reflexivity..]. apply (Hsplit 4%nat) in E as [E1 E]; [|done..]. apply (Hsplit 4%nat) in E as [E2 E]; [|done..].
    apply (Hsplit 4%nat) in E as [E3 E]; [|done..]. apply (Hsplit 48%nat) in E as [E4 E]; [|by apply Hpad..].
    apply (Hsplit 32%nat) in E as [E5 E]; [|by apply Hpad..]. rewrite !take_ge in E by lia.
    split_and!; try (by apply put_u32_inj); try (by eapply pad_inj); done.
Qed.

(** ** Witnesses *)

Section Examples.
Import OtaServiceExample.
#[local] Existing Instance platform.

(** The transport drops while an image is received and its first result is in
    the queue. *)
Definition dropped : list (list link_action) :=
  [[CallOffer id manifest; Proceed]; []; []; []; []; []; [CallAbortTransport; Proceed; Proceed; Proceed]].

Lemma abort_requests_are_served_witness :
  let w := (ota_task 1 (start dropped)).2 in
  List.length (results (service w)) = 1%nat /\ transport_abort_requested (service w) = true /\ kTransportAbortCompleteBit (service w) = false
  /\ results (service (ota_turn w).2) = [] /\ kTransportAbortCompleteBit (service (ota_turn w).2) = true
  /\ (ota_turn w).1 <> Undefined.
Proof.
  cbv zeta. do 5 (split; [vm_compute; reflexivity|]).
  refine (proj1 (abort_requests_are_served (literal "1.2.0" ++ [0]) 5 (service (start [])) 5 dropped 1 _ _ _ _)); vm_compute; (reflexivity || discriminate).
Defined.

Lemma memory_is_safe_without_aborts_witness : (ota_task 4 (start update)).1 <> Undefined.
Proof.
  apply (memory_is_safe_without_aborts (literal "1.2.0" ++ [0]) 5 (service (start [])) 5 update 4).
  - vm_compute. reflexivity.
  - apply (bool_decide_unpack _). vm_compute. reflexivity.
Defined.

Lemma manifest_presentable : presentable manifest.
Proof. constructor; try reflexivity; unfold is_u32; vm_compute; split; discriminate. Qed.

Lemma signature_covers_manifest_witness : List.length (canonical_manifest manifest) = 134%nat.
Proof. apply (signature_covers_manifest manifest manifest); exact manifest_presentable. Defined.
End Examples.
