(* ===== verification/OtaBoot.v ===== *)
(** * The first boot of a new image

    [components/ota_service/deck_ota_boot_health.cpp] and the boot guard of
    [deck_ota_service.cpp]: an image that was selected by an update stays on
    trial until the application confirms that it is healthy; a guard task rolls
    back at a deadline. *)

From S2P Require Import Prelude.

(** ** The decision *)

Record deck_ota_boot_health_t := {
  pending_verify : bool;
  display_ready : bool;
  peripherals_ready : bool;
  wifi_subsystem_ready : bool;
  companion_subsystem_ready : bool;
  fatal_failure : bool;
  elapsed_ms : Z;
  deadline_ms : Z;
}.

Inductive deck_ota_boot_decision_t :=
  | DECK_OTA_BOOT_NOT_PENDING
  | DECK_OTA_BOOT_WAIT
  | DECK_OTA_BOOT_MARK_VALID
  | DECK_OTA_BOOT_ROLLBACK.

#[export] Instance boot_decision_eq_dec : EqDecision deck_ota_boot_decision_t.
Proof. solve_decision. Defined.

Definition deck_ota_boot_health_decide (health : option deck_ota_boot_health_t) : deck_ota_boot_decision_t :=
  match health with
  | None => DECK_OTA_BOOT_NOT_PENDING
  | Some health =>
      if negb (pending_verify health) then DECK_OTA_BOOT_NOT_PENDING
      else if fatal_failure health || (deadline_ms health =? 0) || (deadline_ms health <=? elapsed_ms health)
      then DECK_OTA_BOOT_ROLLBACK
      else if display_ready health && peripherals_ready health && wifi_subsystem_ready health
              && companion_subsystem_ready health
      then DECK_OTA_BOOT_MARK_VALID
      else DECK_OTA_BOOT_WAIT
  end.

(** ** The guard *)

Inductive esp_ota_img_states_t := ESP_OTA_IMG_PENDING_VERIFY | ESP_OTA_IMG_OTHER.

#[export] Instance img_state_eq_dec : EqDecision esp_ota_img_states_t.
Proof. solve_decision. Defined.

(** The bits and the flag that the guard task and the caller of [confirm]
    share. *)
Record deck_ota_boot_guard := {
  guard_deadline_ms : Z;
  confirmed : bool;
  notified : bool;
  kBootGuardStoppedBit : bool;
}.
#[export] Instance guard_rebuild : Rebuild deck_ota_boot_guard := fun g =>
  Build_deck_ota_boot_guard (guard_deadline_ms g) (confirmed g) (notified g) (kBootGuardStoppedBit g).

(** The guard and whether the image was rolled back: [running_state] is the
    state of the running partition, [None] when it cannot be read; [allocated]
    and [created] are the memory and the task. *)
Definition deck_ota_boot_guard_start (running_state : option esp_ota_img_states_t) (allocated created : bool)
    (deadline : Z) : option deck_ota_boot_guard * bool :=
  match running_state with
  | None => (None, false)
  | Some running_state =>
      if negb (bool_decide (running_state = ESP_OTA_IMG_PENDING_VERIFY)) then (None, false)
      else if (deadline =? 0) || (U32_MAX <? deadline) then (None, false)
      else if negb allocated then (None, true)
      else if negb created then (None, true)
      else (Some {| guard_deadline_ms := deadline; confirmed := false; notified := false; kBootGuardStoppedBit := false |},
            false)
  end.

(** What the four arguments of [confirm] say. *)
Record readiness := { display : bool; peripherals : bool; wifi_subsystem : bool; companion_subsystem : bool }.

Definition confirm_health (g : deck_ota_boot_guard) (r : readiness) : deck_ota_boot_health_t := {|
  pending_verify := true; display_ready := display r; peripherals_ready := peripherals r;
  wifi_subsystem_ready := wifi_subsystem r; companion_subsystem_ready := companion_subsystem r;
  fatal_failure := false; elapsed_ms := 0; deadline_ms := guard_deadline_ms g |}.

(** ** The two tasks *)

Inductive task_point := Waiting | Woken | Suspended.

(** The caller of [deck_ota_boot_guard_confirm]. *)
Inductive caller_point := NotCalling | AtStore | AtNotify | AtWait | Deleted.

Inductive boot_event := MarkedValid (succeeded : bool) | RolledBack.

(** [elapsed]: milliseconds since the task started to wait.  [calls] is a
    ghost: what [confirm] was called with. *)
Record boot := {
  guard : deck_ota_boot_guard;
  task : task_point;
  caller : caller_point;
  elapsed : Z;
  calls : list readiness;
  events : list boot_event;
}.
#[export] Instance boot_rebuild : Rebuild boot := fun b =>
  Build_boot (guard b) (task b) (caller b) (elapsed b) (calls b) (events b).

(** [boot_guard_task] behind its wait; [valid] is what
    [esp_ota_mark_app_valid_cancel_rollback] answers. *)
Definition boot_guard_decide (g : deck_ota_boot_guard) (valid : bool) : list boot_event :=
  if confirmed g then MarkedValid valid :: (if negb valid then [RolledBack] else []) else [RolledBack].

Definition deck_ota_boot_guard_confirm (b : boot) (r : readiness) : boot :=
  let b := b <| calls := calls b ++ [r] |> in
  if negb (bool_decide (deck_ota_boot_health_decide (Some (confirm_health (guard b) r)) = DECK_OTA_BOOT_MARK_VALID))
  then b else b <| caller := AtStore |>.

Inductive step : boot -> boot -> Prop :=
  | step_time b ms : 0 <= ms -> step b (b <| elapsed := elapsed b + ms |>)
  | step_wake b : task b = Waiting -> notified (guard b) = true \/ guard_deadline_ms (guard b) <= elapsed b ->
      step b (b <| task := Woken |>)
  | step_decide b valid : task b = Woken ->
      step b (b <| events := events b ++ boot_guard_decide (guard b) valid |>
                <| guard := (guard b) <| kBootGuardStoppedBit := true |> |> <| task := Suspended |>)
  | step_confirm b r : caller b = NotCalling -> step b (deck_ota_boot_guard_confirm b r)
  | step_store b : caller b = AtStore ->
      step b (b <| guard := (guard b) <| confirmed := true |> |> <| caller := AtNotify |>)
  | step_notify b : caller b = AtNotify ->
      step b (b <| guard := (guard b) <| notified := true |> |> <| caller := AtWait |>)
  | step_stopped b : caller b = AtWait -> kBootGuardStoppedBit (guard b) = true -> step b (b <| caller := Deleted |>)
  | step_timeout b : caller b = AtWait -> kBootGuardStoppedBit (guard b) = false -> step b (b <| caller := NotCalling |>).

Definition started (g : deck_ota_boot_guard) : boot :=
  {| guard := g; task := Waiting; caller := NotCalling; elapsed := 0; calls := []; events := [] |}.

Inductive reachable (g : deck_ota_boot_guard) : boot -> Prop :=
  | reachable_started : reachable g (started g)
  | reachable_step b b' : reachable g b -> step b b' -> reachable g b'.

(** ** What it guarantees *)

Definition healthy (r : readiness) : bool := display r && peripherals r && wifi_subsystem r && companion_subsystem r.

Definition suspended (t : task_point) : bool := match t with Suspended => true | _ => false end.

Definition once_ready (b : boot) : Prop := Exists (fun r => healthy r = true) (calls b).

Record boot_inv (g : deck_ota_boot_guard) (b : boot) : Prop := {
  boot_deadline : guard_deadline_ms (guard b) = guard_deadline_ms g;
  boot_asked : confirmed (guard b) = true \/ caller b = AtStore -> once_ready b;
  boot_caller : caller b = AtNotify \/ caller b = AtWait -> confirmed (guard b) = true;
  boot_notified : notified (guard b) = true -> confirmed (guard b) = true;
  boot_bit : kBootGuardStoppedBit (guard b) = suspended (task b);
  boot_woken : task b = Woken -> confirmed (guard b) = true \/ guard_deadline_ms g <= elapsed b;
  boot_events :
    if suspended (task b)
    then events b = [RolledBack] /\ guard_deadline_ms g <= elapsed b
         \/ (exists valid, events b = MarkedValid valid :: (if valid then [] else [RolledBack]) /\ once_ready b)
    else events b = [];
}.

Lemma once_ready_snoc b r : once_ready b -> once_ready (b <| calls := calls b ++ [r] |>).
Proof. intros Hr. apply Exists_app. by left. Qed.

Lemma decide_healthy g r : deck_ota_boot_health_decide (Some (confirm_health g r)) = DECK_OTA_BOOT_MARK_VALID -> healthy r = true.
Proof. cbn. repeat case_match; try done. Qed.

Lemma confirm_inv g b r : caller b = NotCalling -> boot_inv g b -> boot_inv g (deck_ota_boot_guard_confirm b r).
Proof.
  intros Hc [Hd Ha Hca Hn Hb Hw He]. unfold deck_ota_boot_guard_confirm.
  assert (boot_inv g (b <| calls := calls b ++ [r] |>)) as Hi.
  { constructor; cbn; try done.
    - intros H. by apply once_ready_snoc, Ha.
    - destruct (suspended (task b)); [|done]. destruct He as [?|(v & ? & ?)]; [by left|].
      right. exists v. split; [done|by apply once_ready_snoc]. }
  destruct (bool_decide _) eqn:Hv; cbn [negb]; [|exact Hi]. destruct Hi. constructor; cbn; try done.
  - intros _. apply Exists_app. right. apply Exists_cons. left. eapply decide_healthy. by apply bool_decide_eq_true in Hv.
  - by intros [?|?].
Qed.

Lemma decide_inv g b valid : task b = Woken -> boot_inv g b ->
  boot_inv g (b <| events := events b ++ boot_guard_decide (guard b) valid |>
                <| guard := (guard b) <| kBootGuardStoppedBit := true |> |> <| task := Suspended |>).
Proof.
  intros Ht [Hd Ha Hca Hn Hb Hw He]. constructor; cbn; try done. rewrite Ht in He. cbn in He. rewrite He. cbn [app].
  unfold boot_guard_decide. destruct (confirmed (guard b)) eqn:Ec.
  - right. exists valid. split; [by destruct valid|]. apply Ha. by left.
  - left. split; [done|]. by destruct (Hw Ht).
Qed.

Lemma reachable_boot_inv g b : confirmed g = false -> notified g = false -> kBootGuardStoppedBit g = false ->
  reachable g b -> boot_inv g b.
Proof.
  intros Hc0 Hn0 Hb0. induction 1 as [|b b' _ Hi Hs].
  { constructor; cbn; try done; intros; naive_solver congruence. }
  destruct Hs; [|destruct Hi as [Hd Ha Hca Hn Hb Hw He] ..].
  - destruct Hi as [Hd Ha Hca Hn Hb Hw He]. constructor; cbn; try done.
    + intros Hwk. destruct (Hw Hwk); [by left|right; lia].
    + destruct (suspended (task b)); [|done]. destruct He as [[? ?]|?]; [left; split; [done|lia]|by right].
  - constructor; cbn; try done; try (by rewrite H in *).
    intros _. destruct H0; [left; by apply Hn|right; congruence].
  - by apply decide_inv.
  - by apply confirm_inv.
  - constructor; cbn; try done; [intros; apply Ha; by right|by left].
  - pose proof (Hca (or_introl H)) as Hcf. constructor; cbn; try done. intros _. apply Ha. by left.
  - constructor; cbn; try done; naive_solver.
  - constructor; cbn; try done; naive_solver.
Qed.

(** C29: The guard decides once and rightly, for every
    interleaving of its task, the clock and the application: the image is
    marked valid only after the application reported all four subsystems ready
    in one call; it is rolled back without that only when the deadline has
    passed; and a task that has not decided can always decide, at once when it
    was notified and at the deadline otherwise. *)
Theorem boot_guard_decides_rightly deadline g b
    (Hstart : deck_ota_boot_guard_start (Some ESP_OTA_IMG_PENDING_VERIFY) true true deadline = (Some g, false))
    (Hb : reachable g b) :
  (forall valid, MarkedValid valid ∈ events b -> once_ready b)
  /\ (events b = [] \/ (events b = [RolledBack] /\ deadline <= elapsed b)
      \/ exists valid, events b = MarkedValid valid :: (if valid then [] else [RolledBack]))
  /\ (suspended (task b) = false -> notified (guard b) = true \/ deadline <= elapsed b ->
      exists b', rtc step b b' /\ suspended (task b') = true).
Proof.
  unfold deck_ota_boot_guard_start in Hstart. cbn in Hstart. destruct (_ || _); [done|]. injection Hstart as <-.
  destruct (reachable_boot_inv {| guard_deadline_ms := deadline; confirmed := false; notified := false; kBootGuardStoppedBit := false |} b eq_refl eq_refl eq_refl Hb) as [Hd Ha Hca Hn Hbit Hw He]. cbn in *. split_and!.
  - intros valid Hv. destruct (suspended (task b)); [|rewrite He in Hv; by apply elem_of_nil in Hv].
    destruct He as [[E _]|(v & E & ?)]; [|done]. rewrite E in Hv. by apply list_elem_of_singleton in Hv.
  - destruct (suspended (task b)); [|by left]. right. destruct He as [?|(v & E & _)]; [by left|right; by exists v].
  - intros Ht Hwake. destruct (task b) eqn:Et; [| |done].
    + eexists. split; [eapply rtc_l; [apply step_wake; [done|by rewrite Hd]|];
        by apply rtc_once, (step_decide _ true)|reflexivity].
    + eexists. split; [by apply rtc_once, (step_decide _ true)|reflexivity].
Qed.

(** A healthy boot, as app_main confirms it. *)
Module BootExample.
Definition g : deck_ota_boot_guard :=
  {| guard_deadline_ms := 60000; confirmed := false; notified := false; kBootGuardStoppedBit := false |}.
Definition r : readiness :=
  {| display := true; peripherals := true; wifi_subsystem := true; companion_subsystem := true |}.
Definition b1 : boot := deck_ota_boot_guard_confirm (started g) r.
Definition b2 : boot := b1 <| guard := (guard b1) <| confirmed := true |> |> <| caller := AtNotify |>.
Definition b3 : boot := b2 <| guard := (guard b2) <| notified := true |> |> <| caller := AtWait |>.
Definition b4 : boot := b3 <| task := Woken |>.
Definition b5 : boot :=
  b4 <| events := events b4 ++ boot_guard_decide (guard b4) true |>
     <| guard := (guard b4) <| kBootGuardStoppedBit := true |> |> <| task := Suspended |>.

Lemma b5_reachable : reachable g b5.
Proof.
  apply (reachable_step g b4); [|by apply (step_decide b4)]. apply (reachable_step g b3); [|by apply (step_wake b3); [|left]].
  apply (reachable_step g b2); [|by apply (step_notify b2)]. apply (reachable_step g b1); [|by apply (step_store b1)].
  apply (reachable_step g (started g)); [apply reachable_started|by apply (step_confirm (started g))].
Qed.
End BootExample.

Lemma boot_guard_decides_rightly_witness :
  events BootExample.b5 = [MarkedValid true] /\ once_ready BootExample.b5.
Proof.
  split; [reflexivity|].
  apply (boot_guard_decides_rightly 60000 BootExample.g BootExample.b5 eq_refl BootExample.b5_reachable) with (valid := true).
  by left.
Defined.
